(* ===== verification/_CoqProject ===== *)
-Q . S2P
Prelude.v
JsNum.v
JsValue.v
Word32.v
DagTypes.v
DagGraph.v
Canonical.v
DagReplan.v
DagNode.v
DagExec.v
DagExecFacts.v
DagInvariant.v
DagTermination.v
DagProps.v
DagNodeProps.v
Chain.v
ChainBinding.v
ReceiptQueue.v
Bulkhead.v
CircuitBreaker.v
Retry.v
Idempotent.v
Random.v
FormalSpec.v
Attenuation.v
Veto.v
Battery.v
BatteryProps.v
GateEnvelope.v
ActionGate.v
Delegation.v
BestOfN.v
BatteryWitnesses.v
Regex.v
Json.v
WorldState.v
Budget.v
BudgetProps.v
ClaimGuards.v
Coalescer.v
Approval.v
Trackers.v
LoopTypes.v
AgentLoop.v
LoopProtocol.v
LoopBounds.v
AgentLoopProps.v
NumText.v
JsonParse.v
TokenBase.v
Dpop.v
SubToken.v
TokenProps.v
RemoteHub.v
RemoteHubProps.v
RemoteApproval.v
RemoteServer.v
RemoteServerProps.v
RemoteWitnesses.v
Ooda.v
OodaProps.v
Teammate.v
TeammateProps.v
TeamActionProps.v
Privacy.v
PrivacyProps.v
AnchorChecks.v
TestCommand.v
GateRunner.v
GateRunnerProps.v
Mesh.v
Certificate.v
Provable.v
TraceViews.v
Economy.v
Patterns.v
Strategies.v
Sampling.v
SkillManifest.v
ProviderRouter.v
