(* ===== verification/Prelude.v ===== *)
(** * Verification of the Vauban agent SDK

    The agent SDK is a TypeScript library for running governed agents.  This
    development models the parts of it that decide something: which node of a
    workflow runs and when, which tool call an agent may execute, when its loop
    stops, which candidate answer survives verification, what a bearer of a
    token may do from afar, what a trace commits to, and how calls are retried,
    limited and deduplicated.  Paths below are relative to [src/] of the
    package.

    ** The program and the files that model it

    - Values and text.  [JsNum] holds doubles (the Standard Library's
      [SpecFloat] with 53 bits), their order, [Math.min]/[Math.max] and their
      decimal printing; [NumText] their exactness on integers and the reading
      of what is printed; [Word32] the 32-bit operators; [JsValue]
      the [unknown] payloads as finite trees; [Json] and [JsonParse] the text of
      values and its parser; [Regex] the regular expressions of the source,
      parsed and matched; [TokenBase] language operations on parsed values.
      [Canonical] is [trace/canonical.ts]: what can be serialized and hashed.
    - The DAG engine, [orchestration/dag/scheduler.ts] and [contracts.ts].
      [DagTypes] has the contracts of its ports; [DagGraph] builds the records
      and checks the graph ([buildRecords], [assertAcyclic]); [DagReplan]
      validates and splices re-plans ([validateReplan], [spliceReplan]) and
      computes the governance hash ([computeRootHash]); [DagNode] executes one
      node ([executeNode], [runMapOver], [runBestOfN], [callExecutor],
      [runNode]) as a computation that stops at every [await]; [DagExec] is the
      scheduling loop ([execute]) as a step relation [step] with an executable
      [run]: dispatched nodes start at once and are resumed one [await] at a
      time, in any order.
      The ports (executor, verifier, journal, re-planner, clock) are functions
      on an abstract world.
    - The agent loop, [loop/minimal-loop.ts].  [LoopTypes] has its ports and
      messages, [AgentLoop] the whole of [run] and [awaitApproval]: the inbox,
      the stops, compaction, the provider round trip, the gates, approval, the
      cache, the veto window, the tools, loop correction and the result.  It
      calls [Budget] ([budget/budget-state.ts]: coherence and the two
      compactions), [WorldState] ([loop/world-state-hash.ts]), [Trackers]
      ([loop/trajectory-confidence.ts], [budget/promise-progress.ts] and the
      compactor of [run-memory/]), [Coalescer]
      ([loop/text-delta-coalescer.ts]), [ClaimGuards] (the guards on unexecuted calls and
      unobserved memories) and [Approval] ([hitl/approval-channel.ts] and the
      inbox [remote/inbox.ts]).
    - The OODA agent, [orchestration/ooda/agent.ts] ([Ooda]): cycles of phases,
      streamed or not, as computations that log each change of the world with its
      cause, and the loops that [start] and [stop] control.
    - Remote control, [remote/].  [SubToken] mints, verifies and rebinds scoped
      tokens ([sub-token.ts]); [Dpop] validates proofs of possession and keeps
      the replay store ([dpop.ts]); [RemoteHub] is the event hub with its names,
      signatures and in-memory store ([port.ts], [events.ts],
      [event-name-map.ts], [signing.ts], [persistence.ts], [sink.ts]);
      [RemoteApproval] the approval channel ([approval.ts]); [Veto] the veto
      window ([veto.ts]).  [RemoteServer] is the HTTP server
      ([http-server.ts]), which uses all of them: requests are handled up to
      what they wait for, and completed in any order.
    - The verifier battery, [compute/battery/battery.ts] ([Battery]), its signed
      envelopes [gate-envelope.ts] ([GateEnvelope]), the gates before tool calls
      [permissions/action-gate.ts] and [compute/battery/action-gate.ts]
      ([ActionGate]), delegation [delegation/delegate.ts] ([Delegation]), the
      scopes passed along a mesh [mesh/attenuation.ts] ([Attenuation]), and the
      selection among battery survivors [orchestration/dag/best-of-n.ts]
      ([BestOfN]), which also adapts a battery to the DAG verifier port.
    - Proof of what happened: the hash chain [proof/chain.ts] over
      [trace/schema.ts] ([Chain]) and the queue of time-stamp requests
      [proof/receipt-queue.ts] ([ReceiptQueue]); the replayable random source
      [replay/random.ts] ([Random]) and the compiler of axiom specifications
      [verify/formal/spec-language.ts] ([FormalSpec]).
    - Messages between teammates, [delegation/teammate-message.ts]: [Teammate] has
      the scopes, signed envelopes and body parsers, and the controls of
      [remote/session-origin.ts].
    - Proofs that others check: [Certificate] is [proof/index.ts] (leaves and
      inclusion), [proof/verify.ts] and [proof/cert-verify.ts] (certificates);
      [Provable] is [provable-planner/] and [pay/authorization-policy.ts].
    - Mesh dispatch, [mesh/dispatcher.ts] and [mesh/delegate.ts] ([Mesh]), over
      [Attenuation] and the governance battery.
    - Agent privacy, [privacy/]: nullifiers, delegation claims, shielded
      channels, composition and anonymity leaves ([Privacy]).
    - The delivery gate, [delivery/].  [AnchorChecks] has the checks an artifact
      answers for ([artifact-json.ts], [anchor-checks.ts]); [TestCommand] the
      boundary of the commands a producer may have run ([node-exec.ts]);
      [GateRunner] the grounded tests, configuration files, adversaries, the
      drift lens and the gates that compose them ([gate-runner.ts] and the rest).
      Command executors, file readers, refuters and the YAML parser are ports.
    - What a trace stores and what is read back, [trace/] ([TraceViews]):
      payload policies and redaction, the strict detector, rewinding and the
      forks of a run, over [Chain].
    - Economy, [economy/] ([Economy]): the fleet breaker, tier catalog, outcome
      tracker, both routers and the cost ledger; the router calls the breaker and
      the tracker.  Patterns, [patterns/] ([Patterns]): the session breaker (a
      guard of the OODA cycle), the escalation pyramid, the quality gate.
    - Reasoning, [strategies/] ([Strategies]): the ReAct loop and the
      plan-then-execute run of an agent's cycle, over [JsonParse] (what a model
      wrote) and [Regex] (where it wrote it).  Sampling, [compute/strategies/]
      ([Sampling]): best of N, multi-agent verification, tree of thoughts,
      mixture of agents, single shot and the two-phase orient, over any generator.
    - Skill lineage, [skill-manifest/] ([SkillManifest]): manifests, time-stamp
      requests and tokens, their verifier, and the signed index with the gate
      before an installation, over [Certificate] and [Privacy].
    - The provider cascade, [router/provider-router.ts] over
      [http/fetch-json.ts] ([ProviderRouter]): prompts, answers, failures and the
      hand-over from one provider to the next.
    - Resilience: [resilience/bulkhead.ts] ([Bulkhead]), [circuit-breaker.ts]
      ([CircuitBreaker]), [idempotent.ts] ([Idempotent]) and [retry/] ([Retry]).

    ** What the theorems show

    - [DagProps], over [DagExecFacts], [DagInvariant] and
      [DagTermination]: validation accepts exactly the well-formed graphs; in
      every reachable state at most [maxConcurrency] nodes are in flight; if the
      journal never rejects a record, a node starts only after its dependencies
      are done, and done nodes stay done; runs terminate, and are stuck only on a
      port that never settles; the manifest lists every node with its outcome;
      re-plans are accepted exactly when the documented conditions hold; the
      governance hash does not depend on the order of the nodes.
      [DagNodeProps]: best-of-N fails closed, map-over keeps partial results,
      done nodes are resumed from the journal, retries and timeouts are bounded.
      The proofs are in a rely-guarantee logic over the stretches between two
      [await]s ([DagNode], [wp]).  The last part runs concrete workflows: a retry
      lost in the final drain, and what a journal that rejects overturns.
    - [AgentLoopProps], over [LoopProtocol] and [LoopBounds]:
      every run emits events that an automaton of the session protocol accepts;
      a tool is executed only after every gate granted it; steps are bounded and
      runs end; an approval that times out or throws is a refusal; a final
      answer that claims what was not observed is qualified.
      Its last part has the concrete runs and the surprises.
      [BudgetProps]: compaction keeps tool results with their call, and the
      coherence detector decides repetition.  [Approval]: the store implements
      one automaton per request.  [Coalescer]: no character is lost.
    - [OodaProps]: a cycle, streamed or not, follows its protocol, and its log
      accounts for every call, with its reply, and every run of a phase; the
      human is asked before the act phase completes; a dry run
      writes nothing to memory; steps are capped; stopping quiesces; and a
      concrete agent, whose act phase runs before its human is asked.
    - [TokenProps]: what is minted verifies until it expires, what verifies
      was signed, a rebound token carries the old authority; an
      accepted proof shows possession, and is refused the second time while it
      is remembered.  [RemoteHubProps]: the hub is a log, reconnection has no
      silent gap, subscribers are independent, signed transcripts verify.
      [RemoteApproval]: verdicts are final and fail closed.
      [RemoteServerProps]: in every interleaving of requests, nothing happens
      without authority, every request is answered once, a durable revocation
      holds.  [RemoteWitnesses] gives a concrete
      platform, and the runs where the code does less than it says.
    - [Canonical]: serialization fails exactly on NaN, infinities, -0 and
      invalid dates.  [JsonParse]: parsing inverts printing.  [BatteryProps],
      [GateEnvelope], [ActionGate], [Delegation], [BestOfN]: who survives,
      who is selected, what a verified envelope says, that composed gates are a
      conjunction, that a child never holds a tool its parent lacks.
      [BatteryWitnesses] applies them and shows a lens score of -0 aborting a
      battery.
    - [Chain] and [ChainBinding]: the verifier decides chain validity and
      a root hash commits to the whole trace, absent digest collisions among
      what the two traces hash.  [ReceiptQueue]: one pass over the receipt
      queue, entry by entry, and authenticity as an invariant,
      and an untouched entry lost to a key-provider error.
    - [Random]: the generator permutes the non-zero words, a recording
      replays.  [FormalSpec]: which pre-conditions reach the solver.
    - [Attenuation]: scopes only narrow along a chain of delegations.  [Veto]:
      no veto is lost and no wait hangs, one await at a time per call.
    - [TeammateProps]: an envelope that verifies was signed as it is, an ask
      stays within the scope it was granted under, a control message needs its
      grant.  [TeamActionProps]: body parsers accept exactly the documented
      shapes, read back what was built, and their errors repeat nothing that was
      received.  Its last part applies them to concrete envelopes.
    - [PrivacyProps]: what is sent on a channel is received, what is altered in
      place is refused, composition decides on delegations and binds the agents
      at their places, up to explicit collisions of the hash; and four ways in
      which an altered message or another team passes.
    - [GateRunnerProps] and [TestCommand]: a stage is accepted only with every
      anchor it declares established and every adversary silent; a producer
      cannot attest to its own tests; drift is confined to the allowed paths;
      every configuration file lies in the worktree and parses; commands are
      accepted exactly when the documented grammar permits them.
      The last part has concrete stages, and the runs that get through.
    - [Certificate]: inclusion proofs are decided against the tree; a leaf commits
      to its table and document; a certificate that verifies under a pinned key
      was signed as it is; and four ways in which less is checked.  [Provable]:
      decisions re-execute and are graded, the provable gate answers exactly as
      its policy does twice, a certificate says what its layers say, payments are
      authorized exactly when every applicable check holds.
    - [Mesh]: one dispatch, confined to the options and the parent token, does
      all that a delegation does to the world; and which calls are let through.
    - [TraceViews]: redaction forgets exactly the named fields, so neither a
      record nor a rewound conversation depends on them; a fork stays a linked
      chain, and what may be injected into it; an account number is recognised by
      its remainder, and one mistyped character is caught.
    - [Economy]: the rolling window is the recent part of the full log; a tripped
      fleet lets one probe through, which a failing route can lose; what the budget
      router admits never trips it, unless a cost is not a number; the ledger's
      totals are the sums over its calls.  [Patterns]: a tripped session stays
      shut, has one deadline that no reset moves; which actions reach a human; a
      gate whose evaluators fail blocks.
    - [Strategies]: ReAct is confined to its allowed tools and accounts for every
      completion; a plan always answers, and carries out its steps in order.
      [Sampling]: tree of thoughts ends within its budget with a sample that no
      leaf outscores, and the other strategies return what they promise; scores
      that are not numbers win.  [SkillManifest]: a manifest verifies exactly
      when its snapshot and hash match, its anchors bind nothing; a time-stamp
      request reads back; an index that was built verifies, and the gate lets a
      tarball pass only with an entry of a signed index.  [ProviderRouter]: each
      provider is asked at most once and a retry queued exactly when all has
      failed; both providers read and write the same conversation.
    - [Bulkhead], [CircuitBreaker], [Retry], [Idempotent] carry their theorems.

    ** How the code is rendered

    - A throw is a value of [result]; a call that awaits ports is a function on
      the world.  A DAG node is a resumable computation: it runs alone from one
      [await] to the next, and everything else may happen in between; a port acts
      when it is called, and its reply is seen on resumption.  Any order of
      resumptions is allowed, those the microtask queue rules out included.
      [Promise.all] over pure lenses reports the first rejection in array order.
      In the server, the proofs, the veto window, the bulkhead and the breaker,
      too, each await ends a step.
    - Counters, indices, attempts, sequence numbers and milliseconds are [Z];
      scores, ratios and numbers that are hashed, parsed or compared by [===]
      are doubles.  A fractional [maxReplans] or [samples] is outside the model.
    - Each reading of the clock that the code makes is an argument of its own.
    - Strings are sequences of code units below 256; longer text in messages
      stands for itself and is never inspected.  The printed form of a date is
      an argument.
    - Payloads are finite trees: the circular-reference branch of
      canonicalization has no counterpart.
    - SHA-256, HMAC, ECDSA, base64, UTF-8, [decodeURIComponent], signatures and
      the RFC 8785 printer belong to the platform or to packages: parameters
      (classes [Hashing], [TokenPlatform], [PoseidonBackend], [ProofPlatform] and
      [SkillPlatform], function arguments).  Every
      theorem that assumes something of them has a witness with concrete ones.
    - Fuel: the blocking fixpoint gets one pass more than there are records, and
      every pass but the last defers one; Kahn's loop gets the number of nodes,
      and places one at each turn; a bootstrap round draws as often as there
      are survivors; the retry loop gets [maxAttempts]; polling for an approval
      gets the milliseconds of its timeout; the agent loop gets its remaining
      steps and one; the coalescer the text in hand; the JSON parser twice the
      text and one; tree of thoughts the calls it may make, each turn of its
      loops making one or dropping a node; the two-phase orient its attempts.  [drawIndex] multiplies exactly where the code multiplies
      doubles, the same for fewer than [2^21] survivors.

    ** What is left out, and why

    Adapters, relay transport, SQL stores and telemetry are I/O around other
    people's code; so are sockets and response headers.  Tracing spans of the
    loop change nothing else.  Event sinks do not throw and subscribers do not
    call back into the hub, by their contracts.  Constitutions ([constitution/])
    are axiom texts around the compiler of [FormalSpec], eviction policies
    ([ports/]) and payment adapters ([pay/]) are interfaces to host code; of
    [permissions/], the renewal of grants is left out.  The adapter of the OODA
    agent to the interface of the strategies, and the network calls of
    [skill-manifest/] beyond their answers, are left out too.

    This first file is the shared prelude: results, strings, insertion-ordered
    maps, stable sorting and list lemmas, with the hint database [js]. *)

From stdpp Require Export base list strings option gmap sorting pretty relations.
From Stdlib Require Export ZArith Lia.
From Stdlib Require Import Ascii.

Declare Scope js_scope.
Delimit Scope js_scope with js.
Open Scope string_scope.
Open Scope Z_scope.
Open Scope list_scope.

Create HintDb js.

(** * Thrown values

    A JavaScript [throw new SomeError(msg)] is a value of [jserror]: the
    error's [name] and its [message]. *)
Record jserror := JsError { err_name : string; err_message : string }.

#[export] Instance jserror_eq_dec : EqDecision jserror.
Proof. solve_decision. Defined.

(** Result of a fallible call: a value or a thrown error. *)
Inductive result (A : Type) : Type :=
| Ok (a : A)
| Throw (e : jserror).
Arguments Ok {A} a.
Arguments Throw {A} e.

#[export] Instance result_ret : MRet result := fun A a => Ok a.
#[export] Instance result_bind : MBind result := fun A B f m =>
  match m with Ok a => f a | Throw e => Throw e end.
#[export] Instance result_fmap : FMap result := fun A B f m =>
  match m with Ok a => Ok (f a) | Throw e => Throw e end.

Definition is_ok {A} (r : result A) : bool :=
  match r with Ok _ => true | Throw _ => false end.

(** [throw_if c e] is the guard [if (c) throw e]. *)
Definition throw_if (c : bool) (e : jserror) : result unit :=
  if c then Throw e else Ok tt.

(** [for (const x of xs) check(x)] where [check] may throw. *)
Fixpoint for_each {A} (f : A -> result unit) (xs : list A) : result unit :=
  match xs with
  | [] => Ok tt
  | x :: xs' => match f x with Ok _ => for_each f xs' | Throw e => Throw e end
  end.

Lemma throw_if_ok c e : throw_if c e = Ok tt <-> c = false.
Proof. destruct c; simpl; split; congruence. Qed.

Lemma for_each_ok {A} (f : A -> result unit) xs :
  for_each f xs = Ok tt <-> Forall (fun x => f x = Ok tt) xs.
Proof.
  induction xs as [|x xs IH]; simpl; [split; auto|].
  rewrite Forall_cons, <- IH.
  destruct (f x) as [[]|e]; split; [tauto| |done|]; intros; [tauto|].
  destruct_and!; congruence.
Qed.

Lemma result_bind_ok {A B} (m : result A) (f : A -> result B) b :
  m ≫= f = Ok b <-> exists a, m = Ok a /\ f a = Ok b.
Proof.
  destruct m as [a|e]; unfold mbind; simpl; split.
  - eauto.
  - intros (a' & [= ->] & H); done.
  - done.
  - intros (a' & ? & H); done.
Qed.
#[export] Hint Rewrite @throw_if_ok @for_each_ok @result_bind_ok : js.

(** * Strings

    A JavaScript string is a sequence of UTF-16 code units; the library uses
    [string], whose characters stand for the code units below 256. *)

(** White space and line terminators among those code units (what
    [String.prototype.trim] strips). *)
Definition is_js_space (c : ascii) : bool :=
  let n := nat_of_ascii c in
  ((9 <=? n) && (n <=? 13))%nat || (n =? 32)%nat || (n =? 160)%nat.

Fixpoint trim_start (s : string) : string :=
  match s with
  | EmptyString => EmptyString
  | String c s' => if is_js_space c then trim_start s' else s
  end.

Fixpoint trim_end (s : string) : string :=
  match s with
  | EmptyString => EmptyString
  | String c s' =>
      match trim_end s' with
      | EmptyString => if is_js_space c then EmptyString else String c EmptyString
      | t => String c t
      end
  end.

Definition js_trim (s : string) : string := trim_end (trim_start s).

(** [!s || s.trim() === ""], the guard used for mandatory identifiers. *)
Definition is_blank (s : string) : bool := (js_trim s =? "")%string.

Definition starts_with (pre s : string) : bool := String.prefix pre s.

Lemma starts_with_app pre s : starts_with pre (pre ++ s)%string = true.
Proof.
  unfold starts_with. induction pre as [|c pre IH]; simpl; [by destruct s|].
  destruct (ascii_dec c c); [done|congruence].
Qed.

(** [s.slice(n)] for [0 <= n]. *)
Fixpoint str_drop (n : nat) (s : string) : string :=
  match n, s with
  | O, _ => s
  | S n', String _ s' => str_drop n' s'
  | S _, EmptyString => EmptyString
  end.

Definition ends_with (suf s : string) : bool :=
  (String.length suf <=? String.length s)%nat &&
  (str_drop (String.length s - String.length suf) s =? suf)%string.

Lemma str_length_app (a b : string) :
  String.length (a ++ b) = (String.length a + String.length b)%nat.
Proof. induction a as [|c a IH]; [done|]. exact (f_equal S IH). Qed.

Lemma str_app_assoc (a b c : string) : (a ++ b ++ c = (a ++ b) ++ c)%string.
Proof. induction a as [|x a IH]; [done|]. exact (f_equal (String x) IH). Qed.

Lemma starts_with_iff pre s : starts_with pre s = true <-> exists r, s = (pre ++ r)%string.
Proof.
  split; [|by intros [r ->]; apply starts_with_app]. unfold starts_with.
  revert s. induction pre as [|c pre IH]; intros s; [by eauto|].
  destruct s as [|c' s]; simpl; [done|]. destruct (ascii_dec c c') as [->|]; [|done].
  intros [r ->]%IH. by exists r.
Qed.

Lemma str_drop_app n s : (n <= String.length s)%nat ->
  exists p, s = (p ++ str_drop n s)%string /\ String.length p = n.
Proof.
  revert s. induction n as [|n IH]; intros s Hn; [by exists ""|].
  destruct s as [|c s]; simpl in *; [lia|]. destruct (IH s ltac:(lia)) as (p & E & Hl).
  exists (String c p). split; [exact (f_equal (String c) E)|by rewrite <- Hl].
Qed.

Lemma ends_with_iff suf s : ends_with suf s = true <-> exists p, s = (p ++ suf)%string.
Proof.
  unfold ends_with. rewrite andb_true_iff, Nat.leb_le, String.eqb_eq. split.
  - intros [Hl Hd]. destruct (str_drop_app (String.length s - String.length suf) s ltac:(lia))
      as (p & E & _). exists p. by rewrite Hd in E.
  - intros [p ->]. rewrite str_length_app. split; [lia|].
    replace (String.length p + String.length suf - String.length suf)%nat with (String.length p) by lia.
    induction p as [|c p IH]; [by destruct suf|exact IH].
Qed.

(** [s.includes(sub)]. *)
Fixpoint str_includes (sub s : string) : bool :=
  String.prefix sub s ||
  match s with
  | EmptyString => false
  | String _ s' => str_includes sub s'
  end.

(** [a < b] on strings (code-unit order), and the comparator
    [(a, b) => a < b ? -1 : a > b ? 1 : 0]. *)
Definition str_ltb (a b : string) : bool := String.ltb a b.
Definition str_cmp (a b : string) : comparison := String.compare a b.

(** [list.join(sep)]. *)
Definition join (sep : string) (l : list string) : string := String.concat sep l.

(** [s] between double quotes, inside a template literal. *)
Definition dquote : string := String "034" EmptyString.
Definition quoted (s : string) : string := (dquote ++ s ++ dquote)%string.

(** Decimal rendering of an integer inside a template literal. *)
Definition str_of_Z (z : Z) : string := pretty z.
Definition str_of_nat (n : nat) : string := pretty (Z.of_nat n).

Example trim_ex : js_trim "  a b  " = "a b".
Proof. reflexivity. Qed.
Example blank_ex : is_blank "   " = true.
Proof. reflexivity. Qed.
Example pretty_ex : str_of_Z (-120) = "-120".
Proof. vm_compute. reflexivity. Qed.
Example includes_ex : str_includes "ot (" "(not (x))" = true.
Proof. reflexivity. Qed.
Example ends_ex : ends_with ":*" "brain:*" = true.
Proof. reflexivity. Qed.

(** * Insertion-ordered maps

    A JavaScript [Map] iterates in insertion order; [set] on an existing key
    keeps the key's position, [delete] then [set] moves it to the end. *)
Section OrderedMap.
Context {K V : Type} `{EqDecision K}.

Fixpoint om_get (k : K) (m : list (K * V)) : option V :=
  match m with
  | [] => None
  | (k', v) :: m' => if decide (k = k') then Some v else om_get k m'
  end.

Fixpoint om_set (k : K) (v : V) (m : list (K * V)) : list (K * V) :=
  match m with
  | [] => [(k, v)]
  | (k', v') :: m' =>
      if decide (k = k') then (k', v) :: m' else (k', v') :: om_set k v m'
  end.

Fixpoint om_delete (k : K) (m : list (K * V)) : list (K * V) :=
  match m with
  | [] => []
  | (k', v') :: m' =>
      if decide (k = k') then m' else (k', v') :: om_delete k m'
  end.

Definition om_has (k : K) (m : list (K * V)) : bool :=
  match om_get k m with Some _ => true | None => false end.

(** [new Map(entries)]: later entries overwrite earlier ones. *)
Definition om_of_list (l : list (K * V)) : list (K * V) :=
  fold_left (fun m kv => om_set kv.1 kv.2 m) l [].

Lemma om_get_set_eq k v m : om_get k (om_set k v m) = Some v.
Proof.
  induction m as [|[k' v'] m IH]; csimpl; repeat (case_decide; csimpl); try done.
Qed.

Lemma om_get_set_ne k k' v m : k <> k' -> om_get k' (om_set k v m) = om_get k' m.
Proof.
  intros Hne. induction m as [|[k2 v2] m IH]; csimpl; repeat (case_decide; csimpl);
    try done; congruence.
Qed.

Lemma om_get_set k k' v m :
  om_get k' (om_set k v m) = if decide (k = k') then Some v else om_get k' m.
Proof. case_decide; subst; [apply om_get_set_eq|by apply om_get_set_ne]. Qed.

Lemma om_get_delete_ne k k' m : k <> k' -> om_get k' (om_delete k m) = om_get k' m.
Proof.
  intros Hne. induction m as [|[k2 v2] m IH]; csimpl; repeat (case_decide; csimpl);
    try done; congruence.
Qed.

Lemma om_get_None k m : om_get k m = None <-> k ∉ m.*1.
Proof.
  induction m as [|[k' v'] m IH]; csimpl; [set_solver|].
  case_decide; set_solver.
Qed.

Lemma om_get_Some_in k v m : om_get k m = Some v -> (k, v) ∈ m.
Proof.
  induction m as [|[k' v'] m IH]; csimpl; [done|].
  case_decide; intros; simplify_eq; set_solver.
Qed.

Lemma om_get_is_Some k m : is_Some (om_get k m) <-> k ∈ m.*1.
Proof.
  destruct (om_get k m) eqn:E; [|rewrite om_get_None in E; rewrite is_Some_alt; done].
  split; [intros _|eauto].
  apply om_get_Some_in in E. by apply (list_elem_of_fmap_2 fst) in E.
Qed.

Lemma om_get_delete_eq k m : NoDup m.*1 -> om_get k (om_delete k m) = None.
Proof.
  induction m as [|[k' v'] m IH]; csimpl; [done|]. rewrite NoDup_cons.
  intros [Hk Hnd]. case_decide; subst; [by apply om_get_None|].
  csimpl. case_decide; [done|auto].
Qed.

Lemma om_set_keys k v m :
  (om_set k v m).*1 = if om_has k m then m.*1 else m.*1 ++ [k].
Proof.
  unfold om_has. induction m as [|[k' v'] m IH]; csimpl; [done|].
  case_decide; csimpl; [done|]. rewrite IH. by destruct (om_get k m).
Qed.

Lemma om_delete_keys_subseteq k m : (om_delete k m).*1 ⊆ m.*1.
Proof. induction m as [|[k' v'] m IH]; csimpl; [done|]. case_decide; set_solver. Qed.

Lemma om_set_NoDup k v m : NoDup m.*1 -> NoDup (om_set k v m).*1.
Proof.
  intros H. rewrite om_set_keys. unfold om_has. destruct (om_get k m) eqn:E; [done|].
  apply om_get_None in E. apply NoDup_app. split_and!; [done| |apply NoDup_singleton].
  intros x Hx ->%list_elem_of_singleton. done.
Qed.

Lemma om_delete_NoDup k m : NoDup m.*1 -> NoDup (om_delete k m).*1.
Proof.
  induction m as [|[k' v'] m IH]; csimpl; [done|]. rewrite NoDup_cons. intros [Hk Hnd].
  case_decide; csimpl; [done|]. rewrite NoDup_cons. split; [|auto].
  intros Hin. apply Hk. by apply (om_delete_keys_subseteq k).
Qed.

Lemma om_set_fresh k v m : k ∉ m.*1 -> om_set k v m = m ++ [(k, v)].
Proof.
  induction m as [|[k' v'] m IH]; csimpl; [done|]. intros Hk.
  rewrite decide_False by set_solver. by rewrite IH by set_solver.
Qed.

Lemma om_set_elem_fresh k v m x : k ∉ m.*1 -> x ∈ om_set k v m <-> x ∈ m \/ x = (k, v).
Proof. intros Hk. rewrite om_set_fresh by done. set_solver. Qed.

Lemma om_set_length k v m :
  length (om_set k v m) = if om_has k m then length m else S (length m).
Proof.
  unfold om_has. induction m as [|[k' v'] m IH]; csimpl; [done|].
  case_decide; csimpl; [done|]. rewrite IH. by destruct (om_get k m).
Qed.

Lemma om_delete_length k m :
  length (om_delete k m) = if om_has k m then pred (length m) else length m.
Proof.
  unfold om_has. induction m as [|[k' v'] m IH]; csimpl; [done|].
  case_decide; csimpl; [done|]. rewrite IH. destruct (om_get k m) eqn:E; [|done].
  destruct m; csimpl in *; [done|lia].
Qed.
End OrderedMap.
#[export] Hint Rewrite @om_get_set_eq @om_set_length @om_delete_length : js.
#[export] Hint Resolve om_set_NoDup om_delete_NoDup : js.

(** * Stable sorting

    [Array.prototype.sort] is stable; with a comparator that is a consistent
    total preorder its result is the one insertion sort computes. *)
Section StableSort.
Context {A : Type} (cmp : A -> A -> comparison).

Fixpoint insert_by (x : A) (l : list A) : list A :=
  match l with
  | [] => [x]
  | y :: l' => match cmp x y with Gt => y :: insert_by x l' | _ => x :: l end
  end.

Fixpoint sort_by (l : list A) : list A :=
  match l with [] => [] | x :: l' => insert_by x (sort_by l') end.

Definition cmp_le (x y : A) : Prop := cmp x y <> Gt.

Lemma insert_by_perm x l : insert_by x l ≡ₚ x :: l.
Proof.
  induction l as [|y l IH]; simpl; [done|]. destruct (cmp x y); try done.
  rewrite IH. apply perm_swap.
Qed.

Lemma sort_by_perm l : sort_by l ≡ₚ l.
Proof. induction l as [|x l IH]; simpl; [done|]. by rewrite insert_by_perm, IH. Qed.

Lemma sort_by_length l : length (sort_by l) = length l.
Proof. by rewrite sort_by_perm. Qed.

Context (cmp_antisym : forall x y, cmp y x = CompOpp (cmp x y)).

Lemma cmp_le_total x y : cmp_le x y \/ cmp_le y x.
Proof. unfold cmp_le. rewrite (cmp_antisym x y). destruct (cmp x y); simpl; auto. Qed.

Lemma insert_by_sorted x l :
  Sorted cmp_le l -> Sorted cmp_le (insert_by x l).
Proof.
  induction 1 as [|y l Hs IH Hhd]; simpl; [repeat constructor|].
  destruct (cmp x y) eqn:E.
  - constructor; [by constructor|]. constructor. unfold cmp_le. congruence.
  - constructor; [by constructor|]. constructor. unfold cmp_le. congruence.
  - constructor; [done|].
    assert (Hyx : cmp_le y x) by (unfold cmp_le; rewrite (cmp_antisym x y), E; done).
    destruct l as [|z l]; simpl; [by constructor|].
    destruct (cmp x z); constructor; try done; by inversion Hhd.
Qed.

Lemma sort_by_sorted l : Sorted cmp_le (sort_by l).
Proof. induction l; simpl; [constructor|by apply insert_by_sorted]. Qed.

Context (cmp_trans : forall x y z, cmp_le x y -> cmp_le y z -> cmp_le x z).

(** Two listings of elements on which the comparator is antisymmetric sort to
    the same array. *)
Lemma sort_by_unique l1 l2 :
  (forall x y, x ∈ l1 -> y ∈ l1 -> cmp x y = Eq -> x = y) ->
  l1 ≡ₚ l2 -> sort_by l1 = sort_by l2.
Proof.
  intros Hanti Hp.
  assert (Hp' : sort_by l1 ≡ₚ sort_by l2) by (by rewrite !sort_by_perm).
  assert (Hin : forall x, x ∈ sort_by l1 -> x ∈ l1)
    by (intros x Hx; by rewrite (sort_by_perm l1) in Hx).
  assert (Transitive cmp_le) as Htr by (intros x y z; apply cmp_trans).
  generalize (sort_by_sorted l1), (sort_by_sorted l2). revert Hp' Hin.
  generalize (sort_by l1), (sort_by l2). clear Hp l2.
  intros k1. induction k1 as [|x k1 IH]; intros k2 Hp Hin Hs1 Hs2.
  { by apply Permutation_nil_l in Hp as ->. }
  destruct k2 as [|y k2]; [by apply Permutation_nil_r in Hp|].
  apply Sorted_StronglySorted in Hs1 as Hss1; [|done].
  apply Sorted_StronglySorted in Hs2 as Hss2; [|done].
  inversion Hss1 as [|? ? _ Hall1]; inversion Hss2 as [|? ? _ Hall2]; subst.
  assert (Hxy : x = y).
  { assert (Hx : x ∈ y :: k2) by (rewrite <- Hp; left).
    assert (Hy : y ∈ x :: k1) by (rewrite Hp; left).
    apply elem_of_cons in Hx as [->|Hx]; [done|].
    apply elem_of_cons in Hy as [->|Hy]; [done|].
    rewrite Forall_forall in Hall1, Hall2.
    specialize (Hall1 _ Hy). specialize (Hall2 _ Hx). unfold cmp_le in *.
    apply Hanti; [apply Hin; left|apply Hin; by right|].
    rewrite (cmp_antisym x y) in Hall2. by destruct (cmp x y). }
  subst y. f_equal. apply Permutation_cons_inv in Hp.
  inversion Hs1; inversion Hs2; subst. apply IH; try done.
  intros z Hz. apply Hin. by right.
Qed.
End StableSort.

(** * The string order *)

Lemma str_cmp_antisym x y : str_cmp y x = CompOpp (str_cmp x y).
Proof. apply String.compare_antisym. Qed.

Lemma str_cmp_eq x y : str_cmp x y = Eq -> x = y.
Proof. apply String.compare_eq_iff. Qed.

Lemma ascii_compare_trans a b c :
  Ascii.compare a b = Lt -> Ascii.compare b c = Lt -> Ascii.compare a c = Lt.
Proof. unfold Ascii.compare. rewrite !N.compare_lt_iff. lia. Qed.

Lemma str_cmp_lt_trans x y z :
  str_cmp x y = Lt -> str_cmp y z = Lt -> str_cmp x z = Lt.
Proof.
  unfold str_cmp. revert y z.
  induction x as [|a x IH]; intros [|b y] [|c z]; simpl; try done.
  destruct (Ascii.compare a b) eqn:Eab; try done;
    destruct (Ascii.compare b c) eqn:Ebc; try done.
  - apply Ascii.compare_eq_iff in Eab as ->. rewrite Ebc. eauto.
  - apply Ascii.compare_eq_iff in Eab as ->. by rewrite Ebc.
  - apply Ascii.compare_eq_iff in Ebc as ->. by rewrite Eab.
  - by rewrite (ascii_compare_trans _ _ _ Eab Ebc).
Qed.

Lemma str_cmp_trans x y z :
  cmp_le str_cmp x y -> cmp_le str_cmp y z -> cmp_le str_cmp x z.
Proof.
  unfold cmp_le. intros H1 H2 H3.
  destruct (str_cmp x y) eqn:E1; [apply str_cmp_eq in E1 as ->; done| |done].
  destruct (str_cmp y z) eqn:E2; [apply str_cmp_eq in E2 as ->; congruence| |done].
  rewrite (str_cmp_lt_trans _ _ _ E1 E2) in H3. done.
Qed.
#[export] Hint Resolve str_cmp_antisym str_cmp_trans str_cmp_eq : js.

(** [list.sort()] on an array of strings. *)
Definition sort_strings (l : list string) : list string := sort_by str_cmp l.

Lemma sort_strings_perm l1 l2 : l1 ≡ₚ l2 -> sort_strings l1 = sort_strings l2.
Proof. intros H. apply sort_by_unique; eauto with js. Qed.

(** * First element satisfying a test, and updates in place *)

(** [xs.find(p)]. *)
Fixpoint find_first {A} (p : A -> bool) (l : list A) : option A :=
  match l with
  | [] => None
  | x :: l' => if p x then Some x else find_first p l'
  end.

Lemma find_first_Some {A} (p : A -> bool) l x :
  find_first p l = Some x -> x ∈ l /\ p x = true.
Proof.
  induction l as [|y l IH]; simpl; [done|]. destruct (p y) eqn:E; intros; simplify_eq.
  - split; [left|done].
  - split; [right|]; by apply IH.
Qed.

Lemma find_first_None {A} (p : A -> bool) l :
  find_first p l = None <-> Forall (fun x => p x = false) l.
Proof.
  induction l as [|y l IH]; simpl; [split; auto|].
  rewrite Forall_cons, <- IH. destruct (p y); naive_solver.
Qed.

(** [xs.filter(p)] and [xs.filter(p).length] with a boolean test. *)
Definition count_if {A} (p : A -> bool) (l : list A) : Z :=
  Z.of_nat (length (List.filter p l)).

Lemma existsb_true_iff {A} (p : A -> bool) l :
  existsb p l = true <-> exists x, x ∈ l /\ p x = true.
Proof. rewrite existsb_exists. by setoid_rewrite list_elem_of_In. Qed.

Lemma existsb_false_iff {A} (p : A -> bool) l :
  existsb p l = false <-> forall x, x ∈ l -> p x = false.
Proof.
  rewrite <- not_true_iff_false, existsb_true_iff. split.
  - intros H x Hx. destruct (p x) eqn:E; [|done]. exfalso; eauto.
  - intros H (x & Hx & Hp). rewrite (H x Hx) in Hp. done.
Qed.

Lemma forallb_true_iff {A} (p : A -> bool) l :
  forallb p l = true <-> forall x, x ∈ l -> p x = true.
Proof. rewrite forallb_forall. by setoid_rewrite list_elem_of_In. Qed.

(** ** Filters *)

(** [arr.slice(-n)] for [0 < n]: the last [n] items. *)
Definition last_n {A} (n : nat) (l : list A) : list A := drop (length l - n) l.

Lemma drop_S_tail {A} k (l : list A) : drop (S k) l = tail (drop k l).
Proof. revert k. induction l as [|x l IH]; intros [|k]; try done. exact (IH k). Qed.

Lemma last_n_snoc {A} n (l : list A) x :
  last_n n (l ++ [x]) =
  if (n <? length (last_n n l ++ [x]))%nat then tail (last_n n l ++ [x]) else last_n n l ++ [x].
Proof.
  unfold last_n. rewrite !length_app, length_drop. cbn [length].
  destruct (Nat.ltb_spec n (length l - (length l - n) + 1)) as [Hlt|Hge].
  - replace (length l + 1 - n)%nat with (S (length l - n)) by lia.
    by rewrite drop_S_tail, drop_app_le by lia.
  - replace (length l + 1 - n)%nat with 0%nat by lia. replace (length l - n)%nat with 0%nat by lia. by rewrite !drop_0.
Qed.

Lemma filter_false {A} (f : A -> bool) l : (forall x, x ∈ l -> f x = false) -> List.filter f l = [].
Proof.
  induction l as [|x l IH]; intros H; [done|]. cbn [List.filter]. rewrite H by left. apply IH. intros. apply H. by right.
Qed.

Lemma last_n_suffix {A} n (l : list A) : l = take (length l - n) l ++ last_n n l.
Proof. symmetry. apply take_drop. Qed.

Lemma filter_whole {A} (P : A -> Prop) `{!forall x, Decision (P x)} (l : list A) :
  (forall x, x ∈ l -> P x) -> filter P l = l.
Proof.
  induction l as [|x l IH]; intros HP; [done|]. rewrite filter_cons_True by (apply HP; left).
  f_equal. apply IH. intros y Hy. apply HP. by right.
Qed.

Lemma filter_none {A} (P : A -> Prop) `{!forall x, Decision (P x)} (l : list A) :
  (forall x, x ∈ l -> ~ P x) -> filter P l = [].
Proof.
  induction l as [|x l IH]; intros HP; [done|]. rewrite filter_cons_False by (apply HP; left).
  apply IH. intros y Hy. apply HP. by right.
Qed.

Lemma Forall_filter_of {A} (P Q : A -> Prop) `{!forall x, Decision (Q x)} (l : list A) :
  Forall P l -> Forall P (filter Q l).
Proof.
  rewrite !Forall_forall. intros HP x [_ Hx]%list_elem_of_filter. by apply HP.
Qed.
