(* ===== verification/JsNum.v ===== *)
(** JavaScript numbers.

    Scores, thresholds and costs are [number]s that need not be integers: they
    are modelled as IEEE-754 binary64 values ([spec_float] with a 53-bit
    precision), so NaN, infinities and rounding behave as in the language.
    Counters, indices and millisecond timestamps stay below [2^53] in the code
    and are modelled as [Z] in the other files. *)

From S2P Require Import Prelude.
From Stdlib Require Import SpecFloat.

Definition num : Type := spec_float.
Definition prec : Z := 53.
Definition emax : Z := 1024.

#[export] Instance num_eq_dec : EqDecision num.
Proof. solve_decision. Defined.

Definition num_nan : num := S754_nan.
Definition num_add (x y : num) : num := SFadd prec emax x y.
Definition num_sub (x y : num) : num := SFsub prec emax x y.
Definition num_mul (x y : num) : num := SFmul prec emax x y.
Definition num_div (x y : num) : num := SFdiv prec emax x y.
Definition num_of_Z (z : Z) : num := binary_normalize prec emax z 0 false.

(** The literal [p / 10^k] written in decimal, rounded as the language rounds
    it (division of two exactly representable integers). *)
Definition num_of_decimal (p : Z) (k : nat) : num :=
  num_div (num_of_Z p) (num_of_Z (10 ^ Z.of_nat k)).

(** [<], [>], [<=], [>=] and [===]: all false when an operand is NaN. *)
Definition num_ltb (x y : num) : bool := SFltb x y.
Definition num_leb (x y : num) : bool := SFleb x y.
Definition num_gtb (x y : num) : bool := SFltb y x.
Definition num_geb (x y : num) : bool := SFleb y x.
Definition num_eqb (x y : num) : bool := SFeqb x y.

Definition is_nan (x : num) : bool := match x with S754_nan => true | _ => false end.

(** [Number.isFinite]. *)
Definition is_finite (x : num) : bool :=
  match x with S754_zero _ | S754_finite _ _ _ => true | _ => false end.

Definition num_zero : num := S754_zero false.
Definition num_one : num := num_of_Z 1.

(** * Order facts *)

(** Position of a number in the order of [SFcompare]: class, exponent and
    mantissa, compared lexicographically. *)
Definition num_key (x : num) : Z * Z * Z :=
  match x with
  | S754_infinity true => (-2, 0, 0)
  | S754_finite true m e => (-1, -e, -Z.pos m)
  | S754_zero _ => (0, 0, 0)
  | S754_finite false m e => (1, e, Z.pos m)
  | S754_infinity false => (2, 0, 0)
  | S754_nan => (0, 0, 0)
  end.

Definition key_lt (a b : Z * Z * Z) : Prop :=
  a.1.1 < b.1.1 \/ (a.1.1 = b.1.1 /\ (a.1.2 < b.1.2 \/ (a.1.2 = b.1.2 /\ a.2 < b.2))).

Lemma num_ltb_key x y :
  num_ltb x y = true <-> is_nan x = false /\ is_nan y = false /\ key_lt (num_key x) (num_key y).
Proof.
  unfold num_ltb, SFltb, key_lt.
  destruct x as [sx|sx| |sx mx ex], y as [sy|sy| |sy my ey];
    try destruct sx; try destruct sy; simpl; try (split; [done|lia] || (split; [lia|done]));
    try (split; [intros; try done; lia|intros; try done; lia]).
  - change (Pos.compare_cont Eq mx my) with (Pos.compare mx my).
    destruct (Z.compare_spec ex ey); simpl; [|split; [done|lia]|split; [lia|done]].
    destruct (Pos.compare_spec mx my); simpl; (split; [try done; lia|try done; lia]).
  - change (Pos.compare_cont Eq mx my) with (Pos.compare mx my).
    destruct (Z.compare_spec ex ey); simpl; [|split; [lia|done]|split; [done|lia]].
    destruct (Pos.compare_spec mx my); simpl; (split; [try done; lia|try done; lia]).
Qed.

Lemma num_ltb_irrefl x : num_ltb x x = false.
Proof.
  apply not_true_iff_false. rewrite num_ltb_key. intros (_ & _ & H). unfold key_lt in H. lia.
Qed.

Lemma num_ltb_trans x y z : num_ltb x y = true -> num_ltb y z = true -> num_ltb x z = true.
Proof.
  rewrite !num_ltb_key. intros (? & ? & H1) (? & ? & H2). split_and!; try done.
  unfold key_lt in *. lia.
Qed.

Lemma num_ltb_asym x y : num_ltb x y = true -> num_ltb y x = false.
Proof.
  intros H1. apply not_true_iff_false. intros H2.
  pose proof (num_ltb_trans _ _ _ H1 H2) as H3. by rewrite num_ltb_irrefl in H3.
Qed.

Lemma num_ltb_neg_key x y :
  is_nan x = false -> is_nan y = false ->
  (num_ltb x y = false <-> ~ key_lt (num_key x) (num_key y)).
Proof. intros. rewrite <- not_true_iff_false, num_ltb_key. tauto. Qed.

(** Away from NaN, "not less" is transitive: the order is a total preorder. *)
Lemma num_nlt_trans x y z :
  is_nan x = false -> is_nan y = false -> is_nan z = false ->
  num_ltb x y = false -> num_ltb y z = false -> num_ltb x z = false.
Proof. intros Hx Hy Hz. rewrite !num_ltb_neg_key by done. unfold key_lt. lia. Qed.

Lemma num_nlt_total x y :
  num_ltb x y = false \/ num_ltb y x = false.
Proof. destruct (num_ltb x y) eqn:E; [right; by apply num_ltb_asym|by left]. Qed.

Lemma num_leb_ltb x y :
  is_nan x = false -> is_nan y = false -> num_leb x y = negb (num_ltb y x).
Proof.
  unfold num_leb, num_ltb, SFleb, SFltb.
  destruct x as [sx|sx| |sx mx ex], y as [sy|sy| |sy my ey];
    try destruct sx; try destruct sy; simpl; try done;
    rewrite (Z.compare_antisym ex ey);
    change (Pos.compare_cont Eq mx my) with (Pos.compare mx my);
    change (Pos.compare_cont Eq my mx) with (Pos.compare my mx);
    rewrite (Pos.compare_antisym mx my);
    destruct (ex ?= ey); simpl; try done; by destruct (mx ?= my)%positive.
Qed.

(** * [Math.min] and [Math.max] *)

Definition num_min (x y : num) : num :=
  if is_nan x || is_nan y then num_nan
  else if num_ltb y x then y
  else match x, y with S754_zero _, S754_zero true => y | _, _ => x end.

Definition num_max (x y : num) : num :=
  if is_nan x || is_nan y then num_nan
  else if num_ltb x y then y
  else match x, y with S754_zero _, S754_zero false => y | _, _ => x end.

Lemma num_min_nlt x y z :
  is_nan x = false -> is_nan y = false -> num_min x y = z ->
  num_ltb x z = false /\ num_ltb y z = false.
Proof.
  intros Hx Hy <-. unfold num_min. rewrite Hx, Hy. simpl.
  destruct (num_ltb y x) eqn:E.
  - split; [by apply num_ltb_asym|apply num_ltb_irrefl].
  - destruct x as [| | |], y as [[]| | |]; split; try done; apply num_ltb_irrefl.
Qed.

Lemma num_min_not_nan x y : is_nan x = false -> is_nan y = false ->
  is_nan (num_min x y) = false.
Proof.
  intros Hx Hy. unfold num_min. rewrite Hx, Hy. simpl. destruct (num_ltb y x); [done|].
  by destruct x, y as [[]| | |].
Qed.

(** * [Number::toString] (radix 10)

    The shortest decimal that rounds back to the number, the closest one when
    several have that length.  [v = m * 2^e] is the fraction [p/q]; a decimal
    [s * 10^(n-k)] rounds to [v] when it lies in the rounding interval of
    [v]. *)
Section ToString.
Context (m : positive) (e : Z).
Let ulp4_den : Z := if e <? 2 then 2 ^ (2 - e) else 1.
(** [v], scaled by [ulp4_den], counted in quarters of its last place. *)
Let quarter : Z := if e <? 2 then 1 else 2 ^ (e - 2).
Let v4 : Z := Z.pos m * 4 * quarter.
Let low4 : Z :=
  if (Z.pos m =? 2 ^ 52) && (-1074 <? e) then v4 - quarter else v4 - 2 * quarter.
Let high4 : Z := v4 + 2 * quarter.

(** Whether [s * 10^t] rounds to [v]. *)
Definition rounds_back (s t : Z) : bool :=
  let '(a, d) := if 0 <=? t then (s * 10 ^ t * ulp4_den, 1) else (s * ulp4_den, 10 ^ (- t)) in
  if Z.even (Z.pos m) then (low4 * d <=? a) && (a <=? high4 * d)
  else (low4 * d <? a) && (a <? high4 * d).

(** The power of ten with [10^(n-1) <= v < 10^n]. *)
Fixpoint find_exp (fuel : nat) (n : Z) : Z :=
  match fuel with
  | O => n
  | S fuel =>
      let below := if 0 <=? n then v4 <? 10 ^ n * ulp4_den
                   else v4 * 10 ^ (- n) <? ulp4_den in
      let above := let n1 := n - 1 in
                   if 0 <=? n1 then 10 ^ n1 * ulp4_den <=? v4
                   else ulp4_den <=? v4 * 10 ^ (- n1) in
      if negb below then find_exp fuel (n + 1)
      else if negb above then find_exp fuel (n - 1)
      else n
  end.

(** Shortest digits, tried from [k] significant digits on. *)
Fixpoint shortest (fuel : nat) (n k : Z) : Z * Z * Z :=
  match fuel with
  | O => (0, n, k)
  | S fuel =>
      let t := n - k in
      let '(a, d) := if 0 <=? t then (v4, 10 ^ t * ulp4_den)
                     else (v4 * 10 ^ (- t), ulp4_den) in
      let s := a / d in
      let near := if 2 * (a - s * d) <=? d then s else s + 1 in
      let far := if 2 * (a - s * d) <=? d then s + 1 else s in
      let fit s := if s =? 10 ^ k then (s / 10, n + 1, k) else (s, n, k) in
      if rounds_back near t then fit near
      else if rounds_back far t then fit far
      else shortest fuel n (k + 1)
  end.
End ToString.

Fixpoint zeros (n : nat) : string :=
  match n with O => "" | S n' => ("0" ++ zeros n')%string end.

(** The layout step of [Number::toString] for digits [s] ([k] of them) with
    [v] about [s * 10^(n-k)]. *)
Definition layout (s n k : Z) : string :=
  let d := str_of_Z s in
  let nat_of z := Z.to_nat z in
  if (k <=? n) && (n <=? 21) then (d ++ zeros (nat_of (n - k)))%string
  else if (0 <? n) && (n <=? 21) then
    (String.substring 0 (nat_of n) d ++ "." ++ str_drop (nat_of n) d)%string
  else if (-6 <? n) && (n <=? 0) then ("0." ++ zeros (nat_of (- n)) ++ d)%string
  else
    let sign := if 0 <? n then "e+" else "e-" in
    let ex := (sign ++ str_of_Z (Z.abs (n - 1)))%string in
    if k =? 1 then (d ++ ex)%string
    else (String.substring 0 1 d ++ "." ++ str_drop 1 d ++ ex)%string.

Definition num_to_string (x : num) : string :=
  match x with
  | S754_nan => "NaN"
  | S754_zero _ => "0"
  | S754_infinity s => if s then "-Infinity" else "Infinity"
  | S754_finite s m e =>
      let guess := (Z.log2 (Z.pos m) + e) * 3 / 10 + 1 in
      let n := find_exp m e 64 guess in
      let '(ds, n, k) := shortest m e 18 n 1 in
      ((if s then "-" else "") ++ layout ds n k)%string
  end.

(** [Math.floor] of a finite number, as an integer. *)
Definition num_floor (x : num) : Z :=
  match x with
  | S754_finite s m e =>
      let m := if s then Z.neg m else Z.pos m in
      if 0 <=? e then m * 2 ^ e else m / 2 ^ (- e)
  | _ => 0
  end.

(** [x.toFixed(k)]: the nearest multiple of [10^-k], ties away from zero, for
    numbers below [10^21]. *)
Definition fixed_digits (m : positive) (e : Z) (k : nat) : string :=
  let scaled := Z.pos m * 10 ^ Z.of_nat k in
  let n := if 0 <=? e then scaled * 2 ^ e else (2 * scaled + 2 ^ (- e)) / (2 * 2 ^ (- e)) in
  let p := 10 ^ Z.of_nat k in
  match k with
  | O => str_of_Z n
  | _ => let frac := str_of_Z (n mod p) in
         (str_of_Z (n / p) ++ "." ++ zeros (k - String.length frac) ++ frac)%string
  end.
Definition num_to_fixed (k : nat) (x : num) : string :=
  match x with
  | S754_zero _ => match k with O => "0" | _ => ("0." ++ zeros k)%string end
  | S754_finite s m e =>
      if num_geb x (num_of_Z (10 ^ 21)) || num_leb x (num_of_Z (- 10 ^ 21)) then num_to_string x
      else ((if s then "-" else "") ++ fixed_digits m e k)%string
  | _ => num_to_string x
  end.

Example to_fixed_ex : num_to_fixed 3 (num_of_decimal 20455 6) = "0.020" /\
  num_to_fixed 3 (num_of_decimal (-12345) 4) = "-1.234" /\ num_to_fixed 2 (num_of_decimal 1995 3) = "2.00".
Proof. vm_compute. done. Qed.
Example to_string_half : num_to_string (num_of_decimal 5 1) = "0.5".
Proof. vm_compute. reflexivity. Qed.
Example to_string_tenths :
  num_to_string (num_add (num_of_decimal 1 1) (num_of_decimal 2 1)) = "0.30000000000000004".
Proof. vm_compute. reflexivity. Qed.
Example to_string_third : num_to_string (num_div num_one (num_of_Z 3)) = "0.3333333333333333".
Proof. vm_compute. reflexivity. Qed.
Example to_string_1e23 : num_to_string (num_of_Z (10 ^ 23)) = "1e+23".
Proof. vm_compute. reflexivity. Qed.
Example to_string_small : num_to_string (S754_finite false 1 (-1074)) = "5e-324".
Proof. vm_compute. reflexivity. Qed.
Example to_string_int : num_to_string (num_of_Z (-30000)) = "-30000".
Proof. vm_compute. reflexivity. Qed.
Example to_string_dec : num_to_string (num_of_decimal 12345678 3) = "12345.678".
Proof. vm_compute. reflexivity. Qed.
Example to_string_max :
  num_to_string (S754_finite false (2 ^ 53 - 1) 971) = "1.7976931348623157e+308".
Proof. vm_compute. reflexivity. Qed.

(** * Integers below [2^53] are exact *)

Definition safe_int (z : Z) : Prop := 0 <= z < 2 ^ prec.

Lemma digits2_pos_bounds p :
  Z.pos p < 2 ^ Z.pos (digits2_pos p) /\ 2 ^ (Z.pos (digits2_pos p) - 1) <= Z.pos p.
Proof.
  induction p as [p [IH1 IH2]|p [IH1 IH2]|]; cbn [digits2_pos]; [..|by split].
  all: rewrite Pos2Z.inj_succ; replace (Z.succ (Z.pos (digits2_pos p)) - 1)
    with (Z.succ (Z.pos (digits2_pos p) - 1)) by lia; rewrite !Z.pow_succ_r by lia; lia.
Qed.

Lemma digits2_pos_shift p k :
  Z.pos (digits2_pos (Pos.iter xO p k)) = Z.pos (digits2_pos p) + Z.pos k.
Proof.
  induction k as [|k IH] using Pos.peano_ind; [simpl; lia|].
  rewrite Pos.iter_succ. cbn [digits2_pos]. rewrite !Pos2Z.inj_succ, IH. lia.
Qed.

Lemma iter_xO_inj p q k : Pos.iter xO p k = Pos.iter xO q k -> p = q.
Proof.
  induction k as [|k IH] using Pos.peano_ind; [simpl; by intros [= ->]|].
  rewrite !Pos.iter_succ. intros [= H]. by apply IH.
Qed.

(** A mantissa of 53 digits in range is already rounded. *)
Lemma round_exact m e :
  Z.pos (digits2_pos m) = prec -> -1074 <= e -> e <= emax - prec ->
  binary_round_aux prec emax false (Z.pos m) e loc_Exact = S754_finite false m e.
Proof.
  intros Hd He1 He2. assert (Hs : shr_fexp prec emax (Z.pos m) e loc_Exact =
      ({| shr_m := Z.pos m; shr_r := false; shr_s := false |}, e)).
  { unfold shr_fexp, fexp, emin, Zdigits2. rewrite Hd.
    replace (Z.max (prec + e - prec) (3 - emax - prec) - e) with 0 by (unfold prec, emax; lia).
    done. }
  unfold binary_round_aux. rewrite Hs. simpl. rewrite Hs. simpl.
  by rewrite (proj2 (Z.leb_le _ _) He2).
Qed.

Lemma num_of_Z_pos m : Z.pos m < 2 ^ prec ->
  num_of_Z (Z.pos m) = S754_finite false
    (match (prec - Z.pos (digits2_pos m))%Z with Z.pos k => Pos.iter xO m k | _ => m end)
    (Z.pos (digits2_pos m) - prec)%Z.
Proof.
  intros Hm. destruct (digits2_pos_bounds m) as [_ Hlo].
  assert (Hd : Z.pos (digits2_pos m) <= prec).
  { assert (Hlt : 2 ^ (Z.pos (digits2_pos m) - 1) < 2 ^ prec) by lia.
    apply Z.pow_lt_mono_r_iff in Hlt; unfold prec in *; lia. }
  unfold num_of_Z. simpl. unfold binary_round, shl_align, fexp, emin.
  set (d := digits2_pos m) in *.
  replace (Z.max (Z.pos d + 0 - prec) (3 - emax - prec)) with (Z.pos d - prec)
    by (unfold prec, emax in *; lia).
  rewrite Z.sub_0_r. destruct (Z.pos d - prec) as [|k|k] eqn:Ek; [..|].
  - replace (prec - Z.pos d) with 0 by lia. apply round_exact; unfold prec, emax in *; lia.
  - unfold prec in *; lia.
  - replace (prec - Z.pos d) with (Z.pos k) by lia.
    apply round_exact; [rewrite digits2_pos_shift; fold d; lia|unfold prec, emax in *; lia..].
Qed.

Lemma num_of_Z_inj a b : safe_int a -> safe_int b -> num_of_Z a = num_of_Z b -> a = b.
Proof.
  intros [Ha1 Ha2] [Hb1 Hb2]. destruct a as [|p|p], b as [|q|q]; try lia; try done.
  - rewrite (num_of_Z_pos q) by done. done.
  - rewrite (num_of_Z_pos p) by done. done.
  - rewrite !num_of_Z_pos by done. intros [= Hm He]. f_equal.
    replace (digits2_pos q) with (digits2_pos p) in Hm by lia.
    destruct (prec - Z.pos (digits2_pos p)); try done. by eapply iter_xO_inj.
Qed.

(** Such numbers are safe to serialize. *)
Lemma num_of_Z_safe a : safe_int a ->
  match num_of_Z a with S754_zero false | S754_finite _ _ _ => true | _ => false end = true.
Proof.
  intros [Ha1 Ha2]. destruct a as [|p|p]; [done| |lia]. by rewrite num_of_Z_pos.
Qed.

Lemma num_eqb_finite s m e x : num_eqb (S754_finite s m e) x = true -> x = S754_finite s m e.
Proof.
  unfold num_eqb, SFeqb, SFcompare. destruct x as [s'|s'| |s' m' e'], s; try done; try by destruct s'.
  all: destruct s'; try done; destruct (Z.compare_spec e e'); try done; subst.
  all: change (Pos.compare_cont Eq m m') with (m ?= m')%positive;
    destruct (Pos.compare_spec m m'); try done; by subst.
Qed.

(** Two safe integers equal to one number are the same. *)
Lemma num_eqb_safe a b x : safe_int a -> safe_int b ->
  num_eqb (num_of_Z a) x = true -> num_eqb (num_of_Z b) x = true -> a = b.
Proof.
  intros [Ha1 Ha2] [Hb1 Hb2]. destruct a as [|p|p], b as [|q|q]; try lia.
  - rewrite (num_of_Z_pos q) by done. intros Hx Hy. apply num_eqb_finite in Hy as ->. done.
  - rewrite (num_of_Z_pos p) by done. intros Hx Hy. apply num_eqb_finite in Hx as ->. done.
  - intros Hx Hy. apply num_of_Z_inj; [done..|]. rewrite !num_of_Z_pos in * by done.
    apply num_eqb_finite in Hx as ->. by apply num_eqb_finite in Hy.
Qed.
