(* ===== verification/JsValue.v ===== *)
(** JavaScript values.

    The [unknown]-typed payloads the library handles (node outputs, tool
    arguments, decision cores) as finite trees, and plain-object operations on
    insertion-ordered fields. *)

From S2P Require Import Prelude JsNum.

Inductive jsval : Type :=
| JUndef
| JNull
| JBool (b : bool)
| JNum (x : num)
| JStr (s : string)
| JBigInt (z : Z)
| JDate (ms : option Z)           (** epoch ms; [None] for an invalid date *)
| JBytes (bytes : list Z)         (** [Uint8Array] / [Buffer] *)
| JArr (items : list jsval)
| JObj (fields : list (string * jsval))
| JFun.                           (** function or symbol *)

(** Induction that reaches array items and object fields. *)
Section JsvalInd.
Context (P : jsval -> Prop).
Context (HUndef : P JUndef) (HNull : P JNull) (HBool : forall b, P (JBool b))
  (HNum : forall x, P (JNum x)) (HStr : forall s, P (JStr s))
  (HBig : forall z, P (JBigInt z)) (HDate : forall ms, P (JDate ms))
  (HBytes : forall l, P (JBytes l))
  (HArr : forall l, Forall P l -> P (JArr l))
  (HObj : forall l, Forall (fun kv => P kv.2) l -> P (JObj l))
  (HFun : P JFun).

Fixpoint jsval_ind_nested (v : jsval) : P v :=
  match v with
  | JUndef => HUndef
  | JNull => HNull
  | JBool b => HBool b
  | JNum x => HNum x
  | JStr s => HStr s
  | JBigInt z => HBig z
  | JDate ms => HDate ms
  | JBytes l => HBytes l
  | JArr l =>
      HArr l ((fix go l : Forall P l :=
        match l with
        | [] => Forall_nil_2 _
        | x :: l' => Forall_cons_2 _ _ _ (jsval_ind_nested x) (go l')
        end) l)
  | JObj l =>
      HObj l ((fix go l : Forall (fun kv => P kv.2) l :=
        match l with
        | [] => Forall_nil_2 _
        | kv :: l' => Forall_cons_2 _ _ _ (jsval_ind_nested kv.2) (go l')
        end) l)
  | JFun => HFun
  end.
End JsvalInd.

Definition is_null (v : jsval) : bool := match v with JNull => true | _ => false end.

(** [v ?? null]. *)
Definition or_null (v : jsval) : jsval := match v with JUndef => JNull | _ => v end.

(** [Array.isArray(v)], with the items. *)
Definition as_array (v : jsval) : option (list jsval) :=
  match v with JArr l => Some l | _ => None end.

(** [o[k]] on a plain object: a missing key reads as [undefined]. *)
Definition get_field (k : string) (o : list (string * jsval)) : jsval :=
  match om_get k o with Some v => v | None => JUndef end.

Lemma get_field_set_eq k v o : get_field k (om_set k v o) = v.
Proof. unfold get_field. by rewrite om_get_set_eq. Qed.

Lemma get_field_set_ne k k' v o : k <> k' -> get_field k' (om_set k v o) = get_field k' o.
Proof. intros. unfold get_field. by rewrite om_get_set_ne. Qed.
