(* ===== verification/Word32.v ===== *)
(** 32-bit words: the operators of the language on them.

    [^], [&], [|] and [<<] give signed words, [>>>] and [Math.imul(..) >>> 0]
    unsigned ones; the wrap-around is written out on [Z]. *)

From S2P Require Import Prelude.

(** [x >>> 0] and [x | 0]. *)
Definition u32 (z : Z) : Z := z mod 4294967296.
Definition i32 (z : Z) : Z := (z + 2147483648) mod 4294967296 - 2147483648.

(** [Math.imul(a, b) >>> 0]. *)
Definition imul (a b : Z) : Z := u32 (a * b).

Definition js_xor (a b : Z) : Z := i32 (Z.lxor (i32 a) (i32 b)).
Definition js_and (a b : Z) : Z := i32 (Z.land (i32 a) (i32 b)).
Definition js_or (a b : Z) : Z := i32 (Z.lor (i32 a) (i32 b)).
Definition js_shl (a k : Z) : Z := i32 (Z.shiftl (i32 a) k).
Definition js_ushr (a k : Z) : Z := Z.shiftr (u32 a) k.

(** * Bounds *)

Lemma u32_range z : 0 <= u32 z < 4294967296.
Proof. unfold u32. apply Z.mod_pos_bound. lia. Qed.

Lemma log2_lt a n : 0 <= n -> 0 <= a -> a < 2 ^ n <-> (a = 0 \/ Z.log2 a < n).
Proof.
  intros Hn Ha. destruct (Z.eq_dec a 0) as [->|Hne].
  - split; [by left|intros _; by apply Z.pow_pos_nonneg].
  - rewrite <- Z.log2_lt_pow2 by lia. split; [by right|by intros [?|?]].
Qed.

Lemma lxor_range a b n : 0 <= n -> 0 <= a < 2 ^ n -> 0 <= b < 2 ^ n -> 0 <= Z.lxor a b < 2 ^ n.
Proof.
  intros Hn Ha Hb. assert (H0 : 0 <= Z.lxor a b) by (apply Z.lxor_nonneg; lia).
  split; [done|]. apply log2_lt; [done|done|].
  pose proof (Z.log2_lxor a b ltac:(lia) ltac:(lia)) as Hl.
  destruct (proj1 (log2_lt a n Hn ltac:(lia)) ltac:(lia)) as [->|Hla];
    destruct (proj1 (log2_lt b n Hn ltac:(lia)) ltac:(lia)) as [->|Hlb].
  - by left.
  - rewrite Z.lxor_0_l. by right.
  - rewrite Z.lxor_0_r. by right.
  - right. lia.
Qed.

Lemma shiftr_range a k n : 0 <= k -> 0 <= a < 2 ^ n -> 0 <= Z.shiftr a k < 2 ^ n.
Proof.
  intros Hk Ha. rewrite Z.shiftr_div_pow2 by done.
  assert (0 < 2 ^ k) by (by apply Z.pow_pos_nonneg).
  split; [apply Z.div_pos; lia|]. apply Z.le_lt_trans with a; [|lia].
  apply Z.div_le_upper_bound; [done|]. nia.
Qed.

(** * Bits *)

Lemma u32_testbit z i : 0 <= i -> Z.testbit (u32 z) i = (i <? 32) && Z.testbit z i.
Proof.
  intros Hi. unfold u32. change 4294967296 with (2 ^ 32). destruct (Z.ltb_spec i 32).
  - by rewrite Z.mod_pow2_bits_low.
  - by rewrite Z.mod_pow2_bits_high by lia.
Qed.

Lemma u32_small z : 0 <= z < 4294967296 -> u32 z = z.
Proof. intros. by apply Z.mod_small. Qed.

Lemma u32_i32 z : u32 (i32 z) = u32 z.
Proof.
  unfold u32, i32. rewrite Zminus_mod_idemp_l. f_equal. lia.
Qed.

Lemma u32_bits a b : (forall i, 0 <= i < 32 -> Z.testbit a i = Z.testbit b i) -> u32 a = u32 b.
Proof.
  intros H. apply Z.bits_inj'. intros i Hi. rewrite !u32_testbit by done.
  destruct (Z.ltb_spec i 32); [|done]. simpl. by apply H.
Qed.

Lemma i32_testbit z i : 0 <= i < 32 -> Z.testbit (i32 z) i = Z.testbit z i.
Proof.
  intros Hi. pose proof (f_equal (fun w => Z.testbit w i) (u32_i32 z)) as E. simpl in E.
  rewrite !u32_testbit in E by lia. by rewrite (proj2 (Z.ltb_lt i 32)) in E by lia.
Qed.

Lemma u32_js_xor a b : u32 (js_xor a b) = Z.lxor (u32 a) (u32 b).
Proof.
  unfold js_xor. rewrite u32_i32. apply Z.bits_inj'. intros i Hi.
  rewrite Z.lxor_spec, !u32_testbit, Z.lxor_spec by done.
  destruct (Z.ltb_spec i 32); [|done]. simpl. by rewrite !i32_testbit by lia.
Qed.

Lemma u32_js_shl a k : 0 <= k -> u32 (js_shl a k) = u32 (Z.shiftl (u32 a) k).
Proof.
  intros Hk. unfold js_shl. rewrite u32_i32. apply u32_bits. intros i Hi.
  rewrite !Z.shiftl_spec by lia. destruct (Z.le_gt_cases k i).
  - rewrite i32_testbit, u32_testbit by lia. by rewrite (proj2 (Z.ltb_lt _ _)) by lia.
  - by rewrite !Z.testbit_neg_r by lia.
Qed.

Lemma u32_js_ushr a k : 0 <= k -> u32 (js_ushr a k) = Z.shiftr (u32 a) k.
Proof.
  intros Hk. unfold js_ushr. apply u32_small. apply (shiftr_range _ k 32); [done|].
  apply u32_range.
Qed.
