(* ===== verification/DagTypes.v ===== *)
(** Port contracts of the DAG orchestration engine
    ([src/orchestration/dag/contracts.ts]) and the scheduler's per-node
    record. *)

From S2P Require Import Prelude JsNum JsValue.

Inductive NodeStatus := done | deferred | failed.

(** Resolved outputs of a node's upstream dependencies, keyed by node id. *)
Abbreviation NodeInputs := (list (string * jsval)).

Record Grant := { g_tools : option (list string); g_maxSteps : option Z }.

Record DagNodeSpec := {
  id : string;
  task : string;
  dependsOn : option (list string);
  mapOver : option string;
  samples : option Z;
  timeoutMs : option Z;
  grant : option Grant;
  model : option string;
  runIf : option (NodeInputs -> result bool);
  maxTimeoutRetries : option Z
}.

Record NodeOutcome := {
  o_status : NodeStatus;
  o_output : jsval;                 (** [JNull] when the status is not done *)
  o_reason : option string
}.

(** A verifier's verdict over candidate outputs; [JNull] in [accepted] means
    all candidates were rejected. *)
Record VerifierVerdict := {
  accepted : jsval;
  acceptedIndex : Z;
  v_reason : string;
  acceptedScore : option num
}.

(** Status of a live record: not started, executing, or settled. *)
Inductive RecStatus := pending | running | settled (s : NodeStatus).

#[export] Instance NodeStatus_eq_dec : EqDecision NodeStatus.
Proof. solve_decision. Defined.
#[export] Instance RecStatus_eq_dec : EqDecision RecStatus.
Proof. solve_decision. Defined.

(** [r.status === s]. *)
Definition status_is (s t : RecStatus) : bool := bool_decide (s = t).

(** Per-node runtime record of the scheduler. *)
Record NodeRecord := mkRecord {
  spec : DagNodeSpec;
  deps : list string;
  status : RecStatus;
  reason : option string;
  output : jsval;
  attempts : Z;
  retriesUsed : Z;
  replanOffered : bool
}.

Record NodeManifestEntry := mkEntry {
  e_id : string;
  e_status : RecStatus;
  e_reason : option string;
  e_output : jsval;
  e_dependsOn : list string;
  e_attempts : Z
}.

Record Summary := mkSummary {
  total : Z; n_done : Z; n_deferred : Z; n_failed : Z
}.

Inductive WorkflowStatus := DONE | FAILED | CANCELLED.

Record DagRunManifest := mkManifest {
  workflowStatus : WorkflowStatus;
  summary : Summary;
  m_nodes : list NodeManifestEntry;
  rootHash : string
}.

(** Live progress events; [at] is the clock reading. *)
Inductive WorkflowProgressEvent :=
| workflow_started (runId : string) (nodeCount : Z) (at_ : Z)
| node_running (runId nodeId : string) (attempt nsamples : Z) (at_ : Z)
| node_verified (runId nodeId : string) (acc : bool) (at_ : Z)
| node_resumed (runId nodeId : string) (at_ : Z)
| node_done (runId nodeId : string) (out : jsval) (at_ : Z)
| node_failed (runId nodeId reason : string) (at_ : Z)
| node_deferred (runId nodeId reason : string) (at_ : Z)
| node_replanned (runId nodeId : string) (childCount : Z) (at_ : Z)
| workflow_settled (runId : string) (st : WorkflowStatus) (s : Summary) (at_ : Z).

Record AdaptiveBestOfNPolicy := {
  initialBatch : option Z;
  earlyAcceptThreshold : option num
}.

(** What a port's promise does: fulfil, reject with a message, or never
    settle. *)
Inductive Reply (A : Type) :=
| Fulfilled (a : A)
| Rejected (msg : string)
| NeverSettles.
Arguments Fulfilled {A} a.
Arguments Rejected {A} msg.
Arguments NeverSettles {A}.

(** An executor call settles [after] some milliseconds, or never. *)
Record ExecReply := { after : Z; reply : Reply NodeOutcome }.

(** Node-level durability journal: a recalled entry, and recording one. *)
Record StepJournal (W : Type) := {
  recall : W -> string -> string -> W * Reply (option NodeManifestEntry);
  record : W -> string -> NodeManifestEntry -> W * Reply unit
}.
Arguments recall {W} _ _ _ _.
Arguments record {W} _ _ _ _.

(** What the re-planner receives. *)
Record ReplanContext := {
  rc_failed : NodeManifestEntry;
  rc_spec : DagNodeSpec;
  rc_inputs : NodeInputs;
  rc_manifest : list NodeManifestEntry
}.

(** Inputs of a run.  The ports (executor, verifier, clock, journal,
    re-planner) are code outside the scheduler: they act on an abstract world
    [W] threaded through every call.  [hasProgress] and [hasSignal] say whether
    a progress sink and a cancel signal were supplied. *)
Record DagRunInput (W : Type) := {
  nodes : list DagNodeSpec;
  executor : W -> DagNodeSpec -> NodeInputs -> Z -> option bool -> W * ExecReply;
  verifier : option (W -> list jsval -> DagNodeSpec -> NodeInputs -> W * Reply VerifierVerdict);
  clock : W -> W * Z;
  runId : string;
  adrEco : string;
  maxConcurrency : option Z;
  journal : option (StepJournal W);
  hasProgress : bool;
  hasSignal : bool;
  defaultMaxTimeoutRetries : option Z;
  replanner : option (W -> ReplanContext -> W * Reply (option (list DagNodeSpec)));
  maxReplans : option Z;
  bestOfN : option AdaptiveBestOfNPolicy
}.
Arguments nodes {W} _.
Arguments executor {W} _ _ _ _ _ _.
Arguments verifier {W} _.
Arguments clock {W} _ _.
Arguments runId {W} _.
Arguments adrEco {W} _.
Arguments maxConcurrency {W} _.
Arguments journal {W} _.
Arguments hasProgress {W} _.
Arguments hasSignal {W} _.
Arguments defaultMaxTimeoutRetries {W} _.
Arguments replanner {W} _.
Arguments maxReplans {W} _.
Arguments bestOfN {W} _.

(** A record as the scheduler creates it for a fresh piece of work. *)
Definition freshRecord (s : DagNodeSpec) : NodeRecord :=
  mkRecord s (default [] (dependsOn s)) pending None JNull 0 0 false.

(** Field updates on a shared record. *)
Definition set_status (st : RecStatus) (rs : option string) (r : NodeRecord) : NodeRecord :=
  mkRecord (spec r) (deps r) st rs (output r) (attempts r) (retriesUsed r) (replanOffered r).
Definition set_result (st : RecStatus) (out : jsval) (rs : option string) (r : NodeRecord) : NodeRecord :=
  mkRecord (spec r) (deps r) st rs out (attempts r) (retriesUsed r) (replanOffered r).
Definition set_attempts (n : Z) (r : NodeRecord) : NodeRecord :=
  mkRecord (spec r) (deps r) (status r) (reason r) (output r) n (retriesUsed r) (replanOffered r).
Definition set_retries (n : Z) (r : NodeRecord) : NodeRecord :=
  mkRecord (spec r) (deps r) (status r) (reason r) (output r) (attempts r) n (replanOffered r).
Definition set_offered (b : bool) (r : NodeRecord) : NodeRecord :=
  mkRecord (spec r) (deps r) (status r) (reason r) (output r) (attempts r) (retriesUsed r) b.

(** The record's identity: its [spec.id]. *)
Definition rid (r : NodeRecord) : string := id (spec r).

(** [byId.get(i)]: records are shared between the [records] array and the
    [byId] map, so the map is a lookup by id in the array. *)
Definition byId (rs : list NodeRecord) (i : string) : option NodeRecord :=
  find_first (fun r => (rid r =? i)%string) rs.

(** Mutation of the shared record with id [i]. *)
Definition upd (i : string) (f : NodeRecord -> NodeRecord) (rs : list NodeRecord) : list NodeRecord :=
  map (fun r => if (rid r =? i)%string then f r else r) rs.
