(* ===== verification/DagGraph.v ===== *)
(** Graph construction and validation of the DAG scheduler
    ([src/orchestration/dag/scheduler.ts]: record construction, structural
    checks, Kahn's algorithm, the governance root hash). *)

From S2P Require Import Prelude JsNum JsValue DagTypes.

(** * Records and structural checks *)

Definition DagSchedulerError (why : string) : jserror :=
  JsError "DagSchedulerError" ("DagSchedulerError: " ++ why)%string.

Fixpoint buildRecordsFrom (seen : list string) (nodes : list DagNodeSpec)
    : result (list NodeRecord) :=
  match nodes with
  | [] => Ok []
  | s :: nodes' =>
      if is_blank (id s) then
        Throw (DagSchedulerError "every node must have a non-empty id")
      else if bool_decide (id s ∈ seen) then
        Throw (DagSchedulerError ("duplicate node id: " ++ id s)%string)
      else
        rs ← buildRecordsFrom (id s :: seen) nodes';
        Ok (freshRecord s :: rs)
  end.

Definition buildRecords (nodes : list DagNodeSpec) : result (list NodeRecord) :=
  buildRecordsFrom [] nodes.

Definition ids (rs : list NodeRecord) : list string := map rid rs.

Definition checkDep (known : list string) (i dep : string) : result unit :=
  if negb (bool_decide (dep ∈ known)) then
    Throw (DagSchedulerError
      ("node '" ++ i ++ "' depends on unknown node '" ++ dep ++ "'")%string)
  else if (dep =? i)%string then
    Throw (DagSchedulerError ("node '" ++ i ++ "' depends on itself")%string)
  else Ok tt.

Definition assertNoMissingDeps (rs : list NodeRecord) : result unit :=
  for_each (fun r => for_each (checkDep (ids rs) (rid r)) (deps r)) rs.

Definition assertNoMapOverMisuse (rs : list NodeRecord) : result unit :=
  for_each (fun r =>
    match mapOver (spec r) with
    | None => Ok tt
    | Some m =>
        throw_if (negb (bool_decide (m ∈ deps r)))
          (DagSchedulerError
             ("node '" ++ rid r ++ "' maps over '" ++ m ++ "' but does not depend on it")%string)
    end) rs.

(** * Kahn's algorithm

    A dependency graph lists each node id with the ids it depends on, in
    [Map] order. *)
Abbreviation graph := (list (string * list string)).

Definition graph_of (rs : list NodeRecord) : graph := map (fun r => (rid r, deps r)) rs.

Definition indegrees (g : graph) : list (string * Z) :=
  map (fun kv => (kv.1, Z.of_nat (length kv.2))) g.

Definition indeg_get (i : string) (m : list (string * Z)) : Z := default 0 (om_get i m).

(** [dependents[x]]: the nodes that depend on [x], once per dependency. *)
Definition add_dependent (i : string) (m : graph) (dep : string) : graph :=
  om_set dep (default [] (om_get dep m) ++ [i]) m.

Definition dependents (g : graph) : graph :=
  fold_left (fun m kv => fold_left (add_dependent kv.1) kv.2 m) g [].

(** One decrement of the inner [for (const child of ...)] loop. *)
Definition release_child (acc : list (string * Z) * list string) (child : string)
    : list (string * Z) * list string :=
  let '(indeg, queue) := acc in
  let d := indeg_get child indeg - 1 in
  (om_set child d indeg, if d =? 0 then queue ++ [child] else queue).

(** The [while (queue.length > 0)] loop; returns the final indegrees and the
    placed ids in order.  Every id is queued at most once, so fuel equal to
    the number of nodes runs the loop to the empty queue. *)
Fixpoint kahn_loop (fuel : nat) (dependents : graph) (indeg : list (string * Z))
    (queue placed : list string) : list (string * Z) * list string * list string :=
  match fuel, queue with
  | S fuel, x :: queue' =>
      let '(indeg', queue'') :=
        fold_left release_child (default [] (om_get x dependents)) (indeg, queue') in
      kahn_loop fuel dependents indeg' queue'' (placed ++ [x])
  | _, _ => (indeg, queue, placed)
  end.

Definition kahn_start (g : graph) : list string :=
  map fst (List.filter (fun kv => snd kv =? 0) (indegrees g)).

Definition kahn (g : graph) : list (string * Z) * list string * list string :=
  kahn_loop (length g) (dependents g) (indegrees g) (kahn_start g) [].

Definition placed_ids (g : graph) : list string := snd (kahn g).

Definition assertAcyclic (rs : list NodeRecord) : result unit :=
  let g := graph_of rs in
  let indeg := (kahn g).1.1 in
  if (length (placed_ids g) =? length rs)%nat then Ok tt
  else
    let inCycle := map rid (List.filter (fun r => 0 <? indeg_get (rid r) indeg) rs) in
    Throw (DagSchedulerError
      ("cycle detected among nodes: " ++ join ", " (sort_strings inCycle))%string).

(** ** Specification: a graph is acyclic when its nodes can be ranked. *)

Definition acyclic (g : graph) : Prop :=
  exists rank : string -> nat,
    forall i ds d, (i, ds) ∈ g -> d ∈ ds -> (rank d < rank i)%nat.

Definition closed (g : graph) : Prop :=
  forall i ds d, (i, ds) ∈ g -> d ∈ ds -> d ∈ g.*1.

(** ** Counting *)

Fixpoint occ (x : string) (l : list string) : nat :=
  match l with
  | [] => 0
  | y :: l' => if decide (x = y) then S (occ x l') else occ x l'
  end.

(** Dependencies of a node that are not placed yet. *)
Fixpoint missing (P ds : list string) : nat :=
  match ds with
  | [] => 0
  | d :: ds' => if decide (d ∈ P) then missing P ds' else S (missing P ds')
  end.

Lemma occ_app x l1 l2 : occ x (l1 ++ l2) = (occ x l1 + occ x l2)%nat.
Proof. induction l1; simpl; [done|]. case_decide; lia. Qed.

Lemma occ_pos x l : (0 < occ x l)%nat <-> x ∈ l.
Proof.
  induction l as [|y l IH]; simpl; [split; [lia|set_solver]|].
  case_decide; subst; [split; [left|lia]|]. rewrite IH. set_solver.
Qed.

Lemma occ_cons_eq x l : occ x (x :: l) = S (occ x l).
Proof. simpl. by rewrite decide_True by done. Qed.

Lemma occ_cons_ne x y l : x <> y -> occ x (y :: l) = occ x l.
Proof. intros. simpl. by rewrite decide_False by done. Qed.

Lemma missing_zero P ds : missing P ds = 0%nat <-> forall d, d ∈ ds -> d ∈ P.
Proof.
  induction ds as [|d ds IH]; simpl; [set_solver|].
  case_decide; [rewrite IH; set_solver|].
  split; [lia|]. intros H'. exfalso. set_solver.
Qed.

Lemma missing_nil ds : missing [] ds = length ds.
Proof. induction ds as [|d ds IH]; simpl; [done|]. by rewrite IH. Qed.

Lemma missing_snoc P x ds :
  x ∉ P -> (missing (P ++ [x]) ds + occ x ds = missing P ds)%nat.
Proof.
  intros Hx. induction ds as [|d ds IH]; simpl; [done|].
  repeat case_decide; subst; set_solver || lia.
Qed.

(** ** The dependents map *)

Lemma dependents_inner i ds m x :
  default [] (om_get x (fold_left (add_dependent i) ds m)) =
  default [] (om_get x m) ++ replicate (occ x ds) i.
Proof.
  revert m. induction ds as [|d ds IH]; intros m; simpl; [by rewrite app_nil_r|].
  rewrite IH. unfold add_dependent. rewrite om_get_set.
  destruct (decide (d = x)) as [->|Hne]; simpl.
  - rewrite decide_True by done. simpl. by rewrite <- app_assoc.
  - by rewrite decide_False by congruence.
Qed.

Lemma dependents_occ g x i ds :
  NoDup g.*1 -> (i, ds) ∈ g -> occ i (default [] (om_get x (dependents g))) = occ x ds.
Proof.
  intros Hnd Hin. unfold dependents.
  assert (Hgen : forall m, occ i (default [] (om_get x
      (fold_left (fun m kv => fold_left (add_dependent kv.1) kv.2 m) g m))) =
      (occ i (default [] (om_get x m)) + occ x ds)%nat).
  { revert Hnd Hin. induction g as [|[j es] g IH]; intros Hnd Hin m; [set_solver|].
    csimpl in *. apply NoDup_cons in Hnd as [Hj Hnd].
    assert (Hrep : forall k n, occ i (replicate n k) = if decide (i = k) then n else 0%nat).
    { intros k n. induction n; simpl; repeat case_decide; congruence. }
    apply elem_of_cons in Hin as [[= <- <-]|Hin].
    - assert (Hskip : forall m', occ i (default [] (om_get x
          (fold_left (fun m kv => fold_left (add_dependent kv.1) kv.2 m) g m'))) =
          occ i (default [] (om_get x m'))).
      { clear IH Hnd. induction g as [|[k fs] g IHg]; intros m'; [done|]. csimpl in *.
        rewrite IHg by set_solver. rewrite dependents_inner, occ_app, Hrep.
        case_decide; [set_solver|lia]. }
      rewrite Hskip, dependents_inner, occ_app, Hrep. by rewrite decide_True by done.
    - rewrite IH by done. rewrite dependents_inner, occ_app, Hrep.
      rewrite decide_False; [lia|]. intros ->. apply Hj. by apply (list_elem_of_fmap_2 fst) in Hin. }
  rewrite Hgen. done.
Qed.

Lemma dependents_in g x i :
  i ∈ default [] (om_get x (dependents g)) -> exists ds, (i, ds) ∈ g /\ x ∈ ds.
Proof.
  unfold dependents.
  assert (Hgen : forall m, i ∈ default [] (om_get x
      (fold_left (fun m kv => fold_left (add_dependent kv.1) kv.2 m) g m)) ->
      i ∈ default [] (om_get x m) \/ exists ds, (i, ds) ∈ g /\ x ∈ ds).
  { induction g as [|[j es] g IH]; intros m Hin; csimpl in *; [by left|].
    apply IH in Hin as [Hin|(ds & ? & ?)]; [|right; exists ds; set_solver].
    rewrite dependents_inner, elem_of_app in Hin. destruct Hin as [Hin|Hin]; [by left|].
    right. apply elem_of_replicate in Hin as [-> Hn]. exists es. split; [left|].
    apply occ_pos. lia. }
  intros Hin. apply Hgen in Hin as [Hin|?]; [|done]. simpl in Hin. set_solver.
Qed.

(** ** The inner loop *)

Lemma release_children L indeg queue indeg' queue' :
  fold_left release_child L (indeg, queue) = (indeg', queue') ->
  (forall i, i ∈ L -> Z.of_nat (occ i L) <= indeg_get i indeg) ->
  (forall i, indeg_get i indeg' = indeg_get i indeg - Z.of_nat (occ i L)) /\
  exists new, queue' = queue ++ new /\ NoDup new /\
    forall i, i ∈ new <-> i ∈ L /\ indeg_get i indeg' = 0.
Proof.
  revert indeg queue. induction L as [|c L IH]; intros indeg queue Hf Hge.
  { injection Hf as <- <-. split; [intros; simpl; lia|]. exists []. rewrite app_nil_r.
    split_and!; [done|constructor|set_solver]. }
  simpl in Hf.
  assert (Hget : forall i, indeg_get i (om_set c (indeg_get c indeg - 1) indeg) =
      if decide (c = i) then indeg_get c indeg - 1 else indeg_get i indeg).
  { intros i. unfold indeg_get at 1. rewrite om_get_set. by case_decide. }
  pose proof (Hge c ltac:(left)) as Hgec. rewrite occ_cons_eq in Hgec.
  apply IH in Hf as [Hind (new & -> & Hnd & Hnew)].
  2:{ intros i Hi. rewrite Hget. destruct (decide (c = i)) as [<-|Hne]; [lia|].
      specialize (Hge i ltac:(by right)). rewrite occ_cons_ne in Hge by done. done. }
  split.
  { intros i. rewrite Hind, Hget. destruct (decide (c = i)) as [<-|Hne].
    - rewrite occ_cons_eq. lia.
    - rewrite occ_cons_ne by done. lia. }
  pose proof (Hind c) as Hc. rewrite Hget, decide_True in Hc by done.
  destruct (Z.eqb_spec (indeg_get c indeg - 1) 0) as [Hz|Hz].
  - exists (c :: new).
    assert (Hocc : occ c L = 0%nat) by lia.
    assert (HcL : c ∉ L) by (intros HcL; apply occ_pos in HcL; lia).
    rewrite <- app_assoc. split_and!; [done| |].
    + constructor; [|done]. rewrite Hnew. tauto.
    + intros i. rewrite !elem_of_cons, Hnew.
      split; [|tauto]. intros [->|[? ?]]; [|tauto]. split; [by left|lia].
  - exists new. split_and!; [done|done|]. intros i. rewrite elem_of_cons, Hnew.
    split; [tauto|]. intros [[->|?] Hi]; [|tauto]. split; [|done].
    apply occ_pos. lia.
Qed.

(** ** Loop invariant of Kahn's algorithm *)
Section KahnCorrect.
Context (g : graph) (Hnd : NoDup g.*1).

Record kahn_inv (indeg : list (string * Z)) (queue P : list string) : Prop := {
  ki_nodup : NoDup (P ++ queue);
  ki_nodes : forall i, i ∈ P ++ queue -> i ∈ g.*1;
  ki_indeg : forall i ds, (i, ds) ∈ g -> indeg_get i indeg = Z.of_nat (missing P ds);
  ki_ready : forall i ds, (i, ds) ∈ g -> (i ∈ P ++ queue <-> missing P ds = 0%nat);
  ki_topo : forall P1 x P2 ds d,
    P = P1 ++ x :: P2 -> (x, ds) ∈ g -> d ∈ ds -> d ∈ P1
}.

Lemma node_deps i : i ∈ g.*1 -> exists ds, (i, ds) ∈ g.
Proof. intros H. apply list_elem_of_fmap in H as ([j ds] & -> & H). eauto. Qed.

Lemma indeg_init i ds : (i, ds) ∈ g -> indeg_get i (indegrees g) = Z.of_nat (length ds).
Proof.
  unfold indeg_get, indegrees. clear -Hnd. revert Hnd.
  induction g as [|[j es] g' IH]; intros Hnd Hin; csimpl in *; [set_solver|].
  apply NoDup_cons in Hnd as [Hj Hnd]. apply elem_of_cons in Hin as [[= -> ->]|Hin].
  - by rewrite decide_True by done.
  - rewrite decide_False; [by apply IH|]. intros ->.
    apply Hj. by apply (list_elem_of_fmap_2 fst) in Hin.
Qed.

Lemma kahn_start_elem i : i ∈ kahn_start g <-> (i, []) ∈ g.
Proof.
  unfold kahn_start, indegrees. rewrite list_elem_of_fmap. split.
  - intros ([j z] & -> & Hin). apply list_elem_of_In, filter_In in Hin as [Hin Hz].
    apply list_elem_of_In, list_elem_of_fmap in Hin as ([k ds] & [= -> ->] & Hin).
    csimpl in *. apply Z.eqb_eq in Hz. destruct ds; [done|simpl in Hz; lia].
  - intros Hin. exists (i, 0). split; [done|]. apply list_elem_of_In, filter_In.
    split; [|done]. apply list_elem_of_In, list_elem_of_fmap. by exists (i, []).
Qed.

Lemma kahn_start_NoDup : NoDup (kahn_start g).
Proof.
  unfold kahn_start, indegrees. clear -Hnd. revert Hnd.
  induction g as [|[j es] g' IH]; intros Hnd; csimpl in *; [constructor|].
  apply NoDup_cons in Hnd as [Hj Hnd]. destruct (_ =? 0); csimpl; [|by apply IH].
  constructor; [|by apply IH]. intros Hin. apply Hj.
  apply list_elem_of_fmap in Hin as ([k z] & -> & Hin).
  apply list_elem_of_In, filter_In in Hin as [Hin _].
  apply list_elem_of_In, list_elem_of_fmap in Hin as ([l ds] & [= -> ->] & Hin).
  by apply (list_elem_of_fmap_2 fst) in Hin.
Qed.

Lemma deps_unique i ds es : (i, ds) ∈ g -> (i, es) ∈ g -> ds = es.
Proof.
  intros H1 H2. clear -Hnd H1 H2. induction g as [|[j fs] g' IH]; csimpl in *; [set_solver|].
  apply NoDup_cons in Hnd as [Hj Hnd'].
  apply elem_of_cons in H1 as [[= -> ->]|H1]; apply elem_of_cons in H2 as [[= ->]|H2]; try done.
  - exfalso. apply Hj. by apply (list_elem_of_fmap_2 fst) in H2.
  - simplify_eq. exfalso. apply Hj. by apply (list_elem_of_fmap_2 fst) in H1.
  - by apply IH.
Qed.

Lemma kahn_inv_init : kahn_inv (indegrees g) (kahn_start g) [].
Proof.
  split; simpl.
  - apply kahn_start_NoDup.
  - intros i Hi%kahn_start_elem. by apply (list_elem_of_fmap_2 fst) in Hi.
  - intros i ds Hin. rewrite missing_nil. by apply indeg_init.
  - intros i ds Hin. rewrite kahn_start_elem, missing_nil. split.
    + intros H0. by rewrite (deps_unique _ _ _ Hin H0).
    + intros H0. by destruct ds.
  - intros P1 x P2 ds d H. by destruct P1.
Qed.

(** A node that is still missing something is not placed or queued, and its
    occurrences among the dependents of [x] do not exceed what it misses. *)
Lemma kahn_step_inv indeg x queue P indeg' queue' :
  kahn_inv indeg (x :: queue) P ->
  fold_left release_child (default [] (om_get x (dependents g))) (indeg, queue) =
    (indeg', queue') ->
  kahn_inv indeg' queue' (P ++ [x]).
Proof.
  intros [Hndq Hnodes Hindeg Hready Htopo] Hfold.
  assert (HxP : x ∉ P) by (apply NoDup_app in Hndq as (_ & H & _); intros H'; by apply (H x H'); left).
  destruct (node_deps x) as [dsx Hx]; [apply Hnodes; set_solver|].
  assert (Hmx : missing P dsx = 0%nat) by (apply (Hready x dsx Hx); set_solver).
  assert (Hocc : forall i ds, (i, ds) ∈ g ->
    (missing (P ++ [x]) ds + occ i (default [] (om_get x (dependents g))) = missing P ds)%nat).
  { intros i ds Hi. rewrite (dependents_occ g x i ds) by done. by apply missing_snoc. }
  apply release_children in Hfold as [Hind (new & -> & Hndn & Hnew)].
  2:{ intros i Hi. apply dependents_in in Hi as (ds & Hi & _).
      rewrite (Hindeg i ds Hi). specialize (Hocc i ds Hi). lia. }
  assert (Hindeg' : forall i ds, (i, ds) ∈ g ->
      indeg_get i indeg' = Z.of_nat (missing (P ++ [x]) ds)).
  { intros i ds Hi. rewrite Hind, (Hindeg i ds Hi). specialize (Hocc i ds Hi). lia. }
  assert (Hnew' : forall i ds, (i, ds) ∈ g ->
      (i ∈ new <-> missing P ds <> 0%nat /\ missing (P ++ [x]) ds = 0%nat)).
  { intros i ds Hi. rewrite Hnew, (Hindeg' i ds Hi), <- occ_pos.
    specialize (Hocc i ds Hi). lia. }
  assert (Hnewg : forall i, i ∈ new -> i ∈ g.*1).
  { intros i Hi. apply Hnew in Hi as [Hi _]. apply dependents_in in Hi as (ds & Hi & _).
    by apply (list_elem_of_fmap_2 fst) in Hi. }
  split.
  - replace ((P ++ [x]) ++ queue ++ new) with ((P ++ x :: queue) ++ new)
      by (by rewrite <- !app_assoc).
    apply NoDup_app. split_and!; [done| |done]. intros i Hi Hin.
    destruct (node_deps i (Hnodes i Hi)) as [ds Hids].
    apply (Hready i ds Hids) in Hi. apply (Hnew' i ds Hids) in Hin. lia.
  - intros i Hi. rewrite !elem_of_app, list_elem_of_singleton in Hi.
    destruct Hi as [[Hi| ->]|[Hi|Hi]]; [| | |by apply Hnewg]; apply Hnodes; set_solver.
  - done.
  - intros i ds Hi. specialize (Hready i ds Hi). specialize (Hnew' i ds Hi).
    specialize (Hocc i ds Hi).
    rewrite !elem_of_app, list_elem_of_singleton in *. rewrite elem_of_cons in Hready.
    destruct (decide (missing P ds = 0%nat)); [|tauto].
    split; [intros _; lia|]. intros _. tauto.
  - intros P1 y P2 ds d Heq Hy Hd.
    destruct (decide (P2 = [])) as [->|Hne].
    + apply app_inj_tail in Heq as [<- <-]. rewrite (deps_unique _ _ _ Hx Hy) in Hmx.
      by apply (missing_zero P ds).
    + destruct (exists_last Hne) as (P3 & z & ->).
      rewrite app_comm_cons, app_assoc in Heq. apply app_inj_tail in Heq as [-> <-].
      by eapply Htopo.
Qed.

Lemma kahn_loop_inv fuel indeg queue P indeg' queue' P' :
  kahn_inv indeg queue P -> (length g <= fuel + length P)%nat ->
  kahn_loop fuel (dependents g) indeg queue P = (indeg', queue', P') ->
  kahn_inv indeg' [] P' /\ queue' = [].
Proof.
  revert indeg queue P. induction fuel as [|fuel IH]; intros indeg queue P Hinv Hlen Hk.
  - assert (queue = []) as ->.
    { destruct Hinv as [Hndq Hnodes _ _ _].
      assert (length (P ++ queue) <= length g.*1)%nat
        by (apply submseteq_length, NoDup_submseteq; done).
      rewrite length_app, length_fmap in *. destruct queue; [done|simpl in *; lia]. }
    simpl in Hk. destruct Hinv. by simplify_eq.
  - destruct queue as [|x queue]; simpl in Hk; [by simplify_eq|].
    destruct (fold_left _ _ _) as [indeg1 queue1] eqn:Hf.
    eapply IH; [by eapply kahn_step_inv| |done]. rewrite length_app. simpl. lia.
Qed.

Lemma kahn_result : kahn_inv (kahn g).1.1 [] (placed_ids g).
Proof.
  unfold placed_ids, kahn.
  destruct (kahn_loop _ _ _ _ _) as [[indeg queue] P] eqn:E. simpl.
  by eapply kahn_loop_inv in E as [? _]; [|apply kahn_inv_init|simpl; lia].
Qed.
End KahnCorrect.

(** Position of the first occurrence in a list. *)
Fixpoint position (x : string) (l : list string) : nat :=
  match l with
  | [] => 0
  | y :: l' => if decide (x = y) then 0%nat else S (position x l')
  end.

Lemma position_app_l x l1 l2 : x ∈ l1 -> (position x (l1 ++ l2) < length l1)%nat.
Proof.
  induction l1 as [|y l1 IH]; simpl; [set_solver|]. intros Hx.
  case_decide; [lia|]. apply elem_of_cons in Hx as [|Hx]; [done|]. specialize (IH Hx). lia.
Qed.

Lemma position_app_r x l1 l2 : x ∉ l1 -> (length l1 <= position x (l1 ++ l2))%nat.
Proof.
  induction l1 as [|y l1 IH]; simpl; [lia|]. intros Hx.
  rewrite decide_False by set_solver. rewrite not_elem_of_cons in Hx.
  specialize (IH (proj2 Hx)). lia.
Qed.

Lemma topo_acyclic g P :
  NoDup P -> (forall i, i ∈ g.*1 -> i ∈ P) ->
  (forall P1 x P2 ds d, P = P1 ++ x :: P2 -> (x, ds) ∈ g -> d ∈ ds -> d ∈ P1) ->
  acyclic g.
Proof.
  intros Hnd Hall Htopo. exists (fun i => position i P). intros i ds d Hi Hd.
  assert (HiP : i ∈ P) by (apply Hall; by apply (list_elem_of_fmap_2 fst) in Hi).
  apply list_elem_of_split in HiP as (P1 & P2 & ->).
  assert (HiP1 : i ∉ P1) by (apply NoDup_app in Hnd as (_ & H & _); intros H'; apply (H i H'); left).
  pose proof (Htopo P1 i P2 ds d eq_refl Hi Hd) as Hd1.
  pose proof (position_app_l d P1 (i :: P2) Hd1).
  pose proof (position_app_r i P1 (i :: P2) HiP1). lia.
Qed.

Lemma kahn_complete g :
  NoDup g.*1 -> closed g -> acyclic g -> forall i, i ∈ g.*1 -> i ∈ placed_ids g.
Proof.
  intros Hnd Hcl [rank Hrank].
  destruct (kahn_result g Hnd) as [_ _ _ Hready _].
  assert (Hind : forall n i, (rank i < n)%nat -> i ∈ g.*1 -> i ∈ placed_ids g).
  { induction n as [|n IH]; intros i Hn Hi; [lia|].
    destruct (node_deps g i Hi) as [ds Hids].
    specialize (Hready i ds Hids). rewrite app_nil_r in Hready. apply Hready.
    apply missing_zero. intros d Hd. specialize (Hrank i ds d Hids Hd).
    apply IH; [lia|]. exact (Hcl i ds d Hids Hd). }
  intros i. apply (Hind (S (rank i))). lia.
Qed.

(** Kahn's count decides acyclicity. *)
Lemma kahn_correct g :
  NoDup g.*1 -> closed g -> (length (placed_ids g) = length g <-> acyclic g).
Proof.
  intros Hnd Hcl. destruct (kahn_result g Hnd) as [Hndp Hnodes _ _ Htopo].
  rewrite app_nil_r in Hndp. setoid_rewrite app_nil_r in Hnodes. split.
  - intros Hlen. eapply topo_acyclic; [done| |done].
    assert (Hp : placed_ids g ≡ₚ g.*1).
    { apply submseteq_length_Permutation; [by apply NoDup_submseteq|].
      rewrite length_fmap. lia. }
    intros i Hi. by rewrite Hp.
  - intros Hac. rewrite <- (length_fmap fst g). apply Permutation_length.
    apply NoDup_Permutation; [done|done|]. intros i. split; [apply Hnodes|].
    by apply kahn_complete.
Qed.

(** Well-formed records: unique ids, known dependencies, no cycle. *)
Definition wf_graph (g : graph) : Prop := NoDup g.*1 /\ closed g /\ acyclic g.

Lemma graph_of_keys rs : (graph_of rs).*1 = ids rs.
Proof. unfold graph_of, ids. induction rs; csimpl; [done|by f_equal]. Qed.

Lemma graph_of_elem i ds rs :
  (i, ds) ∈ graph_of rs <-> exists r, r ∈ rs /\ i = rid r /\ ds = deps r.
Proof.
  unfold graph_of. rewrite list_elem_of_fmap. split.
  - intros (r & [= -> ->] & Hr). eauto.
  - intros (r & Hr & -> & ->). eauto.
Qed.

Lemma assertNoMissingDeps_ok rs :
  assertNoMissingDeps rs = Ok tt <->
  closed (graph_of rs) /\ forall r, r ∈ rs -> rid r ∉ deps r.
Proof.
  unfold assertNoMissingDeps. rewrite for_each_ok, Forall_forall.
  setoid_rewrite for_each_ok. setoid_rewrite Forall_forall.
  assert (Hc : forall i d, checkDep (ids rs) i d = Ok tt <-> d ∈ ids rs /\ d <> i).
  { intros i d. unfold checkDep. case_bool_decide; simpl; [|split; [done|tauto]].
    destruct (String.eqb_spec d i); split; naive_solver. }
  setoid_rewrite Hc. unfold closed. setoid_rewrite graph_of_elem. rewrite graph_of_keys. split.
  - intros H. split; [|intros r Hr Hin; by apply (H r Hr) in Hin as [_ ?]].
    intros i ds d (r & Hr & -> & ->) Hd. by apply (H r).
  - intros [H1 H2] r Hr d Hd. split; [by eapply H1; eauto|]. intros ->. by apply (H2 r).
Qed.

Lemma assertAcyclic_ok rs :
  NoDup (ids rs) -> closed (graph_of rs) ->
  (assertAcyclic rs = Ok tt <-> acyclic (graph_of rs)).
Proof.
  intros Hnd Hcl. rewrite <- (kahn_correct (graph_of rs)); [|by rewrite graph_of_keys|done].
  unfold assertAcyclic. replace (length rs) with (length (graph_of rs))
    by (unfold graph_of; by rewrite length_map).
  destruct (Nat.eqb_spec (length (placed_ids (graph_of rs))) (length (graph_of rs)));
    split; congruence.
Qed.

Lemma buildRecordsFrom_ok seen ns rs :
  buildRecordsFrom seen ns = Ok rs ->
  rs = map freshRecord ns /\ NoDup (map id ns) /\
  (forall i, i ∈ map id ns -> i ∉ seen) /\ (forall s, s ∈ ns -> is_blank (id s) = false).
Proof.
  revert seen rs. induction ns as [|s ns IH]; intros seen rs H; simpl in *.
  { injection H as <-. split_and!; [done|constructor|set_solver|set_solver]. }
  destruct (is_blank (id s)) eqn:Eb; [done|]. case_bool_decide; [done|].
  apply result_bind_ok in H as (rs' & H & [= <-]).
  apply IH in H as (-> & Hnd & Hseen & Hbl). split_and!; [done| | |].
  - apply NoDup_cons. split; [|done]. intros Hin. by apply (Hseen (id s) Hin); left.
  - intros i Hi. apply elem_of_cons in Hi as [->|Hi]; [done|].
    intros Hs. apply (Hseen i Hi). by right.
  - intros s' Hs'. apply elem_of_cons in Hs' as [->|Hs']; [done|by apply Hbl].
Qed.

Lemma buildRecords_ok ns rs :
  buildRecords ns = Ok rs -> rs = map freshRecord ns /\ NoDup (ids rs).
Proof.
  intros H. apply buildRecordsFrom_ok in H as (-> & Hnd & _). split; [done|].
  unfold ids, rid. rewrite map_map. done.
Qed.
