(* ===== verification/Canonical.v ===== *)
(** Canonical serialization of payloads ([src/trace/canonical.ts]) and the
    hashing interface over it ([src/proof/sha256.ts]).

    [preprocess] turns a payload into JSON-safe values and rejects what JSON
    cannot carry; the RFC 8785 printer it then calls is the third-party
    [json-canonicalize] package, a parameter here.  Payloads are finite trees,
    so the circular-reference branch has no counterpart.  It fails exactly on what
    JSON cannot carry. *)

From S2P Require Import Prelude JsNum JsValue.
From Stdlib Require Import Ascii SpecFloat.

(** * Standard-library pieces *)

Definition char_of (n : Z) : string := String (ascii_of_nat (Z.to_nat n)) EmptyString.

(** One base64 digit. *)
Definition b64_digit (n : Z) : string :=
  char_of (if n <? 26 then 65 + n else if n <? 52 then 97 + (n - 26)
           else if n <? 62 then 48 + (n - 52) else if n =? 62 then 43 else 47).

(** [uint8ToBase64]: RFC 4648 base64 with padding. *)
Fixpoint uint8ToBase64 (bytes : list Z) : string :=
  match bytes with
  | a :: b :: c :: rest =>
      let w := a * 65536 + b * 256 + c in
      (b64_digit (w / 262144) ++ b64_digit (w / 4096 mod 64) ++
       b64_digit (w / 64 mod 64) ++ b64_digit (w mod 64) ++ uint8ToBase64 rest)%string
  | [a; b] =>
      let w := a * 65536 + b * 256 in
      (b64_digit (w / 262144) ++ b64_digit (w / 4096 mod 64) ++
       b64_digit (w / 64 mod 64) ++ "=")%string
  | [a] =>
      let w := a * 65536 in
      (b64_digit (w / 262144) ++ b64_digit (w / 4096 mod 64) ++ "==")%string
  | [] => ""
  end.

(** [s.padStart(n, "0")]. *)
Definition pad_start (n : nat) (s : string) : string :=
  (zeros (n - String.length s) ++ s)%string.

(** [new Date(ms).toISOString()] for a valid date. *)
Definition iso_string (ms : Z) : string :=
  let days := ms / 86400000 in
  let t := ms mod 86400000 in
  let z := days + 719468 in
  let era := z / 146097 in
  let doe := z - era * 146097 in
  let yoe := (doe - doe / 1460 + doe / 36524 - doe / 146096) / 365 in
  let doy := doe - (365 * yoe + yoe / 4 - yoe / 100) in
  let mp := (5 * doy + 2) / 153 in
  let d := doy - (153 * mp + 2) / 5 + 1 in
  let mo := if mp <? 10 then mp + 3 else mp - 9 in
  let y := yoe + era * 400 + (if mo <=? 2 then 1 else 0) in
  let year := if (0 <=? y) && (y <=? 9999) then pad_start 4 (str_of_Z y)
              else if y <? 0 then ("-" ++ pad_start 6 (str_of_Z (- y)))%string
              else ("+" ++ pad_start 6 (str_of_Z y))%string in
  (year ++ "-" ++ pad_start 2 (str_of_Z mo) ++ "-" ++ pad_start 2 (str_of_Z d) ++ "T" ++
   pad_start 2 (str_of_Z (t / 3600000)) ++ ":" ++ pad_start 2 (str_of_Z (t / 60000 mod 60)) ++
   ":" ++ pad_start 2 (str_of_Z (t / 1000 mod 60)) ++ "." ++
   pad_start 3 (str_of_Z (t mod 1000)) ++ "Z")%string.

Example iso_ex : iso_string 1717171717171 = "2024-05-31T16:08:37.171Z".
Proof. vm_compute. reflexivity. Qed.
Example iso_epoch : iso_string (-1) = "1969-12-31T23:59:59.999Z".
Proof. vm_compute. reflexivity. Qed.
Example b64_ex : uint8ToBase64 [77; 97; 110; 255] = "TWFu/w==".
Proof. vm_compute. reflexivity. Qed.

(** * Pre-processing *)

Definition NonSerializablePayloadError (why : string) (path : list string) : jserror :=
  JsError "NonSerializablePayloadError"
    ("NonSerializablePayloadError: " ++ why ++ " at path /" ++ join "/" path)%string.

(** [(value as unknown[]).map((item, i) => preprocess(item, [...path, i]))]. *)
Definition preprocess_items (pp : list string -> jsval -> result jsval) (path : list string)
    : nat -> list jsval -> result (list jsval) :=
  fix go (i : nat) (l : list jsval) : result (list jsval) :=
    match l with
    | [] => Ok []
    | x :: l' =>
        y ← pp (path ++ [str_of_nat i]) x;
        ys ← go (S i) l';
        Ok (y :: ys)
    end.

(** The [for (const [k, v] of Object.entries(value))] loop: a field whose
    processed value is [undefined] is omitted. *)
Definition preprocess_fields (pp : list string -> jsval -> result jsval) (path : list string)
    : list (string * jsval) -> list (string * jsval) -> result (list (string * jsval)) :=
  fix go (obj : list (string * jsval)) (l : list (string * jsval)) :=
    match l with
    | [] => Ok obj
    | (k, v) :: l' =>
        p ← pp (path ++ [k]) v;
        match p with
        | JUndef => go obj l'
        | _ => go (om_set k p obj) l'
        end
    end.

Fixpoint preprocess (path : list string) (value : jsval) : result jsval :=
  match value with
  | JNull => Ok JNull
  | JUndef => Ok JUndef
  | JNum x =>
      match x with
      | S754_nan => Throw (NonSerializablePayloadError "NaN is not serializable" path)
      | S754_infinity neg =>
          Throw (NonSerializablePayloadError
            ((if neg : bool then "-Infinity" else "Infinity") ++ " is not serializable")%string path)
      | S754_zero true => Throw (NonSerializablePayloadError "-0 is not serializable" path)
      | _ => Ok (JNum x)
      end
  | JBool b => Ok (JBool b)
  | JStr s => Ok (JStr s)
  | JBigInt z => Ok (JObj [("__bigint", JStr (str_of_Z z))])
  | JDate (Some ms) => Ok (JStr (iso_string ms))
  | JDate None => Throw (JsError "RangeError" "Invalid time value")
  | JBytes bytes => Ok (JStr (uint8ToBase64 bytes))
  | JArr items =>
      ys ← preprocess_items preprocess path 0 items;
      Ok (JArr ys)
  | JObj fields =>
      obj ← preprocess_fields preprocess path [] fields;
      Ok (JObj obj)
  | JFun => Ok JUndef
  end.

Definition canonicalize (rfcCanonicalize : jsval -> string) (value : jsval) : result string :=
  p ← preprocess [] value;
  Ok (rfcCanonicalize p).

(** Values that pass [preprocess] unchanged. *)
Fixpoint json_safe (v : jsval) : bool :=
  match v with
  | JNull | JBool _ | JStr _ => true
  | JNum x => match x with S754_zero false | S754_finite _ _ _ => true | _ => false end
  | JArr l => forallb json_safe l
  | JObj l => bool_decide (NoDup l.*1) && forallb (fun kv => json_safe kv.2) l
  | _ => false
  end.

(** Hashing: SHA-256 comes from the Web Crypto API, the RFC 8785 printer from a
    third-party package. *)
Class Hashing := {
  rfcCanonicalize : jsval -> string;
  sha256 : string -> string
}.

Definition canonical `{Hashing} (v : jsval) : result string := canonicalize rfcCanonicalize v.

(** [await sha256(canonicalize(v))]. *)
Definition hash_canonical `{Hashing} (v : jsval) : result string :=
  s ← canonical v; Ok (sha256 s).

(** * Totality of pre-processing *)

(** No NaN, infinity, negative zero or invalid date anywhere in the value. *)
Fixpoint serializable (v : jsval) : bool :=
  match v with
  | JNum x => match x with S754_zero false | S754_finite _ _ _ => true | _ => false end
  | JDate None => false
  | JArr l => forallb serializable l
  | JObj l => forallb (fun kv => serializable kv.2) l
  | _ => true
  end.

Lemma preprocess_items_ok pp path i l :
  Forall (fun v => forall p, is_ok (pp p v) = serializable v) l ->
  is_ok (preprocess_items pp path i l) = forallb serializable l.
Proof.
  intros H. revert i. induction H as [|v l Hv Hl IH]; intros i; [done|].
  simpl. rewrite <- (Hv (path ++ [str_of_nat i])), <- (IH (S i)).
  unfold mbind, result_bind.
  destruct (pp _ v), (preprocess_items pp path (S i) l); done.
Qed.

Lemma preprocess_fields_ok pp path obj l :
  Forall (fun kv => forall p, is_ok (pp p kv.2) = serializable kv.2) l ->
  is_ok (preprocess_fields pp path obj l) = forallb (fun kv => serializable kv.2) l.
Proof.
  intros H. revert obj. induction H as [|[k v] l Hv Hl IH]; intros obj; [done|].
  simpl in *. rewrite <- (Hv (path ++ [k])). unfold mbind, result_bind.
  destruct (pp _ v) as [p|e]; simpl; [|done]. destruct p; apply IH.
Qed.

Lemma preprocess_is_ok v path : is_ok (preprocess path v) = serializable v.
Proof.
  revert path. induction v as [| | |x| | |ms| |l IH|l IH|] using jsval_ind_nested; intros path;
    simpl; try done.
  - by destruct x as [[]|[]| |].
  - by destruct ms.
  - rewrite <- (preprocess_items_ok preprocess path 0 l IH).
    by destruct (preprocess_items _ _ _ _).
  - rewrite <- (preprocess_fields_ok preprocess path [] l IH).
    by destruct (preprocess_fields _ _ _ _).
Qed.

(** Safe values are their own pre-processing, whatever the error path. *)
Lemma preprocess_safe v path : json_safe v = true -> preprocess path v = Ok v.
Proof.
  revert path. induction v as [| | |x| | |ms| |l IH|l IH|] using jsval_ind_nested;
    intros path; simpl; try done.
  - by destruct x as [[]|[]| |].
  - intros Hs. assert (Hgo : forall i, preprocess_items preprocess path i l = Ok l).
    { induction IH as [|v l Hv Hl IHl]; intros i; [done|]. simpl in *.
      apply andb_true_iff in Hs as [Hs1 Hs2]. rewrite (Hv _ Hs1). unfold mbind; simpl.
      by rewrite (IHl Hs2 (S i)). }
    by rewrite Hgo.
  - rewrite andb_true_iff, bool_decide_eq_true. intros [Hnd Hs].
    assert (Hgo : forall obj, NoDup (obj ++ l).*1 ->
        preprocess_fields preprocess path obj l = Ok (obj ++ l)).
    { clear Hnd. induction IH as [|[k v] l Hv Hl IHl]; intros obj Hnd; simpl in *.
      { by rewrite app_nil_r. }
      apply andb_true_iff in Hs as [Hs1 Hs2]. rewrite (Hv _ Hs1). unfold mbind; simpl.
      assert (Hset : om_set k v obj = obj ++ [(k, v)]).
      { apply om_set_fresh. rewrite fmap_app, NoDup_app in Hnd.
        destruct Hnd as (_ & Hnd & _). intros Hin. by apply (Hnd k Hin); left. }
      rewrite Hset. assert (Hstep : preprocess_fields preprocess path (obj ++ [(k, v)]) l =
          Ok (obj ++ (k, v) :: l)).
      { rewrite IHl by (try done; by rewrite <- app_assoc). by rewrite <- app_assoc. }
      by destruct v. }
    by rewrite Hgo.
Qed.

Lemma hash_canonical_safe `{Hashing} v :
  json_safe v = true -> hash_canonical v = Ok (sha256 (rfcCanonicalize v)).
Proof. intros Hs. unfold hash_canonical, canonical, canonicalize. by rewrite preprocess_safe. Qed.
#[export] Hint Rewrite @hash_canonical_safe using done : js.

(** Serialization is unfolded last when terms are compared. *)
#[global] Strategy 1000 [canonical hash_canonical].

(** * Correctness *)

(** What pre-processing produces: no NaN, infinity, negative zero, date, bytes,
    bigint or function; object keys are unique and carry a defined value. *)
Fixpoint clean (v : jsval) : bool :=
  match v with
  | JNull | JUndef | JBool _ | JStr _ => true
  | JNum x => match x with S754_zero false | S754_finite _ _ _ => true | _ => false end
  | JArr l => forallb clean l
  | JObj l => bool_decide (NoDup l.*1) &&
      forallb (fun kv => clean kv.2 && match kv.2 with JUndef => false | _ => true end) l
  | _ => false
  end.

Definition field_ok (kv : string * jsval) : bool :=
  clean kv.2 && match kv.2 with JUndef => false | _ => true end.

Lemma om_set_fields k v (obj : list (string * jsval)) :
  field_ok (k, v) = true -> forallb field_ok obj = true -> forallb field_ok (om_set k v obj) = true.
Proof.
  intros Hv. induction obj as [|[k' v'] obj IH]; simpl; intros H.
  - by rewrite Hv.
  - apply andb_true_iff in H as [H1 H2]. case_decide; simpl; rewrite ?H2, ?andb_true_r; [done|].
    rewrite H1. by apply IH.
Qed.

Lemma preprocess_clean v path p : preprocess path v = Ok p -> clean p = true.
Proof.
  revert path p. induction v as [| | |x| | |ms| |l IH|l IH|] using jsval_ind_nested;
    intros path p Hp; simpl in Hp; try by injection Hp as <-.
  - by destruct x as [[]|[]| |]; simplify_eq.
  - destruct ms; [|done]. by injection Hp as <-.
  - apply result_bind_ok in Hp as (ys & Hys & [= <-]). simpl.
    revert Hys. generalize 0%nat. revert ys.
    induction IH as [|v l Hv _ IHl]; intros ys i Hys; simpl in Hys; [by injection Hys as <-|].
    apply result_bind_ok in Hys as (y & Hy & Hys).
    apply result_bind_ok in Hys as (ys' & Hys & [= <-]).
    simpl. by rewrite (Hv _ _ Hy), (IHl _ _ Hys).
  - apply result_bind_ok in Hp as (obj & Hobj & [= <-]).
    assert (Hgo : forall acc, NoDup acc.*1 -> forallb field_ok acc = true ->
        preprocess_fields preprocess path acc l = Ok obj ->
        NoDup obj.*1 /\ forallb field_ok obj = true).
    { clear Hobj. induction IH as [|[k v] l Hv _ IHl]; intros acc Hnd Hacc Hobj; simpl in Hobj.
      { by injection Hobj as <-. }
      apply result_bind_ok in Hobj as (p & Hp & Hobj). specialize (Hv _ _ Hp).
      assert (Hset : forall q, q = p -> q <> JUndef -> forallb field_ok (om_set k q acc) = true).
      { intros q -> Hq. apply om_set_fields; [|done]. unfold field_ok. cbn [snd]. rewrite Hv.
        by destruct p. }
      destruct p; (eapply IHl; [| |exact Hobj]); auto with js; by apply Hset. }
    destruct (Hgo [] NoDup_nil_2 eq_refl Hobj) as [Hnd Hall].
    change (bool_decide (NoDup obj.*1) && forallb field_ok obj = true).
    by rewrite bool_decide_eq_true_2, Hall by done.
Qed.

(** Clean values pass unchanged. *)
Lemma preprocess_of_clean v path : clean v = true -> preprocess path v = Ok v.
Proof.
  revert path. induction v as [| | |x| | |ms| |l IH|l IH|] using jsval_ind_nested;
    intros path Hs; simpl in *; try done.
  - by destruct x as [[]|[]| |].
  - assert (Hgo : forall i, preprocess_items preprocess path i l = Ok l).
    { induction IH as [|v l Hv Hl IHl]; intros i; [done|]. simpl in *.
      apply andb_true_iff in Hs as [Hs1 Hs2]. rewrite (Hv _ Hs1). unfold mbind; simpl.
      by rewrite (IHl Hs2 (S i)). }
    by rewrite Hgo.
  - apply andb_true_iff in Hs as [Hnd%bool_decide_eq_true Hs].
    assert (Hgo : forall obj, NoDup (obj ++ l).*1 ->
        preprocess_fields preprocess path obj l = Ok (obj ++ l)).
    { clear Hnd. induction IH as [|[k v] l Hv Hl IHl]; intros obj Hnd; simpl in *.
      { by rewrite app_nil_r. }
      apply andb_true_iff in Hs as [[Hs1 Hu]%andb_true_iff Hs2]. rewrite (Hv _ Hs1).
      unfold mbind; simpl.
      assert (Hset : om_set k v obj = obj ++ [(k, v)]).
      { apply om_set_fresh. rewrite fmap_app, NoDup_app in Hnd.
        destruct Hnd as (_ & Hnd & _). intros Hin. by apply (Hnd k Hin); left. }
      rewrite Hset. assert (Hstep : preprocess_fields preprocess path (obj ++ [(k, v)]) l =
          Ok (obj ++ (k, v) :: l)).
      { rewrite IHl by (try done; by rewrite <- app_assoc). by rewrite <- app_assoc. }
      by destruct v. }
    by rewrite Hgo.
Qed.

(** Canonical serialization rejects a payload exactly when it holds a NaN,
    an infinity, a negative zero or an invalid date; what it hands to the
    RFC 8785 printer is free of every other type JSON cannot carry, and
    pre-processing it again changes nothing. *)
Theorem preprocess_decides (v : jsval) (path path' : list string) :
  is_ok (preprocess path v) = serializable v /\
  forall p, preprocess path v = Ok p -> clean p = true /\ preprocess path' p = Ok p.
Proof.
  split; [apply preprocess_is_ok|]. intros p Hp.
  pose proof (preprocess_clean _ _ _ Hp). split; [done|by apply preprocess_of_clean].
Qed.
