(* ===== verification/DagReplan.v ===== *)
(** Re-planning and governance hash of the DAG scheduler
    ([src/orchestration/dag/scheduler.ts]: validateReplan, spliceReplan,
    computeRootHash). *)

From S2P Require Import Prelude JsNum JsValue DagTypes DagGraph Canonical.

(** * Validation of a returned sub-DAG *)

Definition spec_deps (n : DagNodeSpec) : list string := default [] (dependsOn n).

(** Internal id uniqueness within the returned set. *)
Fixpoint internalIds (seen : list string) (returned : list DagNodeSpec) : option string :=
  match returned with
  | [] => None
  | n :: ns =>
      if is_blank (id n) then Some "a replan node has an empty id"
      else if bool_decide (id n ∈ seen) then
        Some ("replan introduces a duplicate id '" ++ id n ++ "'")%string
      else internalIds (id n :: seen) ns
  end.

(** New (non-reused) ids must not collide with any existing node. *)
Fixpoint idCollision (failedId : string) (rs : list NodeRecord) (returned : list DagNodeSpec)
    : option string :=
  match returned with
  | [] => None
  | n :: ns =>
      if (id n =? failedId)%string then idCollision failedId rs ns
      else match byId rs (id n) with
           | Some _ => Some ("replan id '" ++ id n ++ "' collides with an existing node")%string
           | None => idCollision failedId rs ns
           end
  end.

(** The combined graph: existing nodes minus the failed one, then the returned
    nodes. *)
Definition combinedDeps (failedId : string) (rs : list NodeRecord)
    (returned : list DagNodeSpec) : graph :=
  let existing := fold_left (fun m r =>
    if (rid r =? failedId)%string then m else om_set (rid r) (deps r) m) rs [] in
  fold_left (fun m n => om_set (id n) (spec_deps n) m) returned existing.

Fixpoint badDep (g : graph) (i : string) (ds : list string) : option string :=
  match ds with
  | [] => None
  | d :: ds' =>
      if (d =? i)%string then Some ("replan node '" ++ i ++ "' depends on itself")%string
      else if negb (om_has d g) then
        Some ("replan node '" ++ i ++ "' depends on unknown node '" ++ d ++ "'")%string
      else badDep g i ds'
  end.

Fixpoint badDeps (g todo : graph) : option string :=
  match todo with
  | [] => None
  | (i, ds) :: todo' =>
      match badDep g i ds with Some e => Some e | None => badDeps g todo' end
  end.

Definition validateReplan (failed : NodeRecord) (returned : list DagNodeSpec)
    (rs : list NodeRecord) : option string :=
  let fid := rid failed in
  match returned with
  | [] => Some "replanner returned an empty sub-DAG"
  | _ =>
    let reuseCount := count_if (fun n => (id n =? fid)%string) returned in
    if reuseCount =? 0 then
      Some ("replan must contain a node reusing the failed id '" ++ fid ++ "'")%string
    else if 1 <? reuseCount then
      Some ("replan reuses the failed id '" ++ fid ++ "' more than once")%string
    else match last returned with
    | None => None
    | Some l =>
      if negb (id l =? fid)%string then
        Some ("the failed-id node '" ++ fid ++ "' must be LAST in the replan")%string
      else match internalIds [] returned with
      | Some e => Some e
      | None =>
        match idCollision fid rs returned with
        | Some e => Some e
        | None =>
          let g := combinedDeps fid rs returned in
          match badDeps g g with
          | Some e => Some e
          | None =>
            if negb (length (placed_ids g) =? length g)%nat then
              Some "replan would introduce a cycle in the combined graph"
            else None
          end
        end
      end
    end
  end.

(** * Splicing *)

Definition spliceReplan (failedId : string) (returned : list DagNodeSpec)
    (rs : list NodeRecord) : list NodeRecord * Z :=
  let fresh := map freshRecord
    (List.filter (fun n => negb (id n =? failedId)%string) returned) in
  let rs' := rs ++ fresh in
  match last returned with
  | None => (rs', 0)
  | Some l => (upd failedId (fun _ => freshRecord l) rs', Z.of_nat (length returned))
  end.

(** ** Graph facts *)

Lemma wf_graph_perm g g' : g ≡ₚ g' -> wf_graph g -> wf_graph g'.
Proof.
  intros Hp (Hnd & Hcl & rank & Hr).
  assert (Hk : g.*1 ≡ₚ g'.*1) by (by rewrite Hp). split_and!.
  - by rewrite <- Hk.
  - intros i ds d Hi Hd. rewrite <- Hp in Hi. rewrite <- Hk. by eapply Hcl.
  - exists rank. intros i ds d Hi. rewrite <- Hp in Hi. by apply Hr.
Qed.

Lemma badDeps_None g todo :
  badDeps g todo = None <->
  forall i ds d, (i, ds) ∈ todo -> d ∈ ds -> d ∈ g.*1 /\ d <> i.
Proof.
  assert (Hone : forall i ds, badDep g i ds = None <-> forall d, d ∈ ds -> d ∈ g.*1 /\ d <> i).
  { intros i ds. induction ds as [|d ds IH]; simpl; [set_solver|].
    destruct (String.eqb_spec d i) as [->|Hne]; [split; [done|]; set_solver|].
    unfold om_has. destruct (om_get d g) eqn:E; simpl.
    - rewrite IH. assert (d ∈ g.*1) by (apply om_get_is_Some; eauto). set_solver.
    - apply om_get_None in E. set_solver. }
  induction todo as [|[i ds] todo IH]; simpl; [set_solver|].
  destruct (badDep g i ds) eqn:E.
  - split; [done|]. intros H. rewrite <- E. apply Hone. intros d. apply H; left.
  - rewrite IH. pose proof (proj1 (Hone i ds) E) as E'. split; [|set_solver].
    intros H j es d Hj. apply elem_of_cons in Hj as [[= -> ->]|Hj]; [apply E'|by apply H].
Qed.

Lemma internalIds_None seen ns :
  internalIds seen ns = None ->
  NoDup (map id ns) /\ forall n, n ∈ ns -> id n ∉ seen /\ is_blank (id n) = false.
Proof.
  revert seen. induction ns as [|n ns IH]; intros seen H; simpl in *.
  { split; [constructor|set_solver]. }
  destruct (is_blank (id n)) eqn:Eb; [done|]. case_bool_decide as Hs; [done|].
  apply IH in H as [Hnd Hall]. split.
  - apply NoDup_cons. split; [|done]. intros Hin.
    apply list_elem_of_In, in_map_iff in Hin as (n' & Heq & Hin).
    apply list_elem_of_In in Hin. destruct (Hall n' Hin) as [Hn' _]. set_solver.
  - intros n' Hn'. apply elem_of_cons in Hn' as [->|Hn']; [done|].
    destruct (Hall n' Hn') as [? ?]. set_solver.
Qed.

Lemma byId_None rs i : byId rs i = None <-> i ∉ ids rs.
Proof.
  unfold byId. rewrite find_first_None, Forall_forall. unfold ids. split.
  - intros H Hin. apply list_elem_of_In, in_map_iff in Hin as (r & <- & Hr).
    apply list_elem_of_In in Hr. specialize (H r Hr). simpl in H.
    by rewrite String.eqb_refl in H.
  - intros H r Hr. apply String.eqb_neq. intros <-. apply H.
    by apply list_elem_of_In, in_map, list_elem_of_In.
Qed.

Lemma byId_Some rs i r : byId rs i = Some r -> r ∈ rs /\ rid r = i.
Proof. intros [? ?%String.eqb_eq]%find_first_Some. done. Qed.

Lemma byId_unique rs r : NoDup (ids rs) -> r ∈ rs -> byId rs (rid r) = Some r.
Proof.
  unfold byId, ids. induction rs as [|r' rs IH]; simpl; [set_solver|].
  intros [Hr' Hnd]%NoDup_cons [->|Hr]%elem_of_cons; [by rewrite String.eqb_refl|].
  destruct (String.eqb_spec (rid r') (rid r)) as [Heq|]; [|by apply IH].
  exfalso. apply Hr'. rewrite Heq. by apply list_elem_of_In, in_map, list_elem_of_In.
Qed.

Lemma idCollision_None fid rs ns :
  idCollision fid rs ns = None -> forall n, n ∈ ns -> id n <> fid -> id n ∉ ids rs.
Proof.
  induction ns as [|n ns IH]; simpl; [set_solver|]. intros H n' Hn' Hne.
  destruct (String.eqb_spec (id n) fid) as [Heq|Hneq].
  - apply elem_of_cons in Hn' as [->|Hn']; [done|by apply IH].
  - destruct (byId rs (id n)) eqn:E; [done|]. apply byId_None in E.
    apply elem_of_cons in Hn' as [->|Hn']; [done|by apply IH].
Qed.

Lemma existing_deps fid rs m :
  NoDup (ids rs) -> (forall i, i ∈ ids rs -> i ∉ m.*1) ->
  fold_left (fun m r => if (rid r =? fid)%string then m else om_set (rid r) (deps r) m) rs m =
  m ++ graph_of (List.filter (fun r => negb (rid r =? fid)%string) rs).
Proof.
  revert m. induction rs as [|r rs IH]; intros m Hnd Hm; simpl in *; [by rewrite app_nil_r|].
  apply NoDup_cons in Hnd as [Hr Hnd].
  destruct (String.eqb_spec (rid r) fid) as [Heq|Hne]; simpl.
  - apply IH; [done|]. intros i Hi. apply Hm. by right.
  - rewrite (om_set_fresh (rid r)) by (apply Hm; left). rewrite IH.
    + by rewrite <- app_assoc.
    + done.
    + intros i Hi. rewrite fmap_app, elem_of_app. csimpl. intros [Hin|Hin].
      * apply (Hm i); [by right|done].
      * set_solver.
Qed.

Lemma returned_deps ns m :
  NoDup (map id ns) -> (forall i, i ∈ map id ns -> i ∉ m.*1) ->
  fold_left (fun m n => om_set (id n) (spec_deps n) m) ns m =
  m ++ map (fun n => (id n, spec_deps n)) ns.
Proof.
  revert m. induction ns as [|n ns IH]; intros m Hnd Hm; simpl in *; [by rewrite app_nil_r|].
  apply NoDup_cons in Hnd as [Hn Hnd].
  rewrite (om_set_fresh (id n)) by (apply Hm; left). rewrite IH.
  - by rewrite <- app_assoc.
  - done.
  - intros i Hi. rewrite fmap_app, elem_of_app. csimpl. intros [Hin|Hin].
    + apply (Hm i); [by right|done].
    + set_solver.
Qed.

Lemma filter_all {A} (p : A -> bool) l :
  (forall x, x ∈ l -> p x = true) -> List.filter p l = l.
Proof.
  induction l as [|x l IH]; simpl; [done|]. intros H.
  rewrite (H x) by left. f_equal. apply IH. intros y Hy. apply H. by right.
Qed.

Lemma upd_not_in fid f rs : fid ∉ ids rs -> upd fid f rs = rs.
Proof.
  unfold upd, ids. induction rs as [|r rs IH]; simpl; [done|]. intros H.
  destruct (String.eqb_spec (rid r) fid); [set_solver|]. f_equal. apply IH. set_solver.
Qed.

(** Replacing the record of one id, up to the order of the records. *)
Lemma upd_perm fid f r rs :
  NoDup (ids rs) -> r ∈ rs -> rid r = fid ->
  upd fid f rs ≡ₚ f r :: List.filter (fun r => negb (rid r =? fid)%string) rs.
Proof.
  intros Hnd Hr Hid. revert Hnd Hr. unfold ids.
  induction rs as [|r' rs IH]; simpl; [set_solver|].
  intros [Hr' Hnd]%NoDup_cons [<-|Hr]%elem_of_cons.
  - rewrite Hid, String.eqb_refl. simpl. rewrite upd_not_in by (by rewrite <- Hid).
    rewrite filter_all; [done|]. intros x Hx. apply negb_true_iff, String.eqb_neq. intros Heq.
    apply Hr'. rewrite Hid, <- Heq. by apply list_elem_of_In, in_map, list_elem_of_In.
  - destruct (String.eqb_spec (rid r') fid) as [Heq|Hne]; simpl.
    + exfalso. apply Hr'. rewrite Heq, <- Hid. by apply list_elem_of_In, in_map, list_elem_of_In.
    + rewrite IH by done. apply perm_swap.
Qed.

Lemma validateReplan_shape failed ns rs :
  validateReplan failed ns rs = None ->
  exists front l, ns = front ++ [l] /\ id l = rid failed /\
    NoDup (map id ns) /\ (forall n, n ∈ ns -> id n <> rid failed -> id n ∉ ids rs) /\
    badDeps (combinedDeps (rid failed) rs ns) (combinedDeps (rid failed) rs ns) = None /\
    length (placed_ids (combinedDeps (rid failed) rs ns)) = length (combinedDeps (rid failed) rs ns).
Proof.
  unfold validateReplan. destruct ns as [|n0 ns0] eqn:Ens; [done|]. rewrite <- Ens.
  assert (Hne : ns <> []) by (by rewrite Ens). clear Ens.
  destruct (exists_last Hne) as (front & l & ->).
  destruct (count_if _ _ =? 0); [done|]. destruct (1 <? count_if _ _); [done|].
  rewrite last_snoc. destruct (String.eqb_spec (id l) (rid failed)) as [Hl|]; simpl; [|done].
  destruct (internalIds [] _) eqn:Ei; [done|]. destruct (idCollision _ _ _) eqn:Ec; [done|].
  destruct (badDeps _ _) eqn:Eb; [done|].
  destruct (Nat.eqb_spec (length (placed_ids (combinedDeps (rid failed) rs (front ++ [l]))))
    (length (combinedDeps (rid failed) rs (front ++ [l])))) as [Hk|]; simpl; [intros _|done].
  exists front, l. apply internalIds_None in Ei as [Hnd _].
  pose proof (idCollision_None _ _ _ Ec). done.
Qed.

Lemma combinedDeps_eq fid rs ns :
  NoDup (ids rs) -> NoDup (map id ns) ->
  (forall n, n ∈ ns -> id n <> fid -> id n ∉ ids rs) ->
  combinedDeps fid rs ns =
    graph_of (List.filter (fun r => negb (rid r =? fid)%string) rs) ++
    map (fun n => (id n, spec_deps n)) ns.
Proof.
  intros Hnd Hns Hfresh. unfold combinedDeps.
  rewrite existing_deps by (try done; set_solver). simpl. apply returned_deps; [done|].
  intros i Hi Hin. apply list_elem_of_fmap in Hin as ([j ds] & -> & Hin).
  apply graph_of_elem in Hin as (r & Hr & -> & ->). csimpl in *.
  apply list_elem_of_In, filter_In in Hr as [Hr Hne].
  apply negb_true_iff, String.eqb_neq in Hne.
  apply list_elem_of_In, in_map_iff in Hi as (n & Hn & Hnin). apply list_elem_of_In in Hnin.
  apply (Hfresh n Hnin); [congruence|]. rewrite Hn.
  by apply in_map with (f := rid), list_elem_of_In in Hr.
Qed.

Lemma combinedDeps_nodup fid rs ns :
  NoDup (ids rs) -> NoDup (map id ns) ->
  (forall n, n ∈ ns -> id n <> fid -> id n ∉ ids rs) -> NoDup (combinedDeps fid rs ns).*1.
Proof.
  intros _ _ _. unfold combinedDeps.
  assert (H1 : forall m, NoDup m.*1 -> NoDup (fold_left (fun m r =>
      if (rid r =? fid)%string then m else om_set (rid r) (deps r) m) rs m).*1).
  { induction rs as [|r rs IH]; simpl; [done|]. intros m Hm. apply IH.
    destruct (rid r =? fid)%string; auto with js. }
  specialize (H1 [] (NoDup_nil_2)). revert H1.
  generalize (fold_left (fun m r =>
      if (rid r =? fid)%string then m else om_set (rid r) (deps r) m) rs []).
  induction ns as [|n ns IH]; simpl; [done|]. intros m Hm. apply IH. auto with js.
Qed.

(** A replan the validation accepts splices into a well-formed graph. *)
Lemma splice_graph_perm failed ns rs :
  NoDup (ids rs) -> failed ∈ rs -> validateReplan failed ns rs = None ->
  graph_of (spliceReplan (rid failed) ns rs).1 ≡ₚ combinedDeps (rid failed) rs ns.
Proof.
  intros Hnd Hin Hv.
  apply validateReplan_shape in Hv as (front & l & -> & Hl & Hns & Hfresh & _ & _).
  rewrite combinedDeps_eq by done. unfold spliceReplan. rewrite last_snoc. simpl.
  rewrite map_app in Hns. apply NoDup_app in Hns as (Hnf & Hfl & _).
  assert (Hfront : forall n, n ∈ front -> id n <> rid failed).
  { intros n Hn Heq. apply (Hfl (id n)); [by apply list_elem_of_In, in_map, list_elem_of_In|].
    simpl. rewrite Heq, Hl. left. }
  assert (Hfilter : List.filter (fun n => negb (id n =? rid failed)%string) (front ++ [l]) = front).
  { rewrite List.filter_app. simpl. rewrite Hl, String.eqb_refl. simpl. rewrite app_nil_r.
    apply filter_all. intros n Hn. by apply negb_true_iff, String.eqb_neq, Hfront. }
  rewrite Hfilter. unfold upd. rewrite map_app. fold (upd (rid failed) (fun _ => freshRecord l)).
  fold (upd (rid failed) (fun _ => freshRecord l) rs).
  assert (Hskip : upd (rid failed) (fun _ => freshRecord l) (map freshRecord front) =
      map freshRecord front).
  { apply upd_not_in. unfold ids. rewrite map_map. intros Hi.
    apply list_elem_of_In, in_map_iff in Hi as (n & Hn & Hi). apply list_elem_of_In in Hi.
    by apply (Hfront n). }
  unfold upd in Hskip at 1. rewrite Hskip. unfold graph_of. rewrite !map_app, map_map.
  rewrite (upd_perm (rid failed) _ failed rs Hnd Hin eq_refl). simpl.
  replace (rid (freshRecord l)) with (id l) by done.
  change (deps (freshRecord l)) with (spec_deps l).
  change (fun x => (rid (freshRecord x), deps (freshRecord x)))
    with (fun n : DagNodeSpec => (id n, spec_deps n)).
  rewrite app_assoc, <- Permutation_cons_append. done.
Qed.

Lemma splice_wf failed ns rs :
  NoDup (ids rs) -> failed ∈ rs -> validateReplan failed ns rs = None ->
  wf_graph (graph_of (spliceReplan (rid failed) ns rs).1).
Proof.
  intros Hnd Hin Hv. eapply wf_graph_perm; [by symmetry; apply splice_graph_perm|].
  apply validateReplan_shape in Hv as (front & l & _ & _ & Hns & Hfresh & Hbad & Hk).
  set (g := combinedDeps (rid failed) rs ns) in *.
  assert (Hndg : NoDup g.*1) by (by apply combinedDeps_nodup).
  pose proof (proj1 (badDeps_None g g) Hbad) as Hdeps.
  assert (Hcl : closed g) by (intros i ds d Hi Hd; by apply (Hdeps i ds d)).
  split_and!; [done|done|]. by apply (kahn_correct g).
Qed.

(** * Governance root hash *)

Definition fingerprint_cmp (a b : string * list string) : comparison := str_cmp a.1 b.1.

(** The per-node fingerprints [{id, dependsOn}], sorted by id, each with its
    dependencies sorted. *)
Definition nodeFingerprints (rs : list NodeRecord) : list (string * list string) :=
  sort_by fingerprint_cmp (map (fun r => (rid r, sort_strings (deps r))) rs).

Definition fingerprint_val (f : string * list string) : jsval :=
  JObj [("id", JStr f.1); ("dependsOn", JArr (map JStr f.2))].

Definition rootPayload (adr : string) (rs : list NodeRecord) : jsval :=
  JObj [("adrEco", JStr adr); ("nodes", JArr (map fingerprint_val (nodeFingerprints rs)))].

Definition computeRootHash `{Hashing} (adr : string) (rs : list NodeRecord) : result string :=
  hash_canonical (rootPayload adr rs).

Lemma rootPayload_safe adr rs : json_safe (rootPayload adr rs) = true.
Proof.
  unfold rootPayload, json_safe; fold json_safe. apply andb_true_iff. split.
  { apply bool_decide_eq_true. repeat constructor; set_solver. }
  simpl. rewrite andb_true_r. apply forallb_true_iff. intros v Hv.
  apply list_elem_of_In, in_map_iff in Hv as (f & <- & _). simpl.
  rewrite andb_true_r. apply forallb_true_iff. intros v Hv.
  by apply list_elem_of_In, in_map_iff in Hv as (d & <- & _).
Qed.

(** The hash always exists: no governance payload is rejected. *)
Lemma computeRootHash_total `{Hashing} adr rs :
  computeRootHash adr rs = Ok (sha256 (rfcCanonicalize (rootPayload adr rs))).
Proof. apply hash_canonical_safe, rootPayload_safe. Qed.

(** Same node for the governance hash: same id, same dependencies up to order. *)
Definition same_governance (r r' : NodeRecord) : Prop := rid r = rid r' /\ deps r ≡ₚ deps r'.

Lemma fingerprints_same rs rs' :
  Forall2 same_governance rs rs' ->
  map (fun r => (rid r, sort_strings (deps r))) rs =
  map (fun r => (rid r, sort_strings (deps r))) rs'.
Proof.
  induction 1 as [|r r' rs rs' [Hid Hd] _ IH]; simpl; [done|].
  by rewrite Hid, (sort_strings_perm _ _ Hd), IH.
Qed.

Lemma fingerprints_perm rs rs' :
  NoDup (ids rs) -> rs ≡ₚ rs' -> nodeFingerprints rs = nodeFingerprints rs'.
Proof.
  intros Hnd Hp. unfold nodeFingerprints. apply sort_by_unique.
  - intros x y. apply str_cmp_antisym.
  - intros x y z. apply str_cmp_trans.
  - intros [i ds] [j es] Hi Hj Heq. apply str_cmp_eq in Heq. simpl in Heq. subst j.
    apply list_elem_of_In, in_map_iff in Hi as (r & [= <- <-] & Hr).
    apply list_elem_of_In, in_map_iff in Hj as (r' & [= Hrr <-] & Hr').
    apply list_elem_of_In in Hr, Hr'.
    pose proof (byId_unique rs r Hnd Hr) as H1.
    pose proof (byId_unique rs r' Hnd Hr') as H2. rewrite Hrr, H1 in H2. by simplify_eq.
  - by rewrite Hp.
Qed.
