(* ===== verification/DagNode.v ===== *)
(** Single-node execution of the DAG scheduler
    ([src/orchestration/dag/scheduler.ts]: runNode, executeNode, runMapOver,
    runBestOfN, callExecutor and their helpers).

    A node's run is a resumable computation: it runs from one [await] to the
    next on the state of the run (the ports' world, the progress stream, the
    records, the abort flag) and its own record, and names the [await] it is
    suspended at.  Between two [await]s it runs alone; at an [await] everything
    else may.  A reply of a port is fixed when the port is called and seen when
    the computation resumes. *)

From S2P Require Import Prelude JsNum JsValue DagTypes.

(** * Resumable computations *)

(** The [await]s of a node: the journal's recall; the executor (one call, the
    children of a map-over, the first batch); the probing verifier; the second
    batch; the verifier; [await executeNode(...)] in [runNode]; the journal's
    record; then a rejection on its way to [catch], and the way to [finally]. *)
Inductive awaiting :=
| at_recall | at_executor | at_probe | at_rest | at_verdict
| at_executed | at_record | at_rejected | at_return.
#[export] Instance awaiting_eq_dec : EqDecision awaiting.
Proof. solve_decision. Defined.

(** What a node sees while it runs: the world, the progress stream, its own
    record, whether the top-level signal has aborted, and the records. *)
Record nst (W : Type) := mkNst {
  n_world : W;
  n_evs : list WorkflowProgressEvent;
  n_rec : NodeRecord;
  n_aborted : bool;
  n_recs : list NodeRecord
}.
Arguments mkNst {W} _ _ _ _ _.
Arguments n_world {W} _.
Arguments n_evs {W} _.
Arguments n_rec {W} _.
Arguments n_aborted {W} _.
Arguments n_recs {W} _.

Definition with_rec {W} (r : NodeRecord) (s : nst W) : nst W :=
  mkNst (n_world s) (n_evs s) r (n_aborted s) (n_recs s).
Definition with_nworld {W} (w : W) (s : nst W) : nst W :=
  mkNst w (n_evs s) (n_rec s) (n_aborted s) (n_recs s).

(** A value; a rejection; a promise that never settles, awaited at [p]; an
    [await]; or an action on the state, which the rest may look at as it was. *)
Inductive NodeM (W A : Type) : Type :=
| NRet (a : A)
| NRej (msg : string)
| NNever (p : awaiting)
| NAwait (p : awaiting) (k : NodeM W A)
| NDo (f : nst W -> nst W) (k : nst W -> NodeM W A).
Arguments NRet {W A} a.
Arguments NRej {W A} msg.
Arguments NNever {W A} p.
Arguments NAwait {W A} p k.
Arguments NDo {W A} f k.

Definition nret {W A} (a : A) : NodeM W A := NRet a.
Fixpoint nbind {W A B} (m : NodeM W A) (f : A -> NodeM W B) : NodeM W B :=
  match m with
  | NRet a => f a
  | NRej msg => NRej msg
  | NNever p => NNever p
  | NAwait p k => NAwait p (nbind k f)
  | NDo g k => NDo g (fun s => nbind (k s) f)
  end.
(** [m.catch(h)]. *)
Fixpoint ncatch {W A} (m : NodeM W A) (h : string -> NodeM W A) : NodeM W A :=
  match m with
  | NRet a => NRet a
  | NRej msg => h msg
  | NNever p => NNever p
  | NAwait p k => NAwait p (ncatch k h)
  | NDo g k => NDo g (fun s => ncatch (k s) h)
  end.

(** From where it is to the next [await], or to its end. *)
Fixpoint advance {W A} (m : NodeM W A) (s : nst W) : nst W * NodeM W A :=
  match m with
  | NDo f k => advance (k s) (f s)
  | _ => (s, m)
  end.

Notation "'let!' x := m 'in' k" := (nbind m (fun x => k))
  (at level 200, x name, m at level 100, k at level 200, right associativity) : js_scope.
Notation "m ;;; k" := (nbind m (fun _ => k))
  (at level 199, right associativity) : js_scope.
Open Scope js_scope.

Definition get_rec {W} : NodeM W NodeRecord := NDo (fun s => s) (fun s => NRet (n_rec s)).
Definition mod_rec {W} (f : NodeRecord -> NodeRecord) : NodeM W unit :=
  NDo (fun s => with_rec (f (n_rec s)) s) (fun _ => NRet tt).

(** Awaiting, at [p], the reply of a promise. *)
Definition await_reply {W A} (p : awaiting) (r : Reply A) : NodeM W A :=
  match r with
  | Fulfilled a => NAwait p (NRet a)
  | Rejected msg => NAwait p (NRej msg)
  | NeverSettles => NNever p
  end.
(** [await call()]: the port acts on the world when it is called. *)
Definition port {W A} (p : awaiting) (call : W -> W * Reply A) : NodeM W A :=
  NDo (fun s => with_nworld (call (n_world s)).1 s) (fun s => await_reply p (call (n_world s)).2).

(** [Promise.all(xs.map(f))] for calls that do not wait to be made and whose
    promises never reject: all are made in order; there is a result if all
    settle. *)
Fixpoint promise_all {W A B} (f : A -> NodeM W (option B)) (xs : list A)
    : NodeM W (option (list B)) :=
  match xs with
  | [] => nret (Some [])
  | x :: xs' =>
      let! o := f x in
      let! os := promise_all f xs' in
      nret (match o, os with Some b, Some bs => Some (b :: bs) | _, _ => None end)
  end.

(** Awaiting, at [p], a promise that may stay pending. *)
Definition await_opt {W A} (p : awaiting) (o : option A) : NodeM W A :=
  match o with Some a => NAwait p (NRet a) | None => NNever p end.

(** Indices [from, from+1, ...], [count] of them. *)
Definition indices (from count : Z) : list Z :=
  map (fun i => from + Z.of_nat i) (seq 0 (Z.to_nat count)).

Fixpoint enumerate {A} (i : Z) (l : list A) : list (Z * A) :=
  match l with [] => [] | x :: l' => (i, x) :: enumerate (i + 1) l' end.

(** * Retry bound and own-timeout marker *)

Definition OWN_TIMEOUT_REASON_PREFIX : string := "timeout:".

Definition isOwnTimeoutDeferral (st : RecStatus) (rs : option string) : bool :=
  match st, rs with
  | settled deferred, Some r => starts_with OWN_TIMEOUT_REASON_PREFIX r
  | _, _ => false
  end.

Definition resolveRetryBound {W} (sp : DagNodeSpec) (inp : DagRunInput W) : Z :=
  let raw := match maxTimeoutRetries sp with
             | Some n => n
             | None => default 0 (defaultMaxTimeoutRetries inp)
             end in
  if 0 <? raw then raw else 0.

Section Node.
Context {W : Type} (inp : DagRunInput W).

(** [emitProgress(input, {..., at: input.clock.now()})]: the clock is read
    whether or not a sink is present; a throwing sink is swallowed. *)
Definition emit (ev : Z -> WorkflowProgressEvent) : NodeM W unit :=
  NDo (fun s =>
    let '(w, t) := clock inp (n_world s) in
    mkNst w (if hasProgress inp then n_evs s ++ [ev t] else n_evs s) (n_rec s)
      (n_aborted s) (n_recs s)) (fun _ => NRet tt).

(** ** callExecutor *)

Definition timeoutOutcome (timeout : Z) : NodeOutcome :=
  {| o_status := deferred; o_output := JNull;
     o_reason := Some (OWN_TIMEOUT_REASON_PREFIX ++ " node timed out after " ++
                       str_of_Z timeout ++ "ms")%string |}.

Definition failedOutcome (msg : string) : NodeOutcome :=
  {| o_status := failed; o_output := JNull; o_reason := Some msg |}.

(** Outcome of one executor call under the timeout race; [None] when the
    call never settles.  The timer is armed before the executor is called, so
    it wins a tie. *)
Definition raceOutcome (timeout : Z) (er : ExecReply) : option NodeOutcome :=
  let settledOutcome := match reply er with
    | Fulfilled o => Some o
    | Rejected msg => Some (failedOutcome msg)
    | NeverSettles => None
    end in
  if 0 <? timeout then
    match settledOutcome with
    | Some o => if after er <? timeout then Some o else Some (timeoutOutcome timeout)
    | None => Some (timeoutOutcome timeout)
    end
  else settledOutcome.

(** The call is made at once; the caller awaits its outcome. *)
Definition executorReply (sp : DagNodeSpec) (inputs : NodeInputs) (attempt : Z) (s : nst W)
    : W * ExecReply :=
  let sig := if (0 <? default 0 (timeoutMs sp)) || hasSignal inp
             then Some (hasSignal inp && n_aborted s) else None in
  executor inp (n_world s) sp inputs attempt sig.

Definition callExecutor (sp : DagNodeSpec) (inputs : NodeInputs) (attempt : Z)
    : NodeM W (option NodeOutcome) :=
  NDo (fun s => with_nworld (executorReply sp inputs attempt s).1 s)
    (fun s => NRet (raceOutcome (default 0 (timeoutMs sp)) (executorReply sp inputs attempt s).2)).

Definition applyOutcome (o : NodeOutcome) (r : NodeRecord) : NodeRecord :=
  let isDone := bool_decide (o_status o = done) in
  set_result (settled (o_status o))
    (if isDone then o_output o else JNull)
    (if isDone then None else o_reason o) r.

(** ** runMapOver *)

Definition isDoneOutcome (o : NodeOutcome) : bool := bool_decide (o_status o = done).

Definition runMapOver (m : string) (inputs : NodeInputs) : NodeM W unit :=
  let! r := get_rec in
  match as_array (get_field m inputs) with
  | None =>
      mod_rec (set_result (settled failed) JNull
        (Some ("mapOver '" ++ m ++ "' did not resolve to an array")%string))
  | Some arr =>
      let width := Z.of_nat (length arr) in
      mod_rec (set_attempts width) ;;;
      if width =? 0 then mod_rec (set_result (settled done) (JArr []) None)
      else
        let! settledOuts := promise_all (fun ie =>
            emit (node_running (runId inp) (rid r) (ie.1 + 1) width) ;;;
            callExecutor (spec r) (om_set m ie.2 inputs) ie.1) (enumerate 0 arr) in
        let! outs := await_opt at_executor settledOuts in
        let succeeded := List.filter isDoneOutcome outs in
        let nOk := Z.of_nat (length succeeded) in
        if nOk =? 0 then
          mod_rec (set_result (settled failed) JNull
            (Some ("all " ++ str_of_Z width ++ " mapOver children failed")%string))
        else
          mod_rec (set_result (settled done) (JArr (map o_output succeeded))
            (if nOk =? width then None
             else Some (str_of_Z (width - nOk) ++ "/" ++ str_of_Z width ++
                        " mapOver children failed")%string))
  end.

(** ** runBestOfN *)

Definition phase1SizeOf (nsamples : Z) : Z :=
  match bestOfN inp with
  | Some policy =>
      Z.min nsamples
        (Z.max 1 (match initialBatch policy with
                  | Some b => b
                  | None => Z.max 2 ((nsamples + 1) / 2)
                  end))
  | None => nsamples
  end.

Definition earlyThresholdOf : num :=
  match bestOfN inp with
  | Some policy => default (num_of_decimal 85 2) (earlyAcceptThreshold policy)
  | None => num_of_decimal 85 2
  end.

Definition runBatch (p : awaiting) (inputs : NodeInputs) (nsamples startIndex count : Z)
    : NodeM W (list jsval) :=
  let! r := get_rec in
  let! outs := promise_all (fun i =>
      emit (node_running (runId inp) (rid r) (i + 1) nsamples) ;;;
      callExecutor (spec r) inputs i) (indices startIndex count) in
  let! outs := await_opt p outs in
  nret (map o_output
    (List.filter (fun o => isDoneOutcome o && negb (is_null (o_output o))) outs)).

Definition failClosedNoCandidates (ran : Z) : NodeM W unit :=
  let! r := get_rec in
  mod_rec (set_result (settled failed) JNull
    (Some ("best-of-N: all " ++ str_of_Z ran ++ " samples failed before verification")%string)) ;;;
  emit (node_verified (runId inp) (rid r) false).

Definition settle (v : VerifierVerdict) (nCands : Z) : NodeM W unit :=
  let! r := get_rec in
  emit (node_verified (runId inp) (rid r) (negb (is_null (accepted v)))) ;;;
  if is_null (accepted v) then
    mod_rec (set_result (settled failed) JNull
      (Some ("best-of-N: verifier rejected all " ++ str_of_Z nCands ++
             " candidates (" ++ v_reason v ++ ")")%string))
  else mod_rec (set_result (settled done) (accepted v) None).

(** [await verifier(candidates, ...)]; calling an absent verifier is a
    [TypeError]. *)
Definition callVerifier (p : awaiting) (cands : list jsval) (inputs : NodeInputs)
    : NodeM W VerifierVerdict :=
  let! r := get_rec in
  match verifier inp with
  | Some v => port p (fun w => v w cands (spec r) inputs)
  | None => NRej "verifier is not a function"
  end.

Definition earlyAccept (probe : VerifierVerdict) : bool :=
  negb (is_null (accepted probe)) &&
  match acceptedScore probe with
  | Some sc => num_geb sc earlyThresholdOf
  | None => false
  end.

(** Final verification of all candidates, fail-closed when there is none. *)
Definition verifyAll (cands : list jsval) (inputs : NodeInputs) : NodeM W unit :=
  let! r := get_rec in
  if (length cands =? 0)%nat then failClosedNoCandidates (attempts r)
  else let! v := callVerifier at_verdict cands inputs in settle v (Z.of_nat (length cands)).

Definition runBestOfN (inputs : NodeInputs) (nsamples : Z) : NodeM W unit :=
  let phase1 := phase1SizeOf nsamples in
  let! cands := runBatch at_executor inputs nsamples 0 phase1 in
  mod_rec (set_attempts phase1) ;;;
  if phase1 <? nsamples then
    let! probe :=
      (if (0 <? length cands)%nat then
         let! p := callVerifier at_probe cands inputs in nret (Some p)
       else nret None) in
    match probe with
    | Some p =>
        if earlyAccept p then settle p (Z.of_nat (length cands))
        else
          let! more := runBatch at_rest inputs nsamples phase1 (nsamples - phase1) in
          mod_rec (set_attempts nsamples) ;;; verifyAll (cands ++ more) inputs
    | None =>
        let! more := runBatch at_rest inputs nsamples phase1 (nsamples - phase1) in
        mod_rec (set_attempts nsamples) ;;; verifyAll (cands ++ more) inputs
    end
  else verifyAll cands inputs.

(** ** executeNode *)

(** [inputs[depId] = byId.get(depId)?.output ?? null], in order. *)
Definition resolveInputs (rs : list NodeRecord) (ds : list string) : NodeInputs :=
  fold_left (fun m d =>
    om_set d (match byId rs d with Some r => or_null (output r) | None => JNull end) m) ds [].

Definition runIfHolds (r : NodeRecord) (inputs : NodeInputs) : result bool :=
  match runIf (spec r) with Some p => p inputs | None => Ok true end.

Definition get_inputs : NodeM W NodeInputs :=
  NDo (fun s => s) (fun s => NRet (resolveInputs (n_recs s) (deps (n_rec s)))).

Definition executeNode : NodeM W unit :=
  let! r := get_rec in
  let! inputs := get_inputs in
  match runIfHolds r inputs with
  | Throw e => NRej (err_message e)
  | Ok false => mod_rec (set_result (settled deferred) JNull (Some "skipped"))
  | Ok true =>
      match mapOver (spec r) with
      | Some m => runMapOver m inputs
      | None =>
          let n := default 1 (samples (spec r)) in
          if 1 <? n then runBestOfN inputs n
          else
            emit (node_running (runId inp) (rid r) (1 + retriesUsed r) 1) ;;;
            let! o := callExecutor (spec r) inputs 0 in
            let! o := await_opt at_executor o in
            mod_rec (set_attempts 1) ;;; mod_rec (applyOutcome o)
      end
  end.

(** ** runNode *)

Definition emitTerminal (r : NodeRecord) : NodeM W unit :=
  match status r with
  | settled done => emit (node_done (runId inp) (rid r) (output r))
  | settled failed => emit (node_failed (runId inp) (rid r) (default "(no reason)" (reason r)))
  | settled deferred => emit (node_deferred (runId inp) (rid r) (default "(no reason)" (reason r)))
  | _ => nret tt
  end.

(** The terminal entry handed to the journal. *)
Definition journalEntry (r : NodeRecord) : NodeManifestEntry :=
  mkEntry (rid r)
    (if bool_decide (status r = pending) then settled deferred else status r)
    (if bool_decide (status r = settled done) then None else reason r)
    (output r) (deps r) (attempts r).

(** Done-only short-circuit: the recalled entry when it is [done]. *)
Definition recallDone : NodeM W (option NodeManifestEntry) :=
  let! r := get_rec in
  match journal inp with
  | None => nret None
  | Some j =>
      let! e := port at_recall (fun w => recall j w (runId inp) (rid r)) in
      nret (match e with
            | Some e => if bool_decide (e_status e = settled done) then Some e else None
            | None => None
            end)
  end.

Definition resumeRecord (e : NodeManifestEntry) (r : NodeRecord) : NodeRecord :=
  set_attempts (e_attempts e) (set_result (settled done) (e_output e) None r).

(** Retries left for a node that settled on its own timeout. *)
Definition mayRetry (r : NodeRecord) : bool :=
  isOwnTimeoutDeferral (status r) (reason r) &&
  (retriesUsed r <? resolveRetryBound (spec r) inp).

Definition retryRecord (r : NodeRecord) : NodeRecord :=
  set_result pending JNull None (set_retries (retriesUsed r + 1) r).

Definition recordTerminal (r : NodeRecord) : NodeM W unit :=
  match journal inp with
  | None => nret tt
  | Some j => port at_record (fun w => record j w (runId inp) (journalEntry r))
  end.

Definition runNode : NodeM W unit :=
  let! resumed := recallDone in
  match resumed with
  | Some e =>
      mod_rec (resumeRecord e) ;;;
      let! r := get_rec in
      emit (node_resumed (runId inp) (rid r)) ;;;
      emit (node_done (runId inp) (rid r) (output r))
  | None =>
      executeNode ;;;
      NAwait at_executed
        (let! r := get_rec in
         if mayRetry r then mod_rec retryRecord
         else recordTerminal r ;;; (let! r := get_rec in emitTerminal r))
  end.

(** The dispatched promise: [runNode(...).catch(...)], where a rejection marks
    the record failed, [.finally(...)]. *)
Definition caught (msg : string) : NodeM W unit :=
  NAwait at_rejected
    (mod_rec (set_result (settled failed) JNull (Some msg)) ;;;
     let! r := get_rec in emit (node_failed (runId inp) (rid r) msg)).

Definition runNodeCaught : NodeM W unit := ncatch runNode caught.

Definition flight : NodeM W unit := runNodeCaught ;;; NAwait at_return (NRet tt).
End Node.

(** * Correctness *)

Open Scope js_scope.

(** The order in which a node passes its [await]s, downwards. *)
Definition rank (p : awaiting) : nat :=
  match p with
  | at_recall => 8 | at_executor => 7 | at_probe => 6 | at_rest => 5 | at_verdict => 4
  | at_executed => 3 | at_record => 2 | at_rejected => 1 | at_return => 0
  end.

(** The node has not settled its record yet: it executes, or its rejection is
    on its way to the handler that settles it. *)
Definition live (p : awaiting) : bool := (3 <? rank p)%nat || bool_decide (p = at_rejected).

(** Where a node waits for a port: the journal, the executor, the verifier. *)
Definition port_awaits : list awaiting :=
  [at_recall; at_executor; at_probe; at_rest; at_verdict; at_record].

(** Where a stretch of a node's run starts: at its dispatch, or at an [await]. *)
Abbreviation origin := (option awaiting).
Definition orank (o : origin) : nat := match o with Some p => rank p | None => 9 end.
Definition olive (o : origin) : bool := match o with Some p => live p | None => true end.

(** * Rely and guarantee

    [wp pr o r0 m Q E s] runs [m] on [s], where [o] is where its stretch
    started, and [r0] the record then.  Wherever it suspends, the guarantee of
    [pr] holds; it resumes with any record the rely of [pr] admits.  If [m]
    fulfils, [Q] holds; if it rejects, [E] does. *)
Record protocol := mkProtocol {
  guar : origin -> NodeRecord -> awaiting -> NodeRecord -> Prop;
  rely : awaiting -> NodeRecord -> NodeRecord -> Prop;
  stuck : awaiting -> Prop          (** where it may be left waiting *)
}.

Fixpoint wp {W A} (pr : protocol) (o : origin) (r0 : NodeRecord) (m : NodeM W A)
    (Q : origin -> NodeRecord -> A -> nst W -> Prop)
    (E : origin -> NodeRecord -> string -> nst W -> Prop) (s : nst W) : Prop :=
  match m with
  | NRet a => Q o r0 a s
  | NRej e => E o r0 e s
  | NNever p => guar pr o r0 p (n_rec s) /\ stuck pr p
  | NAwait p k =>
      guar pr o r0 p (n_rec s) /\
      forall s', rely pr p (n_rec s) (n_rec s') -> wp pr (Some p) (n_rec s') k Q E s'
  | NDo f k => wp pr o r0 (k s) Q E (f s)
  end.

Section Wp.
Context {W : Type} (pr : protocol).
Implicit Types (s : nst W) (p : awaiting) (o : origin) (r : NodeRecord).

Lemma wp_bind {A B} (m : NodeM W A) (f : A -> NodeM W B) Q E o r0 s :
  wp pr o r0 m (fun o r a s' => wp pr o r (f a) Q E s') E s -> wp pr o r0 (nbind m f) Q E s.
Proof.
  revert o r0 s. induction m as [a|e|p|p k IH|g k IH]; intros o r0 s H; simpl in *; auto.
  destruct H as [Hg H]. split; [done|]. auto.
Qed.

Lemma wp_catch {A} (m : NodeM W A) h Q E o r0 s :
  wp pr o r0 m Q (fun o r e s' => wp pr o r (h e) Q E s') s -> wp pr o r0 (ncatch m h) Q E s.
Proof.
  revert o r0 s. induction m as [a|e|p|p k IH|g k IH]; intros o r0 s H; simpl in *; auto.
  destruct H as [Hg H]. split; [done|]. auto.
Qed.

Lemma wp_mono {A} (m : NodeM W A) (Q Q' : origin -> NodeRecord -> A -> nst W -> Prop)
    (E E' : origin -> NodeRecord -> string -> nst W -> Prop) o r0 s :
  wp pr o r0 m Q E s -> (forall o r a s', Q o r a s' -> Q' o r a s') ->
  (forall o r e s', E o r e s' -> E' o r e s') -> wp pr o r0 m Q' E' s.
Proof.
  intros H HQ HE. revert o r0 s H.
  induction m as [a|e|p|p k IH|g k IH]; intros o r0 s H; simpl in *; auto.
  destruct H as [Hg H]. split; [done|]. auto.
Qed.

Lemma wp_get_rec Q E o r0 s : Q o r0 (n_rec s) s -> wp pr o r0 get_rec Q E s.
Proof. done. Qed.
Lemma wp_mod_rec f (Q : origin -> NodeRecord -> unit -> nst W -> Prop) E o r0 s :
  Q o r0 tt (with_rec (f (n_rec s)) s) -> wp pr o r0 (mod_rec f) Q E s.
Proof. done. Qed.

Lemma wp_await_opt {A} (x : option A) Q E p o r0 s :
  guar pr o r0 p (n_rec s) -> (x = None -> stuck pr p) ->
  (forall a s', x = Some a -> rely pr p (n_rec s) (n_rec s') -> Q (Some p) (n_rec s') a s') ->
  wp pr o r0 (await_opt p x) Q E s.
Proof. destruct x; simpl; auto. Qed.

Lemma wp_port {A} (call : W -> W * Reply A) Q E p o r0 s :
  guar pr o r0 p (n_rec s) -> ((call (n_world s)).2 = NeverSettles -> stuck pr p) ->
  (forall a s', (call (n_world s)).2 = Fulfilled a -> rely pr p (n_rec s) (n_rec s') ->
    Q (Some p) (n_rec s') a s') ->
  (forall e s', (call (n_world s)).2 = Rejected e -> rely pr p (n_rec s) (n_rec s') ->
    E (Some p) (n_rec s') e s') ->
  wp pr o r0 (port p call) Q E s.
Proof. intros. simpl. destruct (call (n_world s)).2; simpl; auto. Qed.

(** Running up to the next [await]. *)
Lemma wp_advance {A} (m : NodeM W A) Q E o r0 s :
  wp pr o r0 m Q E s -> wp pr o r0 (advance m s).2 Q E (advance m s).1.
Proof. revert s. induction m as [a|e|p|p k IH|g k IH]; intros s H; simpl in *; auto. Qed.
End Wp.

Lemma advance_stops {W A} (m : NodeM W A) s f k : (advance m s).2 <> NDo f k.
Proof. revert s. induction m as [a|e|p|p k' IH|g k' IH]; intros s; simpl; done || auto. Qed.

(** Computations that make their calls at once: no [await], no rejection, the
    record as it was. *)
Definition swift {W A} (m : NodeM W A) : Prop :=
  forall pr o r0 (Q : origin -> NodeRecord -> A -> nst W -> Prop) E s,
    (forall a s', n_rec s' = n_rec s -> Q o r0 a s') -> wp pr o r0 m Q E s.

Lemma swift_ret {W A} (a : A) : swift (@nret W A a).
Proof. intros pr o r0 Q E s H. by apply H. Qed.
Lemma swift_get {W} : swift (@get_rec W).
Proof. intros pr o r0 Q E s H. by apply H. Qed.
Lemma swift_bind {W A B} (m : NodeM W A) (f : A -> NodeM W B) :
  swift m -> (forall a, swift (f a)) -> swift (nbind m f).
Proof.
  intros Hm Hf pr p0 r0 Q E s H. apply wp_bind, Hm. intros a s' Hs. apply Hf.
  intros b s'' Hs'. apply H. by rewrite Hs'.
Qed.
Lemma swift_promise_all {W A B} (f : A -> NodeM W (option B)) xs :
  (forall x, swift (f x)) -> swift (promise_all f xs).
Proof.
  intros Hf. induction xs as [|x xs IH]; simpl; [apply swift_ret|].
  apply swift_bind; [done|]. intros o. apply swift_bind; [done|]. intros os. apply swift_ret.
Qed.
Lemma swift_emit {W} (inp : DagRunInput W) ev : swift (emit inp ev).
Proof. intros pr o r0 Q E s H. simpl. apply H. by destruct (clock _ _). Qed.
Lemma swift_callExecutor {W} (inp : DagRunInput W) sp ins a : swift (callExecutor inp sp ins a).
Proof. intros pr o r0 Q E s H. simpl. by apply H. Qed.
#[export] Hint Resolve swift_ret swift_get swift_bind swift_promise_all swift_emit
  swift_callExecutor : js.

(** ** What a node does to its record *)

(** The same work: spec, dependencies, retry count and replan flag. *)
Record same_work (r r' : NodeRecord) : Prop := {
  sw_spec : spec r' = spec r;
  sw_deps : deps r' = deps r;
  sw_retries : retriesUsed r' = retriesUsed r;
  sw_offered : replanOffered r' = replanOffered r
}.
Definition is_settled (r : NodeRecord) : Prop := exists st, status r = settled st.

(** Not settled meanwhile, and settled. *)
Definition touched (r r' : NodeRecord) : Prop := same_work r r' /\ status r' = status r.
Definition finished (r r' : NodeRecord) : Prop := same_work r r' /\ is_settled r'.

Lemma touched_refl r : touched r r.
Proof. done. Qed.
Lemma touched_attempts n r r' : touched r r' -> touched r (set_attempts n r').
Proof. intros [[] ?]. by split. Qed.
Lemma finished_result r r' st o rsn : touched r r' -> finished r (set_result (settled st) o rsn r').
Proof. intros [[] _]. split; [by split|by eexists]. Qed.
#[export] Hint Resolve touched_refl touched_attempts finished_result : js.

(** ** Execution

    Under a protocol that lets an executing node suspend with its record
    touched only, and resume with its invariant [J], execution settles the
    record. *)
Section Executing.
Context {W : Type} (inp : DagRunInput W) (pr : protocol) (J : NodeRecord -> Prop).
Context (Hguar : forall o r0 p r, J r0 -> touched r0 r -> (3 < rank p < orank o)%nat -> guar pr o r0 p r)
  (Hrely : forall p r0 r r', J r0 -> touched r0 r -> (3 < rank p)%nat -> rely pr p r r' -> J r')
  (Hstuck : forall p, (3 < rank p)%nat -> stuck pr p).

Definition on_track (m : nat) (o : origin) (r0 : NodeRecord) (s : nst W) : Prop :=
  (m <= orank o)%nat /\ J r0 /\ touched r0 (n_rec s).

(** Before any of the [await]s of rank [m] or more; executed. *)
Definition settles (m : nat) (c : NodeM W unit) : Prop :=
  forall o r0 s, on_track m o r0 s ->
    wp pr o r0 c (fun p r _ s' => (4 <= orank p)%nat /\ J r /\ finished r (n_rec s'))
      (fun p r _ s' => on_track 4 p r s') s.

Lemma on_track_awaits p o r0 s :
  on_track (S (rank p)) o r0 s -> (3 < rank p)%nat -> guar pr o r0 p (n_rec s).
Proof. intros (Hm & HJ & Ht) Hp. apply Hguar; [done|done|lia]. Qed.

Lemma on_track_resumes p o r0 m s s' :
  on_track m o r0 s -> (3 < rank p)%nat -> rely pr p (n_rec s) (n_rec s') ->
  on_track (rank p) (Some p) (n_rec s') s'.
Proof. intros (_ & HJ & Ht) Hp Hr. split; [done|]. split; [by eapply Hrely|apply touched_refl]. Qed.

Lemma on_track_le m m' o r0 s : on_track m o r0 s -> (m' <= m)%nat -> on_track m' o r0 s.
Proof. intros (? & ? & ?) ?. split; [lia|done]. Qed.

Lemma on_track_same m o r0 s s' : on_track m o r0 s -> n_rec s' = n_rec s -> on_track m o r0 s'.
Proof. unfold on_track. by intros ? ->. Qed.

Lemma on_track_attempts n m o r0 s :
  on_track m o r0 s -> on_track m o r0 (with_rec (set_attempts n (n_rec s)) s).
Proof. intros (? & ? & ?). split; [done|]. split; [done|]. simpl. auto with js. Qed.

Lemma settles_result m st out rsn :
  (4 <= m)%nat -> settles m (mod_rec (set_result (settled st) out rsn)).
Proof.
  intros Hm o r0 s (Hr & HJ & Ht). apply wp_mod_rec. split; [lia|]. split; [done|].
  simpl. auto with js.
Qed.

Lemma settles_swift {A} m (c : NodeM W A) f : swift c -> (forall a, settles m (f a)) -> settles m (nbind c f).
Proof.
  intros Hc Hf o r0 s Hs. apply wp_bind, Hc. intros a s' Hs'. apply Hf. by eapply on_track_same.
Qed.

Lemma settles_attempts m n (c : NodeM W unit) : settles m c -> settles m (mod_rec (set_attempts n) ;;; c).
Proof. intros Hc o r0 s Hs. apply wp_bind, wp_mod_rec, Hc. by apply on_track_attempts. Qed.

Lemma settles_await {A} m p (x : option A) f :
  (3 < rank p < m)%nat -> (forall a, settles (rank p) (f a)) -> settles m (nbind (await_opt p x) f).
Proof.
  intros Hp Hf o r0 s Hs. apply wp_bind, wp_await_opt; [|intros _; apply Hstuck; lia|].
  - apply on_track_awaits; [|lia]. eapply on_track_le; [done|lia].
  - intros a s' _ Hr. apply Hf. eapply on_track_resumes; [exact Hs|lia|done].
Qed.

Lemma settles_le m m' c : settles m' c -> (m' <= m)%nat -> settles m c.
Proof. intros Hc Hm o r0 s Hs. apply Hc. by eapply on_track_le. Qed.

Lemma settles_then m c k : settles m c -> swift k -> settles m (nbind c (fun _ => k)).
Proof.
  intros Hc Hk o r0 s Hs. apply wp_bind. eapply wp_mono; [by apply Hc| |done].
  intros p r [] s' (? & ? & ?). apply Hk. intros a s'' ->. done.
Qed.

Lemma settles_runMapOver mo ins : settles 8 (runMapOver inp mo ins).
Proof.
  unfold runMapOver. apply settles_swift; [auto with js|]. intros r.
  destruct (as_array _) as [arr|]; [|apply settles_result; lia]. cbv zeta.
  apply settles_attempts. destruct (_ =? 0); [apply settles_result; lia|].
  apply settles_swift; [auto 10 with js|]. intros o.
  apply settles_await; [simpl; lia|]. intros outs. destruct (_ =? 0); apply settles_result; simpl; lia.
Qed.

Lemma settles_settle m v n : (4 <= m)%nat -> settles m (settle inp v n).
Proof.
  intros Hm. unfold settle. apply settles_swift; [auto with js|]. intros r.
  apply settles_swift; [auto with js|]. intros _. destruct (is_null _); by apply settles_result.
Qed.

Lemma on_track_callVerifier m p c ins
    (Q : origin -> NodeRecord -> VerifierVerdict -> nst W -> Prop) o r0 s :
  (3 < rank p < m)%nat -> on_track m o r0 s ->
  (forall d s', on_track (rank p) (Some p) (n_rec s') s' -> Q (Some p) (n_rec s') d s') ->
  wp pr o r0 (callVerifier inp p c ins) Q (fun o r _ s' => on_track 4 o r s') s.
Proof.
  intros Hp Hs HQ. unfold callVerifier. apply wp_bind, wp_get_rec.
  destruct (verifier inp) as [v|]; [|eapply on_track_le; [exact Hs|lia]].
  apply wp_port; [|intros _; apply Hstuck; lia| |].
  - apply on_track_awaits; [|lia]. eapply on_track_le; [done|lia].
  - intros d s' _ Hr. apply HQ. eapply on_track_resumes; [exact Hs|lia|done].
  - intros e s' _ Hr. eapply on_track_le; [eapply on_track_resumes; [exact Hs|lia|done]|lia].
Qed.

Lemma settles_verifyAll m c ins : (4 < m)%nat -> settles m (verifyAll inp c ins).
Proof.
  intros Hm. unfold verifyAll. apply settles_swift; [auto with js|]. intros r.
  destruct (length c =? 0)%nat.
  - unfold failClosedNoCandidates. apply settles_swift; [auto with js|]. intros r'.
    apply settles_then; [apply settles_result; lia|auto with js].
  - intros o r0 s Hs. eapply wp_bind, on_track_callVerifier; [|exact Hs|]; [simpl; lia|].
    intros d s' Hs'. eapply settles_settle; [|exact Hs']. simpl; lia.
Qed.

Lemma settles_batch m p ins n i c f :
  (3 < rank p < m)%nat -> (forall a, settles (rank p) (f a)) ->
  settles m (nbind (runBatch inp p ins n i c) f).
Proof.
  intros Hp Hf o r0 s Hs. unfold runBatch. do 2 apply wp_bind. apply wp_get_rec, wp_bind.
  apply swift_promise_all; [auto 10 with js|]. intros outs s1 Hs1. apply wp_bind.
  eapply on_track_same in Hs; [|exact Hs1]. apply wp_await_opt; [|intros _; apply Hstuck; lia|].
  - apply on_track_awaits; [|lia]. eapply on_track_le; [done|lia].
  - intros a s' _ Hr. apply Hf. eapply on_track_resumes; [exact Hs|lia|done].
Qed.

Lemma settles_runBestOfN ins n : settles 8 (runBestOfN inp ins n).
Proof.
  unfold runBestOfN. apply settles_batch; [simpl; lia|]. intros c.
  apply settles_attempts. destruct (_ <? n); [|apply settles_verifyAll; simpl; lia].
  assert (Hfull : settles 6 (let! more := runBatch inp at_rest ins n (phase1SizeOf inp n)
      (n - phase1SizeOf inp n) in mod_rec (set_attempts n) ;;; verifyAll inp (c ++ more) ins)).
  { apply settles_batch; [simpl; lia|]. intros more. apply settles_attempts, settles_verifyAll.
    simpl; lia. }
  destruct (0 <? length c)%nat; [|simpl; eapply settles_le; [exact Hfull|simpl; lia]].
  intros o r0 s Hs. do 2 eapply wp_bind.
  eapply on_track_callVerifier; [|exact Hs|]; [simpl; lia|]. intros d s' Hs'. simpl.
  destruct (earlyAccept inp d); [eapply settles_settle; [|exact Hs']; simpl; lia|].
  by apply Hfull.
Qed.

Lemma settles_executeNode : settles 8 (executeNode inp).
Proof.
  unfold executeNode. apply settles_swift; [auto with js|]. intros r.
  apply settles_swift; [intros pr' o r0 Q E s H; by apply H|]. intros ins.
  destruct (runIfHolds _ _) as [[]|]; [|apply settles_result; lia|].
  2:{ intros o r0 s Hs. eapply on_track_le; [exact Hs|lia]. }
  destruct (mapOver (spec r)); [apply settles_runMapOver|].
  destruct (1 <? _); [apply settles_runBestOfN|].
  apply settles_swift; [auto with js|]. intros _.
  apply settles_swift; [auto with js|]. intros x.
  apply settles_await; [simpl; lia|]. intros out. apply settles_attempts, settles_result.
  simpl; lia.
Qed.
End Executing.


(** * The life of a node in flight *)

(** Recording an outcome never fails. *)
Definition reliable {W} (inp : DagRunInput W) : Prop :=
  forall j w r e msg, journal inp = Some j -> (record j w r e).2 <> Rejected msg.

Section Flight.
Context {W : Type} (inp : DagRunInput W).

(** How a stretch of a node's run changes its record: the work stays, the
    retries grow by one at most, within the bound; the record becomes pending
    only with a retry, and never running. *)
Record evolves (r r' : NodeRecord) : Prop := {
  ev_spec : spec r' = spec r;
  ev_deps : deps r' = deps r;
  ev_offered : replanOffered r' = replanOffered r;
  ev_retries : retriesUsed r' = retriesUsed r \/
    (retriesUsed r < resolveRetryBound (spec r) inp /\ retriesUsed r' = retriesUsed r + 1);
  ev_pending : status r' = pending -> retriesUsed r' = retriesUsed r -> status r = pending;
  ev_running : status r' = running -> status r = running
}.

(** A stretch ends at a later [await]; a node that has settled its record does
    not mark it running.  With a journal that records: a node is live exactly as
    long as it has not settled its record; after that it leaves the record
    alone, but for a retry. *)
Record node_guar (o : origin) (r : NodeRecord) (p : awaiting) (r' : NodeRecord) : Prop := {
  ng_rank : (rank p < orank o)%nat;
  ng_evolves : evolves r r';
  ng_live : olive o = true -> status r' = running -> live p = true;
  ng_busy : reliable inp -> live p = true -> olive o = true /\ status r' = running;
  ng_idle : reliable inp -> live p = false -> olive o = false ->
    r' = r \/ (mayRetry inp r = true /\ r' = retryRecord r)
}.

Definition node_protocol : protocol :=
  mkProtocol node_guar (fun p r r' => reliable inp -> live p = true -> r' = r)
    (fun p => p ∈ port_awaits).

(** The record of a live node. *)
Definition busy (r : NodeRecord) : Prop := reliable inp -> status r = running.

Lemma live_rank p : (3 < rank p)%nat -> live p = true.
Proof. intros H. unfold live. by rewrite (proj2 (Nat.ltb_lt _ _) H). Qed.
Lemma olive_rank o : (3 < orank o)%nat -> olive o = true.
Proof. destruct o; [apply live_rank|done]. Qed.

Lemma evolves_refl r : evolves r r.
Proof. split; auto. Qed.

Lemma touched_evolves r r' : touched r r' -> evolves r r'.
Proof. intros [[] Hst]. split; try (by left); congruence. Qed.

Lemma finished_evolves r r' : finished r r' -> evolves r r'.
Proof. intros [[] [st Hst]]. split; try (by left); congruence. Qed.

Lemma mayRetry_evolves r : mayRetry inp r = true -> evolves r (retryRecord r).
Proof.
  unfold mayRetry. intros [_ Hlt%Z.ltb_lt]%andb_true_iff. split; simpl; try done; [by right|lia].
Qed.

Lemma guar_executing o r0 p r :
  busy r0 -> touched r0 r -> (3 < rank p < orank o)%nat -> node_guar o r0 p r.
Proof.
  intros HJ Ht Hp. pose proof (live_rank p ltac:(lia)) as Hl.
  split; [lia|by apply touched_evolves|done| |by rewrite Hl].
  intros Hok _. destruct Ht as [_ ->]. split; [|by apply HJ].
  apply olive_rank. lia.
Qed.

Lemma guar_rejected o r0 r : busy r0 -> touched r0 r -> (4 <= orank o)%nat -> node_guar o r0 at_rejected r.
Proof.
  intros HJ Ht Ho. split; [simpl; lia|by apply touched_evolves|done| |done].
  intros Hok _. destruct Ht as [_ ->]. split; [|by apply HJ].
  apply olive_rank. lia.
Qed.

Lemma guar_finished o r0 p r :
  finished r0 r -> olive o = true -> (rank p < orank o)%nat -> live p = false -> node_guar o r0 p r.
Proof.
  intros Hf Ho Hp Hl. split; [lia|by apply finished_evolves| |by rewrite Hl|by rewrite Ho].
  destruct Hf as [_ [st ->]]. done.
Qed.

Lemma guar_idle o r p : olive o = false -> (rank p < orank o)%nat ->
  (reliable inp -> live p = false) -> node_guar o r p r.
Proof.
  intros Ho Hp Hl. split; [done|apply evolves_refl|by rewrite Ho| |by left].
  intros Hok. by rewrite Hl.
Qed.

(** ** The executing part *)

Lemma node_resumes p r0 r r' : busy r0 -> touched r0 r -> (3 < rank p)%nat ->
  rely node_protocol p r r' -> busy r'.
Proof.
  intros HJ [_ Ht] Hp Hr Hok. rewrite Hr; [|done|by apply live_rank].
  rewrite Ht. by apply HJ.
Qed.

Lemma settles_executing : settles node_protocol busy 8 (executeNode inp).
Proof.
  apply settles_executeNode; [apply guar_executing|apply node_resumes|].
  intros p Hp. destruct p; simpl in *; try lia; repeat constructor.
Qed.

Lemma recallDone_wp (s : nst W) : busy (n_rec s) ->
  wp node_protocol None (n_rec s) (recallDone inp)
    (fun o r _ s' => on_track busy 8 o r s') (fun o r _ s' => on_track busy 4 o r s') s.
Proof.
  intros HJ. unfold recallDone. apply wp_bind, wp_get_rec.
  destruct (journal inp) as [j|]; [|split; [simpl; lia|done]].
  assert (Hres : forall s' : nst W, rely node_protocol at_recall (n_rec s) (n_rec s') ->
    on_track busy 8 (Some at_recall) (n_rec s') s').
  { intros s' Hr. split; [simpl; lia|]. split; [|done].
    apply (node_resumes at_recall (n_rec s) (n_rec s)); [done|done|simpl; lia|done]. }
  apply wp_bind, wp_port.
  - apply guar_executing; [done|done|simpl; lia].
  - intros _. left.
  - intros e s' _ Hr. by apply Hres.
  - intros e s' _ Hr. eapply on_track_le; [by apply Hres|lia].
Qed.

Lemma swift_emitTerminal r : swift (emitTerminal inp r).
Proof. unfold emitTerminal. destruct (status r) as [| |[]]; auto with js. Qed.

(** Settled: recorded, and on the way out. *)
Lemma recordTerminal_wp r (s : nst W) :
  wp node_protocol (Some at_executed) (n_rec s)
    (recordTerminal inp r ;;; let! r := get_rec in emitTerminal inp r)
    (fun o r _ s' => node_guar o r at_return (n_rec s'))
    (fun o r _ s' => node_guar o r at_rejected (n_rec s')) s.
Proof.
  assert (Hout : forall o (s' : nst W), olive o = false -> (0 < orank o)%nat ->
    wp node_protocol o (n_rec s') (let! r := get_rec in emitTerminal inp r)
      (fun o r _ s' => node_guar o r at_return (n_rec s'))
      (fun o r _ s' => node_guar o r at_rejected (n_rec s')) s').
  { intros o s' Ho Hr. apply wp_bind, wp_get_rec, swift_emitTerminal. intros [] s'' ->.
    by apply guar_idle. }
  unfold recordTerminal. destruct (journal inp) as [j|] eqn:Ej.
  - apply wp_bind, wp_port.
    + apply guar_idle; [done|simpl; lia|done].
    + intros _. by repeat constructor.
    + intros a s' _ _. apply Hout; [done|simpl; lia].
    + intros e s' He _. apply guar_idle; [done|simpl; lia|].
      intros Hok. exfalso. by eapply (Hok j).
  - apply wp_bind. apply Hout; [done|simpl; lia].
Qed.

Lemma runNode_wp (s : nst W) : busy (n_rec s) ->
  wp node_protocol None (n_rec s) (runNode inp)
    (fun o r _ s' => node_guar o r at_return (n_rec s'))
    (fun o r _ s' => node_guar o r at_rejected (n_rec s')) s.
Proof.
  intros HJ. unfold runNode. apply wp_bind.
  assert (Hrej : forall o r (e : string) (s' : nst W), on_track busy 4 o r s' ->
    node_guar o r at_rejected (n_rec s')).
  { intros o r e s' (Ho & Hb & Ht). by apply guar_rejected. }
  eapply wp_mono; [by apply recallDone_wp| |done].
  intros o r [e|] s1 Hs1; cbv beta iota.
  - destruct Hs1 as (Ho & Hb & Ht). apply wp_bind, wp_mod_rec, wp_bind, wp_get_rec, wp_bind.
    apply swift_emit. intros [] s2 Hs2. apply swift_emit. intros [] s3 Hs3.
    rewrite Hs3, Hs2. apply guar_finished; [|apply olive_rank; lia|simpl; lia|done].
    unfold resumeRecord. simpl. destruct Ht as [[] _]. split; [by split|by eexists].
  - apply wp_bind. eapply wp_mono; [by apply settles_executing| |done].
    intros o' r' [] s2 (Ho & Hb & Hf). split.
    { apply guar_finished; [done|apply olive_rank; lia|simpl; lia|done]. }
    intros s3 _. apply wp_bind, wp_get_rec. destruct (mayRetry inp (n_rec s3)) eqn:Em.
    + apply wp_mod_rec. split; [simpl; lia|by apply mayRetry_evolves|done|done|].
      intros _ _ _. by right.
    + apply recordTerminal_wp.
Qed.

(** A dispatched node never rejects; it ends where it returns. *)
Lemma flight_wp (s : nst W) : busy (n_rec s) ->
  wp node_protocol None (n_rec s) (flight inp)
    (fun o r _ s' => o = Some at_return /\ n_rec s' = r) (fun _ _ _ _ => False) s.
Proof.
  intros HJ. unfold flight, runNodeCaught. apply wp_bind, wp_catch.
  assert (Hret : forall o r (s' : nst W), node_guar o r at_return (n_rec s') ->
    wp node_protocol o r (NAwait at_return (NRet tt))
      (fun o r (_ : unit) s' => o = Some at_return /\ n_rec s' = r) (fun _ _ _ _ => False) s').
  { intros o r s' Hg. split; [done|]. intros s'' _. done. }
  eapply wp_mono; [by apply runNode_wp| |].
  - intros o r [] s'. apply Hret.
  - intros o r e s' Hg. split; [done|]. intros s'' _. apply wp_bind, wp_mod_rec, wp_bind, wp_get_rec.
    apply swift_emit. intros [] s3 Hs3. apply Hret. rewrite Hs3.
    apply guar_finished; [|done|simpl; lia|done]. split; [by split|by eexists].
Qed.

(** ** Between two stretches *)

(** [m] is what is left of a flight whose record is [r]: if the record is the
    same when it resumes (it may change once the node has settled it), the rest
    of the flight keeps the protocol. *)
Definition parked (r : NodeRecord) (m : NodeM W unit) : Prop :=
  match m with
  | NAwait p k => (live p = true -> busy r) /\
      forall s', (reliable inp -> live p = true -> n_rec s' = r) ->
        wp node_protocol (Some p) (n_rec s') k
          (fun o r _ s' => o = Some at_return /\ n_rec s' = r) (fun _ _ _ _ => False) s'
  | NNever p => (live p = true -> busy r) /\ stuck node_protocol p
  | _ => False
  end.

(** Whether the node has its record still to settle. *)
Definition live_flight (m : NodeM W unit) : bool :=
  match m with NAwait p _ | NNever p => live p | _ => false end.

Lemma parked_busy r m : parked r m -> live_flight m = true -> busy r.
Proof. destruct m; simpl; tauto. Qed.

Lemma parked_other r r' m :
  parked r m -> (reliable inp -> live_flight m = true -> r' = r) -> parked r' m.
Proof.
  intros Hm Hr. assert (Hb : live_flight m = true -> busy r').
  { intros Hl Hok. rewrite Hr by done. by eapply parked_busy. }
  destruct m as [| |p|p k|]; simpl in *; try done; split; try tauto.
  intros s' Hs'. apply Hm. intros Hok Hl. rewrite Hs' by done. auto.
Qed.

(** Where a stretch ends: at an [await] it parks at, or at the flight's end. *)
Record stretch (o : origin) (r : NodeRecord) (n : nst W) (m : NodeM W unit) : Prop := {
  st_evolves : evolves r (n_rec n);
  st_rank : (match m with NAwait p _ | NNever p => S (rank p) | _ => 0 end <= orank o)%nat;
  st_live : olive o = true -> status (n_rec n) = running -> live_flight m = true;
  st_busy : reliable inp -> live_flight m = true -> olive o = true;
  st_idle : reliable inp -> olive o = false ->
    n_rec n = r \/ (mayRetry inp r = true /\ n_rec n = retryRecord r);
  st_parked : m = NRet tt \/ parked (n_rec n) m
}.

Lemma guar_stretch o r n p (m : NodeM W unit) :
  node_guar o r p (n_rec n) -> live_flight m = live p ->
  match m with NAwait p' _ | NNever p' => p' = p | _ => False end ->
  parked (n_rec n) m -> stretch o r n m.
Proof.
  intros Hg Hl Hp Hm. split; [apply Hg| | | | |by right].
  - pose proof (ng_rank _ _ _ _ Hg). destruct m; subst; simpl; lia || done.
  - rewrite Hl. apply Hg.
  - intros Hok. rewrite Hl. by apply (ng_busy _ _ _ _ Hg).
  - intros Hok Ho. apply (ng_idle _ _ _ _ Hg Hok); [|done]. destruct (live p) eqn:E; [|done].
    pose proof (ng_busy _ _ _ _ Hg Hok E) as [? _]. congruence.
Qed.

Lemma wp_stretch o r (m : NodeM W unit) s :
  wp node_protocol o r m (fun o r _ s' => o = Some at_return /\ n_rec s' = r)
    (fun _ _ _ _ => False) s ->
  stretch o r (advance m s).1 (advance m s).2.
Proof.
  intros H%wp_advance. pose proof (advance_stops m s) as Hn.
  destruct (advance m s) as [n m']. simpl in *.
  destruct m' as [[]|e|p|p k|f k]; [|done| | |by destruct (Hn f k)].
  - destruct H as [-> <-]. split; simpl; auto using evolves_refl; done.
  - destruct H as [Hg Hp]. eapply guar_stretch; [done|done|done|]. split; [|done].
    intros Hl Hok. by apply (ng_busy _ _ _ _ Hg).
  - destruct H as [Hg Hk]. eapply guar_stretch; [done|done|done|]. split; [|done].
    intros Hl Hok. by apply (ng_busy _ _ _ _ Hg).
Qed.

(** The stretch from the dispatch, and one from an [await]. *)
Lemma flight_stretch s : status (n_rec s) = running ->
  stretch None (n_rec s) (advance (flight inp) s).1 (advance (flight inp) s).2.
Proof. intros Hs. apply wp_stretch, flight_wp. by intros _. Qed.

Lemma parked_stretch p (k : NodeM W unit) s : parked (n_rec s) (NAwait p k) ->
  stretch (Some p) (n_rec s) (advance k s).1 (advance k s).2.
Proof. intros [_ H]. by apply wp_stretch, H. Qed.
End Flight.
