(* ===== verification/DagExec.v ===== *)
(** The ready-frontier loop of the DAG scheduler
    ([src/orchestration/dag/scheduler.ts]: execute, runDag).

    [execute] interleaves its own loop with the nodes in flight: it is a step
    relation.  [loop_body] is what runs between two [await]s of the loop, and
    dispatches nodes, which run up to their first [await] at once.  A node in
    flight is kept as what is left of its run; a step resumes one of them, in
    any order, up to its next [await]. *)

From S2P Require Import Prelude JsNum JsValue DagTypes DagGraph Canonical DagReplan DagNode.
Open Scope js_scope.

(** Where [execute] is: at the loop head, awaiting the re-planner's reply for a
    failed node, awaiting [Promise.race(inFlight)], draining
    ([Promise.allSettled(inFlight)]), or returned. *)
Inductive pc :=
| AtLoop
| AwaitReplan (i : string) (rep : Reply (option (list DagNodeSpec)))
| AwaitRace (woken : bool)
| Drain
| Finished.

Record exec (W : Type) := mkExec {
  x_pc : pc;
  x_recs : list NodeRecord;
  x_running : Z;                     (** the [running] counter *)
  x_inFlight : list (string * NodeM W unit);   (** the promises of [inFlight] *)
  x_budget : Z;                      (** [replanBudget] *)
  x_aborted : bool;                  (** [input.signal.aborted] *)
  x_world : W;
  x_evs : list WorkflowProgressEvent
}.
Arguments mkExec {W} _ _ _ _ _ _ _ _.
Arguments x_pc {W} _.
Arguments x_recs {W} _.
Arguments x_running {W} _.
Arguments x_inFlight {W} _.
Arguments x_budget {W} _.
Arguments x_aborted {W} _.
Arguments x_world {W} _.
Arguments x_evs {W} _.

Section Execute.
Context {W : Type} (inp : DagRunInput W).

Definition with_pc (p : pc) (s : exec W) : exec W :=
  mkExec p (x_recs s) (x_running s) (x_inFlight s) (x_budget s) (x_aborted s) (x_world s) (x_evs s).
Definition with_recs (rs : list NodeRecord) (s : exec W) : exec W :=
  mkExec (x_pc s) rs (x_running s) (x_inFlight s) (x_budget s) (x_aborted s) (x_world s) (x_evs s).
Definition with_budget (b : Z) (s : exec W) : exec W :=
  mkExec (x_pc s) (x_recs s) (x_running s) (x_inFlight s) b (x_aborted s) (x_world s) (x_evs s).
Definition with_world (w : W) (s : exec W) : exec W :=
  mkExec (x_pc s) (x_recs s) (x_running s) (x_inFlight s) (x_budget s) (x_aborted s) w (x_evs s).

Definition with_flights (fl : list (string * NodeM W unit)) (s : exec W) : exec W :=
  mkExec (x_pc s) (x_recs s) (x_running s) fl (x_budget s) (x_aborted s) (x_world s) (x_evs s).
Definition with_running (n : Z) (s : exec W) : exec W :=
  mkExec (x_pc s) (x_recs s) n (x_inFlight s) (x_budget s) (x_aborted s) (x_world s) (x_evs s).

(** What a node with record [r] sees of the run, and what it leaves behind. *)
Definition node_view (r : NodeRecord) (s : exec W) : nst W :=
  mkNst (x_world s) (x_evs s) r (x_aborted s) (x_recs s).
Definition write_back (i : string) (n : nst W) (s : exec W) : exec W :=
  mkExec (x_pc s) (upd i (fun _ => n_rec n) (x_recs s)) (x_running s) (x_inFlight s) (x_budget s)
    (x_aborted s) (n_world n) (n_evs n).

(** [emitProgress] from the loop itself. *)
Definition xemit (ev : Z -> WorkflowProgressEvent) (s : exec W) : exec W :=
  let '(w, t) := clock inp (x_world s) in
  mkExec (x_pc s) (x_recs s) (x_running s) (x_inFlight s) (x_budget s) (x_aborted s) w
    (if hasProgress inp then x_evs s ++ [ev t] else x_evs s).

Definition isPending (r : NodeRecord) : bool := bool_decide (status r = pending).
Definition isSettled (st : NodeStatus) (r : NodeRecord) : bool :=
  bool_decide (status r = settled st).

(** A terminally failed node not offered to the re-planner yet. *)
Definition replannable (r : NodeRecord) : bool := isSettled failed r && negb (replanOffered r).

Definition maxConcurrencyOf : option Z :=
  match maxConcurrency inp with
  | Some m => if 0 <? m then Some m else None
  | None => None
  end.

Definition initialBudget : Z :=
  match replanner inp, maxReplans inp with
  | Some _, Some m => if 0 <? m then m else 0
  | _, _ => 0
  end.

Definition hasReplanner : bool := match replanner inp with Some _ => true | None => false end.

Definition hasReplanWork (s : exec W) : bool :=
  hasReplanner && (0 <? x_budget s) && negb (x_aborted s) && existsb replannable (x_recs s).

(** Mark every pending node deferred with [why], emitting each. *)
Fixpoint deferPending (why : string) (todo : list string) (s : exec W) : exec W :=
  match todo with
  | [] => s
  | i :: todo' =>
      deferPending why todo'
        (xemit (node_deferred (runId inp) i why)
          (with_recs (upd i (set_status (settled deferred) (Some why)) (x_recs s)) s))
  end.

Definition pendingIds (rs : list NodeRecord) : list string :=
  map rid (List.filter isPending rs).

(** [firstBlockingDep]. *)
Definition statusName (st : NodeStatus) : string :=
  match st with done => "done" | deferred => "deferred" | failed => "failed" end.

Fixpoint firstBlockingDep (rs : list NodeRecord) (ds : list string) : option string :=
  match ds with
  | [] => None
  | d :: ds' =>
      match byId rs d with
      | Some dep =>
          match status dep with
          | settled failed => Some ("upstream '" ++ d ++ "' not done (failed)")%string
          | settled deferred => Some ("upstream '" ++ d ++ "' not done (deferred)")%string
          | _ => firstBlockingDep rs ds'
          end
      | None => firstBlockingDep rs ds'
      end
  end.

(** One pass of the blocking fixpoint over the records, in order. *)
Fixpoint blockPass (todo : list string) (s : exec W) (changed : bool) : exec W * bool :=
  match todo with
  | [] => (s, changed)
  | i :: todo' =>
      match byId (x_recs s) i with
      | Some r =>
          if isPending r then
            match firstBlockingDep (x_recs s) (deps r) with
            | Some why =>
                blockPass todo'
                  (xemit (node_deferred (runId inp) i why)
                    (with_recs (upd i (set_status (settled deferred) (Some why)) (x_recs s)) s))
                  true
            | None => blockPass todo' s changed
            end
          else blockPass todo' s changed
      | None => blockPass todo' s changed
      end
  end.

(** [while (changed)]: every changing pass settles a pending node, so as many
    passes as there are records, plus one, reach the fixpoint. *)
Fixpoint blockFix (fuel : nat) (s : exec W) : exec W :=
  match fuel with
  | O => s
  | S fuel =>
      let '(s', changed) := blockPass (ids (x_recs s)) s false in
      if changed then blockFix fuel s' else s'
  end.

Definition isReady (rs : list NodeRecord) (r : NodeRecord) : bool :=
  isPending r &&
  forallb (fun d => match byId rs d with
                    | Some dep => isSettled done dep
                    | None => false
                    end) (deps r).

Definition frontier (rs : list NodeRecord) : list string :=
  map rid (List.filter (isReady rs) rs).

(** [runNode] is called, and runs up to its first [await]; its promise joins
    [inFlight]. *)
Definition dispatchOne (i : string) (s : exec W) : exec W :=
  match byId (x_recs s) i with
  | Some r =>
      let nm := advance (flight inp) (node_view (set_status running (reason r) r) s) in
      let s1 := write_back i nm.1 (with_running (x_running s + 1) s) in
      with_flights (x_inFlight s1 ++ [(i, nm.2)]) s1
  | None => s
  end.

(** Dispatch as many frontier nodes as concurrency allows. *)
Fixpoint dispatch (todo : list string) (s : exec W) : exec W :=
  match todo with
  | [] => s
  | i :: todo' =>
      if match maxConcurrencyOf with Some m => m <=? x_running s | None => false end then s
      else dispatch todo' (dispatchOne i s)
  end.

(** The manifest-shaped view of the records. *)
Definition manifestEntry (r : NodeRecord) : NodeManifestEntry :=
  mkEntry (rid r)
    (if isPending r then settled deferred else status r)
    (if isPending r then Some "not scheduled" else reason r)
    (output r) (deps r) (attempts r).

Definition snapshotManifest (rs : list NodeRecord) : list NodeManifestEntry :=
  map manifestEntry rs.

Definition replanContext (r : NodeRecord) (rs : list NodeRecord) : ReplanContext :=
  {| rc_failed := mkEntry (rid r) (settled failed) (reason r) (output r) (deps r) (attempts r);
     rc_spec := spec r;
     rc_inputs := resolveInputs rs (deps r);
     rc_manifest := snapshotManifest rs |}.

(** The re-planner call, made when the failed node is offered. *)
Definition callReplanner (i : string) (rs : list NodeRecord) (w : W)
    : W * Reply (option (list DagNodeSpec)) :=
  match replanner inp, byId rs i with
  | Some rp, Some r => rp w (replanContext r rs)
  | _, _ => (w, NeverSettles)
  end.

(** What runs from the loop head to the next [await] (or the exit). *)
Definition loop_body (s : exec W) : exec W :=
  if negb (existsb isPending (x_recs s) || hasReplanWork s) then with_pc Drain s
  else if x_aborted s then
    with_pc Drain (deferPending "cancelled" (pendingIds (x_recs s)) s)
  else
    match (if hasReplanner && (0 <? x_budget s) then find_first replannable (x_recs s) else None) with
    | Some r =>
        let s1 := with_recs (upd (rid r) (set_offered true) (x_recs s)) s in
        let '(w, rep) := callReplanner (rid r) (x_recs s1) (x_world s1) in
        with_pc (AwaitReplan (rid r) rep) (with_world w s1)
    | None =>
        let s1 := blockFix (S (length (x_recs s))) s in
        let ready := frontier (x_recs s1) in
        if (length ready =? 0)%nat then
          if (length (x_inFlight s1) =? 0)%nat then
            with_pc Drain (deferPending "unresolved dependency" (pendingIds (x_recs s1)) s1)
          else with_pc (AwaitRace false) s1
        else
          let s2 := dispatch ready s1 in
          if (0 <? length (x_inFlight s2))%nat then with_pc (AwaitRace false) s2
          else with_pc AtLoop s2
    end.

Definition annotate (i note : string) (s : exec W) : exec W :=
  with_recs (upd i (fun r => set_status (status r)
    (Some (default "failed" (reason r) ++ note)%string) r) (x_recs s)) s.

(** What runs once the re-planner has replied for the failed node [i]. *)
Definition afterReplan (i : string) (s : exec W) (rep : Reply (option (list DagNodeSpec)))
    : exec W :=
  match byId (x_recs s) i with
  | None => with_pc AtLoop s
  | Some r =>
      match rep with
      | NeverSettles => s
      | Rejected msg => with_pc AtLoop (annotate i (" (replan error: " ++ msg ++ ")")%string s)
      | Fulfilled None => with_pc AtLoop s
      | Fulfilled (Some returned) =>
          match validateReplan r returned (x_recs s) with
          | Some why => with_pc AtLoop (annotate i (" (replan rejected: " ++ why ++ ")")%string s)
          | None =>
              let '(rs', childCount) := spliceReplan i returned (x_recs s) in
              with_pc AtLoop
                (xemit (node_replanned (runId inp) i childCount)
                  (with_budget (x_budget s - 1) (with_recs rs' s)))
          end
      end
  end.

(** The [finally] of the [k]-th promise in flight, and the race it wins. *)
Definition land (k : nat) (s : exec W) : exec W :=
  with_pc (match x_pc s with AwaitRace _ => AwaitRace true | p => p end)
    (with_running (x_running s - 1) (with_flights (delete k (x_inFlight s)) s)).

(** The [k]-th node in flight resumes, and runs up to its next [await] or to
    its end; it cannot when what it awaits never settles. *)
Definition resume (k : nat) (s : exec W) : option (exec W) :=
  match x_inFlight s !! k with
  | Some (i, NAwait _ m) =>
      match byId (x_recs s) i with
      | Some r =>
          let nm := advance m (node_view r s) in
          let s1 := write_back i nm.1 s in
          Some (match nm.2 with
                | NRet _ | NRej _ => land k s1
                | m' => with_flights (<[k := (i, m')]> (x_inFlight s1)) s1
                end)
      | None => None
      end
  | _ => None
  end.

Definition abort (s : exec W) : exec W :=
  mkExec (x_pc s) (x_recs s) (x_running s) (x_inFlight s) (x_budget s) true (x_world s) (x_evs s).

(** The steps of a run.  A cancel signal aborts at most once. *)
Inductive step : exec W -> exec W -> Prop :=
| step_loop s : x_pc s = AtLoop -> step s (loop_body s)
| step_node s k s' : resume k s = Some s' -> step s s'
| step_resume s : x_pc s = AwaitRace true -> step s (with_pc AtLoop s)
| step_replan s i rep :
    x_pc s = AwaitReplan i rep -> rep <> NeverSettles -> step s (afterReplan i s rep)
| step_drained s : x_pc s = Drain -> x_inFlight s = [] -> step s (with_pc Finished s)
| step_abort s : hasSignal inp = true -> x_aborted s = false -> step s (abort s).

(** A schedule: which step to take next, so that runs can be computed. *)
Inductive choice := CLoop | CNode (k : nat) | CResume | CReplan | CDrained | CAbort.

Definition run1 (c : choice) (s : exec W) : option (exec W) :=
  match c with
  | CLoop => match x_pc s with AtLoop => Some (loop_body s) | _ => None end
  | CNode k => resume k s
  | CResume => match x_pc s with AwaitRace true => Some (with_pc AtLoop s) | _ => None end
  | CReplan =>
      match x_pc s with
      | AwaitReplan i rep =>
          match rep with NeverSettles => None | _ => Some (afterReplan i s rep) end
      | _ => None
      end
  | CDrained =>
      match x_pc s, x_inFlight s with
      | Drain, [] => Some (with_pc Finished s)
      | _, _ => None
      end
  | CAbort => if hasSignal inp && negb (x_aborted s) then Some (abort s) else None
  end.

Fixpoint run (cs : list choice) (s : exec W) : option (exec W) :=
  match cs with
  | [] => Some s
  | c :: cs' => match run1 c s with Some s' => run cs' s' | None => None end
  end.

Lemma run1_step c s s' : run1 c s = Some s' -> step s s'.
Proof.
  destruct c; simpl; intros H.
  - destruct (x_pc s) eqn:Hpc; simplify_eq. by apply step_loop.
  - by eapply step_node.
  - destruct (x_pc s) as [| |[]| |] eqn:Hpc; simplify_eq. by apply step_resume.
  - destruct (x_pc s) as [|i rep| | |] eqn:Hpc; try done.
    destruct rep; simplify_eq; by eapply step_replan.
  - destruct (x_pc s) eqn:Hpc; try done. destruct (x_inFlight s) eqn:Hf; simplify_eq.
    by apply step_drained.
  - destruct (hasSignal inp) eqn:Hs, (x_aborted s) eqn:Ha; simplify_eq/=. by apply step_abort.
Qed.

Lemma run_steps cs s s' : run cs s = Some s' -> rtc step s s'.
Proof.
  revert s. induction cs as [|c cs IH]; simpl; intros s H; [by simplify_eq|].
  destruct (run1 c s) eqn:E; [|done]. eapply rtc_l; [by eapply run1_step|auto].
Qed.

(** * runDag *)

Definition usesSampling : bool :=
  existsb (fun n => 1 <? default 1 (samples n)) (nodes inp).

Definition hasVerifier : bool := match verifier inp with Some _ => true | None => false end.

(** Everything [runDag] does before [execute]: guards, structural validation,
    the governance hash, the first progress event. *)
Definition startDag `{Hashing} (aborted : bool) (w : W) : result (exec W * string) :=
  _ ← throw_if (is_blank (adrEco inp)) (DagSchedulerError
        ("adrEco is mandatory (cargo-cult guard, ADR-ECO-083). " ++
         "Pass the governing ADR identifier on the run.")%string);
  _ ← throw_if (is_blank (runId inp)) (DagSchedulerError "runId is mandatory");
  _ ← throw_if (length (nodes inp) =? 0)%nat
        (DagSchedulerError "DAG must have at least one node");
  rs ← buildRecords (nodes inp);
  _ ← assertNoMissingDeps rs;
  _ ← assertNoMapOverMisuse rs;
  _ ← assertAcyclic rs;
  _ ← throw_if (usesSampling && negb hasVerifier) (DagSchedulerError
        ("a node sets samples > 1 but no verifier was provided " ++
         "(best-of-N requires a Verifier, fail-closed per ADR-ECO-068)")%string);
  h ← computeRootHash (adrEco inp) rs;
  Ok (xemit (workflow_started (runId inp) (Z.of_nat (length (nodes inp))))
        (mkExec AtLoop rs 0 [] initialBudget aborted w []), h).

Definition entryIs (st : NodeStatus) (e : NodeManifestEntry) : bool :=
  bool_decide (e_status e = settled st).

(** What [runDag] returns once [execute] has, and its last progress event. *)
Definition finishDag (h : string) (s : exec W) : DagRunManifest * exec W :=
  let es := map manifestEntry (x_recs s) in
  let sm := mkSummary (Z.of_nat (length es)) (count_if (entryIs done) es)
              (count_if (entryIs deferred) es) (count_if (entryIs failed) es) in
  let ws := if 1 <=? n_done sm then DONE else FAILED in
  (mkManifest ws sm es h,
   xemit (workflow_settled (runId inp)
            (if hasSignal inp && x_aborted s then CANCELLED else ws) sm) s).
End Execute.
