(* ===== verification/DagExecFacts.v ===== *)
(** Invariant of the DAG scheduler's execution: every step of [DagExec]
    preserves it. *)

From S2P Require Import Prelude JsNum JsValue DagTypes DagGraph Canonical DagReplan DagNode.
From S2P Require Import DagExec.

(** * The record store *)

Definition stat (rs : list NodeRecord) (i : string) : option RecStatus := status <$> byId rs i.
Definition is_done (rs : list NodeRecord) (i : string) : Prop := stat rs i = Some (settled done).

(** Execution of the node has begun (it is in flight, or it ran to an end). *)
Definition started (st : RecStatus) : Prop :=
  st = running \/ st = settled done \/ st = settled failed.

(** Nothing starts before all its dependencies are done. *)
Definition deps_ok (rs : list NodeRecord) : Prop :=
  forall r d, r ∈ rs -> started (status r) -> d ∈ deps r -> is_done rs d.

Lemma byId_is_Some rs i : is_Some (byId rs i) <-> i ∈ ids rs.
Proof.
  destruct (byId rs i) eqn:E.
  - split; [intros _|eauto]. apply byId_Some in E as [Hr <-].
    by apply list_elem_of_In, in_map, list_elem_of_In.
  - apply byId_None in E. rewrite is_Some_alt. done.
Qed.

Lemma byId_upd i f rs j :
  (forall r, byId rs i = Some r -> rid (f r) = rid r) -> NoDup (ids rs) ->
  byId (upd i f rs) j = if decide (i = j) then f <$> byId rs j else byId rs j.
Proof.
  unfold byId, upd, ids. induction rs as [|r rs IH]; simpl; intros Hf Hnd; [by case_decide|].
  apply NoDup_cons in Hnd as [Hr Hnd].
  destruct (String.eqb_spec (rid r) i) as [Hi|Hi].
  - rewrite (Hf r eq_refl). destruct (String.eqb_spec (rid r) j) as [Hj|Hj].
    + by rewrite decide_True by congruence.
    + rewrite decide_False by congruence. fold (upd i f rs). rewrite upd_not_in; [done|].
      by rewrite <- Hi.
  - rewrite IH by done.
    destruct (String.eqb_spec (rid r) j) as [Hj|Hj]; [|done].
    by rewrite decide_False by congruence.
Qed.

Lemma upd_elem i f rs r' :
  r' ∈ upd i f rs -> (r' ∈ rs /\ rid r' <> i) \/ exists r, r ∈ rs /\ rid r = i /\ r' = f r.
Proof.
  unfold upd. intros H. apply list_elem_of_In, in_map_iff in H as (r & <- & Hr).
  apply list_elem_of_In in Hr. destruct (String.eqb_spec (rid r) i); eauto.
Qed.

Lemma graph_of_upd i f rs :
  (forall r, r ∈ rs -> rid r = i -> rid (f r) = rid r /\ deps (f r) = deps r) ->
  graph_of (upd i f rs) = graph_of rs.
Proof.
  unfold graph_of, upd. induction rs as [|r rs IH]; simpl; intros Hf; [done|].
  rewrite IH by (intros r' ?; apply Hf; by right). f_equal.
  destruct (String.eqb_spec (rid r) i) as [Hi|]; [|done].
  destruct (Hf r ltac:(left) Hi) as [-> ->]. done.
Qed.

Lemma ids_upd i f rs :
  (forall r, r ∈ rs -> rid r = i -> rid (f r) = rid r) -> ids (upd i f rs) = ids rs.
Proof.
  unfold ids, upd. induction rs as [|r rs IH]; simpl; intros Hf; [done|].
  rewrite IH by (intros r' ?; apply Hf; by right). f_equal.
  destruct (String.eqb_spec (rid r) i) as [Hi|]; [|done]. apply Hf; [left|done].
Qed.

(** An update of the record [i] that keeps its identity and, provided [ok],
    does not change a done record, and starts it only if its dependencies are
    done. *)
Record safe_upd (ok : Prop) (rs : list NodeRecord) (i : string) (f : NodeRecord -> NodeRecord)
    : Prop := {
  su_rid : forall r, byId rs i = Some r -> rid (f r) = rid r;
  su_deps : forall r, byId rs i = Some r -> deps (f r) = deps r;
  su_done : ok -> forall r, byId rs i = Some r -> status r = settled done -> f r = r;
  su_start : ok -> forall r d, byId rs i = Some r -> started (status (f r)) -> d ∈ deps r ->
    started (status r) \/ is_done rs d
}.

Section SafeUpd.
Context (ok : Prop) (rs : list NodeRecord) (i : string) (f : NodeRecord -> NodeRecord).
Context (Hnd : NoDup (ids rs)) (Hs : safe_upd ok rs i f).

Lemma at_id r : r ∈ rs -> rid r = i -> byId rs i = Some r.
Proof. intros Hr <-. by apply byId_unique. Qed.

Lemma safe_upd_graph : graph_of (upd i f rs) = graph_of rs.
Proof.
  apply graph_of_upd. intros r Hr Hi. pose proof (at_id r Hr Hi).
  split; [by apply (su_rid _ _ _ _ Hs)|by apply (su_deps _ _ _ _ Hs)].
Qed.

Lemma safe_upd_ids : ids (upd i f rs) = ids rs.
Proof. rewrite <- !graph_of_keys. by rewrite safe_upd_graph. Qed.

Lemma safe_upd_byId j :
  byId (upd i f rs) j = if decide (i = j) then f <$> byId rs j else byId rs j.
Proof. apply byId_upd; [|done]. apply (su_rid _ _ _ _ Hs). Qed.

Lemma safe_upd_done j r : ok -> byId rs j = Some r -> status r = settled done ->
  byId (upd i f rs) j = Some r.
Proof.
  intros Hok Hj Hr. rewrite safe_upd_byId. case_decide; [|done]. subst j.
  rewrite Hj. simpl. f_equal. by apply (su_done _ _ _ _ Hs).
Qed.

Lemma safe_upd_is_done j : ok -> is_done rs j -> is_done (upd i f rs) j.
Proof.
  unfold is_done, stat. rewrite !fmap_Some. intros Hok (r & Hr & Hst). exists r.
  split; [|done]. by apply safe_upd_done.
Qed.

Lemma safe_upd_deps_ok : ok -> deps_ok rs -> deps_ok (upd i f rs).
Proof.
  intros Hok Hd r d Hr Hst Hin. apply safe_upd_is_done; [done|].
  apply upd_elem in Hr as [[Hr _]|(r0 & Hr & Hi & ->)]; [by eapply Hd|].
  pose proof (at_id r0 Hr Hi) as Hby. rewrite (su_deps _ _ _ _ Hs r0 Hby) in Hin.
  destruct (su_start _ _ _ _ Hs Hok r0 d Hby Hst Hin) as [Hst0|]; [|done]. by eapply Hd.
Qed.
End SafeUpd.

(** * The invariant *)

(** Ids of the nodes in flight that have their record still to settle. *)
Definition live_ids {W} (fl : list (string * NodeM W unit)) : list string :=
  map fst (List.filter (fun f => live_flight f.2) fl).

Lemma live_ids_app {W} (l1 l2 : list (string * NodeM W unit)) :
  live_ids (l1 ++ l2) = live_ids l1 ++ live_ids l2.
Proof. unfold live_ids. by rewrite List.filter_app, map_app. Qed.

Lemma live_ids_one {W} (f : string * NodeM W unit) :
  live_ids [f] = if live_flight f.2 then [f.1] else [].
Proof. unfold live_ids. simpl. by destruct (live_flight f.2). Qed.

Lemma live_ids_elem {W} (fl : list (string * NodeM W unit)) i :
  i ∈ live_ids fl <-> exists m, (i, m) ∈ fl /\ live_flight m = true.
Proof.
  unfold live_ids. rewrite list_elem_of_In, in_map_iff. split.
  - intros ([j m] & <- & H). apply filter_In in H as [Hin Hl]. exists m.
    split; [by apply list_elem_of_In|done].
  - intros (m & Hin & Hl). exists (i, m). split; [done|]. apply filter_In.
    split; [by apply list_elem_of_In|done].
Qed.

Section Invariant.
Context {W : Type} (inp : DagRunInput W).

(** Records, flight bookkeeping and budget; with a journal that records, a node
    starts after its dependencies and has one live flight. *)
Record core (s : exec W) : Prop := {
  c_wf : wf_graph (graph_of (x_recs s));
  c_count : x_running s = Z.of_nat (length (x_inFlight s));
  c_cap : forall m, maxConcurrencyOf inp = Some m -> x_running s <= m;
  c_flight : forall i m, (i, m) ∈ x_inFlight s ->
    exists r, byId (x_recs s) i = Some r /\ parked inp r m;
  c_run : forall i, stat (x_recs s) i = Some running -> i ∈ live_ids (x_inFlight s);
  c_deps : reliable inp -> deps_ok (x_recs s);
  c_nodup : reliable inp -> NoDup (live_ids (x_inFlight s));
  c_budget : 0 <= x_budget s
}.

(** What each program point knows. *)
Definition pc_ok (s : exec W) : Prop :=
  match x_pc s with
  | AtLoop | Drain => True
  | AwaitReplan i _ => 0 < x_budget s /\ exists r, byId (x_recs s) i = Some r /\
      (reliable inp -> status r = settled failed)
  | AwaitRace woken => woken = false -> x_inFlight s <> []
  | Finished => x_inFlight s = []
  end.

Definition inv (s : exec W) : Prop := core s /\ pc_ok s.

(** Done records are permanent: same record, before and after. *)
Definition done_kept (rs rs' : list NodeRecord) : Prop :=
  reliable inp ->
  forall j r, byId rs j = Some r -> status r = settled done -> byId rs' j = Some r.

Lemma done_kept_refl rs : done_kept rs rs.
Proof. intros _ j r Hj _. exact Hj. Qed.
Lemma done_kept_trans rs1 rs2 rs3 : done_kept rs1 rs2 -> done_kept rs2 rs3 -> done_kept rs1 rs3.
Proof. intros H1 H2 Hok j r Hj Hr. apply H2; [done|by apply H1|done]. Qed.
Lemma done_kept_upd rs i f :
  NoDup (ids rs) -> safe_upd (reliable inp) rs i f -> done_kept rs (upd i f rs).
Proof. intros Hnd Hu Hok j r. by apply (safe_upd_done (reliable inp)). Qed.

Lemma core_ids s : core s -> NoDup (ids (x_recs s)).
Proof. intros H. rewrite <- graph_of_keys. apply (c_wf s H). Qed.

(** The parts of the state [core] speaks of. *)
Lemma core_same s s' :
  x_recs s' = x_recs s -> x_running s' = x_running s -> x_inFlight s' = x_inFlight s ->
  x_budget s' = x_budget s -> core s -> core s'.
Proof. intros Hr Hn Hi Hb []. split; rewrite ?Hr, ?Hn, ?Hi, ?Hb; done. Qed.

Lemma xemit_recs ev s : x_recs (xemit inp ev s) = x_recs s.
Proof. unfold xemit. by destruct (clock _ _). Qed.
Lemma xemit_running ev s : x_running (xemit inp ev s) = x_running s.
Proof. unfold xemit. by destruct (clock _ _). Qed.
Lemma xemit_inFlight ev s : x_inFlight (xemit inp ev s) = x_inFlight s.
Proof. unfold xemit. by destruct (clock _ _). Qed.
Lemma xemit_budget ev s : x_budget (xemit inp ev s) = x_budget s.
Proof. unfold xemit. by destruct (clock _ _). Qed.
Lemma xemit_pc ev s : x_pc (xemit inp ev s) = x_pc s.
Proof. unfold xemit. by destruct (clock _ _). Qed.
Lemma xemit_aborted ev s : x_aborted (xemit inp ev s) = x_aborted s.
Proof. unfold xemit. by destruct (clock _ _). Qed.
Hint Rewrite xemit_recs xemit_running xemit_inFlight xemit_budget xemit_pc xemit_aborted : js.

Lemma core_xemit ev s : core s -> core (xemit inp ev s).
Proof. intros H. eapply core_same; [..|exact H]; by autorewrite with js. Qed.

Lemma core_with_pc p s : core s -> core (with_pc p s).
Proof. intros H. eapply core_same; [..|exact H]; done. Qed.

Lemma core_with_world w s : core s -> core (with_world w s).
Proof. intros H. eapply core_same; [..|exact H]; done. Qed.

(** A safe update of a record that no live flight has. *)
Lemma core_upd i f s :
  core s -> safe_upd (reliable inp) (x_recs s) i f ->
  (forall r, byId (x_recs s) i = Some r -> status (f r) = running -> status r = running) ->
  (reliable inp -> forall r, byId (x_recs s) i = Some r -> status r = running -> f r = r) ->
  core (with_recs (upd i f (x_recs s)) s).
Proof.
  intros Hc Hu Hrun Hlive. pose proof (core_ids s Hc) as Hnd. destruct Hc. split; simpl; try done.
  - by rewrite (safe_upd_graph (reliable inp)).
  - intros j m Hj. destruct (c_flight0 j m Hj) as (r & Hr & Hm).
    rewrite (safe_upd_byId (reliable inp)) by done. rewrite Hr. case_decide as Hij; [|by exists r].
    subst j. exists (f r). split; [done|]. eapply parked_other; [done|]. intros Hok Hl.
    apply Hlive; [done..|]. by eapply parked_busy.
  - intros j. unfold stat. rewrite (safe_upd_byId (reliable inp)) by done.
    case_decide as Heq; [|apply c_run0]. subst j. intros H. apply c_run0. unfold stat.
    destruct (byId (x_recs s) i) as [r|] eqn:E; [|done]. simpl in *. injection H as H.
    by rewrite (Hrun r).
  - intros Hok. apply (safe_upd_deps_ok (reliable inp)); auto.
Qed.

Lemma safe_settle_pending rs i st why :
  (exists r, byId rs i = Some r /\ status r = pending) -> st = settled deferred ->
  safe_upd (reliable inp) rs i (set_status st why).
Proof.
  intros (r & Hr & Hp) ->. split; try done.
  - intros _ r' Hr' Hd. rewrite Hr in Hr'. injection Hr' as <-. congruence.
  - intros _ r' d _ [?|[?|?]]; done.
Qed.

(** An update of a failed record that leaves its status alone. *)
Lemma safe_note rs i f :
  (forall r, rid (f r) = rid r /\ deps (f r) = deps r /\ status (f r) = status r) ->
  (reliable inp -> forall r, byId rs i = Some r -> status r = settled failed) ->
  safe_upd (reliable inp) rs i f.
Proof.
  intros Hf Hfail. split.
  - intros r _. apply Hf.
  - intros r _. apply Hf.
  - intros Hok r Hr Hd. specialize (Hfail Hok r Hr). congruence.
  - intros Hok r d Hr Hst Hd. left. by rewrite <- (proj2 (proj2 (Hf r))).
Qed.
End Invariant.
#[export] Hint Rewrite @xemit_recs @xemit_running @xemit_inFlight @xemit_budget @xemit_pc
  @xemit_aborted : js.
#[export] Hint Resolve core_xemit core_with_pc core_with_world done_kept_refl : js.

(** * The loop's passes *)
Section Passes.
Context {W : Type} (inp : DagRunInput W).

(** Steps of the loop body that touch records and the progress stream only. *)
Record calm (s s' : exec W) : Prop := {
  q_core : core inp s';
  q_done : done_kept inp (x_recs s) (x_recs s');
  q_flight : x_inFlight s' = x_inFlight s;
  q_budget : x_budget s' = x_budget s;
  q_pc : x_pc s' = x_pc s;
  q_aborted : x_aborted s' = x_aborted s;
  q_graph : graph_of (x_recs s') = graph_of (x_recs s)
}.

Lemma calm_refl s : core inp s -> calm s s.
Proof. intros H. split; auto with js. Qed.

Lemma calm_trans s1 s2 s3 : calm s1 s2 -> calm s2 s3 -> calm s1 s3.
Proof. intros [] []. split; try congruence; eauto using done_kept_trans. Qed.

Lemma calm_upd i f s :
  core inp s -> safe_upd (reliable inp) (x_recs s) i f ->
  (forall r, byId (x_recs s) i = Some r -> status (f r) = running -> status r = running) ->
  (reliable inp -> forall r, byId (x_recs s) i = Some r -> status r = running -> f r = r) ->
  calm s (with_recs (upd i f (x_recs s)) s).
Proof.
  intros Hc Hu Hr Hl. pose proof (core_ids inp s Hc). split; try done.
  - by apply core_upd.
  - by apply done_kept_upd.
  - by apply (safe_upd_graph (reliable inp)).
Qed.

Lemma calm_xemit ev s s' : calm s s' -> calm s (xemit inp ev s').
Proof. intros []. split; autorewrite with js; auto with js. Qed.

Definition deferOne (i why : string) (s : exec W) : exec W :=
  xemit inp (node_deferred (runId inp) i why)
    (with_recs (upd i (set_status (settled deferred) (Some why)) (x_recs s)) s).

Lemma deferOne_calm i why s :
  core inp s -> stat (x_recs s) i = Some pending -> calm s (deferOne i why s).
Proof.
  intros Hc Hp. apply fmap_Some in Hp as (r & Hr & Hp). apply calm_xemit, calm_upd; [done| |done|].
  - apply safe_settle_pending; [|done]. by exists r.
  - intros _ r' Hr' Hrun. rewrite Hr in Hr'. injection Hr' as <-. congruence.
Qed.

Lemma deferOne_stat i why s j :
  core inp s -> stat (x_recs s) i = Some pending ->
  stat (x_recs (deferOne i why s)) j =
    if decide (i = j) then Some (settled deferred) else stat (x_recs s) j.
Proof.
  intros Hc Hp. unfold deferOne. autorewrite with js. simpl. unfold stat.
  apply fmap_Some in Hp as (r & Hr & Hp). rewrite byId_upd; [|done|by eapply core_ids].
  case_decide as Hij; [|done]. subst j. by rewrite Hr.
Qed.

Lemma deferPending_calm why todo s :
  core inp s -> NoDup todo -> (forall i, i ∈ todo -> stat (x_recs s) i = Some pending) ->
  calm s (deferPending inp why todo s).
Proof.
  revert s. induction todo as [|i todo IH]; intros s Hc Hnd Hp; simpl; [by apply calm_refl|].
  apply NoDup_cons in Hnd as [Hi Hnd]. fold (deferOne i why s).
  assert (Hone : calm s (deferOne i why s)) by (apply deferOne_calm; [done|apply Hp; left]).
  eapply calm_trans; [done|]. apply IH; [apply Hone|done|].
  intros j Hj. rewrite deferOne_stat; [|done|apply Hp; left].
  rewrite decide_False by set_solver. apply Hp. by right.
Qed.

(** After deferring them all, nothing is pending. *)
Lemma deferPending_stat why todo s j :
  core inp s -> NoDup todo -> (forall i, i ∈ todo -> stat (x_recs s) i = Some pending) ->
  stat (x_recs (deferPending inp why todo s)) j =
    if decide (j ∈ todo) then Some (settled deferred) else stat (x_recs s) j.
Proof.
  revert s. induction todo as [|i todo IH]; intros s Hc Hnd Hp; simpl; [done|].
  apply NoDup_cons in Hnd as [Hi Hnd]. fold (deferOne i why s).
  assert (Hpi : stat (x_recs s) i = Some pending) by (apply Hp; left).
  assert (Hst : forall k, stat (x_recs (deferOne i why s)) k =
      if decide (i = k) then Some (settled deferred) else stat (x_recs s) k)
    by (intros k; by apply deferOne_stat).
  rewrite IH; [|by apply deferOne_calm|done|].
  - rewrite Hst. destruct (decide (i = j)) as [->|Hne].
    + rewrite (decide_True (P := j ∈ j :: todo)) by left. by case_decide.
    + destruct (decide (j ∈ todo)) as [Hj|Hj].
      * by rewrite decide_True by (by right).
      * by rewrite decide_False by set_solver.
  - intros k Hk. rewrite Hst. rewrite decide_False by set_solver. apply Hp. by right.
Qed.

Lemma pendingIds_ok rs : NoDup (ids rs) ->
  NoDup (pendingIds rs) /\ forall i, i ∈ pendingIds rs <-> stat rs i = Some pending.
Proof.
  intros Hnd. unfold pendingIds. split.
  - unfold ids in Hnd. induction rs as [|r rs IH]; simpl in *; [constructor|].
    apply NoDup_cons in Hnd as [Hr Hnd]. destruct (isPending r); [|by apply IH].
    simpl. apply NoDup_cons. split; [|by apply IH]. intros Hin. apply Hr.
    apply list_elem_of_In, in_map_iff in Hin as (r' & <- & Hr').
    apply filter_In in Hr' as [Hr' _]. by apply list_elem_of_In, in_map.
  - intros i. unfold stat. rewrite fmap_Some. split.
    + intros Hin. apply list_elem_of_In, in_map_iff in Hin as (r & <- & Hr).
      apply filter_In in Hr as [Hr Hp]. apply bool_decide_eq_true in Hp.
      exists r. split; [|done]. apply byId_unique; [done|by apply list_elem_of_In].
    + intros (r & Hr & Hp). apply byId_Some in Hr as [Hr <-].
      apply list_elem_of_In, in_map, filter_In. split; [by apply list_elem_of_In|].
      by apply bool_decide_eq_true.
Qed.

Definition cancelAll (why : string) (s : exec W) : exec W :=
  deferPending inp why (pendingIds (x_recs s)) s.

Lemma cancelAll_calm why s : core inp s -> calm s (cancelAll why s).
Proof.
  intros Hc. destruct (pendingIds_ok (x_recs s) (core_ids inp s Hc)) as [Hnd Hp].
  apply deferPending_calm; [done|done|]. intros i. apply Hp.
Qed.

Lemma cancelAll_none why s i : core inp s -> stat (x_recs (cancelAll why s)) i <> Some pending.
Proof.
  intros Hc. destruct (pendingIds_ok (x_recs s) (core_ids inp s Hc)) as [Hnd Hp].
  unfold cancelAll. rewrite deferPending_stat; [|done|done|intros j; apply Hp].
  case_decide as Hi; [done|]. by rewrite <- Hp.
Qed.

(** ** The blocking fixpoint *)

Lemma blockPass_calm todo s c :
  core inp s -> calm s (blockPass inp todo s c).1.
Proof.
  revert s c. induction todo as [|i todo IH]; intros s c Hc; simpl; [by apply calm_refl|].
  destruct (byId (x_recs s) i) as [r|] eqn:E; [|by apply IH].
  destruct (isPending r) eqn:Ep; [|by apply IH].
  destruct (firstBlockingDep (x_recs s) (deps r)) as [why|]; [|by apply IH].
  fold (deferOne i why s). apply bool_decide_eq_true in Ep.
  assert (Hone : calm s (deferOne i why s)).
  { apply deferOne_calm; [done|]. unfold stat. rewrite E. simpl. by rewrite Ep. }
  eapply calm_trans; [done|]. apply IH. apply Hone.
Qed.

Lemma blockFix_calm fuel s : core inp s -> calm s (blockFix inp fuel s).
Proof.
  revert s. induction fuel as [|fuel IH]; intros s Hc; simpl; [by apply calm_refl|].
  pose proof (blockPass_calm (ids (x_recs s)) s false Hc) as Hp.
  destruct (blockPass _ _ _ _) as [s' changed]. simpl in Hp.
  destruct changed; [|done]. eapply calm_trans; [done|]. apply IH. apply Hp.
Qed.
End Passes.

(** ** The fixpoint is reached *)
Section Fixpoint_.
Context {W : Type} (inp : DagRunInput W).

Definition nPending (rs : list NodeRecord) : nat := length (pendingIds rs).

Lemma nPending_bound rs : (nPending rs <= length rs)%nat.
Proof.
  unfold nPending, pendingIds. rewrite length_map. induction rs as [|r rs IH]; simpl; [lia|].
  destruct (isPending r); simpl; lia.
Qed.

Lemma nPending_lt rs rs' i :
  NoDup (ids rs) -> NoDup (ids rs') -> stat rs i = Some pending ->
  stat rs' i <> Some pending ->
  (forall j, stat rs' j = Some pending -> stat rs j = Some pending) ->
  (nPending rs' < nPending rs)%nat.
Proof.
  intros Hnd Hnd' Hi Hi' Hsub.
  destruct (pendingIds_ok rs Hnd) as [Hn Hp], (pendingIds_ok rs' Hnd') as [Hn' Hp'].
  enough (length (i :: pendingIds rs') <= length (pendingIds rs))%nat by (simpl in *; done).
  apply submseteq_length, NoDup_submseteq.
  - constructor; [|done]. by rewrite Hp'.
  - intros j Hj. rewrite Hp. apply elem_of_cons in Hj as [->|Hj]; [done|].
    by apply Hsub, Hp'.
Qed.

Lemma blockPass_shrinks todo s c s' :
  core inp s -> blockPass inp todo s c = (s', true) ->
  (c = true -> (nPending (x_recs s') <= nPending (x_recs s))%nat) /\
  (c = false -> (nPending (x_recs s') < nPending (x_recs s))%nat).
Proof.
  revert s c. induction todo as [|i todo IH]; intros s c Hc H; simpl in H.
  { injection H as <- ->. done. }
  destruct (byId (x_recs s) i) as [r|] eqn:E; [|by apply IH].
  destruct (isPending r) eqn:Ep; [|by apply IH].
  destruct (firstBlockingDep (x_recs s) (deps r)) as [why|]; [|by apply IH].
  fold (deferOne inp i why s) in H. apply bool_decide_eq_true in Ep.
  assert (Hpi : stat (x_recs s) i = Some pending) by (unfold stat; rewrite E; simpl; by rewrite Ep).
  pose proof (deferOne_calm inp i why s Hc Hpi) as Hone.
  assert (Hlt : (nPending (x_recs (deferOne inp i why s)) < nPending (x_recs s))%nat).
  { apply (nPending_lt _ _ i); [by eapply core_ids| |done| |].
    - apply (core_ids inp). apply Hone.
    - rewrite deferOne_stat by done. by rewrite decide_True by done.
    - intros j. rewrite deferOne_stat by done. by case_decide. }
  apply IH in H as [H _]; [|apply Hone]. specialize (H eq_refl). lia.
Qed.

(** A pending record some dependency of which failed or was deferred. *)
Definition blocked (rs : list NodeRecord) (i : string) : Prop :=
  exists r, byId rs i = Some r /\ status r = pending /\ firstBlockingDep rs (deps r) <> None.

Lemma blockPass_unchanged todo s c s' :
  blockPass inp todo s c = (s', false) ->
  s' = s /\ c = false /\ forall i, i ∈ todo -> ~ blocked (x_recs s) i.
Proof.
  assert (Hmono : forall todo s, (blockPass inp todo s true).2 = true).
  { clear. induction todo as [|i todo IH]; intros s; simpl; [done|].
    destruct (byId _ i) as [r|]; [|done]. destruct (isPending r); [|done].
    by destruct (firstBlockingDep _ _). }
  revert s c. induction todo as [|i todo IH]; intros s c H; simpl in H.
  { injection H as <- ->. split_and!; [done|done|set_solver]. }
  assert (Hskip : ~ blocked (x_recs s) i -> blockPass inp todo s c = (s', false) ->
      s' = s /\ c = false /\ forall j, j ∈ i :: todo -> ~ blocked (x_recs s) j).
  { intros Hi Hrest. apply IH in Hrest as (? & ? & Hj). split_and!; [done|done|].
    intros j [->|Hin]%elem_of_cons; [done|by apply Hj]. }
  destruct (byId (x_recs s) i) as [r|] eqn:E;
    [|apply Hskip; [intros (r & Hr & _); congruence|done]].
  destruct (isPending r) eqn:Ep.
  2:{ apply Hskip; [|done]. intros (r' & Hr & Hp & _). rewrite E in Hr. injection Hr as ->.
      apply bool_decide_eq_false in Ep. done. }
  destruct (firstBlockingDep (x_recs s) (deps r)) as [why|] eqn:Ef.
  - specialize (Hmono todo (deferOne inp i why s)). unfold deferOne in Hmono.
    rewrite H in Hmono. done.
  - apply Hskip; [|done]. intros (r' & Hr & _ & Hb). rewrite E in Hr. injection Hr as ->. done.
Qed.

(** Enough passes reach a state in which no pending node is blocked. *)
Lemma blockFix_reached fuel s :
  core inp s -> (nPending (x_recs s) < fuel)%nat ->
  forall i, ~ blocked (x_recs (blockFix inp fuel s)) i.
Proof.
  revert s. induction fuel as [|fuel IH]; intros s Hc Hf; simpl; [lia|].
  destruct (blockPass inp (ids (x_recs s)) s false) as [s' changed] eqn:E.
  pose proof (blockPass_calm inp (ids (x_recs s)) s false Hc) as Hp. rewrite E in Hp. simpl in Hp.
  destruct changed.
  - apply blockPass_shrinks in E as [_ E]; [|done]. specialize (E eq_refl).
    apply IH; [apply Hp|lia].
  - apply blockPass_unchanged in E as (-> & _ & Hb). intros i Hi. apply (Hb i); [|done].
    destruct Hi as (r & Hr & _). apply byId_is_Some. by exists r.
Qed.

Lemma firstBlockingDep_None rs ds :
  firstBlockingDep rs ds = None ->
  forall d, d ∈ ds -> stat rs d <> Some (settled failed) /\ stat rs d <> Some (settled deferred).
Proof.
  induction ds as [|d ds IH]; simpl; [set_solver|]. intros H d' Hd'. unfold stat in *.
  destruct (byId rs d) as [dep|] eqn:E.
  - destruct (status dep) as [| |[]] eqn:Es; try done;
      apply elem_of_cons in Hd' as [->|Hd']; try (by apply IH);
      rewrite E; simpl; rewrite Es; done.
  - apply elem_of_cons in Hd' as [->|Hd']; [by rewrite E|by apply IH].
Qed.

Lemma frontier_ok rs : NoDup (ids rs) ->
  NoDup (frontier rs) /\
  forall i, i ∈ frontier rs -> exists r, byId rs i = Some r /\ status r = pending /\
    forall d, d ∈ deps r -> is_done rs d.
Proof.
  intros Hnd. unfold frontier. split.
  - generalize (isReady rs). intros p. unfold ids in Hnd.
    induction rs as [|r rs IH]; simpl in *; [constructor|].
    apply NoDup_cons in Hnd as [Hr Hnd]. destruct (p r); [|by apply IH].
    simpl. apply NoDup_cons. split; [|by apply IH]. intros Hin. apply Hr.
    apply list_elem_of_In, in_map_iff in Hin as (r' & <- & Hr').
    apply filter_In in Hr' as [Hr' _]. by apply list_elem_of_In, in_map.
  - intros i Hin. apply list_elem_of_In, in_map_iff in Hin as (r & <- & Hr).
    apply filter_In in Hr as [Hr Hp]. apply andb_true_iff in Hp as [Hp Hd].
    apply list_elem_of_In in Hr. apply bool_decide_eq_true in Hp.
    exists r. split_and!; [by apply byId_unique|done|]. intros d Hd'.
    rewrite forallb_true_iff in Hd. specialize (Hd d Hd'). unfold is_done, stat.
    destruct (byId rs d) as [dep|]; [|done]. apply bool_decide_eq_true in Hd. simpl. by rewrite Hd.
Qed.

(** With nothing in flight and no blocked node left, a pending node means a
    ready one: the "unresolved dependency" guard has nothing to defer. *)
Lemma frontier_progress s :
  core inp s -> x_inFlight s = [] -> (forall i, ~ blocked (x_recs s) i) ->
  frontier (x_recs s) = [] -> pendingIds (x_recs s) = [].
Proof.
  intros Hc Hfl Hb Hfr. pose proof (core_ids inp s Hc) as Hnd.
  destruct (pendingIds_ok (x_recs s) Hnd) as [_ Hp].
  destruct (c_wf inp s Hc) as (_ & Hcl & rank & Hrank).
  assert (Hnone : forall n i, (rank i < n)%nat -> stat (x_recs s) i <> Some pending).
  { induction n as [|n IH]; intros i Hn Hpi; [lia|].
    apply fmap_Some in Hpi as (r & Hr & Hst). symmetry in Hst.
    pose proof Hr as Hr0. apply byId_Some in Hr as [Hr Hi].
    assert (Hdone : forall d, d ∈ deps r -> is_done (x_recs s) d).
    { intros d Hd.
      assert (Hg : (i, deps r) ∈ graph_of (x_recs s)) by (apply graph_of_elem; eauto).
      assert (Hex : is_Some (byId (x_recs s) d)).
      { apply byId_is_Some. rewrite <- graph_of_keys. by eapply Hcl. }
      destruct Hex as [dep Hdep].
      assert (Hnb : firstBlockingDep (x_recs s) (deps r) = None).
      { destruct (firstBlockingDep (x_recs s) (deps r)) eqn:E; [|done].
        exfalso. apply (Hb i). exists r. by rewrite E. }
      pose proof (firstBlockingDep_None _ _ Hnb d Hd) as [Hf Hdf].
      assert (Hnp : stat (x_recs s) d <> Some pending)
        by (apply IH; specialize (Hrank i _ d Hg Hd); lia).
      assert (Hnr : stat (x_recs s) d <> Some running).
      { intros Hr'. apply (c_run inp s Hc) in Hr'. rewrite Hfl in Hr'. by apply elem_of_nil in Hr'. }
      unfold is_done, stat in *. rewrite Hdep in *. simpl in *.
      destruct (status dep) as [| |[]]; done. }
    assert (Hready : isReady (x_recs s) r = true).
    { apply andb_true_iff. split; [by apply bool_decide_eq_true|]. apply forallb_true_iff.
      intros d Hd. specialize (Hdone d Hd). apply fmap_Some in Hdone as (dep & -> & Hdep).
      by apply bool_decide_eq_true. }
    assert (Hin : rid r ∈ frontier (x_recs s)).
    { apply list_elem_of_In, in_map, filter_In. split; [by apply list_elem_of_In|done]. }
    rewrite Hfr in Hin. set_solver. }
  destruct (pendingIds (x_recs s)) as [|i l] eqn:E; [done|]. exfalso.
  apply (Hnone (S (rank i)) i); [lia|]. apply Hp. left.
Qed.
End Fixpoint_.
