(* ===== verification/DagInvariant.v ===== *)
(** The scheduler's invariant along every step: safety of [execute]. *)

From S2P Require Import Prelude JsNum JsValue DagTypes DagGraph Canonical DagReplan DagNode.
From S2P Require Import DagExec DagExecFacts.

Lemma find_first_app {A} (p : A -> bool) l1 l2 :
  find_first p (l1 ++ l2) =
    match find_first p l1 with Some x => Some x | None => find_first p l2 end.
Proof. induction l1 as [|x l1 IH]; simpl; [done|]. by destruct (p x). Qed.

(** * Lookups after a splice *)

Lemma splice_recs failed front l rs :
  id l = rid failed ->
  (spliceReplan (rid failed) (front ++ [l]) rs).1 =
    upd (rid failed) (fun _ => freshRecord l)
      (rs ++ map freshRecord (List.filter (fun n => negb (id n =? rid failed)%string) front)).
Proof.
  intros Hl. unfold spliceReplan. rewrite last_snoc. simpl. rewrite List.filter_app. simpl.
  by rewrite Hl, String.eqb_refl, app_nil_r.
Qed.

Lemma byId_fresh front j r : byId (map freshRecord front) j = Some r ->
  status r = pending /\ replanOffered r = false /\ retriesUsed r = 0.
Proof.
  intros H. apply byId_Some in H as [H _]. apply list_elem_of_In, in_map_iff in H as (n & <- & _).
  done.
Qed.

Lemma splice_byId failed front l rs j :
  NoDup (ids rs) -> failed ∈ rs ->
  validateReplan failed (front ++ [l]) rs = None -> id l = rid failed ->
  let rs' := (spliceReplan (rid failed) (front ++ [l]) rs).1 in
  let fresh := map freshRecord (List.filter (fun n => negb (id n =? rid failed)%string) front) in
  byId rs' j =
    if decide (rid failed = j) then Some (freshRecord l)
    else match byId rs j with Some r => Some r | None => byId fresh j end.
Proof.
  intros Hnd Hin Hv Hl rs' fresh.
  assert (Hf : byId (rs ++ fresh) (rid failed) = Some failed).
  { unfold byId. rewrite find_first_app. fold (byId rs (rid failed)).
    by rewrite byId_unique by done. }
  pose proof (splice_wf failed _ rs Hnd Hin Hv) as [Hwf _]. rewrite graph_of_keys in Hwf.
  rewrite splice_recs in Hwf by done. fold fresh in Hwf.
  rewrite ids_upd in Hwf.
  2:{ intros r Hr Hi. by rewrite Hi, <- Hl. }
  unfold rs'. rewrite splice_recs by done. fold fresh. rewrite byId_upd; [|by intros r Hr; simplify_eq|done].
  unfold byId at 1 2. rewrite find_first_app. fold (byId rs j) (byId fresh j).
  case_decide as Hj; [|done]. subst j. by rewrite (byId_unique rs failed) by done.
Qed.

Section Invariant.
Context {W : Type} (inp : DagRunInput W).

(** ** Dispatch *)

Definition ready_in (rs : list NodeRecord) (i : string) : Prop :=
  exists r, byId rs i = Some r /\ status r = pending /\ forall d, d ∈ deps r -> is_done rs d.

(** The node [i] whose record is [r] is dispatched: its record is marked, and
    its flight runs its first stretch. *)
Definition first_view (r : NodeRecord) (s : exec W) : nst W :=
  node_view (set_status running (reason r) r) s.
Definition first_stretch (r : NodeRecord) (s : exec W) : nst W * NodeM W unit :=
  advance (flight inp) (first_view r s).

Lemma first_stretch_ok r s :
  stretch inp None (set_status running (reason r) r) (first_stretch r s).1 (first_stretch r s).2.
Proof. by apply (flight_stretch inp (first_view r s)). Qed.

Lemma first_stretch_parked r s :
  parked inp (n_rec (first_stretch r s).1) (first_stretch r s).2.
Proof.
  unfold first_stretch. destruct (st_parked _ _ _ _ _ (first_stretch_ok r s)) as [E|]; [|done].
  exfalso. pose proof (wp_advance (node_protocol inp) _ _ _ None _ _
    (flight_wp inp (first_view r s) ltac:(by intros _))) as Hwp.
  unfold first_stretch in E. rewrite E in Hwp. by destruct Hwp.
Qed.

Lemma dispatchOne_eq i r s : byId (x_recs s) i = Some r ->
  dispatchOne inp i s =
    mkExec (x_pc s) (upd i (fun _ => n_rec (first_stretch r s).1) (x_recs s)) (x_running s + 1)
      (x_inFlight s ++ [(i, (first_stretch r s).2)]) (x_budget s) (x_aborted s)
      (n_world (first_stretch r s).1) (n_evs (first_stretch r s).1).
Proof. intros Hr. unfold dispatchOne. by rewrite Hr. Qed.

Lemma dispatchOne_safe i r (s : exec W) :
  byId (x_recs s) i = Some r -> status r = pending ->
  (forall d, d ∈ deps r -> is_done (x_recs s) d) ->
  safe_upd (reliable inp) (x_recs s) i (fun _ => n_rec (first_stretch r s).1).
Proof.
  intros Hr Hp Hd. pose proof (st_evolves _ _ _ _ _ (first_stretch_ok r s)) as [Hs Hds _ _ _ _].
  split; [intros r' Hr'|intros r' Hr'|intros _ r' Hr' Hst|intros _ r' d Hr' _ Hin];
    rewrite Hr in Hr'; injection Hr' as <-.
  - unfold rid. by rewrite Hs.
  - done.
  - congruence.
  - right. by apply Hd.
Qed.

Lemma dispatchOne_core i s :
  core inp s -> ready_in (x_recs s) i ->
  (forall m, maxConcurrencyOf inp = Some m -> x_running s < m) ->
  core inp (dispatchOne inp i s).
Proof.
  intros Hc (r & Hr & Hp & Hd) Hcap. pose proof (dispatchOne_safe i r s Hr Hp Hd) as Hu.
  pose proof (core_ids inp s Hc) as Hnd. rewrite (dispatchOne_eq i r) by done.
  pose proof (first_stretch_ok r s) as Hst. pose proof (first_stretch_parked r s) as Hpk.
  destruct (first_stretch r s) as [n m]. simpl in *.
  assert (Hfree : reliable inp -> i ∉ live_ids (x_inFlight s)).
  { intros Hok (m' & Hin & Hl)%live_ids_elem.
    destruct (c_flight inp s Hc i m' Hin) as (r' & Hr' & Hm').
    rewrite Hr in Hr'. injection Hr' as <-. pose proof (parked_busy _ _ _ Hm' Hl Hok). congruence. }
  destruct Hc. split; simpl.
  - by rewrite (safe_upd_graph (reliable inp)).
  - rewrite length_app. simpl. lia.
  - intros k Hk. specialize (Hcap k Hk). lia.
  - intros j m'. rewrite elem_of_app, list_elem_of_singleton.
    rewrite (safe_upd_byId (reliable inp)) by done. intros [Hj|[= -> ->]].
    + destruct (c_flight j m' Hj) as (r' & Hr' & Hm'). rewrite Hr'.
      case_decide as Hij; [|by exists r']. subst j. exists (n_rec n). split; [done|].
      eapply parked_other; [done|]. intros Hok Hl. exfalso. apply (Hfree Hok), live_ids_elem. eauto.
    + rewrite decide_True, Hr by done. simpl. eauto.
  - intros j. unfold stat. rewrite (safe_upd_byId (reliable inp)) by done.
    rewrite live_ids_app, live_ids_one, elem_of_app. simpl. case_decide as Hij; [|by left; apply c_run].
    subst j. rewrite Hr. simpl. intros [= Hrun]. right.
    rewrite (st_live _ _ _ _ _ Hst) by done. by left.
  - intros Hok. apply (safe_upd_deps_ok (reliable inp)); auto.
  - intros Hok. rewrite live_ids_app, live_ids_one. simpl. destruct (live_flight m).
    + apply NoDup_app. split_and!; [auto| |apply NoDup_singleton].
      intros j Hj ->%list_elem_of_singleton. by apply Hfree.
    + rewrite app_nil_r. auto.
  - done.
Qed.

(** What dispatching leaves alone, and that it keeps done records. *)
Record launched (s s' : exec W) : Prop := {
  l_core : core inp s';
  l_done : done_kept inp (x_recs s) (x_recs s');
  l_flight : (length (x_inFlight s) <= length (x_inFlight s'))%nat;
  l_pc : x_pc s' = x_pc s
}.

Lemma ready_dispatchOne i j s :
  core inp s -> ready_in (x_recs s) i -> ready_in (x_recs s) j -> i <> j ->
  ready_in (x_recs (dispatchOne inp i s)) j.
Proof.
  intros Hc (ri & Hri & Hpi & Hdi) (r & Hr & Hp & Hd) Hne. pose proof (core_ids inp s Hc) as Hnd.
  pose proof (dispatchOne_safe i ri s Hri Hpi Hdi) as Hu.
  rewrite (dispatchOne_eq i ri) by done. exists r. simpl.
  split_and!; [|done|].
  - rewrite (safe_upd_byId (reliable inp)) by done. by rewrite decide_False by done.
  - intros d Hin. unfold is_done, stat. rewrite (safe_upd_byId (reliable inp)) by done.
    rewrite decide_False; [by apply Hd|]. intros <-. specialize (Hd _ Hin).
    unfold is_done, stat in Hd. rewrite Hri in Hd. simpl in Hd. congruence.
Qed.

Lemma dispatch_launched todo s :
  core inp s -> NoDup todo -> (forall i, i ∈ todo -> ready_in (x_recs s) i) ->
  launched s (dispatch inp todo s) /\ (todo <> [] -> x_inFlight (dispatch inp todo s) <> []).
Proof.
  revert s. induction todo as [|i todo IH]; intros s Hc Hnd Hready; simpl.
  { split; [|done]. split; auto with js. }
  apply NoDup_cons in Hnd as [Hi Hnd].
  destruct (match maxConcurrencyOf inp with Some m => m <=? x_running s | None => false end)
    eqn:Ecap.
  - split; [split; auto with js|]. intros _ Hfl.
    unfold maxConcurrencyOf in Ecap. destruct (maxConcurrency inp) as [m|]; [|done].
    destruct (Z.ltb_spec 0 m); [|done]. apply Z.leb_le in Ecap.
    rewrite (c_count inp s Hc), Hfl in Ecap. simpl in Ecap. lia.
  - assert (Hri : ready_in (x_recs s) i) by (apply Hready; left).
    assert (Hone : core inp (dispatchOne inp i s)).
    { apply dispatchOne_core; [done|done|]. intros m Hm. rewrite Hm in Ecap.
      by apply Z.leb_gt in Ecap. }
    destruct (IH (dispatchOne inp i s) Hone Hnd) as [[Hcl Hdl Hfl Hpl] _].
    { intros j Hj. apply ready_dispatchOne; [done|done|apply Hready; by right|]. by intros ->. }
    destruct Hri as (r & Hr & Hp & Hd). rewrite (dispatchOne_eq i r) in * by done. simpl in *.
    rewrite length_app in Hfl. simpl in Hfl.
    split; [split|]; [done| |lia|done|].
    + eapply done_kept_trans; [|done].
      apply done_kept_upd; [by eapply core_ids|by apply dispatchOne_safe].
    + intros _ Hnil. rewrite Hnil in Hfl. simpl in Hfl. lia.
Qed.

(** ** A node resumes *)

Lemma flight_split {A} (fl : list A) k f :
  fl !! k = Some f -> exists l1 l2, fl = l1 ++ f :: l2 /\
    delete k fl = l1 ++ l2 /\ forall g, <[k := g]> fl = l1 ++ g :: l2.
Proof.
  intros H. exists (take k fl), (drop (S k) fl). split_and!.
  - by rewrite take_drop_middle.
  - apply delete_take_drop.
  - intros g. apply insert_take_drop. by eapply lookup_lt_Some.
Qed.

(** What a resumption does: the [k]-th flight runs a stretch, which changes its
    record, and either parks again or ends. *)
Record resumed (k : nat) (s s' : exec W) (i : string) (r : NodeRecord) (n : nst W)
    (p : awaiting) (m m' : NodeM W unit) (l1 l2 : list (string * NodeM W unit)) : Prop := {
  rs_flights : x_inFlight s = l1 ++ (i, NAwait p m) :: l2;
  rs_byId : byId (x_recs s) i = Some r;
  rs_recs : x_recs s' = upd i (fun _ => n_rec n) (x_recs s);
  rs_budget : x_budget s' = x_budget s;
  rs_aborted : x_aborted s' = x_aborted s;
  rs_next : advance m (node_view r s) = (n, m');
  rs_stretch : stretch inp (Some p) r n m';
  rs_end : (m' = NRet tt /\ x_inFlight s' = l1 ++ l2 /\ x_running s' = x_running s - 1 /\
      x_pc s' = match x_pc s with AwaitRace _ => AwaitRace true | q => q end) \/
    (parked inp (n_rec n) m' /\ x_inFlight s' = l1 ++ (i, m') :: l2 /\
      x_running s' = x_running s /\ x_pc s' = x_pc s)
}.

#[local] Arguments rs_flights {_ _ _ _ _ _ _ _ _ _ _} _.
#[local] Arguments rs_byId {_ _ _ _ _ _ _ _ _ _ _} _.
#[local] Arguments rs_recs {_ _ _ _ _ _ _ _ _ _ _} _.
#[local] Arguments rs_budget {_ _ _ _ _ _ _ _ _ _ _} _.
#[local] Arguments rs_stretch {_ _ _ _ _ _ _ _ _ _ _} _.
#[local] Arguments rs_end {_ _ _ _ _ _ _ _ _ _ _} _.

Lemma resume_resumed k s s' : core inp s -> resume k s = Some s' ->
  exists i r n p m m' l1 l2, resumed k s s' i r n p m m' l1 l2.
Proof.
  intros Hc H. unfold resume in H. destruct (x_inFlight s !! k) as [[i m0]|] eqn:Ek; [|done].
  destruct (flight_split _ _ _ Ek) as (l1 & l2 & Hfl & Hdel & Hins).
  assert (Hin : (i, m0) ∈ x_inFlight s) by (by eapply list_elem_of_lookup_2).
  destruct (c_flight inp s Hc i m0 Hin) as (r & Hr & Hm0).
  destruct m0 as [| | |p m|]; try done. rewrite Hr in H. injection H as H.
  pose proof (parked_stretch inp p m (node_view r s) Hm0) as Hst.
  destruct (advance m (node_view r s)) as [n m'] eqn:Eadv. cbn [fst snd] in *.
  exists i, r, n, p, m, m', l1, l2.
  assert (Hend : m' = NRet tt \/ parked inp (n_rec n) m') by apply Hst.
  destruct Hend as [->|Hpk].
  - subst s'. split; simpl; try done. left. by rewrite Hdel.
  - destruct m' as [|e|p'|p' k'|]; try done; subst s'; split; simpl; try done; right;
      by rewrite Hins.
Qed.

Section Resumed.
Context (k : nat) (s s' : exec W) (i : string) (r : NodeRecord) (n : nst W).
Context (p : awaiting) (m m' : NodeM W unit) (l1 l2 : list (string * NodeM W unit)).
Context (Hc : core inp s) (Hrs : resumed k s s' i r n p m m' l1 l2).

Lemma resumed_parked : parked inp r (NAwait p m).
Proof.
  destruct (c_flight inp s Hc i (NAwait p m)) as (r' & Hr' & Hm).
  { rewrite (rs_flights Hrs). apply elem_of_app. right. left. }
  rewrite (rs_byId Hrs) in Hr'. by injection Hr' as <-.
Qed.

(** A node that has settled its record leaves it alone, but for a retry. *)
Lemma resumed_idle : reliable inp ->
  (live p = true /\ status r = running) \/
  (live p = false /\ (n_rec n = r \/ (mayRetry inp r = true /\ n_rec n = retryRecord r))).
Proof.
  intros Hok. destruct (live p) eqn:El.
  - left. split; [done|]. by apply resumed_parked.
  - right. split; [done|]. by apply (st_idle _ _ _ _ _ (rs_stretch Hrs)).
Qed.

Lemma mayRetry_deferred r0 : mayRetry inp r0 = true -> status r0 = settled deferred.
Proof.
  unfold mayRetry, isOwnTimeoutDeferral. intros [H _]%andb_true_iff.
  by destruct (status r0) as [| |[]].
Qed.

Lemma resumed_safe : safe_upd (reliable inp) (x_recs s) i (fun _ => n_rec n).
Proof.
  destruct (st_evolves _ _ _ _ _ (rs_stretch Hrs)) as [Hs Hd _ _ _ _].
  pose proof (rs_byId Hrs) as Hr.
  split; [intros r' Hr'|intros r' Hr'|intros Hok r' Hr' Hst|intros Hok r' d Hr' Hst Hin];
    rewrite Hr in Hr'; injection Hr' as <-.
  - unfold rid. by rewrite Hs.
  - done.
  - destruct (resumed_idle Hok) as [[_ ?]|[_ [?|[Hm _]]]]; [congruence|done|].
    apply mayRetry_deferred in Hm. congruence.
  - left. destruct (resumed_idle Hok) as [[_ ?]|[_ [He|[_ He]]]]; [by left|by rewrite <- He|].
    rewrite He in Hst. by destruct Hst as [?|[?|?]].
Qed.

Lemma resumed_done_kept : done_kept inp (x_recs s) (x_recs s').
Proof.
  rewrite (rs_recs Hrs).
  apply done_kept_upd; [by eapply core_ids|apply resumed_safe].
Qed.

(** Other flights are not disturbed: a live one has the record to itself. *)
Lemma resumed_others j mj : (j, mj) ∈ l1 ++ l2 ->
  exists rj, byId (x_recs s') j = Some rj /\ parked inp rj mj.
Proof.
  intros Hj. pose proof (rs_flights Hrs) as Hfl.
  destruct (c_flight inp s Hc j mj) as (rj & Hrj & Hmj).
  { rewrite Hfl. apply elem_of_app in Hj as [?|?]; apply elem_of_app; [by left|]. right. by right. }
  rewrite (rs_recs Hrs).
  rewrite (safe_upd_byId (reliable inp)); [|by eapply core_ids|apply resumed_safe].
  case_decide as Hij; [|by exists rj]. subst j. rewrite Hrj. exists (n_rec n). split; [done|].
  rewrite (rs_byId Hrs) in Hrj. injection Hrj as <-.
  eapply parked_other; [done|]. intros Hok Hl.
  pose proof (parked_busy _ _ _ Hmj Hl Hok) as Hrun.
  destruct (resumed_idle Hok) as [[Hlp _]|[_ [He|[Hm _]]]]; [|done|].
  - exfalso. pose proof (c_nodup inp s Hc Hok) as Hnd. rewrite Hfl in Hnd.
    rewrite live_ids_app in Hnd. change (?x :: l2) with ([x] ++ l2) in Hnd.
    rewrite live_ids_app, live_ids_one in Hnd. simpl in Hnd. rewrite Hlp in Hnd.
    apply NoDup_app in Hnd as (_ & H1 & H2). simpl in H2. apply NoDup_cons in H2 as [H2 _].
    apply elem_of_app in Hj as [Hj|Hj].
    + apply (H1 i); [apply live_ids_elem; eauto|left].
    + apply H2, live_ids_elem. eauto.
  - apply mayRetry_deferred in Hm. congruence.
Qed.

Lemma live_ids_mid (f : string * NodeM W unit) :
  live_ids (l1 ++ f :: l2) = live_ids l1 ++ live_ids [f] ++ live_ids l2.
Proof. change (f :: l2) with ([f] ++ l2). by rewrite !live_ids_app. Qed.

Lemma resumed_nodup : reliable inp -> NoDup (live_ids (x_inFlight s')).
Proof.
  intros Hok. pose proof (c_nodup inp s Hc Hok) as Hnd.
  rewrite (rs_flights Hrs), live_ids_mid, live_ids_one in Hnd. simpl in Hnd.
  assert (Hsub : NoDup (live_ids l1 ++ live_ids l2)).
  { destruct (live p); [|done]. apply NoDup_app in Hnd as (H1 & H2 & [_ H3]%NoDup_cons). apply NoDup_app.
    split_and!; [done| |done]. intros x Hx Hx'. apply (H2 x Hx). by right. }
  destruct (rs_end Hrs) as [(_ & -> & _)|(_ & -> & _)].
  - by rewrite live_ids_app.
  - rewrite live_ids_mid, live_ids_one. simpl. destruct (live_flight m') eqn:El; [|done].
    pose proof (st_busy _ _ _ _ _ (rs_stretch Hrs) Hok El) as Hp. simpl in Hp.
    by rewrite Hp in Hnd.
Qed.

Lemma resumed_run j : stat (x_recs s') j = Some running -> j ∈ live_ids (x_inFlight s').
Proof.
  rewrite (rs_recs Hrs). unfold stat.
  rewrite (safe_upd_byId (reliable inp)); [|by eapply core_ids|apply resumed_safe].
  pose proof (rs_stretch Hrs) as Hst.
  intros H. assert (Hold : j ∈ live_ids (x_inFlight s)).
  { apply (c_run inp s Hc). unfold stat. case_decide as Hij; [|done]. subst j.
    rewrite (rs_byId Hrs) in H |- *. simpl in *. injection H as H.
    by rewrite (ev_running _ _ _ (st_evolves _ _ _ _ _ Hst) H). }
  rewrite (rs_flights Hrs), live_ids_mid, live_ids_one in Hold.
  simpl in Hold.
  assert (Hcases : j ∈ live_ids l1 ++ live_ids l2 \/ (j = i /\ live_flight m' = true)).
  { rewrite !elem_of_app in *. destruct Hold as [?|[Hj|?]]; [by left; left| |by left; right].
    destruct (live p) eqn:El; [|by apply elem_of_nil in Hj].
    apply list_elem_of_singleton in Hj as ->. right. split; [done|].
    rewrite decide_True, (rs_byId Hrs) in H by done. simpl in H.
    injection H as H. by apply (st_live _ _ _ _ _ Hst). }
  destruct (rs_end Hrs) as [(-> & -> & _)|(_ & -> & _)].
  - rewrite live_ids_app. by destruct Hcases as [?|[_ ?]].
  - rewrite live_ids_mid, live_ids_one. simpl. rewrite !elem_of_app in *.
    destruct Hcases as [[?|?]|[-> ->]]; [by left|by right; right|]. right. left. by left.
Qed.

Lemma resumed_core : core inp s'.
Proof.
  pose proof (core_ids inp s Hc) as Hnd. pose proof resumed_safe as Hu.
  pose proof (rs_recs Hrs) as Hrec.
  pose proof (rs_end Hrs) as Hend.
  split; [| | | |apply resumed_run| |apply resumed_nodup|].
  - rewrite Hrec, (safe_upd_graph (reliable inp)) by done. apply (c_wf inp s Hc).
  - pose proof (c_count inp s Hc) as Hcnt. rewrite (rs_flights Hrs) in Hcnt.
    rewrite length_app in Hcnt. simpl in Hcnt.
    destruct Hend as [(_ & -> & -> & _)|(_ & -> & -> & _)]; rewrite Hcnt, length_app; simpl; lia.
  - intros c Hcap. specialize (c_cap inp s Hc c Hcap).
    destruct Hend as [(_ & _ & -> & _)|(_ & _ & -> & _)]; lia.
  - intros j mj Hj. destruct Hend as [(_ & Hfl & _)|(Hpk & Hfl & _)]; rewrite Hfl in Hj.
    + by apply resumed_others.
    + assert (Hj' : (j, mj) ∈ l1 ++ l2 \/ (j, mj) = (i, m')).
      { rewrite elem_of_app, elem_of_cons in Hj. rewrite elem_of_app. tauto. }
      destruct Hj' as [Hj'|[= -> ->]]; [by apply resumed_others|].
      rewrite Hrec, (safe_upd_byId (reliable inp)) by done.
      rewrite decide_True, (rs_byId Hrs) by done. simpl. eauto.
  - intros Hok. rewrite Hrec. apply (safe_upd_deps_ok (reliable inp)); auto. by apply (c_deps inp s).
  - rewrite (rs_budget Hrs). apply (c_budget inp s Hc).
Qed.

Lemma resumed_pc : pc_ok inp s -> pc_ok inp s'.
Proof.
  intros Hpc. pose proof (rs_end Hrs) as Hend.
  assert (Epc : x_pc s' = x_pc s \/ x_pc s' = AwaitRace true).
  { destruct Hend as [(_ & _ & _ & ->)|(_ & _ & _ & ->)]; [|by left].
    destruct (x_pc s); (by left) || (by right). }
  unfold pc_ok in *. destruct Epc as [Epc|Epc]; rewrite Epc; [|done].
  destruct (x_pc s) as [|j rep|woken| |] eqn:E; try done.
  - rewrite (rs_budget Hrs). destruct Hpc as (Hb & rj & Hrj & Hf).
    split; [done|]. rewrite (rs_recs Hrs).
    rewrite (safe_upd_byId (reliable inp)); [|by eapply core_ids|apply resumed_safe].
    case_decide as Hij; [|by exists rj]. subst j. rewrite Hrj. exists (n_rec n). split; [done|].
    rewrite (rs_byId Hrs) in Hrj. injection Hrj as <-.
    intros Hok. specialize (Hf Hok).
    destruct (resumed_idle Hok) as [[_ ?]|[_ [->|[Hm _]]]]; [congruence|done|].
    apply mayRetry_deferred in Hm. congruence.
  - intros ->. destruct Hend as [(_ & _ & _ & H)|(_ & -> & _)].
    + simpl in H. congruence.
    + intros Hnil%(f_equal length). rewrite length_app in Hnil. simpl in Hnil. lia.
  - exfalso. pose proof (rs_flights Hrs) as Hfl. rewrite Hpc in Hfl.
    by destruct l1.
Qed.
End Resumed.

Lemma resume_inv k s s' :
  inv inp s -> resume k s = Some s' -> inv inp s' /\ done_kept inp (x_recs s) (x_recs s').
Proof.
  intros [Hc Hpc] H. destruct (resume_resumed k s s' Hc H) as (i & r & n & p & m & m' & l1 & l2 & Hrs).
  split; [split|].
  - by eapply resumed_core.
  - by eapply resumed_pc.
  - by eapply resumed_done_kept.
Qed.
End Invariant.

(** ** Replies of the re-planner and the loop body *)

(** The update keeps the done records: known, or nothing changed. *)
Ltac kept := first [assumption | apply done_kept_refl | done].

Section Loop.
Context {W : Type} (inp : DagRunInput W).

Lemma annotate_calm i note s :
  core inp s ->
  (reliable inp -> forall r, byId (x_recs s) i = Some r -> status r = settled failed) ->
  calm inp s (annotate i note s).
Proof.
  intros Hc Hi. unfold annotate. apply calm_upd; [done| |done|].
  - by apply safe_note.
  - intros Hok r Hr Hrun. specialize (Hi Hok r Hr). congruence.
Qed.

(** A record of the spliced graph is fresh work, or was there before. *)
Lemma splice_cases r returned rs :
  NoDup (ids rs) -> r ∈ rs -> validateReplan r returned rs = None ->
  let rs' := (spliceReplan (rid r) returned rs).1 in
  wf_graph (graph_of rs') /\
  (forall j r0, byId rs j = Some r0 -> rid r <> j -> byId rs' j = Some r0) /\
  (exists l, byId rs' (rid r) = Some (freshRecord l)) /\
  (forall j r0, byId rs' j = Some r0 ->
     status r0 = pending \/ (byId rs j = Some r0 /\ rid r <> j)).
Proof.
  intros Hnd Hin Hv rs'.
  pose proof (validateReplan_shape _ _ _ Hv) as (front & l & -> & Hl & _).
  pose proof (fun j => splice_byId r front l rs j Hnd Hin Hv Hl) as Hby.
  fold rs' in Hby. simpl in Hby. split_and!.
  - by apply splice_wf.
  - intros j r0 Hj Hne. by rewrite Hby, Hj, decide_False.
  - exists l. by rewrite Hby, decide_True.
  - intros j r0 Hj. rewrite Hby in Hj. case_decide as Hd; [injection Hj as <-; by left|].
    destruct (byId rs j); [right; by simplify_eq|].
    left. by apply byId_fresh in Hj as (? & _).
Qed.

Lemma splice_core s i r returned :
  core inp s -> byId (x_recs s) i = Some r -> (reliable inp -> status r = settled failed) ->
  validateReplan r returned (x_recs s) = None ->
  let rs' := (spliceReplan i returned (x_recs s)).1 in
  core inp (with_recs rs' s) /\ done_kept inp (x_recs s) rs'.
Proof.
  intros Hc Hr Hst Hv. pose proof (core_ids inp s Hc) as Hnd.
  apply byId_Some in Hr as [Hin <-]. intros rs'.
  destruct (splice_cases r returned _ Hnd Hin Hv) as (Hwf & Hkept & (l & Hnew) & Hcases).
  fold rs' in Hwf, Hkept, Hnew, Hcases.
  pose proof (byId_unique _ r Hnd Hin) as Hr.
  assert (Hdk : done_kept inp (x_recs s) rs').
  { intros Hok j r0 Hj Hd. apply Hkept; [done|]. intros <-. rewrite Hr in Hj. injection Hj as <-.
    specialize (Hst Hok). congruence. }
  split; [|done]. destruct Hc. split; simpl; try done.
  - intros j m Hj. destruct (c_flight j m Hj) as (r0 & Hr0 & Hm).
    destruct (decide (rid r = j)) as [<-|Hne]; [|exists r0; split; [by apply Hkept|done]].
    exists (freshRecord l). split; [done|]. eapply parked_other; [done|]. intros Hok Hl.
    rewrite Hr in Hr0. injection Hr0 as <-. pose proof (parked_busy _ _ _ Hm Hl Hok).
    specialize (Hst Hok). congruence.
  - intros j H. apply c_run. unfold stat in *. apply fmap_Some in H as (r0 & Hr0 & Hs0).
    destruct (Hcases _ _ Hr0) as [Hp|[Hb0 _]]; [congruence|]. rewrite Hb0. simpl. by rewrite Hs0.
  - intros Hok r0 d Hr0 Hst0 Hd.
    assert (Hnd' : NoDup (ids rs')) by (rewrite <- graph_of_keys; apply Hwf).
    pose proof (byId_unique rs' r0 Hnd' Hr0) as Hb.
    destruct (Hcases _ _ Hb) as [Hp|[Hb0 _]]; [by destruct Hst0 as [?|[?|?]]; congruence|].
    apply byId_Some in Hb0 as [Hin0 _]. pose proof (c_deps Hok r0 d Hin0 Hst0 Hd) as Hdone.
    unfold is_done, stat in *. apply fmap_Some in Hdone as (rd & Hrd & Hsd).
    rewrite (Hdk Hok d rd Hrd) by done. simpl. by rewrite <- Hsd.
Qed.

Lemma afterReplan_inv s i rep :
  inv inp s -> x_pc s = AwaitReplan i rep -> rep <> NeverSettles ->
  inv inp (afterReplan inp i s rep) /\
  done_kept inp (x_recs s) (x_recs (afterReplan inp i s rep)).
Proof.
  intros [Hc Hpc] Epc Hrep. unfold pc_ok in Hpc. rewrite Epc in Hpc.
  destruct Hpc as (Hb & r & Hr & Hst).
  assert (Hann : forall note, inv inp (with_pc AtLoop (annotate i note s)) /\
      done_kept inp (x_recs s) (x_recs (with_pc AtLoop (annotate i note s)))).
  { intros note. destruct (annotate_calm i note s Hc).
    - intros Hok r' Hr'. rewrite Hr in Hr'. injection Hr' as <-. auto.
    - split; [split|]; auto with js. done. }
  unfold afterReplan. rewrite Hr. destruct rep as [[returned|]|msg|]; [| |apply Hann|done].
  - destruct (validateReplan r returned (x_recs s)) as [why|] eqn:Hv; [apply Hann|].
    pose proof (splice_core s i r returned Hc Hr Hst Hv) as [Hcs Hdk].
    destruct (spliceReplan i returned (x_recs s)) as [rs' n]. simpl in *.
    split; [split|].
    + apply core_with_pc, core_xemit. destruct Hcs. split; simpl in *; try done. lia.
    + done.
    + simpl. autorewrite with js. done.
  - split; [split; [by apply core_with_pc|done]|kept].
Qed.

Lemma loop_body_inv s :
  inv inp s -> inv inp (loop_body inp s) /\ done_kept inp (x_recs s) (x_recs (loop_body inp s)).
Proof.
  intros [Hc Hpc]. pose proof (core_ids inp s Hc) as Hnd. unfold loop_body.
  destruct (negb _); [split; [split; [by apply core_with_pc|done]|kept]|].
  destruct (x_aborted s).
  { destruct (cancelAll_calm inp "cancelled" s Hc).
    split; [split; [by apply core_with_pc|done]|kept]. }
  destruct (if hasReplanner inp && (0 <? x_budget s) then find_first replannable (x_recs s)
            else None) as [r|] eqn:Er.
  - destruct (hasReplanner inp && (0 <? x_budget s)) eqn:Eb; [|done].
    apply andb_true_iff in Eb as [_ Eb%Z.ltb_lt].
    apply find_first_Some in Er as [Hr Hrep]. apply andb_true_iff in Hrep as [Hf Hoff].
    apply bool_decide_eq_true in Hf. pose proof (byId_unique _ r Hnd Hr) as Hby.
    assert (Hfail : forall r0, byId (x_recs s) (rid r) = Some r0 -> status r0 = settled failed).
    { intros r0 Hr0. rewrite Hby in Hr0. by injection Hr0 as <-. }
    assert (Hu : safe_upd (reliable inp) (x_recs s) (rid r) (set_offered true))
      by (by apply safe_note).
    assert (Hcalm : calm inp s (with_recs (upd (rid r) (set_offered true) (x_recs s)) s)).
    { apply calm_upd; [done|done|done|]. intros _ r0 Hr0 Hrun. specialize (Hfail r0 Hr0). congruence. }
    destruct (callReplanner _ _ _ _) as [w rep]. destruct Hcalm.
    split; [split|done]; [by apply core_with_pc, core_with_world|]. unfold pc_ok. simpl.
    split; [done|]. exists (set_offered true r). split; [|done].
    rewrite byId_upd; [|by intros r0 ?|done]. by rewrite decide_True, Hby by done.
  - generalize (S (length (x_recs s))). intros fuel.
    pose proof (blockFix_calm inp fuel s Hc) as Hfix.
    pose proof (core_ids inp _ (q_core _ _ _ Hfix)) as Hnd1.
    destruct (length (frontier _) =? 0)%nat.
    + destruct (length (x_inFlight _) =? 0)%nat eqn:Efl.
      * pose proof (cancelAll_calm inp "unresolved dependency" _ (q_core _ _ _ Hfix)) as Hcan.
        destruct (calm_trans _ _ _ _ Hfix Hcan).
        split; [split; [by apply core_with_pc|done]|kept].
      * destruct Hfix. split; [split; [by apply core_with_pc|]|done].
        intros _ Hnil. simpl in Hnil. by rewrite Hnil in Efl.
    + destruct (frontier_ok _ Hnd1) as [Hndf Hready].
      destruct (dispatch_launched inp (frontier (x_recs (blockFix inp fuel s)))
        _ (q_core _ _ _ Hfix) Hndf Hready) as [[Hcl Hdl _ _] _].
      pose proof (done_kept_trans _ _ _ _ (q_done _ _ _ Hfix) Hdl).
      destruct (0 <? length _)%nat eqn:Efl; (split; [split; [by apply core_with_pc|]|done]); [|done].
      intros _ Hnil. simpl in Hnil. by rewrite Hnil in Efl.
Qed.

(** Every step preserves the invariant and every done record. *)
Lemma step_inv s s' : inv inp s -> step inp s s' -> inv inp s' /\ done_kept inp (x_recs s) (x_recs s').
Proof.
  intros Hinv Hstep. destruct Hstep as [s Hp|s k s' Hs|s Hp|s i rep Hp Hrep|s Hp Hfl|s Hsig Hab].
  - by apply loop_body_inv.
  - by eapply resume_inv.
  - destruct Hinv as [Hc _]. split; [split; [by apply core_with_pc|done]|kept].
  - by eapply afterReplan_inv.
  - destruct Hinv as [Hc _]. split; [split; [by apply core_with_pc|done]|kept].
  - destruct Hinv as [Hc Hpc]. split; [split; [|done]|kept].
    eapply core_same; [..|exact Hc]; done.
Qed.

Lemma steps_inv s s' :
  inv inp s -> rtc (step inp) s s' -> inv inp s' /\ done_kept inp (x_recs s) (x_recs s').
Proof.
  intros Hinv Hsteps. induction Hsteps as [s|s1 s2 s3 H1 _ IH]; [auto with js|].
  destruct (step_inv _ _ Hinv H1) as [Hinv2 Hd1]. destruct (IH Hinv2) as [Hinv3 Hd2].
  eauto using done_kept_trans.
Qed.

(** ** The state a run starts from *)

Lemma startDag_ok `{Hashing} ab w s h :
  startDag inp ab w = Ok (s, h) ->
  buildRecords (nodes inp) = Ok (x_recs s) /\ wf_graph (graph_of (x_recs s)) /\
  computeRootHash (adrEco inp) (x_recs s) = Ok h /\
  x_pc s = AtLoop /\ x_inFlight s = [] /\ x_running s = 0 /\ x_budget s = initialBudget inp /\
  x_aborted s = ab /\ (usesSampling inp = true -> hasVerifier inp = true).
Proof.
  unfold startDag. rewrite result_bind_ok.
  intros ([] & _ & Hs). apply result_bind_ok in Hs as ([] & _ & Hs).
  apply result_bind_ok in Hs as ([] & _ & Hs). apply result_bind_ok in Hs as (rs & Hrs & Hs).
  apply result_bind_ok in Hs as ([] & Hmiss & Hs). apply result_bind_ok in Hs as ([] & _ & Hs).
  apply result_bind_ok in Hs as ([] & Hac & Hs). apply result_bind_ok in Hs as ([] & Hv & Hs).
  apply result_bind_ok in Hs as (h' & Hh & Hs). injection Hs as <- <-.
  autorewrite with js. simpl. apply throw_if_ok in Hv.
  pose proof (buildRecords_ok _ _ Hrs) as [_ Hnd].
  apply assertNoMissingDeps_ok in Hmiss as [Hcl _].
  apply assertAcyclic_ok in Hac; [|done|done].
  assert (Hwf : wf_graph (graph_of rs)) by (split; [by rewrite graph_of_keys|done]).
  do 8 (split; [done|]). intros Hu. rewrite Hu in Hv. by destruct (hasVerifier inp).
Qed.

Lemma startDag_inv `{Hashing} ab w s h : startDag inp ab w = Ok (s, h) -> inv inp s.
Proof.
  intros H0. apply startDag_ok in H0 as (Hrs & Hwf & _ & Hpc & Hfl & Hrun & Hb & _).
  apply buildRecords_ok in Hrs as [Hrs Hnd]. split; [|unfold pc_ok; by rewrite Hpc].
  assert (Hpend : forall r, r ∈ x_recs s -> status r = pending).
  { rewrite Hrs. intros r Hr. by apply list_elem_of_In, in_map_iff in Hr as (n & <- & _). }
  split; rewrite ?Hfl, ?Hrun; try done.
  - unfold maxConcurrencyOf. intros m. destruct (maxConcurrency inp) as [m'|]; [|done].
    destruct (Z.ltb_spec 0 m'); [|done]. intros [= <-]. lia.
  - intros i m Hm. by apply elem_of_nil in Hm.
  - intros i Hi. apply fmap_Some in Hi as (r & Hr & Hst).
    apply byId_Some in Hr as [Hr _]. rewrite (Hpend r Hr) in Hst. done.
  - intros _ r d Hr Hst _. rewrite (Hpend r Hr) in Hst. by destruct Hst as [?|[?|?]].
  - intros _. constructor.
  - rewrite Hb. unfold initialBudget. destruct (replanner inp), (maxReplans inp) as [m|]; try lia.
    destruct (Z.ltb_spec 0 m); lia.
Qed.
End Loop.
