(* ===== verification/DagTermination.v ===== *)
(** Termination and deadlock-freedom of the DAG scheduler's execution
    ([src/orchestration/dag/scheduler.ts]: execute).

    The measure is lexicographic: the re-planning budget left; the work left (a
    pending node counts its unused retries, a failed node that was not offered to
    the re-planner counts one, a node in flight counts the [await]s before it, an
    abort still possible counts one); the distance of the program point to the
    exit. *)

From S2P Require Import Prelude JsNum JsValue DagTypes DagGraph Canonical DagReplan DagNode.
From S2P Require Import DagExec DagExecFacts DagInvariant.

Section Measure.
Context {W : Type} (inp : DagRunInput W).

(** Retries left to a node. *)
Definition retriesLeft (r : NodeRecord) : nat :=
  Z.to_nat (resolveRetryBound (spec r) inp - retriesUsed r).

Definition weight (r : NodeRecord) : nat :=
  24 * retriesLeft r +
  match status r with
  | pending => 24
  | settled failed => if replanOffered r then 0 else 1
  | _ => 0
  end.

#[local] Arguments weight : simpl never.

Definition work (rs : list NodeRecord) : nat := list_sum (map weight rs).

(** The [await]s a node in flight has before it, two for each. *)
Definition ahead (m : NodeM W unit) : nat :=
  match m with NAwait p _ | NNever p => 2 * S (rank p) | _ => 0 end.
Definition aheads (fl : list (string * NodeM W unit)) : nat :=
  list_sum (map (fun f => ahead f.2) fl).

Definition pcWeight (p : pc) : nat :=
  match p with
  | AwaitRace true => 4
  | AwaitReplan _ _ => 4
  | AtLoop => 3
  | AwaitRace false => 2
  | Drain => 1
  | Finished => 0
  end.

Definition measure (s : exec W) : nat * (nat * nat) :=
  (Z.to_nat (x_budget s),
   (work (x_recs s) + aheads (x_inFlight s) + (if x_aborted s then 0 else 1), pcWeight (x_pc s)))%nat.

(** Lexicographic order on the measure. *)
Definition lt3 (a b : nat * (nat * nat)) : Prop :=
  (a.1 < b.1 \/ a.1 = b.1 /\ (a.2.1 < b.2.1 \/ a.2.1 = b.2.1 /\ a.2.2 < b.2.2))%nat.

Lemma lt3_wf : well_founded lt3.
Proof.
  assert (H : forall b w p, Acc lt3 (b, (w, p))).
  { induction b as [b IHb] using lt_wf_ind. induction w as [w IHw] using lt_wf_ind.
    induction p as [p IHp] using lt_wf_ind. constructor. intros [b' [w' p']] Hlt.
    unfold lt3 in Hlt. simpl in Hlt.
    destruct Hlt as [?|[-> [?|[-> ?]]]]; auto. }
  intros [b [w p]]. apply H.
Qed.

Lemma work_upd_le i f rs :
  (forall r, r ∈ rs -> rid r = i -> (weight (f r) <= weight r)%nat) ->
  (work (upd i f rs) <= work rs)%nat.
Proof.
  unfold work, upd. induction rs as [|r rs IH]; simpl; [lia|]. intros H.
  assert (Hr : (weight (if (rid r =? i)%string then f r else r) <= weight r)%nat).
  { destruct (String.eqb_spec (rid r) i) as [Hi|]; [apply H; [left|done]|lia]. }
  assert (Hrs : forall r', r' ∈ rs -> rid r' = i -> (weight (f r') <= weight r')%nat).
  { intros r' Hr'. apply H. by right. }
  specialize (IH Hrs). lia.
Qed.

Lemma work_upd_lt i f rs r :
  r ∈ rs -> rid r = i ->
  (forall r, r ∈ rs -> rid r = i -> (weight (f r) < weight r)%nat) ->
  (work (upd i f rs) < work rs)%nat.
Proof.
  unfold work, upd. induction rs as [|r' rs IH]; simpl; [set_solver|]. intros Hin Hi H.
  assert (Htl : forall r0, r0 ∈ rs -> rid r0 = i -> (weight (f r0) < weight r0)%nat).
  { intros r0 Hr0. apply H. by right. }
  assert (Hle : (work (upd i f rs) <= work rs)%nat).
  { apply work_upd_le. intros r0 Hr0 Hi0. specialize (Htl r0 Hr0 Hi0). lia. }
  unfold work, upd in Hle. destruct (String.eqb_spec (rid r') i) as [Hr'|Hne].
  - assert (weight (f r') < weight r')%nat by (apply H; [left|done]). lia.
  - apply elem_of_cons in Hin as [->|Hin]; [done|]. specialize (IH Hin Hi Htl). lia.
Qed.

(** ** The passes of the loop body *)

Lemma deferOne_work i why s :
  (work (x_recs (deferOne inp i why s)) <= work (x_recs s))%nat.
Proof.
  unfold deferOne. autorewrite with js. simpl. apply work_upd_le.
  intros r _ _. unfold weight, retriesLeft. cbn [set_status status spec retriesUsed]. lia.
Qed.

Lemma deferPending_work why todo s :
  (work (x_recs (deferPending inp why todo s)) <= work (x_recs s))%nat.
Proof.
  revert s. induction todo as [|i todo IH]; intros s; simpl; [lia|]. fold (deferOne inp i why s).
  etrans; [apply IH|apply deferOne_work].
Qed.

Lemma blockPass_work todo s c :
  (work (x_recs (blockPass inp todo s c).1) <= work (x_recs s))%nat.
Proof.
  revert s c. induction todo as [|i todo IH]; intros s c; simpl; [lia|].
  destruct (byId _ i) as [r|]; [|apply IH]. destruct (isPending r); [|apply IH].
  destruct (firstBlockingDep _ _) as [why|]; [|apply IH]. fold (deferOne inp i why s).
  etrans; [apply IH|apply deferOne_work].
Qed.

Lemma blockFix_work fuel s :
  (work (x_recs (blockFix inp fuel s)) <= work (x_recs s))%nat.
Proof.
  revert s. induction fuel as [|fuel IH]; intros s; simpl; [lia|].
  pose proof (blockPass_work (ids (x_recs s)) s false) as Hp.
  destruct (blockPass _ _ _ _) as [s' []]; simpl in Hp; [|done].
  etrans; [apply IH|done].
Qed.

Lemma aheads_app l1 l2 : aheads (l1 ++ l2) = (aheads l1 + aheads l2)%nat.
Proof. unfold aheads. by rewrite map_app, list_sum_app. Qed.

(** Updating the record [i]: what is left of the rest of the work. *)
Lemma work_upd_one i r r' rs :
  NoDup (ids rs) -> byId rs i = Some r -> rid r' = rid r ->
  (work (upd i (fun _ => r') rs) + weight r = work rs + weight r')%nat.
Proof.
  unfold work, upd, ids, byId. induction rs as [|r0 rs IH]; simpl; intros Hnd Hr Hid; [done|].
  apply NoDup_cons in Hnd as [Hr0 Hnd]. destruct (String.eqb_spec (rid r0) i) as [Hi|Hi].
  - injection Hr as ->. fold (upd i (fun _ => r') rs). rewrite upd_not_in; [lia|].
    unfold ids. by rewrite <- Hi.
  - specialize (IH Hnd Hr Hid). unfold work, upd in IH. lia.
Qed.

(** A stretch pays for what it makes of the record with the [await]s it puts
    behind. *)
Lemma stretch_pays p r n m :
  stretch inp (Some p) r n m -> (weight (n_rec n) + ahead m < weight r + 2 * S (rank p))%nat.
Proof.
  intros [[Hs Hd Ho Hu Hp _] Hrank _ _ _ _].
  assert (Ha : (ahead m <= 2 * rank p)%nat) by (destruct m; simpl in *; lia).
  unfold weight, retriesLeft. rewrite Hs, Ho. destruct Hu as [Hu|[Hlt Hu]]; rewrite Hu.
  - destruct (status (n_rec n)) as [| |[]] eqn:E; [rewrite (Hp eq_refl Hu)|..]; try lia.
    destruct (replanOffered r); lia.
  - destruct (status (n_rec n)) as [| |[]]; try lia. destruct (replanOffered r); lia.
Qed.

Lemma dispatchOne_pays i s :
  NoDup (ids (x_recs s)) -> stat (x_recs s) i = Some pending ->
  (work (x_recs (dispatchOne inp i s)) + aheads (x_inFlight (dispatchOne inp i s)) <=
   work (x_recs s) + aheads (x_inFlight s))%nat.
Proof.
  intros Hnd Hp. apply fmap_Some in Hp as (r & Hr & Hp). rewrite (dispatchOne_eq inp i r) by done.
  pose proof (first_stretch_ok inp r s) as [[Hs Hd Ho Hu Hpe _] Hrank _ _ _ _].
  destruct (first_stretch inp r s) as [n m]. cbn [fst snd x_recs x_inFlight] in *.
  rewrite aheads_app.
  assert (Ha : (aheads [(i, m)] <= 20)%nat) by (unfold aheads; destruct m; simpl in *; lia).
  pose proof (work_upd_one i r (n_rec n) (x_recs s) Hnd Hr ltac:(unfold rid; by rewrite Hs)) as Hw.
  assert (Hle : (weight (n_rec n) + 20 <= weight r)%nat); [|lia].
  unfold weight, retriesLeft. rewrite Hs, Ho, <- Hp.
  change (spec (set_status running (reason r) r)) with (spec r) in *.
  change (retriesUsed (set_status running (reason r) r)) with (retriesUsed r) in *.
  change (replanOffered (set_status running (reason r) r)) with (replanOffered r) in *.
  destruct Hu as [Hu|[Hlt Hu]]; rewrite Hu.
  - destruct (status (n_rec n)) as [| |[]] eqn:E; [by specialize (Hpe eq_refl Hu)|lia..|].
    destruct (replanOffered r); lia.
  - destruct (status (n_rec n)) as [| |[]]; try lia. destruct (replanOffered r); lia.
Qed.

Lemma dispatch_pays todo s :
  core inp s -> NoDup todo -> (forall i, i ∈ todo -> ready_in (x_recs s) i) ->
  (work (x_recs (dispatch inp todo s)) + aheads (x_inFlight (dispatch inp todo s)) <=
   work (x_recs s) + aheads (x_inFlight s))%nat.
Proof.
  revert s. induction todo as [|i todo IH]; intros s Hc Hnd Hp; simpl; [lia|].
  apply NoDup_cons in Hnd as [Hi Hnd].
  destruct (match maxConcurrencyOf inp with Some m => m <=? x_running s | None => false end)
    eqn:Ecap; [lia|].
  assert (Hri : ready_in (x_recs s) i) by (apply Hp; left).
  etrans; [apply IH; [| done |]|].
  - apply dispatchOne_core; [done|done|]. intros m Hm. rewrite Hm in Ecap. by apply Z.leb_gt in Ecap.
  - intros j Hj. apply ready_dispatchOne; [done|done|apply Hp; by right|]. by intros ->.
  - apply dispatchOne_pays; [by eapply core_ids|]. destruct Hri as (r & Hr & Hst & _).
    unfold stat. rewrite Hr. simpl. by rewrite Hst.
Qed.

End Measure.

Section Steps.
Context {W : Type} (inp : DagRunInput W).

Lemma dispatchOne_frame i (s : exec W) :
  x_budget (dispatchOne inp i s) = x_budget s /\ x_aborted (dispatchOne inp i s) = x_aborted s.
Proof. unfold dispatchOne. by destruct (byId (x_recs s) i). Qed.

Lemma dispatch_frame todo (s : exec W) :
  x_budget (dispatch inp todo s) = x_budget s /\ x_aborted (dispatch inp todo s) = x_aborted s.
Proof.
  revert s. induction todo as [|i todo IH]; intros s; simpl; [done|].
  destruct (IH (dispatchOne inp i s)) as [Hb Ha], (dispatchOne_frame i s) as [Hb1 Ha1].
  destruct (maxConcurrencyOf inp); [destruct (_ <=? _)|]; by rewrite ?Hb, ?Ha.
Qed.

(** Work and flights. *)
Definition load (s : exec W) : nat := (work inp (x_recs s) + aheads (x_inFlight s))%nat.

Lemma lt3_load (s s' : exec W) :
  x_budget s' = x_budget s -> x_aborted s' = x_aborted s ->
  (load s' < load s)%nat -> lt3 (measure inp s') (measure inp s).
Proof. intros Hb Ha Hw. right. unfold measure, load in *. simpl. rewrite Hb, Ha. lia. Qed.

Lemma lt3_pc (s s' : exec W) :
  x_budget s' = x_budget s -> x_aborted s' = x_aborted s -> (load s' <= load s)%nat ->
  (pcWeight (x_pc s') < pcWeight (x_pc s))%nat -> lt3 (measure inp s') (measure inp s).
Proof. intros Hb Ha Hw Hp. right. unfold measure, load in *. simpl. rewrite Hb, Ha. lia. Qed.

(** The load of a pass that leaves the flights alone. *)
Lemma calm_load (s s' : exec W) :
  calm inp s s' -> (work inp (x_recs s') <= work inp (x_recs s))%nat -> (load s' <= load s)%nat.
Proof. intros Hq Hw. unfold load. rewrite (q_flight _ _ _ Hq). lia. Qed.

(** Offering a failed node to the re-planner. *)
Lemma offer_load s r w :
  NoDup (ids (x_recs s)) -> r ∈ x_recs s -> replannable r = true ->
  (load (with_world w (with_recs (upd (rid r) (set_offered true) (x_recs s)) s)) < load s)%nat.
Proof.
  intros Hnd Hr [Hf Hoff]%andb_true_iff. apply bool_decide_eq_true in Hf.
  apply negb_true_iff in Hoff.
  assert (Hw : (work inp (upd (rid r) (set_offered true) (x_recs s)) < work inp (x_recs s))%nat);
    [|unfold load; simpl; lia].
  eapply work_upd_lt; [done|done|]. intros r' Hr' Hrid. assert (r' = r) as ->.
  { pose proof (byId_unique _ r Hnd Hr). pose proof (byId_unique _ r' Hnd Hr').
    rewrite Hrid in *. congruence. }
  unfold weight, retriesLeft. cbn [set_offered status spec retriesUsed replanOffered].
  rewrite Hf, Hoff. lia.
Qed.

Lemma dispatch_decreases s s1 :
  x_pc s = AtLoop -> calm inp s s1 -> (load s1 <= load s)%nat -> frontier (x_recs s1) <> [] ->
  let s2 := dispatch inp (frontier (x_recs s1)) s1 in
  lt3 (measure inp (if (0 <? length (x_inFlight s2))%nat then with_pc (AwaitRace false) s2
                    else with_pc AtLoop s2)) (measure inp s).
Proof.
  intros Hpc Hq Hload Hfr s2. pose proof (q_core _ _ _ Hq) as Hc1.
  destruct (frontier_ok _ (core_ids inp _ Hc1)) as [Hndf Hready].
  destruct (dispatch_launched inp _ s1 Hc1 Hndf Hready) as [_ Hfl]. specialize (Hfl Hfr).
  pose proof (dispatch_pays inp _ s1 Hc1 Hndf Hready) as Hpay.
  destruct (dispatch_frame (frontier (x_recs s1)) s1) as [Hb Ha]. fold s2 in Hb, Ha, Hfl, Hpay.
  destruct (Nat.ltb_spec 0 (length (x_inFlight s2))) as [_|Hle].
  - destruct Hq. apply lt3_pc; simpl; [congruence|congruence|unfold load in *; simpl; lia|].
    rewrite Hpc. simpl. lia.
  - exfalso. apply Hfl. by apply length_zero_iff_nil; lia.
Qed.

Lemma loop_body_decreases s :
  inv inp s -> x_pc s = AtLoop -> lt3 (measure inp (loop_body inp s)) (measure inp s).
Proof.
  intros [Hc _] Hpc. pose proof (core_ids inp s Hc) as Hnd. unfold loop_body.
  destruct (negb _). { apply lt3_pc; simpl; [done|done|done|rewrite Hpc; simpl; lia]. }
  destruct (x_aborted s) eqn:Hab.
  { pose proof (cancelAll_calm inp "cancelled" s Hc) as Hq.
    pose proof (calm_load _ _ Hq (deferPending_work inp _ _ s)) as Hl.
    destruct Hq. apply lt3_pc; simpl; [done|done|exact Hl|rewrite Hpc; simpl; lia]. }
  destruct (if hasReplanner inp && (0 <? x_budget s) then find_first replannable (x_recs s)
            else None) as [r|] eqn:Er.
  - destruct (hasReplanner inp && (0 <? x_budget s)) eqn:Eb; [|done].
    apply find_first_Some in Er as [Hr Hrep]. destruct (callReplanner _ _ _ _) as [w rep].
    apply lt3_load; simpl; [done|done|]. by apply (offer_load s r w).
  - generalize (S (length (x_recs s))). intros fuel.
    pose proof (blockFix_calm inp fuel s Hc) as Hfix.
    pose proof (calm_load _ _ Hfix (blockFix_work inp fuel s)) as Hload.
    destruct (Nat.eqb_spec (length (frontier (x_recs (blockFix inp fuel s)))) 0) as [Efr|Efr].
    + destruct (length (x_inFlight _) =? 0)%nat.
      * pose proof (cancelAll_calm inp "unresolved dependency" _ (q_core _ _ _ Hfix)) as Hcan.
        pose proof (calm_load _ _ Hcan (deferPending_work inp _ _ _)) as Hl.
        destruct (calm_trans _ _ _ _ Hfix Hcan).
        apply lt3_pc; simpl; [done|done|by etrans|rewrite Hpc; simpl; lia].
      * destruct Hfix. apply lt3_pc; simpl; [done|done|exact Hload|rewrite Hpc; simpl; lia].
    + apply dispatch_decreases; [done..|]. intros Hnil. by rewrite Hnil in Efr.
Qed.

Lemma resume_decreases k s s' :
  inv inp s -> resume k s = Some s' -> lt3 (measure inp s') (measure inp s).
Proof.
  intros [Hc _] H. destruct (resume_resumed inp k s s' Hc H) as
    (i & r & n & p & m & m' & l1 & l2 & [Hfl Hr Hrec Hb Ha _ Hst Hend]).
  apply lt3_load; [done|done|]. pose proof (stretch_pays inp p r n m' Hst) as Hpay.
  pose proof (work_upd_one inp i r (n_rec n) (x_recs s) (core_ids inp s Hc) Hr) as Hw.
  specialize (Hw ltac:(unfold rid; by rewrite (ev_spec _ _ _ (st_evolves _ _ _ _ _ Hst)))).
  unfold load. rewrite Hrec, Hfl.
  assert (Hmid : forall f : string * NodeM W unit,
      aheads (l1 ++ f :: l2) = (aheads (l1 ++ l2) + ahead f.2)%nat).
  { intros f. rewrite !aheads_app. unfold aheads. simpl. lia. }
  rewrite Hmid. change (ahead (i, NAwait p m).2) with (2 * S (rank p))%nat.
  destruct Hend as [(_ & -> & _)|(_ & -> & _)]; [|rewrite Hmid]; simpl snd; lia.
Qed.

Lemma afterReplan_decreases s i rep :
  inv inp s -> x_pc s = AwaitReplan i rep -> rep <> NeverSettles ->
  lt3 (measure inp (afterReplan inp i s rep)) (measure inp s).
Proof.
  intros [Hc Hpc] Epc Hrep. unfold pc_ok in Hpc. rewrite Epc in Hpc.
  destruct Hpc as (Hb & r & Hr & Hst).
  assert (Hann : forall note,
    lt3 (measure inp (with_pc AtLoop (annotate i note s))) (measure inp s)).
  { intros note. apply lt3_pc; simpl; [done|done| |rewrite Epc; simpl; lia].
    unfold load. simpl. apply Nat.add_le_mono_r, work_upd_le. intros r' _ _. done. }
  unfold afterReplan. rewrite Hr. destruct rep as [[returned|]|msg|]; [| |apply Hann|done].
  - destruct (validateReplan r returned (x_recs s)) as [why|]; [apply Hann|].
    destruct (spliceReplan i returned (x_recs s)) as [rs' n].
    left. unfold measure. simpl. autorewrite with js. simpl. lia.
  - apply lt3_pc; simpl; [done|done|done|rewrite Epc; simpl; lia].
Qed.

Lemma step_decreases s s' : inv inp s -> step inp s s' -> lt3 (measure inp s') (measure inp s).
Proof.
  intros Hinv Hstep. destruct Hstep as [s Hp|s k s' Hs|s Hp|s i rep Hp Hrep|s Hp Hfl|s Hsig Hab].
  - by apply loop_body_decreases.
  - by eapply resume_decreases.
  - apply lt3_pc; simpl; [done|done|done|rewrite Hp; simpl; lia].
  - by apply afterReplan_decreases.
  - apply lt3_pc; simpl; [done|done|done|rewrite Hp; simpl; lia].
  - right. unfold measure. simpl. rewrite Hab. lia.
Qed.

(** No infinite run from an invariant state. *)
Lemma inv_terminates s : inv inp s -> Acc (fun s2 s1 => step inp s1 s2) s.
Proof.
  remember (measure inp s) as m eqn:Hm. revert s Hm.
  induction m as [m IH] using (well_founded_induction lt3_wf). intros s -> Hinv.
  constructor. intros s' Hstep. eapply IH; [|done|].
  - by apply step_decreases.
  - by eapply step_inv.
Qed.

(** ** Deadlock-freedom *)

(** The steps other than the caller's abort. *)
Definition advances (s s' : exec W) : Prop := step inp s s' /\ x_aborted s' = x_aborted s.

(** What a stuck run waits for: the re-planner; or, in every node in flight, the
    journal ([at_recall], [at_record]), the executor ([at_executor], [at_rest])
    or the verifier ([at_probe], [at_verdict]). *)
Definition waits_forever (s : exec W) : Prop :=
  (exists i, x_pc s = AwaitReplan i NeverSettles) \/
  ((x_pc s = AwaitRace false \/ x_pc s = Drain) /\ x_inFlight s <> [] /\
   forall i m, (i, m) ∈ x_inFlight s -> exists p, m = NNever p /\
     p ∈ port_awaits).

Lemma loop_body_aborted s : core inp s -> x_aborted (loop_body inp s) = x_aborted s.
Proof.
  intros Hc. unfold loop_body. destruct (negb _); [done|].
  destruct (x_aborted s) eqn:Hab; [by rewrite <- Hab; apply (q_aborted _ _ _ (cancelAll_calm inp _ s Hc))|].
  rewrite <- Hab.
  destruct (if hasReplanner inp && (0 <? x_budget s) then find_first replannable (x_recs s) else None)
    as [r|]; [by destruct (callReplanner _ _ _ _)|].
  pose proof (blockFix_calm inp (S (length (x_recs s))) s Hc) as Hq.
  destruct (_ =? 0)%nat; [destruct (_ =? 0)%nat|].
  - etrans; [apply (q_aborted _ _ _ (cancelAll_calm inp _ _ (q_core _ _ _ Hq)))|apply Hq].
  - apply Hq.
  - match goal with |- context [dispatch inp ?l ?s1] => pose proof (dispatch_frame l s1) as [_ Hd] end.
    destruct (0 <? _)%nat; (etrans; [exact Hd|apply Hq]).
Qed.

Lemma afterReplan_aborted i s rep : x_aborted (afterReplan inp i s rep) = x_aborted s.
Proof.
  unfold afterReplan. destruct (byId (x_recs s) i) as [r|]; [|done].
  destruct rep as [[returned|]|msg|]; try done.
  destruct (validateReplan r returned (x_recs s)); [done|].
  destruct (spliceReplan i returned (x_recs s)). simpl. by autorewrite with js.
Qed.

Lemma resume_aborted k (s s' : exec W) : resume k s = Some s' -> x_aborted s' = x_aborted s.
Proof.
  unfold resume. destruct (x_inFlight s !! k) as [[i [| | |p m|]]|]; try done.
  destruct (byId (x_recs s) i); [|done]. intros [= <-]. by destruct (advance _ _).2.
Qed.

(** A node in flight can resume, unless it waits for a port forever. *)
Lemma flight_moves s i m : core inp s -> (i, m) ∈ x_inFlight s ->
  (exists s', advances s s') \/
  (exists p, m = NNever p /\ p ∈ port_awaits).
Proof.
  intros Hc Hin. destruct (c_flight inp s Hc i m Hin) as (r & Hr & Hm).
  destruct m as [| |p|p m|]; simpl in Hm; try done; [right; exists p; split; [done|apply Hm]|].
  left. apply list_elem_of_lookup_1 in Hin as [k Hk].
  assert (Hres : exists s', resume k s = Some s') by (unfold resume; rewrite Hk, Hr; by eexists).
  destruct Hres as [s' Hs']. exists s'. split; [by eapply step_node|by eapply resume_aborted].
Qed.

Lemma flights_move s : core inp s -> x_pc s = AwaitRace false \/ x_pc s = Drain ->
  x_inFlight s <> [] -> (exists s', advances s s') \/ waits_forever s.
Proof.
  intros Hc Hpc Hne.
  assert (Hall : (exists s', advances s s') \/ forall i m, (i, m) ∈ x_inFlight s ->
    exists p, m = NNever p /\ p ∈ port_awaits).
  { pose proof (flight_moves s) as Hmv. induction (x_inFlight s) as [|[i m] l IH] in Hmv |- *.
    - right. intros i m H. by apply elem_of_nil in H.
    - destruct (Hmv i m Hc (list_elem_of_here _ _)) as [?|Hp]; [by left|].
      assert (Hl : (exists s', advances s s') \/ forall i m, (i, m) ∈ l -> exists p, m = NNever p /\
          p ∈ port_awaits).
      { refine (IH _). intros j mj Hj Hin. apply (Hmv j); [done|by right]. }
      destruct Hl as [?|Hl]; [by left|]. right.
      intros j mj [[= -> ->]|Hj]%elem_of_cons; [done|by eapply Hl]. }
  destruct Hall as [?|Hall]; [by left|]. right. right. done.
Qed.

Lemma inv_progress s :
  inv inp s -> x_pc s <> Finished -> (exists s', advances s s') \/ waits_forever s.
Proof.
  intros [Hc Hpc] Hfin. unfold pc_ok in Hpc. destruct (x_pc s) as [|i rep|[]| |] eqn:E; [..|done].
  - left. eexists. split; [by apply step_loop|by apply loop_body_aborted].
  - destruct rep; [| |right; left; by exists i]; left; eexists; (split; [by eapply step_replan|]);
      apply afterReplan_aborted.
  - left. eexists. split; [by apply step_resume|done].
  - apply flights_move; auto.
  - destruct (x_inFlight s) as [|j l] eqn:Efl.
    + left. eexists. split; [by apply step_drained|done].
    + apply flights_move; [done|by right|]. by rewrite Efl.
Qed.
End Steps.
