(* ===== verification/DagProps.v ===== *)
(** Correctness of the DAG orchestration engine: the properties of a run,
    from its validation to its manifest. *)

From S2P Require Import Prelude JsNum JsValue DagTypes DagGraph Canonical DagReplan DagNode.
From S2P Require Import DagExec DagExecFacts DagInvariant DagTermination.
Open Scope js_scope.

(** * Validation *)

Definition spec_graph (ns : list DagNodeSpec) : graph := map (fun n => (id n, spec_deps n)) ns.

(** What [runDag] demands of the nodes it is given. *)
Record valid_nodes (ns : list DagNodeSpec) : Prop := {
  vn_nonempty : ns <> [];
  vn_names : forall n, n ∈ ns -> is_blank (id n) = false;
  vn_unique : NoDup (map id ns);
  vn_known : forall n d, n ∈ ns -> d ∈ spec_deps n -> d ∈ map id ns;
  vn_mapOver : forall n m, n ∈ ns -> mapOver n = Some m -> m ∈ spec_deps n;
  vn_acyclic : acyclic (spec_graph ns)
}.

Lemma buildRecordsFrom_complete seen ns :
  NoDup (map id ns) -> (forall i, i ∈ map id ns -> i ∉ seen) ->
  (forall n, n ∈ ns -> is_blank (id n) = false) ->
  buildRecordsFrom seen ns = Ok (map freshRecord ns).
Proof.
  revert seen. induction ns as [|n ns IH]; intros seen Hnd Hseen Hbl; simpl; [done|].
  rewrite Hbl by left. simpl in *. apply NoDup_cons in Hnd as [Hn Hnd].
  rewrite bool_decide_eq_false_2 by (apply Hseen; left). rewrite IH; [done|done| |].
  - intros i Hi. apply not_elem_of_cons. split; [by intros ->|]. apply Hseen. by right.
  - intros n' Hn'. apply Hbl. by right.
Qed.

Lemma assertNoMapOverMisuse_ok rs :
  assertNoMapOverMisuse rs = Ok tt <->
  forall r m, r ∈ rs -> mapOver (spec r) = Some m -> m ∈ deps r.
Proof.
  unfold assertNoMapOverMisuse. rewrite for_each_ok, Forall_forall. split.
  - intros H r m Hr Hm. specialize (H r Hr). simpl in H. rewrite Hm in H.
    apply throw_if_ok, negb_false_iff, bool_decide_eq_true in H. done.
  - intros H r Hr. destruct (mapOver (spec r)) as [m|] eqn:Hm; [|done].
    apply throw_if_ok, negb_false_iff, bool_decide_eq_true. by apply H.
Qed.

Lemma fresh_elem ns r : r ∈ map freshRecord ns <-> exists n, n ∈ ns /\ r = freshRecord n.
Proof. rewrite list_elem_of_In, in_map_iff. setoid_rewrite list_elem_of_In. naive_solver. Qed.

Lemma graph_of_fresh ns : graph_of (map freshRecord ns) = spec_graph ns.
Proof. unfold graph_of, spec_graph. by rewrite map_map. Qed.

Lemma ids_fresh ns : ids (map freshRecord ns) = map id ns.
Proof. unfold ids. by rewrite map_map. Qed.

Lemma fresh_closed ns :
  closed (spec_graph ns) <-> forall n d, n ∈ ns -> d ∈ spec_deps n -> d ∈ map id ns.
Proof.
  unfold closed. replace (spec_graph ns).*1 with (map id ns).
  2:{ unfold spec_graph. rewrite <- list_fmap_compose. done. }
  split.
  - intros H n d Hn Hd. eapply H; [|done]. unfold spec_graph.
    apply list_elem_of_In, in_map_iff. exists n. split; [done|by apply list_elem_of_In].
  - intros H i ds d Hi Hd. apply list_elem_of_In, in_map_iff in Hi as (n & [= <- <-] & Hn).
    apply list_elem_of_In in Hn. by apply (H n).
Qed.

Lemma acyclic_no_self ns n : acyclic (spec_graph ns) -> n ∈ ns -> id n ∉ spec_deps n.
Proof.
  intros [rank Hr] Hn Hin. assert (Hg : (id n, spec_deps n) ∈ spec_graph ns).
  { apply list_elem_of_In, in_map_iff. exists n. split; [done|by apply list_elem_of_In]. }
  specialize (Hr _ _ _ Hg Hin). lia.
Qed.

(** ** The four structural checks, together *)
Lemma checks_ok ns :
  ns <> [] ->
  (exists rs, buildRecords ns = Ok rs /\ assertNoMissingDeps rs = Ok tt /\
     assertNoMapOverMisuse rs = Ok tt /\ assertAcyclic rs = Ok tt) <-> valid_nodes ns.
Proof.
  intros Hne. split.
  - intros (rs & Hb & Hm & Hmo & Ha).
    apply buildRecordsFrom_ok in Hb as (-> & Hnd & _ & Hbl).
    apply assertNoMissingDeps_ok in Hm as [Hcl Hself]. rewrite graph_of_fresh in Hcl.
    apply assertAcyclic_ok in Ha; [|by rewrite ids_fresh|by rewrite graph_of_fresh].
    rewrite graph_of_fresh in Ha. split; try done.
    + by apply fresh_closed.
    + intros n m Hn Hm. rewrite assertNoMapOverMisuse_ok in Hmo.
      apply (Hmo (freshRecord n)); [|done]. apply fresh_elem. eauto.
  - intros [_ Hbl Hnd Hk Hmo Ha]. exists (map freshRecord ns).
    split_and!.
    + apply buildRecordsFrom_complete; [done|set_solver|done].
    + apply assertNoMissingDeps_ok. rewrite graph_of_fresh. split; [by apply fresh_closed|].
      intros r (n & Hn & ->)%fresh_elem. by apply (acyclic_no_self ns).
    + apply assertNoMapOverMisuse_ok. intros r m (n & Hn & ->)%fresh_elem. by apply Hmo.
    + apply assertAcyclic_ok; rewrite ?ids_fresh, ?graph_of_fresh; [done|by apply fresh_closed|done].
Qed.

Section Validation.
Context {W : Type} (inp : DagRunInput W).
Context `{Hashing}.

(** [runDag] starts a run (rather than throwing [DagSchedulerError]) exactly
    when the governing ADR and the run id are not blank, the nodes are
    non-empty with unique non-blank ids, known dependencies, well-placed
    [mapOver]s and no dependency cycle, and a verifier is there whenever a node
    asks for more than one sample. *)
Theorem startDag_validates (ab : bool) (w : W) :
  is_ok (startDag inp ab w) = true <->
  is_blank (adrEco inp) = false /\ is_blank (runId inp) = false /\
  valid_nodes (nodes inp) /\ (usesSampling inp = true -> hasVerifier inp = true).
Proof.
  unfold startDag. destruct (is_blank (adrEco inp)); [by split; [|intros [? _]]|].
  destruct (is_blank (runId inp)); [by split; [|intros (_ & ? & _)]|]. simpl.
  destruct (Nat.eqb_spec (length (nodes inp)) 0) as [Hlen|Hlen].
  { simpl. split; [done|]. intros (_ & _ & [Hne _ _ _ _ _] & _).
    by apply nil_length_inv in Hlen. }
  assert (Hne : nodes inp <> []) by (intros E; by rewrite E in Hlen).
  rewrite <- (checks_ok (nodes inp) Hne). simpl.
  destruct (buildRecords (nodes inp)) as [rs|e] eqn:Hb; simpl.
  2:{ split; [done|]. intros (_ & _ & (rs & Hrs & _) & _). congruence. }
  destruct (assertNoMissingDeps rs) as [[]|e] eqn:Hm; simpl.
  2:{ split; [done|]. intros (_ & _ & (rs' & [= <-] & ? & _) & _). congruence. }
  destruct (assertNoMapOverMisuse rs) as [[]|e] eqn:Hmo; simpl.
  2:{ split; [done|]. intros (_ & _ & (rs' & [= <-] & _ & ? & _) & _). congruence. }
  destruct (assertAcyclic rs) as [[]|e] eqn:Ha; simpl.
  2:{ split; [done|]. intros (_ & _ & (rs' & [= <-] & _ & _ & ?) & _). congruence. }
  rewrite computeRootHash_total. destruct (usesSampling inp), (hasVerifier inp); simpl;
    naive_solver.
Qed.
End Validation.

(** * Runs *)

Section Runs.
Context {W : Type} (inp : DagRunInput W).
Context `{Hashing}.

(** A state some run of the scheduler is in. *)
Definition reachable (s : exec W) : Prop :=
  exists ab w s0 h, startDag inp ab w = Ok (s0, h) /\ rtc (step inp) s0 s.

Lemma reachable_inv s : reachable s -> inv inp s.
Proof.
  intros (ab & w & s0 & h & H0 & Hs). apply startDag_inv in H0.
  by destruct (steps_inv inp _ _ H0 Hs).
Qed.

(** C1: in every reachable state [running] counts the promises in flight and
    never exceeds the concurrency bound, every record marked running belongs to a
    node in flight that has not settled it yet, every node in flight has a record,
    and the (possibly re-planned) graph has unique ids, no unknown dependency and
    no cycle.  If the journal never rejects a record, then also: a node that runs,
    or has run to an end, has all its dependencies done; and the nodes in flight
    that have not settled their record are exactly the running ones, each in
    flight once. *)
Theorem run_safe (s : exec W) (Hs : reachable s) :
  x_running s = Z.of_nat (length (x_inFlight s)) /\
  (forall m, maxConcurrencyOf inp = Some m -> x_running s <= m) /\
  (forall i, stat (x_recs s) i = Some running -> i ∈ live_ids (x_inFlight s)) /\
  (forall i m, (i, m) ∈ x_inFlight s -> is_Some (byId (x_recs s) i)) /\
  wf_graph (graph_of (x_recs s)) /\
  (reliable inp ->
   (forall r d, r ∈ x_recs s -> started (status r) -> d ∈ deps r -> is_done (x_recs s) d) /\
   (forall i, i ∈ live_ids (x_inFlight s) <-> stat (x_recs s) i = Some running) /\
   NoDup (live_ids (x_inFlight s))).
Proof.
  apply reachable_inv in Hs as [Hc _]. pose proof Hc as [].
  split_and!; [done|done|done| |done|].
  - intros i m (r & Hr & _)%c_flight. by exists r.
  - intros Hok. split; [by apply c_deps|]. split; [|by apply c_nodup]. intros i. split; [|apply c_run].
    intros (m & Hin & Hl)%live_ids_elem. destruct (c_flight i m Hin) as (r & Hr & Hm).
    unfold stat. rewrite Hr. simpl. by rewrite (parked_busy inp _ _ Hm Hl Hok).
Qed.

(** C3: if the journal never rejects a record, a done node keeps its record
    (status, output, attempts, reason) for the rest of the run, through every
    resumption of its own promise and of the others, re-planning, retries and
    cancellation included. *)
Theorem done_is_permanent (s s' : exec W) (Hs : reachable s) (Hstep : rtc (step inp) s s')
    (Hok : reliable inp) :
  forall i r, byId (x_recs s) i = Some r -> status r = settled done ->
    byId (x_recs s') i = Some r.
Proof. by apply (steps_inv inp s s' (reachable_inv s Hs) Hstep). Qed.

(** C2: no run is infinite; and a run that has not returned can take a step other
    than the caller's abort, unless it waits for a port that never settles: for
    the re-planner's reply, or, in every one of its nodes in flight, for the
    journal's recall or record, for the executor or for the verifier. *)
Theorem run_terminates (s : exec W) (Hs : reachable s) :
  Acc (fun s2 s1 => step inp s1 s2) s /\
  (x_pc s <> Finished ->
   (exists s', step inp s s' /\ x_aborted s' = x_aborted s) \/
   (exists i, x_pc s = AwaitReplan i NeverSettles) \/
   ((x_pc s = AwaitRace false \/ x_pc s = Drain) /\ x_inFlight s <> [] /\
    forall i m, (i, m) ∈ x_inFlight s -> exists p, m = NNever p /\
      p ∈ [at_recall; at_executor; at_probe; at_rest; at_verdict; at_record])).
Proof.
  apply reachable_inv in Hs. split; [by apply inv_terminates|]. intros Hfin.
  by apply (inv_progress inp s).
Qed.

(** ** The manifest *)

Lemma count_if_partition {A} (p q r : A -> bool) (l : list A) :
  (forall x, x ∈ l -> (p x = true /\ q x = false /\ r x = false) \/
     (p x = false /\ q x = true /\ r x = false) \/ (p x = false /\ q x = false /\ r x = true)) ->
  count_if p l + count_if q l + count_if r l = Z.of_nat (length l).
Proof.
  induction l as [|x l IH]; intros Hl; [done|].
  assert (Htl : count_if p l + count_if q l + count_if r l = Z.of_nat (length l)).
  { apply IH. intros y Hy. apply Hl. by right. }
  destruct (Hl x ltac:(left)) as [(Hp & Hq & Hr)|[(Hp & Hq & Hr)|(Hp & Hq & Hr)]];
    unfold count_if in *; simpl; rewrite Hp, Hq, Hr; simpl; lia.
Qed.

Lemma entry_settled (s : exec W) r : inv inp s -> x_inFlight s = [] -> r ∈ x_recs s ->
  exists st, e_status (manifestEntry r) = settled st.
Proof.
  intros [Hc _] Hfl Hr. pose proof (core_ids inp s Hc) as Hnd. unfold manifestEntry. simpl.
  unfold isPending. case_bool_decide as Hp; [by eexists|].
  destruct (status r) as [| |st] eqn:Hst; [done| |by eexists]. exfalso.
  assert (Hrun : rid r ∈ live_ids (x_inFlight s)).
  { apply (c_run inp s Hc). unfold stat. rewrite byId_unique by done. simpl. by rewrite Hst. }
  rewrite Hfl in Hrun. by apply elem_of_nil in Hrun.
Qed.

(** C4: the manifest of a finished run lists every node once, each settled; its
    summary partitions the nodes into done, deferred and failed; the workflow is
    [DONE] exactly when some node is done; the root hash is the one computed at
    the start. *)
Theorem manifest_correct (s : exec W) (h : string) (Hs : reachable s) (Hf : x_pc s = Finished) :
  let m := (finishDag inp h s).1 in
  map e_id (m_nodes m) = ids (x_recs s) /\ NoDup (map e_id (m_nodes m)) /\
  (forall e, e ∈ m_nodes m -> exists st, e_status e = settled st) /\
  total (summary m) = Z.of_nat (length (x_recs s)) /\
  n_done (summary m) + n_deferred (summary m) + n_failed (summary m) = total (summary m) /\
  (workflowStatus m = DONE <-> exists r, r ∈ x_recs s /\ status r = settled done) /\
  rootHash m = h.
Proof.
  pose proof (reachable_inv s Hs) as Hinv. pose proof Hinv as [Hc Hpc].
  unfold pc_ok in Hpc. rewrite Hf in Hpc.
  assert (Hent : forall e, e ∈ map manifestEntry (x_recs s) ->
      exists r, r ∈ x_recs s /\ e = manifestEntry r).
  { intros e He. apply list_elem_of_In, in_map_iff in He as (r & <- & Hr).
    exists r. split; [by apply list_elem_of_In|done]. }
  assert (Hset : forall e, e ∈ map manifestEntry (x_recs s) -> exists st, e_status e = settled st).
  { intros e He. destruct (Hent e He) as (r & Hr & ->). by eapply entry_settled. }
  simpl. split_and!.
  - unfold ids. by rewrite map_map.
  - rewrite map_map. apply (core_ids inp s Hc).
  - done.
  - by rewrite length_map.
  - apply count_if_partition. intros e He. destruct (Hset e He) as [st Hst].
    unfold entryIs. rewrite Hst. destruct st; simpl; rewrite ?bool_decide_eq_true_2, ?bool_decide_eq_false_2 by done; auto.
  - assert (Hcnt : 1 <= count_if (entryIs done) (map manifestEntry (x_recs s)) <->
        exists r, r ∈ x_recs s /\ status r = settled done).
    { unfold count_if. split.
      - intros Hle. destruct (List.filter _ _) as [|e l] eqn:El; [simpl in Hle; lia|].
        assert (He : In e (List.filter (entryIs done) (map manifestEntry (x_recs s))))
          by (rewrite El; by left).
        apply filter_In in He as [He Hd]. apply list_elem_of_In, Hent in He as (r & Hr & ->).
        exists r. split; [done|]. apply bool_decide_eq_true in Hd. simpl in Hd.
        unfold isPending in Hd. by case_bool_decide.
      - intros (r & Hr & Hd).
        assert (He : In (manifestEntry r) (List.filter (entryIs done) (map manifestEntry (x_recs s)))).
        { apply filter_In. split; [by apply in_map, list_elem_of_In|]. apply bool_decide_eq_true.
          simpl. unfold isPending. by rewrite Hd, bool_decide_eq_false_2. }
        destruct (List.filter _ _); [done|]. simpl. lia. }
    rewrite <- Hcnt. destruct (Z.leb_spec 1 (count_if (entryIs done) (map manifestEntry (x_recs s))));
      split; done || lia.
  - done.
Qed.

(** When the fixpoint of the blocking pass has been reached and nothing is
    in flight, an empty ready frontier means that no node is left: the
    scheduler's "unresolved dependency" guard never defers a node. *)
Theorem no_unresolved_dependency (s : exec W) (Hs : reachable s) :
  let s1 := blockFix inp (S (length (x_recs s))) s in
  (forall i, ~ blocked (x_recs s1) i) /\
  (x_inFlight s1 = [] -> frontier (x_recs s1) = [] -> pendingIds (x_recs s1) = []).
Proof.
  pose proof (reachable_inv s Hs) as [Hc _]. intros s1.
  assert (Hb : forall i, ~ blocked (x_recs s1) i).
  { apply blockFix_reached; [done|]. pose proof (nPending_bound (x_recs s)). lia. }
  split; [done|]. intros Hfl Hfr.
  apply (frontier_progress inp); [|done|done|done].
  apply (blockFix_calm inp (S (length (x_recs s))) s Hc).
Qed.

(** The final drain is final: from a state that drains, the run only resumes
    the nodes in flight and returns: no node is dispatched and no failed node is
    offered to the re-planner any more, so a record that is pending then stays
    pending. *)
Theorem drain_is_final (s s' : exec W) (Hs : reachable s) (Hpc : x_pc s = Drain) (Hsteps : rtc (step inp) s s') :
  (x_pc s' = Drain \/ x_pc s' = Finished) /\
  (forall i, i ∈ (x_inFlight s').*1 -> i ∈ (x_inFlight s).*1) /\
  (forall i r, byId (x_recs s) i = Some r -> i ∉ (x_inFlight s).*1 -> byId (x_recs s') i = Some r).
Proof.
  set (G := fun s0 : exec W => inv inp s0 /\ (x_pc s0 = Drain \/ x_pc s0 = Finished) /\
    (forall i, i ∈ (x_inFlight s0).*1 -> i ∈ (x_inFlight s).*1) /\
    (forall i r, byId (x_recs s) i = Some r -> i ∉ (x_inFlight s).*1 ->
       byId (x_recs s0) i = Some r)).
  enough (Hone : forall s1 s2, G s1 -> step inp s1 s2 -> G s2).
  { assert (H0 : G s) by (split; [by apply reachable_inv|split_and!; [by left|done|done]]).
    enough (G s') as [_ ?] by done. clear Hs Hpc. clearbody G. revert H0.
    induction Hsteps as [s1|s1 s2 s3 H1 _ IH]; intros H0; [done|].
    apply IH; eauto. }
  intros s1 s2 (Hinv & Hp & Hfl & Hrec) Hstep.
  split; [by eapply step_inv|]. pose proof Hinv as [Hc _].
  destruct Hstep as [s1 Hp1|s1 k s2 Hs1|s1 Hp1|s1 i rep Hp1 Hrep|s1 Hp1 Hfl1|s1 Hsig Hab];
    try (by destruct Hp; congruence).
  - destruct (resume_resumed inp k s1 s2 Hc Hs1) as (i & r & n & p & m & m' & l1 & l2 & Hrs).
    pose proof (resumed_safe inp k s1 s2 i r n p m m' l1 l2 Hc Hrs) as Hu.
    destruct Hrs as [Hfl1 Hr Hrecs _ _ _ _ Hend]. rewrite Hfl1, fmap_app, fmap_cons in Hfl.
    assert (Hi : i ∈ (x_inFlight s).*1) by (apply Hfl, elem_of_app; right; left).
    split_and!.
    + destruct Hend as [(_ & _ & _ & ->)|(_ & _ & _ & ->)]; [|done].
      destruct Hp as [-> | ->]; [by left|by right].
    + intros j Hj. apply Hfl. destruct Hend as [(_ & E & _)|(_ & E & _)]; rewrite E in Hj.
      * rewrite fmap_app in Hj. apply elem_of_app in Hj as [?|?]; apply elem_of_app; [by left|].
        right. by right.
      * by rewrite fmap_app, fmap_cons in Hj.
    + intros j r' Hr' Hj. rewrite Hrecs, (safe_upd_byId (reliable inp)); [|by apply (core_ids inp)|done].
      rewrite decide_False by (by intros ->). by apply Hrec.
  - split_and!; [by right|done|done].
  - done.
Qed.
End Runs.

(** * Re-planning *)

(** The graph a replan would leave: the nodes other than the failed one, then
    the returned ones. *)
Definition replanned_graph (fid : string) (returned : list DagNodeSpec) (rs : list NodeRecord)
    : graph :=
  graph_of (List.filter (fun r => negb (rid r =? fid)%string) rs) ++ spec_graph returned.

Record valid_replan (failed : NodeRecord) (returned : list DagNodeSpec) (rs : list NodeRecord)
    : Prop := {
  vr_last : exists front l, returned = front ++ [l] /\ id l = rid failed;
  vr_names : forall n, n ∈ returned -> is_blank (id n) = false;
  vr_unique : NoDup (map id returned);
  vr_fresh : forall n, n ∈ returned -> id n <> rid failed -> id n ∉ ids rs;
  vr_closed : closed (replanned_graph (rid failed) returned rs);
  vr_acyclic : acyclic (replanned_graph (rid failed) returned rs)
}.

Lemma internalIds_complete seen ns :
  NoDup (map id ns) -> (forall n, n ∈ ns -> id n ∉ seen /\ is_blank (id n) = false) ->
  internalIds seen ns = None.
Proof.
  revert seen. induction ns as [|n ns IH]; intros seen Hnd Hok; simpl; [done|].
  destruct (Hok n ltac:(left)) as [Hs Hb]. rewrite Hb, bool_decide_eq_false_2 by done.
  simpl in Hnd. apply NoDup_cons in Hnd as [Hn Hnd]. apply IH; [done|].
  intros n' Hn'. destruct (Hok n' ltac:(by right)) as [Hs' Hb']. split; [|done].
  apply not_elem_of_cons. split; [|done]. intros Heq. apply Hn. rewrite <- Heq.
  by apply list_elem_of_In, in_map, list_elem_of_In.
Qed.

Lemma idCollision_complete fid rs ns :
  (forall n, n ∈ ns -> id n <> fid -> id n ∉ ids rs) -> idCollision fid rs ns = None.
Proof.
  induction ns as [|n ns IH]; simpl; [done|]. intros Hok.
  assert (Htl : idCollision fid rs ns = None).
  { apply IH. intros n' Hn'. apply Hok. by right. }
  destruct (String.eqb_spec (id n) fid) as [|Hne]; [done|].
  by rewrite (proj2 (byId_None rs (id n)) (Hok n ltac:(left) Hne)).
Qed.

Lemma count_reused fid front (l : DagNodeSpec) :
  id l = fid -> NoDup (map id (front ++ [l])) ->
  count_if (fun n => (id n =? fid)%string) (front ++ [l]) = 1.
Proof.
  intros <- Hnd. unfold count_if. rewrite List.filter_app, length_app. simpl.
  rewrite String.eqb_refl. rewrite map_app in Hnd. apply NoDup_app in Hnd as (_ & Hf & _).
  replace (List.filter _ front) with (@nil DagNodeSpec); [done|]. symmetry.
  destruct (List.filter _ front) as [|n f] eqn:E; [done|]. exfalso.
  assert (Hn : In n (List.filter (fun n => (id n =? id l)%string) front)) by (rewrite E; by left).
  apply filter_In in Hn as [Hn Heq]. apply String.eqb_eq in Heq.
  apply (Hf (id n)); [by apply list_elem_of_In, in_map|]. simpl. rewrite Heq. left.
Qed.

(** The duplicate-free combined graph passes Kahn's check exactly when it is
    acyclic, and the dependency check exactly when it is closed besides. *)
Lemma combined_ok fid rs ns :
  NoDup (ids rs) -> NoDup (map id ns) ->
  (forall n, n ∈ ns -> id n <> fid -> id n ∉ ids rs) ->
  let g := replanned_graph fid ns rs in
  combinedDeps fid rs ns = g /\ NoDup g.*1 /\
  (badDeps g g = None -> length (placed_ids g) = length g -> closed g /\ acyclic g) /\
  (closed g -> acyclic g -> badDeps g g = None /\ length (placed_ids g) = length g).
Proof.
  intros Hnd Hns Hfresh g.
  assert (Hg : combinedDeps fid rs ns = g) by (by apply combinedDeps_eq).
  assert (Hndg : NoDup g.*1) by (rewrite <- Hg; by apply combinedDeps_nodup).
  split_and!; [done|done| |].
  - rewrite badDeps_None. intros Hb Hk.
    assert (Hcl : closed g) by (intros i ds d Hi Hd; by apply (Hb i ds d)).
    split; [done|]. by apply kahn_correct.
  - intros Hcl Hac. rewrite badDeps_None. split; [|by apply kahn_correct].
    intros i ds d Hi Hd. split; [by eapply Hcl|]. intros ->.
    destruct Hac as [rank Hr]. specialize (Hr i ds i Hi Hd). lia.
Qed.

(** The scheduler accepts a re-planned sub-DAG for a failed node exactly
    when it is well-formed: the failed id comes last and once, ids are fresh,
    unique and not blank, and the combined graph has no unknown dependency and
    no cycle. *)
Theorem validateReplan_decides (failed : NodeRecord) (ns : list DagNodeSpec)
    (rs : list NodeRecord) (Hnd : NoDup (ids rs)) :
  validateReplan failed ns rs = None <-> valid_replan failed ns rs.
Proof.
  split.
  - intros Hv. pose proof (validateReplan_shape _ _ _ Hv) as (front & l & -> & Hl & Hns & Hfr & Hb & Hk).
    destruct (combined_ok _ _ _ Hnd Hns Hfr) as (Hg & _ & Hok & _). rewrite Hg in Hb, Hk.
    destruct (Hok Hb Hk). split; try done; [eauto|].
    unfold validateReplan in Hv. rewrite last_snoc, Hl, String.eqb_refl in Hv. simpl in Hv.
    destruct (front ++ [l]) as [|n0 ns0] eqn:Ens; [set_solver|].
    destruct (_ =? 0); [done|]. destruct (1 <? _); [done|].
    destruct (internalIds [] (n0 :: ns0)) eqn:Ei; [done|].
    apply internalIds_None in Ei as [_ Hnames]. intros n Hn. by apply Hnames.
  - intros [(front & l & -> & Hl) Hnames Hns Hfr Hcl Hac].
    destruct (combined_ok _ _ _ Hnd Hns Hfr) as (Hg & _ & _ & Hok).
    destruct (Hok Hcl Hac) as [Hb Hk]. unfold validateReplan.
    rewrite count_reused, last_snoc, Hl, String.eqb_refl by done. simpl.
    rewrite internalIds_complete by first [done | intros n Hn; split; [set_solver|by apply Hnames]].
    rewrite idCollision_complete, Hg, Hb, Hk, Nat.eqb_refl by done.
    by destruct (front ++ [l]) eqn:E; [destruct front|].
Qed.

(** ** Governance hash *)

(** The root hash of a run is that of its governance payload: it always
    exists, and it is unchanged by the order of the nodes and of their
    dependencies and by everything else about the records (status, outputs,
    attempts, timeouts, ...). *)
Theorem rootHash_stable `{Hashing} (adr : string) (rs rs1 rs' : list NodeRecord)
    (Hnd : NoDup (ids rs)) (Hperm : rs ≡ₚ rs1) (Hsame : Forall2 same_governance rs1 rs') :
  computeRootHash adr rs' = computeRootHash adr rs /\
  exists h, computeRootHash adr rs = Ok h.
Proof.
  split; [|rewrite computeRootHash_total; by eexists].
  unfold computeRootHash, rootPayload. do 5 f_equal.
  rewrite (fingerprints_perm _ _ Hnd Hperm). unfold nodeFingerprints.
  by rewrite (fingerprints_same _ _ Hsame).
Qed.

Lemma map_JStr_inj l l' : map JStr l = map JStr l' -> l = l'.
Proof.
  revert l'. induction l as [|x l IH]; intros [|y l'] E; simpl in E; try done.
  injection E as -> E. by rewrite (IH l').
Qed.

Lemma fingerprint_val_inj l l' : map fingerprint_val l = map fingerprint_val l' -> l = l'.
Proof.
  revert l'. induction l as [|[i ds] l IH]; intros [|[j es] l'] E; simpl in E; try done.
  injection E as -> Hds E. apply map_JStr_inj in Hds as ->. by rewrite (IH l').
Qed.

(** Two runs share a governance payload (what the root hash is taken of)
    only if they agree on the ADR and on every node's id and dependencies. *)
Lemma rootPayload_binding (adr adr' : string) (rs rs' : list NodeRecord)
    (Heq : rootPayload adr rs = rootPayload adr' rs') :
  adr = adr' /\
  map (fun r => (rid r, sort_strings (deps r))) rs ≡ₚ
  map (fun r => (rid r, sort_strings (deps r))) rs'.
Proof.
  unfold rootPayload in Heq. injection Heq as -> Hf. split; [done|].
  apply fingerprint_val_inj in Hf. unfold nodeFingerprints in Hf.
  rewrite <- (sort_by_perm fingerprint_cmp (map _ rs)), Hf. apply sort_by_perm.
Qed.
