(* ===== verification/DagNodeProps.v ===== *)
(** Correctness of a single node's run: best-of-N, map-over, journal recall,
    retries and timeouts of the DAG engine. *)

From S2P Require Import Prelude JsNum JsValue DagTypes DagGraph Canonical DagReplan DagNode.
From S2P Require Import DagExec DagExecFacts DagInvariant DagTermination DagProps.

Open Scope js_scope.

(** * Runs of a node amid the others

    [runs_to R m s a s']: [m], run from [s], fulfils with [a] in [s'], where at
    every [await] anything may happen to the world, the progress stream, the
    other records and the abort flag, and [R] to the node's own record. *)
Inductive runs_to {W A} (R : NodeRecord -> NodeRecord -> Prop)
    : NodeM W A -> nst W -> A -> nst W -> Prop :=
| runs_ret a s : runs_to R (NRet a) s a s
| runs_do f k s a s' : runs_to R (k s) (f s) a s' -> runs_to R (NDo f k) s a s'
| runs_await p k s s1 a s' :
    R (n_rec s) (n_rec s1) -> runs_to R k s1 a s' -> runs_to R (NAwait p k) s a s'.

(** Any guarantee will do when the result is what matters. *)
Definition amid (R : NodeRecord -> NodeRecord -> Prop) : protocol :=
  mkProtocol (fun _ _ _ _ => True) (fun _ => R) (fun _ => True).

Lemma wp_runs_to {W A} R (m : NodeM W A) s a s' :
  runs_to R m s a s' -> forall o r0 (Q : A -> nst W -> Prop),
    wp (amid R) o r0 m (fun _ _ => Q) (fun _ _ _ _ => True) s -> Q a s'.
Proof.
  induction 1 as [a s|f k s a s' _ IH|p k s s1 a s' HR _ IH]; intros o r0 Q H; simpl in H.
  - exact H.
  - by eapply IH.
  - eapply IH, H, HR.
Qed.

Section NodeProps.
Context {W : Type} (inp : DagRunInput W).

(** * Best-of-N *)

(** The output was accepted by the verifier, over non-null candidates. *)
Definition verified (sp : DagNodeSpec) (inputs : NodeInputs) (out : jsval) : Prop :=
  exists v w cands w' verdict,
    verifier inp = Some v /\ v w cands sp inputs = (w', Fulfilled verdict) /\
    cands <> [] /\ Forall (fun c => is_null c = false) cands /\
    is_null (accepted verdict) = false /\ out = accepted verdict.

Definition same_spec (r r' : NodeRecord) : Prop := spec r' = spec r.

(** How best-of-N may leave the record. *)
Definition bon_post (sp : DagNodeSpec) (inputs : NodeInputs) (r : NodeRecord) : Prop :=
  (status r = settled failed /\ output r = JNull) \/
  (status r = settled done /\ verified sp inputs (output r)).

Definition bon (sp : DagNodeSpec) (inputs : NodeInputs) (m : NodeM W unit) : Prop :=
  forall o r0 s, spec (n_rec s) = sp ->
    wp (amid same_spec) o r0 m (fun _ _ _ s' => bon_post sp inputs (n_rec s'))
      (fun _ _ _ _ => True) s.

Lemma runBatch_candidates p inputs n i c
    (Q : origin -> NodeRecord -> list jsval -> nst W -> Prop) o r0 s :
  (forall cs o r s', Forall (fun c => is_null c = false) cs -> spec (n_rec s') = spec (n_rec s) ->
     Q o r cs s') ->
  wp (amid same_spec) o r0 (runBatch inp p inputs n i c) Q (fun _ _ _ _ => True) s.
Proof.
  intros HQ. unfold runBatch. apply wp_bind, wp_get_rec, wp_bind.
  apply swift_promise_all; [auto 10 with js|]. intros outs s1 Hs1.
  apply wp_bind, wp_await_opt; [done|done|]. intros os s2 _ Hs2. simpl. apply HQ.
  - apply Forall_forall. intros x Hx.
    apply list_elem_of_In, in_map_iff in Hx as (y & <- & Hy).
    apply filter_In in Hy as [_ Hy]. apply andb_true_iff in Hy as [_ Hy].
    by apply negb_true_iff in Hy.
  - rewrite <- Hs1. exact Hs2.
Qed.

(** The verdict of a call on non-null candidates. *)
Definition verdict_of (sp : DagNodeSpec) (inputs : NodeInputs) (d : VerifierVerdict) : Prop :=
  is_null (accepted d) = false -> verified sp inputs (accepted d).

Lemma callVerifier_verdict sp p cands inputs
    (Q : origin -> NodeRecord -> VerifierVerdict -> nst W -> Prop) o r0 s :
  spec (n_rec s) = sp -> cands <> [] -> Forall (fun c => is_null c = false) cands ->
  (forall d o r s', verdict_of sp inputs d -> spec (n_rec s') = sp -> Q o r d s') ->
  wp (amid same_spec) o r0 (callVerifier inp p cands inputs) Q (fun _ _ _ _ => True) s.
Proof.
  intros Hsp Hne Hc HQ. unfold callVerifier. apply wp_bind, wp_get_rec.
  destruct (verifier inp) as [v|] eqn:Ev; [|done]. apply wp_port; [done|done| |done].
  intros d s' Hd Hs'. apply HQ; [|by rewrite <- Hsp]. intros Hacc.
  rewrite Hsp in Hd. exists v, (n_world s), cands, (v (n_world s) cands sp inputs).1, d.
  split; [done|]. split; [|done]. rewrite <- Hd. by destruct (v _ _ _ _).
Qed.

Lemma settle_bon sp inputs d n : verdict_of sp inputs d -> bon sp inputs (settle inp d n).
Proof.
  intros Hd o r0 s Hs. unfold settle. apply wp_bind, wp_get_rec, wp_bind, swift_emit.
  intros [] s' Hs'. destruct (is_null (accepted d)) eqn:En; apply wp_mod_rec; [by left|right].
  split; [done|]. by apply Hd.
Qed.

Lemma verifyAll_bon sp inputs cands :
  Forall (fun c => is_null c = false) cands -> bon sp inputs (verifyAll inp cands inputs).
Proof.
  intros Hc o r0 s Hs. unfold verifyAll. apply wp_bind, wp_get_rec.
  destruct (Nat.eqb_spec (length cands) 0) as [_|Hne].
  - unfold failClosedNoCandidates. apply wp_bind, wp_get_rec, wp_bind, wp_mod_rec, swift_emit.
    intros [] s' ->. by left.
  - apply wp_bind, (callVerifier_verdict sp); [done|by intros ->|done|].
    intros d o' r s' Hd Hs'. by apply settle_bon.
Qed.

(** C18: best-of-N is fail-closed: whatever batches run, and whatever the other
    nodes do meanwhile, a node settles done only with an output the verifier
    accepted over at least one non-null candidate; in every other case it
    settles failed, without output. *)
Theorem bestOfN_fail_closed (inputs : NodeInputs) (n : Z) (s s' : nst W)
    (Hrun : runs_to same_spec (runBestOfN inp inputs n) s tt s') :
  (status (n_rec s') = settled failed /\ output (n_rec s') = JNull) \/
  (status (n_rec s') = settled done /\ verified (spec (n_rec s)) inputs (output (n_rec s'))).
Proof.
  enough (Hb : bon (spec (n_rec s)) inputs (runBestOfN inp inputs n)).
  { exact (wp_runs_to _ _ _ _ _ Hrun None (n_rec s) _ (Hb None (n_rec s) s eq_refl)). }
  clear Hrun s'. generalize (spec (n_rec s)). clear s. intros sp o r0 s Hs. unfold runBestOfN.
  apply wp_bind, runBatch_candidates. intros cands o1 r1 s1 Hc Hs1. apply wp_bind, wp_mod_rec.
  set (s2 := with_rec _ _). assert (Hs2 : spec (n_rec s2) = sp) by (simpl; by rewrite Hs1).
  clearbody s2. destruct (_ <? n); [|by apply verifyAll_bon].
  assert (Hrest : bon sp inputs (let! more := runBatch inp at_rest inputs n (phase1SizeOf inp n)
      (n - phase1SizeOf inp n) in
      mod_rec (set_attempts n) ;;; verifyAll inp (cands ++ more) inputs)).
  { intros o3 r3 s3 Hs3. apply wp_bind, runBatch_candidates. intros more o4 r4 s4 Hm Hs4.
    apply wp_bind, wp_mod_rec, verifyAll_bon; [by apply Forall_app|]. simpl. by rewrite Hs4. }
  destruct (Nat.ltb_spec 0 (length cands)) as [Hlt|_].
  - apply wp_bind, wp_bind. assert (Hne : cands <> []) by (intros ->; simpl in Hlt; lia).
    apply (callVerifier_verdict sp); [done..|]. intros d o3 r3 s3 Hd Hs3. simpl.
    destruct (earlyAccept inp d); [by apply settle_bon|by apply Hrest].
  - apply wp_bind. by apply Hrest.
Qed.

(** * Map-over *)

(** What map-over makes of its children's outcomes: the done outputs in order,
    with the count of the others, or a failure when there is none. *)
Definition mapOver_result (outs : list NodeOutcome) (r : NodeRecord) : Prop :=
  let oks := List.filter isDoneOutcome outs in
  attempts r = Z.of_nat (length outs) /\
  ((oks = [] /\ outs <> [] /\ status r = settled failed /\ output r = JNull) \/
   ((oks <> [] \/ outs = []) /\ status r = settled done /\ output r = JArr (map o_output oks) /\
    (reason r = None <-> Forall (fun o => isDoneOutcome o = true) outs))).

Lemma filter_length_all {A} (p : A -> bool) l :
  length (List.filter p l) = length l <-> Forall (fun x => p x = true) l.
Proof.
  induction l as [|x l IH]; simpl; [split; [constructor|done]|].
  rewrite Forall_cons, <- IH. pose proof (List.filter_length_le p l) as Hle.
  destruct (p x) eqn:E; simpl; [|intuition lia]. intuition lia.
Qed.

(** One outcome per call. *)
Lemma promise_all_length {A B} pr (f : A -> NodeM W (option B)) xs
    (Q : origin -> NodeRecord -> option (list B) -> nst W -> Prop) E o r0 s :
  (forall x, swift (f x)) ->
  (forall os s', (forall ys, os = Some ys -> length ys = length xs) -> n_rec s' = n_rec s ->
     Q o r0 os s') ->
  wp pr o r0 (promise_all f xs) Q E s.
Proof.
  intros Hf. revert s Q. induction xs as [|x xs IH]; intros s Q HQ; simpl.
  { apply HQ; [|done]. by intros ys [= <-]. }
  apply wp_bind, Hf. intros y s1 Hs1. apply wp_bind, IH. intros ys s2 Hys Hs2. simpl. apply HQ.
  - intros zs Hzs. destruct y, ys as [l|]; simplify_eq/=. by rewrite (Hys l).
  - by rewrite Hs2, Hs1.
Qed.

Lemma enumerate_length {A} i (l : list A) : length (enumerate i l) = length l.
Proof. revert i. induction l as [|x l IH]; intros i; simpl; [done|]. by rewrite IH. Qed.

(** Map-over runs one child per element of the resolved array and succeeds
    partially: done with the outputs of the children that are done, in order,
    its reason counting the others; failed when no child is done; and failed
    without running any child when the field does not hold an array.  The node
    has its record to itself meanwhile. *)
Theorem runMapOver_partial (m : string) (inputs : NodeInputs) (s s' : nst W)
    (Hrun : runs_to eq (runMapOver inp m inputs) s tt s') :
  match as_array (get_field m inputs) with
  | None => n_world s' = n_world s /\ status (n_rec s') = settled failed
  | Some arr => exists outs, length outs = length arr /\ mapOver_result outs (n_rec s')
  end.
Proof.
  refine (wp_runs_to _ _ _ _ _ Hrun None (n_rec s) (fun _ s' => match as_array (get_field m inputs)
    with None => n_world s' = n_world s /\ status (n_rec s') = settled failed
    | Some arr => exists outs, length outs = length arr /\ mapOver_result outs (n_rec s') end) _).
  clear Hrun. unfold runMapOver. apply wp_bind, wp_get_rec.
  destruct (as_array (get_field m inputs)) as [arr|]; [|by apply wp_mod_rec].
  apply wp_bind, wp_mod_rec. cbv zeta.
  destruct (Z.eqb_spec (Z.of_nat (length arr)) 0) as [Hz|Hnz].
  { apply wp_mod_rec. exists []. split; [simpl; lia|]. split; [simpl; lia|]. right. simpl.
    split_and!; [by right|done|done|]. split; [constructor|done]. }
  apply wp_bind, promise_all_length; [auto 10 with js|]. intros os s1 Ho Hs1.
  apply wp_bind, wp_await_opt; [done|done|]. intros outs s2 -> Hs2. simpl in Hs2.
  specialize (Ho outs eq_refl). rewrite enumerate_length in Ho.
  assert (Hat : attempts (n_rec s2) = Z.of_nat (length arr)) by (by rewrite <- Hs2, Hs1).
  clear Hs1 Hs2 s1. unfold mapOver_result.
  pose proof (filter_length_all isDoneOutcome outs) as Hall.
  pose proof (List.filter_length_le isDoneOutcome outs) as Hle.
  destruct (Z.eqb_spec (Z.of_nat (length (List.filter isDoneOutcome outs))) 0) as [Hk|Hk];
    apply wp_mod_rec; exists outs; (split; [done|]); simpl; rewrite Hat;
    (split; [by rewrite Ho|]).
  - left. split_and!; [by apply length_zero_iff_nil; lia| |done|done].
    intros ->. simpl in Ho. lia.
  - right. split_and!; [left; intros E; by rewrite E in Hk|done|done|]. rewrite <- Hall.
    destruct (Z.eqb_spec (Z.of_nat (length (List.filter isDoneOutcome outs)))
      (Z.of_nat (length arr))) as [He|He]; [split; [lia|done]|split; [done|lia]].
Qed.

(** * Journal *)

(** A node whose journal entry is done is resumed from it: it asks the journal
    first, and when the entry arrives no executor or verifier call is made (the
    world only sees two clock readings), and the record takes the journalled
    output and attempts. *)
Theorem journal_resumes (j : StepJournal W) (e : NodeManifestEntry) (w1 w2 w3 : W) (t2 t3 : Z)
    (s s1 : nst W)
    (Hj : journal inp = Some j)
    (Hrecall : recall j (n_world s) (runId inp) (rid (n_rec s)) = (w1, Fulfilled (Some e)))
    (Hdone : e_status e = settled done)
    (Hc2 : clock inp (n_world s1) = (w2, t2)) (Hc3 : clock inp w2 = (w3, t3)) :
  exists k, advance (runNode inp) s = (with_nworld w1 s, NAwait at_recall k) /\
  exists evs, advance k s1 = (mkNst w3 evs (resumeRecord e (n_rec s1)) (n_aborted s1) (n_recs s1),
                              NRet tt) /\
    (hasProgress inp = true ->
     evs = n_evs s1 ++ [node_resumed (runId inp) (rid (n_rec s1)) t2;
                        node_done (runId inp) (rid (n_rec s1)) (e_output e) t3]).
Proof.
  unfold runNode, recallDone. simpl. rewrite Hj. simpl. rewrite Hrecall. simpl.
  eexists. split; [done|]. simpl. rewrite Hdone, bool_decide_eq_true_2 by done. simpl.
  rewrite Hc2. simpl. rewrite Hc3. simpl. eexists. split; [done|].
  intros ->. by rewrite <- app_assoc.
Qed.
End NodeProps.

(** * Facts of every record and every node in flight along a run *)

Section AllRecords.
Context {W : Type} (inp : DagRunInput W).
Context (P : NodeRecord -> Prop) (F : NodeM W unit -> Prop).
Context (S : DagNodeSpec -> Prop) (R : Reply (option (list DagNodeSpec)) -> Prop).
(** [P] does not depend on status, reason or replan flag, holds of fresh
    records, and every stretch of a node's run keeps it; [F] holds of what every
    stretch leaves; [R] of every reply of the re-planner. *)
Context (Pstatus : forall st why r, P r -> P (set_status st why r)).
Context (Poffered : forall b r, P r -> P (set_offered b r)).
Context (Pfresh : forall n, S n -> P (freshRecord n)).
Context (Pevolves : forall r r', evolves inp r r' -> P r -> P r').
Context (Fstart : forall s, P (n_rec s) -> F (advance (flight inp) s).2).
Context (Fresume : forall p k s, P (n_rec s) -> F (NAwait p k) -> F (advance k s).2).
Context (Rreplanner : forall rp w c, replanner inp = Some rp -> R (rp w c).2).
Context (Rspecs : forall ns n, R (Fulfilled (Some ns)) -> n ∈ ns -> S n).

Definition all_recs (rs : list NodeRecord) : Prop := forall r, r ∈ rs -> P r.

Lemma all_upd i f rs :
  all_recs rs -> (forall r, r ∈ rs -> rid r = i -> P (f r)) -> all_recs (upd i f rs).
Proof.
  intros Hall Hf r Hr. unfold upd in Hr. apply list_elem_of_In, in_map_iff in Hr as (r0 & <- & Hr0).
  apply list_elem_of_In in Hr0. destruct (String.eqb_spec (rid r0) i); auto.
Qed.

Definition all_ok (s : exec W) : Prop :=
  all_recs (x_recs s) /\ (forall i m, (i, m) ∈ x_inFlight s -> F m) /\
  (forall i rep, x_pc s = AwaitReplan i rep -> R rep).

(** Steps that leave flights and pending replies alone. *)
Lemma all_same (s s' : exec W) :
  all_ok s -> all_recs (x_recs s') -> x_inFlight s' = x_inFlight s ->
  (forall i rep, x_pc s' <> AwaitReplan i rep) -> all_ok s'.
Proof.
  intros (_ & Hf & _) Hr Hfl Hpc. split; [done|]. rewrite Hfl. split; [done|].
  intros i rep H. by destruct (Hpc i rep).
Qed.

Lemma all_deferOne i why s : all_recs (x_recs s) -> all_recs (x_recs (deferOne inp i why s)).
Proof.
  intros H. unfold deferOne. autorewrite with js. apply all_upd; [done|].
  intros r Hr _. by apply Pstatus, H.
Qed.

Lemma all_deferPending why todo s :
  all_recs (x_recs s) -> all_recs (x_recs (deferPending inp why todo s)).
Proof.
  revert s. induction todo as [|i todo IH]; intros s H; simpl; [done|].
  by apply IH, (all_deferOne i why s).
Qed.

Lemma all_blockPass todo s c :
  all_recs (x_recs s) -> all_recs (x_recs (blockPass inp todo s c).1).
Proof.
  revert s c. induction todo as [|i todo IH]; intros s c H; simpl; [done|].
  destruct (byId _ i) as [r|]; [|by apply IH]. destruct (isPending r); [|by apply IH].
  destruct (firstBlockingDep _ _) as [why|]; [|by apply IH]. by apply IH, (all_deferOne i why s).
Qed.

Lemma all_blockFix fuel s : all_recs (x_recs s) -> all_recs (x_recs (blockFix inp fuel s)).
Proof.
  revert s. induction fuel as [|fuel IH]; intros s H; simpl; [done|].
  pose proof (all_blockPass (ids (x_recs s)) s false H) as Hp.
  destruct (blockPass _ _ _ _) as [s' []]; simpl in Hp; [by apply IH|done].
Qed.

Lemma all_dispatchOne i s : all_ok s -> all_ok (dispatchOne inp i s).
Proof.
  intros (Hr & Hf & Hp). destruct (byId (x_recs s) i) as [r|] eqn:Er;
    [|unfold dispatchOne; by rewrite Er].
  assert (HP : P (set_status running (reason r) r)).
  { apply Pstatus, Hr. by apply byId_Some in Er as [? _]. }
  rewrite (dispatchOne_eq inp i r) by done. split; [|split; [|done]]; simpl.
  - apply all_upd; [done|]. intros _ _ _. eapply Pevolves; [apply first_stretch_ok|done].
  - intros j m. rewrite elem_of_app, list_elem_of_singleton. intros [Hj|[= -> ->]]; [by eapply Hf|].
    by apply Fstart.
Qed.

Lemma all_dispatch todo s : all_ok s -> all_ok (dispatch inp todo s).
Proof.
  revert s. induction todo as [|i todo IH]; intros s H; simpl; [done|].
  destruct (maxConcurrencyOf inp); [destruct (_ <=? _); [done|]|]; by apply IH, all_dispatchOne.
Qed.

Lemma all_loop_body s : core inp s -> x_pc s = AtLoop -> all_ok s -> all_ok (loop_body inp s).
Proof.
  intros Hc Hpc H. pose proof H as (Hr & Hf & _). unfold loop_body.
  destruct (negb _); [by eapply all_same|].
  destruct (x_aborted s).
  { eapply all_same; [done|by apply all_deferPending| |done].
    apply (q_flight _ _ _ (cancelAll_calm inp _ s Hc)). }
  destruct (if hasReplanner inp && (0 <? x_budget s) then find_first replannable (x_recs s)
            else None) as [r|] eqn:Er.
  - unfold callReplanner, hasReplanner in *. simpl.
    destruct (replanner inp) as [rp|] eqn:Erp; [|done]. destruct (_ && _); [|done].
    apply find_first_Some in Er as [Hin _].
    assert (His : is_Some (byId (upd (rid r) (set_offered true) (x_recs s)) (rid r))).
    { apply byId_is_Some. rewrite ids_upd by done. by apply list_elem_of_In, in_map, list_elem_of_In. }
    destruct His as [r' ->]. pose proof (Rreplanner rp (x_world s) (replanContext r'
      (upd (rid r) (set_offered true) (x_recs s))) eq_refl) as HR.
    destruct (rp _ _) as [w rep]. split; [|split; [done|]]; simpl.
    + apply all_upd; [done|]. intros r0 Hr0 _. by apply Poffered, Hr.
    + by intros i rep' [= _ <-].
  - generalize (Datatypes.S (length (x_recs s))). intros fuel.
    pose proof (all_blockFix fuel s Hr) as Hb.
    pose proof (blockFix_calm inp fuel s Hc) as Hq.
    assert (Hok : all_ok (blockFix inp fuel s)).
    { eapply all_same; [done|done|apply Hq|]. intros i rep. by rewrite (q_pc _ _ _ Hq), Hpc. }
    destruct (_ =? 0)%nat; [destruct (_ =? 0)%nat|].
    + eapply all_same; [exact Hok|by apply all_deferPending| |done].
      apply (q_flight _ _ _ (cancelAll_calm inp _ _ (q_core _ _ _ Hq))).
    + by eapply all_same.
    + pose proof (all_dispatch (frontier (x_recs (blockFix inp fuel s))) _ Hok) as Hd.
      destruct (0 <? _)%nat; (eapply all_same; [exact Hd|apply Hd|done|done]).
Qed.

Lemma all_splice i returned rs :
  all_recs rs -> (forall n, n ∈ returned -> S n) -> all_recs (spliceReplan i returned rs).1.
Proof.
  intros H HS. assert (Happ : forall p, all_recs (rs ++ map freshRecord (List.filter p returned))).
  { intros p r [Hr|(n & Hn & ->)%fresh_elem]%elem_of_app; [auto|]. apply Pfresh, HS.
    apply list_elem_of_In, filter_In in Hn as [Hn _]. by apply list_elem_of_In. }
  unfold spliceReplan. destruct (last returned) as [l|] eqn:El; simpl; [|by apply Happ].
  apply all_upd; [by apply Happ|]. intros _ _ _. apply Pfresh, HS.
  apply last_Some in El as [l' ->]. apply elem_of_app. right. left.
Qed.

Lemma all_resume k s s' : core inp s -> resume k s = Some s' -> all_ok s -> all_ok s'.
Proof.
  intros Hc Hres (Hr & Hf & Hp). pose proof Hres as Hres0.
  destruct (resume_resumed inp k s s' Hc Hres) as (i & r & n & p & m & m' & l1 & l2 & Hrs).
  destruct Hrs as [Hfl Hby Hrecs _ _ Hadv Hst Hend].
  assert (HP : P r) by (apply Hr; by apply byId_Some in Hby as [? _]).
  split; [|split].
  - rewrite Hrecs. apply all_upd; [done|]. intros _ _ _. eapply Pevolves; [apply Hst|done].
  - assert (Hm : F (NAwait p m)).
    { apply (Hf i). rewrite Hfl. apply elem_of_app. right. left. }
    pose proof (Fresume p m (node_view r s) HP Hm) as Hm'. rewrite Hadv in Hm'.
    assert (Hold : forall j mj, (j, mj) ∈ l1 ++ l2 -> F mj).
    { intros j mj Hj. apply (Hf j). rewrite Hfl. rewrite !elem_of_app, elem_of_cons in *. tauto. }
    intros j mj Hj. destruct Hend as [(_ & E & _)|(_ & E & _)]; rewrite E in Hj; [by eapply Hold|].
    rewrite elem_of_app, elem_of_cons in Hj. destruct Hj as [?|[[= -> ->]|?]]; [|done|];
      by eapply Hold, elem_of_app; eauto.
  - intros j rep Hj. destruct Hend as [(_ & _ & _ & E)|(_ & _ & _ & E)]; rewrite E in Hj.
    + destruct (x_pc s); try done. by eapply Hp.
    + by eapply Hp.
Qed.

Lemma all_step s s' : inv inp s -> step inp s s' -> all_ok s -> all_ok s'.
Proof.
  intros [Hc _] Hstep H. destruct Hstep as [s Hp|s k s' Hs|s Hp|s i rep Hp Hrep|s Hp Hfl|s Hsig Hab].
  - by apply all_loop_body.
  - by eapply all_resume.
  - eapply all_same; [done|apply H|done|done].
  - pose proof H as (Hr & Hf & HR). specialize (HR i rep Hp).
    unfold afterReplan. destruct (byId (x_recs s) i) as [r|]; [|by eapply all_same].
    assert (Hann : forall note, all_ok (with_pc AtLoop (annotate i note s))).
    { intros note. eapply all_same; [done| |done|done]. apply all_upd; [done|].
      intros r' Hr' _. by apply Pstatus, Hr. }
    destruct rep as [[returned|]|msg|]; [|by eapply all_same|apply Hann|done].
    destruct (validateReplan r returned (x_recs s)); [apply Hann|].
    pose proof (all_splice i returned (x_recs s) Hr (fun n => Rspecs returned n HR)) as Hsp.
    destruct (spliceReplan i returned (x_recs s)) as [rs' n].
    eapply all_same; [done|..]; simpl; autorewrite with js; done.
  - eapply all_same; [done|apply H|done|done].
  - exact H.
Qed.

Lemma all_reachable `{Hashing} s :
  (forall n, n ∈ nodes inp -> S n) -> reachable inp s -> all_ok s.
Proof.
  intros HS (ab & w & s0 & h & H0 & Hsteps). pose proof (startDag_inv inp _ _ _ _ H0) as Hinv.
  assert (Hs0 : all_ok s0).
  { apply startDag_ok in H0 as (Hrs & _ & _ & Hpc & Hfl & _). apply buildRecords_ok in Hrs as [Hrs _].
    split; [|split].
    - rewrite Hrs. intros r (n & Hn & ->)%fresh_elem. auto.
    - rewrite Hfl. intros i m Hm. by apply elem_of_nil in Hm.
    - by rewrite Hpc. }
  clear H0. induction Hsteps as [s|s1 s2 s3 H1 _ IH]; [done|].
  apply IH; [by eapply step_inv|by eapply all_step].
Qed.
End AllRecords.

Section Bounds.
Context {W : Type} (inp : DagRunInput W).
Context `{Hashing}.

Lemma resolveRetryBound_nonneg sp : 0 <= resolveRetryBound sp inp.
Proof. unfold resolveRetryBound. cbv zeta. destruct (Z.ltb_spec 0 (match maxTimeoutRetries sp with
  | Some n => n | None => default 0 (defaultMaxTimeoutRetries inp) end)); lia. Qed.

(** The own-timeout retry budget is respected: in every reachable state no
    node has used more retries than its bound ([maxTimeoutRetries], the run's
    default otherwise, never negative). *)
Theorem retries_bounded (s : exec W) (Hs : reachable inp s) :
  forall r, r ∈ x_recs s -> 0 <= retriesUsed r <= resolveRetryBound (spec r) inp.
Proof.
  enough (Hall : all_ok (fun r => 0 <= retriesUsed r <= resolveRetryBound (spec r) inp)
    (fun _ => True) (fun _ => True) s) by apply Hall.
  eapply (all_reachable inp _ _ (fun _ => True)); try done.
  - intros n _. pose proof (resolveRetryBound_nonneg n). simpl. lia.
  - intros r r' [Hsp _ _ [Hu|[Hlt Hu]] _ _] Hr; rewrite Hsp, Hu; lia.
Qed.
End Bounds.

(** * Liveness under timeouts *)

Section Live.
Context {W : Type} (inp : DagRunInput W).

(** The ports other than the executor always settle. *)
Record ports_settle : Prop := {
  ps_verifier : forall v w cs sp ins, verifier inp = Some v -> (v w cs sp ins).2 <> NeverSettles;
  ps_recall : forall j w r i, journal inp = Some j -> (recall j w r i).2 <> NeverSettles;
  ps_record : forall j w r e, journal inp = Some j -> (record j w r e).2 <> NeverSettles;
  ps_replanner : forall rp w c, replanner inp = Some rp -> (rp w c).2 <> NeverSettles
}.
Context (Hports : ports_settle).

Definition timed (sp : DagNodeSpec) : Prop := 0 < default 0 (timeoutMs sp).

(** Never left waiting, as long as the record's spec has a timeout. *)
Definition promptly : protocol :=
  mkProtocol (fun _ _ _ _ => True) (fun _ _ r' => timed (spec r')) (fun _ => False).

Definition prompt {A} (Q : A -> Prop) (m : NodeM W A) : Prop :=
  forall o r0 s, timed (spec (n_rec s)) ->
    wp promptly o r0 m (fun _ _ a s' => Q a /\ timed (spec (n_rec s')))
      (fun _ _ _ s' => timed (spec (n_rec s'))) s.

Lemma prompt_bind {A B} (P : A -> Prop) (Q : B -> Prop) (m : NodeM W A) (f : A -> NodeM W B) :
  prompt P m -> (forall a, P a -> prompt Q (f a)) -> prompt Q (nbind m f).
Proof.
  intros Hm Hf o r0 s Hs. apply wp_bind. eapply wp_mono; [by apply Hm| |done].
  intros o' r' a s' [Ha Hs']. by apply Hf.
Qed.

Lemma prompt_seq {A B} (Q : B -> Prop) (m : NodeM W A) (f : A -> NodeM W B) :
  prompt (fun _ => True) m -> (forall a, prompt Q (f a)) -> prompt Q (nbind m f).
Proof. intros Hm Hf. eapply prompt_bind; [exact Hm|auto]. Qed.

Lemma prompt_ret {A} (Q : A -> Prop) (a : A) : Q a -> prompt Q (nret a).
Proof. by intros Ha o r0 s Hs. Qed.
Lemma prompt_get : prompt (fun r => timed (spec r)) get_rec.
Proof. by intros o r0 s Hs. Qed.
Lemma prompt_mod f : (forall r, spec (f r) = spec r) -> prompt (fun _ => True) (mod_rec f).
Proof. intros Hf o r0 s Hs. apply wp_mod_rec. simpl. by rewrite Hf. Qed.
Lemma prompt_swift {A} (m : NodeM W A) : swift m -> prompt (fun _ => True) m.
Proof. intros Hm o r0 s Hs. apply Hm. by intros a s' ->. Qed.

Lemma prompt_await {A} p (x : option A) : x <> None -> prompt (fun _ => True) (await_opt p x).
Proof. intros Hx o r0 s Hs. by apply wp_await_opt. Qed.

Lemma prompt_port {A} p (call : W -> W * Reply A) :
  (forall w, (call w).2 <> NeverSettles) -> prompt (fun _ => True) (port p call).
Proof.
  intros Hc o r0 s Hs. apply wp_port; [done| |by intros|by intros].
  intros E. by apply (Hc (n_world s)).
Qed.

Lemma prompt_callExecutor sp ins a :
  timed sp -> prompt (fun o => o <> None) (callExecutor inp sp ins a).
Proof.
  intros Ht o r0 s Hs. simpl. split; [|done]. unfold raceOutcome, timed in *.
  destruct (Z.ltb_spec 0 (default 0 (timeoutMs sp))); [|lia].
  destruct (match reply _ with Fulfilled o => Some o | _ => _ end); [|done].
  by destruct (_ <? _).
Qed.

Lemma prompt_promise_all {A B} (f : A -> NodeM W (option B)) xs :
  (forall x, prompt (fun o => o <> None) (f x)) -> prompt (fun o => o <> None) (promise_all f xs).
Proof.
  intros Hf. induction xs as [|x xs IH]; simpl; [by apply prompt_ret|].
  eapply prompt_bind; [apply Hf|]. intros y Hy. eapply prompt_bind; [apply IH|]. intros ys Hys.
  apply prompt_ret. by destruct y, ys.
Qed.

Lemma prompt_children {A} sp (xs : list A) ev ins idx :
  timed sp -> prompt (fun o => o <> None)
    (promise_all (fun x => emit inp (ev x) ;;; callExecutor inp sp (ins x) (idx x)) xs).
Proof.
  intros Ht. apply prompt_promise_all. intros x.
  apply prompt_seq; [apply prompt_swift, swift_emit|]. intros _. by apply prompt_callExecutor.
Qed.

Lemma prompt_runMapOver m ins : prompt (fun _ => True) (runMapOver inp m ins).
Proof.
  unfold runMapOver. eapply prompt_bind; [apply prompt_get|]. intros r Hr.
  destruct (as_array _) as [arr|]; [|by apply prompt_mod]. cbv zeta.
  apply prompt_seq; [by apply prompt_mod|]. intros _.
  destruct (_ =? 0); [by apply prompt_mod|].
  eapply prompt_bind; [by apply prompt_children|]. intros os Hos.
  apply prompt_seq; [by apply prompt_await|]. intros outs.
  destruct (_ =? 0); by apply prompt_mod.
Qed.

Lemma prompt_runBatch p ins n i c : prompt (fun _ => True) (runBatch inp p ins n i c).
Proof.
  unfold runBatch. eapply prompt_bind; [apply prompt_get|]. intros r Hr.
  eapply prompt_bind; [by apply prompt_children|]. intros os Hos.
  apply prompt_seq; [by apply prompt_await|]. intros outs. by apply prompt_ret.
Qed.

Lemma prompt_callVerifier p c ins : prompt (fun _ => True) (callVerifier inp p c ins).
Proof.
  unfold callVerifier. apply prompt_seq; [apply prompt_swift, swift_get|]. intros r.
  destruct (verifier inp) as [v|] eqn:Ev; [|by intros o r0 s Hs].
  apply prompt_port. intros w. by apply (ps_verifier Hports).
Qed.

Lemma prompt_settle v n : prompt (fun _ => True) (settle inp v n).
Proof.
  unfold settle. apply prompt_seq; [apply prompt_swift, swift_get|]. intros r.
  apply prompt_seq; [apply prompt_swift, swift_emit|]. intros _.
  destruct (is_null _); by apply prompt_mod.
Qed.

Lemma prompt_verifyAll c ins : prompt (fun _ => True) (verifyAll inp c ins).
Proof.
  unfold verifyAll. apply prompt_seq; [apply prompt_swift, swift_get|]. intros r.
  destruct (_ =? 0)%nat.
  - unfold failClosedNoCandidates. apply prompt_seq; [apply prompt_swift, swift_get|]. intros r'.
    apply prompt_seq; [by apply prompt_mod|]. intros _. apply prompt_swift, swift_emit.
  - apply prompt_seq; [apply prompt_callVerifier|]. intros v. apply prompt_settle.
Qed.

Lemma prompt_runBestOfN ins n : prompt (fun _ => True) (runBestOfN inp ins n).
Proof.
  unfold runBestOfN. apply prompt_seq; [apply prompt_runBatch|]. intros cs.
  apply prompt_seq; [by apply prompt_mod|]. intros _.
  assert (Hfull : prompt (fun _ => True) (let! more := runBatch inp at_rest ins n (phase1SizeOf inp n)
      (n - phase1SizeOf inp n) in mod_rec (set_attempts n) ;;; verifyAll inp (cs ++ more) ins)).
  { apply prompt_seq; [apply prompt_runBatch|]. intros more.
    apply prompt_seq; [by apply prompt_mod|]. intros _. apply prompt_verifyAll. }
  destruct (_ <? n); [|apply prompt_verifyAll]. apply prompt_seq.
  { destruct (0 <? length cs)%nat; [|by apply prompt_ret].
    apply prompt_seq; [apply prompt_callVerifier|]. intros p. by apply prompt_ret. }
  intros [p|]; [|apply Hfull]. destruct (earlyAccept inp p); [apply prompt_settle|apply Hfull].
Qed.

Lemma prompt_executeNode : prompt (fun _ => True) (executeNode inp).
Proof.
  unfold executeNode. eapply prompt_bind; [apply prompt_get|]. intros r Hr.
  apply prompt_seq; [by intros o r0 s Hs|]. intros ins.
  destruct (runIfHolds _ _) as [[]|]; [|by apply prompt_mod|by intros o r0 s Hs].
  destruct (mapOver (spec r)); [apply prompt_runMapOver|].
  destruct (1 <? _); [apply prompt_runBestOfN|].
  apply prompt_seq; [apply prompt_swift, swift_emit|]. intros _.
  eapply prompt_bind; [by apply prompt_callExecutor|]. intros x Hx.
  apply prompt_seq; [by apply prompt_await|]. intros y.
  apply prompt_seq; [by apply prompt_mod|]. intros _. by apply prompt_mod.
Qed.

Lemma prompt_recallDone : prompt (fun _ => True) (recallDone inp).
Proof.
  unfold recallDone. apply prompt_seq; [apply prompt_swift, swift_get|]. intros r.
  destruct (journal inp) as [j|] eqn:Ej; [|by apply prompt_ret].
  apply prompt_seq; [apply prompt_port; intros w; by apply (ps_recall Hports)|].
  intros e. by apply prompt_ret.
Qed.

Lemma prompt_recordTerminal r : prompt (fun _ => True) (recordTerminal inp r).
Proof.
  unfold recordTerminal. destruct (journal inp) as [j|] eqn:Ej; [|by apply prompt_ret].
  apply prompt_port. intros w. by apply (ps_record Hports).
Qed.

Lemma prompt_flight : prompt (fun _ => True) (flight inp).
Proof.
  assert (Hnode : prompt (fun _ => True) (runNode inp)).
  { unfold runNode. apply prompt_seq; [apply prompt_recallDone|]. intros [e|].
    - apply prompt_seq; [by apply prompt_mod|]. intros _. apply prompt_swift. auto 10 with js.
    - apply prompt_seq; [apply prompt_executeNode|]. intros _ o r0 s Hs. split; [done|].
      intros s' Hs'. simpl in Hs'. apply wp_bind, wp_get_rec.
      destruct (mayRetry inp (n_rec s')); [by apply wp_mod_rec|].
      apply (prompt_seq (fun _ => True)); [apply prompt_recordTerminal| |done]. intros _.
      apply prompt_swift, swift_bind; [apply swift_get|]. intros r. apply swift_emitTerminal. }
  intros o r0 s Hs. unfold flight, runNodeCaught. apply wp_bind, wp_catch.
  eapply wp_mono; [by apply Hnode| |].
  - intros o1 r1 [] s1 [_ Hs1]. split; [done|]. by intros s2 Hs2.
  - intros o1 r1 e s1 Hs1. split; [done|]. intros s2 Hs2.
    apply wp_bind, wp_mod_rec, wp_bind, wp_get_rec, swift_emit. intros [] s3 Hs3.
    split; [done|]. by intros s4 Hs4.
Qed.

(** What is left of a flight that is never left waiting. *)
Definition on_time (m : NodeM W unit) : Prop :=
  match m with
  | NAwait p k => forall s, timed (spec (n_rec s)) ->
      wp promptly (Some p) (n_rec s) k (fun _ _ _ _ => True) (fun _ _ _ _ => True) s
  | NNever _ | NDo _ _ => False
  | _ => True
  end.

Lemma on_time_advance o r0 (m : NodeM W unit) s :
  wp promptly o r0 m (fun _ _ _ _ => True) (fun _ _ _ _ => True) s -> on_time (advance m s).2.
Proof.
  intros H%wp_advance. pose proof (advance_stops m s) as Hn.
  destruct (advance m s) as [n m']. simpl in *.
  destruct m' as [a|e|p|p k|f k]; [done|done|by destruct H| |by destruct (Hn f k)].
  intros s' Hs'. by apply H.
Qed.
End Live.

Section LiveRuns.
Context {W : Type} (inp : DagRunInput W).
Context `{Hashing}.

(** A node with a timeout cannot hang the scheduler: when the verifier, the
    journal and the re-planner settle, a run all of whose nodes have a timeout,
    the re-planned ones included, can always take a step other than the caller's
    abort until it has returned, even if no executor call ever settles. *)
Theorem timeouts_never_hang (s : exec W) (Hs : reachable inp s) (Hports : ports_settle inp)
    (Htimed : forall n, n ∈ nodes inp -> timed n)
    (Hreplan : forall rp w c ns n, replanner inp = Some rp ->
       (rp w c).2 = Fulfilled (Some ns) -> n ∈ ns -> timed n)
    (Hfin : x_pc s <> Finished) :
  exists s', step inp s s' /\ x_aborted s' = x_aborted s.
Proof.
  assert (Hall : all_ok (fun r => timed (spec r)) on_time
    (fun rep => rep <> NeverSettles /\ forall ns n, rep = Fulfilled (Some ns) -> n ∈ ns -> timed n) s).
  { eapply (all_reachable inp _ _ timed); try done.
    - by intros r r' [-> _ _ _ _ _].
    - intros s0 Hs0. eapply (on_time_advance None (n_rec s0)), wp_mono; [by apply prompt_flight|done|done].
    - intros p k s0 Hs0 Hk. by eapply on_time_advance, Hk.
    - intros rp w c Hrp. split; [by apply (ps_replanner inp Hports)|]. intros ns n. by apply (Hreplan rp).
    - intros ns n [_ Hns] Hn. by apply (Hns ns). }
  destruct Hall as (_ & Hfl & Hrep).
  destruct (inv_progress inp s (reachable_inv inp s Hs) Hfin) as [Hstep|[(i & Hi)|(_ & Hne & Hn)]];
    [done| |].
  - by destruct (Hrep i _ Hi) as [? _].
  - exfalso. destruct (x_inFlight s) as [|[i m] l]; [done|].
    destruct (Hn i m (list_elem_of_here _ _)) as (p & -> & _).
    apply (Hfl i (NNever p) (list_elem_of_here _ _)).
Qed.
End LiveRuns.

(** * Concrete runs *)

Open Scope js_scope.

(** A printer and a digest to compute with. *)
Definition demoHashing : Hashing :=
  {| rfcCanonicalize := fun v => match v with JObj ((k, _) :: _) => k | _ => "" end;
     sha256 := fun s => ("h(" ++ s ++ ")")%string |}.

Definition demoSpec (i : string) (ds : list string) (tmo : option Z) (n : option Z) (mo : option string)
    : DagNodeSpec :=
  {| id := i; task := "t"; dependsOn := Some ds; mapOver := mo; samples := n; timeoutMs := tmo;
     grant := None; model := None; runIf := None; maxTimeoutRetries := Some 1 |}.

(** Node [b] never answers, [c] fails; the others answer after 1 ms. *)
Definition demoExecutor (w : Z) (sp : DagNodeSpec) (ins : NodeInputs) (a : Z) (sig : option bool)
    : Z * ExecReply :=
  (w, if (id sp =? "b")%string then {| after := 0; reply := NeverSettles |}
      else if (id sp =? "c")%string then {| after := 1; reply := Rejected "boom" |}
      else {| after := 1; reply := Fulfilled {| o_status := done;
                o_output := JArr [JStr (id sp)]; o_reason := None |} |}).

Definition demoVerdict (c : jsval) : VerifierVerdict :=
  {| accepted := c; acceptedIndex := 0; v_reason := "ok"; acceptedScore := None |}.

Definition demoVerifier (w : Z) (cs : list jsval) (sp : DagNodeSpec) (ins : NodeInputs)
    : Z * Reply VerifierVerdict := (w, Fulfilled (demoVerdict (default JNull (head cs)))).

Definition demoEntry : NodeManifestEntry := mkEntry "a" (settled done) None (JStr "old") [] 1.

Definition demoJournal : StepJournal Z :=
  {| recall := fun w _ i =>
       (w, Fulfilled (if (i =? "a")%string then Some demoEntry else None));
     record := fun w _ _ => (w, Fulfilled tt) |}.

(** A journal without memory, that cannot record the node [lost]. *)
Definition freshJournal (lost : option string) : StepJournal Z :=
  {| recall := fun w _ _ => (w, Fulfilled None);
     record := fun w _ e => (w, if bool_decide (Some (e_id e) = lost) then Rejected "disk full" else Fulfilled tt) |}.

Definition demoInput (ns : list DagNodeSpec) (j : option (StepJournal Z)) : DagRunInput Z :=
  {| nodes := ns; executor := demoExecutor; verifier := Some demoVerifier;
     clock := fun w => (w + 1, w); runId := "r"; adrEco := "ADR"; maxConcurrency := Some 2;
     journal := j; hasProgress := true; hasSignal := true; defaultMaxTimeoutRetries := None;
     replanner := None; maxReplans := None; bestOfN := None |}.

(** The [k]-th node in flight resumes [n] times. *)
Definition fly (k n : nat) : list choice := replicate n (CNode k).

(** ** A node whose retry is lost in the final drain *)

Definition drainInput : DagRunInput Z :=
  demoInput [demoSpec "a" [] (Some 10) None None; demoSpec "b" [] (Some 10) None None] None.

Definition startOf (inp : DagRunInput Z) : option (exec Z) :=
  match @startDag Z inp demoHashing false 0 with Ok (s, _) => Some s | Throw _ => None end.

Definition drainStart : list choice := CLoop :: fly 0 3 ++ [CResume; CLoop].

(** A retry can be lost in the final drain: [b] times out while the scheduler drains: its record is pending again, with
    one retry used, and the manifest calls it deferred, "not scheduled",
    although its bound leaves it the retry it was given. *)
Theorem drain_loses_retry :
  exists s0 s, startOf drainInput = Some s0 /\
    run drainInput (drainStart ++ fly 0 3 ++ [CDrained]) s0 = Some s /\
    x_pc s = Finished /\
    (forall r, byId (x_recs s) "b" = Some r -> status r = pending /\ retriesUsed r = 1) /\
    map (fun e => (e_id e, e_status e, e_reason e)) (m_nodes (finishDag drainInput "" s).1) =
      [("a", settled done, None); ("b", settled deferred, Some "not scheduled")].
Proof.
  eexists _, _. split; [vm_compute; reflexivity|]. split; [vm_compute; reflexivity|].
  split; [reflexivity|]. split; [|vm_compute; reflexivity].
  intros r Hr. vm_compute in Hr. by injection Hr as <-.
Qed.

(** ** States of concrete runs *)

Definition orDead (o : option (exec Z)) : exec Z := default (mkExec Finished [] 0 [] 0 false 0 []) o.

Lemma reach_by (inp : DagRunInput Z) (cs : list choice) (s : exec Z) :
  (match startOf inp with Some s0 => run inp cs s0 | None => None end) = Some s ->
  @reachable Z inp demoHashing s.
Proof.
  unfold startOf. destruct (@startDag Z inp demoHashing false 0) as [[s0 h]|e] eqn:E; [|done].
  intros Hr. exists false, 0, s0, h. split; [done|]. by apply (run_steps inp cs).
Qed.

Definition demoAt (inp : DagRunInput Z) (cs : list choice) : exec Z :=
  orDead (match startOf inp with Some s0 => run inp cs s0 | None => None end).

(** ** A journal that rejects *)

Definition lossyInput : DagRunInput Z :=
  demoInput [demoSpec "a" [] None None None; demoSpec "e" [] None None None;
             demoSpec "d" ["a"] None None None] (Some (freshJournal (Some "a"))).

(** Without a reliable journal a done node is overturned, after a node that
    depends on it has started: [d] runs to its end on [a]'s output while [a]
    still waits for the journal; the journal rejects, and [a] ends failed. *)
Theorem rejected_record_overturns :
  let early := CLoop :: fly 0 3 ++ fly 1 5 ++ [CResume; CLoop] ++ fly 1 5 in
  let s := demoAt lossyInput early in
  let s' := demoAt lossyInput (early ++ fly 0 3) in
  (stat (x_recs s) "a" = Some (settled done) /\ stat (x_recs s) "d" = Some (settled done)) /\
  stat (x_recs s') "a" = Some (settled failed) /\ stat (x_recs s') "d" = Some (settled done).
Proof. vm_compute. auto. Qed.

Definition replanInput : DagRunInput Z :=
  let inp := demoInput [demoSpec "c" [] None None None; demoSpec "e" [] None None None]
    (Some (freshJournal (Some "c"))) in
  {| nodes := nodes inp; executor := executor inp; verifier := verifier inp; clock := clock inp;
     runId := runId inp; adrEco := adrEco inp; maxConcurrency := maxConcurrency inp;
     journal := journal inp; hasProgress := true; hasSignal := true;
     defaultMaxTimeoutRetries := None;
     replanner := Some (fun w _ => (w, Fulfilled (Some [demoSpec "c" [] None None None])));
     maxReplans := Some 1; bestOfN := None |}.

(** A failed node can be re-planned, and dispatched again, while its first
    promise still waits for the journal; when the journal rejects that one, the
    new work is marked failed while it executes. *)
Theorem replanned_while_in_flight :
  let s := demoAt replanInput (CLoop :: fly 0 3 ++ fly 1 5 ++ [CResume; CLoop; CReplan; CLoop]) in
  let s' := demoAt replanInput (CLoop :: fly 0 3 ++ fly 1 5 ++ [CResume; CLoop; CReplan; CLoop] ++ fly 0 2) in
  ((x_inFlight s).*1 = ["c"; "c"] /\ stat (x_recs s) "c" = Some running) /\
  stat (x_recs s') "c" = Some (settled failed) /\ live_ids (x_inFlight s') = ["c"].
Proof. vm_compute. auto. Qed.

(** ** Witnesses *)

Definition chainInput : DagRunInput Z :=
  demoInput [demoSpec "b" [] (Some 10) None None; demoSpec "a" [] (Some 10) None None;
             demoSpec "d" ["a"] (Some 10) (Some 3) None] (Some (freshJournal None)).

(** Mid-flight, and at the end. *)
Definition chainHead : list choice := CLoop :: fly 1 5 ++ [CResume; CLoop].
Definition chainTail : list choice :=
  fly 0 4 ++ [CResume; CLoop] ++ fly 0 6 ++ [CResume; CLoop] ++ fly 0 5 ++ [CDrained].
Definition chainMid : exec Z := demoAt chainInput [CLoop].
Definition chainLate : exec Z := demoAt chainInput chainHead.
Definition chainEnd : exec Z := demoAt chainInput (chainHead ++ chainTail).

Lemma chain_reliable : reliable chainInput.
Proof. intros j w r e msg [= <-]. done. Qed.

Lemma chain_reach (cs : list choice) (s : exec Z) :
  demoAt chainInput cs = s -> x_recs s <> [] -> @reachable Z chainInput demoHashing s.
Proof.
  intros <- Hne. apply (reach_by chainInput cs). unfold demoAt, orDead in *.
  by destruct (match startOf chainInput with Some s0 => run chainInput cs s0 | None => None end).
Qed.

Lemma run_safe_witness :
  (x_inFlight chainMid).*1 = ["b"; "a"] /\
  x_running chainMid = Z.of_nat (length (x_inFlight chainMid)) /\
  stat (x_recs chainEnd) "d" = Some (settled done) /\ is_done (x_recs chainEnd) "a".
Proof.
  split; [vm_compute; reflexivity|]. split.
  - apply (@run_safe Z chainInput demoHashing chainMid).
    apply (chain_reach [CLoop]); [reflexivity|]. vm_compute. discriminate.
  - split; [vm_compute; reflexivity|].
    destruct (@run_safe Z chainInput demoHashing chainEnd) as (_ & _ & _ & _ & _ & Hok).
    { apply (chain_reach (chainHead ++ chainTail)); [reflexivity|]. vm_compute. discriminate. }
    destruct (Hok chain_reliable) as [Hdeps _].
    destruct (byId (x_recs chainEnd) "d") as [r|] eqn:E; [|vm_compute in E; discriminate E].
    apply (Hdeps r "a").
    + by apply byId_Some in E as [? _].
    + vm_compute in E. injection E as <-. right. left. reflexivity.
    + vm_compute in E. injection E as <-. simpl. left.
Defined.

Lemma done_is_permanent_witness :
  byId (x_recs chainEnd) "a" = byId (x_recs chainLate) "a".
Proof.
  assert (Hr : @reachable Z chainInput demoHashing chainLate).
  { apply (chain_reach chainHead); [reflexivity|]. vm_compute. discriminate. }
  assert (Hs : rtc (step chainInput) chainLate chainEnd).
  { apply (run_steps chainInput chainTail). vm_compute. reflexivity. }
  destruct (byId (x_recs chainLate) "a") as [r|] eqn:E; [|vm_compute in E; discriminate E].
  apply (@done_is_permanent Z chainInput demoHashing chainLate chainEnd Hr Hs chain_reliable "a" r E).
  vm_compute in E. injection E as <-. reflexivity.
Defined.

Lemma run_terminates_witness : Acc (fun s2 s1 => step chainInput s1 s2) chainMid.
Proof.
  apply (@run_terminates Z chainInput demoHashing chainMid).
  apply (chain_reach [CLoop]); [reflexivity|]. vm_compute. discriminate.
Defined.

Lemma manifest_correct_witness :
  x_pc chainEnd = Finished /\ rootHash (finishDag chainInput "h" chainEnd).1 = "h".
Proof.
  split; [vm_compute; reflexivity|].
  refine (proj2 (proj2 (proj2 (proj2 (proj2 (proj2
    (@manifest_correct Z chainInput demoHashing chainEnd "h" _ _))))))).
  - apply (chain_reach (chainHead ++ chainTail)); [reflexivity|]. vm_compute. discriminate.
  - vm_compute. reflexivity.
Defined.

Lemma no_unresolved_dependency_witness :
  length (x_recs chainMid) = 3%nat /\
  forall i, ~ blocked (x_recs (blockFix chainInput 4 chainMid)) i.
Proof.
  split; [vm_compute; reflexivity|].
  apply (@no_unresolved_dependency Z chainInput demoHashing chainMid).
  apply (chain_reach [CLoop]); [reflexivity|]. vm_compute. discriminate.
Defined.

Lemma drain_is_final_witness :
  x_pc (demoAt drainInput drainStart) = Drain /\
  forall i, i ∈ (x_inFlight (demoAt drainInput (drainStart ++ fly 0 3))).*1 ->
    i ∈ (x_inFlight (demoAt drainInput drainStart)).*1.
Proof.
  split; [vm_compute; reflexivity|].
  apply (@drain_is_final Z drainInput demoHashing (demoAt drainInput drainStart)
    (demoAt drainInput (drainStart ++ fly 0 3))).
  - apply (reach_by drainInput drainStart). vm_compute. reflexivity.
  - vm_compute. reflexivity.
  - apply (run_steps drainInput (fly 0 3)). vm_compute. reflexivity.
Defined.

(** ** Re-planning and the hash *)

Definition failedRec : NodeRecord :=
  mkRecord (demoSpec "c" [] None None None) [] (settled failed) (Some "boom") JNull 1 0 true.

Lemma validateReplan_decides_witness :
  valid_replan failedRec [demoSpec "c1" [] None None None; demoSpec "c" ["c1"] None None None]
    [failedRec; freshRecord (demoSpec "e" ["c"] None None None)].
Proof.
  apply validateReplan_decides; [|vm_compute; reflexivity].
  apply (bool_decide_unpack _). vm_compute. exact I.
Defined.

Lemma rootHash_stable_witness :
  @computeRootHash demoHashing "adr" [freshRecord (demoSpec "y" ["x"; "z"] None None None);
    freshRecord (demoSpec "x" [] None None None)] =
  @computeRootHash demoHashing "adr" [freshRecord (demoSpec "x" [] (Some 5) None None);
    freshRecord (demoSpec "y" ["z"; "x"] None None None)].
Proof.
  refine (proj1 (@rootHash_stable demoHashing "adr" _
    [freshRecord (demoSpec "y" ["z"; "x"] None None None);
     freshRecord (demoSpec "x" [] (Some 5) None None)] _ _ _ _)).
  - apply (bool_decide_unpack _). vm_compute. exact I.
  - apply perm_swap.
  - repeat constructor.
Defined.

Lemma rootPayload_binding_witness : "adr" = "adr".
Proof.
  exact (proj1 (rootPayload_binding "adr" "adr" [freshRecord (demoSpec "x" [] None None None)]
    [freshRecord (demoSpec "x" [] (Some 3) None None)] ltac:(vm_compute; reflexivity))).
Defined.

(** ** Single nodes *)

Definition bonState : nst Z :=
  mkNst 0 [] (set_status running None (freshRecord (demoSpec "a" [] None (Some 3) None))) false [].

(** A computation run to its end, with nothing else happening. *)
Fixpoint alone {W A} (m : NodeM W A) (s : nst W) : nst W * option A :=
  match m with
  | NRet a => (s, Some a)
  | NRej _ | NNever _ => (s, None)
  | NAwait _ k => alone k s
  | NDo f k => alone (k s) (f s)
  end.

Lemma alone_runs_to {W A} (R : NodeRecord -> NodeRecord -> Prop) (m : NodeM W A) s s' a :
  (forall r, R r r) -> alone m s = (s', Some a) -> runs_to R m s a s'.
Proof.
  intros HR. revert s. induction m as [b|e|p|p k IH|f k IH]; simpl; intros s H; try done.
  - injection H as <- <-. constructor.
  - eapply runs_await; [apply HR|]. by apply IH.
  - constructor. by apply IH.
Qed.

Definition bonRun : nst Z := (alone (runBestOfN chainInput [] 3) bonState).1.

Lemma bestOfN_fail_closed_witness :
  status (n_rec bonRun) = settled done /\
  verified chainInput (spec (n_rec bonState)) [] (output (n_rec bonRun)).
Proof.
  destruct (bestOfN_fail_closed chainInput [] 3 bonState bonRun) as [[H _]|[H1 H2]].
  - apply alone_runs_to; [reflexivity|]. vm_compute. reflexivity.
  - vm_compute in H. discriminate H.
  - split; [exact H1|exact H2].
Defined.

Definition mapState : nst Z :=
  mkNst 0 [] (set_status running None (freshRecord (demoSpec "a" ["x"] None None (Some "x")))) false [].
Definition mapInputs : NodeInputs := [("x", JArr [JNull; JNull])].

Lemma runMapOver_partial_witness :
  exists outs, length outs = 2%nat /\
    mapOver_result outs (n_rec (alone (runMapOver chainInput "x" mapInputs) mapState).1).
Proof.
  refine (runMapOver_partial chainInput "x" mapInputs mapState
    (alone (runMapOver chainInput "x" mapInputs) mapState).1 _).
  apply alone_runs_to; [reflexivity|]. vm_compute. reflexivity.
Defined.

Definition journalInput : DagRunInput Z :=
  demoInput [demoSpec "a" [] None None None] (Some demoJournal).

Lemma journal_resumes_witness :
  exists k, advance (runNode journalInput) bonState = (with_nworld 0 bonState, NAwait at_recall k) /\
  exists evs, advance k bonState = (mkNst 2 evs (resumeRecord demoEntry (n_rec bonState)) false [],
                                    NRet tt).
Proof.
  destruct (journal_resumes journalInput demoJournal demoEntry 0 1 2 0 1 bonState bonState
    eq_refl ltac:(vm_compute; reflexivity) eq_refl eq_refl eq_refl) as (k & H & evs & H' & _).
  exists k. split; [exact H|]. exists evs. exact H'.
Defined.

Lemma retries_bounded_witness :
  x_pc chainEnd = Finished /\
  forall r, r ∈ x_recs chainEnd -> 0 <= retriesUsed r <= resolveRetryBound (spec r) chainInput.
Proof.
  split; [vm_compute; reflexivity|].
  apply (@retries_bounded Z chainInput demoHashing chainEnd).
  apply (chain_reach (chainHead ++ chainTail)); [reflexivity|]. vm_compute. discriminate.
Defined.

Lemma demo_ports_settle : ports_settle chainInput.
Proof.
  split; [| | |done].
  - intros v w cs sp ins [= <-]. done.
  - intros j w r i [= <-]. done.
  - intros j w r e [= <-]. done.
Qed.

Lemma timeouts_never_hang_witness :
  exists s', step chainInput chainMid s' /\ x_aborted s' = x_aborted chainMid.
Proof.
  apply (@timeouts_never_hang Z chainInput demoHashing chainMid).
  - apply (chain_reach [CLoop]); [reflexivity|]. vm_compute. discriminate.
  - apply demo_ports_settle.
  - intros n Hn. unfold timed.
    assert (Hb : forallb (fun n => 0 <? default 0 (timeoutMs n)) (nodes chainInput) = true)
      by (vm_compute; reflexivity).
    rewrite forallb_true_iff in Hb. apply Z.ltb_lt. exact (Hb n Hn).
  - intros rp w c ns n [=].
  - vm_compute. discriminate.
Defined.
