(* ===== verification/Chain.v ===== *)
(** The hash chain over trace steps ([src/proof/chain.ts]) and the trace schema
    it commits to ([src/trace/schema.ts]).

    Indices, counts and times are JavaScript numbers, compared as [===] does.  A
    field that may be missing reads [undefined], which serialization omits.
    The verifier decides validity. *)

From S2P Require Import Prelude JsNum JsValue Canonical.
From Stdlib Require Import SpecFloat.

(** * The trace schema *)

Inductive ReceiptStatus := present | pending | failed.
Inductive Phase := observe | orient | decide | act | feedback | guard | hitl.
Inductive StepType := llm_call | tool_call | guard_check | phase_transition | hitl_gate.
Inductive StepPolicy := p_include | p_redact | p_hmac | p_hash_only.

#[export] Instance ReceiptStatus_eq_dec : EqDecision ReceiptStatus.
Proof. solve_decision. Defined.

Definition phase_str (p : Phase) : string :=
  match p with
  | observe => "observe" | orient => "orient" | decide => "decide" | act => "act"
  | feedback => "feedback" | guard => "guard" | hitl => "hitl"
  end.

Definition type_str (t : StepType) : string :=
  match t with
  | llm_call => "llm_call" | tool_call => "tool_call" | guard_check => "guard_check"
  | phase_transition => "phase_transition" | hitl_gate => "hitl_gate"
  end.

Definition policy_str (p : StepPolicy) : string :=
  match p with
  | p_include => "include" | p_redact => "redact" | p_hmac => "hmac" | p_hash_only => "hash-only"
  end.

Record Tokens := { tk_input : num; tk_output : num; tk_cacheRead : option num }.
Record ModelId := { md_provider : string; md_name : string; md_version : string }.

Record TraceStep := {
  st_index : num;
  st_runId : string;
  st_phase : Phase;
  st_type : StepType;
  st_timestamp : num;
  st_durationMs : num;
  st_inputHash : string;
  st_inputOriginalHmac : option string;
  st_storedInput : jsval;
  st_outputHash : string;
  st_outputOriginalHmac : option string;
  st_storedOutput : jsval;
  st_policy : StepPolicy;
  st_tokens : option Tokens;
  st_costUsd : option num;
  st_model : option ModelId;
  st_toolName : option string;
  st_guardName : option string;
  st_prevStepHash : string;
  st_stepHash : string
}.

(** The fields of a trace that the chain reads. *)
Record Trace := {
  tr_runId : string;
  tr_agentId : string;
  tr_agentVersion : string;
  tr_steps : list TraceStep;
  tr_totalSteps : num;
  tr_config : jsval;
  tr_configHash : string;
  tr_receiptStatus : option ReceiptStatus
}.

(** ** Steps as plain objects *)

Definition opt_val {A} (f : A -> jsval) (o : option A) : jsval :=
  match o with Some a => f a | None => JUndef end.

Definition tokens_val (t : Tokens) : jsval :=
  JObj [("input", JNum (tk_input t)); ("output", JNum (tk_output t));
        ("cacheRead", opt_val JNum (tk_cacheRead t))].

Definition model_val (m : ModelId) : jsval :=
  JObj [("provider", JStr (md_provider m)); ("name", JStr (md_name m));
        ("version", JStr (md_version m))].

Definition step_fields (s : TraceStep) : list (string * jsval) :=
  [("index", JNum (st_index s)); ("runId", JStr (st_runId s));
   ("phase", JStr (phase_str (st_phase s))); ("type", JStr (type_str (st_type s)));
   ("timestamp", JNum (st_timestamp s)); ("durationMs", JNum (st_durationMs s));
   ("inputHash", JStr (st_inputHash s));
   ("inputOriginalHmac", opt_val JStr (st_inputOriginalHmac s));
   ("storedInput", st_storedInput s);
   ("outputHash", JStr (st_outputHash s));
   ("outputOriginalHmac", opt_val JStr (st_outputOriginalHmac s));
   ("storedOutput", st_storedOutput s);
   ("policy", JStr (policy_str (st_policy s)));
   ("tokens", opt_val tokens_val (st_tokens s));
   ("costUsd", opt_val JNum (st_costUsd s));
   ("model", opt_val model_val (st_model s));
   ("toolName", opt_val JStr (st_toolName s));
   ("guardName", opt_val JStr (st_guardName s));
   ("prevStepHash", JStr (st_prevStepHash s));
   ("stepHash", JStr (st_stepHash s))].

(** * The chain *)

Record ProofChainEntry := { pe_index : num; pe_stepHash : string }.
Record ProofChain := mkChain { entries : list ProofChainEntry; rootHash : string }.

Inductive VerifyChainResult :=
| Valid (receiptStatus : option ReceiptStatus)
| Invalid (tamperedAt : Z) (reason : string) (receiptStatus : option ReceiptStatus).

Definition GENESIS_PREV_HASH : string :=
  "0000000000000000000000000000000000000000000000000000000000000000".

(** [{ ...stepWithoutHash, runId }]. *)
Definition step_payload (s : TraceStep) (runId : string) : jsval :=
  JObj (om_set "runId" (JStr runId) (om_delete "stepHash" (step_fields s))).

Definition root_payload (t : Trace) (lastStepHash : option string) : jsval :=
  JObj [("agentId", JStr (tr_agentId t)); ("agentVersion", JStr (tr_agentVersion t));
        ("configHash", JStr (tr_configHash t)); ("lastStepHash", opt_val JStr lastStepHash);
        ("runId", JStr (tr_runId t)); ("totalSteps", JNum (tr_totalSteps t))].

Section Chain.
Context `{Hashing}.

Definition computeStepHash (s : TraceStep) (runId : string) : result string :=
  hash_canonical (step_payload s runId).

Fixpoint buildEntries (runId : string) (steps : list TraceStep) : result (list ProofChainEntry) :=
  match steps with
  | [] => Ok []
  | s :: rest =>
      h ← computeStepHash s runId;
      es ← buildEntries runId rest;
      Ok ({| pe_index := st_index s; pe_stepHash := h |} :: es)
  end.

Definition buildChain (t : Trace) : result ProofChain :=
  match tr_steps t with
  | [] => Throw (JsError "Error" "buildChain: trace must have at least one step")
  | _ :: _ =>
      es ← buildEntries (tr_runId t) (tr_steps t);
      root ← hash_canonical (root_payload t (pe_stepHash <$> last es));
      Ok (mkChain es root)
  end.

(** The per-step loop: the hashes computed, or the first failed check. *)
Fixpoint verifySteps (t : Trace) (i : nat) (computed : list string) (steps : list TraceStep)
    : result (list string + Z * string) :=
  match steps with
  | [] => Ok (inl computed)
  | s :: rest =>
      if negb (num_eqb (st_index s) (num_of_Z (Z.of_nat i))) then Ok (inr (Z.of_nat i, "monotone violation"))
      else if negb (st_runId s =? tr_runId t)%string then Ok (inr (Z.of_nat i, "runId mismatch"))
      else
        recomputed ← computeStepHash s (tr_runId t);
        if negb (recomputed =? st_stepHash s)%string
        then Ok (inr (Z.of_nat i, "step hash mismatch"))
        else
          let computed' := computed ++ [recomputed] in
          let expectedPrev := match i with
                              | O => Some GENESIS_PREV_HASH
                              | S j => computed' !! j
                              end in
          if negb (bool_decide (expectedPrev = Some (st_prevStepHash s)))
          then Ok (inr (Z.of_nat i, "prev hash mismatch"))
          else verifySteps t (S i) computed' rest
  end.

Definition verifyChain (t : Trace) (c : ProofChain) : result VerifyChainResult :=
  let rs := tr_receiptStatus t in
  if negb (num_eqb (num_of_Z (Z.of_nat (length (tr_steps t)))) (tr_totalSteps t))
  then Ok (Invalid (-1) "totalSteps mismatch" rs)
  else
    loop ← verifySteps t 0 [] (tr_steps t);
    match loop with
    | inr (i, why) => Ok (Invalid i why rs)
    | inl computed =>
        root ← hash_canonical (root_payload t (last computed));
        if negb (rootHash c =? root)%string then Ok (Invalid (-1) "root hash mismatch" rs)
        else
          ch ← hash_canonical (tr_config t);
          if negb (tr_configHash t =? ch)%string
          then Ok (Invalid (-1) "config hash mismatch" rs)
          else Ok (Valid rs)
    end.
End Chain.

(** * Correctness *)

Section ChainProps.
Context `{Hashing}.

(** * Validity, declaratively *)

(** The stored hash a step must name as its predecessor. *)
Definition prev_of (steps : list TraceStep) (i : nat) : option string :=
  match i with O => Some GENESIS_PREV_HASH | S j => st_stepHash <$> steps !! j end.

Definition step_ok (t : Trace) (i : nat) (s : TraceStep) : Prop :=
  num_eqb (st_index s) (num_of_Z (Z.of_nat i)) = true /\ st_runId s = tr_runId t /\
  computeStepHash s (tr_runId t) = Ok (st_stepHash s) /\
  prev_of (tr_steps t) i = Some (st_prevStepHash s).

(** Steps numbered from zero, of this run, hashing to what they carry and
    linked to their predecessors. *)
Definition steps_linked (t : Trace) : Prop :=
  forall i s, tr_steps t !! i = Some s -> step_ok t i s.

Record chain_valid (t : Trace) (c : ProofChain) : Prop := {
  cv_total : num_eqb (num_of_Z (Z.of_nat (length (tr_steps t)))) (tr_totalSteps t) = true;
  cv_steps : steps_linked t;
  cv_root : hash_canonical (root_payload t (st_stepHash <$> last (tr_steps t))) = Ok (rootHash c);
  cv_config : hash_canonical (tr_config t) = Ok (tr_configHash t)
}.

(** ** The per-step loop *)

Lemma prev_of_computed (steps done rest : list TraceStep) h :
  steps = done ++ rest ->
  match length done with O => Some GENESIS_PREV_HASH | S j => (map st_stepHash done ++ [h]) !! j end
  = prev_of steps (length done).
Proof.
  intros ->. unfold prev_of. destruct (length done) as [|j] eqn:Hl; [done|].
  rewrite !lookup_app_l by (rewrite ?length_map; lia).
  apply list_lookup_fmap.
Qed.

(** One iteration: the step passes its checks and the loop goes on, or it fails
    one of them and the loop stops there. *)
Lemma verifySteps_cons t done s rest :
  tr_steps t = done ++ s :: rest ->
  (step_ok t (length done) s /\
   verifySteps t (length done) (map st_stepHash done) (s :: rest) =
   verifySteps t (length (done ++ [s])) (map st_stepHash (done ++ [s])) rest) \/
  (~ step_ok t (length done) s /\
   forall r, verifySteps t (length done) (map st_stepHash done) (s :: rest) = Ok r ->
     exists why, r = inr (Z.of_nat (length done), why)).
Proof.
  intros Hs. cbn [verifySteps]. unfold step_ok.
  destruct (num_eqb (st_index s) _) eqn:E1; cbn [negb];
    [|right; split; [by intros (? & _)|intros r [= <-]; eauto]].
  destruct (String.eqb_spec (st_runId s) (tr_runId t)) as [E2|E2]; cbn [negb];
    [|right; split; [by intros (_ & ? & _)|intros r [= <-]; eauto]].
  destruct (computeStepHash s (tr_runId t)) as [h|e]; unfold mbind, result_bind; cbn [negb];
    [|right; split; [by intros (_ & _ & ? & _)|done]].
  destruct (String.eqb_spec h (st_stepHash s)) as [->|E3]; cbn [negb];
    [|right; split; [intros (_ & _ & E & _); congruence|intros r [= <-]; eauto]].
  rewrite (prev_of_computed (tr_steps t) done (s :: rest)) by done.
  case_bool_decide as E4; cbn [negb];
    [|right; split; [by intros (_ & _ & _ & ?)|intros r [= <-]; eauto]].
  left. split; [done|]. by rewrite length_app, map_app, Nat.add_1_r.
Qed.

Lemma verifySteps_spec t done rest :
  tr_steps t = done ++ rest ->
  (forall out, verifySteps t (length done) (map st_stepHash done) rest = Ok (inl out) <->
     out = map st_stepHash (tr_steps t) /\
     forall k s, rest !! k = Some s -> step_ok t (length done + k) s) /\
  (forall z why, verifySteps t (length done) (map st_stepHash done) rest = Ok (inr (z, why)) ->
     exists k s, rest !! k = Some s /\ z = Z.of_nat (length done + k) /\
       ~ step_ok t (length done + k) s /\
       forall j u, (j < k)%nat -> rest !! j = Some u -> step_ok t (length done + j) u).
Proof.
  revert done. induction rest as [|s rest IH]; intros done Hs.
  { cbn [verifySteps]. rewrite Hs, app_nil_r. split; [intros out|by intros].
    split; [intros [= <-]; split; [done|by intros k s']|by intros [-> _]]. }
  destruct (verifySteps_cons t done s rest Hs) as [[Hok ->]|[Hno Hf]].
  - destruct (IH (done ++ [s])) as [IH1 IH2]; [by rewrite <- app_assoc|].
    rewrite length_app in *. simpl in *. split.
    + intros out. rewrite IH1. split; intros [-> Hall]; (split; [done|]).
      * intros [|k] u Hk; [simpl in Hk; injection Hk as <-; by rewrite Nat.add_0_r|].
        specialize (Hall k u Hk). by rewrite <- Nat.add_assoc in Hall.
      * intros k u Hk. rewrite <- Nat.add_assoc. by apply (Hall (S k)).
    + intros z why Hz. destruct (IH2 z why Hz) as (k & u & Hk & -> & Hno & Hall).
      exists (S k), u. rewrite <- Nat.add_assoc in Hno. simpl in Hno.
      split; [done|split; [lia|split; [done|]]]. intros [|j] v Hj Hv; [simpl in Hv|].
      { injection Hv as <-. by rewrite Nat.add_0_r. }
      specialize (Hall j v ltac:(lia) Hv). by rewrite <- Nat.add_assoc in Hall.
  - split.
    + intros out. split; [intros (why & [=])%Hf|]. intros [_ Hall]. destruct Hno.
      specialize (Hall 0%nat s eq_refl). by rewrite Nat.add_0_r in Hall.
    + intros z why (why' & [= -> ->])%Hf. exists 0%nat, s. rewrite Nat.add_0_r.
      split; [done|split; [done|split; [done|]]]. intros; lia.
Qed.

Lemma verifySteps_start t :
  (forall out, verifySteps t 0 [] (tr_steps t) = Ok (inl out) <->
     out = map st_stepHash (tr_steps t) /\ steps_linked t) /\
  (forall z why, verifySteps t 0 [] (tr_steps t) = Ok (inr (z, why)) ->
     exists k s, tr_steps t !! k = Some s /\ z = Z.of_nat k /\ ~ step_ok t k s /\
       forall j u, (j < k)%nat -> tr_steps t !! j = Some u -> step_ok t j u).
Proof. exact (verifySteps_spec t [] (tr_steps t) eq_refl). Qed.

Lemma verifyChain_valid_iff t c rs :
  verifyChain t c = Ok (Valid rs) <-> rs = tr_receiptStatus t /\ chain_valid t c.
Proof.
  unfold verifyChain. destruct (num_eqb _ (tr_totalSteps t)) eqn:E1; cbn [negb];
    [|split; [done|intros [_ []]; congruence]].
  destruct (verifySteps_start t) as [Hin Hout].
  destruct (verifySteps t 0 [] (tr_steps t)) as [[out|[z why]]|e] eqn:E2;
    unfold mbind, result_bind.
  - destruct (proj1 (Hin out) eq_refl) as [-> Hl].
    change (map st_stepHash (tr_steps t)) with (st_stepHash <$> tr_steps t).
    rewrite fmap_last.
    destruct (hash_canonical (root_payload t _)) as [root|e] eqn:E3;
      [|split; [done|intros [_ []]; congruence]].
    destruct (String.eqb_spec (rootHash c) root) as [<-|E4]; cbn [negb];
      [|split; [done|intros [_ []]; congruence]].
    destruct (hash_canonical (tr_config t)) as [ch|e] eqn:E5;
      [|split; [done|intros [_ []]; congruence]].
    destruct (String.eqb_spec (tr_configHash t) ch) as [<-|E6]; cbn [negb];
      [|split; [done|intros [_ []]; congruence]].
    split; [intros [= <-]; split; [done|by split]|by intros [-> _]].
  - split; [done|]. intros [_ Hv]. destruct (Hout z why eq_refl) as (k & s & Hk & _ & Hno & _).
    destruct Hno. by apply (cv_steps t c Hv).
  - split; [done|]. intros [_ Hv].
    by pose proof (proj2 (Hin _) (conj eq_refl (cv_steps t c Hv))).
Qed.

(** C20: [verifyChain] accepts exactly the valid chains (right step count, every
    step numbered, owned, hashed and linked, root and configuration hashes as
    recomputed), passing the receipt status through; when it blames step [k],
    step [k] is the first that violates its checks. *)
Theorem verifyChain_decides (t : Trace) (c : ProofChain) :
  (forall rs, verifyChain t c = Ok (Valid rs) <-> rs = tr_receiptStatus t /\ chain_valid t c) /\
  (forall k why rs, verifyChain t c = Ok (Invalid (Z.of_nat k) why rs) ->
     exists s, tr_steps t !! k = Some s /\ ~ step_ok t k s /\
       forall j u, (j < k)%nat -> tr_steps t !! j = Some u -> step_ok t j u).
Proof.
  split; [intros rs; apply verifyChain_valid_iff|]. intros k why rs. unfold verifyChain.
  destruct (num_eqb _ _); cbn [negb]; [|intros [= E]; lia].
  destruct (verifySteps_start t) as [_ Hout].
  destruct (verifySteps t 0 [] _) as [[out|[z w]]|e]; unfold mbind, result_bind; [|..|done].
  - destruct (hash_canonical _) as [root|e]; [|done].
    destruct (negb (rootHash c =? root)%string); [intros [= E]; lia|].
    destruct (hash_canonical (tr_config t)) as [ch|e]; [|done].
    destruct (negb (tr_configHash t =? ch)%string); [intros [= E]; lia|done].
  - intros [= -> _ _]. destruct (Hout _ _ eq_refl) as (k' & s & Hk & Hz & Hno & Hall).
    apply Nat2Z.inj in Hz as <-. eauto.
Qed.

(** ** Building *)

Lemma buildEntries_linked runId steps es :
  buildEntries runId steps = Ok es ->
  (forall s, s ∈ steps -> computeStepHash s runId = Ok (st_stepHash s)) ->
  map pe_stepHash es = map st_stepHash steps.
Proof.
  revert es. induction steps as [|s steps IH]; intros es; cbn [buildEntries]; [by intros [= <-]|].
  intros Hb Hall. rewrite (Hall s) in Hb by (by left).
  destruct (buildEntries runId steps) as [es'|e]; [|done]. simpl in Hb. injection Hb as <-.
  simpl. f_equal. apply IH; [done|]. intros u Hu. apply Hall. by right.
Qed.

(** The chain built from a trace whose steps are linked and whose step
    count and configuration hash are right verifies against it; and whatever
    its entries, a chain verifies exactly when it carries that root hash. *)
Theorem buildChain_verifies (t : Trace) (c : ProofChain) (Hb : buildChain t = Ok c)
    (Hl : steps_linked t)
    (Hn : num_eqb (num_of_Z (Z.of_nat (length (tr_steps t)))) (tr_totalSteps t) = true)
    (Hc : hash_canonical (tr_config t) = Ok (tr_configHash t)) :
  verifyChain t c = Ok (Valid (tr_receiptStatus t)) /\
  forall c', verifyChain t c' = Ok (Valid (tr_receiptStatus t)) <-> rootHash c' = rootHash c.
Proof.
  assert (Hr : hash_canonical (root_payload t (st_stepHash <$> last (tr_steps t))) = Ok (rootHash c)).
  { unfold buildChain in Hb. destruct (tr_steps t) as [|s0 rest] eqn:Hs; [done|].
    rewrite <- Hs in *. destruct (buildEntries _ (tr_steps t)) as [es|e] eqn:Ee; [|done].
    apply buildEntries_linked in Ee.
    2:{ intros s [i Hi]%list_elem_of_lookup. by apply Hl in Hi as (_ & _ & ? & _). }
    change (map ?f ?l) with (f <$> l) in Ee.
    unfold mbind, result_bind in Hb. rewrite <- !fmap_last, Ee in Hb.
    rewrite <- fmap_last. by destruct (hash_canonical _); [injection Hb as <-|]. }
  assert (Hall : forall c', verifyChain t c' = Ok (Valid (tr_receiptStatus t)) <->
                   rootHash c' = rootHash c).
  { intros c'. rewrite verifyChain_valid_iff. split.
    - intros [_ Hv]. pose proof (cv_root t c' Hv). congruence.
    - intros E. split; [done|]. split; [done..|by rewrite E|done]. }
  split; [by apply Hall|done].
Qed.
End ChainProps.
