(* ===== verification/ChainBinding.v ===== *)
(** A verified root hash commits to the run, its configuration and every step:
    two traces that verify against one root hash are the same trace.  At the end, a
    concrete trace over a toy hash. *)

From S2P Require Import Prelude JsNum JsValue Canonical Chain.
From Stdlib Require Import SpecFloat.

(** * What serialization preserves *)

(** A field of a processed object is the processed field, [undefined] ones
    being omitted. *)
Lemma preprocess_fields_get pp path l obj0 obj :
  NoDup l.*1 -> (forall k, k ∈ l.*1 -> k ∉ obj0.*1) ->
  preprocess_fields pp path obj0 l = Ok obj ->
  (forall k, k ∉ l.*1 -> get_field k obj = get_field k obj0) /\
  (forall k v, (k, v) ∈ l -> pp (path ++ [k]) v = Ok (get_field k obj)).
Proof.
  revert obj0. induction l as [|[k v] l IH]; intros obj0 Hnd Hfr; cbn [preprocess_fields].
  { intros [= ->]. split; [done|]. by intros k v ?%elem_of_nil. }
  rewrite fmap_cons in Hnd, Hfr |- *. apply NoDup_cons in Hnd as [Hk Hnd]. cbn [fst] in *.
  assert (Hk0 : get_field k obj0 = JUndef).
  { unfold get_field. by rewrite (proj2 (om_get_None k obj0)) by (apply Hfr; left). }
  destruct (pp (path ++ [k]) v) as [p|e] eqn:Hp; [|done]. unfold mbind, result_bind.
  assert (Hskip : p <> JUndef -> preprocess_fields pp path (om_set k p obj0) l = Ok obj ->
    (forall k', k' ∉ k :: l.*1 -> get_field k' obj = get_field k' obj0) /\
    (forall k' v', (k', v') ∈ (k, v) :: l -> pp (path ++ [k']) v' = Ok (get_field k' obj))).
  { intros _ Hgo. destruct (IH (om_set k p obj0) Hnd) as [IH1 IH2]; [|done|].
    - intros k' Hk' Hin. rewrite om_set_keys in Hin.
      destruct (om_has k obj0); [by apply (Hfr k'); [right|]|].
      apply elem_of_app in Hin as [Hin|Hin]; [by apply (Hfr k'); [right|]|].
      apply list_elem_of_singleton in Hin as ->. done.
    - split; [intros k' Hk'; apply not_elem_of_cons in Hk' as [Hne Hk']|].
      + rewrite IH1 by done. by rewrite get_field_set_ne.
      + intros k' v' [[= -> ->]|Hin]%elem_of_cons; [|by apply IH2].
        rewrite IH1 by done. by rewrite get_field_set_eq. }
  destruct p; try (apply Hskip; done).
  intros Hgo. destruct (IH obj0 Hnd) as [IH1 IH2]; [|done|].
  { intros k' Hk'. apply Hfr. by right. }
  split; [intros k' Hk'; apply not_elem_of_cons in Hk' as [Hne Hk']; by apply IH1|].
  intros k' v' [[= -> ->]|Hin]%elem_of_cons; [|by apply IH2]. by rewrite IH1, Hk0.
Qed.

Lemma preprocess_obj_get path fields p :
  preprocess path (JObj fields) = Ok p -> NoDup fields.*1 ->
  exists obj, p = JObj obj /\
    forall k v, (k, v) ∈ fields -> preprocess (path ++ [k]) v = Ok (get_field k obj).
Proof.
  simpl. intros Hp Hnd. destruct (preprocess_fields _ _ _ _) as [obj|e] eqn:E; [|done].
  unfold mbind, result_bind in Hp. injection Hp as <-. exists obj. split; [done|].
  apply (preprocess_fields_get preprocess path fields [] obj); [done| |done].
  by intros k _ ?%elem_of_nil.
Qed.

(** Data read back from its serialized form. *)
Definition pp_inj {A} (f : A -> jsval) : Prop :=
  forall path a b p, preprocess path (f a) = Ok p -> preprocess path (f b) = Ok p -> a = b.

Lemma pp_inj_str : pp_inj JStr.
Proof. intros path a b p [= <-] [= ->]. done. Qed.

Lemma pp_num path x p : preprocess path (JNum x) = Ok p -> p = JNum x.
Proof. simpl. destruct x as [[]|[]| |]; try done; by intros [= <-]. Qed.

Lemma pp_inj_num : pp_inj JNum.
Proof. intros path a b p ->%pp_num E%pp_num. by injection E. Qed.

Lemma pp_inj_opt {A} (f : A -> jsval) :
  pp_inj f -> (forall path a, preprocess path (f a) <> Ok JUndef) -> pp_inj (opt_val f).
Proof.
  intros Hf Hu path [a|] [b|] p; simpl; intros H1 H2; try done.
  - f_equal. by eapply Hf.
  - injection H2 as <-. by destruct (Hu path a).
  - injection H1 as <-. by destruct (Hu path b).
Qed.

Lemma pp_inj_comp {A} (f : A -> string) :
  (forall a b, f a = f b -> a = b) -> pp_inj (fun a => JStr (f a)).
Proof. intros Hf path a b p H1 H2. apply Hf. by eapply (pp_inj_str path). Qed.

Lemma pp_obj_defined path fields : preprocess path (JObj fields) <> Ok JUndef.
Proof. simpl. by destruct (preprocess_fields _ _ _ _). Qed.

(** Equal serialized objects, field by field. *)
Lemma pp_fields_agree path f1 f2 p :
  preprocess path (JObj f1) = Ok p -> preprocess path (JObj f2) = Ok p ->
  NoDup f1.*1 -> NoDup f2.*1 ->
  forall k v1 v2, om_get k f1 = Some v1 -> om_get k f2 = Some v2 ->
    exists q, preprocess (path ++ [k]) v1 = Ok q /\ preprocess (path ++ [k]) v2 = Ok q.
Proof.
  intros H1 H2 N1 N2 k v1 v2 I1%om_get_Some_in I2%om_get_Some_in.
  destruct (preprocess_obj_get _ _ _ H1 N1) as (o1 & -> & G1).
  destruct (preprocess_obj_get _ _ _ H2 N2) as (o2 & [= ->] & G2).
  exists (get_field k o2). eauto.
Qed.

(** Field [k] of two agreeing objects, by the injectivity [H] of its reading. *)
Ltac agree_on Hag k H :=
  let q := fresh "q" in let E1 := fresh in let E2 := fresh in
  destruct (Hag k _ _ eq_refl eq_refl) as (q & E1 & E2);
  pose proof (H _ _ _ _ E1 E2); clear q E1 E2.

Ltac nodup_keys := apply (bool_decide_unpack _); vm_compute; exact I.

Lemma pp_inj_opt_str : pp_inj (opt_val JStr).
Proof. by apply pp_inj_opt; [apply pp_inj_str|]. Qed.

Lemma pp_inj_opt_num : pp_inj (opt_val JNum).
Proof. apply pp_inj_opt; [apply pp_inj_num|]. by intros path x ?%pp_num. Qed.

Lemma pp_inj_tokens : pp_inj tokens_val.
Proof.
  intros path a b p H1 H2.
  pose proof (pp_fields_agree _ _ _ _ H1 H2 ltac:(nodup_keys) ltac:(nodup_keys)) as Hag.
  agree_on Hag "input" pp_inj_num. agree_on Hag "output" pp_inj_num.
  agree_on Hag "cacheRead" pp_inj_opt_num.
  clear H1 H2 Hag. destruct a, b; simpl in *; congruence.
Qed.

Lemma pp_inj_model : pp_inj model_val.
Proof.
  intros path a b p H1 H2.
  pose proof (pp_fields_agree _ _ _ _ H1 H2 ltac:(nodup_keys) ltac:(nodup_keys)) as Hag.
  agree_on Hag "provider" pp_inj_str. agree_on Hag "name" pp_inj_str.
  agree_on Hag "version" pp_inj_str. clear H1 H2 Hag. destruct a, b; simpl in *; congruence.
Qed.

Lemma pp_inj_opt_tokens : pp_inj (opt_val tokens_val).
Proof. apply pp_inj_opt; [apply pp_inj_tokens|]. intros. apply pp_obj_defined. Qed.

Lemma pp_inj_opt_model : pp_inj (opt_val model_val).
Proof. apply pp_inj_opt; [apply pp_inj_model|]. intros. apply pp_obj_defined. Qed.

Lemma pp_inj_phase : pp_inj (fun a => JStr (phase_str a)).
Proof. apply pp_inj_comp. by intros [] []. Qed.
Lemma pp_inj_type : pp_inj (fun a => JStr (type_str a)).
Proof. apply pp_inj_comp. by intros [] []. Qed.
Lemma pp_inj_policy : pp_inj (fun a => JStr (policy_str a)).
Proof. apply pp_inj_comp. by intros [] []. Qed.

(** * Binding *)

(** The same step, stored payloads up to serialization. *)
Record same_step (s u : TraceStep) : Prop := {
  ss_index : st_index s = st_index u;
  ss_runId : st_runId s = st_runId u;
  ss_phase : st_phase s = st_phase u;
  ss_type : st_type s = st_type u;
  ss_timestamp : st_timestamp s = st_timestamp u;
  ss_durationMs : st_durationMs s = st_durationMs u;
  ss_inputHash : st_inputHash s = st_inputHash u;
  ss_inputHmac : st_inputOriginalHmac s = st_inputOriginalHmac u;
  ss_storedInput : preprocess ["storedInput"] (st_storedInput s) =
                   preprocess ["storedInput"] (st_storedInput u);
  ss_outputHash : st_outputHash s = st_outputHash u;
  ss_outputHmac : st_outputOriginalHmac s = st_outputOriginalHmac u;
  ss_storedOutput : preprocess ["storedOutput"] (st_storedOutput s) =
                    preprocess ["storedOutput"] (st_storedOutput u);
  ss_policy : st_policy s = st_policy u;
  ss_tokens : st_tokens s = st_tokens u;
  ss_costUsd : st_costUsd s = st_costUsd u;
  ss_model : st_model s = st_model u;
  ss_toolName : st_toolName s = st_toolName u;
  ss_guardName : st_guardName s = st_guardName u;
  ss_prev : st_prevStepHash s = st_prevStepHash u;
  ss_hash : st_stepHash s = st_stepHash u
}.

(** Steps of one run with one payload agree on everything but the hash. *)
Lemma step_payload_inj s u runId p :
  preprocess [] (step_payload s runId) = Ok p -> preprocess [] (step_payload u runId) = Ok p ->
  st_runId s = st_runId u -> st_stepHash s = st_stepHash u -> same_step s u.
Proof.
  intros H1 H2 Hr Hh.
  pose proof (pp_fields_agree _ _ _ _ H1 H2 ltac:(nodup_keys) ltac:(nodup_keys)) as Hag.
  agree_on Hag "index" pp_inj_num. agree_on Hag "phase" pp_inj_phase.
  agree_on Hag "type" pp_inj_type. agree_on Hag "timestamp" pp_inj_num.
  agree_on Hag "durationMs" pp_inj_num. agree_on Hag "inputHash" pp_inj_str.
  agree_on Hag "inputOriginalHmac" pp_inj_opt_str. agree_on Hag "outputHash" pp_inj_str.
  agree_on Hag "outputOriginalHmac" pp_inj_opt_str. agree_on Hag "policy" pp_inj_policy.
  agree_on Hag "tokens" pp_inj_opt_tokens. agree_on Hag "costUsd" pp_inj_opt_num.
  agree_on Hag "model" pp_inj_opt_model. agree_on Hag "toolName" pp_inj_opt_str.
  agree_on Hag "guardName" pp_inj_opt_str. agree_on Hag "prevStepHash" pp_inj_str.
  split; try done.
  - destruct (Hag "storedInput" _ _ eq_refl eq_refl) as (q & E1 & E2). cbn [app] in E1, E2. congruence.
  - destruct (Hag "storedOutput" _ _ eq_refl eq_refl) as (q & E1 & E2). cbn [app] in E1, E2. congruence.
Qed.

Section Binding.
Context `{Hashing}.

(** Everything a verification of [t] hashes, as serialized. *)
Definition hashed (t : Trace) : list jsval :=
  omap (fun v => match preprocess [] v with Ok p => Some p | Throw _ => None end)
    (tr_config t :: root_payload t (st_stepHash <$> last (tr_steps t))
     :: map (fun s => step_payload s (tr_runId t)) (tr_steps t)).

(** No two different values among these have one digest. *)
Definition collision_free (l1 l2 : list jsval) : Prop :=
  Forall (fun x => Forall (fun y =>
    sha256 (rfcCanonicalize x) = sha256 (rfcCanonicalize y) -> x = y) l2) l1.

Lemma hash_canonical_inv v h :
  hash_canonical v = Ok h -> exists p, preprocess [] v = Ok p /\ h = sha256 (rfcCanonicalize p).
Proof.
  unfold hash_canonical, canonical, canonicalize. destruct (preprocess [] v) as [p|e]; [|done].
  unfold mbind, result_bind. intros [= <-]. eauto.
Qed.

Lemma elem_of_hashed t v p :
  v ∈ tr_config t :: root_payload t (st_stepHash <$> last (tr_steps t))
      :: map (fun s => step_payload s (tr_runId t)) (tr_steps t) ->
  preprocess [] v = Ok p -> p ∈ hashed t.
Proof. intros Hv Hp. apply list_elem_of_omap. exists v. by rewrite Hp. Qed.

Lemma same_digest t1 t2 v1 v2 h :
  collision_free (hashed t1) (hashed t2) ->
  hash_canonical v1 = Ok h -> hash_canonical v2 = Ok h ->
  v1 ∈ tr_config t1 :: root_payload t1 (st_stepHash <$> last (tr_steps t1))
       :: map (fun s => step_payload s (tr_runId t1)) (tr_steps t1) ->
  v2 ∈ tr_config t2 :: root_payload t2 (st_stepHash <$> last (tr_steps t2))
       :: map (fun s => step_payload s (tr_runId t2)) (tr_steps t2) ->
  exists p, preprocess [] v1 = Ok p /\ preprocess [] v2 = Ok p.
Proof.
  intros Hcf (p1 & E1 & ->)%hash_canonical_inv (p2 & E2 & Hd)%hash_canonical_inv I1 I2.
  apply (elem_of_hashed t1 v1 p1) in I1; [|done]. apply (elem_of_hashed t2 v2 p2) in I2; [|done].
  unfold collision_free in Hcf. rewrite Forall_forall in Hcf.
  specialize (Hcf p1 I1). rewrite Forall_forall in Hcf. rewrite (Hcf p2 I2 Hd) in E1. eauto.
Qed.

Section TwoTraces.
Context (t1 t2 : Trace) (c1 c2 : ProofChain).
Context (V1 : chain_valid t1 c1) (V2 : chain_valid t2 c2) (Hroot : rootHash c1 = rootHash c2).
Context (Hcf : collision_free (hashed t1) (hashed t2)).
Context (B1 : Z.of_nat (length (tr_steps t1)) < 2 ^ 32)
  (B2 : Z.of_nat (length (tr_steps t2)) < 2 ^ 32).

Lemma roots_agree :
  tr_agentId t1 = tr_agentId t2 /\ tr_agentVersion t1 = tr_agentVersion t2 /\
  tr_configHash t1 = tr_configHash t2 /\ tr_runId t1 = tr_runId t2 /\
  tr_totalSteps t1 = tr_totalSteps t2 /\
  st_stepHash <$> last (tr_steps t1) = st_stepHash <$> last (tr_steps t2).
Proof.
  pose proof (cv_root _ _ V1) as R1. pose proof (cv_root _ _ V2) as R2. rewrite <- Hroot in R2.
  destruct (same_digest t1 t2 _ _ _ Hcf R1 R2) as (p & E1 & E2); [right; left|right; left|].
  pose proof (pp_fields_agree _ _ _ _ E1 E2 ltac:(nodup_keys) ltac:(nodup_keys)) as Hag.
  agree_on Hag "agentId" pp_inj_str. agree_on Hag "agentVersion" pp_inj_str.
  agree_on Hag "configHash" pp_inj_str. agree_on Hag "runId" pp_inj_str.
  agree_on Hag "totalSteps" pp_inj_num. agree_on Hag "lastStepHash" pp_inj_opt_str. by split_and!.
Qed.

Lemma lengths_agree : length (tr_steps t1) = length (tr_steps t2).
Proof.
  destruct roots_agree as (_ & _ & _ & _ & Ht & _).
  pose proof (cv_total _ _ V1) as L1. pose proof (cv_total _ _ V2) as L2. rewrite <- Ht in L2.
  apply Nat2Z.inj. eapply num_eqb_safe; [..|exact L1|exact L2]; unfold safe_int, prec; lia.
Qed.

(** Steps at one position with one hash are the same step. *)
Lemma hashes_to_steps i s u :
  tr_steps t1 !! i = Some s -> tr_steps t2 !! i = Some u ->
  st_stepHash s = st_stepHash u -> same_step s u.
Proof.
  intros Hs Hu Hh. destruct (cv_steps _ _ V1 i s Hs) as (_ & R1 & H1 & _).
  destruct (cv_steps _ _ V2 i u Hu) as (_ & R2 & H2 & _).
  destruct roots_agree as (_ & _ & _ & Hr & _). rewrite <- Hr in R2, H2. rewrite <- Hh in H2.
  destruct (same_digest t1 t2 _ _ _ Hcf H1 H2) as (p & E1 & E2).
  - do 2 right. apply list_elem_of_fmap. exists s. split; [done|]. by eapply list_elem_of_lookup_2.
  - do 2 right. apply list_elem_of_fmap. exists u. rewrite <- Hr. split; [done|].
    by eapply list_elem_of_lookup_2.
  - apply (step_payload_inj s u (tr_runId t1) p); congruence.
Qed.

(** Equal hashes propagate from the last step back to the first. *)
Lemma hashes_agree d i s u :
  (i + S d)%nat = length (tr_steps t1) ->
  tr_steps t1 !! i = Some s -> tr_steps t2 !! i = Some u -> st_stepHash s = st_stepHash u.
Proof.
  revert i s u. induction d as [|d IH]; intros i s u Hd Hs Hu.
  - destruct roots_agree as (_ & _ & _ & _ & _ & Hl). pose proof lengths_agree as Hlen.
    rewrite !last_lookup, <- Hlen in Hl.
    replace (pred (length (tr_steps t1))) with i in Hl by lia. rewrite Hs, Hu in Hl.
    by injection Hl.
  - destruct (lookup_lt_is_Some_2 (tr_steps t1) (S i)) as [s' Hs']; [lia|].
    destruct (lookup_lt_is_Some_2 (tr_steps t2) (S i)) as [u' Hu']; [rewrite <- lengths_agree; lia|].
    assert (Hh : st_stepHash s' = st_stepHash u') by (apply (IH (S i)); [lia|done..]).
    destruct (cv_steps _ _ V1 _ _ Hs') as (_ & _ & _ & P1).
    destruct (cv_steps _ _ V2 _ _ Hu') as (_ & _ & _ & P2). simpl in P1, P2.
    rewrite Hs in P1. rewrite Hu in P2. injection P1 as ->. injection P2 as ->.
    by apply (ss_prev _ _ (hashes_to_steps _ _ _ Hs' Hu' Hh)).
Qed.

Lemma steps_agree : Forall2 same_step (tr_steps t1) (tr_steps t2).
Proof.
  apply Forall2_lookup. intros i. destruct (tr_steps t1 !! i) as [s|] eqn:Hs.
  - pose proof (lookup_lt_Some _ _ _ Hs) as Hi.
    destruct (lookup_lt_is_Some_2 (tr_steps t2) i) as [u Hu]; [by rewrite <- lengths_agree|].
    rewrite Hu. constructor. apply (hashes_to_steps i); [done..|].
    apply (hashes_agree (length (tr_steps t1) - S i) i); [lia|done..].
  - apply lookup_ge_None in Hs. rewrite (proj2 (lookup_ge_None (tr_steps t2) i)); [constructor|].
    by rewrite <- lengths_agree.
Qed.

Lemma configs_agree : preprocess [] (tr_config t1) = preprocess [] (tr_config t2).
Proof.
  pose proof (cv_config _ _ V1) as C1. pose proof (cv_config _ _ V2) as C2.
  destruct roots_agree as (_ & _ & Hc & _). rewrite <- Hc in C2.
  destruct (same_digest t1 t2 _ _ _ Hcf C1 C2) as (p & E1 & E2); [left|left|].
  congruence.
Qed.
End TwoTraces.

(** C19: two traces that verify against the same root hash, with no digest
    collision between what they hash, belong to the same run of the same agent
    version, with the same configuration and the same steps in the same order:
    no step can be edited, dropped, added, moved or spliced. *)
Theorem chain_binds (t1 t2 : Trace) (c1 c2 : ProofChain) (rs1 rs2 : option ReceiptStatus)
    (V1 : verifyChain t1 c1 = Ok (Valid rs1)) (V2 : verifyChain t2 c2 = Ok (Valid rs2))
    (Hroot : rootHash c1 = rootHash c2) (Hcf : collision_free (hashed t1) (hashed t2))
    (B1 : Z.of_nat (length (tr_steps t1)) < 2 ^ 32)
    (B2 : Z.of_nat (length (tr_steps t2)) < 2 ^ 32) :
  tr_runId t1 = tr_runId t2 /\ tr_agentId t1 = tr_agentId t2 /\
  tr_agentVersion t1 = tr_agentVersion t2 /\
  preprocess [] (tr_config t1) = preprocess [] (tr_config t2) /\
  Forall2 same_step (tr_steps t1) (tr_steps t2).
Proof.
  apply verifyChain_valid_iff in V1 as [_ V1]. apply verifyChain_valid_iff in V2 as [_ V2].
  destruct (roots_agree t1 t2 c1 c2 V1 V2 Hroot Hcf) as (? & ? & _ & ? & _).
  pose proof (configs_agree t1 t2 c1 c2 V1 V2 Hroot Hcf).
  pose proof (steps_agree t1 t2 c1 c2 V1 V2 Hroot Hcf B1 B2). by split_and!.
Qed.
End Binding.

(** * Concrete runs *)

(** A printer that keeps what it prints apart. *)
Fixpoint showVal (v : jsval) : string :=
  match v with
  | JStr s => ("'" ++ s ++ "'")%string
  | JNum x => num_to_string x
  | JObj l =>
      (fix go l := match l with
                   | [] => "}"
                   | (k, v) :: l' => (k ++ ":" ++ showVal v ++ "," ++ go l')%string
                   end) l
  | _ => "?"
  end.

Definition printHashing : Hashing := {| rfcCanonicalize := showVal; sha256 := fun s => ("#" ++ s)%string |}.

Definition emptyStep (i : Z) (run prev : string) : TraceStep :=
  {| st_index := num_of_Z i; st_runId := run; st_phase := act; st_type := tool_call;
     st_timestamp := num_of_Z (1000 + i); st_durationMs := num_of_Z 5; st_inputHash := "in";
     st_inputOriginalHmac := None; st_storedInput := JUndef; st_outputHash := "out";
     st_outputOriginalHmac := None; st_storedOutput := JStr "ok"; st_policy := p_include;
     st_tokens := None; st_costUsd := None; st_model := None; st_toolName := Some "search";
     st_guardName := None; st_prevStepHash := prev; st_stepHash := "" |}.

Definition set_hash (h : string) (s : TraceStep) : TraceStep :=
  {| st_index := st_index s; st_runId := st_runId s; st_phase := st_phase s; st_type := st_type s;
     st_timestamp := st_timestamp s; st_durationMs := st_durationMs s;
     st_inputHash := st_inputHash s; st_inputOriginalHmac := st_inputOriginalHmac s;
     st_storedInput := st_storedInput s; st_outputHash := st_outputHash s;
     st_outputOriginalHmac := st_outputOriginalHmac s; st_storedOutput := st_storedOutput s;
     st_policy := st_policy s; st_tokens := st_tokens s; st_costUsd := st_costUsd s;
     st_model := st_model s; st_toolName := st_toolName s; st_guardName := st_guardName s;
     st_prevStepHash := st_prevStepHash s; st_stepHash := h |}.

Definition orEmpty (r : result string) : string := match r with Ok s => s | Throw _ => "" end.

Definition seal (s : TraceStep) (run : string) : TraceStep :=
  set_hash (orEmpty (@computeStepHash printHashing s run)) s.

Definition step0 : TraceStep := seal (emptyStep 0 "run" GENESIS_PREV_HASH) "run".
Definition step1 : TraceStep := seal (emptyStep 1 "run" (st_stepHash step0)) "run".

Definition demoConfig : jsval := JObj [("model", JStr "m")].

Definition demoTrace : Trace :=
  {| tr_runId := "run"; tr_agentId := "agent"; tr_agentVersion := "1.0.0";
     tr_steps := [step0; step1]; tr_totalSteps := num_of_Z 2; tr_config := demoConfig;
     tr_configHash := orEmpty (@hash_canonical printHashing demoConfig);
     tr_receiptStatus := Some pending |}.

Definition orNoChain (r : result ProofChain) : ProofChain :=
  match r with Ok c => c | Throw _ => mkChain [] "" end.

Definition demoChain : ProofChain := orNoChain (@buildChain printHashing demoTrace).

Lemma demo_built : @buildChain printHashing demoTrace = Ok demoChain.
Proof. vm_compute. reflexivity. Qed.

Lemma demo_linked : @steps_linked printHashing demoTrace.
Proof.
  intros [|[|i]] s Hs; simpl in Hs; [injection Hs as <-..|done];
    split_and!; vm_compute; reflexivity.
Qed.

Lemma demo_verifies : @verifyChain printHashing demoTrace demoChain = Ok (Valid (Some pending)).
Proof. vm_compute. reflexivity. Qed.

Lemma demo_collision_free :
  @collision_free printHashing (hashed demoTrace) (hashed demoTrace).
Proof. repeat (constructor; [repeat (constructor; [intros E; vm_compute in E |- *; congruence|])|]); constructor. Qed.

Lemma buildChain_verifies_witness :
  length (tr_steps demoTrace) = 2%nat /\
  @verifyChain printHashing demoTrace demoChain = Ok (Valid (Some pending)).
Proof.
  split; [reflexivity|].
  refine (proj1 (@buildChain_verifies printHashing demoTrace demoChain demo_built demo_linked _ _));
    vm_compute; reflexivity.
Defined.

Lemma chain_binds_witness :
  length (tr_steps demoTrace) = 2%nat /\ Forall2 same_step (tr_steps demoTrace) (tr_steps demoTrace).
Proof.
  split; [reflexivity|].
  refine (proj2 (proj2 (proj2 (proj2 (@chain_binds printHashing demoTrace demoTrace demoChain demoChain
    _ _ demo_verifies demo_verifies eq_refl demo_collision_free _ _))))); simpl; lia.
Defined.
