(* ===== verification/ReceiptQueue.v ===== *)
(** The authenticated queue of timestamp-receipt retries
    ([src/proof/receipt-queue.ts]).

    Ports act on an abstract world: the key provider, the HMAC of the Web Crypto
    API, and the timestamp authority.  One [process] call runs at a time.  An
    entry is mutated in place, so what an exception leaves behind is part of
    the result.  What one pass does, entry by entry, and concrete queues. *)

From S2P Require Import Prelude JsNum JsValue Canonical ChainBinding.
From Stdlib Require Import SpecFloat.

Record ReceiptQueueEntry := mkEntry {
  rq_runId : string;
  rq_rootHash : string;
  rq_queuedAt : num;
  rq_attempts : Z;
  rq_hmac : string
}.

Definition DEFAULT_BACKOFF_MS : list num :=
  map num_of_Z [30000; 5 * 60000; 60 * 60000; 6 * 60 * 60000; 24 * 60 * 60000].

Inductive EntryResult := Rejected | Skipped | Processed | Failed.

#[export] Instance EntryResult_eq_dec : EqDecision EntryResult.
Proof. solve_decision. Defined.

(** The counters and indices one [process] call keeps. *)
Record Tally := mkTally {
  t_processed : Z; t_failed : Z; t_rejected : Z; t_count : Z; t_toRemove : list nat
}.

Definition tally0 : Tally := mkTally 0 0 0 0 [].

Definition record (i : nat) (r : EntryResult) (t : Tally) : Tally :=
  let 'mkTally p f j c rm := t in
  match r with
  | Rejected => mkTally p f (j + 1) (c + 1) (rm ++ [i])
  | Skipped => t
  | Processed => mkTally (p + 1) f j (c + 1) (rm ++ [i])
  | Failed => mkTally p (f + 1) j (c + 1) rm
  end.

(** [entries.splice(idx, 1)]. *)
Definition splice_at {A} (l : list A) (i : nat) : list A := take i l ++ drop (S i) l.

(** [for (idx of toRemove.slice().sort((a, b) => b - a)) entries.splice(idx, 1)]. *)
Definition removeIndices {A} (l : list A) (toRemove : list nat) : list A :=
  fold_left splice_at (sort_by (fun a b => Nat.compare b a) toRemove) l.

Definition entry_payload (e : ReceiptQueueEntry) : jsval :=
  JObj [("attempts", JNum (num_of_Z (rq_attempts e))); ("queuedAt", JNum (rq_queuedAt e));
        ("rootHash", JStr (rq_rootHash e)); ("runId", JStr (rq_runId e))].

Definition with_hmac (h : string) (e : ReceiptQueueEntry) : ReceiptQueueEntry :=
  mkEntry (rq_runId e) (rq_rootHash e) (rq_queuedAt e) (rq_attempts e) h.

(** [entry.attempts += 1]. *)
Definition bump (e : ReceiptQueueEntry) : ReceiptQueueEntry :=
  mkEntry (rq_runId e) (rq_rootHash e) (rq_queuedAt e) (rq_attempts e + 1) (rq_hmac e).

(** The backoff check: [now < entry.queuedAt + backoffMs[backoffIdx]], where an
    index out of range reads [undefined] and the comparison is false. *)
Definition not_due (backoffMs : list num) (now : num) (e : ReceiptQueueEntry) : bool :=
  if 0 <? rq_attempts e then
    let idx := Z.min (rq_attempts e - 1) (Z.of_nat (length backoffMs) - 1) in
    if idx <? 0 then false
    else match backoffMs !! Z.to_nat idx with
         | Some b => num_ltb now (num_add (rq_queuedAt e) b)
         | None => false
         end
  else false.

Section Queue.
Context `{Hashing} {W Key : Type}.
Context (getKey : W -> string -> W * result Key) (hmacSha256 : Key -> string -> string)
  (request : W -> string -> W * bool).

Definition hmacOf (k : Key) (e : ReceiptQueueEntry) : result string :=
  c ← canonical (entry_payload e); Ok (hmacSha256 k c).

Definition computeEntryHmac (w : W) (keyId : string) (e : ReceiptQueueEntry) : W * result string :=
  let '(w', k) := getKey w keyId in (w', k ≫= fun k => hmacOf k e).

Definition enqueue (w : W) (q : list ReceiptQueueEntry) (runId root : string) (queuedAt : num)
    (keyId : string) : W * result (list ReceiptQueueEntry) :=
  let e := mkEntry runId root queuedAt 0 "" in
  let '(w', h) := computeEntryHmac w keyId e in
  (w', h ≫= fun h => Ok (q ++ [with_hmac h e])).

(** One iteration of the loop, on the entry it reads: what becomes of it, and
    the entry as left in the queue. *)
Definition processEntry (w : W) (keyId : string) (backoffMs : list num) (now : num)
    (e : ReceiptQueueEntry) : W * ReceiptQueueEntry * result EntryResult :=
  let '(w1, expected) := computeEntryHmac w keyId e in
  match expected with
  | Throw err => (w1, e, Throw err)
  | Ok expected =>
      if negb (rq_hmac e =? expected)%string then (w1, e, Ok Rejected)
      else if not_due backoffMs now e then (w1, e, Ok Skipped)
      else
        let '(w2, stamped) := request w1 (rq_rootHash e) in
        if (stamped : bool) then (w2, e, Ok Processed)
        else
          let e' := bump e in
          let '(w3, newHmac) := computeEntryHmac w2 keyId e' in
          match newHmac with
          | Throw err => (w3, e', Throw err)
          | Ok h => (w3, with_hmac h e', Ok Failed)
          end
  end.

(** The loop from index [i] over the entries left; entries it does not reach
    stay as they are. *)
Fixpoint processLoop (w : W) (keyId : string) (backoffMs : list num) (now : num) (batchSize : Z)
    (i : nat) (t : Tally) (es : list ReceiptQueueEntry)
    : W * list ReceiptQueueEntry * result Tally :=
  match es with
  | [] => (w, [], Ok t)
  | e :: rest =>
      if t_count t <? batchSize then
        let '(w1, e', r) := processEntry w keyId backoffMs now e in
        match r with
        | Throw err => (w1, e' :: rest, Throw err)
        | Ok r =>
            let '(w2, rest', t') :=
              processLoop w1 keyId backoffMs now batchSize (S i) (record i r t) rest in
            (w2, e' :: rest', t')
        end
      else (w, es, Ok t)
  end.

(** [process]: an exception leaves the loop before anything is removed. *)
Definition process (w : W) (q : list ReceiptQueueEntry) (keyId : string)
    (batch : option Z) (backoff : option (list num)) (now : num)
    : W * list ReceiptQueueEntry * result (Z * Z * Z) :=
  let '(w', q', r) := processLoop w keyId (default DEFAULT_BACKOFF_MS backoff) now
                        (default (Z.of_nat (length q)) batch) 0 tally0 q in
  match r with
  | Throw err => (w', q', Throw err)
  | Ok t => (w', removeIndices q' (t_toRemove t), Ok (t_processed t, t_failed t, t_rejected t))
  end.
End Queue.

(** * Correctness *)

(** * Removing by descending index *)

Fixpoint keep {A} (flags : list bool) (l : list A) : list A :=
  match flags, l with
  | b :: fl, x :: l' => if b then keep fl l' else x :: keep fl l'
  | _, _ => l
  end.

(** The positions of the flags set, counted from [i]. *)
Fixpoint flagged (i : nat) (flags : list bool) : list nat :=
  match flags with
  | [] => []
  | b :: fl => (if b then [i] else []) ++ flagged (S i) fl
  end.

Lemma splice_at_middle {A} (pre : list A) x l : splice_at (pre ++ x :: l) (length pre) = pre ++ l.
Proof.
  unfold splice_at. rewrite take_app_length. f_equal.
  rewrite (cons_middle x pre l), app_assoc, drop_app_length'; [done|]. rewrite length_app. simpl. lia.
Qed.

Lemma splice_flagged {A} (flags : list bool) (pre l : list A) :
  (length flags <= length l)%nat ->
  fold_left splice_at (rev (flagged (length pre) flags)) (pre ++ l) = pre ++ keep flags l.
Proof.
  revert pre l. induction flags as [|b fl IH]; intros pre [|x l] Hl; simpl in *; try done; [lia|].
  specialize (IH (pre ++ [x]) l ltac:(lia)).
  rewrite length_app, Nat.add_1_r, <- !app_assoc in IH. simpl in IH.
  destruct b; simpl; rewrite ?fold_left_app, IH; [apply splice_at_middle|done].
Qed.

Lemma flagged_ge i flags j : j ∈ flagged i flags -> (i <= j)%nat.
Proof.
  revert i. induction flags as [|b fl IH]; intros i; simpl; [by intros ?%elem_of_nil|].
  intros [Hj|Hj]%elem_of_app; [|apply IH in Hj; lia].
  destruct b; [by apply list_elem_of_singleton in Hj as ->|by apply elem_of_nil in Hj].
Qed.

Lemma insert_desc_last i l : (forall j, j ∈ l -> (i < j)%nat) ->
  insert_by (fun a b => Nat.compare b a) i l = l ++ [i].
Proof.
  induction l as [|j l IH]; intros Hl; [done|]. cbn [insert_by].
  assert (Hj : (i < j)%nat) by (apply Hl; left).
  rewrite (proj2 (Nat.compare_gt_iff j i) Hj), IH by (intros k Hk; apply Hl; by right). done.
Qed.

Lemma sort_flagged i flags :
  sort_by (fun a b => Nat.compare b a) (flagged i flags) = rev (flagged i flags).
Proof.
  revert i. induction flags as [|b fl IH]; intros i; [done|]. simpl.
  destruct b; simpl; rewrite IH; [|done].
  apply insert_desc_last. intros j Hj. rewrite list_elem_of_In, <- in_rev, <- list_elem_of_In in Hj.
  apply flagged_ge in Hj. lia.
Qed.

Lemma removeIndices_flagged {A} (flags : list bool) (l : list A) :
  (length flags <= length l)%nat -> removeIndices l (flagged 0 flags) = keep flags l.
Proof.
  intros Hl. unfold removeIndices. rewrite sort_flagged. by apply (splice_flagged flags [] l).
Qed.

Section QueueProps.
Context `{Hashing} {W Key : Type}.
Context (getKey : W -> string -> W * result Key) (hmacSha256 : Key -> string -> string)
  (request : W -> string -> W * bool) (keyId : string).

Local Abbreviation hmacOf := (hmacOf hmacSha256).
Local Abbreviation process := (process getKey hmacSha256 request).
Local Abbreviation processLoop := (processLoop getKey hmacSha256 request).
Local Abbreviation processEntry := (processEntry getKey hmacSha256 request).

(** The entry carries the MAC of its own fields under [k]. *)
Definition authentic (k : Key) (e : ReceiptQueueEntry) : Prop := hmacOf k e = Ok (rq_hmac e).

(** Fields that serialize, attempts counted exactly. *)
Definition stampable (e : ReceiptQueueEntry) : Prop :=
  json_safe (JNum (rq_queuedAt e)) = true /\ 0 <= rq_attempts e < 2 ^ prec - 1.

(** A failed entry, its attempt counted and its MAC renewed. *)
Definition restamp (k : Key) (e : ReceiptQueueEntry) : ReceiptQueueEntry :=
  with_hmac (match hmacOf k (bump e) with Ok h => h | Throw _ => "" end) (bump e).

Definition removed (r : EntryResult) : bool :=
  match r with Rejected | Processed => true | _ => false end.

Definition asked (r : EntryResult) : bool :=
  match r with Processed | Failed => true | _ => false end.

(** The entry a verdict leaves behind. *)
Definition after (k : Key) (r : EntryResult) (e : ReceiptQueueEntry) : ReceiptQueueEntry :=
  match r with Failed => restamp k e | _ => e end.

(** Tampered entries are rejected, authentic ones skipped exactly when not due. *)
Definition verdict_ok (k : Key) (backoffMs : list num) (now : num) (r : EntryResult)
    (e : ReceiptQueueEntry) : Prop :=
  match r with
  | Rejected => ~ authentic k e
  | Skipped => authentic k e /\ not_due backoffMs now e = true
  | _ => authentic k e /\ not_due backoffMs now e = false
  end.

(** The queue after a pass that gave these verdicts to its first entries. *)
Fixpoint settle (k : Key) (rs : list EntryResult) (q : list ReceiptQueueEntry)
    : list ReceiptQueueEntry :=
  match rs, q with
  | r :: rs', e :: q' => (if removed r then [] else [after k r e]) ++ settle k rs' q'
  | _, _ => q
  end.

Definition tally_of (p : EntryResult -> bool) (rs : list EntryResult) : Z := count_if p rs.
Definition is_result (r r' : EntryResult) : bool := bool_decide (r = r').

(** The root hashes submitted to the timestamp authority. *)
Fixpoint submitted (rs : list EntryResult) (q : list ReceiptQueueEntry) : list string :=
  match rs, q with
  | r :: rs', e :: q' => (if asked r then [rq_rootHash e] else []) ++ submitted rs' q'
  | _, _ => []
  end.

(** A provider that keeps giving key [k], and a ghost log of the submissions. *)
Context (k : Key) (calls : W -> list string).
Context (Hkey : forall w, (getKey w keyId).2 = Ok k)
  (Hcalls : forall w, calls (getKey w keyId).1 = calls w)
  (Hlog : forall w r, calls (request w r).1 = calls w ++ [r]).

Lemma hmac_total e : json_safe (JNum (rq_queuedAt e)) = true -> 0 <= rq_attempts e < 2 ^ prec ->
  exists h, hmacOf k e = Ok h.
Proof.
  intros Hq Ha. unfold ReceiptQueue.hmacOf, canonical, canonicalize, entry_payload.
  rewrite preprocess_safe; [unfold mbind, result_bind; eauto|].
  change (json_safe (JNum (num_of_Z (rq_attempts e))) &&
          (json_safe (JNum (rq_queuedAt e)) && true) = true).
  rewrite Hq, andb_true_r. by apply num_of_Z_safe.
Qed.

Lemma computeEntryHmac_steady w e :
  (computeEntryHmac getKey hmacSha256 w keyId e).2 = hmacOf k e /\
  calls (computeEntryHmac getKey hmacSha256 w keyId e).1 = calls w.
Proof.
  unfold computeEntryHmac. specialize (Hkey w). specialize (Hcalls w).
  destruct (getKey w keyId) as [w' r]; simpl in *. by rewrite Hkey.
Qed.

Lemma processEntry_spec w backoffMs now e : stampable e ->
  exists w' r, processEntry w keyId backoffMs now e = (w', after k r e, Ok r) /\
    verdict_ok k backoffMs now r e /\
    calls w' = calls w ++ (if asked r then [rq_rootHash e] else []).
Proof.
  intros [Hq Ha]. unfold ReceiptQueue.processEntry.
  destruct (computeEntryHmac_steady w e) as [E1 C1].
  destruct (computeEntryHmac _ _ w keyId e) as [w1 h1]; simpl in E1, C1. subst h1.
  destruct (hmac_total e Hq) as [h Hh]; [lia|]. rewrite Hh.
  destruct (String.eqb_spec (rq_hmac e) h) as [<-|Hne]; cbn [negb].
  2:{ exists w1, Rejected. split; [done|]. split; [|by rewrite C1, app_nil_r].
      unfold verdict_ok, authentic. congruence. }
  destruct (not_due backoffMs now e) eqn:Hdue.
  { exists w1, Skipped. split; [done|]. split; [done|by rewrite C1, app_nil_r]. }
  pose proof (Hlog w1 (rq_rootHash e)) as C2.
  destruct (request w1 (rq_rootHash e)) as [w2 [|]]; simpl in C2.
  { exists w2, Processed. split; [done|]. split; [done|by rewrite C2, C1]. }
  destruct (computeEntryHmac_steady w2 (bump e)) as [E3 C3].
  destruct (computeEntryHmac _ _ w2 keyId (bump e)) as [w3 h3]; simpl in E3, C3. subst h3.
  destruct (hmac_total (bump e)) as [h' Hh']; [done|simpl; lia|]. rewrite Hh'.
  exists w3, Failed. unfold after, restamp. rewrite Hh'. split; [done|].
  split; [done|by rewrite C3, C2, C1].
Qed.

(** The queue in the middle of the pass: entries mutated, none removed yet. *)
Fixpoint touched (rs : list EntryResult) (q : list ReceiptQueueEntry) : list ReceiptQueueEntry :=
  match rs, q with
  | r :: rs', e :: q' => after k r e :: touched rs' q'
  | _, _ => q
  end.

Lemma settle_keep rs q : settle k rs q = keep (map removed rs) (touched rs q).
Proof.
  revert q. induction rs as [|r rs IH]; intros [|e q]; simpl; try done.
  rewrite IH. by destruct (removed r).
Qed.

Lemma touched_length rs q : length (touched rs q) = length q.
Proof. revert q. induction rs as [|r rs IH]; intros [|e q]; simpl; try done. by rewrite IH. Qed.

Definition counted (r : EntryResult) : bool := negb (is_result Skipped r).

(** [t'] is [t] after the verdicts [rs] on the entries from index [i]. *)
Record tallied (i : nat) (rs : list EntryResult) (t t' : Tally) : Prop := {
  td_processed : t_processed t' = t_processed t + tally_of (is_result Processed) rs;
  td_failed : t_failed t' = t_failed t + tally_of (is_result Failed) rs;
  td_rejected : t_rejected t' = t_rejected t + tally_of (is_result Rejected) rs;
  td_count : t_count t' = t_count t + tally_of counted rs;
  td_toRemove : t_toRemove t' = t_toRemove t ++ flagged i (map removed rs)
}.

Lemma tally_cons p r rs : tally_of p (r :: rs) = (if p r then 1 else 0) + tally_of p rs.
Proof. unfold tally_of, count_if. simpl. destruct (p r); simpl; lia. Qed.

Lemma tallied_nil i t : tallied i [] t t.
Proof. split; unfold tally_of, count_if; simpl; rewrite ?app_nil_r; lia || done. Qed.

Lemma tallied_cons i r rs t t' :
  tallied (S i) rs (record i r t) t' -> tallied i (r :: rs) t t'.
Proof.
  destruct t as [p f j c rm]. intros [E1 E2 E3 E4 E5].
  split; rewrite ?tally_cons, ?E1, ?E2, ?E3, ?E4, ?E5;
    destruct r; simpl; rewrite <- ?app_assoc; lia || done.
Qed.

Lemma processLoop_spec backoffMs now batch es : forall w i t, Forall stampable es ->
  exists w' rs t', processLoop w keyId backoffMs now batch i t es = (w', touched rs es, Ok t') /\
    (length rs <= length es)%nat /\
    Forall2 (verdict_ok k backoffMs now) rs (take (length rs) es) /\
    tallied i rs t t' /\ calls w' = calls w ++ submitted rs es /\
    t_count t' <= Z.max batch (t_count t) /\
    (length rs = length es \/ batch <= t_count t').
Proof.
  induction es as [|e es IH]; intros w i t Hall.
  { exists w, [], t. cbn. rewrite app_nil_r. split_and!; try done; [apply tallied_nil|lia|by left]. }
  apply Forall_cons in Hall as [He Hes]. cbn [ReceiptQueue.processLoop].
  destruct (Z.ltb_spec (t_count t) batch) as [Hlt|Hge].
  2:{ exists w, [], t. cbn. rewrite app_nil_r.
      split_and!; try done; [lia|apply tallied_nil|lia|by right]. }
  destruct (processEntry_spec w backoffMs now e He) as (w1 & r & -> & Hv & C1).
  destruct (IH w1 (S i) (record i r t) Hes) as (w2 & rs & t' & -> & Hn & Hf & Ht & C2 & Hc & Hb).
  exists w2, (r :: rs), t'. simpl. split_and!; [done|lia|by constructor|by apply tallied_cons| |..].
  - by rewrite C2, C1, <- app_assoc.
  - assert (t_count (record i r t) <= t_count t + 1) by (destruct t, r; simpl; lia). lia.
  - destruct Hb; [left; lia|by right].
Qed.

Lemma counts_add rs : tally_of counted rs = tally_of (is_result Processed) rs +
  tally_of (is_result Failed) rs + tally_of (is_result Rejected) rs.
Proof. induction rs as [|r rs IH]; [done|]. rewrite !tally_cons, IH. destruct r; simpl; lia. Qed.

(** One pass over a queue of stampable entries returns: there are verdicts for
    the entries reached, each the right one, the queue is settled by them. *)
Lemma process_run w q batch backoff now : Forall stampable q ->
  exists w' rs,
    process w q keyId batch backoff now =
      (w', settle k rs q, Ok (tally_of (is_result Processed) rs,
                              tally_of (is_result Failed) rs, tally_of (is_result Rejected) rs)) /\
    (length rs <= length q)%nat /\
    Forall2 (verdict_ok k (default DEFAULT_BACKOFF_MS backoff) now) rs (take (length rs) q) /\
    calls w' = calls w ++ submitted rs q /\
    tally_of counted rs <= Z.max (default (Z.of_nat (length q)) batch) 0 /\
    (length rs = length q \/ default (Z.of_nat (length q)) batch <= tally_of counted rs).
Proof.
  intros Hq. unfold ReceiptQueue.process.
  destruct (processLoop_spec (default DEFAULT_BACKOFF_MS backoff) now
    (default (Z.of_nat (length q)) batch) q w 0 tally0 Hq)
    as (w' & rs & t' & -> & Hn & Hf & [E1 E2 E3 E4 E5] & C & Hc & Hb).
  exists w', rs. rewrite E1, E2, E3, E5, E4 in *. simpl in *.
  rewrite removeIndices_flagged by (rewrite length_map, touched_length; lia).
  by rewrite settle_keep.
Qed.

Lemma settle_length rs q : (length rs <= length q)%nat ->
  Z.of_nat (length (settle k rs q)) + tally_of removed rs = Z.of_nat (length q).
Proof.
  revert q. induction rs as [|r rs IH]; intros [|e q] Hl; try (simpl in Hl; lia);
    [done|unfold tally_of, count_if; cbn; lia|]. rewrite tally_cons. cbn [settle]. rewrite length_app.
  specialize (IH q ltac:(simpl in Hl; lia)). destruct (removed r); cbn [length]; lia.
Qed.

Lemma removed_counts rs :
  tally_of removed rs = tally_of (is_result Processed) rs + tally_of (is_result Rejected) rs.
Proof. induction rs as [|r rs IH]; [done|]. rewrite !tally_cons, IH. destruct r; simpl; lia. Qed.

Lemma restamp_authentic e : stampable e -> authentic k (restamp k e).
Proof.
  intros [Hq Ha]. unfold authentic, restamp.
  destruct (hmac_total (bump e)) as [h Hh]; [done|simpl; lia|]. by rewrite Hh.
Qed.

Lemma settle_authentic backoffMs now rs q : (length rs <= length q)%nat ->
  Forall stampable q -> Forall (authentic k) q ->
  Forall2 (verdict_ok k backoffMs now) rs (take (length rs) q) ->
  Forall (authentic k) (settle k rs q) /\ tally_of (is_result Rejected) rs = 0.
Proof.
  revert q. induction rs as [|r rs IH]; intros [|e q] Hl Hs Ha Hv; try (simpl in Hl; lia);
    try (split; [done|reflexivity]).
  apply Forall_cons in Hs as [Hse Hs]. apply Forall_cons in Ha as [Hae Ha].
  apply Forall2_cons in Hv as [Hve Hv].
  destruct (IH q ltac:(simpl in Hl; lia) Hs Ha Hv) as [IH1 IH2].
  rewrite tally_cons, IH2. destruct r; cbn; split; try done;
    constructor; try done. by apply restamp_authentic.
Qed.

(** With a steady key, one pass over the queue always returns. It reaches
    the entries in order until the batch is used up; an entry is rejected
    exactly when its MAC is wrong, skipped exactly when authentic but in its
    backoff window, and only otherwise is its root hash submitted. Processed
    and rejected entries leave the queue, failed ones stay with their attempt
    counted, all others are untouched, and the three counters say how many. *)
Theorem process_settles (w : W) (q : list ReceiptQueueEntry) (batch : option Z)
    (backoff : option (list num)) (now : num) (Hq : Forall stampable q) :
  exists w' rs p f j,
    process w q keyId batch backoff now = (w', settle k rs q, Ok (p, f, j)) /\
    Forall2 (verdict_ok k (default DEFAULT_BACKOFF_MS backoff) now) rs (take (length rs) q) /\
    calls w' = calls w ++ submitted rs q /\
    p = tally_of (is_result Processed) rs /\ f = tally_of (is_result Failed) rs /\
    j = tally_of (is_result Rejected) rs /\
    Z.of_nat (length (settle k rs q)) + p + j = Z.of_nat (length q) /\
    p + f + j <= Z.max (default (Z.of_nat (length q)) batch) 0 /\
    (length rs = length q \/ default (Z.of_nat (length q)) batch <= p + f + j).
Proof.
  destruct (process_run w q batch backoff now Hq) as (w' & rs & E & Hn & Hv & Hc & Hm & Hb).
  exists w', rs. do 3 eexists. split; [exact E|]. pose proof (settle_length rs q Hn) as Hs.
  rewrite removed_counts in Hs. rewrite counts_add in Hm, Hb.
  split_and!; done || lia.
Qed.

(** Entries stay authentic: what [enqueue] appends carries its own MAC, and
    a pass over authentic entries rejects none and leaves only authentic ones,
    the failed ones under their renewed MAC. *)
Theorem queue_stays_authentic (w : W) (q : list ReceiptQueueEntry) (batch : option Z)
    (backoff : option (list num)) (now : num) (Hq : Forall stampable q)
    (Ha : Forall (authentic k) q) :
  (forall runId root at_ q',
     (enqueue getKey hmacSha256 w q runId root at_ keyId).2 = Ok q' -> Forall (authentic k) q') /\
  exists w' q' p f, process w q keyId batch backoff now = (w', q', Ok (p, f, 0)) /\
    Forall (authentic k) q'.
Proof.
  split.
  - intros runId root at_ q'. unfold enqueue.
    destruct (computeEntryHmac_steady w (mkEntry runId root at_ 0 "")) as [E _].
    destruct (computeEntryHmac _ _ _ _ _) as [w' h]; simpl in E. subst h. simpl.
    destruct (hmacOf k _) as [h|err] eqn:Eh; unfold mbind, result_bind; intros [= <-].
    apply Forall_app. split; [done|]. by apply Forall_singleton.
  - destruct (process_run w q batch backoff now Hq) as (w' & rs & E & Hn & Hv & _).
    destruct (settle_authentic _ _ rs q Hn Hq Ha Hv) as [Hs Hj]. rewrite Hj in E.
    do 4 eexists. by split; [exact E|].
Qed.
End QueueProps.

(** * Concrete runs *)

(** ** A steady provider and an authority that logs and refuses run "b" *)

Definition logKey (w : list string) (_ : string) : list string * result string := (w, Ok "k").
Definition macOf (k s : string) : string := (k ++ "|" ++ s)%string.
Definition logRequest (w : list string) (root : string) : list string * bool :=
  (w ++ [root], negb (root =? "b")%string).

Definition entryOf (root : string) (at_ attempts : Z) (mac : string) : ReceiptQueueEntry :=
  mkEntry "run" root (num_of_Z at_) attempts mac.

Definition orMac (r : result string) : string := match r with Ok s => s | Throw _ => "" end.

Definition stampedEntry (root : string) (at_ attempts : Z) : ReceiptQueueEntry :=
  with_hmac (orMac (@hmacOf printHashing string macOf "k" (entryOf root at_ attempts "")))
    (entryOf root at_ attempts "").

(** Due, refused, in backoff, tampered. *)
Definition demoQueue : list ReceiptQueueEntry :=
  [stampedEntry "a" 0 0; stampedEntry "b" 0 1; stampedEntry "c" 40000 1; entryOf "d" 0 0 "x"].

Definition demoProcess : list string * list ReceiptQueueEntry * result (Z * Z * Z) :=
  @process printHashing (list string) string logKey macOf logRequest [] demoQueue "id" None None
    (num_of_Z 50000).

Example demoProcess_ex :
  demoProcess.2 = Ok (1, 1, 1) /\ demoProcess.1.1 = ["a"; "b"] /\
  map rq_rootHash demoProcess.1.2 = ["b"; "c"] /\ map rq_attempts demoProcess.1.2 = [2; 1].
Proof. vm_compute. split_and!; reflexivity. Qed.

Lemma demoQueue_stampable : Forall stampable demoQueue.
Proof. repeat constructor; vm_compute; congruence. Qed.

Lemma process_settles_witness :
  length demoQueue = 4%nat /\
  exists w' rs p f j, demoProcess =
    (w', settle (H := printHashing) macOf "k" rs demoQueue, Ok (p, f, j)).
Proof.
  split; [reflexivity|].
  destruct (@process_settles printHashing (list string) string logKey macOf logRequest "id" "k"
    (fun w => w) (fun _ => eq_refl) (fun _ => eq_refl) (fun _ _ => eq_refl) [] demoQueue None None
    (num_of_Z 50000) demoQueue_stampable) as (w' & rs & p & f & j & E & _).
  exists w', rs, p, f, j. exact E.
Defined.

Lemma queue_stays_authentic_witness :
  length (take 3 demoQueue) = 3%nat /\
  exists w' q' p f, @process printHashing (list string) string logKey macOf logRequest []
    (take 3 demoQueue) "id" None None (num_of_Z 50000) = (w', q', Ok (p, f, 0)).
Proof.
  split; [reflexivity|].
  destruct (proj2 (@queue_stays_authentic printHashing (list string) string logKey macOf logRequest
    "id" "k" (fun w => w) (fun _ => eq_refl) (fun _ => eq_refl) (fun _ _ => eq_refl) []
    (take 3 demoQueue) None None (num_of_Z 50000)
    (Forall_take _ 3 _ demoQueue_stampable) ltac:(repeat constructor; vm_compute; reflexivity)))
    as (w' & q' & p & f & E & _).
  exists w', q', p, f. exact E.
Defined.

(** ** A key provider that fails once

    The third call to [getKey] fails; the timestamp authority is unreachable. *)

Definition flakyKey (w : Z) (_ : string) : Z * result string :=
  (w + 1, if w =? 2 then Throw (JsError "Error" "key unavailable") else Ok "k").
Definition refuse (w : Z) (_ : string) : Z * bool := (w, false).

(** An entry that nobody touched is thrown away as tampered when the key
    provider fails once, while a refused submission is being recorded: the
    attempt is already counted in the entry, its MAC is still the old one, and
    the next pass rejects and removes it. *)
Theorem failed_refresh_rejects :
  exists w1 q1 w2 q2 err w3,
    @enqueue printHashing Z string flakyKey macOf 0 [] "run" "root" (num_of_Z 0) "id" = (w1, Ok q1) /\
    Forall (authentic (H := printHashing) macOf "k") q1 /\
    @process printHashing Z string flakyKey macOf refuse w1 q1 "id" None None (num_of_Z 1000) =
      (w2, q2, Throw err) /\
    @process printHashing Z string flakyKey macOf refuse w2 q2 "id" None None (num_of_Z 99999) =
      (w3, [], Ok (0, 0, 1)).
Proof.
  exists 1, [stampedEntry "root" 0 0], 3, [bump (stampedEntry "root" 0 0)].
  exists (JsError "Error" "key unavailable"), 4.
  split; [vm_compute; reflexivity|]. split; [repeat constructor; vm_compute; reflexivity|].
  split; vm_compute; reflexivity.
Qed.
