(* ===== verification/Bulkhead.v ===== *)
(** The bulkhead ([src/resilience/bulkhead.ts]): a cap on concurrent calls with
    a bounded waiting queue.

    Calls are named; an event is a call coming in or a running call settling,
    in any interleaving.  A queued call starts when a release hands it the
    freed slot. *)

From S2P Require Import Prelude.

Definition BulkheadFullError (name : string) (depth : Z) : jserror :=
  JsError "BulkheadFullError"
    ("Bulkhead " ++ quoted name ++ " full — queue depth " ++ str_of_Z depth ++ " reached.")%string.

Record BulkheadOptions := {
  bo_name : string;
  bo_maxConcurrent : option Z;
  bo_maxQueued : option Z
}.

Definition maxConcurrent (o : BulkheadOptions) : Z := default 5 (bo_maxConcurrent o).
Definition maxQueued (o : BulkheadOptions) : Z := default 50 (bo_maxQueued o).

(** The closure's variables: [active], and the waiting calls of [queue]. *)
Record bulkhead := mkBulkhead { active : Z; queue : list nat }.

Definition bulkhead_init : bulkhead := mkBulkhead 0 [].

Inductive Acquired := Started | Queued | Refused (e : jserror).

Definition acquire (o : BulkheadOptions) (c : nat) (b : bulkhead) : bulkhead * Acquired :=
  if active b <? maxConcurrent o then (mkBulkhead (active b + 1) (queue b), Started)
  else if maxQueued o <=? Z.of_nat (length (queue b))
  then (b, Refused (BulkheadFullError (bo_name o) (Z.of_nat (length (queue b)))))
  else (mkBulkhead (active b) (queue b ++ [c]), Queued).

(** [release]: the call it wakes, if any. *)
Definition release (b : bulkhead) : bulkhead * option nat :=
  match queue b with
  | [] => (mkBulkhead (active b - 1) [], None)
  | next :: rest => (mkBulkhead (active b - 1 + 1) rest, Some next)
  end.

(** ** Runs of the wrapper

    [r_running] are the calls whose [fn] is under way, [r_started] all that were
    given a slot, in order, [r_accepted] all that were not refused, in order of
    arrival. *)
Record run_state := mkRun {
  r_bulk : bulkhead;
  r_running : list nat;
  r_started : list nat;
  r_accepted : list nat
}.

Definition run_init : run_state := mkRun bulkhead_init [] [] [].

Definition remove_call (c : nat) (l : list nat) : list nat := List.filter (fun x => negb (x =? c)%nat) l.

(** [run(...args)] up to its first suspension. *)
Definition on_call (o : BulkheadOptions) (c : nat) (s : run_state) : run_state :=
  let '(b, a) := acquire o c (r_bulk s) in
  match a with
  | Started => mkRun b (r_running s ++ [c]) (r_started s ++ [c]) (r_accepted s ++ [c])
  | Queued => mkRun b (r_running s) (r_started s) (r_accepted s ++ [c])
  | Refused _ => mkRun b (r_running s) (r_started s) (r_accepted s)
  end.

(** The [finally] of a running call. *)
Definition on_settle (c : nat) (s : run_state) : run_state :=
  let '(b, next) := release (r_bulk s) in
  let left := remove_call c (r_running s) in
  match next with
  | Some n => mkRun b (left ++ [n]) (r_started s ++ [n]) (r_accepted s)
  | None => mkRun b left (r_started s) (r_accepted s)
  end.

Inductive bstep (o : BulkheadOptions) : run_state -> run_state -> Prop :=
| bstep_call c s : c ∉ r_accepted s -> bstep o s (on_call o c s)
| bstep_settle c s : c ∈ r_running s -> bstep o s (on_settle c s).

Record bulk_inv (o : BulkheadOptions) (s : run_state) : Prop := {
  bi_active : active (r_bulk s) = Z.of_nat (length (r_running s));
  bi_cap : active (r_bulk s) <= maxConcurrent o;
  bi_full : queue (r_bulk s) <> [] -> active (r_bulk s) = maxConcurrent o;
  bi_queue : Z.of_nat (length (queue (r_bulk s))) <= maxQueued o;
  bi_fifo : r_accepted s = r_started s ++ queue (r_bulk s);
  bi_nodup : NoDup (r_accepted s);
  bi_running : r_running s ⊆ r_started s;
  bi_running_nodup : NoDup (r_running s)
}.

Lemma remove_call_elem c x l : x ∈ remove_call c l <-> x ∈ l /\ x <> c.
Proof.
  unfold remove_call. rewrite !list_elem_of_In, filter_In, negb_true_iff, Nat.eqb_neq. done.
Qed.

Lemma remove_call_id c l : c ∉ l -> remove_call c l = l.
Proof.
  unfold remove_call. induction l as [|x l IH]; [done|]. simpl. intros Hc.
  destruct (Nat.eqb_spec x c) as [->|]; [destruct Hc; left|]. simpl.
  rewrite IH; [done|]. intros Hin. apply Hc. by right.
Qed.

Lemma remove_call_length c l : NoDup l -> c ∈ l ->
  S (length (remove_call c l)) = length l.
Proof.
  induction 1 as [|x l Hx Hnd IH]; [by intros ?%elem_of_nil|]. unfold remove_call in *; simpl.
  destruct (Nat.eqb_spec x c) as [->|Hne]; simpl.
  - intros _. f_equal. f_equal. by apply remove_call_id.
  - intros [->|Hin]%elem_of_cons; [done|]. by rewrite IH.
Qed.

Lemma remove_call_NoDup c l : NoDup l -> NoDup (remove_call c l).
Proof.
  induction 1 as [|x l Hx Hnd IH]; [constructor|]. unfold remove_call in *; simpl.
  destruct (x =? c)%nat; simpl; [done|]. constructor; [|done].
  by intros [Hin _]%(remove_call_elem c x l).
Qed.

Lemma on_call_inv o c s : bulk_inv o s -> c ∉ r_accepted s -> bulk_inv o (on_call o c s).
Proof.
  destruct s as [[a q] run st acc]. intros [Ha Hcap Hfull Hq Hf Hnd Hr Hrn] Hc.
  unfold on_call, acquire. simpl in *. subst acc.
  destruct (Z.ltb_spec a (maxConcurrent o)) as [Hlt|Hge]; simpl.
  - assert (q = []) as -> by (destruct q; [done|]; specialize (Hfull ltac:(done)); lia).
    rewrite app_nil_r in *. split; simpl; rewrite ?length_app, ?app_nil_r; simpl; try done; [lia..| | |].
    + apply NoDup_app. split_and!; [done|set_solver|apply NoDup_singleton].
    + set_solver.
    + apply NoDup_app. split_and!; [done|set_solver|apply NoDup_singleton].
  - destruct (Z.leb_spec (maxQueued o) (Z.of_nat (length q))); simpl; [by split|].
    split; simpl; try done; [lia| |by rewrite app_assoc|].
    + rewrite length_app. simpl. lia.
    + apply NoDup_app. split_and!; [done|set_solver|apply NoDup_singleton].
Qed.

Lemma on_settle_inv o c s : bulk_inv o s -> c ∈ r_running s -> bulk_inv o (on_settle c s).
Proof.
  destruct s as [[a q] run st acc]. intros [Ha Hcap Hfull Hq Hf Hnd Hr Hrn] Hc.
  unfold on_settle, release. simpl in *. subst acc.
  pose proof (remove_call_length c run Hrn Hc) as Hlen.
  destruct q as [|n q]; simpl.
  - split; simpl; try done; [lia|lia| |by apply remove_call_NoDup].
    intros x [Hx _]%remove_call_elem. by apply Hr.
  - specialize (Hfull ltac:(done)).
    split; simpl; rewrite ?length_app; simpl in *; try done; [lia|lia|lia|lia| |..].
    + by rewrite <- app_assoc.
    + intros x [[Hx _]%remove_call_elem| ->%list_elem_of_singleton]%elem_of_app; set_solver.
    + apply NoDup_app in Hnd as (_ & Hnd & _). apply NoDup_app.
      split_and!; [by apply remove_call_NoDup| |apply NoDup_singleton].
      intros x [Hx _]%remove_call_elem ->%list_elem_of_singleton. apply (Hnd n); [by apply Hr|left].
Qed.

(** In every interleaving of calls and settlements, the calls under way are
    the [active] count and never exceed the cap, calls wait only when the cap
    is reached and never beyond the queue bound, and accepted calls start in
    the order they arrived. *)
Theorem bulkhead_fifo (o : BulkheadOptions) (s : run_state)
    (Hc : 0 <= maxConcurrent o) (Hq : 0 <= maxQueued o) (Hr : rtc (bstep o) run_init s) :
  active (r_bulk s) = Z.of_nat (length (r_running s)) /\ active (r_bulk s) <= maxConcurrent o /\
  (queue (r_bulk s) <> [] -> active (r_bulk s) = maxConcurrent o) /\
  Z.of_nat (length (queue (r_bulk s))) <= maxQueued o /\
  r_accepted s = r_started s ++ queue (r_bulk s).
Proof.
  assert (Hinv : bulk_inv o s); [|by destruct Hinv; split_and!].
  revert Hr. apply (rtc_ind_r (fun s => bulk_inv o s)).
  - split; simpl; try done; constructor.
  - intros s1 s2 _ Hst Hi. destruct Hst; [by apply on_call_inv|by apply on_settle_inv].
Qed.

Definition two_slots : BulkheadOptions :=
  {| bo_name := "b"; bo_maxConcurrent := Some 1; bo_maxQueued := Some 1 |}.

(** Call 2 waits for call 1, call 3 is refused. *)
Lemma bulkhead_fifo_witness :
  exists s, rtc (bstep two_slots) run_init s /\ r_started s = [1; 2]%nat /\
    active (r_bulk s) <= 1.
Proof.
  set (s1 := on_call two_slots 1 run_init). set (s2 := on_call two_slots 2 s1).
  set (s3 := on_call two_slots 3 s2). set (s4 := on_settle 1 s3).
  assert (Hr : rtc (bstep two_slots) run_init s4).
  { apply rtc_l with s1; [constructor; by apply (bool_decide_unpack _)|].
    apply rtc_l with s2; [constructor; by apply (bool_decide_unpack _)|].
    apply rtc_l with s3; [constructor; by apply (bool_decide_unpack _)|].
    apply rtc_l with s4; [|apply rtc_refl]. constructor. by apply (bool_decide_unpack _). }
  exists s4. split; [exact Hr|]. split; [reflexivity|].
  refine (proj1 (proj2 (bulkhead_fifo two_slots s4 _ _ Hr))); vm_compute; congruence.
Defined.
