(* ===== verification/CircuitBreaker.v ===== *)
(** The circuit breaker ([src/resilience/circuit-breaker.ts]): a three-state
    machine around an unreliable call.

    [enter] is what a call does before its operation, [leave] what it does once
    the operation settles; calls may overlap, so the two interleave freely. *)

From S2P Require Import Prelude.

Inductive CircuitState := closed | open | half_open.

#[export] Instance CircuitState_eq_dec : EqDecision CircuitState.
Proof. solve_decision. Defined.

Record CircuitBreakerOptions := {
  cb_name : string;
  cb_failureThreshold : option Z;
  cb_resetAfterMs : option Z
}.

Definition failureThreshold (o : CircuitBreakerOptions) : Z := default 5 (cb_failureThreshold o).
Definition resetAfterMs (o : CircuitBreakerOptions) : Z := default 30000 (cb_resetAfterMs o).

Definition CircuitOpenError (name : string) (retryAfterMs : Z) : jserror :=
  JsError "CircuitOpenError"
    ("Circuit " ++ quoted name ++ " is OPEN — fast-fail. Retry after " ++
     str_of_Z retryAfterMs ++ "ms.")%string.

Record circuit := mkCircuit { state : CircuitState; failureCount : Z; openedAt : Z }.

Definition circuit_init : circuit := mkCircuit closed 0 0.
Definition reset (s : circuit) : circuit := mkCircuit closed 0 0.

(** How the wrapped operation settles: [isFailure] may wave an error through. *)
Inductive Outcome := Success | Failure | Waved.

(** A fast-fail error, or entry into the operation. *)
Definition enter (o : CircuitBreakerOptions) (now : Z) (s : circuit) : circuit * option jserror :=
  if bool_decide (state s = open) then
    let elapsed := now - openedAt s in
    if elapsed <? resetAfterMs o
    then (s, Some (CircuitOpenError (cb_name o) (resetAfterMs o - elapsed)))
    else (mkCircuit half_open (failureCount s) (openedAt s), None)
  else (s, None).

Definition leave (o : CircuitBreakerOptions) (now : Z) (r : Outcome) (s : circuit) : circuit :=
  match r with
  | Success =>
      if bool_decide (state s = half_open) then mkCircuit closed 0 (openedAt s)
      else mkCircuit (state s) 0 (openedAt s)
  | Waved => s
  | Failure =>
      if bool_decide (state s = half_open) then mkCircuit open (failureCount s) now
      else
        let n := failureCount s + 1 in
        if failureThreshold o <=? n then mkCircuit open n now
        else mkCircuit (state s) n (openedAt s)
  end.

(** ** Overlapping calls *)

Record calls := mkCalls { c_circuit : circuit; c_inflight : nat }.

Definition on_enter (o : CircuitBreakerOptions) (now : Z) (s : calls) : calls :=
  let '(c, e) := enter o now (c_circuit s) in
  mkCalls c (match e with Some _ => c_inflight s | None => S (c_inflight s) end).

Definition on_leave (o : CircuitBreakerOptions) (now : Z) (r : Outcome) (s : calls) : calls :=
  mkCalls (leave o now r (c_circuit s)) (pred (c_inflight s)).

Inductive cstep (o : CircuitBreakerOptions) (s : calls) : calls -> Prop :=
| cstep_enter now : cstep o s (on_enter o now s)
| cstep_leave now r : (0 < c_inflight s)%nat -> cstep o s (on_leave o now r s)
| cstep_reset : cstep o s (mkCalls (reset (c_circuit s)) (c_inflight s)).

Definition calls_init : calls := mkCalls circuit_init 0.

(** While closed, the threshold is not reached. *)
Definition below_threshold (o : CircuitBreakerOptions) (s : circuit) : Prop :=
  0 <= failureCount s /\ (state s = closed -> failureCount s < failureThreshold o).

Lemma enter_below o now s : below_threshold o s -> below_threshold o (enter o now s).1.
Proof.
  intros [H1 H2]. unfold enter. case_bool_decide; [|done].
  destruct (_ <? _); [done|]. by split.
Qed.

Lemma leave_below o now r s : 1 <= failureThreshold o ->
  below_threshold o s -> below_threshold o (leave o now r s).
Proof.
  intros Ht [H1 H2]. unfold leave. destruct r; [..|done].
  - case_bool_decide; split; simpl; lia.
  - case_bool_decide; [by split|].
    destruct (Z.leb_spec (failureThreshold o) (failureCount s + 1)); split; simpl; lia || done.
Qed.

Lemma reachable_below o s : 1 <= failureThreshold o ->
  rtc (cstep o) calls_init s -> below_threshold o (c_circuit s).
Proof.
  intros Ht. apply (rtc_ind_r (fun s => below_threshold o (c_circuit s))).
  - split; simpl; lia.
  - intros s1 s2 _ Hst IH. destruct Hst as [now|now r _|]; [|by apply leave_below|split; simpl; lia].
    unfold on_enter. pose proof (enter_below o now _ IH) as H.
    by destruct (enter o now _).
Qed.

(** A call that runs alone at time [now] and fails. *)
Definition failing_call (o : CircuitBreakerOptions) (s : circuit) (now : Z) : circuit :=
  leave o now Failure (enter o now s).1.

Lemma failing_call_closed o s now : state s = closed ->
  failing_call o s now =
    if failureThreshold o <=? failureCount s + 1 then mkCircuit open (failureCount s + 1) now
    else mkCircuit closed (failureCount s + 1) (openedAt s).
Proof. intros Hs. unfold failing_call, enter, leave. rewrite Hs. simpl. by rewrite Hs. Qed.

Lemma failing_calls o ts s : state s = closed ->
  0 <= failureCount s -> failureCount s + Z.of_nat (length ts) < failureThreshold o ->
  fold_left (failing_call o) ts s =
    mkCircuit closed (failureCount s + Z.of_nat (length ts)) (openedAt s).
Proof.
  revert s. induction ts as [|t ts IH]; intros s Hs Hc Hl.
  - simpl. rewrite Z.add_0_r. destruct s; simpl in *. by subst.
  - cbn [fold_left length] in *. rewrite failing_call_closed by done.
    destruct (Z.leb_spec (failureThreshold o) (failureCount s + 1)); [lia|].
    rewrite IH; simpl; [f_equal; lia|done|lia|lia].
Qed.

(** However calls overlap, a closed breaker has counted fewer failures than
    its threshold; an open one refuses every call of its window, unchanged,
    saying how long is left; any other call is let through; and as many
    failures in a row as are missing to the threshold open it, at the time of
    the last one. *)
Theorem breaker_protects (o : CircuitBreakerOptions) (s : calls)
    (Ht : 1 <= failureThreshold o) (Hr : rtc (cstep o) calls_init s) :
  let c := c_circuit s in
  (state c = closed -> 0 <= failureCount c < failureThreshold o) /\
  (forall now, state c = open -> now - openedAt c < resetAfterMs o ->
     enter o now c =
       (c, Some (CircuitOpenError (cb_name o) (resetAfterMs o - (now - openedAt c))))) /\
  (forall now, state c <> open \/ resetAfterMs o <= now - openedAt c ->
     (enter o now c).2 = None /\ state (enter o now c).1 <> open) /\
  (forall ts t, state c = closed ->
     failureCount c + Z.of_nat (length ts) + 1 = failureThreshold o ->
     fold_left (failing_call o) (ts ++ [t]) c = mkCircuit open (failureThreshold o) t).
Proof.
  cbv zeta. destruct (reachable_below o s Ht Hr) as [H0 Hlt]. split_and!.
  - by intros; split; auto.
  - intros now Ho Hw. unfold enter. rewrite bool_decide_true by done. simpl.
    by rewrite (proj2 (Z.ltb_lt _ _) Hw).
  - intros now Hn. unfold enter. case_bool_decide as Ho; [|done].
    destruct Hn as [|Hn]; [done|]. by rewrite (proj2 (Z.ltb_ge _ _) Hn).
  - intros ts t Hc Hn. rewrite fold_left_app, (failing_calls o ts) by (done || lia).
    cbn [fold_left]. rewrite failing_call_closed by done. simpl. by rewrite Hn, Z.leb_refl.
Qed.

Definition three_strikes : CircuitBreakerOptions :=
  {| cb_name := "op"; cb_failureThreshold := Some 3; cb_resetAfterMs := Some 100 |}.

Lemma breaker_protects_witness :
  state (fold_left (failing_call three_strikes) [1; 2; 3] circuit_init) = open /\
  exists s, rtc (cstep three_strikes) calls_init s /\ state (c_circuit s) = half_open /\
    c_inflight s = 2%nat /\ (enter three_strikes 200 (c_circuit s)).2 = None.
Proof.
  split; [reflexivity|].
  assert (Hf : forall t s, rtc (cstep three_strikes) calls_init s -> (0 < c_inflight
      (on_enter three_strikes t s))%nat -> rtc (cstep three_strikes) calls_init
      (on_leave three_strikes t Failure (on_enter three_strikes t s))).
  { intros t s Hs Hi. eapply rtc_r; [eapply rtc_r; [exact Hs|apply cstep_enter]|by apply cstep_leave]. }
  set (f := fun t s => on_leave three_strikes t Failure (on_enter three_strikes t s)).
  set (s := on_enter three_strikes 150 (on_enter three_strikes 150 (f 3 (f 2 (f 1 calls_init))))).
  assert (Hr : rtc (cstep three_strikes) calls_init s).
  { eapply rtc_r; [eapply rtc_r|]; [|apply cstep_enter|apply cstep_enter].
    apply (Hf 3); [apply (Hf 2); [apply (Hf 1)|]|]; [apply rtc_refl|by apply (bool_decide_unpack _)..]. }
  exists s. split; [exact Hr|]. split; [reflexivity|]. split; [reflexivity|].
  refine (proj1 (proj1 (proj2 (proj2 (breaker_protects three_strikes s _ Hr))) 200 _));
    [vm_compute; congruence|left; vm_compute; congruence].
Defined.
