(* ===== verification/Retry.v ===== *)
(** Retry with exponential backoff ([src/retry/index.ts], [src/retry/presets.ts]).

    The wrapped call answers its [k]-th attempt with [fn k] and the generator's
    [k]-th draw is [randomFn k] (there is one draw per delay).  A run reports
    its sleeps: the error, the attempt that failed and the delay, as given to
    [onRetry]. *)

From S2P Require Import Prelude JsNum.
From Stdlib Require Import SpecFloat.

Section Retry.
Context {T Err : Type}.

Record RetryConfig := {
  maxAttempts : Z;
  baseDelayMs : num;
  maxDelayMs : num;
  exponentialBase : num;
  jitter : bool;
  retryOn : list (Err -> bool);            (** [instanceof] each class; empty when absent *)
  retryIf : option (Err -> bool)
}.

Inductive retry_failure :=
| RetryExhaustedError (attempts : Z) (lastError : option Err)
| Rethrown (err : Err).

Record sleep_event := mkSleep { sl_err : Err; sl_attempt : nat; sl_delay : num }.

(** [base ** attempt], by repeated multiplication. *)
Fixpoint num_pow (base : num) (attempt : nat) : num :=
  match attempt with O => num_one | S n => num_mul (num_pow base n) base end.

Definition calculateDelay (c : RetryConfig) (attempt : nat) (random : num) : num :=
  let raw := num_mul (baseDelayMs c) (num_pow (exponentialBase c) attempt) in
  let capped := num_min raw (maxDelayMs c) in
  if negb (jitter c) then num_max num_zero capped
  else
    let jitterRange := num_mul capped (num_of_decimal 25 2) in
    let offset := num_mul (num_sub (num_mul random (num_of_Z 2)) num_one) jitterRange in
    num_max num_zero (num_add capped offset).

Definition shouldRetry (c : RetryConfig) (err : Err) (attempt : nat) : bool :=
  if maxAttempts c - 1 <=? Z.of_nat attempt then false
  else match retryIf c with
       | Some f => f err
       | None => match retryOn c with
                 | [] => true
                 | classes => existsb (fun isInstance => isInstance err) classes
                 end
       end.

Context (c : RetryConfig) (fn : nat -> T + Err) (randomFn : nat -> num).

(** The loop, with the iterations [attempt < maxAttempts] leaves as fuel. *)
Fixpoint retryLoop (fuel attempt : nat) (lastError : option Err)
    : list sleep_event * (T + retry_failure) :=
  match fuel with
  | O => ([], inr (RetryExhaustedError (maxAttempts c) lastError))
  | S fuel' =>
      match fn attempt with
      | inl v => ([], inl v)
      | inr err =>
          if negb (shouldRetry c err attempt) then
            if maxAttempts c - 1 <=? Z.of_nat attempt
            then ([], inr (RetryExhaustedError (maxAttempts c) (Some err)))
            else ([], inr (Rethrown err))
          else
            let delay := calculateDelay c attempt (randomFn attempt) in
            let '(log, r) := retryLoop fuel' (S attempt) (Some err) in
            (mkSleep err attempt delay :: log, r)
      end
  end.

Definition retry : list sleep_event * (T + retry_failure) :=
  retryLoop (Z.to_nat (maxAttempts c)) 0 None.

(** ** [RetryContext] *)

Record retry_context := mkContext { attemptCount : nat; exhausted : bool }.

Definition context_init : retry_context := mkContext 0 false.

Definition shouldContinue (x : retry_context) : bool :=
  negb (exhausted x) && (Z.of_nat (attemptCount x) <? maxAttempts c).

(** [handleError]: the sleep it makes, or what it throws. *)
Definition handleError (err : Err) (x : retry_context) : retry_context * (sleep_event + retry_failure) :=
  let failedAttempt := attemptCount x in
  let n := S failedAttempt in
  if maxAttempts c <=? Z.of_nat n
  then (mkContext n true, inr (RetryExhaustedError (maxAttempts c) (Some err)))
  else if negb (shouldRetry c err failedAttempt)
  then (mkContext n true, inr (Rethrown err))
  else (mkContext n (exhausted x),
        inl (mkSleep err failedAttempt (calculateDelay c failedAttempt (randomFn failedAttempt)))).

(** The loop of its documentation: [while (ctx.shouldContinue)] try, and on an
    error [await ctx.handleError(err)]. *)
Fixpoint context_loop (fuel : nat) (x : retry_context)
    : list sleep_event * option (T + retry_failure) :=
  match fuel with
  | O => ([], None)
  | S fuel' =>
      if negb (shouldContinue x) then ([], None)
      else match fn (attemptCount x) with
           | inl v => ([], Some (inl v))
           | inr err =>
               let '(x', h) := handleError err x in
               match h with
               | inr f => ([], Some (inr f))
               | inl s => let '(log, r) := context_loop fuel' x' in (s :: log, r)
               end
           end
  end.

(** * What a run does *)

(** Attempts [a .. n-1] failed and were retried, each after its delay. *)
Definition retried (a n : nat) (log : list sleep_event) : Prop :=
  length log = (n - a)%nat /\
  forall k, (a <= k < n)%nat -> exists e, fn k = inr e /\ shouldRetry c e k = true /\
    log !! (k - a)%nat = Some (mkSleep e k (calculateDelay c k (randomFn k))).

(** The run ends at attempt [n]. *)
Definition final_outcome (n : nat) (r : T + retry_failure) : Prop :=
  match fn n with
  | inl v => r = inl v
  | inr e => shouldRetry c e n = false /\
      r = inr (if Z.of_nat n =? maxAttempts c - 1 then RetryExhaustedError (maxAttempts c) (Some e)
               else Rethrown e)
  end.

Lemma retried_cons a n e log : (a < n)%nat -> fn a = inr e -> shouldRetry c e a = true ->
  retried (S a) n log -> retried a n (mkSleep e a (calculateDelay c a (randomFn a)) :: log).
Proof.
  intros Ha Hf Hs [Hl Hk]. split; [simpl; lia|]. intros k Hk'.
  destruct (decide (k = a)) as [->|]; [exists e; by rewrite Nat.sub_diag|].
  destruct (Hk k ltac:(lia)) as (e' & ? & ? & Hlog). exists e'. split_and!; try done.
  replace (k - a)%nat with (S (k - S a)) by lia. done.
Qed.

Lemma retryLoop_spec fuel : forall a last, Z.of_nat a + Z.of_nat (S fuel) = maxAttempts c ->
  exists n log r, retryLoop (S fuel) a last = (log, r) /\ (a <= n)%nat /\
    Z.of_nat n < maxAttempts c /\ retried a n log /\ final_outcome n r.
Proof.
  induction fuel as [|fuel IH]; intros a last Ha; cbn [retryLoop];
    destruct (fn a) as [v|e] eqn:Hf.
  1,3: exists a, [], (inl v); unfold final_outcome, retried; rewrite Hf;
    split_and!; try done; simpl; lia.
  - assert (Hs : shouldRetry c e a = false).
    { unfold shouldRetry. by rewrite (proj2 (Z.leb_le _ _)) by lia. }
    rewrite Hs. cbn [negb]. destruct (Z.leb_spec (maxAttempts c - 1) (Z.of_nat a)); [|lia].
    exists a, [], (inr (RetryExhaustedError (maxAttempts c) (Some e))).
    unfold final_outcome, retried. rewrite Hf, Hs, (proj2 (Z.eqb_eq _ _)) by lia.
    split_and!; try done; simpl; lia.
  - destruct (shouldRetry c e a) eqn:Hs; cbn [negb].
    + destruct (IH (S a) (Some e) ltac:(lia)) as (n & log & r & E & Hn & Hm & Hr & Hfin).
      cbn [retryLoop] in E. rewrite E.
      exists n, (mkSleep e a (calculateDelay c a (randomFn a)) :: log), r.
      split; [done|]. split; [lia|]. split; [done|]. split; [|done].
      apply retried_cons; [lia|done..].
    + destruct (Z.leb_spec (maxAttempts c - 1) (Z.of_nat a)); [lia|].
      exists a, [], (inr (Rethrown e)). unfold final_outcome, retried.
      rewrite Hf, Hs, (proj2 (Z.eqb_neq _ _)) by lia. split_and!; try done; simpl; lia.
Qed.

Lemma context_loop_agrees fuel : forall a last, Z.of_nat a + Z.of_nat (S fuel) = maxAttempts c ->
  context_loop (S fuel) (mkContext a false) =
    (let '(log, r) := retryLoop (S fuel) a last in (log, Some r)).
Proof.
  induction fuel as [|fuel IH]; intros a last Ha.
  1: cbn [retryLoop context_loop].
  2: remember (S fuel) as fuel'; cbn [retryLoop context_loop].
  all: unfold shouldContinue; cbn [attemptCount exhausted negb andb];
    rewrite (proj2 (Z.ltb_lt _ _)) by lia; cbn [negb];
    destruct (fn a) as [v|e]; try done; unfold handleError; cbn [attemptCount exhausted].
  - unfold shouldRetry. rewrite !(proj2 (Z.leb_le _ _)) by lia. done.
  - subst fuel'. rewrite (proj2 (Z.leb_gt _ _)) by lia.
    destruct (shouldRetry c e a); cbn [negb]; [|by rewrite (proj2 (Z.leb_gt _ _)) by lia].
    rewrite (IH (S a) (Some e)) by lia. by destruct (retryLoop (S fuel) (S a) (Some e)).
Qed.

End Retry.

(** ** Presets *)

Section Presets.
Context {Err : Type} (retryable : Err -> option bool).

(** [retryable] reads the error's flag, [None] when it has none. *)
Definition honorsRetryableFlag (err : Err) (defaultIfMissing : bool) : bool :=
  default defaultIfMissing (retryable err).

Definition preset (attempts base cap : Z) (j : bool) (test : option (Err -> bool))
    : RetryConfig (Err := Err) :=
  {| maxAttempts := attempts; baseDelayMs := num_of_Z base; maxDelayMs := num_of_Z cap;
     exponentialBase := num_of_Z 2; jitter := j; retryOn := []; retryIf := test |}.

Definition RETRY_TRANSIENT := preset 3 1000 10000 true (Some (fun err => honorsRetryableFlag err true)).
Definition RETRY_AGGRESSIVE := preset 5 500 30000 true None.
Definition RETRY_PATIENT := preset 10 2000 120000 true None.
Definition NO_RETRY := preset 1 0 0 false None.
End Presets.

(** ** Delays *)

Lemma num_max_zero x : is_nan x = false ->
  num_max num_zero x = if num_ltb num_zero x then x else num_zero.
Proof.
  intros Hx. unfold num_max. rewrite Hx. simpl. destruct (num_ltb num_zero x); [done|].
  by destruct x as [[]| | |].
Qed.

Lemma num_min_nan x y : is_nan x || is_nan y = true -> num_min x y = num_nan.
Proof. intros H. unfold num_min. by rewrite H. Qed.

(** [Math.max(0, Math.min(raw, cap))] is never below zero nor above the cap. *)
Lemma clamp_bounds raw cap :
  num_ltb (num_max num_zero (num_min raw cap)) num_zero = false /\
  num_ltb (num_max num_zero cap) (num_max num_zero (num_min raw cap)) = false.
Proof.
  destruct (is_nan raw || is_nan cap) eqn:Hn.
  { rewrite num_min_nan by done. simpl. split; [done|]. by destruct (num_max num_zero cap) as [[]|[]| |[]]. }
  apply orb_false_iff in Hn as [Hr Hc]. pose proof (num_min_not_nan raw cap Hr Hc) as Hm.
  destruct (num_min_nlt raw cap _ Hr Hc eq_refl) as [_ Hle].
  revert Hm Hle. generalize (num_min raw cap) as m. intros m Hm Hle.
  rewrite !num_max_zero by done. split.
  - destruct (num_ltb num_zero m) eqn:E; [by apply num_ltb_asym|apply num_ltb_irrefl].
  - destruct (num_ltb num_zero m) eqn:E, (num_ltb num_zero cap) eqn:E'; try done.
    + by rewrite (num_nlt_trans num_zero cap m) in E.
    + by apply num_ltb_asym.
Qed.

(** With at least one attempt, a run tries attempts 0, 1, ... until one
    succeeds or its error is not to be retried, never more than [maxAttempts];
    it sleeps once between attempts, for the computed delay (in [0, maxDelayMs]
    without jitter); it returns the success, rethrows the error as it is, or,
    on the last attempt, reports exhaustion with it; and driving a
    [RetryContext] by its documented loop does exactly the same. *)
Theorem retry_attempts {T Err : Type} (c : RetryConfig (Err := Err)) (fn : nat -> T + Err)
    (randomFn : nat -> num) (Hm : 1 <= maxAttempts c) :
  exists n log r, retry c fn randomFn = (log, r) /\ Z.of_nat n < maxAttempts c /\
    retried c fn randomFn 0 n log /\ final_outcome c fn n r /\
    (jitter c = false -> Forall (fun s => num_ltb (sl_delay s) num_zero = false /\
       num_ltb (num_max num_zero (maxDelayMs c)) (sl_delay s) = false) log) /\
    context_loop c fn randomFn (Z.to_nat (maxAttempts c)) context_init = (log, Some r).
Proof.
  unfold retry. destruct (Z.to_nat (maxAttempts c)) as [|fuel] eqn:Hf; [lia|].
  destruct (retryLoop_spec c fn randomFn fuel 0 None) as (n & log & r & E & _ & Hn & Hr & Ho); [lia|].
  exists n, log, r. split; [done|]. split; [done|]. split; [done|]. split; [done|]. split.
  - intros Hj. apply Forall_lookup. intros k s Hs. destruct Hr as [Hl Hall].
    pose proof (lookup_lt_Some _ _ _ Hs) as Hk.
    destruct (Hall k ltac:(lia)) as (e & _ & _ & He). rewrite Nat.sub_0_r, Hs in He.
    injection He as ->. simpl. unfold calculateDelay. rewrite Hj. cbn [negb]. apply clamp_bounds.
  - unfold context_init. rewrite (context_loop_agrees c fn randomFn fuel 0 None) by lia. by rewrite E.
Qed.

(** Two failures, then a value. *)
Definition flaky (k : nat) : Z + string :=
  match k with O => inr "e0" | 1%nat => inr "e1" | _ => inl 42 end.

Definition quiet : RetryConfig (Err := string) := preset 5 100 150 false None.

Lemma retry_attempts_witness :
  1 <= maxAttempts quiet /\
  exists n log r, retry quiet flaky (fun _ => num_zero) = (log, r) /\ Z.of_nat n < 5 /\
    retried quiet flaky (fun _ => num_zero) 0 n log.
Proof.
  split; [vm_compute; congruence|].
  destruct (retry_attempts quiet flaky (fun _ => num_zero)) as (n & log & r & E & Hn & Hr & _);
    [vm_compute; congruence|]. by exists n, log, r.
Defined.

Example quiet_run : retry quiet flaky (fun _ => num_zero) =
  ([mkSleep "e0" 0 (num_of_Z 100); mkSleep "e1" 1 (num_of_Z 150)], inl 42).
Proof. vm_compute. reflexivity. Qed.

(** With jitter a delay can exceed [maxDelayMs]: the cap is applied first. *)
Example jitter_exceeds_cap :
  calculateDelay (RETRY_PATIENT (Err := string)) 8 num_one = num_of_Z 150000 /\
  num_ltb (num_of_Z 120000) (calculateDelay (RETRY_PATIENT (Err := string)) 8 (num_of_decimal 9 1)) = true.
Proof. vm_compute. split; reflexivity. Qed.
