(* ===== verification/Idempotent.v ===== *)
(** The idempotency cache ([src/resilience/idempotent.ts]): a bounded LRU map
    with expiry, and the wrapper that answers repeated keys from it.

    Calls of the wrapper run one after the other; a [Map] is its entries in
    insertion order. *)

From S2P Require Import Prelude JsNum JsValue.

Record entry := mkCached { value : jsval; expiresAt : Z }.
Definition store : Type := list (string * entry).

(** [BoundedTtlCache.get] at time [now]: [None] for a miss. *)
Definition cache_get (now : Z) (key : string) (s : store) : option jsval * store :=
  match om_get key s with
  | None => (None, s)
  | Some e =>
      if expiresAt e <? now then (None, om_delete key s)
      else (Some (value e), om_set key e (om_delete key s))
  end.

(** [BoundedTtlCache.set]: the oldest entry goes when the map is full, also when
    [key] is already in it. *)
Definition cache_set (maxEntries ttlMs now : Z) (key : string) (v : jsval) (s : store) : store :=
  let s' := if maxEntries <=? Z.of_nat (length s)
            then match s with (oldest, _) :: _ => om_delete oldest s | [] => s end
            else s in
  om_set key (mkCached v (now + ttlMs)) s'.

Section Idempotent.
Context {W : Type} (maxEntries ttlMs : Z).

(** One call of the wrapped function: its key, the clock when the cache is read
    and written, and the operation itself. *)
Record call := mkCall {
  k_key : string; k_get : Z; k_set : Z; k_fn : W -> W * result jsval
}.

Definition is_undefined (o : option jsval) : bool :=
  match o with None | Some JUndef => true | _ => false end.

Definition idempotent (k : call) (w : W) (s : store) : W * store * result jsval :=
  let '(hit, s1) := cache_get (k_get k) (k_key k) s in
  match hit with
  | Some v =>
      if negb (is_undefined hit) then (w, s1, Ok v)
      else let '(w', r) := k_fn k w in
           (w', match r with
                | Ok v => cache_set maxEntries ttlMs (k_set k) (k_key k) v s1
                | Throw _ => s1
                end, r)
  | None =>
      let '(w', r) := k_fn k w in
      (w', match r with
           | Ok v => cache_set maxEntries ttlMs (k_set k) (k_key k) v s1
           | Throw _ => s1
           end, r)
  end.

Definition run_calls (ks : list call) (w : W) (s : store) : W * store :=
  fold_left (fun ws k => (idempotent k ws.1 ws.2).1) ks (w, s).

(** * Age of an entry *)

(** How many entries were inserted after [key]. *)
Fixpoint younger (key : string) (s : store) : nat :=
  match s with
  | [] => O
  | (k, _) :: s' => if decide (key = k) then length s' else younger key s'
  end.

Lemma younger_lt key s : key ∈ s.*1 -> (younger key s < length s)%nat.
Proof.
  induction s as [|[k e] s IH]; [by intros ?%elem_of_nil|]. csimpl.
  case_decide; [lia|]. intros [->|Hin]%elem_of_cons; [done|]. apply IH in Hin. lia.
Qed.

Lemma younger_app key s x : key ∈ s.*1 -> younger key (s ++ [x]) = S (younger key s).
Proof.
  induction s as [|[k e] s IH]; [by intros ?%elem_of_nil|]. csimpl.
  case_decide; [rewrite length_app; simpl; lia|].
  intros [->|Hin]%elem_of_cons; [done|by apply IH].
Qed.

Lemma younger_set_existing key k e s : k ∈ s.*1 -> younger key (om_set k e s) = younger key s.
Proof.
  induction s as [|[k' e'] s IH]; csimpl; [by intros ?%elem_of_nil|]. intros Hin.
  case_decide; csimpl; [by subst|]. apply elem_of_cons in Hin as [->|Hin]; [done|].
  case_decide; [|by apply IH]. apply om_get_is_Some in Hin as [v Hv].
  rewrite om_set_length. unfold om_has. by rewrite Hv.
Qed.

Lemma younger_set key k e s : key ∈ s.*1 -> (younger key (om_set k e s) <= S (younger key s))%nat.
Proof.
  intros Hin. destruct (decide (k ∈ s.*1)); [rewrite younger_set_existing by done; lia|].
  rewrite om_set_fresh by done. rewrite younger_app by done. lia.
Qed.

Lemma younger_delete key k s : key <> k -> key ∈ s.*1 ->
  (younger key (om_delete k s) <= younger key s)%nat.
Proof.
  intros Hne. induction s as [|[k' e] s IH]; csimpl; [done|].
  intros Hin. case_decide as E1; csimpl; case_decide as E2; subst; try done; try lia.
  - rewrite om_delete_length. case_match; lia.
  - apply elem_of_cons in Hin as [->|Hin]; [done|by apply IH].
Qed.

(** * Retention *)

(** The map is within its bound, and holds [v] for [key] until [exp], with at
    most [n] younger entries. *)
Record holds (key : string) (v : jsval) (exp : Z) (n : nat) (s : store) : Prop := {
  h_get : om_get key s = Some (mkCached v exp);
  h_age : (younger key s <= n)%nat;
  h_nodup : NoDup s.*1;
  h_size : Z.of_nat (length s) <= maxEntries
}.

Definition evict (s : store) : store :=
  if maxEntries <=? Z.of_nat (length s)
  then match s with (oldest, _) :: _ => om_delete oldest s | [] => s end else s.

Lemma evict_size s : 1 <= maxEntries -> Z.of_nat (length s) <= maxEntries ->
  Z.of_nat (length (evict s)) < maxEntries.
Proof.
  intros Hm Hs. unfold evict. destruct (Z.leb_spec maxEntries (Z.of_nat (length s))); [|lia].
  destruct s as [|[k e] s]; [simpl in *; lia|]. csimpl. case_decide; [|done]. simpl in *. lia.
Qed.

Lemma evict_NoDup s : NoDup s.*1 -> NoDup (evict s).*1.
Proof.
  intros Hn. unfold evict. destruct (_ <=? _); [|done].
  destruct s as [|[k e] s]; [done|]. by apply om_delete_NoDup.
Qed.

Lemma holds_in key v exp n s : holds key v exp n s -> key ∈ s.*1.
Proof. intros [Hg _ _ _]. apply om_get_is_Some. eauto. Qed.

Lemma evict_holds key v exp n s : 1 + Z.of_nat n < maxEntries ->
  holds key v exp n s -> holds key v exp n (evict s).
Proof.
  intros Hn Hh. pose proof (holds_in _ _ _ _ _ Hh) as Hin. destruct Hh as [Hg Ha Hnd Hs].
  split; [..|by apply evict_NoDup|pose proof (evict_size s); lia].
  - unfold evict. destruct (Z.leb_spec maxEntries (Z.of_nat (length s))); [|done].
    destruct s as [|[k e] s]; [done|]. rewrite om_get_delete_ne; [done|].
    intros ->. csimpl in Ha. case_decide; [|done]. simpl in *. lia.
  - unfold evict. destruct (Z.leb_spec maxEntries (Z.of_nat (length s))); [|done].
    destruct s as [|[k e] s]; [done|]. etransitivity; [|exact Ha]. apply younger_delete; [|done].
    intros ->. csimpl in Ha. case_decide; [|done]. simpl in *. lia.
Qed.

Lemma delete_holds key k v exp n s : key <> k ->
  holds key v exp n s -> holds key v exp n (om_delete k s).
Proof.
  intros Hne Hh. pose proof (holds_in _ _ _ _ _ Hh) as Hin. destruct Hh as [Hg Ha Hnd Hs].
  split; [by rewrite om_get_delete_ne| |by apply om_delete_NoDup|].
  - etransitivity; [by apply younger_delete|done].
  - rewrite om_delete_length. destruct (om_has k s); lia.
Qed.

Lemma set_holds key k e v exp n s : key <> k -> Z.of_nat (length s) < maxEntries ->
  holds key v exp n s -> holds key v exp (S n) (om_set k e s).
Proof.
  intros Hne Hl Hh. pose proof (holds_in _ _ _ _ _ Hh) as Hin. destruct Hh as [Hg Ha Hnd Hs].
  split; [by rewrite om_get_set_ne| |by apply om_set_NoDup|].
  - pose proof (younger_set key k e s Hin). lia.
  - rewrite om_set_length. destruct (om_has k s); lia.
Qed.

(** [get] of another key costs at most one place. *)
Lemma cache_get_holds key k now v exp n s : key <> k ->
  holds key v exp n s ->
  holds key v exp (if (cache_get now k s).1 then S n else n) (cache_get now k s).2.
Proof.
  intros Hne Hh. unfold cache_get. destruct (om_get k s) as [e|] eqn:Hk; [|done].
  destruct (expiresAt e <? now); [by apply delete_holds|].
  apply set_holds; [done| |by apply delete_holds].
  destruct Hh as [_ _ _ Hs]. rewrite om_delete_length. unfold om_has. rewrite Hk.
  destruct s; [done|]. simpl in *. lia.
Qed.

Lemma cache_set_holds key k now v u exp n s : key <> k -> 1 <= maxEntries ->
  1 + Z.of_nat n < maxEntries -> holds key v exp n s ->
  holds key v exp (S n) (cache_set maxEntries ttlMs now k u s).
Proof.
  intros Hne Hm Hn Hh. unfold cache_set. fold (evict s). apply set_holds; [done| |].
  - apply evict_size; [done|]. by destruct Hh.
  - by apply evict_holds.
Qed.

(** The same when [k] has just been read: it is the youngest already. *)
Lemma reset_holds key k now v u exp n s : key <> k -> 1 <= maxEntries ->
  1 + Z.of_nat n < maxEntries -> (last s.*1 = Some k) ->
  holds key v exp n s -> holds key v exp n (cache_set maxEntries ttlMs now k u s).
Proof.
  intros Hne Hm Hn Hl Hh. unfold cache_set. fold (evict s).
  pose proof (evict_holds _ _ _ _ _ Hn Hh) as He. pose proof (evict_size s Hm) as Hsz.
  destruct Hh as [Hg _ Hnd Hs]. specialize (Hsz Hs).
  assert (Hk : k ∈ (evict s).*1).
  { unfold evict. assert (Hks : k ∈ s.*1).
    { apply last_Some_elem_of in Hl. done. }
    destruct (_ <=? _); [|done]. destruct s as [|[o e] s]; [done|].
    apply om_get_is_Some. rewrite om_get_delete_ne; [by apply om_get_is_Some|].
    intros <-. destruct s as [|x s]; csimpl in *.
    - case_decide; [by subst|done].
    - apply NoDup_cons in Hnd as [Hnd _]. apply last_Some_elem_of in Hl. done. }
  destruct He as [Hg' Ha' Hnd' Hs'].
  split; [by rewrite om_get_set_ne|by rewrite younger_set_existing|by apply om_set_NoDup|].
  rewrite om_set_length. destruct (om_has k (evict s)); lia.
Qed.

Lemma cache_get_last k now u s s1 : NoDup s.*1 ->
  cache_get now k s = (Some u, s1) -> last s1.*1 = Some k.
Proof.
  intros Hnd. unfold cache_get. destruct (om_get k s) as [e|]; [|done].
  destruct (expiresAt e <? now); [done|]. intros [= _ <-].
  rewrite om_set_fresh by (by apply om_get_None, om_get_delete_eq).
  by rewrite fmap_app, last_app.
Qed.

(** A call with another key costs the entry at most one place. *)
Lemma idempotent_holds key v exp n k w s : k_key k <> key -> 2 + Z.of_nat n < maxEntries ->
  holds key v exp n s -> holds key v exp (S n) (idempotent k w s).1.2.
Proof.
  intros Hne Hn Hh. pose proof (cache_get_holds key (k_key k) (k_get k) v exp n s
    (not_eq_sym Hne) Hh) as Hg. pose proof (cache_get_last (k_key k) (k_get k)) as Hlast.
  unfold idempotent. destruct (cache_get (k_get k) (k_key k) s) as [[u|] s1] eqn:Ek; simpl in Hg.
  - destruct (negb _); [done|]. destruct (k_fn k w) as [w' [r|err]]; simpl; [|done].
    apply reset_holds; [congruence|lia|lia| |done]. apply (Hlast u s s1); [by destruct Hh|done].
  - destruct (k_fn k w) as [w' [r|err]]; simpl.
    + apply cache_set_holds; [congruence|lia|lia|done].
    + destruct Hg. split; try done. lia.
Qed.

Lemma run_calls_holds key v exp ks : forall n w s,
  Forall (fun k => k_key k <> key) ks -> Z.of_nat (n + length ks) + 1 < maxEntries ->
  holds key v exp n s -> holds key v exp (n + length ks) (run_calls ks w s).2.
Proof.
  unfold run_calls. induction ks as [|k ks IH]; intros n w s Hks Hn Hh; simpl.
  { by rewrite Nat.add_0_r. }
  apply Forall_cons in Hks as [Hk Hks]. simpl in Hn.
  pose proof (idempotent_holds key v exp n k w s Hk ltac:(lia) Hh) as Hh'.
  destruct (idempotent k w s) as [[w1 s1] r]. simpl in *.
  replace (n + S (length ks))%nat with (S n + length ks)%nat by lia. apply IH; [done|lia|done].
Qed.

(** A miss leaves the map without the key. *)
Lemma cache_get_miss now key s : NoDup s.*1 -> (cache_get now key s).1 = None ->
  let s1 := (cache_get now key s).2 in
  key ∉ s1.*1 /\ NoDup s1.*1 /\ (length s1 <= length s)%nat.
Proof.
  intros Hnd. unfold cache_get. destruct (om_get key s) as [e|] eqn:Hg.
  - destruct (expiresAt e <? now); [|done]. intros _. simpl. split_and!.
    + by apply om_get_None, om_get_delete_eq.
    + by apply om_delete_NoDup.
    + rewrite om_delete_length. destruct (om_has key s); lia.
  - intros _. simpl. split; [by apply om_get_None|done].
Qed.

(** Writing a fresh key makes it the youngest entry. *)
Lemma cache_set_fresh now key v s : 1 <= maxEntries -> key ∉ s.*1 -> NoDup s.*1 ->
  Z.of_nat (length s) <= maxEntries ->
  holds key v (now + ttlMs) 0 (cache_set maxEntries ttlMs now key v s).
Proof.
  intros Hm Hf Hnd Hs. unfold cache_set. fold (evict s).
  pose proof (evict_size s Hm Hs) as Hl. pose proof (evict_NoDup s Hnd) as Hn.
  assert (Hin : key ∉ (evict s).*1).
  { unfold evict. destruct (_ <=? _); [|done]. destruct s as [|[o u] d]; [done|].
    intros Hin%om_delete_keys_subseteq. done. }
  split; [apply om_get_set_eq| |by apply om_set_NoDup|].
  - rewrite om_set_fresh by done. clear -Hin. induction (evict s) as [|[k u] l IH]; csimpl.
    + by case_decide.
    + rewrite fmap_cons, not_elem_of_cons in Hin. destruct Hin as [Hk Hin].
      case_decide; [done|by apply IH].
  - rewrite om_set_fresh, length_app by done. simpl. lia.
Qed.

(** Once a call has run and returned [v] under a key not in the cache,
    repeating the key within the time to live returns [v] without running the
    operation, whatever calls with other keys came between, as long as they are
    fewer than [maxEntries - 1]; the cache stays within its bound. *)
Theorem idempotent_once (k0 k1 : call) (ks : list call) (w w0 : W) (s s0 : store) (v : jsval)
    (Hnd : NoDup s.*1) (Hsz : Z.of_nat (length s) <= maxEntries)
    (Hmiss : (cache_get (k_get k0) (k_key k0) s).1 = None)
    (Hrun : idempotent k0 w s = (w0, s0, Ok v)) (Hv : v <> JUndef)
    (Hks : Forall (fun k => k_key k <> k_key k0) ks)
    (Hlen : Z.of_nat (length ks) + 1 < maxEntries)
    (Hkey : k_key k1 = k_key k0) (Httl : k_get k1 <= k_set k0 + ttlMs) :
  let '(w1, s1) := run_calls ks w0 s0 in
  Z.of_nat (length s1) <= maxEntries /\
  exists s2, idempotent k1 w1 s1 = (w1, s2, Ok v) /\ Z.of_nat (length s2) <= maxEntries.
Proof.
  assert (Hh : holds (k_key k0) v (k_set k0 + ttlMs) 0 s0).
  { pose proof (cache_get_miss _ _ _ Hnd Hmiss) as (Hf & Hn & Hl). unfold idempotent in Hrun.
    destruct (cache_get (k_get k0) (k_key k0) s) as [hit s1]. simpl in Hmiss, Hf, Hn, Hl. subst hit.
    destruct (k_fn k0 w) as [w' [r|err]]; [|done]. injection Hrun as <- <- ->.
    apply cache_set_fresh; [lia|done..|lia]. }
  pose proof (run_calls_holds _ _ _ ks 0 w0 s0 Hks ltac:(simpl; lia) Hh) as Hr.
  destruct (run_calls ks w0 s0) as [w1 s1]. simpl in Hr. split; [by destruct Hr|].
  destruct Hr as [Hg Ha Hn Hs]. unfold idempotent, cache_get. rewrite Hkey, Hg. simpl.
  rewrite (proj2 (Z.ltb_ge _ _)) by lia.
  assert (Hu : is_undefined (Some v) = false) by (by destruct v). rewrite Hu. simpl.
  eexists. split; [done|].
  rewrite om_set_length, om_delete_length. unfold om_has. rewrite om_get_delete_eq by done.
  rewrite Hg. destruct s1; [done|]. simpl in *. lia.
Qed.
End Idempotent.

(** ** Concrete calls *)

(** Counts its runs and answers the key. *)
Definition counting (key : string) (t : Z) : call (W := Z) :=
  mkCall key t t (fun w => (w + 1, Ok (JStr key))).

Lemma idempotent_once_witness :
  (idempotent 4 100 (counting "a" 1) 0 []).1.1 = 1 /\
  let '(w1, s1) := run_calls 4 100 [counting "b" 2; counting "c" 3] 1
                     (idempotent 4 100 (counting "a" 1) 0 []).1.2 in
  Z.of_nat (length s1) <= 4 /\
  exists s2, idempotent 4 100 (counting "a" 50) w1 s1 = (w1, s2, Ok (JStr "a")) /\
    Z.of_nat (length s2) <= 4.
Proof.
  split; [reflexivity|].
  refine (idempotent_once 4 100 (counting "a" 1) (counting "a" 50) [counting "b" 2; counting "c" 3]
    0 1 [] (idempotent 4 100 (counting "a" 1) 0 []).1.2 (JStr "a") _ _ _ _ _ _ _ _ _);
    try reflexivity; try done; try (simpl; lia).
  - constructor.
  - by repeat constructor.
Defined.

(** Rewriting a key that is already in a full map still evicts another one. *)
Example overwrite_evicts :
  cache_set 2 100 5 "b" (JStr "new") [("a", mkCached (JStr "x") 50); ("b", mkCached (JStr "y") 50)] =
    [("b", mkCached (JStr "new") 105)].
Proof. reflexivity. Qed.
