(* ===== verification/Random.v ===== *)
(** The replayable random source ([src/replay/random.ts]): the xorshift32
    generator, its identifiers, and the recorded source that replays them.

    The crypto arm calls the Web Crypto API and is left out, but for the mode in
    which it throws.  Its state is never zero, a recording replays. *)

From S2P Require Import Prelude JsNum Word32.
From Stdlib Require Import Ascii SpecFloat.

(** * The generator *)

(** The word left in the state, which is also the word returned. *)
Definition xorshift32 (state : Z) : Z :=
  let x := state in
  let x := js_xor x (js_shl x 13) in
  let x := js_xor x (js_ushr x 17) in
  let x := js_xor x (js_shl x 5) in
  u32 x.

(** [n.toString(16).padStart(len, "0")] of a non-negative integer. *)
Definition hex_digit (d : Z) : ascii :=
  ascii_of_nat (Z.to_nat (if d <? 10 then 48 + d else 87 + d)).

Fixpoint hex_digits (fuel : nat) (n : Z) (acc : string) : string :=
  match fuel with
  | O => acc
  | S fuel =>
      let acc := String (hex_digit (n mod 16)) acc in
      if n <? 16 then acc else hex_digits fuel (n / 16) acc
  end.

Definition hex (n : Z) (len : nat) : string :=
  let s := hex_digits 16 n "" in (zeros (len - String.length s) ++ s)%string.

Definition nibblesToUuid (a b c d : Z) : string :=
  let timeLow := hex a 8 in
  let timeMid := hex (js_and (js_ushr b 16) 65535) 4 in
  let timeHiAndVersion := hex (js_or (js_and b 4095) 16384) 4 in
  let clockSeqHiAndRes := hex (js_or (js_and (js_ushr c 24) 63) 128) 2 in
  let clockSeqLow := hex (js_and (js_ushr c 16) 255) 2 in
  let node := hex (u32 (js_and c 65535 * 4294967296 + d)) 12 in
  (timeLow ++ "-" ++ timeMid ++ "-" ++ timeHiAndVersion ++ "-" ++ clockSeqHiAndRes ++
   clockSeqLow ++ "-" ++ node)%string.

(** ** [RealRandom] *)

Definition seedState (seed : Z) : Z := let s := u32 seed in if s =? 0 then 1 else s.

Definition real_next (state : Z) : Z * num :=
  let x := xorshift32 state in (x, num_div (num_of_Z x) (num_of_Z 4294967296)).

Definition real_uuid (state : Z) : Z * string :=
  let a := xorshift32 state in
  let b := xorshift32 a in
  let c := xorshift32 b in
  let d := xorshift32 c in
  (d, nibblesToUuid a b c d).

(** ** [RecordedRandom] *)

Inductive ReplayMode := strict | tolerant.

Record RecordedRandom := mkRecorded {
  recordedNext : list num;
  recordedUuids : list string;
  mode : ReplayMode;
  nextCursor : nat;
  uuidCursor : nat
}.

Definition exhausted_error (what : string) (recorded requested : nat) : jserror :=
  JsError "RangeError" ("RecordedRandom." ++ what ++ "() exhausted: " ++ str_of_nat recorded ++
    " values recorded, " ++ str_of_nat requested ++ " requested")%string.

Definition recorded_next (r : RecordedRandom) : RecordedRandom * result num :=
  match recordedNext r !! nextCursor r with
  | Some v => (mkRecorded (recordedNext r) (recordedUuids r) (mode r) (S (nextCursor r)) (uuidCursor r), Ok v)
  | None => (r, Throw (exhausted_error "next" (length (recordedNext r)) (nextCursor r + 1)))
  end.

Definition recorded_uuid (r : RecordedRandom) : RecordedRandom * result string :=
  match recordedUuids r !! uuidCursor r with
  | Some v => (mkRecorded (recordedNext r) (recordedUuids r) (mode r) (nextCursor r) (S (uuidCursor r)), Ok v)
  | None => (r, Throw (exhausted_error "uuid" (length (recordedUuids r)) (uuidCursor r + 1)))
  end.

(** [crypto] and [cryptoUuid]: a strict replay throws, otherwise the platform
    answers. *)
Definition recorded_crypto {A} (r : RecordedRandom) (platform : A) : result A :=
  match mode r with
  | strict => Throw (JsError "CryptoRandomDuringReplayError"
      ("crypto() / cryptoUuid() called during replay. " ++
       "Crypto random is NON-REPLAY-SAFE by design (security trumps audit). " ++
       "Use random.next() / random.uuid() for replayable values.")%string)
  | tolerant => Ok platform
  end.

Definition clone (r : RecordedRandom) : RecordedRandom :=
  mkRecorded (recordedNext r) (recordedUuids r) (mode r) (nextCursor r) (uuidCursor r).

(** ** Using a source *)

Inductive draw := DrawNext | DrawUuid.
Inductive drawn := GotNext (x : num) | GotUuid (s : string).

(** The draws of a live run, with the sequences a recorder keeps of them. *)
Fixpoint live (ds : list draw) (state : Z) : list drawn :=
  match ds with
  | [] => []
  | DrawNext :: ds' => let '(st, x) := real_next state in GotNext x :: live ds' st
  | DrawUuid :: ds' => let '(st, s) := real_uuid state in GotUuid s :: live ds' st
  end.

Definition next_log (l : list drawn) : list num :=
  omap (fun d => match d with GotNext x => Some x | _ => None end) l.
Definition uuid_log (l : list drawn) : list string :=
  omap (fun d => match d with GotUuid s => Some s | _ => None end) l.

(** The same draws from a recorded source. *)
Fixpoint replay (ds : list draw) (r : RecordedRandom) : RecordedRandom * result (list drawn) :=
  match ds with
  | [] => (r, Ok [])
  | DrawNext :: ds' =>
      let '(r', x) := recorded_next r in
      match x with
      | Throw e => (r', Throw e)
      | Ok x => let '(r'', l) := replay ds' r' in (r'', l ≫= fun l => Ok (GotNext x :: l))
      end
  | DrawUuid :: ds' =>
      let '(r', s) := recorded_uuid r in
      match s with
      | Throw e => (r', Throw e)
      | Ok s => let '(r'', l) := replay ds' r' in (r'', l ≫= fun l => Ok (GotUuid s :: l))
      end
  end.

Example xorshift_ex : xorshift32 1 = 270369 /\ xorshift32 2463534242 = 723471715.
Proof. vm_compute. split; reflexivity. Qed.
Example uuid_ex : nibblesToUuid 1 2 4294967295 4294967295 = "00000001-0000-4002-bfff-0000ffffffff".
Proof. vm_compute. reflexivity. Qed.

(** * Correctness *)

(** * The generator on words *)

Definition word (x : Z) : Prop := 0 <= x < 4294967296.

Definition left_step (k x : Z) : Z := Z.lxor x (u32 (Z.shiftl x k)).
Definition right_step (k x : Z) : Z := Z.lxor x (Z.shiftr x k).

Lemma xorshift32_steps x : word x ->
  xorshift32 x = left_step 5 (right_step 17 (left_step 13 x)).
Proof.
  intros Hx. unfold xorshift32, left_step, right_step. cbv zeta.
  rewrite u32_js_xor, u32_js_shl, u32_js_xor, u32_js_ushr, u32_js_xor, u32_js_shl by lia.
  by rewrite (u32_small x).
Qed.

Lemma word_high x i : word x -> 32 <= i -> Z.testbit x i = false.
Proof.
  intros Hx Hi. rewrite <- (u32_small x Hx), u32_testbit by lia.
  by rewrite (proj2 (Z.ltb_ge i 32)).
Qed.

Lemma left_step_word k x : word x -> word (left_step k x).
Proof. intros Hx. apply (lxor_range _ _ 32); [lia|done|apply u32_range]. Qed.

Lemma right_step_word k x : 0 <= k -> word x -> word (right_step k x).
Proof. intros Hk Hx. apply (lxor_range _ _ 32); [lia|done|]. by apply (shiftr_range _ k 32). Qed.

(** Each step can be undone, bit by bit from the end it does not touch. *)
Lemma left_step_inj k a b : 0 < k -> word a -> word b -> left_step k a = left_step k b -> a = b.
Proof.
  intros Hk Ha Hb E. apply Z.bits_inj'. refine (Z_lt_induction _ _). intros i IH.
  destruct (Z.lt_ge_cases i 0); [by rewrite !Z.testbit_neg_r|].
  destruct (Z.lt_ge_cases i 32); [|by rewrite !word_high].
  pose proof (f_equal (fun w => Z.testbit w i) E) as Ei. simpl in Ei. unfold left_step in Ei.
  rewrite !Z.lxor_spec, !u32_testbit, !Z.shiftl_spec in Ei by done.
  assert (Hk' : Z.testbit a (i - k) = Z.testbit b (i - k)).
  { destruct (Z.lt_ge_cases (i - k) 0); [by rewrite !Z.testbit_neg_r|]. apply IH. lia. }
  rewrite Hk' in Ei. destruct (Z.testbit a i), (Z.testbit b i), (_ && _); done.
Qed.

Lemma right_step_inj k a b : 0 < k -> word a -> word b -> right_step k a = right_step k b -> a = b.
Proof.
  intros Hk Ha Hb E. assert (Hbits : forall j, 0 <= j ->
      (fun j => j < 32 -> Z.testbit a (31 - j) = Z.testbit b (31 - j)) j).
  { refine (Z_lt_induction _ _). intros j IH Hj.
    pose proof (f_equal (fun w => Z.testbit w (31 - j)) E) as Ei. simpl in Ei. unfold right_step in Ei.
    destruct (Z.lt_ge_cases j 0) as [Hj0|Hj0]; [by rewrite !word_high by (done || lia)|].
    rewrite !Z.lxor_spec, !Z.shiftr_spec in Ei by lia.
    assert (Hk' : Z.testbit a (31 - j + k) = Z.testbit b (31 - j + k)).
    { destruct (Z.lt_ge_cases (j - k) 0); [by rewrite !word_high by (done || lia)|].
      replace (31 - j + k) with (31 - (j - k)) by lia. apply IH; lia. }
    rewrite Hk' in Ei. destruct (Z.testbit a (31 - j)), (Z.testbit b (31 - j)), (Z.testbit b _); done. }
  apply Z.bits_inj'. intros i Hi. destruct (Z.lt_ge_cases i 32); [|by rewrite !word_high].
  specialize (Hbits (31 - i) ltac:(lia)). simpl in Hbits.
  replace (31 - (31 - i)) with i in Hbits by lia. apply Hbits. lia.
Qed.

Lemma xorshift32_word x : word (xorshift32 x).
Proof. apply u32_range. Qed.

Lemma xorshift32_inj a b : word a -> word b -> xorshift32 a = xorshift32 b -> a = b.
Proof.
  intros Ha Hb. rewrite !xorshift32_steps by done. intros E.
  assert (forall x, word x -> word (right_step 17 (left_step 13 x))) as Hw.
  { intros x Hx. apply right_step_word; [lia|]. by apply left_step_word. }
  apply left_step_inj in E; [|lia|by apply Hw..].
  apply right_step_inj in E; [|lia|by apply left_step_word..].
  by apply left_step_inj in E.
Qed.

Lemma seedState_word seed : word (seedState seed) /\ seedState seed <> 0.
Proof.
  unfold seedState. pose proof (u32_range seed). destruct (Z.eqb_spec (u32 seed) 0); [|done].
  split; [unfold word; lia|done].
Qed.

Lemma xorshift32_nonzero x : word x -> x <> 0 -> xorshift32 x <> 0.
Proof.
  intros Hx Hne E. apply Hne. apply xorshift32_inj; [done|unfold word; lia|]. by rewrite E.
Qed.

(** The generator's state is always a non-zero 32-bit word, whatever the
    seed and however many words are drawn, and no two states have the same
    successor: the generator permutes the non-zero words and never locks up. *)
Theorem xorshift_permutes (seed a b : Z) (Ha : word a) (Hb : word b) :
  (forall n, let st := Nat.iter n xorshift32 (seedState seed) in word st /\ st <> 0) /\
  (xorshift32 a = xorshift32 b <-> a = b).
Proof.
  split; [|split; [by apply xorshift32_inj|by intros ->]].
  cbv zeta. induction n as [|n [IH1 IH2]]; [apply seedState_word|].
  rewrite Nat.iter_succ. split; [apply xorshift32_word|by apply xorshift32_nonzero].
Qed.

Lemma xorshift_permutes_witness :
  word 1 /\ (xorshift32 1 = xorshift32 4294967295 <-> 1 = 4294967295).
Proof.
  split; [by split|].
  refine (proj2 (xorshift_permutes 0 1 4294967295 _ _)); split; vm_compute; congruence.
Defined.

(** * Replay *)

Lemma replay_suffix ds st : forall ns us m i j n u,
  i = length ns -> j = length us ->
  n = ns ++ next_log (live ds st) -> u = us ++ uuid_log (live ds st) ->
  replay ds (mkRecorded n u m i j) = (mkRecorded n u m (length n) (length u), Ok (live ds st)).
Proof.
  revert st. induction ds as [|[|] ds IH]; intros st ns us m i j n u -> -> -> ->;
    cbn [live replay].
  - unfold next_log, uuid_log. simpl. by rewrite !app_nil_r.
  - destruct (real_next st) as [st' x]. unfold next_log, uuid_log. cbn [omap list_omap].
    fold (next_log (live ds st')) (uuid_log (live ds st')).
    unfold recorded_next. simpl. rewrite list_lookup_middle by done.
    rewrite (IH st' (ns ++ [x]) us); [done|rewrite length_app; simpl; lia|done| |done].
    by rewrite <- app_assoc.
  - destruct (real_uuid st) as [st' x]. unfold next_log, uuid_log. cbn [omap list_omap].
    fold (next_log (live ds st')) (uuid_log (live ds st')).
    unfold recorded_uuid. simpl. rewrite list_lookup_middle by done.
    rewrite (IH st' ns (us ++ [x])); [done|done|rewrite length_app; simpl; lia|done|].
    by rewrite <- app_assoc.
Qed.

(** A recorded source made from a live run answers the same draws with the
    same values, in any mix of numbers and identifiers; then it is exhausted,
    and one draw more throws and leaves it as it is; a clone made on the way
    continues exactly as its parent. *)
Theorem replay_faithful (ds ds' : list draw) (seed : Z) (m : ReplayMode) :
  let l := live (ds ++ ds') (seedState seed) in
  let r := mkRecorded (next_log l) (uuid_log l) m 0 0 in
  exists r', (replay (ds ++ ds') r) = (r', Ok l) /\
    (exists e, recorded_next r' = (r', Throw e) /\ err_name e = "RangeError") /\
    (exists e, recorded_uuid r' = (r', Throw e) /\ err_name e = "RangeError") /\
    (let mid := (replay ds r).1 in replay ds' (clone mid) = replay ds' mid).
Proof.
  cbv zeta. set (l := live _ _). exists (mkRecorded (next_log l) (uuid_log l) m
    (length (next_log l)) (length (uuid_log l))).
  split; [by apply (replay_suffix _ _ [] [])|]. unfold recorded_next, recorded_uuid. simpl.
  rewrite (lookup_ge_None_2 (next_log l)), (lookup_ge_None_2 (uuid_log l)) by done.
  split; [by eexists|]. split; [by eexists|]. by destruct (replay ds _).1.
Qed.

(** * Identifiers *)

(** The low 16 bits of the third word never reach the identifier: shifting them
    above bit 32 and truncating to 32 bits drops them, and the node field
    starts with four zeros. *)
Lemma uuid_drops_bits a b c c' d : word c -> word c' ->
  Z.shiftr c 16 = Z.shiftr c' 16 -> nibblesToUuid a b c d = nibblesToUuid a b c' d.
Proof.
  intros Hc Hc' E. unfold nibblesToUuid.
  assert (Hn : forall z, u32 (z * 4294967296 + d) = u32 d).
  { intros z. unfold u32. by rewrite Z.add_comm, Z_mod_plus_full. }
  assert (H24 : forall z, word z -> js_ushr z 24 = Z.shiftr (Z.shiftr z 16) 8).
  { intros z Hz. unfold js_ushr. by rewrite u32_small, Z.shiftr_shiftr by (done || lia). }
  assert (H16 : forall z, word z -> js_ushr z 16 = Z.shiftr z 16).
  { intros z Hz. unfold js_ushr. by rewrite u32_small. }
  by rewrite !Hn, (H24 c), (H24 c'), (H16 c), (H16 c'), E by done.
Qed.
