(* ===== verification/FormalSpec.v ===== *)
(** The compiler from axiom specifications to SMT-LIB programs
    ([src/verify/formal/spec-language.ts]).

    The solver that reads the program is a third-party process; the model stops
    at the text handed to it. *)

From S2P Require Import Prelude JsNum.
From Stdlib Require Import Ascii SpecFloat.

Inductive Condition :=
| budget_constraint (child_max_fraction : num)
| scope_subset (parent_scope child_scope : list string)
| no_pii_in_output (pii_count_var : option string)
| cost_positive_roi (min_roi_ratio : num)
| response_time (max_ms : num)
| custom_smt (smt_fragment : string).

Record AxiomSpec := mkSpec {
  axiom : string;
  preconditions : list Condition;
  postconditions : list Condition;
  timeout_ms : option Z
}.

Record CompileContext := mkCtx {
  declared : list string;
  declarations : list string;
  assertions : list string
}.

Definition ensureDecl (decl name : string) (ctx : CompileContext) : CompileContext :=
  if bool_decide (name ∈ declared ctx) then ctx
  else mkCtx (declared ctx ++ [name]) (declarations ctx ++ [decl]) (assertions ctx).

Definition push (a : string) (ctx : CompileContext) : CompileContext :=
  mkCtx (declared ctx) (declarations ctx) (assertions ctx ++ [a]).

(** [(assert ${negated ? `(not ${expr})` : expr})]. *)
Definition assert_expr (negated : bool) (expr : string) : string :=
  ("(assert " ++ (if negated then "(not " ++ expr ++ ")" else expr) ++ ")")%string.

Definition lowerCondition (c : Condition) (negated : bool) (ctx : CompileContext) : CompileContext :=
  match c with
  | budget_constraint f =>
      let ctx := ensureDecl "(declare-const parent_budget Real)" "parent_budget" ctx in
      let ctx := ensureDecl "(declare-const child_budget Real)" "child_budget" ctx in
      let ctx := push "(assert (>= parent_budget 0))" ctx in
      let ctx := push "(assert (>= child_budget 0))" ctx in
      push (assert_expr negated ("(<= child_budget (* parent_budget " ++ num_to_string f ++ "))")) ctx
  | scope_subset parent child =>
      let childOk := forallb (fun s => bool_decide (s ∈ parent)) child in
      push (assert_expr negated (if childOk then "true" else "false")) ctx
  | no_pii_in_output var =>
      let name := default "pii_count" var in
      let ctx := ensureDecl ("(declare-const " ++ name ++ " Int)") name ctx in
      let ctx := push ("(assert (>= " ++ name ++ " 0))") ctx in
      push (assert_expr negated ("(= " ++ name ++ " 0)")) ctx
  | cost_positive_roi r =>
      let ctx := ensureDecl "(declare-const cost Real)" "cost" ctx in
      let ctx := ensureDecl "(declare-const value Real)" "value" ctx in
      let ctx := push "(assert (> cost 0))" ctx in
      let ctx := push "(assert (>= value 0))" ctx in
      push (assert_expr negated ("(>= (/ value cost) " ++ num_to_string r ++ ")")) ctx
  | response_time m =>
      let ctx := ensureDecl "(declare-const response_ms Real)" "response_ms" ctx in
      let ctx := push "(assert (>= response_ms 0))" ctx in
      push (assert_expr negated ("(<= response_ms " ++ num_to_string m ++ ")")) ctx
  | custom_smt frag => push (assert_expr negated (js_trim frag)) ctx
  end%string.

(** [a.slice("(assert ".length, -1)]. *)
Definition assert_body (a : string) : string := String.substring 8 (String.length a - 9) a.

Definition isNegated (a : string) : bool := str_includes "(not " a.

(** The loop over several post-conditions: the side context, whose assertions
    lose the negated bodies, and the bodies collected. *)
Definition lowerPost (st : CompileContext * list string) (post : Condition)
    : CompileContext * list string :=
  let '(subCtx, negatedExprs) := st in
  let before := length (assertions subCtx) in
  let subCtx := lowerCondition post true subCtx in
  let found := List.filter isNegated (drop before (assertions subCtx)) in
  (mkCtx (declared subCtx) (declarations subCtx)
     (List.filter (fun a => negb (isNegated a)) (assertions subCtx)),
   negatedExprs ++ map assert_body found).

(** The declarations and assertions of the program. *)
Definition compileParts (spec : AxiomSpec) : list string * list string :=
  let ctx := fold_left (fun ctx pre => lowerCondition pre false ctx) (preconditions spec)
               (mkCtx [] [] []) in
  let ctx :=
    match postconditions spec with
    | [] => push "(assert false)" ctx
    | [post] => lowerCondition post true ctx
    | posts =>
        let '(subCtx, negatedExprs) :=
          fold_left lowerPost posts (mkCtx (declared ctx) (declarations ctx) [], []) in
        push ("(assert (or " ++ join " " negatedExprs ++ "))")%string
          (mkCtx (declared subCtx) (declarations subCtx) (assertions subCtx))
    end in
  (declarations ctx, assertions ctx).

Definition newline : string := String "010" EmptyString.

Definition compileToSmt (spec : AxiomSpec) : string :=
  let '(decls, asserts) := compileParts spec in
  join newline (["(set-logic ALL)"; ("; AxiomSpec : " ++ axiom spec)%string] ++ decls ++ asserts ++
                ["(check-sat)"; "(get-model)"]).

Definition AXIOM_SPECS : list (string * AxiomSpec) :=
  [("Robuste", mkSpec "Robuste" []
      [budget_constraint (num_of_Z 1); response_time (num_of_Z 30000)] (Some 5000));
   ("Institutionnel", mkSpec "Institutionnel" []
      [no_pii_in_output None; budget_constraint (num_of_Z 1)] (Some 10000));
   ("SOTA", mkSpec "SOTA" [] [cost_positive_roi (num_of_Z 1)] (Some 2000));
   ("AntiFragile", mkSpec "AntiFragile" [] [response_time (num_of_Z 60000)] (Some 1000));
   ("Profitable", mkSpec "Profitable" [] [cost_positive_roi (num_of_decimal 15 1)] (Some 1000))].

Example robuste_ex : (compileParts (snd (hd ("", mkSpec "" [] [] None) AXIOM_SPECS))).2 =
  ["(assert (>= parent_budget 0))"; "(assert (>= child_budget 0))"; "(assert (>= response_ms 0))";
   "(assert (or (not (<= child_budget (* parent_budget 1))) (not (<= response_ms 30000))))"].
Proof. vm_compute. reflexivity. Qed.

(** * What the program asserts *)

(** The assertions one condition adds, whatever has been declared. *)
Definition lowered (negated : bool) (c : Condition) : list string :=
  assertions (lowerCondition c negated (mkCtx [] [] [])).

Lemma ensureDecl_assertions d n ctx : assertions (ensureDecl d n ctx) = assertions ctx.
Proof. unfold ensureDecl. by case_bool_decide. Qed.

Lemma lowerCondition_assertions c negated ctx :
  assertions (lowerCondition c negated ctx) = assertions ctx ++ lowered negated c.
Proof.
  unfold lowered. destruct c; simpl; rewrite ?ensureDecl_assertions; simpl;
    by rewrite <- ?app_assoc.
Qed.

Lemma fold_lower_assertions pres ctx :
  assertions (fold_left (fun ctx pre => lowerCondition pre false ctx) pres ctx) =
  assertions ctx ++ flat_map (lowered false) pres.
Proof.
  revert ctx. induction pres as [|c pres IH]; intros ctx; simpl; [by rewrite app_nil_r|].
  by rewrite IH, lowerCondition_assertions, <- app_assoc.
Qed.

(** Assertions and collected bodies do not depend on what is declared. *)
Lemma fold_lowerPost_agree posts : forall d1 e1 d2 e2 a n,
  let r1 := fold_left lowerPost posts (mkCtx d1 e1 a, n) in
  let r2 := fold_left lowerPost posts (mkCtx d2 e2 a, n) in
  assertions r1.1 = assertions r2.1 /\ r1.2 = r2.2.
Proof.
  induction posts as [|c posts IH]; intros d1 e1 d2 e2 a n; [done|]. cbn [fold_left lowerPost].
  cbv zeta. rewrite !lowerCondition_assertions. simpl. apply IH.
Qed.

(** With at most one post-condition the program asserts what every
    pre-condition says, then the post-condition negated ([false] when there is
    none). With two or more, the pre-conditions leave no assertion at all: the
    program asserts the same whatever they are, so the solver looks for
    violations in states they exclude. *)
Theorem preconditions_dropped (ax : string) (pres posts : list Condition) (t : option Z) :
  let asserted pres := (compileParts (mkSpec ax pres posts t)).2 in
  match posts with
  | [] => asserted pres = flat_map (lowered false) pres ++ ["(assert false)"]
  | [post] => asserted pres = flat_map (lowered false) pres ++ lowered true post
  | _ => forall pres', asserted pres = asserted pres'
  end.
Proof.
  cbv zeta. unfold compileParts. destruct posts as [|post [|post2 posts]]; simpl postconditions.
  - simpl. by rewrite fold_lower_assertions.
  - cbn [snd preconditions]. by rewrite lowerCondition_assertions, fold_lower_assertions.
  - intros pres'. cbn [preconditions].
    set (c1 := fold_left _ pres _). set (c2 := fold_left _ pres' _).
    destruct (fold_lowerPost_agree (post :: post2 :: posts) (declared c1) (declarations c1)
      (declared c2) (declarations c2) [] []) as [E1 E2].
    destruct (fold_left lowerPost _ (mkCtx (declared c1) _ _, _)) as [s1 n1].
    destruct (fold_left lowerPost _ (mkCtx (declared c2) _ _, _)) as [s2 n2].
    simpl in *. by rewrite E1, E2.
Qed.

(** A pre-condition that excludes every state makes the one-post program
    unsatisfiable by its own assertion, and is lost beside two posts. *)
Example excluded_state_lost :
  let pre := custom_smt "false" in
  let p1 := response_time (num_of_Z 5) in
  In "(assert false)" (compileParts (mkSpec "x" [pre] [p1] None)).2 /\
  ~ In "(assert false)" (compileParts (mkSpec "x" [pre] [p1; p1] None)).2.
Proof.
  vm_compute. split; [by left|]. intros H. repeat (destruct H as [H|H]; [discriminate H|]). done.
Qed.
