(* ===== verification/Attenuation.v ===== *)
(** Capability attenuation between agents ([src/mesh/attenuation.ts]): the
    intersection of scopes with wildcards, budgets and expiry dates.

    A [Date] is its time value, [None] when invalid; the clock is an argument.
    Token encoding keeps the fields as they are, dates printed; reading a date
    back ([Date.parse]) is not modelled. *)

From S2P Require Import Prelude JsNum Canonical.
From Stdlib Require Import Ascii SpecFloat.

Record MeshCapabilityScope := mkScope {
  actions : list string;
  budgetEur : num;
  expiresAt : option (option Z)      (** absent, or a [Date] *)
}.

Record AttenuatedToken := mkToken {
  tok_scope : list string;
  tok_budgetEur : num;
  tok_parentId : string;
  tok_expiresAt : option string
}.

(** [s.slice(0, -1)]. *)
Definition slice_last (s : string) : string := String.substring 0 (String.length s - 1) s.

Definition permissionMatches (parentPerm requested : string) : bool :=
  if (parentPerm =? "*")%string || (parentPerm =? requested)%string then true
  else if ends_with ":*" parentPerm then starts_with (slice_last parentPerm) requested
  else false.

(** The loop over the requested actions, with the [Set] of those taken. *)
Definition intersectStep (parent out : list string) (req : string) : list string :=
  if bool_decide (req ∈ out) then out
  else if existsb (fun p => permissionMatches p req) parent then out ++ [req] else out.

Definition intersectActions (parent requested : list string) : list string :=
  fold_left (intersectStep parent) requested [].

(** [Math.min(a.getTime(), b.getTime())] as a [Date]: invalid if either is. *)
Definition date_min (a b : option Z) : option Z :=
  match a, b with Some x, Some y => Some (Z.min x y) | _, _ => None end.

Definition budget_error (who : string) (b : num) : jserror :=
  JsError "RangeError"
    ("attenuateScope: " ++ who ++ ".budgetEur must be ≥ 0, got " ++ num_to_string b)%string.

Definition attenuateScope (parent requested : MeshCapabilityScope) : result MeshCapabilityScope :=
  if negb (is_finite (budgetEur parent)) || num_ltb (budgetEur parent) num_zero
  then Throw (budget_error "parent" (budgetEur parent))
  else if negb (is_finite (budgetEur requested)) || num_ltb (budgetEur requested) num_zero
  then Throw (budget_error "requested" (budgetEur requested))
  else
    let childExpiresAt :=
      match expiresAt parent, expiresAt requested with
      | Some a, Some b => Some (date_min a b)
      | Some a, None => Some a
      | None, Some b => Some b
      | None, None => None
      end in
    Ok (mkScope (intersectActions (actions parent) (actions requested))
          (num_min (budgetEur parent) (budgetEur requested)) childExpiresAt).

(** [scope.expiresAt && scope.expiresAt.getTime() <= Date.now()]. *)
Definition expired (now : Z) (s : MeshCapabilityScope) : bool :=
  match expiresAt s with Some (Some t) => t <=? now | _ => false end.

Definition scopeAllows (now : Z) (s : MeshCapabilityScope) (action : string) : bool :=
  if expired now s then false
  else existsb (fun perm => permissionMatches perm action) (actions s).

Definition buildToken (s : MeshCapabilityScope) (parentId : string) : result AttenuatedToken :=
  if (parentId =? "")%string then
    Throw (JsError "TypeError" "buildToken: parentId must be a non-empty string")
  else
    match expiresAt s with
    | None => Ok (mkToken (actions s) (budgetEur s) parentId None)
    | Some None => Throw (JsError "RangeError" "Invalid time value")
    | Some (Some t) => Ok (mkToken (actions s) (budgetEur s) parentId (Some (iso_string t)))
    end.

(** * Matching *)

Lemma slice_last_snoc p c : slice_last (p ++ String c EmptyString) = p.
Proof.
  unfold slice_last. rewrite str_length_app. simpl. rewrite Nat.add_sub.
  induction p as [|x p IH]; [done|]. exact (f_equal (String x) IH).
Qed.

Lemma slice_last_star ns : slice_last (ns ++ ":*") = (ns ++ ":")%string.
Proof. change ":*" with (":" ++ "*")%string. by rewrite str_app_assoc, slice_last_snoc. Qed.

(** What a permission grants: everything, itself, or a name space. *)
Lemma permissionMatches_iff q a : permissionMatches q a = true <->
  q = "*" \/ q = a \/ exists ns r, q = (ns ++ ":*")%string /\ a = (ns ++ ":" ++ r)%string.
Proof.
  unfold permissionMatches. destruct (String.eqb_spec q "*") as [->|H1]; simpl; [by split; [left|]|].
  destruct (String.eqb_spec q a) as [->|H2]; [by split; [right; left|]|].
  destruct (ends_with ":*" q) eqn:He.
  - apply ends_with_iff in He as [ns ->]. rewrite slice_last_star, starts_with_iff. split.
    + intros [r ->]. right. right. exists ns, r. by rewrite <- str_app_assoc.
    + intros [?|[?|(ns' & r & E & ->)]]; [done..|].
      assert (E' : (ns ++ ":" = ns' ++ ":")%string) by (by rewrite <- !slice_last_star, E).
      rewrite E'. exists r. by rewrite <- str_app_assoc.
  - split; [done|]. intros [?|[?|(ns & r & -> & _)]]; [done..|].
    by rewrite (proj2 (ends_with_iff ":*" _)) in He by eauto.
Qed.

Lemma colon_not_star ns r : (ns ++ ":" ++ r)%string <> "*".
Proof. destruct ns as [|c [|c' ns]]; by intros [=]. Qed.

Lemma colon_prefix x y r : (x ++ ":" ++ r = y ++ ":*")%string ->
  exists t, (y ++ ":" = x ++ ":" ++ t)%string.
Proof.
  revert y. induction x as [|c x IH]; intros y E.
  - destruct y as [|c y]; [by exists ""|]. injection E as <- _. by exists (y ++ ":")%string.
  - destruct y as [|c' y].
    + injection E as -> E. by destruct (colon_not_star x r).
    + injection E as <- E. destruct (IH y E) as [t Ht]. exists t. exact (f_equal (String c) Ht).
Qed.

(** A permission that covers a permission covers what it grants. *)
Lemma permissionMatches_trans q p a :
  permissionMatches q p = true -> permissionMatches p a = true -> permissionMatches q a = true.
Proof.
  rewrite !permissionMatches_iff. intros [->|[->|(ns & r & -> & ->)]] Hp; [by left|done|].
  right. right. destruct Hp as [E|[<-|(ns2 & r2 & E & ->)]].
  - by destruct (colon_not_star ns r).
  - eauto.
  - destruct (colon_prefix _ _ _ E) as [t Ht]. exists ns, (t ++ r2)%string. split; [done|].
    by rewrite (str_app_assoc ns2), Ht, <- !str_app_assoc.
Qed.

Lemma intersectActions_spec parent requested a : a ∈ intersectActions parent requested <->
  a ∈ requested /\ existsb (fun p => permissionMatches p a) parent = true.
Proof.
  unfold intersectActions. assert (Hgo : forall out, a ∈ fold_left (intersectStep parent) requested out <->
      a ∈ out \/ (a ∈ requested /\ existsb (fun p => permissionMatches p a) parent = true)).
  { induction requested as [|x l IH]; intros out; simpl.
    - rewrite elem_of_nil. tauto.
    - rewrite IH. unfold intersectStep. rewrite elem_of_cons. case_bool_decide as Hx.
      + destruct (decide (a = x)) as [->|]; tauto.
      + destruct (existsb (fun p => permissionMatches p x) parent) eqn:Ex.
        * rewrite elem_of_app, list_elem_of_singleton. intuition (subst; auto).
        * intuition (subst; congruence). }
  rewrite Hgo, elem_of_nil. tauto.
Qed.

(** * Attenuation *)

(** The dates present are valid. *)
Definition dates_valid (s : MeshCapabilityScope) : Prop := expiresAt s <> Some None.

(** [child] is within [s]: no action, no budget and no time beyond it. *)
Definition within (child s : MeshCapabilityScope) : Prop :=
  (forall now action, scopeAllows now child action = true -> scopeAllows now s action = true) /\
  num_ltb (budgetEur s) (budgetEur child) = false.

Lemma finite_not_nan x : is_finite x = true -> is_nan x = false.
Proof. by destruct x. Qed.

Lemma attenuateScope_ok parent requested child :
  attenuateScope parent requested = Ok child ->
  actions child = intersectActions (actions parent) (actions requested) /\
  is_finite (budgetEur parent) = true /\ is_finite (budgetEur requested) = true /\
  budgetEur child = num_min (budgetEur parent) (budgetEur requested) /\
  expiresAt child = match expiresAt parent, expiresAt requested with
                    | Some a, Some b => Some (date_min a b)
                    | Some a, None => Some a
                    | None, e => e
                    end.
Proof.
  unfold attenuateScope. destruct (is_finite (budgetEur parent)); [|done].
  destruct (num_ltb (budgetEur parent) _); [done|]. simpl.
  destruct (is_finite (budgetEur requested)); [|done].
  destruct (num_ltb (budgetEur requested) _); [done|]. intros [= <-]. simpl.
  by destruct (expiresAt parent), (expiresAt requested).
Qed.

Lemma scopeAllows_iff now s a : scopeAllows now s a = true <->
  expired now s = false /\ exists p, p ∈ actions s /\ permissionMatches p a = true.
Proof. unfold scopeAllows. rewrite <- existsb_true_iff. destruct (expired now s); naive_solver. Qed.

Lemma attenuateScope_within parent requested child :
  attenuateScope parent requested = Ok child -> dates_valid parent -> dates_valid requested ->
  within child parent /\ within child requested /\ dates_valid child.
Proof.
  intros (Ha & Hp & Hr & Hb & He)%attenuateScope_ok Vp Vr.
  destruct (num_min_nlt _ _ _ (finite_not_nan _ Hp) (finite_not_nan _ Hr) (eq_sym Hb)) as [B1 B2].
  assert (Hexp : forall now, expired now child = false ->
    expired now parent = false /\ expired now requested = false).
  { intros now. unfold expired, dates_valid in *. rewrite He.
    destruct (expiresAt parent) as [[x|]|], (expiresAt requested) as [[y|]|]; try done; simpl.
    rewrite !Z.leb_gt. lia. }
  split_and!; [split; [|done]|split; [|done]|].
  - intros now a. rewrite !scopeAllows_iff. intros [Hx (p & Hin & Hm)].
    split; [by apply Hexp|]. rewrite Ha, intersectActions_spec, existsb_true_iff in Hin.
    destruct Hin as [_ (q & Hq & Hqp)]. exists q. split; [done|]. by eapply permissionMatches_trans.
  - intros now a. rewrite !scopeAllows_iff. intros [Hx (p & Hin & Hm)].
    split; [by apply Hexp|]. rewrite Ha, intersectActions_spec in Hin.
    exists p. by split; [apply Hin|].
  - unfold dates_valid in *. rewrite He.
    by destruct (expiresAt parent) as [[x|]|], (expiresAt requested) as [[y|]|].
Qed.

Lemma within_trans a b c : is_nan (budgetEur a) = false -> is_nan (budgetEur b) = false ->
  is_nan (budgetEur c) = false -> within a b -> within b c -> within a c.
Proof.
  intros Ha Hb Hc [A1 B1] [A2 B2]. split; [by auto|].
  by apply (num_nlt_trans _ (budgetEur b)).
Qed.

(** A chain of delegations, each asking for a scope under the last one. *)
Fixpoint attenuateAll (parent : MeshCapabilityScope) (requests : list MeshCapabilityScope)
    : result MeshCapabilityScope :=
  match requests with
  | [] => Ok parent
  | r :: rs => c ← attenuateScope parent r; attenuateAll c rs
  end.

Lemma attenuateAll_within requests : forall parent child,
  attenuateAll parent requests = Ok child -> dates_valid parent -> Forall dates_valid requests ->
  is_nan (budgetEur parent) = false ->
  within child parent /\ Forall (within child) requests /\ is_nan (budgetEur child) = false.
Proof.
  induction requests as [|r rs IH]; intros parent child; cbn [attenuateAll].
  { intros [= <-] _ _ Hn. split_and!; [|constructor|done]. split; [done|apply num_ltb_irrefl]. }
  intros (c & Hc & Hall)%result_bind_ok Vp [Vr Vrs]%Forall_cons Hn.
  destruct (attenuateScope_within _ _ _ Hc Vp Vr) as (Wp & Wr & Vc).
  apply attenuateScope_ok in Hc as (_ & Fp & Fr & Hb & _).
  assert (Hcn : is_nan (budgetEur c) = false).
  { rewrite Hb. apply num_min_not_nan; by apply finite_not_nan. }
  destruct (IH c child Hall Vc Vrs Hcn) as (Wc & Wrs & Hn').
  split_and!; [|constructor; [|done]|done].
  - by apply (within_trans child c parent).
  - apply (within_trans child c r); [done|done|by apply finite_not_nan|done..].
Qed.

(** Along any chain of delegations with valid dates, the last scope is
    within the first one and within everything asked for on the way: whatever
    it allows, wildcards included, at any time, they all allow, and its budget
    is not above theirs. *)
Theorem attenuation_narrows (parent : MeshCapabilityScope) (requests : list MeshCapabilityScope)
    (child : MeshCapabilityScope) (Hn : is_nan (budgetEur parent) = false)
    (Vp : dates_valid parent) (Vr : Forall dates_valid requests)
    (Hc : attenuateAll parent requests = Ok child) :
  within child parent /\ Forall (within child) requests.
Proof. by destruct (attenuateAll_within requests parent child) as (? & ? & _). Qed.

Definition orNoScope (r : result MeshCapabilityScope) : MeshCapabilityScope :=
  match r with Ok s => s | Throw _ => mkScope [] num_zero None end.

Definition rootScope : MeshCapabilityScope := mkScope ["brain:*"; "vault:read"] (num_of_Z 10) (Some (Some 100)).
Definition askScopes : list MeshCapabilityScope :=
  [mkScope ["brain:mem:*"; "vault:*"] (num_of_Z 20) None;
   mkScope ["brain:mem:read"; "vault:read"] (num_of_Z 5) (Some (Some 200))].

Lemma attenuation_narrows_witness :
  actions (orNoScope (attenuateAll rootScope askScopes)) = ["brain:mem:read"] /\
  within (orNoScope (attenuateAll rootScope askScopes)) rootScope.
Proof.
  split; [vm_compute; reflexivity|].
  refine (proj1 (attenuation_narrows rootScope askScopes _ _ _ _ _)); try reflexivity.
  - by intros [=].
  - repeat constructor; by intros [=].
Defined.

(** The hypothesis on dates is needed: [Math.min] of an invalid date is
    invalid, and an invalid date never expires, so a request with an invalid
    date yields a scope that outlives its parent. *)
Example invalid_date_escapes :
  let parent := mkScope ["*"] (num_of_Z 1) (Some (Some 100)) in
  let child := orNoScope (attenuateScope parent (mkScope ["pay"] (num_of_Z 1) (Some None))) in
  scopeAllows 101 parent "pay" = false /\ scopeAllows 101 child "pay" = true.
Proof. vm_compute. split; reflexivity. Qed.
