(* ===== verification/Veto.v ===== *)
(** The veto window before tool calls ([src/remote/veto.ts]): signals that may
    come before or after the loop waits for them, and the timer that closes the
    wait.

    Every [await] makes a promise, numbered in order; an event is a signal, an
    await, or a timer going off. *)

From S2P Require Import Prelude.

Record VetoSignal := { vs_callId : string; vs_by : string; vs_reason : option string; vs_at : string }.

(** The channel's two maps, the timers still armed with the call they wait
    for, and what the promises made so far were resolved with. *)
Record channel := mkChannel {
  buffered : list (string * VetoSignal);
  waiters : list (string * nat);
  timers : list (nat * string);
  resolved : list (nat * option VetoSignal);
  promises : nat
}.

Definition channel_init : channel := mkChannel [] [] [] [] 0.

Definition submit (sig : VetoSignal) (ch : channel) : channel :=
  match om_get (vs_callId sig) (waiters ch) with
  | Some p =>
      mkChannel (buffered ch) (om_delete (vs_callId sig) (waiters ch)) (om_delete p (timers ch))
        (om_set p (Some sig) (resolved ch)) (promises ch)
  | None =>
      mkChannel (om_set (vs_callId sig) sig (buffered ch)) (waiters ch) (timers ch) (resolved ch)
        (promises ch)
  end.

Definition await_veto (callId : string) (windowMs : Z) (ch : channel) : channel :=
  let p := promises ch in
  match om_get callId (buffered ch) with
  | Some sig =>
      mkChannel (om_delete callId (buffered ch)) (waiters ch) (timers ch)
        (om_set p (Some sig) (resolved ch)) (S p)
  | None =>
      if windowMs <=? 0 then
        mkChannel (buffered ch) (waiters ch) (timers ch) (om_set p None (resolved ch)) (S p)
      else
        mkChannel (buffered ch) (om_set callId p (waiters ch)) (om_set p callId (timers ch))
          (resolved ch) (S p)
  end.

(** The timer of promise [p]: it closes the wait registered for the call, if
    there is one. *)
Definition fire (p : nat) (ch : channel) : channel :=
  match om_get p (timers ch) with
  | None => ch
  | Some callId =>
      match om_get callId (waiters ch) with
      | Some _ =>
          mkChannel (buffered ch) (om_delete callId (waiters ch)) (om_delete p (timers ch))
            (om_set p None (resolved ch)) (promises ch)
      | None =>
          mkChannel (buffered ch) (waiters ch) (om_delete p (timers ch)) (resolved ch) (promises ch)
      end
  end.

Definition pendingCount (ch : channel) : Z := Z.of_nat (length (buffered ch)).

(** One await at a time for a call. *)
Inductive vstep (ch : channel) : channel -> Prop :=
| v_submit sig : vstep ch (submit sig ch)
| v_await c w : om_get c (waiters ch) = None -> vstep ch (await_veto c w ch)
| v_fire p : vstep ch (fire p ch).

(** A promise that has been made and not resolved. *)
Definition pending (p : nat) (ch : channel) : Prop :=
  (p < promises ch)%nat /\ om_get p (resolved ch) = None.

Record veto_inv (ch : channel) : Prop := {
  vi_pending : forall p, pending p ch <-> is_Some (om_get p (timers ch));
  vi_paired : forall p c, om_get p (timers ch) = Some c <-> om_get c (waiters ch) = Some p;
  vi_apart : forall c p, om_get c (waiters ch) = Some p -> om_get c (buffered ch) = None;
  vi_fresh : forall p, (promises ch <= p)%nat -> om_get p (resolved ch) = None;
  vi_nodup : NoDup (timers ch).*1 /\ NoDup (waiters ch).*1 /\ NoDup (buffered ch).*1
}.

Lemma om_get_delete {K V} `{EqDecision K} (k k' : K) (m : list (K * V)) : NoDup m.*1 ->
  om_get k' (om_delete k m) = if decide (k' = k) then None else om_get k' m.
Proof.
  intros Hn. case_decide as E; [subst; by apply om_get_delete_eq|by apply om_get_delete_ne].
Qed.

Lemma init_inv : veto_inv channel_init.
Proof.
  split; try done; [|split_and!; constructor]. intros p. split; [intros [? _]; simpl in *; lia|].
  by intros [? ?].
Qed.

(** Resolving the promise that waits for call [c]. *)
Lemma resolve_inv ch p c v : veto_inv ch -> om_get p (timers ch) = Some c ->
  veto_inv (mkChannel (buffered ch) (om_delete c (waiters ch)) (om_delete p (timers ch))
              (om_set p v (resolved ch)) (promises ch)).
Proof.
  intros [Hp Hpair Hap Hfr (Nt & Nw & Nb)] Ht. assert (Hw := proj1 (Hpair p c) Ht).
  assert (Hpp : pending p ch) by (apply Hp; eauto).
  split; simpl; [..|split_and!; auto with js].
  - intros p'. unfold pending. simpl. rewrite om_get_delete by done.
    destruct (decide (p' = p)) as [->|Hne]; [|rewrite om_get_set_ne by congruence; exact (Hp p')].
    rewrite om_get_set_eq. split; [by intros [_ ?]|by intros [? ?]].
  - intros p' c'. rewrite !om_get_delete by done.
    destruct (decide (p' = p)) as [->|Hp'], (decide (c' = c)) as [->|Hc']; try done.
    + split; [done|]. rewrite <- Hpair, Ht. congruence.
    + split; [|done]. rewrite Hpair, Hw. congruence.
  - intros c' p'. rewrite om_get_delete by done. case_decide; [done|]. apply Hap.
  - intros p' Hp'. rewrite om_get_set. case_decide as E; [|by apply Hfr].
    subst p'. destruct Hpp. lia.
Qed.

Lemma submit_inv sig ch : veto_inv ch -> veto_inv (submit sig ch).
Proof.
  intros Hi. unfold submit. destruct (om_get _ (waiters ch)) as [p|] eqn:Hw.
  - apply resolve_inv; [done|]. by apply Hi.
  - destruct Hi as [Hp Hpair Hap Hfr (Nt & Nw & Nb)].
    split; simpl; [exact Hp|exact Hpair| |exact Hfr|split_and!; auto with js].
    intros c p Hc. rewrite om_get_set_ne by congruence. by eapply Hap.
Qed.

Lemma fire_inv p ch : veto_inv ch -> veto_inv (fire p ch).
Proof.
  intros Hi. unfold fire. destruct (om_get p (timers ch)) as [c|] eqn:Ht; [|done].
  assert (Hw : om_get c (waiters ch) = Some p) by (by apply Hi). rewrite Hw.
  by apply resolve_inv.
Qed.

(** A promise resolved as soon as it is made. *)
Lemma immediate_inv ch b v : veto_inv ch -> NoDup b.*1 ->
  (forall c, om_get c b = None \/ om_get c b = om_get c (buffered ch)) ->
  veto_inv (mkChannel b (waiters ch) (timers ch) (om_set (promises ch) v (resolved ch))
              (S (promises ch))).
Proof.
  intros [Hp Hpair Hap Hfr (Nt & Nw & Nb)] Hb Hsub.
  split; simpl; [|exact Hpair|..|split_and!; auto with js].
  - intros p. unfold pending in *. simpl. rewrite om_get_set, <- Hp. case_decide as E.
    + subst p. split; [by intros [_ ?]|]. intros [? _]. lia.
    + split; intros [? ?]; (split; [lia|done]).
  - intros c p Hc. apply Hap in Hc. destruct (Hsub c); congruence.
  - intros p Hle. rewrite om_get_set_ne by lia. apply Hfr. lia.
Qed.

Lemma await_inv c w ch : veto_inv ch -> om_get c (waiters ch) = None -> veto_inv (await_veto c w ch).
Proof.
  intros Hi Hnone. unfold await_veto. pose proof (vi_nodup _ Hi) as (_ & _ & Nb).
  destruct (om_get c (buffered ch)) as [sig|] eqn:Hb.
  { apply immediate_inv; [done|auto with js|]. intros c'. rewrite om_get_delete by done.
    case_decide; auto. }
  destruct (w <=? 0); [apply immediate_inv; auto|].
  destruct Hi as [Hp Hpair Hap Hfr (Nt & Nw & _)].
  assert (Hfresh : om_get (promises ch) (timers ch) = None).
  { destruct (om_get (promises ch) (timers ch)) eqn:E; [|done].
    destruct (proj2 (Hp (promises ch)) ltac:(eauto)). lia. }
  split; simpl; [..|split_and!; auto with js].
  - intros p. unfold pending in *. simpl. rewrite om_get_set. case_decide as E.
    + subst p. split; [eauto|]. intros _. split; [lia|]. by apply Hfr.
    + rewrite <- Hp. split; intros [? ?]; (split; [lia|done]).
  - intros p c'. rewrite !om_get_set.
    destruct (decide (promises ch = p)) as [<-|Hp'], (decide (c = c')) as [<-|Hc']; try done.
    + split; [congruence|]. rewrite <- Hpair, Hfresh. done.
    + split; [|congruence]. rewrite Hpair, Hnone. done.
  - intros c' p. rewrite om_get_set. case_decide; [by subst|]. apply Hap.
  - intros p Hle. apply Hfr. lia.
Qed.

Lemma veto_reachable ch : rtc vstep channel_init ch -> veto_inv ch.
Proof.
  apply (rtc_ind_r veto_inv); [apply init_inv|]. intros ch1 ch2 _ Hst Hi.
  destruct Hst; [by apply submit_inv|by apply await_inv|by apply fire_inv].
Qed.

(** With at most one await at a time per call, no veto is lost and no wait
    hangs: every pending wait has its timer armed, which resolves it with
    [null]; a signal for its call resolves it with that signal; a signal never
    sits in the buffer while its call waits, and one that came first answers
    the next await at once. *)
Theorem veto_settles (ch : channel) (Hr : rtc vstep channel_init ch) :
  (forall p, pending p ch -> exists c, om_get p (timers ch) = Some c /\
     om_get p (resolved (fire p ch)) = Some None /\
     om_get c (buffered ch) = None /\
     (forall sig, vs_callId sig = c -> om_get p (resolved (submit sig ch)) = Some (Some sig))) /\
  (forall sig w, om_get (vs_callId sig) (waiters ch) = None ->
     om_get (promises ch) (resolved (await_veto (vs_callId sig) w (submit sig ch))) = Some (Some sig)).
Proof.
  pose proof (veto_reachable ch Hr) as Hi. split.
  - intros p Hp. destruct (proj1 (vi_pending _ Hi p) Hp) as [c Hc].
    pose proof (proj1 (vi_paired _ Hi p c) Hc) as Hw. exists c. split; [done|]. split.
    { unfold fire. rewrite Hc, Hw. simpl. apply om_get_set_eq. }
    split; [by eapply (vi_apart _ Hi)|]. intros sig <-. unfold submit. rewrite Hw. simpl.
    apply om_get_set_eq.
  - intros sig w Hn. unfold submit. rewrite Hn. unfold await_veto. simpl.
    rewrite om_get_set_eq. simpl. apply om_get_set_eq.
Qed.

Definition stop (c : string) : VetoSignal :=
  {| vs_callId := c; vs_by := "remote-http"; vs_reason := None; vs_at := "t" |}.

Lemma veto_settles_witness :
  promises (await_veto "a" 50 (submit (stop "b") channel_init)) = 1%nat /\
  exists c, om_get 0%nat (timers (await_veto "a" 50 (submit (stop "b") channel_init))) = Some c.
Proof.
  split; [reflexivity|].
  assert (Hr : rtc vstep channel_init (await_veto "a" 50 (submit (stop "b") channel_init))).
  { eapply rtc_r; [eapply rtc_r; [apply rtc_refl|apply v_submit]|by apply v_await]. }
  destruct (proj1 (veto_settles _ Hr) 0%nat) as (c & Hc & _); [|by exists c].
  split; [simpl; lia|reflexivity].
Defined.

(** Two awaits for one call: the second replaces the first in the map of
    waiters, and when both timers have gone off one promise is still pending,
    with no timer and no waiter left to resolve it. *)
Example duplicate_await_hangs :
  let ch := fire 1 (fire 0 (await_veto "a" 50 (await_veto "a" 50 channel_init))) in
  pending 1 ch /\ timers ch = [] /\ waiters ch = [].
Proof. vm_compute. split; [split; [lia|done]|done]. Qed.
