(* ===== verification/Battery.v ===== *)
(** The verifier battery ([src/compute/battery/battery.ts],
    [src/compute/battery/types.ts], [src/compute/verifier.ts]): governed
    rejection sampling over a set of candidates.

    Lenses are caller code: a lens's [evaluate] is a function from a candidate
    to what it answers.  Candidates have any type with a JavaScript value. *)

From S2P Require Import Prelude JsNum JsValue Canonical.

Inductive LensEngine := rule | smt | execution | retrieval | statistical | llm_judge.
Inductive Polarity := affirm | refute.
Inductive Criticality := hard | soft | advisory.

#[export] Instance LensEngine_eq_dec : EqDecision LensEngine.
Proof. solve_decision. Defined.
#[export] Instance Polarity_eq_dec : EqDecision Polarity.
Proof. solve_decision. Defined.
#[export] Instance Criticality_eq_dec : EqDecision Criticality.
Proof. solve_decision. Defined.

Definition engine_name (e : LensEngine) : string :=
  match e with
  | rule => "rule" | smt => "smt" | execution => "execution" | retrieval => "retrieval"
  | statistical => "statistical" | llm_judge => "llm-judge"
  end.
Definition polarity_name (p : Polarity) : string :=
  match p with affirm => "affirm" | refute => "refute" end.
Definition criticality_name (c : Criticality) : string :=
  match c with hard => "hard" | soft => "soft" | advisory => "advisory" end.

(** * Verifier results, as untrusted code returns them *)

(** A [score] that is a number, or something else with its [String(...)]; a
    [rationale] that is a string, or something else with its [typeof]. *)
Inductive RawScore := ScoreNum (x : num) | ScoreOther (text : string).
Inductive RawRationale := RatStr (s : string) | RatOther (typeof : string).
Inductive RawResult :=
| NotAnObject (typeof : string)                 (** [null] included *)
| ResultObj (score : RawScore) (rationale : RawRationale).

Record VerifierResult := mkResult { score : num; rationale : string }.

Definition TypeError (msg : string) : jserror := JsError "TypeError" msg.

Definition raw_text (s : RawScore) : string :=
  match s with ScoreNum x => num_to_string x | ScoreOther t => t end.

Definition score_valid (s : RawScore) : option num :=
  match s with
  | ScoreNum x =>
      if negb (is_finite x) || num_ltb x num_zero || num_gtb x num_one then None else Some x
  | ScoreOther _ => None
  end.

(** [assertVerifierResult], returning the result it has checked. *)
Definition assertVerifierResult (r : RawResult) : result VerifierResult :=
  match r with
  | NotAnObject t => Throw (TypeError ("assertVerifierResult: expected an object, got " ++ t)%string)
  | ResultObj s rt =>
      match score_valid s with
      | None => Throw (TypeError
          ("assertVerifierResult: score must be a finite number in [0,1], got " ++ raw_text s)%string)
      | Some x =>
          match rt with
          | RatOther t => Throw (TypeError
              ("assertVerifierResult: rationale must be a string, got " ++ t)%string)
          | RatStr w => Ok (mkResult x w)
          end
      end
  end.

(** * Lenses, verdicts, decisions *)

Record BatteryLens (T : Type) := {
  l_name : string;
  l_evaluate : T -> result RawResult;
  l_polarity : Polarity;
  l_criticality : Criticality;
  l_engine : LensEngine;
  l_model : option string
}.
Arguments l_name {T} _.
Arguments l_evaluate {T} _ _.
Arguments l_polarity {T} _.
Arguments l_criticality {T} _.
Arguments l_engine {T} _.
Arguments l_model {T} _.

Record LensVerdict := mkLensVerdict {
  lv_lens : string;
  lv_polarity : Polarity;
  lv_criticality : Criticality;
  lv_engine : LensEngine;
  lv_rawScore : num;
  lv_fired : bool;
  lv_rationale : string
}.

Record CandidateVerdict := mkVerdict {
  candidateIndex : Z;
  candidateHash : string;
  lensVerdicts : list LensVerdict;
  killed : bool;
  killReason : option string;
  compositeScore : num
}.

Record RejectedCandidate := mkRejected {
  rj_index : Z;
  rj_hash : string;
  rj_reason : string
}.

Record BatteryTraceStep := {
  as_runId : string;
  as_guardName : string;
  as_timestamp : Z;
  as_durationMs : Z;
  as_inputHash : string;
  as_outputHash : string
}.

Record BatteryDecision (T : Type) := {
  d_accepted : option T;
  d_acceptedIndex : option Z;
  d_acceptedHash : option string;
  d_acceptedScore : option num;
  d_verdicts : list CandidateVerdict;
  d_rejected : list RejectedCandidate;
  d_adrEco : string;
  d_voteThreshold : num;
  d_auditStep : BatteryTraceStep
}.
Arguments d_accepted {T} _.
Arguments d_acceptedIndex {T} _.
Arguments d_acceptedHash {T} _.
Arguments d_acceptedScore {T} _.
Arguments d_verdicts {T} _.
Arguments d_rejected {T} _.
Arguments d_adrEco {T} _.
Arguments d_voteThreshold {T} _.
Arguments d_auditStep {T} _.

(** * The governance core's JavaScript value *)

Definition opt_str (o : option string) : jsval :=
  match o with Some s => JStr s | None => JNull end.
Definition opt_num (o : option num) : jsval :=
  match o with Some x => JNum x | None => JNull end.
Definition opt_int (o : option Z) : jsval :=
  match o with Some z => JNum (num_of_Z z) | None => JNull end.

Definition lensVerdict_val (v : LensVerdict) : jsval :=
  JObj [("lens", JStr (lv_lens v)); ("polarity", JStr (polarity_name (lv_polarity v)));
        ("criticality", JStr (criticality_name (lv_criticality v)));
        ("engine", JStr (engine_name (lv_engine v))); ("rawScore", JNum (lv_rawScore v));
        ("fired", JBool (lv_fired v)); ("rationale", JStr (lv_rationale v))].

Definition verdict_val (v : CandidateVerdict) : jsval :=
  JObj [("candidateIndex", JNum (num_of_Z (candidateIndex v)));
        ("candidateHash", JStr (candidateHash v));
        ("lensVerdicts", JArr (map lensVerdict_val (lensVerdicts v)));
        ("killed", JBool (killed v)); ("killReason", opt_str (killReason v));
        ("compositeScore", JNum (compositeScore v))].

Definition rejected_val (r : RejectedCandidate) : jsval :=
  JObj [("candidateIndex", JNum (num_of_Z (rj_index r))); ("candidateHash", JStr (rj_hash r));
        ("reason", JStr (rj_reason r))].

Record GateDecisionCore := mkCore {
  gc_adrEco : string;
  gc_voteThreshold : num;
  gc_acceptedIndex : option Z;
  gc_acceptedHash : option string;
  gc_acceptedScore : option num;
  gc_verdicts : list CandidateVerdict;
  gc_rejected : list RejectedCandidate
}.

Definition GATE_DECISION_KIND : string := "verifier-battery".

Definition core_val (c : GateDecisionCore) : jsval :=
  JObj [("kind", JStr GATE_DECISION_KIND); ("adrEco", JStr (gc_adrEco c));
        ("voteThreshold", JNum (gc_voteThreshold c));
        ("acceptedIndex", opt_int (gc_acceptedIndex c));
        ("acceptedHash", opt_str (gc_acceptedHash c));
        ("acceptedScore", opt_num (gc_acceptedScore c));
        ("verdicts", JArr (map verdict_val (gc_verdicts c)));
        ("rejected", JArr (map rejected_val (gc_rejected c)))].

(** * runVerifierBattery *)

Definition VERIFIER_BATTERY_GUARD : string := "verifier-battery".

Definition BatteryGovernanceError (reason : string) : jserror :=
  JsError "BatteryGovernanceError" ("BatteryGovernanceError: " ++ reason)%string.

Definition clamp01 (x : num) : num :=
  if num_ltb x num_zero then num_zero else if num_gtb x num_one then num_one else x.

Definition mean (xs : list num) : num :=
  if (length xs =? 0)%nat then num_zero
  else num_div (fold_left num_add xs num_zero) (num_of_Z (Z.of_nat (length xs))).

(** Whether a lens fires on a score. *)
Definition lens_fires (p : Polarity) (voteThreshold score : num) : bool :=
  match p with
  | affirm => num_ltb score voteThreshold
  | refute => num_geb score voteThreshold
  end.

(** What the loop over the lenses accumulates for one candidate. *)
Record judging := mkJudging {
  j_affirmScores : list num;
  j_refuteScores : list num;
  j_hardKill : option string;        (** [hardKilled], with its reason *)
  j_refuteFired : Z;
  j_refuteGating : Z
}.

Definition judging0 : judging := mkJudging [] [] None 0 0.

Definition or_else (o : option string) (s : string) : option string :=
  match o with Some t => Some t | None => Some s end.

(** One lens's contribution to a candidate's verdict. *)
Definition judgeLens (vt : num) (v : LensVerdict) (j : judging) : judging :=
  let hardFires := bool_decide (lv_criticality v = hard) && lv_fired v in
  match lv_criticality v with
  | advisory => j
  | _ =>
      match lv_polarity v with
      | affirm =>
          mkJudging (j_affirmScores j ++ [lv_rawScore v]) (j_refuteScores j)
            (if hardFires then or_else (j_hardKill j)
               ("hard affirm lens " ++ quoted (lv_lens v) ++ " withheld approval (score " ++
                num_to_string (lv_rawScore v) ++ " < " ++ num_to_string vt ++ ")")%string
             else j_hardKill j)
            (j_refuteFired j) (j_refuteGating j)
      | refute =>
          mkJudging (j_affirmScores j) (j_refuteScores j ++ [lv_rawScore v])
            (if hardFires then or_else (j_hardKill j)
               ("hard refute lens " ++ quoted (lv_lens v) ++ " fired (score " ++
                num_to_string (lv_rawScore v) ++ " >= " ++ num_to_string vt ++ ")")%string
             else j_hardKill j)
            (j_refuteFired j + (if lv_fired v then 1 else 0)) (j_refuteGating j + 1)
      end
  end.

Definition lensVerdictOf {T} (vt : num) (lens : BatteryLens T) (r : VerifierResult) : LensVerdict :=
  mkLensVerdict (l_name lens) (l_polarity lens) (l_criticality lens) (l_engine lens) (score r)
    (lens_fires (l_polarity lens) vt (score r)) (rationale r).

Definition quorumKilled (j : judging) : bool :=
  (2 <=? j_refuteGating j) && (j_refuteGating j <? j_refuteFired j * 2).

Definition compositeOf (j : judging) : num :=
  let affirmMean := match j_affirmScores j with [] => num_one | l => mean l end in
  let refuteMean := match j_refuteScores j with [] => num_zero | l => mean l end in
  clamp01 (num_mul affirmMean (num_sub num_one refuteMean)).

Definition judgeCandidate (vt : num) (i : Z) (h : string) (lvs : list LensVerdict) : CandidateVerdict :=
  let j := fold_left (fun j v => judgeLens vt v j) lvs judging0 in
  let hardKilled := match j_hardKill j with Some _ => true | None => false end in
  mkVerdict i h lvs (hardKilled || quorumKilled j)
    (match j_hardKill j with
     | Some r => Some r
     | None =>
         if quorumKilled j then
           Some ("refute quorum: " ++ str_of_Z (j_refuteFired j) ++ "/" ++
                 str_of_Z (j_refuteGating j) ++ " refute lenses fired")%string
         else None
     end)
    (compositeOf j).

(** The argmax loop: highest composite among survivors, ties to the lowest index. *)
Definition selectStep (acc : option (Z * num)) (v : CandidateVerdict) : option (Z * num) :=
  if killed v then acc
  else match acc with
       | None => Some (candidateIndex v, compositeScore v)
       | Some (_, s) =>
           if num_gtb (compositeScore v) s then Some (candidateIndex v, compositeScore v) else acc
       end.

Definition selectVerdict (vs : list CandidateVerdict) : option (Z * num) :=
  fold_left selectStep vs None.

(** [v.candidateIndex === acceptedIndex]. *)
Definition isAccepted (acceptedIndex : option Z) (i : Z) : bool :=
  match acceptedIndex with Some a => i =? a | None => false end.

(** Reject-as-proof: every non-accepted candidate, with its reason. *)
Definition rejectedOf (acc : option (Z * num)) (vs : list CandidateVerdict) : list RejectedCandidate :=
  map (fun v => mkRejected (candidateIndex v) (candidateHash v)
        (if killed v then ("killed: " ++ default "null" (killReason v))%string
         else ("not-selected: composite " ++ num_to_string (compositeScore v) ++ " < accepted " ++
               match acc with Some (_, s) => num_to_string s | None => "null" end)%string))
    (List.filter (fun v => negb (isAccepted (fst <$> acc) (candidateIndex v))) vs).

(** [for each item: await f(item)], stopping at the first failure. *)
Fixpoint map_result {A B} (f : A -> result B) (l : list A) : result (list B) :=
  match l with
  | [] => Ok []
  | x :: l' => y ← f x; ys ← map_result f l'; Ok (y :: ys)
  end.

Section Run.
Context `{Hashing} {T : Type} (to_val : T -> jsval).

Definition evalLens (vt : num) (aborted : bool) (c : T) (l : BatteryLens T) : result LensVerdict :=
  _ ← throw_if aborted (JsError "Error" "aborted");
  raw ← l_evaluate l c;
  r ← assertVerifierResult raw;
  Ok (lensVerdictOf vt l r).

Definition guards (n : nat) (lenses : list (BatteryLens T)) (runId adrEco : string) (vt : num)
    : result unit :=
  _ ← throw_if (is_blank adrEco) (BatteryGovernanceError
    "adrEco is mandatory: a battery with no governing decision record is not auditable");
  _ ← throw_if (is_blank runId) (BatteryGovernanceError "runId is mandatory (anti-splice AR6)");
  _ ← throw_if (n <? 1)%nat (BatteryGovernanceError "at least 1 candidate is required");
  _ ← throw_if (length lenses <? 1)%nat (BatteryGovernanceError "at least 1 lens is required");
  _ ← throw_if (negb (existsb (fun l => negb (bool_decide (l_criticality l = advisory))) lenses))
    (BatteryGovernanceError ("at least one non-advisory (hard|soft) lens is required: " ++
      "an advisory-only battery gates nothing")%string);
  _ ← throw_if (negb (existsb (fun l => negb (bool_decide (l_engine l = llm_judge))) lenses))
    (BatteryGovernanceError ("at least one non-llm-judge lens is required " ++
      "(deterministic anchor; arXiv:2603.06621)")%string);
  throw_if (negb (is_finite vt) || num_ltb vt num_zero || num_gtb vt num_one)
    (BatteryGovernanceError ("voteThreshold must be in [0,1], got " ++ num_to_string vt)%string).

Definition lens_val (l : BatteryLens T) : jsval :=
  JObj ([("name", JStr (l_name l)); ("polarity", JStr (polarity_name (l_polarity l)));
         ("criticality", JStr (criticality_name (l_criticality l)));
         ("engine", JStr (engine_name (l_engine l)))] ++
        match l_model l with Some m => [("model", JStr m)] | None => [] end).

Definition input_val (input : jsval) (hashes : list string) (lenses : list (BatteryLens T))
    (vt : num) (adrEco : string) : jsval :=
  JObj [("kind", JStr GATE_DECISION_KIND); ("input", input);
        ("candidateHashes", JArr (map JStr hashes)); ("lenses", JArr (map lens_val lenses));
        ("voteThreshold", JNum vt); ("adrEco", JStr adrEco)].

(** Verdicts in candidate order, from the score matrix and the hashes. *)
Fixpoint verdictsFrom (vt : num) (i : Z) (rows : list (list LensVerdict)) (hashes : list string)
    : list CandidateVerdict :=
  match rows, hashes with
  | lvs :: rows', h :: hashes' => judgeCandidate vt i h lvs :: verdictsFrom vt (i + 1) rows' hashes'
  | _, _ => []
  end.

Definition half : num := num_of_decimal 5 1.

(** [t0] and [t1] are the two readings of the injected clock. *)
Definition runVerifierBattery (input : jsval) (candidates : list T) (lenses : list (BatteryLens T))
    (runId adrEco : string) (voteThreshold : option num) (aborted : bool) (t0 t1 : Z)
    : result (BatteryDecision T) :=
  let vt := default half voteThreshold in
  _ ← guards (length candidates) lenses runId adrEco vt;
  rows ← map_result (fun c => map_result (evalLens vt aborted c) lenses) candidates;
  hashes ← map_result (fun c => hash_canonical (to_val c)) candidates;
  let verdicts := verdictsFrom vt 0 rows hashes in
  let acc := selectVerdict verdicts in
  let index := fst <$> acc in
  let core := mkCore adrEco vt index
    (match index with Some i => hashes !! Z.to_nat i | None => None end)
    (snd <$> acc) verdicts (rejectedOf acc verdicts) in
  outputHash ← hash_canonical (core_val core);
  inputHash ← hash_canonical (input_val input hashes lenses vt adrEco);
  Ok {| d_accepted := match index with Some i => candidates !! Z.to_nat i | None => None end;
        d_acceptedIndex := gc_acceptedIndex core; d_acceptedHash := gc_acceptedHash core;
        d_acceptedScore := gc_acceptedScore core; d_verdicts := verdicts;
        d_rejected := gc_rejected core; d_adrEco := adrEco; d_voteThreshold := vt;
        d_auditStep := {| as_runId := runId; as_guardName := VERIFIER_BATTERY_GUARD;
          as_timestamp := t0; as_durationMs := t1 - t0;
          as_inputHash := inputHash; as_outputHash := outputHash |} |}.
End Run.
