(* ===== verification/BatteryProps.v ===== *)
(** Correctness of the verifier battery: the kill rule, fail-closed selection
    and completeness of the reject set. *)

From S2P Require Import Prelude JsNum JsValue Canonical Battery.

(** * The kill rule *)

(** A gating lens verdict: neither advisory nor silent. *)
Definition hardFired (v : LensVerdict) : bool :=
  bool_decide (lv_criticality v = hard) && lv_fired v.
Definition gatingRefuter (v : LensVerdict) : bool :=
  negb (bool_decide (lv_criticality v = advisory)) && bool_decide (lv_polarity v = refute).
Definition firedRefuter (v : LensVerdict) : bool := gatingRefuter v && lv_fired v.

Lemma count_if_cons {A} (p : A -> bool) x l :
  count_if p (x :: l) = (if p x then 1 else 0) + count_if p l.
Proof. unfold count_if. simpl. destruct (p x); simpl; lia. Qed.

Lemma judge_fold vt lvs j :
  let j' := fold_left (fun j v => judgeLens vt v j) lvs j in
  (j_hardKill j' = None <-> j_hardKill j = None /\ existsb hardFired lvs = false) /\
  j_refuteGating j' = j_refuteGating j + count_if gatingRefuter lvs /\
  j_refuteFired j' = j_refuteFired j + count_if firedRefuter lvs.
Proof.
  revert j. induction lvs as [|v lvs IH]; intros j; simpl.
  { unfold count_if. simpl. split_and!; [tauto|lia|lia]. }
  destruct (IH (judgeLens vt v j)) as (Hk & Hg & Hf). rewrite Hk, Hg, Hf, !count_if_cons.
  unfold judgeLens, hardFired, firedRefuter, gatingRefuter.
  destruct (lv_criticality v), (lv_polarity v), (lv_fired v); simpl;
    (split_and!; [|lia|lia]); try tauto;
    (split; [intros [H ?]; by destruct (j_hardKill j)|intros [_ ?]; done]).
Qed.

Lemma judge_kills_eq (vt : num) (i : Z) (h : string) (lvs : list LensVerdict) :
  killed (judgeCandidate vt i h lvs) = existsb hardFired lvs ||
    ((2 <=? count_if gatingRefuter lvs) &&
     (count_if gatingRefuter lvs <? 2 * count_if firedRefuter lvs)).
Proof.
  unfold judgeCandidate. cbn [killed]. destruct (judge_fold vt lvs judging0) as (Hk & Hg & Hf).
  simpl in Hg, Hf. set (j := fold_left _ _ _) in *. unfold quorumKilled.
  rewrite Hg, Hf, (Z.mul_comm _ 2). f_equal. destruct (j_hardKill j) as [r|].
  - destruct (existsb hardFired lvs); [done|]. destruct Hk as [_ Hk]. by discriminate Hk.
  - destruct Hk as [Hk _]. by destruct (Hk eq_refl) as [_ ->].
Qed.

(** A candidate is killed exactly when a hard lens fired, or at least two
    gating refute lenses were run and a strict majority of them fired; a killed
    candidate always carries a reason, a survivor none. *)
Theorem judge_kills (vt : num) (i : Z) (h : string) (lvs : list LensVerdict) :
  let v := judgeCandidate vt i h lvs in
  killed v = existsb hardFired lvs ||
    ((2 <=? count_if gatingRefuter lvs) &&
     (count_if gatingRefuter lvs <? 2 * count_if firedRefuter lvs)) /\
  (killReason v = None <-> killed v = false).
Proof.
  split; [apply judge_kills_eq|]. unfold judgeCandidate. cbn [killed killReason].
  destruct (j_hardKill _); [done|]. by destruct (quorumKilled _).
Qed.

(** * Sequencing *)

Lemma map_result_ok {A B} (f : A -> result B) l l' :
  map_result f l = Ok l' <-> Forall2 (fun x y => f x = Ok y) l l'.
Proof.
  revert l'. induction l as [|x l IH]; intros l'; simpl.
  - split; [by intros [= <-]; constructor|by inversion 1].
  - rewrite result_bind_ok. setoid_rewrite result_bind_ok. setoid_rewrite IH. split.
    + intros (y & Hy & ys & Hys & [= <-]). by constructor.
    + inversion 1; subst. eauto.
Qed.

Lemma verdictsFrom_lookup vt i rows hashes k v :
  verdictsFrom vt i rows hashes !! k = Some v <->
  exists lvs h, rows !! k = Some lvs /\ hashes !! k = Some h /\
    v = judgeCandidate vt (i + Z.of_nat k) h lvs.
Proof.
  revert i hashes k. induction rows as [|lvs rows IH]; intros i hashes k; simpl.
  { split; [done|]. intros (? & ? & H & _). by destruct k. }
  destruct hashes as [|h hashes]; simpl.
  { split; [done|]. intros (? & ? & _ & H & _). by destruct k. }
  destruct k as [|k]; simpl.
  - rewrite Z.add_0_r. naive_solver.
  - rewrite IH. replace (i + 1 + Z.of_nat k) with (i + Z.of_nat (S k)) by lia. done.
Qed.

Lemma verdictsFrom_length vt i rows hashes :
  length rows = length hashes -> length (verdictsFrom vt i rows hashes) = length rows.
Proof.
  revert i hashes. induction rows as [|lvs rows IH]; intros i [|h hashes]; simpl; try done.
  intros [= H]. by rewrite IH.
Qed.

(** * Selection *)

(** Indices are positions. *)
Definition indexed (vs : list CandidateVerdict) : Prop :=
  forall k v, vs !! k = Some v -> candidateIndex v = Z.of_nat k.

Definition no_nan (vs : list CandidateVerdict) : Prop :=
  forall v, v ∈ vs -> is_nan (compositeScore v) = false.

(** The accepted verdict beats every survivor, strictly those before it. *)
Definition best_of (vs : list CandidateVerdict) (k : nat) (v : CandidateVerdict) : Prop :=
  vs !! k = Some v /\ killed v = false /\
  (no_nan vs -> forall j w, vs !! j = Some w -> killed w = false ->
     num_gtb (compositeScore w) (compositeScore v) = false /\
     ((j < k)%nat -> num_ltb (compositeScore w) (compositeScore v) = true)).

Lemma selectVerdict_spec vs :
  indexed vs ->
  match selectVerdict vs with
  | None => forall v, v ∈ vs -> killed v = true
  | Some (i, s) => exists k v, i = Z.of_nat k /\ s = compositeScore v /\ best_of vs k v
  end.
Proof.
  unfold selectVerdict. induction vs as [|v vs IH] using rev_ind; intros Hix; [set_solver|].
  rewrite fold_left_app. simpl.
  assert (Hix' : indexed vs).
  { intros k w Hw. apply Hix. by apply lookup_app_l_Some. }
  assert (Hnn' : no_nan (vs ++ [v]) -> no_nan vs) by (intros H w Hw; apply H; set_solver).
  assert (Hlast : (vs ++ [v]) !! length vs = Some v) by (by apply list_lookup_middle).
  assert (Hv : candidateIndex v = Z.of_nat (length vs)) by (by apply Hix).
  specialize (IH Hix'). unfold selectStep at 1.
  destruct (killed v) eqn:Ek.
  { destruct (fold_left selectStep vs None) as [[i s]|].
    - destruct IH as (k & w & -> & -> & Hw & Hk & Hb). exists k, w. split_and!; [done|done|].
      split_and!; [by apply lookup_app_l_Some|done|]. intros Hnn j u Hu Hku.
      apply lookup_app_Some in Hu as [Hu|[_ Hu]]; [by apply Hb; auto|].
      apply list_lookup_singleton_Some in Hu as [_ <-]. congruence.
    - intros w [Hw| ->%list_elem_of_singleton]%elem_of_app; auto. }
  destruct (fold_left selectStep vs None) as [[i s]|].
  - destruct IH as (k & w & -> & -> & Hw & Hk & Hb).
    pose proof (lookup_lt_Some _ _ _ Hw) as Hklt.
    destruct (num_gtb (compositeScore v) (compositeScore w)) eqn:Eg.
    + exists (length vs), v. split_and!; [by rewrite Hv|done|]. split_and!; [done|done|].
      intros Hnn j u Hu Hku. apply lookup_app_Some in Hu as [Hu|[Hj Hu]].
      * destruct (Hb (Hnn' Hnn) j u Hu Hku) as [Hle _].
        assert (Hlt : num_ltb (compositeScore u) (compositeScore v) = true).
        { destruct (num_ltb (compositeScore u) (compositeScore v)) eqn:E; [done|].
          assert (Hge : num_gtb (compositeScore v) (compositeScore w) = false); [|congruence].
          apply (num_nlt_trans (compositeScore w) (compositeScore u) (compositeScore v));
            try done; apply Hnn; rewrite elem_of_app, list_elem_of_singleton;
            [left; by eapply list_elem_of_lookup_2|left; by eapply list_elem_of_lookup_2|by right]. }
        split; [by apply num_ltb_asym|done].
      * apply list_lookup_singleton_Some in Hu as [Hj0 <-]. split; [apply num_ltb_irrefl|lia].
    + exists k, w. split_and!; [done|done|]. split_and!; [by apply lookup_app_l_Some|done|].
      intros Hnn j u Hu Hku. apply lookup_app_Some in Hu as [Hu|[Hj Hu]]; [by apply Hb; auto|].
      apply list_lookup_singleton_Some in Hu as [Hj0 <-]. split; [done|lia].
  - exists (length vs), v. split_and!; [by rewrite Hv|done|]. split_and!; [done|done|].
    intros _ j u Hu Hku. apply lookup_app_Some in Hu as [Hu|[Hj Hu]].
    + apply list_elem_of_lookup_2, IH in Hu. congruence.
    + apply list_lookup_singleton_Some in Hu as [Hj0 <-]. split; [apply num_ltb_irrefl|lia].
Qed.

(** * A whole run *)

Section Runs.
Context `{Hashing} {T : Type} (to_val : T -> jsval).
Context (input : jsval) (cands : list T) (lenses : list (BatteryLens T)) (runId adrEco : string).
Context (vt : option num) (ab : bool) (t0 t1 : Z).

Definition battery : result (BatteryDecision T) :=
  runVerifierBattery to_val input cands lenses runId adrEco vt ab t0 t1.

Record run_facts (d : BatteryDecision T) (rows : list (list LensVerdict)) (hashes : list string)
    : Prop := {
  rf_guards : guards (length cands) lenses runId adrEco (default half vt) = Ok tt;
  rf_rows : Forall2 (fun c row => Forall2 (fun l v => evalLens (default half vt) ab c l = Ok v)
    lenses row) cands rows;
  rf_hashes : Forall2 (fun c h => hash_canonical (to_val c) = Ok h) cands hashes;
  rf_verdicts : d_verdicts d = verdictsFrom (default half vt) 0 rows hashes;
  rf_index : d_acceptedIndex d = fst <$> selectVerdict (d_verdicts d);
  rf_score : d_acceptedScore d = snd <$> selectVerdict (d_verdicts d);
  rf_hash : d_acceptedHash d =
    match d_acceptedIndex d with Some i => hashes !! Z.to_nat i | None => None end;
  rf_accepted : d_accepted d =
    match d_acceptedIndex d with Some i => cands !! Z.to_nat i | None => None end;
  rf_rejected : d_rejected d = rejectedOf (selectVerdict (d_verdicts d)) (d_verdicts d);
  rf_audit : hash_canonical (core_val (mkCore adrEco (default half vt) (d_acceptedIndex d)
    (d_acceptedHash d) (d_acceptedScore d) (d_verdicts d) (d_rejected d))) =
    Ok (as_outputHash (d_auditStep d));
  rf_meta : d_adrEco d = adrEco /\ d_voteThreshold d = default half vt
}.

Lemma battery_ok d : battery = Ok d -> exists rows hashes, run_facts d rows hashes.
Proof.
  unfold battery, runVerifierBattery. intros Hd.
  apply result_bind_ok in Hd as ([] & Hg & Hd). apply result_bind_ok in Hd as (rows & Hr & Hd).
  apply result_bind_ok in Hd as (hashes & Hh & Hd).
  apply result_bind_ok in Hd as (oh & Ho & Hd). apply result_bind_ok in Hd as (ih & Hi & [= <-]).
  exists rows, hashes. apply map_result_ok in Hr, Hh. split; try done.
  eapply Forall2_impl; [exact Hr|]. intros c row Hrow. by apply map_result_ok.
Qed.

Lemma verdict_lookup d rows hashes k v :
  run_facts d rows hashes -> d_verdicts d !! k = Some v ->
  exists c row h, cands !! k = Some c /\ rows !! k = Some row /\ hashes !! k = Some h /\
    hash_canonical (to_val c) = Ok h /\
    Forall2 (fun l v => evalLens (default half vt) ab c l = Ok v) lenses row /\
    v = judgeCandidate (default half vt) (Z.of_nat k) h row.
Proof.
  intros [] Hv. rewrite rf_verdicts0 in Hv. apply verdictsFrom_lookup in Hv as (row & h & Hrow & Hh & ->).
  destruct (Forall2_lookup_r _ _ _ _ _ rf_rows0 Hrow) as (c & Hc & Hev).
  destruct (Forall2_lookup_r _ _ _ _ _ rf_hashes0 Hh) as (c' & Hc' & Hhash).
  rewrite Hc in Hc'. injection Hc' as <-. exists c, row, h. by split_and!.
Qed.

Lemma run_indexed d rows hashes : run_facts d rows hashes -> indexed (d_verdicts d).
Proof.
  intros Hf k v Hv. destruct (verdict_lookup d rows hashes k v Hf Hv) as (c & row & h & _ & _ & _ & _ & _ & ->).
  done.
Qed.

Lemma run_length d rows hashes : run_facts d rows hashes -> length (d_verdicts d) = length cands.
Proof.
  intros []. rewrite rf_verdicts0. pose proof (Forall2_length _ _ _ rf_rows0).
  pose proof (Forall2_length _ _ _ rf_hashes0). rewrite verdictsFrom_length; congruence.
Qed.

(** The battery is fail-closed and picks the best survivor: it accepts
    nothing only when every candidate is killed; otherwise the accepted index is
    that of a survivor whose composite no survivor exceeds (ties to the lowest
    index), and the accepted value, hash and score are that candidate's. *)
Theorem battery_selects (d : BatteryDecision T) (Hd : battery = Ok d) :
  length (d_verdicts d) = length cands /\ indexed (d_verdicts d) /\
  match d_acceptedIndex d with
  | None => d_accepted d = None /\ forall v, v ∈ d_verdicts d -> killed v = true
  | Some i => exists k v c, i = Z.of_nat k /\ best_of (d_verdicts d) k v /\
      cands !! k = Some c /\ d_accepted d = Some c /\
      d_acceptedScore d = Some (compositeScore v) /\
      d_acceptedHash d = Some (candidateHash v) /\
      hash_canonical (to_val c) = Ok (candidateHash v)
  end.
Proof.
  destruct (battery_ok d Hd) as (rows & hashes & Hf). pose proof (run_indexed _ _ _ Hf) as Hix.
  split; [by eapply run_length|]. split; [done|]. pose proof (selectVerdict_spec _ Hix) as Hsel.
  pose proof Hf as [_ _ _ _ Hi Hs Hh Ha _ _ _]. rewrite Hi in Hh, Ha. rewrite Hi, Hs, Hh, Ha.
  destruct (selectVerdict (d_verdicts d)) as [[i s]|]; simpl; [|done].
  destruct Hsel as (k & v & -> & -> & Hb). exists k, v. pose proof Hb as [Hv _].
  destruct (verdict_lookup d rows hashes k v Hf Hv) as (c & row & h & Hc & _ & Hhk & Hhash & _ & ->).
  exists c. rewrite Nat2Z.id. by split_and!.
Qed.

Lemma filter_map_eq {A B} (f : A -> B) (p : B -> bool) l :
  map f (List.filter (fun x => p (f x)) l) = List.filter p (map f l).
Proof. induction l as [|x l IH]; simpl; [done|]. destruct (p (f x)); simpl; by rewrite IH. Qed.

(** Reject-as-proof is complete: the rejected candidates are exactly the
    candidates that were not accepted, in order, each with its hash and with a
    reason that says whether it was killed or merely outscored. *)
Lemma battery_rejects (d : BatteryDecision T) (Hd : battery = Ok d) :
  map rj_index (d_rejected d) =
    List.filter (fun i => negb (isAccepted (d_acceptedIndex d) i))
      (map Z.of_nat (seq 0 (length cands))) /\
  (forall r, r ∈ d_rejected d -> exists v, v ∈ d_verdicts d /\ candidateIndex v = rj_index r /\
     candidateHash v = rj_hash r /\
     starts_with (if killed v then "killed: " else "not-selected: composite ") (rj_reason r) = true).
Proof.
  destruct (battery_ok d Hd) as (rows & hashes & Hf). pose proof (run_indexed _ _ _ Hf) as Hix.
  pose proof (run_length _ _ _ Hf) as Hlen. pose proof Hf as [_ _ _ _ Hi _ _ _ Hr _ _].
  rewrite Hr. unfold rejectedOf. rewrite <- Hi. split.
  - rewrite map_map. simpl. etrans; [apply (filter_map_eq candidateIndex
      (fun i => negb (isAccepted (d_acceptedIndex d) i)))|]. f_equal.
    rewrite <- Hlen. apply list_eq. intros k. rewrite !list_lookup_fmap.
    destruct (d_verdicts d !! k) as [v|] eqn:Hv; simpl.
    + pose proof (lookup_lt_Some _ _ _ Hv) as Hk. rewrite lookup_seq_lt by done. simpl.
      f_equal. by apply Hix.
    + apply lookup_ge_None in Hv. by rewrite lookup_seq_ge by lia.
  - intros r Hin. apply list_elem_of_In, in_map_iff in Hin as (v & <- & Hin).
    apply filter_In in Hin as [Hin _]. exists v. split; [by apply list_elem_of_In|].
    split; [done|]. split; [done|]. cbn [rj_reason]. destruct (killed v); apply starts_with_app.
Qed.
End Runs.

(** * A single candidate *)

Definition kill_rule (row : list LensVerdict) : bool :=
  existsb hardFired row ||
  ((2 <=? count_if gatingRefuter row) &&
   (count_if gatingRefuter row <? 2 * count_if firedRefuter row)).

Definition some_accepted {T} (d : BatteryDecision T) : bool :=
  match d_acceptedIndex d with Some _ => true | None => false end.

Lemma single_candidate `{Hashing} {T} (to_val : T -> jsval) input (c : T) lenses runId adr vt ab t0 t1 d :
  runVerifierBattery to_val input [c] lenses runId adr vt ab t0 t1 = Ok d ->
  as_runId (d_auditStep d) = runId /\
  exists row, Forall2 (fun l lv => evalLens (default half vt) ab c l = Ok lv) lenses row /\
    some_accepted d = negb (kill_rule row) /\
    d_accepted d = (if kill_rule row then None else Some c).
Proof.
  intros Hd. split.
  { unfold runVerifierBattery in Hd. repeat (apply result_bind_ok in Hd as (? & _ & Hd)).
    by injection Hd as <-. }
  destruct (battery_ok _ _ _ _ _ _ _ _ _ _ _ Hd) as (rows & hashes & Hf).
  assert (Hlen : length (d_verdicts d) = 1%nat) by (eapply run_length in Hf; done).
  destruct (d_verdicts d) as [|cv [|]] eqn:Ed; try done.
  assert (Hcv : d_verdicts d !! 0%nat = Some cv) by (by rewrite Ed).
  eapply verdict_lookup in Hcv as (c' & row & h & Hc & _ & _ & _ & Hrow & Hcv); [|exact Hf].
  injection Hc as <-. exists row. split; [done|].
  pose proof Hf as [_ _ _ _ Hi _ _ Ha _ _ _]. rewrite Ed, Hcv in Hi.
  unfold selectVerdict in Hi. cbn [fold_left] in Hi. unfold selectStep in Hi.
  rewrite judge_kills_eq in Hi. fold (kill_rule row) in Hi. unfold some_accepted. rewrite Ha, Hi.
  by destruct (kill_rule row).
Qed.
