(* ===== verification/GateEnvelope.v ===== *)
(** Signed gate-verdict envelopes over battery decisions
    ([src/compute/battery/gate-envelope.ts]).

    Signing and verifying ([SignFn], [VerifyFn] of [src/remote/signing.ts]) are
    Ed25519 operations of the runtime: parameters. *)

From S2P Require Import Prelude JsNum JsValue Canonical Battery BatteryProps.

Record GateVerdictEnvelope := {
  ge_runId : string;
  ge_stageId : string;
  ge_attempt : Z;
  ge_commit : string;
  ge_producerId : string;
  ge_keyid : string;
  ge_artifactHash : string;
  ge_decisionCore : GateDecisionCore;
  ge_outputHash : string;
  ge_policy_digest : option string;
  ge_chain_head : option string;
  ge_sig : option string
}.

Record BuildGateEnvelopeParams := {
  bp_runId : string;
  bp_stageId : string;
  bp_attempt : Z;
  bp_commit : string;
  bp_producerId : string;
  bp_keyid : string
}.

Record EnvelopeVerification := mkVerification { valid : bool; reasons : list string }.

Definition optional_field (k : string) (o : option string) : list (string * jsval) :=
  match o with Some s => [(k, JStr s)] | None => [] end.

(** The envelope without its signature. *)
Definition envelope_val (e : GateVerdictEnvelope) : jsval :=
  JObj ([("runId", JStr (ge_runId e)); ("stageId", JStr (ge_stageId e));
         ("attempt", JNum (num_of_Z (ge_attempt e))); ("commit", JStr (ge_commit e));
         ("producerId", JStr (ge_producerId e)); ("keyid", JStr (ge_keyid e));
         ("artifactHash", JStr (ge_artifactHash e));
         ("decisionCore", core_val (ge_decisionCore e)); ("outputHash", JStr (ge_outputHash e))] ++
        optional_field "policy_digest" (ge_policy_digest e) ++
        optional_field "chain_head" (ge_chain_head e)).

Section Envelope.
Context `{Hashing}.

Definition reconstructDecisionCore {T} (d : BatteryDecision T) : GateDecisionCore :=
  mkCore (d_adrEco d) (d_voteThreshold d) (d_acceptedIndex d) (d_acceptedHash d)
    (d_acceptedScore d) (d_verdicts d) (d_rejected d).

Definition recomputeOutputHash (c : GateDecisionCore) : result string := hash_canonical (core_val c).

Definition canonicalEnvelopeString (e : GateVerdictEnvelope) : result string :=
  canonical (envelope_val e).

Definition buildGateEnvelope {T} (p : BuildGateEnvelopeParams) (d : BatteryDecision T)
    : GateVerdictEnvelope :=
  {| ge_runId := bp_runId p; ge_stageId := bp_stageId p; ge_attempt := bp_attempt p;
     ge_commit := bp_commit p; ge_producerId := bp_producerId p; ge_keyid := bp_keyid p;
     ge_artifactHash := default "" (d_acceptedHash d);
     ge_decisionCore := reconstructDecisionCore d;
     ge_outputHash := as_outputHash (d_auditStep d);
     ge_policy_digest := None; ge_chain_head := None; ge_sig := None |}.

Definition with_sig (s : string) (e : GateVerdictEnvelope) : GateVerdictEnvelope :=
  {| ge_runId := ge_runId e; ge_stageId := ge_stageId e; ge_attempt := ge_attempt e;
     ge_commit := ge_commit e; ge_producerId := ge_producerId e; ge_keyid := ge_keyid e;
     ge_artifactHash := ge_artifactHash e; ge_decisionCore := ge_decisionCore e;
     ge_outputHash := ge_outputHash e; ge_policy_digest := ge_policy_digest e;
     ge_chain_head := ge_chain_head e; ge_sig := Some s |}.

Definition signGateEnvelope (e : GateVerdictEnvelope) (sign : string -> string)
    : result GateVerdictEnvelope :=
  s ← canonicalEnvelopeString e; Ok (with_sig (sign s) e).

(** The signature check, any exception counting as a failure. *)
Definition signatureReasons (e : GateVerdictEnvelope) (verify : string -> string -> result bool)
    : list string :=
  match ge_sig e with
  | None => ["missing signature"]
  | Some s =>
      if (s =? "")%string then ["missing signature"]
      else
        match (c ← canonicalEnvelopeString e; verify c s) with
        | Ok true => []
        | _ => ["signature does not verify against the pinned verifier key"]
        end
  end.

Definition admissionReasons (e : GateVerdictEnvelope) : list string :=
  match gc_acceptedIndex (ge_decisionCore e) with
  | None => ["decisionCore is not admitted (acceptedIndex is null = all candidates killed)"]
  | Some _ =>
      if bool_decide (gc_acceptedHash (ge_decisionCore e) = Some (ge_artifactHash e)) then []
      else ["acceptedHash does not equal artifactHash"]
  end.

Definition verifyGateEnvelope (e : GateVerdictEnvelope) (verify : string -> string -> result bool)
    : result EnvelopeVerification :=
  let r1 := signatureReasons e verify in
  h ← recomputeOutputHash (ge_decisionCore e);
  let r2 := if (h =? ge_outputHash e)%string then []
            else ["outputHash mismatch (decisionCore tampered or wrong hash)"] in
  let rs := r1 ++ r2 ++ admissionReasons e in
  Ok (mkVerification (length rs =? 0)%nat rs).

(** ** The required-anchor floor *)

Definition anchorReasons (byLens : list (string * LensVerdict)) (i : string) : list string :=
  match om_get i byLens with
  | None => [("required anchor " ++ quoted i ++ " absent from signed verdict")%string]
  | Some lv =>
      (if bool_decide (lv_engine lv = llm_judge) then
         [("required anchor " ++ quoted i ++ " is an llm-judge, not a deterministic floor")%string]
       else []) ++
      (if negb (bool_decide (lv_criticality lv = hard)) then
         [("required anchor " ++ quoted i ++ " is not hard criticality (cannot gate)")%string]
       else []) ++
      (if lv_fired lv then
         [("required anchor " ++ quoted i ++ " fired (the check failed)")%string] else [])
  end.

Definition checkRequiredAnchors (c : GateDecisionCore) (required : list string)
    : EnvelopeVerification :=
  match gc_acceptedIndex c with
  | None => mkVerification false ["no accepted candidate (acceptedIndex null)"]
  | Some i =>
      match (if i <? 0 then None else gc_verdicts c !! Z.to_nat i) with
      | None => mkVerification false ["accepted verdict missing from decisionCore.verdicts"]
      | Some v =>
          let byLens := om_of_list (map (fun lv => (lv_lens lv, lv)) (lensVerdicts v)) in
          let rs := concat (map (anchorReasons byLens) required) in
          mkVerification (length rs =? 0)%nat rs
      end
  end.

(** * Correctness *)

Lemma app_nil_iff {A} (l1 l2 : list A) : l1 ++ l2 = [] <-> l1 = [] /\ l2 = [].
Proof. split; [apply app_nil|by intros [-> ->]]. Qed.

Lemma length_eqb_nil {A} (l : list A) : (length l =? 0)%nat = true <-> l = [].
Proof. rewrite Nat.eqb_eq. apply length_zero_iff_nil. Qed.

Lemma concat_map_nil {A B} (f : A -> list B) l :
  concat (map f l) = [] <-> forall a, a ∈ l -> f a = [].
Proof.
  rewrite <- Forall_forall. induction l as [|a l IH]; simpl; [by split|].
  by rewrite app_nil_iff, IH, Forall_cons.
Qed.

(** An envelope verifies exactly when it carries a signature the verifier
    accepts over its canonical form, its output hash is that of its decision
    core, and that core admits a candidate whose hash is the artifact's. *)
Theorem envelope_verifies (e : GateVerdictEnvelope) (verify : string -> string -> result bool)
    (r : EnvelopeVerification) (Hr : verifyGateEnvelope e verify = Ok r) :
  valid r = true <->
  (exists s c, ge_sig e = Some s /\ s <> "" /\ canonicalEnvelopeString e = Ok c /\
     verify c s = Ok true) /\
  recomputeOutputHash (ge_decisionCore e) = Ok (ge_outputHash e) /\
  exists i, gc_acceptedIndex (ge_decisionCore e) = Some i /\
    gc_acceptedHash (ge_decisionCore e) = Some (ge_artifactHash e).
Proof.
  unfold verifyGateEnvelope in Hr. apply result_bind_ok in Hr as (h & Hh & [= <-]).
  cbn [valid]. rewrite length_eqb_nil, !app_nil_iff, Hh. clear Hh.
  assert (H1 : signatureReasons e verify = [] <-> exists s c, ge_sig e = Some s /\ s <> "" /\
      canonicalEnvelopeString e = Ok c /\ verify c s = Ok true).
  { unfold signatureReasons. destruct (ge_sig e) as [s|]; [|naive_solver].
    destruct (String.eqb_spec s ""); [naive_solver|].
    destruct (canonicalEnvelopeString e) as [c|]; unfold mbind; simpl; [|naive_solver].
    destruct (verify c s) as [[]|] eqn:Ev;
      (split; [intros; try done; by exists s, c|intros (s' & c' & [= <-] & _ & [= <-] & Hv); congruence]). }
  assert (H2 : (if (h =? ge_outputHash e)%string then []
      else ["outputHash mismatch (decisionCore tampered or wrong hash)"]) = [] <->
      h = ge_outputHash e) by (destruct (String.eqb_spec h (ge_outputHash e)); naive_solver).
  assert (H3 : admissionReasons e = [] <-> exists i, gc_acceptedIndex (ge_decisionCore e) = Some i /\
      gc_acceptedHash (ge_decisionCore e) = Some (ge_artifactHash e)).
  { unfold admissionReasons. destruct (gc_acceptedIndex _); [case_bool_decide|]; naive_solver. }
  rewrite H1, H2, H3. split; [intros (? & -> & ?); done|intros (? & [= ->] & ?); done].
Qed.

Lemma canonical_with_sig s e : canonicalEnvelopeString (with_sig s e) = canonicalEnvelopeString e.
Proof. reflexivity. Qed.

(** The producer and the control plane agree: signing the envelope built
    from a battery decision gives one that verifies if and only if the battery
    accepted a candidate, for every signature scheme that verifies its own
    non-empty signatures. *)
Theorem envelope_roundtrip {T} (to_val : T -> jsval) (input : jsval) (cands : list T)
    (lenses : list (BatteryLens T)) (runId adrEco : string) (vt : option num) (ab : bool)
    (t0 t1 : Z) (d : BatteryDecision T) (p : BuildGateEnvelopeParams)
    (sign : string -> string) (verify : string -> string -> result bool)
    (e : GateVerdictEnvelope)
    (Hd : runVerifierBattery to_val input cands lenses runId adrEco vt ab t0 t1 = Ok d)
    (Hscheme : forall s, sign s <> "" /\ verify s (sign s) = Ok true)
    (He : signGateEnvelope (buildGateEnvelope p d) sign = Ok e) :
  exists r, verifyGateEnvelope e verify = Ok r /\
    (valid r = true <-> exists i, d_acceptedIndex d = Some i).
Proof.
  apply result_bind_ok in He as (s & Hs & [= <-]).
  destruct (battery_ok to_val input cands lenses runId adrEco vt ab t0 t1 d Hd)
    as (rows & hashes & Hf).
  assert (Hix : indexed (d_verdicts d)) by (eapply run_indexed; exact Hf).
  pose proof (selectVerdict_spec _ Hix) as Hsel.
  pose proof Hf as [_ _ Hhs _ Hi _ Hh _ _ Haud [Hadr Hvt]].
  rewrite <- Hadr, <- Hvt in Haud.
  unfold verifyGateEnvelope, recomputeOutputHash. cbn [ge_decisionCore with_sig buildGateEnvelope].
  unfold reconstructDecisionCore. rewrite Haud. unfold mbind. cbn [result_bind ge_outputHash with_sig buildGateEnvelope].
  rewrite String.eqb_refl. eexists. split; [done|]. cbn [valid].
  rewrite length_eqb_nil, !app_nil_iff. unfold signatureReasons. cbn [ge_sig with_sig].
  rewrite canonical_with_sig, Hs. destruct (Hscheme s) as [Hne Hv].
  destruct (String.eqb_spec (sign s) ""); [done|]. unfold mbind. cbn [result_bind]. rewrite Hv.
  unfold admissionReasons. cbn. destruct (d_acceptedIndex d) as [i|] eqn:Ei; [|naive_solver].
  rewrite bool_decide_eq_true_2; [split; [by eexists|done]|]. rewrite Hh.
  destruct (selectVerdict (d_verdicts d)) as [[i' x]|]; [|done]. injection Hi as <-.
  destruct Hsel as (k & v & -> & -> & Hv' & _). rewrite Nat2Z.id.
  eapply verdict_lookup in Hv'; [|exact Hf]. destruct Hv' as (c & row & h & _ & _ & Hhk & _).
  by rewrite Hhk.
Qed.

(** The anchor floor holds exactly when the accepted candidate's verdict is
    there and names every required anchor with a deterministic hard lens that
    did not fire (the last of that name counting). *)
Lemma anchors_checked (c : GateDecisionCore) (required : list string) :
  valid (checkRequiredAnchors c required) = true <->
  exists i v, gc_acceptedIndex c = Some i /\ 0 <= i /\ gc_verdicts c !! Z.to_nat i = Some v /\
    forall a, a ∈ required ->
      exists lv, om_get a (om_of_list (map (fun lv => (lv_lens lv, lv)) (lensVerdicts v))) = Some lv /\
        lv_engine lv <> llm_judge /\ lv_criticality lv = hard /\ lv_fired lv = false.
Proof.
  unfold checkRequiredAnchors. destruct (gc_acceptedIndex c) as [i|]; [|naive_solver].
  destruct (Z.ltb_spec i 0) as [Hneg|Hpos].
  { split; [done|]. intros (i' & v & [= <-] & ? & _). lia. }
  destruct (gc_verdicts c !! Z.to_nat i) as [v|] eqn:Ev; [|naive_solver]. cbn [valid].
  set (m := om_of_list _). rewrite length_eqb_nil.
  assert (Hone : forall a, anchorReasons m a = [] <-> exists lv, om_get a m = Some lv /\
      lv_engine lv <> llm_judge /\ lv_criticality lv = hard /\ lv_fired lv = false).
  { intros a. unfold anchorReasons. destruct (om_get a m) as [lv|]; [|naive_solver].
    rewrite !app_nil_iff. repeat case_bool_decide; destruct (lv_fired lv) eqn:Ef; simpl;
      (split; [intros (? & ? & ?); try done; by exists lv
              |intros (lv' & [= <-] & ? & ? & ?); try done; congruence]). }
  rewrite concat_map_nil. split.
  - intros Hall. exists i, v. split_and!; try done. intros a Ha. by apply Hone, Hall.
  - intros (i' & v' & [= <-] & _ & Hv' & Hall) a Ha. apply Hone. rewrite Ev in Hv'.
    injection Hv' as <-. by apply Hall.
Qed.
End Envelope.
