(* ===== verification/ActionGate.v ===== *)
(** Pre-action gates: composition ([src/permissions/action-gate.ts]) and the
    battery-backed gate ([src/compute/battery/action-gate.ts]).

    A gate is caller code: a function of the proposed call that may throw.  The
    audit step it returns is opaque to the composition. *)

From S2P Require Import Prelude JsNum JsValue Canonical Battery BatteryProps.

Record ActionGateCall := {
  toolName : string;
  args : jsval;
  budgetUsed : num
}.

Record ActionGateVerdict (A : Type) := mkGateVerdict {
  allowed : bool;
  gate_reason : string;
  gate_kind : option string;
  gate_audit : option A
}.
Arguments mkGateVerdict {A} _ _ _ _.
Arguments allowed {A} _.
Arguments gate_reason {A} _.
Arguments gate_kind {A} _.
Arguments gate_audit {A} _.

Definition ActionGate (A : Type) : Type := ActionGateCall -> result (ActionGateVerdict A).

Definition option_list {A} (o : option A) : list A := match o with Some a => [a] | None => [] end.

(** [set.add(x)], keeping insertion order. *)
Definition set_add (x : string) (s : list string) : list string :=
  if bool_decide (x ∈ s) then s else s ++ [x].

(** What the loop over the gates accumulates. *)
Record gating (A : Type) := mkGating {
  auditSteps : list A;
  denyReasons : list string;
  denyKinds : list string
}.
Arguments mkGating {A} _ _ _.
Arguments auditSteps {A} _.
Arguments denyReasons {A} _.
Arguments denyKinds {A} _.

Section Compose.
Context {A : Type}.

Definition runGate (call : ActionGateCall) (g : gating A) (gate : ActionGate A) : gating A :=
  match gate call with
  | Throw e =>
      mkGating (auditSteps g)
        (denyReasons g ++ [("gate error (fail-closed): " ++ err_message e)%string]) (denyKinds g)
  | Ok v =>
      let audits := auditSteps g ++ option_list (gate_audit v) in
      if allowed v then mkGating audits (denyReasons g) (denyKinds g)
      else mkGating audits (denyReasons g ++ [gate_reason v])
             (match gate_kind v with Some k => set_add k (denyKinds g) | None => denyKinds g end)
  end.

Definition composedVerify (gates : list (ActionGate A)) (call : ActionGateCall)
    : ActionGateVerdict (list A) :=
  let g := fold_left (runGate call) gates (mkGating [] [] []) in
  let ok := (length (denyReasons g) =? 0)%nat in
  mkGateVerdict ok
    (if ok then "action allowed (all gates accepted)"
     else ("action denied (composed): " ++ join "; " (denyReasons g))%string)
    (match denyKinds g with [k] => Some k | _ => None end)
    (match auditSteps g with [] => None | l => Some l end).

Definition composeActionGates (gates : list (ActionGate A)) : result (ActionGate (list A)) :=
  if (length gates =? 0)%nat then
    Throw (JsError "Error" ("composeActionGates requires at least one gate (an empty composition " ++
      "would allow everything, defeating the seam)")%string)
  else Ok (fun call => Ok (composedVerify gates call)).

(** The verdicts of the gates that returned one. *)
Definition returned (gates : list (ActionGate A)) (call : ActionGateCall)
    : list (ActionGateVerdict A) :=
  concat (map (fun gate => match gate call with Ok v => [v] | Throw _ => [] end) gates).

Definition gate_allows (call : ActionGateCall) (gate : ActionGate A) : bool :=
  match gate call with Ok v => allowed v | Throw _ => false end.

Lemma runGates_fold call gates g :
  let g' := fold_left (runGate call) gates g in
  auditSteps g' = auditSteps g ++ concat (map (fun v => option_list (gate_audit v)) (returned gates call)) /\
  (denyReasons g' = [] <-> denyReasons g = [] /\ forallb (gate_allows call) gates = true).
Proof.
  revert g. induction gates as [|gate gates IH]; intros g; simpl.
  { rewrite app_nil_r. split; [done|tauto]. }
  destruct (IH (runGate call g gate)) as [Ha Hd]. rewrite Ha, Hd.
  change (gate_allows call gate) with (match gate call with Ok v => allowed v | Throw _ => false end).
  unfold returned, runGate. simpl. fold (returned gates call).
  destruct (gate call) as [v|e]; simpl.
  - destruct (allowed v); simpl; (split; [by rewrite <- app_assoc|]); [done|].
    split; [|by intros [_ ?]]. intros [H _]. by destruct (denyReasons g).
  - split; [done|]. split; [|by intros [_ ?]]. intros [H _]. by destruct (denyReasons g).
Qed.

(** The composition of gates is a fail-closed conjunction: it allows a call
    exactly when every gate returns a verdict that allows it (a gate that throws
    denies), it never throws, and it keeps the audit step of every gate that
    returned one, in order, also when an earlier gate denied; composing no gate
    is refused. *)
Theorem compose_is_and (gates : list (ActionGate A)) (call : ActionGateCall) :
  match composeActionGates gates with
  | Throw _ => gates = []
  | Ok gate => gates <> [] /\ exists v, gate call = Ok v /\
      allowed v = forallb (gate_allows call) gates /\
      default [] (gate_audit v) =
        concat (map (fun v => option_list (gate_audit v)) (returned gates call))
  end.
Proof.
  unfold composeActionGates. destruct (Nat.eqb_spec (length gates) 0) as [Hl|Hl].
  { by apply length_zero_iff_nil. }
  split; [by intros ->|]. eexists. split; [done|]. unfold composedVerify.
  destruct (runGates_fold call gates (mkGating [] [] [])) as [Ha Hd]. simpl in Ha, Hd.
  set (g := fold_left _ _ _) in *. cbn [allowed gate_audit]. split.
  - destruct (Nat.eqb_spec (length (denyReasons g)) 0) as [H0|H0].
    + apply length_zero_iff_nil, Hd in H0 as [_ ->]. done.
    + destruct (forallb (gate_allows call) gates); [|done]. exfalso. apply H0.
      by rewrite (proj2 Hd (conj eq_refl eq_refl)).
  - rewrite <- Ha. by destruct (auditSteps g).
Qed.
End Compose.

(** * The battery-backed gate *)

Definition call_val (c : ActionGateCall) : jsval :=
  JObj [("toolName", JStr (toolName c)); ("args", args c); ("budgetUsed", JNum (budgetUsed c))].

Section BatteryGate.
Context `{Hashing} {T : Type} (to_val : T -> jsval).

(** [t0] and [t1] are the clock readings of the gated call. *)
Definition batteryActionGate (project : ActionGateCall -> T) (lenses : list (BatteryLens T))
    (adrEco runId : string) (voteThreshold : option num) (t0 t1 : Z)
    : ActionGate BatteryTraceStep := fun call =>
  d ← runVerifierBattery to_val (call_val call) [project call] lenses runId adrEco voteThreshold
        false t0 t1;
  match d_acceptedIndex d with
  | Some _ => Ok (mkGateVerdict true "action allowed (battery accepted)" None (Some (d_auditStep d)))
  | None =>
      let joined := join "; " (map rj_reason (d_rejected d)) in
      let why := if (joined =? "")%string then "all candidates killed" else joined in
      Ok (mkGateVerdict false ("action denied (battery): " ++ why)%string None (Some (d_auditStep d)))
  end.

(** A battery-backed gate allows a call only when no hard lens and no quorum
    of refute lenses speaks against it, and every verdict it returns, denials
    included, carries the battery's audit step. *)
Lemma batteryGate_fail_closed (project : ActionGateCall -> T) (lenses : list (BatteryLens T))
    (adrEco runId : string) (vt : option num) (t0 t1 : Z) (call : ActionGateCall)
    (v : ActionGateVerdict BatteryTraceStep)
    (Hv : batteryActionGate project lenses adrEco runId vt t0 t1 call = Ok v) :
  (exists a, gate_audit v = Some a /\ as_runId a = runId) /\
  exists row, Forall2 (fun l lv => evalLens (default half vt) false (project call) l = Ok lv) lenses row /\
    allowed v = negb (existsb hardFired row ||
      ((2 <=? count_if gatingRefuter row) &&
       (count_if gatingRefuter row <? 2 * count_if firedRefuter row))).
Proof.
  unfold batteryActionGate in Hv. apply result_bind_ok in Hv as (d & Hd & Hv).
  apply single_candidate in Hd as (Hrun & row & Hrow & Hacc & _). unfold some_accepted in Hacc.
  split; [destruct (d_acceptedIndex d); injection Hv as <-; by eexists|].
  exists row. split; [done|]. fold (kill_rule row). rewrite <- Hacc.
  by destruct (d_acceptedIndex d); injection Hv as <-.
Qed.
End BatteryGate.
