(* ===== verification/BestOfN.v ===== *)
(** Verifier-driven best-of-N ([src/orchestration/dag/best-of-n.ts]): the
    majority-of-the-bests selection over a battery's survivors, and the adapter
    from the battery to the DAG engine's verifier port.

    The generator works on 32-bit words: [Z] values below [2^32] with the
    wrap-around written out. *)

From S2P Require Import Prelude JsNum JsValue Word32 DagTypes Canonical Battery.
From S2P Require Import BatteryProps.
From Stdlib Require Import Ascii SpecFloat.
Open Scope js_scope.

(** * The generator *)

(** FNV-1a over the code units of a string. *)
Fixpoint fnv1a32_from (h : Z) (s : string) : Z :=
  match s with
  | EmptyString => h
  | String c s' => fnv1a32_from (imul (Z.lxor h (Z.of_nat (nat_of_ascii c))) 16777619) s'
  end.
Definition fnv1a32 (s : string) : Z := fnv1a32_from 2166136261 s.

Example fnv_empty : fnv1a32 "" = 2166136261.
Proof. reflexivity. Qed.
Example fnv_a : fnv1a32 "a" = 3826002220.
Proof. reflexivity. Qed.
Example fnv_foobar : fnv1a32 "foobar" = 3214735720.
Proof. reflexivity. Qed.

(** One call of the generator: the next state and the 32-bit word drawn (the
    code divides it by [2^32]). *)
Definition mulberry32 (a : Z) : Z * Z :=
  let a := u32 (a + 1831565813) in
  let t := imul (Z.lxor a (Z.shiftr a 15)) (Z.lor a 1) in
  let t := Z.lxor t (u32 (t + imul (Z.lxor t (Z.shiftr t 7)) (Z.lor t 61))) in
  (a, Z.lxor t (Z.shiftr t 14)).

(** [Math.floor(rng() * k)]. *)
Definition drawIndex (w k : Z) : Z := w * k / 4294967296.

(** * Majority of the bests *)

Section Mob.
Context (survivors : list CandidateVerdict).

(** One bootstrap round: [d] draws with replacement, the first maximum wins. *)
Fixpoint mobRound (d : nat) (st : Z) (best : option CandidateVerdict)
    : Z * option CandidateVerdict :=
  match d with
  | O => (st, best)
  | S d =>
      let '(st, w) := mulberry32 st in
      let pick := survivors !! Z.to_nat (drawIndex w (Z.of_nat (length survivors))) in
      let best := match best, pick with
        | None, p => p
        | Some b, Some p => if num_gtb (compositeScore p) (compositeScore b) then Some p else best
        | Some _, None => best
        end in
      mobRound d st best
  end.

Definition bump (h : string) (tally : list (string * Z)) : list (string * Z) :=
  om_set h (default 0 (om_get h tally) + 1) tally.

(** The bootstrap: the wins of each answer hash, in order of first win. *)
Fixpoint mobTally (rounds : nat) (st : Z) (tally : list (string * Z)) : list (string * Z) :=
  match rounds with
  | O => tally
  | S rounds =>
      let '(st, best) := mobRound (length survivors) st None in
      mobTally rounds st (match best with Some b => bump (candidateHash b) tally | None => tally end)
  end.

(** The best instance of each answer. *)
Definition betterRep (v cur : CandidateVerdict) : bool :=
  num_gtb (compositeScore v) (compositeScore cur) ||
  (num_eqb (compositeScore v) (compositeScore cur) && (candidateIndex v <? candidateIndex cur)).

Definition repStep (m : list (string * CandidateVerdict)) (v : CandidateVerdict)
    : list (string * CandidateVerdict) :=
  match om_get (candidateHash v) m with
  | None => om_set (candidateHash v) v m
  | Some cur => if betterRep v cur then om_set (candidateHash v) v m else m
  end.

Definition repByHash : list (string * CandidateVerdict) := fold_left repStep survivors [].

Definition winnerStep (acc : option (string * Z)) (hw : string * Z) : option (string * Z) :=
  match acc with
  | None => Some hw
  | Some (wh, ww) =>
      let '(h, w) := hw in
      match om_get h repByHash, om_get wh repByHash with
      | Some rep, Some cur =>
          if (ww <? w) || ((w =? ww) && betterRep rep cur) then Some hw else acc
      | _, _ => acc
      end
  end.

Definition mobWinner (rounds : nat) (seed : string) : option Z :=
  match fold_left winnerStep (mobTally rounds (u32 (fnv1a32 seed)) []) None with
  | Some (h, _) => candidateIndex <$> om_get h repByHash
  | None => None
  end.
End Mob.

Definition MOB_BOOTSTRAP_ROUNDS : nat := 1000.

(** [mobSelectIndex]: [Ok None] without survivors; without rounds the winner's
    lookup fails. *)
Definition mobSelectIndex (verdicts : list CandidateVerdict) (seed : string) (rounds : nat)
    : result (option Z) :=
  let survivors := List.filter (fun v => negb (killed v)) verdicts in
  match survivors with
  | [] => Ok None
  | [v] => Ok (Some (candidateIndex v))
  | _ =>
      match mobWinner survivors rounds seed with
      | Some i => Ok (Some i)
      | None => Throw (JsError "TypeError" "Cannot read properties of undefined (reading 'candidateIndex')")
      end
  end.

(** ** Bounds of the generator *)

Lemma mulberry32_range a : 0 <= (mulberry32 a).2 < 2 ^ 32.
Proof.
  unfold mulberry32. cbv zeta. cbn [snd].
  set (t := Z.lxor _ (u32 _)). assert (Ht : 0 <= t < 2 ^ 32).
  { apply lxor_range; [lia|apply u32_range|apply u32_range]. }
  apply lxor_range; [lia|done|]. apply shiftr_range; [lia|done].
Qed.

Lemma drawIndex_range w k : 0 <= w < 2 ^ 32 -> 0 < k -> 0 <= drawIndex w k < k.
Proof.
  intros Hw Hk. unfold drawIndex. split; [apply Z.div_pos; nia|].
  apply Z.div_lt_upper_bound; [lia|]. change 4294967296 with (2 ^ 32). nia.
Qed.

(** ** The selection stays among the survivors *)

Section MobFacts.
Context (survivors : list CandidateVerdict) (Hne : survivors <> []).

Lemma survivors_pos : 0 < Z.of_nat (length survivors).
Proof. destruct survivors; [done|simpl; lia]. Qed.

Lemma mobRound_in d st best :
  (forall b, best = Some b -> b ∈ survivors) ->
  (d <> 0%nat \/ best <> None) ->
  exists b, (mobRound survivors d st best).2 = Some b /\ b ∈ survivors.
Proof.
  revert st best. induction d as [|d IH]; intros st best Hb Hd; cbn [mobRound].
  { destruct best as [b|]; [|by destruct Hd]. exists b. auto. }
  destruct (mulberry32 st) as [st' w] eqn:Em.
  pose proof (mulberry32_range st) as Hw. rewrite Em in Hw. simpl in Hw.
  destruct (drawIndex_range w _ Hw survivors_pos) as [H0 H1].
  destruct (lookup_lt_is_Some_2 survivors (Z.to_nat (drawIndex w (Z.of_nat (length survivors)))))
    as [p Hp]; [lia|]. rewrite Hp. apply list_elem_of_lookup_2 in Hp.
  apply IH.
  - intros b. destruct best as [b0|]; [|by intros [= <-]].
    destruct (num_gtb _ _); [by intros [= <-]|apply Hb].
  - right. destruct best; [|done]. by destruct (num_gtb _ _).
Qed.

Lemma bump_keys h t k : k ∈ (bump h t).*1 <-> k ∈ t.*1 \/ k = h.
Proof.
  unfold bump. rewrite om_set_keys. unfold om_has. destruct (om_get h t) eqn:E.
  - assert (h ∈ t.*1) by (apply om_get_is_Some; eauto). set_solver.
  - set_solver.
Qed.

Lemma mobTally_keys rounds st t :
  (forall k, k ∈ t.*1 -> exists v, v ∈ survivors /\ candidateHash v = k) ->
  (rounds <> 0%nat \/ t <> []) ->
  mobTally survivors rounds st t <> [] /\
  forall k, k ∈ (mobTally survivors rounds st t).*1 -> exists v, v ∈ survivors /\ candidateHash v = k.
Proof.
  revert st t. induction rounds as [|rounds IH]; intros st t Ht Hr; cbn [mobTally].
  { split; [by destruct Hr|done]. }
  destruct (mobRound_in (length survivors) st None) as (b & Hb & Hin); [done|left|].
  { pose proof survivors_pos. lia. }
  destruct (mobRound survivors (length survivors) st None) as [st' best]. simpl in Hb. subst best.
  apply IH.
  - intros k [Hk| ->]%bump_keys; [by apply Ht|]. by exists b.
  - right. intros E. assert (H : candidateHash b ∈ (bump (candidateHash b) t).*1)
      by (apply bump_keys; by right). rewrite E in H. set_solver.
Qed.

End MobFacts.

Section RepFacts.
Context (survivors : list CandidateVerdict).

Definition rep_ok (seen : list CandidateVerdict) (m : list (string * CandidateVerdict)) : Prop :=
  (forall v, v ∈ seen -> is_Some (om_get (candidateHash v) m)) /\
  (forall h r, om_get h m = Some r -> r ∈ seen /\ candidateHash r = h /\
     (no_nan seen -> forall v, v ∈ seen -> candidateHash v = h ->
        num_gtb (compositeScore v) (compositeScore r) = false)).

Lemma repStep_ok seen m v : rep_ok seen m -> rep_ok (seen ++ [v]) (repStep m v).
Proof.
  intros [Hs Hr].
  assert (Hnn : no_nan (seen ++ [v]) -> no_nan seen) by (intros H w Hw; apply H; set_solver).
  assert (Hset : (forall w, no_nan (seen ++ [v]) -> w ∈ seen -> candidateHash w = candidateHash v ->
      num_gtb (compositeScore w) (compositeScore v) = false) ->
      rep_ok (seen ++ [v]) (om_set (candidateHash v) v m)).
  { intros Hbest. split.
    - intros w Hw. rewrite om_get_set. case_decide as Hd; [by eexists|].
      apply elem_of_app in Hw as [Hw|Hw]; [by apply Hs|]. apply list_elem_of_singleton in Hw as ->. done.
    - intros h r. rewrite om_get_set. case_decide as Hd.
      + intros [= <-]. split_and!; [set_solver|done|]. intros Hn w Hw Hwh.
        apply elem_of_app in Hw as [Hw|Hw]; [apply Hbest; [done|done|congruence]|].
        apply list_elem_of_singleton in Hw as ->. apply num_ltb_irrefl.
      + intros Hg. destruct (Hr h r Hg) as (Hin & Hh & Hb). split_and!; [set_solver|done|].
        intros Hn w Hw Hwh. apply elem_of_app in Hw as [Hw|Hw]; [by apply Hb; auto|].
        apply list_elem_of_singleton in Hw as ->. congruence. }
  unfold repStep. destruct (om_get (candidateHash v) m) as [cur|] eqn:E.
  - destruct (Hr _ _ E) as (Hcin & Hch & Hcb). destruct (betterRep v cur) eqn:Eb.
    + apply Hset. intros w Hn Hw Hwh. specialize (Hcb (Hnn Hn) w Hw Hwh).
      assert (Hcv : num_gtb (compositeScore cur) (compositeScore v) = false).
      { unfold betterRep in Eb. apply orb_true_iff in Eb as [Eb|Eb]; [by apply num_ltb_asym|].
        apply andb_true_iff in Eb as [Eb _]. unfold num_gtb, num_eqb, SFltb, SFeqb in *.
        destruct (SFcompare (compositeScore v) (compositeScore cur)) as [[]|]; done. }
      apply (num_nlt_trans (compositeScore v) (compositeScore cur) (compositeScore w));
        try done; apply Hn; set_solver.
    + split.
      * intros w [Hw|Hw%list_elem_of_singleton]%elem_of_app; [by apply Hs|]. subst w. by rewrite E.
      * intros h r Hg. destruct (Hr h r Hg) as (Hin & Hh & Hb). split_and!; [set_solver|done|].
        intros Hn w Hw Hwh. apply elem_of_app in Hw as [Hw|Hw]; [by apply Hb; auto|].
        apply list_elem_of_singleton in Hw as ->. rewrite Hwh, Hg in E. injection E as ->.
        unfold betterRep in Eb. by apply orb_false_iff in Eb as [Eb _].
  - apply Hset. intros w _ Hw Hwh. destruct (Hs w Hw) as [x Hx]. rewrite Hwh, E in Hx. done.
Qed.

Lemma repByHash_ok : rep_ok survivors (repByHash survivors).
Proof.
  unfold repByHash. induction survivors as [|v l IH] using rev_ind.
  { split; [set_solver|done]. }
  rewrite fold_left_app. simpl. by apply repStep_ok.
Qed.

Lemma winner_in t acc h w :
  fold_left (winnerStep survivors) t acc = Some (h, w) -> Some (h, w) = acc \/ (h, w) ∈ t.
Proof.
  revert acc. induction t as [|[k n] t IH]; intros acc Hf; simpl in *; [by left|].
  apply IH in Hf as [Hf|Hf]; [|right; by right].
  unfold winnerStep in Hf. destruct acc as [[ah aw]|]; [|injection Hf as -> ->; right; left].
  destruct (om_get k (repByHash survivors)), (om_get ah (repByHash survivors)); try (by left).
  destruct (_ || _); [injection Hf as -> ->; right; left|by left].
Qed.

Lemma winner_some t : t <> [] -> fold_left (winnerStep survivors) t None <> None.
Proof.
  destruct t as [|hw t]; [done|]. intros _. simpl.
  assert (H : forall acc, acc <> None -> fold_left (winnerStep survivors) t acc <> None).
  { induction t as [|[k n] t IH]; intros acc Ha; simpl; [done|]. apply IH.
    unfold winnerStep. destruct acc as [[ah aw]|]; [|done].
    destruct (om_get k (repByHash survivors)), (om_get ah (repByHash survivors)); try done. by destruct (_ || _). }
  by apply H.
Qed.

Lemma mobWinner_ok rounds seed : survivors <> [] -> rounds <> 0%nat ->
  exists v, mobWinner survivors rounds seed = Some (candidateIndex v) /\ v ∈ survivors /\
    (no_nan survivors -> forall w, w ∈ survivors -> candidateHash w = candidateHash v ->
       num_gtb (compositeScore w) (compositeScore v) = false).
Proof.
  intros Hne Hr. unfold mobWinner.
  destruct (mobTally_keys survivors Hne rounds (u32 (fnv1a32 seed)) []) as [Hnil Hkeys]; [set_solver|by left|].
  destruct (fold_left (winnerStep survivors) _ None) as [[h w]|] eqn:E; [|by apply winner_some in E].
  apply winner_in in E as [E|E]; [done|].
  apply (list_elem_of_fmap_2 fst) in E. simpl in E. destruct (Hkeys h E) as (v & Hv & Hh).
  destruct repByHash_ok as [Hs Hrep]. destruct (Hs v Hv) as [r Hg]. rewrite Hh in Hg.
  destruct (Hrep h r Hg) as (Hin & Hrh & Hb). exists r. rewrite Hg. split_and!; [done|done|].
  intros Hn u Hu Huh. apply Hb; [done|done|congruence].
Qed.
End RepFacts.

Lemma mob_verdict_full (verdicts : list CandidateVerdict) (seed : string) (rounds : nat) :
  rounds <> 0%nat ->
  exists o, mobSelectIndex verdicts seed rounds = Ok o /\
    match o with
    | None => forall v, v ∈ verdicts -> killed v = true
    | Some i => exists v, v ∈ verdicts /\ killed v = false /\ candidateIndex v = i /\
        (no_nan verdicts -> forall w, w ∈ verdicts -> killed w = false ->
           candidateHash w = candidateHash v ->
           num_gtb (compositeScore w) (compositeScore v) = false)
    end.
Proof.
  intros Hr.  unfold mobSelectIndex. set (sv := List.filter _ _).
  assert (Hsv : forall v, v ∈ sv <-> v ∈ verdicts /\ killed v = false).
  { intros v. unfold sv. rewrite list_elem_of_In, filter_In, <- list_elem_of_In, negb_true_iff. done. }
  assert (Hnn : no_nan verdicts -> no_nan sv) by (intros H v [Hv _]%Hsv; by apply H).
  clearbody sv. destruct sv as [|v1 [|v2 sv']].
  - exists None. split; [done|]. intros v Hv. destruct (killed v) eqn:Ek; [done|].
    assert (v ∈ @nil CandidateVerdict) by (by apply Hsv). set_solver.
  - exists (Some (candidateIndex v1)). split; [done|]. exists v1.
    destruct (proj1 (Hsv v1)) as [Hv Hk]; [left|]. split_and!; try done.
    intros _ w Hw Hkw _. assert (Hin : w ∈ [v1]) by (by apply Hsv).
    apply list_elem_of_singleton in Hin as ->. apply num_ltb_irrefl.
  - destruct (mobWinner_ok (v1 :: v2 :: sv') rounds seed ltac:(done) Hr) as (v & -> & Hv & Hb).
    eexists. split; [done|]. exists v. apply Hsv in Hv as [Hv Hk]. split_and!; try done.
    intros Hn w Hw Hkw Hh. apply Hb; [by apply Hnn|by apply Hsv|done].
Qed.

Lemma mob_verdict (verdicts : list CandidateVerdict) (seed : string) (rounds : nat) :
  rounds <> 0%nat ->
  exists o, mobSelectIndex verdicts seed rounds = Ok o /\
    match o with
    | None => forall v, v ∈ verdicts -> killed v = true
    | Some i => exists v, v ∈ verdicts /\ killed v = false /\ candidateIndex v = i
    end.
Proof.
  intros Hr. destruct (mob_verdict_full verdicts seed rounds Hr) as ([i|] & Ho & Hs).
  - destruct Hs as (v & ? & ? & ? & _). exists (Some i). split; [done|by exists v].
  - by exists None.
Qed.

(** Majority-of-the-bests never resurrects a killed candidate: with at least
    one bootstrap round it returns [null] exactly when no candidate survived,
    and otherwise the index of a survivor that no survivor with the same answer
    outscores. *)
Theorem mob_selects_survivor (verdicts : list CandidateVerdict) (seed : string) (rounds : nat)
    (Hr : rounds <> 0%nat) :
  exists o, mobSelectIndex verdicts seed rounds = Ok o /\
    match o with
    | None => forall v, v ∈ verdicts -> killed v = true
    | Some i => exists v, v ∈ verdicts /\ killed v = false /\ candidateIndex v = i /\
        (no_nan verdicts -> forall w, w ∈ verdicts -> killed w = false ->
           candidateHash w = candidateHash v ->
           num_gtb (compositeScore w) (compositeScore v) = false)
    end.
Proof. by apply mob_verdict_full. Qed.

(** * The verifier port over the battery *)

Definition emptyVerdict : VerifierVerdict :=
  {| accepted := JNull; acceptedIndex := -1; v_reason := "no candidates (fail-closed)";
     acceptedScore := None |}.

Section Port.
Context `{Hashing} {W : Type}.

(** A verifier port, as the DAG engine calls it. *)
Abbreviation VerifierPort :=
  (W -> list jsval -> DagNodeSpec -> NodeInputs -> W * Reply VerifierVerdict).

Definition bestOfN (verifier : VerifierPort) (w : W) (candidates : list jsval) (node : DagNodeSpec)
    (inputs : NodeInputs) : W * Reply VerifierVerdict :=
  match candidates with
  | [] => (w, Fulfilled emptyVerdict)
  | _ => verifier w candidates node inputs
  end.

Inductive SelectionPolicy := argmax | mob.

(** The index the policy selects, with the note it leaves. *)
Definition selectIndex (policy : SelectionPolicy) (d : BatteryDecision jsval) (i : Z) (seed : string)
    : result (Z * string) :=
  match policy with
  | argmax => Ok (i, "")
  | mob =>
      o ← mobSelectIndex (d_verdicts d) seed MOB_BOOTSTRAP_ROUNDS;
      Ok match o with
         | None => (i, "")
         | Some j => (j, if j =? i then " [mob=argmax]"
                         else (" [mob; argmax was " ++ str_of_Z i ++ "]")%string)
         end
  end.

Definition verdictOf (policy : SelectionPolicy) (candidates : list jsval) (seed : string)
    (d : BatteryDecision jsval) : result VerifierVerdict :=
  match d_acceptedIndex d with
  | None =>
      let joined := join "; " (map rj_reason (d_rejected d)) in
      let why := if (joined =? "")%string then "all candidates killed" else joined in
      Ok {| accepted := JNull; acceptedIndex := -1;
            v_reason := ("best-of-N: " ++ why ++ " (fail-closed)")%string; acceptedScore := None |}
  | Some i =>
      sel ← selectIndex policy d i seed;
      let idx := sel.1 in
      let score := match find_first (fun v => candidateIndex v =? idx) (d_verdicts d) with
                   | Some v => Some (compositeScore v)
                   | None => d_acceptedScore d
                   end in
      let scorePart := match score with
                       | Some x => (" (composite " ++ num_to_string x ++ ")")%string
                       | None => ""
                       end in
      Ok {| accepted := default JUndef (candidates !! Z.to_nat idx); acceptedIndex := idx;
            v_reason := ("best-of-N: accepted candidate " ++ str_of_Z idx ++ scorePart ++ sel.2)%string;
            acceptedScore := score |}
  end.

Definition node_input_val (node : DagNodeSpec) (inputs : NodeInputs) : jsval :=
  JObj [("node", JStr (id node)); ("task", JStr (task node)); ("inputs", JObj inputs)].

(** [batteryVerifier]: its eager guards, then the port.  The clock is read
    once the battery's guards have passed, and again before it returns. *)
Definition batteryVerifier (lenses : list (BatteryLens jsval)) (adrEco : string)
    (clock : W -> W * Z) (voteThreshold : option num) (runId : option string)
    (selection : option SelectionPolicy) : result VerifierPort :=
  let rid := default "best-of-n" runId in
  _ ← throw_if (is_blank adrEco) (JsError "Error"
    ("batteryVerifier: adrEco is mandatory (ADR-068 ADR-traceability invariant); " ++
     "a verifier with no governing decision record is a cargo-cult gate")%string);
  _ ← throw_if (negb (existsb (fun l => negb (bool_decide (l_engine l = llm_judge))) lenses))
    (JsError "Error" ("batteryVerifier: at least one non-llm-judge lens is required " ++
     "(ADR-068 deterministic anchor invariant; learned verifiers are hackable, arXiv:2603.06621)")%string);
  Ok (fun w candidates node inputs =>
    match candidates with
    | [] => (w, Fulfilled emptyVerdict)
    | _ =>
        let '(w1, t0) := clock w in
        let '(w2, t1) := clock w1 in
        match runVerifierBattery (fun c => c) (node_input_val node inputs) candidates lenses rid adrEco
                voteThreshold false t0 t1 with
        | Throw e =>
            (match guards (length candidates) lenses rid adrEco (default half voteThreshold) with
             | Ok _ => w1
             | Throw _ => w
             end, Rejected (err_message e))
        | Ok d =>
            match verdictOf (default argmax selection) candidates (rid ++ "|" ++ id node)%string d with
            | Ok v => (w2, Fulfilled v)
            | Throw e => (w2, Rejected (err_message e))
            end
        end
    end).

(** The battery-backed verifier port is fail-closed under both selection
    policies: it answers [null] when the battery killed every candidate (or
    there was none), and otherwise a candidate the battery let survive, under
    its own index. *)
Lemma batteryVerifier_fail_closed (lenses : list (BatteryLens jsval)) (adrEco : string)
    (clock : W -> W * Z) (vt : option num) (rid : option string) (sel : option SelectionPolicy)
    (port : VerifierPort) (w w' : W) (cands : list jsval) (node : DagNodeSpec) (inputs : NodeInputs)
    (verdict : VerifierVerdict)
    (Hport : batteryVerifier lenses adrEco clock vt rid sel = Ok port)
    (Hcall : port w cands node inputs = (w', Fulfilled verdict)) :
  (cands = [] /\ verdict = emptyVerdict) \/
  exists t0 t1 d, runVerifierBattery (fun c => c) (node_input_val node inputs) cands lenses
      (default "best-of-n" rid) adrEco vt false t0 t1 = Ok d /\
    ((accepted verdict = JNull /\ acceptedIndex verdict = -1 /\
      forall v, v ∈ d_verdicts d -> killed v = true) \/
     (exists k v c, acceptedIndex verdict = Z.of_nat k /\ d_verdicts d !! k = Some v /\
        killed v = false /\ cands !! k = Some c /\ accepted verdict = c)).
Proof.
  unfold batteryVerifier in Hport. apply result_bind_ok in Hport as ([] & _ & Hport).
  apply result_bind_ok in Hport as ([] & _ & Hport). injection Hport as <-.
  destruct cands as [|c0 cs] eqn:Ec; [injection Hcall as <- <-; by left|]. right.
  rewrite <- Ec in *. clear Ec c0 cs.
  destruct (clock w) as [w1 t0]. destruct (clock w1) as [w2 t1]. exists t0, t1.
  destruct (runVerifierBattery _ _ _ _ _ _ _ _ _ _) as [d|e] eqn:Ed; [|done].
  exists d. split; [done|].
  destruct (battery_ok _ _ _ _ _ _ _ _ _ _ _ Ed) as (rows & hashes & Hf).
  assert (Hix : indexed (d_verdicts d)) by (eapply run_indexed; exact Hf).
  assert (Hlen : length (d_verdicts d) = length cands) by (eapply run_length; exact Hf).
  pose proof (selectVerdict_spec _ Hix) as Hsel. pose proof Hf as [_ _ _ _ Hi _ _ _ _ _ _].
  assert (Hsurv : forall k v, d_verdicts d !! k = Some v -> killed v = false ->
      exists c, cands !! k = Some c).
  { intros k v Hv _. apply lookup_lt_is_Some_2. rewrite <- Hlen. by eapply lookup_lt_Some. }
  unfold verdictOf in Hcall. destruct (d_acceptedIndex d) as [i|].
  - right. destruct (selectVerdict (d_verdicts d)) as [[i' x]|]; [|done]. injection Hi as <-.
    destruct Hsel as (k & v & -> & -> & Hv & Hk & _).
    assert (Hidx : forall p, selectIndex (default argmax sel) d (Z.of_nat k)
        (default "best-of-n" rid ++ "|" ++ id node)%string = Ok p ->
        exists k' v' c, p.1 = Z.of_nat k' /\ d_verdicts d !! k' = Some v' /\ killed v' = false /\
          cands !! k' = Some c).
    { intros p Hp. destruct (Hsurv k v Hv Hk) as [c Hc]. unfold selectIndex in Hp.
      destruct (default argmax sel); [injection Hp as <-; by exists k, v, c|].
      destruct (mob_verdict (d_verdicts d) (default "best-of-n" rid ++ "|" ++ id node)%string
        MOB_BOOTSTRAP_ROUNDS ltac:(done)) as (o & Ho & Hspec).
      rewrite Ho in Hp. injection Hp as <-. destruct o as [j|]; [|by exists k, v, c].
      destruct Hspec as (u & Hu & Hku & Hju). apply list_elem_of_lookup in Hu as [k' Hu].
      destruct (Hsurv k' u Hu Hku) as [c' Hc']. exists k', u, c'. split_and!; try done.
      simpl. rewrite <- Hju. by apply Hix. }
    destruct (selectIndex _ _ _ _) as [p|e]; [|done].
    destruct (Hidx p eq_refl) as (k' & v' & c & Hp & Hv' & Hk' & Hc).
    unfold mbind in Hcall. cbn [result_bind] in Hcall. injection Hcall as _ <-.
    cbn [accepted acceptedIndex]. exists k', v', c. rewrite Hp, Nat2Z.id, Hc. done.
  - left. injection Hcall as _ <-. cbn [accepted acceptedIndex].
    destruct (selectVerdict (d_verdicts d)); done.
Qed.
End Port.
