(* ===== verification/BatteryWitnesses.v ===== *)
(** Concrete battery decisions, envelopes, gates and delegations: the theorems
    applied to them, and the negative-zero score. *)

From S2P Require Import Prelude JsNum JsValue DagTypes Canonical Battery BatteryProps.
From S2P Require Import GateEnvelope ActionGate Delegation BestOfN.
From Stdlib Require Import SpecFloat.
Open Scope js_scope.

(** A digest and a printer to compute with. *)
Definition toyHashing : Hashing :=
  {| rfcCanonicalize := fun v => match v with JStr s => s | JObj ((k, _) :: _) => k | _ => "?" end;
     sha256 := fun s => ("h:" ++ s)%string |}.

Definition scoreLens (n : string) (p : Polarity) (c : Criticality) (f : jsval -> num)
    : BatteryLens jsval :=
  {| l_name := n; l_evaluate := fun v => Ok (ResultObj (ScoreNum (f v)) (RatStr "r"));
     l_polarity := p; l_criticality := c; l_engine := rule; l_model := None |}.

(** Candidate "bad" is refused by the hard lens, "ok" scores higher than "meh". *)
Definition quality (v : jsval) : num :=
  match v with
  | JStr s => if (s =? "ok")%string then num_one
              else if (s =? "meh")%string then num_of_decimal 6 1 else num_zero
  | _ => num_zero
  end.

Definition toyLenses : list (BatteryLens jsval) :=
  [scoreLens "anchor" affirm hard quality; scoreLens "style" refute soft (fun _ => num_of_decimal 1 1)].

Definition toyRun (cands : list jsval) : result (BatteryDecision jsval) :=
  @runVerifierBattery toyHashing jsval (fun c => c) JNull cands toyLenses "run" "ADR" None false 0 1.

Lemma battery_selects_witness :
  exists d, toyRun [JStr "bad"; JStr "meh"; JStr "ok"] = Ok d /\ d_acceptedIndex d = Some 2 /\
    length (d_verdicts d) = 3%nat.
Proof.
  eexists. split; [vm_compute; reflexivity|]. split; [vm_compute; reflexivity|].
  refine (proj1 (@battery_selects toyHashing jsval (fun c => c) JNull
    [JStr "bad"; JStr "meh"; JStr "ok"] toyLenses "run" "ADR" None false 0 1 _ _)).
  vm_compute. reflexivity.
Defined.

Lemma battery_rejects_witness :
  exists d, toyRun [JStr "bad"; JStr "meh"; JStr "ok"] = Ok d /\
    map rj_index (d_rejected d) = [0; 1].
Proof.
  eexists. split; [vm_compute; reflexivity|].
  etransitivity; [refine (proj1 (@battery_rejects toyHashing jsval (fun c => c) JNull
    [JStr "bad"; JStr "meh"; JStr "ok"] toyLenses "run" "ADR" None false 0 1 _ _))|];
    vm_compute; reflexivity.
Defined.

(** ** A negative-zero score *)

Definition negZero : num := S754_zero true.

(** A lens that scores negative zero passes the runtime guard on verifier
    results (it is a finite number in [0,1]) and yet aborts the whole battery:
    canonical serialization of the decision core rejects it. *)
Theorem negative_zero_aborts :
  assertVerifierResult (ResultObj (ScoreNum negZero) (RatStr "r")) = Ok (mkResult negZero "r") /\
  exists path, @runVerifierBattery toyHashing jsval (fun c => c) JNull [JStr "c"]
      [scoreLens "anchor" affirm hard (fun _ => negZero)] "run" "ADR" None false 0 1 =
    Throw (NonSerializablePayloadError "-0 is not serializable" path).
Proof.
  split; [vm_compute; reflexivity|].
  exists ["verdicts"; "0"; "lensVerdicts"; "0"; "rawScore"]. vm_compute. reflexivity.
Qed.

(** ** Envelopes *)

Definition toyParams : BuildGateEnvelopeParams :=
  {| bp_runId := "r"; bp_stageId := "s"; bp_attempt := 1; bp_commit := "c";
     bp_producerId := "p"; bp_keyid := "k" |}.
Definition toySign (s : string) : string := ("sig:" ++ s)%string.
Definition toyVerify (s g : string) : result bool := Ok (g =? toySign s)%string.

Lemma toy_scheme s : toySign s <> "" /\ toyVerify s (toySign s) = Ok true.
Proof. split; [done|]. unfold toyVerify. by rewrite String.eqb_refl. Qed.

Lemma envelope_verifies_witness :
  exists e r, (d ← toyRun [JStr "ok"];
               @signGateEnvelope toyHashing (buildGateEnvelope toyParams d) toySign) = Ok e /\
    @verifyGateEnvelope toyHashing e toyVerify = Ok r /\
    @recomputeOutputHash toyHashing (ge_decisionCore e) = Ok (ge_outputHash e).
Proof.
  eexists _, _. split; [vm_compute; reflexivity|]. split; [vm_compute; reflexivity|].
  match goal with |- @recomputeOutputHash _ (ge_decisionCore ?e) = _ =>
    refine (proj1 (proj2 (proj1 (@envelope_verifies toyHashing e toyVerify (mkVerification true []) _) _)))
  end; [vm_compute; reflexivity|reflexivity].
Defined.

Lemma envelope_roundtrip_witness :
  exists e r, (d ← toyRun [JStr "bad"];
               @signGateEnvelope toyHashing (buildGateEnvelope toyParams d) toySign) = Ok e /\
    @verifyGateEnvelope toyHashing e toyVerify = Ok r.
Proof.
  destruct (toyRun [JStr "bad"]) as [d|err] eqn:Ed; [|vm_compute in Ed; discriminate Ed].
  destruct (@signGateEnvelope toyHashing (buildGateEnvelope toyParams d) toySign) as [e|err] eqn:Ee.
  2:{ vm_compute in Ed. injection Ed as <-. vm_compute in Ee. discriminate Ee. }
  destruct (@envelope_roundtrip toyHashing jsval (fun c => c) JNull [JStr "bad"] toyLenses "run" "ADR"
    None false 0 1 d toyParams toySign toyVerify e Ed toy_scheme Ee) as (r & Hr & _).
  exists e, r. split; [exact Ee|exact Hr].
Defined.

(** ** Gates and delegation *)

Definition toyCall (tool : string) : ActionGateCall :=
  {| toolName := tool; args := JNull; budgetUsed := num_zero |}.

Lemma batteryGate_fail_closed_witness :
  exists v, @batteryActionGate toyHashing jsval (fun c => c) (fun c => JStr (toolName c)) toyLenses
      "ADR" "run" None 0 1 (toyCall "bad") = Ok v /\
    exists a, gate_audit v = Some a /\ as_runId a = "run".
Proof.
  eexists. split; [vm_compute; reflexivity|].
  refine (proj1 (@batteryGate_fail_closed toyHashing jsval (fun c => c) (fun c => JStr (toolName c))
    toyLenses "ADR" "run" None 0 1 (toyCall "bad") _ _)). vm_compute. reflexivity.
Defined.

Definition toyPlan : result DelegationPlan :=
  @delegate toyHashing ["web_search"; "spawn_agent"] "t"
    (Some {| dg_tools := Some ["web_search"; "shell"]; dg_maxSteps := None |}) "run" None [] 0 1.

Lemma delegate_enforces_witness :
  exists plan, toyPlan = Ok plan /\ p_attenuatedTools plan = [] /\
    (p_allowed plan = true <-> escalation (attenuate ["web_search"; "spawn_agent"]
       (Some {| dg_tools := Some ["web_search"; "shell"]; dg_maxSteps := None |}) []) = []).
Proof.
  assert (Htools : p_attenuatedTools <$> toyPlan = Ok []) by (vm_compute; reflexivity).
  destruct toyPlan as [plan|e] eqn:E; [|discriminate Htools].
  exists plan. split; [reflexivity|].
  pose proof (@delegate_enforces toyHashing ["web_search"; "spawn_agent"] "t"
    (Some {| dg_tools := Some ["web_search"; "shell"]; dg_maxSteps := None |}) "run" None [] 0 1
    plan E) as (Hallowed & _). split; [|exact Hallowed].
  injection Htools as Htools. exact Htools.
Defined.

(** ** Best-of-N *)

Definition toyVerdict (i : Z) (h : string) (k : bool) (x : num) : CandidateVerdict :=
  mkVerdict i h [] k None x.
Definition toyVerdicts : list CandidateVerdict :=
  [toyVerdict 0 "b" false num_one; toyVerdict 1 "a" false num_one; toyVerdict 2 "a" false num_one;
   toyVerdict 3 "a" true num_one].

Lemma mob_selects_survivor_witness :
  mobSelectIndex toyVerdicts "seed" 25 = Ok (Some 1) /\
  exists o, mobSelectIndex toyVerdicts "seed" 25 = Ok o.
Proof.
  split; [vm_compute; reflexivity|].
  destruct (mob_selects_survivor toyVerdicts "seed" 25 ltac:(discriminate)) as (o & Ho & _).
  exists o. exact Ho.
Defined.

Definition toyNode : DagNodeSpec :=
  {| id := "n"; task := "t"; dependsOn := None; mapOver := None; samples := Some 2;
     timeoutMs := None; grant := None; model := None; runIf := None; maxTimeoutRetries := None |}.

Lemma batteryVerifier_fail_closed_witness :
  exists port w' verdict,
    @batteryVerifier toyHashing Z toyLenses "ADR" (fun w => (w + 1, w)) None None (Some mob) = Ok port /\
    port 0 [JStr "meh"; JStr "ok"] toyNode [] = (w', Fulfilled verdict) /\ w' = 2 /\
    accepted verdict = JStr "ok".
Proof.
  destruct (@batteryVerifier toyHashing Z toyLenses "ADR" (fun w => (w + 1, w)) None None (Some mob))
    as [port|e] eqn:Ep; [|discriminate Ep].
  assert (Hc : exists verdict, port 0 [JStr "meh"; JStr "ok"] toyNode [] = (2, Fulfilled verdict) /\
      accepted verdict = JStr "ok").
  { unfold batteryVerifier in Ep. injection Ep as <-. eexists. split; vm_compute; reflexivity. }
  destruct Hc as (verdict & Hc & Ha). exists port, 2, verdict.
  destruct (@batteryVerifier_fail_closed toyHashing Z toyLenses "ADR" (fun w => (w + 1, w)) None None
    (Some mob) port 0 2 [JStr "meh"; JStr "ok"] toyNode [] verdict Ep Hc) as [[H _]|_];
    [discriminate H|].
  split; [reflexivity|]. split; [exact Hc|]. split; [reflexivity|exact Ha].
Defined.
