(* ===== verification/Regex.v ===== *)
(** Regular expressions of the language.

    The guards over model output and tool results are [RegExp] literals.  This
    file renders the part of the language they use: a parser of the pattern
    text and a backtracking matcher (leftmost, ordered alternatives, greedy and
    lazy quantifiers, groups, word boundaries, negative look-ahead, the flags
    [g] and [i]), over code units below 256.  Matching is total: a quantifier
    iterates at most [min] times plus once per remaining character, because an
    iteration past the minimum that consumes nothing fails. *)

From S2P Require Import Prelude.
From Stdlib Require Import Ascii.

Inductive regex : Type :=
| REmpty
| RClass (p : ascii -> bool)
| RSeq (a b : regex)
| RAlt (a b : regex)
| RRep (min : nat) (max : option nat) (greedy : bool) (r : regex)
| RGroup (i : nat) (r : regex)
| RBoundary
| RNotAhead (r : regex)
| RStart
| REnd.

(** * Characters *)

Definition code (c : ascii) : nat := nat_of_ascii c.
Definition in_range (lo hi : nat) (c : ascii) : bool := ((lo <=? code c) && (code c <=? hi))%nat.
Definition is_digit (c : ascii) : bool := in_range 48 57 c.
Definition is_upper (c : ascii) : bool := in_range 65 90 c.
Definition is_lower (c : ascii) : bool := in_range 97 122 c.
Definition is_word (c : ascii) : bool := is_digit c || is_upper c || is_lower c || (code c =? 95)%nat.

(** Upper and lower case of a code unit, where both are code units below 256. *)
Definition to_lower (c : ascii) : ascii :=
  if is_upper c || (in_range 192 222 c && negb (code c =? 215)%nat)
  then ascii_of_nat (code c + 32) else c.
Definition to_upper (c : ascii) : ascii :=
  if is_lower c || (in_range 224 254 c && negb (code c =? 247)%nat)
  then ascii_of_nat (code c - 32) else c.

Fixpoint str_map (f : ascii -> ascii) (s : string) : string :=
  match s with EmptyString => EmptyString | String c s' => String (f c) (str_map f s') end.

(** [s.toLowerCase()]. *)
Definition lower (s : string) : string := str_map to_lower s.

(** A class under the flag [i]: some character of the same case folding is in it. *)
Definition fold_case (i : bool) (p : ascii -> bool) (c : ascii) : bool :=
  if i then p c || p (to_lower c) || p (to_upper c) else p c.

(** * Matching *)

(** Where the matcher is: the character before, the text after, the groups
    captured so far. *)
Record mstate := mkM { m_prev : option ascii; m_rest : string; m_caps : list (nat * string) }.

Definition word_before (s : mstate) : bool :=
  match m_prev s with Some c => is_word c | None => false end.
Definition word_after (s : mstate) : bool :=
  match m_rest s with String c _ => is_word c | EmptyString => false end.

(** What was consumed between two positions. *)
Definition str_take (n : nat) (s : string) : string := String.substring 0 n s.
Definition consumed (s s' : mstate) : string :=
  str_take (String.length (m_rest s) - String.length (m_rest s')) (m_rest s).

Definition or_else {A} (a b : option A) : option A := match a with Some _ => a | None => b end.

Definition pred_opt (m : option nat) : option nat := match m with Some n => Some (pred n) | None => None end.

Section Quantifier.
Context {A : Type} (body : mstate -> (mstate -> option A) -> option A) (k : mstate -> option A).

(** [r{min,max}]: at most [n] iterations. *)
Fixpoint repeat_match (n : nat) (min : nat) (max : option nat) (greedy : bool) (s : mstate) : option A :=
  match n with
  | O => None
  | S n' =>
      if (match max with Some O => true | _ => false end) then k s
      else
        let again := body s (fun s' =>
          if (min =? 0)%nat && (String.length (m_rest s') =? String.length (m_rest s))%nat then None
          else repeat_match n' (pred min) (pred_opt max) greedy s') in
        if (0 <? min)%nat then again
        else if greedy then or_else again (k s) else or_else (k s) again
  end.
End Quantifier.

Fixpoint rmatch {A} (r : regex) (s : mstate) (k : mstate -> option A) : option A :=
  match r with
  | REmpty => k s
  | RClass p =>
      match m_rest s with
      | String c rest => if p c then k (mkM (Some c) rest (m_caps s)) else None
      | EmptyString => None
      end
  | RSeq a b => rmatch a s (fun s' => rmatch b s' k)
  | RAlt a b => or_else (rmatch a s k) (rmatch b s k)
  | RRep min max greedy r =>
      repeat_match (fun s k => rmatch r s k) k (S (min + String.length (m_rest s))) min max greedy s
  | RGroup i r =>
      rmatch r s (fun s' => k (mkM (m_prev s') (m_rest s') (om_set i (consumed s s') (m_caps s'))))
  | RBoundary => if xorb (word_before s) (word_after s) then k s else None
  | RNotAhead r => match rmatch r s (fun _ => Some tt) with Some _ => None | None => k s end
  | RStart => match m_prev s with None => k s | Some _ => None end
  | REnd => match m_rest s with EmptyString => k s | _ => None end
  end.

(** A match: the text before it from the starting position, the match, its
    groups, the text after it. *)
Record rmatched := mkMatch {
  before : string; matched : string; groups : list (nat * string); after : string; last : option ascii
}.

Definition match_here (r : regex) (prev : option ascii) (s : string) : option mstate :=
  rmatch r (mkM prev s []) Some.

(** [re.exec(s)] from a position: the leftmost match. *)
Fixpoint exec_from (r : regex) (prev : option ascii) (s : string) : option rmatched :=
  match match_here r prev s with
  | Some m =>
      Some (mkMatch EmptyString (consumed (mkM prev s []) m) (m_caps m) (m_rest m) (m_prev m))
  | None =>
      match s with
      | EmptyString => None
      | String c s' =>
          match exec_from r (Some c) s' with
          | Some m => Some (mkMatch (String c (before m)) (matched m) (groups m) (after m) (last m))
          | None => None
          end
      end
  end.

Definition exec (r : regex) (s : string) : option rmatched := exec_from r None s.
(** [re.test(s)]. *)
Definition re_test (r : regex) (s : string) : bool :=
  match exec r s with Some _ => true | None => false end.

(** All the matches of a global expression: each search starts after the
    previous match, one character further when it was empty. *)
Fixpoint exec_all_from (n : nat) (r : regex) (prev : option ascii) (s : string) : list rmatched :=
  match n with
  | O => []
  | S n' =>
      match exec_from r prev s with
      | None => []
      | Some m =>
          m :: (match matched m, after m with
                | EmptyString, EmptyString => []
                | EmptyString, String c rest => exec_all_from n' r (Some c) rest
                | _, rest => exec_all_from n' r (last m) rest
                end)
      end
  end.
Definition exec_all (r : regex) (s : string) : list rmatched :=
  exec_all_from (S (String.length s)) r None s.

(** [s.replace(re, text)] for a global expression and a replacement without
    [$]. *)
Fixpoint replace_from (n : nat) (r : regex) (by_ : string) (prev : option ascii) (s : string) : string :=
  match n with
  | O => s
  | S n' =>
      match exec_from r prev s with
      | None => s
      | Some m =>
          (before m ++ by_ ++
           (match matched m, after m with
            | EmptyString, EmptyString => EmptyString
            | EmptyString, String c rest => String c (replace_from n' r by_ (Some c) rest)
            | _, rest => replace_from n' r by_ (last m) rest
            end))%string
      end
  end.
Definition replace_all (r : regex) (by_ : string) (s : string) : string :=
  replace_from (S (String.length s)) r by_ None s.

(** [s.split(re)] for an expression that matches no empty text and has no
    group. *)
Fixpoint split_from (n : nat) (r : regex) (prev : option ascii) (s : string) : list string :=
  match n with
  | O => [s]
  | S n' =>
      match exec_from r prev s with
      | None => [s]
      | Some m => before m :: split_from n' r (last m) (after m)
      end
  end.
Definition re_split (r : regex) (s : string) : list string :=
  split_from (S (String.length s)) r None s.

(** * Pattern text

    The parser of pattern text, so that definitions show the expressions as the
    code writes them.  It covers classes, escapes, groups, alternatives and
    quantifiers; [None] on anything else. *)

Definition hex_digit (c : ascii) : option nat :=
  if is_digit c then Some (code c - 48)%nat
  else if in_range 97 102 c then Some (code c - 87)%nat
  else if in_range 65 70 c then Some (code c - 55)%nat else None.

Definition is_space_class (c : ascii) : bool := is_js_space c.

(** After a backslash: a class, or one character. *)
Definition escape (s : string) : option ((ascii -> bool) * option ascii * string) :=
  match s with
  | String c rest =>
      let one a := Some (Ascii.eqb a, Some a, rest) in
      if Ascii.eqb c "d" then Some (is_digit, None, rest)
      else if Ascii.eqb c "w" then Some (is_word, None, rest)
      else if Ascii.eqb c "s" then Some (is_space_class, None, rest)
      else if Ascii.eqb c "D" then Some ((fun a => negb (is_digit a)), None, rest)
      else if Ascii.eqb c "W" then Some ((fun a => negb (is_word a)), None, rest)
      else if Ascii.eqb c "S" then Some ((fun a => negb (is_space_class a)), None, rest)
      else if Ascii.eqb c "n" then one "010"%char
      else if Ascii.eqb c "r" then one "013"%char
      else if Ascii.eqb c "t" then one "009"%char
      else if Ascii.eqb c "x" then
        match rest with
        | String h (String l rest') =>
            match hex_digit h, hex_digit l with
            | Some a, Some b =>
                let ch := ascii_of_nat (16 * a + b) in Some (Ascii.eqb ch, Some ch, rest')
            | _, _ => None
            end
        | _ => None
        end
      else if is_word c then None
      else one c
  | EmptyString => None
  end.

(** One member of a class, and the single character it stands for if any. *)
Definition class_atom (s : string) : option ((ascii -> bool) * option ascii * string) :=
  match s with
  | String "\" rest => escape rest
  | String c rest => Some (Ascii.eqb c, Some c, rest)
  | EmptyString => None
  end.

(** The members up to the closing bracket. *)
Fixpoint class_members (n : nat) (s : string) : option ((ascii -> bool) * string) :=
  match n with
  | O => None
  | S n' =>
      match s with
      | String "]" rest => Some ((fun _ => false), rest)
      | _ =>
          match class_atom s with
          | Some (p, Some lo, String "-" (String c rest)) =>
              if Ascii.eqb c "]" then
                '(q, rest') ← class_members n' (String "-" (String c rest));
                Some ((fun a => p a || q a), rest')
              else
                match class_atom (String c rest) with
                | Some (_, Some hi, rest1) =>
                    '(q, rest') ← class_members n' rest1;
                    Some ((fun a => in_range (code lo) (code hi) a || q a), rest')
                | _ => None
                end
          | Some (p, _, rest) =>
              '(q, rest') ← class_members n' rest; Some ((fun a => p a || q a), rest')
          | None => None
          end
      end
  end.

(** A decimal number. *)
Fixpoint number (s : string) (acc : option nat) : option nat * string :=
  match s with
  | String c rest =>
      if is_digit c then number rest (Some (10 * default 0 acc + (code c - 48))%nat) else (acc, s)
  | EmptyString => (acc, s)
  end.

(** A trailing [?] makes a quantifier lazy. *)
Definition with_greed (mk : bool -> regex) (s : string) : regex * string :=
  match s with String "?" rest => (mk false, rest) | _ => (mk true, s) end.

Definition quantifier (r : regex) (s : string) : option (regex * string) :=
  match s with
  | String "*" rest => Some (with_greed (fun g => RRep 0 None g r) rest)
  | String "+" rest => Some (with_greed (fun g => RRep 1 None g r) rest)
  | String "?" rest => Some (with_greed (fun g => RRep 0 (Some 1%nat) g r) rest)
  | String "{" rest =>
      match number rest None with
      | (Some lo, String "}" rest') => Some (with_greed (fun g => RRep lo (Some lo) g r) rest')
      | (Some lo, String "," rest') =>
          match number rest' None with
          | (hi, String "}" rest'') => Some (with_greed (fun g => RRep lo hi g r) rest'')
          | _ => None
          end
      | _ => None
      end
  | _ => Some (r, s)
  end.

Section Parse.
Context (i : bool).

Definition cls (p : ascii -> bool) : regex := RClass (fold_case i p).

(** Alternatives, then terms; [g] counts the capturing groups. *)
Fixpoint parse_alt (n : nat) (g : nat) (s : string) : option (regex * nat * string) :=
  match n with
  | O => None
  | S n' =>
      '(a, g1, rest) ← parse_terms n' g s;
      match rest with
      | String "|" rest' => '(b, g2, rest2) ← parse_alt n' g1 rest'; Some (RAlt a b, g2, rest2)
      | _ => Some (a, g1, rest)
      end
  end
with parse_terms (n : nat) (g : nat) (s : string) : option (regex * nat * string) :=
  match n with
  | O => None
  | S n' =>
      match s with
      | EmptyString | String "|" _ | String ")" _ => Some (REmpty, g, s)
      | _ =>
          '(a, g1, rest) ← parse_atom n' g s;
          '(a', rest1) ← quantifier a rest;
          '(b, g2, rest2) ← parse_terms n' g1 rest1;
          Some (RSeq a' b, g2, rest2)
      end
  end
with parse_atom (n : nat) (g : nat) (s : string) : option (regex * nat * string) :=
  match n with
  | O => None
  | S n' =>
      let closed wrap r := match r with
        | Some (a, g1, String ")" rest) => Some (wrap a, g1, rest)
        | _ => None
        end in
      match s with
      | String "(" (String "?" (String ":" rest)) => closed (fun a => a) (parse_alt n' g rest)
      | String "(" (String "?" (String "!" rest)) => closed RNotAhead (parse_alt n' g rest)
      | String "(" rest => closed (RGroup (S g)) (parse_alt n' (S g) rest)
      | String "[" (String "^" rest) =>
          '(p, rest') ← class_members n' rest;
          Some (RClass (fun a => negb (fold_case i p a)), g, rest')
      | String "[" rest => '(p, rest') ← class_members n' rest; Some (cls p, g, rest')
      | String "\" (String "b" rest) => Some (RBoundary, g, rest)
      | String "\" rest => '(p, _, rest') ← escape rest; Some (cls p, g, rest')
      | String "^" rest => Some (RStart, g, rest)
      | String "$" rest => Some (REnd, g, rest)
      | String "." rest =>
          Some (RClass (fun a => negb ((code a =? 10)%nat || (code a =? 13)%nat)), g, rest)
      | String c rest => if str_includes (String c EmptyString) "*+?{}])" then None
                         else Some (cls (Ascii.eqb c), g, rest)
      | EmptyString => None
      end
  end.

Definition parse (s : string) : option regex :=
  match parse_alt (4 * String.length s + 4) 0 s with
  | Some (r, _, EmptyString) => Some r
  | _ => None
  end.
End Parse.

(** The literals [/s/] and [/s/i]; a text outside the grammar matches nothing. *)
Definition RNever : regex := RClass (fun _ => false).
Definition re (s : string) : regex := default RNever (parse false s).
Definition re_i (s : string) : regex := default RNever (parse true s).

Example exec_greedy : matched <$> exec (re "[a-f0-9]{2,4}") "xz0a1b2" = Some "0a1b".
Proof. vm_compute. reflexivity. Qed.
Example exec_lazy : matched <$> exec (re "a.*?b") "xaab ab" = Some "aab".
Proof. vm_compute. reflexivity. Qed.
Example exec_group :
  groups <$> exec (re "<([a-z]+(?:_[a-z]+)+)\b[^>]*>") "see <brain_query q=1/>" = Some [(1%nat, "brain_query")].
Proof. vm_compute. reflexivity. Qed.
Example exec_ahead : re_test (re_i "\bNOT\s+(?!yet\b)\w+") "not yet" = false.
Proof. vm_compute. reflexivity. Qed.
Example replace_ex : replace_all (re "\d+") "#" "a12b3" = "a#b#".
Proof. vm_compute. reflexivity. Qed.
Example replace_empty : replace_all (re "x*") "-" "axb" = "-a--b-".
Proof. vm_compute. reflexivity. Qed.
Example split_ex : re_split (re "&&|[|;]") "ls && cat|wc" = ["ls "; " cat"; "wc"].
Proof. vm_compute. reflexivity. Qed.

(** * What a match is *)

(** [s'] is a later position in the same text. *)
Definition later (s s' : mstate) : Prop := exists t, m_rest s = (t ++ m_rest s')%string.

Lemma later_refl s s' : m_rest s = m_rest s' -> later s s'.
Proof. intros E. by exists "". Qed.

Lemma later_trans s1 s2 s3 : later s1 s2 -> later s2 s3 -> later s1 s3.
Proof. intros [t1 E1] [t2 E2]. exists (t1 ++ t2)%string. by rewrite E1, E2, str_app_assoc. Qed.

(** A computation that succeeds has called its continuation at a later
    position. *)
Definition advances {A} (f : mstate -> (mstate -> option A) -> option A) : Prop :=
  forall s k a, f s k = Some a -> exists s', later s s' /\ k s' = Some a.

Lemma or_else_some {A} (a b : option A) v : or_else a b = Some v -> a = Some v \/ b = Some v.
Proof. destruct a; simpl; auto. Qed.

Lemma repeat_match_advances {A} body n :
  advances body -> forall (k : mstate -> option A) min max greedy s a,
  repeat_match body k n min max greedy s = Some a -> exists s', later s s' /\ k s' = Some a.
Proof.
  intros Hb k. induction n as [|n IH]; intros min max greedy s a H; [done|]. cbn [repeat_match] in H. cbv zeta in H.
  destruct (match max with Some O => true | _ => false end); [by exists s; split; [apply later_refl|]|].
  assert (Hagain : forall v, body s (fun s' =>
      if (min =? 0)%nat && (String.length (m_rest s') =? String.length (m_rest s))%nat then None
      else repeat_match body k n (pred min) (pred_opt max) greedy s') = Some v ->
    exists s', later s s' /\ k s' = Some v).
  { intros v (s1 & L1 & H1)%Hb. destruct (_ && _); [done|].
    apply IH in H1 as (s2 & L2 & H2). exists s2. split; [exact (later_trans _ _ _ L1 L2)|done]. }
  destruct (0 <? min)%nat; [exact (Hagain _ H)|].
  assert (Hk : k s = Some a -> exists s', later s s' /\ k s' = Some a)
    by (exists s; split; [by apply later_refl|done]).
  destruct greedy; apply or_else_some in H as [H|H]; [exact (Hagain _ H)|exact (Hk H)| |];
    [exact (Hk H)|exact (Hagain _ H)].
Qed.

Lemma rmatch_advances {A} (r : regex) : advances (@rmatch A r).
Proof.
  induction r as [|p|a IHa b IHb|a IHa b IHb|min max g r IH|i r IH| |r IH| |]; intros s k v H; cbn [rmatch] in H.
  - exists s. split; [by apply later_refl|done].
  - destruct (m_rest s) as [|c rest] eqn:E; [done|]. destruct (p c); [|done].
    eexists (mkM _ _ _). split; [|exact H]. exists (String c ""). by rewrite E.
  - apply IHa in H as (s1 & L1 & H). apply IHb in H as (s2 & L2 & H).
    exists s2. split; [exact (later_trans _ _ _ L1 L2)|done].
  - apply or_else_some in H as [H|H]; [by apply IHa in H|by apply IHb in H].
  - by eapply repeat_match_advances in H.
  - apply IH in H as (s1 & L1 & H). eexists (mkM _ _ _). split; [|exact H]. destruct L1 as [t E].
    by exists t.
  - destruct (xorb _ _); [|done]. exists s. split; [by apply later_refl|done].
  - destruct (rmatch r s _); [done|]. exists s. split; [by apply later_refl|done].
  - destruct (m_prev s); [done|]. exists s. split; [by apply later_refl|done].
  - destruct (m_rest s) eqn:E; [|done]. exists s. split; [by apply later_refl|done].
Qed.

Lemma str_take_app a b : str_take (String.length a) (a ++ b) = a.
Proof.
  unfold str_take. induction a as [|c a IH]; [by destruct b|]. exact (f_equal (String c) IH).
Qed.

Lemma consumed_app s s' t : m_rest s = (t ++ m_rest s')%string -> consumed s s' = t.
Proof.
  intros E. unfold consumed. rewrite E, str_length_app.
  replace (String.length t + String.length (m_rest s') - String.length (m_rest s'))%nat
    with (String.length t) by lia. apply str_take_app.
Qed.

(** The three parts of a match make up the text. *)
Lemma match_here_parts r prev s s' :
  match_here r prev s = Some s' -> s = (consumed (mkM prev s []) s' ++ m_rest s')%string.
Proof.
  intros (s1 & [t E] & [= ->])%rmatch_advances. cbn in E.
  by rewrite (consumed_app (mkM prev s []) s' t E).
Qed.

Lemma exec_from_parts r prev s m :
  exec_from r prev s = Some m -> s = (before m ++ matched m ++ after m)%string.
Proof.
  revert prev m. induction s as [|c s IH]; intros prev m H; cbn [exec_from] in H;
    destruct (match_here r prev _) as [s'|] eqn:E; try done.
  1, 2: by injection H as <-; exact (match_here_parts _ _ _ _ E).
  destruct (exec_from r (Some c) s) as [m'|] eqn:E'; [|done]. injection H as <-.
  exact (f_equal (String c) (IH _ _ E')).
Qed.

Lemma exec_parts r s m : exec r s = Some m -> s = (before m ++ matched m ++ after m)%string.
Proof. apply exec_from_parts. Qed.

Lemma replace_all_none r by_ s : re_test r s = false -> replace_all r by_ s = s.
Proof.
  unfold re_test, exec, replace_all. cbn [replace_from]. destruct (exec_from r None s); [done|done].
Qed.
