(* ===== verification/Json.v ===== *)
(** [JSON.stringify], [String(v)] and key-sorted printing.

    Tool arguments and tool results are compared, cached and shown as text.
    The order of an object's own properties is the language's: keys that are
    array indices first, ascending, then the others in insertion order.  A
    payload is a tree, so the circular-reference branches of the walks that
    sort keys have no counterpart, and bytes are a [Uint8Array]. *)

From S2P Require Import Prelude JsNum JsValue Canonical.
From Stdlib Require Import Ascii.

(** * Own properties *)

Fixpoint digits_value (s : string) (acc : Z) : option Z :=
  match s with
  | EmptyString => Some acc
  | String c s' =>
      let d := Z.of_nat (nat_of_ascii c) - 48 in
      if (0 <=? d) && (d <=? 9) then digits_value s' (10 * acc + d) else None
  end.

(** The key [k] as an array index: the decimal text of an integer below [2^32 - 1]. *)
Definition array_index (k : string) : option Z :=
  match k with
  | EmptyString => None
  | String "0" (String _ _) => None
  | _ => match digits_value k 0 with
         | Some n => if n <? 4294967295 then Some n else None
         | None => None
         end
  end.

Definition index_of {V} (kv : string * V) : Z := default 0 (array_index kv.1).

(** Entries in own-property order. *)
Definition own_order {V} (l : list (string * V)) : list (string * V) :=
  sort_by (fun a b => Z.compare (index_of a) (index_of b))
    (filter (fun kv => is_Some (array_index kv.1)) l) ++
  filter (fun kv => ~ is_Some (array_index kv.1)) l.

(** * [String(v)]

    The text of a date is in the local time zone, that of a function is its
    source: both come from the platform. *)
Class Printing := { date_string : Z -> string; fun_string : string }.

Section Print.
Context `{Printing}.

Fixpoint js_String (v : jsval) : string :=
  match v with
  | JUndef => "undefined"
  | JNull => "null"
  | JBool b => if b then "true" else "false"
  | JNum x => num_to_string x
  | JStr s => s
  | JBigInt z => str_of_Z z
  | JDate None => "Invalid Date"
  | JDate (Some ms) => date_string ms
  | JBytes l => join "," (map str_of_Z l)
  | JArr l =>
      join "," (map (fun v => match v with JUndef | JNull => EmptyString | _ => js_String v end) l)
  | JObj _ => "[object Object]"
  | JFun => fun_string
  end.
End Print.

(** * [JSON.stringify] *)

Definition hex_char (n : nat) : ascii :=
  ascii_of_nat (if (n <? 10)%nat then 48 + n else 87 + n).

Definition json_char (c : ascii) : string :=
  let n := nat_of_ascii c in
  if (n =? 34)%nat then String "\" dquote
  else if (n =? 92)%nat then "\\"
  else if (n =? 8)%nat then "\b"
  else if (n =? 9)%nat then "\t"
  else if (n =? 10)%nat then "\n"
  else if (n =? 12)%nat then "\f"
  else if (n =? 13)%nat then "\r"
  else if (n <? 32)%nat then
    ("\u00" ++ String (hex_char (n / 16)) (String (hex_char (n mod 16)) EmptyString))%string
  else String c EmptyString.

Fixpoint json_chars (s : string) : string :=
  match s with EmptyString => EmptyString | String c s' => (json_char c ++ json_chars s')%string end.
Definition json_quote (s : string) : string := quoted (json_chars s).

(** Items, where an absent text is [null]; fields, where it drops the key. *)
Definition json_items (f : jsval -> result (option string)) : list jsval -> result (list string) :=
  fix go l := match l with
  | [] => Ok []
  | v :: l' => o ← f v; rest ← go l'; Ok (default "null" o :: rest)
  end.
Definition json_fields (f : jsval -> result (option string))
    : list (string * jsval) -> result (list string) :=
  fix go l := match l with
  | [] => Ok []
  | (k, v) :: l' =>
      o ← f v; rest ← go l';
      Ok (match o with Some t => (json_quote k ++ ":" ++ t)%string :: rest | None => rest end)
  end.

Fixpoint enum_bytes (i : Z) (l : list Z) : list string :=
  match l with
  | [] => []
  | b :: l' => (json_quote (str_of_Z i) ++ ":" ++ str_of_Z b)%string :: enum_bytes (i + 1) l'
  end.
Definition braces (l : list string) : string := ("{" ++ join "," l ++ "}")%string.

(** [None] is [undefined]. *)
Fixpoint stringify (v : jsval) : result (option string) :=
  match v with
  | JUndef | JFun => Ok None
  | JNull => Ok (Some "null")
  | JBool b => Ok (Some (if b then "true" else "false"))
  | JNum x => Ok (Some (if is_finite x then num_to_string x else "null"))
  | JStr s => Ok (Some (json_quote s))
  | JBigInt _ => Throw (JsError "TypeError" "Do not know how to serialize a BigInt")
  | JDate None => Ok (Some "null")
  | JDate (Some ms) => Ok (Some (json_quote (iso_string ms)))
  | JBytes l => Ok (Some (braces (enum_bytes 0 l)))
  | JArr l => ts ← json_items stringify l; Ok (Some ("[" ++ join "," ts ++ "]")%string)
  | JObj l => ts ← json_fields stringify l; Ok (Some (braces ts))
  end.

(** * Key-sorted copies

    The inner [walk] of [stableStringify] and [canonicalJSON]: a copy whose
    objects have their keys in code-unit order. *)
Fixpoint bytes_fields (i : Z) (l : list Z) : list (string * jsval) :=
  match l with [] => [] | b :: l' => (str_of_Z i, JNum (num_of_Z b)) :: bytes_fields (i + 1) l' end.

Definition key_cmp (a b : string * jsval) : comparison := str_cmp a.1 b.1.

Fixpoint sort_keys (v : jsval) : jsval :=
  match v with
  | JArr l => JArr (map sort_keys l)
  | JObj l => JObj (own_order (sort_by key_cmp (map (fun kv => (kv.1, sort_keys kv.2)) l)))
  | JDate _ => JObj []
  | JBytes l => JObj (bytes_fields 0 l)
  | _ => v
  end.

Example stringify_ex :
  stringify (JObj [("a", JArr [JNull; JUndef; JNum num_one]); ("b", JUndef); ("c", JStr "x")]) =
  Ok (Some ("{" ++ quoted "a" ++ ":[null,null,1]," ++ quoted "c" ++ ":" ++ quoted "x" ++ "}")%string).
Proof. vm_compute. reflexivity. Qed.
Example sort_keys_ex :
  sort_keys (JObj [("b", JNull); ("10", JNull); ("a", JObj [("z", JNull); ("y", JNull)]); ("9", JNull)]) =
  JObj [("9", JNull); ("10", JNull); ("a", JObj [("y", JNull); ("z", JNull)]); ("b", JNull)].
Proof. vm_compute. reflexivity. Qed.

(** * Values that differ in key order only *)

(** Well-formed payloads: no key twice in an object. *)
Fixpoint keys_unique (v : jsval) : bool :=
  match v with
  | JArr l => forallb keys_unique l
  | JObj l => bool_decide (NoDup l.*1) && forallb (fun kv => keys_unique kv.2) l
  | _ => true
  end.

Inductive same_value : jsval -> jsval -> Prop :=
| sv_refl v : same_value v v
| sv_arr l1 l2 : Forall2 same_value l1 l2 -> same_value (JArr l1) (JArr l2)
| sv_obj l1 l2 l3 :
    Forall2 (fun a b => a.1 = b.1 /\ same_value a.2 b.2) l1 l2 -> l2 ≡ₚ l3 ->
    same_value (JObj l1) (JObj l3).

Lemma fst_unique {V} (l : list (string * V)) k v v' :
  NoDup l.*1 -> (k, v) ∈ l -> (k, v') ∈ l -> v = v'.
Proof.
  induction l as [|[k0 v0] l IH]; simpl; [by intros _ ?%elem_of_nil|].
  intros [Hk Hn]%NoDup_cons [[= <- <-]|H1]%elem_of_cons [[= ?]|H2]%elem_of_cons; subst; try done.
  - by apply (list_elem_of_fmap_2 fst) in H2.
  - by apply (list_elem_of_fmap_2 fst) in H1.
  - by apply IH.
Qed.

Lemma om_get_perm {V} (l l' : list (string * V)) k : NoDup l.*1 -> l ≡ₚ l' -> om_get k l = om_get k l'.
Proof.
  intros Hn Hp. assert (Hn' : NoDup l'.*1) by (by rewrite <- Hp).
  destruct (om_get k l) as [v|] eqn:E; symmetry.
  - apply om_get_Some_in in E. rewrite Hp in E.
    destruct (om_get k l') as [v'|] eqn:E'; [f_equal; apply om_get_Some_in in E'; by eapply (fst_unique l')|].
    apply om_get_None in E'. by apply (list_elem_of_fmap_2 fst) in E.
  - apply om_get_None in E. apply om_get_None. by rewrite <- Hp.
Qed.

Lemma sort_fields_perm (l1 l2 : list (string * jsval)) :
  NoDup l1.*1 -> l1 ≡ₚ l2 -> sort_by key_cmp l1 = sort_by key_cmp l2.
Proof.
  intros Hn Hp. apply sort_by_unique; [| | |done].
  - intros x y. apply str_cmp_antisym.
  - intros x y z. apply str_cmp_trans.
  - intros [k v] [k' v'] Hx Hy E%str_cmp_eq. simpl in E. subst k'.
    f_equal. exact (fst_unique _ _ _ _ Hn Hx Hy).
Qed.

(** Key order is invisible after sorting. *)
Lemma sort_keys_same v w : keys_unique v = true -> same_value v w -> sort_keys v = sort_keys w.
Proof.
  revert w. induction v as [| | | | | | | |l IH|l IH|] using jsval_ind_nested; intros w Hu Hs;
    inversion Hs as [|? l2 H2|? l2 l3 H2 Hp]; subst; try done; clear Hs; simpl in *.
  - f_equal. clear -IH H2 Hu. revert IH Hu. induction H2 as [|v v2 l l2 Hv H2 IHl]; [done|].
    intros [Hh Ht]%Forall_cons [? ?]%andb_true_iff. simpl. f_equal; [by apply Hh|by apply IHl].
  - apply andb_true_iff in Hu as [Hn%bool_decide_eq_true Hu].
    assert (E : map (fun kv => (kv.1, sort_keys kv.2)) l = map (fun kv => (kv.1, sort_keys kv.2)) l2).
    { clear -IH H2 Hu. revert IH Hu. induction H2 as [|[k v] [k2 v2] l l2 [Hk Hv] H2 IHl]; [done|].
      intros [Hh Ht]%Forall_cons [? ?]%andb_true_iff. simpl in *. subst. f_equal; [|by apply IHl].
      f_equal. by apply Hh. }
    rewrite E. f_equal. f_equal. apply sort_fields_perm; [|by rewrite Hp].
    rewrite <- E, <- list_fmap_compose. exact Hn.
Qed.
