(* ===== verification/WorldState.v ===== *)
(** World-state hashes for loop detection ([loop/world-state-hash.ts]): which
    tools only read, the canonical hash of a call with its output, and the
    tracker of repeated states. *)

From S2P Require Import Prelude JsNum JsValue Canonical Regex Json.
From Stdlib Require Import Ascii.

Definition READ_ONLY_TOOLS : list string :=
  ["read_file"; "list_directory"; "list_files"; "search_files"; "grep"; "glob"; "ls"].

Definition READ_TOOL_MIN_DISTANCE : Z := 5.
Definition WRITE_TOOL_MIN_DISTANCE : Z := 12.

Definition READ_BASH_PREFIXES : list string :=
  ["ls"; "cat "; "head "; "tail "; "find "; "grep "; "wc "; "stat "; "file "; "pwd"; "echo ";
   "which "; "type "; "env"; "printenv"; "ps "; "lsof "; "ss "; "netstat "; "df "; "du "; "id ";
   "whoami"; "uname "; "hostname"; "date"].

Definition firstSimpleCommand (cmd : string) : string :=
  trim_start (hd EmptyString (re_split (re "&&|[|;]") cmd)).

Section Hash.
Context `{Printing} `{Hashing}.

Definition isReadOnlyTool (toolName : string) (args : jsval) : bool :=
  if bool_decide (toolName ∈ READ_ONLY_TOOLS) then true
  else if bool_decide (toolName ∈ ["run_bash"; "bash"; "execute_bash"]) then
    let rawCmd := match args with
      | JObj o => match om_get "command" o with Some v => trim_start (js_String v) | None => EmptyString end
      | _ => EmptyString
      end in
    existsb (fun prefix => starts_with prefix (firstSimpleCommand rawCmd)) READ_BASH_PREFIXES
  else false.

(** The text, or [undefined], which a template literal prints as such. *)
Definition canonicalJSON (v : jsval) : string :=
  match stringify (sort_keys v) with
  | Ok t => default "undefined" t
  | Throw _ => js_String v
  end.

Definition canonicaliseOutput (s : string) : string :=
  let s := replace_all (re "\x1b\[[0-9;]*[a-zA-Z]") "" s in
  let s := replace_all
    (re "\d{4}-\d{2}-\d{2}[Tt]\d{2}:\d{2}:\d{2}(?:\.\d+)?(?:[Zz]|[+-]\d{2}:?\d{2})?") "<TS>" s in
  let s := replace_all
    (re "[0-9a-fA-F]{8}-[0-9a-fA-F]{4}-[0-9a-fA-F]{4}-[0-9a-fA-F]{4}-[0-9a-fA-F]{12}") "<UUID>" s in
  let s := replace_all (re "[0-9a-fA-F]{16,}") "<HEX>" s in
  js_trim (lower (str_take 200 s)).

(** [sha256] is the hexadecimal digest. *)
Definition canonicalStateHash (toolName : string) (args : jsval) (outputSummary : string) : string :=
  let nul := String "000" EmptyString in
  str_take 32 (sha256 (toolName ++ nul ++ canonicalJSON args ++ nul ++ canonicaliseOutput outputSummary)%string).

(** * The tracker *)

Record HistoryEntry := { h_step : Z; h_tool : string; h_hash : string }.

Record WorldStateHashTracker := mkTracker {
  seen : list (string * Z);
  history : list HistoryEntry
}.
Definition tracker_init : WorldStateHashTracker := mkTracker [] [].

Record Observation := mkObs { isCollision : bool; hash : string; previousStep : option Z }.

Definition observe (toolName : string) (args : jsval) (outputSummary : string) (stepIndex : Z)
    (t : WorldStateHashTracker) : WorldStateHashTracker * Observation :=
  let h := canonicalStateHash toolName args outputSummary in
  let recorded := mkTracker (om_set h stepIndex (seen t))
    (history t ++ [{| h_step := stepIndex; h_tool := toolName; h_hash := h |}]) in
  match om_get h (seen t) with
  | Some previous =>
      let minDistance :=
        if isReadOnlyTool toolName args then READ_TOOL_MIN_DISTANCE else WRITE_TOOL_MIN_DISTANCE in
      if stepIndex - previous <=? minDistance then (t, mkObs true h (Some previous))
      else (recorded, mkObs false h None)
  | None => (recorded, mkObs false h None)
  end.

Definition size (t : WorldStateHashTracker) : Z := Z.of_nat (length (seen t)).

(** [history.slice(-n)]: [-0] is [0], so [recent(0)] is everything. *)
Definition recent (n : nat) (t : WorldStateHashTracker) : list HistoryEntry :=
  match n with O => history t | _ => skipn (length (history t) - n) (history t) end.

(** * What a collision means *)

(** One observed call. *)
Record seen_call := { sc_tool : string; sc_args : jsval; sc_out : string; sc_step : Z }.
Definition call_hash (c : seen_call) : string := canonicalStateHash (sc_tool c) (sc_args c) (sc_out c).
Definition observe_call (t : WorldStateHashTracker) (c : seen_call) : WorldStateHashTracker :=
  fst (observe (sc_tool c) (sc_args c) (sc_out c) (sc_step c) t).
Definition collides (t : WorldStateHashTracker) (c : seen_call) : bool :=
  isCollision (snd (observe (sc_tool c) (sc_args c) (sc_out c) (sc_step c) t)).

(** The history is the list of the observations that were not collisions; the
    index has, for each hash, the step of its last entry. *)
Record tracker_inv (t : WorldStateHashTracker) : Prop := {
  ti_last : forall h s, om_get h (seen t) = Some s <->
    exists before e after, history t = before ++ e :: after /\ h_hash e = h /\ h_step e = s /\
      Forall (fun e' => h_hash e' <> h) after;
  ti_keys : NoDup (seen t).*1
}.

Lemma tracker_init_inv : tracker_inv tracker_init.
Proof.
  split; [|constructor]. intros h s. split; [done|].
  intros (before & e & after & E & _). by destruct before.
Qed.

Lemma record_inv t e : tracker_inv t ->
  tracker_inv (mkTracker (om_set (h_hash e) (h_step e) (seen t)) (history t ++ [e])).
Proof.
  intros [Hl Hn]. split; simpl; [|by apply om_set_NoDup]. intros h s. rewrite om_get_set.
  case_decide as E; [subst|].
  - split.
    + intros [= <-]. exists (history t), e, []. by rewrite Forall_nil.
    + intros (before & e' & after & E & Hh & <- & Hf). destruct after as [|x after _] using rev_ind.
      * by apply app_inj_tail in E as [_ ->].
      * change (e' :: after ++ [x]) with ((e' :: after) ++ [x]) in E. rewrite app_assoc in E.
        apply app_inj_tail in E as [_ ->]. apply Forall_app in Hf as [_ Hf].
        by apply Forall_cons in Hf as [Hf _].
  - rewrite Hl. split; intros (before & e' & after & E' & Hh & Hs & Hf).
    + exists before, e', (after ++ [e]). rewrite E', <- app_assoc. split_and!; try done.
      apply Forall_app. split; [done|]. by apply Forall_cons.
    + destruct after as [|x after _] using rev_ind.
      * apply app_inj_tail in E' as [_ ->]. done.
      * change (e' :: after ++ [x]) with ((e' :: after) ++ [x]) in E'. rewrite app_assoc in E'.
        apply app_inj_tail in E' as [E' ->]. apply Forall_app in Hf as [Hf _].
        by exists before, e', after.
Qed.

Lemma observe_inv t c : tracker_inv t -> tracker_inv (observe_call t c).
Proof.
  intros Hi. unfold observe_call, observe.
  destruct (om_get _ (seen t)) as [p|]; [destruct (_ <=? _); [done|]|];
    exact (record_inv t {| h_step := sc_step c; h_tool := sc_tool c; h_hash := _ |} Hi).
Qed.

Lemma observe_all_inv cs t : tracker_inv t -> tracker_inv (fold_left observe_call cs t).
Proof. revert t. induction cs as [|c cs IH]; intros t Ht; [done|]. by apply IH, observe_inv. Qed.

(** A collision is a recorded state with the same hash, at most the distance
    of its tool away. *)
Lemma collides_iff t c :
  collides t c = true <-> exists p, om_get (call_hash c) (seen t) = Some p /\
    sc_step c - p <= (if isReadOnlyTool (sc_tool c) (sc_args c)
                      then READ_TOOL_MIN_DISTANCE else WRITE_TOOL_MIN_DISTANCE).
Proof.
  unfold collides, observe, call_hash. destruct (om_get _ (seen t)) as [p|] eqn:E; simpl.
  - split.
    + destruct (_ <=? _) eqn:Ed; [|done]. intros _. exists p. split; [done|]. by apply Z.leb_le.
    + intros (p' & [= <-] & Hd). apply Z.leb_le in Hd. by rewrite Hd.
  - split; [done|]. by intros (? & ? & _).
Qed.

(** Calls whose arguments differ in key order have the same hash. *)
Lemma hash_key_order tool a b out : keys_unique a = true -> same_value a b ->
  is_ok (stringify (sort_keys a)) = true ->
  canonicalStateHash tool a out = canonicalStateHash tool b out.
Proof.
  intros Hu Hs Hok. unfold canonicalStateHash, canonicalJSON.
  rewrite <- (sort_keys_same a b Hu Hs). by destruct (stringify (sort_keys a)).
Qed.
End Hash.
