(* ===== verification/Budget.v ===== *)
(** Budget state, coherence and log compaction ([budget/budget-state.ts]).

    Steps, tokens and thresholds are counters ([Z]); scores are doubles.  The
    logarithm and the power are approximated by the engine: parameters (class
    [MathLib]), of which the theorems assume nothing. *)

From S2P Require Import Prelude JsNum JsValue Json Regex.
From Stdlib Require Import Ascii.

(** * State *)

Record AgentBudgetState := mkBudget {
  stepCount : Z;
  maxSteps : Z;
  tb_input : Z;
  tb_output : Z;
  tb_usedInput : Z;
  tb_usedOutput : Z;
  cw_maxTokens : Z;
  cw_currentTokens : Z;
  compactionTrigger : Z;
  coherenceScore : num
}.

(** The declared roles; prior messages are cast to them unchecked. *)
Inductive Role := user | assistant | tool | system | other (r : string).
#[export] Instance Role_eq_dec : EqDecision Role.
Proof. solve_decision. Defined.

Record LogMessage := mkMsg { m_role : Role; m_content : string; m_toolName : option string }.
#[export] Instance LogMessage_eq_dec : EqDecision LogMessage.
Proof. solve_decision. Defined.

Definition role_text (r : Role) : string :=
  match r with user => "user" | assistant => "assistant" | tool => "tool" | system => "system"
  | other r => r end.

Definition DEFAULT_BUDGET : AgentBudgetState :=
  mkBudget 0 20 200000 50000 0 0 200000 0 15 num_one.

(** [Partial<AgentBudgetState>]: the nested records are merged field by field. *)
Record BudgetOverrides := {
  o_stepCount : option Z; o_maxSteps : option Z;
  o_input : option Z; o_output : option Z; o_usedInput : option Z; o_usedOutput : option Z;
  o_maxTokens : option Z; o_currentTokens : option Z;
  o_compactionTrigger : option Z; o_coherenceScore : option num
}.

Definition createBudgetState (o : BudgetOverrides) : AgentBudgetState :=
  let d := DEFAULT_BUDGET in
  mkBudget (default (stepCount d) (o_stepCount o)) (default (maxSteps d) (o_maxSteps o))
    (default (tb_input d) (o_input o)) (default (tb_output d) (o_output o))
    (default (tb_usedInput d) (o_usedInput o)) (default (tb_usedOutput d) (o_usedOutput o))
    (default (cw_maxTokens d) (o_maxTokens o)) (default (cw_currentTokens d) (o_currentTokens o))
    (default (compactionTrigger d) (o_compactionTrigger o))
    (default (coherenceScore d) (o_coherenceScore o)).

(** * Coherence *)

Record ToolCall := mkCall { tc_name : string; tc_args : jsval }.

(** The text, or [undefined], which the template literal prints as such. *)
Definition stableStringify (v : jsval) : string :=
  match stringify (sort_keys v) with
  | Ok t => default "undefined" t
  | Throw _ => "[unserializable]"
  end.

Definition call_key (c : ToolCall) : string := (tc_name c ++ ":" ++ stableStringify (tc_args c))%string.

Definition detectLoop (calls : list ToolCall) (windowSize : Z) : bool :=
  if Z.of_nat (length calls) <? windowSize then false
  else match last_n (Z.to_nat windowSize) calls with
       | [] => false
       | first :: others => forallb (fun c => call_key c =? call_key first)%string others
       end.

Record CoherenceVerdict := mkCoherence { isLoop : bool; isStall : bool; score : num }.

Definition half : num := num_of_decimal 5 1.

Definition check (window stallThreshold : Z) (recentToolCalls : list ToolCall) (stepsWithoutTool : Z)
    : CoherenceVerdict :=
  let l := detectLoop recentToolCalls window in
  let s := stallThreshold <=? stepsWithoutTool in
  let sc := num_one in
  let sc := if l then num_sub sc half else sc in
  let sc := if s then num_sub sc half else sc in
  let sc := if num_ltb sc num_zero then num_zero else sc in
  mkCoherence l s sc.

(** A window and a stall threshold, integers here, and the detector they make. *)
Definition createCoherenceDetector (loopDetectionWindow stallThreshold : option Z)
    : result (list ToolCall -> Z -> CoherenceVerdict) :=
  let window := default 6 loopDetectionWindow in
  let stall := default 10 stallThreshold in
  if window <? 2 then
    Throw (JsError "Error" "createCoherenceDetector: loopDetectionWindow must be >= 2")
  else if stall <? 1 then
    Throw (JsError "Error" "createCoherenceDetector: stallThreshold must be >= 1")
  else Ok (check window stall).

(** * Compaction

    Logs hold objects [M] that carry a message: compaction keeps the objects it
    does not drop. *)
Class MathLib := { math_log : num -> num; math_pow : num -> num -> num }.

Section Compact.
Context {M : Type} (msg : M -> LogMessage).

(** [mk] allocates the note. *)
Definition compactToolLog (mk : LogMessage -> M) (log : list M) (keepFirst keepLast : option Z)
    : result (list M) :=
  let kf := default 2 keepFirst in
  let kl := default 4 keepLast in
  let len := Z.of_nat (length log) in
  if (kf <? 0) || (kl <? 0) then
    Throw (JsError "Error" "compactToolLog: keepFirst and keepLast must be >= 0")
  else if len <=? kf + kl then Ok log
  else
    let head := firstn (Z.to_nat kf) log in
    let tail := skipn (Z.to_nat (len - kl)) log in
    let omitted := len - kf - kl in
    Ok (head ++ [mk (mkMsg system ("… [" ++ str_of_Z omitted ++ " tool steps omitted for brevity]") None)]
          ++ tail).

Record ExchangeUnit := mkUnit { u_messages : list M; u_start : Z; u_score : num }.

(** The messages right after position that are tool results, and the rest. *)
Fixpoint take_tools (log : list M) : list M * list M :=
  match log with
  | m :: log' =>
      if bool_decide (m_role (msg m) = tool) then
        let '(ts, rest) := take_tools log' in (m :: ts, rest)
      else ([], log)
  | [] => ([], [])
  end.

(** The scan of the log from index [i]: protected messages and exchange units.
    [n] bounds the number of turns. *)
Fixpoint group_units (n : nat) (i : Z) (log : list M) : list (Z * M) * list ExchangeUnit :=
  match n, log with
  | S n', m :: log' =>
      match m_role (msg m) with
      | system | user =>
          let '(ps, us) := group_units n' (i + 1) log' in ((i, m) :: ps, us)
      | assistant =>
          let '(ts, rest) := take_tools log' in
          let '(ps, us) := group_units n' (i + 1 + Z.of_nat (length ts)) rest in
          (ps, mkUnit (m :: ts) i num_zero :: us)
      | tool | other _ =>
          let '(ps, us) := group_units n' (i + 1) log' in (ps, mkUnit [m] i num_zero :: us)
      end
  | _, _ => ([], [])
  end.

Section Scores.
Context `{MathLib} (halfLifeTurns errorBonus : num).

Definition looks_like_error (s : string) : bool :=
  re_test (re_i "error|fail|exception|timeout|denied|invalid") s.

Definition unit_score (turnsFromEnd : Z) (u : ExchangeUnit) : num :=
  let recency := math_pow half (num_div (num_of_Z turnsFromEnd) halfLifeTurns) in
  let fullContent := join (String "010" EmptyString) (map (fun m => m_content (msg m)) (u_messages u)) in
  let size := num_div (math_log (num_of_Z (Z.of_nat (String.length fullContent) + 1))) (num_of_Z 10) in
  num_add (num_add recency size) (if looks_like_error fullContent then errorBonus else num_zero).

Fixpoint score_units (total k : Z) (us : list ExchangeUnit) : list ExchangeUnit :=
  match us with
  | [] => []
  | u :: us' =>
      mkUnit (u_messages u) (u_start u) (unit_score (total - 1 - k) u) :: score_units total (k + 1) us'
  end.
End Scores.

(** [(a, b) => b.score - a.score], where NaN counts as a tie. *)
Definition by_score (a b : ExchangeUnit) : comparison :=
  let d := num_sub (u_score b) (u_score a) in
  if num_ltb d num_zero then Lt else if num_ltb num_zero d then Gt else Eq.

Definition item_cmp (a b : Z * list M) : comparison := Z.compare a.1 b.1.

(** [keepTopK] is an integer here. *)
Definition compactToolLogDecay `{MathLib} (halfLife bonus : option num) (keepTop : option Z) (log : list M)
    : result (list M) :=
  let halfLifeTurns := default (num_of_Z 4) halfLife in
  let errorBonus := default (num_of_decimal 3 1) bonus in
  let keepTopK := default 12 keepTop in
  if num_leb halfLifeTurns num_zero then
    Throw (JsError "Error" "compactToolLogDecay: halfLifeTurns must be > 0")
  else if keepTopK <? 0 then
    Throw (JsError "Error" "compactToolLogDecay: keepTopK must be >= 0")
  else
    let '(protected, units) := group_units (length log) 0 log in
    let total := Z.of_nat (length units) in
    if total <=? keepTopK then Ok log
    else
      let scored := score_units halfLifeTurns errorBonus total 0 units in
      let kept := map u_start (firstn (Z.to_nat keepTopK) (sort_by by_score scored)) in
      let allItems := map (fun p => (p.1, [p.2])) protected ++
        map (fun u => (u_start u, u_messages u)) (filter (fun u => u_start u ∈ kept) scored) in
      Ok (concat (map snd (sort_by item_cmp allItems))).
End Compact.
Arguments mkUnit {M} _ _ _.
Arguments u_messages {M} _.
Arguments u_start {M} _.
Arguments u_score {M} _.

(** * Emergency summary *)

Definition transcript_line (m : LogMessage) : string :=
  ("[" ++ role_text (m_role m) ++
   (match m_toolName m with Some t => if (t =? "")%string then "" else ":" ++ t | None => "" end) ++
   "] " ++ m_content m)%string.

(** The prompt given to the summarizer. *)
Definition emergencyPrompt (log : list LogMessage) : string :=
  let nl := String "010" EmptyString in
  join nl
    ["You are compressing an agent conversation to save context tokens.";
     "Summarize the key facts, decisions, tool outputs and pending work in ≤ 300 words.";
     "Preserve anything an agent would need to continue the task.";
     "";
     "Transcript:";
     join nl (map transcript_line log)].

(** [summarize] acts on a world and may fail; the typed [recursion: false] is
    the only value callers can pass. *)
Definition emergencyContextSummary {W} (summarize : string -> W -> W * result string)
    (recursion : bool) (log : list LogMessage) (w : W) : W * result string :=
  if recursion then
    (w, Throw (JsError "Error"
      "emergencyContextSummary: recursion guard hit — opts.recursion must be false"))
  else summarize (emergencyPrompt log) w.
