(* ===== verification/BudgetProps.v ===== *)
(** What compaction keeps, and what the coherence detector flags
    ([budget/budget-state.ts]). *)

From S2P Require Import Prelude JsNum JsValue Json Regex Budget.
From Stdlib Require Import Ascii.

Section Compaction.
Context {M : Type} (msg : M -> LogMessage).

(** * The scan as one list

    Every item of the log in order: its index, its messages, whether it is
    protected. *)
Definition item : Type := Z * list M * bool.
Definition item_index (x : item) : Z := x.1.1.
Definition item_messages (x : item) : list M := x.1.2.
Definition item_protected (x : item) : bool := x.2.

Definition scan_items (ps : list (Z * M)) (us : list (@ExchangeUnit M)) : list item :=
  map (fun p => (p.1, [p.2], true)) ps ++ map (fun u => (u_start u, u_messages u, false)) us.

Fixpoint scan (n : nat) (i : Z) (log : list M) : list item :=
  match n, log with
  | S n', m :: log' =>
      match m_role (msg m) with
      | system | user => (i, [m], true) :: scan n' (i + 1) log'
      | assistant =>
          let '(ts, rest) := take_tools msg log' in
          (i, m :: ts, false) :: scan n' (i + 1 + Z.of_nat (length ts)) rest
      | tool | other _ => (i, [m], false) :: scan n' (i + 1) log'
      end
  | _, _ => []
  end.

Lemma take_tools_app log : let '(ts, rest) := take_tools msg log in
  log = ts ++ rest /\ Forall (fun m => m_role (msg m) = tool) ts /\
  (match rest with m :: _ => m_role (msg m) <> tool | [] => True end).
Proof.
  induction log as [|m log IH]; simpl; [done|]. case_bool_decide as E; [|done].
  destruct (take_tools msg log) as [ts rest]. destruct IH as (-> & Hf & Hr).
  split_and!; try done. by apply Forall_cons.
Qed.

Lemma take_tools_length log ts rest :
  take_tools msg log = (ts, rest) -> (length rest <= length log)%nat.
Proof.
  intros E. pose proof (take_tools_app log) as H. rewrite E in H. destruct H as (-> & _).
  rewrite length_app. lia.
Qed.

Lemma group_units_scan n i log : let '(ps, us) := group_units msg n i log in
  scan_items ps us ≡ₚ scan n i log.
Proof.
  revert i log. induction n as [|n IH]; intros i [|m log]; simpl; try done.
  destruct (m_role (msg m)).
  2: destruct (take_tools msg log) as [ts rest].
  1, 3, 4, 5: specialize (IH (i + 1) log).
  5: specialize (IH (i + 1 + Z.of_nat (length ts)) rest).
  all: destruct (group_units msg n _ _) as [ps us]; rewrite <- IH; unfold scan_items; simpl;
    try done; by rewrite <- Permutation_middle.
Qed.

Lemma scan_concat n i log : (length log <= n)%nat -> concat (map item_messages (scan n i log)) = log.
Proof.
  revert i log. induction n as [|n IH]; intros i [|m log] Hn; simpl in *; try done; [lia|].
  destruct (m_role (msg m)); simpl; try (f_equal; apply IH; lia).
  pose proof (take_tools_app log) as H. destruct (take_tools msg log) as [ts rest] eqn:E.
  destruct H as (-> & _). simpl. rewrite IH; [done|]. rewrite length_app in Hn. lia.
Qed.

Lemma scan_above n i log x : x ∈ scan n i log -> i <= item_index x.
Proof.
  revert i log. induction n as [|n IH]; intros i [|m log]; simpl; try by intros ?%elem_of_nil.
  destruct (m_role (msg m)); try destruct (take_tools msg log);
    intros [->|H%IH]%elem_of_cons; simpl; unfold item_index in *; simpl in *; lia.
Qed.

Lemma scan_sorted n i log : StronglySorted (fun x y => item_index x < item_index y) (scan n i log).
Proof.
  revert i log. induction n as [|n IH]; intros i [|m log]; simpl; try constructor.
  destruct (m_role (msg m)); try destruct (take_tools msg log); constructor; auto;
    apply Forall_forall; intros x H%scan_above; unfold item_index in *; simpl; lia.
Qed.

(** Protected items are single user or system messages; others start with a
    message that is neither and go on with tool results. *)
Definition item_shape (x : item) : Prop :=
  if item_protected x then exists m, item_messages x = [m] /\ m_role (msg m) ∈ [system; user]
  else exists m ts, item_messages x = m :: ts /\ m_role (msg m) ∉ [system; user] /\
         Forall (fun m => m_role (msg m) = tool) ts /\ (m_role (msg m) = assistant \/ ts = []).

Lemma scan_shape n i log : Forall item_shape (scan n i log).
Proof.
  revert i log. induction n as [|n IH]; intros i [|m log]; simpl; try constructor.
  pose proof (take_tools_app log) as Ht.
  destruct (m_role (msg m)) as [| | | |r] eqn:E; try destruct (take_tools msg log) as [ts rest];
    constructor; auto; unfold item_shape; simpl.
  1, 4: exists m; rewrite E; split; [done|set_solver].
  all: exists m; rewrite E.
  - exists ts. destruct Ht as (_ & Hf & _). split_and!; [done|set_solver|done|by left].
  - exists []. split_and!; [done|set_solver|by constructor|by right].
  - exists []. split_and!; [done|set_solver|by constructor|by right].
Qed.

(** * The sort at the end restores the log order *)

Definition untag (x : item) : Z * list M := (item_index x, item_messages x).

Lemma sort_sorted (l : list (Z * list M)) :
  StronglySorted (fun x y => x.1 < y.1) l -> sort_by (@item_cmp M) l = l.
Proof.
  induction 1 as [|x l Hs IH Hf]; simpl; [done|]. rewrite IH. destruct l as [|y l]; [done|].
  apply Forall_cons in Hf as [Hf _]. simpl. unfold item_cmp.
  by rewrite (proj2 (Z.compare_lt_iff _ _) Hf).
Qed.

Lemma sorted_untag (l : list item) :
  StronglySorted (fun x y => item_index x < item_index y) l ->
  StronglySorted (fun x y : Z * list M => x.1 < y.1) (map untag l).
Proof.
  induction 1 as [|x l Hs IH Hf]; simpl; [constructor|]. constructor; [done|].
  by apply Forall_map.
Qed.

Lemma sorted_index_inj (l : list (Z * list M)) x y :
  StronglySorted (fun x y => x.1 < y.1) l -> x ∈ l -> y ∈ l -> x.1 = y.1 -> x = y.
Proof.
  induction 1 as [|z l Hs IH Hf]; [by intros ?%elem_of_nil|]. rewrite Forall_forall in Hf.
  intros [->|Hx]%elem_of_cons [->|Hy]%elem_of_cons E; try done; [| |by apply IH].
  - specialize (Hf _ Hy). lia.
  - specialize (Hf _ Hx). lia.
Qed.

Lemma sort_perm_sorted (l k : list (Z * list M)) :
  StronglySorted (fun x y => x.1 < y.1) k -> l ≡ₚ k -> sort_by (@item_cmp M) l = k.
Proof.
  intros Hs Hp. rewrite <- (sort_sorted k Hs). apply sort_by_unique; [| | |done].
  - intros x y. unfold item_cmp. by rewrite Z.compare_antisym.
  - intros x y z. unfold cmp_le, item_cmp.
    destruct (Z.compare_spec x.1 y.1), (Z.compare_spec y.1 z.1), (Z.compare_spec x.1 z.1); try done; lia.
  - intros x y Hx Hy E%Z.compare_eq. rewrite Hp in Hx, Hy. by apply (sorted_index_inj k).
Qed.

Lemma filter_sorted {A} (R : A -> A -> Prop) (P : A -> Prop) `{!forall x, Decision (P x)} l :
  StronglySorted R l -> StronglySorted R (filter P l).
Proof.
  induction 1 as [|x l Hs IH Hf]; [constructor|]. rewrite filter_cons. case_decide; [|done].
  constructor; [done|]. rewrite Forall_forall in Hf |- *. intros y [_ Hy]%list_elem_of_filter. by apply Hf.
Qed.

Definition survives (kept : list Z) (x : item) : Prop := item_protected x = true \/ item_index x ∈ kept.
#[local] Instance survives_dec kept x : Decision (survives kept x).
Proof. unfold survives. solve_decision. Defined.

Lemma filter_scan_items kept ps (us : list (@ExchangeUnit M)) :
  map untag (filter (survives kept) (scan_items ps us)) =
  map (fun p => (p.1, [p.2])) ps ++
  map (fun u => (u_start u, u_messages u)) (filter (fun u => u_start u ∈ kept) us).
Proof.
  unfold scan_items. rewrite filter_app, map_app. f_equal.
  - induction ps as [|p ps IH]; [done|]. rewrite !map_cons, filter_cons_True by (by left).
    rewrite map_cons. by f_equal.
  - induction us as [|u us IH]; [done|]. rewrite !map_cons, !filter_cons.
    destruct (decide (u_start u ∈ kept)) as [Hk|Hk].
    + rewrite decide_True by (by right). rewrite !map_cons. by f_equal.
    + rewrite decide_False; [done|]. by intros [?|?].
Qed.

Lemma score_units_parts `{MathLib} hl eb total k (us : list (@ExchangeUnit M))
    (kept : list Z) :
  map (fun u => (u_start u, u_messages u))
      (filter (fun u => u_start u ∈ kept) (score_units msg hl eb total k us)) =
  map (fun u => (u_start u, u_messages u)) (filter (fun u => u_start u ∈ kept) us) /\ length (score_units msg hl eb total k us) = length us /\ map u_start (score_units msg hl eb total k us) = map u_start us.
Proof.
  revert k. induction us as [|u us IH]; intros k; [done|]. destruct (IH (k + 1)) as (E & El & Es).
  split_and!; simpl; [|by rewrite El|by rewrite Es].
  rewrite !filter_cons. simpl. case_decide; [|done]. rewrite !map_cons. simpl. by rewrite E.
Qed.

Lemma scan_index_NoDup n i log : NoDup (map item_index (scan n i log)).
Proof.
  pose proof (scan_sorted n i log) as Hs. induction Hs as [|x l Hs IH Hf]; [constructor|].
  simpl. constructor; [|done]. intros (y & E & Hy)%list_elem_of_fmap.
  rewrite Forall_forall in Hf. specialize (Hf _ Hy). lia.
Qed.

Lemma scan_starts ps us n i log : scan_items ps us ≡ₚ scan n i log ->
  NoDup (map u_start us) /\ forall k, k ∈ map u_start us ->
    exists x, x ∈ scan n i log /\ item_index x = k /\ item_protected x = false.
Proof.
  intros Hp. assert (E : map item_index (scan_items ps us) = map fst ps ++ map u_start us).
  { unfold scan_items. rewrite map_app, !map_map. done. }
  split.
  - apply (NoDup_app (map fst ps)). rewrite <- E, Hp. apply scan_index_NoDup.
  - intros k (u & -> & Hu)%list_elem_of_fmap. exists (u_start u, u_messages u, false).
    split; [|done]. rewrite <- Hp. unfold scan_items. apply elem_of_app. right.
    apply list_elem_of_fmap. by exists u.
Qed.

(** What a successful compaction returns: the messages of the items that
    survive, in log order; a unit survives when its start is among [keepTopK]
    starts of units. *)
Lemma decay_survivors `{MathLib} hl eb kt log log' :
  compactToolLogDecay msg hl eb kt log = Ok log' ->
  exists kept,
    log' = concat (map item_messages (filter (survives kept) (scan (length log) 0 log))) /\
    (forall k, k ∈ kept -> exists x, x ∈ scan (length log) 0 log /\ item_index x = k /\
       item_protected x = false) /\
    (log' = log \/ NoDup kept /\ Z.of_nat (length kept) = default 12 kt).
Proof.
  unfold compactToolLogDecay. destruct (num_leb _ _); [done|].
  destruct (_ <? 0) eqn:Ek; [done|]. apply Z.ltb_ge in Ek.
  pose proof (group_units_scan (length log) 0 log) as Hp.
  destruct (group_units msg (length log) 0 log) as [ps us].
  destruct (scan_starts _ _ _ _ _ Hp) as [Hnd Hin].
  destruct (_ <=? _) eqn:El.
  - intros [= <-]. exists (map u_start us). split_and!; [|done|by left].
    rewrite filter_whole; [by rewrite scan_concat|]. intros x Hx. rewrite <- Hp in Hx.
    apply elem_of_app in Hx as [(p & -> & _)%list_elem_of_fmap|(u & -> & Hu)%list_elem_of_fmap];
      [by left|]. right. by apply (list_elem_of_fmap_2 u_start).
  - apply Z.leb_gt in El. intros [= <-].
    set (hl' := default _ hl). set (eb' := default _ eb). set (total := Z.of_nat (length us)) in *.
    set (kept := map u_start (firstn _ _)). exists kept.
    destruct (score_units_parts hl' eb' total 0 us kept) as (E & Elen & Est).
    assert (Hkp : kept ⊆+ map u_start us).
    { rewrite <- Est. unfold kept. rewrite <- (sort_by_perm by_score (score_units _ _ _ _ _ us)) at 2.
      apply (fmap_submseteq u_start), sublist_submseteq, sublist_take. }
    split_and!.
    + rewrite E, <- (filter_scan_items kept).
      rewrite (sort_perm_sorted _ (map untag (filter (survives kept) (scan (length log) 0 log)))).
      * by rewrite map_map.
      * apply sorted_untag, filter_sorted, scan_sorted.
      * by rewrite Hp.
    + intros k Hk. apply Hin. by eapply elem_of_submseteq.
    + right. split; [|unfold kept].
      { apply submseteq_Permutation in Hkp as [rest Hkp]. rewrite Hkp in Hnd.
        by apply NoDup_app in Hnd as [? _]. }
      rewrite length_map, length_take, sort_by_length, Elen. lia.
Qed.

(** * Well-formed logs

    The provider rejects a tool result that does not follow the assistant turn
    that asked for it: a tool message comes right after an assistant or another
    tool message. *)
Fixpoint protocol_ok (prev : bool) (log : list M) : bool :=
  match log with
  | [] => true
  | m :: log' =>
      let r := m_role (msg m) in
      (negb (bool_decide (r = tool)) || prev) && protocol_ok (bool_decide (r ∈ [assistant; tool])) log'
  end.

Definition not_orphan (x : item) : Prop :=
  forall m ts, item_messages x = m :: ts -> m_role (msg m) <> tool.

Lemma protocol_tools prev ts log : Forall (fun m => m_role (msg m) = tool) ts ->
  prev = true -> protocol_ok prev (ts ++ log) = protocol_ok true log.
Proof.
  intros Hf. revert prev. induction Hf as [|m ts Hm Hf IH]; intros prev ->; [done|].
  simpl. rewrite Hm. simpl. by apply IH.
Qed.

Lemma scan_not_orphan n i prev log : protocol_ok prev log = true ->
  (prev = false \/ match log with m :: _ => m_role (msg m) <> tool | [] => True end) ->
  Forall not_orphan (scan n i log).
Proof.
  revert i prev log. induction n as [|n IH]; intros i prev [|m log]; simpl; try constructor.
  intros [Hm Hl]%andb_true_iff Hprev.
  assert (Hr : m_role (msg m) <> tool).
  { destruct Hprev as [->|Hr]; [|done]. intros E. rewrite E in Hm. done. }
  assert (Hno : forall ts b, not_orphan (i, m :: ts, b)) by (intros ts b m' ts' [= <- _]; done).
  destruct (m_role (msg m)) as [| | | |r] eqn:E; try done.
  1, 3, 4: constructor; [apply Hno|]; eapply IH; [exact Hl|]; left; by case_bool_decide; [set_solver|].
  pose proof (take_tools_app log) as Ht. destruct (take_tools msg log) as [ts rest].
  destruct Ht as (-> & Hf & Hrest). constructor; [apply Hno|].
  rewrite protocol_tools in Hl by (done || by case_bool_decide; set_solver).
  eapply IH; [exact Hl|by right].
Qed.

Lemma protocol_items prev xs : Forall item_shape xs -> Forall not_orphan xs ->
  protocol_ok prev (concat (map item_messages xs)) = true.
Proof.
  intros Hs Ho. revert prev. induction Hs as [|x xs Hx Hs IH]; intros prev; [done|].
  apply Forall_cons in Ho as [Hx' Ho]. simpl. unfold item_shape in Hx. destruct (item_protected x).
  - destruct Hx as (m & E & Hr). rewrite E. simpl.
    rewrite bool_decide_eq_false_2 by (intros E'; rewrite E' in Hr; set_solver). by apply IH.
  - destruct Hx as (m & ts & E & Hr & Hf & Ha). rewrite E. simpl.
    rewrite bool_decide_eq_false_2 by (by apply (Hx' m ts)). simpl.
    destruct Ha as [Ha| ->]; [|by apply IH]. rewrite Ha.
    rewrite protocol_tools by (done || by case_bool_decide; set_solver). by apply IH.
Qed.

Lemma concat_sublist (xs : list item) (P : item -> Prop) `{!forall x, Decision (P x)} :
  concat (map item_messages (filter P xs)) `sublist_of` concat (map item_messages xs).
Proof.
  induction xs as [|x xs IH]; [done|]. rewrite filter_cons. case_decide; simpl.
  - by apply sublist_app.
  - by apply sublist_inserts_l.
Qed.

Definition is_protected (m : M) : Prop := m_role (msg m) ∈ [system; user].
#[local] Instance is_protected_dec m : Decision (is_protected m).
Proof. unfold is_protected. apply _. Defined.

Lemma protected_survive kept xs : Forall item_shape xs ->
  filter is_protected (concat (map item_messages (filter (survives kept) xs))) =
  filter is_protected (concat (map item_messages xs)).
Proof.
  induction 1 as [|x xs Hx Hs IH]; [done|]. rewrite filter_cons. simpl. rewrite filter_app, <- IH.
  case_decide as Hk; simpl; [by rewrite filter_app|].
  unfold item_shape in Hx. destruct (item_protected x) eqn:Ep; [by destruct Hk; left|].
  destruct Hx as (m & ts & -> & Hr & Hf & _). rewrite filter_cons_False by exact Hr.
  rewrite (filter_none is_protected ts); [done|]. intros y Hy. rewrite Forall_forall in Hf. unfold is_protected.
  rewrite (Hf _ Hy). set_solver.
Qed.

(** Assistant turns. *)
Definition is_assistant (m : M) : Prop := m_role (msg m) = assistant.

Lemma item_assistants x : item_shape x ->
  (length (filter is_assistant (item_messages x)) <= if item_protected x then 0 else 1)%nat.
Proof.
  unfold item_shape, is_assistant. destruct (item_protected x).
  - intros (m & -> & Hr). rewrite filter_cons_False by (intros E; rewrite E in Hr; set_solver). done.
  - intros (m & ts & -> & _ & Hf & _). rewrite filter_cons.
    rewrite (filter_none (fun m => m_role (msg m) = assistant) ts);
      [case_decide; simpl; lia|].
    intros y Hy. rewrite Forall_forall in Hf. by rewrite (Hf _ Hy).
Qed.

Lemma items_assistants xs : Forall item_shape xs ->
  (length (filter is_assistant (concat (map item_messages xs))) <=
   length (filter (fun x => item_protected x = false) xs))%nat.
Proof.
  induction 1 as [|x xs Hx Hs IH]; [simpl; lia|]. simpl. rewrite filter_app, length_app, filter_cons.
  apply item_assistants in Hx. destruct (item_protected x) eqn:Ep; case_decide; simpl in *; try done; lia.
Qed.

Lemma survivors_bound kept n i log :
  (length (filter (fun x => item_protected x = false) (filter (survives kept) (scan n i log))) <=
   length kept)%nat.
Proof.
  rewrite <- (length_map item_index). apply submseteq_length, NoDup_submseteq.
  - pose proof (scan_index_NoDup n i log) as Hn. revert Hn. generalize (scan n i log). intros xs.
    induction xs as [|x xs IH]; [constructor|]. simpl. intros [Hx Hn]%NoDup_cons.
    assert (Hsub : forall k, k ∈ map item_index (filter (fun x => item_protected x = false)
              (filter (survives kept) xs)) -> k ∈ map item_index xs).
    { intros k (y & -> & [_ [_ Hy]%list_elem_of_filter]%list_elem_of_filter)%list_elem_of_fmap.
      by apply list_elem_of_fmap_2. }
    rewrite filter_cons. case_decide; [|by apply IH]. rewrite filter_cons. case_decide; [|by apply IH].
    simpl. constructor; [|by apply IH]. intros Hin. by apply Hx, Hsub.
  - intros k (y & -> & [Hp [Hs _]%list_elem_of_filter]%list_elem_of_filter)%list_elem_of_fmap.
    destruct Hs as [Hs|Hs]; [congruence|done].
Qed.

Lemma decay_accepts `{MathLib} hl eb kt log log' : compactToolLogDecay msg hl eb kt log = Ok log' ->
  num_leb (default (num_of_Z 4) hl) num_zero = false /\ 0 <= default 12 kt.
Proof.
  unfold compactToolLogDecay. destruct (num_leb _ _); [done|].
  destruct (_ <? 0) eqn:Ek; [done|]. intros _. split; [done|by apply Z.ltb_ge].
Qed.

(** Decay compaction keeps a log usable: it throws exactly on a
    non-positive half-life or a negative [keepTopK]; otherwise it only drops
    messages, keeps the order, keeps every system and user message, never
    leaves a tool result without the turn it answers when the log had none,
    and keeps at most [keepTopK] assistant turns unless there was nothing to
    evict, whatever the engine's logarithm and power return. *)
Theorem decay_keeps_protocol `{MathLib} hl eb kt log :
  match compactToolLogDecay msg hl eb kt log with
  | Throw _ => num_leb (default (num_of_Z 4) hl) num_zero = true \/ default 12 kt < 0
  | Ok log' =>
      (num_leb (default (num_of_Z 4) hl) num_zero = false /\ 0 <= default 12 kt) /\
      log' `sublist_of` log /\
      filter is_protected log' = filter is_protected log /\
      (protocol_ok false log = true -> protocol_ok false log' = true) /\
      (log' = log \/ Z.of_nat (length (filter is_assistant log')) <= default 12 kt)
  end.
Proof.
  destruct (compactToolLogDecay msg hl eb kt log) as [log'|e] eqn:E.
  - split; [by eapply decay_accepts|]. apply decay_survivors in E as (kept & -> & _ & Hk).
    set (xs := scan (length log) 0 log) in *.
    assert (Hc : concat (map item_messages xs) = log) by (by apply scan_concat).
    assert (Hsh : Forall item_shape xs) by apply scan_shape.
    assert (Hsh' : Forall item_shape (filter (survives kept) xs)) by (by apply Forall_filter_of).
    split_and!.
    + pose proof (concat_sublist xs (survives kept)) as HP. by rewrite Hc in HP.
    + pose proof (protected_survive kept xs Hsh) as HP. by rewrite Hc in HP.
    + intros Hp. apply protocol_items; [done|]. apply Forall_filter_of.
      by eapply scan_not_orphan; [exact Hp|left].
    + destruct Hk as [Hk|[_ Hk]]; [by left|right]. rewrite <- Hk. apply inj_le.
      etransitivity; [by apply items_assistants|]. apply survivors_bound.
  - unfold compactToolLogDecay in E. destruct (num_leb _ _); [by left|].
    destruct (_ <? 0) eqn:Ek; [right; by apply Z.ltb_lt|].
    destruct (group_units _ _ _ _). by destruct (_ <=? _).
Qed.
End Compaction.

(** * The coherence detector *)

Lemma last_n_nonempty {A} (n : nat) (l : list A) : (0 < n <= length l)%nat -> last_n n l <> [].
Proof.
  intros Hn E. apply (f_equal length) in E. unfold last_n in E. rewrite length_skipn in E. simpl in E. lia.
Qed.

Lemma detectLoop_iff calls w : 2 <= w ->
  detectLoop calls w = true <->
  w <= Z.of_nat (length calls) /\
  exists key, Forall (fun c => call_key c = key) (last_n (Z.to_nat w) calls).
Proof.
  intros Hw. unfold detectLoop. destruct (_ <? w) eqn:El.
  { apply Z.ltb_lt in El. split; [done|lia]. }
  apply Z.ltb_ge in El.
  destruct (last_n (Z.to_nat w) calls) as [|c cs] eqn:E.
  { exfalso. by apply (last_n_nonempty (Z.to_nat w) calls ltac:(lia)). }
  rewrite forallb_true_iff. setoid_rewrite String.eqb_eq. split.
  - intros H. split; [done|]. exists (call_key c). apply Forall_cons. split; [done|].
    by apply Forall_forall.
  - intros (_ & key & [Hc Hf]%Forall_cons). rewrite Forall_forall in Hf. intros x Hx.
    by rewrite Hc, (Hf _ Hx).
Qed.

Lemma stable_key_order a b : keys_unique a = true -> same_value a b ->
  stableStringify a = stableStringify b.
Proof.
  intros Hu Hs. unfold stableStringify. by rewrite (sort_keys_same a b Hu Hs).
Qed.

(** The coherence detector is built exactly for a window of at least 2 and
    a stall threshold of at least 1; it flags a loop exactly when the window is
    full and its calls print to one key, which they do when they repeat one
    call up to the key order of its arguments, and a stall exactly from the
    threshold on; the score is 1, one half or 0 as none, one or both hold. *)
Theorem coherence_decides (w st : option Z) calls n :
  match createCoherenceDetector w st with
  | Throw _ => default 6 w < 2 \/ default 10 st < 1
  | Ok detect =>
      let window := default 6 w in
      let recent := last_n (Z.to_nat window) calls in
      2 <= window /\ 1 <= default 10 st /\
      (isLoop (detect calls n) = true <->
         window <= Z.of_nat (length calls) /\ exists key, Forall (fun c => call_key c = key) recent) /\
      (forall c, keys_unique (tc_args c) = true -> window <= Z.of_nat (length calls) ->
         Forall (fun c' => tc_name c' = tc_name c /\ same_value (tc_args c) (tc_args c')) recent ->
         isLoop (detect calls n) = true) /\
      (isStall (detect calls n) = true <-> default 10 st <= n) /\
      score (detect calls n) =
        match isLoop (detect calls n), isStall (detect calls n) with
        | false, false => num_one
        | true, true => num_zero
        | _, _ => half
        end
  end.
Proof.
  unfold createCoherenceDetector. destruct (_ <? 2) eqn:Ew; [left; by apply Z.ltb_lt|].
  destruct (_ <? 1) eqn:Es; [right; by apply Z.ltb_lt|]. apply Z.ltb_ge in Ew, Es.
  cbv zeta. unfold check. cbn [isLoop isStall score].
  pose proof (detectLoop_iff calls (default 6 w) Ew) as Hl.
  do 2 (split; [done|]). split; [exact Hl|]. split.
  { intros c Hu Hlen Hf. apply Hl. split; [done|]. exists (call_key c).
    eapply Forall_impl; [exact Hf|]. intros c' [Hn Hs]. unfold call_key.
    by rewrite Hn, (stable_key_order _ _ Hu Hs). }
  split; [apply Z.leb_le|].
  destruct (detectLoop _ _), (_ <=? _); vm_compute; done.
Qed.

(** [compactToolLog] promises never to drop the first user message; with
    [keepFirst: 0] it does, and its cut may leave a tool result first. *)
Example compact_drops_first_user :
  let log := [mkMsg user "task" None; mkMsg assistant "a" None; mkMsg tool "t" (Some "x"); mkMsg tool "u" (Some "x")] in
  compactToolLog (fun m => m) log (Some 0) (Some 1) =
    Ok [mkMsg system "… [3 tool steps omitted for brevity]" None; mkMsg tool "u" (Some "x")] /\
  protocol_ok (fun m => m) false log = true /\
  protocol_ok (fun m => m) false
    [mkMsg system "… [3 tool steps omitted for brevity]" None; mkMsg tool "u" (Some "x")] = false.
Proof. vm_compute. done. Qed.
