(* ===== verification/ClaimGuards.v ===== *)
(** Guards on what a final answer claims
    ([remote/gateway/unexecuted-tool-call.ts],
    [remote/gateway/unobserved-memory-claim.ts]): tool calls written as text,
    and verdicts about a memory that was not consulted. *)

From S2P Require Import Prelude Regex.
From Stdlib Require Import Ascii.

(** * Tool calls written as text *)

Definition XMLISH_TOOL : regex := re "<([a-z][a-z0-9]*(?:_[a-z0-9]+)+)\b[^>]*>".
Definition JSON_TOOL : regex := re "\x22tool\x22\s*:\s*\x22([a-z][a-z0-9_]*)\x22".

(** [set.add(x)]. *)
Definition add_new (x : string) (l : list string) : list string :=
  if bool_decide (x ∈ l) then l else l ++ [x].

(** The non-empty first groups of the matches. *)
Definition first_groups (r : regex) (content : string) : list string :=
  concat (map (fun m => match om_get 1%nat (groups m) with
                        | Some (String c g) => [String c g] | _ => [] end) (exec_all r content)).

Definition unexecutedToolCallMarkers (content : string) : list string :=
  sort_strings (fold_left (fun found x => add_new x found)
    (first_groups XMLISH_TOOL content ++ first_groups JSON_TOOL content) []).

Definition unexecutedToolCallWarning (content : string) : option string :=
  match unexecutedToolCallMarkers content with
  | [] => None
  | names => Some ("⚠️ This answer contains a tool invocation written as TEXT and never run (" ++
      join ", " names ++ "). Anything it concludes from that call was not observed. Ask again before trusting it.")%string
  end.

(** * Verdicts about memory *)

Definition isMemoryLookupTool (toolName : string) : bool :=
  let n := lower toolName in
  if re_test (re "(^|_)recall|memory_get|memory_list|memory_status|get_context") n then true
  else if re_test (re "(brain|knowledge|episodic|memor|souvenir)") n then
    re_test (re "(query|search|get|list|read|recall|find|fetch|status)") n
  else false.

(** [\xe9] is the letter e with an acute accent. *)
Definition NEGATIVE_MEMORY_VERDICT : list regex :=
  [re_i ("\b(?:rien|aucune?)\b[^.!?\n]{0,60}\b(?:dans|en)\s+(?:ma|mes|mon|le|la)\s+" ++
         "(?:memoire|m\xe9moire|notes?|archives?|souvenirs?|brain)\b");
   re_i "\bje\s+n[e']\s*ai\s+(?:rien|aucune?[^.!?\n]{0,30})\s+(?:trouve|trouv\xe9|retrouve|retrouv\xe9)\b";
   re_i ("\bje\s+n[e']\s*(?:l['e]\s*)?ai\s+(?:(?!encore\b)\w+\s+){0,2}?(?:jamais|pas)\s+" ++
         "(?:(?!encore\b)\w+\s+){0,2}?(?:archive|archiv\xe9|enregistre|enregistr\xe9|note|not\xe9|" ++
         "sauvegarde|sauvegard\xe9|stocke|stock\xe9|garde|gard\xe9)\b");
   re_i ("\b(?:nothing|no\s+(?:record|trace|note|entry|memory))\b[^.!?\n]{0,60}\b(?:in|from)\s+(?:my|the)\s+" ++
         "(?:memory|notes?|records?|archives?|brain)\b");
   re_i "\bi\s+(?:never|did\s+not|didn't)\s+(?:saved?|stored?|recorded?|archived?|noted?)\b";
   re_i "\bi\s+(?:do\s+not|don't)\s+have\s+(?:anything|any\s+\w+)\s+(?:stored|recorded|saved|on\s+file)\b"].

Definition negativeMemoryVerdicts (content : string) : list string :=
  concat (map (fun r => match exec r content with Some m => [js_trim (matched m)] | None => [] end)
            NEGATIVE_MEMORY_VERDICT).

Definition unobservedMemoryClaimWarning (content : string) (lookupRan : bool) : option string :=
  if lookupRan then None
  else match negativeMemoryVerdicts content with
       | [] => None
       | v :: _ => Some ("⚠️ This answer states what is NOT in memory (" ++ quoted v ++
           ") but no memory lookup ran in this turn. That absence was not observed ; treat it as unknown, not as empty.")%string
       end.

(** Every expression above is within the grammar. *)
Example patterns_parse :
  forallb (fun s => match parse true s with Some _ => true | None => false end)
    ["\bje\s+n[e']\s*(?:l['e]\s*)?ai\s+(?:(?!encore\b)\w+\s+){0,2}?(?:jamais|pas)\s+(?:(?!encore\b)\w+\s+){0,2}?(?:archive|archiv\xe9)\b";
     "\x22tool\x22\s*:\s*\x22([a-z][a-z0-9_]*)\x22"; "(^|_)recall|memory_get"] = true.
Proof. vm_compute. reflexivity. Qed.

Example narrated_ex :
  unexecutedToolCallMarkers ("<memory_get /> then <brain_query q=x /> and <b>bold</b> {" ++ quoted "tool" ++ ": " ++ quoted "memory_get" ++ "}") =
  ["brain_query"; "memory_get"].
Proof. vm_compute. reflexivity. Qed.

Example verdict_ex :
  negativeMemoryVerdicts "Sorry, I never saved that. There is nothing about it in my notes." =
  ["nothing about it in my notes"; "I never saved"].
Proof. vm_compute. reflexivity. Qed.

Example pending_note_ex : negativeMemoryVerdicts "je ne l'ai pas encore note" = [].
Proof. vm_compute. reflexivity. Qed.

(** A word boundary after an accented participle does not hold before a space,
    a full stop or the end: the accented spelling of a verdict is missed where
    the unaccented one is caught. *)
Example accented_verdict_missed :
  let e_acute := String "233" EmptyString in
  negativeMemoryVerdicts "je n'ai rien trouve." = ["je n'ai rien trouve"] /\
  negativeMemoryVerdicts ("je n'ai rien trouv" ++ e_acute ++ ".") = [] /\
  negativeMemoryVerdicts "je ne l'ai jamais enregistre" = ["je ne l'ai jamais enregistre"] /\
  negativeMemoryVerdicts ("je ne l'ai jamais enregistr" ++ e_acute) = [].
Proof. vm_compute. done. Qed.
