(* ===== verification/Coalescer.v ===== *)
(** The coalescer of streamed text ([loop/text-delta-coalescer.ts]).

    Text is a list of UTF-16 code units.  An operation reads the clock once, at
    [now]; it returns the deltas it flushes.  The size loop runs on fuel, and
    [None] is a loop that has not ended. *)

From S2P Require Import Prelude.

Definition text : Type := list Z.

Definition isHighSurrogate (code : Z) : bool := (55296 <=? code) && (code <=? 56319).
Definition isLowSurrogate (code : Z) : bool := (56320 <=? code) && (code <=? 57343).

Record TextDeltaCoalescer := mkCoal {
  c_maxChars : nat; c_maxIntervalMs : Z; c_buffer : text; c_lastFlushAt : Z
}.

Definition newCoalescer (maxChars : option nat) (maxIntervalMs : option Z) (now : Z) : TextDeltaCoalescer :=
  mkCoal (default 1200%nat maxChars) (default 350 maxIntervalMs) [] now.

(** [this.buffer.charCodeAt(k - 1)] is a high surrogate; a missing unit is NaN. *)
Definition high_before (k : nat) (buffer : text) : bool :=
  match k with
  | O => false
  | S i => match buffer !! i with Some u => isHighSurrogate u | None => false end
  end.

Definition safeCut (max : nat) (buffer : text) : nat :=
  let k := Nat.min max (length buffer) in
  if (k <? length buffer)%nat && high_before k buffer then (k - 1)%nat else k.

(** One flush: nothing for an empty chunk. *)
Definition emit_chunk (chunk : text) (now : Z) (at_ : Z) : list text * Z :=
  match chunk with [] => ([], at_) | _ => ([chunk], now) end.

(** The size branch. *)
Fixpoint drain (fuel : nat) (maxChars : nat) (now : Z) (buffer : text) (at_ : Z)
    : option (list text * text * Z) :=
  if (length buffer <? maxChars)%nat then Some ([], buffer, at_)
  else match fuel with
       | O => None
       | S fuel' =>
           let cut := safeCut maxChars buffer in
           let '(out, at_) := emit_chunk (firstn cut buffer) now at_ in
           '(outs, rest, at_) ← drain fuel' maxChars now (skipn cut buffer) at_;
           Some (out ++ outs, rest, at_)
       end.

Definition push (fuel : nat) (t : text) (now : Z) (c : TextDeltaCoalescer)
    : option (list text * TextDeltaCoalescer) :=
  if (length t =? 0)%nat then Some ([], c)
  else
    '(outs, buffer, at_) ← drain fuel (c_maxChars c) now (c_buffer c ++ t) (c_lastFlushAt c);
    if (0 <? length buffer)%nat && (c_maxIntervalMs c <=? now - at_) then
      let '(out, at_) := emit_chunk buffer now at_ in
      Some (outs ++ out, mkCoal (c_maxChars c) (c_maxIntervalMs c) [] at_)
    else Some (outs, mkCoal (c_maxChars c) (c_maxIntervalMs c) buffer at_).

Definition flush (now : Z) (c : TextDeltaCoalescer) : list text * TextDeltaCoalescer :=
  if (length (c_buffer c) =? 0)%nat then ([], c)
  else
    let '(out, at_) := emit_chunk (c_buffer c) now (c_lastFlushAt c) in
    (out, mkCoal (c_maxChars c) (c_maxIntervalMs c) [] at_).

(** * Well-formed text *)

(** High surrogates are followed by low ones, which come nowhere else. *)
Fixpoint well_formed (t : text) : bool :=
  match t with
  | [] => true
  | u :: t' =>
      if isHighSurrogate u then
        match t' with v :: t'' => isLowSurrogate v && well_formed t'' | [] => false end
      else negb (isLowSurrogate u) && well_formed t'
  end.

Lemma low_not_high u : isLowSurrogate u = true -> isHighSurrogate u = false.
Proof. unfold isLowSurrogate, isHighSurrogate. lia. Qed.

(** Text may be cut after any unit that is not a high surrogate. *)
Lemma well_formed_split n a b : (length a <= n)%nat ->
  well_formed (a ++ b) = true -> high_before (length a) (a ++ b) = false ->
  well_formed a = true /\ well_formed b = true.
Proof.
  revert a. induction n as [|n IH]; intros [|u a] Hn Hw Hh; simpl in Hn; try done; try lia.
  simpl in Hw. destruct (isHighSurrogate u) eqn:Eu.
  - destruct a as [|v a].
    { exfalso. simpl in Hh. by rewrite Eu in Hh. }
    simpl in Hw. apply andb_true_iff in Hw as [Hv Hw].
    assert (Hh' : high_before (length a) (a ++ b) = false).
    { destruct a as [|x a]; [done|]. exact Hh. }
    destruct (IH a ltac:(simpl in Hn; lia) Hw Hh') as [Ha Hb]. simpl. by rewrite Eu, Hv, Ha.
  - apply andb_true_iff in Hw as [Hu Hw].
    assert (Hh' : high_before (length a) (a ++ b) = false).
    { destruct a as [|x a]; [done|]. exact Hh. }
    destruct (IH a ltac:(lia) Hw Hh') as [Ha Hb]. simpl. by rewrite Eu, Hu, Ha.
Qed.

Lemma well_formed_app a b : well_formed a = true -> well_formed b = true -> well_formed (a ++ b) = true.
Proof.
  remember (length a) as n eqn:En. assert (Hn : (length a <= n)%nat) by lia. clear En.
  revert a Hn. induction n as [|n IH]; intros [|u a] Hn Ha Hb; simpl in Hn; try done; try lia.
  simpl in *. destruct (isHighSurrogate u).
  - destruct a as [|v a]; [done|]. simpl in *. apply andb_true_iff in Ha as [-> Ha].
    apply IH; [simpl in Hn; lia|done..].
  - apply andb_true_iff in Ha as [-> Ha]. apply IH; [lia|done..].
Qed.

(** Two high surrogates are never adjacent. *)
Lemma well_formed_before t k : well_formed t = true -> high_before (S k) t = true ->
  high_before k t = false.
Proof.
  remember (length t) as n eqn:En. assert (Hn : (length t <= n)%nat) by lia. clear En.
  revert t k Hn. induction n as [|n IH]; intros [|u t] k Hn Hw Hh; simpl in Hn; try done; try lia.
  destruct k as [|k]; [done|]. simpl in Hw, Hh.
  destruct (isHighSurrogate u) eqn:Eu.
  - destruct t as [|v t]; [done|]. apply andb_true_iff in Hw as [Hv Hw].
    destruct k as [|k]; simpl in *.
    + by rewrite (low_not_high _ Hv) in Hh.
    + destruct k as [|k]; [simpl; by apply low_not_high|].
      exact (IH t (S k) ltac:(simpl in Hn; lia) Hw Hh).
  - apply andb_true_iff in Hw as [Hu Hw]. destruct k as [|k]; [by simpl|].
    exact (IH t (S k) ltac:(lia) Hw Hh).
Qed.

Lemma safeCut_spec max b : (2 <= max)%nat -> (max <= length b)%nat ->
  (0 < safeCut max b <= max)%nat /\
  (well_formed b = true -> well_formed (firstn (safeCut max b) b) = true /\
                           well_formed (skipn (safeCut max b) b) = true).
Proof.
  intros Hm Hb. unfold safeCut. rewrite Nat.min_l by done.
  assert (Hlen : (safeCut max b <= length b)%nat) by (unfold safeCut; rewrite Nat.min_l by done; case_match; lia).
  assert (Hsplit : forall k, (k <= length b)%nat -> high_before k b = false -> well_formed b = true ->
    well_formed (firstn k b) = true /\ well_formed (skipn k b) = true).
  { intros k Hk Hh Hw. apply (well_formed_split k); rewrite ?length_take, ?take_drop; [lia|done|].
    by rewrite Nat.min_l. }
  destruct (max <? length b)%nat eqn:El; simpl.
  - destruct (high_before max b) eqn:Eh; (split; [lia|]); intros Hw; apply Hsplit; try done; try lia.
    destruct max as [|k]; [lia|]. simpl. rewrite Nat.sub_0_r. by apply well_formed_before.
  - apply Nat.ltb_ge in El. split; [lia|]. intros Hw.
    replace max with (length b) by lia. rewrite firstn_all, skipn_all. done.
Qed.

(** * What the operations flush *)

(** The deltas [outs] and what is left, for input [t]: nothing lost, nothing
    larger than the bound, nothing empty, no pair split. *)
Record flushed (maxChars : nat) (t : text) (outs : list text) (rest : text) : Prop := {
  fl_lossless : concat outs ++ rest = t;
  fl_sizes : Forall (fun o => (0 < length o <= maxChars)%nat) outs;
  fl_rest : (length rest < maxChars)%nat;
  fl_well_formed : well_formed t = true ->
    Forall (fun o => well_formed o = true) outs /\ well_formed rest = true
}.

Lemma emit_chunk_some chunk now at_ : chunk <> [] -> emit_chunk chunk now at_ = ([chunk], now).
Proof. by destruct chunk. Qed.

Lemma drain_flushed maxChars now fuel b at_ : (2 <= maxChars)%nat -> (length b <= fuel)%nat ->
  exists outs rest at', drain fuel maxChars now b at_ = Some (outs, rest, at') /\
    flushed maxChars b outs rest.
Proof.
  intros Hm. revert b at_. induction fuel as [|fuel IH]; intros b at_ Hf; cbn [drain];
    destruct (length b <? maxChars)%nat eqn:El.
  1, 3: apply Nat.ltb_lt in El; exists [], b, at_; split; [done|]; split; try done; by constructor.
  { apply Nat.ltb_ge in El. lia. }
  apply Nat.ltb_ge in El. destruct (safeCut_spec maxChars b Hm El) as [Hc Hw].
  set (cut := safeCut maxChars b) in *.
  assert (Hl : length (firstn cut b) = cut) by (rewrite length_take; lia).
  rewrite emit_chunk_some by (intros E; rewrite E in Hl; simpl in Hl; lia).
  destruct (IH (skipn cut b) now ltac:(rewrite length_skipn; lia)) as (outs & rest & at' & -> & [H1 H2 H3 H4]).
  exists (firstn cut b :: outs), rest, at'. split; [done|]. split; [|constructor; [lia|done]|done|].
  - simpl. by rewrite <- app_assoc, H1, take_drop.
  - intros [Hw1 Hw2]%Hw. destruct (H4 Hw2). split; [by constructor|done].
Qed.

(** A sequence of pushes, each with the time it happens. *)
Fixpoint push_all (fuel : nat) (pushes : list (text * Z)) (c : TextDeltaCoalescer)
    : option (list text * TextDeltaCoalescer) :=
  match pushes with
  | [] => Some ([], c)
  | (t, now) :: pushes' =>
      '(outs, c) ← push fuel t now c;
      '(outs', c) ← push_all fuel pushes' c;
      Some (outs ++ outs', c)
  end.

Lemma push_flushed fuel t now c : (2 <= c_maxChars c)%nat -> (length (c_buffer c ++ t) <= fuel)%nat ->
  (length (c_buffer c) < c_maxChars c)%nat ->
  exists outs c', push fuel t now c = Some (outs, c') /\ c_maxChars c' = c_maxChars c /\
    flushed (c_maxChars c) (c_buffer c ++ t) outs (c_buffer c').
Proof.
  intros Hm Hf Hb. unfold push. destruct (length t =? 0)%nat eqn:E.
  { apply Nat.eqb_eq, length_zero_iff_nil in E as ->. rewrite app_nil_r. exists [], c.
    split_and!; try done. }
  destruct (drain_flushed (c_maxChars c) now fuel (c_buffer c ++ t) (c_lastFlushAt c) Hm Hf)
    as (outs & rest & at' & -> & Hfl). cbv beta iota delta [mbind option_bind].
  destruct (andb _ _) eqn:Ei; [|by eexists outs, _].
  apply andb_true_iff in Ei as [Hr%Nat.ltb_lt _].
  rewrite emit_chunk_some by (by destruct rest; simpl in *; try lia).
  eexists _, _. split; [done|]. split; [done|]. destruct Hfl as [H1 H2 H3 H4]. split; simpl.
  - by rewrite concat_app, app_nil_r, <- H1; simpl; rewrite app_nil_r.
  - apply Forall_app. split; [done|]. constructor; [lia|constructor].
  - lia.
  - intros Hw. destruct (H4 Hw). split; [|done]. apply Forall_app. split; [done|by constructor].
Qed.

Lemma push_all_flushed fuel pushes c : (2 <= c_maxChars c)%nat ->
  (length (c_buffer c ++ concat (map fst pushes)) <= fuel)%nat ->
  (length (c_buffer c) < c_maxChars c)%nat ->
  exists outs c', push_all fuel pushes c = Some (outs, c') /\
    concat outs ++ c_buffer c' = c_buffer c ++ concat (map fst pushes) /\
    Forall (fun o => (0 < length o <= c_maxChars c)%nat) outs /\
    (length (c_buffer c') < c_maxChars c)%nat /\
    (well_formed (c_buffer c) = true -> Forall (fun p => well_formed p.1 = true) pushes ->
     Forall (fun o => well_formed o = true) outs /\ well_formed (c_buffer c') = true).
Proof.
  revert c. induction pushes as [|[t now] pushes IH]; intros c Hm Hf Hb.
  { exists [], c. simpl. rewrite app_nil_r. split_and!; try done; by constructor. }
  simpl in Hf. rewrite app_assoc, length_app in Hf.
  destruct (push_flushed fuel t now c Hm ltac:(lia) Hb) as (o & c1 & E1 & Em & [H1 H2 H3 H4]).
  destruct (IH c1) as (os & c2 & E2 & G1 & G2 & G3 & G4); rewrite ?Em; try done.
  { apply (f_equal length) in H1. rewrite !length_app in *. lia. }
  exists (o ++ os), c2. split_and!.
  - cbn [push_all]. rewrite E1. cbn. by rewrite E2.
  - rewrite concat_app, <- app_assoc, G1, app_assoc, H1. simpl. by rewrite app_assoc.
  - apply Forall_app. rewrite Em in G2. done.
  - by rewrite Em in G3.
  - intros Hw [Ht Hp]%Forall_cons. simpl in Ht. destruct (H4 (well_formed_app _ _ Hw Ht)) as [Ho Hb1].
    destruct (G4 Hb1 Hp). split; [by apply Forall_app|done].
Qed.

(** The coalescer ends and loses nothing: for a bound of at least two units
    pushes whose fuel is the text in hand return, the deltas of a sequence of
    pushes followed by a flush concatenate to the pushed text, each has between
    one unit and the bound, and when the pushed texts are well-formed UTF-16 no
    delta splits a surrogate pair. *)
Theorem coalescer_lossless (pushes : list (text * Z)) (maxChars : nat) (interval start stop : Z) :
  (2 <= maxChars)%nat ->
  let total := concat (map fst pushes) in
  exists outs c,
    push_all (length total) pushes (newCoalescer (Some maxChars) (Some interval) start) = Some (outs, c) /\
    let all := outs ++ fst (flush stop c) in
    concat all = total /\
    Forall (fun o => (0 < length o <= maxChars)%nat) all /\
    (Forall (fun p => well_formed p.1 = true) pushes -> Forall (fun o => well_formed o = true) all).
Proof.
  intros Hm total.
  destruct (push_all_flushed (length total) pushes (newCoalescer (Some maxChars) (Some interval) start))
    as (outs & c & E & H1 & H2 & H3 & H4); simpl; try done; try lia.
  simpl in *. exists outs, c. split; [done|]. unfold flush.
  destruct (length (c_buffer c) =? 0)%nat eqn:Ec.
  - apply Nat.eqb_eq, length_zero_iff_nil in Ec. rewrite Ec, app_nil_r in H1. simpl. rewrite app_nil_r.
    split_and!; try done. intros Hp. by apply H4.
  - apply Nat.eqb_neq in Ec. rewrite emit_chunk_some by (intros E'; by rewrite E' in Ec). cbn [fst].
    split_and!.
    + by rewrite concat_app; simpl; rewrite app_nil_r.
    + apply Forall_app. split; [done|]. constructor; [lia|constructor].
    + intros Hp. destruct (H4 eq_refl Hp). apply Forall_app. split; [done|by constructor].
Qed.

Lemma coalescer_lossless_witness :
  well_formed [55357; 56832; 65] = true /\
  exists outs c, push_all 3 [([55357; 56832; 65], 0)] (newCoalescer (Some 2%nat) (Some 350) 0) = Some (outs, c) /\
    let all := outs ++ fst (flush 1 c) in
    concat all = [55357; 56832; 65] /\
    Forall (fun o => (0 < length o <= 2)%nat) all /\
    (Forall (fun p : text * Z => well_formed p.1 = true) [([55357; 56832; 65], 0)] ->
     Forall (fun o => well_formed o = true) all).
Proof.
  split; [reflexivity|]. exact (coalescer_lossless [([55357; 56832; 65], 0)] 2 350 0 1 (le_n 2)).
Defined.

(** With a bound of one unit the size loop never ends on a pair: the cut is at
    0, where a comment says it is always at least 1. *)
Example one_unit_bound_diverges fuel now at_ : drain fuel 1 now [55357; 56832] at_ = None.
Proof. revert at_. induction fuel as [|fuel IH]; intros at_; [done|]. cbn. by rewrite IH. Qed.
