(* ===== verification/Approval.v ===== *)
(** Human approval: requests, verdicts and the in-memory store
    ([hitl/approval-channel.ts], [riskScore] of [tools/types.ts]), and the inbox
    of remote instructions ([remote/inbox.ts]).

    The store is specified card by card: each request is a small automaton, and
    the store implements all of them at once. *)

From S2P Require Import Prelude JsNum.

(** * Risk *)

Record RiskVector := mkRisk {
  reversibility : num; blastRadius : num; dataSensitivity : num; externalSideEffect : num;
  confidence : num
}.

Record RiskWeights := {
  w_reversibility : option num; w_blastRadius : option num; w_dataSensitivity : option num;
  w_externalSideEffect : option num; w_confidence : option num
}.
Definition no_weights : RiskWeights := Build_RiskWeights None None None None None.

Definition riskScore (v : RiskVector) (w : RiskWeights) : num :=
  let x := num_mul (reversibility v) (default (num_of_decimal 3 1) (w_reversibility w)) in
  let x := num_add x (num_mul (blastRadius v) (default (num_of_decimal 25 2) (w_blastRadius w))) in
  let x := num_add x (num_mul (dataSensitivity v) (default (num_of_decimal 2 1) (w_dataSensitivity w))) in
  let x := num_add x
    (num_mul (externalSideEffect v) (default (num_of_decimal 2 1) (w_externalSideEffect w))) in
  num_add x (num_mul (num_sub num_one (confidence v)) (default (num_of_decimal 5 2) (w_confidence w))).

Definition dangerousToRiskVector (dangerous : option bool) : RiskVector :=
  let tenths z := num_of_decimal z 1 in
  if default false dangerous then mkRisk (tenths 9) (tenths 7) (tenths 5) (tenths 5) (tenths 5)
  else mkRisk (tenths 1) (tenths 1) (tenths 1) (tenths 1) (num_of_decimal 95 2).

Record ApprovalRisk := mkApprovalRisk {
  ar_score : num; ar_reversibility : num; ar_blastRadius : num; ar_dataSensitivity : num;
  ar_externalSideEffect : num
}.

Definition toApprovalRisk (v : RiskVector) : ApprovalRisk :=
  mkApprovalRisk (riskScore v no_weights) (reversibility v) (blastRadius v) (dataSensitivity v)
    (externalSideEffect v).

(** * Requests and verdicts *)

Record ApprovalRequest := mkRequest {
  ar_agentId : string; ar_action : string; ar_context : string; ar_timeoutMs : Z;
  ar_risk : option ApprovalRisk
}.

Record Approval := mkApproval {
  approved : bool; rationale : option string; ap_by : string; ap_at : string;
  ap_scope : option string; timedOut : bool
}.

Inductive ApprovalStatus := s_pending | s_resolved | s_cancelled | s_timedout.
#[export] Instance ApprovalStatus_eq_dec : EqDecision ApprovalStatus.
Proof. solve_decision. Defined.

Record PendingApproval := mkPending {
  pa_id : string; pa_req : ApprovalRequest; pa_createdAt : Z; pa_expiresAt : Z;
  pa_status : ApprovalStatus; pa_verdict : option Approval
}.

(** * The store *)

Definition InMemoryApprovalStore : Type := list (string * PendingApproval).

Definition set_status (st : ApprovalStatus) (v : option Approval) (e : PendingApproval) : PendingApproval :=
  mkPending (pa_id e) (pa_req e) (pa_createdAt e) (pa_expiresAt e) st v.

Definition create (entry : PendingApproval) (s : InMemoryApprovalStore)
    : InMemoryApprovalStore * result unit :=
  if om_has (pa_id entry) s then (s, Throw (JsError "Error" ("approval: duplicate id " ++ pa_id entry)%string))
  else (om_set (pa_id entry) entry s, Ok tt).

Definition get (id : string) (s : InMemoryApprovalStore) : option PendingApproval := om_get id s.

(** The shared guard of [resolve] and [cancel]: only a pending entry moves. *)
Definition settle (id : string) (f : PendingApproval -> PendingApproval) (s : InMemoryApprovalStore)
    : InMemoryApprovalStore * bool :=
  match om_get id s with
  | Some e => if bool_decide (pa_status e = s_pending) then (om_set id (f e) s, true) else (s, false)
  | None => (s, false)
  end.

Definition resolve (id : string) (v : Approval) (s : InMemoryApprovalStore) : InMemoryApprovalStore * bool :=
  settle id (set_status s_resolved (Some v)) s.
Definition cancel (id : string) (s : InMemoryApprovalStore) : InMemoryApprovalStore * bool :=
  settle id (fun e => set_status s_cancelled (pa_verdict e) e) s.

Definition overdue (now : Z) (e : PendingApproval) : bool :=
  bool_decide (pa_status e = s_pending) && (pa_expiresAt e <? now).

Definition expireOverdue (now : Z) (s : InMemoryApprovalStore) : InMemoryApprovalStore * Z :=
  (map (fun kv => (kv.1, if overdue now kv.2 then set_status s_timedout (pa_verdict kv.2) kv.2 else kv.2)) s,
   count_if (fun kv => overdue now kv.2) s).

Definition listAll (s : InMemoryApprovalStore) : list PendingApproval := map snd s.

(** * The contract, card by card *)

(** What is known of one request id. *)
Inductive card :=
| Absent
| Pending (expiresAt : Z)
| Resolved (v : Approval)
| Cancelled
| TimedOut.

Inductive op :=
| OCreate (entry : PendingApproval)
| OResolve (id : string) (v : Approval)
| OCancel (id : string)
| OExpire (now : Z).

(** The move of the card of [id] under an operation: terminal cards stay. *)
Definition card_next (o : op) (id : string) (c : card) : card :=
  match o, c with
  | OCreate e, Absent => if decide (pa_id e = id) then Pending (pa_expiresAt e) else Absent
  | OResolve i v, Pending _ => if decide (i = id) then Resolved v else c
  | OCancel i, Pending _ => if decide (i = id) then Cancelled else c
  | OExpire now, Pending t => if t <? now then TimedOut else c
  | _, _ => c
  end.

(** Whether the operation succeeds, as a function of its card. *)
Definition card_accepts (o : op) (c : card) : bool :=
  match o, c with
  | OCreate _, Absent | OResolve _ _, Pending _ | OCancel _, Pending _ => true
  | _, _ => false
  end.
Definition op_id (o : op) : option string :=
  match o with OCreate e => Some (pa_id e) | OResolve i _ | OCancel i => Some i | OExpire _ => None end.

Inductive reply := RBool (b : bool) | RCount (n : Z).

(** The store's answer to an operation; [create] succeeds or throws. *)
Definition exec_op (o : op) (s : InMemoryApprovalStore) : InMemoryApprovalStore * reply :=
  match o with
  | OCreate e => let '(s', r) := create e s in (s', RBool (is_ok r))
  | OResolve i v => let '(s', b) := resolve i v s in (s', RBool b)
  | OCancel i => let '(s', b) := cancel i s in (s', RBool b)
  | OExpire now => let '(s', n) := expireOverdue now s in (s', RCount n)
  end.

Definition entry_card (e : PendingApproval) : card :=
  match pa_status e, pa_verdict e with
  | s_pending, _ => Pending (pa_expiresAt e)
  | s_resolved, Some v => Resolved v
  | s_resolved, None => Absent
  | s_cancelled, _ => Cancelled
  | s_timedout, _ => TimedOut
  end.
Definition card_of (s : InMemoryApprovalStore) (id : string) : card :=
  match om_get id s with Some e => entry_card e | None => Absent end.

(** Entries are created pending, and a resolved one has its verdict. *)
Definition op_ok (o : op) : Prop := match o with OCreate e => pa_status e = s_pending | _ => True end.
Record store_inv (s : InMemoryApprovalStore) : Prop := {
  st_keys : NoDup s.*1;
  st_resolved : forall id e, om_get id s = Some e -> pa_status e = s_resolved -> is_Some (pa_verdict e)
}.

Lemma om_get_map_snd {K V} `{EqDecision K} (f : V -> V) (k : K) (m : list (K * V)) :
  om_get k (map (fun kv => (kv.1, f kv.2)) m) = f <$> om_get k m.
Proof. induction m as [|[k' v] m IH]; [done|]. simpl. case_decide; [done|exact IH]. Qed.

Lemma om_has_get {K V} `{EqDecision K} (k : K) (m : list (K * V)) :
  om_has k m = match om_get k m with Some _ => true | None => false end.
Proof. unfold om_has. by destruct (om_get k m). Qed.

Lemma exec_op_inv o s : op_ok o -> store_inv s -> store_inv (fst (exec_op o s)).
Proof.
  intros Ho [Hn Hr]. destruct o as [e|i v|i|now]; simpl in *.
  - unfold create. rewrite om_has_get. destruct (om_get (pa_id e) s) eqn:E; simpl; [done|].
    split; [by apply om_set_NoDup|]. intros id e'. rewrite om_get_set. case_decide; [|by apply Hr].
    intros [= <-]. congruence.
  - unfold resolve, settle. destruct (om_get i s) eqn:E; [case_bool_decide|]; simpl; try done.
    split; [by apply om_set_NoDup|]. intros id e'. rewrite om_get_set. case_decide; [|by apply Hr].
    intros [= <-] _. simpl. eauto.
  - unfold cancel, settle. destruct (om_get i s) eqn:E; [case_bool_decide|]; simpl; try done.
    split; [by apply om_set_NoDup|]. intros id e'. rewrite om_get_set. case_decide; [|by apply Hr].
    by intros [= <-] ?.
  - split; [by rewrite <- list_fmap_compose|]. intros id e'.
    rewrite (om_get_map_snd (fun e => if overdue now e then set_status s_timedout (pa_verdict e) e else e)).
    intros (e & He & ->)%fmap_Some. destruct (overdue now e); [done|]. by eapply Hr.
Qed.

Lemma entry_card_pending e : is_Some (pa_verdict e) \/ pa_status e <> s_resolved ->
  match entry_card e with Pending t => pa_status e = s_pending /\ t = pa_expiresAt e | Absent => False
  | _ => pa_status e <> s_pending end.
Proof.
  unfold entry_card. destruct (pa_status e) eqn:E; try done. intros [[v ->]|]; done.
Qed.

Lemma entry_card_of s id e : store_inv s -> om_get id s = Some e ->
  match entry_card e with Pending t => pa_status e = s_pending /\ t = pa_expiresAt e | Absent => False
  | _ => pa_status e <> s_pending end.
Proof.
  intros [_ Hr] He. apply entry_card_pending.
  destruct (decide (pa_status e = s_resolved)) as [E|E]; [left; by eapply Hr|by right].
Qed.

Lemma settle_cards i f target s id : store_inv s -> (forall e, entry_card (f e) = target) ->
  card_of (fst (settle i f s)) id =
  match card_of s id with Pending t => if decide (i = id) then target else Pending t | c => c end.
Proof.
  intros Hi Ht. unfold card_of, settle.
  destruct (om_get i s) as [e|] eqn:E; [case_bool_decide as Ep|]; cbn [fst].
  - rewrite om_get_set. destruct (decide (i = id)) as [<-|Hne].
    + rewrite E, Ht. unfold entry_card. by rewrite Ep.
    + destruct (om_get id s) as [e1|]; [|done]. by destruct (entry_card e1).
  - destruct (om_get id s) as [e1|] eqn:E1; [|done]. pose proof (entry_card_of _ _ _ Hi E1) as Hc.
    destruct (entry_card e1); try done. case_decide; [|done]. subst. destruct Hc. congruence.
  - destruct (om_get id s) as [e1|] eqn:E1; [|done]. destruct (entry_card e1); try done.
    case_decide; [congruence|done].
Qed.

Lemma settle_reply i f s : store_inv s ->
  snd (settle i f s) = match card_of s i with Pending _ => true | _ => false end.
Proof.
  intros Hi. unfold card_of, settle. destruct (om_get i s) as [e|] eqn:E; [|done].
  pose proof (entry_card_of _ _ _ Hi E) as Hc.
  case_bool_decide as Ep; cbn [snd]; destruct (entry_card e); try done; by destruct Hc.
Qed.

(** The step of the simulation: every card moves as the contract says, and the
    reply is the one its card gives. *)
Lemma exec_op_cards o s id : op_ok o -> store_inv s ->
  card_of (fst (exec_op o s)) id = card_next o id (card_of s id).
Proof.
  intros Ho Hi. destruct o as [e|i v|i|now]; cbn [exec_op card_next].
  - unfold card_of, create. rewrite om_has_get. destruct (om_get (pa_id e) s) as [e0|] eqn:E; cbn [fst].
    + destruct (om_get id s) as [e1|] eqn:E1; [|by case_decide; [congruence|]].
      pose proof (entry_card_of _ _ _ Hi E1) as Hc. by destruct (entry_card e1).
    + rewrite om_get_set. destruct (decide (pa_id e = id)) as [<-|Hne].
      * rewrite E. unfold entry_card. simpl in Ho. by rewrite Ho.
      * destruct (om_get id s) as [e1|] eqn:E1; [|done].
        pose proof (entry_card_of _ _ _ Hi E1) as Hc. by destruct (entry_card e1).
  - pose proof (settle_cards i (set_status s_resolved (Some v)) (Resolved v) s id Hi) as H.
    unfold resolve. destruct (settle i _ s). simpl in *. rewrite H by done. by destruct (card_of s id).
  - pose proof (settle_cards i (fun e => set_status s_cancelled (pa_verdict e) e) Cancelled s id Hi) as H.
    unfold cancel. destruct (settle i _ s). simpl in *. rewrite H by done. by destruct (card_of s id).
  - unfold card_of. simpl.
    rewrite (om_get_map_snd (fun e => if overdue now e then set_status s_timedout (pa_verdict e) e else e)).
    destruct (om_get id s) as [e|] eqn:E; [|done]. simpl. pose proof (entry_card_of _ _ _ Hi E) as Hc.
    unfold overdue. destruct (entry_card e) eqn:Ec; try done.
    1: destruct Hc as [Hp ->]; rewrite bool_decide_eq_true_2 by done; by destruct (_ <? _).
    all: by rewrite bool_decide_eq_false_2.
Qed.

(** Requests that expire at [now]. *)
Definition expiring (now : Z) (s : InMemoryApprovalStore) (id : string) : bool :=
  match card_of s id with Pending t => t <? now | _ => false end.

Lemma om_get_in {K V} `{EqDecision K} (m : list (K * V)) k v :
  NoDup m.*1 -> (k, v) ∈ m -> om_get k m = Some v.
Proof.
  induction m as [|[k' v'] m IH]; simpl; [by intros _ ?%elem_of_nil|]. intros [Hk Hn]%NoDup_cons.
  intros [[= -> ->]|Hin]%elem_of_cons; [by rewrite decide_True|].
  rewrite decide_False; [by apply IH|]. intros ->. apply Hk. exact (list_elem_of_fmap_2 fst _ _ Hin).
Qed.

Lemma count_if_map {A B} (f : A -> B) p l : count_if p (map f l) = count_if (fun x => p (f x)) l.
Proof.
  unfold count_if. f_equal. induction l as [|x l IH]; [done|]. simpl. destruct (p (f x)); simpl; by rewrite IH.
Qed.

Lemma count_if_ext {A} (p q : A -> bool) l : (forall x, x ∈ l -> p x = q x) -> count_if p l = count_if q l.
Proof.
  unfold count_if. intros Hpq. f_equal. f_equal. induction l as [|x l IH]; [done|]. simpl.
  rewrite (Hpq x) by left. rewrite IH; [done|]. intros y Hy. apply Hpq. by right.
Qed.

Lemma expire_reply now s : store_inv s ->
  snd (expireOverdue now s) = count_if (expiring now s) s.*1.
Proof.
  intros Hi. cbn [expireOverdue snd]. change (s.*1) with (map fst s). rewrite count_if_map.
  apply count_if_ext. intros [id e] Hin. cbn [fst snd].
  assert (He : om_get id s = Some e) by (apply om_get_in; [apply Hi|done]).
  pose proof (entry_card_of _ _ _ Hi He) as Hc. unfold expiring, card_of, overdue. rewrite He.
  destruct (entry_card e); try done; [by destruct Hc as [-> ->]|..]; by rewrite bool_decide_eq_false_2.
Qed.

Definition reply_of (o : op) (s : InMemoryApprovalStore) : reply :=
  match op_id o with
  | Some id => RBool (card_accepts o (card_of s id))
  | None => RCount (match o with OExpire now => count_if (expiring now s) s.*1 | _ => 0 end)
  end.

Lemma exec_op_reply o s : store_inv s -> snd (exec_op o s) = reply_of o s.
Proof.
  intros Hi. destruct o as [e|i v|i|now]; unfold reply_of; cbn [exec_op op_id].
  - unfold create, card_of. rewrite om_has_get. destruct (om_get _ s) as [e0|] eqn:E; [|done].
    pose proof (entry_card_of _ _ _ Hi E) as Hc. simpl. by destruct (entry_card e0).
  - pose proof (settle_reply i (set_status s_resolved (Some v)) s Hi) as H. unfold resolve.
    destruct (settle i _ s). simpl in *. rewrite H. by destruct (card_of s i).
  - pose proof (settle_reply i (fun e => set_status s_cancelled (pa_verdict e) e) s Hi) as H. unfold cancel.
    destruct (settle i _ s). simpl in *. rewrite H. by destruct (card_of s i).
  - pose proof (expire_reply now s Hi) as H. destruct (expireOverdue now s). simpl in *. by rewrite H.
Qed.

(** A session of the store, with its replies, and of one card. *)
Fixpoint exec_ops (os : list op) (s : InMemoryApprovalStore) : InMemoryApprovalStore * list reply :=
  match os with
  | [] => (s, [])
  | o :: os' =>
      let '(s1, r) := exec_op o s in let '(s2, rs) := exec_ops os' s1 in (s2, r :: rs)
  end.
Definition card_run (os : list op) (id : string) : card :=
  fold_left (fun c o => card_next o id c) os Absent.

(** Whether an operation addressed to [id] is accepted after the operations
    before it. *)
Fixpoint card_replies (os : list op) (id : string) (c : card) : list bool :=
  match os with
  | [] => []
  | o :: os' =>
      (if bool_decide (op_id o = Some id) then [card_accepts o c] else []) ++
      card_replies os' id (card_next o id c)
  end.

(** The replies of a session to the operations addressed to [id]. *)
Fixpoint replies_to (os : list op) (rs : list reply) (id : string) : list bool :=
  match os, rs with
  | o :: os', r :: rs' =>
      (if bool_decide (op_id o = Some id) then [match r with RBool b => b | RCount _ => false end] else []) ++
      replies_to os' rs' id
  | _, _ => []
  end.

Lemma exec_ops_cards os s id : Forall op_ok os -> store_inv s ->
  let '(s', rs) := exec_ops os s in
  store_inv s' /\ card_of s' id = fold_left (fun c o => card_next o id c) os (card_of s id) /\
  replies_to os rs id = card_replies os id (card_of s id).
Proof.
  intros Hok. revert s. induction Hok as [|o os Ho Hok IH]; intros s Hi; [done|]. cbn [exec_ops].
  pose proof (exec_op_inv o s Ho Hi) as Hi1. pose proof (exec_op_cards o s id Ho Hi) as Hc.
  pose proof (exec_op_reply o s Hi) as Hr. destruct (exec_op o s) as [s1 r]. cbn [fst snd] in *.
  specialize (IH s1 Hi1). destruct (exec_ops os s1) as [s2 rs]. destruct IH as (Hi2 & Hc2 & Hr2).
  rewrite Hc in Hc2, Hr2. split_and!; [done|exact Hc2|]. cbn [replies_to card_replies]. rewrite Hr2. f_equal.
  subst r. unfold reply_of. case_bool_decide as E; [|done]. by rewrite E.
Qed.

(** Cards that have settled do not move. *)
Definition settled (c : card) : Prop := match c with Resolved _ | Cancelled | TimedOut => True | _ => False end.

Lemma settled_stays os id c : settled c -> fold_left (fun c o => card_next o id c) os c = c.
Proof. induction os as [|o os IH]; intros Hs; [done|]. simpl. destruct c, o; try done; by apply IH. Qed.

Lemma settled_replies os id c : settled c -> Forall (fun b => b = false) (card_replies os id c).
Proof.
  induction os as [|o os IH]; intros Hs; [constructor|]. simpl.
  assert (E : card_next o id c = c) by (by destruct c, o). rewrite E. apply Forall_app.
  split; [|by apply IH]. case_bool_decide; constructor; [by destruct c, o|constructor].
Qed.

(** The approval store implements its contract: for every sequence of
    operations, from the empty store, each request id goes through its own
    automaton (absent, pending until it expires, then resolved, cancelled or
    timed out) and the store's replies to the operations on that id are the
    ones the automaton gives; once an id has settled, by whichever operation
    came first, its state never changes and every later operation on it is
    refused. *)
Theorem store_refines_cards os os' id :
  Forall op_ok (os ++ os') ->
  let '(s, rs) := exec_ops os [] in
  card_of s id = card_run os id /\
  replies_to os rs id = card_replies os id Absent /\
  (settled (card_of s id) ->
   let '(s', rs') := exec_ops os' s in
   card_of s' id = card_of s id /\ Forall (fun b => b = false) (replies_to os' rs' id)).
Proof.
  intros [Hok Hok']%Forall_app.
  assert (Hi0 : store_inv []) by (split; [constructor|done]).
  pose proof (exec_ops_cards os [] id Hok Hi0) as H. destruct (exec_ops os []) as [s rs].
  destruct H as (Hi & Hc & Hr). split_and!; [exact Hc|exact Hr|]. intros Hs.
  pose proof (exec_ops_cards os' s id Hok' Hi) as H'. destruct (exec_ops os' s) as [s' rs'].
  destruct H' as (_ & -> & ->). split; [by apply settled_stays|by apply settled_replies].
Qed.

Definition sample_request : ApprovalRequest := mkRequest "a" "deploy" "{}" 1000 None.
Definition sample_card : PendingApproval := mkPending "r1" sample_request 0 1000 s_pending None.
Definition sample_approval : Approval := mkApproval true None "human" "now" None false.

Lemma store_refines_cards_witness :
  op_ok (OCreate sample_card) /\
  let '(s, rs) := exec_ops [OCreate sample_card; OExpire 1001] [] in
  card_of s "r1" = card_run [OCreate sample_card; OExpire 1001] "r1" /\
  replies_to [OCreate sample_card; OExpire 1001] rs "r1" =
    card_replies [OCreate sample_card; OExpire 1001] "r1" Absent /\
  (settled (card_of s "r1") ->
   let '(s', rs') := exec_ops [OResolve "r1" sample_approval] s in
   card_of s' "r1" = card_of s "r1" /\
   Forall (fun b => b = false) (replies_to [OResolve "r1" sample_approval] rs' "r1")).
Proof.
  split; [reflexivity|].
  apply (store_refines_cards [OCreate sample_card; OExpire 1001] [OResolve "r1" sample_approval] "r1").
  repeat constructor.
Defined.

(** * The instruction inbox *)

Record Instruction := mkInstr {
  i_text : string; i_source : string; i_whisper : bool; i_at : string; i_steerId : option string
}.
Definition InstructionInbox : Type := list Instruction.

(** [at_] is the time of the call, printed. *)
Definition enqueue (text source : string) (whisper : bool) (steerId : option string) (at_ : string)
    (q : InstructionInbox) : InstructionInbox :=
  let trimmed := js_trim text in
  if (trimmed =? "")%string then q else q ++ [mkInstr trimmed source whisper at_ steerId].
Definition drain_inbox (q : InstructionInbox) : InstructionInbox * list Instruction := ([], q).
Definition inbox_size (q : InstructionInbox) : Z := Z.of_nat (length q).
