(* ===== verification/Trackers.v ===== *)
(** Trackers of an agent session: cumulative confidence
    ([loop/trajectory-confidence.ts]) and progress toward the goal
    ([budget/promise-progress.ts], with [cosineSimilarity] of
    [safety/immune.ts]); and the non-destructive window compactor
    ([run-memory/compactor.ts]): the middle of the log is replaced by a summary
    with an index of what was evicted. *)

From S2P Require Import Prelude JsNum Regex Budget BudgetProps.
From Stdlib Require Import SpecFloat.
From Stdlib Require Import Ascii.

(** * Trajectory confidence *)

Record TrajectoryConfidenceTracker := mkTraj {
  t_alpha : num; t_tau : num; t_initial : num;
  t_value : num; t_observations : Z; t_peak : num; t_trough : num
}.

Record TrajectoryConfidenceState := mkTrajState {
  ts_value : num; ts_observations : Z; ts_peak : num; ts_trough : num
}.

Definition clamp01 (x : num) : num := num_max num_zero (num_min num_one x).

Definition newTrajectory (initial alpha tau : option num) : result TrajectoryConfidenceTracker :=
  let i := default num_one initial in
  let a := default (num_of_decimal 3 1) alpha in
  let t := default (num_of_decimal 7 1) tau in
  if negb (is_finite i) then
    Throw (JsError "RangeError" ("TrajectoryConfidenceTracker: initial must be a finite number, got " ++
      num_to_string i)%string)
  else if negb (is_finite a) || num_leb a num_zero || num_gtb a num_one then
    Throw (JsError "RangeError" ("TrajectoryConfidenceTracker: alpha must be in (0, 1], got " ++
      num_to_string a)%string)
  else if negb (is_finite t) || num_ltb t num_zero || num_gtb t num_one then
    Throw (JsError "RangeError" ("TrajectoryConfidenceTracker: tau must be in [0, 1], got " ++
      num_to_string t)%string)
  else let i' := clamp01 i in Ok (mkTraj a t i' i' 0 i' i').

Definition traj_snapshot (t : TrajectoryConfidenceTracker) : TrajectoryConfidenceState :=
  mkTrajState (t_value t) (t_observations t) (t_peak t) (t_trough t).

Definition traj_observe (stepConfidence : num) (t : TrajectoryConfidenceTracker)
    : TrajectoryConfidenceTracker * result TrajectoryConfidenceState :=
  if negb (is_finite stepConfidence) then
    (t, Throw (JsError "RangeError"
      ("TrajectoryConfidenceTracker.observe: stepConfidence must be a finite number, got " ++
        num_to_string stepConfidence)%string))
  else
    let v := num_add (num_mul (t_alpha t) (clamp01 stepConfidence))
               (num_mul (num_sub num_one (t_alpha t)) (t_value t)) in
    let t' := mkTraj (t_alpha t) (t_tau t) (t_initial t) v (t_observations t + 1)
      (if num_gtb v (t_peak t) then v else t_peak t)
      (if num_ltb v (t_trough t) then v else t_trough t) in
    (t', Ok (traj_snapshot t')).

Definition isInterruptRecommended (t : TrajectoryConfidenceTracker) : bool :=
  (2 <=? t_observations t) && num_ltb (t_value t) (t_tau t).

Definition traj_reset (t : TrajectoryConfidenceTracker) : TrajectoryConfidenceTracker :=
  mkTraj (t_alpha t) (t_tau t) (t_initial t) (t_initial t) 0 (t_initial t) (t_initial t).

(** The extremes bound the current value. *)
Record traj_inv (t : TrajectoryConfidenceTracker) : Prop := {
  tj_peak : num_gtb (t_value t) (t_peak t) = false;
  tj_trough : num_ltb (t_value t) (t_trough t) = false;
  tj_count : 0 <= t_observations t
}.

Lemma newTrajectory_inv i a tau t : newTrajectory i a tau = Ok t -> traj_inv t.
Proof.
  unfold newTrajectory. destruct (negb _); [done|]. destruct (_ || _); [done|].
  destruct (_ || _); [done|]. intros [= <-]. split; simpl; [apply num_ltb_irrefl..|done].
Qed.

Lemma traj_observe_inv c t : traj_inv t -> traj_inv (fst (traj_observe c t)).
Proof.
  intros [Hp Ht Hc]. unfold traj_observe. destruct (negb _); [done|]. cbn [fst].
  set (v := num_add _ _). split; cbn [t_value t_peak t_trough t_observations]; [| |lia].
  - destruct (num_gtb v (t_peak t)) eqn:E; [apply num_ltb_irrefl|done].
  - destruct (num_ltb v (t_trough t)) eqn:E; [apply num_ltb_irrefl|done].
Qed.

Lemma traj_reset_inv t : traj_inv (traj_reset t).
Proof. split; simpl; [apply num_ltb_irrefl..|done]. Qed.

(** One uncertain step never recommends an interrupt. *)
Lemma interrupt_needs_two t c : t_observations t = 0 ->
  isInterruptRecommended (fst (traj_observe c t)) = false.
Proof.
  intros E. unfold traj_observe. destruct (negb _); unfold isInterruptRecommended; cbn; by rewrite E.
Qed.

(** * Promise and progress *)

Definition num_sqrt (x : num) : num := SFsqrt prec emax x.
Definition num_abs (x : num) : num := SFabs x.

Fixpoint dot_norms (a b : list num) (dot na nb : num) : num * num * num :=
  match a, b with
  | x :: a', y :: b' =>
      dot_norms a' b' (num_add dot (num_mul x y)) (num_add na (num_mul x x)) (num_add nb (num_mul y y))
  | _, _ => (dot, na, nb)
  end.

Definition cosineSimilarity (a b : list num) : num :=
  if negb (length a =? length b)%nat then num_zero
  else
    let '(dot, na, nb) := dot_norms a b num_zero num_zero num_zero in
    let denominator := num_mul (num_sqrt na) (num_sqrt nb) in
    if num_eqb denominator num_zero then num_zero else num_div dot denominator.

Record PromiseProgressTracker := mkPromise {
  p_epsilon : num; p_windowSize : Z; p_goalText : string;
  p_goalEmbedding : option (list num);
  p_promiseHistory : list num;
  p_deltaWindow : list num
}.

Definition newPromise (goal : string) (plateauEpsilon : option num) (plateauWindow : option Z)
    : PromiseProgressTracker :=
  mkPromise (default (num_of_decimal 2 2) plateauEpsilon) (default 5 plateauWindow) goal None [] [].

Record PromiseProgressSnapshot := mkSnap {
  sn_promise : num; sn_progress : num; sn_isPlateau : bool; sn_observations : Z
}.

Definition detectPlateau (t : PromiseProgressTracker) : bool :=
  if Z.of_nat (length (p_deltaWindow t)) <? p_windowSize t then false
  else forallb (fun d => num_ltb (num_abs d) (p_epsilon t)) (p_deltaWindow t).

Definition buildSnapshot (t : PromiseProgressTracker) (currentPromise delta : num) : PromiseProgressSnapshot :=
  mkSnap currentPromise delta (detectPlateau t) (Z.of_nat (length (p_promiseHistory t))).

Definition last_or {A} (d : A) (l : list A) : A := List.last l d.

(** What [observe] does once the embeddings are there. *)
Definition promise_record (goal output : list num) (t : PromiseProgressTracker)
    : PromiseProgressTracker * PromiseProgressSnapshot :=
  let currentPromise := cosineSimilarity goal output in
  let delta := num_sub currentPromise (last_or currentPromise (p_promiseHistory t)) in
  let window := p_deltaWindow t ++ [delta] in
  let window := if p_windowSize t <? Z.of_nat (length window) then tl window else window in
  let t' := mkPromise (p_epsilon t) (p_windowSize t) (p_goalText t) (Some goal)
    (p_promiseHistory t ++ [currentPromise]) window in
  (t', buildSnapshot t' currentPromise delta).

(** [embedFn] acts on a world and may fail; the goal is embedded at the first
    call and kept even if the output's embedding then fails. *)
Definition promise_observe {W} (embedFn : string -> W -> W * result (list num)) (output : string)
    (t : PromiseProgressTracker) (w : W) : W * PromiseProgressTracker * result PromiseProgressSnapshot :=
  let '(w, goal) := match p_goalEmbedding t with
    | Some g => (w, Ok g)
    | None => embedFn (p_goalText t) w
    end in
  match goal with
  | Throw e => (w, t, Throw e)
  | Ok g =>
      let t := mkPromise (p_epsilon t) (p_windowSize t) (p_goalText t) (Some g)
        (p_promiseHistory t) (p_deltaWindow t) in
      let '(w, out) := embedFn output w in
      match out with
      | Throw e => (w, t, Throw e)
      | Ok o => let '(t', s) := promise_record g o t in (w, t', Ok s)
      end
  end.

Definition promise_snapshot (t : PromiseProgressTracker) : PromiseProgressSnapshot :=
  buildSnapshot t (last_or num_zero (p_promiseHistory t)) (last_or num_zero (p_deltaWindow t)).

Definition promise_reset (newGoal : option string) (t : PromiseProgressTracker) : PromiseProgressTracker :=
  mkPromise (p_epsilon t) (p_windowSize t) (default (p_goalText t) newGoal) None [] [].

(** * The deque is the tail of the history of deltas *)

(** The steps between consecutive similarities, the first counting as 0. *)
Fixpoint deltas_from (prev : num) (l : list num) : list num :=
  match l with [] => [] | x :: l' => num_sub x prev :: deltas_from x l' end.
Definition deltas (l : list num) : list num :=
  match l with [] => [] | x :: _ => deltas_from x l end.

Lemma last_cons_default {A} (y : A) l a b : List.last (y :: l) a = List.last (y :: l) b.
Proof. revert y. induction l as [|z l IH]; intros y; [done|]. apply (IH z). Qed.

Lemma last_cons {A} (y : A) l a : List.last (y :: l) a = List.last l y.
Proof. destruct l as [|z l]; [done|]. exact (last_cons_default z l a y). Qed.

Lemma deltas_from_snoc prev l x :
  deltas_from prev (l ++ [x]) = deltas_from prev l ++ [num_sub x (List.last l prev)].
Proof.
  revert prev. induction l as [|y l IH]; intros prev; [done|].
  rewrite last_cons. cbn [deltas_from app]. by rewrite IH.
Qed.

Lemma deltas_snoc l x : deltas (l ++ [x]) = deltas l ++ [num_sub x (last_or x l)].
Proof.
  destruct l as [|y l]; [done|]. unfold last_or. rewrite (last_cons_default y l x y).
  exact (deltas_from_snoc y (y :: l) x).
Qed.

Definition promise_inv (t : PromiseProgressTracker) : Prop :=
  p_deltaWindow t = last_n (Z.to_nat (p_windowSize t)) (deltas (p_promiseHistory t)).

Lemma promise_record_inv g o t : 0 <= p_windowSize t -> promise_inv t ->
  promise_inv (fst (promise_record g o t)).
Proof.
  intros Hw Hi. unfold promise_inv, promise_record in *. cbn [fst p_deltaWindow p_windowSize p_promiseHistory].
  rewrite deltas_snoc, last_n_snoc, <- Hi.
  replace (p_windowSize t <? _) with
    (Z.to_nat (p_windowSize t) <?
       length (p_deltaWindow t ++ [num_sub (cosineSimilarity g o)
         (last_or (cosineSimilarity g o) (p_promiseHistory t))]))%nat; [done|].
  apply eq_bool_prop_intro. rewrite !Is_true_true, Nat.ltb_lt, Z.ltb_lt. lia.
Qed.

(** * Compaction of the conversation *)

Record CompactorConfig := mkCompactorConfig {
  cc_threshold : option num; cc_emergencyThreshold : option num; cc_keepLast : option Z
}.

Inductive CompactionMode := m_llm | m_deterministic | m_none.
Record CompactionOutcome (M : Type) := mkOutcome {
  compacted : bool; co_mode : CompactionMode; co_log : list M
}.
Arguments mkOutcome {M} _ _ _.
Arguments compacted {M} _.
Arguments co_mode {M} _.
Arguments co_log {M} _.

Definition newline : string := String "010" EmptyString.

(** [Math.ceil(chars / 4)], exact for a count of characters. *)
Definition estimateLogTokens (log : list LogMessage) : Z :=
  (fold_left (fun t m => t + Z.of_nat (String.length (m_content m))) log 0 + 3) / 4.

(** [content.split(newline)[0].slice(0, 80)]. *)
Fixpoint first_line (s : string) : string :=
  match s with
  | EmptyString => EmptyString
  | String c s' => if Ascii.eqb c "010" then EmptyString else String c (first_line s')
  end.

Section Compactor.
Context {M W : Type} (msg : M -> LogMessage).

(** Leading system messages, then the first user message. *)
Fixpoint leading_systems (log : list M) : nat :=
  match log with
  | m :: log' => if bool_decide (m_role (msg m) = system) then S (leading_systems log') else O
  | [] => O
  end.
Definition headEnd (log : list M) : nat :=
  let n := leading_systems log in
  match log !! n with
  | Some m => if bool_decide (m_role (msg m) = user) then S n else n
  | None => n
  end.

Definition message_label (m : LogMessage) : string :=
  match m_toolName m with
  | Some t => if (t =? "")%string then role_text (m_role m) else (role_text (m_role m) ++ ":" ++ t)%string
  | None => role_text (m_role m)
  end.

Definition index_line (indexFor : M -> option Z) (m : M) : string :=
  let firstLine := str_take 80 (first_line (m_content (msg m))) in
  match indexFor m with
  | Some i => ("- step " ++ str_of_Z i ++ " [" ++ message_label (msg m) ++ "] " ++ firstLine)%string
  | None => ("- [" ++ message_label (msg m) ++ "] " ++ firstLine ++ " (not journaled : unrecoverable)")%string
  end.

Definition summaryPrompt (evictable : list M) : string :=
  join newline
    ["You are compressing an agent conversation to save context tokens.";
     "Summarize key facts, decisions, tool outputs and pending work in <= 300 words.";
     "Preserve anything the agent needs to continue the task.";
     "";
     join newline (map (fun m => transcript_line (msg m)) evictable)].

Definition summaryContent (body : string) (index : list string) : string :=
  join newline (["## Compacted context"; body; "";
    "Evicted steps (use recall({steps:[i]}) or recall({query:...}) to re-read):"] ++ index).

(** The window of a compaction: how many head messages stay, and where the
    kept tail starts; [None] when nothing is to be done. *)
Definition compaction_window (cfg : CompactorConfig) (maxTokens : Z) (log : list M) : option (nat * nat) :=
  let threshold := default (num_of_decimal 7 1) (cc_threshold cfg) in
  let emergencyThreshold := default (num_of_decimal 9 1) (cc_emergencyThreshold cfg) in
  if maxTokens <=? 0 then None
  else
    let ratio := num_div (num_of_Z (estimateLogTokens (map msg log))) (num_of_Z maxTokens) in
    if num_ltb ratio threshold then None
    else
      let keepLast := if num_geb ratio emergencyThreshold then 2 else default 6 (cc_keepLast cfg) in
      let h := headEnd log in
      let tailStart := Z.to_nat (Z.max (Z.of_nat h) (Z.of_nat (length log) - keepLast)) in
      if (Nat.min tailStart (length log) - h =? 0)%nat then None else Some (h, tailStart).

(** [llmFn] acts on a world and may fail; [mk] allocates the summary message
    and [cw_currentTokens] is set on the budget. *)
Definition maybeCompact (cfg : CompactorConfig) (mk : LogMessage -> M)
    (llmFn : string -> W -> W * result string) (indexFor : M -> option Z)
    (log : list M) (maxTokens currentTokens : Z) (w : W) : W * Z * CompactionOutcome M :=
  match compaction_window cfg maxTokens log with
  | None => (w, currentTokens, mkOutcome false m_none log)
  | Some (h, tailStart) =>
      let evictable := firstn (tailStart - h) (skipn h log) in
      let index := map (index_line indexFor) evictable in
      let '(w, reply) := llmFn (summaryPrompt evictable) w in
      let '(body, mode) := match reply with
        | Ok s => (s, m_llm)
        | Throw _ => ("(summarizer unavailable : index only)", m_deterministic)
        end in
      let summaryMsg := mk (mkMsg system (summaryContent body index) None) in
      let newLog := firstn h log ++ [summaryMsg] ++ skipn tailStart log in
      (w, estimateLogTokens (map msg newLog), mkOutcome true mode newLog)
  end.

Lemma leading_systems_le log : (leading_systems log <= length log)%nat.
Proof. induction log as [|m log IH]; simpl; [done|]. case_bool_decide; lia. Qed.

Lemma headEnd_le log : (headEnd log <= length log)%nat.
Proof.
  unfold headEnd. pose proof (leading_systems_le log). destruct (log !! _) eqn:E; [|done].
  apply lookup_lt_Some in E. case_bool_decide; lia.
Qed.

Lemma window_bounds cfg maxTokens log h t :
  compaction_window cfg maxTokens log = Some (h, t) ->
  h = headEnd log /\ (h < length log)%nat /\ (h < t)%nat.
Proof.
  unfold compaction_window. destruct (_ <=? 0); [done|]. destruct (num_ltb _ _); [done|].
  destruct (_ =? 0)%nat eqn:E; [done|]. apply Nat.eqb_neq in E. intros [= <- <-].
  pose proof (headEnd_le log). split; [done|]. lia.
Qed.

(** A compaction never fails, whatever the summarizer does: it leaves the log
    as it is, or keeps the protected head and the recent tail verbatim around
    one system message that lists every evicted message in order, with its
    journal index when it has one. *)
Theorem compact_indexes_evicted cfg mk llmFn indexFor log maxTokens cur w :
  let '(_, _, out) := maybeCompact cfg mk llmFn indexFor log maxTokens cur w in
  (compacted out = false /\ co_log out = log) \/
  (compacted out = true /\ exists evicted tail body,
     log = firstn (headEnd log) log ++ evicted ++ tail /\ evicted <> [] /\
     co_log out = firstn (headEnd log) log ++
       [mk (mkMsg system (summaryContent body (map (index_line indexFor) evicted)) None)] ++ tail).
Proof.
  unfold maybeCompact. destruct (compaction_window cfg maxTokens log) as [[h t]|] eqn:E; [|by left].
  apply window_bounds in E as (-> & Hl & Ht). destruct (llmFn _ w) as [w' reply].
  destruct reply as [s|e]; right; (split; [done|]);
    exists (firstn (t - headEnd log) (skipn (headEnd log) log)), (skipn t log); eexists;
    (split_and!; [|intros E; apply (f_equal length) in E; rewrite length_take, length_skipn in E; simpl in E; lia|done]).
  all: rewrite <- (take_drop (headEnd log) log) at 1; f_equal;
    rewrite <- (take_drop (t - headEnd log) (skipn (headEnd log) log)) at 1; f_equal;
    rewrite skipn_skipn; f_equal; lia.
Qed.
End Compactor.

(** The cut ignores exchange units: the kept tail may start with a tool result
    whose assistant turn was evicted, which [compactToolLogDecay] rules out. *)
Example compactor_orphans_tool :
  let long := String.concat "" (repeat "0123456789" 10) in
  let log := [mkMsg system "s" None; mkMsg user "task" None; mkMsg assistant long None;
              mkMsg tool "r1" (Some "t"); mkMsg tool "r2" (Some "t"); mkMsg tool "r3" (Some "t")] in
  let '(_, _, out) := maybeCompact (fun m => m) (mkCompactorConfig None None None) (fun m => m)
    (fun _ w => (w, Ok "sum")) (fun _ => None) log 28 0 tt in
  compacted out = true /\ protocol_ok (fun m => m) false log = true /\
  protocol_ok (fun m => m) false (co_log out) = false.
Proof. vm_compute. done. Qed.
