(* ===== verification/LoopTypes.v ===== *)
(** The agent loop's configuration, results and state
    ([loop/minimal-loop.ts], types and local variables of [run]).

    Everything the host injects is a port: a function on an abstract world [W]
    that may throw.  A sink's [emit] must not throw, by its contract.  The
    locals of [run] are one record; log entries are objects, with an identity. *)

From S2P Require Import Prelude JsNum JsValue Canonical Veto ActionGate Regex Json.
From S2P Require Import WorldState Budget Approval Trackers.

(** * What the ports exchange *)

Record ProviderRouterResponse := mkResponse {
  r_content : string; r_toolCalls : list ToolCall; r_inputTokens : Z; r_outputTokens : Z
}.

(** What happens during a completion: the chunks passed to [onDelta], each with
    the time, then the settled promise. *)
Record Completion := mkCompletion {
  deltas_seen : list (string * Z); response : result ProviderRouterResponse
}.

Record AgentTool := mkTool {
  dangerous : option bool; mcpScopes : option (list string); tool_risk : option RiskVector
}.

(** [{ ok: true, data }] or [{ ok: false, error }]. *)
Inductive ToolResult := ToolOk (data : jsval) | ToolError (message : string).
Definition tool_ok (r : ToolResult) : bool := match r with ToolOk _ => true | ToolError _ => false end.

Record CapabilityGateCall := mkCapCall {
  cg_toolName : string; cg_budgetUsed : num; cg_mcpScopes : option (list string)
}.
Inductive CapabilityGateVerdict := CapAllowed | CapDenied (reason : string).

Inductive StopReason :=
| complete | budget_exhausted | incoherent | loop_definitive | tool_denied | user_cancelled
| approval_denied | approval_timeout | error | aborted.
#[export] Instance StopReason_eq_dec : EqDecision StopReason.
Proof. solve_decision. Defined.

Inductive ApprovalWaitOutcome :=
| WApproved | WDenied | WTimeout | WGateRevoked (kind : option string) (reason : string).

(** The events of the sink, with the data the loop puts in them. *)
Inductive SessionEvent :=
| RunStart (runId agentId agentVersion task : string) (origin steerId : option string)
| InstructionInjected (text source : string) (whisper : bool) (steerId : option string)
| AssistantDelta (text : list Z)
| RunStep (stepIndex inputTokens outputTokens : Z) (costUsd : num)
| AssistantMessage (content : string)
| ToolIntent (callId toolName argsPreview : string) (vetoWindowMs : Z)
| ToolCallStart (callId toolName argsPreview : string)
| ToolCallEnd (callId toolName : string) (ok : bool) (resultPreview : string) (durationMs : option Z)
| RunFinished (runId : string) (reason : StopReason) (stepCount : Z) (costUsd : num).

Record ApprovalChannel (W : Type) := {
  send : ApprovalRequest -> W -> W * result string;
  poll : string -> W -> W * result (option Approval);
  ch_cancel : string -> W -> W * result unit
}.
Arguments send {W} _.
Arguments poll {W} _.
Arguments ch_cancel {W} _.

Record SkillSummary := mkSkill {
  sk_runId : string; sk_traceId : string; sk_finalMessage : string; sk_stepCount : Z
}.

(** * Configuration *)

(** A hook whose failure is swallowed. *)
Definition Hook (W X : Type) : Type := option (X -> W -> W * result unit).

Record AgentLoopConfig (W A : Type) := {
  agentId : string;
  agentVersion : string;
  systemPrompt : string;
  provider : list LogMessage -> Z -> bool -> W -> W * Completion;
  tools_get : string -> W -> option AgentTool;
  tools_execute : string -> jsval -> W -> W * result ToolResult;
  approvalChannel : option (ApprovalChannel W);
  honestApprovalStops : bool;
  continueOnApprovalTimeout : bool;
  onApprovalTimeout : Hook W (string * Z);
  onApprovalResolved : Hook W (string * ApprovalWaitOutcome);
  recordStep : option (Z -> Z -> Z -> num -> W -> W * result unit);
  approvalPollIntervalMs : option Z;
  approvalTimeoutMs : option Z;
  approvalPredicate : option (ToolCall -> W -> W * result bool);
  capabilityGate : option (CapabilityGateCall -> W -> W * result CapabilityGateVerdict);
  onToolDenied : Hook W (string * string * num);
  actionGate : option (ActionGateCall -> W -> W * result (ActionGateVerdict A));
  onActionDenied : Hook W (string * string * num * option string);
  skillCapture : Hook W SkillSummary;
  costPerToolCallUsd : option num;
  renewalManager : option (W -> W * result bool);
  loopDetectionWindow : option Z;
  toolResultMaxChars : option nat;
  stallThreshold : option Z;
  embedFn : option (string -> W -> W * result (list num));
  initialMessages : list LogMessage;
  disableLoopDetection : bool;
  abortSignal : W -> bool;
  forceFinalizeBeforeBudget : bool;
  maxWallClockMs : option Z;
  maxCostUsd : option num;
  costFn : option (Z -> Z -> W -> W * result num);
  eventSink : option (SessionEvent -> W -> W);
  instructionInbox : option (W -> W * list Instruction);
  vetoChannel : option (string -> Z -> W -> W * result (option VetoSignal));
  vetoWindowMs : option Z;
  runMemory : option ((LogMessage -> W -> W * result Z) * CompactorConfig);
  (** The clock, [setTimeout] and the random source of the platform. *)
  now : W -> Z;
  sleep : Z -> W -> W;
  cryptoRandomId : W -> W * string
}.

Arguments agentId {W A} _.
Arguments agentVersion {W A} _.
Arguments systemPrompt {W A} _.
Arguments provider {W A} _.
Arguments tools_get {W A} _.
Arguments tools_execute {W A} _.
Arguments approvalChannel {W A} _.
Arguments honestApprovalStops {W A} _.
Arguments continueOnApprovalTimeout {W A} _.
Arguments onApprovalTimeout {W A} _.
Arguments onApprovalResolved {W A} _.
Arguments recordStep {W A} _.
Arguments approvalPollIntervalMs {W A} _.
Arguments approvalTimeoutMs {W A} _.
Arguments approvalPredicate {W A} _.
Arguments capabilityGate {W A} _.
Arguments onToolDenied {W A} _.
Arguments actionGate {W A} _.
Arguments onActionDenied {W A} _.
Arguments skillCapture {W A} _.
Arguments costPerToolCallUsd {W A} _.
Arguments renewalManager {W A} _.
Arguments loopDetectionWindow {W A} _.
Arguments toolResultMaxChars {W A} _.
Arguments stallThreshold {W A} _.
Arguments embedFn {W A} _.
Arguments initialMessages {W A} _.
Arguments disableLoopDetection {W A} _.
Arguments abortSignal {W A} _.
Arguments forceFinalizeBeforeBudget {W A} _.
Arguments maxWallClockMs {W A} _.
Arguments maxCostUsd {W A} _.
Arguments costFn {W A} _.
Arguments eventSink {W A} _.
Arguments instructionInbox {W A} _.
Arguments vetoChannel {W A} _.
Arguments vetoWindowMs {W A} _.
Arguments runMemory {W A} _.
Arguments now {W A} _.
Arguments sleep {W A} _.
Arguments cryptoRandomId {W A} _.

(** * Result and state of a run *)

(** Why a stop fired, with the step it fired at. *)
Inductive DetailReason := d_max_steps | d_max_time | d_max_cost.
Record LoopDetail := mkDetail {
  ld_toolName : string; ld_hash : string; ld_firstStep : Z; ld_repeatStep : Z;
  ld_reason : option DetailReason
}.

(** A log entry: the object and its identity. *)
Record Entry := mkEntry { e_id : nat; e_msg : LogMessage }.

(** The local variables of [run], and the budget object it mutates. *)
Record Vars := mkVars {
  log : list Entry;
  nextId : nat;
  journaled : list nat;
  journalIndex : list (nat * Z);
  budget : AgentBudgetState;
  recentCalls : list ToolCall;
  worldState : WorldStateHashTracker;
  progressTracker : option PromiseProgressTracker;
  trajectory : TrajectoryConfidenceTracker;
  loopCorrectionCount : Z;
  readResultCache : list (string * string);
  approvalTimedOutTools : list string;
  stepsWithoutTool : Z;
  narratedToolCallNudges : Z;
  memoryLookupRan : bool;
  unobservedMemoryNudges : Z;
  stopReason : StopReason;
  finalMessage : string;
  loopDetail : option LoopDetail;
  budgetUsedUsd : num;
  cumulativeCostUsd : num
}.

(** Assignments. *)
Definition set_log (x : list Entry) (v : Vars) : Vars :=
  mkVars x (nextId v) (journaled v) (journalIndex v) (budget v) (recentCalls v) (worldState v)
    (progressTracker v) (trajectory v) (loopCorrectionCount v) (readResultCache v)
    (approvalTimedOutTools v) (stepsWithoutTool v) (narratedToolCallNudges v)
    (memoryLookupRan v) (unobservedMemoryNudges v) (stopReason v) (finalMessage v)
    (loopDetail v) (budgetUsedUsd v) (cumulativeCostUsd v).
Definition set_nextId (x : nat) (v : Vars) : Vars :=
  mkVars (log v) x (journaled v) (journalIndex v) (budget v) (recentCalls v) (worldState v)
    (progressTracker v) (trajectory v) (loopCorrectionCount v) (readResultCache v)
    (approvalTimedOutTools v) (stepsWithoutTool v) (narratedToolCallNudges v)
    (memoryLookupRan v) (unobservedMemoryNudges v) (stopReason v) (finalMessage v)
    (loopDetail v) (budgetUsedUsd v) (cumulativeCostUsd v).
Definition set_journaled (x : list nat) (v : Vars) : Vars :=
  mkVars (log v) (nextId v) x (journalIndex v) (budget v) (recentCalls v) (worldState v)
    (progressTracker v) (trajectory v) (loopCorrectionCount v) (readResultCache v)
    (approvalTimedOutTools v) (stepsWithoutTool v) (narratedToolCallNudges v)
    (memoryLookupRan v) (unobservedMemoryNudges v) (stopReason v) (finalMessage v)
    (loopDetail v) (budgetUsedUsd v) (cumulativeCostUsd v).
Definition set_journalIndex (x : list (nat * Z)) (v : Vars) : Vars :=
  mkVars (log v) (nextId v) (journaled v) x (budget v) (recentCalls v) (worldState v)
    (progressTracker v) (trajectory v) (loopCorrectionCount v) (readResultCache v)
    (approvalTimedOutTools v) (stepsWithoutTool v) (narratedToolCallNudges v)
    (memoryLookupRan v) (unobservedMemoryNudges v) (stopReason v) (finalMessage v)
    (loopDetail v) (budgetUsedUsd v) (cumulativeCostUsd v).
Definition set_budget (x : AgentBudgetState) (v : Vars) : Vars :=
  mkVars (log v) (nextId v) (journaled v) (journalIndex v) x (recentCalls v) (worldState v)
    (progressTracker v) (trajectory v) (loopCorrectionCount v) (readResultCache v)
    (approvalTimedOutTools v) (stepsWithoutTool v) (narratedToolCallNudges v)
    (memoryLookupRan v) (unobservedMemoryNudges v) (stopReason v) (finalMessage v)
    (loopDetail v) (budgetUsedUsd v) (cumulativeCostUsd v).
Definition set_recentCalls (x : list ToolCall) (v : Vars) : Vars :=
  mkVars (log v) (nextId v) (journaled v) (journalIndex v) (budget v) x (worldState v)
    (progressTracker v) (trajectory v) (loopCorrectionCount v) (readResultCache v)
    (approvalTimedOutTools v) (stepsWithoutTool v) (narratedToolCallNudges v)
    (memoryLookupRan v) (unobservedMemoryNudges v) (stopReason v) (finalMessage v)
    (loopDetail v) (budgetUsedUsd v) (cumulativeCostUsd v).
Definition set_worldState (x : WorldStateHashTracker) (v : Vars) : Vars :=
  mkVars (log v) (nextId v) (journaled v) (journalIndex v) (budget v) (recentCalls v) x
    (progressTracker v) (trajectory v) (loopCorrectionCount v) (readResultCache v)
    (approvalTimedOutTools v) (stepsWithoutTool v) (narratedToolCallNudges v)
    (memoryLookupRan v) (unobservedMemoryNudges v) (stopReason v) (finalMessage v)
    (loopDetail v) (budgetUsedUsd v) (cumulativeCostUsd v).
Definition set_progressTracker (x : option PromiseProgressTracker) (v : Vars) : Vars :=
  mkVars (log v) (nextId v) (journaled v) (journalIndex v) (budget v) (recentCalls v) (worldState
    v) x (trajectory v) (loopCorrectionCount v) (readResultCache v) (approvalTimedOutTools
    v) (stepsWithoutTool v) (narratedToolCallNudges v) (memoryLookupRan v)
    (unobservedMemoryNudges v) (stopReason v) (finalMessage v) (loopDetail v) (budgetUsedUsd
    v) (cumulativeCostUsd v).
Definition set_trajectory (x : TrajectoryConfidenceTracker) (v : Vars) : Vars :=
  mkVars (log v) (nextId v) (journaled v) (journalIndex v) (budget v) (recentCalls v) (worldState
    v) (progressTracker v) x (loopCorrectionCount v) (readResultCache v)
    (approvalTimedOutTools v) (stepsWithoutTool v) (narratedToolCallNudges v)
    (memoryLookupRan v) (unobservedMemoryNudges v) (stopReason v) (finalMessage v)
    (loopDetail v) (budgetUsedUsd v) (cumulativeCostUsd v).
Definition set_loopCorrectionCount (x : Z) (v : Vars) : Vars :=
  mkVars (log v) (nextId v) (journaled v) (journalIndex v) (budget v) (recentCalls v) (worldState
    v) (progressTracker v) (trajectory v) x (readResultCache v) (approvalTimedOutTools v)
    (stepsWithoutTool v) (narratedToolCallNudges v) (memoryLookupRan v)
    (unobservedMemoryNudges v) (stopReason v) (finalMessage v) (loopDetail v) (budgetUsedUsd
    v) (cumulativeCostUsd v).
Definition set_readResultCache (x : list (string * string)) (v : Vars) : Vars :=
  mkVars (log v) (nextId v) (journaled v) (journalIndex v) (budget v) (recentCalls v) (worldState
    v) (progressTracker v) (trajectory v) (loopCorrectionCount v) x (approvalTimedOutTools
    v) (stepsWithoutTool v) (narratedToolCallNudges v) (memoryLookupRan v)
    (unobservedMemoryNudges v) (stopReason v) (finalMessage v) (loopDetail v) (budgetUsedUsd
    v) (cumulativeCostUsd v).
Definition set_approvalTimedOutTools (x : list string) (v : Vars) : Vars :=
  mkVars (log v) (nextId v) (journaled v) (journalIndex v) (budget v) (recentCalls v) (worldState
    v) (progressTracker v) (trajectory v) (loopCorrectionCount v) (readResultCache v) x
    (stepsWithoutTool v) (narratedToolCallNudges v) (memoryLookupRan v)
    (unobservedMemoryNudges v) (stopReason v) (finalMessage v) (loopDetail v) (budgetUsedUsd
    v) (cumulativeCostUsd v).
Definition set_stepsWithoutTool (x : Z) (v : Vars) : Vars :=
  mkVars (log v) (nextId v) (journaled v) (journalIndex v) (budget v) (recentCalls v) (worldState
    v) (progressTracker v) (trajectory v) (loopCorrectionCount v) (readResultCache v)
    (approvalTimedOutTools v) x (narratedToolCallNudges v) (memoryLookupRan v)
    (unobservedMemoryNudges v) (stopReason v) (finalMessage v) (loopDetail v) (budgetUsedUsd
    v) (cumulativeCostUsd v).
Definition set_narratedToolCallNudges (x : Z) (v : Vars) : Vars :=
  mkVars (log v) (nextId v) (journaled v) (journalIndex v) (budget v) (recentCalls v) (worldState
    v) (progressTracker v) (trajectory v) (loopCorrectionCount v) (readResultCache v)
    (approvalTimedOutTools v) (stepsWithoutTool v) x (memoryLookupRan v)
    (unobservedMemoryNudges v) (stopReason v) (finalMessage v) (loopDetail v) (budgetUsedUsd
    v) (cumulativeCostUsd v).
Definition set_memoryLookupRan (x : bool) (v : Vars) : Vars :=
  mkVars (log v) (nextId v) (journaled v) (journalIndex v) (budget v) (recentCalls v) (worldState
    v) (progressTracker v) (trajectory v) (loopCorrectionCount v) (readResultCache v)
    (approvalTimedOutTools v) (stepsWithoutTool v) (narratedToolCallNudges v) x
    (unobservedMemoryNudges v) (stopReason v) (finalMessage v) (loopDetail v) (budgetUsedUsd
    v) (cumulativeCostUsd v).
Definition set_unobservedMemoryNudges (x : Z) (v : Vars) : Vars :=
  mkVars (log v) (nextId v) (journaled v) (journalIndex v) (budget v) (recentCalls v) (worldState
    v) (progressTracker v) (trajectory v) (loopCorrectionCount v) (readResultCache v)
    (approvalTimedOutTools v) (stepsWithoutTool v) (narratedToolCallNudges v)
    (memoryLookupRan v) x (stopReason v) (finalMessage v) (loopDetail v) (budgetUsedUsd v)
    (cumulativeCostUsd v).
Definition set_stopReason (x : StopReason) (v : Vars) : Vars :=
  mkVars (log v) (nextId v) (journaled v) (journalIndex v) (budget v) (recentCalls v) (worldState
    v) (progressTracker v) (trajectory v) (loopCorrectionCount v) (readResultCache v)
    (approvalTimedOutTools v) (stepsWithoutTool v) (narratedToolCallNudges v)
    (memoryLookupRan v) (unobservedMemoryNudges v) x (finalMessage v) (loopDetail v)
    (budgetUsedUsd v) (cumulativeCostUsd v).
Definition set_finalMessage (x : string) (v : Vars) : Vars :=
  mkVars (log v) (nextId v) (journaled v) (journalIndex v) (budget v) (recentCalls v) (worldState
    v) (progressTracker v) (trajectory v) (loopCorrectionCount v) (readResultCache v)
    (approvalTimedOutTools v) (stepsWithoutTool v) (narratedToolCallNudges v)
    (memoryLookupRan v) (unobservedMemoryNudges v) (stopReason v) x (loopDetail v)
    (budgetUsedUsd v) (cumulativeCostUsd v).
Definition set_loopDetail (x : option LoopDetail) (v : Vars) : Vars :=
  mkVars (log v) (nextId v) (journaled v) (journalIndex v) (budget v) (recentCalls v) (worldState
    v) (progressTracker v) (trajectory v) (loopCorrectionCount v) (readResultCache v)
    (approvalTimedOutTools v) (stepsWithoutTool v) (narratedToolCallNudges v)
    (memoryLookupRan v) (unobservedMemoryNudges v) (stopReason v) (finalMessage v) x
    (budgetUsedUsd v) (cumulativeCostUsd v).
Definition set_budgetUsedUsd (x : num) (v : Vars) : Vars :=
  mkVars (log v) (nextId v) (journaled v) (journalIndex v) (budget v) (recentCalls v) (worldState
    v) (progressTracker v) (trajectory v) (loopCorrectionCount v) (readResultCache v)
    (approvalTimedOutTools v) (stepsWithoutTool v) (narratedToolCallNudges v)
    (memoryLookupRan v) (unobservedMemoryNudges v) (stopReason v) (finalMessage v)
    (loopDetail v) x (cumulativeCostUsd v).
Definition set_cumulativeCostUsd (x : num) (v : Vars) : Vars :=
  mkVars (log v) (nextId v) (journaled v) (journalIndex v) (budget v) (recentCalls v) (worldState
    v) (progressTracker v) (trajectory v) (loopCorrectionCount v) (readResultCache v)
    (approvalTimedOutTools v) (stepsWithoutTool v) (narratedToolCallNudges v)
    (memoryLookupRan v) (unobservedMemoryNudges v) (stopReason v) (finalMessage v)
    (loopDetail v) (budgetUsedUsd v) x.

Record AgentLoopRunResult := mkResult {
  res_finalMessage : string; res_stopReason : StopReason; res_budgetFinal : AgentBudgetState;
  res_errorMessage : option string; res_loopDetail : option LoopDetail; res_costUsd : option num
}.

(** * The loop monad

    The world, the interaction history and the locals.  The history records the
    calls whose order matters, with what the ports answered: a gate that throws
    has not allowed the call, a predicate that throws has not waived it. The
    history is not part of the program, which never reads it. *)
Inductive LoopEvent :=
| LSink (e : SessionEvent)
| LComplete (calls : list ToolCall)                   (** a step was answered *)
| LGet (tc : ToolCall) (dangerous : bool)             (** a call is taken up *)
| LCapability (tc : ToolCall) (allowed : bool)
| LAction (tc : ToolCall) (allowed : bool)
| LPredicate (tc : ToolCall) (needsApproval : bool)
| LApproval (tc : ToolCall) (outcome : ApprovalWaitOutcome)
| LCacheHit (tc : ToolCall)
| LVeto (tc : ToolCall) (vetoed : bool)
| LExecute (tc : ToolCall).

Definition cap_answer (r : result CapabilityGateVerdict) : bool :=
  match r with Ok CapAllowed => true | _ => false end.
Definition action_answer {A} (r : result (ActionGateVerdict A)) : bool :=
  match r with Ok av => allowed av | Throw _ => false end.
Definition predicate_answer (r : result bool) : bool :=
  match r with Ok needs => needs | Throw _ => true end.

Record St (W : Type) := mkSt { st_w : W; st_trace : list LoopEvent; st_v : Vars }.
Arguments mkSt {W} _ _ _.
Arguments st_w {W} _.
Arguments st_trace {W} _.
Arguments st_v {W} _.

(** A value, a thrown error, or fuel that ran out. *)
Inductive outcome (B : Type) := Done (b : B) | Raise (e : jserror) | OutOfFuel.
Arguments Done {B} _.
Arguments Raise {B} _.
Arguments OutOfFuel {B}.

Definition LoopM (W B : Type) : Type := St W -> St W * outcome B.

Section Monad.
Context {W : Type}.

Definition ret {B} (b : B) : LoopM W B := fun s => (s, Done b).
Definition bind {B C} (m : LoopM W B) (f : B -> LoopM W C) : LoopM W C := fun s =>
  match m s with
  | (s', Done b) => f b s'
  | (s', Raise e) => (s', Raise e)
  | (s', OutOfFuel) => (s', OutOfFuel)
  end.
Definition raise {B} (e : jserror) : LoopM W B := fun s => (s, Raise e).
Definition stuck {B} : LoopM W B := fun s => (s, OutOfFuel).

Definition vars : LoopM W Vars := fun s => (s, Done (st_v s)).
Definition modify (f : Vars -> Vars) : LoopM W unit := fun s =>
  (mkSt (st_w s) (st_trace s) (f (st_v s)), Done tt).
Definition reads {B} (f : W -> B) : LoopM W B := fun s => (s, Done (f (st_w s))).
(** A call that cannot fail; one that may, caught or not. *)
Definition world {B} (f : W -> W * B) : LoopM W B := fun s =>
  let '(w, b) := f (st_w s) in (mkSt w (st_trace s) (st_v s), Done b).
Definition of_result {B} (r : result B) : LoopM W B :=
  match r with Ok b => ret b | Throw e => raise e end.
Definition attempt {B} (f : W -> W * result B) : LoopM W (result B) := world f.
Definition call {B} (f : W -> W * result B) : LoopM W B := bind (world f) of_result.
Definition record (e : LoopEvent) : LoopM W unit := fun s =>
  (mkSt (st_w s) (st_trace s ++ [e]) (st_v s), Done tt).
Definition catch {B} (m : LoopM W B) (h : jserror -> LoopM W B) : LoopM W B := fun s =>
  match m s with
  | (s', Raise e) => h e s'
  | r => r
  end.
End Monad.

Declare Scope loop_scope.
Delimit Scope loop_scope with loop.
Notation "'let!' x := m 'in' k" := (bind m (fun x => k))
  (at level 200, x name, m at level 100, k at level 200, right associativity) : loop_scope.
Notation "m ;;; k" := (bind m (fun _ => k))
  (at level 199, right associativity) : loop_scope.
