(* ===== verification/AgentLoop.v ===== *)
(** The agent loop ([loop/minimal-loop.ts]): [AgentLoop.run] and its helpers.

    One iteration drains the inbox, checks the stops, compacts, asks the
    provider, and either finishes or runs the tool calls one by one through the
    gates.  Tracing spans are left out; a provider's live deltas reach the sink
    before its answer is handled. *)

From S2P Require Import Prelude JsNum JsValue Canonical Veto ActionGate Regex Json.
From S2P Require Import WorldState Budget ClaimGuards Coalescer Approval Trackers LoopTypes.
From Stdlib Require Import Ascii.
Open Scope loop_scope.

(** * Helpers *)

Definition safeStringify (v : jsval) : string :=
  match v with
  | JStr s => s
  | _ => match stringify v with Ok t => default "null" t | Throw _ => "[unserialisable]" end
  end.

Definition ARGS_PREVIEW_FIELD_MAX : nat := 500.
Definition ARGS_PREVIEW_MAX_FIELDS : nat := 50.

(** [Object.entries] of a value that is an object but not an array. *)
Definition entries_of (v : jsval) : option (list (string * jsval)) :=
  match v with
  | JObj l => Some l
  | JDate _ => Some []
  | JBytes l => Some (bytes_fields 0 l)
  | _ => None
  end.

Definition bounded_field (v : jsval) : jsval :=
  match v with
  | JStr s =>
      if (ARGS_PREVIEW_FIELD_MAX <? String.length s)%nat then
        JStr (str_take ARGS_PREVIEW_FIELD_MAX s ++ newline ++ "[value truncated: showing " ++
          str_of_nat ARGS_PREVIEW_FIELD_MAX ++ " of " ++ str_of_nat (String.length s) ++ " chars]")
      else v
  | _ => v
  end.

Definition boundedArgsPreview (args : jsval) : result string :=
  match entries_of args with
  | None =>
      t ← stringify (match args with JUndef | JNull => JObj [] | _ => args end);
      match t with
      | Some s => Ok (str_take ARGS_PREVIEW_FIELD_MAX s)
      | None => Throw (JsError "TypeError" "Cannot read properties of undefined (reading 'slice')")
      end
  | Some entries =>
      let bounded := map (fun kv => (kv.1, bounded_field kv.2)) (firstn ARGS_PREVIEW_MAX_FIELDS entries) in
      let bounded :=
        if (ARGS_PREVIEW_MAX_FIELDS <? length entries)%nat then
          om_set "…" (JStr ("[" ++ str_of_nat (length entries - ARGS_PREVIEW_MAX_FIELDS) ++
            " more field(s) omitted]")) bounded
        else bounded in
      Ok (safeStringify (JObj bounded))
  end.

Definition summariseToolResult (r : ToolResult) (maxChars : option nat) : string :=
  match r with
  | ToolError m => ("ERROR: " ++ m)%string
  | ToolOk data =>
      let full := safeStringify data in
      match maxChars with
      | None => str_take 2000 full
      | Some n =>
          if (String.length full <=? n)%nat then full
          else (str_take n full ++ newline ++ "[tool result truncated: showing " ++ str_of_nat n ++
                " of " ++ str_of_nat (String.length full) ++ " chars]")%string
      end
  end.

Definition estimateTokens (s : string) : Z := (Z.of_nat (String.length s) + 3) / 4.

Fixpoint units (s : string) : text :=
  match s with EmptyString => [] | String c s' => Z.of_nat (nat_of_ascii c) :: units s' end.

(** An empty tool name is not sent. *)
Definition wire_message (m : LogMessage) : LogMessage :=
  mkMsg (m_role m) (m_content m)
    (match m_toolName m with Some EmptyString => None | t => t end).

Definition MAX_LOOP_CORRECTIONS : Z := 2.

Section Loop.
Context {W A : Type} (cfg : AgentLoopConfig W A).
Context `{Printing} `{Hashing} `{MathLib}.

(** * Primitives *)

Definition emit (e : SessionEvent) : LoopM W unit :=
  match eventSink cfg with
  | None => ret tt
  | Some f => world (fun w => (f e w, tt)) ;;; record (LSink e)
  end.

Definition best_effort {X} (h : Hook W X) (x : X) : LoopM W unit :=
  match h with
  | None => ret tt
  | Some f => attempt (f x) ;;; ret tt
  end.

Definition append_log (m : LogMessage) (v : Vars) : Vars :=
  set_nextId (S (nextId v)) (set_log (log v ++ [mkEntry (nextId v) m]) v).
Definition push_log (r : Role) (content : string) (name : option string) : LoopM W unit :=
  modify (append_log (mkMsg r content name)).
Definition push_tool (tc : ToolCall) (content : string) : LoopM W unit :=
  push_log tool content (Some (tc_name tc)).

Definition on_budget (f : AgentBudgetState -> AgentBudgetState) (v : Vars) : Vars :=
  set_budget (f (budget v)) v.
Definition bump_step (b : AgentBudgetState) : AgentBudgetState :=
  mkBudget (stepCount b + 1) (maxSteps b) (tb_input b) (tb_output b) (tb_usedInput b) (tb_usedOutput b)
    (cw_maxTokens b) (cw_currentTokens b) (compactionTrigger b) (coherenceScore b).
Definition set_currentTokens (t : Z) (b : AgentBudgetState) : AgentBudgetState :=
  mkBudget (stepCount b) (maxSteps b) (tb_input b) (tb_output b) (tb_usedInput b) (tb_usedOutput b)
    (cw_maxTokens b) t (compactionTrigger b) (coherenceScore b).
Definition set_coherence (x : num) (b : AgentBudgetState) : AgentBudgetState :=
  mkBudget (stepCount b) (maxSteps b) (tb_input b) (tb_output b) (tb_usedInput b) (tb_usedOutput b)
    (cw_maxTokens b) (cw_currentTokens b) (compactionTrigger b) x.

(** * The log and the journal *)

Definition number_from (n : nat) (ms : list LogMessage) : list Entry :=
  map (fun p => mkEntry (n + p.1) p.2) (imap pair ms).

Definition initial_log (userMessage : string) : list Entry :=
  number_from 0
    ([mkMsg system (systemPrompt cfg) None] ++
     map wire_message (filter (fun m => m_role m <> system) (initialMessages cfg)) ++
     [mkMsg user userMessage None]).

(** The trajectory tracker is made by [run]. *)
Definition initial_vars (userMessage : string) (b : AgentBudgetState) : Vars :=
  let l := initial_log userMessage in
  mkVars l (length l) (map e_id l) [] b [] tracker_init
    (match embedFn cfg with
     | Some _ => Some (newPromise userMessage (Some (num_of_decimal 2 2)) (Some 3))
     | None => None
     end)
    (mkTraj num_zero num_zero num_zero num_zero 0 num_zero num_zero)
    0 [] [] 0 0 false 0 complete "" None num_zero num_zero.

Fixpoint journal_entries (append : LogMessage -> W -> W * result Z) (es : list Entry) : LoopM W unit :=
  match es with
  | [] => ret tt
  | m :: es' =>
      let! v := vars in
      (if bool_decide (e_id m ∈ journaled v) then ret tt
       else
         modify (fun v => set_journaled (e_id m :: journaled v) v) ;;;
         let! idx := call (append (e_msg m)) in
         if 0 <=? idx then modify (fun v => set_journalIndex (om_set (e_id m) idx (journalIndex v)) v)
         else ret tt) ;;;
      journal_entries append es'
  end.

Definition journalNewEntries (skipLast : bool) : LoopM W unit :=
  match runMemory cfg with
  | None => ret tt
  | Some (append, _) =>
      let! v := vars in
      journal_entries append (if skipLast then removelast (log v) else log v)
  end.

(** * Streaming *)

Record stream := mkStream { sm_coalescer : option TextDeltaCoalescer; sm_streamed : bool }.
Definition stream_init : stream := mkStream None false.

Fixpoint emit_deltas (outs : list text) : LoopM W unit :=
  match outs with
  | [] => ret tt
  | o :: outs' => emit (AssistantDelta o) ;;; emit_deltas outs'
  end.

Definition ensureCoalescer (at_ : Z) (sm : stream) : TextDeltaCoalescer :=
  match sm_coalescer sm with Some c => c | None => newCoalescer None None at_ end.

Definition push_text (t : text) (at_ : Z) (c : TextDeltaCoalescer) : LoopM W TextDeltaCoalescer :=
  match push (length (c_buffer c ++ t)) t at_ c with
  | Some (outs, c') => emit_deltas outs ;;; ret c'
  | None => stuck
  end.

Definition onDelta (chunk : string) (at_ : Z) (sm : stream) : LoopM W stream :=
  if (chunk =? "")%string then ret sm
  else
    let! c := push_text (units chunk) at_ (ensureCoalescer at_ sm) in
    ret (mkStream (Some c) true).

Fixpoint stream_deltas (ds : list (string * Z)) (sm : stream) : LoopM W stream :=
  match ds with
  | [] => ret sm
  | (chunk, at_) :: ds' => let! sm := onDelta chunk at_ sm in stream_deltas ds' sm
  end.

Definition finalize (content : string) (sm : stream) : LoopM W unit :=
  match eventSink cfg with
  | None => ret tt
  | Some _ =>
      if (content =? "")%string then ret tt
      else
        let! t := reads (now cfg) in
        if sm_streamed sm then emit_deltas (fst (flush t (ensureCoalescer t sm)))
        else
          let! c := push_text (units content) t (ensureCoalescer t sm) in
          emit_deltas (fst (flush t c))
  end.

(** * Start of an iteration *)

Fixpoint inject_instructions (instrs : list Instruction) : LoopM W unit :=
  match instrs with
  | [] => ret tt
  | i :: instrs' =>
      push_log user (if i_whisper i then "[steering hint — not a task change] " ++ i_text i
                     else i_text i)%string None ;;;
      emit (InstructionInjected (i_text i) (i_source i) (i_whisper i)
        (match i_steerId i with Some EmptyString => None | x => x end)) ;;;
      inject_instructions instrs'
  end.

Definition drainInbox : LoopM W unit :=
  match instructionInbox cfg with
  | None => ret tt
  | Some drain => let! instrs := world drain in inject_instructions instrs
  end.

Definition stop_with (r : StopReason) (d : option LoopDetail) : LoopM W unit :=
  modify (fun v => set_stopReason r (match d with Some _ => set_loopDetail d v | None => v end)).

Definition budget_stop (why : DetailReason) (name : string) : LoopM W bool :=
  let! v := vars in
  stop_with budget_exhausted (Some (mkDetail "" name 0 (stepCount (budget v)) (Some why))) ;;;
  ret true.

(** Cancellation, then the three ceilings; [true] stops the loop. *)
Definition checkStops (loopStartMs : Z) : LoopM W bool :=
  let! isAborted := reads (abortSignal cfg) in
  if isAborted : bool then stop_with aborted None ;;; ret true
  else
    let! v := vars in
    let b := budget v in
    if (0 <? maxSteps b) && (maxSteps b <=? stepCount b) then budget_stop d_max_steps "max_steps"
    else
      let! t := reads (now cfg) in
      if (match maxWallClockMs cfg with
          | Some ms => (0 <? ms) && (ms <=? t - loopStartMs) | None => false end)
      then budget_stop d_max_time "max_time"
      else if (match maxCostUsd cfg with
               | Some c => num_gtb c num_zero && num_geb (cumulativeCostUsd v) c | None => false end)
      then budget_stop d_max_cost "max_cost"
      else ret false.

Definition renew : LoopM W unit :=
  match renewalManager cfg with
  | None => ret tt
  | Some f => attempt f ;;; ret tt
  end.

(** * Compaction *)

(** The one-shot completion used by the summarizers. *)
Definition summarize (prompt : string) (w : W) : W * result string :=
  let '(w, c) := provider cfg [mkMsg user prompt None] 1024 false w in
  (w, match response c with Ok r => Ok (r_content r) | Throw e => Throw e end).

Definition groundedCompaction (ccfg : CompactorConfig) : LoopM W unit :=
  let! v := vars in
  let b := budget v in
  let! out := world (fun w =>
    let '(w, tokens, out) := maybeCompact e_msg ccfg (mkEntry (nextId v)) summarize
      (fun e => om_get (e_id e) (journalIndex v)) (log v) (cw_maxTokens b) (cw_currentTokens b) w in
    (w, (tokens, out))) in
  if compacted (snd out) then
    modify (fun v => on_budget (set_currentTokens (fst out))
      (set_nextId (S (nextId v)) (set_log (co_log (snd out)) v)))
  else ret tt.

Definition decayCompaction : LoopM W unit :=
  let! v := vars in
  let b := budget v in
  if (0 <? stepCount b) && (stepCount b =? compactionTrigger b) then
    let! l := of_result (compactToolLogDecay e_msg (Some (num_of_Z 8)) (Some (num_of_decimal 3 1))
                           (Some 30) (log v)) in
    modify (set_log l)
  else ret tt.

(** What the emergency summary leaves: the system prompt, the first user
    message and the recap. *)
Definition anchors (l : list Entry) : list Entry :=
  (match l with e :: _ => if bool_decide (m_role (e_msg e) = system) then [e] else [] | [] => [] end) ++
  (match find_first (fun e => bool_decide (m_role (e_msg e) = user)) l with Some e => [e] | None => [] end).

Definition emergencyCompaction : LoopM W unit :=
  let! v := vars in
  let b := budget v in
  if (0 <? cw_maxTokens b) &&
     (num_floor (num_mul (num_of_Z (cw_maxTokens b)) (num_of_decimal 9 1)) <? cw_currentTokens b)
  then
    let! r := attempt (emergencyContextSummary summarize false (map e_msg (log v))) in
    match r with
    | Throw _ => ret tt
    | Ok summary =>
        modify (fun v =>
          let v := append_log (mkMsg system ("[context recap] " ++ summary) None)
            (set_log (anchors (log v)) v) in
          on_budget (set_currentTokens
            (fold_left (fun t e => t + estimateTokens (m_content (e_msg e))) (log v) 0)) v)
    end
  else ret tt.

Definition compaction : LoopM W unit :=
  journalNewEntries false ;;;
  match runMemory cfg with
  | Some (_, ccfg) => groundedCompaction ccfg
  | None => decayCompaction ;;; emergencyCompaction
  end.

Definition FINALIZE_DIRECTIVE : string :=
  "⚠️ STEP BUDGET REACHED — this is your FINAL step. Do NOT call any " ++
  "tool. Using only the information you have already gathered, write " ++
  "your complete final answer now. If the information is incomplete, " ++
  "state what you found and what is missing, but produce an answer.".

Definition forceFinalize : LoopM W unit :=
  let! v := vars in
  let b := budget v in
  if forceFinalizeBeforeBudget cfg && (0 <? maxSteps b) && (stepCount b =? maxSteps b - 1) then
    push_log user FINALIZE_DIRECTIVE None ;;;
    emit (InstructionInjected "force-finalize (step budget reached)" "loop" true None)
  else ret tt.

(** * The round-trip *)

Definition has_sink : bool := match eventSink cfg with Some _ => true | None => false end.

Definition askProvider : LoopM W (ProviderRouterResponse * stream) :=
  let! v := vars in
  let! c := world (provider cfg (map (fun e => wire_message (e_msg e)) (log v))
                     (tb_output (budget v)) has_sink) in
  let! sm := (if has_sink then stream_deltas (deltas_seen c) stream_init else ret stream_init) in
  let! r := of_result (response c) in
  record (LComplete (r_toolCalls r)) ;;;
  ret (r, sm).

Definition count_usage (r : ProviderRouterResponse) (b : AgentBudgetState) : AgentBudgetState :=
  let occupancy := r_inputTokens r + r_outputTokens r in
  mkBudget (stepCount b + 1) (maxSteps b) (tb_input b) (tb_output b)
    (tb_usedInput b + r_inputTokens r) (tb_usedOutput b + r_outputTokens r) (cw_maxTokens b)
    (if 0 <? occupancy then occupancy else cw_currentTokens b)
    (compactionTrigger b) (coherenceScore b).

Definition account (r : ProviderRouterResponse) : LoopM W unit :=
  modify (on_budget (count_usage r)) ;;;
  let! cost := (match costFn cfg with
    | None => ret num_zero
    | Some f =>
        let! o := attempt (f (r_inputTokens r) (r_outputTokens r)) in
        let c := match o with Ok c => c | Throw _ => num_zero end in
        modify (fun v => set_cumulativeCostUsd (num_add (cumulativeCostUsd v) c) v) ;;; ret c
    end) in
  (match recordStep cfg with
   | None => ret tt
   | Some f => call (f (r_inputTokens r) (r_outputTokens r) (Z.of_nat (length (r_toolCalls r))) cost)
   end) ;;;
  let! v := vars in
  emit (RunStep (stepCount (budget v) - 1) (r_inputTokens r) (r_outputTokens r) cost).

(** * An answer without tool calls *)

Inductive flow := Next | Stop.

Definition nudge (count : Vars -> Vars) (content directive : string) : LoopM W flow :=
  modify (fun v => set_stepsWithoutTool (stepsWithoutTool v + 1) (count v)) ;;;
  push_log assistant content None ;;;
  push_log user directive None ;;;
  ret Next.

Definition NARRATED_DIRECTIVE (narrated : list string) : string :=
  ("You WROTE a tool invocation (" ++ join ", " narrated ++ ") as text instead of emitting it as a tool call. No tool ran and no result exists, so do not infer anything from it. Either emit a real tool call, or answer without claiming you searched.")%string.
Definition MEMORY_DIRECTIVE : string :=
  "You stated what is NOT in memory, but no memory lookup ran in this turn : you did not observe that absence. Either call the memory tool now and answer from its result, or say plainly that you have not checked. Never report an absence you did not establish.".

(** The message shown: qualified when it reports an absence nobody observed. *)
Definition shown_message (content : string) (lookupRan : bool) : string :=
  match unobservedMemoryClaimWarning content lookupRan with
  | None => content
  | Some w => (w ++ newline ++ newline ++ content)%string
  end.

Definition finalAnswer (content : string) (sm : stream) : LoopM W flow :=
  let! v := vars in
  let narrated := unexecutedToolCallMarkers content in
  if (0 <? length narrated)%nat && (narratedToolCallNudges v <? 1) then
    nudge (fun v => set_narratedToolCallNudges (narratedToolCallNudges v + 1) v) content
      (NARRATED_DIRECTIVE narrated)
  else
    let memoryWarning := unobservedMemoryClaimWarning content (memoryLookupRan v) in
    if (match memoryWarning with Some _ => true | None => false end) && (unobservedMemoryNudges v <? 1) then
      nudge (fun v => set_unobservedMemoryNudges (unobservedMemoryNudges v + 1) v) content MEMORY_DIRECTIVE
    else
      let shown := shown_message content (memoryLookupRan v) in
      push_log assistant content None ;;;
      modify (fun v => set_stopReason complete (set_finalMessage shown v)) ;;;
      finalize shown sm ;;;
      emit (AssistantMessage shown) ;;;
      ret Stop.

(** * The gates before a tool call *)

Definition refuse (tc : ToolCall) (kind : option string) (reason : string) : LoopM W unit :=
  let! v := vars in
  best_effort (onActionDenied cfg) (tc_name tc, reason, budgetUsedUsd v, kind) ;;;
  push_tool tc ("ERROR: " ++ default "action_denied" kind ++ ":" ++ reason)%string.

(** [true] lets the call go on. *)
Definition passCapability (tc : ToolCall) (tool : option AgentTool) : LoopM W bool :=
  match capabilityGate cfg with
  | None => ret true
  | Some verify =>
      let! v := vars in
      let! r := attempt (verify (mkCapCall (tc_name tc) (budgetUsedUsd v)
                                   (match tool with Some t => mcpScopes t | None => None end))) in
      record (LCapability tc (cap_answer r)) ;;;
      match (match r with Ok verdict => verdict | Throw _ => CapDenied "gate_error" end) with
      | CapDenied reason =>
          best_effort (onToolDenied cfg) (tc_name tc, reason, budgetUsedUsd v) ;;;
          push_tool tc ("ERROR: capability_denied:" ++ reason)%string ;;;
          ret false
      | CapAllowed =>
          modify (fun v => set_budgetUsedUsd
            (num_add (budgetUsedUsd v) (default num_zero (costPerToolCallUsd cfg))) v) ;;;
          ret true
      end
  end.

Definition gate_call (tc : ToolCall) (used : num) : ActionGateCall :=
  {| toolName := tc_name tc; args := tc_args tc; ActionGate.budgetUsed := used |}.

Definition passAction (tc : ToolCall) : LoopM W bool :=
  match actionGate cfg with
  | None => ret true
  | Some verify =>
      let! v := vars in
      let! r := attempt (verify (gate_call tc (budgetUsedUsd v))) in
      record (LAction tc (action_answer r)) ;;;
      let '(ok, reason, kind) := match r with
        | Ok av => (allowed av, gate_reason av, gate_kind av)
        | Throw _ => (false, "action_gate_error", None)
        end in
      if ok : bool then ret true else refuse tc kind reason ;;; ret false
  end.

Definition is_dangerous (tool : option AgentTool) : bool :=
  match tool with Some t => default false (dangerous t) | None => false end.

Definition needsApproval (tc : ToolCall) (isDangerous : bool) : LoopM W bool :=
  match isDangerous, approvalPredicate cfg with
  | true, Some p =>
      let! r := attempt (p tc) in
      record (LPredicate tc (predicate_answer r)) ;;;
      ret (match r with Ok needs => needs | Throw _ => true end)
  | _, _ => ret isDangerous
  end.

(** * Waiting for a human *)

(** The re-check of the action gate at each tick: only a verdict that denies
    revokes the card. *)
Definition recheck (tc : ToolCall) (used : num) : LoopM W (option (option string * string)) :=
  match actionGate cfg with
  | None => ret None
  | Some verify =>
      let! r := attempt (verify (gate_call tc used)) in
      ret (match r with
           | Ok av => if allowed av then None else Some (gate_kind av, gate_reason av)
           | Throw _ => None
           end)
  end.

Definition wait_verdict (a : Approval) : ApprovalWaitOutcome :=
  if approved a then WApproved else if timedOut a then WTimeout else WDenied.

Fixpoint poll_loop (fuel : nat) (ch : ApprovalChannel W) (id : string) (tc : ToolCall) (used : num)
    (deadline pollMs : Z) : LoopM W ApprovalWaitOutcome :=
  let! t := reads (now cfg) in
  if deadline <=? t then attempt (ch_cancel ch id) ;;; ret WTimeout
  else match fuel with
       | O => stuck
       | S fuel' =>
           let! revoked := recheck tc used in
           match revoked with
           | Some (kind, reason) => attempt (ch_cancel ch id) ;;; ret (WGateRevoked kind reason)
           | None =>
               let! verdict := call (poll ch id) in
               match verdict with
               | Some a => ret (wait_verdict a)
               | None =>
                   world (fun w => (sleep cfg pollMs w, tt)) ;;;
                   poll_loop fuel' ch id tc used deadline pollMs
               end
           end
       end.

Definition timeoutMs : Z := default 60000 (approvalTimeoutMs cfg).

Definition awaitApproval (fuel : nat) (ch : ApprovalChannel W) (tc : ToolCall) (tool : option AgentTool)
    (used : num) : LoopM W ApprovalWaitOutcome :=
  let! id := call (send ch (mkRequest (agentId cfg) (tc_name tc) (safeStringify (tc_args tc)) timeoutMs
    (match tool with Some t => toApprovalRisk <$> tool_risk t | None => None end))) in
  let! t := reads (now cfg) in
  poll_loop fuel ch id tc used (t + timeoutMs) (default 500 (approvalPollIntervalMs cfg)).

(** What the loop does after the approval step of a call. *)
Inductive admission := Granted | Refused | StopRun.

Definition halt (r : StopReason) : LoopM W admission :=
  stop_with (if honestApprovalStops cfg then r else user_cancelled) None ;;; ret StopRun.

Definition TIMED_OUT_AGAIN (name : string) : string :=
  ("ERROR: approval_timeout:" ++ name ++ " — une demande d'approbation pour cet " ++
   "outil est déjà restée sans réponse dans ce run ; l'appel est refusé sans " ++
   "nouvelle attente. Poursuis autrement, ou termine en disant ce qui reste à " ++
   "faire une fois l'accord obtenu.")%string.
Definition TIMED_OUT (name : string) : string :=
  ("ERROR: approval_timeout:" ++ name ++ " — personne n'a répondu à la demande " ++
   "d'approbation en " ++ str_of_Z ((timeoutMs + 500) / 1000) ++ " s, donc l'appel est refusé. " ++
   "L'outil n'a PAS tourné. Poursuis autrement, ou termine en disant ce qui " ++
   "reste à faire une fois l'accord obtenu.")%string.

Definition approve (fuel : nat) (tc : ToolCall) (tool : option AgentTool) : LoopM W admission :=
  let! needs := needsApproval tc (is_dangerous tool) in
  if negb needs then ret Granted
  else match approvalChannel cfg with
  | None => halt approval_denied
  | Some ch =>
      let! v := vars in
      if continueOnApprovalTimeout cfg && bool_decide (tc_name tc ∈ approvalTimedOutTools v) then
        push_tool tc (TIMED_OUT_AGAIN (tc_name tc)) ;;; ret Refused
      else
        let! wait := awaitApproval fuel ch tc tool (budgetUsedUsd v) in
        record (LApproval tc wait) ;;;
        best_effort (onApprovalResolved cfg) (tc_name tc, wait) ;;;
        match wait with
        | WApproved => ret Granted
        | WGateRevoked kind reason => refuse tc kind reason ;;; ret Refused
        | WTimeout =>
            if continueOnApprovalTimeout cfg then
              modify (fun v => set_approvalTimedOutTools
                (set_add (tc_name tc) (approvalTimedOutTools v)) v) ;;;
              best_effort (onApprovalTimeout cfg) (tc_name tc, timeoutMs) ;;;
              push_tool tc (TIMED_OUT (tc_name tc)) ;;; ret Refused
            else halt approval_timeout
        | WDenied => halt approval_denied
        end
  end.

(** * Running a tool call *)

(** [CStop true] is the break that also leaves the loop. *)
Inductive call_flow := CNext | CStop (userCancelled : bool).

Definition cacheKey (tc : ToolCall) : option string :=
  if isReadOnlyTool (tc_name tc) (tc_args tc)
  then Some (canonicalStateHash (tc_name tc) (tc_args tc) "") else None.

(** An empty key is falsy. *)
Definition cached_result (tc : ToolCall) (v : Vars) : option string :=
  match cacheKey tc with
  | Some (String _ _ as k) => om_get k (readResultCache v)
  | _ => None
  end.
Definition store_result (tc : ToolCall) (content : string) (v : Vars) : Vars :=
  match cacheKey tc with
  | Some (String _ _ as k) => set_readResultCache (om_set k content (readResultCache v)) v
  | _ => v
  end.

Definition serveCached (tc : ToolCall) (content : string) : LoopM W call_flow :=
  record (LCacheHit tc) ;;;
  (if isMemoryLookupTool (tc_name tc) then modify (set_memoryLookupRan true) else ret tt) ;;;
  push_tool tc content ;;;
  modify (fun v => on_budget bump_step (set_recentCalls (recentCalls v ++ [tc]) v)) ;;;
  ret CNext.

Definition veto_text (s : VetoSignal) : string :=
  ("[vetoed by " ++ vs_by s ++
   (match vs_reason s with Some EmptyString | None => "" | Some r => ": " ++ r end) ++ "]")%string.

(** [true] when the call has been vetoed. *)
Definition vetoWindow (tc : ToolCall) (callId preview : string) : LoopM W bool :=
  match vetoChannel cfg with
  | Some await =>
      let window := default 0 (vetoWindowMs cfg) in
      if (0 <? window) && has_sink then
        emit (ToolIntent callId (tc_name tc) preview window) ;;;
        let! veto := call (await callId window) in
        record (LVeto tc (match veto with Some _ => true | None => false end)) ;;;
        match veto with
        | Some s =>
            emit (ToolCallEnd callId (tc_name tc) false (veto_text s) None) ;;;
            push_tool tc (veto_text s) ;;;
            modify (on_budget bump_step) ;;;
            ret true
        | None => ret false
        end
      else ret false
  | None => ret false
  end.

(** [k in o] for a value known to be an object. *)
Definition arg_field (k : string) (a : jsval) : option jsval :=
  match a with JObj o => om_get k o | _ => None end.

Definition path_hint (a : jsval) : string :=
  match arg_field "path" a with
  | Some p => (" (path: " ++ js_String p ++ ")")%string
  | None =>
      match arg_field "command" a with
      | Some c => (" (cmd: " ++ str_take 60 (js_String c) ++ ")")%string
      | None => ""
      end
  end.

Definition correction_text (n : Z) (tc : ToolCall) (previous : option Z) : string :=
  ("[LOOP CORRECTION " ++ str_of_Z n ++ "/" ++ str_of_Z MAX_LOOP_CORRECTIONS ++
   "] STOP. You already ran `" ++ tc_name tc ++ "`" ++ path_hint (tc_args tc) ++ " at step " ++
   (match previous with Some s => str_of_Z s | None => "?" end) ++
   " with an IDENTICAL result. This is a loop. You MUST take a completely different action now. If you are looking for a project or file, check the conversation history — the location was likely already established. Do NOT repeat filesystem exploration commands.")%string.

Definition plateau_text (n : Z) (s : PromiseProgressSnapshot) : string :=
  ("[PROGRESS PLATEAU " ++ str_of_Z n ++ "/" ++ str_of_Z MAX_LOOP_CORRECTIONS ++
   "] No measurable progress toward the goal for the last " ++ str_of_Z (sn_observations s) ++
   " steps (similarity delta: " ++ num_to_fixed 3 (sn_progress s) ++
   "). Think differently. What concrete, new action would directly advance the task?")%string.

Definition definitive (tc : ToolCall) (hash : string) (first : Z) : LoopM W call_flow :=
  let! v := vars in
  stop_with loop_definitive (Some (mkDetail (tc_name tc) hash first (stepCount (budget v)) None)) ;;;
  ret (CStop false).

(** One more correction: a message, or the end of the run at the limit. *)
Definition correct (tc : ToolCall) (hash : string) (first : Z) (text_of : Z -> string)
    : LoopM W call_flow :=
  modify (fun v => set_loopCorrectionCount (loopCorrectionCount v + 1) v) ;;;
  let! v := vars in
  if MAX_LOOP_CORRECTIONS <=? loopCorrectionCount v then definitive tc hash first
  else push_log user (text_of (loopCorrectionCount v)) None ;;; ret CNext.

Definition detectCollision (tc : ToolCall) (content : string) : LoopM W call_flow :=
  let! v := vars in
  let '(t, obs) := observe (tc_name tc) (tc_args tc) content (stepCount (budget v)) (worldState v) in
  modify (set_worldState t) ;;;
  if isCollision obs && negb (disableLoopDetection cfg) then
    correct tc (hash obs) (default (-1) (previousStep obs)) (fun n => correction_text n tc (previousStep obs))
  else ret CNext.

Definition detectPlateaued (tc : ToolCall) (content : string) : LoopM W call_flow :=
  let! v := vars in
  match progressTracker v, embedFn cfg with
  | Some p, Some embed =>
      if disableLoopDetection cfg then ret CNext
      else
        let! o := world (fun w => let '(w, p, r) := promise_observe embed content p w in (w, (p, r))) in
        modify (set_progressTracker (Some (fst o))) ;;;
        let! snap := of_result (snd o) in
        if sn_isPlateau snap then
          correct tc "progress_plateau" (stepCount (budget v) - sn_observations snap)
            (fun n => plateau_text n snap)
        else ret CNext
  | _, _ => ret CNext
  end.

Definition observeConfidence : LoopM W unit :=
  let! v := vars in
  let stepConf := num_sub num_one (num_div (num_of_Z (loopCorrectionCount v))
                                            (num_of_Z MAX_LOOP_CORRECTIONS)) in
  let '(t, r) := traj_observe stepConf (trajectory v) in
  modify (set_trajectory t) ;;;
  of_result r ;;; ret tt.

Definition executeTool (tc : ToolCall) (callId preview : string) : LoopM W string :=
  emit (ToolCallStart callId (tc_name tc) preview) ;;;
  let! t0 := reads (now cfg) in
  record (LExecute tc) ;;;
  let! r := call (tools_execute cfg (tc_name tc) (tc_args tc)) in
  let content := summariseToolResult r (toolResultMaxChars cfg) in
  let! t1 := reads (now cfg) in
  emit (ToolCallEnd callId (tc_name tc) (tool_ok r) (str_take 500 content) (Some (t1 - t0))) ;;;
  modify (store_result tc content) ;;;
  (if isMemoryLookupTool (tc_name tc) && tool_ok r then modify (set_memoryLookupRan true) else ret tt) ;;;
  push_tool tc content ;;;
  ret content.

(** Once the gates and a human have admitted the call. *)
Definition runAdmitted (tc : ToolCall) : LoopM W call_flow :=
  let! v := vars in
  match cached_result tc v with
  | Some content => serveCached tc content
  | None =>
      let! preview := of_result (boundedArgsPreview (tc_args tc)) in
      let! callId := world (cryptoRandomId cfg) in
      let! vetoed := vetoWindow tc callId preview in
      if vetoed : bool then ret CNext
      else
        let! content := executeTool tc callId preview in
        let! c1 := detectCollision tc content in
        match c1 with
        | CStop b => ret (CStop b)
        | CNext =>
            let! c2 := detectPlateaued tc content in
            match c2 with
            | CStop b => ret (CStop b)
            | CNext => observeConfidence ;;; ret CNext
            end
        end
  end.

Definition runCall (fuel : nat) (tc : ToolCall) : LoopM W call_flow :=
  let! isAborted := reads (abortSignal cfg) in
  if isAborted : bool then stop_with aborted None ;;; ret (CStop true)
  else
    modify (fun v => set_recentCalls (recentCalls v ++ [tc]) v) ;;;
    let! tool := reads (tools_get cfg (tc_name tc)) in
    record (LGet tc (is_dangerous tool)) ;;;
    let! c := passCapability tc tool in
    if negb c then ret CNext
    else
      let! a := passAction tc in
      if negb a then ret CNext
      else
        let! h := approve fuel tc tool in
        match h with
        | StopRun => ret (CStop true)
        | Refused => ret CNext
        | Granted => runAdmitted tc
        end.

Fixpoint runCalls (fuel : nat) (tcs : list ToolCall) : LoopM W call_flow :=
  match tcs with
  | [] => ret CNext
  | tc :: tcs' =>
      let! c := runCall fuel tc in
      match c with CNext => runCalls fuel tcs' | CStop b => ret (CStop b) end
  end.

Definition checkCoherence (detect : list ToolCall -> Z -> CoherenceVerdict) : LoopM W flow :=
  let! v := vars in
  let verdict := detect (recentCalls v) (stepsWithoutTool v) in
  modify (on_budget (set_coherence (score verdict))) ;;;
  if (isLoop verdict || isStall verdict) && negb (disableLoopDetection cfg) then
    stop_with incoherent None ;;; ret Stop
  else ret Next.

Definition toolStep (fuel : nat) (detect : list ToolCall -> Z -> CoherenceVerdict)
    (r : ProviderRouterResponse) (sm : stream) : LoopM W flow :=
  (if (js_trim (r_content r) =? "")%string then ret tt
   else finalize (r_content r) sm ;;; emit (AssistantMessage (r_content r))) ;;;
  push_log assistant (r_content r) None ;;;
  modify (set_stepsWithoutTool 0) ;;;
  let! c := runCalls fuel (r_toolCalls r) in
  match c with
  | CStop true => ret Stop
  | _ =>
      let! v := vars in
      if bool_decide (stopReason v = loop_definitive) then ret Stop else checkCoherence detect
  end.

(** * The loop *)

Definition iteration (fuel : nat) (detect : list ToolCall -> Z -> CoherenceVerdict) (loopStartMs : Z)
    : LoopM W flow :=
  drainInbox ;;;
  let! stop := checkStops loopStartMs in
  if stop : bool then ret Stop
  else
    renew ;;;
    compaction ;;;
    forceFinalize ;;;
    let! rs := askProvider in
    account (fst rs) ;;;
    match r_toolCalls (fst rs) with
    | [] => finalAnswer (r_content (fst rs)) (snd rs)
    | _ => toolStep fuel detect (fst rs) (snd rs)
    end.

(** [pollFuel] bounds the ticks of one approval wait, [fuel] the iterations. *)
Fixpoint loop (pollFuel fuel : nat) (detect : list ToolCall -> Z -> CoherenceVerdict)
    (loopStartMs : Z) : LoopM W unit :=
  match fuel with
  | O => stuck
  | S fuel' =>
      let! f := iteration pollFuel detect loopStartMs in
      match f with Stop => ret tt | Next => loop pollFuel fuel' detect loopStartMs end
  end.

Definition finish (runId : string) (reason : StopReason) : LoopM W unit :=
  let! v := vars in
  emit (RunFinished runId reason (stepCount (budget v)) (cumulativeCostUsd v)).

Definition body (pollFuel fuel : nat) (detect : list ToolCall -> Z -> CoherenceVerdict)
    (runId traceId : string) (loopStartMs : Z) : LoopM W AgentLoopRunResult :=
  loop pollFuel fuel detect loopStartMs ;;;
  let! v := vars in
  journalNewEntries (bool_decide (stopReason v = complete)) ;;;
  let! v := vars in
  (if bool_decide (stopReason v = complete) then
     best_effort (skillCapture cfg) (mkSkill runId traceId (finalMessage v) (stepCount (budget v)))
   else ret tt) ;;;
  finish runId (stopReason v) ;;;
  ret (mkResult (finalMessage v) (stopReason v) (budget v) None (loopDetail v)
         (Some (cumulativeCostUsd v))).

Definition onError (runId : string) (e : jserror) : LoopM W AgentLoopRunResult :=
  finish runId error ;;;
  let! v := vars in
  ret (mkResult "" error (budget v) (Some (err_message e)) None None).

Record RunOptions := mkOptions {
  displayTask : option string; origin : option string; steerId : option string
}.

Definition run (pollFuel fuel : nat) (userMessage traceId : string) (opts : RunOptions)
    : LoopM W AgentLoopRunResult :=
  let! runId := world (cryptoRandomId cfg) in
  emit (RunStart runId (agentId cfg) (agentVersion cfg)
    (str_take 32000 (default userMessage (displayTask opts))) (origin opts) (steerId opts)) ;;;
  let! detect := of_result (createCoherenceDetector (loopDetectionWindow cfg) (stallThreshold cfg)) in
  let! traj := of_result (newTrajectory None None None) in
  modify (set_trajectory traj) ;;;
  let! loopStartMs := reads (now cfg) in
  catch (body pollFuel fuel detect runId traceId loopStartMs) (onError runId).

(** [run] from a world and the host's budget object. *)
Definition runFrom (pollFuel fuel : nat) (b : AgentBudgetState) (userMessage traceId : string)
    (opts : RunOptions) (w : W) : St W * outcome AgentLoopRunResult :=
  run pollFuel fuel userMessage traceId opts (mkSt w [] (initial_vars userMessage b)).
End Loop.
