(* ===== verification/LoopProtocol.v ===== *)
(** The protocol of a run of the agent loop, as a labelled transition system,
    and a program logic to show that the loop follows it.

    A phase says which tool calls of the last answer are still to be taken up,
    and which grants the current one has.  A tool is executed, or served from
    the cache, only from a phase with every grant. *)

From S2P Require Import Prelude JsNum JsValue Canonical Veto ActionGate Regex Json.
From S2P Require Import WorldState Budget ClaimGuards Coalescer Approval Trackers LoopTypes.
From S2P Require Import AgentLoop.
Open Scope loop_scope.

(** * The protocol *)

(** What the current call has obtained. *)
Record grants := mkGrants { g_call : ToolCall; g_cap : bool; g_act : bool; g_human : bool; g_veto : bool }.

Inductive phase :=
| PInit                                              (** before [run.start] *)
| PLive (current : option grants) (todo : list ToolCall)
| PEnded.                                            (** after [run.finished] *)

(** The guards a configuration puts before a call. *)
Record guards := mkGuards { has_capability : bool; has_action : bool; has_veto : bool }.

Definition is_lifecycle (e : SessionEvent) : bool :=
  match e with RunStart _ _ _ _ _ _ | RunFinished _ _ _ _ => true | _ => false end.

Definition fresh_grants (gs : guards) (tc : ToolCall) (dangerous : bool) : grants :=
  mkGrants tc (negb (has_capability gs)) (negb (has_action gs)) (negb dangerous) (negb (has_veto gs)).

Inductive pstep (gs : guards) : phase -> LoopEvent -> phase -> Prop :=
| p_start r i v t o s : pstep gs PInit (LSink (RunStart r i v t o s)) (PLive None [])
| p_event e c l : is_lifecycle e = false -> pstep gs (PLive c l) (LSink e) (PLive c l)
| p_complete calls c l : pstep gs (PLive c l) (LComplete calls) (PLive None calls)
| p_get tc d c l : pstep gs (PLive c (tc :: l)) (LGet tc d) (PLive (Some (fresh_grants gs tc d)) l)
| p_cap_ok g l :
    pstep gs (PLive (Some g) l) (LCapability (g_call g) true)
      (PLive (Some (mkGrants (g_call g) true (g_act g) (g_human g) (g_veto g))) l)
| p_cap_no g l : pstep gs (PLive (Some g) l) (LCapability (g_call g) false) (PLive None l)
| p_act_ok g l : g_cap g = true ->
    pstep gs (PLive (Some g) l) (LAction (g_call g) true)
      (PLive (Some (mkGrants (g_call g) true true (g_human g) (g_veto g))) l)
| p_act_no g l : pstep gs (PLive (Some g) l) (LAction (g_call g) false) (PLive None l)
| p_pred g l needs : g_cap g = true -> g_act g = true ->
    pstep gs (PLive (Some g) l) (LPredicate (g_call g) needs)
      (PLive (Some (mkGrants (g_call g) true true (negb needs) (g_veto g))) l)
| p_approved g l : g_cap g = true -> g_act g = true ->
    pstep gs (PLive (Some g) l) (LApproval (g_call g) WApproved)
      (PLive (Some (mkGrants (g_call g) true true true (g_veto g))) l)
| p_refused g l o : o <> WApproved ->
    pstep gs (PLive (Some g) l) (LApproval (g_call g) o) (PLive None l)
| p_cached g l : g_cap g = true -> g_act g = true -> g_human g = true ->
    pstep gs (PLive (Some g) l) (LCacheHit (g_call g)) (PLive None l)
| p_veto_no g l : g_cap g = true -> g_act g = true -> g_human g = true ->
    pstep gs (PLive (Some g) l) (LVeto (g_call g) false)
      (PLive (Some (mkGrants (g_call g) true true true true)) l)
| p_veto g l : pstep gs (PLive (Some g) l) (LVeto (g_call g) true) (PLive None l)
| p_execute g l : g_cap g = true -> g_act g = true -> g_human g = true -> g_veto g = true ->
    pstep gs (PLive (Some g) l) (LExecute (g_call g)) (PLive None l)
| p_finish r o n c cur l : pstep gs (PLive cur l) (LSink (RunFinished r o n c)) PEnded.

Inductive ptrace (gs : guards) : phase -> list LoopEvent -> phase -> Prop :=
| pt_nil p : ptrace gs p [] p
| pt_snoc p t q e r : ptrace gs p t q -> pstep gs q e r -> ptrace gs p (t ++ [e]) r.

(** * A logic of histories *)

Section Logic.
Context {W : Type} (gs : guards) (start : phase).

(** The history so far leads to a phase. *)
Definition reaches (s : St W) (p : phase) : Prop := ptrace gs start (st_trace s) p.
Definition live (s : St W) : Prop := exists c l, reaches s (PLive c l).

(** From a phase in [P] the computation ends in a phase given by [Q]; an error,
    or a lack of fuel, leaves the run live. *)
Definition triple {B} (p : phase) (m : LoopM W B) (Q : B -> phase -> Prop) : Prop :=
  forall s, reaches s p ->
  match m s with
  | (s', Done b) => exists q, Q b q /\ reaches s' q
  | (s', _) => live s'
  end.

(** Computations that leave the history as it is. *)
Class Silent {B} (m : LoopM W B) : Prop := silent : forall s, st_trace (fst (m s)) = st_trace s.

#[export] Instance silent_ret {B} (b : B) : Silent (ret b).
Proof. by intros s. Qed.
#[export] Instance silent_raise {B} e : Silent (@raise W B e).
Proof. by intros s. Qed.
#[export] Instance silent_stuck {B} : Silent (@stuck W B).
Proof. by intros s. Qed.
#[export] Instance silent_vars : Silent (@vars W).
Proof. by intros s. Qed.
#[export] Instance silent_modify f : Silent (@modify W f).
Proof. by intros s. Qed.
#[export] Instance silent_reads {B} (f : W -> B) : Silent (reads f).
Proof. by intros s. Qed.
#[export] Instance silent_world {B} (f : W -> W * B) : Silent (world f).
Proof. intros s. unfold world. by destruct (f (st_w s)). Qed.
#[export] Instance silent_bind {B C} (m : LoopM W B) (f : B -> LoopM W C) :
  Silent m -> (forall b, Silent (f b)) -> Silent (bind m f).
Proof.
  intros Hm Hf s. unfold bind. specialize (Hm s). destruct (m s) as [s' [b|e|]]; simpl in *; [|done..].
  rewrite <- Hm. apply Hf.
Qed.
#[export] Instance silent_of_result {B} (r : result B) : Silent (@of_result W B r).
Proof. destruct r; apply _. Qed.
#[export] Instance silent_attempt {B} (f : W -> W * result B) : Silent (attempt f).
Proof. unfold attempt. apply _. Qed.
#[export] Instance silent_call {B} (f : W -> W * result B) : Silent (call f).
Proof. unfold call. apply _. Qed.

Lemma triple_silent {B} c l (m : LoopM W B) (Q : B -> phase -> Prop) :
  Silent m -> (forall b, Q b (PLive c l)) -> triple (PLive c l) m Q.
Proof.
  intros Hm HQ s Hs. specialize (Hm s).
  assert (Hr : reaches (fst (m s)) (PLive c l)) by (unfold reaches; by rewrite Hm).
  destruct (m s) as [s' [b|e|]]; simpl in *; [|by exists c, l..]. by eexists.
Qed.

Lemma triple_bind {B C} p (m : LoopM W B) (f : B -> LoopM W C) Q R :
  triple p m R -> (forall b q, R b q -> triple q (f b) Q) -> triple p (bind m f) Q.
Proof.
  intros Hm Hf s Hs. specialize (Hm s Hs). unfold bind. destruct (m s) as [s' [b|e|]]; [|done..].
  destruct Hm as (q & Hb & Hq). exact (Hf b q Hb s' Hq).
Qed.

Lemma triple_ret {B} p (b : B) (Q : B -> phase -> Prop) : Q b p -> triple p (ret b) Q.
Proof. intros HQ s Hs. simpl. by exists p. Qed.

Lemma triple_weaken {B} p (m : LoopM W B) (Q R : B -> phase -> Prop) :
  triple p m R -> (forall b q, R b q -> Q b q) -> triple p m Q.
Proof.
  intros Hm HR s Hs. specialize (Hm s Hs). destruct (m s) as [s' [b|e|]]; [|done..].
  destruct Hm as (q & Hb & Hq). exists q. auto.
Qed.

Lemma triple_record p e q (Q : unit -> phase -> Prop) :
  pstep gs p e q -> Q tt q -> triple p (record e) Q.
Proof. intros Hp HQ s Hs. simpl. exists q. split; [done|]. unfold reaches. simpl. by econstructor. Qed.

(** A silent computation before another. *)
Lemma triple_skip {B C} c l (m : LoopM W B) (f : B -> LoopM W C) Q :
  Silent m -> (forall b, triple (PLive c l) (f b) Q) -> triple (PLive c l) (bind m f) Q.
Proof.
  intros Hm Hf. eapply (triple_bind _ _ _ _ (fun _ q => q = PLive c l)); [by apply triple_silent|].
  intros b q ->. apply Hf.
Qed.

(** A call that cannot fail, from any phase. *)
Lemma triple_world {B C} p (f : W -> W * B) (k : B -> LoopM W C) Q :
  (forall b, triple p (k b) Q) -> triple p (bind (world f) k) Q.
Proof.
  intros Hk s Hs. unfold bind, world. destruct (f (st_w s)) as [w b].
  exact (Hk b (mkSt w (st_trace s) (st_v s)) Hs).
Qed.

Lemma triple_step {C} p e q (f : unit -> LoopM W C) Q :
  pstep gs p e q -> triple q (f tt) Q -> triple p (bind (record e) f) Q.
Proof.
  intros Hp Hf. eapply (triple_bind _ _ _ _ (fun _ q' => q' = q)); [by apply triple_record with q|].
  intros [] q' ->. exact Hf.
Qed.

(** A computation that stays in the phase it starts from. *)
Class Stays {B} (m : LoopM W B) : Prop :=
  stays : forall c l, triple (PLive c l) m (fun _ q => q = PLive c l).

#[export] Instance stays_silent {B} (m : LoopM W B) : Silent m -> Stays m | 10.
Proof. intros Hm c l. by apply triple_silent. Qed.
#[export] Instance stays_bind {B C} (m : LoopM W B) (f : B -> LoopM W C) :
  Stays m -> (forall b, Stays (f b)) -> Stays (bind m f) | 20.
Proof. intros Hm Hf c l. eapply triple_bind; [apply Hm|]. intros b q ->. apply Hf. Qed.
#[export] Instance stays_if {B} (b : bool) (m1 m2 : LoopM W B) :
  Stays m1 -> Stays m2 -> Stays (if b then m1 else m2).
Proof. by destruct b. Qed.

(** A computation that stays, before another. *)
Lemma triple_stay {B C} c l (m : LoopM W B) (f : B -> LoopM W C) Q :
  Stays m -> (forall b, triple (PLive c l) (f b) Q) -> triple (PLive c l) (bind m f) Q.
Proof. intros Hm Hf. eapply triple_bind; [apply Hm|]. intros b q ->. apply Hf. Qed.
Lemma triple_stays {B} c l (m : LoopM W B) (Q : B -> phase -> Prop) :
  Stays m -> (forall b, Q b (PLive c l)) -> triple (PLive c l) m Q.
Proof. intros Hm HQ. eapply triple_weaken; [apply Hm|]. intros b q ->. apply HQ. Qed.
End Logic.
#[export] Hint Mode Silent - - ! : typeclass_instances.
#[export] Hint Mode Stays - - - - ! : typeclass_instances.

Definition lively {B} (b : B) (q : phase) : Prop := exists c l, q = PLive c l.

Class Quiet (e : SessionEvent) : Prop := quiet : is_lifecycle e = false.
#[export] Hint Extern 0 (Quiet _) => reflexivity : typeclass_instances.

(** Case analysis on the matches of a computation, then instance search. *)
Ltac silently := repeat first
  [ apply _
  | progress intros
  | match goal with
    | |- Silent (match ?x with _ => _ end) => destruct x
    | |- Stays _ _ (match ?x with _ => _ end) => destruct x
    | |- Silent (bind _ _) => apply silent_bind
    | |- Stays _ _ (bind _ _) => apply stays_bind
    end ].

(** * Every part of the loop follows the protocol *)

Section Follows.
Context {W A : Type} (cfg : AgentLoopConfig W A).
Context `{Printing} `{Hashing} `{MathLib}.

Definition cfg_guards : guards :=
  mkGuards (match capabilityGate cfg with Some _ => true | None => false end)
    (match actionGate cfg with Some _ => true | None => false end)
    (match vetoChannel cfg with
     | Some _ => (0 <? default 0 (vetoWindowMs cfg)) && has_sink cfg
     | None => false
     end).

(** Without a sink there is no lifecycle event to see. *)
Definition start_phase : phase := if has_sink cfg then PInit else PLive None [].

Notation stays := (Stays cfg_guards start_phase).
Notation follows := (triple cfg_guards start_phase).

#[local] Instance stays_emit e : Quiet e -> stays (emit cfg e).
Proof.
  intros He c l. unfold emit. destruct (eventSink cfg); [|by apply triple_ret].
  apply triple_skip; [apply _|]. intros []. eapply triple_record; [by apply p_event|done].
Qed.

#[local] Instance silent_best_effort {X} (h : Hook W X) x : Silent (best_effort h x).
Proof. unfold best_effort. silently. Qed.

#[local] Instance silent_push_log r m n : Silent (@push_log W r m n).
Proof. unfold push_log. silently. Qed.
#[local] Instance silent_push_tool tc m : Silent (@push_tool W tc m).
Proof. unfold push_tool. silently. Qed.

#[local] Instance silent_journal_entries append es : Silent (@journal_entries W append es).
Proof. induction es as [|m es IH]; simpl; silently. Qed.
#[local] Instance silent_journal b : Silent (journalNewEntries cfg b).
Proof. unfold journalNewEntries. silently. Qed.

#[local] Instance stays_emit_deltas outs : stays (emit_deltas cfg outs).
Proof. induction outs as [|o outs IH]; simpl; silently. Qed.
#[local] Instance stays_push_text t a c : stays (push_text cfg t a c).
Proof. unfold push_text. silently. Qed.
#[local] Instance stays_stream_deltas ds sm : stays (stream_deltas cfg ds sm).
Proof.
  revert sm. induction ds as [|[chunk a] ds IH]; intros sm; cbn [stream_deltas]; [silently|].
  unfold onDelta. silently.
Qed.
#[local] Instance stays_finalize m sm : stays (finalize cfg m sm).
Proof. unfold finalize. silently. Qed.

#[local] Instance stays_inject instrs : stays (inject_instructions cfg instrs).
Proof. induction instrs as [|i instrs IH]; cbn [inject_instructions]; silently. Qed.
#[local] Instance stays_drainInbox : stays (drainInbox cfg).
Proof. unfold drainInbox. silently. Qed.

#[local] Instance silent_stop_with r d : Silent (@stop_with W r d).
Proof. unfold stop_with. silently. Qed.
#[local] Instance silent_checkStops t : Silent (checkStops cfg t).
Proof. unfold checkStops, budget_stop. silently. Qed.
#[local] Instance silent_renew : Silent (renew cfg).
Proof. unfold renew. silently. Qed.
#[local] Instance silent_compaction : Silent (compaction cfg).
Proof. unfold compaction, groundedCompaction, decayCompaction, emergencyCompaction. silently. Qed.
#[local] Instance stays_forceFinalize : stays (forceFinalize cfg).
Proof. unfold forceFinalize. silently. Qed.
#[local] Instance stays_account r : stays (account cfg r).
Proof. unfold account. silently. Qed.
#[local] Instance stays_finalAnswer m sm : stays (finalAnswer cfg m sm).
Proof. unfold finalAnswer, nudge. silently. Qed.

Lemma follows_askProvider c l :
  follows (PLive c l) (askProvider cfg) (fun rs q => q = PLive None (r_toolCalls rs.1)).
Proof.
  unfold askProvider. apply triple_skip; [apply _|intros v]. apply triple_skip; [apply _|intros co].
  apply triple_stay; [silently|intros sm]. apply triple_skip; [apply _|intros r].
  eapply triple_step; [constructor|]. by apply triple_ret.
Qed.

(** * The gates *)

#[local] Instance silent_refuse tc k r : Silent (refuse cfg tc k r).
Proof. unfold refuse. silently. Qed.

(** What a gate leaves: the grant it gives, or no current call. *)
Definition after_gate (ok : bool) (g : grants) (l : list ToolCall) (q : phase) : Prop :=
  q = PLive (if ok then Some g else None) l.

Definition with_cap (g : grants) : grants := mkGrants (g_call g) true (g_act g) (g_human g) (g_veto g).
Definition with_act (g : grants) : grants := mkGrants (g_call g) true true (g_human g) (g_veto g).
Definition with_human (g : grants) : grants := mkGrants (g_call g) true true true (g_veto g).
Definition with_veto (g : grants) : grants := mkGrants (g_call g) true true true true.

Lemma follows_passCapability g l tool :
  (has_capability cfg_guards = false -> g_cap g = true) ->
  follows (PLive (Some g) l) (passCapability cfg (g_call g) tool) (fun ok q => after_gate ok (with_cap g) l q).
Proof.
  unfold passCapability. simpl. intros Hg. destruct (capabilityGate cfg) as [verify|].
  - apply triple_skip; [apply _|intros v]. apply triple_skip; [apply _|intros r].
    destruct r as [[|reason]|e]; simpl; (eapply triple_step; [constructor|]).
    + apply triple_skip; [apply _|intros _]. by apply triple_ret.
    + do 2 (apply triple_skip; [apply _|intros _]). by apply triple_ret.
    + do 2 (apply triple_skip; [apply _|intros _]). by apply triple_ret.
  - apply triple_ret. unfold after_gate, with_cap. rewrite <- (Hg eq_refl). by destruct g.
Qed.

Lemma follows_passAction g l : g_cap g = true ->
  (has_action cfg_guards = false -> g_act g = true) ->
  follows (PLive (Some g) l) (passAction cfg (g_call g)) (fun ok q => after_gate ok (with_act g) l q).
Proof.
  unfold passAction. simpl. intros Hc Hg. destruct (actionGate cfg) as [verify|].
  - apply triple_skip; [apply _|intros v]. apply triple_skip; [apply _|intros r].
    destruct r as [av|e]; simpl; [destruct (allowed av)|];
      (eapply triple_step; [by constructor|]); [by apply triple_ret| |];
      (apply triple_skip; [apply _|intros _]); by apply triple_ret.
  - apply triple_ret. unfold after_gate, with_act. destruct g; simpl in *. by rewrite Hc, (Hg eq_refl).
Qed.

Lemma follows_needsApproval g l d : g_cap g = true -> g_act g = true -> g_human g = negb d ->
  follows (PLive (Some g) l) (needsApproval cfg (g_call g) d)
    (fun needs q => exists g', q = PLive (Some g') l /\ g_call g' = g_call g /\ g_cap g' = true /\
       g_act g' = true /\ g_human g' = negb needs /\ g_veto g' = g_veto g).
Proof.
  intros Hc Ha Hh. unfold needsApproval.
  assert (Hret : follows (PLive (Some g) l) (@ret W bool d) (fun needs q => exists g', q = PLive (Some g') l /\
    g_call g' = g_call g /\ g_cap g' = true /\ g_act g' = true /\ g_human g' = negb needs /\
    g_veto g' = g_veto g)) by (apply triple_ret; by exists g).
  destruct d; [|done]. destruct (approvalPredicate cfg) as [p|]; [|done].
  apply triple_skip; [apply _|intros r]. eapply triple_step; [by constructor|].
  apply triple_ret. eexists. split; [done|]. destruct r; simpl; by rewrite <- Ha.
Qed.

#[local] Instance silent_recheck tc u : Silent (recheck cfg tc u).
Proof. unfold recheck. silently. Qed.
#[local] Instance silent_poll_loop n ch id tc u d p : Silent (poll_loop cfg n ch id tc u d p).
Proof. induction n as [|n IH]; cbn [poll_loop]; silently. Qed.
#[local] Instance silent_awaitApproval n ch tc tool u : Silent (awaitApproval cfg n ch tc tool u).
Proof. unfold awaitApproval. silently. Qed.
#[local] Instance silent_halt r : Silent (halt cfg r).
Proof. unfold halt. silently. Qed.

(** Admission with every grant but the veto's, or no matter what. *)
Definition after_approve (g : grants) (l : list ToolCall) (a : admission) (q : phase) : Prop :=
  match a with
  | Granted => exists g', q = PLive (Some g') l /\ g_call g' = g_call g /\ g_cap g' = true /\
      g_act g' = true /\ g_human g' = true /\ g_veto g' = g_veto g
  | _ => exists c, q = PLive c l
  end.

Lemma follows_halt g c l r : follows (PLive c l) (halt cfg r) (fun a q => after_approve g l a q).
Proof.
  unfold halt. apply triple_skip; [apply _|intros _]. apply triple_ret. by exists c.
Qed.

Lemma follows_approve fuel g l tool : g_cap g = true -> g_act g = true ->
  g_human g = negb (is_dangerous tool) ->
  follows (PLive (Some g) l) (approve cfg fuel (g_call g) tool) (fun a q => after_approve g l a q).
Proof.
  intros Hc Ha Hh. unfold approve. eapply triple_bind; [by apply follows_needsApproval|].
  intros needs q (g' & -> & E & Hc' & Ha' & Hh' & Hv'). destruct needs; simpl.
  2: { apply triple_ret. by exists g'. }
  destruct (approvalChannel cfg) as [ch|]; [|apply follows_halt].
  apply triple_skip; [apply _|intros v]. destruct (_ && _).
  { apply triple_skip; [apply _|intros _]. apply triple_ret. by eexists. }
  apply triple_skip; [apply _|intros wait]. rewrite <- E.
  destruct wait as [| | |k r].
  - eapply triple_step; [by constructor|]. apply triple_skip; [apply _|intros _].
    apply triple_ret. by eexists.
  - eapply triple_step; [by constructor|]. apply triple_skip; [apply _|intros _]. apply follows_halt.
  - eapply triple_step; [by constructor|]. apply triple_skip; [apply _|intros _].
    destruct (continueOnApprovalTimeout cfg); [|apply follows_halt].
    do 3 (apply triple_skip; [apply _|intros _]). apply triple_ret. by eexists.
  - eapply triple_step; [by constructor|]. do 2 (apply triple_skip; [apply _|intros _]).
    apply triple_ret. by eexists.
Qed.

(** * The call *)

#[local] Instance silent_detectCollision tc m : Silent (detectCollision cfg tc m).
Proof. unfold detectCollision, correct, definitive. silently. Qed.
#[local] Instance silent_detectPlateaued tc m : Silent (detectPlateaued cfg tc m).
Proof. unfold detectPlateaued, correct, definitive. silently. Qed.
#[local] Instance silent_observeConfidence : Silent (@observeConfidence W).
Proof. unfold observeConfidence. silently. Qed.

Definition human_granted (g : grants) : Prop := g_cap g = true /\ g_act g = true /\ g_human g = true.

Lemma follows_vetoWindow g l callId preview : human_granted g ->
  (has_veto cfg_guards = false -> g_veto g = true) ->
  follows (PLive (Some g) l) (vetoWindow cfg (g_call g) callId preview)
    (fun vetoed q => q = PLive (if vetoed then None else Some (with_veto g)) l).
Proof.
  intros (Hc & Ha & Hh) Hg. unfold vetoWindow. simpl in Hg.
  assert (Hno : g_veto g = true -> with_veto g = g) by (intros; unfold with_veto; destruct g; simpl in *; congruence).
  destruct (vetoChannel cfg) as [await|]; [|apply triple_ret; by rewrite Hno by auto].
  destruct (_ && _); [|apply triple_ret; by rewrite Hno by auto].
  apply triple_stay; [apply _|intros _]. apply triple_skip; [apply _|intros [s|]].
  - eapply triple_step; [constructor|]. apply triple_stay; [apply _|intros _].
    do 2 (apply triple_skip; [apply _|intros _]). by apply triple_ret.
  - eapply triple_step; [by constructor|]. by apply triple_ret.
Qed.

Lemma follows_executeTool g l callId preview : human_granted g -> g_veto g = true ->
  follows (PLive (Some g) l) (executeTool cfg (g_call g) callId preview) (fun _ q => q = PLive None l).
Proof.
  intros (Hc & Ha & Hh) Hv. unfold executeTool. apply triple_stay; [apply _|intros _].
  apply triple_skip; [apply _|intros t0]. eapply triple_step; [by constructor|].
  apply triple_skip; [apply _|intros r]. apply triple_skip; [apply _|intros t1].
  apply triple_stay; [apply _|intros _]. apply triple_skip; [apply _|intros _].
  apply triple_skip; [silently|intros _]. apply triple_skip; [apply _|intros _]. by apply triple_ret.
Qed.

Lemma follows_runAdmitted g l : human_granted g ->
  (has_veto cfg_guards = false -> g_veto g = true) ->
  follows (PLive (Some g) l) (runAdmitted cfg (g_call g)) (fun _ q => exists c, q = PLive c l).
Proof.
  intros Hg Hv. unfold runAdmitted. apply triple_skip; [apply _|intros v].
  destruct (cached_result _ v) as [m|].
  { unfold serveCached. destruct Hg as (? & ? & ?). eapply triple_step; [by constructor|].
    apply triple_stays; [silently|]. by eexists. }
  apply triple_skip; [apply _|intros preview]. apply triple_skip; [apply _|intros callId].
  eapply triple_bind; [by apply follows_vetoWindow|]. intros vetoed q ->.
  destruct vetoed; [apply triple_ret; by eexists|].
  eapply triple_bind; [by apply (follows_executeTool (with_veto g))|]. intros m q ->.
  apply triple_stays; [silently|]. by eexists.
Qed.

(** A call that is not interrupted consumes the head of the list. *)
Definition after_call (l : list ToolCall) (r : call_flow) (q : phase) : Prop :=
  match r with
  | CStop true => lively tt q
  | _ => exists c, q = PLive c l
  end.

Lemma after_call_live l r c : after_call l r (PLive c l).
Proof. destruct r as [|[]]; [by exists c|by exists c, l|by exists c]. Qed.

Lemma follows_runCall fuel c tc l :
  follows (PLive c (tc :: l)) (runCall cfg fuel tc) (fun r q => after_call l r q).
Proof.
  unfold runCall. apply triple_skip; [apply _|intros [|]].
  { apply triple_skip; [apply _|intros _]. apply triple_ret. by exists c, (tc :: l). }
  apply triple_skip; [apply _|intros _]. apply triple_skip; [apply _|intros tool].
  eapply triple_step; [constructor|]. set (g := fresh_grants cfg_guards tc (is_dangerous tool)).
  change tc with (g_call g) at 1.
  eapply triple_bind; [apply follows_passCapability; intros E; simpl in *; by rewrite E|].
  intros ok q ->. destruct ok; simpl; [|apply triple_ret; apply after_call_live].
  change tc with (g_call (with_cap g)) at 1.
  eapply triple_bind; [apply follows_passAction; [done|]; intros E; simpl in *; by rewrite E|].
  intros ok q ->. destruct ok; simpl; [|apply triple_ret; apply after_call_live].
  change tc with (g_call (with_act (with_cap g))) at 1.
  eapply triple_bind; [by apply follows_approve|]. intros a q Ha. destruct a; simpl in Ha.
  - destruct Ha as (g' & -> & E & Hc & Hact & Hh & Hv). simpl in E.
    match goal with |- context [runAdmitted _ ?x] => replace x with (g_call g') by exact E end.
    eapply triple_weaken; [apply follows_runAdmitted; [done|]|].
    + intros E'. rewrite Hv. simpl in *. by rewrite E'.
    + intros r q (c' & ->). apply after_call_live.
  - destruct Ha as (c' & ->). apply triple_ret. apply after_call_live.
  - destruct Ha as (c' & ->). apply triple_ret. by exists c', l.
Qed.

Lemma follows_runCalls fuel c l :
  follows (PLive c l) (runCalls cfg fuel l) (fun _ q => lively tt q).
Proof.
  revert c. induction l as [|tc l IH]; intros c; cbn [runCalls]; [apply triple_ret; by exists c, []|].
  eapply triple_bind; [apply follows_runCall|]. intros [|[]] q Hq; simpl in Hq.
  - destruct Hq as (c' & ->). apply IH.
  - by apply triple_ret.
  - destruct Hq as (c' & ->). apply triple_ret. by exists c', l.
Qed.

Lemma follows_toolStep fuel detect r sm :
  follows (PLive None (r_toolCalls r)) (toolStep cfg fuel detect r sm) (fun _ q => lively tt q).
Proof.
  unfold toolStep. apply triple_stay; [silently|intros _]. do 2 (apply triple_skip; [apply _|intros _]).
  eapply triple_bind; [apply follows_runCalls|]. intros cf q (c & l & ->).
  apply triple_stays; [|by exists c, l]. unfold checkCoherence. silently.
Qed.

Lemma follows_iteration fuel detect t c l :
  follows (PLive c l) (iteration cfg fuel detect t) (fun _ q => lively tt q).
Proof.
  unfold iteration. apply triple_stay; [apply _|intros _]. apply triple_skip; [apply _|intros [|]].
  { apply triple_ret. by exists c, l. }
  do 2 (apply triple_skip; [apply _|intros _]). apply triple_stay; [apply _|intros _].
  eapply triple_bind; [apply follows_askProvider|]. intros rs q ->.
  apply triple_stay; [apply _|intros _]. destruct (r_toolCalls rs.1) as [|tc tcs] eqn:E.
  - apply triple_stays; [apply _|by exists None, []].
  - rewrite <- E. apply follows_toolStep.
Qed.

Lemma follows_loop pf fuel detect t c l :
  follows (PLive c l) (loop cfg pf fuel detect t) (fun _ q => lively tt q).
Proof.
  revert c l. induction fuel as [|fuel IH]; intros c l; cbn [loop].
  { apply triple_stays; [apply _|intros []; by exists c, l]. }
  eapply triple_bind; [apply follows_iteration|]. intros f q (c' & l' & ->).
  destruct f; [apply IH|]. apply triple_ret. by exists c', l'.
Qed.

(** The last phase: [run.finished] has been emitted where there is a sink. *)
Definition finished (q : phase) : Prop := if has_sink cfg then q = PEnded else lively tt q.

Lemma follows_finish r why c l : follows (PLive c l) (finish cfg r why) (fun _ q => finished q).
Proof.
  unfold finish. apply triple_skip; [apply _|intros v]. unfold emit, finished, has_sink.
  destruct (eventSink cfg); [|apply triple_ret; by exists c, l].
  apply triple_skip; [apply _|intros _]. by eapply triple_record; [constructor|].
Qed.

Lemma follows_body pf fuel detect r tid t c l :
  follows (PLive c l) (body cfg pf fuel detect r tid t) (fun _ q => finished q).
Proof.
  unfold body. eapply triple_bind; [apply follows_loop|]. intros _ q (c' & l' & ->).
  do 4 (apply triple_skip; [silently|intros ?]).
  eapply triple_bind; [apply follows_finish|]. intros ? q Hq. by apply triple_ret.
Qed.

Lemma follows_onError r e c l : follows (PLive c l) (onError cfg r e) (fun _ q => finished q).
Proof.
  unfold onError. eapply triple_bind; [apply follows_finish|]. intros ? q Hq.
  intros s Hs. simpl. by exists q.
Qed.

(** A [catch] whose handler works from any live phase. *)
Lemma triple_catch {B} p (m : LoopM W B) h Q :
  follows p m Q -> (forall e c l, follows (PLive c l) (h e) Q) -> follows p (catch m h) Q.
Proof.
  intros Hm Hh s Hs. specialize (Hm s Hs). unfold catch. destruct (m s) as [s' [b|e|]]; [done| |done].
  destruct Hm as (c & l & Hl). exact (Hh e c l s' Hl).
Qed.

Lemma follows_run pf fuel msg tid opts s :
  reaches cfg_guards start_phase s start_phase ->
  match run cfg pf fuel msg tid opts s with
  | (s', Done _) => exists q, finished q /\ reaches cfg_guards start_phase s' q
  | (s', _) => live cfg_guards start_phase s'
  end.
Proof.
  revert s. unfold run. refine (triple_world _ _ _ _ _ _ _). intros runId.
  assert (Hemit : follows start_phase (emit cfg (RunStart runId (agentId cfg) (agentVersion cfg)
    (str_take 32000 (default msg (displayTask opts))) (origin opts) (steerId opts)))
    (fun _ q => q = PLive None [])).
  { unfold emit, start_phase, has_sink. destruct (eventSink cfg) as [f|]; [|by apply triple_ret].
    intros s1 Hs1. simpl. eexists. split; [done|]. eapply pt_snoc; [exact Hs1|constructor]. }
  apply (triple_bind _ _ _ _ _ (fun _ q => finished q) _ Hemit). intros _ q ->.
  apply triple_skip; [apply _|intros detect]. apply triple_skip; [apply _|intros traj].
  apply triple_skip; [apply _|intros _]. apply triple_skip; [apply _|intros t0].
  apply triple_catch; [apply follows_body|intros; apply follows_onError].
Qed.
End Follows.
