(* ===== verification/LoopBounds.v ===== *)
(** Steps and termination of the agent loop: every iteration that goes on has
    added a step, so a run under [maxSteps] makes a bounded number of
    completions and ends, as long as the clock runs. *)

From S2P Require Import Prelude JsNum JsValue Canonical Veto ActionGate Regex Json.
From S2P Require Import WorldState Budget ClaimGuards Coalescer Approval Trackers LoopTypes.
From S2P Require Import AgentLoop.

Open Scope loop_scope.

(** * Step counts never go back *)

Definition is_step (e : LoopEvent) : bool := match e with LComplete _ => true | _ => false end.
Definition steps {W} (s : St W) : Z := count_if is_step (st_trace s).
Definition count_of {W} (s : St W) : Z := stepCount (budget (st_v s)).
Definition limit_of {W} (s : St W) : Z := maxSteps (budget (st_v s)).

(** No completion, a count that only grows, a fixed limit. *)
Record grows {W} (s s' : St W) : Prop := {
  gr_steps : steps s' = steps s;
  gr_count : count_of s <= count_of s';
  gr_limit : limit_of s' = limit_of s
}.

Lemma grows_refl {W} (s : St W) : grows s s.
Proof. by split. Qed.
Lemma grows_trans {W} (s1 s2 s3 : St W) : grows s1 s2 -> grows s2 s3 -> grows s1 s3.
Proof. intros [? ? ?] [? ? ?]. split; congruence || lia. Qed.

Class Grows {W B} (m : LoopM W B) : Prop := grows_by : forall s, grows s (fst (m s)).
#[export] Hint Mode Grows - - ! : typeclass_instances.

(** An assignment that leaves the step count and its limit, or adds to the count. *)
Class Mild (f : Vars -> Vars) : Prop :=
  mild : forall v, stepCount (budget v) <= stepCount (budget (f v)) /\
                   maxSteps (budget (f v)) = maxSteps (budget v).
#[export] Hint Extern 1 (Mild _) => (intros ?; split; [first [apply Z.le_refl | cbn; lia]|reflexivity]) : typeclass_instances.

Class Step_free (e : LoopEvent) : Prop := step_free : is_step e = false.
#[export] Hint Extern 0 (Step_free _) => reflexivity : typeclass_instances.

Section Instances.
Context {W : Type}.

#[export] Instance grows_ret {B} (b : B) : Grows (@ret W B b).
Proof. intros s. apply grows_refl. Qed.
#[export] Instance grows_raise {B} e : Grows (@raise W B e).
Proof. intros s. apply grows_refl. Qed.
#[export] Instance grows_stuck {B} : Grows (@stuck W B).
Proof. intros s. apply grows_refl. Qed.
#[export] Instance grows_vars : Grows (@vars W).
Proof. intros s. apply grows_refl. Qed.
#[export] Instance grows_reads {B} (f : W -> B) : Grows (reads f).
Proof. intros s. apply grows_refl. Qed.
#[export] Instance grows_modify f : Mild f -> Grows (@modify W f).
Proof. intros Hf s. destruct (Hf (st_v s)). by split. Qed.
#[export] Instance grows_world {B} (f : W -> W * B) : Grows (world f).
Proof. intros s. unfold world. by destruct (f (st_w s)). Qed.
#[export] Instance grows_bind {B C} (m : LoopM W B) (f : B -> LoopM W C) :
  Grows m -> (forall b, Grows (f b)) -> Grows (bind m f).
Proof.
  intros Hm Hf s. unfold bind. specialize (Hm s). destruct (m s) as [s' [b|e|]]; simpl in *; [|done..].
  eapply grows_trans; [exact Hm|apply Hf].
Qed.
#[export] Instance grows_of_result {B} (r : result B) : Grows (@of_result W B r).
Proof. destruct r; apply _. Qed.
#[export] Instance grows_attempt {B} (f : W -> W * result B) : Grows (attempt f).
Proof. unfold attempt. apply _. Qed.
#[export] Instance grows_call {B} (f : W -> W * result B) : Grows (call f).
Proof. unfold call. apply _. Qed.

#[export] Instance grows_record e : Step_free e -> Grows (@record W e).
Proof.
  intros He s. split; try done. unfold steps, count_if. simpl. rewrite List.filter_app, length_app. simpl.
  rewrite He. simpl. lia.
Qed.
End Instances.

Ltac growing := repeat first
  [ apply _
  | progress intros
  | match goal with
    | |- Grows (match ?x with _ => _ end) => destruct x
    | |- Grows (bind _ _) => apply grows_bind
    end ].

Section Parts.
Context {W A : Type} (cfg : AgentLoopConfig W A).
Context {PR : Printing} {HA : Hashing} {ML : MathLib}.

#[local] Instance grows_emit e : Grows (emit cfg e).
Proof. unfold emit. growing. Qed.
#[local] Instance grows_best_effort {X} (h : Hook W X) x : Grows (best_effort h x).
Proof. unfold best_effort. growing. Qed.
#[local] Instance grows_push_log r m n : Grows (@push_log W r m n).
Proof. unfold push_log. growing. Qed.
#[local] Instance grows_push_tool tc m : Grows (@push_tool W tc m).
Proof. unfold push_tool. growing. Qed.
#[local] Instance grows_journal_entries append es : Grows (@journal_entries W append es).
Proof. induction es as [|m es IH]; simpl; growing. Qed.
#[local] Instance grows_journal b : Grows (journalNewEntries cfg b).
Proof. unfold journalNewEntries. growing. Qed.
#[local] Instance grows_emit_deltas outs : Grows (emit_deltas cfg outs).
Proof. induction outs as [|o outs IH]; simpl; growing. Qed.
#[local] Instance grows_push_text t a c : Grows (push_text cfg t a c).
Proof. unfold push_text. growing. Qed.
#[local] Instance grows_stream_deltas ds sm : Grows (stream_deltas cfg ds sm).
Proof.
  revert sm. induction ds as [|[chunk a] ds IH]; intros sm; cbn [stream_deltas]; [growing|].
  unfold onDelta. growing.
Qed.
#[local] Instance grows_finalize m sm : Grows (finalize cfg m sm).
Proof. unfold finalize. growing. Qed.
#[local] Instance grows_inject instrs : Grows (inject_instructions cfg instrs).
Proof. induction instrs as [|i instrs IH]; cbn [inject_instructions]; growing. Qed.
#[local] Instance grows_drainInbox : Grows (drainInbox cfg).
Proof. unfold drainInbox. growing. Qed.
#[local] Instance mild_stop r d : Mild (fun v => set_stopReason r (match d with Some _ => set_loopDetail d v | None => v end)).
Proof. intros v. destruct d; cbn; split; [lia|done|lia|done]. Qed.
#[local] Instance grows_stop_with r d : Grows (@stop_with W r d).
Proof. unfold stop_with. growing. Qed.
#[local] Instance grows_checkStops t : Grows (checkStops cfg t).
Proof. unfold checkStops, budget_stop. growing. Qed.
#[local] Instance grows_renew : Grows (renew cfg).
Proof. unfold renew. growing. Qed.
#[local] Instance grows_compaction : Grows (compaction cfg).
Proof. unfold compaction, groundedCompaction, decayCompaction, emergencyCompaction. growing. Qed.
#[local] Instance grows_forceFinalize : Grows (forceFinalize cfg).
Proof. unfold forceFinalize. growing. Qed.
#[local] Instance grows_account r : Grows (account cfg r).
Proof. unfold account. growing. Qed.
#[local] Instance grows_nudge f m d : Mild f -> Grows (@nudge W f m d).
Proof.
  intros Hf. unfold nudge.
  assert (Mild (fun v => set_stepsWithoutTool (stepsWithoutTool v + 1) (f v))) by exact Hf. growing.
Qed.
#[local] Instance grows_finalAnswer m sm : Grows (finalAnswer cfg m sm).
Proof. unfold finalAnswer. growing. Qed.
#[local] Instance grows_refuse tc k r : Grows (refuse cfg tc k r).
Proof. unfold refuse. growing. Qed.
#[local] Instance grows_passCapability tc tool : Grows (passCapability cfg tc tool).
Proof. unfold passCapability. growing. Qed.
#[local] Instance grows_passAction tc : Grows (passAction cfg tc).
Proof. unfold passAction. growing. Qed.
#[local] Instance grows_recheck tc u : Grows (recheck cfg tc u).
Proof. unfold recheck. growing. Qed.
#[local] Instance grows_poll_loop n ch id tc u d p : Grows (poll_loop cfg n ch id tc u d p).
Proof. induction n as [|n IH]; cbn [poll_loop]; growing. Qed.
#[local] Instance grows_awaitApproval n ch tc tool u : Grows (awaitApproval cfg n ch tc tool u).
Proof. unfold awaitApproval. growing. Qed.
#[local] Instance grows_halt r : Grows (halt cfg r).
Proof. unfold halt. growing. Qed.
#[local] Instance grows_approve n tc tool : Grows (approve cfg n tc tool).
Proof. unfold approve, needsApproval. growing. Qed.
#[local] Instance grows_detectCollision tc m : Grows (detectCollision cfg tc m).
Proof. unfold detectCollision, correct, definitive. growing. Qed.
#[local] Instance grows_detectPlateaued tc m : Grows (detectPlateaued cfg tc m).
Proof. unfold detectPlateaued, correct, definitive. growing. Qed.
#[local] Instance grows_observeConfidence : Grows (@observeConfidence W).
Proof. unfold observeConfidence. growing. Qed.
#[local] Instance grows_vetoWindow tc c p : Grows (vetoWindow cfg tc c p).
Proof. unfold vetoWindow. growing. Qed.
#[local] Instance mild_store tc m : Mild (store_result tc m).
Proof. intros v. unfold store_result. destruct (cacheKey tc) as [[|]|]; cbn; split; (lia || done). Qed.
#[local] Instance grows_executeTool tc c p : Grows (executeTool cfg tc c p).
Proof. unfold executeTool. growing. Qed.
#[local] Instance grows_runAdmitted tc : Grows (runAdmitted cfg tc).
Proof. unfold runAdmitted, serveCached. growing. Qed.
#[local] Instance grows_runCall n tc : Grows (runCall cfg n tc).
Proof. unfold runCall. growing. Qed.
#[local] Instance grows_runCalls n tcs : Grows (runCalls cfg n tcs).
Proof. induction tcs as [|tc tcs IH]; cbn [runCalls]; growing. Qed.
#[local] Instance grows_toolStep n d r sm : Grows (toolStep cfg n d r sm).
Proof. unfold toolStep, checkCoherence. growing. Qed.

(** * One iteration *)

Lemma bind_cases {B C} (m : LoopM W B) (f : B -> LoopM W C) s :
  (exists s1 b, m s = (s1, Done b) /\ bind m f s = f b s1) \/
  (exists s1, m s = (s1, snd (m s)) /\ fst (bind m f s) = s1 /\ forall c, snd (bind m f s) <> Done c).
Proof.
  unfold bind. destruct (m s) as [s1 [b|e|]]; [left; by exists s1, b|right; exists s1..]; done.
Qed.

(** A computation before another: where it stops, or how the rest goes on. *)
Lemma grows_then {B C} (m : LoopM W B) (f : B -> LoopM W C) (P : St W * outcome C -> Prop) s :
  Grows m ->
  (forall s1 o, grows s s1 -> (forall c, o <> Done c) -> P (s1, o)) ->
  (forall s1 b, grows s s1 -> m s = (s1, Done b) -> P (f b s1)) -> P (bind m f s).
Proof.
  intros Hm He Hf. specialize (Hm s). unfold bind. destruct (m s) as [s1 [b|e|]] eqn:E; simpl in Hm.
  - by eapply Hf.
  - by apply He.
  - by apply He.
Qed.

(** Either no completion and no next turn, or one completion counted, from
    below the limit. *)
Definition turn (s : St W) (r : St W * outcome flow) : Prop :=
  (grows s r.1 /\ r.2 <> Done Next) \/
  (steps r.1 = steps s + 1 /\ count_of s + 1 <= count_of r.1 /\ limit_of r.1 = limit_of s /\
   (0 < limit_of s -> count_of s < limit_of s)).

Lemma account_counts r s : steps (fst (account cfg r s)) = steps s /\
  count_of s + 1 <= count_of (fst (account cfg r s)) /\ limit_of (fst (account cfg r s)) = limit_of s.
Proof.
  unfold account. unfold bind at 1, modify at 1.
  match goal with |- context [fst (?m ?s1)] =>
    assert (Hg : Grows m) by growing; destruct (Hg s1) as [K1 K2 K3] end.
  split_and!; [exact K1|exact K2|exact K3].
Qed.

(** The answer has been recorded and counted: the rest only grows. *)
Lemma counted_turn s s0 (r : ProviderRouterResponse) (k : LoopM W flow) : Grows k ->
  steps s = steps s0 + 1 -> count_of s0 <= count_of s -> limit_of s = limit_of s0 ->
  (0 < limit_of s0 -> count_of s0 < limit_of s0) ->
  turn s0 (bind (account cfg r) (fun _ => k) s).
Proof.
  intros Hk K1 K2 K3 K4. destruct (account_counts r s) as (E1 & E2 & E3). right. unfold bind.
  destruct (account cfg r s) as [s1 [b|e|]]; simpl in *; [|split_and!; [lia|lia|congruence|done]..].
  destruct (Hk s1) as [G1 G2 G3]. split_and!; [lia|lia|congruence|done].
Qed.

Lemma steps_record e (s : St W) : is_step e = true ->
  steps (mkSt (st_w s) (st_trace s ++ [e]) (st_v s)) = steps s + 1.
Proof.
  intros E. unfold steps, count_if. simpl. rewrite List.filter_app, length_app. simpl. rewrite E. simpl. lia.
Qed.

Lemma ask_turn (k : ProviderRouterResponse * stream -> LoopM W flow) s0 s : (forall rs, Grows (k rs)) ->
  grows s0 s -> (0 < limit_of s0 -> count_of s0 < limit_of s0) ->
  turn s0 (bind (askProvider cfg) (fun rs => bind (account cfg (fst rs)) (fun _ => k rs)) s).
Proof.
  intros Hk Hg Hl. unfold askProvider.
  assert (Hstop : forall (s1 : St W) o, grows s s1 -> (forall c, o <> Done c) -> turn s0 (s1, o)).
  { intros s1 o Hs Ho. left. split; [by eapply grows_trans|apply Ho]. }
  unfold bind at 1.
  set (pre := bind vars _). change (turn s0 (bind pre
    (fun rs => bind (account cfg (fst rs)) (fun _ => k rs)) s)).
  assert (Hpre : match pre s with
    | (s1, Done rs) => steps s1 = steps s + 1 /\ count_of s <= count_of s1 /\ limit_of s1 = limit_of s
    | (s1, _) => grows s s1 end).
  { unfold pre. set (P := fun r : St W * outcome (ProviderRouterResponse * stream) => match r with
      | (s1, Done rs) => steps s1 = steps s + 1 /\ count_of s <= count_of s1 /\ limit_of s1 = limit_of s
      | (s1, _) => grows s s1 end).
    change (P (pre s)). unfold pre. clear pre.
    assert (HP : forall s1 o, grows s s1 -> (forall c, o <> Done c) -> P (s1, o)).
    { intros s1 [b|e|] Hs Ho; simpl; [by destruct (Ho b)|done..]. }
    apply grows_then; [apply _|done|]. intros s1 v G1 _.
    apply grows_then; [apply _|intros; apply HP; [by eapply grows_trans|done]|]. intros s2 c G2 _.
    assert (G2' := grows_trans _ _ _ G1 G2).
    apply grows_then; [growing|intros; apply HP; [by eapply grows_trans|done]|]. intros s3 sm G3 _.
    assert (G3' := grows_trans _ _ _ G2' G3).
    apply grows_then; [apply _|intros; apply HP; [by eapply grows_trans|done]|]. intros s4 r G4 _.
    destruct (grows_trans _ _ _ G3' G4) as [E1 E2 E3].
    cbn -[steps]. rewrite steps_record by done. split_and!; [lia|exact E2|exact E3]. }
  clearbody pre. unfold bind at 1. destruct (pre s) as [s1 [rs|e|]].
  - destruct Hpre as (E1 & E2 & E3). destruct Hg as [F1 F2 F3].
    apply (counted_turn s1 s0 (fst rs)); [apply Hk|lia|lia|congruence|done].
  - apply Hstop; [done|intros c [=]].
  - apply Hstop; [done|intros c [=]].
Qed.

(** The checks let an iteration go on only below the limit. *)
Lemma checkStops_below t s s1 : checkStops cfg t s = (s1, Done false) ->
  0 < limit_of s -> count_of s < limit_of s.
Proof.
  unfold checkStops, budget_stop, reads, bind, vars, limit_of, count_of.
  destruct (abortSignal cfg (st_w s)); [done|]. simpl.
  destruct (_ && (_ <=? _)) eqn:E; [done|]. intros _ Hl. apply andb_false_iff in E as [E|E].
  - apply Z.ltb_ge in E. lia.
  - by apply Z.leb_gt in E.
Qed.

Lemma iteration_turn n detect t s : turn s (iteration cfg n detect t s).
Proof.
  unfold iteration.
  assert (Hstop : forall (s1 : St W) o, grows s s1 -> (forall c, o <> Done c) -> turn s (s1, o)).
  { intros s1 o Hs Ho. left. split; [done|apply Ho]. }
  apply grows_then; [apply _|apply Hstop|]. intros s1 [] G1 _.
  apply grows_then; [apply _|intros; apply Hstop; [by eapply grows_trans|done]|]. intros s2 stop G2 E.
  assert (G12 := grows_trans _ _ _ G1 G2). destruct stop; [left; split; [exact G12|done]|].
  assert (Hl : 0 < limit_of s -> count_of s < limit_of s).
  { destruct G1 as [_ E1 E2]. intros Hs. pose proof (checkStops_below _ _ _ E). lia. }
  apply grows_then; [apply _|intros; apply Hstop; [by eapply grows_trans|done]|]. intros s3 [] G3 _.
  assert (G13 := grows_trans _ _ _ G12 G3).
  apply grows_then; [apply _|intros; apply Hstop; [by eapply grows_trans|done]|]. intros s4 [] G4 _.
  assert (G14 := grows_trans _ _ _ G13 G4).
  apply grows_then; [apply _|intros; apply Hstop; [by eapply grows_trans|done]|]. intros s5 [] G5 _.
  assert (G15 := grows_trans _ _ _ G14 G5).
  apply (ask_turn (fun rs => match r_toolCalls (fst rs) with
    | [] => finalAnswer cfg (r_content (fst rs)) (snd rs)
    | _ => toolStep cfg n detect (fst rs) (snd rs) end)); [|done..].
  intros rs. destruct (r_toolCalls (fst rs)); apply _.
Qed.

(** * A run *)

(** Completions are paid for by the step count, which starts at [c0], under
    the limit [m]. *)
Record paid (c0 m : Z) (s : St W) : Prop := {
  pd_count : steps s + c0 <= count_of s;
  pd_max : limit_of s = m;
  pd_limit : 0 < m -> steps s <= Z.max 0 (m - c0)
}.

Lemma grows_paid c0 m s s' : grows s s' -> paid c0 m s -> paid c0 m s'.
Proof. intros [E1 E2 E3] [P1 P2 P3]. split; [lia|congruence|]. intros Hl. specialize (P3 Hl). lia. Qed.

Lemma turn_paid c0 m s r : turn s r -> paid c0 m s -> paid c0 m r.1.
Proof.
  intros [[G _]|(E1 & E2 & E3 & E4)]; [by apply grows_paid|]. intros [P1 P2 P3].
  split; [lia|congruence|]. intros Hl. rewrite P2 in E4. specialize (E4 Hl). lia.
Qed.

Lemma loop_paid pf n detect t c0 m s : paid c0 m s -> paid c0 m (fst (loop cfg pf n detect t s)).
Proof.
  revert s. induction n as [|n IH]; intros s Hs; cbn [loop]; [done|].
  pose proof (turn_paid c0 m s _ (iteration_turn pf detect t s) Hs) as Ht. unfold bind.
  destruct (iteration cfg pf detect t s) as [s1 [[|]|e|]]; simpl in *; try done. by apply IH.
Qed.

Lemma body_rest_grows (runId traceId : string) : Grows (W := W)
  (let! v := vars in
   journalNewEntries cfg (bool_decide (stopReason v = complete)) ;;;
   let! v := vars in
   (if bool_decide (stopReason v = complete) then
      best_effort (skillCapture cfg) (mkSkill runId traceId (finalMessage v) (stepCount (budget v)))
    else ret tt) ;;;
   finish cfg runId (stopReason v) ;;;
   ret (mkResult (finalMessage v) (stopReason v) (budget v) None (loopDetail v)
          (Some (cumulativeCostUsd v)))).
Proof. unfold finish. growing. Qed.

Lemma body_paid pf n detect r tid t c0 m s : paid c0 m s -> paid c0 m (fst (body cfg pf n detect r tid t s)).
Proof.
  intros Hs. unfold body. pose proof (loop_paid pf n detect t c0 m s Hs) as Hl. unfold bind at 1.
  destruct (loop cfg pf n detect t s) as [s1 [[]|e|]]; simpl in Hl; try done.
  eapply grows_paid; [|exact Hl]. apply (body_rest_grows r tid).
Qed.

#[local] Instance grows_onError r e : Grows (onError cfg r e).
Proof. unfold onError, finish. growing. Qed.

Lemma run_paid pf n msg tid opts c0 m s : paid c0 m s -> paid c0 m (fst (run cfg pf n msg tid opts s)).
Proof.
  intros Hs. unfold run.
  assert (Hend : forall s1 (o : outcome AgentLoopRunResult), grows s s1 ->
    (forall c, o <> Done c) -> paid c0 m (s1, o).1) by (intros s1 o G _; by eapply grows_paid).
  apply (grows_then _ _ (fun r => paid c0 m r.1)); [apply _|done|]. intros s1 r G1 _.
  apply (grows_then _ _ (fun r => paid c0 m r.1)); [apply _|intros; apply Hend; [by eapply grows_trans|done]|].
  intros s2 [] G2 _. assert (G12 := grows_trans _ _ _ G1 G2).
  apply (grows_then _ _ (fun r => paid c0 m r.1)); [apply _|intros; apply Hend; [by eapply grows_trans|done]|].
  intros s3 detect G3 _. assert (G13 := grows_trans _ _ _ G12 G3).
  apply (grows_then _ _ (fun r => paid c0 m r.1)); [apply _|intros; apply Hend; [by eapply grows_trans|done]|].
  intros s4 traj G4 _. assert (G14 := grows_trans _ _ _ G13 G4).
  apply (grows_then _ _ (fun r => paid c0 m r.1)); [apply _|intros; apply Hend; [by eapply grows_trans|done]|].
  intros s5 [] G5 _. assert (G15 := grows_trans _ _ _ G14 G5).
  apply (grows_then _ _ (fun r => paid c0 m r.1)); [apply _|intros; apply Hend; [by eapply grows_trans|done]|].
  intros s6 t G6 _. assert (G16 := grows_trans _ _ _ G15 G6).
  assert (P6 := grows_paid c0 m _ _ G16 Hs). unfold catch.
  pose proof (body_paid pf n detect r tid t c0 m s6 P6) as Hb.
  destruct (body cfg pf n detect r tid t s6) as [s7 [b|e|]]; simpl in Hb; try done.
  eapply grows_paid; [|exact Hb]. apply grows_onError.
Qed.
End Parts.

(** * Termination *)

Open Scope loop_scope.

(** A computation that does not run out of fuel, and what it returns. *)
Definition settles {W B} (m : LoopM W B) (Q : B -> Prop) : Prop := forall s,
  match m s with (_, Done b) => Q b | (_, Raise _) => True | (_, OutOfFuel) => False end.
Class Unstuck {W B} (m : LoopM W B) : Prop := unstuck : settles m (fun _ => True).
#[export] Hint Mode Unstuck - - ! : typeclass_instances.

Section Instances.
Context {W : Type}.

Lemma settled_bind {B C} (m : LoopM W B) (f : B -> LoopM W C) P Q :
  settles m P -> (forall b, P b -> settles (f b) Q) -> settles (bind m f) Q.
Proof.
  intros Hm Hf s. unfold bind. specialize (Hm s). destruct (m s) as [s' [b|e|]]; [|done..].
  apply Hf, Hm.
Qed.
Lemma settles_weaken {B} (m : LoopM W B) (P Q : B -> Prop) :
  settles m P -> (forall b, P b -> Q b) -> settles m Q.
Proof. intros Hm HPQ s. specialize (Hm s). destruct (m s) as [s' [b|e|]]; auto. Qed.
Lemma settles_ret {B} (b : B) (Q : B -> Prop) : Q b -> settles (@ret W B b) Q.
Proof. by intros HQ s. Qed.

#[export] Instance unstuck_ret {B} (b : B) : Unstuck (@ret W B b).
Proof. by intros s. Qed.
#[export] Instance unstuck_raise {B} e : Unstuck (@raise W B e).
Proof. by intros s. Qed.
#[export] Instance unstuck_vars : Unstuck (@vars W).
Proof. by intros s. Qed.
#[export] Instance unstuck_modify f : Unstuck (@modify W f).
Proof. by intros s. Qed.
#[export] Instance unstuck_reads {B} (f : W -> B) : Unstuck (reads f).
Proof. by intros s. Qed.
#[export] Instance unstuck_record e : Unstuck (@record W e).
Proof. by intros s. Qed.
#[export] Instance unstuck_world {B} (f : W -> W * B) : Unstuck (world f).
Proof. intros s. unfold world. by destruct (f (st_w s)). Qed.
#[export] Instance unstuck_bind {B C} (m : LoopM W B) (f : B -> LoopM W C) :
  Unstuck m -> (forall b, Unstuck (f b)) -> Unstuck (bind m f).
Proof. intros Hm Hf. eapply settled_bind; [exact Hm|]. intros b _. apply Hf. Qed.
#[export] Instance unstuck_of_result {B} (r : result B) : Unstuck (@of_result W B r).
Proof. destruct r; apply _. Qed.
#[export] Instance unstuck_attempt {B} (f : W -> W * result B) : Unstuck (attempt f).
Proof. unfold attempt. apply _. Qed.
#[export] Instance unstuck_call {B} (f : W -> W * result B) : Unstuck (call f).
Proof. unfold call. apply _. Qed.
End Instances.

Ltac settling := repeat first
  [ apply _
  | progress intros
  | match goal with
    | |- Unstuck (match ?x with _ => _ end) => destruct x
    | |- Unstuck (bind _ _) => apply unstuck_bind
    end ].

Section Parts.
Context {W A : Type} (cfg : AgentLoopConfig W A).
Context {PR : Printing} {HA : Hashing} {ML : MathLib}.

#[local] Instance unstuck_emit e : Unstuck (emit cfg e).
Proof. unfold emit. settling. Qed.
#[local] Instance unstuck_best_effort {X} (h : Hook W X) x : Unstuck (best_effort h x).
Proof. unfold best_effort. settling. Qed.
#[local] Instance unstuck_push_log r m n : Unstuck (@push_log W r m n).
Proof. unfold push_log. settling. Qed.
#[local] Instance unstuck_push_tool tc m : Unstuck (@push_tool W tc m).
Proof. unfold push_tool. settling. Qed.
#[local] Instance unstuck_journal_entries append es : Unstuck (@journal_entries W append es).
Proof. induction es as [|m es IH]; simpl; settling. Qed.
#[local] Instance unstuck_journal b : Unstuck (journalNewEntries cfg b).
Proof. unfold journalNewEntries. settling. Qed.
#[local] Instance unstuck_emit_deltas outs : Unstuck (emit_deltas cfg outs).
Proof. induction outs as [|o outs IH]; simpl; settling. Qed.

(** The coalescers of a step have the default bound, for which the size loop
    ends on the text in hand. *)
Definition usable (c : TextDeltaCoalescer) : Prop := (2 <= c_maxChars c)%nat.
Definition usable_stream (sm : stream) : Prop :=
  match sm_coalescer sm with Some c => usable c | None => True end.

Lemma usable_ensure t sm : usable_stream sm -> usable (ensureCoalescer t sm).
Proof.
  unfold usable_stream, ensureCoalescer, usable. destruct (sm_coalescer sm); [done|]. intros _. simpl.
  apply Nat.leb_le. vm_compute. done.
Qed.

Lemma push_text_settles t a c : usable c -> settles (push_text cfg t a c) usable.
Proof.
  intros Hc. unfold push_text.
  assert (Hp : exists outs c', push (length (c_buffer c ++ t)) t a c = Some (outs, c') /\
    c_maxChars c' = c_maxChars c).
  { unfold push. destruct (length t =? 0)%nat; [by exists [], c|].
    destruct (drain_flushed (c_maxChars c) a (length (c_buffer c ++ t)) (c_buffer c ++ t)
      (c_lastFlushAt c) Hc ltac:(lia)) as (outs & rest & at' & -> & _).
    cbv beta iota delta [mbind option_bind]. destruct (andb _ _); [|by eexists outs, _].
    destruct (emit_chunk rest a at') as [out at'']. by eexists _, _. }
  destruct Hp as (outs & c' & -> & E). eapply settled_bind; [apply (unstuck_emit_deltas outs)|].
  intros _ _. apply settles_ret. unfold usable. by rewrite E.
Qed.

Lemma stream_deltas_settles ds sm : usable_stream sm -> settles (stream_deltas cfg ds sm) usable_stream.
Proof.
  revert sm. induction ds as [|[chunk a] ds IH]; intros sm Hs; cbn [stream_deltas]; [by apply settles_ret|].
  eapply (settled_bind _ _ usable_stream); [|intros sm' Hs'; by apply IH].
  unfold onDelta. destruct (chunk =? "")%string; [by apply settles_ret|].
  eapply settled_bind; [by apply push_text_settles, usable_ensure|]. intros c Hc. by apply settles_ret.
Qed.

Lemma finalize_unstuck m sm : usable_stream sm -> Unstuck (finalize cfg m sm).
Proof.
  intros Hs. unfold finalize. destruct (eventSink cfg); [|apply _].
  destruct (m =? "")%string; [apply _|]. apply unstuck_bind; [apply _|intros t].
  destruct (sm_streamed sm); [apply _|].
  eapply settled_bind; [by apply push_text_settles, usable_ensure|]. intros c _. apply unstuck_emit_deltas.
Qed.

#[local] Instance unstuck_inject instrs : Unstuck (inject_instructions cfg instrs).
Proof. induction instrs as [|i instrs IH]; cbn [inject_instructions]; settling. Qed.
#[local] Instance unstuck_drainInbox : Unstuck (drainInbox cfg).
Proof. unfold drainInbox. settling. Qed.
#[local] Instance unstuck_stop_with r d : Unstuck (@stop_with W r d).
Proof. unfold stop_with. settling. Qed.
#[local] Instance unstuck_checkStops t : Unstuck (checkStops cfg t).
Proof. unfold checkStops, budget_stop. settling. Qed.
#[local] Instance unstuck_renew : Unstuck (renew cfg).
Proof. unfold renew. settling. Qed.
#[local] Instance unstuck_compaction : Unstuck (compaction cfg).
Proof. unfold compaction, groundedCompaction, decayCompaction, emergencyCompaction. settling. Qed.
#[local] Instance unstuck_forceFinalize : Unstuck (forceFinalize cfg).
Proof. unfold forceFinalize. settling. Qed.
#[local] Instance unstuck_account r : Unstuck (account cfg r).
Proof. unfold account. settling. Qed.

Lemma askProvider_settles : settles (askProvider cfg) (fun rs => usable_stream (snd rs)).
Proof.
  unfold askProvider. eapply settled_bind; [apply unstuck_vars|intros v _].
  eapply settled_bind; [apply unstuck_world|intros c _].
  eapply (settled_bind _ _ usable_stream).
  { destruct (has_sink cfg); [by apply stream_deltas_settles|by apply settles_ret]. }
  intros sm Hs. eapply settled_bind; [apply unstuck_of_result|intros r _].
  eapply settled_bind; [apply unstuck_record|intros _ _]. by apply settles_ret.
Qed.

Lemma finalAnswer_unstuck m sm : usable_stream sm -> Unstuck (finalAnswer cfg m sm).
Proof.
  intros Hs. pose proof (fun m => finalize_unstuck m sm Hs). unfold finalAnswer, nudge.
  apply unstuck_bind; [apply _|intros v]. cbv zeta. destruct (_ && _); [settling|].
  destruct (_ && _); settling.
Qed.

(** * The clock *)

(** [setTimeout] waits at least its delay, and no call turns the clock back
    while an approval is pending. *)
Record ClockLaws : Prop := {
  cl_sleep : forall ms w, 0 <= ms -> now cfg w + ms <= now cfg (sleep cfg ms w);
  cl_gate : forall verify c w, actionGate cfg = Some verify -> now cfg w <= now cfg (fst (verify c w));
  cl_poll : forall ch id w, approvalChannel cfg = Some ch -> now cfg w <= now cfg (fst (poll ch id w));
  cl_interval : 1 <= default 500 (approvalPollIntervalMs cfg)
}.

Context (CL : ClockLaws).

Lemma recheck_cases tc u s : exists w r,
  recheck cfg tc u s = (mkSt w (st_trace s) (st_v s), Done r) /\ now cfg (st_w s) <= now cfg w.
Proof.
  unfold recheck. destruct (actionGate cfg) as [verify|] eqn:E.
  - pose proof (cl_gate CL verify (gate_call tc u) (st_w s) E) as Hc.
    unfold bind, attempt, world. destruct (verify _ (st_w s)) as [w r]. simpl in Hc. by eexists w, _.
  - exists (st_w s), None. destruct s. split; [done|lia].
Qed.

Lemma poll_loop_unstuck n ch id tc u deadline pollMs s :
  approvalChannel cfg = Some ch -> pollMs = default 500 (approvalPollIntervalMs cfg) ->
  deadline - now cfg (st_w s) <= Z.of_nat n ->
  snd (poll_loop cfg n ch id tc u deadline pollMs s) <> OutOfFuel.
Proof.
  intros Hch Hms. revert s. induction n as [|n IH]; intros s Hn; cbn [poll_loop];
    unfold bind at 1, reads at 1; destruct (deadline <=? now cfg (st_w s)) eqn:E.
  1, 3: unfold bind, attempt, world; destruct (ch_cancel ch id (st_w s)); done.
  { apply Z.leb_gt in E. lia. }
  apply Z.leb_gt in E. destruct (recheck_cases tc u s) as (w & r & Er & Hw).
  unfold bind at 1. rewrite Er. destruct r as [[kind reason]|].
  { unfold bind, attempt, world. simpl. by destruct (ch_cancel ch id w). }
  unfold call. unfold bind at 2, world at 1. cbn [st_w].
  pose proof (cl_poll CL ch id w Hch) as Hp. unfold bind at 1. cbn [st_w].
  destruct (poll ch id w) as [w1 [[a|]|e]]; cbn -[poll_loop]; [done| |done]. simpl in Hp. apply IH. cbn [st_w].
  pose proof (cl_sleep CL pollMs w1) as Hs. pose proof (cl_interval CL) as Hi.
  rewrite <- Hms in Hi. specialize (Hs ltac:(lia)). lia.
Qed.

Context (pf : nat) (Hpf : timeoutMs cfg <= Z.of_nat pf).

Lemma awaitApproval_unstuck ch tc tool u : approvalChannel cfg = Some ch ->
  Unstuck (awaitApproval cfg pf ch tc tool u).
Proof.
  intros Hch. unfold awaitApproval. apply unstuck_bind; [apply _|intros id]. intros s.
  unfold bind, reads.
  pose proof (poll_loop_unstuck pf ch id tc u (now cfg (st_w s) + timeoutMs cfg)
    (default 500 (approvalPollIntervalMs cfg)) s Hch eq_refl ltac:(lia)) as Hn.
  destruct (poll_loop _ _ _ _ _ _ _ _ s) as [s' [b|e|]]; done.
Qed.

#[local] Instance unstuck_refuse tc k r : Unstuck (refuse cfg tc k r).
Proof. unfold refuse. settling. Qed.
#[local] Instance unstuck_passCapability tc tool : Unstuck (passCapability cfg tc tool).
Proof. unfold passCapability. settling. Qed.
#[local] Instance unstuck_passAction tc : Unstuck (passAction cfg tc).
Proof. unfold passAction. settling. Qed.
#[local] Instance unstuck_halt r : Unstuck (halt cfg r).
Proof. unfold halt. settling. Qed.
#[local] Instance unstuck_needs tc d : Unstuck (needsApproval cfg tc d).
Proof. unfold needsApproval. settling. Qed.
#[local] Instance unstuck_approve tc tool : Unstuck (approve cfg pf tc tool).
Proof.
  unfold approve. apply unstuck_bind; [apply _|intros needs]. destruct (negb needs); [apply _|].
  destruct (approvalChannel cfg) as [ch|] eqn:E; [|apply _].
  pose proof (fun tool u => awaitApproval_unstuck ch tc tool u E). settling.
Qed.
#[local] Instance unstuck_detectCollision tc m : Unstuck (detectCollision cfg tc m).
Proof. unfold detectCollision, correct, definitive. settling. Qed.
#[local] Instance unstuck_detectPlateaued tc m : Unstuck (detectPlateaued cfg tc m).
Proof. unfold detectPlateaued, correct, definitive. settling. Qed.
#[local] Instance unstuck_observeConfidence : Unstuck (@observeConfidence W).
Proof. unfold observeConfidence. settling. Qed.
#[local] Instance unstuck_vetoWindow tc c p : Unstuck (vetoWindow cfg tc c p).
Proof. unfold vetoWindow. settling. Qed.
#[local] Instance unstuck_executeTool tc c p : Unstuck (executeTool cfg tc c p).
Proof. unfold executeTool. settling. Qed.
#[local] Instance unstuck_runAdmitted tc : Unstuck (runAdmitted cfg tc).
Proof. unfold runAdmitted, serveCached. settling. Qed.
#[local] Instance unstuck_runCall tc : Unstuck (runCall cfg pf tc).
Proof. unfold runCall. settling. Qed.
#[local] Instance unstuck_runCalls tcs : Unstuck (runCalls cfg pf tcs).
Proof. induction tcs as [|tc tcs IH]; cbn [runCalls]; settling. Qed.
Lemma toolStep_unstuck d r sm : usable_stream sm -> Unstuck (toolStep cfg pf d r sm).
Proof.
  intros Hs. pose proof (fun m => finalize_unstuck m sm Hs). unfold toolStep, checkCoherence. settling.
Qed.

#[local] Instance iteration_unstuck d t : Unstuck (iteration cfg pf d t).
Proof.
  unfold iteration. apply unstuck_bind; [apply _|intros _]. apply unstuck_bind; [apply _|intros [|]]; [apply _|].
  do 3 (apply unstuck_bind; [apply _|intros _]). eapply settled_bind; [apply askProvider_settles|].
  intros [r sm] Hs. apply unstuck_bind; [apply _|intros _]. simpl in *.
  destruct (r_toolCalls r); [by apply finalAnswer_unstuck|by apply toolStep_unstuck].
Qed.

(** * The iterations *)

Lemma loop_unstuck n d t s : 0 < limit_of s -> Z.max 0 (limit_of s - count_of s) < Z.of_nat n ->
  snd (loop cfg pf n d t s) <> OutOfFuel.
Proof.
  revert s. induction n as [|n IH]; intros s Hl Hn; [lia|]. cbn [loop]. unfold bind.
  pose proof (iteration_unstuck d t s) as Hu. pose proof (iteration_turn cfg pf d t s) as Ht.
  destruct (iteration cfg pf d t s) as [s1 [[|]|e|]]; try done.
  destruct Ht as [[_ Hne]|(_ & E2 & E3 & E4)]; [done|]. simpl in *. specialize (E4 Hl).
  apply IH; rewrite E3; lia.
Qed.

Lemma onError_done r e s : exists s' res, onError cfg r e s = (s', Done res).
Proof.
  unfold onError, finish, bind, vars, emit. destruct (eventSink cfg); simpl; by eexists _, _.
Qed.

Lemma body_rest_unstuck (runId traceId : string) : Unstuck (W := W)
  (let! v := vars in
   journalNewEntries cfg (bool_decide (stopReason v = complete)) ;;;
   let! v := vars in
   (if bool_decide (stopReason v = complete) then
      best_effort (skillCapture cfg) (mkSkill runId traceId (finalMessage v) (stepCount (budget v)))
    else ret tt) ;;;
   finish cfg runId (stopReason v) ;;;
   ret (mkResult (finalMessage v) (stopReason v) (budget v) None (loopDetail v)
          (Some (cumulativeCostUsd v)))).
Proof. unfold finish. settling. Qed.

Lemma caught_done n d r tid t s : 0 < limit_of s -> Z.max 0 (limit_of s - count_of s) < Z.of_nat n ->
  exists s' res, catch (body cfg pf n d r tid t) (onError cfg r) s = (s', Done res).
Proof.
  intros Hl Hn. unfold catch, body. pose proof (loop_unstuck n d t s Hl Hn) as Hu. unfold bind at 1.
  destruct (loop cfg pf n d t s) as [s1 [[]|e|]]; [|apply onError_done|done].
  pose proof (body_rest_unstuck r tid s1) as Hr.
  match goal with |- context [match ?m s1 with _ => _ end] => change (match m s1 with
    | (_, Done _) => True | (_, Raise _) => True | (_, OutOfFuel) => False end) in Hr;
    destruct (m s1) as [s2 [res|e|]] end; [by eexists _, _|apply onError_done|done].
Qed.

(** A first part that returns and leaves the locals' budget alone. *)
Lemma done_bind {B C} (m : LoopM W B) (f : B -> LoopM W C) s :
  (exists s1 b, m s = (s1, Done b) /\ budget (st_v s1) = budget (st_v s)) ->
  (forall s1 b, budget (st_v s1) = budget (st_v s) -> exists s' r, f b s1 = (s', Done r)) ->
  exists s' r, bind m f s = (s', Done r).
Proof. intros (s1 & b & E & Hb) Hf. unfold bind. rewrite E. by apply Hf. Qed.

Lemma newTrajectory_default : exists traj, newTrajectory None None None = Ok traj.
Proof. eexists. vm_compute. reflexivity. Qed.

Lemma run_done n m tid opts s :
  0 < limit_of s -> Z.max 0 (limit_of s - count_of s) < Z.of_nat n ->
  is_ok (createCoherenceDetector (loopDetectionWindow cfg) (stallThreshold cfg)) = true ->
  exists s' res, run cfg pf n m tid opts s = (s', Done res).
Proof.
  intros Hl Hn Hd. unfold run. destruct newTrajectory_default as [traj ->].
  destruct (createCoherenceDetector _ _) as [detect|e]; [clear Hd|done].
  apply done_bind.
  { unfold world. destruct (cryptoRandomId cfg (st_w s)) as [w i]. by eexists _, i. }
  intros s1 r E1. apply done_bind.
  { unfold emit. destruct (eventSink cfg); by eexists _, tt. }
  intros s2 [] E2. apply done_bind; [by eexists s2, detect|]. intros s3 d E3.
  apply done_bind; [by eexists s3, traj|]. intros s4 tr E4.
  apply done_bind; [by eexists _, tt|]. intros s5 [] E5.
  apply done_bind; [by eexists s5, _|]. intros s6 t E6.
  unfold limit_of, count_of in *. apply caught_done; unfold limit_of, count_of; congruence.
Qed.
End Parts.
