(* ===== verification/AgentLoopProps.v ===== *)
(** What the agent loop guarantees ([loop/minimal-loop.ts]): the order of its
    interactions, what a tool call went through before it ran, how many steps a
    run takes, and that it ends. *)

From S2P Require Import Prelude JsNum JsValue Canonical Veto ActionGate Regex Json.
From S2P Require Import WorldState Budget BudgetProps ClaimGuards Coalescer Approval.
From S2P Require Import Trackers LoopTypes AgentLoop LoopProtocol LoopBounds.

Open Scope loop_scope.

(** * What the protocol says of an executed call *)

(** The part of a history that concerns the call taken up last. *)
Definition no_get (t : list LoopEvent) : Prop :=
  Forall (fun e => match e with LGet _ _ => False | _ => True end) t.

Definition human_evidence (tc : ToolCall) (d : bool) (mid : list LoopEvent) : Prop :=
  d = false \/ LPredicate tc false ∈ mid \/ LApproval tc WApproved ∈ mid.

(** The grants of a phase are backed by verdicts since the call was taken up. *)
Record backed (gs : guards) (t : list LoopEvent) (g : grants) : Prop := {
  bk : exists before d mid,
    t = before ++ LGet (g_call g) d :: mid /\ no_get mid /\
    (g_cap g = true -> has_capability gs = true -> LCapability (g_call g) true ∈ mid) /\
    (g_act g = true -> has_action gs = true -> LAction (g_call g) true ∈ mid) /\
    (g_human g = true -> human_evidence (g_call g) d mid) /\
    (g_veto g = true -> has_veto gs = true -> LVeto (g_call g) false ∈ mid)
}.

Lemma human_evidence_mono tc d mid e : human_evidence tc d mid -> human_evidence tc d (mid ++ [e]).
Proof. unfold human_evidence. rewrite !elem_of_app. tauto. Qed.

(** An event that is not a new call keeps the evidence; [g'] may claim what
    [e] adds. *)
Lemma backed_snoc gs t g g' e : backed gs t g -> g_call g' = g_call g ->
  match e with LGet _ _ => False | _ => True end ->
  (g_cap g' = true -> g_cap g = true \/ e = LCapability (g_call g) true) ->
  (g_act g' = true -> g_act g = true \/ e = LAction (g_call g) true) ->
  (g_human g' = true -> g_human g = true \/ e = LPredicate (g_call g) false \/
     e = LApproval (g_call g) WApproved) ->
  (g_veto g' = true -> g_veto g = true \/ e = LVeto (g_call g) false) ->
  backed gs (t ++ [e]) g'.
Proof.
  intros [(before & d & mid & -> & Hn & Hc & Ha & Hh & Hv)] Ec He Ic Ia Ih Iv. split.
  exists before, d, (mid ++ [e]). rewrite Ec. rewrite <- app_assoc. split_and!.
  - done.
  - apply Forall_app. split; [done|]. by constructor.
  - intros E Hg. rewrite elem_of_app, list_elem_of_singleton. destruct (Ic E) as [E'| ->]; auto.
  - intros E Hg. rewrite elem_of_app, list_elem_of_singleton. destruct (Ia E) as [E'| ->]; auto.
  - intros E. destruct (Ih E) as [E'|[->| ->]]; [by apply human_evidence_mono, Hh|..];
      unfold human_evidence; rewrite !elem_of_app, !list_elem_of_singleton; auto.
  - intros E Hg. rewrite elem_of_app, list_elem_of_singleton. destruct (Iv E) as [E'| ->]; auto.
Qed.

Lemma fresh_backed gs t tc d : backed gs (t ++ [LGet tc d]) (fresh_grants gs tc d).
Proof.
  split. exists t, d, []. cbn. split; [done|split; [by constructor|split; [|split; [|split]]]].
  1, 2, 4: intros E1 E2; by rewrite E2 in E1.
  intros E. left. by destruct d.
Qed.

Lemma ptrace_backed gs t q : forall p, p = PInit \/ p = PLive None [] ->
  ptrace gs p t q -> match q with PLive (Some g) _ => backed gs t g | _ => True end.
Proof.
  intros p Hp Ht. induction Ht as [p|p t q e r Ht IH Hs]; [by destruct Hp as [->| ->]|].
  specialize (IH Hp). destruct Hs as [| ev c l He | | tc d c l | | | | | | | | | | | |]; try done;
    try (destruct c as [g|]; [|done]); try apply fresh_backed;
    (apply (backed_snoc _ _ _ _ _ IH); simpl; try done; auto).
  destruct needs; simpl; [done|auto].
Qed.

(** The situation, after the history [t], of the event [e] that runs [tc] or
    answers it from the cache: [mid] is all that has happened since the loop took
    the call up. *)
Definition granted_before (gs : guards) (t : list LoopEvent) (e : LoopEvent) (tc : ToolCall) : Prop :=
  exists before d mid, t = before ++ LGet tc d :: mid /\ no_get mid /\
    (has_capability gs = true -> LCapability tc true ∈ mid) /\
    (has_action gs = true -> LAction tc true ∈ mid) /\
    human_evidence tc d mid /\
    (e = LExecute tc -> has_veto gs = true -> LVeto tc false ∈ mid).

Lemma ptrace_prefix gs p t1 t2 q : ptrace gs p (t1 ++ t2) q -> exists r, ptrace gs p t1 r.
Proof.
  revert q. induction t2 as [|e t2 IH] using rev_ind; intros q.
  - rewrite app_nil_r. by exists q.
  - rewrite app_assoc. intros Ht. inversion Ht as [? E1 E2|? ? r ? ? Hr]; simplify_list_eq; [|by eapply IH].
    by destruct t1, t2.
Qed.

Lemma ptrace_last gs p t e q : ptrace gs p (t ++ [e]) q -> exists r, ptrace gs p t r /\ pstep gs r e q.
Proof.
  intros Ht. inversion Ht as [? E1 E2|? ? r ? ? Hr Hs]; simplify_list_eq; [by destruct t|by exists r].
Qed.

Lemma ptrace_granted gs p t1 e t2 q tc : p = PInit \/ p = PLive None [] ->
  ptrace gs p (t1 ++ e :: t2) q -> (e = LExecute tc \/ e = LCacheHit tc) ->
  granted_before gs t1 e tc.
Proof.
  intros Hp Ht He. change (e :: t2) with ([e] ++ t2) in Ht. rewrite app_assoc in Ht.
  apply ptrace_prefix in Ht as (r & Ht). apply ptrace_last in Ht as (r0 & Ht & Hs).
  pose proof (ptrace_backed gs t1 r0 p Hp Ht) as Hb.
  destruct He as [->| ->]; inversion Hs; subst;
    destruct Hb as [(before & d & mid & -> & Hn & Hc & Ha & Hh & Hv)].
  - exists before, d, mid. split_and!; auto.
  - exists before, d, mid. split_and!; auto. done.
Qed.

Section Run.
Context {W A : Type} (cfg : AgentLoopConfig W A).
Context {PR : Printing} {HA : Hashing} {ML : MathLib}.

Lemma runFrom_phase pf n b msg tid opts w :
  let '(s, o) := runFrom cfg pf n b msg tid opts w in
  exists q, ptrace (cfg_guards cfg) (start_phase cfg) (st_trace s) q /\
    match o with Done _ => finished cfg q | _ => q <> PEnded end.
Proof.
  unfold runFrom.
  pose proof (follows_run cfg pf n msg tid opts (mkSt w [] (initial_vars cfg msg b))) as H.
  destruct (run _ _ _ _ _ _ _) as [s [r|e|]]; specialize (H (pt_nil _ _)).
  - destruct H as (q & Hf & Hq). by exists q.
  - destruct H as (c & l & Hq). by exists (PLive c l).
  - destruct H as (c & l & Hq). by exists (PLive c l).
Qed.

(** C5: every history of a run is a history of the protocol: whatever the
    provider, the gates, the human, the tools and the clock answer, and wherever
    the fuel is cut, the loop's interactions in order form a path of the
    transition system [pstep] from its start; when the run returns, with or
    without an error, [run.finished] has been emitted exactly once, last. *)
Theorem run_follows_protocol pf n b msg tid opts w :
  let '(s, o) := runFrom cfg pf n b msg tid opts w in
  exists q, ptrace (cfg_guards cfg) (start_phase cfg) (st_trace s) q /\
    match o with Done _ => finished cfg q | _ => q <> PEnded end.
Proof. apply runFrom_phase. Qed.

(** C6: a tool call runs, or is answered from the cache, only after everything
    that guards it: the call was taken up, and since then the capability gate
    answered that it is allowed (if there is one), and so did the action gate
    (if there is one), a dangerous tool was waived by the predicate's answer or
    approved by a human, and, for an execution under a veto window, the window
    held for this taking up of the call closed without a veto. *)
Theorem executed_only_granted pf n b msg tid opts w t1 e t2 tc :
  st_trace (fst (runFrom cfg pf n b msg tid opts w)) = t1 ++ e :: t2 ->
  e = LExecute tc \/ e = LCacheHit tc ->
  granted_before (cfg_guards cfg) t1 e tc.
Proof.
  intros Ht He. pose proof (runFrom_phase pf n b msg tid opts w) as H.
  destruct (runFrom cfg pf n b msg tid opts w) as [s o]. destruct H as (q & Hq & _). simpl in Ht.
  rewrite Ht in Hq. eapply ptrace_granted; [|exact Hq|exact He].
  unfold start_phase. destruct (has_sink cfg); auto.
Qed.

(** C10: the step budget holds: under a positive [maxSteps] a run asks the
    provider for at most [maxSteps] steps, less those the budget object had
    already counted, whatever the tools and vetoes add to the count. *)
Theorem steps_bounded pf n b msg tid opts w : 0 < maxSteps b ->
  steps (fst (runFrom cfg pf n b msg tid opts w)) <= Z.max 0 (maxSteps b - stepCount b).
Proof.
  intros Hm. unfold runFrom.
  assert (Hp : paid (stepCount b) (maxSteps b) (mkSt w [] (initial_vars cfg msg b))).
  { split; [done|done|]. unfold steps, count_if. simpl. lia. }
  destruct (run_paid cfg pf n msg tid opts _ _ _ Hp) as [_ _ Hl]. exact (Hl Hm).
Qed.

(** C11: a bounded run ends: under a positive [maxSteps], a clock that never goes
    back and sleeps that last, fuel for the remaining steps plus one and for one
    tick per millisecond of the approval timeout is enough, and the run returns
    a result, unless the detector's thresholds are refused. *)
Theorem run_ends pf n b msg tid opts w :
  ClockLaws cfg -> 0 < maxSteps b ->
  Z.max 0 (maxSteps b - stepCount b) < Z.of_nat n -> timeoutMs cfg <= Z.of_nat pf ->
  is_ok (createCoherenceDetector (loopDetectionWindow cfg) (stallThreshold cfg)) = true ->
  exists s res, runFrom cfg pf n b msg tid opts w = (s, Done res).
Proof. intros CL Hm Hn Hpf Hd. unfold runFrom. by apply run_done. Qed.

(** * Waiting for a human *)

(** C12: an approval is never assumed: the wait ends in [approved] only when the
    channel's poll returned an approving verdict at a time before the deadline,
    in a tick where the action gate, asked again, had not denied the call; and
    an expired wait is a timeout. *)
Theorem approval_fail_closed n ch id tc used deadline pollMs s :
  (deadline <= now cfg (st_w s) ->
   snd (poll_loop cfg n ch id tc used deadline pollMs s) = Done WTimeout) /\
  (snd (poll_loop cfg n ch id tc used deadline pollMs s) = Done WApproved ->
   exists s0 w a, now cfg (st_w s0) < deadline /\
     snd (recheck cfg tc used s0) = Done None /\ w = st_w (fst (recheck cfg tc used s0)) /\
     snd (poll ch id w) = Ok (Some a) /\ approved a = true).
Proof.
  split.
  - intros Hd. destruct n; cbn [poll_loop]; unfold bind at 1, reads at 1;
      rewrite (proj2 (Z.leb_le _ _) Hd); unfold bind, attempt, world; by destruct (ch_cancel ch id (st_w s)).
  - revert s. induction n as [|n IH]; intros s; cbn [poll_loop]; unfold bind at 1, reads at 1;
      destruct (deadline <=? now cfg (st_w s)) eqn:E.
    1, 3: unfold bind, attempt, world; by destruct (ch_cancel ch id (st_w s)).
    { done. }
    apply Z.leb_gt in E. destruct (recheck cfg tc used s) as [s1 [[[k r]|]|e|]] eqn:Er;
      unfold bind at 1; rewrite Er; [| |done..].
    { unfold bind, attempt, world. by destruct (ch_cancel ch id (st_w s1)). }
    unfold call. unfold bind at 2, world at 1. unfold bind at 1.
    destruct (poll ch id (st_w s1)) as [w1 [[a|]|e]] eqn:Ep; cbn -[poll_loop]; [| |done].
    + intros Ha. exists s, (st_w s1), a. rewrite Er, Ep. split_and!; try done.
      unfold wait_verdict in Ha. destruct (approved a); [done|]. by destruct (timedOut a).
    + apply IH.
Qed.
End Run.

(** * The last answer *)

(** Computations that leave the locals alone. *)
Class Pure_vars {W B} (m : LoopM W B) : Prop := pure_vars : forall s, st_v (fst (m s)) = st_v s.
#[export] Hint Mode Pure_vars - - ! : typeclass_instances.

Section Pure.
Context {W A : Type} (cfg : AgentLoopConfig W A).

#[export] Instance pure_ret {B} (b : B) : Pure_vars (@ret W B b).
Proof. by intros s. Qed.
#[export] Instance pure_stuck {B} : Pure_vars (@stuck W B).
Proof. by intros s. Qed.
#[export] Instance pure_reads {B} (f : W -> B) : Pure_vars (reads f).
Proof. by intros s. Qed.
#[export] Instance pure_record e : Pure_vars (@record W e).
Proof. by intros s. Qed.
#[export] Instance pure_world {B} (f : W -> W * B) : Pure_vars (world f).
Proof. intros s. unfold world. by destruct (f (st_w s)). Qed.
#[export] Instance pure_bind {B C} (m : LoopM W B) (f : B -> LoopM W C) :
  Pure_vars m -> (forall b, Pure_vars (f b)) -> Pure_vars (bind m f).
Proof.
  intros Hm Hf s. unfold bind. specialize (Hm s). destruct (m s) as [s' [b|e|]]; simpl in *; [|done..].
  rewrite <- Hm. apply Hf.
Qed.
#[export] Instance pure_emit e : Pure_vars (emit cfg e).
Proof. unfold emit. destruct (eventSink cfg); apply _. Qed.
#[export] Instance pure_emit_deltas outs : Pure_vars (emit_deltas cfg outs).
Proof. induction outs; simpl; apply _. Qed.
#[export] Instance pure_push_text t a c : Pure_vars (push_text cfg t a c).
Proof. unfold push_text. destruct (push _ _ _ _) as [[? ?]|]; apply _. Qed.
#[export] Instance pure_finalize m sm : Pure_vars (finalize cfg m sm).
Proof.
  unfold finalize. destruct (eventSink cfg); [|apply _]. destruct (_ =? _)%string; [apply _|].
  apply pure_bind; [apply _|]. intros t. destruct (sm_streamed sm); apply _.
Qed.
End Pure.

Section Final.
Context {W A : Type} (cfg : AgentLoopConfig W A).

(** The locals after a nudge. *)
Definition nudged (v v' : Vars) (content : string) : Prop :=
  map e_msg (log v') = map e_msg (log v) ++ [mkMsg assistant content None; mkMsg user
    (if narratedToolCallNudges v' =? narratedToolCallNudges v then MEMORY_DIRECTIVE
     else NARRATED_DIRECTIVE (unexecutedToolCallMarkers content)) None] /\
  stopReason v' = stopReason v.

(** An answer without tool calls either ends the run or is sent back once:
    it is sent back the first time it contains a tool call written as text, and
    the first time it reports an absence from memory that no lookup observed;
    otherwise the run is complete, and the message shown is the answer, preceded
    by a warning when the absence is still unobserved. *)
Theorem final_answer_qualified content sm s :
  let v := st_v s in
  let narrated := unexecutedToolCallMarkers content <> [] in
  let unobserved := unobservedMemoryClaimWarning content (memoryLookupRan v) <> None in
  match finalAnswer cfg content sm s with
  | (s', Done Next) =>
      nudged v (st_v s') content /\
      ((narrated /\ narratedToolCallNudges v < 1 /\
        narratedToolCallNudges (st_v s') = narratedToolCallNudges v + 1 /\
        unobservedMemoryNudges (st_v s') = unobservedMemoryNudges v) \/
       (unobserved /\ unobservedMemoryNudges v < 1 /\
        unobservedMemoryNudges (st_v s') = unobservedMemoryNudges v + 1 /\
        narratedToolCallNudges (st_v s') = narratedToolCallNudges v))
  | (s', Done Stop) =>
      stopReason (st_v s') = complete /\
      finalMessage (st_v s') = shown_message content (memoryLookupRan v) /\
      (narrated -> 1 <= narratedToolCallNudges v) /\ (unobserved -> 1 <= unobservedMemoryNudges v)
  | _ => True
  end.
Proof.
  cbv zeta. unfold finalAnswer. unfold bind at 1, vars at 1. cbv zeta.
  destruct ((0 <? length (unexecutedToolCallMarkers content))%nat && _) eqn:En.
  { apply andb_true_iff in En as [Hn%Nat.ltb_lt Hc%Z.ltb_lt].
    unfold nudge, push_log, append_log, modify, bind, ret. cbn -[unexecutedToolCallMarkers NARRATED_DIRECTIVE].
    unfold nudged. cbn -[unexecutedToolCallMarkers NARRATED_DIRECTIVE MEMORY_DIRECTIVE].
    rewrite (proj2 (Z.eqb_neq _ _)) by lia. split.
    - split; [|done]. by rewrite !map_app, <- app_assoc.
    - left. split_and!; try done. intros E. rewrite E in Hn. simpl in Hn. lia. }
  destruct (match unobservedMemoryClaimWarning _ _ with Some _ => true | None => false end && _) eqn:Eu.
  { apply andb_true_iff in Eu as [Hu Hc%Z.ltb_lt].
    unfold nudge, push_log, append_log, modify, bind, ret. cbn -[unobservedMemoryClaimWarning MEMORY_DIRECTIVE].
    unfold nudged. cbn -[unexecutedToolCallMarkers NARRATED_DIRECTIVE MEMORY_DIRECTIVE].
    rewrite Z.eqb_refl. split.
    - split; [|done]. by rewrite !map_app, <- app_assoc.
    - right. split_and!; try done. intros E. by rewrite E in Hu. }
  set (shown := shown_message _ _). unfold push_log, modify. unfold bind at 1, bind at 1.
  match goal with |- context [bind (finalize cfg shown sm) ?k ?s1] =>
    assert (Hp : Pure_vars (bind (finalize cfg shown sm) k)) by apply _; specialize (Hp s1);
    destruct (bind (finalize cfg shown sm) k s1) as [s' [[|]|e|]] eqn:Ef end; try done.
  { exfalso. unfold bind in Ef. destruct (finalize _ _ _ _) as [s2 [[]|e|]]; [|done..].
    destruct (emit cfg _ s2) as [s3 [[]|e|]]; done. }
  simpl in Hp. rewrite Hp. cbn -[unexecutedToolCallMarkers unobservedMemoryClaimWarning].
  split_and!; try done.
  - intros Hn. apply andb_false_iff in En as [En|En].
    + apply Nat.ltb_ge in En. destruct (unexecutedToolCallMarkers content); [done|simpl in En; lia].
    + by apply Z.ltb_ge in En.
  - intros Hu. apply andb_false_iff in Eu as [Eu|Eu].
    + by destruct (unobservedMemoryClaimWarning _ _).
    + by apply Z.ltb_ge in Eu.
Qed.
End Final.

(** * Concrete runs *)

Open Scope loop_scope.

#[local] Instance demo_printing : Printing := {| date_string := str_of_Z; fun_string := "function" |}.
#[local] Instance demo_hashing : Hashing := {| rfcCanonicalize := canonicalJSON; sha256 := fun s => s |}.
#[local] Instance demo_math : MathLib := {| math_log := fun x => x; math_pow := fun _ _ => num_one |}.

(** The host's world: the answers to come, the clock, the file, the tools run. *)
Record host := mkHost {
  script : list ProviderRouterResponse; clock : Z; file : string; ran : list string
}.

Definition answer (content : string) (calls : list ToolCall) : ProviderRouterResponse :=
  mkResponse content calls 10 5.

Definition demo_provider (msgs : list LogMessage) (maxTokens : Z) (streams : bool) (w : host)
    : host * Completion :=
  match script w with
  | [] => (w, mkCompletion [] (Ok (answer "done" [])))
  | r :: rest => (mkHost rest (clock w + 1) (file w) (ran w), mkCompletion [] (Ok r))
  end.

Definition demo_execute (name : string) (a : jsval) (w : host) : host * result ToolResult :=
  let content := match arg_field "content" a with Some (JStr s) => s | _ => file w end in
  (mkHost (script w) (clock w + 1) (if (name =? "write_file")%string then content else file w)
     (ran w ++ [name]),
   Ok (ToolOk (JStr (if (name =? "read_file")%string then file w else "ok")))).

Definition demo_tool (name : string) (w : host) : option AgentTool :=
  Some (mkTool (Some (name =? "deploy")%string) None None).

Definition demo_channel : ApprovalChannel host := {|
  send := fun _ w => (w, Ok "r1");
  poll := fun _ w => (w, Ok (if 5 <=? clock w then Some (mkApproval true None "human" "now" None false)
                             else None));
  ch_cancel := fun _ w => (w, Ok tt)
|}.

Definition allow_all (c : ActionGateCall) (w : host) : host * result (ActionGateVerdict unit) :=
  (w, Ok (mkGateVerdict true "ok" None None)).

Definition demo_cfg (window : option Z) (force : bool) : AgentLoopConfig host unit := {|
  agentId := "a"; agentVersion := "1"; systemPrompt := "sys"; provider := demo_provider;
  tools_get := demo_tool; tools_execute := demo_execute; approvalChannel := Some demo_channel;
  honestApprovalStops := true; continueOnApprovalTimeout := false; onApprovalTimeout := None;
  onApprovalResolved := None; recordStep := None; approvalPollIntervalMs := Some 1;
  approvalTimeoutMs := Some 100; approvalPredicate := None;
  capabilityGate := Some (fun c w => (w, Ok (if (cg_toolName c =? "rm")%string then CapDenied "scope" else CapAllowed)));
  onToolDenied := None; actionGate := Some allow_all; onActionDenied := None; skillCapture := None;
  costPerToolCallUsd := None; renewalManager := None; loopDetectionWindow := window;
  toolResultMaxChars := None; stallThreshold := None; embedFn := None; initialMessages := [];
  disableLoopDetection := false; abortSignal := fun _ => false; forceFinalizeBeforeBudget := force;
  maxWallClockMs := None; maxCostUsd := None; costFn := None; eventSink := Some (fun _ w => w);
  instructionInbox := None; vetoChannel := None; vetoWindowMs := None; runMemory := None;
  now := clock; sleep := fun ms w => mkHost (script w) (clock w + ms) (file w) (ran w);
  cryptoRandomId := fun w => (w, "id")
|}.

Definition demo_budget (max : Z) : AgentBudgetState :=
  mkBudget 0 max 1000 1000 0 0 200000 0 15 num_one.
Definition no_options : RunOptions := mkOptions None None None.

Definition demo_run (max : Z) (force : bool) (answers : list ProviderRouterResponse)
    : St host * outcome AgentLoopRunResult :=
  runFrom (demo_cfg None force) 100 20 (demo_budget max) "task" "t" no_options (mkHost answers 0 "old" []).

Definition call_to (name : string) (fields : list (string * jsval)) : ToolCall := mkCall name (JObj fields).
Definition read_call : ToolCall := call_to "read_file" [("path", JStr "f")].
Definition write_call : ToolCall := call_to "write_file" [("path", JStr "f"); ("content", JStr "new")].
Definition deploy_call : ToolCall := call_to "deploy" [].

Definition tool_contents (s : St host) : list string :=
  map m_content (filter (fun m => m_role m = tool) (map e_msg (log (st_v s)))).
Definition result_reason (r : outcome AgentLoopRunResult) : option StopReason :=
  match r with Done x => Some (res_stopReason x) | _ => None end.

(** * Witnesses *)

Definition deploy_run : St host * outcome AgentLoopRunResult :=
  demo_run 10 false [answer "" [call_to "rm" []; deploy_call]].

Example deploy_run_executes : ran (st_w (fst deploy_run)) = ["deploy"] /\
  result_reason (snd deploy_run) = Some complete /\
  tool_contents (fst deploy_run) = ["ERROR: capability_denied:scope"; "ok"].
Proof. vm_compute. done. Qed.

Lemma executed_only_granted_witness :
  ran (st_w (fst deploy_run)) = ["deploy"] /\
  granted_before (cfg_guards (demo_cfg None false)) (firstn 10 (st_trace (fst deploy_run)))
    (LExecute deploy_call) deploy_call.
Proof.
  split; [vm_compute; reflexivity|].
  exact (executed_only_granted (demo_cfg None false) 100 20 (demo_budget 10) "task" "t" no_options
    (mkHost [answer "" [call_to "rm" []; deploy_call]] 0 "old" [])
    (firstn 10 (st_trace (fst deploy_run))) (LExecute deploy_call)
    (skipn 11 (st_trace (fst deploy_run))) deploy_call
    ltac:(vm_compute; reflexivity) (or_introl eq_refl)).
Defined.

Lemma steps_bounded_witness :
  0 < maxSteps (demo_budget 2) /\
  steps (fst (demo_run 2 false [answer "" [write_call]; answer "" [read_call]; answer "x" []])) <= Z.max 0 (2 - 0).
Proof.
  split; [reflexivity|].
  exact (steps_bounded (demo_cfg None false) 100 20 (demo_budget 2) "task" "t" no_options
    (mkHost [answer "" [write_call]; answer "" [read_call]; answer "x" []] 0 "old" []) eq_refl).
Defined.

Lemma demo_clock window force : ClockLaws (demo_cfg window force).
Proof.
  split; simpl.
  - intros. lia.
  - intros verify c w [= <-]. simpl. lia.
  - intros ch id w [= <-]. simpl. lia.
  - lia.
Qed.

Lemma run_ends_witness :
  0 < maxSteps (demo_budget 2) /\
  exists s res, runFrom (demo_cfg None false) 100 20 (demo_budget 2) "task" "t" no_options
    (mkHost [answer "" [deploy_call]] 0 "old" []) = (s, Done res).
Proof.
  split; [reflexivity|].
  apply (run_ends (demo_cfg None false) 100 20 (demo_budget 2) "task" "t" no_options
    (mkHost [answer "" [deploy_call]] 0 "old" [])).
  - exact (demo_clock None false).
  - reflexivity.
  - reflexivity.
  - intros H. discriminate H.
  - reflexivity.
Defined.

(** The waiting human has approved once the clock shows 5. *)
Definition waiting : St host := mkSt (mkHost [] 0 "" []) [] (initial_vars (demo_cfg None false) "t" (demo_budget 1)).

Lemma approval_fail_closed_witness :
  snd (poll_loop (demo_cfg None false) 10 demo_channel "r1" deploy_call num_zero 100 1 waiting) = Done WApproved /\
  exists s0 w a, now (demo_cfg None false) (st_w s0) < 100 /\
    snd (recheck (demo_cfg None false) deploy_call num_zero s0) = Done None /\
    w = st_w (fst (recheck (demo_cfg None false) deploy_call num_zero s0)) /\
    snd (poll demo_channel "r1" w) = Ok (Some a) /\ approved a = true.
Proof.
  split; [vm_compute; reflexivity|].
  exact (proj2 (approval_fail_closed (demo_cfg None false) 10 demo_channel "r1" deploy_call num_zero 100 1 waiting)
    ltac:(vm_compute; reflexivity)).
Defined.

(** * Behaviours the comments do not announce *)

(** The cache of read results is never invalidated: a file read again after the
    run wrote it is answered with its old content. *)
Example cached_read_is_stale :
  let r := demo_run 10 false [answer "" [read_call]; answer "" [write_call]; answer "" [read_call]] in
  file (st_w (fst r)) = "new" /\ tool_contents (fst r) = ["old"; "ok"; "old"] /\
  ran (st_w (fst r)) = ["read_file"; "write_file"].
Proof. vm_compute. done. Qed.

(** A compound command is classified by its first part: the second run of one
    that writes is answered from the cache and does not happen. *)
Example compound_command_runs_once :
  let c := call_to "run_bash" [("command", JStr "cat log; make deploy")] in
  isReadOnlyTool (tc_name c) (tc_args c) = true /\
  ran (st_w (fst (demo_run 10 false [answer "" [c]; answer "" [c]]))) = ["run_bash"].
Proof. vm_compute. done. Qed.

(** Cached calls add steps, so the step before the last can be jumped over: the
    finalize directive is not sent and the run ends without an answer. *)
Example finalize_jumped_over :
  let r := demo_run 3 true [answer "" [read_call; read_call; read_call]; answer "x" []] in
  result_reason (snd r) = Some budget_exhausted /\ finalMessage (st_v (fst r)) = "" /\
  existsb (fun e => (m_content (e_msg e) =? FINALIZE_DIRECTIVE)%string) (log (st_v (fst r))) = false.
Proof. vm_compute. done. Qed.

(** A loop correction is a user message between the results of one assistant
    turn: the next result follows a user message. *)
Example correction_splits_results :
  let r := demo_run 9 false [answer "" [write_call; write_call; read_call]; answer "x" []] in
  map (fun e => m_role (e_msg e)) (log (st_v (fst r))) =
    [system; user; assistant; tool; tool; user; tool; assistant] /\
  protocol_ok e_msg false (log (st_v (fst r))) = false.
Proof. vm_compute. done. Qed.

(** A refused detector threshold rejects the run after [run.start]: it has no
    [run.finished]. *)
Example refused_window_leaves_run_open :
  let r := runFrom (demo_cfg (Some 1) false) 100 20 (demo_budget 5) "task" "t" no_options
    (mkHost [] 0 "old" []) in
  result_reason (snd r) = None /\ st_trace (fst r) = [LSink (RunStart "id" "a" "1" "task" None None)].
Proof. vm_compute. done. Qed.

(** No cached call is a memory lookup, so the cache branch that counts one is
    never taken. *)
Lemma cached_never_lookup tc v content :
  cached_result tc v = Some content -> isMemoryLookupTool (tc_name tc) = false.
Proof.
  unfold cached_result, cacheKey. destruct (isReadOnlyTool _ _) eqn:E; [|done]. intros _.
  unfold isReadOnlyTool in E.
  assert (Hin : tc_name tc ∈ READ_ONLY_TOOLS ++ ["run_bash"; "bash"; "execute_bash"]).
  { apply elem_of_app. do 2 (case_bool_decide; [by auto|]). done. }
  clear E. revert Hin. generalize (tc_name tc). apply Forall_forall.
  repeat (constructor; [vm_compute; reflexivity|]). constructor.
Qed.
