(* ===== verification/NumText.v ===== *)
(** Decimal text of integers, and the exactness of doubles on them.

    [String(n)] of an integer below [2^53] is its decimal expansion, and
    reading decimal digits gives the integer back. *)

From S2P Require Import Prelude JsNum.
From Stdlib Require Import SpecFloat Ascii.

(** * Printing digits *)

Lemma pretty_go_zeros (x : N) (s : string) : (0 < x)%N ->
  pretty_N_go (10 * x) s = pretty_N_go x (String "0" s).
Proof.
  intros Hx. rewrite pretty_N_go_step by lia.
  rewrite N.mul_comm, N.div_mul, N.Div0.mod_mul by lia. done.
Qed.

Lemma pretty_go_app (x : N) (s t : string) : pretty_N_go x (s ++ t) = (pretty_N_go x s ++ t)%string.
Proof.
  revert s. induction x as [x IH] using (well_founded_induction N.lt_wf_0); intros s.
  destruct (decide (x = 0)%N) as [->|Hx]; [by rewrite !pretty_N_go_0|].
  rewrite (pretty_N_go_step x s), (pretty_N_go_step x (s ++ t)) by lia.
  rewrite <- IH by (apply N.div_lt; lia). done.
Qed.

Lemma pretty_pos (p : positive) : str_of_Z (Z.pos p) = pretty_N_go (N.pos p) "".
Proof. done. Qed.

Lemma zeros_snoc j : (zeros j ++ "0")%string = zeros (S j).
Proof. induction j as [|j IH]; [done|]. exact (f_equal (String "0") IH). Qed.

Lemma pretty_go_pow (x : N) (j : nat) (s : string) : (0 < x)%N ->
  pretty_N_go (x * 10 ^ N.of_nat j) s = pretty_N_go x (zeros j ++ s).
Proof.
  intros Hx. revert s. induction j as [|j IH]; intros s; [by rewrite N.mul_1_r|].
  replace (x * 10 ^ N.of_nat (S j))%N with (10 * (x * 10 ^ N.of_nat j))%N
    by (rewrite Nat2N.inj_succ, N.pow_succ_r'; lia).
  rewrite pretty_go_zeros by lia. rewrite IH. f_equal. change (String "0" s) with ("0" ++ s)%string.
  by rewrite str_app_assoc, zeros_snoc.
Qed.

Lemma str_of_Z_zeros (s : Z) (j : nat) : 0 < s ->
  str_of_Z (s * 10 ^ Z.of_nat j) = (str_of_Z s ++ zeros j)%string.
Proof.
  intros Hs. destruct s as [|p|p]; try lia. assert (Hp : 0 < Z.pos p * 10 ^ Z.of_nat j) by lia.
  destruct (Z.pos p * 10 ^ Z.of_nat j) as [|q|q] eqn:E; try lia. rewrite !pretty_pos.
  replace (N.pos q) with (N.pos p * 10 ^ N.of_nat j)%N.
  - rewrite pretty_go_pow by done. rewrite <- pretty_go_app.
    replace (zeros j ++ "")%string with ("" ++ zeros j)%string; [done|].
    simpl. clear. induction (zeros j) as [|c t IH]; [done|]. exact (f_equal (String c) IH).
  - apply N2Z.inj. rewrite N2Z.inj_mul, N2Z.inj_pow, nat_N_Z. simpl. by rewrite E.
Qed.

(** * [Number::toString] on integers *)

Section Integer.
Context (p : positive) (k : Z) (Hk : 0 <= k) (m : positive) (Hm : Z.pos m = Z.pos p * 2 ^ k).

(** The scale of the computation: everything is counted in [1/D]. *)
Let D : Z := 2 ^ (2 + k).
Lemma scale_pos : 4 <= D.
Proof. unfold D. rewrite Z.pow_add_r by lia. lia. Qed.
Lemma value4 : Z.pos m * 4 = Z.pos p * D.
Proof. unfold D. rewrite Hm, Z.pow_add_r by lia. lia. Qed.

Lemma find_exp_int (N : Z) (fuel : nat) (n : Z) :
  10 ^ (N - 1) <= Z.pos p < 10 ^ N -> 1 <= N -> 1 <= n -> Z.abs (N - n) < Z.of_nat fuel ->
  find_exp m (- k) fuel n = N.
Proof.
  intros [Hlo Hhi] HN. revert n. induction fuel as [|fuel IH]; intros n Hn Hf; [lia|].
  cbn [find_exp]. replace (- k <? 2) with true by (symmetry; apply Z.ltb_lt; lia).
  replace (0 <=? n) with true by (symmetry; apply Z.leb_le; lia).
  replace (0 <=? n - 1) with true by (symmetry; apply Z.leb_le; lia).
  replace (2 - - k) with (2 + k) by lia. fold D. rewrite Z.mul_1_r, value4.
  pose proof scale_pos as HD.
  destruct (Z.lt_trichotomy n N) as [H|[->|H]].
  - assert (10 ^ n <= 10 ^ (N - 1)) by (apply Z.pow_le_mono_r; lia).
    replace (Z.pos p * D <? 10 ^ n * D) with false by (symmetry; apply Z.ltb_ge; nia).
    apply IH; lia.
  - replace (Z.pos p * D <? 10 ^ N * D) with true by (symmetry; apply Z.ltb_lt; nia).
    replace (10 ^ (N - 1) * D <=? Z.pos p * D) with true by (symmetry; apply Z.leb_le; nia). done.
  - assert (10 ^ N <= 10 ^ (n - 1)) by (apply Z.pow_le_mono_r; lia).
    assert (10 ^ (n - 1) <= 10 ^ n) by (apply Z.pow_le_mono_r; lia).
    replace (Z.pos p * D <? 10 ^ n * D) with true by (symmetry; apply Z.ltb_lt; nia).
    replace (10 ^ (n - 1) * D <=? Z.pos p * D) with false by (symmetry; apply Z.leb_gt; nia).
    apply IH; lia.
Qed.

(** A multiple of a power of ten rounds back exactly when it is the integer. *)
Lemma rounds_back_int (c t : Z) : 0 <= t -> rounds_back m (- k) c t = true <-> c * 10 ^ t = Z.pos p.
Proof.
  intros Ht. unfold rounds_back. replace (0 <=? t) with true by (symmetry; apply Z.leb_le; lia).
  replace (- k <? 2) with true by (symmetry; apply Z.ltb_lt; lia).
  replace (2 - - k) with (2 + k) by lia. fold D. rewrite !Z.mul_1_r, value4.
  pose proof scale_pos as HD. set (q := c * 10 ^ t).
  assert (Hq : Z.abs (q * D - Z.pos p * D) <= 2 <-> q = Z.pos p).
  { split; [|by intros ->; rewrite Z.sub_diag]. intros H.
    destruct (Z.lt_trichotomy q (Z.pos p)) as [Hlt|[E|Hgt]]; [|done|].
    - assert ((q + 1) * D <= Z.pos p * D) by (apply Z.mul_le_mono_nonneg_r; lia). lia.
    - assert ((Z.pos p + 1) * D <= q * D) by (apply Z.mul_le_mono_nonneg_r; lia). lia. }
  set (low := if (_ =? 2 ^ 52) && _ then _ else _).
  assert (Hlow : low = Z.pos p * D - 1 \/ low = Z.pos p * D - 2) by (unfold low; destruct (_ && _); lia).
  split.
  - intros H. apply Hq. destruct (Z.even _); apply andb_true_iff in H;
      rewrite ?Z.leb_le, ?Z.ltb_lt in H; lia.
  - intros ->. destruct (Z.even _); apply andb_true_iff; rewrite ?Z.leb_le, ?Z.ltb_lt; lia.
Qed.

Lemma shortest_int (N : Z) (fuel : nat) (d : Z) :
  10 ^ (N - 1) <= Z.pos p < 10 ^ N -> 1 <= d <= N -> N - d < Z.of_nat fuel ->
  exists s d', shortest m (- k) fuel N d = (s, N, d') /\ d' <= N /\ s * 10 ^ (N - d') = Z.pos p.
Proof.
  intros [Hlo Hhi]. revert d. induction fuel as [|fuel IH]; intros d Hd Hf; [lia|].
  cbn [shortest]. replace (- k <? 2) with true by (symmetry; apply Z.ltb_lt; lia).
  replace (0 <=? N - d) with true by (symmetry; apply Z.leb_le; lia).
  replace (2 - - k) with (2 + k) by lia. fold D. rewrite !Z.mul_1_r, value4.
  pose proof scale_pos as HD. assert (HT : 0 < 10 ^ (N - d)) by (apply Z.pow_pos_nonneg; lia).
  rewrite (Z.div_mul_cancel_r (Z.pos p) (10 ^ (N - d)) D) by lia.
  set (s := Z.pos p / 10 ^ (N - d)). set (near := if _ <=? _ then s else s + 1).
  set (far := if _ <=? _ then s + 1 else s).
  assert (Hsmall : forall c, c * 10 ^ (N - d) = Z.pos p -> (c =? 10 ^ d) = false).
  { intros c Hc. apply Z.eqb_neq. intros ->. rewrite <- Z.pow_add_r in Hc by lia.
    replace (d + (N - d)) with N in Hc by lia. lia. }
  destruct (rounds_back m (- k) near (N - d)) eqn:En.
  { apply rounds_back_int in En; [|lia]. rewrite (Hsmall _ En). exists near, d. split; [done|]. lia. }
  destruct (rounds_back m (- k) far (N - d)) eqn:Ef.
  { apply rounds_back_int in Ef; [|lia]. rewrite (Hsmall _ Ef). exists far, d. split; [done|]. lia. }
  assert (Hd' : d <> N).
  { intros ->. assert (Hs : s = Z.pos p) by (unfold s; by rewrite Z.sub_diag, Z.pow_0_r, Z.div_1_r).
    assert (Hnear : near = Z.pos p).
    { unfold near. rewrite Hs, Z.sub_diag, Z.pow_0_r. replace (_ <=? _) with true; [done|].
      symmetry. apply Z.leb_le. lia. }
    apply not_true_iff_false in En. apply En. apply rounds_back_int; [lia|].
    by rewrite Hnear, Z.sub_diag, Z.pow_0_r, Z.mul_1_r. }
  apply IH; lia.
Qed.
End Integer.

Lemma decimal_length (n : nat) (p : Z) : 1 <= p < 10 ^ Z.of_nat n ->
  exists N, 1 <= N <= Z.of_nat n /\ 10 ^ (N - 1) <= p < 10 ^ N.
Proof.
  induction n as [|n IH]; [simpl; lia|]. intros Hp.
  destruct (Z.lt_ge_cases p (10 ^ Z.of_nat n)) as [H|H].
  - destruct IH as (N & HN & HP); [lia|]. exists N. lia.
  - exists (Z.of_nat (S n)). replace (Z.of_nat (S n) - 1) with (Z.of_nat n) by lia. lia.
Qed.

Lemma num_to_string_int (z : Z) : safe_int z -> num_to_string (num_of_Z z) = str_of_Z z.
Proof.
  intros [Hz1 Hz2]. destruct z as [|p|p]; [done| |lia]. rewrite num_of_Z_pos by done.
  destruct (digits2_pos_bounds p) as [Hb1 Hb2]. set (d := digits2_pos p) in *.
  assert (Hd : Z.pos d <= prec).
  { assert (Hlt : 2 ^ (Z.pos d - 1) < 2 ^ prec) by lia.
    apply Z.pow_lt_mono_r_iff in Hlt; unfold prec in *; lia. }
  set (m := match prec - Z.pos d with Z.pos k => _ | _ => _ end).
  assert (Hm : Z.pos m = Z.pos p * 2 ^ (prec - Z.pos d)).
  { unfold m. destruct (prec - Z.pos d) as [|k|k] eqn:E; [by rewrite Z.mul_1_r| |lia].
    clear E m Hd. induction k as [|k IH] using Pos.peano_ind; [simpl; lia|].
    rewrite Pos.iter_succ, Pos2Z.inj_succ, Z.pow_succ_r by lia. lia. }
  destruct (decimal_length 16 (Z.pos p)) as (N & HN & Hp);
    [split; [lia|]; etransitivity; [exact Hz2|done]|].
  assert (Hlog : Z.log2 (Z.pos m) = Z.log2 (Z.pos p) + (prec - Z.pos d)).
  { rewrite Hm, Z.log2_mul_pow2 by lia. lia. }
  assert (Hl : 0 <= Z.log2 (Z.pos p) < 53).
  { split; [apply Z.log2_nonneg|]. apply Z.log2_lt_pow2; [done|exact Hz2]. }
  unfold num_to_string. rewrite Hlog.
  replace (Z.log2 (Z.pos p) + (prec - Z.pos d) + (Z.pos d - prec)) with (Z.log2 (Z.pos p)) by lia.
  replace (Z.pos d - prec) with (- (prec - Z.pos d)) by lia.
  assert (Hg : 0 <= Z.log2 (Z.pos p) * 3 / 10 <= 16).
  { split; [apply Z.div_pos; lia|]. apply Z.lt_succ_r, Z.div_lt_upper_bound; lia. }
  rewrite (find_exp_int p (prec - Z.pos d) ltac:(lia) m Hm N 64) by lia.
  destruct (shortest_int p (prec - Z.pos d) ltac:(lia) m Hm N 18 1) as (s & d' & -> & Hd' & Hs); [lia..|].
  unfold layout. replace (d' <=? N) with true by (symmetry; apply Z.leb_le; lia).
  replace (N <=? 21) with true by (symmetry; apply Z.leb_le; lia). cbn [andb].
  rewrite <- Hs. replace (N - d') with (Z.of_nat (Z.to_nat (N - d'))) by lia.
  rewrite str_of_Z_zeros; [by rewrite Nat2Z.id|]. 
  assert (0 < 10 ^ (N - d')) by (apply Z.pow_pos_nonneg; lia). nia.
Qed.

(** * Reading digits *)

Definition digit_val (c : ascii) : option Z :=
  let d := Z.of_nat (nat_of_ascii c) - 48 in
  if (0 <=? d) && (d <=? 9) then Some d else None.

(** The longest run of digits: its value on top of [acc], its length, the rest. *)
Fixpoint read_digits (s : string) (acc : Z) : Z * nat * string :=
  match s with
  | EmptyString => (acc, O, s)
  | String c s' =>
      match digit_val c with
      | Some d => let '(v, n, r) := read_digits s' (10 * acc + d) in (v, S n, r)
      | None => (acc, O, s)
      end
  end.

(** [s] does not start with a digit. *)
Definition no_digit (s : string) : Prop :=
  match s with String c _ => digit_val c = None | EmptyString => True end.

Lemma read_digits_none s acc : no_digit s -> read_digits s acc = (acc, O, s).
Proof. destruct s as [|c s]; [done|]. simpl. by intros ->. Qed.

Lemma read_digits_cons c d s acc : digit_val c = Some d ->
  read_digits (String c s) acc =
  let '(v, n, r) := read_digits s (10 * acc + d) in (v, S n, r).
Proof. simpl. by intros ->. Qed.

Lemma digit_val_char (x : N) : (x < 10)%N -> digit_val (pretty_N_char x) = Some (Z.of_N x).
Proof.
  intros Hx. assert (x = 0 \/ x = 1 \/ x = 2 \/ x = 3 \/ x = 4 \/ x = 5 \/ x = 6 \/ x = 7 \/ x = 8 \/ x = 9)%N
    as H by lia. by repeat destruct H as [->|H]; subst.
Qed.

Definition reads (s : string) (v : Z) (n : nat) : Prop :=
  forall rest acc, no_digit rest -> read_digits (s ++ rest) acc = (acc * 10 ^ Z.of_nat n + v, n, rest).

Lemma reads_nil : reads "" 0 0.
Proof.
  intros rest acc Hr. simpl. rewrite read_digits_none by done. do 2 f_equal. lia.
Qed.

Lemma reads_go (x : N) : forall s v n, reads s v n ->
  exists n', reads (pretty_N_go x s) (Z.of_N x * 10 ^ Z.of_nat n + v) n'.
Proof.
  induction x as [x IH] using (well_founded_induction N.lt_wf_0); intros s v n Hs.
  destruct (decide (x = 0)%N) as [->|Hx]; [rewrite pretty_N_go_0; by exists n|].
  rewrite pretty_N_go_step by lia.
  assert (Hmod : (x mod 10 < 10)%N) by (apply N.mod_lt; lia).
  destruct (IH (x / 10)%N ltac:(apply N.div_lt; lia) (String (pretty_N_char (x mod 10)) s)
    (Z.of_N (x mod 10) * 10 ^ Z.of_nat n + v) (S n)) as [n' H].
  { intros rest acc Hr. 
    change (read_digits (String (pretty_N_char (x mod 10)) (s ++ rest)) acc =
      (acc * 10 ^ Z.of_nat (S n) + (Z.of_N (x mod 10) * 10 ^ Z.of_nat n + v), S n, rest)).
    rewrite (read_digits_cons _ _ _ _ (digit_val_char _ Hmod)), Hs by done. do 2 f_equal. rewrite Nat2Z.inj_succ, Z.pow_succ_r by lia. lia. }
  exists n'. replace (Z.of_N x * 10 ^ Z.of_nat n + v) with
    (Z.of_N (x / 10) * 10 ^ Z.of_nat (S n) + (Z.of_N (x mod 10) * 10 ^ Z.of_nat n + v)); [done|].
  rewrite Nat2Z.inj_succ, Z.pow_succ_r by lia. rewrite N2Z.inj_div, N2Z.inj_mod.
  rewrite (Z.div_mod (Z.of_N x) 10) at 3 by lia. simpl (Z.of_N 10). lia.
Qed.

Lemma reads_str_of_Z (z : Z) : 0 <= z -> exists n, reads (str_of_Z z) z n.
Proof.
  intros Hz. destruct z as [|p|p]; [|..|lia].
  - exists 1%nat. intros rest acc Hr.
    change (read_digits (String "0" rest) acc = (acc * 10 ^ Z.of_nat 1 + 0, 1%nat, rest)).
    rewrite (read_digits_cons "0" 0 rest acc eq_refl), read_digits_none by done. do 2 f_equal. lia.
  - destruct (reads_go (N.pos p) "" 0 0 reads_nil) as [n H]. exists n. rewrite pretty_pos.
    intros rest acc Hr. rewrite (H rest acc Hr). do 2 f_equal. simpl. lia.
Qed.

(** * Exactness on integers *)

(** * Shifts *)

Lemma iter_pos_comm {A} (f : A -> A) n x : iter_pos f n (f x) = f (iter_pos f n x).
Proof.
  revert x. induction n as [n IH|n IH|]; intros x; [..|done]; cbn [iter_pos]; by rewrite !IH.
Qed.

Lemma iter_pos_succ {A} (f : A -> A) n x : iter_pos f (Pos.succ n) x = f (iter_pos f n x).
Proof.
  revert x. induction n as [n IH|n IH|]; intros x; [..|done].
  - change (iter_pos f (Pos.succ n) (iter_pos f (Pos.succ n) x) = f (iter_pos f n (iter_pos f n (f x)))).
    by rewrite !IH, !iter_pos_comm.
  - change (iter_pos f n (iter_pos f n (f x)) = f (iter_pos f n (iter_pos f n x))).
    by rewrite !iter_pos_comm.
Qed.

Lemma pow2_iter (p k : positive) : Z.pos (Pos.iter xO p k) = Z.pos p * 2 ^ Z.pos k.
Proof.
  induction k as [|k IH] using Pos.peano_ind; [simpl; lia|].
  rewrite Pos.iter_succ, Pos2Z.inj_succ, Z.pow_succ_r by lia. lia.
Qed.

(** Shifting out zeros loses nothing. *)
Lemma shr_exact (m k : positive) :
  iter_pos shr_1 k {| shr_m := Z.pos (Pos.iter xO m k); shr_r := false; shr_s := false |} =
  {| shr_m := Z.pos m; shr_r := false; shr_s := false |}.
Proof.
  revert m. induction k as [|k IH] using Pos.peano_ind; intros m; [done|].
  rewrite iter_pos_succ, Pos.iter_succ_r, IH. done.
Qed.

(** * Canonical form *)

Definition digits (p : positive) : Z := Z.pos (digits2_pos p).

Lemma digits_bounds p : 2 ^ (digits p - 1) <= Z.pos p < 2 ^ digits p.
Proof. unfold digits. destruct (digits2_pos_bounds p); lia. Qed.

Lemma digits_small p : Z.pos p < 2 ^ prec -> 1 <= digits p <= prec.
Proof.
  intros Hp. destruct (digits_bounds p) as [Hlo _]. unfold digits in *. split; [lia|].
  assert (H : 2 ^ (Z.pos (digits2_pos p) - 1) < 2 ^ prec) by lia.
  apply Z.pow_lt_mono_r_iff in H; unfold prec in *; lia.
Qed.

(** The mantissa of an integer, at full precision. *)
Definition mantissa (p : positive) : positive :=
  match (prec - digits p)%Z with Z.pos k => Pos.iter xO p k | _ => p end.

Lemma mantissa_val p : Z.pos p < 2 ^ prec -> Z.pos (mantissa p) = Z.pos p * 2 ^ (prec - digits p).
Proof.
  intros Hp. apply digits_small in Hp. unfold mantissa.
  destruct (prec - digits p) as [|k|k] eqn:E; [by rewrite Z.mul_1_r|apply pow2_iter|lia].
Qed.

Lemma mantissa_digits p : Z.pos p < 2 ^ prec -> digits (mantissa p) = prec.
Proof.
  intros Hp. apply digits_small in Hp. unfold mantissa.
  destruct (prec - digits p) as [|k|k] eqn:E; [lia| |lia].
  unfold digits. rewrite digits2_pos_shift. unfold digits in E. lia.
Qed.

Lemma num_of_Z_canonical p : Z.pos p < 2 ^ prec ->
  num_of_Z (Z.pos p) = S754_finite false (mantissa p) (digits p - prec).
Proof. apply num_of_Z_pos. Qed.

(** An integer, whatever power of two it is counted in, rounds to its number. *)
Lemma round_scaled (p q : positive) (j : Z) : Z.pos p < 2 ^ prec -> 0 <= j <= prec ->
  Z.pos q = Z.pos p * 2 ^ j -> binary_round prec emax false q (- j) = num_of_Z (Z.pos p).
Proof.
  intros Hp Hj Hq. pose proof (digits_small p Hp) as Hd.
  assert (Hdq : digits q = digits p + j).
  { destruct j as [|j|j]; [|..|lia].
    - assert (q = p) as -> by lia. lia.
    - assert (q = Pos.iter xO p j) as -> by (apply Pos2Z.inj; by rewrite pow2_iter).
      unfold digits. by rewrite digits2_pos_shift. }
  rewrite num_of_Z_canonical by done. unfold binary_round, fexp, emin. fold (digits q). rewrite Hdq.
  replace (Z.max (digits p + j + - j - prec) (3 - emax - prec)) with (digits p - prec)
    by (unfold prec, emax in *; lia).
  pose proof (mantissa_val p Hp) as Hm. pose proof (mantissa_digits p Hp) as Hmd.
  unfold shl_align. replace (digits p - prec - - j) with (digits p - prec + j) by lia.
  destruct (digits p - prec + j) as [|k|k] eqn:Ek.
  - assert (q = mantissa p) as ->.
    { apply Pos2Z.inj. rewrite Hm, Hq. do 2 f_equal. lia. }
    replace (- j) with (digits p - prec) by lia. apply round_exact; [done|unfold prec, emax in *; lia..].
  - assert (q = Pos.iter xO (mantissa p) k) as ->.
    { apply Pos2Z.inj. rewrite pow2_iter, Hm, Hq, <- Z.mul_assoc, <- Z.pow_add_r by lia. do 2 f_equal. lia. }
    unfold binary_round_aux. unfold shr_fexp at 1. unfold fexp, emin.
    change (Zdigits2 (Z.pos (Pos.iter xO (mantissa p) k))) with (digits (Pos.iter xO (mantissa p) k)).
    rewrite Hdq. replace (Z.max (digits p + j + - j - prec) (3 - emax - prec) - - j) with (Z.pos k)
      by (unfold prec, emax in *; lia).
    cbn [shr shr_record_of_loc]. rewrite shr_exact. cbn [shr_m loc_of_shr_record round_nearest_even].
    replace (- j + Z.pos k) with (digits p - prec) by lia.
    unfold shr_fexp, fexp, emin. change (Zdigits2 (Z.pos (mantissa p))) with (digits (mantissa p)).
    rewrite Hmd. replace (Z.max (prec + (digits p - prec) - prec) (3 - emax - prec) - (digits p - prec))
      with 0 by (unfold prec, emax in *; lia).
    cbn [shr shr_record_of_loc shr_m].
    by replace (digits p - prec <=? emax - prec) with true by (symmetry; apply Z.leb_le; unfold prec, emax in *; lia).
  - assert (Pos.iter xO q k = mantissa p) as ->.
    { apply Pos2Z.inj. rewrite pow2_iter, Hm, Hq, <- Z.mul_assoc, <- Z.pow_add_r by lia. do 2 f_equal. lia. }
    apply round_exact; [done|unfold prec, emax in *; lia..].
Qed.

(** * Sums, differences, comparisons *)

Lemma align_val m e ez : ez <= e -> Z.pos (fst (shl_align m e ez)) = Z.pos m * 2 ^ (e - ez).
Proof.
  intros H. unfold shl_align. destruct (ez - e) as [|k|k] eqn:E; [|lia|].
  - replace (e - ez) with 0 by lia. simpl. lia.
  - replace (e - ez) with (Z.pos k) by lia. apply pow2_iter.
Qed.

(** Both operands in the smaller exponent: integers again. *)
Lemma aligned_int p ez : Z.pos p < 2 ^ prec -> ez <= digits p - prec ->
  Z.pos (fst (shl_align (mantissa p) (digits p - prec) ez)) = Z.pos p * 2 ^ (- ez).
Proof.
  intros Hp Hez. pose proof (digits_small p Hp). rewrite align_val, mantissa_val by done.
  rewrite <- Z.mul_assoc, <- Z.pow_add_r by lia. do 2 f_equal. lia.
Qed.

Lemma num_add_int a b : 0 <= a -> 0 <= b -> a + b < 2 ^ prec ->
  num_add (num_of_Z a) (num_of_Z b) = num_of_Z (a + b).
Proof.
  intros Ha Hb Hab. destruct a as [|p|p]; [|..|lia].
  { destruct b as [|q|q]; [done| |lia]. by rewrite Z.add_0_l, num_of_Z_canonical by lia. }
  destruct b as [|q|q]; [by rewrite Z.add_0_r, num_of_Z_canonical by lia| |lia].
  rewrite (num_of_Z_canonical p), (num_of_Z_canonical q) by lia. unfold num_add, SFadd.
  pose proof (digits_small p ltac:(lia)). pose proof (digits_small q ltac:(lia)).
  set (ez := Z.min _ _). cbn [cond_Zopp].
  rewrite !aligned_int by (unfold ez; lia). rewrite <- Z.mul_add_distr_r.
  change (Z.pos p + Z.pos q) with (Z.pos (p + q)) in *.
  destruct (Z.pos (p + q) * 2 ^ - ez) as [|r|r] eqn:E.
  - assert (0 < 2 ^ - ez) by (apply Z.pow_pos_nonneg; unfold ez; lia). lia.
  - cbn [binary_normalize]. replace ez with (- - ez) by lia. apply round_scaled; [done|unfold ez; lia|done].
  - assert (0 < 2 ^ - ez) by (apply Z.pow_pos_nonneg; unfold ez; lia). lia.
Qed.

Lemma num_sub_int a b : 0 <= b <= a -> a < 2 ^ prec ->
  num_sub (num_of_Z a) (num_of_Z b) = num_of_Z (a - b).
Proof.
  intros Hb Ha. destruct a as [|p|p]; [|..|lia]; [by assert (b = 0) as -> by lia|].
  destruct b as [|q|q]; [by rewrite Z.sub_0_r, num_of_Z_canonical by lia| |lia].
  rewrite (num_of_Z_canonical p), (num_of_Z_canonical q) by lia. unfold num_sub, SFsub.
  pose proof (digits_small p ltac:(lia)). pose proof (digits_small q ltac:(lia)).
  set (ez := Z.min _ _). cbn [cond_Zopp].
  rewrite !aligned_int by (unfold ez; lia). rewrite <- Z.mul_sub_distr_r.
  assert (Hpow : 0 < 2 ^ - ez) by (apply Z.pow_pos_nonneg; unfold ez; lia).
  destruct (Z.pos p - Z.pos q) as [|d|d] eqn:Ed; [done| |lia].
  destruct (Z.pos d * 2 ^ - ez) as [|r|r] eqn:E; [lia| |lia].
  cbn [binary_normalize]. replace ez with (- - ez) by lia.
  apply round_scaled; [lia|unfold ez; lia|done].
Qed.

Lemma num_compare_int a b : safe_int a -> safe_int b ->
  SFcompare (num_of_Z a) (num_of_Z b) = Some (a ?= b).
Proof.
  intros [Ha1 Ha2] [Hb1 Hb2]. destruct a as [|p|p], b as [|q|q]; try lia; [done|..].
  1-2: by rewrite num_of_Z_canonical.
  rewrite (num_of_Z_canonical p), (num_of_Z_canonical q) by done. cbn [SFcompare]. f_equal.
  destruct (digits_bounds p), (digits_bounds q). pose proof (digits_small p Ha2).
  pose proof (digits_small q Hb2). symmetry.
  destruct (Z.compare_spec (digits p - prec) (digits q - prec)) as [Hd|Hd|Hd].
  - change (Pos.compare_cont Eq (mantissa p) (mantissa q)) with (Z.pos (mantissa p) ?= Z.pos (mantissa q)).
    rewrite !mantissa_val by done. replace (digits q) with (digits p) by lia.
    apply Zmult_compare_compat_r. assert (0 < 2 ^ (prec - digits p)) by (apply Z.pow_pos_nonneg; lia). lia.
  - apply Z.compare_lt_iff. assert (2 ^ digits p <= 2 ^ (digits q - 1)) by (apply Z.pow_le_mono_r; lia). lia.
  - apply Z.compare_gt_iff. assert (2 ^ digits q <= 2 ^ (digits p - 1)) by (apply Z.pow_le_mono_r; lia). lia.
Qed.

Lemma num_leb_int a b : safe_int a -> safe_int b -> num_leb (num_of_Z a) (num_of_Z b) = (a <=? b).
Proof. intros Ha Hb. unfold num_leb, SFleb. rewrite num_compare_int by done. unfold Z.leb. by destruct (a ?= b). Qed.

Lemma num_ltb_int a b : safe_int a -> safe_int b -> num_ltb (num_of_Z a) (num_of_Z b) = (a <? b).
Proof. intros Ha Hb. unfold num_ltb, SFltb. rewrite num_compare_int by done. unfold Z.ltb. by destruct (a ?= b). Qed.

Lemma num_geb_int a b : safe_int a -> safe_int b -> num_geb (num_of_Z a) (num_of_Z b) = (b <=? a).
Proof. intros Ha Hb. by apply num_leb_int. Qed.
