(* ===== verification/JsonParse.v ===== *)
(** [JSON.parse].

    A recursive descent over the text, with the language's order of object
    keys.  A code unit above 255 written as an escape is outside the model: the
    parser refuses it.  The round trip with [JSON.stringify] is proved for the
    payloads JSON keeps: null, booleans, strings, safe integers, arrays, and
    objects in own-property order. *)

From S2P Require Import Prelude JsNum JsValue Json NumText.
From Stdlib Require Import SpecFloat Ascii.

(** * Tokens *)

Definition is_json_space (c : ascii) : bool :=
  let n := nat_of_ascii c in ((n =? 32) || (n =? 9) || (n =? 10) || (n =? 13))%nat.

Fixpoint skip_ws (s : string) : string :=
  match s with
  | String c s' => if is_json_space c then skip_ws s' else s
  | EmptyString => EmptyString
  end.

Definition hex_val (c : ascii) : option nat :=
  let n := nat_of_ascii c in
  if ((48 <=? n) && (n <=? 57))%nat then Some (n - 48)%nat
  else if ((97 <=? n) && (n <=? 102))%nat then Some (n - 87)%nat
  else if ((65 <=? n) && (n <=? 70))%nat then Some (n - 55)%nat
  else None.

(** The character of [\uXXXX]. *)
Definition unit_of_hex (a b c d : ascii) : option ascii :=
  a ← hex_val a; b ← hex_val b; c ← hex_val c; d ← hex_val d;
  let n := (((a * 16 + b) * 16 + c) * 16 + d)%nat in
  if (n <? 256)%nat then Some (ascii_of_nat n) else None.

Definition escape_char (c : ascii) : option ascii :=
  let n := nat_of_ascii c in
  if ((n =? 34) || (n =? 92) || (n =? 47))%nat then Some c
  else if (n =? 98)%nat then Some "008"%char
  else if (n =? 102)%nat then Some "012"%char
  else if (n =? 110)%nat then Some "010"%char
  else if (n =? 114)%nat then Some "013"%char
  else if (n =? 116)%nat then Some "009"%char
  else None.

(** The text after an opening quote: the string, and what follows the closing
    quote. *)
Fixpoint read_string (s : string) : option (string * string) :=
  match s with
  | EmptyString => None
  | String c s1 =>
      if (nat_of_ascii c =? 34)%nat then Some (EmptyString, s1)
      else if (nat_of_ascii c <? 32)%nat then None
      else if (nat_of_ascii c =? 92)%nat then
        match s1 with
        | String "u" (String h1 (String h2 (String h3 (String h4 s2)))) =>
            u ← unit_of_hex h1 h2 h3 h4;
            '(t, r) ← read_string s2;
            Some (String u t, r)
        | String e s2 =>
            u ← escape_char e;
            '(t, r) ← read_string s2;
            Some (String u t, r)
        | EmptyString => None
        end
      else '(t, r) ← read_string s1; Some (String c t, r)
  end.

(** The double nearest to [(-1)^neg * p * 10^e]. *)
Definition dec_to_num (neg : bool) (p e : Z) : num :=
  match p with
  | Z.pos q =>
      if 0 <=? e then
        let z := Z.pos q * 10 ^ e in binary_normalize prec emax (if neg then - z else z) 0 neg
      else match 10 ^ (- e) with
           | Z.pos d => SFdiv prec emax (S754_finite neg q 0) (S754_finite false d 0)
           | _ => num_nan
           end
  | _ => S754_zero neg
  end.

(** The fraction part, if any: the value with its digits appended, their number. *)
Definition read_frac (ip : Z) (s : string) : option (Z * nat * string) :=
  match s with
  | String "." s' =>
      let '(p, n, r) := read_digits s' ip in
      match n with O => None | _ => Some (p, n, r) end
  | _ => Some (ip, O, s)
  end.

Definition read_exp (s : string) : option (Z * string) :=
  match s with
  | String "e" s' | String "E" s' =>
      let '(neg, s') := match s' with
        | String "-" s2 => (true, s2) | String "+" s2 => (false, s2) | _ => (false, s') end in
      let '(e, n, r) := read_digits s' 0 in
      match n with O => None | _ => Some (if neg then - e else e, r) end
  | _ => Some (0, s)
  end.

Definition read_number (s : string) : option (num * string) :=
  let '(neg, s1) := match s with String "-" s' => (true, s') | _ => (false, s) end in
  let '(ip, n, s2) :=
    match s1 with
    | String "0" s' => (0, 1%nat, s')
    | _ => read_digits s1 0
    end in
  match n with
  | O => None
  | _ =>
      '(p, k, s3) ← read_frac ip s2;
      '(e, s4) ← read_exp s3;
      Some (dec_to_num neg p (e - Z.of_nat k), s4)
  end.

(** [lit] at the start of [s]. *)
Definition literal (lit s : string) (v : jsval) : option (jsval * string) :=
  if starts_with lit s then Some (v, str_drop (String.length lit) s) else None.

(** * Values *)

(** A later property replaces the value of an earlier one of the same name. *)
Definition object_of (fields : list (string * jsval)) : jsval :=
  JObj (own_order (fold_left (fun o kv => om_set kv.1 kv.2 o) fields [])).

(** [fuel] bounds the number of tokens; every token takes at least a
    character. *)
Fixpoint parse_value (fuel : nat) (s : string) {struct fuel} : option (jsval * string) :=
  match fuel with
  | O => None
  | S fuel =>
      match skip_ws s with
      | String "034" s' => '(t, r) ← read_string s'; Some (JStr t, r)
      | String "[" s' =>
          match skip_ws s' with
          | String "]" r => Some (JArr [], r)
          | _ => '(l, r) ← parse_items fuel s'; Some (JArr l, r)
          end
      | String "{" s' =>
          match skip_ws s' with
          | String "}" r => Some (JObj [], r)
          | _ => '(l, r) ← parse_fields fuel s'; Some (object_of l, r)
          end
      | String "t" _ as s1 => literal "true" s1 (JBool true)
      | String "f" _ as s1 => literal "false" s1 (JBool false)
      | String "n" _ as s1 => literal "null" s1 JNull
      | s1 => '(x, r) ← read_number s1; Some (JNum x, r)
      end
  end
with parse_items (fuel : nat) (s : string) {struct fuel} : option (list jsval * string) :=
  match fuel with
  | O => None
  | S fuel =>
      '(v, r) ← parse_value fuel s;
      match skip_ws r with
      | String "]" r' => Some ([v], r')
      | String "," r' => '(l, r'') ← parse_items fuel r'; Some (v :: l, r'')
      | _ => None
      end
  end
with parse_fields (fuel : nat) (s : string) {struct fuel} : option (list (string * jsval) * string) :=
  match fuel with
  | O => None
  | S fuel =>
      match skip_ws s with
      | String "034" s' =>
          '(k, r) ← read_string s';
          match skip_ws r with
          | String ":" r' =>
              '(v, r'') ← parse_value fuel r';
              match skip_ws r'' with
              | String "}" t => Some ([(k, v)], t)
              | String "," t => '(l, t') ← parse_fields fuel t; Some ((k, v) :: l, t')
              | _ => None
              end
          | _ => None
          end
      | _ => None
      end
  end.

Definition syntax_error : jserror := JsError "SyntaxError" "Unexpected token in JSON".

Definition json_parse (s : string) : result jsval :=
  match parse_value (2 * String.length s + 1) s with
  | Some (v, r) => match skip_ws r with EmptyString => Ok v | _ => Throw syntax_error end
  | None => Throw syntax_error
  end.

Example parse_ex : json_parse ("{ " ++ quoted "b" ++ " : [1, -2.5e1, true , null],  " ++
    quoted "7" ++ ":" ++ quoted "a\n\u0041" ++ ", " ++ quoted "b" ++ ":{}}")%string =
  Ok (JObj [("7", JStr ("a" ++ String "010" "A")); ("b", JObj [])]).
Proof. vm_compute. reflexivity. Qed.
Example parse_numbers : json_parse "[0, -0, 10, 0.1, 1e21, 123456789012345678901]" =
  Ok (JArr [JNum num_zero; JNum (S754_zero true); JNum (num_of_Z 10); JNum (num_of_decimal 1 1);
            JNum (num_of_Z (10 ^ 21)); JNum (num_of_Z 123456789012345678901)]).
Proof. vm_compute. reflexivity. Qed.
Example parse_bad : json_parse "01" = Throw syntax_error /\ json_parse "[1,]" = Throw syntax_error /\
  json_parse "{} x" = Throw syntax_error /\ json_parse "" = Throw syntax_error.
Proof. vm_compute. done. Qed.

(** * Round trip *)

(** An integer below [2^53], which prints as its decimal expansion. *)
Definition safe_num (x : num) : bool :=
  let z := num_floor x in
  (0 <=? z) && (z <? 2 ^ prec) && bool_decide (num_of_Z z = x).

Fixpoint json_plain (v : jsval) : bool :=
  match v with
  | JNull | JBool _ | JStr _ => true
  | JNum x => safe_num x
  | JArr l => forallb json_plain l
  | JObj l => bool_decide (NoDup l.*1) && bool_decide ((own_order l).*1 = l.*1) &&
              forallb (fun kv => json_plain kv.2) l
  | _ => false
  end.

Lemma own_order_perm {V} (l : list (string * V)) : own_order l ≡ₚ l.
Proof.
  unfold own_order. rewrite sort_by_perm. induction l as [|kv l IH]; [done|].
  rewrite !filter_cons. destruct (decide (is_Some (array_index kv.1))) as [H|H].
  - rewrite (decide_False (P := ~ _)) by tauto. simpl. by f_equiv.
  - rewrite (decide_True (P := ~ _)) by done. rewrite <- Permutation_middle. by f_equiv.
Qed.

Lemma perm_same_keys {V} (l1 l2 : list (string * V)) :
  NoDup l2.*1 -> l1.*1 = l2.*1 -> l1 ≡ₚ l2 -> l1 = l2.
Proof.
  revert l2. induction l1 as [|[k v] l1 IH]; intros [|[k' v'] l2] Hn Hk Hp; try done.
  simpl in Hk. injection Hk as -> Hk. assert (v = v') as ->.
  { eapply (fst_unique _ k'); [exact Hn| |left]. rewrite <- Hp. left. }
  f_equal. apply NoDup_cons in Hn as [_ Hn]. apply IH; [done..|]. by eapply Permutation.Permutation_cons_inv.
Qed.

Lemma own_order_id {V} (l : list (string * V)) :
  NoDup l.*1 -> (own_order l).*1 = l.*1 -> own_order l = l.
Proof. intros Hn Hk. apply perm_same_keys; [done..|]. apply own_order_perm. Qed.

Lemma set_all_fresh (l o : list (string * jsval)) : NoDup (o ++ l).*1 ->
  fold_left (fun o kv => om_set kv.1 kv.2 o) l o = o ++ l.
Proof.
  revert o. induction l as [|[k v] l IH]; intros o Hn; simpl; [by rewrite app_nil_r|].
  rewrite om_set_fresh.
  - rewrite IH; [by rewrite <- app_assoc|]. by rewrite <- app_assoc.
  - rewrite fmap_app, NoDup_app in Hn. destruct Hn as (_ & Hd & _). intros Hk.
    apply (Hd _ Hk). simpl. left.
Qed.

Lemma object_of_id (l : list (string * jsval)) :
  NoDup l.*1 -> (own_order l).*1 = l.*1 -> object_of l = JObj l.
Proof. intros Hn Hk. unfold object_of. rewrite set_all_fresh by done. by rewrite own_order_id. Qed.

Lemma safe_num_int x : safe_num x = true -> exists z, safe_int z /\ x = num_of_Z z.
Proof.
  unfold safe_num. rewrite !andb_true_iff, Z.leb_le, Z.ltb_lt, bool_decide_eq_true.
  intros [[??] <-]. by eexists.
Qed.

Lemma read_json_char c t :
  read_string (json_char c ++ t) = ('(u, r) ← read_string t; Some (String c u, r)).
Proof. destruct c as [[] [] [] [] [] [] [] []]; reflexivity. Qed.

Lemma read_json_chars s rest : read_string (json_chars s ++ String "034" rest) = Some (s, rest).
Proof.
  induction s as [|c s IH]; [done|]. cbn [json_chars]. rewrite <- str_app_assoc.
  rewrite read_json_char. simpl. by rewrite IH.
Qed.

Lemma quote_app s rest :
  (json_quote s ++ rest)%string = String "034" (json_chars s ++ String "034" rest).
Proof.
  change (String "034" ((json_chars s ++ String "034" "") ++ rest) =
    String "034" (json_chars s ++ String "034" rest))%string. by rewrite <- str_app_assoc.
Qed.

(** What may follow a value in a text. *)
Definition follows_value (s : string) : Prop :=
  match s with
  | EmptyString => True
  | String c _ => c = ","%char \/ c = "]"%char \/ c = "}"%char
  end.

(** What a value may start with. *)
Definition starts_value (s : string) : Prop :=
  match s with
  | EmptyString => False
  | String c _ => is_json_space c = false /\ c <> "]"%char /\ c <> "}"%char
  end.

Lemma follows_no_digit s : follows_value s -> no_digit s.
Proof. destruct s as [|c s]; [done|]. simpl. by intros [-> | [-> | ->]]. Qed.

Lemma follows_frac ip s : follows_value s -> read_frac ip s = Some (ip, O, s).
Proof. destruct s as [|c s]; [done|]. simpl. by intros [-> | [-> | ->]]. Qed.

Lemma follows_exp s : follows_value s -> read_exp s = Some (0, s).
Proof. destruct s as [|c s]; [done|]. simpl. by intros [-> | [-> | ->]]. Qed.

(** The text of a positive integer starts with a digit other than 0. *)
Lemma str_of_pos_head (p : positive) : exists d s, str_of_Z (Z.pos p) = String d s /\
  exists v, digit_val d = Some v /\ v <> 0.
Proof.
  rewrite pretty_pos. assert (H : forall x t, (0 < x)%N -> exists d s, pretty_N_go x t = String d s /\
    exists v, digit_val d = Some v /\ v <> 0); [|by apply H].
  intros x. induction x as [x IH] using (well_founded_induction N.lt_wf_0); intros t Hx.
  rewrite pretty_N_go_step by done. assert (Hmod : (x mod 10 < 10)%N) by (apply N.mod_lt; lia).
  destruct (N.eq_0_gt_0_cases (x / 10)) as [E|E]; [|apply IH; [apply N.div_lt; lia|done]].
  rewrite E, pretty_N_go_0. eexists _, _. split; [done|]. eexists. split; [by apply digit_val_char|].
  pose proof (N.div_mod x 10 ltac:(lia)) as HH. rewrite E in HH. lia.
Qed.

Lemma digit_not (c : ascii) v : digit_val c = Some v -> v <> 0 ->
  (nat_of_ascii c =? 48)%nat = false /\ (49 <= nat_of_ascii c <= 57)%nat.
Proof.
  unfold digit_val. destruct (_ && _) eqn:E; [|done]. intros [= <-] Hv.
  apply andb_true_iff in E as [E1%Z.leb_le E2%Z.leb_le]. split; [apply Nat.eqb_neq|]; lia.
Qed.

Lemma read_number_int (z : Z) rest : safe_int z -> follows_value rest ->
  read_number (str_of_Z z ++ rest) = Some (num_of_Z z, rest).
Proof.
  intros [Hz1 Hz2] Hr. destruct z as [|p|p]; [|..|lia].
  { change (read_number (String "0" rest) = Some (num_zero, rest)). unfold read_number.
    rewrite follows_frac by done. simpl. by rewrite follows_exp. }
  destruct (reads_str_of_Z (Z.pos p) ltac:(lia)) as [n Hn].
  destruct (str_of_pos_head p) as (d & t & E & v & Hd & Hv).
  pose proof (Hn rest 0 (follows_no_digit _ Hr)) as H. rewrite E in H |- *.
  destruct (digit_not d v Hd Hv) as [H0 Hrange].
  assert (Hhead : read_number (String d t ++ rest) =
    let '(ip, n, s2) := read_digits (String d (t ++ rest)) 0 in
    match n with O => None | _ => '(p, k, s3) ← read_frac ip s2; '(e, s4) ← read_exp s3;
      Some (dec_to_num false p (e - Z.of_nat k), s4) end).
  { clear -H0 Hrange. destruct d as [[] [] [] [] [] [] [] []]; try done; exfalso; vm_compute in Hrange; lia. }
  rewrite Hhead. change (read_digits (String d t ++ rest) 0 = (0 * 10 ^ Z.of_nat n + Z.pos p, n, rest)) in H.
  change (String d t ++ rest)%string with (String d (t ++ rest)) in H. rewrite H.
  rewrite Z.mul_0_l, Z.add_0_l. destruct n as [|n].
  { simpl in H. rewrite Hd in H. by destruct (read_digits (t ++ rest) _) as [[??]?]. }
  simpl. rewrite follows_frac by done. simpl. rewrite follows_exp by done. simpl.
  by rewrite Pos.mul_1_r.
Qed.

Lemma starts_skip s : starts_value s -> skip_ws s = s.
Proof. destruct s as [|c s]; [done|]. simpl. by intros [-> _]. Qed.

(** A value of the given kind is read back from its text, whatever follows. *)
Definition reads_back (v : jsval) : Prop :=
  exists t, stringify v = Ok (Some t) /\ starts_value t /\
  forall rest fuel, follows_value rest -> (2 * String.length t < fuel)%nat ->
    parse_value fuel (t ++ rest) = Some (v, rest).

Lemma reads_back_str s : reads_back (JStr s).
Proof.
  exists (json_quote s). split; [done|]. split; [done|]. intros rest [|fuel] _ Hf; [lia|].
  rewrite quote_app. simpl. by rewrite read_json_chars.
Qed.

Lemma reads_back_num x : safe_num x = true -> reads_back (JNum x).
Proof.
  intros (z & Hz & ->)%safe_num_int. exists (str_of_Z z).
  assert (Hfin : is_finite (num_of_Z z) = true).
  { pose proof (num_of_Z_safe z Hz) as H. by destruct (num_of_Z z). }
  split; [by simpl; rewrite Hfin, num_to_string_int|].
  assert (Hp : forall rest fuel, follows_value rest ->
    starts_value (str_of_Z z) /\ parse_value (S fuel) (str_of_Z z ++ rest) = Some (JNum (num_of_Z z), rest)).
  { intros rest fuel Hr. pose proof (read_number_int z rest Hz Hr) as Hn.
    destruct z as [|p|p]; [|..|by destruct Hz].
    - split; [done|]. change (str_of_Z 0) with "0" in *.
      transitivity ('(x, r) ← read_number ("0" ++ rest); Some (JNum x, r)); [done|by rewrite Hn].
    - destruct (str_of_pos_head p) as (d & t & E & v & Hd & Hv). rewrite E in Hn |- *.
      destruct (digit_not d v Hd Hv) as [_ Hrange]. revert Hn.
      change (String d t ++ rest)%string with (String d (t ++ rest)). generalize (t ++ rest)%string.
      intros u Hn. destruct d as [[] [] [] [] [] [] [] []]; try (exfalso; vm_compute in Hrange; lia).
      all: split; [done|]; match goal with |- parse_value _ ?s = _ =>
        transitivity ('(x, r) ← read_number s; Some (JNum x, r)); [done|by rewrite Hn] end. }
  split; [by apply (Hp "" O I)|]. intros rest [|fuel] Hr Hf; [lia|]. by apply Hp.
Qed.

Lemma starts_app s t : starts_value s -> starts_value (s ++ t).
Proof. by destruct s. Qed.

Lemma starts_length s : starts_value s -> (1 <= String.length s)%nat.
Proof. destruct s; simpl; [done|lia]. Qed.

Lemma join_cons (sep x : string) (xs : list string) : xs <> [] ->
  join sep (x :: xs) = (x ++ sep ++ join sep xs)%string.
Proof. by destruct xs. Qed.

Lemma items_back l : Forall reads_back l -> exists ts, json_items stringify l = Ok ts /\
  (l = [] <-> ts = []) /\
  (l <> [] -> starts_value (join "," ts) /\ forall rest fuel,
     (2 * String.length (join "," ts) + 1 < fuel)%nat ->
     parse_items fuel (join "," ts ++ String "]" rest) = Some (l, rest)).
Proof.
  induction 1 as [|v l (t & Ht & Hs & Hp) Hl (ts & Hts & Hnil & IH)]; [by exists []|].
  exists (t :: ts). split; [by cbn [json_items]; rewrite Ht; simpl; rewrite Hts|]. split; [done|]. intros _.
  pose proof (starts_length t Hs). destruct (decide (l = [])) as [->|Hne].
  - rewrite (proj1 Hnil eq_refl). simpl. split; [done|]. intros rest [|fuel] Hf; [lia|].
    cbn [parse_items]. rewrite Hp by (simpl; auto; lia). done.
  - destruct (IH Hne) as [Hs' IH']. rewrite join_cons by naive_solver. split; [by apply starts_app|].
    intros rest [|fuel]; [lia|]. rewrite !str_length_app. simpl String.length. intros Hf.
    rewrite <- !str_app_assoc. cbn [parse_items].
    change ("," ++ join "," ts ++ String "]" rest)%string with (String "," (join "," ts ++ String "]" rest)).
    rewrite Hp by (simpl; auto; lia). simpl. by rewrite IH' by lia.
Qed.

Lemma fields_back l : Forall (fun kv => reads_back kv.2) l -> exists ts,
  json_fields stringify l = Ok ts /\ (l = [] <-> ts = []) /\
  (l <> [] -> starts_value (join "," ts) /\ forall rest fuel,
     (2 * String.length (join "," ts) + 1 < fuel)%nat ->
     parse_fields fuel (join "," ts ++ String "}" rest) = Some (l, rest)).
Proof.
  induction 1 as [|[k v] l (t & Ht & Hs & Hp) Hl (ts & Hts & Hnil & IH)]; [by exists []|].
  exists ((json_quote k ++ ":" ++ t)%string :: ts). simpl in Ht.
  split; [by cbn [json_fields]; rewrite Ht; simpl; rewrite Hts|]. split; [done|]. intros _.
  assert (Hhead : forall u, (json_quote k ++ ":" ++ t ++ u)%string =
    String "034" (json_chars k ++ String "034" (String ":" (t ++ u)))) by (intros; by rewrite quote_app).
  pose proof (starts_length t Hs). destruct (decide (l = [])) as [->|Hne].
  - rewrite (proj1 Hnil eq_refl). simpl join. split; [by rewrite quote_app|].
    intros rest [|fuel]; [lia|]. rewrite !str_length_app. simpl String.length. intros Hf.
    rewrite <- !str_app_assoc, Hhead. cbn [parse_fields skip_ws]. simpl. rewrite read_json_chars. simpl.
    rewrite Hp by (simpl; auto; lia). done.
  - destruct (IH Hne) as [Hs' IH']. rewrite join_cons by naive_solver. split; [by rewrite <- str_app_assoc, quote_app|].
    intros rest [|fuel]; [lia|]. rewrite !str_length_app. simpl String.length. intros Hf.
    rewrite <- !str_app_assoc, Hhead. cbn [parse_fields skip_ws]. simpl. rewrite read_json_chars. simpl.
    change ("," ++ join "," ts ++ String "}" rest)%string with (String "," (join "," ts ++ String "}" rest)).
    rewrite Hp by (simpl; auto; lia). simpl. by rewrite IH' by lia.
Qed.

Lemma literal_app lit rest v : literal lit (lit ++ rest) v = Some (v, rest).
Proof.
  unfold literal. rewrite starts_with_app. do 2 f_equal.
  induction lit as [|c lit IH]; [by destruct rest|]. exact IH.
Qed.

Lemma parse_array fuel s : starts_value s ->
  parse_value (S fuel) (String "[" s) = ('(l, r) ← parse_items fuel s; Some (JArr l, r)).
Proof.
  intros Hs. transitivity (match skip_ws s with String "]" r => Some (JArr [], r)
    | _ => '(l, r) ← parse_items fuel s; Some (JArr l, r) end); [done|].
  rewrite starts_skip by done. destruct s as [|c s]; [done|]. destruct Hs as (_ & Hc & _).
  destruct c as [[] [] [] [] [] [] [] []]; done.
Qed.

Lemma parse_object fuel s : starts_value s ->
  parse_value (S fuel) (String "{" s) = ('(l, r) ← parse_fields fuel s; Some (object_of l, r)).
Proof.
  intros Hs. transitivity (match skip_ws s with String "}" r => Some (JObj [], r)
    | _ => '(l, r) ← parse_fields fuel s; Some (object_of l, r) end); [done|].
  rewrite starts_skip by done. destruct s as [|c s]; [done|]. destruct Hs as (_ & _ & Hc).
  destruct c as [[] [] [] [] [] [] [] []]; done.
Qed.

Lemma plain_reads_back v : json_plain v = true -> reads_back v.
Proof.
  induction v as [| |b|x|s| | | |l IH|o IH|] using jsval_ind_nested; intros Hv; try done; simpl in Hv.
  - exists "null". split; [done|]. split; [done|]. intros rest [|fuel] _ Hf; [lia|].
    apply (literal_app "null").
  - exists (if b then "true" else "false"). split; [by destruct b|].
    destruct b; (split; [done|]); intros rest [|fuel] _ Hf;
      [lia|apply (literal_app "true")|lia|apply (literal_app "false")].
  - by apply reads_back_num.
  - apply reads_back_str.
  - assert (Hl : Forall reads_back l).
    { rewrite Forall_forall in IH |- *. intros v Hin. apply IH; [done|].
      by apply (proj1 (forallb_true_iff _ _) Hv). }
    destruct (items_back l Hl) as (ts & Hts & Hnil & Hp). exists ("[" ++ join "," ts ++ "]")%string.
    split; [by cbn [stringify]; rewrite Hts|]. split; [done|]. intros rest [|fuel] _ Hf; [lia|].
    rewrite !str_length_app in Hf. simpl in Hf.
    change (("[" ++ join "," ts ++ "]") ++ rest)%string with (String "[" ((join "," ts ++ "]") ++ rest)).
    rewrite <- str_app_assoc. change ("]" ++ rest)%string with (String "]" rest).
    destruct (decide (l = [])) as [->|Hne]; [by rewrite (proj1 Hnil eq_refl)|].
    destruct (Hp Hne) as [Hs Hp']. rewrite parse_array by (by apply starts_app). by rewrite Hp' by lia.
  - apply andb_true_iff in Hv as [[Hn%bool_decide_eq_true Ho%bool_decide_eq_true]%andb_true_iff Hv].
    assert (Hl : Forall (fun kv => reads_back kv.2) o).
    { rewrite Forall_forall in IH |- *. intros kv Hin. apply IH; [done|].
      by apply (proj1 (forallb_true_iff _ _) Hv). }
    destruct (fields_back o Hl) as (ts & Hts & Hnil & Hp). exists (braces ts).
    split; [by cbn [stringify]; rewrite Hts|]. split; [done|]. unfold braces. intros rest [|fuel] _ Hf; [lia|].
    rewrite !str_length_app in Hf. simpl in Hf.
    change (("{" ++ join "," ts ++ "}") ++ rest)%string with (String "{" ((join "," ts ++ "}") ++ rest)).
    rewrite <- str_app_assoc. change ("}" ++ rest)%string with (String "}" rest).
    destruct (decide (o = [])) as [->|Hne]; [by rewrite (proj1 Hnil eq_refl)|].
    destruct (Hp Hne) as [Hs Hp']. rewrite parse_object by (by apply starts_app). rewrite Hp' by lia. simpl.
    by rewrite object_of_id.
Qed.

(** [JSON.parse] inverts [JSON.stringify] on plain payloads. *)
Lemma parse_stringify v : json_plain v = true ->
  exists t, stringify v = Ok (Some t) /\ json_parse t = Ok v.
Proof.
  intros (t & Ht & _ & Hp)%plain_reads_back. exists t. split; [done|]. unfold json_parse.
  pose proof (Hp "" (2 * String.length t + 1)%nat I ltac:(lia)) as H.
  replace (t ++ "")%string with t in H; [by rewrite H|].
  clear. induction t as [|c t IH]; [done|]. exact (f_equal (String c) IH).
Qed.
