(* ===== verification/TokenBase.v ===== *)
(** What the token code takes from its platform and its language.

    Base64, UTF-8, digests and HMAC-SHA256 belong to the platform: class
    [TokenPlatform], with what their documentation promises.  Byte strings are
    [string]s.  The language operations are those the code applies to values it
    has just read from JSON. *)

From S2P Require Import Prelude JsNum JsValue Json NumText JsonParse.
From Stdlib Require Import SpecFloat Ascii.

(** * The platform *)

Class TokenPlatform := {
  utf8_encode : string -> string;
  utf8_decode : string -> string;
  to_base64url : string -> string;             (** [b.toString("base64url")] *)
  of_base64url : string -> string;             (** [Buffer.from(s, "base64url")] *)
  of_base64 : string -> string;                (** [Buffer.from(s, "base64")] *)
  hmac_sha256 : string -> string -> string;    (** key, text *)
  sha256_bytes : string -> string
}.

(** What its documentation promises: encodings can be read back, base64url text
    has no dot and is empty for no bytes only, digests are not empty. *)
Class TokenPlatformLaws `{TokenPlatform} : Prop := {
  utf8_roundtrip s : utf8_decode (utf8_encode s) = s;
  utf8_nonempty s : s <> "" -> utf8_encode s <> "";
  base64url_roundtrip b : of_base64url (to_base64url b) = b;
  base64url_no_dot b : str_includes "." (to_base64url b) = false;
  base64url_nonempty b : b <> "" -> to_base64url b <> "";
  hmac_nonempty k m : hmac_sha256 k m <> ""
}.

(** * Language operations on parsed values *)

Definition js_truthy (v : jsval) : bool :=
  match v with
  | JUndef | JNull => false
  | JBool b => b
  | JNum x => negb (is_nan x || num_eqb x num_zero)
  | JStr s => negb (s =? "")%string
  | JBigInt z => negb (z =? 0)
  | _ => true
  end.

(** [v.k] for a key no built-in prototype has, on a value that is not null or
    undefined. *)
Definition member (k : string) (v : jsval) : jsval :=
  match v with JObj o => get_field k o | _ => JUndef end.

(** [`${v}`] for a value read from JSON: a property [toString] of its own is
    not callable, and the inherited [valueOf] gives the object back. *)
Definition not_primitive : jserror :=
  JsError "TypeError" "Cannot convert object to primitive value".
Fixpoint template_text (v : jsval) : result string :=
  match v with
  | JUndef => Ok "undefined"
  | JNull => Ok "null"
  | JBool b => Ok (if b then "true" else "false")
  | JNum x => Ok (num_to_string x)
  | JStr s => Ok s
  | JBigInt z => Ok (str_of_Z z)
  | JArr l =>
      ts ← (fix go l := match l with
        | [] => Ok []
        | v :: l' =>
            t ← match v with JUndef | JNull => Ok EmptyString | _ => template_text v end;
            rest ← go l'; Ok (t :: rest)
        end) l;
      Ok (join "," ts)
  | JObj o => if om_has "toString" o then Throw not_primitive else Ok "[object Object]"
  | JDate _ | JBytes _ | JFun => Ok ""          (** not read from JSON *)
  end.

(** The properties every object inherits. *)
Definition object_prototype : list string :=
  ["constructor"; "__defineGetter__"; "__defineSetter__"; "hasOwnProperty"; "__lookupGetter__";
   "__lookupSetter__"; "isPrototypeOf"; "propertyIsEnumerable"; "toString"; "valueOf"; "__proto__";
   "toLocaleString"].

(** [s.split(sep)] for a one-character separator. *)
Fixpoint segments (sep : ascii) (s : string) : list string :=
  match s with
  | EmptyString => [EmptyString]
  | String c s' =>
      if ascii_dec c sep then EmptyString :: segments sep s'
      else match segments sep s' with
           | x :: xs => String c x :: xs
           | [] => [String c EmptyString]
           end
  end.

(** [Number.isInteger]. *)
Definition num_is_integer (x : num) : bool :=
  match x with
  | S754_zero _ => true
  | S754_finite _ m e => (0 <=? e) || (Z.pos m mod 2 ^ (- e) =? 0)
  | _ => false
  end.

(** [Math.floor(now / 1000)] for a time in milliseconds. *)
Definition epoch_seconds (now : Z) : num := num_of_Z (now / 1000).

(** [v === s]. *)
Definition is_str (s : string) (v : jsval) : bool := match v with JStr t => (t =? s)%string | _ => false end.
Definition is_undefined (v : jsval) : bool := match v with JUndef => true | _ => false end.
Definition as_string (v : jsval) : option string := match v with JStr s => Some s | _ => None end.
Definition as_finite (v : jsval) : option num :=
  match v with JNum x => if is_finite x then Some x else None | _ => None end.
