(* ===== verification/Dpop.v ===== *)
(** Proofs of possession for device-bound tokens, [remote/dpop.ts].

    A proof is a three-part token signed by the device's key.  Checking it ends
    in an asynchronous signature check, so a validation is two steps: the checks
    before the wait, which consult the replay store, and the end, which records
    the proof's identifier.  ECDSA is a port. *)

From S2P Require Import Prelude JsNum JsValue Json NumText JsonParse TokenBase.
From Stdlib Require Import SpecFloat Ascii.

Section Dpop.
Context `{TP : TokenPlatform}.

(** * Base64url *)

Definition pad_of (s : string) : string :=
  match (String.length s mod 4)%nat with 1 => "===" | 2 => "==" | 3 => "=" | _ => "" end%nat.
Fixpoint standard_alphabet (s : string) : string :=
  match s with
  | EmptyString => EmptyString
  | String c s' => String (if ascii_dec c "-" then "+" else if ascii_dec c "_" then "/" else c)%char
                     (standard_alphabet s')
  end.
Definition b64urlDecode (s : string) : string := of_base64 (standard_alphabet s ++ pad_of s)%string.

(** [None] for undefined: the text is not JSON. *)
Definition b64urlDecodeJson (s : string) : option jsval :=
  match json_parse (utf8_decode (b64urlDecode s)) with Ok v => Some v | Throw _ => None end.

(** * Key thumbprints *)

(** The key is whatever the header holds: a JSON value that is truthy. *)
Definition computeJwkThumbprint (jwk : jsval) : result string :=
  if negb (is_str "EC" (member "kty" jwk)) then Throw (JsError "Error" "dpop: only kty=EC supported")
  else if negb (is_str "P-256" (member "crv" jwk)) then Throw (JsError "Error" "dpop: only crv=P-256 supported")
  else if negb (js_truthy (member "x" jwk)) || negb (js_truthy (member "y" jwk)) then
    Throw (JsError "Error" "dpop: missing x or y in JWK")
  else
    canonical ← stringify (JObj [("crv", member "crv" jwk); ("kty", member "kty" jwk);
                                 ("x", member "x" jwk); ("y", member "y" jwk)]);
    Ok (to_base64url (sha256_bytes (utf8_encode (default "undefined" canonical)))).

(** * Validation *)

Record ValidateDpopOptions (S : Type) := mkDpopOptions {
  expectedJkt : string;
  expectedHtm : string;
  expectedHtu : string;
  accessToken : option string;
  maxAgeSec : option Z;
  isReplayed : option (string -> S -> S * bool);
  recordJti : option (string -> num -> S -> S)
}.

Inductive DpopValidationResult :=
| ValidatedDpop (jkt : string) (claims : jsval)
| DpopFailure (reason : string).

(** What passed the checks and waits for the signature. *)
Record pending_proof := mkProof {
  pp_jwk : jsval; pp_jkt : string; pp_claims : jsval; pp_iat : num; pp_jti : string;
  pp_data : string; pp_sig : string
}.

(** The header: the key and its thumbprint. *)
Definition check_header (headerB64 expected : string) : result (string + (jsval * string)) :=
  match b64urlDecodeJson headerB64 with
  | None => Ok (inl "header not JSON")
  | Some header =>
      if negb (js_truthy header) then Ok (inl "header not JSON")
      else if negb (is_str "dpop+jwt" (member "typ" header)) then Ok (inl "typ must be dpop+jwt")
      else if negb (is_str "ES256" (member "alg" header)) then
        t ← (match member "alg" header with JUndef | JNull => Ok "missing" | a => template_text a end);
        Ok (inl ("alg " ++ t ++ " not allowed")%string)
      else
        let jwk := member "jwk" header in
        if negb (js_truthy jwk) then Ok (inl "header missing jwk")
        else if negb (is_str "EC" (member "kty" jwk)) || negb (is_str "P-256" (member "crv" jwk)) then
          Ok (inl "jwk must be EC P-256")
        else if negb (is_undefined (member "d" jwk)) then Ok (inl "jwk must be public (no d)")
        else
          Ok (match computeJwkThumbprint jwk with
              | Throw e => inl ("thumbprint failed: " ++ err_message e)%string
              | Ok jkt => if (jkt =? expected)%string then inr (jwk, jkt) else inl "jkt mismatch"
              end)
  end.

(** The claims: issue time and identifier. *)
Definition check_claims {S} (o : ValidateDpopOptions S) (payloadB64 : string) (now : Z)
    : string + (jsval * num * string) :=
  match b64urlDecodeJson payloadB64 with
  | None => inl "payload not JSON"
  | Some claims =>
      let htu := nth 0 (segments "#" (nth 0 (segments "?" (expectedHtu _ o)) "")) "" in
      if negb (js_truthy claims) then inl "payload not JSON"
      else if negb (is_str (expectedHtm _ o) (member "htm" claims)) then inl "htm mismatch"
      else if negb (is_str htu (member "htu" claims)) then inl "htu mismatch"
      else match as_finite (member "iat" claims), as_string (member "jti" claims) with
      | None, _ => inl "iat missing or not numeric"
      | _, None | _, Some EmptyString => inl "jti missing"
      | Some iat, Some jti =>
          let maxAge := num_of_Z (default 60 (maxAgeSec _ o)) in
          if num_gtb iat (num_add (epoch_seconds now) maxAge) then inl "iat in the future"
          else if num_ltb iat (num_sub (epoch_seconds now) maxAge) then inl "iat too old"
          else match accessToken _ o, as_string (member "ath" claims) with
          | Some tok, Some (String _ _ as ath) =>
              if (ath =? to_base64url (sha256_bytes (utf8_encode tok)))%string then inr (claims, iat, jti)
              else inl "ath mismatch"
          | _, _ => inr (claims, iat, jti)
          end
      end
  end.

(** Everything before the wait. *)
Definition begin_proof {S} (o : ValidateDpopOptions S) (dpopJwt : string) (now : Z) (s : S)
    : S * result (string + pending_proof) :=
  if (dpopJwt =? "")%string then (s, Ok (inl "empty proof"))
  else match segments "." dpopJwt with
  | [headerB64; payloadB64; sigB64] =>
      match check_header headerB64 (expectedJkt _ o) with
      | Throw e => (s, Throw e)
      | Ok (inl reason) => (s, Ok (inl reason))
      | Ok (inr (jwk, jkt)) =>
          match check_claims o payloadB64 now with
          | inl reason => (s, Ok (inl reason))
          | inr (claims, iat, jti) =>
              let '(s, replayed) := match isReplayed _ o with Some f => f jti s | None => (s, false) end in
              if replayed : bool then (s, Ok (inl "replayed jti"))
              else (s, Ok (inr (mkProof jwk jkt claims iat jti
                     (utf8_encode (headerB64 ++ "." ++ payloadB64)%string) (b64urlDecode sigB64))))
          end
      end
  | _ => (s, Ok (inl "malformed (segments)"))
  end.

(** The signature check, then the record. *)
Definition end_proof {S} (verify : jsval -> string -> string -> result bool)
    (o : ValidateDpopOptions S) (p : pending_proof) (s : S) : S * DpopValidationResult :=
  match verify (pp_jwk p) (pp_sig p) (pp_data p) with
  | Throw e => (s, DpopFailure ("signature verify failed: " ++ err_message e)%string)
  | Ok false => (s, DpopFailure "signature mismatch")
  | Ok true =>
      let expiresAtMs := num_mul (num_add (pp_iat p) (num_of_Z (default 60 (maxAgeSec _ o))))
                           (num_of_Z 1000) in
      let s := match recordJti _ o with Some f => f (pp_jti p) expiresAtMs s | None => s end in
      (s, ValidatedDpop (pp_jkt p) (pp_claims p))
  end.

Definition validateDpopProof {S} (verify : jsval -> string -> string -> result bool)
    (o : ValidateDpopOptions S) (dpopJwt : string) (now : Z) (s : S) : S * result DpopValidationResult :=
  match begin_proof o dpopJwt now s with
  | (s, Throw e) => (s, Throw e)
  | (s, Ok (inl reason)) => (s, Ok (DpopFailure reason))
  | (s, Ok (inr p)) => let '(s, r) := end_proof verify o p s in (s, Ok r)
  end.
End Dpop.

(** * The in-process replay store *)

Record DpopReplayStore := mkStore { seen : list (string * num); maxSize : Z }.

Definition newReplayStore (maxSize : option Z) : DpopReplayStore := mkStore [] (default 10000 maxSize).

Definition gcExpired (nowMs : Z) (s : DpopReplayStore) : DpopReplayStore :=
  mkStore (List.filter (fun kv => negb (num_leb kv.2 (num_of_Z nowMs))) (seen s)) (maxSize s).

Definition store_isReplayed (jti : string) (nowMs : Z) (s : DpopReplayStore) : DpopReplayStore * bool :=
  let s := gcExpired nowMs s in
  (s, match om_get jti (seen s) with Some exp => num_gtb exp (num_of_Z nowMs) | None => false end).

Definition store_record (jti : string) (expiresAtMs : num) (nowMs : Z) (s : DpopReplayStore)
    : DpopReplayStore :=
  let s := gcExpired nowMs s in
  let m := om_set jti expiresAtMs (seen s) in
  if maxSize s <? Z.of_nat (length m) then
    match m with
    | (oldestKey, _) :: _ => mkStore (om_delete oldestKey m) (maxSize s)
    | [] => mkStore m (maxSize s)
    end
  else mkStore m (maxSize s).

Definition store_reset (s : DpopReplayStore) : DpopReplayStore := mkStore [] (maxSize s).
Definition store_size (s : DpopReplayStore) : Z := Z.of_nat (length (seen s)).

(** * The store as the HTTP server uses it *)

(** One validation with its three clock readings: in the validation, in the
    replay check, in the record. *)
Record check := mkCheck {
  ck_opts : ValidateDpopOptions DpopReplayStore; ck_jwt : string;
  ck_now : Z; ck_seen : Z; ck_stored : Z
}.

Definition wired (c : check) : ValidateDpopOptions DpopReplayStore :=
  let o := ck_opts c in
  mkDpopOptions _ (expectedJkt _ o) (expectedHtm _ o) (expectedHtu _ o) (accessToken _ o) (maxAgeSec _ o)
    (Some (fun jti s => store_isReplayed jti (ck_seen c) s))
    (Some (fun jti e s => store_record jti e (ck_stored c) s)).
