(* ===== verification/SubToken.v ===== *)
(** Capability-scoped sub-tokens, [remote/sub-token.ts].

    A token is [<payload>.<signature>], both in base64url: the payload is the
    JSON of the claims, the signature an HMAC of the payload text under the
    parent token. *)

From S2P Require Import Prelude JsNum JsValue Json NumText JsonParse TokenBase Dpop.
From Stdlib Require Import SpecFloat Ascii.

(** * Scopes *)

Definition SCOPE_RANK : list (string * Z) := [("read-only", 0); ("approve-only", 1); ("full", 2)].

(** [s in SCOPE_RANK]: own and inherited properties. *)
Definition in_scope_rank (s : string) : bool :=
  om_has s SCOPE_RANK || bool_decide (s ∈ object_prototype).

(** The required scope is one of the three: an inherited or missing entry of the
    granted one compares as NaN. *)
Definition scopeCovers (granted required : string) : bool :=
  match om_get granted SCOPE_RANK, om_get required SCOPE_RANK with
  | Some g, Some r => r <=? g
  | _, _ => false
  end.

(** * Minting *)

Record SubTokenClaims := mkClaims {
  cl_scope : string; cl_exp : num; cl_jti : string; cl_cnf : option string
}.

Definition claims_val (c : SubTokenClaims) : jsval :=
  JObj ([("v", JNum num_one); ("scope", JStr (cl_scope c)); ("exp", JNum (cl_exp c));
         ("jti", JStr (cl_jti c))] ++
        match cl_cnf c with Some jkt => [("cnf", JObj [("jkt", JStr jkt)])] | None => [] end).

Section Tokens.
Context `{TP : TokenPlatform}.

Definition b64urlEncode (text : string) : string := to_base64url (utf8_encode text).

(** [None] for undefined: the text is not JSON. *)
Definition b64urlDecodeJson (s : string) : option jsval :=
  match json_parse (utf8_decode (of_base64url s)) with Ok v => Some v | Throw _ => None end.

Record MintSubTokenOptions := mkMint {
  mo_parentToken : string; mo_scope : string; mo_ttlSec : num; mo_now : Z; mo_cnf : option string
}.

(** [randomHex] stands for [randomBytes(6).toString("hex")]. *)
Definition mintSubToken (o : MintSubTokenOptions) (randomHex : string) : result string :=
  if (mo_parentToken o =? "")%string then
    Throw (JsError "Error" "mintSubToken: parentToken cannot be empty")
  else if negb (num_is_integer (mo_ttlSec o)) || num_leb (mo_ttlSec o) num_zero then
    Throw (JsError "Error" "mintSubToken: ttlSec must be a positive integer")
  else if negb (in_scope_rank (mo_scope o)) then
    Throw (JsError "Error" ("mintSubToken: unknown scope " ++ quoted (mo_scope o))%string)
  else if (match mo_cnf o with Some jkt => (jkt =? "")%string | None => false end) then
    Throw (JsError "Error" "mintSubToken: cnf.jkt must be a non-empty string")
  else
    let claims := mkClaims (mo_scope o) (num_add (epoch_seconds (mo_now o)) (mo_ttlSec o)) randomHex
                    (mo_cnf o) in
    text ← stringify (claims_val claims);
    let payloadB64 := b64urlEncode (default "undefined" text) in
    let sig := hmac_sha256 (mo_parentToken o) payloadB64 in
    Ok (payloadB64 ++ "." ++ to_base64url sig)%string.

(** * Verification *)

Record VerifySubTokenResult := mkVerify {
  vr_valid : bool; vr_scope : option string; vr_reason : option string; vr_jti : option string;
  vr_cnf : option string
}.
Definition refusal (reason : string) : VerifySubTokenResult := mkVerify false None (Some reason) None None.

Definition is_one (v : jsval) : bool := match v with JNum x => num_eqb x num_one | _ => false end.

(** [claims.cnf.jkt] when [claims.cnf] is truthy and the member is a string. *)
Definition cnf_of (claims : jsval) : option string :=
  let cnf := member "cnf" claims in
  if js_truthy cnf then as_string (member "jkt" cnf) else None.

Definition verifySubToken (parentToken token : string) (now : Z) : result VerifySubTokenResult :=
  if (token =? "")%string || negb (str_includes "." token) then Ok (refusal "malformed")
  else
    let parts := firstn 2 (segments "." token) in
    let payloadB64 := nth 0 parts "" in
    let sigB64 := nth 1 parts "" in
    if (payloadB64 =? "")%string || (sigB64 =? "")%string then Ok (refusal "malformed")
    else
      match b64urlDecodeJson payloadB64 with
      | None => Ok (refusal "payload not JSON")
      | Some claims =>
          if negb (js_truthy claims) then Ok (refusal "payload not JSON")
          else if negb (is_one (member "v" claims)) then
            t ← template_text (member "v" claims); Ok (refusal ("unsupported version " ++ t)%string)
          else match as_finite (member "exp" claims) with
          | None => Ok (refusal "exp missing or not numeric")
          | Some exp =>
              match as_string (member "scope" claims) with
              | None => Ok (refusal "scope missing or unknown")
              | Some scope =>
                  if negb (in_scope_rank scope) then Ok (refusal "scope missing or unknown")
                  else if num_geb (epoch_seconds now) exp then Ok (refusal "expired")
                  else
                    let expected := hmac_sha256 parentToken payloadB64 in
                    let presented := of_base64url sigB64 in
                    if negb (String.length presented =? String.length expected)%nat ||
                       negb (presented =? expected)%string then Ok (refusal "signature mismatch")
                    else Ok (mkVerify true (Some scope) None (as_string (member "jti" claims)) (cnf_of claims))
              end
          end
      end.

(** [isRevoked] is absent or a predicate. *)
Definition resolveAuthScope (parentToken presentedToken : string) (now : Z)
    (isRevoked : option (string -> bool)) : result (option string) :=
  if (parentToken =? "")%string then Ok None
  else if (presentedToken =? "")%string then Ok None
  else
    let ab := utf8_encode parentToken in
    let bb := utf8_encode presentedToken in
    if (String.length ab =? String.length bb)%nat && (ab =? bb)%string then Ok (Some "full")
    else
      v ← verifySubToken parentToken presentedToken now;
      if negb (vr_valid v) then Ok None
      else if (match isRevoked, vr_jti v with Some f, Some jti => f jti | _, _ => false end) then Ok None
      else Ok (vr_scope v).

(** * Rebinding to a device *)

(** [jwk] is the device's key as it came in the request.  The clock is read
    once here, and once more by [mintSubToken]. *)
Record RebindSubTokenOptions := mkRebind {
  ro_parentToken : string; ro_oldSubToken : string; ro_jwk : jsval; ro_now : Z; ro_mintNow : Z
}.
Record RebindSubTokenResult := mkRebound {
  rb_subToken : string; rb_expiresAt : num; rb_scope : string; rb_oldJti : string; rb_newJti : string
}.

(** An error with its [code] property, or one without. *)
Inductive rebind_outcome :=
| Rebound (r : RebindSubTokenResult)
| RebindError (code message : string)
| RebindThrow (e : jserror).

Definition is_nonempty_str (v : jsval) : bool :=
  match v with JStr s => negb (s =? "")%string | _ => false end.

(** The three checks of the key. *)
Definition jwk_error (jwk : jsval) : option (string * string) :=
  if negb (js_truthy jwk) || negb (is_str "EC" (member "kty" jwk)) || negb (is_str "P-256" (member "crv" jwk))
  then Some ("jwk_invalid", "rebindSubToken: jwk must be EC P-256")
  else if negb (is_nonempty_str (member "x" jwk)) || negb (is_nonempty_str (member "y" jwk))
  then Some ("jwk_invalid", "rebindSubToken: jwk.x and jwk.y required")
  else if negb (is_undefined (member "d" jwk))
  then Some ("jwk_private", "rebindSubToken: jwk must not carry private scalar d")
  else None.

(** [(claims?.exp ?? old) * 1000]; an [exp] read here has been minted or
    verified: it is a number. *)
Definition exp_of (claims : option jsval) : option num :=
  match claims with Some c => as_finite (member "exp" c) | None => None end.

(** A new token with the remaining time of the old one. *)
Definition mintBound (o : RebindSubTokenOptions) (scope oldJti : string) (randomHex : string)
    : rebind_outcome :=
  let decoded tok := b64urlDecodeJson (nth 0 (segments "." tok) "") in
  match decoded (ro_oldSubToken o) with
  | None => RebindError "old_invalid" "rebindSubToken: payload decode failed"
  | Some oldClaims =>
      let oldExp := default num_nan (exp_of (Some oldClaims)) in
      let remainingTtl := num_sub oldExp (epoch_seconds (ro_now o)) in
      if num_leb remainingTtl num_zero then RebindError "old_expired" "rebindSubToken: oldSubToken expired"
      else match computeJwkThumbprint (ro_jwk o) with
      | Throw e => RebindThrow e
      | Ok jkt =>
          match mintSubToken (mkMint (ro_parentToken o) scope remainingTtl (ro_mintNow o) (Some jkt))
                  randomHex with
          | Throw e => RebindThrow e
          | Ok subToken =>
              let newClaims := decoded subToken in
              Rebound (mkRebound subToken
                (num_mul (default oldExp (exp_of newClaims)) (num_of_Z 1000)) scope oldJti
                (default "" (match newClaims with Some c => as_string (member "jti" c) | None => None end)))
          end
      end
  end.

Definition rebindSubToken (o : RebindSubTokenOptions) (randomHex : string) : rebind_outcome :=
  if (ro_parentToken o =? "")%string then RebindError "parent_missing" "rebindSubToken: parentToken required"
  else if (ro_oldSubToken o =? "")%string || negb (str_includes "." (ro_oldSubToken o)) then
    RebindError "old_malformed" "rebindSubToken: oldSubToken malformed"
  else match jwk_error (ro_jwk o) with
  | Some (code, message) => RebindError code message
  | None =>
      match verifySubToken (ro_parentToken o) (ro_oldSubToken o) (ro_now o) with
      | Throw e => RebindThrow e
      | Ok v =>
          match vr_valid v, vr_scope v, vr_jti v with
          | true, Some (String _ _ as scope), Some (String _ _ as oldJti) =>
              match vr_cnf v with
              | Some _ => RebindError "already_bound"
                            "rebindSubToken: oldSubToken already device-bound — revoke then re-mint"
              | None => mintBound o scope oldJti randomHex
              end
          | _, _, _ =>
              RebindError (if bool_decide (vr_reason v = Some "expired") then "old_expired" else "old_invalid")
                ("rebindSubToken: oldSubToken invalid — " ++ default "unknown" (vr_reason v))%string
          end
      end
  end.
End Tokens.
