(* ===== verification/TokenProps.v ===== *)
(** Sub-tokens: what is minted verifies, what verifies was signed, and a
    rebound token carries the authority of the old one.  Proofs of possession:
    what an accepted proof shows, and what the replay store remembers. *)

From S2P Require Import Prelude JsNum JsValue Json NumText JsonParse TokenBase Dpop.
From S2P Require Import SubToken.
From Stdlib Require Import SpecFloat Ascii.

(** * Segments *)

Lemma includes_cons c s : str_includes "." (String c s) = (if ascii_dec c "." then true else str_includes "." s).
Proof.
  destruct (ascii_dec c ".") as [->|Hc]; [by destruct s|]. cbn [str_includes String.prefix].
  destruct (ascii_dec "." c) as [E|]; [by subst c|done].
Qed.

Lemma segments_cons_dot s : segments "." (String "." s) = "" :: segments "." s.
Proof. done. Qed.

Lemma segments_nonempty c s : segments c s <> [].
Proof. destruct s as [|c' s]; simpl; [done|]. destruct (ascii_dec _ _); [done|]. by destruct (segments c s). Qed.

Lemma segments_app p q : str_includes "." p = false ->
  segments "." (p ++ String "." q) = p :: segments "." q.
Proof.
  induction p as [|c p IH]; [done|]. rewrite includes_cons. destruct (ascii_dec c ".") as [|Hc]; [done|].
  intros Hp. change (String c p ++ String "." q)%string with (String c (p ++ String "." q)).
  cbn [segments]. destruct (ascii_dec c "."); [done|]. by rewrite IH.
Qed.

Lemma segments_none p : str_includes "." p = false -> segments "." p = [p].
Proof.
  induction p as [|c p IH]; [done|]. rewrite includes_cons. destruct (ascii_dec c ".") as [|Hc]; [done|].
  intros Hp. cbn [segments]. destruct (ascii_dec c "."); [done|]. by rewrite IH.
Qed.

Lemma includes_app_dot p q : str_includes "." (p ++ String "." q) = true.
Proof.
  induction p as [|c p IH]; [exact (includes_cons "." q)|].
  change (String c p ++ String "." q)%string with (String c (p ++ String "." q)). rewrite includes_cons.
  by destruct (ascii_dec c ".").
Qed.

(** * Numbers *)

Lemma num_of_Z_integer z : safe_int z -> num_is_integer (num_of_Z z) = true.
Proof.
  intros [Hz1 Hz2]. destruct z as [|p|p]; [done| |lia]. rewrite num_of_Z_canonical by done. simpl.
  pose proof (digits_small p Hz2). destruct (Z.leb_spec 0 (digits p - prec)); [done|]. simpl.
  apply Z.eqb_eq. rewrite mantissa_val by done. replace (- (digits p - prec)) with (prec - digits p) by lia.
  apply Z.mod_mul, Z.pow_nonzero; lia.
Qed.

Lemma num_floor_int z : safe_int z -> num_floor (num_of_Z z) = z.
Proof.
  intros [Hz1 Hz2]. destruct z as [|p|p]; [done| |lia]. rewrite num_of_Z_canonical by done. simpl.
  pose proof (digits_small p Hz2). destruct (Z.leb_spec 0 (digits p - prec)) as [H'|H'].
  - rewrite mantissa_val by done. replace (prec - digits p) with 0 by lia.
    replace (digits p - prec) with 0 by lia. lia.
  - rewrite mantissa_val by done. replace (- (digits p - prec)) with (prec - digits p) by lia.
    apply Z.div_mul, Z.pow_nonzero; lia.
Qed.

Lemma safe_num_of_int z : safe_int z -> safe_num (num_of_Z z) = true.
Proof.
  intros Hz. unfold safe_num. rewrite num_floor_int by done. destruct Hz.
  rewrite !andb_true_iff, Z.leb_le, Z.ltb_lt. by rewrite bool_decide_eq_true_2.
Qed.

Lemma safe_int_finite z : safe_int z -> is_finite (num_of_Z z) = true.
Proof. intros Hz. pose proof (num_of_Z_safe z Hz). by destruct (num_of_Z z). Qed.

(** * Claims as text *)

Lemma claims_plain c : safe_num (cl_exp c) = true -> json_plain (claims_val c) = true.
Proof.
  intros Hc. destruct c as [sc ex ji [jkt|]]; cbn [cl_exp] in Hc; unfold claims_val;
    cbn [json_plain cl_scope cl_exp cl_jti cl_cnf app forallb snd]; rewrite Hc; vm_compute; done.
Qed.

Section Laws.
Context `{TPL : TokenPlatformLaws}.

Lemma decode_encode v : json_plain v = true ->
  exists t, stringify v = Ok (Some t) /\ b64urlDecodeJson (b64urlEncode t) = Some v /\ b64urlEncode t <> "".
Proof.
  intros (t & Ht & Hp)%parse_stringify. exists t. split; [done|]. unfold b64urlDecodeJson, b64urlEncode.
  rewrite base64url_roundtrip, utf8_roundtrip, Hp. split; [done|].
  apply base64url_nonempty, utf8_nonempty. by intros ->.
Qed.

(** The token of some claims, and how it is read. *)
Definition token_of (parent payload : string) : string :=
  (payload ++ "." ++ to_base64url (hmac_sha256 parent payload))%string.

Lemma token_parts parent p : str_includes "." p = false ->
  segments "." (token_of parent p) = [p; to_base64url (hmac_sha256 parent p)].
Proof.
  intros Hp. unfold token_of. change ("." ++ ?x)%string with (String "." x).
  rewrite segments_app by done. by rewrite segments_none by apply base64url_no_dot.
Qed.

Lemma mint_token parent scope ttl now cnf rnd :
  parent <> "" -> in_scope_rank scope = true -> safe_int ttl -> 0 < ttl -> cnf <> Some "" ->
  safe_num (num_add (epoch_seconds now) (num_of_Z ttl)) = true ->
  exists p, mintSubToken (mkMint parent scope (num_of_Z ttl) now cnf) rnd = Ok (token_of parent p) /\
    p <> "" /\ str_includes "." p = false /\
    b64urlDecodeJson p =
      Some (claims_val (mkClaims scope (num_add (epoch_seconds now) (num_of_Z ttl)) rnd cnf)).
Proof.
  intros Hparent Hsc Ht Hpos Hcnf Hexp. set (c := mkClaims _ _ _ _).
  destruct (decode_encode (claims_val c) (claims_plain c Hexp)) as (t & Hs & Hd & Hne).
  exists (b64urlEncode t). split; [|by split_and!; [|apply base64url_no_dot|]].
  unfold mintSubToken. cbn [mo_parentToken mo_scope mo_ttlSec mo_now mo_cnf].
  rewrite (proj2 (String.eqb_neq _ _) Hparent), num_of_Z_integer by done.
  change num_zero with (num_of_Z 0). rewrite (num_leb_int ttl 0) by (unfold safe_int in *; lia).
  replace (ttl <=? 0) with false by (symmetry; apply Z.leb_gt; lia). rewrite Hsc. cbn [negb orb].
  replace (match cnf with Some jkt => _ | None => _ end) with false.
  - fold c. by rewrite Hs.
  - destruct cnf as [jkt|]; [|done]. symmetry. apply String.eqb_neq. congruence.
Qed.

Lemma verify_token parent p now c e : p <> "" -> str_includes "." p = false ->
  b64urlDecodeJson p = Some (claims_val c) -> in_scope_rank (cl_scope c) = true ->
  cl_exp c = num_of_Z e -> safe_int e -> safe_int (now / 1000) ->
  verifySubToken parent (token_of parent p) now =
  Ok (if e <=? now / 1000 then refusal "expired"
      else mkVerify true (Some (cl_scope c)) None (Some (cl_jti c)) (cl_cnf c)).
Proof.
  intros Hne Hdot Hd Hsc He Hsafe Hnow. unfold verifySubToken. rewrite token_parts by done.
  replace (str_includes "." (token_of parent p)) with true by (symmetry; apply includes_app_dot).
  replace (token_of parent p =? "")%string with false.
  2:{ symmetry. apply String.eqb_neq. unfold token_of. destruct p; [done|]. discriminate. }
  cbn [negb orb firstn nth]. rewrite (proj2 (String.eqb_neq _ _) Hne).
  rewrite (proj2 (String.eqb_neq _ "")) by apply base64url_nonempty, hmac_nonempty. cbn [orb].
  rewrite Hd. destruct c as [sc ex ji cnf]. cbn [cl_scope cl_exp cl_jti cl_cnf] in *. subst ex.
  change (js_truthy (claims_val (mkClaims sc (num_of_Z e) ji cnf))) with true.
  change (member "v" (claims_val (mkClaims sc (num_of_Z e) ji cnf))) with (JNum num_one).
  change (member "exp" (claims_val (mkClaims sc (num_of_Z e) ji cnf))) with (JNum (num_of_Z e)).
  change (member "scope" (claims_val (mkClaims sc (num_of_Z e) ji cnf))) with (JStr sc).
  change (member "jti" (claims_val (mkClaims sc (num_of_Z e) ji cnf))) with (JStr ji).
  change (is_one (JNum num_one)) with true. cbn [negb as_finite as_string].
  rewrite safe_int_finite, Hsc by done. cbn [negb]. unfold epoch_seconds.
  rewrite num_geb_int by done. destruct (e <=? now / 1000); [done|].
  rewrite base64url_roundtrip, String.eqb_refl, Nat.eqb_refl. cbn [negb orb]. do 2 f_equal. by destruct cnf.
Qed.

(** What is minted verifies: with a parent token, a known scope and a
    positive time to live, minting succeeds, and until the expiry, and no
    longer, the token verifies under that parent with exactly the scope,
    identifier and device binding it was minted with. *)
Theorem mint_verifies parent scope ttl now cnf rnd :
  parent <> "" -> in_scope_rank scope = true -> 0 < ttl -> 0 <= now -> now / 1000 + ttl < 2 ^ prec ->
  cnf <> Some "" ->
  exists tok, mintSubToken (mkMint parent scope (num_of_Z ttl) now cnf) rnd = Ok tok /\
    forall now', safe_int (now' / 1000) ->
    verifySubToken parent tok now' =
      Ok (if now / 1000 + ttl <=? now' / 1000 then refusal "expired"
          else mkVerify true (Some scope) None (Some rnd) cnf).
Proof.
  intros Hparent Hsc Ht Hnow Hexp Hcnf. assert (Hs : 0 <= now / 1000) by (apply Z.div_pos; lia).
  assert (Hadd : num_add (epoch_seconds now) (num_of_Z ttl) = num_of_Z (now / 1000 + ttl))
    by (apply num_add_int; lia).
  destruct (mint_token parent scope ttl now cnf rnd) as (p & Hm & Hne & Hdot & Hd);
    [done|done|unfold safe_int; lia|done|done|rewrite Hadd; apply safe_num_of_int; unfold safe_int; lia|].
  exists (token_of parent p). split; [done|]. intros now' Hnow'.
  by rewrite (verify_token parent p now' _ (now / 1000 + ttl) Hne Hdot Hd Hsc Hadd) by (unfold safe_int; lia || done).
Qed.
End Laws.

(** * What verifies was signed *)

Section Vouched.
Context `{TP : TokenPlatform}.

(** The token carries, over the signature of the parent, unexpired claims that
    say what the verdict says. *)
Definition vouched (parent tok : string) (now : Z) (v : VerifySubTokenResult) : Prop :=
  exists p s rest claims exp scope,
    segments "." tok = p :: s :: rest /\ p <> "" /\ s <> "" /\
    of_base64url s = hmac_sha256 parent p /\
    b64urlDecodeJson p = Some claims /\ is_one (member "v" claims) = true /\
    member "exp" claims = JNum exp /\ is_finite exp = true /\
    num_geb (epoch_seconds now) exp = false /\
    member "scope" claims = JStr scope /\ in_scope_rank scope = true /\
    v = mkVerify true (Some scope) None (as_string (member "jti" claims)) (cnf_of claims).

Lemma segments_no_dot_single tok : str_includes "." tok = false -> segments "." tok = [tok].
Proof. apply segments_none. Qed.

Lemma as_finite_Some v x : as_finite v = Some x <-> v = JNum x /\ is_finite x = true.
Proof.
  destruct v as [| | |y| | | | | | |]; simpl; try (split; [done|]; by intros [? _]).
  destruct (is_finite y) eqn:E; split; try done; [by intros [= <-]|by intros [[= <-] _]|].
  intros [[= ->] ?]. congruence.
Qed.

Lemma as_string_Some v s : as_string v = Some s <-> v = JStr s.
Proof. by destruct v; simpl; split; intros [= ->]. Qed.

Lemma one_truthy k v : is_one (member k v) = true -> js_truthy v = true.
Proof. by destruct v. Qed.

(** Verification accepts exactly the vouched tokens. *)
Lemma verify_vouched parent tok now v :
  (verifySubToken parent tok now = Ok v /\ vr_valid v = true) <-> vouched parent tok now v.
Proof.
  unfold verifySubToken, vouched. split.
  - intros [E Hv]. destruct ((tok =? "")%string || _) eqn:Et; [injection E as <-; done|].
    apply orb_false_iff in Et as [_ Hdot]. apply negb_false_iff in Hdot.
    destruct (segments "." tok) as [|p [|s rest]] eqn:Es; [by apply segments_nonempty in Es| |].
    { simpl in E. destruct (_ || _) eqn:Ep in E; [injection E as <-; done|].
      apply orb_false_iff in Ep as [_ Ep]. done. }
    cbn [firstn nth] in E. destruct ((p =? "")%string || _) eqn:Ep; [injection E as <-; done|].
    apply orb_false_iff in Ep as [Hp%String.eqb_neq Hs%String.eqb_neq].
    destruct (b64urlDecodeJson p) as [claims|] eqn:Ec; [|injection E as <-; done].
    destruct (negb (js_truthy claims)); [injection E as <-; done|].
    destruct (is_one (member "v" claims)) eqn:E1; cbn [negb] in E.
    2:{ destruct (template_text _); simpl in E; [injection E as <-; done|done]. }
    destruct (as_finite (member "exp" claims)) as [exp|] eqn:Ee; [|injection E as <-; done].
    destruct (as_string (member "scope" claims)) as [scope|] eqn:Eo; [|injection E as <-; done].
    destruct (in_scope_rank scope) eqn:Er; cbn [negb] in E; [|injection E as <-; done].
    destruct (num_geb _ _) eqn:Ex; [injection E as <-; done|].
    destruct (_ || _) eqn:Eh in E; [injection E as <-; done|]. injection E as <-.
    apply orb_false_iff in Eh as [_ Eh%negb_false_iff%String.eqb_eq].
    apply as_finite_Some in Ee as [Ee ?]. apply as_string_Some in Eo.
    by exists p, s, rest, claims, exp, scope.
  - intros (p & s & rest & claims & exp & scope & Es & Hp & Hs & Hh & Hc & H1 & He & Hf & Hx & Ho & Hr & ->).
    split; [|done]. destruct (str_includes "." tok) eqn:Hdot; [|by rewrite segments_none in Es].
    replace (tok =? "")%string with false by (symmetry; apply String.eqb_neq; by intros ->).
    cbn [negb orb]. rewrite Es. cbn [firstn nth].
    rewrite (proj2 (String.eqb_neq _ _) Hp), (proj2 (String.eqb_neq _ _) Hs). cbn [orb].
    rewrite Hc, (one_truthy _ _ H1), H1. cbn [negb]. rewrite (proj2 (as_finite_Some _ _) (conj He Hf)), Ho.
    cbn [as_string]. rewrite Hr, Hx. cbn [negb]. by rewrite Hh, Nat.eqb_refl, String.eqb_refl.
Qed.

Definition scope_rank (s : string) : option Z := om_get s SCOPE_RANK.

(** Access is always vouched for: when a bearer token is resolved to a scope,
    either it is the parent token and the scope is full, or it carries unexpired
    claims with that scope, signed under the parent, whose identifier is not
    revoked; and a scope opens a route only if it is one of the three known ones
    and ranks at least as high as the route's. *)
Theorem access_vouched `{!TokenPlatformLaws} parent tok now revoked scope :
  resolveAuthScope parent tok now revoked = Ok (Some scope) ->
  parent <> "" /\
  ((tok = parent /\ scope = "full") \/
   exists v, vouched parent tok now v /\ vr_scope v = Some scope /\
     forall f jti, revoked = Some f -> vr_jti v = Some jti -> f jti = false) /\
  forall required, scopeCovers scope required = true ->
    exists g r, scope_rank scope = Some g /\ scope_rank required = Some r /\ r <= g.
Proof.
  unfold resolveAuthScope. destruct (String.eqb_spec parent ""); [done|].
  destruct (String.eqb_spec tok ""); [done|]. intros E. split; [done|]. split.
  - destruct (_ && _) eqn:Eq.
    + injection E as <-. left. apply andb_true_iff in Eq as [_ Eq%String.eqb_eq]. split; [|done].
      rewrite <- (utf8_roundtrip tok), <- Eq. apply utf8_roundtrip.
    + right. apply result_bind_ok in E as (v & Hv & E). destruct (vr_valid v) eqn:Hval; [|done].
      exists v. split; [by apply verify_vouched|]. cbn [negb] in E.
      destruct revoked as [f|], (vr_jti v) as [jti|] eqn:Ej; try (split; [by injection E|done]).
      destruct (f jti) eqn:Ef; [done|]. split; [by injection E|]. by intros ? ? [= <-] [= <-].
  - intros required. unfold scopeCovers, scope_rank.
    destruct (om_get scope _) as [g|], (om_get required _) as [r|]; try done.
    intros Hr%Z.leb_le. by exists g, r.
Qed.
End Vouched.

(** * Rebinding *)

Section Rebind.
Context `{TPL : TokenPlatformLaws}.

(** The expiry a token declares. *)
Definition declared_exp (tok : string) : option num :=
  exp_of (b64urlDecodeJson (nth 0 (segments "." tok) "")).

Lemma rebind_steps o rnd r : rebindSubToken o rnd = Rebound r ->
  exists v, verifySubToken (ro_parentToken o) (ro_oldSubToken o) (ro_now o) = Ok v /\ vr_valid v = true /\
    vr_scope v = Some (rb_scope r) /\ vr_cnf v = None /\ vr_jti v = Some (rb_oldJti r) /\
    jwk_error (ro_jwk o) = None /\ ro_parentToken o <> "" /\
    mintBound o (rb_scope r) (rb_oldJti r) rnd = Rebound r.
Proof.
  unfold rebindSubToken. destruct (String.eqb_spec (ro_parentToken o) ""); [done|].
  destruct (_ || _); [done|]. destruct (jwk_error _) as [[c m]|]; [done|].
  destruct (verifySubToken _ _ _) as [v|e] eqn:Ev; [|done].
  destruct (vr_valid v) eqn:Hv; [|done]. destruct (vr_scope v) as [[|c sc]|] eqn:Hs; [done| |done].
  destruct (vr_jti v) as [[|c' ji]|] eqn:Hj; [done| |done].
  destruct (vr_cnf v) eqn:Hc; [done|]. intros Hmint. exists v.
  assert (rb_scope r = String c sc /\ rb_oldJti r = String c' ji) as [-> ->].
  { revert Hmint. unfold mintBound. destruct (b64urlDecodeJson _); [|done].
    destruct (num_leb _ _); [done|]. destruct (computeJwkThumbprint _); [|done].
    destruct (mintSubToken _ _); [|done]. by intros [= <-]. }
  done.
Qed.

(** Rebinding inherits authority: when it succeeds, the old token was valid
    and not bound to a device, the key is a public P-256 key, and the new token
    verifies under the same parent with the same scope, bound to the thumbprint
    of the key, until the old expiry, later only by the whole seconds that
    elapsed between the two clock readings of the call. *)
Theorem rebind_inherits o rnd r e :
  rebindSubToken o rnd = Rebound r -> declared_exp (ro_oldSubToken o) = Some (num_of_Z e) ->
  0 <= ro_now o -> ro_now o / 1000 <= ro_mintNow o / 1000 ->
  safe_int (ro_mintNow o / 1000) -> safe_int e ->
  e + (ro_mintNow o / 1000 - ro_now o / 1000) < 2 ^ prec ->
  exists jkt, computeJwkThumbprint (ro_jwk o) = Ok jkt /\ jwk_error (ro_jwk o) = None /\
    (exists v, vouched (ro_parentToken o) (ro_oldSubToken o) (ro_now o) v /\ vr_cnf v = None /\
       vr_scope v = Some (rb_scope r)) /\
    let exp' := e + (ro_mintNow o / 1000 - ro_now o / 1000) in
    rb_expiresAt r = num_mul (num_of_Z exp') (num_of_Z 1000) /\
    forall now', safe_int (now' / 1000) ->
      verifySubToken (ro_parentToken o) (rb_subToken r) now' =
        Ok (if exp' <=? now' / 1000 then refusal "expired"
            else mkVerify true (Some (rb_scope r)) None (Some rnd) (Some jkt)).
Proof.
  intros Hr Hexp Hn0 Hn1 Hmn Hsafe Hbound. apply rebind_steps in Hr as (v & Hv & Hval & Hsc & Hcnf & _ & Hj & Hpar & Hm).
  assert (HV : vouched (ro_parentToken o) (ro_oldSubToken o) (ro_now o) v) by (by apply verify_vouched).
  assert (Hnow : 0 <= ro_now o / 1000) by (apply Z.div_pos; lia).
  assert (Hlt : ro_now o / 1000 < e /\ in_scope_rank (rb_scope r) = true).
  { destruct HV as (p & s & rest & claims & exp & scope & Es & _ & _ & _ & Hc & _ & He & Hf & Hx & _ & Hin & Ev).
    rewrite Ev in Hsc. injection Hsc as <-. split; [|done].
    unfold declared_exp in Hexp. rewrite Es in Hexp. simpl in Hexp. rewrite Hc in Hexp. simpl in Hexp.
    rewrite He in Hexp. simpl in Hexp. rewrite Hf in Hexp. injection Hexp as ->.
    unfold epoch_seconds in Hx. rewrite num_geb_int in Hx; [by apply Z.leb_gt in Hx| |done].
    unfold safe_int in *. lia. }
  destruct Hlt as [Hlt Hin]. unfold mintBound in Hm. unfold declared_exp in Hexp.
  destruct (b64urlDecodeJson _) as [oldClaims|] eqn:Eo; [|done].
  rewrite Hexp in Hm. cbn [default from_option id] in Hm.
  unfold epoch_seconds in Hm. rewrite num_sub_int in Hm by (unfold safe_int in *; lia).
  destruct (num_leb _ _); [done|]. destruct (computeJwkThumbprint (ro_jwk o)) as [jkt|] eqn:Ej; [|done].
  set (ttl := e - ro_now o / 1000) in *. set (exp' := e + _).
  destruct (mintSubToken _ _) as [tok|] eqn:Em; [|done].
  assert (Hjkt : Some jkt <> Some "").
  { intros [= ->]. unfold mintSubToken in Em. cbn in Em. by repeat case_match. }
  assert (Hadd : num_add (epoch_seconds (ro_mintNow o)) (num_of_Z ttl) = num_of_Z exp').
  { unfold epoch_seconds. rewrite num_add_int by (unfold ttl, exp', safe_int in *; lia).
    f_equal. unfold ttl, exp'. lia. }
  destruct (mint_token (ro_parentToken o) (rb_scope r) ttl (ro_mintNow o) (Some jkt) rnd)
    as (p & Hp & Hne & Hdot & Hd);
    [done|done|unfold ttl, safe_int in *; lia|unfold ttl; lia|done|
     rewrite Hadd; apply safe_num_of_int; unfold exp', safe_int in *; lia|].
  rewrite Hp in Em. injection Em as <-. exists jkt. split; [done|]. split; [done|]. split; [by exists v|].
  cbv zeta. rewrite token_parts in Hm by done. cbn [nth] in Hm. rewrite Hd in Hm.
  injection Hm as Hm. split.
  - rewrite <- Hm. cbn [rb_expiresAt]. f_equal.
    by rewrite Hadd, safe_int_finite by (unfold exp', safe_int in *; lia).
  - intros now' Hnow'. replace (rb_subToken r) with (token_of (ro_parentToken o) p) by (by rewrite <- Hm).
    by rewrite (verify_token (ro_parentToken o) p now' _ exp' Hne Hdot Hd Hin Hadd)
      by (unfold exp', safe_int in *; lia || done).
Qed.
End Rebind.

(** * Proofs of possession *)

(** * What an accepted proof shows *)

Section Accepted.
Context `{TP : TokenPlatform} {S : Type} (verify : jsval -> string -> string -> result bool).

(** The header names a public P-256 key with the expected thumbprint. *)
Definition holder_key (headerB64 expected : string) (jwk : jsval) : Prop :=
  exists header, Dpop.b64urlDecodeJson headerB64 = Some header /\
    member "typ" header = JStr "dpop+jwt" /\ member "alg" header = JStr "ES256" /\
    member "jwk" header = jwk /\ member "kty" jwk = JStr "EC" /\ member "crv" jwk = JStr "P-256" /\
    member "d" jwk = JUndef /\ computeJwkThumbprint jwk = Ok expected.

(** The address without query and fragment. *)
Definition bare_htu (htu : string) : string := nth 0 (segments "#" (nth 0 (segments "?" htu) "")) "".

(** The claims name this request, were issued around now, and match the access
    token when they name one. *)
Definition timely (o : ValidateDpopOptions S) (now : Z) (iat : num) : Prop :=
  let maxAge := num_of_Z (default 60 (maxAgeSec _ o)) in
  num_gtb iat (num_add (epoch_seconds now) maxAge) = false /\
  num_ltb iat (num_sub (epoch_seconds now) maxAge) = false.

Definition request_claims (o : ValidateDpopOptions S) (payloadB64 : string) (now : Z) (claims : jsval)
    (iat : num) (jti : string) : Prop :=
  Dpop.b64urlDecodeJson payloadB64 = Some claims /\
  member "htm" claims = JStr (expectedHtm _ o) /\ member "htu" claims = JStr (bare_htu (expectedHtu _ o)) /\
  member "iat" claims = JNum iat /\ is_finite iat = true /\ timely o now iat /\
  member "jti" claims = JStr jti /\ jti <> "" /\
  forall tok ath, accessToken _ o = Some tok -> member "ath" claims = JStr ath -> ath <> "" ->
    ath = to_base64url (sha256_bytes (utf8_encode tok)).

Lemma is_str_true s v : is_str s v = true <-> v = JStr s.
Proof. destruct v; simpl; split; try done; [by intros ->%String.eqb_eq|intros [= ->]; apply String.eqb_refl]. Qed.

Lemma is_undefined_true v : is_undefined v = true <-> v = JUndef.
Proof. by destruct v. Qed.

Lemma as_finite_inv v x : as_finite v = Some x -> v = JNum x /\ is_finite x = true.
Proof. destruct v as [| | |y| | | | | | |]; simpl; try done. destruct (is_finite y) eqn:E; [|done]. by intros [= <-]. Qed.

Lemma as_string_inv v s : as_string v = Some s -> v = JStr s.
Proof. by destruct v; simpl; intros [= ->]. Qed.

Lemma check_header_ok h expected jwk jkt : check_header h expected = Ok (inr (jwk, jkt)) ->
  jkt = expected /\ holder_key h expected jwk.
Proof.
  unfold check_header, holder_key. destruct (Dpop.b64urlDecodeJson h) as [header|]; [|done].
  destruct (negb (js_truthy header)); [done|].
  destruct (is_str "dpop+jwt" _) eqn:Et; [|done]. destruct (is_str "ES256" _) eqn:Ea; cbn [negb].
  2:{ destruct (match member "alg" header with JUndef | JNull => _ | a => _ end); done. }
  destruct (negb (js_truthy _)); [done|].
  destruct (is_str "EC" _) eqn:Ek; [|done]. destruct (is_str "P-256" _) eqn:Ec; [|done]. cbn [negb orb].
  destruct (is_undefined _) eqn:Ed; [|done]. cbn [negb].
  destruct (computeJwkThumbprint _) as [t|] eqn:Ej; [|done].
  destruct (String.eqb_spec t expected); [|done]. intros [= <- <-]. subst t. split; [done|]. exists header.
  apply is_str_true in Et, Ea, Ek, Ec. by apply is_undefined_true in Ed.
Qed.

Lemma check_claims_ok o p now claims iat jti :
  check_claims o p now = inr (claims, iat, jti) -> request_claims o p now claims iat jti.
Proof.
  unfold check_claims, request_claims, timely. destruct (Dpop.b64urlDecodeJson p) as [c|]; [|done]. cbv zeta.
  destruct (negb (js_truthy c)); [done|].
  destruct (is_str _ (member "htm" c)) eqn:Em; [|done]. destruct (is_str _ (member "htu" c)) eqn:Eu; [|done].
  apply is_str_true in Em, Eu. cbn [negb].
  destruct (as_finite (member "iat" c)) as [i|] eqn:Ei; [|done].
  destruct (as_string (member "jti" c)) as [[|a j]|] eqn:Ej; [done| |done].
  destruct (num_gtb i _) eqn:Eg; [done|]. destruct (num_ltb i _) eqn:El; [done|].
  apply as_finite_inv in Ei as [Ei Hf]. apply as_string_inv in Ej. intros H.
  assert (Hath : (claims, iat, jti) = (c, i, String a j) /\
    forall tok ath, accessToken S o = Some tok -> member "ath" c = JStr ath -> ath <> "" ->
      ath = to_base64url (sha256_bytes (utf8_encode tok))).
  { destruct (accessToken S o) as [tok|]; [|by injection H as <- <- <-].
    destruct (as_string (member "ath" c)) as [[|b ath]|] eqn:Eath.
    - split; [by injection H as <- <- <-|]. apply as_string_inv in Eath. intros tok' ath' _ E Hne. congruence.
    - apply as_string_inv in Eath. destruct (String.eqb_spec (String b ath)
        (to_base64url (sha256_bytes (utf8_encode tok)))) as [Ee|]; [|done].
      split; [by injection H as <- <- <-|]. intros tok' ath' [= <-] E _. congruence.
    - split; [by injection H as <- <- <-|]. intros tok' ath' _ E Hne. by rewrite E in Eath. }
  destruct Hath as [[= -> -> ->] Hath]. split_and!; done.
Qed.

Lemma begin_proof_ok o jwt now s s1 pp : begin_proof o jwt now s = (s1, Ok (inr pp)) ->
  exists h p g, segments "." jwt = [h; p; g] /\ holder_key h (expectedJkt _ o) (pp_jwk pp) /\
    pp_jkt pp = expectedJkt _ o /\
    request_claims o p now (pp_claims pp) (pp_iat pp) (pp_jti pp) /\
    pp_data pp = utf8_encode (h ++ "." ++ p)%string /\ pp_sig pp = b64urlDecode g /\
    match isReplayed _ o with Some f => f (pp_jti pp) s = (s1, false) | None => s1 = s end.
Proof.
  unfold begin_proof. destruct (jwt =? "")%string; [done|].
  destruct (segments "." jwt) as [|h [|p [|g [|? ?]]]]; try done.
  destruct (check_header h _) as [[reason|[jwk jkt]]|] eqn:Eh; try done.
  apply check_header_ok in Eh as [-> Eh].
  destruct (check_claims o p now) as [reason|[[claims iat] jti]] eqn:Ec; [done|].
  apply check_claims_ok in Ec. destruct (isReplayed S o) as [f|] eqn:Er.
  - destruct (f jti s) as [s2 [|]] eqn:Ef; [done|]. intros [= <- <-]. by exists h, p, g.
  - intros [= <- <-]. by exists h, p, g.
Qed.

(** Possession: a proof is accepted only when it has three parts, its header
    names a public P-256 key whose thumbprint is the expected one, its claims
    name this method and address and were issued within the window, they match
    the access token if they name one, the replay check did not know the
    identifier, and the signature over header and payload verifies under that
    key. *)
Theorem accepted_holds_key o jwt now s s' jkt claims :
  validateDpopProof verify o jwt now s = (s', Ok (ValidatedDpop jkt claims)) ->
  jkt = expectedJkt _ o /\
  exists h p g jwk iat jti, segments "." jwt = [h; p; g] /\ holder_key h jkt jwk /\
    request_claims o p now claims iat jti /\
    verify jwk (b64urlDecode g) (utf8_encode (h ++ "." ++ p)%string) = Ok true /\
    forall f, isReplayed _ o = Some f -> (f jti s).2 = false.
Proof.
  unfold validateDpopProof. destruct (begin_proof o jwt now s) as [s1 [[reason|pp]|e]] eqn:Eb; try done.
  apply begin_proof_ok in Eb as (h & p & g & Hs & Hk & Hj & Hc & Hd & Hg & Hr).
  unfold end_proof. rewrite Hg, Hd, Hj. destruct (verify _ _ _) as [[|]|e] eqn:Ev; try done.
  intros [= _ <- <-]. split; [done|]. exists h, p, g, (pp_jwk pp), (pp_iat pp), (pp_jti pp).
  split_and!; try done. intros f Ef. rewrite Ef in Hr. by rewrite Hr.
Qed.
End Accepted.

(** * The replay store *)

(** Keys are unique, and the store stays within its bound. *)
Record replay_inv (s : DpopReplayStore) : Prop := {
  keys_unique : NoDup (seen s).*1;
  within_bound : 0 <= maxSize s -> store_size s <= maxSize s
}.

Lemma om_get_filter (f : string * num -> bool) k v m :
  om_get k m = Some v -> f (k, v) = true -> om_get k (List.filter f m) = Some v.
Proof.
  intros Hg Hf. induction m as [|[k' v'] m IH]; [done|]. simpl in Hg. case_decide as Hk; [subst k'|].
  - injection Hg as ->. simpl. rewrite Hf. simpl. by rewrite decide_True.
  - simpl. destruct (f (k', v')); simpl; [rewrite decide_False by done|]; by apply IH.
Qed.

Lemma filter_keys_NoDup (f : string * num -> bool) (m : list (string * num)) :
  NoDup m.*1 -> NoDup (List.filter f m).*1.
Proof.
  induction m as [|[k v] m IH]; [done|]. intros [Hk Hnd]%NoDup_cons. simpl.
  destruct (f (k, v)); [|by apply IH]. csimpl. apply NoDup_cons. split; [|by apply IH].
  intros (y & E & Hy%list_elem_of_In%filter_In)%list_elem_of_fmap. apply Hk.
  apply list_elem_of_fmap. exists y. split; [done|]. apply list_elem_of_In. by destruct Hy.
Qed.

Lemma gc_inv now s : replay_inv s -> replay_inv (gcExpired now s).
Proof.
  intros [Hk Hb]. split; simpl; [by apply filter_keys_NoDup|]. intros H0. specialize (Hb H0).
  unfold store_size in *. simpl. pose proof (filter_length_le
    (fun kv : string * num => negb (num_leb kv.2 (num_of_Z now))) (seen s)). lia.
Qed.

Lemma replayed_inv jti now s : replay_inv s -> replay_inv (store_isReplayed jti now s).1.
Proof. apply gc_inv. Qed.

Lemma store_record_inv jti e now s : replay_inv s -> replay_inv (store_record jti e now s).
Proof.
  intros Hs%(gc_inv now). unfold store_record. set (s0 := gcExpired now s) in *.
  destruct Hs as [Hk Hb]. unfold store_size in *.
  destruct (Z.ltb_spec (maxSize s0) (Z.of_nat (length (om_set jti e (seen s0))))) as [Hlt|Hle].
  - pose proof (om_set_NoDup jti e _ Hk) as Hnd. destruct (om_set jti e (seen s0)) as [|[k v] m] eqn:Em.
    + split; simpl in *; [constructor|]. unfold store_size. simpl. lia.
    + split; cbn [seen maxSize]; [by apply om_delete_NoDup|]. intros H0. specialize (Hb H0).
      unfold store_size. cbn [seen om_delete]. rewrite decide_True by done.
      apply (f_equal length) in Em. rewrite om_set_length in Em. cbn [length] in Em.
      destruct (om_has jti (seen s0)); lia.
  - split; cbn [seen maxSize]; [by apply om_set_NoDup|]. done.
Qed.

(** What it remembers. *)
Definition remembers (s : DpopReplayStore) (jti : string) (e : num) : Prop := om_get jti (seen s) = Some e.

Lemma gc_remembers jti e now s : remembers s jti e -> num_leb e (num_of_Z now) = false ->
  remembers (gcExpired now s) jti e.
Proof. intros H He. apply om_get_filter; [done|]. simpl. by rewrite He. Qed.

Lemma gc_size now s : store_size (gcExpired now s) <= store_size s.
Proof. unfold store_size. simpl. pose proof (filter_length_le
  (fun kv : string * num => negb (num_leb kv.2 (num_of_Z now))) (seen s)). lia. Qed.

Lemma record_size jti e now s : store_size (store_record jti e now s) <= store_size s + 1.
Proof.
  pose proof (gc_size now s). unfold store_record. set (s0 := gcExpired now s) in *. unfold store_size in *.
  pose proof (om_set_length jti e (seen s0)) as Hl. destruct (om_has jti (seen s0)); (destruct (_ <? _);
    [destruct (om_set jti e (seen s0)) as [|[k v] m] eqn:Em; cbn [seen]; [simpl in *; lia|];
     rewrite om_delete_length; destruct (om_has _ _); simpl in *; lia | cbn [seen]; lia]).
Qed.

Lemma record_remembers j f jti e now s : remembers s jti e -> num_leb e (num_of_Z now) = false ->
  store_size s < maxSize s -> j <> jti -> remembers (store_record j f now s) jti e.
Proof.
  intros H He Hroom Hne. pose proof (gc_size now s) as Hsz. unfold store_record.
  pose proof (gc_remembers jti e now s H He) as Hg. unfold remembers in *.
  change (maxSize (gcExpired now s)) with (maxSize s) in *. unfold store_size in *.
  destruct (Z.ltb_spec (maxSize s) (Z.of_nat (length (om_set j f (seen (gcExpired now s)))))) as [Hlt|_].
  - rewrite om_set_length in Hlt. destruct (om_has _ _); lia.
  - cbn [seen]. by rewrite om_get_set_ne.
Qed.

Lemma record_new jti e now s : 0 < maxSize s -> store_size s < maxSize s ->
  remembers (store_record jti e now s) jti e.
Proof.
  intros H0 Hroom. pose proof (gc_size now s) as Hsz. unfold store_record, remembers.
  change (maxSize (gcExpired now s)) with (maxSize s). unfold store_size in *.
  destruct (Z.ltb_spec (maxSize s) (Z.of_nat (length (om_set jti e (seen (gcExpired now s)))))) as [Hlt|_].
  - rewrite om_set_length in Hlt. destruct (om_has _ _); lia.
  - cbn [seen]. by rewrite om_get_set_eq.
Qed.

(** * Replays *)

Section Replay.
Context `{TP : TokenPlatform} (verify : jsval -> string -> string -> result bool).

Definition validate_at (c : check) (s : DpopReplayStore) : DpopReplayStore * result DpopValidationResult :=
  validateDpopProof verify (wired c) (ck_jwt c) (ck_now c) s.

Definition validate_all (cs : list check) (s : DpopReplayStore) : DpopReplayStore :=
  fold_left (fun s c => (validate_at c s).1) cs s.

(** When a proof issued at [iat] is forgotten. *)
Definition expiry (c : check) (iat : num) : num :=
  num_mul (num_add iat (num_of_Z (default 60 (maxAgeSec _ (ck_opts c))))) (num_of_Z 1000).
Definition alive (e : num) (t : Z) : Prop := num_gtb e (num_of_Z t) = true.

Lemma alive_kept e t : alive e t -> num_leb e (num_of_Z t) = false.
Proof.
  unfold alive, num_gtb. intros H. pose proof H as H'. apply num_ltb_key in H' as (Hn & He & _).
  change (num_ltb (num_of_Z t) e = true) in H. rewrite num_leb_ltb by done. by rewrite H.
Qed.

(** A validation leaves the store alone, or sweeps it, or records one proof it
    did not know. *)
Lemma validate_shape c s s' r : validate_at c s = (s', r) ->
  (forall jkt claims, r = Ok (ValidatedDpop jkt claims) ->
     exists iat jti, member "iat" claims = JNum iat /\ member "jti" claims = JStr jti /\
       (store_isReplayed jti (ck_seen c) s).2 = false /\
       s' = store_record jti (expiry c iat) (ck_stored c) (gcExpired (ck_seen c) s)) /\
  ((forall jkt claims, r <> Ok (ValidatedDpop jkt claims)) -> s' = s \/ s' = gcExpired (ck_seen c) s).
Proof.
  unfold validate_at, validateDpopProof.
  destruct (begin_proof (wired c) (ck_jwt c) (ck_now c) s) as [s1 [[reason|pp]|e]] eqn:Eb.
  - intros [= <- <-]. split; [done|]. intros _. revert Eb. unfold begin_proof.
    destruct (_ =? _)%string; [intros [= <- _]; by left|].
    destruct (segments _ _) as [|? [|? [|? [|? ?]]]]; try (intros [= <- _]; by left).
    destruct (check_header _ _) as [[?|[? ?]]|]; try (intros [= <- _]; by left).
    destruct (check_claims _ _ _) as [?|[[? ?] ?]]; [intros [= <- _]; by left|].
    cbn [isReplayed wired store_isReplayed]. destruct (match om_get _ _ with Some _ => _ | None => _ end); [|done].
    intros [= <- _]. by right.
  - pose proof (begin_proof_ok _ _ _ _ _ _ Eb) as (h & p & g & _ & _ & _ & Hc & _ & _ & Hr).
    cbn [isReplayed wired store_isReplayed] in Hr. unfold end_proof.
    assert (Hs1 : s1 = gcExpired (ck_seen c) s) by (unfold store_isReplayed in Hr; congruence).
    destruct (verify _ _ _) as [[|]|e].
    + intros [= <- <-]. split; [|intros Hn; by destruct (Hn (pp_jkt pp) (pp_claims pp))].
      intros jkt claims [= _ <-]. destruct Hc as (_ & _ & _ & Hi & _ & _ & Hj & _).
      exists (pp_iat pp), (pp_jti pp). split_and!; [done|done|by rewrite Hr|]. by rewrite Hs1.
    + intros [= <- <-]. split; [done|]. by right.
    + intros [= <- <-]. split; [done|]. by right.
  - intros [= <- <-]. split; [done|]. intros _. revert Eb. unfold begin_proof.
    destruct (_ =? _)%string; [done|]. destruct (segments _ _) as [|? [|? [|? [|? ?]]]]; try done.
    destruct (check_header _ _) as [[?|[? ?]]|]; try done; [|intros [= <- _]; by left].
    destruct (check_claims _ _ _) as [?|[[? ?] ?]]; [done|].
    cbn [isReplayed wired store_isReplayed]. by destruct (match om_get _ _ with Some _ => _ | None => _ end).
Qed.

Lemma replayed_true jti e t s : remembers s jti e -> alive e t -> (store_isReplayed jti t s).2 = true.
Proof.
  intros H He. pose proof (gc_remembers jti e t s H (alive_kept e t He)) as Hg.
  unfold store_isReplayed. cbn [snd]. unfold remembers in Hg. by rewrite Hg.
Qed.

(** A validation cannot accept a remembered identifier, and keeps it while
    there is room. *)
Lemma validate_keeps c s jti e : remembers s jti e -> alive e (ck_seen c) -> alive e (ck_stored c) ->
  store_size s < maxSize s ->
  (forall jkt claims, (validate_at c s).2 = Ok (ValidatedDpop jkt claims) -> member "jti" claims <> JStr jti) /\
  remembers (validate_at c s).1 jti e /\ store_size (validate_at c s).1 <= store_size s + 1 /\
  maxSize (validate_at c s).1 = maxSize s.
Proof.
  intros Hr Ha1 Ha2 Hroom. destruct (validate_at c s) as [s' r] eqn:Ev. cbn [fst snd].
  apply validate_shape in Ev as [Hok Hno]. pose proof (gc_size (ck_seen c) s) as Hsz.
  pose proof (gc_remembers jti e _ s Hr (alive_kept _ _ Ha1)) as Hg.
  assert (Hdec : (exists jkt claims, r = Ok (ValidatedDpop jkt claims)) \/
                 (forall jkt claims, r <> Ok (ValidatedDpop jkt claims)))
    by (destruct r as [[jkt claims|]|]; [left; by exists jkt, claims|by right..]).
  destruct Hdec as [(jkt & claims & ->)|Hn].
  - destruct (Hok jkt claims eq_refl) as (iat & j & Hi & Hj & Hf & ->).
    assert (Hne : j <> jti) by (intros ->; by rewrite (replayed_true jti e) in Hf).
    split_and!.
    + intros ? ? [= <- <-]. rewrite Hj. congruence.
    + apply record_remembers; [done|by apply alive_kept|simpl; lia|done].
    + pose proof (record_size j (expiry c iat) (ck_stored c) (gcExpired (ck_seen c) s)). lia.
    + unfold store_record. destruct (_ <? _); [|done]. by destruct (om_set _ _ _) as [|[? ?] ?].
  - split; [intros ? ? E; by destruct (Hn _ _ E)|].
    destruct (Hno Hn) as [-> | ->]; split_and!; try done; lia.
Qed.

Lemma validate_all_keeps cs s jti e : remembers s jti e ->
  (forall d, d ∈ cs -> alive e (ck_seen d) /\ alive e (ck_stored d)) ->
  store_size s + Z.of_nat (length cs) <= maxSize s ->
  remembers (validate_all cs s) jti e /\ maxSize (validate_all cs s) = maxSize s /\
  store_size (validate_all cs s) <= store_size s + Z.of_nat (length cs).
Proof.
  revert s. induction cs as [|c cs IH]; intros s Hr Ha Hsz; [split_and!; simpl; try done; lia|].
  cbn [length] in Hsz. destruct (Ha c) as [Ha1 Ha2]; [by left|].
  destruct (validate_keeps c s jti e) as (_ & Hr' & Hsz' & Hm); [done..|lia|].
  destruct (IH (validate_at c s).1) as (H1 & H2 & H3); [done| |lia|].
  { intros d Hd. apply Ha. by right. }
  change (validate_all (c :: cs) s) with (validate_all cs (validate_at c s).1).
  split_and!; [done|congruence|]. cbn [length]. lia.
Qed.

(** C9: a proof works once: after it has been accepted, whatever validations
    follow, a proof with the same identifier is not accepted while the record
    has not expired and fewer validations took place than the store has room
    for. *)
Theorem replay_refused c s s1 jkt claims iat cs c' jkt' claims' :
  validate_at c s = (s1, Ok (ValidatedDpop jkt claims)) -> member "iat" claims = JNum iat ->
  store_size s + Z.of_nat (length cs) + 2 <= maxSize s ->
  (forall d, d ∈ cs ++ [c'] -> alive (expiry c iat) (ck_seen d) /\ alive (expiry c iat) (ck_stored d)) ->
  (validate_at c' (validate_all cs s1)).2 = Ok (ValidatedDpop jkt' claims') ->
  member "jti" claims' <> member "jti" claims.
Proof.
  intros Hc Hi Hroom Ha Hc'. apply validate_shape in Hc as [Hok _].
  destruct (Hok jkt claims eq_refl) as (iat' & jti & Hi' & Hj & _ & ->). rewrite Hi' in Hi. injection Hi as ->.
  pose proof (gc_size (ck_seen c) s) as Hg. set (s0 := gcExpired (ck_seen c) s) in *.
  assert (Hmax : maxSize (store_record jti (expiry c iat) (ck_stored c) s0) = maxSize s)
    by (unfold store_record; destruct (_ <? _); [|done]; by destruct (om_set _ _ _) as [|[? ?] ?]).
  assert (H0 : 0 <= store_size s0) by (unfold store_size; lia).
  pose proof (record_new jti (expiry c iat) (ck_stored c) s0 ltac:(unfold s0 in *; simpl; lia)
    ltac:(unfold s0 in *; simpl; lia)) as Hr.
  pose proof (record_size jti (expiry c iat) (ck_stored c) s0) as Hsz.
  destruct (validate_all_keeps cs _ jti (expiry c iat) Hr) as (Hr' & Hm & Hs').
  { intros d Hd. apply Ha, elem_of_app. by left. } { lia. }
  destruct (Ha c') as [Ha1 Ha2]; [apply elem_of_app; right; by left|].
  destruct (validate_keeps c' _ jti (expiry c iat) Hr' Ha1 Ha2 ltac:(lia)) as (Hn & _).
  rewrite Hj. by eapply Hn.
Qed.
End Replay.
