(* ===== verification/RemoteHub.v ===== *)
(** The session event hub: event names ([remote/event-name-map.ts]), events
    ([remote/events.ts]), signatures ([remote/signing.ts]), the in-memory store
    ([remote/persistence.ts]) and the hub itself ([remote/port.ts]).

    The hub keeps a ring of recent events for reconnecting clients, folds its
    own events into a session state, and fans every event out to subscribers.
    A subscriber is a number with a behaviour: whether it throws on an event. *)

From S2P Require Import Prelude JsNum JsValue TokenBase.
From Stdlib Require Import SpecFloat Ascii.

(** * Event names *)

Definition DOTTED_TO_CANONICAL : list (string * string) :=
  [("run.start", "RUN_STARTED"); ("run.step", "STEP_STARTED"); ("run.finished", "RUN_FINISHED");
   ("assistant.delta", "TEXT_MESSAGE_CONTENT"); ("assistant.message", "TEXT_MESSAGE_END");
   ("tool.call.start", "TOOL_CALL_START"); ("tool.call.end", "TOOL_CALL_END");
   ("state", "STATE_SNAPSHOT");
   ("tool.intent", "CUSTOM_TOOL_INTENT"); ("hitl.request", "CUSTOM_HITL_REQUEST");
   ("hitl.resolved", "CUSTOM_HITL_RESOLVED"); ("instruction.injected", "CUSTOM_INSTRUCTION_INJECTED")].
Definition CANONICAL_TO_DOTTED : list (string * string) := map (fun '(d, c) => (c, d)) DOTTED_TO_CANONICAL.
Definition CANONICAL_ONLY_TYPES : list string :=
  ["CUSTOM_TEAMMATE_DELIVERY"; "CUSTOM_CONTROL_ACK"; "CUSTOM_POD_STARTED"; "CUSTOM_FLEET_CERT_RENEWED";
   "CUSTOM_POD_START_PROGRESS"; "CUSTOM_TEAM_ACTION_RESULT"; "CUSTOM_REMOTE_GRANT"; "CUSTOM_AUTO_VERDICT"].
Definition ALL_KNOWN_EVENT_TYPES : list string :=
  map fst DOTTED_TO_CANONICAL ++ map snd DOTTED_TO_CANONICAL ++ CANONICAL_ONLY_TYPES.

(** A name inherited from [Object.prototype] is found in the reverse map and
    passes through, as an unknown one does. *)
Definition toCanonicalEventType (type : string) : string :=
  if om_has type CANONICAL_TO_DOTTED then type
  else match om_get type DOTTED_TO_CANONICAL with Some c => c | None => type end.

Definition isKnownEventType (type : string) : bool := bool_decide (type ∈ ALL_KNOWN_EVENT_TYPES).

Definition is_string_val (v : jsval) : bool := match v with JStr _ => true | _ => false end.
Definition is_object_val (v : jsval) : bool :=
  match v with JObj _ | JArr _ | JDate _ | JBytes _ => true | _ => false end.

Definition looksLikeSessionEvent (input : jsval) : bool :=
  is_object_val input &&
  match as_string (member "type" input) with
  | None => false
  | Some type =>
      is_string_val (member "id" input) &&
      (match as_finite (member "seq" input) with Some _ => true | None => false end) &&
      is_string_val (member "ts" input) && is_object_val (member "data" input) && isKnownEventType type
  end.

(** * Events *)

Record SessionEvent := mkEvent {
  se_type : string; se_id : string; se_seq : Z; se_ts : string; se_data : jsval; se_sig : option string
}.

(** The two counters of the module. *)
Record counters := mkCounters { monotonicSeq : Z; ephemeralDeltaId : Z }.

Section Events.
(** [n.toString(36)], and the clock in its two forms. *)
Context (base36 : Z -> string).

Definition makeEvent (type : string) (data : jsval) (nowMs : Z) (ts : string) (c : counters)
    : counters * SessionEvent :=
  (mkCounters (monotonicSeq c + 1) (ephemeralDeltaId c),
   mkEvent type ("evt_" ++ base36 nowMs ++ "_" ++ base36 (monotonicSeq c))%string (monotonicSeq c) ts data None).

Definition makeEphemeralDelta (text : string) (ts : string) (c : counters) : counters * SessionEvent :=
  (mkCounters (monotonicSeq c) (ephemeralDeltaId c + 1),
   mkEvent "assistant.delta" ("evt_delta_" ++ base36 (ephemeralDeltaId c))%string 0 ts
     (JObj [("text", JStr text)]) None).
End Events.

(** * Signatures *)

Section Signing.
(** The canonical text of an event without its signature: [json-canonicalize],
    which refuses some values. *)
Context (canonicalize : jsval -> result string).

Definition event_val (e : SessionEvent) : jsval :=
  JObj [("type", JStr (se_type e)); ("id", JStr (se_id e)); ("seq", JNum (num_of_Z (se_seq e)));
        ("ts", JStr (se_ts e)); ("data", se_data e)].
Definition canonicalEventString (e : SessionEvent) : result string := canonicalize (event_val e).

Definition signEvent (sign : string -> result string) (e : SessionEvent) : result SessionEvent :=
  text ← canonicalEventString e; s ← sign text;
  Ok (mkEvent (se_type e) (se_id e) (se_seq e) (se_ts e) (se_data e) (Some s)).

Definition verifyEvent (verify : string -> string -> result bool) (e : SessionEvent) : bool :=
  match se_sig e with
  | None | Some EmptyString => false
  | Some s =>
      match (text ← canonicalEventString e; verify text s) with Ok b => b | Throw _ => false end
  end.
End Signing.

(** * The session state *)

Inductive SessionStatus := ph_idle | ph_thinking | ph_tool_call | ph_blocked | ph_awaiting_hitl | ph_stopped.
Inductive run_status := st_idle | st_running | st_finished.
#[export] Instance SessionStatus_eqdec : EqDecision SessionStatus. Proof. solve_decision. Defined.
#[export] Instance run_status_eqdec : EqDecision run_status. Proof. solve_decision. Defined.

Record SessionState := mkState {
  ss_runId : option string; ss_agentId : option string; ss_status : run_status; ss_stepCount : num;
  ss_costUsd : num; ss_pendingHitl : Z; ss_phase : SessionStatus; ss_startedAtMs : option Z
}.
Definition initial_state : SessionState := mkState None None st_idle num_zero num_zero 0 ph_idle None.

(** Payload fields, of the type their schema gives them. *)
Definition str_field (k : string) (data : jsval) : option string := as_string (member k data).
Definition num_field (k : string) (data : jsval) : num :=
  match member k data with JNum x => x | _ => num_nan end.

Definition updateState (e : SessionEvent) (now : Z) (s : SessionState) : SessionState :=
  let d := se_data e in
  let phase p := mkState (ss_runId s) (ss_agentId s) (ss_status s) (ss_stepCount s) (ss_costUsd s)
                   (ss_pendingHitl s) p (ss_startedAtMs s) in
  let hitl n p := mkState (ss_runId s) (ss_agentId s) (ss_status s) (ss_stepCount s) (ss_costUsd s)
                    n p (ss_startedAtMs s) in
  if (se_type e =? "RUN_STARTED")%string then
    mkState (str_field "runId" d) (str_field "agentId" d) st_running num_zero num_zero (ss_pendingHitl s)
      ph_thinking (Some now)
  else if (se_type e =? "STEP_STARTED")%string then
    mkState (ss_runId s) (ss_agentId s) (ss_status s) (num_add (num_field "stepIndex" d) num_one)
      (num_add (ss_costUsd s) (num_field "costUsd" d)) (ss_pendingHitl s) (ss_phase s) (ss_startedAtMs s)
  else if (se_type e =? "CUSTOM_TOOL_INTENT")%string then phase ph_blocked
  else if (se_type e =? "TOOL_CALL_START")%string then phase ph_tool_call
  else if (se_type e =? "TOOL_CALL_END")%string then phase ph_thinking
  else if (se_type e =? "RUN_FINISHED")%string then
    mkState (ss_runId s) (ss_agentId s) st_finished (num_field "stepCount" d) (num_field "costUsd" d)
      (ss_pendingHitl s) ph_stopped (ss_startedAtMs s)
  else if (se_type e =? "CUSTOM_HITL_REQUEST")%string then hitl (ss_pendingHitl s + 1) ph_awaiting_hitl
  else if (se_type e =? "CUSTOM_HITL_RESOLVED")%string then
    hitl (Z.max 0 (ss_pendingHitl s - 1)) ph_thinking
  else s.

(** * The hub *)

Section Hub.
(** [opts.signFn] as the signing of an event; the behaviour of subscribers. *)
Context (signFn : option (SessionEvent -> result SessionEvent)) (throws_on : nat -> SessionEvent -> bool).
Context (bufferSize : Z).

(** [delivered] logs the calls of subscribers, [written] the calls of
    [tryPersistEvent], which never fail the hub. *)
Record hub := mkHub {
  buffer : list SessionEvent; subscribers : list nat; hub_state : SessionState;
  delivered : list (nat * SessionEvent); written : list SessionEvent
}.
Definition createRemoteControlHub : hub := mkHub [] [] initial_state [] [].

(** The event as it is buffered and streamed. *)
Definition outgoing (raw : SessionEvent) : SessionEvent :=
  let e := mkEvent (toCanonicalEventType (se_type raw)) (se_id raw) (se_seq raw) (se_ts raw) (se_data raw)
             (se_sig raw) in
  match signFn with
  | Some sign => match sign e with Ok e' => e' | Throw _ => e end
  | None => e
  end.

Definition push_ring (e : SessionEvent) (b : list SessionEvent) : list SessionEvent :=
  let b := b ++ [e] in if bufferSize <? Z.of_nat (length b) then tail b else b.

Definition is_delta (e : SessionEvent) : bool := (se_type e =? "TEXT_MESSAGE_CONTENT")%string.

Definition ingest (raw : SessionEvent) (fold : bool) (now : Z) (h : hub) : hub :=
  let e := outgoing raw in
  let state := if fold then updateState e now (hub_state h) else hub_state h in
  let '(b, w) := if is_delta e then (buffer h, written h) else (push_ring e (buffer h), written h ++ [e]) in
  mkHub b (List.filter (fun f => negb (throws_on f e)) (subscribers h)) state
    (delivered h ++ map (fun f => (f, e)) (subscribers h)) w.

Definition hub_emit (raw : SessionEvent) (now : Z) (h : hub) : hub := ingest raw true now h.
Definition observer_emit (raw : SessionEvent) (now : Z) (h : hub) : hub := ingest raw false now h.

Definition subscribe (f : nat) (h : hub) : hub :=
  mkHub (buffer h) (if bool_decide (f ∈ subscribers h) then subscribers h else subscribers h ++ [f])
    (hub_state h) (delivered h) (written h).
Definition unsubscribe (f : nat) (h : hub) : hub :=
  mkHub (buffer h) (List.filter (fun g => negb (g =? f)%nat) (subscribers h)) (hub_state h) (delivered h)
    (written h).

Definition backlog (sinceSeq : option Z) (h : hub) : list SessionEvent :=
  match sinceSeq with
  | None => buffer h
  | Some n => List.filter (fun e => n <? se_seq e) (buffer h)
  end.
Definition backlogOldestSeq (h : hub) : option Z :=
  match buffer h with e :: _ => Some (se_seq e) | [] => None end.

(** The state, and the milliseconds since the run started. *)
Definition session_state (now : Z) (h : hub) : SessionState * Z :=
  (hub_state h, match ss_startedAtMs (hub_state h) with None => 0 | Some t => now - t end).
End Hub.

(** * The in-memory store *)

Record memory_store := mkMemory {
  pm_events : list (Z * SessionEvent); pm_revoked : list string; pm_maxSeq : Z; pm_closed : bool
}.
Definition empty_store : memory_store := mkMemory [] [] 0 false.
Definition store_closed : jserror := JsError "Error" "PersistencePort: closed".

Definition guarded {A} (s : memory_store) (r : memory_store * A) : memory_store * result A :=
  if pm_closed s then (s, Throw store_closed) else (r.1, Ok r.2).

Definition saveEvent (e : SessionEvent) (s : memory_store) : memory_store * result unit :=
  guarded s (mkMemory (om_set (se_seq e) e (pm_events s)) (pm_revoked s)
    (if pm_maxSeq s <? se_seq e then se_seq e else pm_maxSeq s) (pm_closed s), tt).

(** [out.sort((a, b) => a.seq - b.seq)]: stable. *)
Fixpoint insert_by_seq (e : SessionEvent) (l : list SessionEvent) : list SessionEvent :=
  match l with
  | [] => [e]
  | x :: l' => if se_seq e <? se_seq x then e :: l else x :: insert_by_seq e l'
  end.
Definition loadEvents (sinceSeq : option Z) (s : memory_store) : memory_store * result (list SessionEvent) :=
  let cutoff := default (-1) sinceSeq in
  let out := map snd (List.filter (fun kv => cutoff <? kv.1) (pm_events s)) in
  guarded s (s, fold_left (fun acc e => insert_by_seq e acc) out []).
Definition getMaxSeq (s : memory_store) : memory_store * result Z := guarded s (s, pm_maxSeq s).
Definition saveRevocation (jti : string) (s : memory_store) : memory_store * result unit :=
  guarded s (mkMemory (pm_events s)
    (if bool_decide (jti ∈ pm_revoked s) then pm_revoked s else pm_revoked s ++ [jti]) (pm_maxSeq s)
    (pm_closed s), tt).
Definition loadRevocations (s : memory_store) : memory_store * result (list string) := guarded s (s, pm_revoked s).
Definition clearAll (s : memory_store) : memory_store * result unit :=
  guarded s (mkMemory [] [] 0 (pm_closed s), tt).
Definition close_store (s : memory_store) : memory_store := mkMemory [] [] (pm_maxSeq s) true.

(** Every loaded event goes through [emit]. *)
Definition loadHubFromPersistence (signFn : option (SessionEvent -> result SessionEvent))
    (throws_on : nat -> SessionEvent -> bool) (bufferSize : Z) (sinceSeq : option Z) (now : Z)
    (s : memory_store) (h : hub) : hub * result (Z * Z) :=
  match loadEvents sinceSeq s, getMaxSeq s with
  | (_, Ok events), (_, Ok maxSeq) =>
      (fold_left (fun h e => hub_emit signFn throws_on bufferSize e now h) events h,
       Ok (Z.of_nat (length events), maxSeq))
  | (_, Throw e), _ | _, (_, Throw e) => (h, Throw e)
  end.

(** * Fan-out to several sinks *)

(** A sink changes the state it writes to, or throws having changed it. *)
Definition teeSink {S} (sinks : list (SessionEvent -> S -> S * result unit)) (e : SessionEvent) (s : S) : S :=
  fold_left (fun s sink => (sink e s).1) sinks s.
