(* ===== verification/RemoteHubProps.v ===== *)
(** The event hub against its specification: a log of every event that went
    through it, of which the ring is the end and the state a fold. *)

From S2P Require Import Prelude JsNum JsValue TokenBase RemoteHub.
From Stdlib Require Import SpecFloat Ascii Sorting.Sorted.

(** * The hub as a log *)

Section Log.
Context (signFn : option (SessionEvent -> result SessionEvent)) (throws_on : nat -> SessionEvent -> bool).
Context (bufferSize : Z).

Inductive hub_op :=
| OEmit (raw : SessionEvent) (now : Z)
| OObserve (raw : SessionEvent) (now : Z)
| OSubscribe (f : nat)
| OUnsubscribe (f : nat).

Definition hub_step (h : hub) (o : hub_op) : hub :=
  match o with
  | OEmit raw now => hub_emit signFn throws_on bufferSize raw now h
  | OObserve raw now => observer_emit signFn throws_on bufferSize raw now h
  | OSubscribe f => subscribe f h
  | OUnsubscribe f => unsubscribe f h
  end.
Definition hub_run (ops : list hub_op) (h : hub) : hub := fold_left hub_step ops h.

(** The log: the events as they went out; those kept; those of the session. *)
Definition sent (o : hub_op) : list SessionEvent :=
  match o with OEmit raw _ | OObserve raw _ => [outgoing signFn raw] | _ => [] end.
Definition sent_all (ops : list hub_op) : list SessionEvent := ops ≫= sent.
Definition durable (ops : list hub_op) : list SessionEvent :=
  List.filter (fun e => negb (is_delta e)) (sent_all ops).
Definition folded (ops : list hub_op) (s : SessionState) : SessionState :=
  fold_left (fun s o => match o with OEmit raw now => updateState (outgoing signFn raw) now s | _ => s end) ops s.

Lemma durable_snoc ops o : durable (ops ++ [o]) = durable ops ++ List.filter (fun e => negb (is_delta e)) (sent o).
Proof. unfold durable, sent_all. rewrite bind_app, List.filter_app. csimpl. by rewrite app_nil_r. Qed.

Lemma push_ring_last e l : 0 <= bufferSize ->
  push_ring bufferSize e (last_n (Z.to_nat bufferSize) l) = last_n (Z.to_nat bufferSize) (l ++ [e]).
Proof.
  intros H0. rewrite last_n_snoc. unfold push_ring.
  replace (bufferSize <? _) with (Z.to_nat bufferSize <? length (last_n (Z.to_nat bufferSize) l ++ [e]))%nat; [done|].
  apply eq_true_iff_eq. rewrite Nat.ltb_lt, Z.ltb_lt. lia.
Qed.

(** C23: the hub keeps its log: whatever events are emitted, observed for a child,
    or subscribed to, the ring holds exactly the last [bufferSize] durable
    events in order, every durable event was handed to the store once and in
    order, and the session state is the fold of the session's own events, which
    a child's events never touch. *)
Theorem hub_refines_log ops : 0 <= bufferSize ->
  let h := hub_run ops createRemoteControlHub in
  buffer h = last_n (Z.to_nat bufferSize) (durable ops) /\
  written h = durable ops /\
  hub_state h = folded ops initial_state.
Proof.
  intros H0. induction ops as [|o ops IH] using rev_ind; [done|]. unfold hub_run, folded in *. cbv zeta in *.
  rewrite !fold_left_app. cbn [fold_left]. rewrite durable_snoc.
  set (h := fold_left hub_step ops createRemoteControlHub) in *. destruct IH as (Hb & Hw & Hs).
  assert (Hin : forall raw fold now, sent o = [outgoing signFn raw] ->
    buffer (ingest signFn throws_on bufferSize raw fold now h) = last_n (Z.to_nat bufferSize)
      (durable ops ++ List.filter (fun e => negb (is_delta e)) (sent o)) /\
    written (ingest signFn throws_on bufferSize raw fold now h) =
      durable ops ++ List.filter (fun e => negb (is_delta e)) (sent o)).
  { intros raw fold now ->. unfold ingest. cbn [List.filter]. destruct (is_delta (outgoing signFn raw)); cbn [negb].
    - by rewrite app_nil_r.
    - cbn [buffer written]. by rewrite Hb, Hw, push_ring_last. }
  destruct o as [raw now|raw now|f|f]; cbn [hub_step].
  - unfold hub_emit. destruct (Hin raw true now eq_refl) as [-> ->]. split_and!; [done..|]. unfold ingest.
    rewrite <- Hs. by destruct (is_delta _).
  - unfold observer_emit. destruct (Hin raw false now eq_refl) as [-> ->]. split_and!; [done..|]. unfold ingest.
    rewrite <- Hs. by destruct (is_delta _).
  - simpl. by rewrite app_nil_r.
  - simpl. by rewrite app_nil_r.
Qed.

(** * Reconnection *)

Definition seq_lt (a b : SessionEvent) : Prop := se_seq a < se_seq b.

Lemma sorted_split l1 e l2 : StronglySorted seq_lt (l1 ++ e :: l2) -> Forall (fun x => se_seq x < se_seq e) l1.
Proof.
  induction l1 as [|x l1 IH]; simpl; [constructor|]. intros [Hs Hf]%StronglySorted_inv. constructor; [|by apply IH].
  apply Forall_app in Hf as [_ Hf]. by inversion Hf.
Qed.

(** Reconnection has no silent gap: when sequence numbers grow, a client that
    asks for what followed the number it last saw either gets every durable
    event with a higher number, in order, or learns from the oldest retained
    number that some were evicted; and when the numbers are consecutive and the
    client had seen the first one, that sign is exact. *)
Theorem reconnect_gap_free ops since : 0 < bufferSize ->
  StronglySorted seq_lt (durable ops) ->
  let h := hub_run ops createRemoteControlHub in
  let missed := List.filter (fun e => since <? se_seq e) (durable ops) in
  (backlog (Some since) h = missed \/
   exists oldest, backlogOldestSeq h = Some oldest /\ since < oldest - 1) /\
  forall first, (forall i e, durable ops !! i = Some e -> se_seq e = first + Z.of_nat i) -> first - 1 <= since ->
    (backlog (Some since) h = missed <-> forall oldest, backlogOldestSeq h = Some oldest -> oldest - 1 <= since).
Proof.
  intros H0 Hs h missed. destruct (hub_refines_log ops ltac:(lia)) as (Hb & _ & _). fold h in Hb.
  set (n := Z.to_nat bufferSize) in *. unfold backlog, backlogOldestSeq. rewrite Hb.
  pose proof (last_n_suffix n (durable ops)) as Hsplit. set (lost := take _ _) in *.
  assert (Hmiss : missed = List.filter (fun e => since <? se_seq e) lost ++
                           List.filter (fun e => since <? se_seq e) (last_n n (durable ops)))
    by (unfold missed; rewrite Hsplit at 1; apply List.filter_app).
  assert (Hempty : last_n n (durable ops) = [] -> lost = []).
  { intros E. apply length_zero_iff_nil. apply (f_equal length) in E. unfold last_n, lost in *.
    rewrite length_drop in E. rewrite length_take. cbn [length] in E. lia. }
  destruct (last_n n (durable ops)) as [|e rest] eqn:El.
  { specialize (Hempty eq_refl). rewrite Hmiss, Hempty. split; [by left|]. intros first _ _. done. }
  assert (Hlow : Forall (fun x => se_seq x < se_seq e) lost) by (rewrite Hsplit in Hs; by apply sorted_split in Hs).
  assert (Hnone : se_seq e - 1 <= since -> List.filter (fun e => since <? se_seq e) lost = []).
  { intros Hge. apply filter_false. intros x Hx. rewrite Forall_forall in Hlow. specialize (Hlow x Hx).
    apply Z.ltb_ge. lia. }
  split.
  - destruct (decide (se_seq e - 1 <= since)) as [Hge|Hlt]; [left; by rewrite Hmiss, Hnone|].
    right. exists (se_seq e). split; [done|lia].
  - intros first Hseq Hfirst. rewrite Hmiss. split.
    + intros Heq oldest [= <-]. destruct (decide (se_seq e - 1 <= since)) as [|Hlt]; [done|]. exfalso.
      assert (Hfilter : List.filter (fun e => since <? se_seq e) lost = []).
      { apply (f_equal length) in Heq. rewrite length_app in Heq. apply length_zero_iff_nil. lia. }
      assert (He : durable ops !! length lost = Some e).
      { rewrite Hsplit. rewrite lookup_app_r by lia. by rewrite Nat.sub_diag. }
      pose proof (Hseq _ _ He) as Hse. destruct lost as [|x lost'] eqn:Elost using rev_ind; [simpl in Hse; lia|].
      clear IHlost'. assert (Hx : durable ops !! length lost' = Some x).
      { rewrite Hsplit, <- app_assoc. rewrite lookup_app_r by lia. by rewrite Nat.sub_diag. }
      pose proof (Hseq _ _ Hx) as Hsx. rewrite length_app in Hse. simpl in Hse.
      rewrite List.filter_app in Hfilter. apply app_eq_nil in Hfilter as [_ Hfilter]. simpl in Hfilter.
      destruct (Z.ltb_spec since (se_seq x)); [done|lia].
    + intros Hge. by rewrite Hnone by by apply Hge.
Qed.

(** * Subscribers *)

Definition received (f : nat) (h : hub) : list SessionEvent :=
  map snd (List.filter (fun d => (d.1 =? f)%nat) (delivered h)).

Lemma received_app f l1 l2 :
  map snd (List.filter (fun d : nat * SessionEvent => (d.1 =? f)%nat) (l1 ++ l2)) =
  map snd (List.filter (fun d => (d.1 =? f)%nat) l1) ++ map snd (List.filter (fun d => (d.1 =? f)%nat) l2).
Proof. by rewrite List.filter_app, map_app. Qed.

Lemma received_once f e subs : NoDup subs ->
  map snd (List.filter (fun d : nat * SessionEvent => (d.1 =? f)%nat) (map (fun g => (g, e)) subs)) =
  if bool_decide (f ∈ subs) then [e] else [].
Proof.
  induction subs as [|g subs IH]; [done|]. intros [Hg Hnd]%NoDup_cons. cbn [map List.filter fst].
  specialize (IH Hnd). destruct (Nat.eqb_spec g f) as [->|Hne].
  - cbn [map snd]. rewrite IH. rewrite (bool_decide_eq_false_2 (f ∈ subs)) by done.
    by rewrite bool_decide_eq_true_2 by (by left).
  - rewrite IH. do 2 case_bool_decide; set_solver.
Qed.

Lemma hub_step_subs o h : NoDup (subscribers h) -> NoDup (subscribers (hub_step h o)).
Proof.
  intros H. assert (Hf : forall P, NoDup (List.filter P (subscribers h))).
  { intros P. apply NoDup_ListNoDup, List.NoDup_filter. by apply NoDup_ListNoDup. }
  destruct o as [raw now|raw now|f|f]; cbn [hub_step].
  1,2: unfold hub_emit, observer_emit, ingest; destruct (is_delta _); cbn [subscribers]; apply Hf.
  - unfold subscribe. cbn [subscribers]. case_bool_decide; [done|]. apply NoDup_app.
    split_and!; [done|set_solver|apply NoDup_singleton].
  - apply Hf.
Qed.

Lemma hub_run_subs ops h : NoDup (subscribers h) -> NoDup (subscribers (hub_run ops h)).
Proof.
  unfold hub_run. revert h. induction ops as [|o ops IH]; intros h H; [done|]. by apply IH, hub_step_subs.
Qed.

Lemma step_received f o h : NoDup (subscribers h) -> f ∈ subscribers h ->
  (forall e, throws_on f e = false) -> o <> OUnsubscribe f ->
  f ∈ subscribers (hub_step h o) /\ received f (hub_step h o) = received f h ++ sent o.
Proof.
  intros Hnd Hf Hok Hne. assert (Hin : forall raw fold now,
    f ∈ subscribers (ingest signFn throws_on bufferSize raw fold now h) /\
    received f (ingest signFn throws_on bufferSize raw fold now h) = received f h ++ [outgoing signFn raw]).
  { intros raw fold now. unfold ingest, received.
    destruct (is_delta _); cbn [subscribers delivered]; (split;
      [apply list_elem_of_In, filter_In; rewrite Hok; split; [by apply list_elem_of_In|done]
      |rewrite received_app, received_once by done; by rewrite bool_decide_eq_true_2]). }
  destruct o as [raw now|raw now|g|g]; cbn [hub_step]; [apply Hin..| |].
  - split; [|by rewrite app_nil_r]. unfold subscribe. cbn [subscribers]. case_bool_decide; set_solver.
  - split; [|by rewrite app_nil_r]. unfold unsubscribe. cbn [subscribers]. apply list_elem_of_In, filter_In.
    split; [by apply list_elem_of_In|]. destruct (Nat.eqb_spec f g) as [->|]; done.
Qed.

(** Subscribers are independent: one that does not throw receives, from its
    subscription on and until it leaves, every event in order, streamed deltas
    and a child's events included, whatever the others do or throw. *)
Theorem subscriber_isolated f before after :
  (forall e, throws_on f e = false) -> OUnsubscribe f ∉ after ->
  received f (hub_run (before ++ OSubscribe f :: after) createRemoteControlHub) =
  received f (hub_run before createRemoteControlHub) ++ sent_all after.
Proof.
  intros Hok Hun. unfold hub_run at 1. rewrite fold_left_app. fold (hub_run before createRemoteControlHub).
  set (h := hub_run before createRemoteControlHub). cbn [fold_left].
  assert (Hnd : NoDup (subscribers (hub_step h (OSubscribe f))))
    by (apply hub_step_subs, hub_run_subs; constructor).
  assert (Hf : f ∈ subscribers (hub_step h (OSubscribe f)))
    by (cbn [hub_step subscribe subscribers]; case_bool_decide; set_solver).
  change (received f h) with (received f (hub_step h (OSubscribe f))).
  revert Hnd Hf. generalize (hub_step h (OSubscribe f)). clear h. induction after as [|o after IH]; intros h Hnd Hf.
  - simpl. by rewrite app_nil_r.
  - destruct (step_received f o h Hnd Hf Hok) as [Hf' Hr]; [set_solver|]. cbn [fold_left].
    rewrite IH; [|set_solver|by apply hub_step_subs|done]. rewrite Hr, <- app_assoc. done.
Qed.
End Log.

(** * Signed transcripts *)

Section Signed.
Context (canonicalize : jsval -> result string) (sign : string -> result string).
Context (verify : string -> string -> result bool).

(** A signed transcript verifies: when every event has a canonical text, and
    the checker accepts what the signer signs, every event a client reads from
    the ring carries a signature that verifies, computed on the event as it was
    sent, with its canonical type. *)
Theorem transcript_verifies throws_on bufferSize ops since :
  (forall v, exists t, canonicalize v = Ok t) -> (forall t, exists s, sign t = Ok s /\ s <> "") ->
  (forall t s, sign t = Ok s -> verify t s = Ok true) -> 0 <= bufferSize ->
  let signer := Some (signEvent canonicalize sign) in
  forall e, e ∈ backlog since (hub_run signer throws_on bufferSize ops createRemoteControlHub) ->
    verifyEvent canonicalize verify e = true.
Proof.
  intros Hc Hs Hv H0 signer e He.
  destruct (hub_refines_log signer throws_on bufferSize ops H0) as (Hb & _ & _).
  assert (Hd : e ∈ durable signer ops).
  { rewrite (last_n_suffix (Z.to_nat bufferSize) (durable signer ops)). apply elem_of_app. right. rewrite <- Hb.
    destruct since as [n|]; [|done]. apply list_elem_of_In, filter_In in He as [He _]. by apply list_elem_of_In. }
  apply list_elem_of_In, filter_In in Hd as [Hd _]. apply list_elem_of_In, list_elem_of_bind in Hd as (o & Ho & _).
  assert (exists raw, e = outgoing signer raw) as [raw ->]
    by (destruct o as [raw ?|raw ?|?|?]; cbn [sent] in Ho; try (by apply not_elem_of_nil in Ho);
        apply list_elem_of_singleton in Ho; by exists raw).
  unfold outgoing, signer, signEvent, verifyEvent, canonicalEventString.
  set (e0 := mkEvent _ _ _ _ _ _). destruct (Hc (event_val e0)) as [t Ht]. destruct (Hs t) as (s & Hsg & Hne).
  rewrite Ht. cbn. rewrite Hsg. cbn. destruct s as [|a s]; [done|].
  change (event_val _) with (event_val e0). rewrite Ht. cbn. by rewrite (Hv _ _ Hsg).
Qed.
End Signed.

(** * Concrete runs *)

Definition ev (type : string) (n : Z) : SessionEvent := mkEvent type "i" n "t" (JObj [("text", JStr "x")]) None.
Definition quiet : nat -> SessionEvent -> bool := fun _ _ => false.
Definition sample_ops : list hub_op :=
  [OEmit (ev "run.start" 0) 0; OSubscribe 1; OObserve (ev "run.finished" 1) 1; OEmit (ev "assistant.delta" 0) 2;
   OEmit (ev "tool.call.start" 2) 3].
Definition sample_hub (n : Z) : hub := hub_run None quiet n sample_ops createRemoteControlHub.

Lemma hub_refines_log_witness :
  map se_seq (buffer (sample_hub 2)) = [1; 2] /\
  buffer (sample_hub 2) = last_n 2 (durable None sample_ops) /\ ss_status (hub_state (sample_hub 2)) = st_running.
Proof.
  split; [reflexivity|]. destruct (hub_refines_log None quiet 2 sample_ops) as (Hb & _ & Hs); [lia|].
  split; [exact Hb|]. unfold sample_hub. rewrite Hs. reflexivity.
Defined.

Lemma reconnect_gap_free_witness :
  backlogOldestSeq (sample_hub 2) = Some 1 /\
  backlog (Some 0) (sample_hub 2) = List.filter (fun e => 0 <? se_seq e) (durable None sample_ops).
Proof.
  split; [reflexivity|].
  assert (Hs : StronglySorted seq_lt (durable None sample_ops)) by (repeat constructor).
  destruct (reconnect_gap_free None quiet 2 sample_ops 0 ltac:(lia) Hs) as [_ H].
  apply (H 0); [|lia|].
  - change (durable None sample_ops) with [ev "RUN_STARTED" 0; ev "RUN_FINISHED" 1; ev "TOOL_CALL_START" 2].
    intros [|[|[|i]]] e E; try done; by injection E as <-.
  - intros oldest [= <-]. lia.
Defined.

Lemma subscriber_isolated_witness :
  OUnsubscribe 1 ∉ [OObserve (ev "run.finished" 1) 1] /\
  received 1 (hub_run None quiet 2 [OSubscribe 1; OObserve (ev "run.finished" 1) 1] createRemoteControlHub) =
    [ev "RUN_FINISHED" 1].
Proof.
  assert (H : OUnsubscribe 1 ∉ [OObserve (ev "run.finished" 1) 1]) by set_solver.
  split; [exact H|].
  exact (subscriber_isolated None quiet 2 1 [] [OObserve (ev "run.finished" 1) 1] (fun _ => eq_refl) H).
Defined.

Definition toy_text (v : jsval) : result string := Ok "text".
Definition toy_sign (t : string) : result string := Ok ("s" ++ t)%string.
Definition toy_check (t s : string) : result bool := Ok (s =? "s" ++ t)%string.
Lemma transcript_verifies_witness :
  (0 <= 2) /\
  Forall (fun e => verifyEvent toy_text toy_check e = true)
    (backlog None (hub_run (Some (signEvent toy_text toy_sign)) quiet 2 sample_ops createRemoteControlHub)).
Proof.
  split; [lia|]. apply Forall_forall. apply (transcript_verifies toy_text toy_sign toy_check quiet 2 sample_ops None).
  - intros v. by exists "text".
  - intros t. by exists ("s" ++ t)%string.
  - intros t s [= <-]. unfold toy_check. by rewrite String.eqb_refl.
  - lia.
Defined.

(** An approval settled after the end of the run puts a finished session back to
    thinking. *)
Example finished_but_thinking :
  let s := hub_state (hub_run None quiet 5
    [OEmit (ev "RUN_STARTED" 0) 0; OEmit (ev "CUSTOM_HITL_REQUEST" 1) 1; OEmit (ev "RUN_FINISHED" 2) 2;
     OEmit (ev "CUSTOM_HITL_RESOLVED" 3) 3] createRemoteControlHub) in
  ss_status s = st_finished /\ ss_phase s = ph_thinking.
Proof. vm_compute. done. Qed.

(** After a restart the numbers begin again: the new event replaces the old one
    in the store, and a client that had seen number 0 is not sent it. *)
Example restart_reuses_numbers :
  let '(_, old) := makeEvent (fun _ => "") "run.start" JNull 0 "t0" (mkCounters 0 0) in
  let '(_, new) := makeEvent (fun _ => "") "run.start" JNull 9 "t9" (mkCounters 0 0) in
  let store := (saveEvent new (saveEvent old empty_store).1).1 in
  (loadEvents None store).2 = Ok [new] /\ (getMaxSeq store).2 = Ok 0 /\
  backlog (Some 0) (hub_emit None quiet 5 new 9 (hub_emit None quiet 5 old 0 createRemoteControlHub)) = [].
Proof. vm_compute. done. Qed.

(** Warming a hub calls its subscribers and signs again. *)
Example warming_dispatches :
  let old := mkEvent "RUN_STARTED" "i" 0 "t" JNull (Some "old") in
  let h := (loadHubFromPersistence (Some (signEvent toy_text toy_sign)) quiet 5 None 7
              (saveEvent old empty_store).1 (subscribe 1 createRemoteControlHub)).1 in
  map (fun d => (d.1, se_sig d.2)) (delivered h) = [(1%nat, Some "stext")] /\
  ss_startedAtMs (hub_state h) = Some 7.
Proof. vm_compute. done. Qed.
