(* ===== verification/RemoteApproval.v ===== *)
(** The approval channel of remote clients, [remote/approval.ts]: requests parked
    until a client answers, a timer fires, or the loop cancels.

    Events are the requests and verdicts announced to the session; identifiers
    are drawn outside, and time stamps are arguments. *)

From S2P Require Import Prelude JsNum Approval.

Inductive hitl_event :=
| HitlRequest (requestId action context : string) (expiresAt : Z) (risk : option ApprovalRisk)
| HitlResolved (requestId : string) (approved : bool) (by_ : string).

Record pending_request := mkPark {
  rp_req : ApprovalRequest; rp_resolved : bool; rp_verdict : option Approval; rp_timer : bool
}.
Record RemoteHitlRecord := mkHitlRecord { hr_action : string; hr_approved : bool; hr_by : string; hr_at : string }.

(** The queue, and the events emitted so far. *)
Record remote_channel := mkRemote { rq_queue : list (string * pending_request); rq_events : list hitl_event }.
Definition remote_init : remote_channel := mkRemote [] [].

Section Channel.
(** [opts.timeoutMs], and whether [opts.onTimeout] approves. *)
Context (timeoutMs : option Z) (timeout_approves : bool).

Definition conclude (id : string) (e : pending_request) (v : Approval) (c : remote_channel) : remote_channel :=
  mkRemote (om_set id (mkPark (rp_req e) true (Some v) false) (rq_queue c))
    (rq_events c ++ [HitlResolved id (approved v) (ap_by v)]).

Definition remote_settle (id : string) (v : Approval) (c : remote_channel) : remote_channel * bool :=
  match om_get id (rq_queue c) with
  | Some e => if rp_resolved e then (c, false) else (conclude id e v c, true)
  | None => (c, false)
  end.

Definition wait_of (req : ApprovalRequest) : Z :=
  if 0 <? ar_timeoutMs req then ar_timeoutMs req else default 120000 timeoutMs.

Definition remote_send (id : string) (req : ApprovalRequest) (now : Z) (c : remote_channel) : remote_channel :=
  mkRemote (om_set id (mkPark req false None true) (rq_queue c))
    (rq_events c ++ [HitlRequest id (ar_action req) (ar_context req) (now + wait_of req) (ar_risk req)]).

Definition policy_name : string := if timeout_approves then "approve" else "reject".

Definition timeout_verdict (req : ApprovalRequest) (at_ : string) : Approval :=
  mkApproval timeout_approves (Some ("auto-" ++ policy_name ++ " after " ++ str_of_Z (wait_of req) ++ "ms")%string)
    "timeout-policy" at_ None (negb timeout_approves).

(** The timer of a request: it is armed until the request is settled. *)
Definition remote_timeout (id at_ : string) (c : remote_channel) : remote_channel :=
  match om_get id (rq_queue c) with
  | Some e => if rp_timer e then fst (remote_settle id (timeout_verdict (rp_req e) at_) c) else c
  | None => c
  end.

Definition remote_poll (id : string) (c : remote_channel) : option Approval :=
  match om_get id (rq_queue c) with
  | Some e => if rp_resolved e then rp_verdict e else None
  | None => None
  end.

Definition remote_cancel (id at_ : string) (c : remote_channel) : remote_channel :=
  match om_get id (rq_queue c) with
  | Some e =>
      if rp_resolved e then
        mkRemote (om_set id (mkPark (rp_req e) true (rp_verdict e) false) (rq_queue c)) (rq_events c)
      else conclude id e (mkApproval false (Some "request cancelled") "cancelled" at_ None false) c
  | None => c
  end.

Definition remote_resolve (id : string) (approved : bool) (by_ note : string) (scope : option string)
    (at_ : string) (c : remote_channel) : remote_channel * bool :=
  remote_settle id (mkApproval approved (Some note) by_ at_ scope false) c.

Definition remote_pending (c : remote_channel) : list (string * string * string * string) :=
  map (fun '(id, e) => (id, ar_agentId (rp_req e), ar_action (rp_req e), ar_context (rp_req e)))
    (List.filter (fun kv => negb (rp_resolved kv.2)) (rq_queue c)).

Definition remote_history (c : remote_channel) : list RemoteHitlRecord :=
  omap (fun '(_, e) =>
    match rp_resolved e, rp_verdict e with
    | true, Some v => Some (mkHitlRecord (ar_action (rp_req e)) (approved v) (ap_by v) (ap_at v))
    | _, _ => None
    end) (rq_queue c).

Definition remote_dispose (c : remote_channel) : remote_channel :=
  mkRemote (map (fun '(id, e) => (id, mkPark (rp_req e) (rp_resolved e) (rp_verdict e) false)) (rq_queue c))
    (rq_events c).

(** * Every operation, in any order *)

Inductive remote_op :=
| RSend (id : string) (req : ApprovalRequest) (now : Z)
| RTimeout (id at_ : string)
| RCancel (id at_ : string)
| RResolve (id : string) (approved : bool) (by_ note : string) (scope : option string) (at_ : string)
| RDispose.

Definition remote_step (c : remote_channel) (o : remote_op) : remote_channel :=
  match o with
  | RSend id req now => remote_send id req now c
  | RTimeout id at_ => remote_timeout id at_ c
  | RCancel id at_ => remote_cancel id at_ c
  | RResolve id a by_ note scope at_ => fst (remote_resolve id a by_ note scope at_ c)
  | RDispose => remote_dispose c
  end.
Definition remote_run (ops : list remote_op) (c : remote_channel) : remote_channel := fold_left remote_step ops c.

(** Identifiers are drawn at random: no request reuses one. *)
Definition fresh_send (c : remote_channel) (o : remote_op) : Prop :=
  match o with RSend id _ _ => om_get id (rq_queue c) = None | _ => True end.

Fixpoint fresh_sends (c : remote_channel) (ops : list remote_op) : Prop :=
  match ops with [] => True | o :: ops => fresh_send c o /\ fresh_sends (remote_step c o) ops end.

(** The verdicts announced for a request. *)
Definition verdicts (id : string) (evs : list hitl_event) : list (bool * string) :=
  omap (fun e => match e with HitlResolved i a b => if decide (i = id) then Some (a, b) else None | _ => None end) evs.

(** What the queue and the announcements say of a request. *)
Record request_inv (c : remote_channel) (id : string) : Prop := {
  announced : verdicts id (rq_events c) =
    match remote_poll id c with Some v => [(approved v, ap_by v)] | None => [] end;
  resolved_has_verdict : forall e, om_get id (rq_queue c) = Some e ->
    rp_resolved e = bool_decide (is_Some (rp_verdict e))
}.

Lemma verdicts_app id l1 l2 : verdicts id (l1 ++ l2) = verdicts id l1 ++ verdicts id l2.
Proof. apply omap_app. Qed.

Lemma conclude_inv id i e v c : request_inv c id -> om_get i (rq_queue c) = Some e -> rp_resolved e = false ->
  request_inv (conclude i e v c) id.
Proof.
  intros [Ha Hr] He Hu. unfold conclude. split; unfold remote_poll; cbn [rq_queue rq_events].
  - rewrite verdicts_app, Ha. destruct (decide (i = id)) as [->|Hne].
    + unfold remote_poll. rewrite He, Hu, om_get_set_eq. cbn. by rewrite decide_True.
    + rewrite om_get_set_ne by done. cbn. rewrite decide_False by done. by rewrite app_nil_r.
  - intros e' He'. rewrite om_get_set in He'. case_decide; [by injection He' as <-|by apply Hr].
Qed.

Lemma settle_inv id i v c : request_inv c id -> request_inv (fst (remote_settle i v c)) id.
Proof.
  intros H. unfold remote_settle. destruct (om_get i (rq_queue c)) as [e|] eqn:E; [|done].
  destruct (rp_resolved e) eqn:Er; [done|]. by apply conclude_inv.
Qed.

(** The timer of a request is off. *)
Lemma disarm_inv id i e c : request_inv c id -> om_get i (rq_queue c) = Some e ->
  request_inv (mkRemote (om_set i (mkPark (rp_req e) (rp_resolved e) (rp_verdict e) false) (rq_queue c))
                 (rq_events c)) id.
Proof.
  intros [Ha Hr] He. split; unfold remote_poll in *; cbn [rq_queue rq_events].
  - rewrite Ha, om_get_set. case_decide as Hd; [|done]. subst i. by rewrite He.
  - intros e' He'. rewrite om_get_set in He'. case_decide; [|by apply Hr]. injection He' as <-. subst i. exact (Hr e He).
Qed.

Lemma om_get_map_snd_kv {K V} `{EqDecision K} (f : V -> V) (k : K) (m : list (K * V)) :
  om_get k (map (fun '(k, v) => (k, f v)) m) = f <$> om_get k m.
Proof. induction m as [|[k' v] m IH]; [done|]. simpl. by case_decide. Qed.

Lemma remote_step_inv id o c : fresh_send c o -> request_inv c id -> request_inv (remote_step c o) id.
Proof.
  intros Hf H. destruct o as [i req now|i at_|i at_|i a b note scope at_|]; cbn [remote_step].
  - destruct H as [Ha Hr]. cbn in Hf. split; unfold remote_poll in *; cbn [remote_send rq_queue rq_events].
    + rewrite verdicts_app, Ha, app_nil_r, om_get_set. case_decide; [subst i; by rewrite Hf|done].
    + intros e He. rewrite om_get_set in He. case_decide; [by injection He as <-|by apply Hr].
  - unfold remote_timeout. destruct (om_get i _); [|done]. destruct (rp_timer _); [by apply settle_inv|done].
  - unfold remote_cancel. destruct (om_get i _) as [e|] eqn:E; [|done]. destruct (rp_resolved e) eqn:Er.
    + rewrite <- Er. by apply disarm_inv.
    + by apply conclude_inv.
  - by apply settle_inv.
  - destruct H as [Ha Hr]. unfold remote_dispose.
    pose (off := fun e => mkPark (rp_req e) (rp_resolved e) (rp_verdict e) false).
    split; unfold remote_poll in *; cbn [rq_queue rq_events].
    + rewrite Ha, (om_get_map_snd_kv off). by destruct (om_get id (rq_queue c)).
    + intros e He. rewrite (om_get_map_snd_kv off) in He.
      destruct (om_get id (rq_queue c)) as [e0|] eqn:E; [|done]. injection He as <-. exact (Hr e0 eq_refl).
Qed.

(** A verdict stays. *)
Lemma remote_step_poll id o c v : fresh_send c o -> remote_poll id c = Some v ->
  remote_poll id (remote_step c o) = Some v.
Proof.
  unfold remote_poll. intros Hf Hv. destruct (om_get id (rq_queue c)) as [e|] eqn:E; [|done].
  destruct (rp_resolved e) eqn:Er; [|done].
  assert (Hset : forall i e' v' c', c' = conclude i e' v' c -> om_get i (rq_queue c) = Some e' ->
    rp_resolved e' = false -> om_get id (rq_queue c') = Some e).
  { intros i e' v' c' -> He' Hu. cbn [conclude rq_queue]. rewrite om_get_set_ne; [done|]. intros ->. congruence. }
  assert (Hsettle : forall i w, om_get id (rq_queue (fst (remote_settle i w c))) = Some e).
  { intros i w. unfold remote_settle. destruct (om_get i (rq_queue c)) as [e'|] eqn:E'; [|done].
    destruct (rp_resolved e') eqn:Er'; [done|]. by eapply Hset. }
  destruct o as [i req now|i at_|i at_|i a b note scope at_|]; cbn [remote_step].
  - cbn in Hf. cbn [remote_send rq_queue]. rewrite om_get_set_ne by congruence. by rewrite E, Er.
  - unfold remote_timeout. destruct (om_get i _); [|by rewrite E, Er].
    destruct (rp_timer _); [by rewrite Hsettle, Er|by rewrite E, Er].
  - unfold remote_cancel. destruct (om_get i (rq_queue c)) as [e'|] eqn:E'; [|by rewrite E, Er].
    destruct (rp_resolved e') eqn:Er'.
    + cbn [rq_queue]. rewrite om_get_set. case_decide; [subst i|by rewrite E, Er]. by simplify_eq.
    + by rewrite (Hset i e' (mkApproval false (Some "request cancelled") "cancelled" at_ None false) _ eq_refl), Er.
  - unfold remote_resolve. by rewrite Hsettle, Er.
  - cbn [remote_dispose rq_queue].
    rewrite (om_get_map_snd_kv (fun e => mkPark (rp_req e) (rp_resolved e) (rp_verdict e) false)), E. cbn. by rewrite Er.
Qed.

Lemma remote_run_inv ops c id : fresh_sends c ops -> request_inv c id ->
  request_inv (remote_run ops c) id /\ forall v, remote_poll id c = Some v -> remote_poll id (remote_run ops c) = Some v.
Proof.
  unfold remote_run. revert c. induction ops as [|o ops IH]; intros c; [done|]. intros [Hf Hfs] H.
  destruct (IH (remote_step c o) Hfs) as [H1 H2]; [by apply remote_step_inv|]. split; [done|].
  intros v Hv. by apply H2, remote_step_poll.
Qed.

(** An approval comes from a client, or from a policy that approves. *)
Definition approving (id : string) (o : remote_op) : Prop :=
  match o with
  | RResolve i a _ _ _ _ => i = id /\ a = true
  | RTimeout i _ => i = id /\ timeout_approves = true
  | _ => False
  end.

Lemma step_approval id o c v : remote_poll id (remote_step c o) = Some v -> approved v = true ->
  remote_poll id c = Some v \/ approving id o.
Proof.
  intros Hp Ha. assert (Hset : forall i w, remote_poll id (fst (remote_settle i w c)) = Some v ->
    remote_poll id c = Some v \/ i = id /\ v = w).
  { intros i w. unfold remote_settle, conclude, remote_poll.
    destruct (om_get i (rq_queue c)) as [e|] eqn:E; [|by left]. destruct (rp_resolved e); [by left|].
    cbn [fst rq_queue]. rewrite om_get_set. case_decide; [|by left]. intros [= ->]. by right. }
  destruct o as [i req now|i at_|i at_|i a b note scope at_|]; cbn [remote_step approving] in *.
  - left. revert Hp. unfold remote_poll. cbn [remote_send rq_queue]. rewrite om_get_set. by case_decide.
  - unfold remote_timeout in Hp. destruct (om_get i (rq_queue c)) as [e|]; [|by left].
    destruct (rp_timer e); [|by left]. destruct (Hset _ _ Hp) as [|[-> ->]]; [by left|]. by right.
  - left. revert Hp. unfold remote_cancel, remote_poll. destruct (om_get i (rq_queue c)) as [e|] eqn:E; [|done].
    destruct (rp_resolved e) eqn:Er; cbn [conclude rq_queue]; rewrite om_get_set; case_decide; try done.
    + subst i. by rewrite E, Er.
    + intros [= <-]. done.
  - destruct (Hset _ _ Hp) as [|[-> ->]]; [by left|]. by right.
  - left. revert Hp. unfold remote_poll. cbn [remote_dispose rq_queue].
    rewrite (om_get_map_snd_kv (fun e => mkPark (rp_req e) (rp_resolved e) (rp_verdict e) false)).
    by destruct (om_get id (rq_queue c)).
Qed.

(** Verdicts are final and fail closed: whatever requests, answers,
    cancellations, timers and teardown occur in any order, a request is announced
    as resolved at most once, exactly when it has a verdict and with that
    verdict; a verdict never changes afterwards; and a request is approved only
    if a client approved it, or its timer fired under a policy that approves. *)
Theorem remote_verdicts_final ops ops' id : fresh_sends remote_init (ops ++ ops') ->
  let c := remote_run ops remote_init in
  verdicts id (rq_events c) = match remote_poll id c with Some v => [(approved v, ap_by v)] | None => [] end /\
  (forall v, remote_poll id c = Some v -> remote_poll id (remote_run (ops ++ ops') remote_init) = Some v) /\
  (forall v, remote_poll id c = Some v -> approved v = true -> Exists (approving id) ops).
Proof.
  intros Hf c. assert (Hsplit : fresh_sends remote_init ops /\ fresh_sends c ops').
  { unfold c, remote_run. revert Hf. generalize remote_init. induction ops as [|o ops IH]; intros c0 Hf; [done|].
    destruct Hf as [Ho Hf]. apply IH in Hf as [H1 H2]. done. }
  destruct Hsplit as [Hf1 Hf2]. assert (H0 : request_inv remote_init id) by (split; done).
  destruct (remote_run_inv ops _ id Hf1 H0) as [Hi _]. split_and!.
  - apply Hi.
  - unfold remote_run. rewrite fold_left_app. by apply remote_run_inv.
  - assert (Hgen : forall c0 v, remote_poll id (remote_run ops c0) = Some v -> approved v = true ->
      remote_poll id c0 = Some v \/ Exists (approving id) ops).
    { clear. unfold remote_run. induction ops as [|o ops IH]; intros c0 v Hv Ha; [by left|].
      destruct (IH _ _ Hv Ha) as [Hp|He]; [|right; by right].
      destruct (step_approval _ _ _ _ Hp Ha); [by left|right; by left]. }
    intros v Hv Ha. by destruct (Hgen _ _ Hv Ha).
Qed.
End Channel.

Definition ask : ApprovalRequest := mkRequest "a" "deploy" "{}" 0 None.

Lemma remote_verdicts_final_witness :
  fresh_sends None false remote_init [RSend "r" ask 0; RResolve "r" true "phone" "ok" None "t"; RTimeout "r" "u"] /\
  remote_poll "r" (remote_run None false [RSend "r" ask 0; RResolve "r" true "phone" "ok" None "t"; RTimeout "r" "u"]
                     remote_init) = Some (mkApproval true (Some "ok") "phone" "t" None false).
Proof.
  assert (H : fresh_sends None false remote_init
    ([RSend "r" ask 0; RResolve "r" true "phone" "ok" None "t"] ++ [RTimeout "r" "u"])) by (vm_compute; tauto).
  split; [exact H|].
  apply (remote_verdicts_final None false [RSend "r" ask 0; RResolve "r" true "phone" "ok" None "t"]
           [RTimeout "r" "u"] "r" H). reflexivity.
Defined.
