(* ===== verification/RemoteServer.v ===== *)
(** The HTTP server of remote control, [remote/http-server.ts].

    A request is handled up to the first thing it waits for: its body, the check
    of a signature, a durable write.  It then stands among the tasks of the
    server until that thing happens, in any order with the other requests.  A
    step of the server is an arrival, one of these completions, the departure of
    a stream client, or an event of the session.  Sockets are left out: a reply
    is its status and its body. *)

From S2P Require Import Prelude JsNum JsValue Veto Regex Json Approval NumText JsonParse.
From S2P Require Import TokenBase Dpop SubToken RemoteHub RemoteApproval.
From Stdlib Require Import SpecFloat Ascii.

(** * Requests and replies *)

Record request := mkRequestLine {
  rq_method : string; rq_url : string; rq_origin : option string; rq_authorization : option string;
  rq_dpop : option string; rq_proto : option string; rq_fhost : option string; rq_host : option string
}.

Inductive reply :=
| JsonReply (status : Z) (body : jsval)
| EmptyReply (status : Z)
| StreamReply (status : Z) (events : list SessionEvent).

Definition json_reply (status : Z) (fields : list (string * jsval)) : reply := JsonReply status (JObj fields).
Definition error_reply (status : Z) (error : string) : reply := json_reply status [("error", JStr error)].

Definition pathname (rq : request) : string := nth 0 (segments "?" (rq_url rq)) "".

(** The text up to the next [&], when there is any. *)
Fixpoint until_amp (s : string) : string :=
  match s with
  | EmptyString => EmptyString
  | String c s' => if ascii_dec c "&" then EmptyString else String c (until_amp s')
  end.

(** [url.match(/[?&]token=([^&]+)/)?.[1]]. *)
Fixpoint token_param (s : string) : option string :=
  match s with
  | EmptyString => None
  | String c s' =>
      if (bool_decide (c = "?"%char) || bool_decide (c = "&"%char)) && starts_with "token=" s' then
        match until_amp (str_drop 6 s') with EmptyString => token_param s' | t => Some t end
      else token_param s'
  end.

Fixpoint leading_digits (s : string) : string :=
  match s with
  | EmptyString => EmptyString
  | String c s' => match digit_val c with Some _ => String c (leading_digits s') | None => EmptyString end
  end.

(** [url.match(/[?&]since=(\d+)/)], the digits read as a number. *)
Fixpoint since_param (s : string) : option Z :=
  match s with
  | EmptyString => None
  | String c s' =>
      if (bool_decide (c = "?"%char) || bool_decide (c = "&"%char)) && starts_with "since=" s' then
        match leading_digits (str_drop 6 s') with
        | EmptyString => since_param s'
        | ds => Some (fst (fst (read_digits ds 0)))
        end
      else since_param s'
  end.

(** [auth.startsWith("Bearer ") ? auth.slice(7) : ""]. *)
Definition header_token (rq : request) : string :=
  let auth := default "" (rq_authorization rq) in
  if starts_with "Bearer " auth then str_drop 7 auth else "".

(** * Routes behind the gate *)

Inductive route :=
| R_state | R_teammates | R_stream | R_inject | R_veto (callId : string)
| R_hitl (id : string) (approve : bool) | R_revoke (jti : string) | R_revocations | R_bind | R_none.

Definition jti_char (c : ascii) : bool := is_word c || bool_decide (c = "-"%char).
Fixpoint str_all (p : ascii -> bool) (s : string) : bool :=
  match s with EmptyString => true | String c s' => p c && str_all p s' end.
Definition nonempty (s : string) : bool := negb (s =? "")%string.

Definition route_of (method path : string) : route :=
  if (method =? "GET")%string then
    if (path =? "/remote/state")%string then R_state
    else if (path =? "/remote/teammates")%string then R_teammates
    else if (path =? "/remote/stream")%string then R_stream
    else if (path =? "/remote/revocations")%string then R_revocations
    else R_none
  else if (method =? "POST")%string then
    if (path =? "/remote/inject")%string then R_inject
    else if (path =? "/remote/bind-device")%string then R_bind
    else match segments "/" path with
    | [""; "remote"; "veto"; x] => if nonempty x then R_veto x else R_none
    | [""; "remote"; "hitl"; x; "approve"] => if nonempty x then R_hitl x true else R_none
    | [""; "remote"; "hitl"; x; "reject"] => if nonempty x then R_hitl x false else R_none
    | [""; "remote"; "revoke"; x] => if nonempty x && str_all jti_char x then R_revoke x else R_none
    | _ => R_none
    end
  else R_none.

(** The scope a route asks for. *)
Definition required (r : route) : option string :=
  match r with
  | R_state | R_teammates | R_stream => Some "read-only"
  | R_veto _ | R_hitl _ _ => Some "approve-only"
  | R_inject | R_revoke _ | R_revocations => Some "full"
  | R_bind | R_none => None
  end.

(** * Request bodies *)

(** [None] when reading the members throws: not JSON, or null. *)
Definition body_object (body : string) : option jsval :=
  match (if (body =? "")%string then Ok (JObj []) else json_parse body) with
  | Ok JNull | Throw _ => None
  | Ok v => Some v
  end.

(** [String(v ?? "")]. *)
Definition text_or_empty (v : jsval) : result string :=
  match v with JUndef | JNull => Ok "" | _ => template_text v end.

(** Text, whisper and source of an instruction; an empty text is refused. *)
Definition inject_body (body : string) : option (string * string * bool) :=
  match body_object body with
  | None => None
  | Some p =>
      match text_or_empty (member "text" p) with
      | Throw _ => None
      | Ok text =>
          if is_blank text then None
          else Some (text, default "remote" (as_string (member "source" p)),
                 match member "whisper" p with JBool b => b | _ => false end)
      end
  end.

Definition veto_body (body : string) : string * option string :=
  match body_object body with
  | None => ("remote-http", None)
  | Some p =>
      (match member "by" p with JStr b => if is_blank b then "remote-http" else b | _ => "remote-http" end,
       match member "reason" p with JStr (String _ _ as r) => Some r | _ => None end)
  end.

Definition hitl_note (body : string) : string :=
  match body_object body with
  | None => ""
  | Some p =>
      let v := match member "note" p with JUndef | JNull => member "reason" p | v => v end in
      match text_or_empty v with Ok note => note | Throw _ => "" end
  end.

Definition bind_key (body : string) : option jsval :=
  match body_object body with
  | None => None
  | Some p => if is_object_val (member "jwk" p) then Some (member "jwk" p) else None
  end.

(** * Teammate deliveries, before the gate *)

Definition TEAMMATE_SEND_ERROR_STATUS : list (string * Z) :=
  [("UnknownSourceError", 401); ("InvalidSignatureError", 401); ("ClockSkewError", 401);
   ("ReplayDetectedError", 409); ("TeammateBoundaryRateLimitError", 429); ("NotCrossInstallEnvelope", 400);
   ("MalformedEnvelopeError", 400); ("NoRecipient", 404); ("CertChainInvalidError", 401);
   ("CertExpiredError", 401); ("InstallRevokedError", 403)].

(** The outcome of either port; [targets] only for deliveries. *)
Record TeammateSendOutcome := mkOutcome {
  to_accepted : bool; to_errorName : option string; to_targets : option jsval
}.

Definition rejected_reply (status : Z) (error : string) : reply :=
  json_reply status [("accepted", JBool false); ("error", JStr error)].

Definition teammate_reply (malformed : string) (port : jsval -> result TeammateSendOutcome) (raw : string)
    : reply :=
  match (if (raw =? "")%string then Ok JUndef else json_parse raw) with
  | Throw _ => rejected_reply 400 "malformed_json"
  | Ok v =>
      if negb (is_object_val v) then rejected_reply 400 malformed
      else match port v with
      | Throw _ => rejected_reply 500 "internal_error"
      | Ok o =>
          if to_accepted o then
            json_reply 200 (("accepted", JBool true) ::
              match to_targets o with Some t => [("targets", t)] | None => [] end)
          else
            let errorName := default "rejected" (to_errorName o) in
            rejected_reply (default 401 (om_get errorName TEAMMATE_SEND_ERROR_STATUS)) errorName
      end
  end.

(** * The server *)

Record config := mkConfig {
  cf_token : string;
  cf_channel : bool;                                  (** [approvalChannel] is given *)
  cf_persistent : bool;                               (** [persistence] is given *)
  cf_publicBaseUrl : option string;
  cf_address : string;                                (** host and port *)
  cf_allowedOrigins : list string;
  cf_teammateSend : option (jsval -> result TeammateSendOutcome);
  cf_teammateEventSink : option (jsval -> result TeammateSendOutcome);
  cf_teammateInfo : bool                              (** [teammateInfo] is given *)
}.

Definition LOOPBACK : list string := ["127.0.0.1"; "::1"; "localhost"].

Definition startup (host token : string) : result unit :=
  if negb (bool_decide (host ∈ LOOPBACK)) && (token =? "")%string then
    Throw (JsError "Error"
      "remote-control: a non-loopback host requires a token — refusing to start unauthenticated.")
  else Ok tt.

(** The origin echoed in the response, when it is allowed. *)
Definition cors_origin (cf : config) (rq : request) : option string :=
  match rq_origin rq with
  | None | Some EmptyString => None
  | Some o =>
      if bool_decide ("*" ∈ cf_allowedOrigins cf) || bool_decide (o ∈ cf_allowedOrigins cf) then Some o else None
  end.

(** What a request in progress waits for. *)
Inductive wait_body := WInject | WVeto (callId : string) | WHitl (id : string) (approve : bool) | WBind (presented : string).
Inductive after_save := SRevoked | SRebound (r : RebindSubTokenResult).
Inductive task :=
| TTeammate (malformed : string) (port : jsval -> result TeammateSendOutcome)
| TProof (rq : request) (scope : string) (c : check) (p : pending_proof)
| TBody (w : wait_body)
| TSave (jti : string) (a : after_save)
| TInfo.                                              (** [teammateInfo.snapshot()] is awaited *)

(** What a request did beyond its reply. *)
Inductive effect :=
| FxObserve (r : route)
| FxInject (text : string)
| FxVeto (callId : string)
| FxResolve (id : string) (approve : bool)
| FxRevoke (jti : string)
| FxRebind (oldJti subToken : string).

(** A request as it arrived: the clock when the scope was resolved, when the
    token was verified again, in the validation and in the replay check of the
    proof, and the identifiers revoked at that time. *)
Record arrival := mkArrival {
  ar_rq : request; ar_now1 : Z; ar_now2 : Z; ar_nowd : Z; ar_seen : Z; ar_revoked : list string
}.

(** [sv_replies], [sv_effects], [sv_arrivals] and [sv_crashed] are the history:
    a request that threw outside every handler has no reply. *)
Record server := mkServer {
  sv_revoked : list string; sv_durable : list string; sv_dpop : DpopReplayStore;
  sv_inbox : InstructionInbox; sv_veto : channel; sv_queue : remote_channel; sv_hub : hub;
  sv_tasks : list (nat * task);
  sv_arrivals : list arrival; sv_replies : list (nat * reply); sv_effects : list (nat * effect);
  sv_crashed : list nat
}.

(** [Set.add]. *)
Definition set_add (x : string) (l : list string) : list string := if bool_decide (x ∈ l) then l else l ++ [x].

(** The server as it starts, with the revocations it loads. *)
Definition boot (loaded : list string) : server :=
  mkServer (fold_left (fun l jti => set_add jti l) loaded []) loaded (newReplayStore None) [] channel_init
    remote_init createRemoteControlHub [] [] [] [] [].

Definition set_tasks (f : list (nat * task) -> list (nat * task)) (s : server) : server :=
  mkServer (sv_revoked s) (sv_durable s) (sv_dpop s) (sv_inbox s) (sv_veto s) (sv_queue s) (sv_hub s)
    (f (sv_tasks s)) (sv_arrivals s) (sv_replies s) (sv_effects s) (sv_crashed s).
Definition wait_for (n : nat) (t : task) : server -> server := set_tasks (fun ts => ts ++ [(n, t)]).
Definition set_dpop (d : DpopReplayStore) (s : server) : server :=
  mkServer (sv_revoked s) (sv_durable s) d (sv_inbox s) (sv_veto s) (sv_queue s) (sv_hub s)
    (sv_tasks s) (sv_arrivals s) (sv_replies s) (sv_effects s) (sv_crashed s).
Definition set_hub (h : hub) (s : server) : server :=
  mkServer (sv_revoked s) (sv_durable s) (sv_dpop s) (sv_inbox s) (sv_veto s) (sv_queue s) h
    (sv_tasks s) (sv_arrivals s) (sv_replies s) (sv_effects s) (sv_crashed s).
Definition set_revoked (r d : list string) (s : server) : server :=
  mkServer r d (sv_dpop s) (sv_inbox s) (sv_veto s) (sv_queue s) (sv_hub s)
    (sv_tasks s) (sv_arrivals s) (sv_replies s) (sv_effects s) (sv_crashed s).
Definition set_ports (i : InstructionInbox) (v : channel) (q : remote_channel) (s : server) : server :=
  mkServer (sv_revoked s) (sv_durable s) (sv_dpop s) i v q (sv_hub s)
    (sv_tasks s) (sv_arrivals s) (sv_replies s) (sv_effects s) (sv_crashed s).
Definition respond (n : nat) (r : reply) (s : server) : server :=
  mkServer (sv_revoked s) (sv_durable s) (sv_dpop s) (sv_inbox s) (sv_veto s) (sv_queue s) (sv_hub s)
    (sv_tasks s) (sv_arrivals s) (sv_replies s ++ [(n, r)]) (sv_effects s) (sv_crashed s).
Definition perform (n : nat) (e : effect) (s : server) : server :=
  mkServer (sv_revoked s) (sv_durable s) (sv_dpop s) (sv_inbox s) (sv_veto s) (sv_queue s) (sv_hub s)
    (sv_tasks s) (sv_arrivals s) (sv_replies s) (sv_effects s ++ [(n, e)]) (sv_crashed s).
Definition crash (n : nat) (s : server) : server :=
  mkServer (sv_revoked s) (sv_durable s) (sv_dpop s) (sv_inbox s) (sv_veto s) (sv_queue s) (sv_hub s)
    (sv_tasks s) (sv_arrivals s) (sv_replies s) (sv_effects s) (sv_crashed s ++ [n]).
Definition arrive (a : arrival) (s : server) : server :=
  mkServer (sv_revoked s) (sv_durable s) (sv_dpop s) (sv_inbox s) (sv_veto s) (sv_queue s) (sv_hub s)
    (sv_tasks s) (sv_arrivals s ++ [a]) (sv_replies s) (sv_effects s) (sv_crashed s).

(** * Handlers *)

Section Handlers.
Context `{TP : TokenPlatform}.
(** The signature check of the platform, [decodeURIComponent] ([None] when it
    throws), and the options of the hub. *)
Context (verify_sig : jsval -> string -> string -> result bool) (decode_uri : string -> option string).
Context (signFn : option (SessionEvent -> result SessionEvent)) (bufferSize : Z).
Context (cf : config).

Definition presented_token (rq : request) : string :=
  match header_token rq with
  | EmptyString =>
      match token_param (rq_url rq) with
      | Some t => default "" (decode_uri t)
      | None => ""
      end
  | t => t
  end.

Definition status_name (st : run_status) : string :=
  match st with st_idle => "idle" | st_running => "running" | st_finished => "finished" end.
Definition phase_name (p : SessionStatus) : string :=
  match p with
  | ph_idle => "idle" | ph_thinking => "thinking" | ph_tool_call => "tool-call" | ph_blocked => "blocked"
  | ph_awaiting_hitl => "awaiting-hitl" | ph_stopped => "stopped"
  end.
Definition str_or_null (s : option string) : jsval := match s with Some s => JStr s | None => JNull end.
Definition state_reply (now : Z) (h : hub) : reply :=
  let '(st, elapsed) := session_state now h in
  json_reply 200 [("runId", str_or_null (ss_runId st)); ("agentId", str_or_null (ss_agentId st));
    ("status", JStr (status_name (ss_status st))); ("stepCount", JNum (ss_stepCount st));
    ("costUsd", JNum (ss_costUsd st)); ("elapsedMs", JNum (num_of_Z elapsed));
    ("pendingHitl", JNum (num_of_Z (ss_pendingHitl st))); ("phase", JStr (phase_name (ss_phase st)))].

(** ** Revocations *)

Definition saved_reply (jti : string) (a : after_save) (already : bool) (s : server) : reply :=
  match a with
  | SRevoked =>
      json_reply 200 [("revoked", JBool true); ("jti", JStr jti); ("alreadyRevoked", JBool already);
        ("totalRevoked", JNum (num_of_Z (Z.of_nat (length (sv_revoked s))))); ("durable", JBool (cf_persistent cf))]
  | SRebound r =>
      json_reply 200 [("subToken", JStr (rb_subToken r)); ("expiresAt", JNum (rb_expiresAt r));
        ("scope", JStr (rb_scope r)); ("oldJti", JStr (rb_oldJti r)); ("newJti", JStr (rb_newJti r));
        ("durable", JBool (cf_persistent cf))]
  end.

Definition finish_save (n : nat) (jti : string) (a : after_save) (already : bool) (s : server) : server :=
  let s := match a with SRebound r => perform n (FxRebind jti (rb_subToken r)) s | SRevoked => s end in
  respond n (saved_reply jti a already s) s.

Definition revoke (n : nat) (jti : string) (a : after_save) (s : server) : server :=
  let already := bool_decide (jti ∈ sv_revoked s) in
  let s := set_revoked (set_add jti (sv_revoked s)) (sv_durable s) s in
  if cf_persistent cf && negb already then wait_for n (TSave jti a) s else finish_save n jti a already s.

(** The durable write ends; a failure rolls the revocation back. *)
Definition complete_save (n : nat) (jti : string) (a : after_save) (failure : option string) (s : server) : server :=
  match failure with
  | None => finish_save n jti a false (set_revoked (sv_revoked s) (set_add jti (sv_durable s)) s)
  | Some detail =>
      respond n (json_reply 503 [("error", JStr "persistence.saveRevocation failed"); ("detail", JStr detail)])
        (set_revoked (List.filter (fun j => negb (j =? jti)%string) (sv_revoked s)) (sv_durable s) s)
  end.

(** ** Behind the gate *)

Definition dispatch (n : nat) (rq : request) (scope : string) (now : Z) (s : server) : server :=
  let r := route_of (rq_method rq) (pathname rq) in
  if (match required r with Some q => negb (scopeCovers scope q) | None => false end) then
    respond n (json_reply 403 [("error", JStr "forbidden"); ("required", str_or_null (required r));
                               ("granted", JStr scope)]) s
  else match r with
  | R_state => respond n (state_reply now (sv_hub s)) (perform n (FxObserve r) s)
  | R_teammates =>
      if cf_teammateInfo cf then wait_for n TInfo (perform n (FxObserve r) s)
      else respond n (error_reply 404 "not found") s
  | R_stream =>
      respond n (StreamReply 200 (backlog (since_param (rq_url rq)) (sv_hub s)))
        (set_hub (subscribe n (sv_hub s)) (perform n (FxObserve r) s))
  | R_inject => wait_for n (TBody WInject) s
  | R_veto callId => wait_for n (TBody (WVeto callId)) s
  | R_hitl id approve =>
      if cf_channel cf then wait_for n (TBody (WHitl id approve)) s
      else respond n (error_reply 409 "no HITL channel on this session") s
  | R_revoke jti => revoke n jti SRevoked (perform n (FxRevoke jti) s)
  | R_revocations =>
      respond n (json_reply 200 [("jtis", JArr (map JStr (sv_revoked s)))]) (perform n (FxObserve r) s)
  | R_bind =>
      if (cf_token cf =? "")%string then
        respond n (json_reply 409 [("error", JStr "bind_device_requires_token");
          ("detail", JStr "loopback-no-token mode cannot mint device-bound tokens")]) s
      else
        let presented := header_token rq in
        if (presented =? "")%string || (presented =? cf_token cf)%string then
          respond n (json_reply 403 [("error", JStr "bind_device_requires_sub_token");
            ("detail", JStr "parent token cannot be device-bound")]) s
        else wait_for n (TBody (WBind presented)) s
  | R_none => respond n (error_reply 404 "not found") s
  end.

(** The body is there.  [randomHex] is the identifier drawn for a new token,
    [mintNow] the clock when it is minted, [at_] the time printed. *)
Definition complete_body (n : nat) (w : wait_body) (body : string) (now mintNow : Z) (randomHex at_ : string)
    (s : server) : server :=
  match w with
  | WInject =>
      match inject_body body with
      | None => respond n (error_reply 400 "text is required") s
      | Some (text, source, whisper) =>
          let inbox := enqueue text source whisper None at_ (sv_inbox s) in
          respond n (json_reply 200 [("queued", JBool true); ("pending", JNum (num_of_Z (inbox_size inbox)))])
            (perform n (FxInject text) (set_ports inbox (sv_veto s) (sv_queue s) s))
      end
  | WVeto callId =>
      let '(by_, reason) := veto_body body in
      respond n (json_reply 200 [("vetoed", JBool true); ("callId", JStr callId)])
        (perform n (FxVeto callId)
           (set_ports (sv_inbox s) (submit (Build_VetoSignal callId by_ reason at_) (sv_veto s)) (sv_queue s) s))
  | WHitl id approve =>
      let '(queue, ok) := remote_resolve id approve "remote" (hitl_note body) None at_ (sv_queue s) in
      let s := set_ports (sv_inbox s) (sv_veto s) queue s in
      if ok then
        respond n (json_reply 200 [("id", JStr id); ("verdict", JStr (if approve then "approve" else "reject"))])
          (perform n (FxResolve id approve) s)
      else respond n (error_reply 404 "unknown or already resolved") s
  | WBind presented =>
      match bind_key body with
      | None => respond n (error_reply 400 "jwk required in body") s
      | Some jwk =>
          match rebindSubToken (mkRebind (cf_token cf) presented jwk now mintNow) randomHex with
          | Rebound r => revoke n (rb_oldJti r) (SRebound r) s
          | RebindError code detail => respond n (json_reply 400 [("error", JStr code); ("detail", JStr detail)]) s
          | RebindThrow e =>
              respond n (json_reply 400 [("error", JStr "rebind_failed"); ("detail", JStr (err_message e))]) s
          end
      end
  end.

(** ** The gate *)

Definition drop_slash (s : string) : string :=
  if ends_with "/" s then str_take (String.length s - 1) s else s.

(** The address the proof must name. *)
Definition expected_htu (rq : request) : string :=
  (match cf_publicBaseUrl cf with
   | Some (String _ _ as base) => drop_slash base
   | _ => default "http" (rq_proto rq) ++ "://" ++
            match rq_fhost rq with Some h => h | None => default (cf_address cf) (rq_host rq) end
   end ++ pathname rq)%string.

Definition proof_check (a : arrival) (jkt jwt : string) (stored : Z) : check :=
  mkCheck (mkDpopOptions _ jkt (str_map to_upper (rq_method (ar_rq a))) (expected_htu (ar_rq a))
             (Some (presented_token (ar_rq a))) None None None)
    jwt (ar_nowd a) (ar_seen a) stored.

Definition unauthorized (error : string) (detail : option string) : reply :=
  json_reply 401 (("error", JStr error) :: match detail with Some d => [("detail", JStr d)] | None => [] end).

Definition gate (n : nat) (a : arrival) (s : server) : server :=
  let rq := ar_rq a in
  let token := cf_token cf in
  if (token =? "")%string then dispatch n rq "full" (ar_now1 a) s
  else
    let presented := presented_token rq in
    match resolveAuthScope token presented (ar_now1 a) (Some (fun jti => bool_decide (jti ∈ sv_revoked s))) with
    | Throw _ => crash n s
    | Ok None | Ok (Some EmptyString) => respond n (unauthorized "unauthorized" None) s
    | Ok (Some scope) =>
        if (presented =? token)%string then dispatch n rq scope (ar_now1 a) s
        else match verifySubToken token presented (ar_now2 a) with
        | Throw _ => crash n s
        | Ok v =>
            match vr_valid v, vr_cnf v with
            | true, Some jkt =>
                match rq_dpop rq with
                | None | Some EmptyString =>
                    respond n (unauthorized "dpop_required"
                      (Some "sub-token carries cnf claim ; DPoP header required")) s
                | Some jwt =>
                    let c := proof_check a jkt jwt 0 in
                    let '(d, r) := begin_proof (wired c) jwt (ar_nowd a) (sv_dpop s) in
                    let s := set_dpop d s in
                    match r with
                    | Throw _ => crash n s
                    | Ok (inl reason) => respond n (unauthorized "dpop_invalid" (Some reason)) s
                    | Ok (inr p) => wait_for n (TProof rq scope c p) s
                    end
                end
            | _, _ => dispatch n rq scope (ar_now1 a) s
            end
        end
    end.

Definition complete_proof (n : nat) (rq : request) (scope : string) (c : check) (p : pending_proof)
    (stored now : Z) (s : server) : server :=
  let c := mkCheck (ck_opts c) (ck_jwt c) (ck_now c) (ck_seen c) stored in
  let '(d, r) := end_proof verify_sig (wired c) p (sv_dpop s) in
  let s := set_dpop d s in
  match r with
  | DpopFailure reason => respond n (unauthorized "dpop_invalid" (Some reason)) s
  | ValidatedDpop _ _ => dispatch n rq scope now s
  end.

Definition handle (n : nat) (a : arrival) (s : server) : server :=
  let rq := ar_rq a in
  let method := rq_method rq in
  if (method =? "OPTIONS")%string then respond n (EmptyReply 204) s
  else if (method =? "GET")%string && (pathname rq =? "/remote/health")%string then
    respond n (json_reply 200 [("status", JStr "ok")]) s
  else if (method =? "POST")%string && (pathname rq =? "/teammate/send")%string then
    match cf_teammateSend cf with
    | None => respond n (error_reply 404 "not found") s
    | Some port => wait_for n (TTeammate "malformed_envelope" port) s
    end
  else if (method =? "POST")%string && (pathname rq =? "/teammate/events")%string then
    match cf_teammateEventSink cf with
    | None => respond n (error_reply 404 "not found") s
    | Some port => wait_for n (TTeammate "malformed_event" port) s
    end
  else gate n a s.

(** * Steps *)

Inductive server_event :=
| EvArrive (rq : request) (now1 now2 nowd seen : Z)
| EvProof (n : nat) (stored now : Z)
| EvBody (n : nat) (body : string) (now mintNow : Z) (randomHex at_ : string)
| EvSaved (n : nat) (failure : option string)
| EvClose (n : nat)
| EvSession (raw : SessionEvent) (own : bool) (now : Z)
| EvInfo (n : nat) (snapshot : result jsval).

Definition never_throws (_ : nat) (_ : SessionEvent) : bool := false.

Definition server_step (s : server) (e : server_event) : server :=
  match e with
  | EvArrive rq now1 now2 nowd seen =>
      let a := mkArrival rq now1 now2 nowd seen (sv_revoked s) in
      handle (length (sv_arrivals s)) a (arrive a s)
  | EvProof n stored now =>
      match om_get n (sv_tasks s) with
      | Some (TProof rq scope c p) => complete_proof n rq scope c p stored now (set_tasks (om_delete n) s)
      | _ => s
      end
  | EvBody n body now mintNow randomHex at_ =>
      match om_get n (sv_tasks s) with
      | Some (TBody w) => complete_body n w body now mintNow randomHex at_ (set_tasks (om_delete n) s)
      | Some (TTeammate malformed port) =>
          respond n (teammate_reply malformed port body) (set_tasks (om_delete n) s)
      | _ => s
      end
  | EvSaved n failure =>
      match om_get n (sv_tasks s) with
      | Some (TSave jti a) => complete_save n jti a failure (set_tasks (om_delete n) s)
      | _ => s
      end
  | EvClose n => set_hub (unsubscribe n (sv_hub s)) s
  | EvSession raw own now => set_hub (ingest signFn never_throws bufferSize raw own now (sv_hub s)) s
  | EvInfo n snapshot =>
      match om_get n (sv_tasks s) with
      | Some TInfo =>
          let s := set_tasks (om_delete n) s in
          match snapshot with Ok v => respond n (JsonReply 200 v) s | Throw _ => crash n s end
      | _ => s
      end
  end.

Definition serve (es : list server_event) (s : server) : server := fold_left server_step es s.
End Handlers.
