(* ===== verification/RemoteServerProps.v ===== *)
(** The remote-control server: what a request may do, that it is answered once,
    and what a revocation holds. *)

From S2P Require Import Prelude JsNum JsValue Veto Json Approval JsonParse TokenBase Dpop.
From S2P Require Import SubToken TokenProps RemoteHub RemoteApproval RemoteServer.
From Stdlib Require Import SpecFloat Ascii.

Section Server.
Context `{TP : TokenPlatform}.
Context (verify_sig : jsval -> string -> string -> result bool) (decode_uri : string -> option string).
Context (signFn : option (SessionEvent -> result SessionEvent)) (bufferSize : Z) (cf : config).

Notation dispatch := (dispatch cf).
Notation revoke := (revoke cf).
Notation gate := (gate decode_uri cf).
Notation handle := (handle decode_uri cf).
Notation step := (server_step verify_sig decode_uri signFn bufferSize cf).
Notation serve := (serve verify_sig decode_uri signFn bufferSize cf).
Notation presented a := (presented_token decode_uri (ar_rq a)).

(** * What a request may do *)

(** The holder of the bound key signed this request. *)
Definition possession (a : arrival) (jkt : string) : Prop :=
  exists jwt d d' p, rq_dpop (ar_rq a) = Some jwt /\
    begin_proof (wired (proof_check decode_uri cf a jkt jwt 0)) jwt (ar_nowd a) d = (d', Ok (inr p)) /\
    verify_sig (pp_jwk p) (pp_sig p) (pp_data p) = Ok true.

(** The bearer resolved to this scope when the request arrived. *)
Definition resolved_to (a : arrival) (scope : string) : Prop :=
  cf_token cf <> "" /\
  resolveAuthScope (cf_token cf) (presented a) (ar_now1 a) (Some (fun jti => bool_decide (jti ∈ ar_revoked a))) =
    Ok (Some scope).

Definition granted (a : arrival) (scope : string) : Prop :=
  (cf_token cf = "" /\ scope = "full") \/
  (resolved_to a scope /\
   (presented a = cf_token cf \/
    forall v jkt, verifySubToken (cf_token cf) (presented a) (ar_now2 a) = Ok v -> vr_valid v = true ->
      vr_cnf v = Some jkt -> possession a jkt)).

Definition effect_scope (e : effect) : option string :=
  match e with
  | FxObserve r => required r
  | FxInject _ | FxRevoke _ => Some "full"
  | FxVeto _ | FxResolve _ _ => Some "approve-only"
  | FxRebind _ _ => None
  end.

Definition covers (scope : string) (q : option string) : Prop :=
  match q with Some q => scopeCovers scope q = true | None => True end.
Definition allowed (a : arrival) (e : effect) : Prop := exists scope, granted a scope /\ covers scope (effect_scope e).

Definition body_scope (w : wait_body) : option string :=
  match w with WInject => Some "full" | WVeto _ | WHitl _ _ => Some "approve-only" | WBind _ => None end.

Definition task_ok (a : arrival) (t : task) : Prop :=
  match t with
  | TTeammate _ _ => True
  | TProof rq scope c p => rq = ar_rq a /\ resolved_to a scope /\
      exists jkt jwt d d', rq_dpop rq = Some jwt /\ c = proof_check decode_uri cf a jkt jwt 0 /\
        (forall v k, verifySubToken (cf_token cf) (presented a) (ar_now2 a) = Ok v -> vr_cnf v = Some k -> k = jkt) /\
        begin_proof (wired c) jwt (ar_nowd a) d = (d', Ok (inr p))
  | TBody w => exists scope, granted a scope /\ covers scope (body_scope w)
  | TSave _ _ => exists scope, granted a scope
  | TInfo => True
  end.

(** Every effect, and every task, belongs to a request that was entitled to it. *)
Definition entitled (arrivals : list arrival) (tasks : list (nat * task)) (effects : list (nat * effect)) : Prop :=
  (forall n e, (n, e) ∈ effects -> exists a, arrivals !! n = Some a /\ allowed a e) /\
  (forall n t, (n, t) ∈ tasks -> exists a, arrivals !! n = Some a /\ task_ok a t).
Definition server_ok (s : server) : Prop := entitled (sv_arrivals s) (sv_tasks s) (sv_effects s).

Lemma perform_ok n e a s : server_ok s -> sv_arrivals s !! n = Some a -> allowed a e -> server_ok (perform n e s).
Proof.
  intros [He Ht] Ha Hal. split; [|exact Ht]. cbn [perform sv_effects sv_arrivals].
  intros m x [Hx|Hx%list_elem_of_singleton]%elem_of_app; [by apply He|]. injection Hx as -> ->. by exists a.
Qed.

Lemma wait_ok n t a s : server_ok s -> sv_arrivals s !! n = Some a -> task_ok a t -> server_ok (wait_for n t s).
Proof.
  intros [He Ht] Ha Hal. split; [exact He|]. cbn [wait_for set_tasks sv_tasks sv_arrivals].
  intros m x [Hx|Hx%list_elem_of_singleton]%elem_of_app; [by apply Ht|]. injection Hx as -> ->. by exists a.
Qed.

Lemma om_delete_elem {V} (k : nat) (m : list (nat * V)) x : x ∈ om_delete k m -> x ∈ m.
Proof. induction m as [|[k' v] m IH]; [done|]. simpl. case_decide; set_solver. Qed.

Lemma drop_task_ok n s : server_ok s -> server_ok (set_tasks (om_delete n) s).
Proof. intros [He Ht]. split; [exact He|]. intros m t Hm%om_delete_elem. by apply Ht. Qed.

Lemma arrive_ok a s : server_ok s -> server_ok (arrive a s).
Proof.
  intros [He Ht]. split; cbn [arrive sv_arrivals sv_tasks sv_effects]; intros n x Hx;
    [destruct (He n x Hx) as (b & Hb & ?)|destruct (Ht n x Hx) as (b & Hb & ?)]; exists b;
    (split; [by apply lookup_app_l_Some|done]).
Qed.

Lemma finish_save_ok n jti x already a s : server_ok s -> sv_arrivals s !! n = Some a ->
  (exists scope, granted a scope) -> server_ok (finish_save cf n jti x already s).
Proof.
  intros Hs Ha (scope & Hg). unfold finish_save. destruct x as [|r]; [exact Hs|].
  apply (perform_ok n _ a s Hs Ha). by exists scope.
Qed.

Lemma revoke_ok n jti x a s : server_ok s -> sv_arrivals s !! n = Some a -> (exists scope, granted a scope) ->
  server_ok (revoke n jti x s).
Proof.
  intros Hs Ha Hg. unfold RemoteServer.revoke. destruct (_ && _).
  - by apply (wait_ok n _ a).
  - by apply (finish_save_ok n jti x _ a).
Qed.

Lemma dispatch_ok n a scope now s : server_ok s -> sv_arrivals s !! n = Some a -> granted a scope ->
  server_ok (dispatch n (ar_rq a) scope now s).
Proof.
  intros Hs Ha Hg. unfold RemoteServer.dispatch. set (r := route_of _ _).
  destruct (match required r with Some q => _ | None => _ end) eqn:Ereq; [exact Hs|].
  assert (Hc : covers scope (required r)) by (destruct (required r); [by apply negb_false_iff|done]). clear Ereq.
  assert (Hp : forall e, effect_scope e = required r -> server_ok (perform n e s))
    by (intros e He; apply (perform_ok n e a s Hs Ha); exists scope; by rewrite He).
  assert (Hw : forall w, body_scope w = required r -> server_ok (wait_for n (TBody w) s))
    by (intros w He; apply (wait_ok n _ a s Hs Ha); exists scope; by rewrite He).
  destruct r as [| | | |c|i x|j| | |]; try (by apply (Hp (FxObserve _))); try exact Hs.
  - destruct (cf_teammateInfo cf); [|exact Hs].
    by apply (wait_ok n TInfo a); [apply (Hp (FxObserve R_teammates))|..].
  - by apply Hw.
  - by apply Hw.
  - destruct (cf_channel cf); [by apply Hw|exact Hs].
  - apply (revoke_ok n j SRevoked a); [by apply Hp|exact Ha|by exists scope].
  - destruct (_ =? _)%string; [exact Hs|]. destruct (_ || _); [exact Hs|by apply Hw].
Qed.

Lemma gate_ok n a s : server_ok s -> sv_arrivals s !! n = Some a -> ar_revoked a = sv_revoked s ->
  server_ok (gate n a s).
Proof.
  intros Hs Ha Hrev. unfold RemoteServer.gate. destruct (String.eqb_spec (cf_token cf) "") as [Ht|Ht].
  { apply dispatch_ok; [done..|]. by left. }
  destruct (resolveAuthScope _ _ _ _) as [[scope|]|e] eqn:Er; [|exact Hs..].
  assert (Hres : resolved_to a scope) by (split; [done|]; by rewrite Hrev).
  assert (Hd : (presented a = cf_token cf \/ forall v jkt, verifySubToken (cf_token cf) (presented a) (ar_now2 a) =
      Ok v -> vr_valid v = true -> vr_cnf v = Some jkt -> possession a jkt) ->
    server_ok (dispatch n (ar_rq a) scope (ar_now1 a) s)) by (intros H; apply dispatch_ok; [done..|]; by right).
  destruct scope as [|c0 sc]; [exact Hs|].
  destruct (String.eqb_spec (presented a) (cf_token cf)) as [Hpar|Hpar]; [apply Hd; by left|].
  destruct (verifySubToken _ _ (ar_now2 a)) as [v|e] eqn:Ev; [|exact Hs].
  destruct (vr_valid v) eqn:Hval; [|apply Hd; right; intros; congruence].
  destruct (vr_cnf v) as [jkt|] eqn:Hcnf; [|apply Hd; right; intros; congruence].
  destruct (rq_dpop (ar_rq a)) as [[|c1 jwt]|] eqn:Hj; [exact Hs| |exact Hs].
  destruct (begin_proof _ _ _ _) as [d [[reason|p]|e]] eqn:Eb; [exact Hs| |exact Hs].
  apply (wait_ok n _ a); [exact Hs|exact Ha|]. split_and!; [done..|].
  exists jkt, (String c1 jwt), (sv_dpop s), d. split_and!; [done..| |exact Eb]. intros v' k Ev' Ek. congruence.
Qed.

Lemma end_validated (c : check) p d d' jkt claims :
  end_proof verify_sig (wired c) p d = (d', ValidatedDpop jkt claims) ->
  verify_sig (pp_jwk p) (pp_sig p) (pp_data p) = Ok true.
Proof. unfold end_proof. by destruct (verify_sig _ _ _) as [[|]|]. Qed.

Lemma complete_proof_ok n a scope c p stored now s :
  server_ok s -> sv_arrivals s !! n = Some a -> task_ok a (TProof (ar_rq a) scope c p) ->
  server_ok (complete_proof verify_sig cf n (ar_rq a) scope c p stored now s).
Proof.
  intros Hs Ha (_ & Hres & jkt & jwt & d & d' & Hj & -> & Hk & Hb). unfold complete_proof.
  destruct (end_proof _ _ _ _) as [d2 [jkt' claims|reason]] eqn:Ee; [|exact Hs].
  apply end_validated in Ee. apply dispatch_ok; [exact Hs|exact Ha|]. right. split; [done|]. right.
  intros v k Hv _ Hc. rewrite (Hk v k Hv Hc). by exists jwt, d, d', p.
Qed.

Lemma complete_body_ok n a w body now mintNow rnd at_ s :
  server_ok s -> sv_arrivals s !! n = Some a -> task_ok a (TBody w) ->
  server_ok (complete_body cf n w body now mintNow rnd at_ s).
Proof.
  intros Hs Ha (scope & Hg & Hc).
  assert (Hp : forall e, effect_scope e = body_scope w -> server_ok (perform n e s))
    by (intros e He; apply (perform_ok n e a s Hs Ha); exists scope; by rewrite He).
  destruct w as [|callId|i x|pr]; cbn [complete_body].
  - destruct (inject_body body) as [[[text source] whisper]|]; [|exact Hs]. by apply (Hp (FxInject text)).
  - destruct (veto_body body). by apply (Hp (FxVeto callId)).
  - destruct (remote_resolve _ _ _ _ _ _ _) as [q [|]]; [by apply (Hp (FxResolve i x))|exact Hs].
  - destruct (bind_key body); [|exact Hs]. destruct (rebindSubToken _ _); [|exact Hs..].
    apply (revoke_ok n _ _ a); [done..|by exists scope].
Qed.

Lemma om_get_elem {V} (k : nat) (m : list (nat * V)) v : om_get k m = Some v -> (k, v) ∈ m.
Proof. apply om_get_Some_in. Qed.

Lemma step_ok s e : server_ok s -> server_ok (step s e).
Proof.
  intros Hs. assert (Htask : forall n t, om_get n (sv_tasks s) = Some t ->
    exists a, sv_arrivals s !! n = Some a /\ task_ok a t) by (intros n t H; by apply (proj2 Hs), om_get_elem).
  destruct e as [rq n1 n2 nd ns|n stored now|n body now mn rnd at_|n failure|n|raw own now|n snap]; cbn [server_step].
  - set (a := mkArrival _ _ _ _ _ _). unfold RemoteServer.handle.
    pose proof (arrive_ok a s Hs) as Hs'. set (s' := arrive a s) in *. set (n := length (sv_arrivals s)).
    assert (Ha : sv_arrivals s' !! n = Some a) by (unfold s', n; cbn; by rewrite lookup_app_r, Nat.sub_diag by lia).
    repeat match goal with |- context [if ?b then _ else _] => destruct b; [try exact Hs'|] end.
    + destruct (cf_teammateSend cf); [by apply (wait_ok n _ a)|exact Hs'].
    + destruct (cf_teammateEventSink cf); [by apply (wait_ok n _ a)|exact Hs'].
    + by apply gate_ok.
  - destruct (om_get n (sv_tasks s)) as [[|rq scope c p| | |]|] eqn:E; try exact Hs.
    destruct (Htask n _ E) as (a & Ha & Ht). pose proof Ht as [-> _].
    apply (complete_proof_ok n a); [by apply drop_task_ok|done..].
  - destruct (om_get n (sv_tasks s)) as [[mal port| |w| |]|] eqn:E; try exact Hs.
    + by apply drop_task_ok.
    + destruct (Htask n _ E) as (a & Ha & Ht). apply (complete_body_ok n a); [by apply drop_task_ok|done..].
  - destruct (om_get n (sv_tasks s)) as [[| | |jti x|]|] eqn:E; try exact Hs.
    destruct (Htask n _ E) as (a & Ha & Ht). pose proof (drop_task_ok n s Hs) as Hd. unfold complete_save.
    destruct failure; [exact Hd|]. by apply (finish_save_ok n jti x _ a).
  - exact Hs.
  - exact Hs.
  - destruct (om_get n (sv_tasks s)) as [[| | | |]|]; try exact Hs. destruct snap; by apply drop_task_ok.
Qed.

Lemma serve_ok es s : server_ok s -> server_ok (serve es s).
Proof. unfold RemoteServer.serve. revert s. induction es as [|e es IH]; intros s Hs; [done|]. by apply IH, step_ok. Qed.

Lemma boot_ok loaded : server_ok (boot loaded).
Proof. split; intros n x H; by apply not_elem_of_nil in H. Qed.

(** C7: nothing happens without authority: in every order of arrivals, bodies,
    signature checks and writes, whatever a request observed, injected, vetoed,
    approved, revoked or rebound, its bearer had resolved on arrival, with the
    revocations of that moment, to a scope that covers the route, and, when its
    token verified again as bound to a key, the holder of that key had signed the
    request. *)
Theorem effects_authorized loaded es n e :
  (n, e) ∈ sv_effects (serve es (boot loaded)) ->
  exists a, sv_arrivals (serve es (boot loaded)) !! n = Some a /\ allowed a e.
Proof. apply (serve_ok es (boot loaded) (boot_ok loaded)). Qed.

(** * Every request is answered once *)

(** The requests that wait, that were answered, and that threw. *)
Definition accounted (s : server) : list nat := (sv_tasks s).*1 ++ (sv_replies s).*1 ++ sv_crashed s.

(** A handler settles its request: it waits on, is answered, or throws. *)
Definition settles (n : nat) (s s' : server) : Prop :=
  accounted s' ≡ₚ n :: accounted s /\ sv_arrivals s' = sv_arrivals s.

Lemma respond_settles n r s : settles n s (respond n r s).
Proof. split; [|done]. unfold accounted. cbn. rewrite fmap_app. cbn. solve_Permutation. Qed.

Lemma wait_settles n t s : settles n s (wait_for n t s).
Proof. split; [|done]. unfold accounted. cbn. rewrite fmap_app. cbn. solve_Permutation. Qed.

Lemma crash_settles n s : settles n s (crash n s).
Proof. split; [|done]. unfold accounted. cbn. solve_Permutation. Qed.

(** A change of the other parts of the server does not count. *)
Lemma settles_from n s s0 s' : accounted s0 = accounted s -> sv_arrivals s0 = sv_arrivals s ->
  settles n s0 s' -> settles n s s'.
Proof. intros H1 H2 [H3 H4]. split; congruence || by rewrite <- H1. Qed.

Ltac settle := first
  [ apply respond_settles | apply wait_settles | apply crash_settles
  | eapply settles_from; [ | | apply respond_settles ]; done
  | eapply settles_from; [ | | apply wait_settles ]; done
  | eapply settles_from; [ | | apply crash_settles ]; done ].

Lemma finish_settles n jti x already s : settles n s (finish_save cf n jti x already s).
Proof. unfold finish_save. destruct x; settle. Qed.

Lemma revoke_settles n jti x s : settles n s (revoke n jti x s).
Proof.
  unfold RemoteServer.revoke. destruct (_ && _); [settle|].
  by eapply settles_from; [| |apply finish_settles].
Qed.

Lemma dispatch_settles n rq scope now s : settles n s (dispatch n rq scope now s).
Proof.
  unfold RemoteServer.dispatch. destruct (match required _ with Some q => _ | None => _ end); [settle|].
  destruct (route_of _ _); try settle.
  - destruct (cf_teammateInfo cf); settle.
  - destruct (cf_channel cf); settle.
  - by eapply settles_from; [| |apply revoke_settles].
  - destruct (_ =? _)%string; [settle|]. destruct (_ || _); settle.
Qed.

Lemma gate_settles n a s : settles n s (gate n a s).
Proof.
  unfold RemoteServer.gate. destruct (_ =? _)%string; [apply dispatch_settles|].
  destruct (resolveAuthScope _ _ _ _) as [[[|c sc]|]|e]; try settle.
  destruct (_ =? _)%string; [apply dispatch_settles|]. destruct (verifySubToken _ _ _) as [v|]; [|settle].
  destruct (vr_valid v), (vr_cnf v) as [jkt|]; try apply dispatch_settles.
  destruct (rq_dpop _) as [[|c1 jwt]|]; try settle.
  destruct (begin_proof _ _ _ _) as [d [[reason|p]|e]]; settle.
Qed.

Lemma handle_settles n a s : settles n s (handle n a s).
Proof.
  unfold RemoteServer.handle.
  repeat match goal with |- context [if ?b then _ else _] => destruct b; [try settle|] end.
  - destruct (cf_teammateSend cf); settle.
  - destruct (cf_teammateEventSink cf); settle.
  - apply gate_settles.
Qed.

Lemma complete_body_settles n w body now mn rnd at_ s :
  settles n s (complete_body cf n w body now mn rnd at_ s).
Proof.
  destruct w as [|callId|i x|pr]; cbn [complete_body].
  - destruct (inject_body body) as [[[text source] whisper]|]; settle.
  - destruct (veto_body body); settle.
  - destruct (remote_resolve _ _ _ _ _ _ _) as [q [|]]; settle.
  - destruct (bind_key body); [|settle]. destruct (rebindSubToken _ _); [apply revoke_settles|settle..].
Qed.

(** A completed task is taken out before its request is settled again. *)
Lemma taken n t s s' : om_get n (sv_tasks s) = Some t -> settles n (set_tasks (om_delete n) s) s' ->
  accounted s' ≡ₚ accounted s /\ sv_arrivals s' = sv_arrivals s.
Proof.
  intros Hg [Hp Ha]. split; [|done]. rewrite Hp. unfold accounted. cbn [set_tasks sv_tasks sv_replies sv_crashed].
  rewrite app_comm_cons. apply Permutation_app_tail. clear -Hg. induction (sv_tasks s) as [|[k v] m IH]; [done|].
  cbn [om_get] in Hg. cbn [om_delete]. case_decide; [subst k; done|]. csimpl. rewrite <- IH by done. apply Permutation_swap.
Qed.

Lemma step_accounted s e : accounted s ≡ₚ seq 0 (length (sv_arrivals s)) ->
  accounted (step s e) ≡ₚ seq 0 (length (sv_arrivals (step s e))).
Proof.
  intros Hs. assert (Hkeep : forall s', accounted s' ≡ₚ accounted s /\ sv_arrivals s' = sv_arrivals s ->
    accounted s' ≡ₚ seq 0 (length (sv_arrivals s'))) by (intros s' [-> ->]; done).
  destruct e as [rq n1 n2 nd ns|n stored now|n body now mn rnd at_|n failure|n|raw own now|n snap]; cbn [server_step].
  - set (a := mkArrival _ _ _ _ _ _). destruct (handle_settles (length (sv_arrivals s)) a (arrive a s)) as [Hp ->].
    rewrite Hp. cbn [arrive sv_arrivals]. rewrite length_app, Nat.add_1_r, seq_S.
    change (accounted (arrive a s)) with (accounted s). rewrite Hs. apply Permutation_cons_append.
  - destruct (om_get n (sv_tasks s)) as [[|rq scope c p| | |]|] eqn:E; try by apply Hkeep.
    apply Hkeep, (taken n _ s _ E). unfold complete_proof. destruct (end_proof _ _ _ _) as [d [jkt claims|reason]].
    + by eapply settles_from; [| |apply dispatch_settles].
    + settle.
  - destruct (om_get n (sv_tasks s)) as [[mal port| |w| |]|] eqn:E; try by apply Hkeep.
    + apply Hkeep, (taken n _ s _ E). settle.
    + apply Hkeep, (taken n _ s _ E), complete_body_settles.
  - destruct (om_get n (sv_tasks s)) as [[| | |jti x|]|] eqn:E; try by apply Hkeep.
    apply Hkeep, (taken n _ s _ E). unfold complete_save. destruct failure; [settle|].
    by eapply settles_from; [| |apply finish_settles].
  - by apply Hkeep.
  - by apply Hkeep.
  - destruct (om_get n (sv_tasks s)) as [[| | | |]|] eqn:E; try by apply Hkeep.
    apply Hkeep, (taken n _ s _ E). destruct snap; settle.
Qed.

(** C13: every request is accounted for once: in every interleaving, each request
    that arrived either waits for exactly one thing, or was answered, once, or
    threw; none is lost and none is answered twice. *)
Theorem requests_accounted loaded es :
  let s := serve es (boot loaded) in accounted s ≡ₚ seq 0 (length (sv_arrivals s)).
Proof.
  cbv zeta. unfold RemoteServer.serve. assert (H : accounted (boot loaded) ≡ₚ seq 0 (length (sv_arrivals (boot loaded)))) by done.
  revert H. generalize (boot loaded). induction es as [|e es IH]; intros s H; [done|]. by apply IH, step_accounted.
Qed.

(** * Revocations *)

Definition saving (t : nat * task) : option string := match t.2 with TSave jti _ => Some jti | _ => None end.

(** The identifiers whose durable write is in progress. *)
Definition pending_saves (s : server) : list string := omap saving (sv_tasks s).

Record revocations_ok (s : server) : Prop := {
  one_save : NoDup (pending_saves s);
  durable_revoked : forall j, j ∈ sv_durable s -> j ∈ sv_revoked s;
  saving_revoked : forall j, j ∈ pending_saves s -> j ∈ sv_revoked s /\ j ∉ sv_durable s;
  revoked_kept : cf_persistent cf = true -> forall j, j ∈ sv_revoked s -> j ∈ sv_durable s \/ j ∈ pending_saves s;
  no_store_no_save : cf_persistent cf = false -> pending_saves s = []
}.

(** [s'] has kept what was durable, and what was revoked if there is no store. *)
Record revocations_grow (s s' : server) : Prop := {
  grow_ok : revocations_ok s';
  grow_durable : forall j, j ∈ sv_durable s -> j ∈ sv_durable s';
  grow_revoked : cf_persistent cf = false -> forall j, j ∈ sv_revoked s -> j ∈ sv_revoked s'
}.

Lemma set_add_elem x y l : x ∈ set_add y l <-> x = y \/ x ∈ l.
Proof. unfold set_add. case_bool_decide; set_solver. Qed.

(** Nothing about revocations changed. *)
Lemma same_grow s s' : revocations_ok s -> sv_revoked s' = sv_revoked s -> sv_durable s' = sv_durable s ->
  pending_saves s' = pending_saves s -> revocations_grow s s'.
Proof.
  intros [H1 H2 H3 H4 H5] Er Ed Ep. split; [split|..]; rewrite ?Er, ?Ed, ?Ep; done.
Qed.

Lemma same_ok s s' : revocations_ok s -> sv_revoked s' = sv_revoked s -> sv_durable s' = sv_durable s ->
  pending_saves s' = pending_saves s -> revocations_ok s'.
Proof. intros. by apply (same_grow s). Qed.

Lemma wait_pending n t s : pending_saves (wait_for n t s) =
  pending_saves s ++ match saving (n, t) with Some j => [j] | None => [] end.
Proof. unfold pending_saves. cbn [wait_for set_tasks sv_tasks]. rewrite omap_app. cbn. by destruct (saving _). Qed.

Ltac unchanged := first
  [ by apply same_grow
  | apply same_grow; [done|done|done|]; rewrite wait_pending; cbn; by rewrite app_nil_r ].

Lemma finish_grow n jti x already s : revocations_ok s -> revocations_grow s (finish_save cf n jti x already s).
Proof. intros H. unfold finish_save. by destruct x; unchanged. Qed.

Lemma revoke_grow n jti x s : revocations_ok s -> revocations_grow s (revoke n jti x s).
Proof.
  intros Hs. pose proof Hs as [H1 H2 H3 H4 H5]. unfold RemoteServer.revoke.
  set (s1 := set_revoked _ _ s).
  destruct (cf_persistent cf && negb (bool_decide (jti ∈ sv_revoked s))) eqn:E.
  - apply andb_true_iff in E as [Ep En]. apply negb_true_iff, bool_decide_eq_false in En.
    assert (Hp : pending_saves (wait_for n (TSave jti x) s1) = pending_saves s ++ [jti]) by exact (wait_pending n (TSave jti x) s1).
    split; [split|done|congruence]; rewrite ?Hp; cbn [wait_for set_tasks s1 set_revoked sv_revoked sv_durable].
    + apply NoDup_app. split_and!; [done| |apply NoDup_singleton]. intros j Hj ->%list_elem_of_singleton.
      by destruct (H3 _ Hj).
    + intros j Hj. apply set_add_elem. right. by apply H2.
    + intros j [Hj|Hj%list_elem_of_singleton]%elem_of_app; rewrite set_add_elem.
      * destruct (H3 _ Hj). by split; [right|].
      * subst j. split; [by left|]. intros Hd. by apply En, H2.
    + intros _ j [->|Hj]%set_add_elem; [right; set_solver|]. destruct (H4 Ep j Hj); [by left|right; set_solver].
    + congruence.
  - assert (Hs1 : revocations_grow s s1).
    { split; [split|done|]; cbn [s1 set_revoked sv_revoked sv_durable].
      - exact H1.
      - intros j Hj. apply set_add_elem. right. by apply H2.
      - intros j Hj. rewrite set_add_elem. destruct (H3 _ Hj). by split; [right|].
      - intros Ep j Hj. apply (H4 Ep). apply set_add_elem in Hj as [->|Hj]; [|done].
        rewrite Ep in E. by apply negb_false_iff, bool_decide_eq_true in E.
      - exact H5.
      - intros _ j Hj. apply set_add_elem. by right. }
    destruct Hs1 as [Ho Hd Hr]. destruct (finish_grow n jti x (bool_decide (jti ∈ sv_revoked s)) s1 Ho) as [Ho' Hd' Hr'].
    split; [done|by intros; apply Hd', Hd|by intros; apply Hr', Hr].
Qed.

Lemma dispatch_grow n rq scope now s : revocations_ok s -> revocations_grow s (dispatch n rq scope now s).
Proof.
  intros Hs. unfold RemoteServer.dispatch. destruct (match required _ with Some q => _ | None => _ end); [unchanged|].
  destruct (route_of _ _); try unchanged.
  - destruct (cf_teammateInfo cf); unchanged.
  - destruct (cf_channel cf); unchanged.
  - pose proof (same_ok s (perform n (FxRevoke jti) s) Hs eq_refl eq_refl eq_refl) as Ho.
    destruct (revoke_grow n jti SRevoked _ Ho) as [? ? ?]. by split.
  - destruct (_ =? _)%string; [unchanged|]. destruct (_ || _); unchanged.
Qed.

Lemma gate_grow n a s : revocations_ok s -> revocations_grow s (gate n a s).
Proof.
  intros Hs. unfold RemoteServer.gate. destruct (_ =? _)%string; [by apply dispatch_grow|].
  destruct (resolveAuthScope _ _ _ _) as [[[|c sc]|]|e]; try unchanged.
  destruct (_ =? _)%string; [by apply dispatch_grow|]. destruct (verifySubToken _ _ _) as [v|]; [|unchanged].
  destruct (vr_valid v), (vr_cnf v) as [jkt|]; try by apply dispatch_grow.
  destruct (rq_dpop _) as [[|c1 jwt]|]; try unchanged.
  destruct (begin_proof _ _ _ _) as [d [[reason|p]|e]]; unchanged.
Qed.

(** A task taken out: its pending write goes with it, and no other. *)
Lemma taken_pending n t s : om_get n (sv_tasks s) = Some t ->
  pending_saves s ≡ₚ match saving (n, t) with Some j => [j] | None => [] end ++ pending_saves (set_tasks (om_delete n) s).
Proof.
  assert (Hc : forall x l, omap saving (x :: l) = match saving x with Some y => y :: omap saving l | None => omap saving l end)
    by done.
  intros Hg. unfold pending_saves. cbn [set_tasks sv_tasks]. induction (sv_tasks s) as [|[k v] m IH]; [done|].
  cbn [om_get] in Hg. cbn [om_delete]. case_decide as Hk.
  - subst k. injection Hg as ->. rewrite Hc. by destruct (saving (n, t)).
  - rewrite !Hc. specialize (IH Hg). destruct (saving (k, v)); [rewrite IH|exact IH].
    destruct (saving (n, t)); [|done]. apply Permutation_swap.
Qed.

Lemma taken_ok n t s : revocations_ok s -> om_get n (sv_tasks s) = Some t -> saving (n, t) = None ->
  revocations_ok (set_tasks (om_delete n) s).
Proof.
  intros [H1 H2 H3 H4 H5] Hg Hn. pose proof (taken_pending n t s Hg) as Hp. rewrite Hn in Hp. cbn [app] in Hp.
  split; [by rewrite <- Hp|exact H2|intros j; rewrite <- Hp; apply H3|intros E j; rewrite <- Hp; by apply H4|].
  intros E. rewrite (H5 E) in Hp. by apply Permutation_nil in Hp.
Qed.

Lemma save_grow n jti x failure s : revocations_ok s -> om_get n (sv_tasks s) = Some (TSave jti x) ->
  revocations_grow s (complete_save cf n jti x failure (set_tasks (om_delete n) s)).
Proof.
  intros [H1 H2 H3 H4 H5] Hg. pose proof (taken_pending n _ s Hg) as Hp. cbn [saving snd app] in Hp.
  set (s0 := set_tasks (om_delete n) s) in *. assert (Hj : jti ∈ pending_saves s) by (rewrite Hp; by left).
  assert (Ep : cf_persistent cf = true)
    by (destruct (cf_persistent cf); [done|]; rewrite H5 in Hj by done; by apply not_elem_of_nil in Hj).
  rewrite Hp in H1. apply NoDup_cons in H1 as [Hnew H1]. destruct (H3 _ Hj) as [Hjr Hjd].
  assert (Hrest : forall j, j ∈ pending_saves s0 -> j <> jti /\ j ∈ sv_revoked s /\ j ∉ sv_durable s).
  { intros j Hin. split; [by intros ->|]. apply H3. rewrite Hp. by right. }
  assert (Hkeep : forall j, j ∈ sv_revoked s -> j = jti \/ j ∈ sv_durable s \/ j ∈ pending_saves s0).
  { intros j Hr. destruct (H4 Ep j Hr) as [|Hin]; [by right; left|].
    rewrite Hp in Hin. apply elem_of_cons in Hin as [|]; tauto. }
  unfold complete_save. destruct failure as [detail|].
  - set (s2 := respond _ _ _). assert (Hmem : forall j, j ∈ sv_revoked s2 <-> j ∈ sv_revoked s /\ j <> jti).
    { intros j. unfold s2. cbn [respond set_revoked sv_revoked]. rewrite list_elem_of_In, filter_In, <- list_elem_of_In, negb_true_iff. by rewrite String.eqb_neq. }
    split; [split| |congruence].
    + exact H1.
    + intros j Hd. apply Hmem. split; [by apply H2|]. by intros ->.
    + intros j Hin. destruct (Hrest j Hin) as (? & ? & ?). by split; [apply Hmem|].
    + intros _ j [Hr Hne]%Hmem. destruct (Hkeep j Hr) as [|]; done.
    + congruence.
    + done.
  - set (s2 := set_revoked _ _ s0). assert (Ho : revocations_ok s2).
    { split; unfold s2; cbn [set_revoked sv_revoked sv_durable].
      - exact H1.
      - intros j [->|Hd]%set_add_elem; [done|by apply H2].
      - intros j Hin. destruct (Hrest j Hin) as (? & ? & ?). split; [done|]. rewrite set_add_elem. tauto.
      - intros _ j Hr. rewrite set_add_elem. destruct (Hkeep j Hr) as [|[|]]; tauto.
      - congruence. }
    destruct (finish_grow n jti x false s2 Ho) as [Ho' Hd' _]. split; [done| |congruence].
    intros j Hd. apply Hd'. unfold s2. cbn. apply set_add_elem. by right.
Qed.

Lemma grow_trans s s1 s2 : revocations_grow s s1 -> revocations_grow s1 s2 -> revocations_grow s s2.
Proof. intros [? ? ?] [? ? ?]. split; auto. Qed.

Lemma grow_taken n t s s' : revocations_ok s -> om_get n (sv_tasks s) = Some t -> saving (n, t) = None ->
  (revocations_ok (set_tasks (om_delete n) s) -> revocations_grow (set_tasks (om_delete n) s) s') ->
  revocations_grow s s'.
Proof. intros Hs Hg Hn H. destruct (H (taken_ok n t s Hs Hg Hn)) as [? ? ?]. by split. Qed.

Lemma step_grow s e : revocations_ok s -> revocations_grow s (step s e).
Proof.
  intros Hs. destruct e as [rq n1 n2 nd ns|n stored now|n body now mn rnd at_|n failure|n|raw own now|n snap];
    cbn [server_step].
  - set (a := mkArrival _ _ _ _ _ _). pose proof (same_ok s (arrive a s) Hs eq_refl eq_refl eq_refl) as Ho.
    assert (revocations_grow (arrive a s) (handle (length (sv_arrivals s)) a (arrive a s))) as [? ? ?]; [|by split].
    unfold RemoteServer.handle.
    repeat match goal with |- context [if ?b then _ else _] => destruct b; [try unchanged|] end.
    + destruct (cf_teammateSend cf); unchanged.
    + destruct (cf_teammateEventSink cf); unchanged.
    + by apply gate_grow.
  - destruct (om_get n (sv_tasks s)) as [[|rq scope c p| | |]|] eqn:E; try unchanged.
    apply (grow_taken n _ s _ Hs E eq_refl). intros Ho. unfold complete_proof.
    destruct (end_proof _ _ _ _) as [d [jkt claims|reason]]; [|unchanged].
    destruct (dispatch_grow n rq scope now (set_dpop d (set_tasks (om_delete n) s))
      (same_ok _ (set_dpop d (set_tasks (om_delete n) s)) Ho eq_refl eq_refl eq_refl)).
    by split.
  - destruct (om_get n (sv_tasks s)) as [[mal port| |w| |]|] eqn:E; try unchanged.
    + apply (grow_taken n _ s _ Hs E eq_refl). intros Ho. unchanged.
    + apply (grow_taken n _ s _ Hs E eq_refl). intros Ho. destruct w as [|callId|i x|pr]; cbn [complete_body].
      * destruct (inject_body body) as [[[text source] whisper]|]; unchanged.
      * destruct (veto_body body); unchanged.
      * destruct (remote_resolve _ _ _ _ _ _ _) as [q [|]]; unchanged.
      * destruct (bind_key body); [|unchanged]. destruct (rebindSubToken _ _); [by apply revoke_grow|unchanged..].
  - destruct (om_get n (sv_tasks s)) as [[| | |jti x|]|] eqn:E; try unchanged. by apply save_grow.
  - unchanged.
  - unchanged.
  - destruct (om_get n (sv_tasks s)) as [[| | | |]|] eqn:E; try unchanged.
    apply (grow_taken n _ s _ Hs E eq_refl). intros Ho. destruct snap; unchanged.
Qed.

Lemma serve_grow es s : revocations_ok s -> revocations_grow s (serve es s).
Proof.
  unfold RemoteServer.serve. revert s. induction es as [|e es IH]; intros s Hs; [by split|].
  pose proof (step_grow s e Hs) as Hg. eapply grow_trans; [exact Hg|]. by apply IH, Hg.
Qed.

Lemma boot_revocations loaded : revocations_ok (boot loaded).
Proof.
  assert (H : forall l j acc, j ∈ fold_left (fun l x => set_add x l) l acc <-> j ∈ acc \/ j ∈ l).
  { induction l as [|x l IH]; intros j acc; cbn [fold_left]; [set_solver|]. rewrite IH, set_add_elem. set_solver. }
  split; cbn; try done; [constructor|intros j Hj; apply H; by right|set_solver|].
  intros _ j Hj. left. apply H in Hj as [Hj|]; [by apply not_elem_of_nil in Hj|done].
Qed.

(** Arrivals are only added, with the revocations of their moment. *)
Lemma step_arrivals s e : revocations_ok s -> exists l, sv_arrivals (step s e) = sv_arrivals s ++ l /\
  forall a, a ∈ l -> ar_revoked a = sv_revoked s.
Proof.
  intros Hs. assert (Hnone : forall s', sv_arrivals s' = sv_arrivals s -> exists l, sv_arrivals s' = sv_arrivals s ++ l /\
    forall a, a ∈ l -> ar_revoked a = sv_revoked s)
    by (intros s' E; exists []; split; [by rewrite app_nil_r|intros a Ha; by apply not_elem_of_nil in Ha]).
  destruct e as [rq n1 n2 nd ns|n stored now|n body now mn rnd at_|n failure|n|raw own now|n snap]; cbn [server_step].
  - set (a := mkArrival _ _ _ _ _ _). exists [a].
    destruct (handle_settles (length (sv_arrivals s)) a (arrive a s)) as [_ ->]. split; [done|].
    by intros b ->%list_elem_of_singleton.
  - destruct (om_get n (sv_tasks s)) as [[|rq scope c p| | |]|] eqn:E; try by apply Hnone.
    apply Hnone. unfold complete_proof. destruct (end_proof _ _ _ _) as [d [jkt claims|reason]]; [|done].
    exact (proj2 (dispatch_settles n rq scope now (set_dpop d (set_tasks (om_delete n) s)))).
  - destruct (om_get n (sv_tasks s)) as [[mal port| |w| |]|] eqn:E; try by apply Hnone.
    apply Hnone. exact (proj2 (complete_body_settles n w body now mn rnd at_ (set_tasks (om_delete n) s))).
  - destruct (om_get n (sv_tasks s)) as [[| | |jti x|]|] eqn:E; try by apply Hnone.
    apply Hnone. unfold complete_save. destruct failure; [done|].
    exact (proj2 (finish_settles n jti x false (set_revoked (sv_revoked s) (set_add jti (sv_durable s)) (set_tasks (om_delete n) s)))).
  - by apply Hnone.
  - by apply Hnone.
  - apply Hnone. destruct (om_get n (sv_tasks s)) as [[| | | |]|]; [done..| |done]. by destruct snap.
Qed.

Lemma later_arrivals es s : revocations_ok s -> exists l, sv_arrivals (serve es s) = sv_arrivals s ++ l /\
  forall a j, a ∈ l -> j ∈ sv_durable s -> j ∈ ar_revoked a.
Proof.
  unfold RemoteServer.serve. revert s. induction es as [|e es IH]; intros s Hs; cbn [fold_left].
  - exists []. split; [by rewrite app_nil_r|]. intros a j Ha. by apply not_elem_of_nil in Ha.
  - pose proof (step_grow s e Hs) as [Ho Hd _]. destruct (step_arrivals s e Hs) as (l1 & E1 & H1).
    destruct (IH _ Ho) as (l2 & E2 & H2). exists (l1 ++ l2). split; [by rewrite E2, E1, app_assoc|].
    intros a j [Ha|Ha]%elem_of_app Hj; [|by apply (H2 a j Ha), Hd].
    rewrite (H1 a Ha). by apply (durable_revoked s Hs).
Qed.

(** C8: a durable revocation holds: once an identifier is in the store, in every
    later interleaving it stays there, and no request that arrives afterwards has
    any effect with a token of that identifier; and every identifier the server
    refuses is in the store or being written to it, if there is one, and stays
    refused, if there is none. *)
Theorem revocation_holds `{!TokenPlatformLaws} loaded es es' j :
  let s := serve es (boot loaded) in
  let s' := serve es' s in
  (j ∈ sv_durable s -> j ∈ sv_durable s' /\
     forall n e, (n, e) ∈ sv_effects s' -> (length (sv_arrivals s) <= n)%nat -> cf_token cf <> "" ->
     exists a, sv_arrivals s' !! n = Some a /\
       (presented a = cf_token cf \/ exists v, vouched (cf_token cf) (presented a) (ar_now1 a) v /\ vr_jti v <> Some j)) /\
  (j ∈ sv_revoked s ->
     if cf_persistent cf then j ∈ sv_durable s \/ j ∈ pending_saves s else j ∈ sv_revoked s').
Proof.
  intros s s'. pose proof (boot_revocations loaded) as Hb. pose proof (grow_ok _ _ (serve_grow es _ Hb)) as Hs.
  fold s in Hs. pose proof (serve_grow es' s Hs) as [_ Hd Hr]. fold s' in Hd, Hr. split.
  - intros Hj. split; [by apply Hd|]. intros n e He Hn Ht.
    assert (Hok : server_ok s') by (apply serve_ok, serve_ok, boot_ok).
    destruct (proj1 Hok n e He) as (a & Ha & scope & Hg & _). exists a. split; [done|].
    destruct (later_arrivals es' s Hs) as (l & El & Hl). fold s' in El.
    assert (Hrev : j ∈ ar_revoked a).
    { rewrite El, lookup_app_r in Ha by done. apply (Hl a j); [by apply list_elem_of_lookup_2 in Ha|done]. }
    destruct Hg as [[? _]|[[_ Hres] _]]; [done|]. revert Hres. unfold resolveAuthScope.
    destruct (_ =? _)%string; [done|]. destruct (_ =? _)%string; [done|].
    destruct (_ && _) eqn:Eq.
    + intros _. left. apply andb_true_iff in Eq as [_ Eq%String.eqb_eq].
      by rewrite <- (utf8_roundtrip (presented a)), <- Eq, utf8_roundtrip.
    + intros (v & Hv & E)%result_bind_ok. right. exists v. destruct (vr_valid v) eqn:Hval; [|done]. cbn [negb] in E.
      split; [by apply verify_vouched|]. intros Hjti. rewrite Hjti in E. by rewrite bool_decide_eq_true_2 in E.
  - intros Hj. destruct (cf_persistent cf) eqn:Ep; [by apply (revoked_kept s Hs)|by apply Hr].
Qed.
End Server.
