(* ===== verification/RemoteWitnesses.v ===== *)
(** A toy platform that keeps the promises the token code relies on, with the
    token and server theorems at concrete inputs, and the runs behind the findings. *)

From S2P Require Import Prelude JsNum JsValue Json Approval NumText JsonParse TokenBase.
From S2P Require Import Dpop SubToken TokenProps RemoteHub RemoteApproval RemoteServer.
From S2P Require Import RemoteServerProps.
From Stdlib Require Import SpecFloat Ascii.

(** * A toy platform: base64url is hexadecimal, a digest is its text *)

Definition hex_char (b0 b1 b2 b3 : bool) : ascii :=
  ascii_of_nat ((if b0 then 1 else 0) + (if b1 then 2 else 0) + (if b2 then 4 else 0) + (if b3 then 8 else 0) + 65).
Fixpoint hex (s : string) : string :=
  match s with
  | EmptyString => EmptyString
  | String (Ascii b0 b1 b2 b3 b4 b5 b6 b7) s' => String (hex_char b0 b1 b2 b3) (String (hex_char b4 b5 b6 b7) (hex s'))
  end.
Definition nibble (c : ascii) : option nat :=
  let n := (nat_of_ascii c - 65)%nat in if (n <? 16)%nat && (65 <=? nat_of_ascii c)%nat then Some n else None.
Fixpoint unhex (s : string) : string :=
  match s with
  | String c (String d s') =>
      match nibble c, nibble d with
      | Some a, Some b => String (ascii_of_nat (a + 16 * b)) (unhex s')
      | _, _ => EmptyString
      end
  | _ => EmptyString
  end.

#[global] Instance toy_platform : TokenPlatform := {
  utf8_encode s := s; utf8_decode s := s; to_base64url := hex; of_base64url := unhex; of_base64 := unhex;
  hmac_sha256 k m := ("h" ++ k ++ ":" ++ m)%string; sha256_bytes m := ("#" ++ m)%string
}.

Lemma unhex_hex s : unhex (hex s) = s.
Proof.
  induction s as [|[b0 b1 b2 b3 b4 b5 b6 b7] s IH]; [done|]. cbn [hex unhex].
  replace (nibble (hex_char b0 b1 b2 b3)) with (Some
    ((if b0 then 1 else 0) + (if b1 then 2 else 0) + (if b2 then 4 else 0) + (if b3 then 8 else 0))%nat)
    by (by destruct b0, b1, b2, b3).
  replace (nibble (hex_char b4 b5 b6 b7)) with (Some
    ((if b4 then 1 else 0) + (if b5 then 2 else 0) + (if b6 then 4 else 0) + (if b7 then 8 else 0))%nat)
    by (by destruct b4, b5, b6, b7).
  rewrite IH. f_equal. by destruct b0, b1, b2, b3, b4, b5, b6, b7.
Qed.

Lemma hex_no_dot s : str_includes "." (hex s) = false.
Proof.
  induction s as [|[b0 b1 b2 b3 b4 b5 b6 b7] s IH]; [done|]. cbn [hex]. rewrite !includes_cons, IH.
  destruct (ascii_dec (hex_char b0 b1 b2 b3) "."); [by destruct b0, b1, b2, b3|].
  destruct (ascii_dec (hex_char b4 b5 b6 b7) "."); [by destruct b4, b5, b6, b7|done].
Qed.

#[global] Instance toy_laws : TokenPlatformLaws.
Proof.
  split; simpl; try done.
  - apply unhex_hex.
  - apply hex_no_dot.
  - by intros [|[] ?].
Qed.

(** * Minting, verifying, rebinding *)

Lemma mint_verifies_witness :
  (0 < 60 /\ 5000 / 1000 = 5) /\
  exists tok, mintSubToken (mkMint "p" "read-only" (num_of_Z 60) 5000 None) "0a" = Ok tok /\
    verifySubToken "p" tok 6000 = Ok (mkVerify true (Some "read-only") None (Some "0a") None).
Proof.
  split; [split; [lia|done]|].
  destruct (mint_verifies "p" "read-only" 60 5000 None "0a") as (tok & Hm & Hv);
    [done|done|lia|lia|vm_compute; done|done|].
  exists tok. split; [done|]. rewrite Hv by (vm_compute; split; congruence). reflexivity.
Defined.

Definition minted : string :=
  match mintSubToken (mkMint "p" "read-only" (num_of_Z 60) 5000 None) "0a" with Ok t => t | Throw _ => "" end.

Lemma access_vouched_witness :
  scopeCovers "read-only" "read-only" = true /\
  exists g r, scope_rank "read-only" = Some g /\ scope_rank "read-only" = Some r /\ r <= g.
Proof.
  split; [done|].
  destruct (access_vouched "p" minted 6000 None "read-only") as (_ & _ & H); [vm_compute; reflexivity|].
  by apply H.
Defined.

Definition device_key : jsval :=
  JObj [("kty", JStr "EC"); ("crv", JStr "P-256"); ("x", JStr "a"); ("y", JStr "b")].
Definition rebind_request : RebindSubTokenOptions := mkRebind "p" minted device_key 6000 6000.
Definition rebound : RebindSubTokenResult :=
  match rebindSubToken rebind_request "0b" with
  | Rebound r => r
  | _ => mkRebound "" num_nan "" "" ""
  end.

Lemma rebind_inherits_witness :
  rebindSubToken rebind_request "0b" = Rebound rebound /\
  exists jkt, computeJwkThumbprint device_key = Ok jkt.
Proof.
  assert (Hr : rebindSubToken rebind_request "0b" = Rebound rebound) by (vm_compute; reflexivity).
  split; [done|].
  assert (He : declared_exp (ro_oldSubToken rebind_request) = Some (num_of_Z 65)) by (vm_compute; reflexivity).
  assert (H0 : 0 <= ro_now rebind_request) by (vm_compute; congruence).
  assert (H1 : ro_now rebind_request / 1000 <= ro_mintNow rebind_request / 1000) by (vm_compute; congruence).
  assert (H2 : safe_int (ro_mintNow rebind_request / 1000)) by (vm_compute; split; congruence).
  assert (H3 : safe_int 65) by (vm_compute; split; congruence).
  assert (H4 : 65 + (ro_mintNow rebind_request / 1000 - ro_now rebind_request / 1000) < 2 ^ prec)
    by (vm_compute; reflexivity).
  destruct (rebind_inherits rebind_request "0b" rebound 65 Hr He H0 H1 H2 H3 H4) as (jkt & Hj & _).
  exists jkt. exact Hj.
Defined.

(** A name every object inherits passes for a scope: it opens no route. *)
Definition odd_token : string :=
  match mintSubToken (mkMint "p" "toString" (num_of_Z 60) 5000 None) "0a" with Ok t => t | Throw _ => "" end.
Example inherited_scope_accepted :
  mintSubToken (mkMint "p" "toString" (num_of_Z 60) 5000 None) "0a" = Ok odd_token /\
  resolveAuthScope "p" odd_token 6000 None = Ok (Some "toString") /\ scopeCovers "toString" "read-only" = false.
Proof. vm_compute. done. Qed.

(** A token nobody signed makes the verification throw. *)
Definition throwing_token : string := (hex ("{" ++ quoted "v" ++ ":{" ++ quoted "toString" ++ ":1}}") ++ ".x")%string.
Example verify_throws : resolveAuthScope "p" throwing_token 6000 None = Throw not_primitive.
Proof. vm_compute. reflexivity. Qed.

(** Anything may follow the second part of a token. *)
Example trailing_parts_ignored :
  verifySubToken "p" (minted ++ ".anything")%string 6000 = verifySubToken "p" minted 6000.
Proof. vm_compute. reflexivity. Qed.

(** A rebound token may outlive the old one by the time between two clock
    readings. *)
Definition late_token : string :=
  match rebindSubToken (mkRebind "p" minted device_key 6999 7000) "0b" with
  | Rebound r => rb_subToken r
  | _ => ""
  end.
Definition is_valid (r : result VerifySubTokenResult) : bool := match r with Ok v => vr_valid v | Throw _ => false end.
Example rebind_outlives :
  is_valid (verifySubToken "p" minted 65000) = false /\ is_valid (verifySubToken "p" late_token 65000) = true.
Proof. vm_compute. done. Qed.

(** * Proofs of possession *)

Definition toy_verify (jwk : jsval) (sig data : string) : result bool := Ok (sig =? ("sig:" ++ data))%string.
Definition toy_jkt : string := match computeJwkThumbprint device_key with Ok t => t | Throw _ => "" end.
Definition json_text (v : jsval) : string := match stringify v with Ok (Some t) => t | _ => "" end.
Definition proof_at (iat : Z) (jti : string) : string :=
  let h := hex (json_text (JObj [("typ", JStr "dpop+jwt"); ("alg", JStr "ES256"); ("jwk", device_key)])) in
  let p := hex (json_text (JObj [("htm", JStr "GET"); ("htu", JStr "http://h/remote/state");
                                 ("iat", JNum (num_of_Z iat)); ("jti", JStr jti)])) in
  (h ++ "." ++ p ++ "." ++ hex ("sig:" ++ h ++ "." ++ p))%string.
Definition toy_opts : ValidateDpopOptions DpopReplayStore :=
  mkDpopOptions _ toy_jkt "GET" "http://h/remote/state?x=1" None None None None.
Definition check_at (now : Z) (jwt : string) : check := mkCheck toy_opts jwt now now now.
Definition claims_at (iat : Z) (jti : string) : jsval :=
  JObj [("htm", JStr "GET"); ("htu", JStr "http://h/remote/state"); ("iat", JNum (num_of_Z iat)); ("jti", JStr jti)].

Definition one_seen : DpopReplayStore :=
  (validate_at toy_verify (check_at 5000 (proof_at 5 "a")) (newReplayStore None)).1.

Lemma accepted_holds_key_witness :
  validate_at toy_verify (check_at 5000 (proof_at 5 "a")) (newReplayStore None) =
    (one_seen, Ok (ValidatedDpop toy_jkt (claims_at 5 "a"))) /\ toy_jkt = expectedJkt _ toy_opts.
Proof.
  assert (H : validate_at toy_verify (check_at 5000 (proof_at 5 "a")) (newReplayStore None) =
    (one_seen, Ok (ValidatedDpop toy_jkt (claims_at 5 "a")))) by (vm_compute; reflexivity).
  split; [exact H|].
  exact (proj1 (accepted_holds_key toy_verify (wired (check_at 5000 (proof_at 5 "a"))) _ _ _ _ _ _ H)).
Defined.

Lemma replay_refused_witness :
  store_size (newReplayStore None) + 2 <= maxSize (newReplayStore None) /\
  (validate_at toy_verify (check_at 7000 (proof_at 5 "a"))
     (validate_all toy_verify [check_at 6000 (proof_at 6 "b")]
        (validate_at toy_verify (check_at 5000 (proof_at 5 "a")) (newReplayStore None)).1)).2 <>
  Ok (ValidatedDpop toy_jkt (claims_at 5 "a")).
Proof.
  split; [vm_compute; congruence|]. intros H.
  apply (replay_refused toy_verify (check_at 5000 (proof_at 5 "a")) (newReplayStore None)
    (validate_at toy_verify (check_at 5000 (proof_at 5 "a")) (newReplayStore None)).1
    toy_jkt (claims_at 5 "a") (num_of_Z 5) [check_at 6000 (proof_at 6 "b")]
    (check_at 7000 (proof_at 5 "a")) toy_jkt (claims_at 5 "a")); [| | | |exact H|reflexivity].
  - vm_compute; reflexivity.
  - reflexivity.
  - vm_compute; congruence.
  - intros d Hd. apply elem_of_cons in Hd as [-> | Hd%list_elem_of_singleton]; [|subst d];
      split; vm_compute; reflexivity.
Defined.

(** In its last second a proof is accepted and no longer remembered. *)
Example replay_in_last_second :
  let s := (validate_at toy_verify (check_at 5000 (proof_at 5 "a")) (newReplayStore None)).1 in
  (validate_at toy_verify (check_at 64999 (proof_at 5 "a")) s).2 = Ok (DpopFailure "replayed jti") /\
  (validate_at toy_verify (check_at 65000 (proof_at 5 "a")) s).2 =
    Ok (ValidatedDpop toy_jkt (claims_at 5 "a")).
Proof. vm_compute. done. Qed.

(** Two validations of one proof that overlap both accept it. *)
Example concurrent_replay :
  let o := wired (check_at 5000 (proof_at 5 "a")) in
  match begin_proof o (proof_at 5 "a") 5000 (newReplayStore None) with
  | (s1, Ok (inr pp)) =>
      match begin_proof o (proof_at 5 "a") 5000 s1 with
      | (s2, Ok (inr pp')) =>
          let '(s3, r) := end_proof toy_verify o pp s2 in
          r = ValidatedDpop toy_jkt (claims_at 5 "a") /\
          (end_proof toy_verify o pp' s3).2 = ValidatedDpop toy_jkt (claims_at 5 "a")
      | _ => False
      end
  | _ => False
  end.
Proof. vm_compute. done. Qed.

(** An algorithm that cannot be printed makes the validation throw. *)
Example validate_throws :
  let h := hex (json_text (JObj [("typ", JStr "dpop+jwt"); ("alg", JObj [("toString", JNull)])])) in
  (validate_at toy_verify (check_at 5000 (h ++ ".x.y")%string) (newReplayStore None)).2 = Throw not_primitive.
Proof. vm_compute. reflexivity. Qed.

(** * The server *)

Definition toy_config : config :=
  mkConfig "p" true true (Some "http://h/") "h" [] None None false.
Definition get (url bearer : string) : request :=
  mkRequestLine "GET" url None (Some ("Bearer " ++ bearer)%string) None None None None.
Definition post (url bearer : string) : request :=
  mkRequestLine "POST" url None (Some ("Bearer " ++ bearer)%string) None None None None.
Definition at_time (now : Z) (rq : request) : server_event := EvArrive rq now now now now.
Definition run (es : list server_event) : server := serve toy_verify Some None 5 toy_config es (boot []).

(** The token above reads the state. *)
Definition reads_state : list server_event := [at_time 6000 (get "/remote/state" minted)].

Lemma effects_authorized_witness :
  sv_effects (run reads_state) = [(0%nat, FxObserve R_state)] /\
  exists a, sv_arrivals (run reads_state) !! 0%nat = Some a /\ allowed toy_verify Some toy_config a (FxObserve R_state).
Proof.
  assert (H : sv_effects (run reads_state) = [(0%nat, FxObserve R_state)]) by (vm_compute; reflexivity).
  split; [exact H|]. apply (effects_authorized toy_verify Some None 5 toy_config [] reads_state).
  change (serve toy_verify Some None 5 toy_config reads_state (boot [])) with (run reads_state). rewrite H. by left.
Defined.

(** The operator revokes it. *)
Definition revokes : list server_event := [at_time 6000 (post "/remote/revoke/0a" "p"); EvSaved 0 None].

Lemma revocation_holds_witness :
  sv_durable (run revokes) = ["0a"] /\
  "0a" ∈ sv_durable (serve toy_verify Some None 5 toy_config reads_state (run revokes)).
Proof.
  assert (H : sv_durable (run revokes) = ["0a"]) by (vm_compute; reflexivity). split; [exact H|].
  apply (revocation_holds toy_verify Some None 5 toy_config [] revokes reads_state "0a").
  change (serve toy_verify Some None 5 toy_config revokes (boot [])) with (run revokes). rewrite H. by left.
Defined.

Example revoked_is_refused :
  nth 1 (sv_replies (serve toy_verify Some None 5 toy_config reads_state (run revokes))) (0%nat, EmptyReply 0) =
    (1%nat, json_reply 401 [("error", JStr "unauthorized")]).
Proof. vm_compute. reflexivity. Qed.

Definition status_of (r : reply) : Z := match r with JsonReply n _ | EmptyReply n | StreamReply n _ => n end.
Definition statuses (s : server) : list (nat * Z) := map (fun '(n, r) => (n, status_of r)) (sv_replies s).

(** A revocation answered 200, as durable, that is neither in the store nor in
    force: it came while another request was writing the same identifier, and
    that write failed. *)
Example durable_reply_is_lost :
  let s := run [at_time 6000 (post "/remote/revoke/0a" "p"); at_time 6000 (post "/remote/revoke/0a" "p");
                EvSaved 0 (Some "disk full")] in
  statuses s = [(1%nat, 200); (0%nat, 503)] /\ sv_revoked s = [] /\ sv_durable s = [].
Proof. vm_compute. done. Qed.

(** A token revoked while its holder holds back the body of a binding request is
    exchanged for a new one all the same. *)
Definition bind_body : string := ("{" ++ quoted "jwk" ++ ":" ++ json_text device_key ++ "}")%string.
Example revoked_token_is_rebound :
  let s := run [at_time 6000 (post "/remote/bind-device" minted); at_time 6000 (post "/remote/revoke/0a" "p");
                EvSaved 1 None; EvBody 0 bind_body 6000 6000 "0b" "t"] in
  sv_durable s = ["0a"] /\ statuses s = [(1%nat, 200); (0%nat, 200)] /\
  match sv_effects s with
  | [_; (0%nat, FxRebind old tok)] => old = "0a" /\
      is_valid (verifySubToken "p" tok 6000) = true /\ bool_decide ("0b" ∈ sv_revoked s) = false
  | _ => False
  end.
Proof. vm_compute. done. Qed.

(** Two binding requests in flight with one token make two device tokens. *)
Example one_token_two_devices :
  let s := run [at_time 6000 (post "/remote/bind-device" minted); at_time 6000 (post "/remote/bind-device" minted);
                EvBody 0 bind_body 6000 6000 "0b" "t"; EvSaved 0 None; EvBody 1 bind_body 6000 6000 "0c" "t"] in
  statuses s = [(0%nat, 200); (1%nat, 200)].
Proof. vm_compute. done. Qed.

(** A bound token that expires between two clock readings of the gate needs no
    proof. *)
Definition bound_token : string :=
  match mintSubToken (mkMint "p" "full" (num_of_Z 60) 5000 (Some toy_jkt)) "0a" with Ok t => t | Throw _ => "" end.
Example expiring_token_skips_proof :
  statuses (run [EvArrive (get "/remote/state" bound_token) 64999 64999 64999 64999]) = [(0%nat, 401)] /\
  statuses (run [EvArrive (get "/remote/state" bound_token) 64999 65000 65000 65000]) = [(0%nat, 200)].
Proof. vm_compute. done. Qed.

(** A token nobody signed makes the handler throw: the request is never
    answered. *)
Example unsigned_token_throws :
  let s := run [at_time 6000 (get "/remote/state" throwing_token)] in sv_replies s = [] /\ sv_crashed s = [0%nat].
Proof. vm_compute. done. Qed.

(** The proof of possession opens the gate. *)
Example proof_opens :
  let jwt := proof_at 5 "j" in
  let rq := mkRequestLine "GET" "/remote/state" None (Some ("Bearer " ++ bound_token)%string) (Some jwt) None None None in
  statuses (run [at_time 6000 rq; EvProof 0 6000 6000]) = [(0%nat, 200)].
Proof. vm_compute. done. Qed.
