(* ===== verification/Ooda.v ===== *)
(** The OODA agent, [orchestration/ooda/agent.ts].

    One cycle observes, orients, decides, acts, optionally reflects, and feeds
    back, after its guards.  [runCycle] and the streaming variant share their
    structure; the streaming one announces events as it goes.  A cycle is a
    computation on the world, the step counter, and the log of what the cycle
    did; it may throw.  Telemetry, tracing spans and skill capture, which are
    fire-and-forget or fail-soft, are left out. *)

From S2P Require Import Prelude JsNum JsValue Word32 Canonical Random Json.
From Stdlib Require Import SpecFloat Ascii.

(** * Configuration *)

Inductive ExecutionMode := dry_run | live.
#[export] Instance ExecutionMode_eq_dec : EqDecision ExecutionMode. Proof. solve_decision. Defined.

Inductive CycleStatus := succeeded | failed | skipped.
#[export] Instance CycleStatus_eq_dec : EqDecision CycleStatus. Proof. solve_decision. Defined.

Definition json_or_empty (v : jsval) : string :=
  match stringify v with Ok (Some t) => t | _ => "undefined" end.

(** The checks of the constructor; the mode comes as a value. *)
Definition validateConfig (mode : jsval) (observe_readOnly orient_readOnly : option bool) (intervalMs : num)
    : result ExecutionMode :=
  m ← match mode with
      | JStr "dry-run" => Ok dry_run
      | JStr "live" => Ok live
      | _ => Throw (JsError "Error" ("OODAAgent: executionMode is REQUIRED ('dry-run' | 'live') — got " ++
               json_or_empty mode)%string)
      end;
  if negb (bool_decide (observe_readOnly = Some true)) then
    Throw (JsError "Error" "OODAAgent: phases.observe MUST be readOnly:true (anti-pattern #7)")
  else if negb (bool_decide (orient_readOnly = Some true)) then
    Throw (JsError "Error" "OODAAgent: phases.orient MUST be readOnly:true (anti-pattern #7)")
  else if negb (is_finite intervalMs) || num_ltb intervalMs num_zero then
    Throw (JsError "Error" ("OODAAgent: intervalMs must be >= 0, got " ++ num_to_string intervalMs)%string)
  else Ok m.

Record ResourceLimits := mkLimits { phaseTimeoutMs : Z; maxStepsPerCycle : Z; maxHeapMb : num }.
Definition resolve_limits (timeout steps : option Z) (heap : option num) : ResourceLimits :=
  mkLimits (default 60000 timeout) (default 200 steps) (default (num_of_Z 256) heap).

(** [setTimeout] fires after one millisecond when its delay is out of range. *)
Definition node_delay (ms : Z) : Z := if (1 <=? ms) && (ms <=? 2147483647) then ms else 1.

Record OutcomeRecord := mkOutcome {
  outcome_type : string; value_cents : num; oc_confidence : option num; is_pending_backfill : bool
}.

(** * What a cycle does *)

Inductive memory_write :=
| MGoal (runId : string) (content : jsval)
| MEpisodic (runId eventType : string) (content : jsval) (importance : num)
| MClaim (subject predicate object : string) (confidence : num).

(** The events a stream emits, less their run, cycle index, duration and time. *)
Inductive CycleEvent :=
| phase_start (phase : string) | phase_complete (phase : string) | phase_error (phase message : string)
| guard_tripped (guard reason : string)
| hitl_waiting (stepId payloadHash : string) | hitl_approved (stepId : string)
| cycle_complete (status : CycleStatus) | cycle_skipped (reason : string) | cycle_error (message : string).

(** The calls out of the agent, with the replies that matter to it, the start and
    the outcome of each phase, what a phase does by itself, and the events of a
    stream.  [ALook] is a call of the configuration loader, of a guard, or a
    reading of the heap. *)
Inductive act :=
| AInsert (type : string) (payload : jsval) (reply : result string)
| AComplete (stepId : string) (payload : jsval) (reply : result unit)
| AError (stepId message : string) (reply : result unit)
| APhase (phase : string) (input : jsval)
| AWork
| ASettled (phase : string) (outcome : result jsval)
| AHitl (stepId : string) (payload : jsval) (reply : result unit)
| AMemory (m : memory_write) (reply : result unit)
| AOnStep (phase : string)
| ALook
| ASink (e : CycleEvent).

Inductive step_op :=
| OpInsert (type : string) (payload : jsval)
| OpComplete (stepId : string) (payload : jsval)
| OpError (stepId message : string).

Section Agent.
Context (W : Type).

(** What a phase does: it changes the world and calls the step helpers of its
    context, then its promise settles after a time, or never. *)
Inductive phase_prog :=
| PRet (r : result jsval) (after : option Z)
| PStep (o : step_op) (k : result string -> phase_prog)
| PDo (f : W -> W * phase_prog).

(** What a phase reads of its context; it calls the step helpers with [PStep]. *)
Record PhaseContext := mkContext {
  pc_runId : string; pc_cycleIndex : Z; pc_mode : ExecutionMode; pc_config : jsval; pc_stepId : string
}.

Record PhaseDef := mkPhase {
  ph_type : string; ph_hitlGate : bool; ph_fn : jsval -> PhaseContext -> phase_prog
}.

(** The host's calls change the world and return; the memory planes are absent
    or write.  Telemetry, skills, Slack and time stamping are left out. *)
Record OODAAgentConfig := mkAgent {
  ag_agentId : string;
  ag_mode : ExecutionMode;
  ag_config : jsval;
  ag_configLoader : option (W -> W * result jsval);
  ag_sessionGuards : list (string * (W -> W * result bool));
  ag_riskGuards : list (string * (W -> W * result (bool * option string)));
  ag_heapMb : W -> W * num;
  ag_limits : ResourceLimits;
  ag_observe : PhaseDef; ag_orient : PhaseDef; ag_decide : PhaseDef; ag_act : PhaseDef;
  ag_reflect : option PhaseDef; ag_feedback : PhaseDef;
  ag_insertStep : string -> jsval -> W -> W * result string;
  ag_completeStep : string -> jsval -> W -> W * result unit;
  ag_errorStep : string -> string -> W -> W * result unit;
  ag_waitForHITL : option (string -> jsval -> W -> W * result unit);
  ag_onStep : option (jsval -> W -> W * result unit);
  ag_working : option (memory_write -> W -> W * result unit);
  ag_episodic : option (memory_write -> W -> W * result unit);
  ag_claims : option (memory_write -> W -> W * result unit);
  ag_outcomeMapping : option (jsval -> result (option OutcomeRecord))
}.

(** * Cycles as computations *)

(** An act, with the world it found and the world it left: the log accounts for
    every change of the world. *)
Record deed := mkDeed { d_act : act; d_before : W; d_after : W }.

Record cstate := mkCycle { c_world : W; c_steps : Z; c_log : list deed }.
Definition CycleM (A : Type) : Type := cstate -> cstate * result A.

Definition creturn {A} (a : A) : CycleM A := fun s => (s, Ok a).
Definition cthrow {A} (e : jserror) : CycleM A := fun s => (s, Throw e).
Definition cbind {A B} (m : CycleM A) (f : A -> CycleM B) : CycleM B := fun s =>
  match m s with
  | (s, Ok a) => f a s
  | (s, Throw e) => (s, Throw e)
  end.
Definition ccatch {A} (m : CycleM A) (h : jserror -> CycleM A) : CycleM A := fun s =>
  match m s with
  | (s, Throw e) => h e s
  | r => r
  end.
Notation "'let!' x := m 'in' k" := (cbind m (fun x => k))
  (at level 200, x pattern, m at level 100, k at level 200).

Definition record_act (a : act) : CycleM unit := fun s =>
  (mkCycle (c_world s) (c_steps s) (c_log s ++ [mkDeed a (c_world s) (c_world s)]), Ok tt).
(** A call out of the agent, logged with its reply. *)
Definition call_out {A} (a : result A -> act) (f : W -> W * result A) : CycleM A := fun s =>
  let '(w, r) := f (c_world s) in (mkCycle w (c_steps s) (c_log s ++ [mkDeed (a r) (c_world s) w]), r).
Definition outside {A} (f : W -> W * result A) : CycleM A := call_out (fun _ => ALook) f.

Section Cycle.
Context (cf : OODAAgentConfig) (fixed1 : num -> string).
(** Whether the cycle streams, its run, its index and mode, its start time. *)
Context (stream : bool) (runId : string) (cycleIndex : Z) (mode : ExecutionMode) (startedAt : string).

Definition sink (e : CycleEvent) : CycleM unit := if stream then record_act (ASink e) else creturn tt.

(** ** Steps *)

Definition limit_error : jserror :=
  JsError "Error" ("OODA: maxStepsPerCycle exceeded (" ++ str_of_Z (maxStepsPerCycle (ag_limits cf)) ++ ")")%string.

(** [insertStep]: counted, and refused above the limit before the host is called. *)
Definition insertStep (type : string) (payload : jsval) : CycleM string := fun s =>
  let n := c_steps s + 1 in
  let s := mkCycle (c_world s) n (c_log s) in
  if maxStepsPerCycle (ag_limits cf) <? n then
    (s, Throw limit_error)
  else call_out (AInsert type payload) (ag_insertStep cf type payload) s.
Definition completeStep (stepId : string) (payload : jsval) : CycleM unit :=
  call_out (AComplete stepId payload) (ag_completeStep cf stepId payload).
Definition errorStep (stepId message : string) : CycleM unit :=
  call_out (AError stepId message) (ag_errorStep cf stepId message).

Definition run_op (o : step_op) : CycleM string :=
  match o with
  | OpInsert t p => insertStep t p
  | OpComplete i p => let! _ := completeStep i p in creturn ""
  | OpError i m => let! _ := errorStep i m in creturn ""
  end.

(** The phase's promise: how it settles, and when. *)
Fixpoint run_prog (p : phase_prog) (s : cstate) : cstate * (result jsval * option Z) :=
  match p with
  | PRet r after => (s, (r, after))
  | PStep o k => let '(s, r) := run_op o s in run_prog (k r) s
  | PDo f =>
      let '(w, p) := f (c_world s) in
      run_prog p (mkCycle w (c_steps s) (c_log s ++ [mkDeed AWork (c_world s) w]))
  end.

(** [withPhaseTimeout]: a tie goes to the phase, which was started first.  A
    phase that is late is not stopped: everything it still does is taken to
    happen before the timeout error is seen, an order the code does not fix,
    and one that never settles is taken to have done its last call by then. *)
Definition withPhaseTimeout (p : phase_prog) : CycleM jsval := fun s =>
  let timeout := phaseTimeoutMs (ag_limits cf) in
  let '(s, (r, after)) := run_prog p s in
  match after with
  | Some t =>
      if t <=? node_delay timeout then (s, r)
      else (s, Throw (JsError "Error" ("OODA phase timeout exceeded (" ++ str_of_Z timeout ++ "ms)")%string))
  | None => (s, Throw (JsError "Error" ("OODA phase timeout exceeded (" ++ str_of_Z timeout ++ "ms)")%string))
  end.

Definition hashPayload (v : jsval) : string :=
  match stringify v with
  | Ok (Some (String _ _ as s)) =>
      ("len=" ++ str_of_Z (Z.of_nat (String.length s)) ++ ":" ++ String.substring 0 32 s)%string
  | Ok _ => "null"
  | Throw _ => "unserializable"
  end.

(** djb2 over the text, in 32 bits. *)
Fixpoint djb2 (s : string) (h : Z) : Z :=
  match s with
  | EmptyString => h
  | String c s' => djb2 s' (js_ushr (js_xor (js_shl h 5 + h) (Z.of_nat (nat_of_ascii c))) 0)
  end.
Definition structuralDigest (v : jsval) : string :=
  match stringify v with
  | Throw _ => "unserializable"
  | Ok t =>
      let s := default "null" t in
      ("len=" ++ str_of_Z (Z.of_nat (String.length s)) ++ ":h=" ++ hex (djb2 s 5381) 8)%string
  end.

(** What a step event says of an output that looks like a completion's. *)
Definition step_meta (out : jsval) : list (string * jsval) :=
  let fields := match out with JObj o => o | _ => [] end in
  let number k k' := match get_field k fields with JNum x => [(k', JNum x)] | _ => [] end in
  number "inputTokens" "tokensIn" ++ number "outputTokens" "tokensOut" ++ number "costUsd" "costUsd" ++
  match get_field "model" fields with JStr m => [("model", JStr m)] | _ => [] end.

(** [onStep] never aborts the cycle.  The event's duration is left out. *)
Definition fireOnStep (phase : string) (out : jsval) : CycleM unit :=
  match ag_onStep cf with
  | None => creturn tt
  | Some onStep =>
      let evt := JObj ([("cycleIndex", JNum (num_of_Z cycleIndex)); ("phase", JStr phase); ("runId", JStr runId)] ++
                       step_meta out) in
      ccatch (call_out (fun _ => AOnStep phase) (onStep evt)) (fun _ => creturn tt)
  end.

(** The numbers lifted to the top of the completion payload; the streaming
    variant does not lift them. *)
Definition lifted (out : jsval) : list (string * jsval) :=
  let fields := match out with JObj o => o | _ => [] end in
  omap (fun k => match get_field k fields with
                 | JNum x => if is_finite x then Some (k, JNum x) else None
                 | _ => None
                 end) ["inputTokens"; "outputTokens"; "costUsd"; "toolCalls"].

Definition completion_payload (out : jsval) : jsval :=
  JObj ([("output_hash", JStr (hashPayload out)); ("output", out)] ++ if stream then [] else lifted out).

(** [hitlGate] is honoured for the act phase, when there is an awaiter: it waits
    after the phase has run, before its step is completed. *)
Definition awaitHitl (gated : bool) (stepId : string) (out : jsval) : CycleM unit :=
  match gated, ag_waitForHITL cf with
  | true, Some wait =>
      let! _ := sink (hitl_waiting stepId (hashPayload out)) in
      let! _ := call_out (AHitl stepId out) (wait stepId out) in
      sink (hitl_approved stepId)
  | _, _ => creturn tt
  end.

(** The phase's function under its timeout; its start and outcome are logged. *)
Definition callPhase (ph : PhaseDef) (input : jsval) (ctx : PhaseContext) : CycleM jsval := fun s =>
  let s := (record_act (APhase (ph_type ph) input) s).1 in
  let '(s, r) := withPhaseTimeout (ph_fn ph input ctx) s in
  ((record_act (ASettled (ph_type ph) r) s).1, r).

Definition phase_body (ph : PhaseDef) (input : jsval) (config : jsval) (gated : bool) (stepId : string)
    : CycleM jsval :=
  let! out := callPhase ph input (mkContext runId cycleIndex mode config stepId) in
  let! _ := awaitHitl gated stepId out in
  let! _ := completeStep stepId (completion_payload out) in
  let! _ := sink (phase_complete (ph_type ph)) in
  let! _ := fireOnStep (ph_type ph) out in
  creturn out.

(** [_runOodaPhase] and [runPhaseWithSink]. *)
Definition runPhase (ph : PhaseDef) (input : jsval) (config : jsval) (gated : bool) : CycleM jsval :=
  let! _ := sink (phase_start (ph_type ph)) in
  let! stepId := insertStep (ph_type ph) (JObj [("input_hash", JStr (hashPayload input)); ("input", input)]) in
  ccatch (phase_body ph input config gated stepId) (fun e =>
    let! _ := errorStep stepId (err_message e) in
    let! _ := sink (phase_error (ph_type ph) (err_message e)) in
    cthrow e).

(** ** Memory *)

(** A write to a plane that is there; its failure is only logged. *)
Definition remember (plane : option (memory_write -> W -> W * result unit)) (m : memory_write) : CycleM unit :=
  match mode, plane with
  | live, Some write => ccatch (call_out (AMemory m) (write m)) (fun _ => creturn tt)
  | _, _ => creturn tt
  end.

Definition setRunGoalSlot : CycleM unit :=
  remember (ag_working cf) (MGoal runId (JObj [("agentId", JStr (ag_agentId cf)); ("runId", JStr runId);
    ("cycleIndex", JNum (num_of_Z cycleIndex)); ("startedAt", JStr startedAt)])).

Definition appendEpisodic (eventType : string) (content : list (string * jsval)) (importance : num) : CycleM unit :=
  remember (ag_episodic cf) (MEpisodic runId eventType (JObj content) importance).

Definition digest_content (phase : string) (v : jsval) : list (string * jsval) :=
  [("phase", JStr phase); ("cycleIndex", JNum (num_of_Z cycleIndex)); ("runId", JStr runId);
   ("digest", JStr (structuralDigest v))].

Definition assertOutcomeClaim (o : OutcomeRecord) : CycleM unit :=
  if is_pending_backfill o then creturn tt
  else remember (ag_claims cf) (MClaim ("agent:" ++ ag_agentId cf)%string
         ("produced-outcome:" ++ outcome_type o)%string (num_to_string (value_cents o))
         (default (num_of_decimal 8 1) (oc_confidence o))).

(** ** Guards *)

Fixpoint checkSessionGuards (gs : list (string * (W -> W * result bool))) : CycleM (option string) :=
  match gs with
  | [] => creturn None
  | (name, isActive) :: gs =>
      let! active := outside isActive in
      if active : bool then checkSessionGuards gs else creturn (Some ("session:" ++ name)%string)
  end.

Fixpoint checkRiskGuards (gs : list (string * (W -> W * result (bool * option string)))) : CycleM (option string) :=
  match gs with
  | [] => creturn None
  | (name, check) :: gs =>
      let! v := outside check in
      let '(proceed, reason) := v in
      if proceed : bool then checkRiskGuards gs
      else creturn (Some ("risk:" ++ name ++ ":" ++ default "tripped" reason)%string)
  end.

Definition heapGuard : CycleM (option string) :=
  let! heapMb := outside (fun w => let '(w, h) := ag_heapMb cf w in (w, Ok h)) in
  creturn (if num_gtb heapMb (maxHeapMb (ag_limits cf)) then Some ("heap_exceeded:" ++ fixed1 heapMb ++ "mb")%string
           else None).

(** The first guard that trips, with its kind. *)
Definition tripped_guard : CycleM (option (string * string)) :=
  let! session := checkSessionGuards (ag_sessionGuards cf) in
  match session with
  | Some reason => creturn (Some ("session", reason))
  | None =>
      let! risk := checkRiskGuards (ag_riskGuards cf) in
      match risk with
      | Some reason => creturn (Some ("risk", reason))
      | None =>
          let! heap := heapGuard in
          creturn (match heap with Some reason => Some ("heap", reason) | None => None end)
      end
  end.

(** ** The cycle *)

(** [{ ...v, decision }]. *)
Fixpoint char_fields (s : string) (i : Z) : list (string * jsval) :=
  match s with
  | EmptyString => []
  | String c s' => (str_of_Z i, JStr (String c EmptyString)) :: char_fields s' (i + 1)
  end.
Definition spread (v : jsval) : list (string * jsval) :=
  match v with
  | JObj o => o
  | JArr l => imap (fun i x => (str_of_Z (Z.of_nat i), x)) l
  | JStr s => char_fields s 0
  | _ => []
  end.

Definition recordOutcome (feedback : jsval) : CycleM unit :=
  match ag_outcomeMapping cf with
  | None => creturn tt
  | Some outcomeMapping =>
      match outcomeMapping feedback with
      | Ok (Some o) => assertOutcomeClaim o
      | Ok None | Throw _ => creturn tt
      end
  end.

(** The try block: the phases, in order. *)
Definition phases (initialContext : option jsval) (config : jsval) : CycleM unit :=
  let! _ := setRunGoalSlot in
  let observeInput := if stream then JUndef else default JUndef initialContext in
  let! obs := runPhase (ag_observe cf) observeInput config false in
  let! _ := appendEpisodic "observation" (digest_content "observe" obs) (num_of_decimal 4 1) in
  let! oriented := runPhase (ag_orient cf) obs config false in
  let! decision := runPhase (ag_decide cf) oriented config false in
  let! _ := appendEpisodic "decision" (digest_content "decide" decision) (num_of_decimal 7 1) in
  let! action := runPhase (ag_act cf) decision config (ph_hitlGate (ag_act cf)) in
  let! feedbackInput :=
    match ag_reflect cf with
    | Some reflect => runPhase reflect (JObj (om_set "decision" decision (spread action))) config false
    | None => creturn action
    end in
  let! feedback := runPhase (ag_feedback cf) feedbackInput config false in
  recordOutcome feedback.

Definition error_content (e : jserror) : list (string * jsval) :=
  [("phase", JStr "cycle"); ("cycleIndex", JNum (num_of_Z cycleIndex)); ("runId", JStr runId);
   ("error", JStr (err_message e)); ("errorName", JStr (err_name e))].

Definition load_config : CycleM jsval :=
  match ag_configLoader cf with
  | None => creturn (ag_config cf)
  | Some get => ccatch (outside get) (fun _ => creturn (ag_config cf))
  end.

(** [runCycle], or [_runCycleWithSink]: a guard that throws makes the cycle
    throw; everything else ends in a status. *)
Definition cycle (initialContext : option jsval) : CycleM CycleStatus :=
  let! config := load_config in
  let! tripped := tripped_guard in
  match tripped with
  | Some (guard, reason) =>
      let! _ := sink (guard_tripped guard reason) in
      let! _ := sink (cycle_skipped reason) in
      creturn skipped
  | None =>
      ccatch
        (let! _ := phases initialContext config in
         let! _ := sink (cycle_complete succeeded) in
         creturn succeeded)
        (fun e =>
           let! _ := appendEpisodic "error" (error_content e) (num_of_decimal 9 1) in
           let! _ := sink (cycle_error (err_message e)) in
           let! _ := sink (cycle_complete failed) in
           creturn failed)
  end.
End Cycle.

(** * The agent *)

Record agent_state := mkAgentState { a_world : W; a_cyclesCompleted : Z }.

(** One cycle of the agent: [cyclesCompleted] counts those that did not throw. *)
Definition run_cycle (cf : OODAAgentConfig) (fixed1 : num -> string) (stream : bool) (runId startedAt : string)
    (mode : ExecutionMode) (initialContext : option jsval) (a : agent_state)
    : agent_state * list deed * result CycleStatus :=
  let '(s, r) := cycle cf fixed1 stream runId (a_cyclesCompleted a) mode startedAt initialContext
                   (mkCycle (a_world a) 0 []) in
  (mkAgentState (c_world s) (match r with Ok _ => a_cyclesCompleted a + 1 | Throw _ => a_cyclesCompleted a end),
   c_log s, r).

(** [triggerCycle]: [dryRun] is required. *)
Definition triggerCycle (cf : OODAAgentConfig) (fixed1 : num -> string) (runId startedAt : string)
    (dryRun : option bool) (initialContext : option jsval) (a : agent_state)
    : agent_state * list deed * result CycleStatus :=
  match dryRun with
  | None => (a, [], Throw (JsError "MissingDryRunFlagError"
      "triggerCycle() requires explicit dryRun flag (true|false). Audit-ready agents must declare execution intent."))
  | Some d => run_cycle cf fixed1 false runId startedAt (if d then dry_run else ag_mode cf) initialContext a
  end.

(** [streamCycle], consumed to its end. *)
Definition streamCycle (cf : OODAAgentConfig) (fixed1 : num -> string) (runId startedAt : string)
    (dryRun : bool) (initialContext : option jsval) (a : agent_state)
    : agent_state * list deed * result CycleStatus :=
  run_cycle cf fixed1 true runId startedAt (if dryRun then dry_run else ag_mode cf) initialContext a.
End Agent.

Arguments PRet {W}. Arguments PStep {W}. Arguments PDo {W}. Arguments mkPhase {W}. Arguments mkCycle {W}.
Arguments c_log {W}. Arguments c_steps {W}. Arguments c_world {W}. Arguments mkAgentState {W}. Arguments mkAgent {W}.
Arguments ph_type {W}. Arguments ph_hitlGate {W}. Arguments ph_fn {W}.
Arguments mkDeed {W}. Arguments d_act {W}. Arguments d_before {W}. Arguments d_after {W}.
Arguments ag_insertStep {W}. Arguments ag_completeStep {W}. Arguments ag_errorStep {W}. Arguments ag_onStep {W}.
Arguments ag_working {W}. Arguments ag_episodic {W}. Arguments ag_claims {W}.
Arguments creturn {W A}. Arguments cthrow {W A}. Arguments cbind {W A B}. Arguments ccatch {W A}.
Arguments record_act {W}. Arguments outside {W A}. Arguments call_out {W A}.
Arguments ag_act {W}. Arguments ag_observe {W}. Arguments ag_orient {W}. Arguments ag_decide {W}.
Arguments ag_reflect {W}. Arguments ag_feedback {W}. Arguments ag_limits {W}. Arguments ag_waitForHITL {W}.

(** * Starting and stopping *)

(** Each call of [start] that is not turned away is a loop, in a cycle or asleep. *)
Inductive loop_phase := InCycle | Asleep.
#[export] Instance loop_phase_eq_dec : EqDecision loop_phase. Proof. solve_decision. Defined.
Record lifecycle := mkLife { running : bool; loops : list (nat * loop_phase); started : nat }.
Definition life_init : lifecycle := mkLife false [] 0.

Inductive life_event := LStart | LStop | LCycleEnd (i : nat) (threw : bool) | LWake (i : nat).

(** [start], [stop], the end of a cycle, and the end of a sleep.  A cycle that
    throws takes its loop with it and leaves [_running] as it was. *)
Definition life_step (s : lifecycle) (e : life_event) : lifecycle :=
  match e with
  | LStart =>
      if running s then s else mkLife true (loops s ++ [(started s, InCycle)]) (S (started s))
  | LStop => mkLife false (loops s) (started s)
  | LCycleEnd i threw =>
      match om_get i (loops s) with
      | Some InCycle =>
          if threw || negb (running s) then mkLife (running s) (om_delete i (loops s)) (started s)
          else mkLife (running s) (om_set i Asleep (loops s)) (started s)
      | _ => s
      end
  | LWake i =>
      match om_get i (loops s) with
      | Some Asleep =>
          if running s then mkLife (running s) (om_set i InCycle (loops s)) (started s)
          else mkLife (running s) (om_delete i (loops s)) (started s)
      | _ => s
      end
  end.
Definition life_run (s : lifecycle) (es : list life_event) : lifecycle := fold_left life_step es s.
