(* ===== verification/OodaProps.v ===== *)
(** The OODA cycle: what it never does, in which order it works, what it
    announces, and how the agent starts and stops. *)

From S2P Require Import Prelude JsNum JsValue Json Ooda.
From Stdlib Require Import SpecFloat.

Definition acts {W} (l : list (deed W)) : list act := map d_act l.
Lemma acts_app {W} (l1 l2 : list (deed W)) : acts (l1 ++ l2) = acts l1 ++ acts l2.
Proof. apply map_app. Qed.

(** * Invariants of a cycle *)

Section Keeps.
Context {W : Type} (I : cstate W -> Prop).

(** Whatever happens, [I] still holds. *)
Definition keeps {A} (m : CycleM W A) : Prop := forall s, I s -> I (m s).1.

Lemma keeps_return {A} (a : A) : keeps (creturn a). Proof. by intros s. Qed.
Lemma keeps_throw {A} e : keeps (A:=A) (cthrow e). Proof. by intros s. Qed.
Lemma keeps_bind {A B} (m : CycleM W A) (f : A -> CycleM W B) :
  keeps m -> (forall a, keeps (f a)) -> keeps (cbind m f).
Proof.
  intros Hm Hf s Hs. unfold cbind. specialize (Hm s Hs). destruct (m s) as [s' [a|e]]; [by apply Hf|done].
Qed.
Lemma keeps_catch {A} (m : CycleM W A) h : keeps m -> (forall e, keeps (h e)) -> keeps (ccatch m h).
Proof.
  intros Hm Hf s Hs. unfold ccatch. specialize (Hm s Hs). destruct (m s) as [s' [a|e]]; [done|by apply Hf].
Qed.

Context (cf : OODAAgentConfig W) (fixed1 : num -> string) (stream : bool) (runId : string) (cycleIndex : Z).
Context (mode : ExecutionMode) (startedAt : string).

(** It allows these logged acts, and inserting a step. *)
Definition allows (a : act) : Prop :=
  forall w w' n l, I (mkCycle w n l) -> I (mkCycle w' n (l ++ [mkDeed a w w'])).
Hypothesis I_insert : forall t p, keeps (insertStep W cf t p).
Hypothesis I_other : forall a, match a with AInsert _ _ _ | AMemory _ _ => False | _ => True end -> allows a.
Hypothesis I_memory : mode = live -> forall m r, allows (AMemory m r).

Lemma keeps_record a : allows a -> keeps (record_act a).
Proof. intros Ha [w n l] Hs. by apply Ha. Qed.

Lemma keeps_call {A} a (f : W -> W * result A) : (forall r, allows (a r)) -> keeps (call_out a f).
Proof. intros Ha [w n l] Hs. unfold call_out. cbn. destruct (f w) as [w' r]. by apply Ha. Qed.

Lemma keeps_outside {A} (f : W -> W * result A) : keeps (outside f).
Proof. apply keeps_call. intros r. by apply I_other. Qed.

Lemma keeps_op o : keeps (run_op W cf o).
Proof.
  destruct o; simpl; [apply I_insert|..];
    (apply keeps_bind; [apply keeps_call; intros; by apply I_other|intros; apply keeps_return]).
Qed.

Lemma keeps_prog p s : I s -> I (run_prog W cf p s).1.
Proof.
  revert p s. fix IH 1. intros p s Hs. destruct p as [r after|o k|f]; [done| |].
  - cbn [run_prog]. pose proof (keeps_op o s Hs) as Ho. destruct (run_op W cf o s) as [s' r]. by apply IH.
  - cbn [run_prog]. destruct s as [w n l]. cbn [c_world c_steps c_log].
    destruct (f w) as [w' p]. apply IH. by apply I_other.
Qed.

Lemma keeps_timeout p : keeps (withPhaseTimeout W cf p).
Proof.
  intros s Hs. unfold withPhaseTimeout. pose proof (keeps_prog p s Hs) as Hp.
  destruct (run_prog W cf p s) as [s' [r [t|]]]; [|done]. by destruct (t <=? _).
Qed.

Lemma keeps_callPhase ph input c : keeps (callPhase W cf ph input c).
Proof.
  intros [w n l] Hs. unfold callPhase. cbn zeta.
  pose proof (keeps_timeout (ph_fn ph input c) _ (keeps_record (APhase (ph_type ph) input)
    ltac:(by apply I_other) _ Hs)) as H.
  destruct (withPhaseTimeout W cf _ _) as [[w' n' l'] r]. by apply I_other.
Qed.

Ltac keep := first
  [ apply keeps_return | apply keeps_throw | apply keeps_callPhase | apply keeps_outside | apply I_insert
  | apply keeps_call; intros ?; by apply I_other | apply keeps_record; by apply I_other
  | apply keeps_catch; [|intros ?] | apply keeps_bind; [|intros ?] ].

Lemma keeps_sink e : keeps (sink W stream e).
Proof. unfold sink. destruct stream; keep. Qed.

Lemma keeps_phase ph input config gated : keeps (runPhase W cf stream runId cycleIndex mode ph input config gated).
Proof.
  unfold runPhase, phase_body, completeStep, errorStep. repeat first [apply keeps_sink | keep].
  - unfold awaitHitl. destruct gated, (ag_waitForHITL cf); repeat first [apply keeps_sink | keep].
  - unfold fireOnStep. destruct (ag_onStep cf); repeat keep.
Qed.

Lemma keeps_remember plane m : keeps (remember W mode plane m).
Proof.
  unfold remember. destruct mode; [apply keeps_return|]. destruct plane; [|apply keeps_return].
  apply keeps_catch; [|intros; apply keeps_return]. apply keeps_call. intros r. by apply I_memory.
Qed.

Lemma keeps_session gs : keeps (checkSessionGuards W gs).
Proof. induction gs as [|[name f] gs IH]; cbn [checkSessionGuards]; repeat keep. by destruct a; [|keep]. Qed.

Lemma keeps_risk gs : keeps (checkRiskGuards W gs).
Proof.
  induction gs as [|[name f] gs IH]; cbn [checkRiskGuards]; repeat keep. destruct a as [[|] reason]; [done|keep].
Qed.

Lemma keeps_guards : keeps (tripped_guard W cf fixed1).
Proof.
  unfold tripped_guard. apply keeps_bind; [apply keeps_session|]. intros [?|]; [keep|].
  apply keeps_bind; [apply keeps_risk|]. intros [?|]; [keep|]. unfold heapGuard. repeat keep.
Qed.

Lemma keeps_cycle ctx : keeps (cycle W cf fixed1 stream runId cycleIndex mode startedAt ctx).
Proof.
  unfold cycle. apply keeps_bind.
  { unfold load_config. destruct (ag_configLoader W cf); repeat keep. }
  intros config. apply keeps_bind; [apply keeps_guards|]. intros [[guard reason]|].
  { repeat first [apply keeps_sink | keep]. }
  apply keeps_catch.
  - apply keeps_bind; [|intros; repeat first [apply keeps_sink | keep]].
    unfold phases, setRunGoalSlot, appendEpisodic. repeat first [apply keeps_remember | apply keeps_phase | keep].
    + destruct (ag_reflect cf); [apply keeps_phase|keep].
    + unfold recordOutcome. destruct (ag_outcomeMapping W cf) as [f|]; [|keep].
      destruct (f _) as [[o|]|]; try keep. unfold assertOutcomeClaim.
      destruct (is_pending_backfill o); [keep|apply keeps_remember].
  - intros e. unfold appendEpisodic. repeat first [apply keeps_remember | apply keeps_sink | keep].
Qed.
End Keeps.

Section Cycle.
Context {W : Type} (cf : OODAAgentConfig W) (fixed1 : num -> string) (stream : bool) (runId startedAt : string).
Context (cycleIndex : Z) (ctx : option jsval).

Notation run mode s := (cycle W cf fixed1 stream runId cycleIndex mode startedAt ctx s).

(** A dry run writes nothing to memory: whatever the phases, the host and the
    guards do, and however the cycle ends, a dry-run cycle makes no call to the
    working, episodic or claims memory. *)
Theorem dry_run_writes_nothing w n m r : AMemory m r ∉ acts (c_log (run dry_run (mkCycle w n [])).1).
Proof.
  apply (keeps_cycle (fun s => AMemory m r ∉ acts (c_log s))); try done.
  - intros t p [w' n' l] Hs. unfold insertStep. cbn [c_world c_steps c_log]. destruct (_ <? _); [done|].
    unfold call_out. cbn [c_world c_steps c_log].
    destruct (ag_insertStep cf t p w') as [w2 r']. cbn [fst c_log] in *. rewrite acts_app. cbn. set_solver.
  - intros a Ha w' w2 n' l Hl. cbn [c_log] in *. rewrite acts_app.
    intros [?|E]%elem_of_app; [done|]. cbn in E. apply list_elem_of_singleton in E. by subst a.
  - apply not_elem_of_nil.
Qed.

Definition is_insert (a : act) : bool := match a with AInsert _ _ _ => true | _ => false end.
Definition inserts (l : list act) : Z := Z.of_nat (length (List.filter is_insert l)).

Lemma inserts_app l1 l2 : inserts (l1 ++ l2) = inserts l1 + inserts l2.
Proof. unfold inserts. rewrite List.filter_app, length_app. lia. Qed.

(** Steps are capped: the host is asked to insert at most [maxStepsPerCycle]
    steps in a cycle, whatever the phases ask for, themselves included. *)
Theorem steps_capped mode w : 0 <= maxStepsPerCycle (ag_limits cf) ->
  inserts (acts (c_log (run mode (mkCycle w 0 [])).1)) <= maxStepsPerCycle (ag_limits cf).
Proof.
  intros H0. set (cap := maxStepsPerCycle (ag_limits cf)).
  assert (H : inserts (acts (c_log (run mode (mkCycle w 0 [])).1)) <= Z.min (c_steps (run mode (mkCycle w 0 [])).1) cap);
    [|lia].
  apply (keeps_cycle (fun s => inserts (acts (c_log s)) <= Z.min (c_steps s) cap)); try done.
  - intros t p [w' n' l] Hs. unfold insertStep. cbn [c_world c_steps c_log] in *. fold cap.
    destruct (Z.ltb_spec cap (n' + 1)); [cbn [fst c_log c_steps]; lia|].
    unfold call_out. cbn [c_world c_steps c_log].
    destruct (ag_insertStep cf t p w') as [w2 r]. cbn [fst c_log c_steps] in *. rewrite acts_app, inserts_app.
    change (inserts (acts [mkDeed (AInsert t p r) w' w2])) with 1. lia.
  - intros a Ha w' w2 n' l Hl. cbn [c_log c_steps] in *. rewrite acts_app, inserts_app.
    assert (inserts (acts [mkDeed a w' w2]) = 0) as -> by (by destruct a). lia.
  - intros _ m r w' w2 n' l Hl. cbn [c_log c_steps] in *. rewrite acts_app, inserts_app.
    change (inserts (acts [mkDeed (AMemory m r) w' w2])) with 0. lia.
  - cbn. unfold inserts. simpl. lia.
Qed.
End Cycle.

(** * What a cycle shows of itself *)

(** Its calls about steps and to the human, with their replies, the start and
    the outcome of each phase, and the events of the stream. *)
Inductive visible :=
| VInsert (reply : result string)
| VComplete (stepId : string) (reply : result unit)
| VError (stepId : string) (reply : result unit)
| VPhase (phase : string)
| VSettled (phase : string) (outcome : result jsval)
| VHitl (stepId : string) (payload : jsval) (reply : result unit)
| VSink (e : CycleEvent).

Definition see (a : act) : option visible :=
  match a with
  | AInsert _ _ r => Some (VInsert r)
  | AComplete i _ r => Some (VComplete i r)
  | AError i _ r => Some (VError i r)
  | APhase t _ => Some (VPhase t)
  | ASettled t r => Some (VSettled t r)
  | AHitl i v r => Some (VHitl i v r)
  | ASink e => Some (VSink e)
  | AWork | AMemory _ _ | AOnStep _ | ALook => None
  end.
Definition view {W} (l : list (deed W)) : list visible := omap (fun d => see (d_act d)) l.

Lemma view_app {W} (l1 l2 : list (deed W)) : view (l1 ++ l2) = view l1 ++ view l2.
Proof. apply omap_app. Qed.

(** What a cycle that does not stream shows of a trace: all but the events. *)
Definition is_event (v : visible) : bool := match v with VSink _ => true | _ => false end.
Definition shown (stream : bool) (l : list visible) : list visible :=
  if stream then l else List.filter (fun v => negb (is_event v)) l.

Lemma shown_app stream l1 l2 : shown stream (l1 ++ l2) = shown stream l1 ++ shown stream l2.
Proof. unfold shown. destruct stream; [done|apply List.filter_app]. Qed.

Lemma shown_acts stream l : forallb (fun v => negb (is_event v)) l = true -> shown stream l = l.
Proof.
  intros H. unfold shown. destruct stream; [done|]. induction l as [|v l IH]; [done|]. cbn in *.
  apply andb_prop in H as [-> H]. by rewrite IH.
Qed.

(** ** The protocol *)

(** Equality of values is decidable. *)
Section Equality.
Context {A : Type} (same : forall v w : A, Decision (v = w)).
Definition list_same : forall l l' : list A, Decision (l = l').
Proof.
  refine (fix go l l' := match l, l' with
    | [], [] => left _
    | x :: l, y :: l' => cast_if_and (same x y) (go l l')
    | _, _ => right _ end); congruence.
Defined.
Definition fields_same : forall l l' : list (string * A), Decision (l = l').
Proof.
  refine (fix go l l' := match l, l' with
    | [], [] => left _
    | (k, x) :: l, (k', y) :: l' => cast_if_and3 (decide (k = k')) (same x y) (go l l')
    | _, _ => right _ end); congruence.
Defined.
End Equality.
#[export] Instance jsval_eq_dec : EqDecision jsval.
Proof.
  refine (fix go v w := match v, w with
  | JUndef, JUndef | JNull, JNull | JFun, JFun => left _
  | JBool a, JBool b => cast_if (decide (a = b))
  | JNum a, JNum b => cast_if (decide (a = b))
  | JStr a, JStr b => cast_if (decide (a = b))
  | JBigInt a, JBigInt b => cast_if (decide (a = b))
  | JDate a, JDate b => cast_if (decide (a = b))
  | JBytes a, JBytes b => cast_if (decide (a = b))
  | JArr a, JArr b => cast_if (list_same go a b)
  | JObj a, JObj b => cast_if (fields_same go a b)
  | _, _ => right _ end); clear go; congruence.
Defined.

(** The phases still to come, each with whether it must be approved. *)
Definition plan : Type := list (string * bool).

Inductive protocol :=
| QStart (p : plan) | QIdle (p : plan)
| QOpen (t : string) (gated : bool) (p : plan)                              (** announced *)
| QInserted (t stepId : string) (gated : bool) (p : plan)                   (** its step exists *)
| QRunning (t stepId : string) (gated : bool) (p : plan)                    (** called *)
| QReturned (t stepId : string) (gated : bool) (out : jsval) (p : plan)     (** settled; to approve, if gated *)
| QWaiting (t stepId : string) (out : jsval) (p : plan)                     (** about to ask *)
| QAnswered (t stepId : string) (out : jsval) (p : plan)                    (** asked, and approved *)
| QCompleted (t : string) (p : plan)                                        (** its step is completed *)
| QFailing (t stepId : string) (e : jserror)                                (** to report on its step *)
| QReported (t : string) (e : jserror) | QFailed (e : jserror) | QErrored
| QGuarded (reason : string) | QDone (st : CycleStatus).

Definition open_phase (p : plan) (t : string) : option protocol :=
  match p with
  | (t', g) :: p' => if (t' =? t)%string then Some (QOpen t g p') else None
  | [] => None
  end.
Definition when (b : bool) (q : protocol) : option protocol := if b then Some q else None.
Definition reply_to {A} (r : result A) (yes : A -> protocol) (no : jserror -> protocol) : option protocol :=
  match r with Ok a => Some (yes a) | Throw e => Some (no e) end.
Definition for_step (i i' : string) (q : option protocol) : option protocol := if (i =? i')%string then q else None.

(** While a phase runs it may insert, complete and fail steps by itself. *)
Definition protocol_step (q : protocol) (v : visible) : option protocol :=
  match q, v with
  | QStart _, VSink (guard_tripped _ r) => Some (QGuarded r)
  | QStart p, VSink (phase_start t) | QIdle p, VSink (phase_start t) => open_phase p t
  | QIdle [], VSink (cycle_complete succeeded) => Some (QDone succeeded)
  | QOpen t g p, VInsert r => reply_to r (fun i => QInserted t i g p) QFailed
  | QOpen _ _ _, VSink (cycle_error _) => Some QErrored
  | QInserted t i g p, VPhase t' => when (t' =? t)%string (QRunning t i g p)
  | QRunning _ _ _ _, (VInsert _ | VComplete _ _ | VError _ _) => Some q
  | QRunning t i g p, VSettled t' r =>
      if (t' =? t)%string then reply_to r (fun out => QReturned t i g out p) (QFailing t i) else None
  | QReturned t i true out p, VSink (hitl_waiting i' h) =>
      for_step i i' (when (h =? hashPayload out)%string (QWaiting t i out p))
  | QWaiting t i out p, VHitl i' v r =>
      for_step i i' (if decide (v = out) then reply_to r (fun _ => QAnswered t i out p) (QFailing t i) else None)
  | QAnswered t i out p, VSink (hitl_approved i') => for_step i i' (Some (QReturned t i false out p))
  | QReturned t i false out p, VComplete i' r =>
      for_step i i' (reply_to r (fun _ => QCompleted t p) (QFailing t i))
  | QCompleted t p, VSink (phase_complete t') => when (t' =? t)%string (QIdle p)
  | QFailing t i e, VError i' r => for_step i i' (reply_to r (fun _ => QReported t e) QFailed)
  | QReported t e, VSink (phase_error t' m) => when ((t' =? t)%string && (m =? err_message e)%string) (QFailed e)
  | QFailed e, VSink (cycle_error m) => when (m =? err_message e)%string QErrored
  | QErrored, VSink (cycle_complete failed) => Some (QDone failed)
  | QGuarded r, VSink (cycle_skipped r') => when (r' =? r)%string (QDone skipped)
  | _, _ => None
  end.

Fixpoint protocol_run (q : protocol) (l : list visible) : option protocol :=
  match l with [] => Some q | v :: l => match protocol_step q v with Some q => protocol_run q l | None => None end end.

Lemma protocol_run_app q l1 l2 :
  protocol_run q (l1 ++ l2) = match protocol_run q l1 with Some q => protocol_run q l2 | None => None end.
Proof. revert q. induction l1 as [|v l1 IH]; intros q; simpl; [done|]. by destruct (protocol_step q v). Qed.

(** What a running phase does by itself leaves the protocol where it is. *)
Definition own (v : visible) : bool := match v with VInsert _ | VComplete _ _ | VError _ _ => true | _ => false end.

Lemma own_runs t i g p l : forallb own l = true ->
  protocol_run (QRunning t i g p) l = Some (QRunning t i g p).
Proof.
  induction l as [|v l IH]; [done|]. cbn [forallb protocol_run]. intros [Hv Hl]%andb_prop. destruct v; try done; by apply IH.
Qed.

Lemma own_shown stream l : forallb own l = true -> shown stream l = l.
Proof.
  intros H. apply shown_acts. rewrite !forallb_forall in *. intros v Hv. specialize (H v Hv). by destruct v.
Qed.

(** ** The account of the log *)

(** Every act is what the log says: a call is a call of the host's function, with
    the world it found and the one it left and its reply, and a phase is a run of
    the phase's own function, under the timeout. *)
Section Account.
Context {W : Type} (cf : OODAAgentConfig W) (runId : string) (cycleIndex : Z) (mode : ExecutionMode).

(** A call of the configuration loader, of a guard, or a reading of the heap. *)
Inductive looks (w : W) : W -> Prop :=
| looks_config get : ag_configLoader W cf = Some get -> looks w (get w).1
| looks_session name guard : (name, guard) ∈ ag_sessionGuards W cf -> looks w (guard w).1
| looks_risk name guard : (name, guard) ∈ ag_riskGuards W cf -> looks w (guard w).1
| looks_heap : looks w (ag_heapMb W cf w).1.

Definition fulfils (d : deed W) : Prop :=
  let 'mkDeed a w w' := d in
  match a with
  | AInsert t p r => ag_insertStep cf t p w = (w', r)
  | AComplete i p r => ag_completeStep cf i p w = (w', r)
  | AError i m r => ag_errorStep cf i m w = (w', r)
  | AHitl i v r => exists wait, ag_waitForHITL cf = Some wait /\ wait i v w = (w', r)
  | AMemory m r => exists write,
      (ag_working cf = Some write \/ ag_episodic cf = Some write \/ ag_claims cf = Some write) /\ write m w = (w', r)
  | AOnStep _ => exists onStep evt, ag_onStep cf = Some onStep /\ (onStep evt w).1 = w'
  | ASink _ => w' = w
  | ALook => looks w w'
  | APhase _ _ | AWork | ASettled _ _ => False
  end.

(** How a call of a step helper is logged, and its reply to the phase. *)
Inductive asks : step_op -> act -> result string -> Prop :=
| asks_insert t p r : asks (OpInsert t p) (AInsert t p r) r
| asks_complete i p r : asks (OpComplete i p) (AComplete i p r) ((fun _ => EmptyString) <$> r)
| asks_error i m r : asks (OpError i m) (AError i m r) ((fun _ => EmptyString) <$> r).

(** The runs of a phase: what it does, and how its promise settles.  A step above
    the limit is refused without a call. *)
Inductive performs : phase_prog W -> W -> list (deed W) -> W -> result jsval -> option Z -> Prop :=
| performs_ret r after w : performs (PRet r after) w [] w r after
| performs_do f w w1 p l w' r after :
    f w = (w1, p) -> performs p w1 l w' r after -> performs (PDo f) w (mkDeed AWork w w1 :: l) w' r after
| performs_step o k a reply w w1 l w' r after :
    asks o a reply -> fulfils (mkDeed a w w1) -> performs (k reply) w1 l w' r after ->
    performs (PStep o k) w (mkDeed a w w1 :: l) w' r after
| performs_refused t p k w l w' r after :
    performs (k (Throw (limit_error W cf))) w l w' r after -> performs (PStep (OpInsert t p) k) w l w' r after.

(** A phase that is in time has its own outcome, one that is late an error. *)
Inductive ends_in (limit : Z) (r : result jsval) (after : option Z) : result jsval -> Prop :=
| ends_in_time t : after = Some t -> t <= node_delay limit -> ends_in limit r after r
| ends_late m : (forall t, after = Some t -> node_delay limit < t) -> ends_in limit r after (Throw (JsError "Error" m)).

Definition agent_phases : list (PhaseDef W) :=
  [ag_observe cf; ag_orient cf; ag_decide cf; ag_act cf] ++
  match ag_reflect cf with Some ph => [ph] | None => [] end ++ [ag_feedback cf].

(** The log leads from one world to another. *)
Inductive account : W -> list (deed W) -> W -> Prop :=
| account_nil w : account w [] w
| account_call d l w' : fulfils d -> account (d_after d) l w' -> account (d_before d) (d :: l) w'
| account_phase ph input config stepId seg w w1 r after out l w' :
    ph ∈ agent_phases ->
    performs (ph_fn ph input (mkContext runId cycleIndex mode config stepId)) w seg w1 r after ->
    ends_in (phaseTimeoutMs (ag_limits cf)) r after out ->
    account w1 l w' ->
    account w (mkDeed (APhase (ph_type ph) input) w w :: seg ++ mkDeed (ASettled (ph_type ph) out) w1 w1 :: l) w'.

Lemma account_app w l w1 l' w2 : account w l w1 -> account w1 l' w2 -> account w (l ++ l') w2.
Proof.
  induction 1 as [w|d l w' Hd _ IH|ph input config stepId seg w w1 r after out l w' Hph Hp He _ IH]; intros H; [done|..].
  - cbn. constructor; auto.
  - cbn. rewrite <- app_assoc. cbn. econstructor; eauto.
Qed.

Lemma account_one d : fulfils d -> account (d_before d) [d] (d_after d).
Proof. intros Hd. constructor; [done|constructor]. Qed.
End Account.

(** ** What a computation adds to the log *)

Section Emits.
Context {W : Type} (cf : OODAAgentConfig W) (runId : string) (cycleIndex : Z) (mode : ExecutionMode) (stream : bool).
Notation account := (account cf runId cycleIndex mode).

Definition emits {A} (m : CycleM W A) (P : list visible -> result A -> Prop) : Prop :=
  forall s, exists l t, c_log (m s).1 = c_log s ++ l /\ account (c_world s) l (c_world (m s).1) /\
    view l = shown stream t /\ P t (m s).2.

(** It shows nothing. *)
Definition silent {A} (m : CycleM W A) : Prop := emits m (fun t _ => t = []).

Lemma emits_weaken {A} (m : CycleM W A) (P Q : list visible -> result A -> Prop) :
  emits m P -> (forall t r, P t r -> Q t r) -> emits m Q.
Proof. intros Hm H s. destruct (Hm s) as (l & t & Hl & Ha & Hv & Hp). exists l, t. auto. Qed.

Lemma emits_nothing {A} (m : CycleM W A) (P : list visible -> result A -> Prop) :
  (forall s, (m s).1 = s /\ P [] (m s).2) -> emits m P.
Proof.
  intros H s. destruct (H s) as [-> Hp]. exists [], []. rewrite app_nil_r.
  split_and!; [done|constructor|by destruct stream|done].
Qed.

Lemma emits_bind {A B} (m : CycleM W A) (f : A -> CycleM W B) P Q (R : list visible -> result B -> Prop) :
  emits m P -> (forall a, emits (f a) (Q a)) ->
  (forall t e, P t (Throw e) -> R t (Throw e)) ->
  (forall a t1 t2 r, P t1 (Ok a) -> Q a t2 r -> R (t1 ++ t2) r) -> emits (cbind m f) R.
Proof.
  intros Hm Hf He Ho s. unfold cbind. destruct (Hm s) as (l1 & t1 & Hl1 & Ha1 & Hv1 & Hp).
  destruct (m s) as [s' [a|e]]; cbn in *.
  - destruct (Hf a s') as (l2 & t2 & Hl2 & Ha2 & Hv2 & Hq). exists (l1 ++ l2), (t1 ++ t2).
    rewrite Hl2, Hl1, app_assoc, view_app, shown_app, Hv1, Hv2.
    split_and!; [done|by eapply account_app|done|by eapply Ho].
  - exists l1, t1. auto.
Qed.

Lemma emits_catch {A} (m : CycleM W A) h P Q (R : list visible -> result A -> Prop) :
  emits m P -> (forall e, emits (h e) (Q e)) ->
  (forall t a, P t (Ok a) -> R t (Ok a)) ->
  (forall e t1 t2 r, P t1 (Throw e) -> Q e t2 r -> R (t1 ++ t2) r) -> emits (ccatch m h) R.
Proof.
  intros Hm Hh Ho He s. unfold ccatch. destruct (Hm s) as (l1 & t1 & Hl1 & Ha1 & Hv1 & Hp).
  destruct (m s) as [s' [a|e]]; cbn in *.
  - exists l1, t1. auto.
  - destruct (Hh e s') as (l2 & t2 & Hl2 & Ha2 & Hv2 & Hq). exists (l1 ++ l2), (t1 ++ t2).
    rewrite Hl2, Hl1, app_assoc, view_app, shown_app, Hv1, Hv2.
    split_and!; [done|by eapply account_app|done|by eapply He].
Qed.

(** After something silent. *)
Lemma emits_after {A B} (m : CycleM W A) (f : A -> CycleM W B) (R : list visible -> result B -> Prop) :
  silent m -> (forall e, R [] (Throw e)) -> (forall a, emits (f a) R) -> emits (cbind m f) R.
Proof. intros Hm He Hf. eapply emits_bind; [exact Hm|exact Hf|by intros t e ->|by intros a t1 t2 r ->]. Qed.

Lemma emits_return {A} (a : A) (R : list visible -> result A -> Prop) : R [] (Ok a) -> emits (creturn a) R.
Proof. intros H. by apply emits_nothing. Qed.

Lemma emits_throw {A} e (R : list visible -> result A -> Prop) : R [] (Throw e) -> emits (cthrow e) R.
Proof. intros H. by apply emits_nothing. Qed.

Lemma silent_return {A} (a : A) : silent (creturn a).
Proof. by apply emits_return. Qed.

Lemma silent_bind {A B} (m : CycleM W A) (f : A -> CycleM W B) : silent m -> (forall a, silent (f a)) -> silent (cbind m f).
Proof. intros Hm Hf. by apply emits_after. Qed.

Lemma silent_catch {A} (m : CycleM W A) h : silent m -> (forall e, silent (h e)) -> silent (ccatch m h).
Proof.
  intros Hm Hf. eapply emits_catch with (Q := fun _ t _ => t = []); [exact Hm|exact Hf|done|by intros e t1 t2 r -> ->].
Qed.

(** A call shows itself and its reply, and is what it says it is. *)
Lemma emits_call {A} (a : result A -> act) (f : W -> W * result A) (R : list visible -> result A -> Prop) :
  (forall w, fulfils cf (mkDeed (a (f w).2) w (f w).1)) ->
  (forall r, match see (a r) with Some v => is_event v = false /\ R [v] r | None => R [] r end) ->
  emits (call_out a f) R.
Proof.
  intros Hd Hr s. unfold call_out. specialize (Hd (c_world s)). destruct (f (c_world s)) as [w r].
  specialize (Hr r). cbn [fst snd c_log c_world] in *.
  exists [mkDeed (a r) (c_world s) w]. pose proof (account_one cf runId cycleIndex mode _ Hd) as Ha. cbn [d_before d_after] in Ha.
  unfold view. cbn. destruct (see (a r)) as [v|]; [|by exists []; destruct stream].
  destruct Hr as [Hv Hr]. exists [v]. split_and!; [done..| |done]. symmetry. apply shown_acts. cbn. by rewrite Hv.
Qed.

Lemma silent_call {A} (a : result A -> act) (f : W -> W * result A) :
  (forall w, fulfils cf (mkDeed (a (f w).2) w (f w).1)) -> (forall r, see (a r) = None) -> silent (call_out a f).
Proof. intros Hd Hs. apply emits_call; [done|]. intros r. by rewrite Hs. Qed.

Lemma silent_outside {A} (f : W -> W * result A) : (forall w, looks cf w (f w).1) -> silent (outside f).
Proof. intros Hf. by apply silent_call. Qed.

(** After something shown. *)
Lemma emits_sink {B} e (f : unit -> CycleM W B) (R : list visible -> result B -> Prop) :
  emits (f tt) (fun l r => R (VSink e :: l) r) -> emits (cbind (sink W stream e) f) R.
Proof.
  intros Hf. eapply emits_bind with (P := fun t r => t = [VSink e] /\ r = Ok tt) (Q := fun _ l r => R (VSink e :: l) r);
    [|intros []; exact Hf|by intros t e' [_ ?]|].
  - intros s. unfold sink. destruct stream eqn:E.
    + exists [mkDeed (ASink e) (c_world s) (c_world s)], [VSink e]. split_and!; [done| |done..].
      by apply (account_one cf runId cycleIndex mode (mkDeed (ASink e) (c_world s) (c_world s))).
    + exists [], [VSink e]. rewrite app_nil_r. split_and!; [done|constructor|done..].
  - by intros [] t1 t2 r [-> _].
Qed.

Lemma emits_last e (R : list visible -> result unit -> Prop) : R [VSink e] (Ok tt) -> emits (sink W stream e) R.
Proof.
  intros H s. destruct (emits_sink e (fun _ => creturn tt) R (emits_return tt _ H) s) as (l & t & Ht).
  exists l, t. unfold cbind in Ht. unfold sink in *. by destruct stream.
Qed.
End Emits.

Section Protocol.
Context {W : Type} (cf : OODAAgentConfig W) (fixed1 : num -> string) (stream : bool) (runId startedAt : string).
Context (cycleIndex : Z) (mode : ExecutionMode).
Notation silent := (silent cf runId cycleIndex mode stream).
Notation emits := (emits cf runId cycleIndex mode stream).

Ltac called := intros w; cbn [fulfils]; eauto using surjective_pairing.
Ltac hush := repeat first
  [ apply silent_return | apply silent_call; [by called|done]
  | apply silent_catch; [|intros ?] | apply silent_bind; [|intros ?] ].

Lemma guards_silent : silent (tripped_guard W cf fixed1).
Proof.
  assert (Hs : forall gs, (forall g, g ∈ gs -> g ∈ ag_sessionGuards W cf) -> silent (checkSessionGuards W gs)).
  { induction gs as [|[name f] gs IH]; intros Hin; cbn [checkSessionGuards]; [hush|].
    apply silent_bind; [apply silent_outside; intros w; eapply looks_session, Hin; by left|].
    intros [|]; [apply IH; intros; apply Hin; by right|hush]. }
  assert (Hr : forall gs, (forall g, g ∈ gs -> g ∈ ag_riskGuards W cf) -> silent (checkRiskGuards W gs)).
  { induction gs as [|[name f] gs IH]; intros Hin; cbn [checkRiskGuards]; [hush|].
    apply silent_bind; [apply silent_outside; intros w; eapply looks_risk, Hin; by left|].
    intros [[|] reason]; [apply IH; intros; apply Hin; by right|hush]. }
  unfold tripped_guard. apply silent_bind; [by apply Hs|intros [?|]; [hush|]].
  apply silent_bind; [by apply Hr|intros [?|]; [hush|]]. unfold heapGuard.
  do 2 (apply silent_bind; [|intros ?; hush]).
  apply silent_outside. intros w.
  pose proof (looks_heap cf w) as Hh. by destruct (ag_heapMb W cf w).
Qed.

(** Fail-soft calls show nothing and do not throw. *)
Definition harmless (m : CycleM W unit) : Prop := emits m (fun l r => l = [] /\ r = Ok tt).

Lemma harmless_catch m : silent m -> harmless (ccatch m (fun _ => creturn tt)).
Proof.
  intros Hm. eapply emits_catch with (Q := fun _ t r => t = [] /\ r = Ok tt); [exact Hm| | |].
  - intros e. by apply emits_return.
  - by intros t [] ->.
  - by intros e t1 t2 r -> [-> ->].
Qed.

Lemma harmless_return : harmless (creturn tt).
Proof. by apply emits_return. Qed.

Lemma remember_harmless plane m :
  plane = ag_working cf \/ plane = ag_episodic cf \/ plane = ag_claims cf -> harmless (remember W mode plane m).
Proof.
  intros Hp. unfold remember. destruct mode; [apply harmless_return|]. destruct plane as [write|]; [|apply harmless_return].
  apply harmless_catch. apply silent_call; [|done]. intros w. exists write.
  split; [|apply surjective_pairing]. intuition congruence.
Qed.

Lemma onStep_harmless t out : harmless (fireOnStep W cf runId cycleIndex t out).
Proof.
  unfold fireOnStep. destruct (ag_onStep cf) as [onStep|] eqn:E; [|apply harmless_return].
  apply harmless_catch, silent_call; [|done]. intros w. cbn [fulfils]. rewrite E. eauto.
Qed.

Lemma emits_harmless {B} (m : CycleM W unit) (f : unit -> CycleM W B) (R : list visible -> result B -> Prop) :
  harmless m -> emits (f tt) R -> emits (cbind m f) R.
Proof.
  intros Hm Hf. eapply emits_bind with (Q := fun _ => R); [exact Hm|by intros []|by intros t e [_ ?]|].
  by intros [] t1 t2 r [-> _].
Qed.

Lemma outcome_harmless v : harmless (recordOutcome W cf mode v).
Proof.
  unfold recordOutcome. destruct (ag_outcomeMapping W cf) as [f|]; [|apply harmless_return].
  destruct (f v) as [[o|]|]; try apply harmless_return. unfold assertOutcomeClaim.
  destruct (is_pending_backfill o); [apply harmless_return|apply remember_harmless; tauto].
Qed.

(** ** The phase's own function *)

Lemma insert_shows t p :
  emits (insertStep W cf t p) (fun l r => l = [VInsert r] \/ l = [] /\ exists e, r = Throw e).
Proof.
  intros s. unfold insertStep. destruct (_ <? _).
  - exists [], []. cbn. rewrite app_nil_r. split_and!; [done|constructor|by destruct stream|right; eauto].
  - assert (H : emits (call_out (AInsert t p) (ag_insertStep cf t p))
      (fun l r => l = [VInsert r] \/ l = [] /\ exists e, r = Throw e)) by (apply emits_call; [called|cbn; eauto]).
    exact (H (mkCycle (c_world s) (c_steps s + 1) (c_log s))).
Qed.

(** A step helper called by the phase: one call and its reply, or a refusal. *)
Lemma op_runs o s : let '(s', r) := run_op W cf o s in
  (exists a, c_log s' = c_log s ++ [mkDeed a (c_world s) (c_world s')] /\ asks o a r /\
     fulfils cf (mkDeed a (c_world s) (c_world s'))) \/
  (exists t p, o = OpInsert t p /\ r = Throw (limit_error W cf) /\ c_log s' = c_log s /\ c_world s' = c_world s).
Proof.
  destruct o as [t p|i p|i m]; cbn [run_op].
  - unfold insertStep. cbv zeta. destruct (_ <? _); [right; eauto 8|]. unfold call_out. cbn [c_world c_log c_steps].
    destruct (ag_insertStep cf t p (c_world s)) as [w r] eqn:E. left. eexists. split_and!; [done|constructor|done].
  - unfold completeStep, call_out, cbind.
    destruct (ag_completeStep cf i p (c_world s)) as [w r] eqn:E.
    destruct r as [[]|e]; cbn; left; eexists; (split_and!; [done| |exact E]).
    + apply (asks_complete i p (Ok tt)).
    + apply (asks_complete i p (Throw e)).
  - unfold errorStep, call_out, cbind.
    destruct (ag_errorStep cf i m (c_world s)) as [w r] eqn:E.
    destruct r as [[]|e]; cbn; left; eexists; (split_and!; [done| |exact E]).
    + apply (asks_error i m (Ok tt)).
    + apply (asks_error i m (Throw e)).
Qed.

Lemma asks_own o a r : asks o a r -> exists v, see a = Some v /\ own v = true.
Proof. intros []; cbn; eauto. Qed.

Lemma prog_runs : forall p s, exists l, c_log (run_prog W cf p s).1 = c_log s ++ l /\
  forallb own (view l) = true /\
  performs cf p (c_world s) l (c_world (run_prog W cf p s).1) (run_prog W cf p s).2.1 (run_prog W cf p s).2.2.
Proof.
  fix IH 1. intros p s. destruct p as [r after|o k|f]; cbn [run_prog].
  - exists []. split; [symmetry; apply app_nil_r|]. split; [reflexivity|constructor].
  - pose proof (op_runs o s) as Ho. destruct (run_op W cf o s) as [s' r].
    destruct (IH (k r) s') as (l & Hl & Hown & Hp).
    destruct Ho as [(a & Hlog & Ha & Hf)|(t & q & -> & -> & Hlog & Hw)].
    + exists (mkDeed a (c_world s) (c_world s') :: l). rewrite Hl, Hlog, <- app_assoc.
      destruct (asks_own o a r Ha) as (v & Hv & Hvo). split; [reflexivity|].
      unfold view. cbn [omap list_omap d_act]. rewrite Hv. cbn [forallb]. rewrite Hvo.
      split; [exact Hown|]. by eapply performs_step.
    + exists l. rewrite Hl, Hlog. split; [reflexivity|]. split; [exact Hown|].
      rewrite <- Hw. eapply performs_refused. exact Hp.
  - destruct (f (c_world s)) as [w p] eqn:E.
    destruct (IH p (mkCycle w (c_steps s) (c_log s ++ [mkDeed AWork (c_world s) w]))) as (l & Hl & Hown & Hp).
    exists (mkDeed AWork (c_world s) w :: l). rewrite Hl. cbn [c_log]. rewrite <- app_assoc.
    split; [reflexivity|]. split; [exact Hown|]. by eapply performs_do.
Qed.

Lemma timeout_runs p s : exists l r after, c_log (withPhaseTimeout W cf p s).1 = c_log s ++ l /\
  forallb own (view l) = true /\
  performs cf p (c_world s) l (c_world (withPhaseTimeout W cf p s).1) r after /\
  ends_in (phaseTimeoutMs (ag_limits cf)) r after (withPhaseTimeout W cf p s).2.
Proof.
  destruct (prog_runs p s) as (l & Hl & Hown & Hp). exists l. unfold withPhaseTimeout.
  destruct (run_prog W cf p s) as [s' [r after]]. cbn [fst snd] in *. exists r, after.
  destruct after as [t|].
  - destruct (Z.leb_spec t (node_delay (phaseTimeoutMs (ag_limits cf)))).
    + split_and!; [done..|]. by eapply ends_in_time.
    + split_and!; [done..|]. apply ends_late. by intros t' [= <-].
  - split_and!; [done..|]. by apply ends_late.
Qed.

Lemma callPhase_shows ph input config stepId : ph ∈ agent_phases cf ->
  emits (callPhase W cf ph input (mkContext runId cycleIndex mode config stepId)) (fun t r =>
    exists t', forallb own t' = true /\ t = VPhase (ph_type ph) :: t' ++ [VSettled (ph_type ph) r]).
Proof.
  intros Hph s. unfold callPhase, record_act. cbn [fst].
  set (s1 := mkCycle (c_world s) (c_steps s) (c_log s ++ [mkDeed (APhase (ph_type ph) input) (c_world s) (c_world s)])).
  destruct (timeout_runs (ph_fn ph input (mkContext runId cycleIndex mode config stepId)) s1)
    as (l & r & after & Hl & Hown & Hp & He).
  destruct (withPhaseTimeout W cf _ s1) as [s2 out]. cbn [fst snd c_log c_world] in *.
  exists (mkDeed (APhase (ph_type ph) input) (c_world s) (c_world s) ::
          l ++ mkDeed (ASettled (ph_type ph) out) (c_world s2) (c_world s2) :: []).
  exists (VPhase (ph_type ph) :: view l ++ [VSettled (ph_type ph) out]). split_and!.
  - rewrite Hl. subst s1. cbn [c_log]. by rewrite <- !app_assoc.
  - eapply account_phase; [done|exact Hp|exact He|constructor].
  - change (view (mkDeed (APhase (ph_type ph) input) (c_world s) (c_world s) :: ?k)) with (VPhase (ph_type ph) :: view k).
    rewrite view_app. symmetry. change (?v :: ?k ++ ?m) with ([v] ++ k ++ m).
    rewrite !shown_app, (own_shown stream (view l) Hown). by rewrite !shown_acts by done.
  - by exists (view l).
Qed.

(** ** One phase *)

(** A phase that must be approved: the act phase, if it is gated and there is an
    awaiter. *)
Definition needs_approval (gated : bool) : bool :=
  gated && match ag_waitForHITL cf with Some _ => true | None => false end.

(** From there the phase completes, or fails with its error still to report. *)
Definition within {A} (q : protocol) (ty stepId : string) (q' : protocol) (t : list visible) (r : result A) : Prop :=
  match r with
  | Ok _ => protocol_run q t = Some q'
  | Throw e => protocol_run q t = Some (QFailing ty stepId e)
  end.

Lemma within_bind {A B} (m : CycleM W A) (f : A -> CycleM W B) q q1 q' ty stepId :
  emits m (within q ty stepId q1) -> (forall a, emits (f a) (within q1 ty stepId q')) ->
  emits (cbind m f) (within q ty stepId q').
Proof.
  intros Hm Hf. eapply emits_bind; [exact Hm|exact Hf|by intros t e|].
  intros a t1 t2 r H1 H2. unfold within in *. rewrite protocol_run_app, H1. exact H2.
Qed.

Lemma asked ty stepId out p h r l : (h =? hashPayload out)%string = true ->
  protocol_run (QReturned ty stepId true out p) (VSink (hitl_waiting stepId h) :: VHitl stepId out r :: l) =
  protocol_run (match r with Ok _ => QAnswered ty stepId out p | Throw e => QFailing ty stepId e end) l.
Proof.
  intros Hh. cbn [protocol_run protocol_step]. unfold for_step. rewrite String.eqb_refl, Hh. cbn [when protocol_step].
  unfold for_step. rewrite String.eqb_refl, decide_True by done. by destruct r.
Qed.

(** The human is asked about what the phase returned, and must say yes. *)
Lemma awaitHitl_shows ty gated stepId out p :
  emits (awaitHitl W cf stream gated stepId out)
    (within (QReturned ty stepId (needs_approval gated) out p) ty stepId (QReturned ty stepId false out p)).
Proof.
  unfold awaitHitl, needs_approval. destruct gated; [|by apply emits_return].
  destruct (ag_waitForHITL cf) as [wait|] eqn:E; [|by apply emits_return]. cbn [andb].
  apply emits_sink. eapply emits_bind with
    (P := fun t r => t = [VHitl stepId out r]) (Q := fun _ t r => t = [VSink (hitl_approved stepId)] /\ r = Ok tt).
  - apply emits_call; [|done]. intros w. exists wait. split; [done|apply surjective_pairing].
  - intros []. by apply emits_last.
  - intros t e ->. unfold within. by rewrite asked by apply String.eqb_refl.
  - intros [] t1 t2 r -> [-> ->]. unfold within. cbn [app]. rewrite asked by apply String.eqb_refl.
    cbn. unfold for_step. by rewrite String.eqb_refl.
Qed.

Lemma complete_shows ty stepId out payload p :
  emits (completeStep W cf stepId payload) (within (QReturned ty stepId false out p) ty stepId (QCompleted ty p)).
Proof.
  apply emits_call; [called|]. intros r. cbn [see is_event]. split; [done|].
  unfold within. cbn [protocol_run protocol_step]. unfold for_step. destruct r as [[]|e]; by rewrite String.eqb_refl.
Qed.

Lemma body_shows ph input config gated stepId p : ph ∈ agent_phases cf ->
  emits (phase_body W cf stream runId cycleIndex mode ph input config gated stepId)
    (within (QInserted (ph_type ph) stepId (needs_approval gated) p) (ph_type ph) stepId (QIdle p)).
Proof.
  intros Hph. set (ty := ph_type ph). set (g := needs_approval gated). unfold phase_body.
  eapply emits_bind with (Q := fun out => within (QReturned ty stepId g out p) ty stepId (QIdle p));
    [by apply callPhase_shows| | |].
  - intros out. eapply within_bind; [apply awaitHitl_shows|intros []].
    eapply within_bind; [apply complete_shows|intros []].
    apply emits_sink, emits_harmless; [apply onStep_harmless|]. apply emits_return. cbn. by rewrite String.eqb_refl.
  - intros t e (t' & Hown & ->). fold ty. unfold within. cbn. rewrite String.eqb_refl. cbn [when].
    rewrite protocol_run_app, own_runs by done. cbn. by rewrite String.eqb_refl.
  - intros out t1 t2 r (t' & Hown & ->) H2. fold ty. unfold within in *. cbn [app protocol_run protocol_step].
    rewrite String.eqb_refl. cbn [when]. rewrite <- app_assoc, protocol_run_app, own_runs by done.
    cbn [app protocol_run protocol_step]. rewrite String.eqb_refl. exact H2.
Qed.

(** From there the run goes on as planned, or breaks off: the error is to report,
    or a step was refused. *)
Definition broken (q : protocol) (e : jserror) : Prop := q = QFailed e \/ exists t g p, q = QOpen t g p.
Definition leads {A} (q : protocol) (p : plan) (t : list visible) (r : result A) : Prop :=
  match r with
  | Ok _ => protocol_run q t = Some (QIdle p)
  | Throw e => exists q', protocol_run q t = Some q' /\ broken q' e
  end.

(** A failure is reported on the step, then announced. *)
Lemma report_shows {A} ty stepId e :
  emits (cbind (errorStep W cf stepId (err_message e)) (fun _ =>
         cbind (sink W stream (phase_error ty (err_message e))) (fun _ => cthrow (A:=A) e)))
    (fun t r => exists e', r = Throw e' /\ protocol_run (QFailing ty stepId e) t = Some (QFailed e')).
Proof.
  eapply emits_bind with (P := fun t r => t = [VError stepId r])
    (Q := fun _ t r => t = [VSink (phase_error ty (err_message e))] /\ r = Throw e).
  - apply emits_call; [called|done].
  - intros []. by apply emits_sink, emits_throw.
  - intros t e' ->. exists e'. cbn. unfold for_step. by rewrite String.eqb_refl.
  - intros [] t1 t2 r -> [-> ->]. exists e. cbn. unfold for_step. rewrite String.eqb_refl. cbn. by rewrite !String.eqb_refl.
Qed.

Lemma phase_shows q ph input config gated p : ph ∈ agent_phases cf ->
  (q = QStart ((ph_type ph, needs_approval gated) :: p) \/ q = QIdle ((ph_type ph, needs_approval gated) :: p)) ->
  emits (runPhase W cf stream runId cycleIndex mode ph input config gated) (leads q p).
Proof.
  intros Hph Hq. set (ty := ph_type ph) in *. set (g := needs_approval gated) in *. unfold runPhase. fold ty.
  assert (Hopen : forall t, protocol_run q (VSink (phase_start ty) :: t) = protocol_run (QOpen ty g p) t)
    by (intros t; destruct Hq as [-> | ->]; cbn; by rewrite String.eqb_refl).
  apply emits_sink. eapply (emits_weaken _ _ _ _ stream _ (leads (QOpen ty g p) p));
    [|intros t r H; unfold leads in *; by rewrite Hopen].
  eapply emits_bind with (Q := fun stepId => leads (QInserted ty stepId g p) p); [apply insert_shows| | |].
  - intros stepId. eapply emits_catch;
      [by apply (body_shows ph input config gated stepId p)|intros e; apply report_shows|done|].
    intros e t1 t2 r H1 (e' & -> & H2). unfold within in H1. fold ty g in H1.
    exists (QFailed e'). rewrite protocol_run_app, H1. split; [done|by left].
  - intros t e [->|[-> _]]; [exists (QFailed e)|exists (QOpen ty g p)]; (split; [done|]); [by left|right; eauto].
  - intros stepId t1 t2 r [->|[-> [e ?]]] H2; [|done]. exact H2.
Qed.

(** ** The cycle *)

Definition phase_plan : plan :=
  [(ph_type (ag_observe cf), false); (ph_type (ag_orient cf), false); (ph_type (ag_decide cf), false);
   (ph_type (ag_act cf), needs_approval (ph_hitlGate (ag_act cf)))] ++
  match ag_reflect cf with Some ph => [(ph_type ph, false)] | None => [] end ++ [(ph_type (ag_feedback cf), false)].

(** A phase, then the rest. *)
Lemma phase_then {B} q ph input config gated p (f : jsval -> CycleM W B) p' : ph ∈ agent_phases cf ->
  (q = QStart ((ph_type ph, needs_approval gated) :: p) \/ q = QIdle ((ph_type ph, needs_approval gated) :: p)) ->
  (forall out, emits (f out) (leads (QIdle p) p')) ->
  emits (cbind (runPhase W cf stream runId cycleIndex mode ph input config gated) f) (leads q p').
Proof.
  intros Hph Hq Hf. eapply emits_bind; [by apply phase_shows|exact Hf| |].
  - intros t e H. exact H.
  - intros a t1 t2 r H1 H2. unfold leads in *. rewrite protocol_run_app, H1. exact H2.
Qed.

Ltac next_phase := eapply phase_then; [unfold agent_phases; set_solver|first [left; reflexivity|right; reflexivity]|].

Lemma phases_show ctx config :
  emits (phases W cf stream runId cycleIndex mode startedAt ctx config) (leads (QStart phase_plan) []).
Proof.
  unfold phases, setRunGoalSlot, appendEpisodic, phase_plan. apply emits_harmless; [apply remember_harmless; tauto|].
  next_phase. intros obs. apply emits_harmless; [apply remember_harmless; tauto|].
  next_phase. intros oriented. next_phase. intros decision.
  apply emits_harmless; [apply remember_harmless; tauto|]. next_phase. intros action.
  assert (Hlast : forall v, emits
    (cbind (runPhase W cf stream runId cycleIndex mode (ag_feedback cf) v config false) (recordOutcome W cf mode))
    (leads (QIdle [(ph_type (ag_feedback cf), false)]) [])).
  { intros v. next_phase. intros feedback.
    eapply emits_weaken; [apply outcome_harmless|]. by intros t r [-> ->]. }
  destruct (ag_reflect cf) as [reflect|] eqn:E; cbn [app].
  - eapply phase_then; [unfold agent_phases; rewrite E; set_solver|by right|intros out; apply Hlast].
  - exact (Hlast action).
Qed.

Lemma cycle_shows ctx :
  emits (cycle W cf fixed1 stream runId cycleIndex mode startedAt ctx) (fun t r =>
    match r with
    | Ok st => protocol_run (QStart phase_plan) t = Some (QDone st)
    | Throw _ => t = []
    end).
Proof.
  unfold cycle. apply emits_after; [|done|intros config].
  { unfold load_config. destruct (ag_configLoader W cf) eqn:E; hush.
    apply silent_outside. intros w. by eapply looks_config. }
  apply emits_after; [apply guards_silent|done|]. intros [[guard reason]|].
  { apply emits_sink, emits_sink, emits_return. cbn. by rewrite String.eqb_refl. }
  eapply emits_catch with
    (P := fun t r => match r with
                     | Ok st => protocol_run (QStart phase_plan) t = Some (QDone st)
                     | Throw e => exists q, protocol_run (QStart phase_plan) t = Some q /\ broken q e
                     end)
    (Q := fun e t r => t = [VSink (cycle_error (err_message e)); VSink (cycle_complete failed)] /\ r = Ok failed);
    [| |done|].
  - eapply emits_bind with (Q := fun _ t r => t = [VSink (cycle_complete succeeded)] /\ r = Ok succeeded);
      [apply phases_show|intros []; by apply emits_sink, emits_return|by intros t e H|].
    intros [] t1 t2 r H1 [-> ->]. cbn [leads] in H1. by rewrite protocol_run_app, H1.
  - intros e. unfold appendEpisodic. apply emits_harmless; [apply remember_harmless; tauto|].
    by apply emits_sink, emits_sink, emits_return.
  - intros e t1 t2 r (q & Hq & Hb) [-> ->]. rewrite protocol_run_app, Hq.
    destruct Hb as [->|(t & g & p & ->)]; cbn; by rewrite ?String.eqb_refl.
Qed.

End Protocol.

(** * Starting and stopping *)

(** The event ends this phase of loop [i]: its cycle, or its sleep. *)
Definition ends (i : nat) (ph : option loop_phase) (e : life_event) : bool :=
  match ph, e with
  | Some InCycle, LCycleEnd j _ | Some Asleep, LWake j => bool_decide (i = j)
  | _, _ => false
  end.

Definition is_start (e : life_event) : bool := match e with LStart => true | _ => false end.

(** No loop is listed twice: they are numbered as they start. *)
Definition life_ok (s : lifecycle) : Prop := NoDup (loops s).*1 /\ Forall (fun i => (i < started s)%nat) (loops s).*1.

Lemma om_delete_Forall (P : nat -> Prop) i (m : list (nat * loop_phase)) : Forall P m.*1 -> Forall P (om_delete i m).*1.
Proof. rewrite !Forall_forall. intros H x Hx. by apply H, (om_delete_keys_subseteq i m). Qed.

Lemma om_set_Forall (P : nat -> Prop) i v (m : list (nat * loop_phase)) :
  om_has i m = true -> Forall P m.*1 -> Forall P (om_set i v m).*1.
Proof. intros Hi. by rewrite om_set_keys, Hi. Qed.

Lemma life_ok_step s e : life_ok s -> life_ok (life_step s e).
Proof.
  intros [Hnd Hlt]. destruct e as [| |i threw|i]; cbn [life_step]; [|done|..].
  - destruct (running s); [done|]. split; cbn [loops started].
    + rewrite fmap_app, NoDup_app. split_and!; [done| |apply NoDup_singleton].
      intros i Hi ->%list_elem_of_singleton. rewrite Forall_forall in Hlt. specialize (Hlt _ Hi). cbn in Hlt. lia.
    + rewrite fmap_app, Forall_app. split; [|repeat constructor; cbn; lia].
      eapply Forall_impl; [exact Hlt|]. cbn. lia.
  - destruct (om_get i (loops s)) as [[|]|] eqn:E; try done.
    assert (Hi : om_has i (loops s) = true) by (unfold om_has; by rewrite E).
    destruct (_ || _); split; cbn [loops started];
      auto using om_delete_NoDup, om_set_NoDup, om_delete_Forall, om_set_Forall.
  - destruct (om_get i (loops s)) as [[|]|] eqn:E; try done.
    assert (Hi : om_has i (loops s) = true) by (unfold om_has; by rewrite E).
    destruct (running s); split; cbn [loops started];
      auto using om_delete_NoDup, om_set_NoDup, om_delete_Forall, om_set_Forall.
Qed.

Lemma life_ok_run s es : life_ok s -> life_ok (life_run s es).
Proof. revert s. induction es as [|e es IH]; intros s Hs; [done|]. apply IH. by apply life_ok_step. Qed.

(** One step of a stopped agent. *)
Lemma stopped_step s e i : life_ok s -> running s = false -> is_start e = false ->
  running (life_step s e) = false /\
  om_get i (loops (life_step s e)) = if ends i (om_get i (loops s)) e then None else om_get i (loops s).
Proof.
  intros [Hnd _] Hr He.
  assert (Hloop : forall j ph, om_get j (loops s) = Some ph ->
    om_get i (om_delete j (loops s)) = if bool_decide (i = j) then None else om_get i (loops s)).
  { intros j ph _. case_bool_decide as E; [subst; by apply om_get_delete_eq|by apply om_get_delete_ne]. }
  destruct e as [| |j threw|j]; cbn [life_step]; [done| | |]; rewrite ?Hr; cbn [negb]; rewrite ?orb_true_r.
  - cbn. by destruct (om_get i (loops s)) as [[|]|].
  - destruct (om_get j (loops s)) as [[|]|] eqn:E; cbn [running loops]; rewrite ?(Hloop j _ E); (split; [done|]);
      destruct (om_get i (loops s)) as [[|]|] eqn:E2; cbn [ends]; repeat case_bool_decide; simplify_eq; done.
  - destruct (om_get j (loops s)) as [[|]|] eqn:E; cbn [running loops]; rewrite ?(Hloop j _ E); (split; [done|]);
      destruct (om_get i (loops s)) as [[|]|] eqn:E2; cbn [ends]; repeat case_bool_decide; simplify_eq; done.
Qed.

Lemma stopped_run s es i : life_ok s -> running s = false -> forallb (fun e => negb (is_start e)) es = true ->
  running (life_run s es) = false /\
  om_get i (loops (life_run s es)) = if existsb (ends i (om_get i (loops s))) es then None else om_get i (loops s).
Proof.
  revert s. induction es as [|e es IH]; intros s Hok Hr Hes; [done|]. cbn [forallb] in Hes.
  apply andb_prop in Hes as [He%negb_true_iff Hes]. destruct (stopped_step s e i Hok Hr He) as [Hr' Hg].
  destruct (IH (life_step s e) (life_ok_step s e Hok) Hr' Hes) as [Hr2 Hg2]. split; [exact Hr2|].
  unfold life_run in *. cbn [fold_left existsb]. rewrite Hg2, Hg. destruct (ends i (om_get i (loops s)) e) eqn:Ee; cbn [orb]; [|done].
  by destruct (existsb (ends i None) es).
Qed.

(** Stopping quiesces: from any history of starts, stops, cycles and sleeps,
    after a stop and until the next start the agent is not running, no loop
    begins anything new, and every loop is over as soon as the cycle it was in,
    or the sleep, ends. *)
Theorem stop_quiesces history es i : forallb (fun e => negb (is_start e)) es = true ->
  let before := loops (life_run life_init history) in
  let after := life_run life_init (history ++ LStop :: es) in
  running after = false /\
  om_get i (loops after) = if existsb (ends i (om_get i before)) es then None else om_get i before.
Proof.
  intros Hes. cbv zeta. unfold life_run. rewrite fold_left_app. cbn [fold_left].
  fold (life_run life_init history).
  assert (Hok : life_ok (life_run life_init history)) by (apply life_ok_run; split; constructor).
  apply (stopped_run (life_step (life_run life_init history) LStop) es i); [by apply life_ok_step|done|done].
Qed.

(** * A concrete agent *)

Section Sample.
Notation unit_call := (fun w : unit => (w, Ok tt)).

Definition sample_phase (t : string) (out : jsval) : PhaseDef unit :=
  mkPhase t (t =? "act")%string (fun _ _ => PRet (Ok out) (Some 5)).

(** Its human rejects, or approves, what [act] did; its host refuses steps above
    the limit. *)
Definition sample_agent (approves : bool) (steps : Z) : OODAAgentConfig unit :=
  mkAgent "a" live JUndef None [("hours", fun w => (w, Ok true))] [] (fun w => (w, num_of_Z 10))
    (resolve_limits None (Some steps) None)
    (sample_phase "observe" (JNum (num_of_Z 1))) (sample_phase "orient" (JNum (num_of_Z 2)))
    (sample_phase "decide" (JStr "buy")) (sample_phase "act" (JObj [("order", JStr "o1")]))
    (Some (sample_phase "reflect" JNull)) (sample_phase "feedback" JNull)
    (fun t _ w => (w, Ok t)) (fun _ _ w => (w, Ok tt)) (fun _ _ w => (w, Ok tt))
    (Some (fun _ _ w => (w, if approves then Ok tt else Throw (JsError "Error" "rejected"))))
    None None (Some (fun _ => unit_call)) None None.

Definition sample_run (stream approves : bool) (steps : Z) (context : option jsval) : cstate unit * result CycleStatus :=
  cycle unit (sample_agent approves steps) num_to_string stream "r" 0 live "t0" context (mkCycle tt 0 []).

(** C0 *)
Lemma steps_capped_witness : 0 <= 3 /\ inserts (acts (c_log (sample_run false true 3 None).1)) <= 3.
Proof. split; [lia|]. exact (steps_capped (sample_agent true 3) num_to_string false "r" "t0" 0 None live tt ltac:(cbn; lia)). Defined.

Lemma steps_capped_example : inserts (acts (c_log (sample_run false true 3 None).1)) = 3 /\ (sample_run false true 3 None).2 = Ok failed.
Proof. by vm_compute. Qed.

(** The act phase has run by the time the human is asked: a rejection comes
    after the effects.  Without a stream, the human is asked all the same. *)
Lemma act_precedes_approval :
  let o := JObj [("order", JStr "o1")] in
  let no := JsError "Error" "rejected" in
  let phase t out := [VSink (phase_start t); VInsert (Ok t); VPhase t; VSettled t (Ok out); VComplete t (Ok tt);
                      VSink (phase_complete t)] in
  let t := phase "observe" (JNum (num_of_Z 1)) ++ phase "orient" (JNum (num_of_Z 2)) ++ phase "decide" (JStr "buy") ++
    [VSink (phase_start "act"); VInsert (Ok "act"); VPhase "act"; VSettled "act" (Ok o);
     VSink (hitl_waiting "act" (hashPayload o)); VHitl "act" o (Throw no); VError "act" (Ok tt);
     VSink (phase_error "act" "rejected"); VSink (cycle_error "rejected"); VSink (cycle_complete failed)] in
  view (c_log (sample_run true false 200 None).1) = t /\
  view (c_log (sample_run false false 200 None).1) = shown false t.
Proof. by vm_compute. Qed.

(** A step the counter refuses leaves its phase announced, and neither complete
    nor in error. *)
Lemma refused_phase_left_open :
  view (c_log (sample_run true true 0 None).1) =
    [VSink (phase_start "observe"); VSink (cycle_error "OODA: maxStepsPerCycle exceeded (0)"); VSink (cycle_complete failed)].
Proof. by vm_compute. Qed.

Definition phase_input (t : string) (l : list (deed unit)) : list jsval :=
  omap (fun d => match d_act d with APhase t' v => if (t' =? t)%string then Some v else None | _ => None end) l.

(** The context given to a streamed cycle does not reach its observe phase. *)
Lemma stream_drops_context :
  phase_input "observe" (c_log (sample_run false true 200 (Some (JStr "evt"))).1) = [JStr "evt"] /\
  phase_input "observe" (c_log (sample_run true true 200 (Some (JStr "evt"))).1) = [JUndef].
Proof. by vm_compute. Qed.

(** [reflect] receives the action's own fields and the decision. *)
Lemma reflect_input :
  phase_input "reflect" (c_log (sample_run false true 200 None).1) = [JObj [("order", JStr "o1"); ("decision", JStr "buy")]].
Proof. by vm_compute. Qed.

(** C0 *)
Lemma stop_quiesces_witness :
  om_get 0%nat (loops (life_run life_init ([LStart] ++ LStop :: [LWake 0]))) = Some InCycle /\
  (running (life_run life_init ([LStart] ++ LStop :: [LCycleEnd 0 false])) = false /\
   om_get 0%nat (loops (life_run life_init ([LStart] ++ LStop :: [LCycleEnd 0 false]))) = None).
Proof. split; [reflexivity|]. exact (stop_quiesces [LStart] [LCycleEnd 0 false] 0%nat eq_refl). Defined.

(** A restart while the first loop sleeps leaves two loops in their cycles. *)
Lemma restart_overlaps :
  loops (life_run life_init [LStart; LCycleEnd 0 false; LStop; LStart; LWake 0]) = [(0%nat, InCycle); (1%nat, InCycle)].
Proof. reflexivity. Qed.

(** After a cycle that threw, nothing runs and [start] is turned away. *)
Lemma throwing_guard_wedges : life_run life_init [LStart; LCycleEnd 0 true; LStart] = mkLife true [] 1.
Proof. reflexivity. Qed.
End Sample.
