(* ===== verification/Teammate.v ===== *)
(** Messages between agents, [delegation/teammate-message.ts]: signed envelopes,
    the two scope checks on their claims, and the bodies of team actions.

    The clock and the signing function are ports: functions on an abstract
    world, and of the text.  Strings have code units below 256, whose UTF-8
    encoding takes one byte or two. *)

From S2P Require Import Prelude JsNum JsValue Canonical Battery Delegation Json NumText.
From S2P Require Import JsonParse TokenBase SubToken.
From Stdlib Require Import SpecFloat Ascii.

(** * Claims *)

(** The kind comes off the wire: any string. *)
Record TeammateMessageClaim := mkClaim { cm_kind : string; cm_capability : option string }.

Definition RECOGNIZED_CLAIM_KINDS : list string := ["inform"; "ask"; "list_targets"; "control"].
Definition isRecognizedClaimKind (kind : string) : bool := bool_decide (kind ∈ RECOGNIZED_CLAIM_KINDS).
Definition isHitlGatableClaimKind (kind : string) : bool := (kind =? "ask")%string.
Definition isControlClaimKind (kind : string) : bool := (kind =? "control")%string.

(** * Envelopes *)

Definition MAX_TEAMMATE_BODY_BYTES : Z := 16 * 1024.
Definition TEAMMATE_ENVELOPE_SCHEMA_VERSION_V2 : string := "2.1.0".

Record TeammateEnvelopeV1 := mkV1 {
  v1_id : string; v1_fromRunId : string; v1_toRunId : string; v1_replyTo : option string;
  v1_sentAt : num; v1_claim : TeammateMessageClaim; v1_body : string; v1_sig : option string
}.

Record TeammateEnvelopeV2 := mkV2 {
  v2_schemaVersion : string; v2_id : string; v2_fromRunId : string; v2_toRunId : string;
  v2_toSessionId : option string; v2_replyTo : option string; v2_correlationId : string;
  v2_sentAt : num; v2_claim : TeammateMessageClaim; v2_body : string;
  v2_fromInstallId : option string; v2_toInstallId : option string; v2_steerId : option string;
  v2_sig : option string
}.

Inductive TeammateEnvelope := V1 (e : TeammateEnvelopeV1) | V2 (e : TeammateEnvelopeV2).

Definition env_id (e : TeammateEnvelope) : string := match e with V1 e => v1_id e | V2 e => v2_id e end.
Definition env_from (e : TeammateEnvelope) : string :=
  match e with V1 e => v1_fromRunId e | V2 e => v2_fromRunId e end.
Definition env_to (e : TeammateEnvelope) : string :=
  match e with V1 e => v1_toRunId e | V2 e => v2_toRunId e end.
Definition env_claim (e : TeammateEnvelope) : TeammateMessageClaim :=
  match e with V1 e => v1_claim e | V2 e => v2_claim e end.
Definition env_sig (e : TeammateEnvelope) : option string := match e with V1 e => v1_sig e | V2 e => v2_sig e end.

Record BuildTeammateEnvelopeInput := mkBuild {
  bi_id : string; bi_fromRunId : string; bi_toRunId : string; bi_replyTo : option string;
  bi_claim : TeammateMessageClaim; bi_body : string
}.

Record BuildTeammateEnvelopeV2Input := mkBuild2 {
  b2_core : BuildTeammateEnvelopeInput; b2_toSessionId : option string; b2_correlationId : string;
  b2_fromInstallId : option string; b2_toInstallId : option string; b2_steerId : option string
}.

(** ** Validation *)

Definition TeammateEnvelopeInputError (reason : string) : jserror :=
  JsError "TeammateEnvelopeInputError" ("TeammateEnvelopeInputError: " ++ reason)%string.
Definition TeammateBodyTooLargeError (actualBytes maxBytes : Z) : jserror :=
  JsError "TeammateBodyTooLargeError"
    ("TeammateBodyTooLargeError: body is " ++ str_of_Z actualBytes ++ " bytes, exceeds the " ++
     str_of_Z maxBytes ++ "-byte bound")%string.

Definition assertNonEmpty (value fieldName : string) : result unit :=
  throw_if (is_blank value)
    (TeammateEnvelopeInputError (fieldName ++ " is required and must be a non-empty string")%string).

(** [new TextEncoder().encode(s).length]. *)
Fixpoint utf8_length (s : string) : Z :=
  match s with
  | EmptyString => 0
  | String c s' => (if (nat_of_ascii c <? 128)%nat then 1 else 2) + utf8_length s'
  end.

Definition validateEnvelopeCore (i : BuildTeammateEnvelopeInput) : result unit :=
  _ ← assertNonEmpty (bi_id i) "id";
  _ ← assertNonEmpty (bi_fromRunId i) "fromRunId";
  _ ← assertNonEmpty (bi_toRunId i) "toRunId";
  _ ← throw_if (negb (isRecognizedClaimKind (cm_kind (bi_claim i))))
        (TeammateEnvelopeInputError ("claim.kind must be one of " ++
           join ", " (map json_quote RECOGNIZED_CLAIM_KINDS) ++ ", got " ++
           json_quote (cm_kind (bi_claim i)))%string);
  throw_if (MAX_TEAMMATE_BODY_BYTES <? utf8_length (bi_body i))
    (TeammateBodyTooLargeError (utf8_length (bi_body i)) MAX_TEAMMATE_BODY_BYTES).

(** ** Signed text *)

Definition opt_field (k : string) (o : option string) : list (string * jsval) :=
  match o with Some s => [(k, JStr s)] | None => [] end.

Definition claim_val (c : TeammateMessageClaim) : jsval :=
  JObj (("kind", JStr (cm_kind c)) :: opt_field "capability" (cm_capability c)).

(** The envelope without its [sig]. *)
Definition env_fields (e : TeammateEnvelope) : list (string * jsval) :=
  match e with
  | V1 e =>
      [("v", JNum num_one); ("id", JStr (v1_id e)); ("fromRunId", JStr (v1_fromRunId e));
       ("toRunId", JStr (v1_toRunId e))] ++ opt_field "replyTo" (v1_replyTo e) ++
      [("sentAt", JNum (v1_sentAt e)); ("claim", claim_val (v1_claim e)); ("body", JStr (v1_body e))]
  | V2 e =>
      [("v", JNum (num_of_Z 2)); ("schemaVersion", JStr (v2_schemaVersion e)); ("id", JStr (v2_id e));
       ("fromRunId", JStr (v2_fromRunId e)); ("toRunId", JStr (v2_toRunId e))] ++
      opt_field "toSessionId" (v2_toSessionId e) ++ opt_field "replyTo" (v2_replyTo e) ++
      [("correlationId", JStr (v2_correlationId e)); ("sentAt", JNum (v2_sentAt e));
       ("claim", claim_val (v2_claim e)); ("body", JStr (v2_body e))] ++
      opt_field "fromInstallId" (v2_fromInstallId e) ++ opt_field "toInstallId" (v2_toInstallId e) ++
      opt_field "steerId" (v2_steerId e)
  end.

Section Envelope.
Context `{Hashing}.

Definition canonicalTeammateEnvelopeString (e : TeammateEnvelope) : result string := canonical (JObj (env_fields e)).

Definition with_v1_sig (s : string) (e : TeammateEnvelopeV1) : TeammateEnvelopeV1 :=
  mkV1 (v1_id e) (v1_fromRunId e) (v1_toRunId e) (v1_replyTo e) (v1_sentAt e) (v1_claim e) (v1_body e) (Some s).
Definition with_v2_sig (s : string) (e : TeammateEnvelopeV2) : TeammateEnvelopeV2 :=
  mkV2 (v2_schemaVersion e) (v2_id e) (v2_fromRunId e) (v2_toRunId e) (v2_toSessionId e) (v2_replyTo e)
    (v2_correlationId e) (v2_sentAt e) (v2_claim e) (v2_body e) (v2_fromInstallId e) (v2_toInstallId e)
    (v2_steerId e) (Some s).
Definition with_env_sig (s : string) (e : TeammateEnvelope) : TeammateEnvelope :=
  match e with V1 e => V1 (with_v1_sig s e) | V2 e => V2 (with_v2_sig s e) end.

Definition sign_envelope (sign : string -> result string) (core : TeammateEnvelope) : result TeammateEnvelope :=
  text ← canonicalTeammateEnvelopeString core; sig ← sign text; Ok (with_env_sig sig core).

(** The two builders read the clock after validation. *)
Context {W : Type} (now : W -> W * num) (sign : string -> result string).

Definition buildTeammateEnvelope (i : BuildTeammateEnvelopeInput) (w : W) : W * result TeammateEnvelope :=
  match validateEnvelopeCore i with
  | Throw e => (w, Throw e)
  | Ok _ =>
      let '(w, t) := now w in
      (w, sign_envelope sign (V1 (mkV1 (bi_id i) (bi_fromRunId i) (bi_toRunId i) (bi_replyTo i) t
            (bi_claim i) (bi_body i) None)))
  end.

Definition buildTeammateEnvelopeV2 (i2 : BuildTeammateEnvelopeV2Input) (w : W) : W * result TeammateEnvelope :=
  let i := b2_core i2 in
  match (_ ← validateEnvelopeCore i; assertNonEmpty (b2_correlationId i2) "correlationId") with
  | Throw e => (w, Throw e)
  | Ok _ =>
      let '(w, t) := now w in
      (w, sign_envelope sign (V2 (mkV2 TEAMMATE_ENVELOPE_SCHEMA_VERSION_V2 (bi_id i) (bi_fromRunId i)
            (bi_toRunId i) (b2_toSessionId i2) (bi_replyTo i) (b2_correlationId i2) t (bi_claim i) (bi_body i)
            (b2_fromInstallId i2) (b2_toInstallId i2) (b2_steerId i2) None)))
  end.

(** [valid], with the reason when it is not. *)
Definition verifyTeammateEnvelopeSignature (e : TeammateEnvelope) (verify : string -> string -> result bool)
    : bool * option string :=
  match env_sig e with
  | None | Some EmptyString => (false, Some "missing signature")
  | Some s =>
      match (text ← canonicalTeammateEnvelopeString e; verify text s) with
      | Ok true => (true, None)
      | _ => (false, Some "signature does not verify against the pinned install key")
      end
  end.

(** * The sender's scope *)

Record MessageClaimCandidate := mkMessageCandidate { mc_kind : string; mc_capability : option string; mc_inScope : bool }.
Definition message_candidate_val (c : MessageClaimCandidate) : jsval :=
  JObj ([("kind", JStr (mc_kind c))] ++ opt_field "capability" (mc_capability c) ++ [("inScope", JBool (mc_inScope c))]).

(** [${capability}], a missing one printing as [undefined]. *)
Definition template_opt (o : option string) : string := default "undefined" o.

Definition messageClaimScopeLens : BatteryLens MessageClaimCandidate :=
  {| l_name := "teammate-message-claim-scope";
     l_evaluate := fun c =>
       let ok := negb (mc_kind c =? "ask")%string || mc_inScope c in
       Ok (ResultObj (one_or_zero ok) (RatStr
         (if (mc_kind c =? "inform")%string then "inform claim: no capability scope check required"
          else if (mc_kind c =? "list_targets")%string then
            "list_targets claim: no capability scope check required (control-plane, HITL-exempt)"
          else if (mc_kind c =? "control")%string then
            "control claim: not gated on the agent 'ask' axis ; receiver-side controllerControlScopeLens is the gate (ADR-ECO-118)"
          else match mc_capability c with
               | None => "ask claim: no capability declared ; fail-closed (nothing to verify)"
               | Some cap =>
                   if mc_inScope c then
                     ("ask claim: capability " ++ quoted cap ++ " is in the sender's attenuated scope")%string
                   else ("ask claim: capability " ++ quoted cap ++ " is not in the sender's attenuated scope")%string
               end)));
     l_polarity := affirm; l_criticality := hard; l_engine := rule; l_model := None |}.

Definition envelope_input (e : TeammateEnvelope) : jsval :=
  JObj [("envelopeId", JStr (env_id e)); ("fromRunId", JStr (env_from e)); ("toRunId", JStr (env_to e))].

Record MessageClaimVerdict := mkMessageVerdict { mv_allowed : bool; mv_reason : string; mv_auditStep : BatteryTraceStep }.

Definition accepted_some {T} (d : BatteryDecision T) : bool :=
  match d_accepted d with Some _ => true | None => false end.

(** [t0] and [t1] are the clock readings of the battery. *)
Definition verifyMessageClaim (e : TeammateEnvelope) (senderAttenuatedTools : list string) (t0 t1 : Z)
    : result MessageClaimVerdict :=
  let scope := map baseToolName senderAttenuatedTools in
  let capability := cm_capability (env_claim e) in
  let inScope := match capability with Some c => bool_decide (baseToolName c ∈ scope) | None => false end in
  let c := mkMessageCandidate (cm_kind (env_claim e)) capability inScope in
  decision ← runVerifierBattery message_candidate_val (envelope_input e) [c] [messageClaimScopeLens]
    (env_from e) DELEGATION_ADR None false t0 t1;
  let allowed := accepted_some decision in
  Ok (mkMessageVerdict allowed
    (if allowed then
       if (mc_kind c =? "inform")%string then "inform claim accepted: no capability scope check required"
       else if (mc_kind c =? "list_targets")%string then
         "list_targets claim accepted: no capability scope check required (control-plane, HITL-exempt)"
       else if (mc_kind c =? "control")%string then
         "control claim accepted: not gated on the agent 'ask' axis ; receiver-side controllerControlScopeLens is the gate (ADR-ECO-118)"
       else ("ask claim accepted: capability " ++ quoted (template_opt capability) ++
             " is in the sender's attenuated scope")%string
     else match capability with
          | None => "ask claim denied (fail-closed): no capability declared ; nothing to verify"
          | Some cap => ("ask claim denied (fail-closed): capability " ++ quoted cap ++
                         " is not in the sender's attenuated scope")%string
          end)
    (d_auditStep decision)).

(** * The controller's grant *)

Definition CONTROL_VERB_REQUIRED_SCOPE : list (string * string) :=
  [("observe", "read-only"); ("status", "read-only"); ("approve", "approve-only"); ("reject", "approve-only");
   ("veto", "approve-only"); ("revive", "approve-only"); ("steer", "full"); ("whisper", "full"); ("stop", "full");
   ("message", "full"); ("team-list", "read-only"); ("team-send", "full"); ("delegate", "full");
   ("coordinate", "full"); ("start", "full"); ("sync", "read-only")].
Definition CONTROL_VERBS : list string :=
  ["observe"; "status"; "approve"; "reject"; "veto"; "revive"; "steer"; "whisper"; "stop"; "message"; "team-list";
   "team-send"; "delegate"; "coordinate"; "start"; "sync"].
Definition isControlVerb (v : string) : bool := bool_decide (v ∈ CONTROL_VERBS).
Definition requiredScopeForControlVerb (v : string) : option string := om_get v CONTROL_VERB_REQUIRED_SCOPE.
Definition CONTROLLER_CONTROL_ADR : string := "ADR-ECO-118".

Record ControlScopeCandidate := mkControlCandidate {
  cc_verb : string; cc_grant : option string; cc_requiredScope : option string; cc_covered : bool
}.
Definition control_candidate_val (c : ControlScopeCandidate) : jsval :=
  JObj ([("verb", JStr (cc_verb c))] ++ opt_field "grant" (cc_grant c) ++
        opt_field "requiredScope" (cc_requiredScope c) ++ [("covered", JBool (cc_covered c))]).

Definition denied_verb (verb why : string) : string :=
  ("control verb " ++ quoted verb ++ " denied (fail-closed) : " ++ why)%string.
Definition granted_verb (verb : string) (grant required : option string) : string :=
  ("control verb " ++ quoted verb ++ " authorized : grant " ++ quoted (template_opt grant) ++
   " covers required " ++ quoted (template_opt required))%string.
Definition below_required (grant required : option string) : string :=
  ("grant " ++ quoted (template_opt grant) ++ " below required " ++ quoted (template_opt required))%string.

Definition controllerControlScopeLens : BatteryLens ControlScopeCandidate :=
  {| l_name := "controller-control-scope";
     l_evaluate := fun c =>
       Ok (ResultObj (one_or_zero (cc_covered c)) (RatStr
         (if cc_covered c then granted_verb (cc_verb c) (cc_grant c) (cc_requiredScope c)
          else match cc_grant c, cc_requiredScope c with
               | None, _ => denied_verb (cc_verb c) "no control grant on this peer"
               | _, None => denied_verb (cc_verb c) "unrecognized verb"
               | _, _ => denied_verb (cc_verb c) (below_required (cc_grant c) (cc_requiredScope c))
               end)));
     l_polarity := affirm; l_criticality := hard; l_engine := rule; l_model := None |}.

Record ControlClaimVerdict := mkControlVerdict {
  cv_allowed : bool; cv_reason : string; cv_verb : string; cv_requiredScope : option string;
  cv_grant : option string; cv_auditStep : BatteryTraceStep
}.

Definition verifyControlClaim (e : TeammateEnvelope) (grant : option string) (t0 t1 : Z) : result ControlClaimVerdict :=
  let isControlClaim := isControlClaimKind (cm_kind (env_claim e)) in
  let verb := default "" (cm_capability (env_claim e)) in
  let knownVerb := isControlVerb verb in
  let requiredScope := if knownVerb then requiredScopeForControlVerb verb else None in
  let covered :=
    match grant, requiredScope with
    | Some g, Some r => isControlClaim && knownVerb && scopeCovers g r
    | _, _ => false
    end in
  decision ← runVerifierBattery control_candidate_val (envelope_input e)
    [mkControlCandidate verb grant requiredScope covered] [controllerControlScopeLens]
    (env_to e) CONTROLLER_CONTROL_ADR None false t0 t1;
  let allowed := accepted_some decision in
  Ok (mkControlVerdict allowed
    (if allowed then granted_verb verb grant requiredScope
     else if negb isControlClaim then denied_verb verb "not a control claim"
     else match grant with
          | None => denied_verb verb "no control grant on this peer"
          | Some _ => if negb knownVerb then denied_verb verb "unrecognized verb"
                      else denied_verb verb (below_required grant requiredScope)
          end)
    verb requiredScope grant (d_auditStep decision)).
End Envelope.

Inductive TeamActionVerb := team_list | team_send | delegate | coordinate | start.
#[export] Instance TeamActionVerb_eq_dec : EqDecision TeamActionVerb. Proof. solve_decision. Defined.

Definition verb_name (v : TeamActionVerb) : string :=
  match v with
  | team_list => "team-list" | team_send => "team-send" | delegate => "delegate" | coordinate => "coordinate"
  | start => "start"
  end.

Definition TEAM_ACTION_VERBS : list string := map verb_name [team_list; team_send; delegate; coordinate; start].
Definition isTeamActionVerb (v : string) : bool := bool_decide (v ∈ TEAM_ACTION_VERBS).

Definition ALL_SESSION_ORIGIN_KINDS : list string := ["local"; "daemon"; "gateway"; "pod"].
Definition isSessionOriginKind (v : string) : bool := bool_decide (v ∈ ALL_SESSION_ORIGIN_KINDS).

Definition TeamActionBodyError (verb reason : string) : jserror :=
  JsError "TeamActionBodyError" ("TeamActionBodyError [" ++ verb ++ "]: " ++ reason)%string.

(** A grant, present or not, with its tools, listed or not. *)
Definition tool_grant : Type := option (list string).

Inductive TeamActionRequest :=
| TeamListRequest (filter : option string)
| TeamSendRequest (toTarget kind body : string)
| TeamDelegateRequest (task : string) (grant : option tool_grant)
| TeamCoordinateRequest (branches : list string)
| TeamStartRequest (origin task : string) (name repo : option string) (grant : option tool_grant).

(** ** Shapes *)

Definition parseTeamBodyObject (raw : string) (verb : TeamActionVerb) : result (list (string * jsval)) :=
  match json_parse raw with
  | Throw _ => Throw (TeamActionBodyError (verb_name verb) "body is not valid JSON")
  | Ok (JObj o) => Ok o
  | Ok _ => Throw (TeamActionBodyError (verb_name verb) "body must be a JSON object")
  end.

(** The first unexpected key is named. *)
Fixpoint rejectUnexpectedKeys (o : list (string * jsval)) (allowed : list string) (verb : TeamActionVerb) : result unit :=
  match o with
  | [] => Ok tt
  | (key, _) :: o =>
      if bool_decide (key ∈ allowed) then rejectUnexpectedKeys o allowed verb
      else Throw (TeamActionBodyError (verb_name verb)
             ("unexpected key " ++ quoted key ++ " (allowed: " ++ join ", " allowed ++ ")")%string)
  end.

Definition isNonBlankString (v : jsval) : option string :=
  match v with JStr s => if is_blank s then None else Some s | _ => None end.

(** A field that must be a non-blank string. *)
Definition required_string (v : jsval) (verb : TeamActionVerb) (reason : string) : result string :=
  match isNonBlankString v with
  | Some s => Ok s
  | None => Throw (TeamActionBodyError (verb_name verb) reason)
  end.

(** One that may be absent. *)
Definition optional_string (v : jsval) (verb : TeamActionVerb) (reason : string) : result (option string) :=
  match v with
  | JUndef => Ok None
  | _ => s ← required_string v verb reason; Ok (Some s)
  end.

Definition tools_reason : string := "grant.tools, when present, must be an array of non-blank strings".

Fixpoint parse_tools (l : list jsval) (verb : TeamActionVerb) : result (list string) :=
  match l with
  | [] => Ok []
  | v :: l => s ← required_string v verb tools_reason; rest ← parse_tools l verb; Ok (s :: rest)
  end.

Definition parseToolGrant (raw : jsval) (verb : TeamActionVerb) : result tool_grant :=
  match raw with
  | JObj g =>
      _ ← rejectUnexpectedKeys g ["tools"] verb;
      match get_field "tools" g with
      | JUndef => Ok None
      | JArr l => tools ← parse_tools l verb; Ok (Some tools)
      | _ => Throw (TeamActionBodyError (verb_name verb) tools_reason)
      end
  | _ => Throw (TeamActionBodyError (verb_name verb) "grant, when present, must be an object")
  end.

Definition optional_grant (v : jsval) (verb : TeamActionVerb) : result (option tool_grant) :=
  match v with
  | JUndef => Ok None
  | _ => g ← parseToolGrant v verb; Ok (Some g)
  end.

(** ** The parsers *)

Definition decode_list (o : list (string * jsval)) : result TeamActionRequest :=
  _ ← rejectUnexpectedKeys o ["filter"] team_list;
  filter ← optional_string (get_field "filter" o) team_list "filter, when present, must be a non-blank string";
  Ok (TeamListRequest filter).

Definition parseTeamListBody (raw : string) : result TeamActionRequest :=
  if is_blank raw then Ok (TeamListRequest None)
  else o ← parseTeamBodyObject raw team_list; decode_list o.

Definition kind_reason : string :=
  ("kind is required and must be " ++ quoted "ask" ++ " or " ++ quoted "inform")%string.

Definition decode_send (o : list (string * jsval)) : result TeamActionRequest :=
  _ ← rejectUnexpectedKeys o ["toTarget"; "kind"; "body"] team_send;
  toTarget ← required_string (get_field "toTarget" o) team_send "toTarget is required and must be a non-blank string";
  let kind := get_field "kind" o in
  _ ← throw_if (negb (is_str "ask" kind) && negb (is_str "inform" kind))
        (TeamActionBodyError (verb_name team_send) kind_reason);
  body ← required_string (get_field "body" o) team_send "body is required and must be a non-blank string";
  Ok (TeamSendRequest toTarget (if is_str "ask" kind then "ask" else "inform") body).

Definition parseTeamSendBody (raw : string) : result TeamActionRequest :=
  o ← parseTeamBodyObject raw team_send; decode_send o.

Definition task_reason : string := "task is required and must be a non-blank string".

Definition decode_delegate (o : list (string * jsval)) : result TeamActionRequest :=
  _ ← rejectUnexpectedKeys o ["task"; "grant"] delegate;
  task ← required_string (get_field "task" o) delegate task_reason;
  grant ← optional_grant (get_field "grant" o) delegate;
  Ok (TeamDelegateRequest task grant).

Definition parseTeamDelegateBody (raw : string) : result TeamActionRequest :=
  o ← parseTeamBodyObject raw delegate; decode_delegate o.

Definition decode_start (o : list (string * jsval)) : result TeamActionRequest :=
  _ ← rejectUnexpectedKeys o ["origin"; "task"; "name"; "repo"; "grant"] start;
  origin ← match get_field "origin" o with
           | JStr s => if isSessionOriginKind s then Ok s
                       else Throw (TeamActionBodyError (verb_name start) "origin is required and must be a known session origin kind")
           | _ => Throw (TeamActionBodyError (verb_name start) "origin is required and must be a known session origin kind")
           end;
  task ← required_string (get_field "task" o) start task_reason;
  name ← optional_string (get_field "name" o) start "name, when present, must be a non-blank string";
  repo ← optional_string (get_field "repo" o) start "repo, when present, must be a non-blank string";
  grant ← optional_grant (get_field "grant" o) start;
  Ok (TeamStartRequest origin task name repo grant).

Definition parseTeamStartBody (raw : string) : result TeamActionRequest :=
  o ← parseTeamBodyObject raw start; decode_start o.

Definition decode_branch (i : Z) (entry : jsval) : result string :=
  match entry with
  | JObj branch =>
      _ ← rejectUnexpectedKeys branch ["task"] coordinate;
      required_string (get_field "task" branch) coordinate
        ("branches[" ++ str_of_Z i ++ "].task is required and must be a non-blank string")%string
  | _ => Throw (TeamActionBodyError (verb_name coordinate) ("branches[" ++ str_of_Z i ++ "] must be an object")%string)
  end.

Fixpoint decode_branches (i : Z) (l : list jsval) : result (list string) :=
  match l with
  | [] => Ok []
  | v :: l => task ← decode_branch i v; rest ← decode_branches (i + 1) l; Ok (task :: rest)
  end.

Definition decode_coordinate (o : list (string * jsval)) : result TeamActionRequest :=
  _ ← rejectUnexpectedKeys o ["branches"] coordinate;
  match get_field "branches" o with
  | JArr (v :: l) => branches ← decode_branches 0 (v :: l); Ok (TeamCoordinateRequest branches)
  | _ => Throw (TeamActionBodyError (verb_name coordinate) "branches is required and must be a non-empty array")
  end.

Definition parseTeamCoordinateBody (raw : string) : result TeamActionRequest :=
  o ← parseTeamBodyObject raw coordinate; decode_coordinate o.

Definition parseTeamActionBody (verb : TeamActionVerb) (raw : string) : result TeamActionRequest :=
  match verb with
  | team_list => parseTeamListBody raw
  | team_send => parseTeamSendBody raw
  | delegate => parseTeamDelegateBody raw
  | coordinate => parseTeamCoordinateBody raw
  | start => parseTeamStartBody raw
  end.

(** The dispatcher on any verb text. *)
Definition verb_of (s : string) : option TeamActionVerb :=
  List.find (fun v => (verb_name v =? s)%string) [team_list; team_send; delegate; coordinate; start].
Definition parse_action (verb raw : string) : result TeamActionRequest :=
  match verb_of verb with
  | Some v => parseTeamActionBody v raw
  | None => Throw (TeamActionBodyError verb "not a team-action verb")
  end.

Example parse_delegate : parse_action "delegate"
  ("{" ++ quoted "task" ++ ":" ++ quoted "t" ++ "," ++ quoted "grant" ++ ":{" ++ quoted "tools" ++ ":[" ++ quoted "x" ++ "]}}") =
  Ok (TeamDelegateRequest "t" (Some (Some ["x"]))).
Proof. vm_compute. reflexivity. Qed.
