(* ===== verification/TeammateProps.v ===== *)
(** Envelopes bind what they say, and claims stay within their scope. *)

From S2P Require Import Prelude JsNum JsValue Canonical Battery BatteryProps Delegation.
From S2P Require Import Json NumText JsonParse TokenBase SubToken Teammate.
From Stdlib Require Import SpecFloat Ascii.

(** * Deciding with one rule lens *)

Section Rule.
Context `{Hashing} {T : Type} (to_val : T -> jsval) (input : jsval) (c : T) (l : BatteryLens T).
Context (ok : bool) (why runId adr : string) (t0 t1 : Z).
Context (He : l_evaluate l c = Ok (ResultObj (one_or_zero ok) (RatStr why))).
Context (Hp : l_polarity l = affirm) (Hc : l_criticality l = hard) (Hr : l_engine l = rule) (Hm : l_model l = None).

Notation battery := (runVerifierBattery to_val input [c] [l] runId adr None false t0 t1).

Lemma rule_battery_decides d : battery = Ok d -> accepted_some d = ok /\ as_runId (d_auditStep d) = runId.
Proof.
  intros Hd. apply single_candidate in Hd as (Hrun & row & Hrow & _ & Hacc). split; [|done].
  rewrite (rule_lens_kills c l ok why row He Hp Hc Hrow) in Hacc. unfold accepted_some. rewrite Hacc. by destruct ok.
Qed.

(** It fails only for want of a run identifier. *)
Definition rule_verdict : LensVerdict :=
  mkLensVerdict (l_name l) affirm hard rule (if ok then num_one else num_zero) (negb ok) why.

Lemma rule_verdict_eq : evalLens half false c l = Ok rule_verdict.
Proof.
  unfold evalLens, rule_verdict. cbn. rewrite He. unfold lensVerdictOf. destruct ok; cbn; by rewrite Hp, Hc, Hr.
Qed.

Lemma rule_core_safe h : let vs := verdictsFrom half 0 [[rule_verdict]] [h] in
  let acc := selectVerdict vs in
  json_safe (core_val (mkCore adr half (fst <$> acc)
    (match fst <$> acc with Some i => [h] !! Z.to_nat i | None => None end) (snd <$> acc) vs (rejectedOf acc vs))) = true.
Proof. unfold rule_verdict. destruct ok; vm_compute; reflexivity. Qed.

Lemma rule_input_safe h : json_safe input = true -> json_safe (input_val input [h] [l] half adr) = true.
Proof.
  intros Hi. unfold input_val. cbn [map]. unfold lens_val. rewrite Hp, Hc, Hr, Hm. cbn [json_safe forallb snd].
  by rewrite Hi.
Qed.

Lemma bind_Ok {A B} (m : result A) (f : A -> result B) a : m = Ok a -> (x ← m; f x) = f a.
Proof. by intros ->. Qed.

Lemma rule_battery_total : is_blank adr = false -> json_safe input = true -> json_safe (to_val c) = true ->
  is_ok battery = negb (is_blank runId).
Proof.
  intros Ha Hi Hv.
  assert (Hg : guards 1 [l] runId adr half = throw_if (is_blank runId)
      (BatteryGovernanceError "runId is mandatory (anti-splice AR6)")).
  { unfold guards. rewrite Ha. cbn [existsb]. rewrite Hc, Hr. by destruct (is_blank runId). }
  unfold runVerifierBattery. cbv zeta. cbn [length default]. rewrite Hg. destruct (is_blank runId); [done|].
  rewrite (bind_Ok _ _ tt) by done.
  rewrite (bind_Ok _ _ [[rule_verdict]]) by (cbn [map_result]; by rewrite rule_verdict_eq).
  rewrite (bind_Ok _ _ [sha256 (rfcCanonicalize (to_val c))]) by (cbn [map_result]; by rewrite hash_canonical_safe).
  erewrite (bind_Ok (hash_canonical (core_val _))) by (apply hash_canonical_safe, rule_core_safe).
  by erewrite (bind_Ok (hash_canonical (input_val _ _ _ _ _))) by (by apply hash_canonical_safe, rule_input_safe).
Qed.

Lemma rule_battery_spec : is_blank adr = false -> json_safe input = true -> json_safe (to_val c) = true ->
  match battery with
  | Throw _ => is_blank runId = true
  | Ok d => is_blank runId = false /\ as_runId (d_auditStep d) = runId /\ accepted_some d = ok
  end.
Proof.
  intros Ha Hi Hv. pose proof (rule_battery_total Ha Hi Hv) as Ht. pose proof rule_battery_decides as Hd.
  destruct battery as [d|]; cbn in Ht; destruct (is_blank runId); try done. by destruct (Hd d eq_refl).
Qed.
End Rule.

(** * Claims *)

Section Claims.
Context `{Hashing}.

(** A request stays within the scope of its sender: the check decides every
    message whose sender names its run, and lets an ask pass exactly when it names
    a capability whose base name is that of a tool the sender holds; whatever is
    not an ask passes; the audit step belongs to the sender's run. *)
Theorem ask_within_scope (e : TeammateEnvelope) (tools : list string) (t0 t1 : Z) :
  match verifyMessageClaim e tools t0 t1 with
  | Throw _ => is_blank (env_from e) = true
  | Ok v =>
      is_blank (env_from e) = false /\ as_runId (mv_auditStep v) = env_from e /\
      (mv_allowed v = true <->
       (cm_kind (env_claim e) = "ask" -> exists cap, cm_capability (env_claim e) = Some cap /\
          exists t, t ∈ tools /\ baseToolName t = baseToolName cap))
  end.
Proof.
  unfold verifyMessageClaim. cbv zeta.
  set (inScope := match cm_capability (env_claim e) with Some c => _ | None => false end).
  set (c := mkMessageCandidate _ _ _).
  set (ok := negb (cm_kind (env_claim e) =? "ask")%string || inScope).
  assert (He : exists why, l_evaluate messageClaimScopeLens c = Ok (ResultObj (one_or_zero ok) (RatStr why)))
    by (by eexists).
  destruct He as [why He].
  pose proof (rule_battery_spec message_candidate_val (envelope_input e) c messageClaimScopeLens ok why
    (env_from e) DELEGATION_ADR t0 t1 He eq_refl eq_refl eq_refl eq_refl eq_refl eq_refl) as Ht.
  specialize (Ht ltac:(by destruct c as [? [|] ?])).
  destruct (runVerifierBattery _ _ _ _ _ _ _ _ _ _) as [d|]; [|done]. destruct Ht as (Hb & Hrun & Hacc).
  unfold mbind. cbn [result_bind mv_allowed mv_auditStep]. split_and!; [done..|]. rewrite Hacc. unfold ok.
  assert (Hin : inScope = true <-> exists cap, cm_capability (env_claim e) = Some cap /\
      exists t, t ∈ tools /\ baseToolName t = baseToolName cap).
  { unfold inScope. destruct (cm_capability (env_claim e)) as [cap|]; [|naive_solver].
    rewrite bool_decide_eq_true, list_elem_of_fmap. naive_solver. }
  rewrite orb_true_iff, negb_true_iff, String.eqb_neq, Hin. destruct (String.eqb_spec (cm_kind (env_claim e)) "ask"); naive_solver.
Qed.

Lemma verb_table verb r : (verb, r) ∈ CONTROL_VERB_REQUIRED_SCOPE <->
  (if isControlVerb verb then requiredScopeForControlVerb verb else None) = Some r.
Proof.
  assert (Hk : CONTROL_VERBS = CONTROL_VERB_REQUIRED_SCOPE.*1) by reflexivity.
  assert (Hn : NoDup CONTROL_VERB_REQUIRED_SCOPE.*1) by (by apply (bool_decide_unpack _); vm_compute).
  unfold isControlVerb, requiredScopeForControlVerb. rewrite Hk. split.
  - intros Hin. assert (Hv := list_elem_of_fmap_2 fst _ _ Hin). cbn [fst] in Hv. rewrite bool_decide_eq_true_2 by done.
    apply om_get_is_Some in Hv as [r' Hr]. rewrite Hr. f_equal. apply om_get_Some_in in Hr. by eapply fst_unique.
  - case_bool_decide; [apply om_get_Some_in|done].
Qed.

(** Control needs a grant: the check decides every message addressed to a
    run, and allows it exactly when it is a control claim whose verb is one of
    the table and the grant on the peer's identity covers the scope the table
    requires; the audit step belongs to the receiving run. *)
Theorem control_needs_grant (e : TeammateEnvelope) (grant : option string) (t0 t1 : Z) :
  match verifyControlClaim e grant t0 t1 with
  | Throw _ => is_blank (env_to e) = true
  | Ok v =>
      is_blank (env_to e) = false /\ as_runId (cv_auditStep v) = env_to e /\
      (cv_allowed v = true <->
       cm_kind (env_claim e) = "control" /\
       exists verb required g, cm_capability (env_claim e) = Some verb /\
         (verb, required) ∈ CONTROL_VERB_REQUIRED_SCOPE /\ grant = Some g /\ scopeCovers g required = true)
  end.
Proof.
  unfold verifyControlClaim. cbv zeta.
  set (verb := default "" (cm_capability (env_claim e))).
  set (req := if isControlVerb verb then requiredScopeForControlVerb verb else None).
  set (covered := match grant, req with Some g, Some r => _ | _, _ => false end).
  set (c := mkControlCandidate _ _ _ _).
  assert (He : exists why, l_evaluate controllerControlScopeLens c = Ok (ResultObj (one_or_zero covered) (RatStr why)))
    by (by eexists).
  destruct He as [why He].
  pose proof (rule_battery_spec control_candidate_val (envelope_input e) c controllerControlScopeLens covered why
    (env_to e) CONTROLLER_CONTROL_ADR t0 t1 He eq_refl eq_refl eq_refl eq_refl eq_refl eq_refl) as Ht.
  specialize (Ht ltac:(by destruct c as [? [|] [|] ?])).
  destruct (runVerifierBattery _ _ _ _ _ _ _ _ _ _) as [d|]; [|done]. destruct Ht as (Hb & Hrun & Hacc).
  unfold mbind. cbn [result_bind cv_allowed cv_auditStep]. split_and!; [done..|]. rewrite Hacc.
  assert (Hreq : forall r, req = Some r <-> exists v, cm_capability (env_claim e) = Some v /\
      (v, r) ∈ CONTROL_VERB_REQUIRED_SCOPE).
  { intros r. setoid_rewrite verb_table. unfold req, verb. destruct (cm_capability (env_claim e)) as [v|]; cbn [default].
    - naive_solver.
    - split; [done|]. by intros (v & ? & _). }
  assert (Hknown : forall r, req = Some r -> isControlVerb verb = true) by (unfold req; intros r; by destruct (isControlVerb verb)).
  assert (Hkind : isControlClaimKind (cm_kind (env_claim e)) = true <-> cm_kind (env_claim e) = "control") by apply String.eqb_eq.
  unfold covered. destruct grant as [g|]; [|split; [done|naive_solver]]. destruct req as [r|] eqn:Er.
  - rewrite (Hknown r eq_refl), andb_true_r, andb_true_iff, Hkind. destruct (proj1 (Hreq r) eq_refl) as (v & Hv & Hin).
    split; [intros [? ?]; split; [done|]; by exists v, r, g|].
    intros (? & v' & r' & g' & Hv' & Hin' & [= <-] & Hs). split; [done|].
    assert (Some r = Some r') as [= <-]; [|done]. apply Hreq. by exists v'.
  - split; [done|]. intros (_ & v & r & g' & Hv & Hin & _). assert (None = Some r); [|done]. apply Hreq. by exists v.
Qed.
End Claims.

(** * Envelopes *)

(** Sorting keeps the fields. *)
Lemma sort_keys_field (o o' : list (string * jsval)) k : NoDup o.*1 -> NoDup o'.*1 ->
  sort_keys (JObj o) = sort_keys (JObj o') -> sort_keys (get_field k o) = sort_keys (get_field k o').
Proof.
  assert (H : forall x, NoDup x.*1 -> get_field k (own_order (sort_by key_cmp (map (fun kv => (kv.1, sort_keys kv.2)) x))) =
      sort_keys (get_field k x)).
  { intros x Hn. unfold get_field.
    assert (Hm : om_get k (map (fun kv => (kv.1, sort_keys kv.2)) x) = sort_keys <$> om_get k x).
    { clear. induction x as [|[k' v] x IH]; simpl; [done|]. by case_decide. }
    rewrite <- (om_get_perm (map (fun kv => (kv.1, sort_keys kv.2)) x)), Hm; [by destruct (om_get k x)| |].
    - rewrite <- list_fmap_compose. exact Hn.
    - by rewrite own_order_perm, sort_by_perm. }
  intros Hn Hn' E. cbn [sort_keys] in E. injection E as E. by rewrite <- (H o), <- (H o'), E.
Qed.

Definition opt_val (o : option string) : jsval := match o with Some s => JStr s | None => JUndef end.
Definition env_sentAt (e : TeammateEnvelope) : num := match e with V1 e => v1_sentAt e | V2 e => v2_sentAt e end.

Lemma claim_plain c : json_plain (claim_val c) = true.
Proof. by destruct c as [k [|]]. Qed.

Lemma env_plain e : safe_num (env_sentAt e) = true -> json_plain (JObj (env_fields e)) = true.
Proof.
  assert (Hplain : forall o, bool_decide (NoDup o.*1) = true -> bool_decide ((own_order o).*1 = o.*1) = true ->
    forallb (fun kv => json_plain kv.2) o = true -> json_plain (JObj o) = true)
    by (intros o H1 H2 H3; cbn [json_plain]; by rewrite H1, H2, H3).
  intros Hs. destruct e as [[? ? ? [|] ? ? ? ?]|[? ? ? ? [|] [|] ? ? ? ? [|] [|] [|] ?]]; cbn in Hs;
    (apply Hplain; [vm_compute; reflexivity|vm_compute; reflexivity|]); cbn -[safe_num claim_val];
    rewrite claim_plain, Hs; reflexivity.
Qed.

Lemma plain_safe v : json_plain v = true -> json_safe v = true.
Proof.
  induction v as [| | |x| | | | |l IH|l IH|] using jsval_ind_nested; cbn [json_plain json_safe]; try done.
  - intros (z & Hz & ->)%safe_num_int. by apply num_of_Z_safe.
  - rewrite !forallb_true_iff. rewrite Forall_forall in IH. auto.
  - rewrite !andb_true_iff, !forallb_true_iff. rewrite Forall_forall in IH. intros [[? _] ?]. auto.
Qed.

Section Envelope.
Context {HA : Hashing}.

Lemma signed_text e : safe_num (env_sentAt e) = true ->
  canonicalTeammateEnvelopeString e = Ok (rfcCanonicalize (JObj (env_fields e))).
Proof.
  intros Hs. unfold canonicalTeammateEnvelopeString, canonical, canonicalize.
  by rewrite preprocess_safe by (by apply plain_safe, env_plain).
Qed.

Lemma verified_iff e verify : (verifyTeammateEnvelopeSignature e verify).1 = true <->
  exists s text, env_sig e = Some s /\ s <> "" /\ canonicalTeammateEnvelopeString e = Ok text /\ verify text s = Ok true.
Proof.
  unfold verifyTeammateEnvelopeSignature. destruct (env_sig e) as [[|c s]|]; try (split; [done|naive_solver]).
  unfold mbind. destruct (canonicalTeammateEnvelopeString e) as [text|]; cbn [result_bind]; [|naive_solver].
  destruct (verify text (String c s)) as [[|]|] eqn:E; (split; [done|]) || (split; [|done]).
  - intros _. by exists (String c s), text.
  - intros (s' & t' & [= <-] & _ & [= <-] & Hv). congruence.
  - intros (s' & t' & [= <-] & _ & [= <-] & Hv). congruence.
Qed.

Lemma opt_val_inj a b : sort_keys (opt_val a) = sort_keys (opt_val b) -> a = b.
Proof. destruct a, b; cbn; congruence. Qed.

Lemma claim_inj c c' : sort_keys (claim_val c) = sort_keys (claim_val c') -> c = c'.
Proof.
  intros H. unfold claim_val in H.
  assert (Hn : forall d, NoDup ((("kind", JStr (cm_kind d)) :: opt_field "capability" (cm_capability d)).*1))
    by (intros [? [|]]; by apply (bool_decide_unpack _); vm_compute).
  pose proof (sort_keys_field _ _ "kind" (Hn c) (Hn c') H) as H1.
  pose proof (sort_keys_field _ _ "capability" (Hn c) (Hn c') H) as H2.
  destruct c as [k [x|]], c' as [k' [x'|]]; vm_compute in H1, H2; congruence.
Qed.

(** The fields by name, and the record they determine. *)
Definition field_val (e : TeammateEnvelope) (k : string) : jsval :=
  match e with
  | V1 e =>
      match k with
      | "v" => JNum num_one | "id" => JStr (v1_id e) | "fromRunId" => JStr (v1_fromRunId e)
      | "toRunId" => JStr (v1_toRunId e) | "replyTo" => opt_val (v1_replyTo e) | "sentAt" => JNum (v1_sentAt e)
      | "claim" => claim_val (v1_claim e) | "body" => JStr (v1_body e) | _ => JUndef
      end
  | V2 e =>
      match k with
      | "v" => JNum (num_of_Z 2) | "schemaVersion" => JStr (v2_schemaVersion e) | "id" => JStr (v2_id e)
      | "fromRunId" => JStr (v2_fromRunId e) | "toRunId" => JStr (v2_toRunId e)
      | "toSessionId" => opt_val (v2_toSessionId e) | "replyTo" => opt_val (v2_replyTo e)
      | "correlationId" => JStr (v2_correlationId e) | "sentAt" => JNum (v2_sentAt e)
      | "claim" => claim_val (v2_claim e) | "body" => JStr (v2_body e)
      | "fromInstallId" => opt_val (v2_fromInstallId e) | "toInstallId" => opt_val (v2_toInstallId e)
      | "steerId" => opt_val (v2_steerId e) | _ => JUndef
      end
  end.

Definition field_names : list string :=
  ["v"; "schemaVersion"; "id"; "fromRunId"; "toRunId"; "toSessionId"; "replyTo"; "correlationId"; "sentAt"; "claim"; "body";
   "fromInstallId"; "toInstallId"; "steerId"].

Lemma env_field e : Forall (fun k => get_field k (env_fields e) = field_val e k) field_names.
Proof.
  destruct e as [[? ? ? [|] ? ? ? ?]|[? ? ? ? [|] [|] ? ? ? ? [|] [|] [|] ?]]; unfold field_names;
    repeat (apply Forall_cons_2; [reflexivity|]); apply Forall_nil_2.
Qed.

Lemma env_fields_inj e e' : env_sig e = env_sig e' -> NoDup (env_fields e).*1 -> NoDup (env_fields e').*1 ->
  sort_keys (JObj (env_fields e)) = sort_keys (JObj (env_fields e')) -> e = e'.
Proof.
  intros Hsig Hn Hn' H.
  assert (Hk : Forall (fun k => sort_keys (field_val e k) = sort_keys (field_val e' k)) field_names).
  { pose proof (env_field e) as He. pose proof (env_field e') as He'. rewrite !Forall_forall in *. intros k Hin.
    rewrite <- He, <- He' by done. by apply sort_keys_field. }
  clear Hn Hn' H. unfold field_names in Hk. rewrite !Forall_cons in Hk. destruct e as [e|e], e' as [e'|e'].
  - cbn -[claim_val sort_keys] in Hk. destruct Hk as (_ & _ & H1 & H2 & H3 & _ & H4 & _ & H5 & H6 & H7 & _).
    apply opt_val_inj in H4. apply claim_inj in H6. cbn in H1, H2, H3, H5, H7, Hsig. destruct e, e'. cbn in *. by simplify_eq.
  - destruct Hk as (Hv & _). by vm_compute in Hv.
  - destruct Hk as (Hv & _). by vm_compute in Hv.
  - cbn -[claim_val sort_keys] in Hk.
    destruct Hk as (_ & H0 & H1 & H2 & H3 & H8 & H4 & H9 & H5 & H6 & H7 & H10 & H11 & H12 & _).
    apply opt_val_inj in H4, H8, H10, H11, H12. apply claim_inj in H6. cbn in H0, H1, H2, H3, H5, H7, H9, Hsig.
    destruct e, e'. cbn in *. by simplify_eq.
Qed.

(** C25: a signature binds the whole envelope: when two envelopes carry the same
    signature and both verify, they are the same in every field, version and
    claim included; so no field of a signed envelope can be changed, added or
    dropped, and a v1 signature never passes for a v2 envelope or conversely.
    Assumed: the RFC 8785 printer separates values that differ in more than key
    order, and a signature verifies for one text only. *)
Theorem teammate_signature_binds (e e' : TeammateEnvelope) (verify : string -> string -> result bool)
    (Hprint : forall a b, json_plain a = true -> json_plain b = true -> rfcCanonicalize a = rfcCanonicalize b ->
      sort_keys a = sort_keys b)
    (Hbind : forall m m' s, verify m s = Ok true -> verify m' s = Ok true -> m = m')
    (He : safe_num (env_sentAt e) = true) (He' : safe_num (env_sentAt e') = true)
    (Hsig : env_sig e = env_sig e')
    (Hv : (verifyTeammateEnvelopeSignature e verify).1 = true)
    (Hv' : (verifyTeammateEnvelopeSignature e' verify).1 = true) :
  e = e'.
Proof.
  apply verified_iff in Hv as (s & text & Es & _ & Et & V). apply verified_iff in Hv' as (s' & text' & Es' & _ & Et' & V').
  rewrite signed_text in Et by done. rewrite signed_text in Et' by done. injection Et as <-. injection Et' as <-.
  assert (s' = s) as -> by congruence. pose proof (env_plain e He) as P. pose proof (env_plain e' He') as P'.
  assert (Hn : forall x, json_plain (JObj x) = true -> NoDup x.*1)
    by (intros x; cbn [json_plain]; intros [[Hn%bool_decide_eq_true _]%andb_prop _]%andb_prop; done).
  apply env_fields_inj; [done|by apply Hn|by apply Hn|]. apply Hprint; [done..|]. by eapply Hbind.
Qed.
End Envelope.

(** * Building *)

(** What a sender may ask to have signed. *)
Definition valid_input (i : BuildTeammateEnvelopeInput) : Prop :=
  is_blank (bi_id i) = false /\ is_blank (bi_fromRunId i) = false /\ is_blank (bi_toRunId i) = false /\
  cm_kind (bi_claim i) ∈ RECOGNIZED_CLAIM_KINDS /\ utf8_length (bi_body i) <= MAX_TEAMMATE_BODY_BYTES.

Lemma guard_then c e (m : result unit) : (_ ← throw_if c e; m) = Ok tt <-> c = false /\ m = Ok tt.
Proof. destruct c; cbn; naive_solver. Qed.

Lemma validate_iff i : validateEnvelopeCore i = Ok tt <-> valid_input i.
Proof.
  unfold validateEnvelopeCore, assertNonEmpty, valid_input, isRecognizedClaimKind.
  by rewrite !guard_then, throw_if_ok, negb_false_iff, bool_decide_eq_true, Z.ltb_ge.
Qed.

Lemma validate2_iff i2 : (_ ← validateEnvelopeCore (b2_core i2); assertNonEmpty (b2_correlationId i2) "correlationId") = Ok tt <->
  valid_input (b2_core i2) /\ is_blank (b2_correlationId i2) = false.
Proof.
  rewrite <- validate_iff, result_bind_ok. unfold assertNonEmpty. setoid_rewrite throw_if_ok.
  split; [by intros ([] & ? & ?)|intros [? ?]; by exists tt].
Qed.

Section Build.
Context {HA : Hashing} {W : Type} (now : W -> W * num) (sign : string -> result string).

(** The two builders share their shape. *)
Lemma built_envelope (valid : result unit) (P : Prop) (core : num -> TeammateEnvelope) (w : W)
    (verify : string -> string -> result bool)
    (Hscheme : forall m s, sign m = Ok s -> s <> "" /\ verify m s = Ok true) :
  (valid = Ok tt <-> P) -> (forall t, env_sig (core t) = None) ->
  match (match valid with Throw e => (w, Throw e) | Ok _ => let '(w, t) := now w in (w, sign_envelope sign (core t)) end) with
  | (w', Ok e) => P /\ w' = (now w).1 /\
      (exists s, e = with_env_sig s (core (now w).2)) /\ (verifyTeammateEnvelopeSignature e verify).1 = true
  | (w', Throw _) => ~ P -> w' = w
  end.
Proof.
  intros HP Hcore. destruct valid as [[]|err]; [|done]. assert P by (by apply HP). destruct (now w) as [w' t]. unfold sign_envelope.
  destruct (canonicalTeammateEnvelopeString (core t)) as [text|] eqn:Et; unfold mbind; cbn [result_bind]; [|done].
  destruct (sign text) as [s|] eqn:Es; cbn [result_bind fst snd]; [|done]. destruct (Hscheme text s Es) as [Hne Hv].
  split_and!; [done|done|by exists s|]. apply verified_iff. exists s, text.
  split; [by destruct (core t)|]. split; [done|]. split; [|done]. by destruct (core t).
Qed.

(** What is built verifies: with a scheme that verifies its own signatures,
    an envelope that either builder returns was asked for with valid fields and a
    body within bounds, carries those fields and one reading of the clock, and
    verifies; a request that is refused as invalid leaves the clock unread. *)
Theorem built_envelopes_verify (i : BuildTeammateEnvelopeInput) (i2 : BuildTeammateEnvelopeV2Input) (w : W)
    (verify : string -> string -> result bool)
    (Hscheme : forall m s, sign m = Ok s -> s <> "" /\ verify m s = Ok true) :
  match buildTeammateEnvelope now sign i w with
  | (w', Ok e) => valid_input i /\ w' = (now w).1 /\
      (exists s, e = V1 (mkV1 (bi_id i) (bi_fromRunId i) (bi_toRunId i) (bi_replyTo i) (now w).2 (bi_claim i)
         (bi_body i) (Some s))) /\ (verifyTeammateEnvelopeSignature e verify).1 = true
  | (w', Throw _) => ~ valid_input i -> w' = w
  end /\
  match buildTeammateEnvelopeV2 now sign i2 w with
  | (w', Ok e) => (valid_input (b2_core i2) /\ is_blank (b2_correlationId i2) = false) /\ w' = (now w).1 /\
      (exists s, e = V2 (mkV2 TEAMMATE_ENVELOPE_SCHEMA_VERSION_V2 (bi_id (b2_core i2)) (bi_fromRunId (b2_core i2))
         (bi_toRunId (b2_core i2)) (b2_toSessionId i2) (bi_replyTo (b2_core i2)) (b2_correlationId i2) (now w).2
         (bi_claim (b2_core i2)) (bi_body (b2_core i2)) (b2_fromInstallId i2) (b2_toInstallId i2) (b2_steerId i2)
         (Some s))) /\ (verifyTeammateEnvelopeSignature e verify).1 = true
  | (w', Throw _) => ~ (valid_input (b2_core i2) /\ is_blank (b2_correlationId i2) = false) -> w' = w
  end.
Proof.
  split.
  - exact (built_envelope (validateEnvelopeCore i) (valid_input i) (fun t => V1 (mkV1 (bi_id i) (bi_fromRunId i)
      (bi_toRunId i) (bi_replyTo i) t (bi_claim i) (bi_body i) None)) w verify Hscheme (validate_iff i) (fun _ => eq_refl)).
  - exact (built_envelope _ _ (fun t => V2 (mkV2 TEAMMATE_ENVELOPE_SCHEMA_VERSION_V2 (bi_id (b2_core i2))
      (bi_fromRunId (b2_core i2)) (bi_toRunId (b2_core i2)) (b2_toSessionId i2) (bi_replyTo (b2_core i2))
      (b2_correlationId i2) t (bi_claim (b2_core i2)) (bi_body (b2_core i2)) (b2_fromInstallId i2) (b2_toInstallId i2)
      (b2_steerId i2) None)) w verify Hscheme (validate2_iff i2) (fun _ => eq_refl)).
Qed.
End Build.
