(* ===== verification/TeamActionProps.v ===== *)
(** Team-action parsers accept exactly the bodies of well-formed requests, and
    say nothing of the content of the others; then a concrete printer and
    signature scheme, the parity of control verbs with the routes of the server,
    and runs that surprise. *)

From S2P Require Import Prelude JsNum JsValue Canonical Battery Delegation Json NumText.
From S2P Require Import JsonParse TokenBase SubToken RemoteServer Teammate TeammateProps.
From Stdlib Require Import SpecFloat Ascii.

(** * What JSON.parse can return *)

(** No [undefined], no key twice. *)
Fixpoint json_value (v : jsval) : bool :=
  match v with
  | JNull | JBool _ | JNum _ | JStr _ => true
  | JArr l => forallb json_value l
  | JObj l => bool_decide (NoDup l.*1) && forallb (fun kv => json_value kv.2) l
  | _ => false
  end.

Lemma set_all_values (l o : list (string * jsval)) :
  NoDup o.*1 -> forallb (fun kv => json_value kv.2) o = true -> forallb (fun kv => json_value kv.2) l = true ->
  let r := fold_left (fun o kv => om_set kv.1 kv.2 o) l o in
  NoDup r.*1 /\ forallb (fun kv => json_value kv.2) r = true.
Proof.
  revert o. induction l as [|[k v] l IH]; intros o Hn Ho Hl; [done|]. cbn [forallb] in Hl.
  apply andb_prop in Hl as [Hv Hl]. cbn [snd] in Hv. apply IH; [by apply om_set_NoDup| |done].
  cbn [fst snd]. clear -Ho Hv. induction o as [|[k' v'] o IH]; simpl; [by rewrite Hv|]. simpl in Ho.
  apply andb_prop in Ho as [H' Ho]. case_decide; simpl; [by rewrite Hv, Ho|by rewrite H', IH].
Qed.

Lemma object_of_value l : forallb (fun kv => json_value kv.2) l = true -> json_value (object_of l) = true.
Proof.
  intros Hl. destruct (set_all_values l [] (NoDup_nil_2) eq_refl Hl) as [Hn Hv]. unfold object_of. cbn [json_value].
  set (r := fold_left _ l []) in *. pose proof (own_order_perm r) as Hp. apply andb_true_intro. split.
  - apply bool_decide_eq_true. by rewrite Hp.
  - apply forallb_true_iff. rewrite forallb_true_iff in Hv. intros x Hx. apply Hv. by rewrite <- Hp.
Qed.

(** A character that is none of those a [match] names. *)
Ltac other_char c := by destruct c as [[] [] [] [] [] [] [] []].

Lemma literal_value lit s v r x : literal lit s v = Some (x, r) -> x = v.
Proof. unfold literal. by destruct (starts_with lit s); intros [= <- _]. Qed.

Section Parsed.
Context (fuel : nat).
Hypothesis Hvalue : forall s v r, parse_value fuel s = Some (v, r) -> json_value v = true.
Hypothesis Hitems : forall s l r, parse_items fuel s = Some (l, r) -> forallb json_value l = true.
Hypothesis Hfields : forall s l r, parse_fields fuel s = Some (l, r) -> forallb (fun kv => json_value kv.2) l = true.

Lemma parsed_array s v r :
  (p ← parse_items fuel s; let '(l, r) := p in Some (JArr l, r)) = Some (v, r) -> json_value v = true.
Proof.
  destruct (parse_items fuel s) as [[l r']|] eqn:E; cbn; [|done]. intros [= <- _]. by eapply Hitems.
Qed.

Lemma parsed_object s v r :
  (p ← parse_fields fuel s; let '(l, r) := p in Some (object_of l, r)) = Some (v, r) -> json_value v = true.
Proof.
  destruct (parse_fields fuel s) as [[l r']|] eqn:E; cbn; [|done]. intros [= <- _].
  by eapply object_of_value, Hfields.
Qed.

Lemma parsed_number s v r :
  (p ← read_number s; let '(x, r) := p in Some (JNum x, r)) = Some (v, r) -> json_value v = true.
Proof. destruct (read_number s) as [[x r']|]; cbn; [|done]. by intros [= <- _]. Qed.

Lemma parsed_value s v r : parse_value (S fuel) s = Some (v, r) -> json_value v = true.
Proof.
  intros H. cbn [parse_value] in H. destruct (skip_ws s) as [|c s1]; [done|].
  destruct (decide (c = "034"%char)) as [->|?].
  { destruct (read_string s1) as [[t r']|]; cbn in H; [by injection H as <- _|done]. }
  destruct (decide (c = "["%char)) as [->|?].
  { destruct (skip_ws s1) as [|c2 s2]; [by eapply parsed_array|].
    destruct (decide (c2 = "]"%char)) as [->|?]; [by injection H as <- _|].
    eapply (parsed_array s1 v r). other_char c2. }
  destruct (decide (c = "{"%char)) as [->|?].
  { destruct (skip_ws s1) as [|c2 s2]; [by eapply parsed_object|].
    destruct (decide (c2 = "}"%char)) as [->|?]; [by injection H as <- _|].
    eapply (parsed_object s1 v r). other_char c2. }
  destruct (decide (c = "t"%char)) as [->|?]; [by apply literal_value in H as ->|].
  destruct (decide (c = "f"%char)) as [->|?]; [by apply literal_value in H as ->|].
  destruct (decide (c = "n"%char)) as [->|?]; [by apply literal_value in H as ->|].
  apply (parsed_number (String c s1) v r). other_char c.
Qed.

Lemma parsed_items s l r : parse_items (S fuel) s = Some (l, r) -> forallb json_value l = true.
Proof.
  intros H. cbn [parse_items] in H. destruct (parse_value fuel s) as [[v r1]|] eqn:Ev; cbn in H; [|done].
  apply Hvalue in Ev. destruct (skip_ws r1) as [|c r2]; [done|].
  destruct (decide (c = "]"%char)) as [->|?]; [injection H as <- _; cbn; by rewrite Ev|].
  destruct (decide (c = ","%char)) as [->|?]; [|other_char c].
  destruct (parse_items fuel r2) as [[l' r3]|] eqn:Ei; cbn in H; [|done]. injection H as <- _.
  cbn. by rewrite Ev, (Hitems _ _ _ Ei).
Qed.

Lemma parsed_fields s l r : parse_fields (S fuel) s = Some (l, r) -> forallb (fun kv => json_value kv.2) l = true.
Proof.
  intros H. cbn [parse_fields] in H. destruct (skip_ws s) as [|c s1]; [done|].
  destruct (decide (c = "034"%char)) as [->|?]; [|other_char c].
  destruct (read_string s1) as [[k r1]|]; cbn in H; [|done]. destruct (skip_ws r1) as [|c r2]; [done|].
  destruct (decide (c = ":"%char)) as [->|?]; [|other_char c].
  destruct (parse_value fuel r2) as [[v r3]|] eqn:Ev; cbn in H; [|done]. apply Hvalue in Ev.
  destruct (skip_ws r3) as [|c r4]; [done|].
  destruct (decide (c = "}"%char)) as [->|?]; [injection H as <- _; cbn; by rewrite Ev|].
  destruct (decide (c = ","%char)) as [->|?]; [|other_char c].
  destruct (parse_fields fuel r4) as [[l' r5]|] eqn:Ei; cbn in H; [|done]. injection H as <- _.
  cbn. by rewrite Ev, (Hfields _ _ _ Ei).
Qed.
End Parsed.

Lemma parse_values fuel :
  (forall s v r, parse_value fuel s = Some (v, r) -> json_value v = true) /\
  (forall s l r, parse_items fuel s = Some (l, r) -> forallb json_value l = true) /\
  (forall s l r, parse_fields fuel s = Some (l, r) -> forallb (fun kv => json_value kv.2) l = true).
Proof.
  induction fuel as [|fuel (IHv & IHi & IHf)]; [done|].
  split_and!; intros s v r H; [by eapply parsed_value|by eapply parsed_items|by eapply parsed_fields].
Qed.

Lemma json_parse_value s v : json_parse s = Ok v -> json_value v = true.
Proof.
  unfold json_parse. destruct (parse_value _ s) as [[v' r]|] eqn:E; [|done].
  destruct (skip_ws r); [intros [= <-]|done]. by eapply parse_values.
Qed.

(** * Requests as bodies *)

Definition opt_str_field (k : string) (o : option string) : list (string * jsval) :=
  match o with Some s => [(k, JStr s)] | None => [] end.
Definition grant_val (g : tool_grant) : jsval :=
  JObj match g with Some tools => [("tools", JArr (map JStr tools))] | None => [] end.
Definition grant_field (g : option tool_grant) : list (string * jsval) :=
  match g with Some g => [("grant", grant_val g)] | None => [] end.
Definition branch_val (task : string) : jsval := JObj [("task", JStr task)].

Definition request_fields (r : TeamActionRequest) : list (string * jsval) :=
  match r with
  | TeamListRequest filter => opt_str_field "filter" filter
  | TeamSendRequest toTarget kind body => [("toTarget", JStr toTarget); ("kind", JStr kind); ("body", JStr body)]
  | TeamDelegateRequest task grant => [("task", JStr task)] ++ grant_field grant
  | TeamCoordinateRequest branches => [("branches", JArr (map branch_val branches))]
  | TeamStartRequest origin task name repo grant =>
      [("origin", JStr origin); ("task", JStr task)] ++ opt_str_field "name" name ++ opt_str_field "repo" repo ++
      grant_field grant
  end.

Definition request_verb (r : TeamActionRequest) : TeamActionVerb :=
  match r with
  | TeamListRequest _ => team_list | TeamSendRequest _ _ _ => team_send | TeamDelegateRequest _ _ => delegate
  | TeamCoordinateRequest _ => coordinate | TeamStartRequest _ _ _ _ _ => start
  end.

Definition filled (s : string) : Prop := is_blank s = false.
Definition filled_opt (o : option string) : Prop := match o with Some s => filled s | None => True end.
Definition filled_tools (g : tool_grant) : Prop := match g with Some l => Forall filled l | None => True end.
Definition filled_grant (g : option tool_grant) : Prop := match g with Some g => filled_tools g | None => True end.

(** What a host may rely on. *)
Definition well_formed (r : TeamActionRequest) : Prop :=
  match r with
  | TeamListRequest filter => filled_opt filter
  | TeamSendRequest toTarget kind body => filled toTarget /\ (kind = "ask" \/ kind = "inform") /\ filled body
  | TeamDelegateRequest task grant => filled task /\ filled_grant grant
  | TeamCoordinateRequest branches => branches <> [] /\ Forall filled branches
  | TeamStartRequest origin task name repo grant =>
      origin ∈ ALL_SESSION_ORIGIN_KINDS /\ filled task /\ filled_opt name /\ filled_opt repo /\ filled_grant grant
  end.

(** ** Objects by their fields *)

Lemma undef_or v : v = JUndef \/ v <> JUndef. Proof. destruct v; auto. Qed.

Definition json_fields_ok (o : list (string * jsval)) : Prop :=
  NoDup o.*1 /\ forallb (fun kv => json_value kv.2) o = true.

Lemma field_value o k : json_fields_ok o -> get_field k o = JUndef \/ json_value (get_field k o) = true.
Proof.
  intros [_ Hv]. unfold get_field. destruct (om_get k o) eqn:E; [right|by left]. apply om_get_Some_in in E.
  rewrite forallb_true_iff in Hv. exact (Hv _ E).
Qed.

Lemma field_present o k : json_fields_ok o -> get_field k o <> JUndef <-> k ∈ o.*1.
Proof.
  intros Ho. rewrite <- om_get_is_Some. destruct (field_value o k Ho) as [E|Hv].
  - split; [done|]. unfold get_field in E. intros [v Hk]. rewrite Hk in E. simpl in E. subst v.
    apply om_get_Some_in in Hk. destruct Ho as [_ Hv]. rewrite forallb_true_iff in Hv. by specialize (Hv _ Hk).
  - unfold get_field in *. destruct (om_get k o); [|done]. split; [by eexists|]. intros _ E. simpl in *. by subst.
Qed.

Lemma reject_ok o allowed v : rejectUnexpectedKeys o allowed v = Ok tt <-> forall k, k ∈ o.*1 -> k ∈ allowed.
Proof.
  induction o as [|[k x] o IH]; simpl; [split; [intros _ k Hk; by apply elem_of_nil in Hk|done]|].
  case_bool_decide as Hk.
  - rewrite IH. split; [intros H k' [->|?]%elem_of_cons; auto|intros H k' ?; apply H; by right].
  - split; [done|]. intros H. exfalso. apply Hk, H. by left.
Qed.

(** An object with no unexpected key has the fields of [f] exactly when the
    allowed ones agree. *)
Lemma fields_agree o f allowed v : json_fields_ok o -> (forall k, k ∈ f.*1 -> k ∈ allowed) ->
  (forall k, get_field k o = get_field k f) <->
  rejectUnexpectedKeys o allowed v = Ok tt /\ forall k, k ∈ allowed -> get_field k o = get_field k f.
Proof.
  intros Ho Hf. assert (Hout : forall k, k ∉ allowed -> get_field k f = JUndef).
  { intros k Hk. unfold get_field. destruct (om_get k f) eqn:E; [|done]. exfalso.
    apply Hk, Hf. apply om_get_is_Some. by eexists. }
  rewrite reject_ok. split.
  - intros H. split; [|auto]. intros k Hk. apply (field_present o k Ho) in Hk. rewrite H in Hk.
    destruct (decide (k ∈ allowed)) as [|Hn]; [done|]. by destruct (Hk (Hout k Hn)).
  - intros [H1 H2] k. destruct (decide (k ∈ allowed)) as [|Hn]; [auto|]. rewrite (Hout k Hn).
    destruct (undef_or (get_field k o)) as [|Hk]; [done|]. by destruct (Hn (H1 k (proj1 (field_present o k Ho) Hk))).
Qed.

(** ** Fields *)

Definition opt_val (o : option string) : jsval := match o with Some s => JStr s | None => JUndef end.
Definition opt_grant_val (g : option tool_grant) : jsval := match g with Some g => grant_val g | None => JUndef end.

Lemma required_iff v verb why s : required_string v verb why = Ok s <-> v = JStr s /\ filled s.
Proof.
  unfold required_string, isNonBlankString, filled. destruct v as [| | | |t| | | | | |]; try (split; [done|by intros [[=] _]]).
  destruct (is_blank t) eqn:E; (split; [intros [= <-]|intros [[= ->] Hs]]); congruence || done.
Qed.

Lemma optional_iff v verb why o : optional_string v verb why = Ok o <-> v = opt_val o /\ filled_opt o.
Proof.
  assert (H : forall v', (s ← required_string v' verb why; Ok (Some s)) = Ok o <-> exists s, v' = JStr s /\ filled s /\ o = Some s).
  { intros v'. rewrite result_bind_ok. split.
    - intros (s & [-> ?]%required_iff & [= <-]). by exists s.
    - intros (s & -> & ? & ->). exists s. by rewrite required_iff. }
  unfold optional_string. destruct v; try (rewrite H; destruct o; naive_solver).
  destruct o; naive_solver.
Qed.

Lemma tools_iff l verb ts : parse_tools l verb = Ok ts <-> l = map JStr ts /\ Forall filled ts.
Proof.
  revert ts. induction l as [|v l IH]; intros ts; cbn [parse_tools].
  - destruct ts; [|naive_solver]. split; [done|]. by intros _.
  - rewrite result_bind_ok. setoid_rewrite result_bind_ok. setoid_rewrite required_iff. setoid_rewrite IH. split.
    + intros (s & [-> ?] & ts' & [-> ?] & [= <-]). split; [done|by constructor].
    + destruct ts as [|s ts]; [by intros [[=] _]|]. intros [[= -> ->] [? ?]%Forall_cons]. by exists s; split; [|exists ts].
Qed.

(** The objects with at most one, known key. *)
Lemma one_key o k : json_fields_ok o -> (forall k', k' ∈ o.*1 -> k' ∈ [k]) ->
  o = match get_field k o with JUndef => [] | v => [(k, v)] end.
Proof.
  intros [Hn Hv] Hk. destruct o as [|[k1 v1] o]; [done|].
  assert (k1 = k) as -> by (by apply list_elem_of_singleton, Hk; left).
  destruct o as [|[k2 v2] o].
  - unfold get_field. simpl. rewrite decide_True by done. simpl in *. by destruct v1.
  - exfalso. assert (k2 = k) as -> by (apply list_elem_of_singleton, Hk; right; by left).
    cbn in Hn. apply NoDup_cons in Hn as [Hn _]. apply Hn. by left.
Qed.

Lemma value_fields o : json_value (JObj o) = true -> json_fields_ok o.
Proof. cbn [json_value]. intros [Hn%bool_decide_eq_true Hv]%andb_prop. by split. Qed.

Lemma grant_iff v verb g : json_value v = true ->
  parseToolGrant v verb = Ok g <-> v = grant_val g /\ filled_tools g.
Proof.
  intros Hv. unfold parseToolGrant, grant_val. destruct v as [| | | | | | | |l|o|]; try naive_solver.
  apply value_fields in Hv. rewrite result_bind_ok. split.
  - intros ([] & Hk & H). rewrite reject_ok in Hk. pose proof (one_key o "tools" Hv Hk) as Ho.
    destruct (get_field "tools" o) as [| | | | | | | |l|l|] eqn:E; try done.
    + injection H as <-. by rewrite Ho.
    + apply result_bind_ok in H as (ts & [-> Hf]%tools_iff & [= <-]). by rewrite Ho.
  - intros [[= ->] Hf]. exists tt. destruct g as [ts|]; [|done]. split; [done|].
    change (get_field "tools" [("tools", JArr (map JStr ts))]) with (JArr (map JStr ts)). cbv iota.
    apply result_bind_ok. exists ts. by rewrite tools_iff.
Qed.

Lemma optional_grant_iff v verb g : (v = JUndef \/ json_value v = true) ->
  optional_grant v verb = Ok g <-> v = opt_grant_val g /\ filled_grant g.
Proof.
  intros Hv. destruct (undef_or v) as [->|Hne].
  - cbn. destruct g; naive_solver.
  - destruct Hv as [|Hv]; [done|].
    assert (E : optional_grant v verb = (g ← parseToolGrant v verb; Ok (Some g))) by (by destruct v).
    rewrite E, result_bind_ok. split.
    + intros (g' & [-> ?]%grant_iff & [= <-]); [by split|done].
    + destruct g as [g|]; [|by intros [? _]]. intros [-> Hf]. exists g. by rewrite grant_iff.
Qed.

Lemma branch_iff i v s : json_value v = true -> decode_branch i v = Ok s <-> v = branch_val s /\ filled s.
Proof.
  intros Hv. unfold decode_branch, branch_val. destruct v as [| | | | | | | |l|o|]; try (split; [done|by intros [[=] _]]).
  apply value_fields in Hv. rewrite result_bind_ok. split.
  - intros ([] & Hk & [E ?]%required_iff). rewrite reject_ok in Hk.
    pose proof (one_key o "task" Hv Hk) as Ho. rewrite E in Ho. by rewrite Ho.
  - intros [[= ->] Hs]. exists tt. split; [done|]. by apply required_iff.
Qed.

Lemma branches_iff i l bs : forallb json_value l = true ->
  decode_branches i l = Ok bs <-> l = map branch_val bs /\ Forall filled bs.
Proof.
  revert i bs. induction l as [|v l IH]; intros i bs Hl; cbn [decode_branches].
  - destruct bs; [|naive_solver]. split; [done|]. by intros _.
  - cbn [forallb] in Hl. apply andb_prop in Hl as [Hv Hl]. rewrite result_bind_ok. split.
    + intros (s & [-> Hs]%branch_iff & H); [|done]. apply result_bind_ok in H as (rest & H & [= <-]).
      apply IH in H as [-> ?]; [|done]. split; [done|by constructor].
    + destruct bs as [|s bs]; [by intros [[=] _]|]. cbn [map]. intros [[= -> ->] [? ?]%Forall_cons].
      exists s. split; [by apply branch_iff|]. apply result_bind_ok. exists bs. split; [by apply IH|done].
Qed.

(** ** Each parser *)

Section Decode.
Context (o : list (string * jsval)) (Ho : json_fields_ok o).

Notation agree f := (forall k, get_field k o = get_field k f).

(** The fields of a body of known keys, one by one. *)
Lemma agree_iff f allowed verb : (forall k, k ∈ f.*1 -> k ∈ allowed) ->
  agree f <-> rejectUnexpectedKeys o allowed verb = Ok tt /\ Forall (fun k => get_field k o = get_field k f) allowed.
Proof. intros Hf. rewrite (fields_agree o f allowed verb Ho Hf), Forall_forall. done. Qed.

Ltac known_keys :=
  unfold opt_str_field, grant_field; repeat case_match; let H := fresh in intros ? H; clear -H; set_solver.
Ltac by_fields allowed verb := rewrite (agree_iff _ allowed verb) by known_keys; rewrite !Forall_cons, Forall_nil.

Lemma list_iff r :
  decode_list o = Ok r <-> request_verb r = team_list /\ well_formed r /\ agree (request_fields r).
Proof.
  unfold decode_list. rewrite result_bind_ok. setoid_rewrite result_bind_ok. setoid_rewrite optional_iff. split.
  - intros ([] & Hk & f & [Hf Hw] & [= <-]). split_and!; [done..|]. cbn [request_fields].
    by_fields ["filter"] team_list. rewrite Hf. by destruct f.
  - intros (Hv & Hw & Ha). destruct r as [f| | | |]; try done. cbn [request_fields] in Ha.
    revert Ha. by_fields ["filter"] team_list. intros (Hk & Hf & _). exists tt. split; [done|]. exists f.
    rewrite Hf. split_and!; [by destruct f|done..].
Qed.

Lemma send_iff r :
  decode_send o = Ok r <-> request_verb r = team_send /\ well_formed r /\ agree (request_fields r).
Proof.
  unfold decode_send. rewrite result_bind_ok. setoid_rewrite result_bind_ok. setoid_rewrite required_iff.
  setoid_rewrite result_bind_ok. setoid_rewrite result_bind_ok. setoid_rewrite required_iff. split.
  - intros ([] & Hk & a & [Ha ?] & [] & Hkind & b & [Hb ?] & [= <-]). apply throw_if_ok in Hkind.
    assert (E : get_field "kind" o = JStr (if is_str "ask" (get_field "kind" o) then "ask" else "inform")).
    { clear -Hkind. destruct (get_field "kind" o) as [| | | |s| | | | | |]; cbn in Hkind |- *; try discriminate.
      destruct (String.eqb_spec s "ask") as [E|]; [by rewrite E|].
      destruct (String.eqb_spec s "inform") as [E|]; [by rewrite E|done]. }
    split_and!; [done|cbn; split_and!; [done|by destruct (is_str _ _); auto|done]|]. cbn [request_fields].
    by_fields ["toTarget"; "kind"; "body"] team_send. by rewrite Ha, Hb, <- E.
  - intros (Hv & Hw & Ha). destruct r as [|a kind b| | |]; try done. destruct Hw as (? & Hkind & ?).
    cbn [request_fields] in Ha.
    revert Ha. by_fields ["toTarget"; "kind"; "body"] team_send. intros (Hk & Ha & Hf & Hb & _).
    exists tt. split; [done|]. exists a. split; [done|]. exists tt. rewrite Hf. split; [by destruct Hkind as [-> | ->]|].
    exists b. split; [done|]. by destruct Hkind as [-> | ->].
Qed.

Lemma delegate_iff r :
  decode_delegate o = Ok r <-> request_verb r = delegate /\ well_formed r /\ agree (request_fields r).
Proof.
  unfold decode_delegate. rewrite result_bind_ok. setoid_rewrite result_bind_ok. setoid_rewrite required_iff.
  setoid_rewrite result_bind_ok. setoid_rewrite (fun g => optional_grant_iff _ delegate g (field_value o "grant" Ho)).
  split.
  - intros ([] & Hk & t & [Ht ?] & g & [Hg ?] & [= <-]). split_and!; [done..|]. cbn [request_fields].
    by_fields ["task"; "grant"] delegate. rewrite Ht, Hg. by destruct g.
  - intros (Hv & Hw & Ha). destruct r as [| |t g| |]; try done. destruct Hw as (? & ?). cbn [request_fields] in Ha.
    revert Ha. by_fields ["task"; "grant"] delegate. intros (Hk & Ht & Hg & _). exists tt. split; [done|].
    exists t. split; [done|]. exists g. rewrite Hg. split_and!; [by destruct g|done..].
Qed.

Lemma coordinate_iff r :
  decode_coordinate o = Ok r <-> request_verb r = coordinate /\ well_formed r /\ agree (request_fields r).
Proof.
  unfold decode_coordinate. rewrite result_bind_ok. split.
  - intros ([] & Hk & H). destruct (get_field "branches" o) as [| | | | | | | |l| |] eqn:E; try done.
    destruct l as [|v l]; [done|]. apply result_bind_ok in H as (bs & Hb & [= <-]).
    destruct (field_value o "branches" Ho) as [E'|Hv]; [congruence|]. rewrite E in Hv.
    apply branches_iff in Hb as [Hl Hb]; [|done]. split_and!; [done|split; [by destruct bs|done]|].
    cbn [request_fields]. by_fields ["branches"] coordinate. by rewrite E, Hl.
  - intros (Hv & Hw & Ha). destruct r as [| | |bs|]; try done. destruct Hw as [Hne Hb]. cbn [request_fields] in Ha.
    revert Ha. by_fields ["branches"] coordinate. intros (Hk & Hf & _). exists tt. split; [done|].
    rewrite Hf. change (get_field "branches" [("branches", JArr (map branch_val bs))]) with (JArr (map branch_val bs)).
    destruct bs as [|b bs]; [done|]. cbn [map]. apply result_bind_ok. exists (b :: bs). split; [|done].
    apply (branches_iff 0 (map branch_val (b :: bs))); [|done]. clear. induction (b :: bs); [done|by simpl].
Qed.

Lemma start_iff r :
  decode_start o = Ok r <-> request_verb r = start /\ well_formed r /\ agree (request_fields r).
Proof.
  unfold decode_start. rewrite result_bind_ok. setoid_rewrite result_bind_ok. setoid_rewrite result_bind_ok.
  setoid_rewrite required_iff. setoid_rewrite result_bind_ok. setoid_rewrite optional_iff.
  setoid_rewrite result_bind_ok. setoid_rewrite optional_iff.
  setoid_rewrite result_bind_ok. setoid_rewrite (fun g => optional_grant_iff _ start g (field_value o "grant" Ho)).
  split.
  - intros ([] & Hk & origin & Horg & t & [Ht ?] & nm & [Hn ?] & rp & [Hr ?] & g & [Hg ?] & [= <-]).
    assert (Hs : get_field "origin" o = JStr origin /\ origin ∈ ALL_SESSION_ORIGIN_KINDS).
    { destruct (get_field "origin" o) as [| | | |s| | | | | |]; try done. unfold isSessionOriginKind in Horg.
      case_bool_decide; [by injection Horg as <-|done]. }
    destruct Hs as [Hs ?]. split_and!; [done..|]. cbn [request_fields].
    by_fields ["origin"; "task"; "name"; "repo"; "grant"] start. rewrite Hs, Ht, Hn, Hr, Hg.
    by destruct nm, rp, g.
  - intros (Hv & Hw & Ha). destruct r as [| | | |origin t nm rp g]; try done. destruct Hw as (? & ? & ? & ? & ?).
    cbn [request_fields] in Ha. revert Ha. by_fields ["origin"; "task"; "name"; "repo"; "grant"] start.
    intros (Hk & Hs & Ht & Hn & Hr & Hg & _). exists tt. split; [done|]. exists origin.
    change (get_field "origin" o = JStr origin) in Hs. rewrite Hs.
    assert (E : isSessionOriginKind origin = true) by (by apply bool_decide_eq_true).
    split; [by rewrite E|]. exists t. split; [done|].
    exists nm. rewrite Hn. split; [by destruct nm, rp, g|]. exists rp. rewrite Hr. split; [by destruct nm, rp, g|].
    exists g. rewrite Hg. split_and!; [by destruct nm, rp, g|done..].
Qed.
End Decode.

(** * The dispatcher *)

Lemma decode_iff (verb : TeamActionVerb) (o : list (string * jsval)) (Ho : json_fields_ok o) r :
  match verb with
  | team_list => decode_list o | team_send => decode_send o | delegate => decode_delegate o
  | coordinate => decode_coordinate o | start => decode_start o
  end = Ok r <->
  request_verb r = verb /\ well_formed r /\ (forall k, get_field k o = get_field k (request_fields r)).
Proof.
  destruct verb; [by apply list_iff|by apply send_iff|by apply delegate_iff|by apply coordinate_iff|by apply start_iff].
Qed.

Lemma parse_object_ok raw verb o :
  parseTeamBodyObject raw verb = Ok o <-> json_parse raw = Ok (JObj o).
Proof. unfold parseTeamBodyObject. destruct (json_parse raw) as [[]|]; naive_solver. Qed.

Lemma parsed_fields_ok raw o : json_parse raw = Ok (JObj o) -> json_fields_ok o.
Proof. intros H. by apply value_fields, (json_parse_value raw). Qed.

Lemma through_object raw verb (decode : list (string * jsval) -> result TeamActionRequest) r (P : list (string * jsval) -> Prop) :
  (forall o, json_fields_ok o -> decode o = Ok r <-> P o) ->
  (o ← parseTeamBodyObject raw verb; decode o) = Ok r <-> exists o, json_parse raw = Ok (JObj o) /\ P o.
Proof.
  intros Hd. rewrite result_bind_ok. split; intros (o & Hp & H); exists o; [rewrite parse_object_ok in Hp|rewrite parse_object_ok];
    (split; [done|]); apply (Hd o); try done; by eapply parsed_fields_ok.
Qed.

(** A team-action body is accepted exactly when it should be: the parser of
    a verb returns a request if and only if the text is JSON, an object, and has
    the fields of that request and no others, the request being well-formed and
    of that verb: its strings are not blank, its kind, origin and lists are as
    documented.  The one exception is a blank body, which lists the team. *)
Theorem team_body_decides (verb : TeamActionVerb) (raw : string) (r : TeamActionRequest) :
  parseTeamActionBody verb raw = Ok r <->
  (if bool_decide (verb = team_list) && is_blank raw then r = TeamListRequest None
   else exists o, json_parse raw = Ok (JObj o) /\
     request_verb r = verb /\ well_formed r /\ (forall k, get_field k o = get_field k (request_fields r))).
Proof.
  destruct verb; cbn [parseTeamActionBody]; rewrite ?bool_decide_eq_true_2, ?bool_decide_eq_false_2 by done; cbn [andb].
  - unfold parseTeamListBody. destruct (is_blank raw); [naive_solver|].
    apply through_object. intros o Ho. apply (decode_iff team_list o Ho).
  - apply through_object. intros o Ho. apply (decode_iff team_send o Ho).
  - apply through_object. intros o Ho. apply (decode_iff delegate o Ho).
  - apply through_object. intros o Ho. apply (decode_iff coordinate o Ho).
  - apply through_object. intros o Ho. apply (decode_iff start o Ho).
Qed.

(** ** Printing and parsing *)

Lemma plain_strings l : forallb json_plain (map JStr l) = true.
Proof. induction l; [done|by simpl]. Qed.

Lemma plain_fields (o : list (string * jsval)) : bool_decide (NoDup o.*1) = true ->
  bool_decide ((own_order o).*1 = o.*1) = true -> forallb (fun kv => json_plain kv.2) o = true -> json_plain (JObj o) = true.
Proof. intros H1 H2 H3. cbn [json_plain]. by rewrite H1, H2, H3. Qed.

Lemma plain_grant g : json_plain (grant_val g) = true.
Proof.
  unfold grant_val. destruct g as [ts|]; [|done].
  apply plain_fields; [vm_compute; done|vm_compute; done|]. cbn [forallb snd json_plain]. by rewrite plain_strings.
Qed.

Lemma plain_branches bs : forallb json_plain (map branch_val bs) = true.
Proof. induction bs as [|b bs IH]; [done|]. cbn [map forallb]. rewrite IH. done. Qed.

Lemma plain_request r : json_plain (JObj (request_fields r)) = true.
Proof.
  destruct r as [f|a k b|t g|bs|origin t nm rp g]; cbn [request_fields].
  - by destruct f.
  - done.
  - destruct g as [g|]; [|done]. apply plain_fields; [done|done|]. cbn [forallb snd app grant_field json_plain].
    by rewrite plain_grant.
  - apply plain_fields; [done|done|]. cbn [forallb snd json_plain]. by rewrite plain_branches.
  - destruct nm, rp, g as [g|]; (apply plain_fields; [done|done|]); cbn [forallb snd app grant_field opt_str_field json_plain];
      rewrite ?plain_grant; done.
Qed.

Lemma nonspace_not_blank c s : is_js_space c = false -> is_blank (String c s) = false.
Proof.
  intros Hc. unfold is_blank, js_trim. cbn [trim_start]. rewrite Hc. cbn [trim_end].
  destruct (trim_end s); by rewrite ?Hc.
Qed.

Lemma object_text_not_blank o t : stringify (JObj o) = Ok (Some t) -> is_blank t = false.
Proof.
  cbn [stringify]. intros H. assert (exists u, t = String "{" u) as [u ->].
  { apply result_bind_ok in H as (l & _ & [= <-]). by eexists. }
  by apply nonspace_not_blank.
Qed.

(** Printing a well-formed request and parsing the text under its verb gives
    the request back. *)
Theorem team_body_roundtrip (r : TeamActionRequest) (Hr : well_formed r) :
  exists t, stringify (JObj (request_fields r)) = Ok (Some t) /\ parseTeamActionBody (request_verb r) t = Ok r.
Proof.
  destruct (parse_stringify _ (plain_request r)) as (t & Ht & Hp). exists t. split; [done|].
  assert (E : forall b, b && is_blank t = false) by (intros b; rewrite (object_text_not_blank _ _ Ht); by destruct b).
  pose proof (decode_iff (request_verb r) (request_fields r) (parsed_fields_ok _ _ Hp) r) as Hd.
  unfold parseTeamActionBody, parseTeamListBody, parseTeamSendBody, parseTeamDelegateBody, parseTeamCoordinateBody,
    parseTeamStartBody, parseTeamBodyObject. rewrite Hp, (object_text_not_blank _ _ Ht).
  destruct (request_verb r); by apply Hd.
Qed.

(** * What errors say *)

(** The words of the schema. *)
Definition schema_words : list string := ["ask"; "inform"] ++ ALL_SESSION_ORIGIN_KINDS.

(** A body without its content: a string that is no schema word keeps only
    whether it is blank, and other primitives only that they are there. *)
Definition blind_string (s : string) : string :=
  if bool_decide (s ∈ schema_words) then s else if is_blank s then "" else "text".
Fixpoint skeleton (v : jsval) : jsval :=
  match v with
  | JStr s => JStr (blind_string s)
  | JNull | JBool _ | JNum _ => JNull
  | JArr l => JArr (map skeleton l)
  | JObj l => JObj (map (fun kv => (kv.1, skeleton kv.2)) l)
  | v => v
  end.

Definition error_of {A} (r : result A) : option jserror := match r with Throw e => Some e | Ok _ => None end.

Lemma error_bind {A B} (m m' : result A) (f f' : A -> result B) :
  error_of m = error_of m' -> (forall a a', m = Ok a -> m' = Ok a' -> error_of (f a) = error_of (f' a')) ->
  error_of (a ← m; f a) = error_of (a ← m'; f' a).
Proof. intros Hm Hf. unfold mbind. destruct m, m'; simpl in *; try done. by apply Hf. Qed.

Lemma skeleton_field k o : get_field k (map (fun kv => (kv.1, skeleton kv.2)) o) = skeleton (get_field k o).
Proof.
  unfold get_field. induction o as [|[k' v] o IH]; simpl; [done|]. by case_decide.
Qed.

Lemma blind_blank s : is_blank (blind_string s) = is_blank s.
Proof.
  unfold blind_string. case_bool_decide; [done|]. by destruct (is_blank s).
Qed.

Lemma blind_word s w : w ∈ schema_words -> (blind_string s =? w)%string = (s =? w)%string.
Proof.
  intros Hw. unfold blind_string. case_bool_decide as Hs; [done|].
  destruct (String.eqb_spec s w) as [->|]; [done|]. apply String.eqb_neq. intros <-.
  assert (H1 : "" ∉ schema_words) by (by apply (bool_decide_unpack _); vm_compute).
  assert (H2 : "text" ∉ schema_words) by (by apply (bool_decide_unpack _); vm_compute).
  by destruct (is_blank s).
Qed.

Lemma blind_reject o allowed v :
  rejectUnexpectedKeys (map (fun kv => (kv.1, skeleton kv.2)) o) allowed v = rejectUnexpectedKeys o allowed v.
Proof. induction o as [|[k x] o IH]; simpl; [done|]. by rewrite IH. Qed.

Lemma blind_required v verb why : error_of (required_string (skeleton v) verb why) = error_of (required_string v verb why).
Proof.
  unfold required_string, isNonBlankString. destruct v; try done. simpl. rewrite blind_blank. by destruct (is_blank s).
Qed.

Lemma blind_optional v verb why : error_of (optional_string (skeleton v) verb why) = error_of (optional_string v verb why).
Proof.
  assert (H : error_of (s ← required_string (skeleton v) verb why; Ok (Some s)) =
              error_of (s ← required_string v verb why; Ok (Some s))) by (apply error_bind; [apply blind_required|done]).
  by destruct v.
Qed.

Lemma blind_tools l verb : error_of (parse_tools (map skeleton l) verb) = error_of (parse_tools l verb).
Proof.
  induction l as [|v l IH]; [done|]. cbn [map parse_tools]. apply error_bind; [apply blind_required|].
  intros ? ? _ _. by apply error_bind; auto.
Qed.

Lemma blind_grant v verb : error_of (parseToolGrant (skeleton v) verb) = error_of (parseToolGrant v verb).
Proof.
  destruct v as [| | | | | | | |l|o|]; try done. cbn [skeleton parseToolGrant]. rewrite blind_reject, skeleton_field.
  apply error_bind; [done|]. intros ? ? _ _. destruct (get_field "tools" o) as [| | | | | | | |l|l|]; try done.
  cbn [skeleton]. apply error_bind; [apply blind_tools|done].
Qed.

Lemma blind_optional_grant v verb : error_of (optional_grant (skeleton v) verb) = error_of (optional_grant v verb).
Proof.
  assert (H : error_of (g ← parseToolGrant (skeleton v) verb; Ok (Some g)) =
              error_of (g ← parseToolGrant v verb; Ok (Some g))) by (apply error_bind; [apply blind_grant|done]).
  by destruct v.
Qed.

Lemma blind_branches i l : error_of (decode_branches i (map skeleton l)) = error_of (decode_branches i l).
Proof.
  revert i. induction l as [|v l IH]; intros i; [done|]. cbn [map decode_branches]. apply error_bind.
  - destruct v as [| | | | | | | |m|o|]; try done. cbn [skeleton decode_branch]. rewrite blind_reject, skeleton_field.
    apply error_bind; [done|]. intros ? ? _ _. apply blind_required.
  - intros ? ? _ _. apply error_bind; [apply IH|done].
Qed.

Ltac blind_step := rewrite ?skeleton_field; apply error_bind;
  [first [by rewrite blind_reject | apply blind_required | apply blind_optional | apply blind_optional_grant]|intros ? ? _ _].

Lemma blind_decode (verb : TeamActionVerb) o :
  let decode := match verb with
    | team_list => decode_list | team_send => decode_send | delegate => decode_delegate
    | coordinate => decode_coordinate | start => decode_start
    end in
  error_of (decode (map (fun kv => (kv.1, skeleton kv.2)) o)) = error_of (decode o).
Proof.
  destruct verb; cbv zeta iota.
  - unfold decode_list. by repeat blind_step.
  - unfold decode_send. cbv zeta. do 2 blind_step. apply error_bind; [|intros ? ? _ _; by blind_step].
    destruct (get_field "kind" o) as [| | | |s| | | | | |]; try done. cbn [skeleton is_str].
    by rewrite !blind_word by set_solver.
  - unfold decode_delegate. by repeat blind_step.
  - unfold decode_coordinate. blind_step. rewrite ?skeleton_field.
    destruct (get_field "branches" o) as [| | | | | | | |[|v l]| |]; try done.
    cbn [skeleton map]. apply error_bind; [apply (blind_branches 0 (v :: l))|done].
  - unfold decode_start. blind_step. apply error_bind; [|intros ? ? _ _; by repeat blind_step].
    rewrite ?skeleton_field. destruct (get_field "origin" o) as [| | | |s| | | | | |]; try done. cbn [skeleton].
    unfold blind_string. case_bool_decide as Hs; [done|].
    assert (Hno : forall t, t ∉ schema_words -> isSessionOriginKind t = false).
    { intros t Ht. apply bool_decide_eq_false. intros Hk. apply Ht. apply elem_of_app. by right. }
    rewrite (Hno s Hs). by destruct (is_blank s).
Qed.

(** Neither is a blank text JSON. *)
Lemma skip_blank s : is_blank s = true -> skip_ws s = "" \/ exists c t, skip_ws s = String c t /\ is_js_space c = true /\ is_json_space c = false.
Proof.
  induction s as [|c s IH]; intros Hb; [by left|]. destruct (is_js_space c) eqn:Hc.
  - cbn [skip_ws]. destruct (is_json_space c) eqn:Hj; [|by right; exists c, s].
    apply IH. unfold is_blank, js_trim in *. cbn [trim_start] in Hb. by rewrite Hc in Hb.
  - by rewrite nonspace_not_blank in Hb.
Qed.

Lemma blank_not_json s v : json_parse s = Ok v -> is_blank s = false.
Proof.
  intros H. destruct (is_blank s) eqn:Hb; [|done]. exfalso. unfold json_parse in H.
  replace (2 * String.length s + 1)%nat with (S (2 * String.length s)) in H by lia. cbn [parse_value] in H.
  destruct (skip_blank s Hb) as [E|(c & t & E & Hc & Hj)]; rewrite E in H; [done|].
  by destruct c as [[] [] [] [] [] [] [] []].
Qed.

(** Errors say nothing of the content: two bodies of the same skeleton (the
    same keys, the same words of the schema, and otherwise strings alike only in
    being blank or not) are refused with the same error. *)
Theorem team_errors_blind (verb : TeamActionVerb) (raw1 raw2 : string) (v1 v2 : jsval) (e : jserror)
    (H1 : json_parse raw1 = Ok v1) (H2 : json_parse raw2 = Ok v2) (Hs : skeleton v1 = skeleton v2)
    (He : parseTeamActionBody verb raw1 = Throw e) :
  parseTeamActionBody verb raw2 = Throw e.
Proof.
  set (decode := match verb with
    | team_list => decode_list | team_send => decode_send | delegate => decode_delegate
    | coordinate => decode_coordinate | start => decode_start
    end).
  assert (Hp : forall raw v, json_parse raw = Ok v ->
    parseTeamActionBody verb raw = (o ← parseTeamBodyObject raw verb; decode o)).
  { intros raw v Hv. destruct verb; try done. cbn. unfold parseTeamListBody. by rewrite (blank_not_json raw v Hv). }
  assert (E : error_of (parseTeamActionBody verb raw2) = error_of (parseTeamActionBody verb raw1)).
  { rewrite (Hp _ _ H1), (Hp _ _ H2). unfold parseTeamBodyObject. rewrite H1, H2.
    destruct v1 as [| | | | | | | | |o1|], v2 as [| | | | | | | | |o2|]; try done. cbn. injection Hs as Hs.
    pose proof (blind_decode verb o1) as B1. pose proof (blind_decode verb o2) as B2. cbv zeta in B1, B2.
    fold decode in B1, B2. rewrite <- B1, <- B2. by f_equal; f_equal. }
  rewrite He in E. destruct (parseTeamActionBody verb raw2); [done|]. by injection E as ->.
Qed.

(** * Concrete runs *)

(** * Parity with the server *)

(** The verbs that port a route of the remote-control server. *)
Definition ported_routes (verb : string) : list route :=
  match verb with
  | "observe" => [R_stream] | "status" => [R_state]
  | "approve" => [R_hitl "id" true] | "reject" => [R_hitl "id" false] | "veto" => [R_veto "call"]
  | "steer" | "whisper" => [R_inject]
  | _ => []
  end.

(** The two control surfaces ask for the same authority: a verb that ports a
    route of the remote-control server requires exactly the scope that the server
    requires on that route; and every verb of the vocabulary requires one of the
    three scopes. *)
Theorem control_parity (verb : string) :
  Forall (fun r => RemoteServer.required r = requiredScopeForControlVerb verb) (ported_routes verb) /\
  (isControlVerb verb = true <-> exists s, requiredScopeForControlVerb verb = Some s /\ s ∈ SCOPE_RANK.*1).
Proof.
  split; [unfold ported_routes; repeat case_match; repeat constructor|].
  unfold isControlVerb. rewrite bool_decide_eq_true. split.
  - intros Hv. assert (Hall : Forall (fun v => exists s, requiredScopeForControlVerb v = Some s /\ s ∈ SCOPE_RANK.*1) CONTROL_VERBS).
    { repeat (apply Forall_cons_2; [eexists; split; [reflexivity|by apply (bool_decide_unpack _); vm_compute]|]). constructor. }
    rewrite Forall_forall in Hall. by apply Hall.
  - intros (s & Hs & _). apply om_get_Some_in, (list_elem_of_fmap_2 fst) in Hs. exact Hs.
Qed.

(** * A concrete scheme *)

Definition demo_print (v : jsval) : string := match stringify v with Ok (Some t) => t | _ => "" end.
#[local] Instance demo_hashing : Hashing := {| rfcCanonicalize := demo_print; sha256 := fun s => s |}.
Definition demo_sign (m : string) : result string := Ok ("S" ++ m)%string.
Definition demo_verify (m s : string) : result bool := Ok (s =? "S" ++ m)%string.

Lemma demo_print_separates a b : json_plain a = true -> json_plain b = true ->
  rfcCanonicalize a = rfcCanonicalize b -> sort_keys a = sort_keys b.
Proof.
  intros Ha Hb E. cbn in E. unfold demo_print in E.
  destruct (parse_stringify a Ha) as (t & Ht & Hp), (parse_stringify b Hb) as (t' & Ht' & Hp').
  rewrite Ht, Ht' in E. subst t'. congruence.
Qed.

Lemma demo_binds m m' s : demo_verify m s = Ok true -> demo_verify m' s = Ok true -> m = m'.
Proof.
  unfold demo_verify. intros [= H%String.eqb_eq] [= H'%String.eqb_eq]. rewrite H in H'. by injection H'.
Qed.

Lemma demo_scheme m s : demo_sign m = Ok s -> s <> "" /\ demo_verify m s = Ok true.
Proof. intros [= <-]. split; [done|]. unfold demo_verify. by rewrite String.eqb_refl. Qed.

Definition demo_input (kind : string) (capability : option string) : BuildTeammateEnvelopeInput :=
  mkBuild "m1" "run-a" "run-b" None (mkClaim kind capability) "hello".
Definition demo_input2 : BuildTeammateEnvelopeV2Input :=
  mkBuild2 (demo_input "control" (Some "steer")) None "corr" (Some "install-1") None None.
(** A clock that counts its readings. *)
Definition demo_now (w : Z) : Z * num := (w + 1, num_of_Z (1000 + w)).

Definition demo_envelope (kind : string) (capability : option string) : TeammateEnvelope :=
  V1 (mkV1 "m1" "run-a" "run-b" None (num_of_Z 1000) (mkClaim kind capability) "hello" None).
Definition demo_signed : TeammateEnvelope :=
  match buildTeammateEnvelopeV2 demo_now demo_sign demo_input2 0 with
  | (_, Ok e) => e | _ => demo_envelope "inform" None
  end.

(** C0 *)
Lemma teammate_signature_binds_witness :
  (verifyTeammateEnvelopeSignature demo_signed demo_verify).1 = true /\ demo_signed = demo_signed.
Proof.
  split; [vm_compute; reflexivity|].
  exact (teammate_signature_binds demo_signed demo_signed demo_verify demo_print_separates demo_binds
    eq_refl eq_refl eq_refl eq_refl eq_refl).
Defined.

(** C0 *)
Lemma built_envelopes_verify_witness :
  (exists e, buildTeammateEnvelopeV2 demo_now demo_sign demo_input2 0 = (1, Ok e)) /\
  match buildTeammateEnvelope demo_now demo_sign (demo_input "shout" None) 7 with
  | (w', Throw _) => w' = 7
  | _ => False
  end.
Proof.
  split; [eexists; vm_compute; reflexivity|].
  pose proof (built_envelopes_verify demo_now demo_sign (demo_input "shout" None) demo_input2 7 demo_verify demo_scheme) as [H _].
  destruct (buildTeammateEnvelope demo_now demo_sign (demo_input "shout" None) 7) as [w' [e|e]] eqn:E.
  - vm_compute in E. discriminate.
  - apply H. intros (_ & _ & _ & Hk & _). revert Hk. apply (bool_decide_unpack _). vm_compute. exact I.
Defined.

(** C0 *)
Lemma team_body_roundtrip_witness :
  let r := TeamStartRequest "local" "build it" (Some "n") None (Some (Some ["read"; "write"])) in
  (is_blank "build it" = false) /\
  exists t, stringify (JObj (request_fields r)) = Ok (Some t) /\ parseTeamActionBody start t = Ok r.
Proof.
  split; [reflexivity|]. apply (team_body_roundtrip (TeamStartRequest "local" "build it" (Some "n") None (Some (Some ["read"; "write"])))).
  repeat first [split | constructor | done].
Defined.

Definition demo_body (task : string) : string := ("{" ++ quoted "task" ++ ":" ++ quoted task ++ "," ++ quoted "x" ++ ":1}")%string.

(** C0 *)
Lemma team_errors_blind_witness :
  json_parse (demo_body "secret") = Ok (JObj [("task", JStr "secret"); ("x", JNum num_one)]) /\
  parseTeamActionBody delegate (demo_body "public") = Throw (TeamActionBodyError "delegate"
    ("unexpected key " ++ quoted "x" ++ " (allowed: task, grant)")%string).
Proof.
  split; [vm_compute; reflexivity|].
  apply (team_errors_blind delegate (demo_body "secret") (demo_body "public")
    (JObj [("task", JStr "secret"); ("x", JNum num_one)]) (JObj [("task", JStr "public"); ("x", JNum num_one)]));
    vm_compute; reflexivity.
Defined.

(** * Surprises *)

(** Names are compared without their server: a sender that holds a tool of one
    server may ask for the tool of the same name on another, which the gate of
    its own delegation denies it. *)
Example cross_server_ask_passes :
  (mv_allowed <$> verifyMessageClaim (demo_envelope "ask" (Some "mcp__prod__delete")) ["mcp__sandbox__delete"] 0 0) = Ok true.
Proof. vm_compute. reflexivity. Qed.

(** A claim of an unknown kind passes the sender's check, as an ask. *)
Example unknown_kind_passes :
  (mv_reason <$> verifyMessageClaim (demo_envelope "exec" None) [] 0 0) =
  Ok ("ask claim accepted: capability " ++ quoted "undefined" ++ " is in the sender's attenuated scope")%string.
Proof. vm_compute. reflexivity. Qed.

(** A body is counted in bytes. *)
Example body_counted_in_bytes : utf8_length (String "233" (String "a" "")) = 3.
Proof. reflexivity. Qed.
