(* ===== verification/Privacy.v ===== *)
(** Agent privacy, [privacy/]: field elements and the hash over them, nullifiers,
    delegation claims, shielded channels, composition of claims, and anonymity
    leaves.

    The Poseidon hash of the [starknet] package is a parameter; numbers travel to
    it and back as hexadecimal text.  Without the package the module hashes with
    its own placeholder.  Byte strings are lists of integers below 256. *)

From S2P Require Import Prelude JsNum JsValue Canonical Json TokenBase.
From Stdlib Require Import SpecFloat Ascii.

(** * Field elements, [privacy/poseidon-felt252.ts] *)

Definition FELT252_PRIME : Z := 3618502788666131213697322783095070105623107215331596699973092056135872020481.

Definition feltMod (x : Z) : Z :=
  let r := Z.rem x FELT252_PRIME in
  if r <? 0 then r + FELT252_PRIME else r.

(** [hash.computePoseidonHashOnElements], if the package is there. *)
Class PoseidonBackend := { starknetPoseidon : option (list Z -> Z) }.

Definition RC0 : Z := 0x6f4a3c2b1a0d9e8f7c6b5a4d3c2b1a0d.
Definition RC1 : Z := 0x1b2c3d4e5f6a7b8c9d0e1f2a3b4c5d6e.

Definition poseidonPlaceholder (elements : list Z) : Z :=
  fold_left (fun state el => feltMod (state * RC0 + el * RC1 + el * state + el)) elements 0.

Definition poseidonHashBigInt `{PoseidonBackend} (elements : list Z) : Z :=
  match starknetPoseidon with
  | Some poseidon => poseidon (map feltMod elements)
  | None => poseidonPlaceholder elements
  end.

(** [new TextEncoder().encode(s)]. *)
Fixpoint utf8_bytes (s : string) : list Z :=
  match s with
  | EmptyString => []
  | String c s' =>
      let n := Z.of_nat (nat_of_ascii c) in
      (if n <? 128 then [n] else [192 + n / 64; 128 + n mod 64]) ++ utf8_bytes s'
  end.

Definition labelToFelt (label : string) : Z :=
  feltMod (fold_left (fun value b => Z.lor (Z.shiftl value 8) b) (take 31 (utf8_bytes label)) 0).

(** * Nullifiers, [privacy/nullifier.ts] *)

Definition LABEL_ROOT : Z := labelToFelt "root".
Definition LABEL_STARKNET : Z := labelToFelt "starknet".

(** * Delegation claims, [privacy/delegation.ts] *)

Record DelegationScope := mkScope { allowedActions : list string; expiry : num }.
Record ClaimRef := mkClaimRef { digest : list Z; digest_alg : option string }.
Record DelegationClaim := mkDelegation {
  parentClaim : ClaimRef; delegateePseudonym : string; dc_scope : DelegationScope; issuedAt : string;
  scopeWitness : string
}.

(** An object of strings and a number always has a text. *)
Definition serializeDelegationScope (s : DelegationScope) : string :=
  match stringify (JObj [("allowedActions", JArr (map JStr (sort_strings (allowedActions s)))); ("expiry", JNum (expiry s))]) with
  | Ok (Some t) => t
  | _ => ""
  end.

(** [nowMs] is the reading of the clock. *)
Definition isDelegationScopeValid (s : DelegationScope) (nowMs : Z) : bool := num_ltb (epoch_seconds nowMs) (expiry s).

Definition isActionAllowed (s : DelegationScope) (actionType : string) : bool :=
  bool_decide ("*" ∈ allowedActions s) || bool_decide (actionType ∈ allowedActions s).

(** [z.toString(16)], of which [fuel] bounds the digits. *)
Fixpoint hex_digits (fuel : nat) (z : Z) (acc : string) : string :=
  match fuel with
  | O => acc
  | S fuel =>
      let acc := String (hex_char (Z.to_nat (z mod 16))) acc in
      if z / 16 =? 0 then acc else hex_digits fuel (z / 16) acc
  end.
Definition bigint_hex (z : Z) : string :=
  let digits := hex_digits (S (Z.to_nat (Z.log2 (Z.abs z)))) (Z.abs z) "" in
  if z <? 0 then ("-" ++ digits)%string else digits.

Definition buildDelegationClaim (parent : ClaimRef) (pseudonym : Z) (s : DelegationScope) (nowMs : Z) : DelegationClaim :=
  mkDelegation parent ("0x" ++ bigint_hex pseudonym)%string s (iso_string nowMs) (serializeDelegationScope s).

(** * Channels, [privacy/channel.ts] *)

Definition LABEL_CHANNEL : Z := labelToFelt "vauban-agent-channel-v1".
Definition LABEL_CHANNEL_ID : Z := labelToFelt "channel-id".
Definition LABEL_KEYSTREAM : Z := labelToFelt "keystream".
Definition LABEL_AUTH_TAG : Z := labelToFelt "auth-tag".

Record AgentChannel := mkChannel {
  sender_pubkey : Z; receiver_pubkey : Z; ch_channel_id : Z; shared_secret : Z; established_at : Z
}.
Record EncryptedAgentMessage := mkMessage { msg_channel_id : Z; nonce : Z; ciphertext : list Z; tag : Z }.

(** The chunk is flushed when full and at the last byte. *)
Fixpoint hash_bytes_from (bytes : list Z) (acc chunk shift : Z) : Z :=
  match bytes with
  | [] => acc
  | b :: rest =>
      let chunk := Z.lor chunk (Z.shiftl b shift) in
      let shift := shift + 8 in
      if (248 <=? shift) || (length rest =? 0)%nat then hash_bytes_from rest (feltMod (Z.lxor acc chunk)) 0 0
      else hash_bytes_from rest acc chunk shift
  end.
Definition hashBytes (bytes : list Z) : Z := hash_bytes_from bytes 0 0 0.

Definition BLOCK_SIZE : Z := 31.

(** * Composition, [privacy/composition.ts] *)

Definition LABEL_COMPOSE_AND : Z := labelToFelt "vauban-agent-compose-and-v1".
Definition LABEL_RECURSIVE : Z := labelToFelt "vauban-recursive-and-v1".
Definition LABEL_TRANSCRIPT : Z := labelToFelt "vauban-transcript-v1".

Record AgentClaim := mkAgentClaim {
  agentNullifier : Z; ac_role : string; ac_payload : list (string * jsval); delegationChain : option DelegationClaim
}.
Inductive CompositionMode := flat | recursive.
Record ShieldedClaim := mkShielded {
  composedNullifier : Z; sc_payload : list (string * jsval); roles : list string; sc_mode : CompositionMode;
  transcriptDigest : Z; delegationWitnesses : list (string * DelegationClaim); sc_n : Z
}.

Definition CompositionError (message : string) : jserror := JsError "CompositionError" message.

(** Roles are folded with their position. *)
Fixpoint roles_felt (roles : list string) (i : Z) (acc : Z) : Z :=
  match roles with
  | [] => acc
  | r :: rest => roles_felt rest (i + 1) (feltMod (Z.lxor acc (labelToFelt r + (i + 1) * 0x1b1b1b1b)))
  end.
Definition rolesToFelt (roles : list string) : Z := roles_felt roles 0 0.

(** Assigning to [__proto__] makes no field. *)
Definition assign_field (m : list (string * jsval)) (kv : string * jsval) : list (string * jsval) :=
  if (kv.1 =? "__proto__")%string then m else om_set kv.1 kv.2 m.
Definition mergePayloads (claims : list AgentClaim) : list (string * jsval) :=
  own_order (fold_left (fun m c => fold_left assign_field (own_order (ac_payload c)) m) (rev claims) []).

(** Delegations are looked at in order, each with its reading of the clock. *)
Fixpoint check_delegations (agents : list AgentClaim) (now : nat -> Z) (i : nat)
    (witnesses : list (string * DelegationClaim)) : result (list (string * DelegationClaim)) :=
  match agents with
  | [] => Ok witnesses
  | a :: rest =>
      match delegationChain a with
      | None => check_delegations rest now (S i) witnesses
      | Some d =>
          if isDelegationScopeValid (dc_scope d) (now i) then
            check_delegations rest now (S i) (om_set (ac_role a) d witnesses)
          else Throw (CompositionError ("delegation for role " ++ quoted (ac_role a) ++ " has expired")%string)
      end
  end.

Definition buildAgentClaimWithDelegation (nullifier : Z) (role : string) (payload : list (string * jsval))
    (parentClaimDigest : list Z) (s : DelegationScope) (nowMs : Z) : AgentClaim :=
  mkAgentClaim nullifier role payload
    (Some (buildDelegationClaim (mkClaimRef parentClaimDigest (Some "poseidon-felt252")) nullifier s nowMs)).

(** * Anonymity leaves, [privacy/uar.ts] *)

Definition UAR_DOMAIN_TAG_AGENTIC : Z := labelToFelt "vauban-domain-agentic-v1".
Definition UAR_DOMAIN_TAG_STARKNET : Z := labelToFelt "vauban-domain-starknet-shieldedvault-v1".
Definition UAR_DOMAIN_TAG_W3C_VC : Z := labelToFelt "vauban-domain-w3c-vc-v1".
Definition UAR_DOMAIN_TAG_MDOC : Z := labelToFelt "vauban-domain-iso18013-mdoc-v1".

Record UARLeaf := mkLeaf { domainTag : Z; anchor : Z; epoch : Z; agentRole : string }.
Record UARAggregatorReceipt := mkReceipt { r_anchor : Z; r_epoch : Z; leafIndex : Z; accepted : bool }.

Definition currentEpoch (nowMs : Z) : Z := nowMs / 3600000.
Definition mockLeafIndex (anchor : Z) : Z := Z.rem anchor (2 ^ 32).
Definition mockSubmitToUAR (l : UARLeaf) : UARAggregatorReceipt :=
  mkReceipt (anchor l) (epoch l) (mockLeafIndex (anchor l)) true.
Definition isLeafFresh (l : UARLeaf) (maxEpochAge : Z) (nowMs : Z) : bool := currentEpoch nowMs - epoch l <=? maxEpochAge.

(** * What hashes *)

Section Hash.
Context `{PoseidonBackend}.

Definition deriveAgentNullifier (masterKey agentPubkey : Z) : Z :=
  let nRoot := poseidonHashBigInt [feltMod masterKey; LABEL_ROOT] in
  let nStarknet := poseidonHashBigInt [nRoot; LABEL_STARKNET] in
  poseidonHashBigInt [nStarknet; feltMod agentPubkey].

Definition deriveActionNullifier (agentNullifier actionId nonce : Z) : Z :=
  poseidonHashBigInt [feltMod agentNullifier; feltMod actionId; feltMod nonce].

Definition deriveKeystreamWord (sharedSecret nonce blockIndex : Z) : Z :=
  poseidonHashBigInt [feltMod sharedSecret; feltMod nonce; LABEL_KEYSTREAM; feltMod blockIndex].

Definition establishChannel (senderSk receiverPk : Z) (nowMs : Z) : AgentChannel :=
  let senderPk := poseidonHashBigInt [feltMod senderSk; LABEL_CHANNEL] in
  let sharedSecret := poseidonHashBigInt [feltMod senderSk; feltMod receiverPk; LABEL_CHANNEL] in
  let channelId := poseidonHashBigInt [sharedSecret; LABEL_CHANNEL_ID] in
  mkChannel senderPk (feltMod receiverPk) channelId sharedSecret nowMs.

Definition computeAuthTag (sharedSecret : Z) (ciphertext : list Z) (nonce : Z) : Z :=
  poseidonHashBigInt [feltMod sharedSecret; feltMod nonce; hashBytes ciphertext; LABEL_AUTH_TAG].

(** The keystream byte at position [i]. *)
Definition keystream_byte (ch : AgentChannel) (nonce i : Z) : Z :=
  Z.land (Z.shiftr (deriveKeystreamWord (shared_secret ch) nonce (i / BLOCK_SIZE)) ((i mod BLOCK_SIZE) * 8)) 0xff.

Fixpoint xor_stream (ch : AgentChannel) (nonce : Z) (bytes : list Z) (i : Z) : list Z :=
  match bytes with
  | [] => []
  | b :: rest => Z.land (Z.lxor b (keystream_byte ch nonce i)) 0xff :: xor_stream ch nonce rest (i + 1)
  end.

Definition sendOverChannel (ch : AgentChannel) (plaintext : list Z) (nonceCounter : Z) : EncryptedAgentMessage :=
  let ciphertext := xor_stream ch nonceCounter plaintext 0 in
  mkMessage (ch_channel_id ch) nonceCounter ciphertext (computeAuthTag (shared_secret ch) ciphertext nonceCounter).

Definition receiveOverChannel (ch : AgentChannel) (m : EncryptedAgentMessage) (expectedNoncePrev : Z) : result (list Z) :=
  if negb (msg_channel_id m =? ch_channel_id ch) then Throw (JsError "Error" "MismatchedChannel")
  else if nonce m <=? expectedNoncePrev then Throw (JsError "Error" "ReplayedNonce")
  else if negb (computeAuthTag (shared_secret ch) (ciphertext m) (nonce m) =? tag m) then
    Throw (JsError "Error" "InvalidTag")
  else Ok (xor_stream ch (nonce m) (ciphertext m) 0).

Definition composePair (a b : Z) : Z := poseidonHashBigInt [feltMod a; feltMod b; LABEL_COMPOSE_AND].

Definition composeRecursive (nullifiers : list Z) : Z :=
  fold_left (fun acc n => poseidonHashBigInt [acc; feltMod n; LABEL_RECURSIVE]) (drop 2 nullifiers)
    (poseidonHashBigInt [feltMod (nth 0 nullifiers 0); feltMod (nth 1 nullifiers 0); LABEL_RECURSIVE]).

Definition composeAgents (agents : list AgentClaim) (now : nat -> Z) : result ShieldedClaim :=
  match agents with
  | [] => Throw (CompositionError "composeAgents requires at least 2 agents")
  | [_] => Throw (CompositionError "composeAgents requires at least 2 agents, got 1")
  | _ =>
      witnesses ← check_delegations agents now 0 [];
      let nullifiers := map agentNullifier agents in
      let rs := map ac_role agents in
      let mode := if (length agents =? 2)%nat then flat else recursive in
      let composed := match mode with
        | flat => composePair (nth 0 nullifiers 0) (nth 1 nullifiers 0)
        | recursive => composeRecursive nullifiers
        end in
      Ok (mkShielded composed (mergePayloads agents) rs mode
            (poseidonHashBigInt [composed; rolesToFelt rs; LABEL_TRANSCRIPT]) witnesses (Z.of_nat (length agents)))
  end.

Definition contributeAnchorToUAR (c : AgentClaim) (holderBlinding nowMs : Z) : UARLeaf :=
  mkLeaf UAR_DOMAIN_TAG_AGENTIC
    (poseidonHashBigInt [UAR_DOMAIN_TAG_AGENTIC; feltMod (agentNullifier c); feltMod holderBlinding])
    (currentEpoch nowMs) (ac_role c).

Fixpoint contributeMultipleAnchors (claims : list AgentClaim) (holderBlinding : Z) (now : nat -> Z) (i : nat) : list UARLeaf :=
  match claims with
  | [] => []
  | c :: rest => contributeAnchorToUAR c holderBlinding (now i) :: contributeMultipleAnchors rest holderBlinding now (S i)
  end.
End Hash.
