(* ===== verification/PrivacyProps.v ===== *)
(** Shielded channels and composed claims: what they guarantee over any hash, up
    to a collision of that hash, and where they fall short of it; concrete channels
    and compositions. *)

From S2P Require Import Prelude JsNum JsValue Json JsonParse TokenBase Privacy.
From Stdlib Require Import SpecFloat.

(** * Field elements *)

Lemma feltMod_mod x : feltMod x = x mod FELT252_PRIME.
Proof.
  unfold feltMod. assert (HP : 0 < FELT252_PRIME) by done.
  destruct (Z.ltb_spec (Z.rem x FELT252_PRIME) 0) as [Hr|Hr].
  - apply Z.mod_unique_pos with (q := Z.quot x FELT252_PRIME - 1).
    + pose proof (Z.rem_bound_abs x FELT252_PRIME ltac:(lia)). lia.
    + pose proof (Z.quot_rem' x FELT252_PRIME). lia.
  - apply Z.mod_unique_pos with (q := Z.quot x FELT252_PRIME).
    + pose proof (Z.rem_bound_abs x FELT252_PRIME ltac:(lia)). lia.
    + pose proof (Z.quot_rem' x FELT252_PRIME). lia.
Qed.

Lemma feltMod_range x : 0 <= feltMod x < FELT252_PRIME.
Proof. rewrite feltMod_mod. by apply Z.mod_pos_bound. Qed.

Lemma feltMod_small x : 0 <= x < FELT252_PRIME -> feltMod x = x.
Proof. intros Hx. rewrite feltMod_mod. by apply Z.mod_small. Qed.

Lemma feltMod_idem x : feltMod (feltMod x) = feltMod x.
Proof. apply feltMod_small, feltMod_range. Qed.

Lemma feltMod_wrap x : feltMod (x + FELT252_PRIME) = feltMod x.
Proof. rewrite !feltMod_mod. rewrite <- (Z.mul_1_l FELT252_PRIME) at 1. apply Z.mod_add. done. Qed.

Lemma placeholder_range l : 0 <= poseidonPlaceholder l < FELT252_PRIME.
Proof.
  unfold poseidonPlaceholder. induction l as [|x l IH] using rev_ind; [done|].
  rewrite fold_left_app. cbn [fold_left]. apply feltMod_range.
Qed.

Section Hash.
Context `{PoseidonBackend}.

(** What the hash answers is used as it is, or reduced again: no matter. *)
Lemma hash_reduced (h rest : list Z) :
  poseidonHashBigInt (feltMod (poseidonHashBigInt h) :: rest) = poseidonHashBigInt (poseidonHashBigInt h :: rest).
Proof.
  unfold poseidonHashBigInt. destruct starknetPoseidon; [cbn [map]; by rewrite feltMod_idem|].
  by rewrite (feltMod_small (poseidonPlaceholder h)) by apply placeholder_range.
Qed.

(** * Channels *)

Definition is_byte (b : Z) : Prop := 0 <= b < 256.

Lemma byte_mask b : is_byte b -> Z.land b 255 = b.
Proof. intros Hb. change 255 with (Z.ones 8). rewrite Z.land_ones by done. apply Z.mod_small. unfold is_byte in Hb. lia. Qed.

Lemma xor_back b k : is_byte b -> Z.land (Z.lxor (Z.land (Z.lxor b (Z.land k 255)) 255) (Z.land k 255)) 255 = b.
Proof.
  intros Hb. rewrite <- (byte_mask b Hb) at 2. apply Z.bits_inj'. intros n Hn.
  rewrite !Z.land_spec, !Z.lxor_spec, !Z.land_spec, Z.lxor_spec, Z.land_spec.
  destruct (Z.testbit b n), (Z.testbit k n), (Z.testbit 255 n); reflexivity.
Qed.

Lemma stream_back ch n l i : Forall is_byte l -> xor_stream ch n (xor_stream ch n l i) i = l.
Proof.
  intros Hl. revert i. induction Hl as [|b l Hb Hl IH]; intros i; [done|]. cbn [xor_stream]. rewrite IH.
  unfold keystream_byte. by rewrite xor_back.
Qed.

Lemma stream_bytes ch n l i : Forall is_byte (xor_stream ch n l i) /\ length (xor_stream ch n l i) = length l.
Proof.
  revert i. induction l as [|b l IH]; intros i; [by split; constructor|]. cbn [xor_stream length]. destruct (IH (i + 1)) as [Hb ->].
  split; [|done]. constructor; [|done]. unfold is_byte. change 0xff with (Z.ones 8). rewrite Z.land_ones by done.
  by apply Z.mod_pos_bound.
Qed.

(** What is sent is received: over any hash, a message sent on a channel is
    accepted on it when its nonce is above the last one accepted, and decrypts to
    the bytes that were sent; with a nonce that is not, or on a channel of another
    identifier, it is refused and nothing is decrypted. *)
Theorem channel_roundtrip (ch ch' : AgentChannel) (plaintext : list Z) (n prev : Z) (Hb : Forall is_byte plaintext) :
  (prev < n -> receiveOverChannel ch (sendOverChannel ch plaintext n) prev = Ok plaintext) /\
  (n <= prev -> receiveOverChannel ch (sendOverChannel ch plaintext n) prev = Throw (JsError "Error" "ReplayedNonce")) /\
  (ch_channel_id ch' <> ch_channel_id ch ->
   receiveOverChannel ch' (sendOverChannel ch plaintext n) prev = Throw (JsError "Error" "MismatchedChannel")).
Proof.
  unfold receiveOverChannel, sendOverChannel. cbn [msg_channel_id nonce ciphertext tag]. rewrite !Z.eqb_refl. cbn [negb].
  split_and!.
  - intros Hn. destruct (Z.leb_spec n prev); [lia|]. by rewrite stream_back.
  - intros Hn. by destruct (Z.leb_spec n prev); [|lia].
  - intros Hc. by destruct (Z.eqb_spec (ch_channel_id ch) (ch_channel_id ch')); [congruence|].
Qed.

(** ** The digest of a ciphertext *)

(** The bytes in little-endian order. *)
Fixpoint le_value (l : list Z) : Z := match l with [] => 0 | b :: l => b + 256 * le_value l end.

Lemma le_value_range l : Forall is_byte l -> 0 <= le_value l < 256 ^ Z.of_nat (length l).
Proof.
  induction 1 as [|b l Hb Hl IH]; [done|]. cbn [le_value length]. unfold is_byte in Hb.
  rewrite Nat2Z.inj_succ, Z.pow_succ_r by lia. lia.
Qed.

Lemma le_value_inj l l' : Forall is_byte l -> Forall is_byte l' -> length l = length l' -> le_value l = le_value l' -> l = l'.
Proof.
  intros Hl. revert l'. induction Hl as [|b l Hb Hl IH]; intros l' Hl' Hlen E; destruct Hl' as [|b' l' Hb' Hl']; try done.
  cbn [le_value length] in *. unfold is_byte in *. assert (b = b' /\ le_value l = le_value l') as [-> E'] by lia.
  f_equal. apply IH; [done|lia|done].
Qed.

Lemma lor_shift chunk v k : 0 <= k -> 0 <= chunk < 2 ^ k -> 0 <= v -> Z.lor chunk (Z.shiftl v k) = chunk + v * 2 ^ k.
Proof.
  intros Hk Hc Hv. rewrite Z.shiftl_mul_pow2 by done. rewrite <- Z.lxor_lor; [symmetry; apply Z.add_nocarry_lxor|];
    (apply Z.bits_inj'; intros n Hn; rewrite Z.land_spec, Z.bits_0, <- Z.shiftl_mul_pow2, Z.shiftl_spec by done;
     destruct (Z.ltb_spec n k); [rewrite (Z.testbit_neg_r v) by lia; apply andb_false_r|];
     rewrite <- (Z.mod_small chunk (2 ^ k)) by done; by rewrite Z.mod_pow2_bits_high by lia).
Qed.

(** One chunk: at most 31 bytes. *)
Lemma hash_one_chunk l acc chunk shift : Forall is_byte l -> l <> [] -> 0 <= shift -> 0 <= chunk < 2 ^ shift ->
  shift + 8 * Z.of_nat (length l) <= 248 ->
  hash_bytes_from l acc chunk shift = feltMod (Z.lxor acc (chunk + le_value l * 2 ^ shift)).
Proof.
  intros Hl. revert chunk shift. induction Hl as [|b l Hb Hl IH]; intros chunk shift Hne Hs Hc Hlen; [done|].
  cbn [hash_bytes_from le_value length] in *. unfold is_byte in Hb. rewrite lor_shift by lia.
  destruct (decide (l = [])) as [->|Hl0].
  - rewrite orb_true_r. cbn. do 2 f_equal. lia.
  - assert (1 <= Z.of_nat (length l)) by (destruct l; [done|cbn [length]; lia]).
    destruct (Z.leb_spec 248 (shift + 8)); [lia|]. destruct (Nat.eqb_spec (length l) 0); [lia|]. cbn [orb].
    rewrite IH; [|done|lia| |lia].
    + do 2 f_equal. rewrite Z.pow_add_r by lia. change (2 ^ 8) with 256. lia.
    + rewrite Z.pow_add_r by lia. change (2 ^ 8) with 256. nia.
Qed.


Lemma hash_bytes_range l acc chunk shift : 0 <= acc < FELT252_PRIME -> 0 <= hash_bytes_from l acc chunk shift < FELT252_PRIME.
Proof.
  revert acc chunk shift. induction l as [|b l IH]; intros acc chunk shift Hacc; [done|]. cbn [hash_bytes_from].
  case_match; apply IH; [apply feltMod_range|done].
Qed.

Lemma hashBytes_range l : 0 <= hashBytes l < FELT252_PRIME.
Proof. by apply hash_bytes_range. Qed.

Lemma hashBytes_short l : Forall is_byte l -> (length l <= 31)%nat -> hashBytes l = le_value l.
Proof.
  intros Hl Hlen. unfold hashBytes. destruct l as [|b l]; [done|].
  rewrite hash_one_chunk; try done; [|cbn [length] in *; lia]. rewrite Z.lxor_0_l, Z.pow_0_r, Z.mul_1_r, Z.add_0_l.
  apply feltMod_small. pose proof (le_value_range (b :: l) Hl) as Hr.
  assert (256 ^ Z.of_nat (length (b :: l)) <= 256 ^ 31) by (apply Z.pow_le_mono_r; lia).
  assert (256 ^ 31 < FELT252_PRIME) by done. lia.
Qed.

(** A short ciphertext cannot be altered in place: a message of at most 31
    bytes whose ciphertext is replaced by another of the same length is refused
    without being decrypted, provided the hash, keyed by the secret and the nonce
    of the message, separates two field elements; and whatever the hash, if such a
    message is accepted then the hash takes one value on two different lists, the
    two the tag is computed from. *)
Theorem tampering_detected (ch : AgentChannel) (plaintext c : list Z) (n prev : Z)
    (Hc : Forall is_byte c) (Hlen : length c = length plaintext) (Hshort : (length c <= 31)%nat)
    (Hnew : c <> ciphertext (sendOverChannel ch plaintext n)) (Hprev : prev < n) :
  let m := mkMessage (ch_channel_id ch) n c (tag (sendOverChannel ch plaintext n)) in
  let keyed x := [feltMod (shared_secret ch); feltMod n; x; LABEL_AUTH_TAG] in
  ((forall x y, 0 <= x < FELT252_PRIME -> 0 <= y < FELT252_PRIME -> poseidonHashBigInt (keyed x) = poseidonHashBigInt (keyed y) -> x = y) ->
   receiveOverChannel ch m prev = Throw (JsError "Error" "InvalidTag")) /\
  (forall text, receiveOverChannel ch m prev = Ok text ->
   let c0 := ciphertext (sendOverChannel ch plaintext n) in
   keyed (hashBytes c) <> keyed (hashBytes c0) /\ poseidonHashBigInt (keyed (hashBytes c)) = poseidonHashBigInt (keyed (hashBytes c0))).
Proof.
  cbn zeta. destruct (stream_bytes ch n plaintext 0) as [Hb Hl].
  assert (Hne : hashBytes c <> hashBytes (ciphertext (sendOverChannel ch plaintext n))).
  { intros E. apply Hnew. cbn [ciphertext sendOverChannel] in *. rewrite !hashBytes_short in E; [|done|lia|done|done].
    by apply le_value_inj; [..|lia|]. }
  unfold receiveOverChannel, sendOverChannel in *. cbn [msg_channel_id nonce ciphertext tag] in *. rewrite Z.eqb_refl. cbn [negb].
  destruct (Z.leb_spec n prev); [lia|]. unfold computeAuthTag. split.
  - intros Hinj. case_match eqn:E; [done|]. apply negb_false_iff, Z.eqb_eq in E.
    apply Hinj in E; [done|apply hashBytes_range|apply hashBytes_range].
  - intros text. case_match eqn:E; [done|]. intros _. apply negb_false_iff, Z.eqb_eq in E. split; [|done].
    intros Ek. by injection Ek.
Qed.

(** A zero byte more at the end, and the message is still accepted. *)
Lemma hash_bytes_trailing_zero l : Forall is_byte l -> (length l < 31)%nat -> hashBytes (l ++ [0]) = hashBytes l.
Proof.
  intros Hl Hlen. rewrite !hashBytes_short; [|done|lia| |rewrite length_app; cbn; lia].
  - induction l as [|b l IH]; [done|]. inversion Hl; subst. cbn [app le_value]. cbn [length] in Hlen. rewrite IH; [done|done|lia].
  - apply Forall_app. split; [done|]. by repeat constructor.
Qed.

Theorem zero_extension_undetected (ch : AgentChannel) (plaintext : list Z) (n prev : Z) :
  (length plaintext < 31)%nat -> prev < n ->
  let m := sendOverChannel ch plaintext n in
  exists extended, length extended = S (length plaintext) /\
    receiveOverChannel ch (mkMessage (msg_channel_id m) (nonce m) (ciphertext m ++ [0]) (tag m)) prev = Ok extended.
Proof.
  intros Hlen Hn. cbn zeta. destruct (stream_bytes ch n plaintext 0) as [Hb Hl].
  unfold receiveOverChannel, sendOverChannel. cbn [msg_channel_id nonce ciphertext tag]. rewrite Z.eqb_refl. cbn [negb].
  destruct (Z.leb_spec n prev); [lia|]. unfold computeAuthTag. rewrite hash_bytes_trailing_zero, Z.eqb_refl by (done || lia).
  eexists. split; [|done]. destruct (stream_bytes ch n (xor_stream ch n plaintext 0 ++ [0]) 0) as [_ ->].
  rewrite length_app. cbn [length]. lia.
Qed.

(** A nonce is reduced before it is hashed, but not before it is compared. *)
Lemma keystream_wrap ch n l i : xor_stream ch (n + FELT252_PRIME) l i = xor_stream ch n l i.
Proof.
  revert i. induction l as [|b l IH]; intros i; [done|]. cbn [xor_stream]. rewrite IH.
  unfold keystream_byte, deriveKeystreamWord. by rewrite feltMod_wrap.
Qed.

Theorem replay_by_wraparound (ch : AgentChannel) (plaintext : list Z) (n : Z) :
  Forall is_byte plaintext ->
  let m := sendOverChannel ch plaintext n in
  receiveOverChannel ch m (n - 1) = Ok plaintext /\
  receiveOverChannel ch (mkMessage (msg_channel_id m) (nonce m + FELT252_PRIME) (ciphertext m) (tag m)) n = Ok plaintext.
Proof.
  intros Hb. unfold receiveOverChannel, sendOverChannel. cbn [msg_channel_id nonce ciphertext tag]. rewrite Z.eqb_refl. cbn [negb].
  assert (HP : 0 < FELT252_PRIME) by done.
  unfold computeAuthTag. rewrite feltMod_wrap, keystream_wrap, Z.eqb_refl, stream_back by done. cbn [negb].
  destruct (Z.leb_spec n (n - 1)); [lia|]. by destruct (Z.leb_spec (n + FELT252_PRIME) n); [lia|].
Qed.

(** * Composition *)

(** The delegations of the agents, each valid at its reading of the clock. *)
Definition delegations_valid (agents : list AgentClaim) (now : nat -> Z) (i : nat) : Prop :=
  forall j a d, agents !! j = Some a -> delegationChain a = Some d -> isDelegationScopeValid (dc_scope d) (now (i + j)%nat) = true.

Lemma check_delegations_spec agents now i ws :
  match check_delegations agents now i ws with
  | Ok _ => delegations_valid agents now i
  | Throw e => err_name e = "CompositionError" /\ ~ delegations_valid agents now i
  end.
Proof.
  revert i ws. induction agents as [|a agents IH]; intros i ws; [by intros j|]. cbn [check_delegations].
  assert (Hvalid : delegations_valid (a :: agents) now i <->
    match delegationChain a with Some d => isDelegationScopeValid (dc_scope d) (now i) = true | None => True end /\
    delegations_valid agents now (S i)).
  { split.
    - intros Hv. split.
      + destruct (delegationChain a) as [d|] eqn:E; [|done]. specialize (Hv 0%nat a d eq_refl E). by rewrite Nat.add_0_r in Hv.
      + intros j a' d Hj E. specialize (Hv (S j) a' d Hj E). by rewrite Nat.add_succ_r in Hv.
    - intros [Hd Hv] [|j] a' d Hj E.
      + injection Hj as ->. rewrite E in Hd. by rewrite Nat.add_0_r.
      + specialize (Hv j a' d Hj E). by rewrite Nat.add_succ_r. }
  destruct (delegationChain a) as [d|]; [destruct (isDelegationScopeValid (dc_scope d) (now i)) eqn:Ed|].
  - specialize (IH (S i) (om_set (ac_role a) d ws)). destruct (check_delegations agents now (S i) _); [by apply Hvalid|].
    destruct IH as [He Hn]. split; [done|]. intros Hv. by apply Hvalid in Hv as [_ Hv].
  - split; [done|]. intros Hv. by apply Hvalid in Hv as [? _].
  - specialize (IH (S i) ws). destruct (check_delegations agents now (S i) _); [by apply Hvalid|].
    destruct IH as [He Hn]. split; [done|]. intros Hv. by apply Hvalid in Hv as [_ Hv].
Qed.

(** The witness kept for a role is the last one given for it. *)
Lemma check_delegations_witness agents now i ws ws' r : check_delegations agents now i ws = Ok ws' ->
  om_get r ws' = default (om_get r ws)
    (Some <$> last (omap (fun a => if (ac_role a =? r)%string then delegationChain a else None) agents)).
Proof.
  revert i ws. induction agents as [|a agents IH]; intros i ws E; [by injection E as <-|]. cbn [check_delegations] in E. csimpl.
  destruct (delegationChain a) as [d|]; [case_match; [|done]|]; (rewrite (IH _ _ E); clear IH E); [|by destruct (ac_role a =? r)%string].
  rewrite om_get_set. destruct (String.eqb_spec (ac_role a) r), (decide (ac_role a = r)); try done.
  rewrite last_cons. by destruct (last _).
Qed.

(** ** Merged payloads *)

Lemma assign_NoDup l m : NoDup m.*1 -> NoDup (fold_left assign_field l m).*1.
Proof.
  revert m. induction l as [|kv l IH]; intros m Hm; [done|]. cbn [fold_left]. apply IH. unfold assign_field.
  case_match; [done|]. by apply om_set_NoDup.
Qed.

Lemma assign_get l m k : k <> "__proto__" -> NoDup l.*1 ->
  om_get k (fold_left assign_field l m) = match om_get k l with Some v => Some v | None => om_get k m end.
Proof.
  intros Hk. revert m. induction l as [|[k' v'] l IH]; intros m Hn; [done|]. csimpl in Hn. apply NoDup_cons in Hn as [Hk' Hn].
  cbn [fold_left]. rewrite IH by done. csimpl. unfold assign_field. cbn [fst snd].
  case_decide as Hd; subst.
  - apply om_get_None in Hk'. rewrite Hk'. destruct (String.eqb_spec k' "__proto__"); [done|]. by rewrite om_get_set_eq.
  - destruct (om_get k l); [done|]. case_match; [done|]. by apply om_get_set_ne.
Qed.

(** The value of the first agent that has the key. *)
Definition first_having (k : string) (agents : list AgentClaim) : option jsval := head (omap (fun a => om_get k (ac_payload a)) agents).

Lemma merge_get agents k : k <> "__proto__" -> Forall (fun a => NoDup (ac_payload a).*1) agents ->
  om_get k (mergePayloads agents) = first_having k agents.
Proof.
  intros Hk Hn. unfold mergePayloads. rewrite <- fold_left_rev_right, rev_involutive.
  assert (Hnd : NoDup (fold_right (fun c m => fold_left assign_field (own_order (ac_payload c)) m) [] agents).*1).
  { clear Hn. induction agents as [|a agents IH]; [by constructor|]. by apply assign_NoDup. }
  rewrite <- (om_get_perm _ _ k Hnd) by (by rewrite own_order_perm). clear Hnd. unfold first_having.
  induction Hn as [|a agents Ha Hn IH]; [done|]. cbn [fold_right]. csimpl.
  rewrite assign_get by (done || by rewrite own_order_perm).
  rewrite (om_get_perm (own_order _) (ac_payload a)) by (by rewrite own_order_perm). rewrite IH. by destruct (om_get k (ac_payload a)).
Qed.

(** Composition decides: it succeeds exactly on two agents or more whose
    delegations have all not expired when they are looked at, and throws a
    [CompositionError] otherwise; the claim lists the roles in order, counts the
    agents, is flat for two of them only, gives each payload field the value of the
    first agent that has it, and keeps for each role the last delegation given. *)
Theorem compose_decides (agents : list AgentClaim) (now : nat -> Z)
    (Hkeys : Forall (fun a => NoDup (ac_payload a).*1) agents) :
  match composeAgents agents now with
  | Ok c => (2 <= length agents)%nat /\ delegations_valid agents now 0 /\
      roles c = map ac_role agents /\ sc_n c = Z.of_nat (length agents) /\ (sc_mode c = flat <-> length agents = 2%nat) /\
      (forall k, k <> "__proto__" -> om_get k (sc_payload c) = first_having k agents) /\
      (forall r, om_get r (delegationWitnesses c) =
         last (omap (fun a => if (ac_role a =? r)%string then delegationChain a else None) agents))
  | Throw e => err_name e = "CompositionError" /\ ~ ((2 <= length agents)%nat /\ delegations_valid agents now 0)
  end.
Proof.
  unfold composeAgents. destruct agents as [|a [|b rest]]; [split; [done|cbn; lia]..|].
  pose proof (check_delegations_spec (a :: b :: rest) now 0 []) as Hd.
  destruct (check_delegations (a :: b :: rest) now 0 []) as [ws|e] eqn:E; cbn [mbind result_bind]; [|by destruct Hd; split; [|intros [_ ?]]].
  cbn [roles sc_n sc_mode sc_payload delegationWitnesses]. split_and!; try done; [cbn [length]; lia| | |].
  - by destruct (Nat.eqb_spec (length (a :: b :: rest)) 2).
  - intros k Hk. by apply merge_get.
  - intros r. rewrite (check_delegations_witness _ _ _ _ _ r E). by destruct (last _).
Qed.

(** The lists hashed by [composeRecursive], step by step. *)
Definition step_input (ns : list Z) (k : nat) : list Z :=
  match k with
  | O => [feltMod (nth 0 ns 0); feltMod (nth 1 ns 0); LABEL_RECURSIVE]
  | S _ => [composeRecursive (take (S k) ns); feltMod (nth (S k) ns 0); LABEL_RECURSIVE]
  end.

Lemma composeRecursive_snoc ns x : (2 <= length ns)%nat ->
  composeRecursive (ns ++ [x]) = poseidonHashBigInt [composeRecursive ns; feltMod x; LABEL_RECURSIVE].
Proof.
  intros Hn. destruct ns as [|a [|b ns]]; [cbn in Hn; lia..|]. unfold composeRecursive. cbn [app nth].
  rewrite !skipn_cons, !drop_0. by rewrite fold_left_app.
Qed.

Lemma nth_snoc (l : list Z) k x : k = length l -> nth k (l ++ [x]) 0 = x.
Proof. intros ->. apply nth_middle. Qed.

Lemma composeRecursive_steps ns k : length ns = S (S k) -> composeRecursive ns = poseidonHashBigInt (step_input ns k).
Proof.
  intros Hn. destruct k as [|k].
  - destruct ns as [|a [|b [|c ns]]]; try done; cbn in Hn; lia.
  - destruct (exists_last (l := ns)) as (front & x & ->); [by intros ->|].
    rewrite length_app in Hn. cbn [length] in Hn. rewrite composeRecursive_snoc by lia. cbn [step_input].
    by rewrite take_app_length', nth_snoc by lia.
Qed.

Lemma step_input_prefix ns x k : (S k < length ns)%nat -> step_input (ns ++ [x]) k = step_input ns k.
Proof.
  intros Hk. destruct k; cbn [step_input]; rewrite ?app_nth1 by lia; [done|]. by rewrite take_app_le by lia.
Qed.

(** A composed nullifier binds every agent at its place: two lists of agents
    of the same length, at least two, with the same composed nullifier and not the
    same nullifiers up to reduction into the field, give at some step of the two
    computations two different lists that the hash takes to one value; and a change
    of order of two different nullifiers is such a change. *)
Theorem composed_binds (ns ns' : list Z) (Hlen : length ns = length ns') (H2 : (2 <= length ns)%nat)
    (Hne : map feltMod ns <> map feltMod ns') (E : composeRecursive ns = composeRecursive ns') :
  exists k, (S k < length ns)%nat /\ step_input ns k <> step_input ns' k /\
    poseidonHashBigInt (step_input ns k) = poseidonHashBigInt (step_input ns' k).
Proof.
  revert ns' Hlen H2 Hne E. induction ns as [|x ns IH] using rev_ind; intros ns' Hlen H2 Hne E; [cbn in H2; lia|].
  rewrite length_app in *. cbn [length] in *.
  destruct (exists_last (l := ns')) as (front & x' & ->); [by intros ->; cbn in Hlen; lia|].
  rewrite length_app in Hlen. cbn [length] in Hlen.
  destruct (decide (length ns = 1%nat)) as [H1|H1].
  { destruct ns as [|a [|? ?]], front as [|a' [|? ?]]; try done; try (cbn in *; lia).
    exists 0%nat. split; [lia|]. split; [|done]. intros Ei. apply Hne. cbn in Ei |- *. by injection Ei as -> ->. }
  rewrite !composeRecursive_snoc in E by lia.
  destruct (decide (composeRecursive ns = composeRecursive front)) as [Ef|Ef];
    [destruct (decide (feltMod x = feltMod x')) as [Ex|Ex]|].
  - destruct (IH front) as (k & Hk & Hd & Hh); [lia|lia| |done|].
    + intros Em. apply Hne. by rewrite !map_app, Em; cbn; rewrite Ex.
    + exists k. rewrite !step_input_prefix by lia. split; [lia|done].
  - exists (length ns - 1)%nat. rewrite <- !composeRecursive_steps by (rewrite length_app; cbn [length]; lia).
    rewrite !composeRecursive_snoc by lia. split; [lia|]. split; [|done].
    destruct (length ns - 1)%nat as [|k] eqn:Ek; [lia|]. cbn [step_input].
    rewrite !take_app_length', !nth_snoc by lia. intros Ei. by injection Ei.
  - exists (length ns - 1)%nat. rewrite <- !composeRecursive_steps by (rewrite length_app; cbn [length]; lia).
    rewrite !composeRecursive_snoc by lia. split; [lia|]. split; [|done].
    destruct (length ns - 1)%nat as [|k] eqn:Ek; [lia|]. cbn [step_input].
    rewrite !take_app_length' by lia. intros Ei. by injection Ei.
Qed.

(** The first agents of a composition can be replaced by their composition, of a
    group of which no agent is left in the second list. *)
Theorem recursive_prefix_collides (a b : Z) (rest : list Z) :
  composeRecursive (composeRecursive [a; b] :: rest) = composeRecursive (a :: b :: rest) \/ rest = [].
Proof.
  destruct rest as [|c rest]; [by right|]. left. unfold composeRecursive. cbn [drop nth fold_left]. by rewrite hash_reduced.
Qed.

End Hash.

(** * Concrete runs *)

(** Without the package: the module's own hash. *)
Definition no_starknet : PoseidonBackend := {| starknetPoseidon := None |}.
(** A hash that answers its third element. *)
Definition picking : PoseidonBackend := {| starknetPoseidon := Some (fun l => nth 2 l 0) |}.

(** * Channels *)

Definition ch0 : AgentChannel := establishChannel (H := no_starknet) 42 77 0.
Definition ch1 : AgentChannel := establishChannel (H := picking) 42 77 0.
Definition hello : list Z := [104; 101; 108; 108; 111].

Lemma channel_roundtrip_witness :
  3 < 4 /\ receiveOverChannel (H := no_starknet) ch0 (sendOverChannel (H := no_starknet) ch0 hello 4) 3 = Ok hello.
Proof.
  split; [done|]. apply (channel_roundtrip (H := no_starknet) ch0 ch0 hello 4 3); [|done].
  apply (bool_decide_unpack _). vm_compute. exact I.
Defined.

Lemma tampering_detected_witness :
  3 < 4 /\
  receiveOverChannel (H := picking) ch1
    (mkMessage (ch_channel_id ch1) 4 hello (tag (sendOverChannel (H := picking) ch1 [1; 2; 3; 4; 5] 4))) 3
  = Throw (JsError "Error" "InvalidTag").
Proof.
  split; [done|]. refine (proj1 (tampering_detected (H := picking) ch1 [1; 2; 3; 4; 5] hello 4 3 _ _ _ _ _) _); try done.
  - apply (bool_decide_unpack _). vm_compute. exact I.
  - cbn. lia.
  - intros x y Hx Hy. unfold poseidonHashBigInt. cbn [starknetPoseidon picking map nth].
    by rewrite !feltMod_small.
Defined.

(** * Composition *)

Definition scope_until (seconds : Z) : DelegationScope := mkScope ["pay"] (num_of_Z seconds).
Definition payer : AgentClaim :=
  buildAgentClaimWithDelegation 7 "pay" [("limit", JNum (num_of_Z 10)); ("who", JStr "payer")] [1; 2] (scope_until 2000) 0.
Definition reader : AgentClaim := mkAgentClaim 8 "read" [("who", JStr "reader"); ("seen", JBool true)] None.

Lemma compose_decides_witness :
  let c := composeAgents (H := no_starknet) [payer; reader; payer] (fun _ => 1000) in
  is_ok c = true /\ match c with Ok c => om_get "who" (sc_payload c) = Some (JStr "payer") | Throw _ => False end.
Proof.
  split; [vm_compute; reflexivity|].
  pose proof (compose_decides (H := no_starknet) [payer; reader; payer] (fun _ => 1000)) as Hc.
  destruct (composeAgents _ _) as [c|e] eqn:E; [|vm_compute in E; discriminate E].
  destruct Hc as (_ & _ & _ & _ & _ & Hp & _); [|exact (Hp "who" ltac:(done))].
  apply (bool_decide_unpack _). vm_compute. exact I.
Defined.

(** Too late, nothing is composed. *)
Example expired_delegation :
  composeAgents (H := no_starknet) [payer; reader] (fun _ => 2000000)
  = Throw (CompositionError ("delegation for role " ++ quoted "pay" ++ " has expired")).
Proof. vm_compute. reflexivity. Qed.

(** The module's own hash takes two different lists to one value. *)
Example placeholder_collides : poseidonPlaceholder [0; RC0] = poseidonPlaceholder [1; 0].
Proof. vm_compute. reflexivity. Qed.

Example placeholder_ignores_zeros l : poseidonPlaceholder (0 :: l) = poseidonPlaceholder l.
Proof. done. Qed.

Lemma composed_binds_witness :
  composeRecursive (H := no_starknet) [0; RC0] = composeRecursive (H := no_starknet) [1; 0] /\
  exists k, step_input (H := no_starknet) [0; RC0] k <> step_input (H := no_starknet) [1; 0] k.
Proof.
  assert (E : composeRecursive (H := no_starknet) [0; RC0] = composeRecursive (H := no_starknet) [1; 0]) by (vm_compute; reflexivity).
  split; [exact E|].
  destruct (composed_binds (H := no_starknet) [0; RC0] [1; 0] eq_refl ltac:(done) ltac:(vm_compute; discriminate) E) as (k & _ & Hk & _).
  by exists k.
Defined.

(** Adding the position to a role before an exclusive or does not keep the order. *)
Example roles_unordered : rolesToFelt ["credit-agent"; "loan-agent"] = rolesToFelt ["loan-agent"; "credit-agent"].
Proof. vm_compute. reflexivity. Qed.

(** Two agents who exchange their roles have the same transcript, over any hash. *)
Theorem swapped_roles_same_digest `{PoseidonBackend} (a b : AgentClaim) (now : nat -> Z) :
  let with_role r c := mkAgentClaim (agentNullifier c) r (ac_payload c) None in
  transcriptDigest <$> composeAgents [with_role "credit-agent" a; with_role "loan-agent" b] now
  = transcriptDigest <$> composeAgents [with_role "loan-agent" a; with_role "credit-agent" b] now.
Proof.
  unfold composeAgents. cbn -[rolesToFelt LABEL_TRANSCRIPT composePair mergePayloads]. by rewrite roles_unordered.
Qed.

(** A label is cut at its thirty-first byte. *)
Example labels_cut : labelToFelt "a-role-label-of-more-than-31-bytes" = labelToFelt "a-role-label-of-more-than-31-byt".
Proof. vm_compute. reflexivity. Qed.

(** A leaf of a coming hour is fresh. *)
Example leaf_from_the_future : isLeafFresh (mkLeaf UAR_DOMAIN_TAG_AGENTIC 0 1000 "pay") 24 0 = true.
Proof. vm_compute. reflexivity. Qed.
