(* ===== verification/AnchorChecks.v ===== *)
(** Deterministic anchors of a stage artifact, [delivery/artifact-json.ts] and
    [delivery/anchor-checks.ts]: functions of the bytes of the artifact.

    Strings hold code units below 256: the dashes outside them that
    [no-forbidden-style] also looks for cannot occur. *)

From S2P Require Import Prelude JsNum JsValue Canonical Json JsonParse TokenBase Regex.
From Stdlib Require Import Ascii.

(** * Shapes of parsed artifacts *)

Definition parseJson (artifact : string) : option (list (string * jsval)) :=
  match json_parse artifact with Ok (JObj o) => Some o | _ => None end.

Definition nonEmpty (v : jsval) : bool :=
  match v with
  | JArr l => (0 <? length l)%nat
  | JStr s => negb (is_blank s)
  | JObj o => (0 <? length o)%nat
  | JNull | JUndef => false
  | _ => true
  end.

Definition isRealRef (v : jsval) : bool := match v with JStr s => negb (is_blank s) | _ => false end.
Definition isNonEmptyObject (v : jsval) : bool := match v with JObj o => (0 <? length o)%nat | _ => false end.
Definition hasRealElement (v : jsval) : bool :=
  match v with JArr l => existsb (fun e => isRealRef e || isNonEmptyObject e) l | _ => false end.

(** * Families of anchors *)

Definition EXECUTION_GROUNDED_ANCHORS : list string := ["ci-green"; "ci-e2e-green"; "pass-count"; "pass-count-positive"].
Definition REQUIRE_POSITIVE_PASS : list string := ["pass-count"; "pass-count-positive"].
Definition CONFIG_GROUNDED_ANCHORS : list string := ["config-valid"].
Definition ENGINE_GROUNDED_ANCHORS : list string :=
  ["test-surface-frozen"; "pass-count-monotone"; "claims-grounded"; "no-competitor-mention"; "no-banned-phrasing";
   "urls-allowlisted"].

Definition POST_CHAR_LIMIT : nat := 280.

Definition RE_DEBUG : regex := re "\bconsole\.log\b|\bprint\(|\bdbg!\(|\bTODO(?!\s*[:(]?\s*\w+-\d+)".
Definition RE_FORBIDDEN : regex := re_i "\b(revolutionary|game-changing|groundbreaking|next-gen|unprecedented)\b".
Definition RE_SHA256 : regex := re "^[0-9a-f]{64}$".

Record AnchorResult := mkAnchor { pass : bool; an_rationale : string }.
Definition AnchorCheck : Type := string -> result AnchorResult.

Definition verdict (pass : bool) (rationale : string) : result AnchorResult := Ok (mkAnchor pass rationale).
Definition passes (rationale : string) : result AnchorResult := verdict true rationale.
Definition fails (rationale : string) : result AnchorResult := verdict false rationale.

(** [!!o && p(o)]. *)
Definition on_object (p : list (string * jsval) -> bool) (a : string) : bool :=
  match parseJson a with Some o => p o | None => false end.
Definition is_array (v : jsval) : bool := match v with JArr _ => true | _ => false end.
Definition is_true (v : jsval) : bool := match v with JBool b => b | _ => false end.
Definition is_string (v : jsval) : bool := match v with JStr _ => true | _ => false end.

(** An array at the top, or under the structured output of the stage. *)
Definition structured (o : list (string * jsval)) : option jsval :=
  match get_field "structuredOutput" o with (JObj _ | JArr _) as v => Some v | _ => None end.
Definition array_at (k : string) (o : list (string * jsval)) : option (list jsval) :=
  match get_field k o with
  | JArr l => Some l
  | _ => match structured o with
         | Some n => match member k n with JArr l => Some l | _ => None end
         | None => None
         end
  end.

(** * Code stages *)

Definition json_schema : AnchorCheck := fun a => verdict (on_object (fun _ => true) a) "valid JSON object".

Definition nonempty_fields : AnchorCheck := fun a =>
  verdict (on_object (fun o => nonEmpty (get_field "scope" o) && nonEmpty (get_field "success_criteria" o)) a)
    "scope and success_criteria non-empty".

Definition yaml_schema : AnchorCheck := fun a =>
  if on_object (fun o => negb (length o =? 0)%nat) a then passes "non-empty YAML mapping (JSON object)"
  else fails "yaml-schema: artifact must parse as a non-empty JSON object (at least one key:value pair)".

Definition acceptance_criteria_present : AnchorCheck := fun a =>
  match parseJson a ≫= array_at "acceptance_criteria" with
  | None => fails "acceptance-criteria-present: artifact must have an acceptance_criteria JSON array (top-level or under structuredOutput)"
  | Some ac =>
      if existsb isRealRef ac then passes ">=1 acceptance criterion (structured)"
      else fails "acceptance-criteria-present: acceptance_criteria array must contain at least one non-empty entry"
  end.

Definition interfaces_present : AnchorCheck := fun a =>
  match parseJson a with
  | None => fails "interfaces-present: artifact must be a JSON object with an interfaces field"
  | Some o =>
      let iface := get_field "interfaces" o in
      if negb (isNonEmptyObject iface) && negb (hasRealElement iface) then
        fails "interfaces-present: interfaces must be a non-empty object or an array with >=1 real element (rejected: null/false/0/empty entries)"
      else passes "interface contracts present (structured)"
  end.

Definition MIN_LEN : nat := 20.
Definition trimmed_text (v : jsval) : string := match v with JStr s => js_trim s | _ => "" end.
Definition adr_sections : AnchorCheck := fun a =>
  match parseJson a with
  | None => fails "adr-sections: artifact must be a JSON object with context/decision/consequences fields"
  | Some o =>
      let src := match get_field "sections" o with JObj s => s | _ => o end in
      let short k := (String.length (trimmed_text (get_field k src)) <? MIN_LEN)%nat in
      let refused k := fails ("adr-sections: " ++ k ++ " must be a non-empty string of >= " ++ str_of_nat MIN_LEN ++ " chars")%string in
      if short "context" then refused "context"
      else if short "decision" then refused "decision"
      else if short "consequences" then refused "consequences"
      else passes "Context/Decision/Consequences present (structured, >=20 chars each)"
  end.

Definition AXIOMS : list string := ["institutionnel"; "sota"; "robuste"; "anti_fragile"; "profitable"].
(** [k.toLowerCase().replace(/-/g, "_")]. *)
Definition normalise_key (k : string) : string := replace_all (re "-") "_" (lower k).
Definition axiom_check_5 : AnchorCheck := fun a =>
  match parseJson a with
  | None => fails "axiom-check-5: artifact must be a JSON object with an axiom_check or axioms field"
  | Some o =>
      match (match get_field "axiom_check" o with JNull | JUndef => get_field "axioms" o | v => v end) with
      | JObj ax =>
          let normalised := om_of_list (map (fun kv => (normalise_key kv.1, kv.2)) (own_order ax)) in
          match List.find (fun axiom => negb (isRealRef (get_field axiom normalised))) AXIOMS with
          | Some axiom => fails ("axiom-check-5: axiom " ++ quoted axiom ++ " is missing or has an empty justification")%string
          | None => passes "Axiom-Check: all 5 axioms present with non-empty justifications (structured)"
          end
      | _ => fails "axiom-check-5: axiom_check (or axioms) must be a non-null object mapping each axiom to a justification"
      end
  end.

Definition no_debug_artifacts : AnchorCheck := fun a => verdict (negb (re_test RE_DEBUG a)) "no debug artifacts in diff".

Definition diff_nonempty : AnchorCheck := fun a =>
  match parseJson a with
  | None => fails "diff-nonempty: artifact is not valid JSON (fail-closed)"
  | Some o =>
      match array_at "changed_files" o with
      | None => fails "diff-nonempty: changed_files must be a JSON array (top-level or under structuredOutput)"
      | Some files =>
          let real := List.filter isRealRef files in
          if (length real =? 0)%nat then
            fails "diff-nonempty: changed_files holds no real entry ; the stage produced no diff (fail-closed)"
          else passes ("diff-nonempty: " ++ str_of_nat (length real) ++ " changed file(s) declared")%string
      end
  end.

Definition pass_count_positive : AnchorCheck := fun a =>
  verdict (on_object (fun o =>
      match get_field "pass_count" o, get_field "fail_count" o with
      | JNum p, JNum f => num_gtb p num_zero && num_eqb f num_zero
      | _, _ => false
      end) a) "pass_count > 0 and fail_count == 0".

(** The text of a field that holds one. *)
Definition text_of (v : jsval) : string := match v with JStr s => s | _ => "" end.

Definition branch_pushed_or_skipped : AnchorCheck := fun a =>
  match parseJson a with
  | None => fails "branch-pushed-or-skipped: publish-report.json is not valid JSON"
  | Some o =>
      if isRealRef (get_field "branch" o) && isRealRef (get_field "pr_url" o) then
        passes ("publish: PR opened (" ++ text_of (get_field "pr_url" o) ++ ")")%string
      else if is_true (get_field "skipped" o) && isRealRef (get_field "reason" o) then
        passes ("publish: documented skip (" ++ text_of (get_field "reason" o) ++ ")")%string
      else if is_true (get_field "skipped" o) then fails "branch-pushed-or-skipped: skipped:true without a reason"
      else fails "branch-pushed-or-skipped: incomplete publish (branch and/or pr_url missing)"
  end.

(** * Posts *)

(** The structured output, or the artifact. *)
Definition output_of (a : string) : option jsval :=
  o ← parseJson a; Some (default (JObj o) (structured o)).

Definition materiality_declared : AnchorCheck := fun a =>
  match output_of a with
  | None => fails "materiality-declared: artifact must have a boolean has_materiality field"
  | Some so =>
      match member "has_materiality" so with
      | JBool _ =>
          if is_string (member "angle" so) && is_string (member "reasoning" so) then passes "materiality-declared: shape present"
          else fails "materiality-declared: artifact must have string angle and reasoning fields"
      | _ => fails "materiality-declared: artifact must have a boolean has_materiality field"
      end
  end.

Definition posts_of (a : string) : option (list jsval) := so ← output_of a; as_array (member "posts" so).

Fixpoint check_posts (posts : list jsval) (i : nat) : option string :=
  match posts with
  | [] => None
  | JStr p :: rest =>
      if (POST_CHAR_LIMIT <? String.length p)%nat then
        Some ("char-limit-respected: posts[" ++ str_of_nat i ++ "] is " ++ str_of_nat (String.length p) ++ " chars, exceeds " ++
              str_of_nat POST_CHAR_LIMIT)%string
      else check_posts rest (S i)
  | _ :: _ => Some ("char-limit-respected: posts[" ++ str_of_nat i ++ "] is not a string")%string
  end.
Definition char_limit_respected : AnchorCheck := fun a =>
  match posts_of a with
  | None | Some [] => fails "char-limit-respected: artifact must have a non-empty posts array"
  | Some posts =>
      match check_posts posts 0 with
      | Some why => fails why
      | None => passes ("char-limit-respected: " ++ str_of_nat (length posts) ++ " post(s), all <=" ++ str_of_nat POST_CHAR_LIMIT ++ " chars")%string
      end
  end.

(** The posts that are strings, joined by line feeds. *)
Definition post_text (a : string) : string := join (String "010"%char "") (omap as_string (default [] (posts_of a))).

Definition no_forbidden_style : AnchorCheck := fun a =>
  if re_test (re "--") (post_text a) then fails "no-forbidden-style: em-dash (or double-hyphen) found"
  else match exec RE_FORBIDDEN (post_text a) with
       | Some m => fails ("no-forbidden-style: forbidden adjective " ++ quoted (matched m) ++ " found")%string
       | None => passes "no-forbidden-style: clean"
       end.

Definition hashtags_present : AnchorCheck := fun a =>
  if re_test (re "[#@]\w+") (post_text a) then passes "hashtags-present: found"
  else fails "hashtags-present: no hashtag or @mention in any post".

Definition posted_or_skipped : AnchorCheck := fun a =>
  match parseJson a with
  | None => fails "posted-or-skipped: publish-report is not valid JSON"
  | Some o =>
      if is_true (get_field "posted" o) && isRealRef (get_field "post_url" o) then
        passes ("posted-or-skipped: posted (" ++ text_of (get_field "post_url" o) ++ ")")%string
      else if is_true (get_field "skipped" o) && isRealRef (get_field "reason" o) then
        passes ("posted-or-skipped: documented skip (" ++ text_of (get_field "reason" o) ++ ")")%string
      else fails "posted-or-skipped: incomplete publish (posted+post_url or documented skip required)"
  end.

(** * Attestations and documentation *)

Definition ci_attested (o : list (string * jsval)) : bool := nonEmpty (get_field "ci_run_ref" o) && is_true (get_field "ci_passed" o).
Definition ci_green : AnchorCheck := fun a => verdict (on_object ci_attested a) "verifier-attested CI green (v1 attestation)".
Definition ci_e2e_green : AnchorCheck := fun a => verdict (on_object ci_attested a) "verifier-attested E2E green (v1 attestation)".
Definition brain_entry_id : AnchorCheck := fun a =>
  verdict (on_object (fun o => nonEmpty (get_field "brain_entry_id" o)) a) "archive_knowledge returned an id".
Definition tags_json_array : AnchorCheck := fun a => verdict (on_object (fun o => is_array (get_field "tags" o)) a) "tags is a JSON array".
Definition exported_symbols_documented : AnchorCheck := fun a =>
  verdict (on_object (fun o => nonEmpty (get_field "symbols_documented" o)) a) "changed exported symbols documented".

Definition docs_reference_spec : AnchorCheck := fun a =>
  match parseJson a with
  | None => fails "docs-reference-spec: artifact must be a JSON object with a spec_ref or references field"
  | Some o =>
      if isRealRef (get_field "spec_ref" o) then passes "docs reference the spec (spec_ref is a non-empty string)"
      else if isNonEmptyObject (get_field "references" o) || hasRealElement (get_field "references" o) then
        passes "docs reference the spec (references has a real element)"
      else fails "docs-reference-spec: spec_ref must be a non-empty string OR references must hold >=1 real element (rejected: false/0/null/empty)"
  end.

(** Equality in a [Set], of values read from one text: two objects are never
    the same. *)
Definition same_in_set (v w : jsval) : bool :=
  match v, w with
  | JStr s, JStr t => (s =? t)%string
  | JNum x, JNum y => num_eqb x y
  | JBool b, JBool c => Bool.eqb b c
  | JNull, JNull | JUndef, JUndef => true
  | _, _ => false
  end.
Definition set_of (l : list jsval) : list jsval :=
  fold_left (fun s v => if existsb (same_in_set v) s then s else s ++ [v]) l [].
Definition two_lens_verdict : AnchorCheck := fun a =>
  verdict (on_object (fun o => match get_field "verdicts" o with
      | JArr l => (2 <=? length (set_of (List.filter js_truthy (map (member "source") l))))%nat
      | _ => false
      end) a) ">=2 distinct verdict sources".

(** * Audits *)

Definition filled_array (k : string) (a : string) : bool :=
  on_object (fun o => is_array (get_field k o) && nonEmpty (get_field k o)) a.
Definition audit_questions_present : AnchorCheck := fun a => verdict (filled_array "questions" a) "questions[] is non-empty".
Definition audit_evidence_present : AnchorCheck := fun a => verdict (filled_array "sources" a) "sources[] is non-empty".
Definition audit_analysis_present : AnchorCheck := fun a => verdict (filled_array "observations" a) "observations[] is non-empty".

Definition structured_finding (f : jsval) : bool :=
  match f with
  | JObj o => nonEmpty (get_field "severity" o) && nonEmpty (get_field "title" o) && nonEmpty (get_field "evidence_ref" o)
  | _ => false
  end.
Definition audit_findings_structured : AnchorCheck := fun a =>
  match (o ← parseJson a; as_array (get_field "findings" o)) with
  | None => fails "findings must be a JSON array"
  | Some findings =>
      if negb (forallb structured_finding findings) then fails "every finding must have non-empty severity, title, evidence_ref"
      else passes (if (length findings =? 0)%nat then "findings[] is empty (clean audit)" else "all findings have required fields")
  end.

Definition audit_report_summary_present : AnchorCheck := fun a =>
  verdict (on_object (fun o => nonEmpty (get_field "summary" o)) a) "summary field is non-empty".

Definition audit_report_references_findings : AnchorCheck := fun a =>
  match parseJson a with
  | None => fails "audit-report-references-findings: artifact must be a JSON object"
  | Some o =>
      if isRealRef (get_field "findings_ref" o) then passes "artifact references findings via findings_ref (non-empty string)"
      else if isNonEmptyObject (get_field "findings" o) || hasRealElement (get_field "findings" o) then
        passes "artifact contains a findings structure with a real element"
      else fails "audit-report-references-findings: findings_ref must be a non-empty string OR findings must hold >=1 real element (rejected: 0/false/null/empty)"
  end.

(** * Configuration and documents *)

Definition config_files_present : AnchorCheck := fun a =>
  match parseJson a with
  | None => fails "config-files-present: artifact is not valid JSON (fail-closed)"
  | Some o =>
      match get_field "files_changed" o with
      | JArr ((_ :: _) as files) => passes (">=1 config file declared in files_changed (" ++ str_of_nat (length files) ++ " file(s))")%string
      | _ => fails "config-files-present: no files declared in files_changed (fail-closed)"
      end
  end.

Definition is_sha256 (v : jsval) : bool := match v with JStr s => re_test RE_SHA256 s | _ => false end.

(** [JSON.stringify(v)] in a template. *)
Definition stringified (v : jsval) : result string := o ← stringify v; Ok (default "undefined" o).
Definition wrong_kind (o : list (string * jsval)) : result AnchorResult :=
  t ← stringified (get_field "kind" o); fails ("kind must be " ++ quoted "document" ++ ", got " ++ t)%string.

Definition document_intent : AnchorCheck := fun a =>
  match parseJson a with
  | None => fails "invalid JSON: cannot parse artifact"
  | Some o =>
      if negb (is_str "document" (get_field "kind" o)) then wrong_kind o
      else if negb (nonEmpty (get_field "title" o)) then fails "title must be non-empty"
      else if negb (is_sha256 (get_field "document_sha256" o)) then
        fails "document_sha256 must be exactly 64 lowercase hex characters"
      else if negb (nonEmpty (get_field "frozen_spec_ref" o)) then fails "frozen_spec_ref must be non-empty"
      else passes "document-intent: kind, title, sha256, frozen_spec_ref valid"
  end.

Definition VALID_VERDICTS : list string := ["confirmed"; "partially_confirmed"; "refuted"; "unverifiable"].
Definition valid_verdict (v : jsval) : bool := match v with JStr s => bool_decide (s ∈ VALID_VERDICTS) | _ => false end.
Fixpoint check_verdicts (items : list jsval) : result (option string) :=
  match items with
  | [] => Ok None
  | JObj entry :: rest =>
      if negb (nonEmpty (get_field "claim_id" entry)) then Ok (Some "every verdict item must have a non-empty claim_id")
      else if negb (valid_verdict (get_field "verdict" entry)) then
        t ← template_text (get_field "verdict" entry);
        Ok (Some ("verdict " ++ quoted t ++ " is not in {confirmed, partially_confirmed, refuted, unverifiable}")%string)
      else if is_str "refuted" (get_field "verdict" entry) then
        Ok (Some "document-verify-record: REFUTED verdict found (fail-closed: zero refuted required to seal)")
      else check_verdicts rest
  | _ :: _ => Ok (Some "every verdict item must be a non-null object")
  end.

Definition document_verify_record : AnchorCheck := fun a =>
  match parseJson a with
  | None => fails "invalid JSON: cannot parse artifact"
  | Some o =>
      if negb (is_str "document" (get_field "kind" o)) then wrong_kind o
      else if negb (is_sha256 (get_field "document_sha256" o)) then
        fails "document_sha256 must be exactly 64 lowercase hex characters"
      else match get_field "record" o with
      | JObj record =>
          match get_field "verdicts" record with
          | JArr ((_ :: _) as verdicts) =>
              why ← check_verdicts verdicts;
              match why with
              | Some w => fails w
              | None => passes ("document-verify-record: " ++ str_of_nat (length verdicts) ++ " verdict(s), none refuted")%string
              end
          | _ => fails "record.verdicts must be a non-empty array"
          end
      | _ => fails "record must be a non-null object"
      end
  end.

(** * The registry *)

Definition ANCHOR_CHECKS : list (string * AnchorCheck) :=
  [("json-schema", json_schema); ("nonempty-fields", nonempty_fields); ("yaml-schema", yaml_schema);
   ("acceptance-criteria-present", acceptance_criteria_present); ("interfaces-present", interfaces_present);
   ("adr-sections", adr_sections); ("axiom-check-5", axiom_check_5); ("no-debug-artifacts", no_debug_artifacts);
   ("diff-nonempty", diff_nonempty); ("pass-count-positive", pass_count_positive);
   ("branch-pushed-or-skipped", branch_pushed_or_skipped); ("materiality-declared", materiality_declared);
   ("char-limit-respected", char_limit_respected); ("no-forbidden-style", no_forbidden_style);
   ("hashtags-present", hashtags_present); ("posted-or-skipped", posted_or_skipped); ("ci-green", ci_green);
   ("ci-e2e-green", ci_e2e_green); ("brain-entry-id", brain_entry_id); ("tags-json-array", tags_json_array);
   ("exported-symbols-documented", exported_symbols_documented); ("docs-reference-spec", docs_reference_spec);
   ("two-lens-verdict", two_lens_verdict); ("audit-questions-present", audit_questions_present);
   ("audit-evidence-present", audit_evidence_present); ("audit-analysis-present", audit_analysis_present);
   ("audit-findings-structured", audit_findings_structured);
   ("audit-report-summary-present", audit_report_summary_present);
   ("audit-report-references-findings", audit_report_references_findings);
   ("config-files-present", config_files_present); ("document-intent", document_intent);
   ("document-verify-record", document_verify_record)].
