(* ===== verification/TestCommand.v ===== *)
(** The zero-trust boundary of test commands, [delivery/node-exec.ts]: what a
    producer may ask the verifier to run.

    Spawning is the platform's; [stat] tells whether a path is a directory, or
    throws.  Paths are those of POSIX systems. *)

From S2P Require Import Prelude Regex JsNum JsValue TokenBase.
From Stdlib Require Import Ascii.

(** [node:path]. *)
Definition isAbsolute (p : string) : bool := starts_with "/" p.

Definition Error (message : string) : jserror := JsError "Error" message.

(** * The allowlist *)

Definition PURE_TEST_RUNNERS : list string := ["vitest"; "jest"; "mocha"; "pytest"; "scarb"; "snforge"].
Definition PKG_MANAGERS : list string := ["pnpm"; "npm"; "yarn"].
Definition SUBCOMMAND_RUNNERS : list (string * list string) := [("cargo", ["test"; "nextest"]); ("go", ["test"])].
Definition DANGEROUS_FLAGS : list string :=
  ["-r"; "--require"; "--import"; "-e"; "--eval"; "-p"; "--print"; "--eval-file"].
Definition DANGEROUS_SUBCOMMANDS : list string := ["dlx"; "exec"; "x"; "run-script"; "create"].
Definition PROJECT_CHECKERS : list (string * list string) := [("tsc", []); ("biome", ["check"; "lint"; "ci"])].
Definition CHECKER_ORACLE_FLAGS : list (string * regex) :=
  [("tsc", re "^(--project|-p|--build|-b|--watch|-w)$"); ("biome", re "^(--write|--fix|--unsafe|--config-path)$")].
Definition MAKE_ESCAPE_FLAG : regex := re "^(-C|--directory|-f|--file|--makefile)$".
Definition SHELL_METACHARS : regex := re ("[;&|<>$`(){}\n\r" ++ dquote ++ "'\\]")%string.

Record ParsedTestCommand := mkCommand { bin : string; args : list string }.

(** What stands before the first equals sign of a flag. *)
Definition flagName (token : string) : string :=
  if negb (starts_with "-" token) then token else hd token (segments "=" token).

Definition subcommandPosition (args : list string) : option string :=
  List.find (fun a => negb (starts_with "-" a)) args.

Fixpoint assertContainedPaths (bin : string) (args : list string) : result unit :=
  match args with
  | [] => Ok tt
  | t :: rest =>
      if starts_with "-" t then assertContainedPaths bin rest
      else if isAbsolute t || bool_decide (".." ∈ segments "/" t) then
        Throw (Error (bin ++ " path '" ++ t ++ "' escapes the worktree (rejected)")%string)
      else assertContainedPaths bin rest
  end.

(** The first flag that [bad] names is refused with [message]. *)
Fixpoint scan_flags (bad : string -> bool) (message : string -> string) (args : list string) : result unit :=
  match args with
  | [] => Ok tt
  | t :: rest => if bad (flagName t) then Throw (Error (message (flagName t))) else scan_flags bad message rest
  end.

(** [tokens[0]] and the others. *)
Definition words (cmd : string) : list string := re_split (re "\s+") (js_trim cmd).

(** The rules of the binary: [sub] is the word in subcommand position. *)
Definition check_package_manager (sub : option string) : result unit :=
  throw_if (negb (bool_decide (sub = Some "test"))) (Error
    ("package-manager test_cmd must invoke the 'test' script first (got '" ++ default "<none>" sub ++ "')")%string).
Definition check_subcommand (bin : string) (allowed : list string) (sub : option string) : result unit :=
  throw_if (negb (bool_decide (default "" sub ∈ allowed))) (Error
    (bin ++ " test_cmd subcommand '" ++ default "" sub ++ "' is not an allowed test subcommand")%string).
Definition check_checker (bin : string) (allowed : list string) (args : list string) (sub : option string) : result unit :=
  _ ← scan_flags (fun f => match om_get bin CHECKER_ORACLE_FLAGS with Some r => re_test r f | None => false end)
    (fun f => bin ++ " flag '" ++ f ++ "' moves the oracle instead of reading it (rejected)")%string args;
  _ ← match allowed, sub with
      | [], Some s => Throw (Error (bin ++ " test_cmd takes no positional argument (got '" ++ s ++
          "') ; it must answer against the project config")%string)
      | [], None => Ok tt
      | _, _ => throw_if (match sub with Some s => negb (bool_decide (s ∈ allowed)) | None => true end) (Error
          (bin ++ " test_cmd subcommand '" ++ default "<none>" sub ++ "' is not an allowed checker subcommand")%string)
      end;
  assertContainedPaths bin args.
Definition check_make (args : list string) : result unit :=
  scan_flags (re_test MAKE_ESCAPE_FLAG) (fun f => "make flag '" ++ f ++ "' can escape the worktree (rejected)")%string args.

(** An object literal answers an inherited member for these names, which has no
    [has]. *)
Definition check_binary (bin : string) (args : list string) : result unit :=
  let sub := subcommandPosition args in
  if bool_decide (bin ∈ PURE_TEST_RUNNERS) then Ok tt
  else if (bin =? "node")%string && bool_decide ("--test" ∈ args) then Ok tt
  else if bool_decide (bin ∈ PKG_MANAGERS) then check_package_manager sub
  else match om_get bin SUBCOMMAND_RUNNERS with
  | Some allowed => check_subcommand bin allowed sub
  | None =>
      if bool_decide (bin ∈ object_prototype) then Throw (JsError "TypeError" "subRunner.has is not a function")
      else match om_get bin PROJECT_CHECKERS with
      | Some allowed => check_checker bin allowed args sub
      | None =>
          if (bin =? "make")%string then check_make args
          else Throw (Error ("test_cmd binary '" ++ bin ++ "' is not in the allowed test-runner set")%string)
      end
  end.

Definition validateTestCommand (stat : string -> option bool) (cmd cwd : string) : result ParsedTestCommand :=
  _ ← throw_if (negb (isAbsolute cwd)) (Error ("worktree must be an absolute path (got '" ++ cwd ++ "')")%string);
  _ ← match stat cwd with
      | None => Throw (Error ("worktree does not exist: '" ++ cwd ++ "'")%string)
      | Some isDirectory => throw_if (negb isDirectory) (Error ("worktree is not a directory: '" ++ cwd ++ "'")%string)
      end;
  _ ← throw_if (re_test SHELL_METACHARS cmd)
    (Error "test_cmd contains shell metacharacters (rejected: no chaining, redirection, or substitution allowed)");
  let bin := hd "" (words cmd) in
  let args := tl (words cmd) in
  _ ← scan_flags (fun f => bool_decide (f ∈ DANGEROUS_FLAGS))
    (fun f => "test_cmd flag '" ++ f ++ "' can execute arbitrary code (rejected)")%string args;
  _ ← match subcommandPosition args with
      | Some s => throw_if (bool_decide (s ∈ DANGEROUS_SUBCOMMANDS))
          (Error ("test_cmd subcommand '" ++ s ++ "' runs arbitrary packages (rejected)")%string)
      | None => Ok tt
      end;
  _ ← check_binary bin args;
  Ok (mkCommand bin args).

(** ** What the executors do with it *)

Record ExecResult := mkExec { exitCode : Z; stdout : string; stderr : string }.

(** What [spawnSync] answers: a status unless the process was killed or did not
    start, and an error. *)
Record spawned := mkSpawned { sp_status : option Z; sp_stdout : option string; sp_stderr : option string; sp_error : option string }.
Definition exec_result (r : spawned) : ExecResult :=
  mkExec (default (match sp_error r with Some _ => 127 | None => 1 end) (sp_status r)) (default "" (sp_stdout r))
    (default "" (sp_stderr r) ++ match sp_error r with Some m => String "010" m | None => "" end)%string.

Definition buildRealExec (stat : string -> option bool) (spawnSync : string -> list string -> string -> spawned)
    (cmd cwd : string) : result ExecResult :=
  c ← validateTestCommand stat cmd cwd; Ok (exec_result (spawnSync (bin c) (args c) cwd)).

Definition buildGitExec (spawnSync : string -> list string -> string -> spawned) (cmd cwd : string) : result ExecResult :=
  Ok (exec_result (spawnSync (hd "git" (words cmd)) (tl (words cmd)) cwd)).

(** * What is allowed *)

Definition is_meta (c : ascii) : bool :=
  existsb (Ascii.eqb c) (String.list_ascii_of_string (";&|<>$`(){}'\" ++ dquote ++ String "010" (String "013" ""))).

Fixpoint str_any (p : ascii -> bool) (s : string) : bool :=
  match s with EmptyString => false | String c s => p c || str_any p s end.

(** An expression that is one class looks at single characters. *)
Lemma class_test p s : re_test (RSeq (RClass p) REmpty) s = str_any p s.
Proof.
  unfold re_test, exec. generalize (@None ascii) as prev. induction s as [|c s IH]; intros prev; [done|].
  cbn [exec_from match_here rmatch m_rest str_any]. unfold match_here. cbn [rmatch m_rest m_caps].
  destruct (p c); [done|]. cbn [orb]. rewrite <- (IH (Some c)). by destruct (exec_from _ _ s).
Qed.

Lemma metachars s : re_test SHELL_METACHARS s = str_any is_meta s.
Proof.
  assert (exists p, SHELL_METACHARS = RSeq (RClass p) REmpty /\ forall c, p c = is_meta c) as (p & -> & Hp).
  { eexists. split; [vm_compute; reflexivity|]. intros [[] [] [] [] [] [] [] []]; reflexivity. }
  rewrite class_test. induction s as [|c s IH]; [done|]. cbn [str_any]. by rewrite Hp, IH.
Qed.

Lemma scan_flags_ok bad message args : scan_flags bad message args = Ok tt <-> forall a, a ∈ args -> bad (flagName a) = false.
Proof.
  induction args as [|a args IH]; cbn [scan_flags]; [split; [intros _ a Ha; by apply elem_of_nil in Ha|done]|].
  destruct (bad (flagName a)) eqn:E.
  - split; [done|]. intros H. specialize (H a ltac:(left)). congruence.
  - rewrite IH. split.
    + by intros H b [->|Hb]%elem_of_cons; [|apply H].
    + intros H b Hb. apply H. by right.
Qed.

Lemma contained_ok bin args : assertContainedPaths bin args = Ok tt <->
  forall a, a ∈ args -> starts_with "-" a = false -> isAbsolute a = false /\ ".." ∉ segments "/" a.
Proof.
  induction args as [|a args IH]; cbn [assertContainedPaths]; [split; [intros _ a Ha; by apply elem_of_nil in Ha|done]|].
  destruct (starts_with "-" a) eqn:Ef; [|destruct (isAbsolute a || _) eqn:E].
  - rewrite IH. split.
    + intros H b [->|Hb]%elem_of_cons; [congruence|by apply H].
    + intros H b Hb. apply H. by right.
  - split; [done|]. intros H. destruct (H a ltac:(left) Ef) as [Ha Hs]. rewrite Ha in E. cbn [orb] in E.
    by apply bool_decide_eq_true in E.
  - apply orb_false_iff in E as [Ea Es]. apply bool_decide_eq_false in Es. rewrite IH. split.
    + by intros H b [->|Hb]%elem_of_cons; [|apply H].
    + intros H b Hb. apply H. by right.
Qed.

(** The rule a binary and its arguments must follow. *)
Inductive permitted : string -> list string -> Prop :=
| perm_runner b args : b ∈ PURE_TEST_RUNNERS -> permitted b args
| perm_node args : "--test" ∈ args -> permitted "node" args
| perm_manager b args : b ∈ PKG_MANAGERS -> subcommandPosition args = Some "test" -> permitted b args
| perm_sub b allowed args s : (b, allowed) ∈ SUBCOMMAND_RUNNERS -> subcommandPosition args = Some s -> s ∈ allowed -> permitted b args
| perm_checker b allowed r args : (b, allowed) ∈ PROJECT_CHECKERS -> (b, r) ∈ CHECKER_ORACLE_FLAGS ->
    (forall a, a ∈ args -> re_test r (flagName a) = false) ->
    (forall a, a ∈ args -> starts_with "-" a = false -> isAbsolute a = false /\ ".." ∉ segments "/" a) ->
    match subcommandPosition args with Some s => s ∈ allowed | None => allowed = [] end -> permitted b args
| perm_make args : (forall a, a ∈ args -> re_test MAKE_ESCAPE_FLAG (flagName a) = false) -> permitted "make" args.

Lemma result_seq_ok {A} (m : result unit) (k : result A) b : (_ ← m; k) = Ok b <-> m = Ok tt /\ k = Ok b.
Proof. destruct m as [[]|e]; unfold mbind; cbn [result_bind]; [tauto|]. split; [done|by intros [? _]]. Qed.

Lemma negb_decide_false (P : Prop) `{Decision P} : negb (bool_decide P) = false <-> P.
Proof. rewrite negb_false_iff. apply bool_decide_eq_true. Qed.

Lemma check_checker_ok bin allowed r args : om_get bin CHECKER_ORACLE_FLAGS = Some r ->
  check_checker bin allowed args (subcommandPosition args) = Ok tt <->
  (forall a, a ∈ args -> re_test r (flagName a) = false) /\
  match subcommandPosition args with Some s => s ∈ allowed | None => allowed = [] end /\
  (forall a, a ∈ args -> starts_with "-" a = false -> isAbsolute a = false /\ ".." ∉ segments "/" a).
Proof.
  intros Hr. unfold check_checker. rewrite Hr, !result_seq_ok, scan_flags_ok, contained_ok.
  assert (E : match allowed, subcommandPosition args with
      | [], Some s => Throw (Error (bin ++ " test_cmd takes no positional argument (got '" ++ s ++
          "') ; it must answer against the project config")%string)
      | [], None => Ok tt
      | _, _ => throw_if (match subcommandPosition args with Some s => negb (bool_decide (s ∈ allowed)) | None => true end) (Error
          (bin ++ " test_cmd subcommand '" ++ default "<none>" (subcommandPosition args) ++ "' is not an allowed checker subcommand")%string)
      end = Ok tt <-> match subcommandPosition args with Some s => s ∈ allowed | None => allowed = [] end); [|by rewrite E].
  destruct (subcommandPosition args) as [s|], allowed as [|x allowed]; try done.
  - split; [done|]. by intros ?%elem_of_nil.
  - by rewrite throw_if_ok, negb_decide_false.
Qed.

(** A binary has one rule. *)
Lemma check_binary_ok b args : check_binary b args = Ok tt <-> permitted b args.
Proof.
  unfold check_binary. split.
  - case_bool_decide; [by intros _; constructor|].
    destruct ((b =? "node")%string && bool_decide ("--test" ∈ args)) eqn:En.
    { apply andb_true_iff in En as [->%String.eqb_eq Ha%bool_decide_eq_true]. by constructor. }
    destruct (decide (b ∈ PKG_MANAGERS)) as [Hb|Hb]; [rewrite bool_decide_eq_true_2 by done|rewrite bool_decide_eq_false_2 by done].
    { unfold check_package_manager. rewrite throw_if_ok, negb_decide_false. by apply perm_manager. }
    destruct (om_get b SUBCOMMAND_RUNNERS) as [allowed|] eqn:Es.
    { unfold check_subcommand. rewrite throw_if_ok, negb_decide_false. apply om_get_Some_in in Es. intros Hs.
      assert (Hne : "" ∉ allowed).
      { clear Hs. set_unfold in Es. destruct Es as [[= _ ->]|[[= _ ->]|[]]]; apply (bool_decide_unpack _); vm_compute; exact I. }
      destruct (subcommandPosition args) as [s|] eqn:E; [by eapply perm_sub|done]. }
    clear En. case_bool_decide; [done|]. destruct (om_get b PROJECT_CHECKERS) as [allowed|] eqn:Ep.
    { assert (exists r, om_get b CHECKER_ORACLE_FLAGS = Some r) as [r Hr].
      { cbn in Ep |- *. repeat (case_decide; [by eexists|]). done. }
      rewrite (check_checker_ok _ _ r) by done. apply om_get_Some_in in Ep, Hr. intros (? & ? & ?). by eapply perm_checker. }
    destruct (b =? "make")%string eqn:Em; [|done]. apply String.eqb_eq in Em as ->. unfold check_make. rewrite scan_flags_ok. by constructor.
  - intros Hp. destruct Hp as [b args Hb|args Ha|b args Hb Hs|b allowed args s Hb Hs Hin|b allowed r args Hb Hr Hf Hc Hs|args Hf].
    + by rewrite bool_decide_eq_true_2.
    + rewrite (bool_decide_eq_true_2 ("--test" ∈ args)) by done. reflexivity.
    + rewrite Hs. set_unfold in Hb. by destruct Hb as [->|[->|[->|[]]]].
    + assert (Hc : check_subcommand b allowed (Some s) = Ok tt) by (by apply throw_if_ok, negb_decide_false).
      rewrite Hs. set_unfold in Hb. destruct Hb as [[= -> ->]|[[= -> ->]|[]]]; exact Hc.
    + assert (Hg : om_get b CHECKER_ORACLE_FLAGS = Some r).
      { set_unfold in Hr. by destruct Hr as [[= -> ->]|[[= -> ->]|[]]]. }
      assert (Hk : check_checker b allowed args (subcommandPosition args) = Ok tt) by (by apply (check_checker_ok _ _ r)).
      clear -Hb Hk. set_unfold in Hb. destruct Hb as [[= -> ->]|[[= -> ->]|[]]]; exact Hk.
    + apply scan_flags_ok, Hf.
Qed.


(** * What gets through

    Short options carry their argument in the same word, what stands before
    [--test] is a script, and the characters of globs are not refused. *)

Definition in_repo (cmd : string) : result ParsedTestCommand := validateTestCommand (fun _ => Some true) cmd "/repo".

Example make_elsewhere : in_repo "make -C/tmp/elsewhere all" = Ok (mkCommand "make" ["-C/tmp/elsewhere"; "all"]).
Proof. vm_compute. reflexivity. Qed.
Example mocha_requires : in_repo "mocha -r./payload.js" = Ok (mkCommand "mocha" ["-r./payload.js"]).
Proof. vm_compute. reflexivity. Qed.
Example node_script : in_repo "node payload.js --test" = Ok (mkCommand "node" ["payload.js"; "--test"]).
Proof. vm_compute. reflexivity. Qed.
Example globs : in_repo "jest ~/x *#" = Ok (mkCommand "jest" ["~/x"; "*#"]).
Proof. vm_compute. reflexivity. Qed.
Example pnpm_filter : in_repo "pnpm test --filter x" = Ok (mkCommand "pnpm" ["test"; "--filter"; "x"]).
Proof. vm_compute. reflexivity. Qed.
Example tsc_project : is_ok (in_repo "tsc --project=other") = false.
Proof. vm_compute. reflexivity. Qed.
Example chained : is_ok (in_repo "pnpm test; ls") = false.
Proof. vm_compute. reflexivity. Qed.
