(* ===== verification/GateRunner.v ===== *)
(** The stage gate, [delivery/]: grounded test runs, validation of configuration
    files, adversarial lenses, the drift lens, and the gate that puts them to the
    verifier battery and builds the envelope.

    Executors, file readers, refuters and the YAML parser are ports: an executor
    answers a command in a directory, knowing how many commands were run before;
    the others are functions.  Paths are those of POSIX systems.  An unsigned
    envelope has the empty key identifier.  The marks of failed tests that are no
    code units below 256 are left out of the signal of a failure. *)

From S2P Require Import Prelude JsNum JsValue Canonical Json NumText JsonParse TokenBase Regex.
From S2P Require Import Battery BatteryProps GateEnvelope AnchorChecks TestCommand.
From Stdlib Require Import SpecFloat Ascii.

Definition newline : string := String "010"%char "".

(** * Contracts, [types.ts] *)

Inductive AnchorKind := pure_anchor | ci_anchor.
Record AnchorSpecInput := mkSpec { as_id : string; as_kind : AnchorKind }.
Definition ExecFn : Type := nat -> string -> string -> result ExecResult.
Definition FileReader : Type := string -> result string.
Record GroundedTestResult := mkGrounded {
  g_ran : bool; g_exitCode : Z; passCount : num; failCount : num; collectedCount : option num; skipCount : option num;
  g_rationale : string
}.
Record EngineVerdict := mkEngine { ev_pass : bool; ev_rationale : string }.
Record ConfigValidationResult := mkConfig { c_ran : bool; c_valid : bool; c_rationale : string }.

(** * Grounded tests, [grounded-tests.ts] *)

Fixpoint firstCount (output : string) (patterns : list regex) : option num :=
  match patterns with
  | [] => None
  | r :: rest =>
      match exec r output ≫= (fun m => om_get 1%nat (groups m)) with
      | Some digits => Some (num_of_Z (read_digits digits 0).1.1)
      | None => firstCount output rest
      end
  end.

Record TestCounts := mkCounts { tc_pass : num; tc_fail : num; tc_collected : option num; tc_skipped : option num }.
Definition parseTestCounts (output : string) : TestCounts :=
  mkCounts (default num_zero (firstCount output [re_i "#\s*pass\s+(\d+)"; re_i "(\d+)\s+passed"]))
    (default num_zero (firstCount output [re_i "#\s*fail\s+(\d+)"; re_i "(\d+)\s+failed"]))
    (firstCount output [re_i "#\s*tests\s+(\d+)"; re_i "collected\s+(\d+)\s+items?"; re_i "(\d+)\s+total"])
    (firstCount output [re_i "#\s*skipped\s+(\d+)"; re_i "(\d+)\s+skipped"]).

Definition RE_SIGNAL : regex :=
  re_i "\bnot ok\b|AssertionError|FAIL\b|Error:|expected:|actual:|ERR_TEST_FAILURE|expected .* to|received|at .*\.test\.".
Definition extractTestFailureDetail (output : string) : string :=
  let lines := List.filter (fun l => negb (l =? "")%string && re_test RE_SIGNAL l) (map js_trim (segments "010" output)) in
  let picked := take 12 lines in
  str_take 700 (replace_all (re "\s+") " "
    (if (0 <? length picked)%nat then join " | " picked else js_trim output)).

Definition not_run (rationale : string) : GroundedTestResult := mkGrounded false (-1) num_zero num_zero None None rationale.

Definition heads_match (actualHead declared : string) : bool :=
  (actualHead =? declared)%string || starts_with declared actualHead || starts_with actualHead declared.

Definition GIT_HEAD : string := "git rev-parse HEAD".

(** [None] is a match. *)
Definition verifyWorktreeCommit (worktree declaredCommit : string) (gitResult : result ExecResult) : option GroundedTestResult :=
  match gitResult with
  | Throw e => Some (not_run ("B3 commit binding: git rev-parse HEAD threw (fail-closed): " ++ err_message e)%string)
  | Ok r =>
      if negb (exitCode r =? 0) then
        Some (not_run ("B3 commit binding: git rev-parse HEAD failed (exit " ++ str_of_Z (exitCode r) ++ ") in worktree " ++
          worktree ++ " (fail-closed)")%string)
      else
        let actualHead := js_trim (stdout r) in
        let declared := js_trim declaredCommit in
        if heads_match actualHead declared then None
        else Some (not_run ("B3 commit binding: worktree HEAD (" ++ actualHead ++ ") does not match declared commit (" ++
          declared ++ ") (fail-closed)")%string)
  end.

Definition grounded_result (testCmd worktree : string) (res : ExecResult) : GroundedTestResult :=
  let combined := (stdout res ++ newline ++ stderr res)%string in
  let counts := parseTestCounts combined in
  let failureDetail := if negb (exitCode res =? 0) then extractTestFailureDetail combined else "" in
  let phrase o word := match o with Some n => (", " ++ num_to_string n ++ " " ++ word)%string | None => "" end in
  mkGrounded true (exitCode res) (tc_pass counts) (tc_fail counts) (tc_collected counts) (tc_skipped counts)
    ("ran '" ++ testCmd ++ "' in " ++ worktree ++ " -> exit " ++ str_of_Z (exitCode res) ++ " (" ++
     num_to_string (tc_pass counts) ++ " passed, " ++ num_to_string (tc_fail counts) ++ " failed" ++
     phrase (tc_collected counts) "collected" ++ phrase (tc_skipped counts) "skipped" ++ ")" ++
     (if (failureDetail =? "")%string then "" else " ; failing test detail: " ++ failureDetail))%string.

(** What the artifact declares under a key, if that is text. *)
Definition declared_text (k artifact : string) : string :=
  match parseJson artifact with Some o => text_of (get_field k o) | None => "" end.

(** The result, with the commands that were run and where. *)
Definition runGroundedTests (artifact : string) (exec : option ExecFn) (envelopeCommit : option string)
    (gitExec : option ExecFn) : GroundedTestResult * list (string * string) :=
  match exec with
  | None => (not_run "no executor wired: cannot ground ci anchor (fail-closed)", [])
  | Some exec =>
      let testCmd := declared_text "test_cmd" artifact in
      let worktree := declared_text "worktree" artifact in
      if is_blank testCmd || is_blank worktree then
        (not_run "artifact must declare non-empty worktree + test_cmd for an execution-grounded anchor (fail-closed)", [])
      else
        let declaredCommit := js_trim (default (declared_text "commit" artifact) envelopeCommit) in
        if (declaredCommit =? "")%string || (declaredCommit =? "unknown")%string then
          (not_run "execution-grounded stage requires a verifiable commit binding (B3) ; none supplied", [])
        else
          match verifyWorktreeCommit worktree declaredCommit (default exec gitExec 0%nat GIT_HEAD worktree) with
          | Some commitCheck => (commitCheck, [(GIT_HEAD, worktree)])
          | None =>
              (match exec 1%nat testCmd worktree with
               | Throw e => not_run ("executor threw (fail-closed): " ++ err_message e)%string
               | Ok res => grounded_result testCmd worktree res
               end, [(GIT_HEAD, worktree); (testCmd, worktree)])
          end
  end.

(** * Configuration files, [config-validation.ts] *)

Section Paths.

(** [node:path]: [..] goes up, and stays at the root. *)
Definition path_step (acc : list string) (seg : string) : list string :=
  if (seg =? "")%string || (seg =? ".")%string then acc
  else if (seg =? "..")%string then removelast acc else acc ++ [seg].
Definition normalise (p : string) : string := ("/" ++ join "/" (fold_left path_step (segments "/" p) []))%string.
Definition resolve (base p : string) : string := normalise (if isAbsolute p then p else base ++ "/" ++ p)%string.
Definition basename (p : string) : string :=
  default "" (list.last (List.filter (fun s => negb (s =? "")%string) (segments "/" p))).
Definition extname (base : string) : string :=
  match segments "." base with
  | [] | [_] | [""%string; _] | [""%string; ""%string; ""%string] => ""
  | parts => ("." ++ default "" (list.last parts))%string
  end.
End Paths.

Definition RE_DOCKERFILE_FROM : regex := re_i "^\s*FROM\s+\S+".
(** The text from each of its line starts. *)
Fixpoint line_starts (s : string) : list string :=
  match s with
  | EmptyString => []
  | String c s' => if (code c =? 10)%nat || (code c =? 13)%nat then s' :: line_starts s' else line_starts s'
  end.
Definition has_from (content : string) : bool := existsb (re_test RE_DOCKERFILE_FROM) (content :: line_starts content).

Definition config_ok (rationale : string) : ConfigValidationResult := mkConfig true true rationale.
Definition config_refused (rationale : string) : ConfigValidationResult := mkConfig true false ("config-valid: " ++ rationale)%string.
Definition config_not_run (rationale : string) : ConfigValidationResult := mkConfig false false ("config-valid: " ++ rationale)%string.

Definition is_dockerfile (base : string) : bool := (base =? "Dockerfile")%string || starts_with "Dockerfile." base.

Section Config.
Context (parseYaml : string -> result jsval).

(** What a file is, or why it is refused. *)
Definition classify (base content : string) : string + string :=
  if is_dockerfile base then
    if has_from content then inl (base ++ "(dockerfile)")%string
    else inr ("Dockerfile '" ++ base ++ "' has no FROM instruction (fail-closed)")%string
  else
    let ext := lower (extname base) in
    if (ext =? ".yml")%string || (ext =? ".yaml")%string then
      match parseYaml content with
      | Throw e => inr ("YAML '" ++ base ++ "' failed to parse (fail-closed): " ++ err_message e)%string
      | Ok JNull | Ok JUndef => inr ("YAML '" ++ base ++ "' is empty or contains no document (fail-closed)")%string
      | Ok _ => inl (base ++ "(yaml)")%string
      end
    else if (ext =? ".json")%string then
      match json_parse content with
      | Throw e => inr ("JSON '" ++ base ++ "' failed to parse (fail-closed): " ++ err_message e)%string
      | Ok _ => inl (base ++ "(json)")%string
      end
    else inr ("file '" ++ base ++ "' is not a recognized config file type (expected: .yml, .yaml, .json, Dockerfile)")%string.

Definition root_prefix (root : string) : string := if ends_with "/" root then root else (root ++ "/")%string.

Definition validate_entry (readFile : FileReader) (root : string) (entry : jsval) : string + string :=
  match entry with
  | JStr e =>
      if is_blank e then inr "files_changed contains an empty or non-string entry (fail-closed)"
      else
        let base := basename e in
        let abs := resolve root e in
        if isAbsolute e then inr ("file '" ++ e ++ "' is an absolute path (escapes the worktree, fail-closed)")%string
        else if negb (abs =? root)%string && negb (starts_with (root_prefix root) abs) then
          inr ("file '" ++ e ++ "' escapes the worktree (fail-closed)")%string
        else match readFile abs with
        | Throw err => inr ("file '" ++ base ++ "' could not be read (fail-closed): " ++ err_message err)%string
        | Ok content => classify base content
        end
  | _ => inr "files_changed contains an empty or non-string entry (fail-closed)"
  end.

Fixpoint validate_files (readFile : FileReader) (root : string) (files : list jsval) (classified : list string)
    : ConfigValidationResult :=
  match files with
  | [] => config_ok (str_of_nat (length classified) ++ " config file(s) validated: [" ++ join ", " classified ++ "]")%string
  | entry :: rest =>
      match validate_entry readFile root entry with
      | inr why => config_refused why
      | inl what => validate_files readFile root rest (classified ++ [what])
      end
  end.

(** [cwd] is the directory of the process. *)
Definition runConfigValidation (cwd artifact : string) (readFile : option FileReader) : ConfigValidationResult :=
  match parseJson artifact with
  | None => config_not_run "artifact is not valid JSON (fail-closed)"
  | Some o =>
      let worktree := js_trim (text_of (get_field "worktree" o)) in
      match get_field "files_changed" o with
      | JArr ((_ :: _) as files) =>
          if (worktree =? "")%string then
            config_not_run "artifact must declare non-empty worktree + files_changed (fail-closed)"
          else match readFile with
          | None => config_not_run "no file reader wired; cannot read worktree content (fail-closed)"
          | Some readFile => validate_files readFile (resolve cwd worktree) files []
          end
      | _ => config_not_run "artifact must declare non-empty worktree + files_changed (fail-closed)"
      end
  end.
End Config.

(** * Lenses *)

Definition scored (b : bool) (rationale : string) : result RawResult :=
  Ok (ResultObj (ScoreNum (if b then num_one else num_zero)) (RatStr rationale)).

(** ** Adversaries, [adversary.ts] *)

Definition RefuteFn : Type := string -> string -> string -> result (bool * string).
Inductive AdversaryIntensity := adv_none | adv_judge | adv_refute_quorum.
Record AdversaryConfigInput := mkAdversary { intensity : AdversaryIntensity; adv_lenses : option Z }.

Definition ADVERSARY_ANGLES : list string :=
  ["completeness"; "correctness"; "security"; "ambiguity"; "testability"; "assumptions"].
Definition slugify (s : string) : string := lower (replace_all (re_i "[^a-z0-9]+") "-" s).
Definition clampLensCount (count : Z) : Z := if count <? 2 then 2 else count.
Definition distinctAngles (count : Z) : list string :=
  let out := take (Z.to_nat count) ADVERSARY_ANGLES in
  out ++ map (fun i => "aspect-" ++ str_of_nat i)%string (seq (length out) (Z.to_nat count - length out)).

Definition adversary_lens (stageId : string) (refuter : RefuteFn) (angle : string) : BatteryLens string :=
  {| l_name := ("adversary:" ++ slugify stageId ++ ":" ++ angle)%string;
     l_evaluate := fun candidate =>
       match refuter stageId candidate angle with
       | Ok (refuted, rationale) => scored refuted rationale
       | Throw e => scored true ("refuter error (fail-closed): " ++ err_message e)%string
       end;
     l_polarity := refute; l_criticality := soft; l_engine := llm_judge; l_model := None |}.

Definition buildAdversaryLenses (stageId : string) (config : AdversaryConfigInput) (refuter : RefuteFn) : list (BatteryLens string) :=
  let lenses count := map (adversary_lens stageId refuter) (distinctAngles count) in
  match intensity config with
  | adv_none => []
  | adv_judge => lenses 1
  | adv_refute_quorum => lenses (clampLensCount (default 2 (adv_lenses config)))
  end.

(** ** Drift, [drift-lens.ts] *)

Definition DRIFT_ANCHOR_ID : string := "anti-drift-scope".
(** [allowed_paths] of the scope, if both are there. *)
Record FrozenIntent := mkIntent { allowed_paths : option (list string) }.
Record DriftArtifact := mkDrift { worktree : option string; diff_base : option string; diff_head : option string }.

Definition HEX_REF_RE : regex := re "^[0-9a-f]{7,40}$".
Definition isHexRef (s : option string) : bool := match s with Some s => re_test HEX_REF_RE s | None => false end.
Definition normaliseGitPath (p : string) : option string :=
  if isAbsolute p || bool_decide (".." ∈ segments "/" p) then None else Some p.
Definition strip_slash (p : string) : string := if ends_with "/" p then str_take (String.length p - 1) p else p.
Definition matchesAllowedPrefix (filePath : string) (allowedPaths : list string) : bool :=
  existsb (fun raw => let prefix := strip_slash raw in
    (filePath =? prefix)%string || starts_with (prefix ++ "/") filePath) allowedPaths.

(** [JSON.stringify] of text that may be missing. *)
Definition shown (o : option string) : string := match o with Some s => json_quote s | None => "undefined" end.

Definition changed_files (out : string) : list string :=
  List.filter (fun l => negb (l =? "")%string) (map js_trim (segments "010" out)).
Definition drift_violations (allowedPaths files : list string) : list string :=
  omap (fun rawFile => match normaliseGitPath rawFile with
    | None => Some (rawFile ++ " (rejected: absolute path or ../ traversal)")%string
    | Some file => if matchesAllowedPrefix file allowedPaths then None else Some file
    end) files.

(** The checks before anything is run: the paths and the command. *)
Definition drift_input (intent : option FrozenIntent) (artifact : option DriftArtifact) (expectedHead : option string)
    : string + (list string * string * string * string) :=
  match intent with
  | None => inl "intent is absent (fail-closed)"
  | Some i =>
      match allowed_paths i with
      | None | Some [] => inl "intent.scope.allowed_paths is absent or empty (fail-closed)"
      | Some paths =>
          match artifact with
          | None => inl "artifact is absent (fail-closed)"
          | Some a =>
              let wt := default "" (worktree a) in
              if negb (isAbsolute wt) then
                inl ("artifact.worktree must be an absolute path (got " ++ shown (worktree a) ++ "; fail-closed)")%string
              else if negb (isHexRef (diff_base a)) then
                inl ("artifact.diff_base must be a 7-40 char lowercase hex ref (got " ++ shown (diff_base a) ++
                     "; fail-closed; injection rejected)")%string
              else if negb (isHexRef (diff_head a)) then
                inl ("artifact.diff_head must be a 7-40 char lowercase hex ref (got " ++ shown (diff_head a) ++
                     "; fail-closed; injection rejected)")%string
              else
                let base := default "" (diff_base a) in
                let head := default "" (diff_head a) in
                match expectedHead with
                | Some h =>
                    if negb (isHexRef (Some h)) then
                      inl ("cannot bind drift to a non-hex gated commit (got " ++ json_quote h ++ "; fail-closed)")%string
                    else if negb (head =? h)%string then
                      inl ("drift range head does not match the gated commit (artifact.diff_head=" ++ json_quote head ++
                           ", expectedHead=" ++ json_quote h ++ "; fail-closed)")%string
                    else if (base =? head)%string then
                      inl ("diff_base equals diff_head (" ++ base ++ "); empty range proves nothing (fail-closed)")%string
                    else inr (paths, wt, base, head)
                | None =>
                    if (base =? head)%string then
                      inl ("diff_base equals diff_head (" ++ base ++ "); empty range proves nothing (fail-closed)")%string
                    else inr (paths, wt, base, head)
                end
          end
      end
  end.

Definition diff_command (base head : string) : string := ("git diff --name-only " ++ base ++ ".." ++ head)%string.

Definition drift_verdict (intent : option FrozenIntent) (artifact : option DriftArtifact) (exec : option ExecFn)
    (expectedHead : option string) : bool * string :=
  match drift_input intent artifact expectedHead with
  | inl why => (false, why)
  | inr (paths, wt, base, head) =>
      match exec with
      | None => (false, "no executor wired; cannot run git diff (fail-closed)")
      | Some exec =>
          match exec 0%nat (diff_command base head) wt with
          | Throw e => (false, ("executor threw (fail-closed): " ++ err_message e)%string)
          | Ok r =>
              if negb (exitCode r =? 0) then
                (false, ("git diff exited " ++ str_of_Z (exitCode r) ++ " (fail-closed): " ++
                  str_take 400 (if (stderr r =? "")%string then stdout r else stderr r))%string)
              else
                let rawFiles := changed_files (stdout r) in
                let violations := drift_violations paths rawFiles in
                if (0 <? length violations)%nat then
                  (false, (str_of_nat (length violations) ++ " file(s) outside allowed scope: " ++ join ", " violations)%string)
                else (true, ("all " ++ str_of_nat (length rawFiles) ++ " changed file(s) within allowed scope")%string)
          end
      end
  end.

Definition buildDriftLens (intent : option FrozenIntent) (artifact : option DriftArtifact) (exec : option ExecFn)
    (expectedHead : option string) : BatteryLens string :=
  {| l_name := DRIFT_ANCHOR_ID;
     l_evaluate := fun _ =>
       let '(ok, why) := drift_verdict intent artifact exec expectedHead in
       scored ok (DRIFT_ANCHOR_ID ++ ": " ++ why)%string;
     l_polarity := affirm; l_criticality := hard; l_engine := execution; l_model := None |}.

(** ** Anchors, [gate-runner.ts] *)

(** An object literal answers an inherited function for some names: called on
    text, it gives something without a verdict, or throws. *)
Definition inherited_check (id : string) : option (result RawResult) :=
  if bool_decide (id ∈ ["constructor"; "toString"; "isPrototypeOf"]) then
    Some (Ok (ResultObj (ScoreNum num_zero) (RatOther "undefined")))
  else if (id =? "__proto__")%string then Some (Throw (TypeError "check is not a function"))
  else if bool_decide (id ∈ object_prototype) then Some (Throw (TypeError "Cannot convert undefined or null to object"))
  else None.

Definition anchor_verdict (spec : AnchorSpecInput) (grounded : option GroundedTestResult)
    (configResult : option ConfigValidationResult) (engineVerdicts : list (string * EngineVerdict)) (artifact : string)
    : result RawResult :=
  let id := as_id spec in
  let closed why := scored false (id ++ ": " ++ why)%string in
  if bool_decide (id ∈ ENGINE_GROUNDED_ANCHORS) then
    match om_get id engineVerdicts with
    | None => closed "no engine-measured verdict supplied (fail-closed)"
    | Some e => scored (ev_pass e) (ev_rationale e)
    end
  else if bool_decide (id ∈ CONFIG_GROUNDED_ANCHORS) then
    match configResult with
    | None => closed "no config validation result (fail-closed)"
    | Some c => if negb (c_ran c) then closed (c_rationale c) else scored (c_valid c) (c_rationale c)
    end
  else if bool_decide (id ∈ EXECUTION_GROUNDED_ANCHORS) then
    match grounded with
    | None => closed "no grounded test result (fail-closed)"
    | Some g =>
        if negb (g_ran g) then closed (g_rationale g)
        else scored ((g_exitCode g =? 0) && num_eqb (failCount g) num_zero &&
                     (if bool_decide (id ∈ REQUIRE_POSITIVE_PASS) then num_gtb (passCount g) num_zero else true)) (g_rationale g)
    end
  else match om_get id ANCHOR_CHECKS with
  | Some check => r ← check artifact; scored (pass r) (an_rationale r)
  | None => default (scored false ("unknown anchor " ++ quoted id ++ " (fail-closed)")%string) (inherited_check id)
  end.

Definition buildAnchorLens (spec : AnchorSpecInput) (grounded : option GroundedTestResult)
    (configResult : option ConfigValidationResult) (engineVerdicts : list (string * EngineVerdict)) : BatteryLens string :=
  {| l_name := as_id spec; l_evaluate := anchor_verdict spec grounded configResult engineVerdicts;
     l_polarity := affirm; l_criticality := hard;
     l_engine := match as_kind spec with ci_anchor => execution | pure_anchor => rule end; l_model := None |}.

(** * The gate *)

Record RunGateUnsignedInput := mkGate {
  ri_stageId : string; ri_artifact : string; ri_anchors : list AnchorSpecInput; ri_runId : string; ri_adrEco : string;
  ri_attempt : Z; ri_commit : string; ri_producerId : string; ri_twinLenses : list (BatteryLens string);
  ri_adversary : option (AdversaryConfigInput * RefuteFn); ri_exec : option ExecFn; ri_gitExec : option ExecFn;
  ri_readFile : option FileReader; ri_policyDigest : option string; ri_chainHead : option string;
  ri_engineVerdicts : list (string * EngineVerdict); ri_grounded : option GroundedTestResult
}.
Record RunGateResult := mkGateResult { gr_accepted : bool; gr_envelope : GateVerdictEnvelope; gr_reasons : list string }.

(** The envelope with another key identifier, policy digest and chain head. *)
Definition stamp (keyid : string) (policy chain : option string) (e : GateVerdictEnvelope) : GateVerdictEnvelope :=
  {| ge_runId := ge_runId e; ge_stageId := ge_stageId e; ge_attempt := ge_attempt e; ge_commit := ge_commit e;
     ge_producerId := ge_producerId e; ge_keyid := keyid; ge_artifactHash := ge_artifactHash e;
     ge_decisionCore := ge_decisionCore e; ge_outputHash := ge_outputHash e; ge_policy_digest := policy;
     ge_chain_head := chain; ge_sig := ge_sig e |}.

Section Gate.
Context `{Hashing} (parseYaml : string -> result jsval) (cwd : string).

(** The tests of the stage: what the caller measured, or one run if an anchor
    needs it; with the commands that were run. *)
Definition gate_grounding (i : RunGateUnsignedInput) : option GroundedTestResult * list (string * string) :=
  match ri_grounded i with
  | Some g => (Some g, [])
  | None =>
      if existsb (fun a => bool_decide (as_id a ∈ EXECUTION_GROUNDED_ANCHORS)) (ri_anchors i) then
        let '(g, commands) := runGroundedTests (ri_artifact i) (ri_exec i) (Some (ri_commit i)) (ri_gitExec i) in
        (Some g, commands)
      else (None, [])
  end.

Definition gate_config (i : RunGateUnsignedInput) : option ConfigValidationResult :=
  if existsb (fun a => bool_decide (as_id a ∈ CONFIG_GROUNDED_ANCHORS)) (ri_anchors i) then
    Some (runConfigValidation parseYaml cwd (ri_artifact i) (ri_readFile i))
  else None.

Definition gate_lenses (i : RunGateUnsignedInput) : list (BatteryLens string) :=
  map (fun a => buildAnchorLens a (gate_grounding i).1 (gate_config i) (ri_engineVerdicts i)) (ri_anchors i) ++
  ri_twinLenses i ++
  match ri_adversary i with Some (config, refuter) => buildAdversaryLenses (ri_stageId i) config refuter | None => [] end.

Definition decision_accepted {T} (d : BatteryDecision T) : bool := match d_acceptedIndex d with Some _ => true | None => false end.

(** [t0] and [t1] are the readings of the clock. *)
Definition runGateUnsigned (i : RunGateUnsignedInput) (t0 t1 : Z) : result RunGateResult :=
  d ← runVerifierBattery JStr (JStr (ri_artifact i)) [ri_artifact i] (gate_lenses i) (ri_runId i) (ri_adrEco i) None false t0 t1;
  let base := buildGateEnvelope {| bp_runId := ri_runId i; bp_stageId := ri_stageId i; bp_attempt := ri_attempt i;
    bp_commit := ri_commit i; bp_producerId := ri_producerId i; bp_keyid := "" |} d in
  Ok (mkGateResult (decision_accepted d) (stamp "" (ri_policyDigest i) (ri_chainHead i) base) (map rj_reason (d_rejected d))).

Definition runGate (i : RunGateUnsignedInput) (keyid : string) (sign : string -> string) (t0 t1 : Z) : result RunGateResult :=
  r ← runGateUnsigned i t0 t1;
  e ← signGateEnvelope (stamp keyid (ge_policy_digest (gr_envelope r)) (ge_chain_head (gr_envelope r)) (gr_envelope r)) sign;
  Ok (mkGateResult (gr_accepted r) e (gr_reasons r)).

(** ** The second attestation *)

Record RunDriftGateInput := mkDriftGate {
  dg_primary : GateVerdictEnvelope; dg_artifact : string; dg_intent : option FrozenIntent;
  dg_driftArtifact : option DriftArtifact; dg_keyid : string; dg_adrEco : string; dg_exec : option ExecFn
}.

Definition runDriftGate (i : RunDriftGateInput) (sign : string -> string) (t0 t1 : Z) : result RunGateResult :=
  let p := dg_primary i in
  let driftLens := buildDriftLens (dg_intent i) (dg_driftArtifact i) (dg_exec i) (Some (ge_commit p)) in
  d ← runVerifierBattery JStr (JStr (dg_artifact i)) [dg_artifact i] [driftLens] (ge_runId p) (dg_adrEco i) None false t0 t1;
  let base := buildGateEnvelope {| bp_runId := ge_runId p; bp_stageId := ge_stageId p; bp_attempt := ge_attempt p;
    bp_commit := ge_commit p; bp_producerId := ge_producerId p; bp_keyid := dg_keyid i |} d in
  e ← signGateEnvelope (stamp (dg_keyid i) (ge_policy_digest p) (ge_chain_head p) base) sign;
  Ok (mkGateResult (decision_accepted d) e (map rj_reason (d_rejected d))).
End Gate.
