(* ===== verification/GateRunnerProps.v ===== *)
(** What a stage gate that accepts has established: its anchors hold, its tests
    were run on the commit it names, its configuration files were read inside the
    worktree, and a drift attestation confines the changes; with concrete gates. *)

From S2P Require Import Prelude JsNum JsValue Canonical ChainBinding Battery BatteryProps.
From S2P Require Import GateEnvelope Regex Json NumText JsonParse TokenBase AnchorChecks.
From S2P Require Import TestCommand GateRunner.
From Stdlib Require Import SpecFloat Ascii.
From Stdlib Require Import SpecFloat.

(** * Anchors of the artifact *)

(** [o["k"]] of the artifact. *)
Definition artifact_field (a k : string) (v : jsval) : Prop := exists o, parseJson a = Some o /\ get_field k o = v.

(** The two checks that look at text wherever it is. *)
Definition TEXT_ANCHORS : list string := ["no-debug-artifacts"; "no-forbidden-style"].

(** Bytes that are not the text of an object pass no anchor but the two that
    look for forbidden text, and throw nothing: every other check answers, and
    answers no. *)
Theorem anchors_fail_closed (a id : string) (check : AnchorCheck)
    (Hin : (id, check) ∈ ANCHOR_CHECKS) (Hid : id ∉ TEXT_ANCHORS) (Hbad : parseJson a = None) :
  exists why, check a = Ok (mkAnchor false why).
Proof.
  unfold ANCHOR_CHECKS in Hin.
  repeat (apply elem_of_cons in Hin as [[= -> ->]|Hin];
    [try (exfalso; apply Hid; apply (bool_decide_unpack _); vm_compute; exact I);
     eexists; unfold json_schema, nonempty_fields, yaml_schema, acceptance_criteria_present, interfaces_present, adr_sections,
       axiom_check_5, diff_nonempty, pass_count_positive, branch_pushed_or_skipped, materiality_declared, char_limit_respected,
       hashtags_present, post_text, posts_of, output_of, posted_or_skipped, ci_green, ci_e2e_green, brain_entry_id, tags_json_array,
       exported_symbols_documented, docs_reference_spec, two_lens_verdict, audit_questions_present, audit_evidence_present,
       audit_analysis_present, filled_array, audit_findings_structured, audit_report_summary_present,
       audit_report_references_findings, config_files_present, document_intent, document_verify_record, on_object;
     rewrite Hbad; reflexivity|]).
  by apply elem_of_nil in Hin.
Qed.

(** A verdict that does not refute, on a named claim. *)
Definition sealing_verdict (v : jsval) : Prop :=
  exists entry w, v = JObj entry /\ nonEmpty (get_field "claim_id" entry) = true /\ get_field "verdict" entry = JStr w /\
    w ∈ ["confirmed"; "partially_confirmed"; "unverifiable"].

Lemma check_verdicts_ok items : check_verdicts items = Ok None <-> Forall sealing_verdict items.
Proof.
  induction items as [|v items IH]; [done|]. rewrite Forall_cons. cbn [check_verdicts].
  destruct v as [| | | | | | | | |entry|];
    try (split; [done|intros [(entry' & w & Hv & _) _]; discriminate Hv]).
  destruct (nonEmpty (get_field "claim_id" entry)) eqn:Ec; cbn [negb];
    [|split; [done|]; intros [(entry' & w & [= <-] & Hc & _) _]; congruence].
  destruct (valid_verdict (get_field "verdict" entry)) eqn:Ev; cbn [negb].
  - unfold valid_verdict in Ev. destruct (get_field "verdict" entry) as [| | | |w| | | | | |] eqn:Ew; try discriminate Ev.
    apply bool_decide_eq_true in Ev. cbn [is_str]. destruct (String.eqb_spec w "refuted") as [->|Hw].
    + split; [done|]. intros [(entry' & w & [= <-] & _ & Hw & Hin) _]. rewrite Ew in Hw. injection Hw as <-.
      exfalso. revert Hin. apply (bool_decide_unpack _). vm_compute. exact I.
    + rewrite IH. split; [|by intros [_ H]]. intros H. split; [|done]. exists entry, w. split_and!; try done.
      assert (Hv : w = "confirmed" \/ w = "partially_confirmed" \/ w = "refuted" \/ w = "unverifiable" \/ False) by (by set_unfold in Ev).
      set_unfold. tauto.
  - split.
    + destruct (template_text _) as [t|e]; done.
    + intros [(entry' & w & [= <-] & _ & Hw & Hin) _]. rewrite Hw in Ev. cbn [valid_verdict] in Ev.
      apply bool_decide_eq_false in Ev. exfalso. apply Ev. clear -Hin. unfold VALID_VERDICTS. set_unfold. tauto.
Qed.

(** A document is sealed exactly when its record says so: the check passes
    exactly on an object of kind [document] with a lowercase SHA-256 and a record
    of at least one verdict, all of them objects that name their claim and are
    confirmed, partially confirmed or unverifiable: one refuted claim is enough. *)
Theorem document_sealed (a : string) :
  (exists why, document_verify_record a = Ok (mkAnchor true why)) <->
  exists o sha record verdicts, parseJson a = Some o /\ get_field "kind" o = JStr "document" /\
    get_field "document_sha256" o = JStr sha /\ re_test RE_SHA256 sha = true /\ get_field "record" o = JObj record /\
    get_field "verdicts" record = JArr verdicts /\ verdicts <> [] /\ Forall sealing_verdict verdicts.
Proof.
  unfold document_verify_record. destruct (parseJson a) as [o|]; [|split; [by intros [? ?]|by intros (? & ? & ? & ? & ? & _)]].
  assert (Hk : is_str "document" (get_field "kind" o) = true <-> get_field "kind" o = JStr "document").
  { destruct (get_field "kind" o) as [| | | |k| | | | | |]; cbn [is_str]; try done. rewrite String.eqb_eq. split; congruence. }
  destruct (is_str "document" (get_field "kind" o)) eqn:Ek; cbn [negb].
  2:{ split.
      - intros [why H]. unfold wrong_kind in H. apply result_bind_ok in H as (t & _ & [=]).
      - intros (o' & ? & ? & ? & [= <-] & Hk' & _). by apply Hk in Hk'. }
  destruct (get_field "document_sha256" o) as [| | | |sha| | | | | |] eqn:Es; cbn [is_sha256 negb];
    try (split; [by intros [? ?]|intros (o' & ? & ? & ? & [= <-] & _ & Hs & _); congruence]).
  destruct (re_test RE_SHA256 sha) eqn:Er; cbn [negb];
    [|split; [by intros [? ?]|intros (o' & ? & ? & ? & [= <-] & _ & Hs & Hr & _); congruence]].
  destruct (get_field "record" o) as [| | | | | | | | |record|] eqn:Ed;
    try (split; [by intros [? ?]|intros (o' & ? & ? & ? & [= <-] & _ & _ & _ & Hd & _); congruence]).
  destruct (get_field "verdicts" record) as [| | | | | | | |[|v vs]| |] eqn:Ev;
    try (split; [by intros [? ?]|intros (o' & ? & ? & ? & [= <-] & _ & _ & _ & Hd & Hv & Hne & _); congruence]).
  pose proof (check_verdicts_ok (v :: vs)) as Hc. destruct (check_verdicts (v :: vs)) as [[w|]|e]; unfold mbind; cbn [result_bind].
  - split; [by intros [? ?]|]. intros (o' & ? & rec' & vs' & [= <-] & _ & _ & _ & Hd & Hv & _ & Hf).
    rewrite Ed in Hd. injection Hd as <-. rewrite Ev in Hv. injection Hv as <-. by apply Hc in Hf.
  - split; [|intros _; by eexists]. intros _. exists o, sha, record, (v :: vs). split_and!; try done; [by apply Hk|by apply Hc].
  - split; [by intros [? ?]|]. intros (o' & ? & rec' & vs' & [= <-] & _ & _ & _ & Hd & Hv & _ & Hf).
    rewrite Ed in Hd. injection Hd as <-. rewrite Ev in Hv. injection Hv as <-. by apply Hc in Hf.
Qed.

(** * The floor *)

(** * Trimmed text *)

Lemma trim_start_head c s : is_js_space c = false -> trim_start (String c s) = String c s.
Proof. intros H. cbn [trim_start]. by rewrite H. Qed.

Lemma trim_end_idem s : trim_end (trim_end s) = trim_end s.
Proof.
  induction s as [|c s IH]; [done|]. cbn [trim_end]. destruct (trim_end s) as [|d t] eqn:E.
  - destruct (is_js_space c) eqn:Ec; [done|]. cbn [trim_end]. by rewrite Ec.
  - cbn [trim_end] in *. by rewrite IH.
Qed.

Lemma trim_start_spec s : trim_start s = "" \/ exists c t, trim_start s = String c t /\ is_js_space c = false.
Proof.
  induction s as [|c s IH]; [by left|]. cbn [trim_start]. destruct (is_js_space c) eqn:E; [done|]. right. by exists c, s.
Qed.

Lemma js_trim_idem s : js_trim (js_trim s) = js_trim s.
Proof.
  unfold js_trim. destruct (trim_start_spec s) as [->|(c & t & -> & Hc)]; [done|].
  assert (Ht : exists t', trim_end (String c t) = String c t').
  { cbn [trim_end]. destruct (trim_end t); [rewrite Hc|]; by eexists. }
  destruct Ht as [t' Ht]. rewrite Ht, trim_start_head by done. rewrite <- Ht. apply trim_end_idem.
Qed.

Section Gate.
Context `{Hashing} (parseYaml : string -> result jsval) (cwd : string).

(** What stands behind an anchor of a gate, by its family. *)
Inductive anchor_holds (i : RunGateUnsignedInput) (id : string) : Prop :=
| holds_engine e : id ∈ ENGINE_GROUNDED_ANCHORS -> om_get id (ri_engineVerdicts i) = Some e -> ev_pass e = true -> anchor_holds i id
| holds_config why : id ∈ CONFIG_GROUNDED_ANCHORS ->
    runConfigValidation parseYaml cwd (ri_artifact i) (ri_readFile i) = mkConfig true true why -> anchor_holds i id
| holds_execution g : id ∈ EXECUTION_GROUNDED_ANCHORS -> (gate_grounding i).1 = Some g -> g_ran g = true -> g_exitCode g = 0 ->
    num_eqb (failCount g) num_zero = true -> (id ∈ REQUIRE_POSITIVE_PASS -> num_gtb (passCount g) num_zero = true) -> anchor_holds i id
| holds_pure check why : id ∉ ENGINE_GROUNDED_ANCHORS -> id ∉ CONFIG_GROUNDED_ANCHORS -> id ∉ EXECUTION_GROUNDED_ANCHORS ->
    om_get id ANCHOR_CHECKS = Some check -> check (ri_artifact i) = Ok (mkAnchor true why) -> anchor_holds i id.

(** The families are disjoint. *)
Lemma families id : (id ∈ ENGINE_GROUNDED_ANCHORS -> id ∉ CONFIG_GROUNDED_ANCHORS /\ id ∉ EXECUTION_GROUNDED_ANCHORS) /\
  (id ∈ CONFIG_GROUNDED_ANCHORS -> id ∉ EXECUTION_GROUNDED_ANCHORS).
Proof.
  split.
  - intros Hin. assert (Hall : Forall (fun x => x ∉ CONFIG_GROUNDED_ANCHORS /\ x ∉ EXECUTION_GROUNDED_ANCHORS) ENGINE_GROUNDED_ANCHORS).
    { apply (bool_decide_unpack _). vm_compute. exact I. }
    rewrite Forall_forall in Hall. by apply Hall.
  - intros Hin. assert (Hall : Forall (fun x => x ∉ EXECUTION_GROUNDED_ANCHORS) CONFIG_GROUNDED_ANCHORS).
    { apply (bool_decide_unpack _). vm_compute. exact I. }
    rewrite Forall_forall in Hall. by apply Hall.
Qed.

(** The verdict of a lens is [scored b], or an error when assembled. *)
Lemma scored_lens vt ab (c : string) l b why lv : l_evaluate l c = scored b why -> evalLens vt ab c l = Ok lv ->
  lv = mkLensVerdict (l_name l) (l_polarity l) (l_criticality l) (l_engine l) (if b then num_one else num_zero)
         (lens_fires (l_polarity l) vt (if b then num_one else num_zero)) why.
Proof.
  intros Hl He. unfold evalLens in He. apply result_bind_ok in He as ([] & _ & He). rewrite Hl in He.
  unfold scored, mbind in He. cbn [result_bind] in He. apply result_bind_ok in He as (r & Hr & [= <-]).
  destruct b; vm_compute in Hr; by injection Hr as <-.
Qed.

Lemma affirm_fires (b : bool) : lens_fires affirm half (if b then num_one else num_zero) = negb b.
Proof. by destruct b; vm_compute. Qed.
Lemma refute_fires (b : bool) : lens_fires Battery.refute half (if b then num_one else num_zero) = b.
Proof. by destruct b; vm_compute. Qed.

(** A result that is accepted is a score. *)
Lemma raw_scored vt ab (c : string) (l : BatteryLens string) lv : evalLens vt ab c l = Ok lv ->
  exists x why, l_evaluate l c = Ok (ResultObj (ScoreNum x) (RatStr why)).
Proof.
  intros He. unfold evalLens in He. apply result_bind_ok in He as ([] & _ & He). apply result_bind_ok in He as (raw & Hraw & He).
  apply result_bind_ok in He as (r & Hr & _). rewrite Hraw. unfold assertVerifierResult in Hr.
  destruct raw as [|[x|] [why|]]; try done; [by eexists _, _|..]; by destruct (score_valid _).
Qed.

(** A verdict on an anchor of the gate, with what it means. *)
Definition decided (i : RunGateUnsignedInput) (a : AnchorSpecInput) : Prop :=
  exists b why, l_evaluate (buildAnchorLens a (gate_grounding i).1 (gate_config parseYaml cwd i) (ri_engineVerdicts i)) (ri_artifact i) = scored b why /\
    (b = true <-> anchor_holds i (as_id a)).

(** Whether an identifier is in a family, in a goal that asks. *)
Ltac decide_in := repeat match goal with
  | H : ?x ∈ ?l |- context [bool_decide (?x ∈ ?l)] => rewrite (bool_decide_eq_true_2 (x ∈ l)) by exact H
  | H : ?x ∉ ?l |- context [bool_decide (?x ∈ ?l)] => rewrite (bool_decide_eq_false_2 (x ∈ l)) by exact H
  end.

Lemma decided_engine i a : as_id a ∈ ENGINE_GROUNDED_ANCHORS -> decided i a.
Proof.
  intros H1. destruct (families (as_id a)) as [Hfe _]. destruct (Hfe H1) as [Hn1 Hn2].
  unfold decided. cbn [l_evaluate buildAnchorLens]. unfold anchor_verdict. decide_in.
  destruct (om_get (as_id a) (ri_engineVerdicts i)) as [e|] eqn:Eo; eexists _, _; (split; [done|]).
  - split; [by eapply holds_engine|]. intros [e' _ He' Hp|? Hc|? Hx|? ? Hn]; [congruence|done..].
  - split; [done|]. intros [e' _ He' Hp|? Hc|? Hx|? ? Hn]; [congruence|done..].
Qed.

Lemma decided_config i a : a ∈ ri_anchors i -> as_id a ∈ CONFIG_GROUNDED_ANCHORS -> decided i a.
Proof.
  intros Ha H2. destruct (families (as_id a)) as [Hfe Hfc]. specialize (Hfc H2).
  assert (H1 : as_id a ∉ ENGINE_GROUNDED_ANCHORS) by (intros H1; by destruct (Hfe H1)).
  unfold decided. cbn [l_evaluate buildAnchorLens]. unfold anchor_verdict. decide_in.
  assert (Hg : gate_config parseYaml cwd i = Some (runConfigValidation parseYaml cwd (ri_artifact i) (ri_readFile i))).
  { unfold gate_config. replace (existsb _ _) with true; [done|]. symmetry. apply existsb_exists. exists a.
    split; [by apply list_elem_of_In|by apply bool_decide_eq_true_2]. }
  rewrite Hg. destruct (runConfigValidation _ _ _ _) as [ran val why] eqn:Er. cbn [c_ran c_valid c_rationale].
  destruct ran; cbn [negb]; eexists _, _; (split; [done|]); split.
  - intros ->. by eapply holds_config.
  - intros [|? _ Hc|? Hx|? ? ? Hn]; [done|congruence|done..].
  - done.
  - intros [|? _ Hc|? Hx|? ? ? Hn]; [done|congruence|done..].
Qed.

Lemma decided_execution i a : as_id a ∈ EXECUTION_GROUNDED_ANCHORS -> decided i a.
Proof.
  intros H3. destruct (families (as_id a)) as [Hfe Hfc].
  assert (H1 : as_id a ∉ ENGINE_GROUNDED_ANCHORS) by (intros H1; by destruct (Hfe H1)).
  assert (H2 : as_id a ∉ CONFIG_GROUNDED_ANCHORS) by (intros H2; by destruct (Hfc H2)).
  unfold decided. cbn [l_evaluate buildAnchorLens]. unfold anchor_verdict. decide_in.
  destruct (gate_grounding i).1 as [g|] eqn:Eg; [destruct (g_ran g) eqn:Er|]; cbn [negb]; eexists _, _; (split; [done|]).
  - rewrite !andb_true_iff, Z.eqb_eq. split.
    + intros [[Hx Hf] Hp]. eapply holds_execution; try done. intros Hr. by rewrite bool_decide_eq_true_2 in Hp.
    + intros [| |g' _ Hg' _ Hx Hf Hp|? ? ? ? ?]; [done..| |done]. rewrite Eg in Hg'. injection Hg' as <-. split; [done|].
      destruct (decide (as_id a ∈ REQUIRE_POSITIVE_PASS)) as [Hr|Hr]; [rewrite bool_decide_eq_true_2; auto|by rewrite bool_decide_eq_false_2].
  - split; [done|]. intros [| |g' _ Hg' Hr _ _ _|? ? ? ? ?]; [done..|congruence|done].
  - split; [done|]. intros [| |g' _ Hg' Hr _ _ _|? ? ? ? ?]; [done..|congruence|done].
Qed.

Lemma decided_pure i a x why0 : as_id a ∉ ENGINE_GROUNDED_ANCHORS -> as_id a ∉ CONFIG_GROUNDED_ANCHORS ->
  as_id a ∉ EXECUTION_GROUNDED_ANCHORS ->
  l_evaluate (buildAnchorLens a (gate_grounding i).1 (gate_config parseYaml cwd i) (ri_engineVerdicts i)) (ri_artifact i)
  = Ok (ResultObj (ScoreNum x) (RatStr why0)) -> decided i a.
Proof.
  intros H1 H2 H3. unfold decided. cbn [l_evaluate buildAnchorLens]. unfold anchor_verdict. decide_in.
  destruct (om_get (as_id a) ANCHOR_CHECKS) as [check|] eqn:Ec.
  - destruct (check (ri_artifact i)) as [[b why]|] eqn:Er; [|done]. intros _. unfold mbind. cbn [result_bind pass an_rationale].
    eexists _, _. split; [done|]. split; [intros ->; by eapply holds_pure|].
    intros [| | |check' why' _ _ _ Hc' Hr']; [done..|congruence].
  - unfold inherited_check. case_bool_decide; [done|]. destruct (as_id a =? "__proto__")%string; [done|].
    case_bool_decide; [done|]. intros _. eexists _, _. split; [done|]. split; [done|].
    intros [| | |check' why' _ _ _ Hc' Hr']; [done..|congruence].
Qed.

Lemma anchor_fires i a lv :
  evalLens half false (ri_artifact i) (buildAnchorLens a (gate_grounding i).1 (gate_config parseYaml cwd i) (ri_engineVerdicts i)) = Ok lv ->
  a ∈ ri_anchors i ->
  hardFired lv = lv_fired lv /\ gatingRefuter lv = false /\ (lv_fired lv = false <-> anchor_holds i (as_id a)).
Proof.
  intros He Ha. destruct (raw_scored _ _ _ _ _ He) as (x & why0 & Hraw).
  assert (decided i a) as (b & why & Hb & Hiff).
  { destruct (decide (as_id a ∈ ENGINE_GROUNDED_ANCHORS)); [by apply decided_engine|].
    destruct (decide (as_id a ∈ CONFIG_GROUNDED_ANCHORS)); [by apply decided_config|].
    destruct (decide (as_id a ∈ EXECUTION_GROUNDED_ANCHORS)); [by apply decided_execution|]. by eapply decided_pure. }
  rewrite (scored_lens _ _ _ _ _ _ _ Hb He), <- Hiff. unfold hardFired, gatingRefuter. cbn [lv_fired lv_criticality lv_polarity].
  cbn [l_polarity l_criticality buildAnchorLens]. rewrite affirm_fires. by destruct b.
Qed.

Lemma adversary_fires stageId refuter angle (c : string) lv : evalLens half false c (adversary_lens stageId refuter angle) = Ok lv ->
  hardFired lv = false /\ gatingRefuter lv = true /\
  firedRefuter lv = match refuter stageId c angle with Ok (refuted, _) => refuted | Throw _ => true end.
Proof.
  intros He. assert (Hs : exists b why, l_evaluate (adversary_lens stageId refuter angle) c = scored b why /\
      b = match refuter stageId c angle with Ok (refuted, _) => refuted | Throw _ => true end).
  { cbn [l_evaluate adversary_lens]. destruct (refuter stageId c angle) as [[b why]|e]; by eexists _, _. }
  destruct Hs as (b & why & Hb & <-). rewrite (scored_lens _ _ _ _ _ _ _ Hb He). unfold firedRefuter, hardFired, gatingRefuter.
  cbn [lv_fired lv_criticality lv_polarity l_polarity l_criticality adversary_lens]. rewrite refute_fires. by destruct b.
Qed.

(** ** The decision *)

Lemma existsb_app_false {A} (p : A -> bool) l l' : existsb p (l ++ l') = false <-> existsb p l = false /\ existsb p l' = false.
Proof. by rewrite existsb_app, orb_false_iff. Qed.

Lemma count_if_app {A} (p : A -> bool) l l' : count_if p (l ++ l') = count_if p l + count_if p l'.
Proof. unfold count_if. rewrite List.filter_app, length_app. lia. Qed.

Lemma floor_row i row :
  Forall2 (fun l lv => evalLens half false (ri_artifact i) l = Ok lv)
    (map (fun a => buildAnchorLens a (gate_grounding i).1 (gate_config parseYaml cwd i) (ri_engineVerdicts i)) (ri_anchors i)) row ->
  count_if gatingRefuter row = 0 /\ count_if firedRefuter row = 0 /\
  (existsb hardFired row = false <-> forall a, a ∈ ri_anchors i -> anchor_holds i (as_id a)).
Proof.
  intros Hrow.
  assert (Hall : forall anchors row, anchors ⊆ ri_anchors i ->
    Forall2 (fun l lv => evalLens half false (ri_artifact i) l = Ok lv)
      (map (fun a => buildAnchorLens a (gate_grounding i).1 (gate_config parseYaml cwd i) (ri_engineVerdicts i)) anchors) row ->
    count_if gatingRefuter row = 0 /\ count_if firedRefuter row = 0 /\
    (existsb hardFired row = false <-> forall a, a ∈ anchors -> anchor_holds i (as_id a))); [|by apply Hall].
  clear row Hrow. induction anchors as [|a anchors IH]; intros row Hsub Hrow; inversion Hrow as [|l lv ls lvs He Hrow' E1 E2]; subst.
  - split_and!; [done..|]. split; [intros _ a Ha; by apply elem_of_nil in Ha|done].
  - destruct (anchor_fires i a lv He) as (Hh & Hg & Hf); [apply Hsub; left|].
    destruct (IH lvs) as (Hcg & Hcf & Hex); [intros b Hb; apply Hsub; by right|done|].
    rewrite !count_if_cons, Hcg, Hcf. unfold firedRefuter. rewrite Hg. cbn [andb existsb]. split_and!; [done..|].
    rewrite orb_false_iff, Hex, Hh, Hf. split.
    + by intros [Ha Hr] b [->|Hb]%elem_of_cons; [|apply Hr].
    + intros Hr. split; [apply Hr; left|intros b Hb; apply Hr; by right].
Qed.

(** The angles whose refuter finds a fault, or fails. *)
Definition refutes (i : RunGateUnsignedInput) (refuter : RefuteFn) (angle : string) : bool :=
  match refuter (ri_stageId i) (ri_artifact i) angle with Ok (refuted, _) => refuted | Throw _ => true end.

Lemma adversary_row i refuter angles row :
  Forall2 (fun l lv => evalLens half false (ri_artifact i) l = Ok lv) (map (adversary_lens (ri_stageId i) refuter) angles) row ->
  existsb hardFired row = false /\ count_if gatingRefuter row = Z.of_nat (length angles) /\
  count_if firedRefuter row = count_if (refutes i refuter) angles.
Proof.
  revert row. induction angles as [|g angles IH]; intros row Hrow; inversion Hrow as [|l lv ls lvs He Hrow' E1 E2]; subst; [done|].
  destruct (adversary_fires _ _ _ _ _ He) as (Hh & Hg & Hf). destruct (IH lvs Hrow') as (He' & Hg' & Hf').
  cbn [existsb length]. rewrite !count_if_cons, Hh, Hg, Hf, He', Hg', Hf'. split_and!; [done|lia|done].
Qed.

Definition gate_angles (config : AdversaryConfigInput) : list string :=
  match intensity config with
  | adv_none => []
  | adv_judge => distinctAngles 1
  | adv_refute_quorum => distinctAngles (clampLensCount (default 2 (adv_lenses config)))
  end.

Lemma adversary_lenses_map stageId config refuter :
  buildAdversaryLenses stageId config refuter = map (adversary_lens stageId refuter) (gate_angles config).
Proof. unfold buildAdversaryLenses, gate_angles. by destruct (intensity config). Qed.

(** A strict majority of at least two adversaries. *)
Definition overruled (i : RunGateUnsignedInput) : Prop :=
  match ri_adversary i with
  | Some (config, refuter) =>
      let angles := gate_angles config in
      2 <= Z.of_nat (length angles) /\ Z.of_nat (length angles) < 2 * count_if (refutes i refuter) angles
  | None => False
  end.

Lemma gate_result i t0 t1 r : runGateUnsigned parseYaml cwd i t0 t1 = Ok r ->
  exists row, Forall2 (fun l lv => evalLens half false (ri_artifact i) l = Ok lv) (gate_lenses parseYaml cwd i) row /\
    gr_accepted r = negb (kill_rule row).
Proof.
  intros Hr. unfold runGateUnsigned in Hr. apply result_bind_ok in Hr as (d & Hd & [= <-]).
  destruct (single_candidate _ _ _ _ _ _ _ _ _ _ _ Hd) as (_ & row & Hrow & Hacc & _). exists row. split; [exact Hrow|exact Hacc].
Qed.

(** C14: the gate is exactly its floor: whatever lenses a caller adds, a stage that
    is accepted has every one of its anchors established: by a verdict of the
    engine, by configuration files that were read and parsed, by a test run that
    ended with status zero and no failure, or by the bytes of the artifact, as the
    family of the anchor asks, and never by an anchor nobody knows; without added
    lenses the converse holds, up to a strict majority of at least two adversaries
    that refute or fail. *)
Theorem gate_decides (i : RunGateUnsignedInput) (t0 t1 : Z) (r : RunGateResult)
    (Hr : runGateUnsigned parseYaml cwd i t0 t1 = Ok r) :
  (gr_accepted r = true -> forall a, a ∈ ri_anchors i -> anchor_holds i (as_id a)) /\
  (ri_twinLenses i = [] ->
   gr_accepted r = true <-> (forall a, a ∈ ri_anchors i -> anchor_holds i (as_id a)) /\ ~ overruled i).
Proof.
  destruct (gate_result i t0 t1 r Hr) as (row & Hrow & ->). unfold gate_lenses in Hrow.
  apply Forall2_app_inv_l in Hrow as (floor & rest & Hfloor & Hrest & ->).
  destruct (floor_row i floor Hfloor) as (Hg & Hf & Hex). rewrite negb_true_iff. unfold kill_rule.
  rewrite orb_false_iff, existsb_app_false, !count_if_app, Hg, Hf, Hex, !Z.add_0_l. split; [tauto|].
  intros Htwin. rewrite Htwin in Hrest. cbn [app] in Hrest. unfold overruled. destruct (ri_adversary i) as [[config refuter]|].
  - rewrite adversary_lenses_map in Hrest. destruct (adversary_row _ _ _ _ Hrest) as (Hh' & Hg' & Hf').
    rewrite Hh', Hg', Hf'. cbn zeta. rewrite andb_false_iff, Z.leb_gt, Z.ltb_ge. set (x := count_if (refutes i refuter) _).
    set (n := Z.of_nat _). clearbody x n. split; [intros [[? _] ?]; split; [done|lia]|intros [? ?]; split; [done|lia]].
  - inversion Hrest; subst. cbn. tauto.
Qed.

(** A grounded result that ran, and what was run for it. *)
Lemma grounded_ran artifact exec commit gitExec g commands :
  runGroundedTests artifact exec (Some commit) gitExec = (g, commands) -> g_ran g = true ->
  let wt := declared_text "worktree" artifact in
  let cmd := declared_text "test_cmd" artifact in
  exists ex git res, exec = Some ex /\ commands = [(GIT_HEAD, wt); (cmd, wt)] /\ js_trim commit <> "" /\ js_trim commit <> "unknown" /\
    default ex gitExec 0%nat GIT_HEAD wt = Ok git /\ exitCode git = 0 /\ heads_match (js_trim (stdout git)) (js_trim commit) = true /\
    ex 1%nat cmd wt = Ok res /\ g = grounded_result cmd wt res.
Proof.
  unfold runGroundedTests. destruct exec as [ex|]; [|by intros [= <- <-]]. cbn [default]. change (id commit) with commit. cbn zeta.
  destruct (is_blank _ || is_blank _); [by intros [= <- <-]|].
  destruct (String.eqb_spec (js_trim commit) "") as [|Hc1]; [cbn [orb]; by intros [= <- <-]|].
  destruct (String.eqb_spec (js_trim commit) "unknown") as [|Hc2]; [cbn [orb]; by intros [= <- <-]|]. cbn [orb].
  unfold verifyWorktreeCommit. destruct (default ex gitExec 0%nat GIT_HEAD _) as [git|e] eqn:Egit; [|by intros [= <- <-]].
  destruct (Z.eqb_spec (exitCode git) 0) as [Hx|]; cbn [negb]; [|by intros [= <- <-]]. rewrite js_trim_idem.
  destruct (heads_match _ _) eqn:Eh; [|by intros [= <- <-]].
  destruct (ex 1%nat _ _) as [res|e] eqn:Eres; intros [= <- <-]; [|done]. intros _. exists ex, git, res. done.
Qed.

(** C15: no self-attestation: a gate that accepts a stage with an anchor grounded in
    tests, and was given no measurement, ran two commands of its own: the head of
    the worktree, which ended with status zero and agrees with the commit of the
    envelope, and then the declared test command in the same worktree, which ended
    with status zero; nothing else in the artifact can stand for them. *)
Theorem no_self_attestation (i : RunGateUnsignedInput) (t0 t1 : Z) (r : RunGateResult) (a : AnchorSpecInput)
    (Hr : runGateUnsigned parseYaml cwd i t0 t1 = Ok r) (Hacc : gr_accepted r = true)
    (Ha : a ∈ ri_anchors i) (Hk : as_id a ∈ EXECUTION_GROUNDED_ANCHORS) (Hm : ri_grounded i = None) :
  let wt := declared_text "worktree" (ri_artifact i) in
  let cmd := declared_text "test_cmd" (ri_artifact i) in
  let commit := js_trim (ri_commit i) in
  exists exec git res, ri_exec i = Some exec /\
    (gate_grounding i).2 = [(GIT_HEAD, wt); (cmd, wt)] /\ commit <> "" /\ commit <> "unknown" /\
    default exec (ri_gitExec i) 0%nat GIT_HEAD wt = Ok git /\ exitCode git = 0 /\ heads_match (js_trim (stdout git)) commit = true /\
    exec 1%nat cmd wt = Ok res /\ exitCode res = 0.
Proof.
  destruct (gate_result i t0 t1 r Hr) as (row & Hrow & E). rewrite E in Hacc. clear E Hr. apply negb_true_iff, orb_false_iff in Hacc as [Hex _].
  unfold gate_lenses in Hrow. apply Forall2_app_inv_l in Hrow as (floor & rest & Hfloor & _ & ->).
  apply existsb_app_false in Hex as [Hex _]. destruct (floor_row i floor Hfloor) as (_ & _ & Hiff).
  assert (anchor_holds i (as_id a)) as Hh by (by apply Hiff). clear Hiff Hex Hfloor rest floor.
  destruct (families (as_id a)) as [Hfe Hfc].
  destruct Hh as [e H1|why H1|g _ Hg Hran Hx _ _|check why _ _ Hn]; [by destruct (Hfe H1)|by destruct (Hfc H1)| |done].
  assert (Hneeds : existsb (fun a => bool_decide (as_id a ∈ EXECUTION_GROUNDED_ANCHORS)) (ri_anchors i) = true).
  { apply existsb_exists. exists a. split; [by apply list_elem_of_In|by apply bool_decide_eq_true_2]. }
  revert Hg. unfold gate_grounding. rewrite Hm, Hneeds.
  destruct (runGroundedTests _ _ _ _) as [g' commands] eqn:Eg. intros [= ->]. cbn [snd].
  destruct (grounded_ran _ _ _ _ _ _ Eg Hran) as (exec & git & res & -> & -> & ? & ? & ? & ? & ? & ? & ->).
  by exists exec, git, res.
Qed.

(** * Drift *)

(** A changed file below an allowed path. *)
Definition confined (paths : list string) (f : string) : Prop :=
  isAbsolute f = false /\ ".." ∉ segments "/" f /\
  exists p, p ∈ paths /\ (f = strip_slash p \/ exists below, f = (strip_slash p ++ "/" ++ below)%string).

Lemma matches_iff f paths : matchesAllowedPrefix f paths = true <->
  exists p, p ∈ paths /\ (f = strip_slash p \/ exists below, f = (strip_slash p ++ "/" ++ below)%string).
Proof.
  unfold matchesAllowedPrefix. rewrite existsb_exists. setoid_rewrite <- list_elem_of_In.
  assert (H0 : forall p, ((f =? strip_slash p)%string || starts_with (strip_slash p ++ "/") f = true) <->
      (f = strip_slash p \/ exists below, f = (strip_slash p ++ "/" ++ below)%string)).
  { intros p. rewrite orb_true_iff, String.eqb_eq, starts_with_iff. split; (intros [?|[below E]]; [by left|right; exists below]).
    - by rewrite E, <- str_app_assoc.
    - by rewrite E, <- str_app_assoc. }
  cbn zeta. setoid_rewrite H0. done.
Qed.

Lemma no_violations paths files : drift_violations paths files = [] <-> forall f, f ∈ files -> confined paths f.
Proof.
  induction files as [|f files IH]; [split; [intros _ f Hf; by apply elem_of_nil in Hf|done]|].
  unfold drift_violations in *. cbn [omap list_omap].
  assert (Hf : (match normaliseGitPath f with
      | None => Some (f ++ " (rejected: absolute path or ../ traversal)")%string
      | Some file => if matchesAllowedPrefix file paths then None else Some file
      end = None) <-> confined paths f).
  { unfold normaliseGitPath, confined. destruct (isAbsolute f); cbn [orb]; [split; [done|by intros [? _]]|]. case_bool_decide.
    - split; [done|by intros (_ & ? & _)].
    - destruct (matchesAllowedPrefix f paths) eqn:E.
      + split; [|done]. intros _. split_and!; [done..|]. by apply matches_iff.
      + split; [done|]. intros (_ & _ & Hm). apply matches_iff in Hm. congruence. }
  destruct (match normaliseGitPath f with | Some _ => _ | None => _ end).
  - split; [done|]. intros Hall. discriminate (proj2 Hf (Hall f ltac:(left))).
  - rewrite IH. split.
    + intros Hr g [->|Hg]%elem_of_cons; [by apply Hf|by apply Hr].
    + intros Hr g Hg. apply Hr. by right.
Qed.

(** What a drift verdict in favour says. *)
Definition drift_established (intent : option FrozenIntent) (artifact : option DriftArtifact) (exec : option ExecFn)
    (commit : string) : Prop :=
  exists paths wt base ex out, intent = Some (mkIntent (Some paths)) /\ paths <> [] /\
    artifact = Some (mkDrift (Some wt) (Some base) (Some commit)) /\ isAbsolute wt = true /\
    isHexRef (Some base) = true /\ isHexRef (Some commit) = true /\ base <> commit /\ exec = Some ex /\
    ex 0%nat (diff_command base commit) wt = Ok out /\ exitCode out = 0 /\
    forall f, f ∈ changed_files (stdout out) -> confined paths f.

Lemma drift_input_ok intent artifact commit paths wt base head :
  drift_input intent artifact (Some commit) = inr (paths, wt, base, head) <->
  intent = Some (mkIntent (Some paths)) /\ paths <> [] /\ artifact = Some (mkDrift (Some wt) (Some base) (Some commit)) /\
  isAbsolute wt = true /\ isHexRef (Some base) = true /\ isHexRef (Some commit) = true /\ base <> commit /\ head = commit.
Proof.
  unfold drift_input. destruct intent as [[[[|p ps]|]]|]; cbn [allowed_paths]; try (split; [done|by intros ([= <-] & Hne & _)]).
  destruct artifact as [[w b h]|]; [|split; [done|by intros (_ & _ & ? & _)]]. cbn [worktree diff_base diff_head].
  destruct w as [w|]; [|split; [done|by intros (_ & _ & ? & _)]]. change (default "" (Some w)) with w.
  destruct (isAbsolute w) eqn:Ew; cbn [negb]; [|split; [done|intros (_ & _ & [= -> -> ->] & ? & _); congruence]].
  destruct b as [b|]; [|split; [done|by intros (_ & _ & ? & _)]]. change (default "" (Some b)) with b.
  destruct (isHexRef (Some b)) eqn:Eb; cbn [negb]; [|split; [done|intros (_ & _ & [= -> -> ->] & _ & ? & _); congruence]].
  destruct h as [h|]; [|split; [done|by intros (_ & _ & ? & _)]]. change (default "" (Some h)) with h.
  destruct (isHexRef (Some h)) eqn:Eh; cbn [negb]; [|split; [done|intros (_ & _ & [= -> -> ->] & _ & _ & ? & _); congruence]].
  destruct (isHexRef (Some commit)) eqn:Ec; cbn [negb]; [|split; [done|by intros (_ & _ & _ & _ & _ & ? & _)]].
  destruct (String.eqb_spec h commit) as [->|Hh]; cbn [negb]; [|split; [done|intros (_ & _ & [= -> -> ->] & _); congruence]].
  destruct (String.eqb_spec b commit) as [->|Hb]; [split; [done|by intros (_ & _ & [= -> ->] & _ & _ & _ & ? & _)]|].
  split; [by intros [= <- <- <- <-]|]. by intros ([= <-] & _ & [= -> ->] & _ & _ & _ & _ & ->).
Qed.

Lemma drift_verdict_ok intent artifact exec commit :
  (drift_verdict intent artifact exec (Some commit)).1 = true <-> drift_established intent artifact exec commit.
Proof.
  unfold drift_verdict, drift_established. destruct (drift_input intent artifact (Some commit)) as [why|[[[paths wt] base] head]] eqn:Ei.
  - split; [done|]. intros (paths & wt & base & ex & out & ? & ? & ? & ? & ? & ? & ? & _).
    assert (E : drift_input intent artifact (Some commit) = inr (paths, wt, base, commit)) by (by apply drift_input_ok). congruence.
  - pose proof Ei as (-> & Hne & -> & Hw & Hb & Hc & Hbc & ->)%drift_input_ok. clear Ei. split.
    + destruct exec as [ex|]; [|done]. destruct (ex 0%nat (diff_command base commit) wt) as [out|] eqn:Eo; [|done].
      destruct (Z.eqb_spec (exitCode out) 0) as [Hx|]; cbn [negb]; [|done]. cbn zeta.
      destruct (Nat.ltb_spec 0 (length (drift_violations paths (changed_files (stdout out))))) as [|Hv]; [done|]. intros _.
      exists paths, wt, base, ex, out. split_and!; try done. apply no_violations. by destruct (drift_violations _ _); [|cbn in Hv; lia].
    + intros (paths' & wt' & base' & ex & out & [= <-] & _ & [= <- <-] & _ & _ & _ & _ & -> & Eo & Hx & Hall).
      rewrite Eo, Hx. cbn [negb Z.eqb]. cbn zeta. apply no_violations in Hall. by rewrite Hall.
Qed.

(** The second attestation confines the changes: a drift gate accepts exactly
    when, for an intention that allows at least one path, the two references are
    hexadecimal, distinct, and the second is the commit of the primary envelope,
    git answered with status zero in the absolute worktree, and every file it
    names is relative, goes up nowhere, and is an allowed path or below one; its
    envelope names the run, stage, attempt, commit, producer, policy and chain head
    of the primary one. *)
Theorem drift_confines (i : RunDriftGateInput) (sign : string -> string) (t0 t1 : Z) (r : RunGateResult)
    (Hr : runDriftGate i sign t0 t1 = Ok r) :
  let p := dg_primary i in
  let e := gr_envelope r in
  (gr_accepted r = true <-> drift_established (dg_intent i) (dg_driftArtifact i) (dg_exec i) (ge_commit p)) /\
  ge_runId e = ge_runId p /\ ge_stageId e = ge_stageId p /\ ge_attempt e = ge_attempt p /\ ge_commit e = ge_commit p /\
  ge_producerId e = ge_producerId p /\ ge_policy_digest e = ge_policy_digest p /\ ge_chain_head e = ge_chain_head p /\
  ge_keyid e = dg_keyid i.
Proof.
  cbn zeta. unfold runDriftGate in Hr. apply result_bind_ok in Hr as (d & Hd & Hr). apply result_bind_ok in Hr as (e & He & [= <-]).
  cbn [gr_accepted gr_envelope]. apply result_bind_ok in He as (c & _ & [= <-]). split; [|done].
  destruct (single_candidate _ _ _ _ _ _ _ _ _ _ _ Hd) as (_ & row & Hrow & Hacc & _).
  change (decision_accepted d) with (some_accepted d). rewrite Hacc. clear Hacc Hd c.
  inversion Hrow as [|l lv ls lvs Hev Hrow' E1 E2]; subst. inversion Hrow'; subst. rewrite <- drift_verdict_ok.
  assert (Hs : exists why, l_evaluate (buildDriftLens (dg_intent i) (dg_driftArtifact i) (dg_exec i) (Some (ge_commit (dg_primary i)))) (dg_artifact i)
      = scored (drift_verdict (dg_intent i) (dg_driftArtifact i) (dg_exec i) (Some (ge_commit (dg_primary i)))).1 why).
  { cbn [l_evaluate buildDriftLens]. destruct (drift_verdict _ _ _ _) as [ok why]. by eexists. }
  destruct Hs as [why Hs]. change (default half None) with half in Hev. rewrite (scored_lens _ _ _ _ _ _ _ Hs Hev).
  unfold kill_rule. cbn [existsb]. unfold hardFired, count_if. cbn [lv_criticality lv_fired l_polarity l_criticality buildDriftLens].
  rewrite affirm_fires. by destruct (drift_verdict _ _ _ _) as [[] ?].
Qed.
End Gate.

(** * Configuration files *)

Section Config.
Context (parseYaml : string -> result jsval) (cwd : string).

(** A declared file that is there, inside the worktree, and what it says it is. *)
Definition sound_file (readFile : FileReader) (root : string) (entry : jsval) : Prop :=
  exists e content what, entry = JStr e /\ is_blank e = false /\ isAbsolute e = false /\
    (resolve root e = root \/ exists below, resolve root e = (root_prefix root ++ below)%string) /\
    readFile (resolve root e) = Ok content /\ classify parseYaml (basename e) content = inl what.

Lemma validate_entry_ok readFile root entry what : validate_entry parseYaml readFile root entry = inl what ->
  sound_file readFile root entry.
Proof.
  unfold validate_entry. destruct entry as [| | | |e| | | | | |]; try done.
  destruct (is_blank e) eqn:Eb; [done|]. cbn zeta. destruct (isAbsolute e) eqn:Ea; [done|].
  destruct (negb (resolve root e =? root)%string && negb (starts_with (root_prefix root) (resolve root e))) eqn:Ei; [done|].
  destruct (readFile (resolve root e)) as [content|] eqn:Er; [|done]. intros Hc. exists e, content, what. split_and!; try done.
  apply andb_false_iff in Ei as [Ei|Ei]; apply negb_false_iff in Ei; [left; by apply String.eqb_eq|right; by apply starts_with_iff].
Qed.

Lemma sound_entry readFile root entry : sound_file readFile root entry -> exists what, validate_entry parseYaml readFile root entry = inl what.
Proof.
  intros (e & content & what & -> & Hb & Ha & Hi & Hr & Hc). exists what. unfold validate_entry. rewrite Hb, Ha, Hr. cbn zeta.
  destruct (negb (resolve root e =? root)%string && negb (starts_with (root_prefix root) (resolve root e))) eqn:E; [|done].
  apply andb_true_iff in E as [E1 E2]. apply negb_true_iff in E1, E2. destruct Hi as [Hi|Hi].
  - by rewrite Hi, String.eqb_refl in E1.
  - apply starts_with_iff in Hi. congruence.
Qed.

Lemma validate_files_ok readFile root files acc :
  c_valid (validate_files parseYaml readFile root files acc) = true <-> Forall (sound_file readFile root) files.
Proof.
  revert acc. induction files as [|f files IH]; intros acc; [done|]. cbn [validate_files]. rewrite Forall_cons.
  destruct (validate_entry parseYaml readFile root f) as [what|why] eqn:E.
  - rewrite IH. split; [|by intros [_ ?]]. intros Hf. split; [by eapply validate_entry_ok|done].
  - split; [done|]. intros [Hs _]. destruct (sound_entry _ _ _ Hs) as [what E']. congruence.
Qed.

(** The configuration is valid exactly when the artifact declares a worktree and
    at least one file, a reader is there, and every declared file is the text of a
    relative path that resolves to the worktree or below it, was read there, and
    parses as what its name says: no file outside the worktree is ever vouched
    for, and an empty declaration is not. *)
Theorem config_sound (artifact : string) (readFile : option FileReader) :
  c_valid (runConfigValidation parseYaml cwd artifact readFile) = true <->
  exists o files read, parseJson artifact = Some o /\ js_trim (text_of (get_field "worktree" o)) <> "" /\
    get_field "files_changed" o = JArr files /\ files <> [] /\ readFile = Some read /\
    Forall (sound_file read (resolve cwd (js_trim (text_of (get_field "worktree" o))))) files.
Proof.
  unfold runConfigValidation. destruct (parseJson artifact) as [o|]; [|split; [done|by intros (? & ? & ? & ? & _)]]. cbn zeta.
  destruct (get_field "files_changed" o) as [| | | | | | | |[|f files]| |] eqn:Ef;
    try (split; [done|intros (o' & fs & rd & [= <-] & _ & Hf & Hne & _); congruence]).
  destruct (String.eqb_spec (js_trim (text_of (get_field "worktree" o))) "") as [Ew|Hw];
    [split; [done|by intros (o' & fs & rd & [= <-] & Hne & _)]|].
  destruct readFile as [rd|]; [|split; [done|by intros (o' & fs & rd & _ & _ & _ & _ & ? & _)]].
  rewrite validate_files_ok. split.
  - intros Hall. by exists o, (f :: files), rd.
  - intros (o' & fs & rd' & [= <-] & _ & Hf & _ & [= <-] & Hall). rewrite Ef in Hf. by injection Hf as <-.
Qed.
End Config.

(** * Adversaries *)

Lemma str_app_inj a b c : (a ++ b)%string = (a ++ c)%string -> b = c.
Proof. induction a as [|x a IH]; [done|]. intros E. injection E as E. by apply IH. Qed.

Lemma aspect_inj i j : ("aspect-" ++ str_of_nat i)%string = ("aspect-" ++ str_of_nat j)%string -> i = j.
Proof. intros E. apply str_app_inj in E. unfold str_of_nat in E. apply (inj pretty) in E. lia. Qed.

Lemma distinctAngles_spec n : 0 <= n -> NoDup (distinctAngles n) /\ Z.of_nat (length (distinctAngles n)) = n.
Proof.
  intros Hn. unfold distinctAngles. cbn zeta. set (front := take (Z.to_nat n) ADVERSARY_ANGLES). split.
  - apply NoDup_app. split_and!.
    + apply (NoDup_app front (drop (Z.to_nat n) ADVERSARY_ANGLES)). unfold front. rewrite take_drop.
      apply (bool_decide_unpack _). vm_compute. exact I.
    + intros x Hx Hy. apply list_elem_of_fmap in Hy as (j & -> & _).
      assert (Hin : ("aspect-" ++ str_of_nat j)%string ∈ ADVERSARY_ANGLES).
      { rewrite <- (take_drop (Z.to_nat n)). apply elem_of_app. by left. }
      unfold ADVERSARY_ANGLES in Hin. rewrite !elem_of_cons in Hin.
      destruct Hin as [E|[E|[E|[E|[E|[E|E]]]]]]; try discriminate E. by apply elem_of_nil in E.
    + apply NoDup_fmap_2_strong; [|apply NoDup_seq]. intros i j _ _. apply aspect_inj.
  - assert (Hl : (length front <= Z.to_nat n)%nat) by (unfold front; rewrite length_take; lia).
    rewrite length_app, length_map, length_seq. lia.
Qed.

(** The adversaries asked for are the adversaries built: none, one, or exactly
    the number requested and at least two, with distinct names; each is a soft
    refuting judge whose score is one exactly when its refuter finds a fault or
    fails, and zero otherwise. *)
Theorem adversaries_exact (stageId : string) (config : AdversaryConfigInput) (refuter : RefuteFn) :
  let lenses := buildAdversaryLenses stageId config refuter in
  NoDup (map l_name lenses) /\
  Z.of_nat (length lenses) = match intensity config with
    | adv_none => 0
    | adv_judge => 1
    | adv_refute_quorum => Z.max 2 (default 2 (adv_lenses config))
    end /\
  forall l, l ∈ lenses -> l_polarity l = Battery.refute /\ l_criticality l = soft /\ l_engine l = llm_judge /\
    exists angle, l_name l = ("adversary:" ++ slugify stageId ++ ":" ++ angle)%string /\
      forall c, exists why, l_evaluate l c =
        scored (match refuter stageId c angle with Ok (refuted, _) => refuted | Throw _ => true end) why.
Proof.
  cbn zeta. rewrite adversary_lenses_map, length_map.
  assert (Ha : NoDup (gate_angles config) /\ Z.of_nat (length (gate_angles config)) = match intensity config with
      | adv_none => 0 | adv_judge => 1 | adv_refute_quorum => Z.max 2 (default 2 (adv_lenses config)) end).
  { unfold gate_angles. destruct (intensity config); [by split; [constructor|]|by apply distinctAngles_spec|].
    assert (Hc : clampLensCount (default 2 (adv_lenses config)) = Z.max 2 (default 2 (adv_lenses config))).
    { unfold clampLensCount. destruct (Z.ltb_spec (default 2 (adv_lenses config)) 2); lia. }
    rewrite Hc. apply distinctAngles_spec. lia. }
  destruct Ha as [Hnd Hlen]. split_and!; [|done|].
  - rewrite List.map_map. apply NoDup_fmap_2_strong; [|done]. intros a b _ _ E. cbn [l_name adversary_lens] in E.
    by do 3 apply str_app_inj in E.
  - intros l Hl. apply list_elem_of_fmap in Hl as (angle & -> & _). split_and!; [done..|]. exists angle. split; [done|].
    intros c. cbn [l_evaluate adversary_lens]. destruct (refuter stageId c angle) as [[b why]|e]; by eexists.
Qed.

(** * Concrete runs *)

(** * A stage *)

Definition text (v : jsval) : string := match stringify v with Ok (Some t) => t | _ => "" end.
Definition report : string :=
  text (JObj [("worktree", JStr "/repo"); ("test_cmd", JStr "pnpm test"); ("changed_files", JArr [JStr "src/a.ts"]);
              ("files_changed", JArr [JStr "ci.yml"; JStr "docker/Dockerfile"])]).
Definition no_yaml (content : string) : result jsval := if (content =? "")%string then Ok JNull else Ok (JStr content).
Definition read_any (path : string) : result string :=
  if (path =? "/repo/ci.yml")%string then Ok "on: push" else Ok (String.append "# base" (newline ++ "from node:22")).

(** Commits and tests of the worktree. *)
Definition ex (n : nat) (cmd cwd : string) : result ExecResult :=
  if (cmd =? GIT_HEAD)%string then Ok (mkExec 0 ("abcdef0123" ++ newline) "")
  else if (cmd =? "pnpm test")%string then Ok (mkExec 0 "# tests 3" "# pass 3")
  else Throw (JsError "Error" "not a test runner").

Definition anchors : list AnchorSpecInput :=
  [mkSpec "diff-nonempty" pure_anchor; mkSpec "ci-green" ci_anchor; mkSpec "config-valid" pure_anchor].
Definition gate_with (exec : option ExecFn) (artifact : string) (anchors : list AnchorSpecInput) : RunGateUnsignedInput :=
  mkGate "build" artifact anchors "run-1" "ADR-1" 1 "abcdef0" "producer" [] None exec None (Some read_any) None None [] None.
Definition gate0 : RunGateUnsignedInput := gate_with (Some ex) report anchors.
Definition result0 : result RunGateResult := runGateUnsigned (H := printHashing) no_yaml "/" gate0 0 1.

(** The result of a gate that answers. *)
Definition gate_of (r : result RunGateResult) : RunGateResult :=
  match r with Ok g => g | Throw _ => mkGateResult false {| ge_runId := ""; ge_stageId := ""; ge_attempt := 0; ge_commit := "";
    ge_producerId := ""; ge_keyid := ""; ge_artifactHash := ""; ge_decisionCore := mkCore "" num_zero None None None [] [];
    ge_outputHash := ""; ge_policy_digest := None; ge_chain_head := None; ge_sig := None |} [] end.

Lemma gate0_runs : result0 = Ok (gate_of result0) /\ gr_accepted (gate_of result0) = true.
Proof. split; vm_compute; reflexivity. Qed.

(** Nothing runs, nothing passes. *)
Example no_executor : gr_accepted <$> runGateUnsigned (H := printHashing) no_yaml "/" (gate_with None report anchors) 0 1 = Ok false.
Proof. vm_compute. reflexivity. Qed.
Example unknown_anchor : gr_accepted <$> runGateUnsigned (H := printHashing) no_yaml "/" (gate_with None report [mkSpec "sealed" pure_anchor]) 0 1 = Ok false.
Proof. vm_compute. reflexivity. Qed.
Example inherited_anchor : is_ok (runGateUnsigned (H := printHashing) no_yaml "/" (gate_with None report [mkSpec "toString" pure_anchor]) 0 1) = false.
Proof. vm_compute. reflexivity. Qed.

Lemma gate_decides_witness : gr_accepted (gate_of result0) = true /\ anchor_holds no_yaml "/" gate0 "ci-green".
Proof.
  split; [apply gate0_runs|].
  apply (proj1 (gate_decides (H := printHashing) no_yaml "/" gate0 0 1 (gate_of result0) (proj1 gate0_runs)) (proj2 gate0_runs)
    (mkSpec "ci-green" ci_anchor)).
  right. left.
Defined.

Lemma no_self_attestation_witness : gr_accepted (gate_of result0) = true /\
  (gate_grounding gate0).2 = [(GIT_HEAD, "/repo"); ("pnpm test", "/repo")].
Proof.
  split; [apply gate0_runs|].
  destruct (no_self_attestation (H := printHashing) no_yaml "/" gate0 0 1 (gate_of result0) (mkSpec "ci-green" ci_anchor)
    (proj1 gate0_runs) (proj2 gate0_runs)) as (? & ? & ? & _ & Hc & _).
  - right. left.
  - left.
  - reflexivity.
  - etransitivity; [exact Hc|]. vm_compute. reflexivity.
Defined.

Lemma anchors_fail_closed_witness : parseJson "not json" = None /\ exists why, diff_nonempty "not json" = Ok (mkAnchor false why).
Proof.
  split; [vm_compute; reflexivity|]. apply (anchors_fail_closed "not json" "diff-nonempty" diff_nonempty).
  - do 8 right. left.
  - apply (bool_decide_unpack _). vm_compute. exact I.
  - vm_compute. reflexivity.
Defined.

(** * Drift *)

Definition primary : GateVerdictEnvelope := gr_envelope (gate_of result0).
Definition diff_of (files : list string) (n : nat) (cmd cwd : string) : result ExecResult := Ok (mkExec 0 (join newline files) "").
Definition drift_with (base head : string) (files : list string) : RunDriftGateInput :=
  mkDriftGate (stamp "key" None None {| ge_runId := ge_runId primary; ge_stageId := ge_stageId primary; ge_attempt := 1; ge_commit := head;
      ge_producerId := "producer"; ge_keyid := ""; ge_artifactHash := ""; ge_decisionCore := ge_decisionCore primary;
      ge_outputHash := ""; ge_policy_digest := None; ge_chain_head := None; ge_sig := None |})
    report (Some (mkIntent (Some ["src/"; "docs"]))) (Some (mkDrift (Some "/repo") (Some base) (Some head))) "drift-key" "ADR-1"
    (Some (diff_of files)).
Definition run_drift (base head : string) (files : list string) : result RunGateResult :=
  runDriftGate (H := printHashing) (drift_with base head files) (fun s => ("sig:" ++ s)%string) 0 1.

Example drift_outside : gr_accepted <$> run_drift "1234567" "abcdef0" ["src/a.ts"; "src-gen/b.ts"] = Ok false.
Proof. vm_compute. reflexivity. Qed.

Lemma drift_confines_witness : gr_accepted (gate_of (run_drift "1234567" "abcdef0" ["src/a.ts"; "docs"])) = true /\
  drift_established (Some (mkIntent (Some ["src/"; "docs"]))) (Some (mkDrift (Some "/repo") (Some "1234567") (Some "abcdef0")))
    (Some (diff_of ["src/a.ts"; "docs"])) "abcdef0".
Proof.
  assert (Ha : gr_accepted (gate_of (run_drift "1234567" "abcdef0" ["src/a.ts"; "docs"])) = true) by (vm_compute; reflexivity).
  split; [exact Ha|].
  apply (proj1 (proj1 (drift_confines (H := printHashing) (drift_with "1234567" "abcdef0" ["src/a.ts"; "docs"])
    (fun s => ("sig:" ++ s)%string) 0 1 (gate_of (run_drift "1234567" "abcdef0" ["src/a.ts"; "docs"])) ltac:(vm_compute; reflexivity)))).
  exact Ha.
Defined.

(** * What gets through *)

(** A short and a long name of one commit are two references, and there is nothing
    between them. *)
Example empty_range_accepted : gr_accepted <$> run_drift "abcdef0" "abcdef0123" [] = Ok true.
Proof. vm_compute. reflexivity. Qed.

(** A head that git does not print agrees with every commit. *)
Example silent_head : heads_match (js_trim newline) "abcdef0" = true.
Proof. vm_compute. reflexivity. Qed.

(** Two empty sources are two sources. *)
Example twice_no_source :
  two_lens_verdict (text (JObj [("verdicts", JArr [JObj [("source", JObj [])]; JObj [("source", JObj [])]])]))
  = Ok (mkAnchor true ">=2 distinct verdict sources").
Proof. vm_compute. reflexivity. Qed.
Example same_source_once :
  two_lens_verdict (text (JObj [("verdicts", JArr [JObj [("source", JStr "a")]; JObj [("source", JStr "a")]])]))
  = Ok (mkAnchor false ">=2 distinct verdict sources").
Proof. vm_compute. reflexivity. Qed.

(** No posts, no forbidden style. *)
Example style_of_nothing : no_forbidden_style "revolutionary -- and not even an object" = Ok (mkAnchor true "no-forbidden-style: clean").
Proof. vm_compute. reflexivity. Qed.
