(* ===== verification/Mesh.v ===== *)
(** Delegation over a mesh of agents: [src/mesh/dispatcher.ts],
    [src/mesh/delegate.ts] and the decoding of tokens in
    [src/mesh/attenuation.ts].

    Executors, dispatchers and the chunk callback are caller code: functions on
    an abstract world.  Whether an executor settles before its timer is decided
    by the world too.  [Date.parse], the clocks and [Math.random()] are
    arguments. *)

From S2P Require Import Prelude JsNum JsValue Json Regex Canonical.
From S2P Require Import Battery BatteryProps ActionGate Attenuation Delegation.
From Stdlib Require Import Ascii SpecFloat.

Inductive MeshAgentKind := ooda | llm_router | mcp_tool | plugin | fallback.

#[export] Instance MeshAgentKind_eq_dec : EqDecision MeshAgentKind.
Proof. solve_decision. Defined.

Definition kind_name (k : MeshAgentKind) : string :=
  match k with
  | ooda => "ooda" | llm_router => "llm-router" | mcp_tool => "mcp-tool" | plugin => "plugin"
  | fallback => "fallback"
  end.

Record DelegationLink := mkLink {
  lk_from : string;
  lk_to : string;
  lk_scope : list string;
  lk_budget : num
}.

(** * The dispatcher *)

Record DispatchIntent := mkIntent {
  di_kind : MeshAgentKind;
  di_need : string;
  di_context : option string;
  di_deadline : option num;
  di_maxCost : option num;
  di_toolName : option string;
  di_toolArgs : jsval
}.

Record DispatchResult := mkDispatched {
  dr_output : string;
  dr_costEur : num;
  dr_durationMs : num;
  dr_truncated : bool
}.

Definition OODA_HINTS : list string :=
  ["scan"; "audit"; "monitor"; "watch"; "step by step"; "analyze then"; "investigate"; "diagnose";
   "post-mortem"].
Definition MCP_HINTS : list string :=
  ["get price"; "fetch"; "call api"; "lookup"; "read contract"; "check balance"; "get_"].

Definition is_terminator (c : ascii) : bool :=
  bool_decide (c ∈ ["."; "!"; "?"]%char).
Fixpoint terminators (s : string) : nat :=
  match s with
  | EmptyString => 0
  | String c s' => if is_terminator c then S (terminators s') else terminators s'
  end%nat.

Definition defaultClassifier (need : string) : MeshAgentKind :=
  let n := js_trim (lower need) in
  if (String.length n =? 0)%nat then llm_router
  else if existsb (fun hint => str_includes hint n) OODA_HINTS then ooda
  else if (3 <=? terminators n)%nat then ooda
  else if (String.length n <? 80)%nat && existsb (fun hint => str_includes hint n) MCP_HINTS
       then mcp_tool
  else llm_router.

(** The errors that an executor or [runWithDeadline] rejects with. *)
Inductive dispatch_error :=
| DeadlineExceededError (deadlineMs : num) (partial : option string)
| OtherError (e : jserror).

(** How [Promise.race] between an executor and the timer is settled. *)
Inductive race :=
| Resolves (output : string)
| Rejects (e : dispatch_error)
| TimedOut.

Definition MeshDispatchError (message : string) : jserror := JsError "MeshDispatchError" message.
Definition RangeError (message : string) : jserror := JsError "RangeError" message.

Definition DEFAULT_DEADLINE_MS : num := num_of_Z 30000.
Definition num_infinity : num := S754_infinity false.

(** [!Number.isFinite(x) || x <= 0]. *)
Definition bad_deadline (x : num) : bool := negb (is_finite x) || num_leb x num_zero.

Definition newline : string := String "010"%char "".

Section Dispatcher.
Context {W : Type}.

Definition Executor : Type := W -> race * W.

(** [mcpTools] is what reading a property of the registry yields. *)
Record DispatcherConfig := mkConfig {
  cf_classifier : option (string -> MeshAgentKind);
  cf_llm : option (string -> num -> Executor);
  cf_ooda : option (string -> option string -> num -> Executor);
  cf_mcpTools : string -> option (jsval -> Executor);
  cf_plugin : option (string -> option string -> Executor);
  cf_fallback : option (DispatchIntent -> Executor);
  cf_costPerMs : option num
}.

(** What [delegate.ts] needs of a dispatcher; [md_classify] when it has one. *)
Record MeshDispatcher := mkDispatcher {
  md_dispatch : DispatchIntent -> W -> result DispatchResult * W;
  md_classify : option (string -> MeshAgentKind)
}.

Definition stub (label text : string) : Executor :=
  fun w => (Resolves (label ++ " " ++ String.substring 0 200 text)%string, w).
Definition failing (e : jserror) : Executor := fun w => (Rejects (OtherError e), w).

Definition llm_prompt (i : DispatchIntent) : string :=
  match di_context i with
  | None | Some EmptyString => di_need i
  | Some c => (di_need i ++ newline ++ newline ++ "[context]" ++ newline ++ c)%string
  end.

Definition executorFor (config : DispatcherConfig) (i : DispatchIntent) : Executor :=
  let deadlineMs := default DEFAULT_DEADLINE_MS (di_deadline i) in
  match di_kind i with
  | llm_router =>
      let prompt := llm_prompt i in
      match cf_llm config with
      | Some llm => llm prompt deadlineMs
      | None => stub "[llm-router stub]" prompt
      end
  | ooda =>
      match cf_ooda config with
      | Some f => f (di_need i) (di_context i) deadlineMs
      | None => stub "[ooda stub]" (di_need i)
      end
  | mcp_tool =>
      match di_toolName i with
      | None | Some EmptyString => failing (MeshDispatchError "mcp-tool intent missing toolName")
      | Some name =>
          match cf_mcpTools config name with
          | None => failing (MeshDispatchError ("mcp-tool " ++ quoted name ++ " not registered"))
          | Some tool => tool (di_toolArgs i)
          end
      end
  | plugin =>
      match cf_plugin config with
      | Some f => f (di_need i) (di_context i)
      | None => stub "[plugin stub]" (di_need i)
      end
  | fallback =>
      match cf_fallback config with Some f => f i | None => stub "[fallback]" (di_need i) end
  end.

Definition runWithDeadline (exec : Executor) (deadlineMs : num) (w : W)
    : (string + dispatch_error) * W :=
  let '(r, w') := exec w in
  match r with
  | Resolves s => (inl s, w')
  | Rejects e => (inr e, w')
  | TimedOut => (inr (DeadlineExceededError deadlineMs None), w')
  end.

Context (perfNow : W -> num).

Definition dispatch (config : DispatcherConfig) (i : DispatchIntent) (w : W)
    : result DispatchResult * W :=
  let deadlineMs := default DEFAULT_DEADLINE_MS (di_deadline i) in
  let maxCost := default num_infinity (di_maxCost i) in
  if bad_deadline deadlineMs then
    (Throw (RangeError ("DefaultMeshDispatcher.dispatch: deadline_ms must be > 0, got " ++
      num_to_string deadlineMs)), w)
  else if num_ltb maxCost num_zero then
    (Throw (RangeError ("DefaultMeshDispatcher.dispatch: max_cost_eur must be ≥ 0, got " ++
      num_to_string maxCost)), w)
  else
    let start := perfNow w in
    let '(r, w') := runWithDeadline (executorFor config i) deadlineMs w in
    let durationMs := num_sub (perfNow w') start in
    let costEur := num_min maxCost (num_mul durationMs (default num_zero (cf_costPerMs config))) in
    match r with
    | inl output => (Ok (mkDispatched output costEur durationMs false), w')
    | inr (DeadlineExceededError _ partial) =>
        (Ok (mkDispatched (default "" partial) costEur durationMs true), w')
    | inr (OtherError e) => (Throw e, w')
    end.

Definition DefaultMeshDispatcher (config : DispatcherConfig) : MeshDispatcher :=
  mkDispatcher (dispatch config) (Some (default defaultClassifier (cf_classifier config))).
End Dispatcher.
Arguments MeshDispatcher W : clear implicits.
Arguments DispatcherConfig W : clear implicits.
Arguments Executor W : clear implicits.

(** * meshDelegate *)

Inductive RawContext := CtxText (s : string) | CtxObject (fields : list (string * jsval)).

Record DelegateChunk := mkChunk { ck_text : string; ck_done : bool; ck_agentKind : MeshAgentKind }.

Record DelegateOptions (W : Type) := mkOptions {
  o_need : string;
  o_context : option RawContext;
  o_capabilities : option (list string);
  o_deadline : option num;
  o_maxCost : option num;
  o_parentToken : option AttenuatedToken;
  o_onChunk : option (DelegateChunk -> W -> result unit * W);
  o_kind : option MeshAgentKind;
  o_childId : option string;
  o_toolName : option string;
  o_toolArgs : jsval
}.
Arguments o_need {W} _.
Arguments o_context {W} _.
Arguments o_capabilities {W} _.
Arguments o_deadline {W} _.
Arguments o_maxCost {W} _.
Arguments o_parentToken {W} _.
Arguments o_onChunk {W} _.
Arguments o_kind {W} _.
Arguments o_childId {W} _.
Arguments o_toolName {W} _.
Arguments o_toolArgs {W} _.
Arguments mkOptions {W} _ _ _ _ _ _ _ _ _ _ _.

Record DelegateResult := mkDelegated {
  rs_output : string;
  rs_agentKind : MeshAgentKind;
  rs_delegationChain : list DelegationLink;
  rs_costEur : num;
  rs_durationMs : num;
  rs_truncated : bool;
  rs_childToken : option AttenuatedToken;
  rs_auditStep : option BatteryTraceStep
}.

Definition DEFAULT_MAX_COST_EUR : num := num_of_decimal 1 2.
Definition SELF_ID : string := "mesh:caller".
Definition MESH_DELEGATE_ADR : string := "ADR-ECO-076".

(** [String({...})] of an object that [JSON.stringify] refuses. *)
Definition stringifyContext (ctx : option RawContext) : option string :=
  match ctx with
  | None => None
  | Some (CtxText s) => Some s
  | Some (CtxObject fields) =>
      match stringify (JObj fields) with
      | Ok t => t
      | Throw _ => Some "[object Object]"
      end
  end.

(** [n.toString(36)] of a natural number. *)
Definition digit36 (d : Z) : ascii :=
  ascii_of_nat (Z.to_nat (if d <? 10 then 48 + d else 87 + d)).
Fixpoint digits36 (fuel : nat) (n : Z) (acc : string) : string :=
  match fuel with
  | O => acc
  | S fuel' =>
      let acc' := String (digit36 (n mod 36)) acc in
      if n <? 36 then acc' else digits36 fuel' (n / 36) acc'
  end.
Definition base36 (n : Z) : string := digits36 (S (Z.to_nat (Z.log2 n))) n EmptyString.

(** [now] is [Date.now()], [random] is [Math.random()]. *)
Definition generateChildId (now : Z) (random : num) : string :=
  ("mesh-child-" ++ base36 now ++ "-" ++
   base36 (num_floor (num_mul random (num_of_Z 1000000))))%string.

Section Delegate.
Context `{Hashing}.
Context (parseDate : string -> option Z).

(** [t ? new Date(t) : undefined]. *)
Definition token_date (expires : option string) : option (option Z) :=
  match expires with None | Some EmptyString => None | Some t => Some (parseDate t) end.

Definition parseToken (t : AttenuatedToken) : MeshCapabilityScope :=
  mkScope (tok_scope t) (tok_budgetEur t) (token_date (tok_expiresAt t)).

Definition issueChildToken (parentToken : AttenuatedToken) (requestedCapabilities : option (list string))
    (requestedBudgetEur : num) (childId : string) : result (AttenuatedToken * MeshCapabilityScope) :=
  let parentScope := mkScope (tok_scope parentToken) (tok_budgetEur parentToken)
    (token_date (tok_expiresAt parentToken)) in
  let requestedScope :=
    mkScope (default (tok_scope parentToken) requestedCapabilities) requestedBudgetEur None in
  childScope ← attenuateScope parentScope requestedScope;
  token ← buildToken childScope childId;
  Ok (token, childScope).

Record MeshGovernanceCandidate := mkGovernance {
  effectiveScope : list string;
  subsetViolations : list string;
  budgetViolation : bool;
  recursionTool : option string
}.

Definition governance_val (c : MeshGovernanceCandidate) : jsval :=
  JObj [("effectiveScope", JArr (map JStr (effectiveScope c)));
        ("subsetViolations", JArr (map JStr (subsetViolations c)));
        ("budgetViolation", JBool (budgetViolation c));
        ("recursionTool", match recursionTool c with Some t => JStr t | None => JUndef end)].

Definition meshGovernanceLens : BatteryLens MeshGovernanceCandidate :=
  {| l_name := "mesh-delegate-governance";
     l_evaluate := fun c =>
       match recursionTool c with
       | Some t => Ok (ResultObj (ScoreNum num_zero) (RatStr
           ("recursion: mcp-tool " ++ quoted t ++ " is a non-delegable primitive")))
       | None =>
           if (0 <? length (subsetViolations c))%nat then
             Ok (ResultObj (ScoreNum num_zero) (RatStr
               ("escalation: effective scope exceeds parent grant: " ++
                join ", " (subsetViolations c))))
           else if budgetViolation c then
             Ok (ResultObj (ScoreNum num_zero)
               (RatStr "escalation: effective budget exceeds parent grant"))
           else
             Ok (ResultObj (ScoreNum num_one) (RatStr
               ("governance valid: " ++ str_of_nat (length (effectiveScope c)) ++
                " capability(ies) within parent grant, no recursion")))
       end%string;
     l_polarity := affirm; l_criticality := hard; l_engine := rule; l_model := None |}.

Context {W : Type}.

Definition kind_of (o : DelegateOptions W) (d : MeshDispatcher W) : MeshAgentKind :=
  match o_kind o with
  | Some k => k
  | None => match md_classify d with Some classify => classify (o_need o) | None => llm_router end
  end.

Definition recursion_of (kind : MeshAgentKind) (tool : option string) : option string :=
  match tool with
  | Some t => if bool_decide (kind = mcp_tool) && non_delegable t then Some t else None
  | None => None
  end.

(** Attenuation: the token of the child, the effective scope, the budget. *)
Definition attenuated (o : DelegateOptions W) (maxCostEur : num) (childId : string)
    : result (option AttenuatedToken * option (list string) * num) :=
  match o_parentToken o with
  | Some parent =>
      issued ← issueChildToken parent (o_capabilities o) maxCostEur childId;
      let '(token, scope) := issued in
      if (length (actions scope) =? 0)%nat && (0 <? length (default [] (o_capabilities o)))%nat then
        Throw (JsError "DelegateAttenuationError"
          "meshDelegate: requested capabilities are not granted by parent scope")
      else Ok (Some token, Some (actions scope), num_min maxCostEur (budgetEur scope))
  | None => Ok (None, o_capabilities o, maxCostEur)
  end.

(** The clock is not read: the scope that is looked at has no [expiresAt]. *)
Definition governance (o : DelegateOptions W) (kind : MeshAgentKind) (scope : option (list string))
    (maxCostEur : num) : MeshGovernanceCandidate :=
  mkGovernance (default [] scope)
    (match o_parentToken o with
     | Some parent => List.filter
         (fun a => negb (scopeAllows 0 (mkScope (tok_scope parent) (tok_budgetEur parent) None) a))
         (default [] scope)
     | None => []
     end)
    (match o_parentToken o with
     | Some parent => num_gtb maxCostEur (tok_budgetEur parent) | None => false end)
    (recursion_of kind (o_toolName o)).

(** What is settled before the dispatcher is called. *)
Record Prepared := mkPrepared {
  pr_intent : DispatchIntent;
  pr_kind : MeshAgentKind;
  pr_childId : string;
  pr_childToken : option AttenuatedToken;
  pr_scope : option (list string);
  pr_maxCost : num;
  pr_audit : option BatteryTraceStep
}.

(** [fresh] is the identifier [generateChildId] would make; [t0] and [t1] are
    the readings of the clock of the governance gate. *)
Definition prepare (o : DelegateOptions W) (d : MeshDispatcher W) (fresh : string) (t0 t1 : Z)
    : result Prepared :=
  _ ← throw_if (o_need o =? "")%string
    (JsError "TypeError" "meshDelegate: `need` is required and must be a non-empty string");
  let deadlineMs := default DEFAULT_DEADLINE_MS (o_deadline o) in
  _ ← throw_if (bad_deadline deadlineMs)
    (RangeError ("meshDelegate: deadline_ms must be > 0, got " ++ num_to_string deadlineMs));
  let requestedCost := default DEFAULT_MAX_COST_EUR (o_maxCost o) in
  _ ← throw_if (negb (is_finite requestedCost) || num_ltb requestedCost num_zero)
    (RangeError ("meshDelegate: max_cost_eur must be ≥ 0, got " ++ num_to_string requestedCost));
  let kind := kind_of o d in
  let childId := default fresh (o_childId o) in
  issued ← attenuated o requestedCost childId;
  let '(childToken, scope, maxCostEur) := issued in
  let candidate := governance o kind scope maxCostEur in
  verdict ← batteryActionGate governance_val (fun _ => candidate) [meshGovernanceLens]
    MESH_DELEGATE_ADR childId None t0 t1
    {| toolName := default (kind_name kind) (o_toolName o);
       args := JObj [("need", JStr (o_need o));
                     ("capabilities", JArr (map JStr (default [] scope)))];
       budgetUsed := num_zero |};
  _ ← throw_if (negb (allowed verdict))
    (JsError "MeshGovernanceDeniedError" ("meshDelegate: " ++ gate_reason verdict));
  Ok (mkPrepared
    (mkIntent kind (o_need o) (stringifyContext (o_context o)) (Some deadlineMs) (Some maxCostEur)
      (o_toolName o) (o_toolArgs o))
    kind childId childToken scope maxCostEur (gate_audit verdict)).

Definition meshDelegate (o : DelegateOptions W) (d : MeshDispatcher W) (fresh : string) (t0 t1 : Z)
    (w : W) : result DelegateResult * W :=
  match prepare o d fresh t0 t1 with
  | Throw e => (Throw e, w)
  | Ok p =>
      let '(dispatched, w1) := md_dispatch d (pr_intent p) w in
      match dispatched with
      | Throw e => (Throw e, w1)
      | Ok r =>
          let link := mkLink (match o_parentToken o with Some t => tok_parentId t | None => SELF_ID end)
            (pr_childId p) (default [] (pr_scope p)) (pr_maxCost p) in
          let '(streamed, w2) :=
            match o_onChunk o with
            | Some onChunk => onChunk (mkChunk (dr_output r) true (pr_kind p)) w1
            | None => (Ok tt, w1)
            end in
          (_ ← streamed;
           Ok (mkDelegated (dr_output r) (pr_kind p) [link] (dr_costEur r) (dr_durationMs r)
             (dr_truncated r) (pr_childToken p) (pr_audit p)), w2)
      end
  end.

Definition createMeshDelegate (d : MeshDispatcher W) (o : DelegateOptions W) := meshDelegate o d.
End Delegate.

(** * The gate of a rule lens, in full *)

Lemma hash_total `{Hashing} v : serializable v = true -> exists h, hash_canonical v = Ok h.
Proof.
  intros Hs. rewrite <- (preprocess_is_ok v []) in Hs. unfold hash_canonical, canonical, canonicalize.
  destruct (preprocess [] v); [by eexists|done].
Qed.

(** A gate that asks one hard affirming rule decides as the rule does, and
    always answers, when its identifiers are not blank. *)
Lemma rule_gate_decides `{Hashing} {T} (to_val : T -> jsval) (c : T) (l : BatteryLens T) (ok : bool)
    (why adr runId : string) (t0 t1 : Z) (call : ActionGateCall) :
  l_evaluate l c = Ok (ResultObj (one_or_zero ok) (RatStr why)) ->
  l_polarity l = affirm -> l_criticality l = hard -> l_engine l = rule -> l_model l = None ->
  is_blank adr = false -> is_blank runId = false ->
  serializable (to_val c) = true -> serializable (args call) = true ->
  serializable (JNum (budgetUsed call)) = true ->
  exists v, batteryActionGate to_val (fun _ => c) [l] adr runId None t0 t1 call = Ok v /\
    allowed v = ok.
Proof.
  intros He Hp Hc Hen Hm Hadr Hrun Hval Hargs Hb.
  destruct (hash_total _ Hval) as [h Hh], l as [name ev pol crit eng mdl].
  cbn [l_evaluate l_polarity l_criticality l_engine l_model] in He, Hp, Hc, Hen, Hm. subst pol crit eng mdl.
  set (l := Build_BatteryLens T name ev affirm hard rule None).
  set (lv := mkLensVerdict name affirm hard rule (if ok then num_one else num_zero) (negb ok) why).
  assert (Hlv : evalLens half false c l = Ok lv).
  { unfold evalLens, lv. cbn [throw_if l l_evaluate]. unfold mbind. cbn [result_bind]. rewrite He. by destruct ok. }
  assert (Hguards : guards 1 [l] runId adr half = Ok tt).
  { unfold guards. by rewrite Hadr, Hrun. }
  set (verdicts := verdictsFrom half 0 [[lv]] [h]).
  set (acc := selectVerdict verdicts).
  assert (Hcore : exists g, hash_canonical (core_val (mkCore adr half (fst <$> acc)
      (match fst <$> acc with Some i => [h] !! Z.to_nat i | None => None end) (snd <$> acc) verdicts
      (rejectedOf acc verdicts)) ) = Ok g).
  { apply hash_total. unfold acc, verdicts, lv. destruct ok; vm_compute; reflexivity. }
  assert (Hin : exists g, hash_canonical (input_val (call_val call) [h] [l] half adr) = Ok g).
  { apply hash_total. cbn [serializable] in Hb. unfold input_val, call_val.
    cbn -[num_zero half]. rewrite Hargs, Hb. reflexivity. }
  assert (Hsel : match fst <$> acc with Some _ => true | None => false end = ok).
  { unfold acc, verdicts, lv. by destruct ok; vm_compute. }
  destruct Hcore as [g Hcore], Hin as [g' Hin].
  assert (Hrows : map_result (fun c => map_result (evalLens half false c) [l]) [c] = Ok [[lv]]).
  { unfold mbind. cbn [map_result result_bind]. unfold mbind. by rewrite Hlv. }
  assert (Hhs : map_result (fun c => hash_canonical (to_val c)) [c] = Ok [h]).
  { cbn [map_result]. unfold mbind. by rewrite Hh. }
  assert (Hd : exists d, runVerifierBattery to_val (call_val call) [c] [l] runId adr None false t0 t1 = Ok d /\
    d_acceptedIndex d = fst <$> acc).
  { eexists. split; [|].
    - do 5 (apply result_bind_ok; eexists; split; [eassumption|]). reflexivity.
    - reflexivity. }
  destruct Hd as (d & Hd & Hi). unfold batteryActionGate. rewrite Hd. unfold mbind. cbn [result_bind].
  rewrite Hi. destruct (fst <$> acc); (eexists; split; [reflexivity|exact Hsel]).
Qed.

(** * What reaches the dispatcher *)

Lemma scope_ignores_clock perms b a :
  scopeAllows 0 (mkScope perms b None) a = existsb (fun p => permissionMatches p a) perms.
Proof. done. Qed.

Lemma cost_not_above (x y : num) : num_ltb x (num_min x y) = false.
Proof.
  destruct (is_nan x) eqn:Hx; [by destruct x|]. destruct (is_nan y) eqn:Hy.
  - unfold num_min. rewrite Hx, Hy. by destruct x.
  - by destruct (num_min_nlt x y _ Hx Hy eq_refl).
Qed.

Lemma num_min_finite x y : is_finite x = true -> is_finite y = true -> is_finite (num_min x y) = true.
Proof.
  intros Hx Hy. unfold num_min. rewrite !finite_not_nan by done. cbn. destruct (num_ltb y x); [done|].
  by destruct x, y as [[]| | |].
Qed.

Lemma iso_string_cons ms : exists c s, iso_string ms = String c s.
Proof.
  unfold iso_string. cbv zeta. destruct (_ ++ _)%string as [|c s] eqn:E; [|by eauto].
  exfalso. apply (f_equal String.length) in E. rewrite !str_length_app in E. cbn in E. lia.
Qed.

Lemma strings_serializable l : forallb serializable (map JStr l) = true.
Proof. by induction l. Qed.

Lemma call_args_serializable tool need l : serializable (args (Build_ActionGateCall tool
  (JObj [("need", JStr need); ("capabilities", JArr (map JStr l))]) num_zero)) = true.
Proof. cbn [args serializable forallb snd]. by rewrite strings_serializable. Qed.

Section Props.
Context `{Hashing}.
Context (parseDate : string -> option Z).
Context {W : Type}.
Implicit Types (o : DelegateOptions W) (d : MeshDispatcher W).

Definition parent_date (p : AttenuatedToken) : option (option Z) := token_date parseDate (tok_expiresAt p).

(** What a parent token must be for a child token to be cut from it. *)
Definition issuable (o : DelegateOptions W) (p : AttenuatedToken) : Prop :=
  is_finite (tok_budgetEur p) = true /\ num_ltb (tok_budgetEur p) num_zero = false /\
  parent_date p <> Some None /\
  (default [] (o_capabilities o) = [] \/
   exists a, a ∈ default [] (o_capabilities o) /\
     existsb (fun q => permissionMatches q a) (tok_scope p) = true).

Definition requested_cost (o : DelegateOptions W) : num := default DEFAULT_MAX_COST_EUR (o_maxCost o).

Lemma issue_ok o p cost child : child <> "" -> is_finite cost = true -> num_ltb cost num_zero = false ->
  is_finite (tok_budgetEur p) = true -> num_ltb (tok_budgetEur p) num_zero = false ->
  parent_date p <> Some None ->
  let acts := intersectActions (tok_scope p) (default (tok_scope p) (o_capabilities o)) in
  let budget := num_min (tok_budgetEur p) cost in
  issueChildToken parseDate p (o_capabilities o) cost child =
    Ok (mkToken acts budget child (match parent_date p with Some (Some t) => Some (iso_string t) | _ => None end),
        mkScope acts budget (parent_date p)).
Proof.
  intros Hc Hf Hn Hpf Hpn Hd acts budget. unfold issueChildToken, attenuateScope, mbind. cbn.
  fold (parent_date p). rewrite Hf, Hn, Hpf, Hpn. cbn. unfold buildToken.
  destruct (String.eqb_spec child ""); [done|]. cbn. by destruct (parent_date p) as [[t|]|].
Qed.

Lemma issue_fails o p cost child t s : issueChildToken parseDate p (o_capabilities o) cost child = Ok (t, s) ->
  is_finite (tok_budgetEur p) = true /\ num_ltb (tok_budgetEur p) num_zero = false /\
  parent_date p <> Some None /\ child <> "".
Proof.
  unfold issueChildToken. intros (sc & Ha & (tk & Hb & _)%result_bind_ok)%result_bind_ok.
  pose proof Ha as (_ & Hf & _ & _ & He)%attenuateScope_ok. cbn in Hf, He.
  unfold attenuateScope in Ha. cbn [budgetEur] in Ha. rewrite Hf in Ha. cbn in Ha.
  destruct (num_ltb (tok_budgetEur p) num_zero); [done|]. unfold buildToken in Hb.
  destruct (String.eqb_spec child ""); [done|]. split_and!; [done..| |done].
  unfold parent_date. intros Hd. rewrite He, Hd in Hb. done.
Qed.

(** The calls [meshDelegate] lets through. *)
Definition delegable (o : DelegateOptions W) (d : MeshDispatcher W) (childId : string) : Prop :=
  o_need o <> "" /\ bad_deadline (default DEFAULT_DEADLINE_MS (o_deadline o)) = false /\
  is_finite (requested_cost o) = true /\ num_ltb (requested_cost o) num_zero = false /\
  is_blank childId = false /\
  ~ (kind_of o d = mcp_tool /\ exists t, o_toolName o = Some t /\ non_delegable t = true) /\
  forall p, o_parentToken o = Some p -> issuable o p.

Lemma recursion_of_iff k t : recursion_of k t = None <->
  ~ (k = mcp_tool /\ exists x, t = Some x /\ non_delegable x = true).
Proof.
  unfold recursion_of. destruct t as [x|]; [|split; [|done]; by intros _ (_ & ? & ? & _)].
  destruct (decide (k = mcp_tool)) as [->|Hk].
  - rewrite bool_decide_eq_true_2 by done. destruct (non_delegable x) eqn:Hx; cbn.
    + split; [done|]. intros Hn. destruct Hn. eauto.
    + split; [|done]. intros _ (_ & y & [= <-] & Hy). congruence.
  - rewrite bool_decide_eq_false_2 by done. split; [|done]. by intros _ [? _].
Qed.

(** What [attenuated] yields: what it depends on, and when. *)
Lemma attenuated_iff o child : is_finite (requested_cost o) = true ->
  num_ltb (requested_cost o) num_zero = false -> is_blank child = false ->
  is_ok (attenuated parseDate o (requested_cost o) child) = true <->
  forall p, o_parentToken o = Some p -> issuable o p.
Proof.
  intros Hf Hn Hb. unfold attenuated. destruct (o_parentToken o) as [p|]; [|by split].
  assert (Hc : child <> "") by (intros ->; done).
  split.
  - intros Hok ? [= <-]. destruct (issueChildToken _ _ _ _ _) as [[t s]|] eqn:Hi; [|done].
    pose proof (issue_fails _ _ _ _ _ _ Hi) as (A & B & C & _).
    pose proof (issue_ok o p _ _ Hc Hf Hn A B C) as Hi'. cbv zeta in Hi'. rewrite Hi' in Hi.
    injection Hi as <- <-. split_and!; [done..|].
    destruct (o_capabilities o) as [[|c cs]|]; cbn; [by left| |by left]. right.
    unfold mbind in Hok. cbn [result_bind actions default] in Hok. change (id (c :: cs)) with (c :: cs) in Hok.
    destruct (intersectActions (tok_scope p) (c :: cs)) as [|a acts] eqn:Ha; [done|].
    assert (Hin : a ∈ intersectActions (tok_scope p) (c :: cs)) by (rewrite Ha; left).
    apply intersectActions_spec in Hin. eauto.
  - intros Hp. destruct (Hp p eq_refl) as (A & B & C & D).
    pose proof (issue_ok o p _ _ Hc Hf Hn A B C) as Hi. cbv zeta in Hi. rewrite Hi.
    unfold mbind. cbn [result_bind actions].
    destruct D as [->|(a & Ha & Hm)]; [by rewrite andb_false_r|].
    destruct (o_capabilities o) as [caps|]; [|by apply elem_of_nil in Ha]. cbn [default] in *.
    change (id caps) with caps in *.
    assert (Hin : a ∈ intersectActions (tok_scope p) caps) by (by apply intersectActions_spec).
    destruct (intersectActions (tok_scope p) caps); [by apply elem_of_nil in Hin|done].
Qed.

(** The scope and the budget of a parented delegation are within the parent's. *)
Lemma attenuated_within o child t scope cost p : o_parentToken o = Some p ->
  is_finite (requested_cost o) = true -> num_ltb (requested_cost o) num_zero = false ->
  attenuated parseDate o (requested_cost o) child = Ok (t, scope, cost) ->
  exists acts, scope = Some acts /\
    (forall a, a ∈ acts -> a ∈ default (tok_scope p) (o_capabilities o) /\
       existsb (fun q => permissionMatches q a) (tok_scope p) = true) /\
    num_ltb (tok_budgetEur p) cost = false /\ is_finite cost = true.
Proof.
  intros Hp Hf Hn. unfold attenuated. rewrite Hp.
  intros ((tk & s) & Hi & Hr)%result_bind_ok.
  pose proof (issue_fails _ _ _ _ _ _ Hi) as (A & B & C & D).
  pose proof (issue_ok o p _ _ D Hf Hn A B C) as Hi'. cbv zeta in Hi'. rewrite Hi' in Hi.
  injection Hi as <- <-. destruct (_ && _); [done|]. injection Hr as <- <- <-. cbn [actions budgetEur].
  eexists. split; [done|]. split; [by intros a Ha%intersectActions_spec|].
  pose proof (cost_not_above (tok_budgetEur p) (requested_cost o)) as Hm.
  pose proof (num_min_finite _ _ A Hf) as Hmf. set (m := num_min (tok_budgetEur p) _) in *.
  destruct (num_min_nlt (requested_cost o) m _ (finite_not_nan _ Hf) (finite_not_nan _ Hmf) eq_refl) as [_ Hz].
  pose proof (num_min_finite _ _ Hf Hmf) as Hzf. split; [|done].
  by apply (num_nlt_trans _ m); [apply finite_not_nan..| |].
Qed.

Lemma gate_run_id (c : MeshGovernanceCandidate) adr runId t0 t1 call v :
  batteryActionGate governance_val (fun _ => c) [meshGovernanceLens] adr runId None t0 t1 call = Ok v ->
  is_blank runId = false.
Proof.
  intros (dec & Hd & _)%result_bind_ok. unfold runVerifierBattery, guards in Hd.
  apply result_bind_ok in Hd as ([] & Hg & _). destruct (is_blank adr); [done|].
  by destruct (is_blank runId).
Qed.

(** Attenuation leaves the escalation branches of the governance lens nothing
    to find: only a recursion primitive is refused. *)
Lemma governance_decides o k child t scope cost call t0 t1 :
  is_finite (requested_cost o) = true -> num_ltb (requested_cost o) num_zero = false ->
  is_blank child = false -> serializable (args call) = true -> budgetUsed call = num_zero ->
  attenuated parseDate o (requested_cost o) child = Ok (t, scope, cost) ->
  exists v, batteryActionGate governance_val (fun _ => governance o k scope cost) [meshGovernanceLens]
      MESH_DELEGATE_ADR child None t0 t1 call = Ok v /\
    (allowed v = true <-> recursion_of k (o_toolName o) = None).
Proof.
  intros Hf Hn Hb Hargs Hused Hatt.
  assert (Hg : subsetViolations (governance o k scope cost) = [] /\
               budgetViolation (governance o k scope cost) = false).
  { unfold governance. cbn [subsetViolations budgetViolation].
    destruct (o_parentToken o) as [p|] eqn:Hp; [|done].
    destruct (attenuated_within _ _ _ _ _ _ Hp Hf Hn Hatt) as (acts & -> & Hacts & Hc & _).
    split; [|exact Hc]. cbn [default]. change (id acts) with acts. clear -Hacts.
    induction acts as [|x acts IH]; [done|]. cbn [List.filter].
    rewrite scope_ignores_clock, (proj2 (Hacts x ltac:(left))). cbn. apply IH.
    intros a Ha. apply Hacts. by right. }
  destruct Hg as [Hg1 Hg2].
  set (c := governance o k scope cost) in *.
  set (ok := match recursion_of k (o_toolName o) with None => true | Some _ => false end).
  assert (He : exists why, l_evaluate meshGovernanceLens c = Ok (ResultObj (one_or_zero ok) (RatStr why))).
  { cbn [l_evaluate meshGovernanceLens]. rewrite Hg1, Hg2. unfold ok, c, governance. cbn [recursionTool].
    destruct (recursion_of k (o_toolName o)); by eexists. }
  assert (Hser : serializable (governance_val c) = true).
  { unfold governance_val. rewrite Hg1, Hg2. cbn [serializable forallb snd].
    rewrite strings_serializable. by destruct (recursionTool c). }
  destruct He as [why He].
  destruct (rule_gate_decides governance_val c meshGovernanceLens ok why MESH_DELEGATE_ADR child t0 t1
    call He eq_refl eq_refl eq_refl eq_refl eq_refl Hb Hser Hargs) as (v & Hv & Ha); [by rewrite Hused|].
  exists v. split; [exact Hv|]. rewrite Ha. unfold ok. by destruct (recursion_of k (o_toolName o)).
Qed.

Lemma prepare_ok o d fresh t0 t1 p : prepare parseDate o d fresh t0 t1 = Ok p ->
  let child := default fresh (o_childId o) in
  delegable o d child /\
  attenuated parseDate o (requested_cost o) child = Ok (pr_childToken p, pr_scope p, pr_maxCost p) /\
  pr_childId p = child /\ pr_kind p = kind_of o d /\
  pr_intent p = mkIntent (kind_of o d) (o_need o) (stringifyContext (o_context o))
    (Some (default DEFAULT_DEADLINE_MS (o_deadline o))) (Some (pr_maxCost p)) (o_toolName o) (o_toolArgs o).
Proof.
  intros Hp child. unfold prepare in Hp. fold child in Hp.
  apply result_bind_ok in Hp as ([] & Hneed%throw_if_ok & Hp).
  apply result_bind_ok in Hp as ([] & Hdl%throw_if_ok & Hp). fold (requested_cost o) in Hp.
  apply result_bind_ok in Hp as ([] & Hcost%throw_if_ok & Hp).
  apply result_bind_ok in Hp as ([[t scope] cost] & Hatt & Hp).
  apply result_bind_ok in Hp as (v & Hv & Hp).
  apply result_bind_ok in Hp as ([] & Hallow%throw_if_ok & Hp). injection Hp as <-.
  apply orb_false_iff in Hcost as [Hf%negb_false_iff Hn].
  pose proof (gate_run_id _ _ _ _ _ _ _ Hv) as Hb.
  split_and!; [|exact Hatt|done..]. split_and!; [by apply String.eqb_neq|done..| |].
  - apply recursion_of_iff. set (call := Build_ActionGateCall _ _ _) in Hv.
    assert (Hargs : serializable (args call) = true).
    { unfold call. apply call_args_serializable. }
    destruct (governance_decides o (kind_of o d) child _ _ _ call t0 t1 Hf Hn Hb Hargs eq_refl Hatt)
      as (v' & Hv' & Ha).
    rewrite Hv in Hv'. injection Hv' as <-. apply Ha. by apply negb_false_iff.
  - apply (attenuated_iff o child Hf Hn Hb). by rewrite Hatt.
Qed.

(** A need is handed to the dispatcher exactly when its options are in
    range, its child can be named, a parent token given with it can still be
    attenuated (finite budget, readable date, one requested capability granted
    if any was requested), and it does not call a recursion primitive as a
    tool: the governance gate always answers, and never refuses for any other
    reason. *)
Theorem mesh_decides (o : DelegateOptions W) (d : MeshDispatcher W) (fresh : string) (t0 t1 : Z) :
  is_ok (prepare parseDate o d fresh t0 t1) = true <-> delegable o d (default fresh (o_childId o)).
Proof.
  split.
  - destruct (prepare _ _ _ _ _ _) as [p|] eqn:Hp; [|done]. intros _. by apply prepare_ok in Hp as [? _].
  - intros (Hneed & Hdl & Hf & Hn & Hb & Hrec & Hpar). set (child := default fresh (o_childId o)) in *.
    pose proof (proj2 (attenuated_iff o child Hf Hn Hb) Hpar) as Hatt.
    destruct (attenuated parseDate o (requested_cost o) child) as [[[t scope] cost]|] eqn:Ha; [|done].
    set (call := Build_ActionGateCall (default (kind_name (kind_of o d)) (o_toolName o))
      (JObj [("need", JStr (o_need o)); ("capabilities", JArr (map JStr (default [] scope)))]) num_zero).
    assert (Hargs : serializable (args call) = true).
    { unfold call. apply call_args_serializable. }
    destruct (governance_decides o (kind_of o d) child _ _ _ call t0 t1 Hf Hn Hb Hargs eq_refl Ha)
      as (v & Hv & Hallow).
    unfold prepare. rewrite (proj2 (String.eqb_neq _ _) Hneed), Hdl. fold (requested_cost o) child.
    rewrite Hf, Hn. unfold mbind. cbn [result_bind throw_if negb orb]. rewrite Ha. cbn [result_bind].
    fold call. rewrite Hv. cbn [result_bind].
    by rewrite (proj2 Hallow (proj2 (recursion_of_iff _ _) Hrec)).
Qed.

(** An intent within the options, and within the parent token if there is one. *)
Record confined (o : DelegateOptions W) (i : DispatchIntent) (scope : list string) (budget : num) : Prop := {
  cn_need : di_need i = o_need o;
  cn_budget : di_maxCost i = Some budget /\ num_ltb budget num_zero = false /\
    num_ltb (requested_cost o) budget = false;
  cn_deadline : exists dl, di_deadline i = Some dl /\ bad_deadline dl = false;
  cn_tool : ~ (di_kind i = mcp_tool /\ exists t, di_toolName i = Some t /\ non_delegable t = true);
  cn_scope : forall a, a ∈ scope -> a ∈ default (default [] (tok_scope <$> o_parentToken o)) (o_capabilities o);
  cn_parent : forall p, o_parentToken o = Some p ->
    num_ltb (tok_budgetEur p) budget = false /\
    forall a, a ∈ scope -> exists q, q ∈ tok_scope p /\ permissionMatches q a = true
}.

Lemma num_min_cases x y : is_nan x = false -> is_nan y = false -> num_min x y = x \/ num_min x y = y.
Proof.
  intros Hx Hy. unfold num_min. rewrite Hx, Hy. cbn. destruct (num_ltb y x); [by right|].
  destruct x, y as [[]| | |]; auto.
Qed.

Lemma attenuated_budget o child t scope cost :
  is_finite (requested_cost o) = true -> num_ltb (requested_cost o) num_zero = false ->
  attenuated parseDate o (requested_cost o) child = Ok (t, scope, cost) ->
  num_ltb cost num_zero = false /\ num_ltb (requested_cost o) cost = false.
Proof.
  intros Hf Hn. unfold attenuated. destruct (o_parentToken o) as [p|].
  2: { intros [= <- <- <-]. split; [done|apply num_ltb_irrefl]. }
  intros ((tk & s) & Hi & Hr)%result_bind_ok.
  pose proof (issue_fails _ _ _ _ _ _ Hi) as (A & B & C & D).
  pose proof (issue_ok o p _ _ D Hf Hn A B C) as Hi'. cbv zeta in Hi'. rewrite Hi' in Hi.
  injection Hi as <- <-. destruct (_ && _); [done|]. injection Hr as <- <- <-. cbn [budgetEur].
  split; [|apply cost_not_above]. pose proof (num_min_finite _ _ A Hf) as Hmf.
  destruct (num_min_cases (requested_cost o) (num_min (tok_budgetEur p) (requested_cost o))) as [->| ->];
    [by apply finite_not_nan..|done|].
  by destruct (num_min_cases (tok_budgetEur p) (requested_cost o)) as [->| ->]; [apply finite_not_nan..| |].
Qed.

Lemma prepared_confined o d fresh t0 t1 p : prepare parseDate o d fresh t0 t1 = Ok p ->
  confined o (pr_intent p) (default [] (pr_scope p)) (pr_maxCost p).
Proof.
  intros (Hd & Hatt & Hc & Hk & Hi)%prepare_ok. destruct Hd as (Hneed & Hdl & Hf & Hn & Hb & Hrec & Hpar).
  rewrite Hi. destruct (attenuated_budget _ _ _ _ _ Hf Hn Hatt) as [B1 B2].
  constructor; cbn [di_need di_maxCost di_deadline di_kind di_toolName]; [done|done| |done| |].
  - eauto.
  - destruct (o_parentToken o) as [q|] eqn:Hq.
    + destruct (attenuated_within _ _ _ _ _ _ Hq Hf Hn Hatt) as (acts & -> & Hacts & _).
      intros a Ha. by apply Hacts.
    + unfold attenuated in Hatt. rewrite Hq in Hatt. injection Hatt as _ <- _. done.
  - intros q Hq. destruct (attenuated_within _ _ _ _ _ _ Hq Hf Hn Hatt) as (acts & -> & Hacts & Hcost & _).
    split; [done|]. intros a Ha. apply existsb_true_iff. by apply Hacts.
Qed.

(** The date read back from a token is the one that was written in it. *)
Hypothesis parse_iso : forall s ms, parseDate s = Some ms -> parseDate (iso_string ms) = Some ms.

Lemma child_token o child t scope cost p : o_parentToken o = Some p ->
  is_finite (requested_cost o) = true -> num_ltb (requested_cost o) num_zero = false ->
  attenuated parseDate o (requested_cost o) child = Ok (t, scope, cost) ->
  exists tk, t = Some tk /\ Some (tok_scope tk) = scope /\ tok_parentId tk = child /\
    within (parseToken parseDate tk) (parseToken parseDate p).
Proof.
  intros Hp Hf Hn. unfold attenuated. rewrite Hp.
  intros ((tk & s) & Hi & Hr)%result_bind_ok.
  pose proof (issue_fails _ _ _ _ _ _ Hi) as (A & B & C & D).
  pose proof (issue_ok o p _ _ D Hf Hn A B C) as Hi'. cbv zeta in Hi'. rewrite Hi' in Hi.
  injection Hi as <- <-. destruct (_ && _); [done|]. injection Hr as <- <- <-.
  eexists. split; [done|]. cbn [tok_scope tok_parentId actions]. split_and!; [done..|].
  unfold within, parseToken. cbn [tok_scope tok_budgetEur tok_expiresAt budgetEur].
  split; [|apply cost_not_above]. fold (parent_date p).
  assert (Hdate : token_date parseDate
      (match parent_date p with Some (Some ms) => Some (iso_string ms) | _ => None end) = parent_date p).
  { unfold parent_date, token_date in *. destruct (tok_expiresAt p) as [[|c s]|]; [done| |done].
    destruct (parseDate (String c s)) as [ms|] eqn:Hs; [|done].
    destruct (iso_string_cons ms) as (c' & s' & E). rewrite E, <- E. by rewrite (parse_iso _ _ Hs). }
  rewrite Hdate. intros now a. rewrite !scopeAllows_iff. cbn [actions].
  intros [He (q & Hq & Hm)]. split; [exact He|].
  apply intersectActions_spec in Hq as [_ (q' & Hq' & Hqq)%existsb_true_iff].
  exists q'. split; [done|]. by eapply permissionMatches_trans.
Qed.

(** Whatever a delegation does to the world, one dispatch does, with an
    intent confined to the options and to the parent token: its budget is not
    above what was asked for nor above the parent's, its scope was asked for and
    each of its actions is granted by the parent, and it names no recursion
    primitive as a tool.  A delegation that fails before leaves the world as it
    was.  The audit link names that scope and that budget, and the child's token
    allows nothing, at any time, that the parent's does not. *)
Theorem mesh_confined (o : DelegateOptions W) (d : MeshDispatcher W) (fresh : string) (t0 t1 : Z)
    (w w' : W) (r : result DelegateResult) (Hr : meshDelegate parseDate o d fresh t0 t1 w = (r, w')) :
  (w' = w /\ exists e, r = Throw e) \/
  exists i scope budget, confined o i scope budget /\
    let '(dispatched, w1) := md_dispatch d i w in
    match r with
    | Throw e => (dispatched = Throw e /\ w' = w1) \/ (o_onChunk o <> None /\ is_ok dispatched = true)
    | Ok s => exists x, dispatched = Ok x /\ rs_output s = dr_output x /\ rs_costEur s = dr_costEur x /\
        rs_delegationChain s = [mkLink (default SELF_ID (tok_parentId <$> o_parentToken o))
          (default fresh (o_childId o)) scope budget] /\
        forall p, o_parentToken o = Some p -> exists t, rs_childToken s = Some t /\
          tok_scope t = scope /\ tok_parentId t = default fresh (o_childId o) /\
          within (parseToken parseDate t) (parseToken parseDate p)
    end.
Proof.
  unfold meshDelegate in Hr. destruct (prepare _ _ _ _ _ _) as [p|e] eqn:Hp.
  2: { injection Hr as <- <-. left. eauto. }
  right. exists (pr_intent p), (default [] (pr_scope p)), (pr_maxCost p).
  split; [by eapply prepared_confined|].
  pose proof (prepare_ok _ _ _ _ _ _ Hp) as ((_ & _ & Hf & Hn & _) & Hatt & Hc & _).
  destruct (md_dispatch d (pr_intent p) w) as [[x|e] w1]; [|injection Hr as <- <-; by left].
  destruct (match o_onChunk o with Some _ => _ | None => _ end) as [st w2] eqn:Hst.
  destruct st as [[]|e]; injection Hr as <- <-.
  - exists x. cbn. rewrite Hc. split_and!; [done..|by destruct (o_parentToken o)|].
    intros q Hq. destruct (child_token _ _ _ _ _ _ Hq Hf Hn Hatt) as (tk & -> & <- & Hid & Hw). eauto.
  - right. split; [|done]. intros E. by rewrite E in Hst.
Qed.
End Props.

(** * The default dispatcher *)

(** What a dispatch reports as its cost is not above the cap of its intent. *)
Lemma dispatch_capped {W} (perfNow : W -> num) config (i : DispatchIntent) w x w' :
  dispatch perfNow config i w = (Ok x, w') ->
  num_ltb (default num_infinity (di_maxCost i)) (dr_costEur x) = false.
Proof.
  unfold dispatch. destruct (bad_deadline _); [done|]. destruct (num_ltb _ num_zero); [done|].
  destruct (runWithDeadline _ _ _) as [[out|[ms partial|e]] w1]; intros [= <- <-]; apply cost_not_above.
Qed.

(** With the default dispatcher, what a delegation reports to have cost is
    not above the budget of the audit link, which is not above the parent's. *)
Theorem mesh_cost_capped `{Hashing} {W} (parseDate : string -> option Z) (perfNow : W -> num)
    (config : DispatcherConfig W) (o : DelegateOptions W) (fresh : string) (t0 t1 : Z) (w w' : W)
    (s : DelegateResult) (p : AttenuatedToken) (Hp : o_parentToken o = Some p)
    (Hs : meshDelegate parseDate o (DefaultMeshDispatcher perfNow config) fresh t0 t1 w = (Ok s, w')) :
  exists link, rs_delegationChain s = [link] /\ num_ltb (lk_budget link) (rs_costEur s) = false /\
    num_ltb (tok_budgetEur p) (lk_budget link) = false /\
    num_ltb (tok_budgetEur p) (rs_costEur s) = false.
Proof.
  unfold meshDelegate in Hs. destruct (prepare _ _ _ _ _ _) as [q|e] eqn:Hq; [|done].
  pose proof (prepare_ok _ _ _ _ _ _ _ Hq) as ((_ & _ & Hf & Hn & _) & Hatt & _).
  destruct (attenuated_within _ _ _ _ _ _ _ Hp Hf Hn Hatt) as (acts & _ & _ & Hb & Hfin).
  destruct (prepared_confined _ _ _ _ _ _ _ Hq) as [_ [Hi _] _ _ _ _].
  destruct (md_dispatch _ _ w) as [[x|e] w1] eqn:Hx; [|done].
  apply dispatch_capped in Hx. rewrite Hi in Hx.
  destruct (match o_onChunk o with Some _ => _ | None => _ end) as [st w2].
  destruct st as [[]|e]; unfold mbind in Hs; cbn [result_bind] in Hs; [|done]. injection Hs as <- <-.
  eexists. cbn [rs_delegationChain rs_costEur lk_budget]. split_and!; [done|exact Hx|done|].
  destruct (is_nan (dr_costEur x)) eqn:Hnan; [destruct (dr_costEur x); by destruct (tok_budgetEur p)|].
  assert (Hpf : is_nan (tok_budgetEur p) = false).
  { unfold attenuated in Hatt. rewrite Hp in Hatt. apply result_bind_ok in Hatt as ([tk sc] & Hi' & _).
    by apply issue_fails in Hi' as (A%finite_not_nan & _). }
  by apply (num_nlt_trans _ (pr_maxCost q)); [|apply finite_not_nan|..].
Qed.

(** * Concrete delegations *)

Definition demoHashing : Hashing :=
  {| rfcCanonicalize := fun v => match stringify v with Ok (Some t) => t | _ => "" end;
     sha256 := fun s => s |}.
Definition demo_date (s : string) : option Z :=
  if (s =? iso_string 1000)%string then Some 1000 else None.

(** The world is the list of calls made so far; an executor takes 2 ms. *)
Definition demo_now (w : list string) : num := num_of_Z (2 * Z.of_nat (length w)).
Definition demo_config : DispatcherConfig (list string) :=
  mkConfig None (Some (fun prompt _ w => (Resolves ("answer to " ++ prompt)%string, w ++ [prompt])))
    None (fun name => if (name =? "mcp__wallet__send")%string
                      then Some (fun _ w => (Resolves "sent", w ++ [name])) else None)
    None None (Some num_one).
Definition demo_dispatcher : MeshDispatcher (list string) := DefaultMeshDispatcher demo_now demo_config.
Definition demo_parent : AttenuatedToken :=
  mkToken ["brain:*"] num_one "agent-7" (Some (iso_string 1000)).
Definition demo_options (need : string) (caps : option (list string)) (tool : option string)
    : DelegateOptions (list string) :=
  mkOptions need None caps None (Some (num_of_Z 5)) (Some demo_parent) None None (Some "child-1") tool JUndef.

Definition demo_run (o : DelegateOptions (list string)) :=
  @meshDelegate demoHashing demo_date _ o demo_dispatcher "fresh" 0 1 [].

Definition delegated (r : result DelegateResult * list string) : option DelegateResult :=
  match r with (Ok s, _) => Some s | _ => None end.

Definition demo_call (caps : option (list string)) (tool : option string) (need : string) :=
  demo_run (demo_options need caps tool).

Lemma demo_dates s ms : demo_date s = Some ms -> demo_date (iso_string ms) = Some ms.
Proof. unfold demo_date. by destruct (_ =? _)%string; [intros [= <-]|]. Qed.

Lemma mesh_decides_witness :
  is_ok (demo_call (Some ["brain:read"; "vault:read"]) None "summarize the spec").1 = true /\
  ~ delegable demo_date (demo_options "fetch the price" None (Some "mcp__x__spawn_dag")) demo_dispatcher "child-1".
Proof.
  split; [by vm_compute|]. intros Hd.
  pose proof (proj2 (@mesh_decides demoHashing demo_date _
    (demo_options "fetch the price" None (Some "mcp__x__spawn_dag")) demo_dispatcher "fresh" 0 1) Hd) as Hp.
  by vm_compute in Hp.
Defined.

Lemma mesh_confined_witness :
  let o := demo_options "summarize the spec" (Some ["brain:read"; "vault:read"]) None in
  let s := demo_call (Some ["brain:read"; "vault:read"]) None "summarize the spec" in
  (rs_delegationChain <$> delegated s) = Some [mkLink "agent-7" "child-1" ["brain:read"] num_one] /\
  ((s.2 = [] /\ exists e, s.1 = Throw e) \/ exists i scope budget, confined o i scope budget).
Proof.
  split; [by vm_compute|]. set (o := demo_options _ _ _).
  destruct (@mesh_confined demoHashing demo_date _ demo_dates o demo_dispatcher "fresh" 0 1 []
    (demo_run o).2 (demo_run o).1 (surjective_pairing _)) as [H|(i & sc & b & H & _)]; [by left|].
  right. by exists i, sc, b.
Defined.

Lemma mesh_cost_capped_witness :
  let s := demo_call (Some ["brain:read"]) None "summarize the spec" in
  (rs_costEur <$> delegated s) = Some num_one /\
  forall r, delegated s = Some r -> num_ltb num_one (rs_costEur r) = false.
Proof.
  split; [by vm_compute|]. intros r Hr. set (o := demo_options "summarize the spec" (Some ["brain:read"]) None).
  assert (Hs : demo_run o = (Ok r, (demo_run o).2)).
  { unfold delegated in Hr. fold (demo_run o) in Hr. unfold demo_call in Hr. fold o in Hr.
    destruct (demo_run o) as [[x|] w]; [by injection Hr as ->|done]. }
  destruct (@mesh_cost_capped demoHashing _ demo_date demo_now demo_config o "fresh" 0 1 [] _ r demo_parent
    eq_refl Hs) as (link & _ & _ & _ & H).
  exact H.
Defined.

(** A parent whose date has passed delegates as before: the clock is not
    consulted, and only the token the child receives is expired. *)
Example expired_parent_delegates :
  scopeAllows 2000 (parseToken demo_date demo_parent) "brain:read" = false /\
  (demo_call (Some ["brain:read"]) None "summarize the spec").2 = ["summarize the spec"].
Proof. vm_compute. split; reflexivity. Qed.

(** The tool that is called need not be in the scope of the delegation. *)
Example tool_outside_scope :
  (demo_call (Some ["brain:read"]) (Some "mcp__wallet__send") "fetch the price").2 = ["mcp__wallet__send"] /\
  scopeAllows 0 (parseToken demo_date demo_parent) "mcp__wallet__send" = false.
Proof. vm_compute. split; reflexivity. Qed.

(** An empty request has an empty scope, and is dispatched. *)
Example empty_scope_dispatched :
  (rs_delegationChain <$> delegated (demo_call (Some []) None "summarize the spec")) =
  Some [mkLink "agent-7" "child-1" [] num_one].
Proof. vm_compute. reflexivity. Qed.

Example classify_examples :
  map defaultClassifier ["Audit the logs"; "Fetch the price"; "Stop. Think. Act."; "Say hello"; "  "] =
  [ooda; mcp_tool; ooda; llm_router; llm_router].
Proof. vm_compute. reflexivity. Qed.

Example child_id : generateChildId 1717171717171 (num_of_decimal 5 1) = "mesh-child-lwuvpctv-apsw".
Proof. vm_compute. reflexivity. Qed.
