(* ===== verification/Certificate.v ===== *)
(** Proofs that outlive a run: the leaves and inclusion proofs of
    [src/proof/index.ts], the run-proof certificates of [src/proof/verify.ts] and
    the signed run certificates of [src/proof/cert-verify.ts].

    SHA-256, Poseidon, base64, key parsing and the two signature schemes belong
    to the platform or to packages: the class [ProofPlatform].  A certificate is
    an object of plain data with the typed [signature] field of its interface. *)

From S2P Require Import Prelude JsNum JsValue Json JsonParse Regex Canonical TokenBase Privacy.
From Stdlib Require Import Ascii SpecFloat.

(** * Canonical text

    Keys sorted, [-0] written [0].  Assigning to [sorted["__proto__"]] sets the
    prototype or does nothing: such a key does not reach the copy. *)
Fixpoint normalize (v : jsval) : jsval :=
  match v with
  | JNum (S754_zero _) => JNum num_zero
  | JArr l => JArr (map normalize l)
  | JObj l =>
      JObj (own_order (List.filter (fun kv => negb (kv.1 =? "__proto__")%string)
        (sort_by key_cmp (map (fun kv => (kv.1, normalize kv.2)) l))))
  | JDate _ => JObj []
  | JBytes l => JObj (bytes_fields 0 l)
  | _ => v
  end.

(** [None] is [undefined], as for [JSON.stringify]. *)
Definition canonicalize (data : jsval) : result (option string) := stringify (normalize data).
Definition canonicalizeJcs (data : list (string * jsval)) : result (option string) :=
  canonicalize (JObj data).

(** [Buffer.from(s, "hex")]: pairs of digits, up to the first that is none. *)
Fixpoint hex_bytes (s : string) : list Z :=
  match s with
  | String a (String b rest) =>
      match hex_val a, hex_val b with
      | Some x, Some y => Z.of_nat (16 * x + y) :: hex_bytes rest
      | _, _ => []
      end
  | _ => []
  end.

(** [s.startsWith("0x") ? s.slice(2) : s], also [s.replace(/^0x/, "")]. *)
Definition strip0x (s : string) : string := if starts_with "0x" s then str_drop 2 s else s.

Class ProofPlatform := {
  sha256_hex : list Z -> string;                     (** [createHash("sha256")...digest("hex")] *)
  poseidon : list string -> string;                  (** [hash.computePoseidonHashOnElements] *)
  from_base64 : string -> list Z;                    (** [Buffer.from(s, "base64")] *)
  KeyObject : Type;
  createPublicKey : list Z -> result KeyObject;      (** from SPKI in DER form *)
  asymmetricKeyType : KeyObject -> string;
  ed25519_verify : list Z -> KeyObject -> list Z -> bool;   (** message, key, signature *)
  ml_dsa44 : option (list Z -> list Z -> list Z -> list Z -> result bool)
    (** signature, message, key, context; when the package is installed *)
}.

Section Leaves.
Context `{ProofPlatform} `{Printing}.

(** [update] refuses what is not a string or bytes. *)
Definition leafHash (data : jsval) : result string :=
  text ← canonicalize data;
  match text with
  | Some t => Ok (sha256_hex (utf8_bytes t))
  | None => Throw (JsError "TypeError" "The data argument must be of type string. Received undefined")
  end.

(** * Inclusion *)

(** [left <= right] on strings. *)
Definition str_le (a b : string) : bool := match str_cmp a b with Gt => false | _ => true end.

Definition hashPair (left right : string) : string :=
  let '(a, b) := if str_le left right then (left, right) else (right, left) in
  sha256_hex (hex_bytes a ++ hex_bytes b).

Definition verifyProofInclusion (leaf : string) (proof : list string) (root : string) : bool :=
  (fold_left (fun current sibling => hashPair current (strip0x sibling)) proof (strip0x leaf) =? root)%string.

(** * Leaves of the source tables *)

Inductive UniversalSourceTable :=
| hitl_approval | agent_config_history | pending_agent_config_change | agent_run | outcome_ledger.

Record ProofLeaf := mkLeaf { preimage_hash : string; leaf_felt : string }.

Definition proof_error (why : string) : jserror := JsError "Error" ("[proof] " ++ why)%string.

Definition req (row : list (string * jsval)) (field : string) : result jsval :=
  match get_field field row with
  | JUndef => Throw (proof_error ("missing field " ++ quoted field)%string)
  | v => Ok v
  end.

Definition asISO (v : jsval) (field : string) : result string :=
  match v with
  | JDate (Some ms) => Ok (iso_string ms)
  | JDate None => Throw (JsError "RangeError" "Invalid time value")
  | JStr s => Ok s
  | _ => Throw (proof_error ("field " ++ quoted field ++ " must be Date or ISO string")%string)
  end.

Definition asNullableISO (v : jsval) (field : string) : result jsval :=
  match v with
  | JNull | JUndef => Ok JNull
  | _ => s ← asISO v field; Ok (JStr s)
  end.

(** [/^-?\d+$/.test(v)] and [Number.parseInt(v, 10)]. *)
Definition parse_int (s : string) : option num :=
  let '(neg, ds) := match s with String "-" r => (true, r) | _ => (false, s) end in
  match ds with
  | EmptyString => None
  | _ =>
      match digits_value ds 0 with
      | Some 0 => Some (S754_zero neg)
      | Some n => Some (num_of_Z (if neg then - n else n))
      | None => None
      end
  end.

Definition asInt (v : jsval) (field : string) : result num :=
  let wrong := Throw (proof_error ("field " ++ quoted field ++ " must be integer")%string) in
  match v with
  | JNum x => if num_is_integer x then Ok x else wrong
  | JStr s => match parse_int s with Some x => Ok x | None => wrong end
  | JBigInt z => Ok (num_of_Z z)
  | _ => wrong
  end.

(** [lower] of the source. *)
Definition lower_field (v : jsval) (field : string) : result string :=
  match v with
  | JStr s => Ok (lower s)
  | _ => Throw (proof_error ("field " ++ quoted field ++ " must be string")%string)
  end.

Definition req_text (row : list (string * jsval)) (field : string) : result (string * jsval) :=
  v ← req row field; Ok (field, JStr (js_String v)).
Definition req_lower (row : list (string * jsval)) (field : string) : result (string * jsval) :=
  v ← req row field; s ← lower_field v field; Ok (field, JStr s).
Definition req_iso (row : list (string * jsval)) (field : string) : result (string * jsval) :=
  v ← req row field; s ← asISO v field; Ok (field, JStr s).
Definition req_int (row : list (string * jsval)) (field : string) : result (string * jsval) :=
  v ← req row field; x ← asInt v field; Ok (field, JNum x).

(** [typeof v !== "object" || v === null || Array.isArray(v)]. *)
Definition req_object (row : list (string * jsval)) (field : string) (what : string) : result (string * jsval) :=
  v ← req row field;
  match v with
  | JObj _ | JDate _ | JBytes _ => Ok (field, v)
  | _ => Throw (proof_error (what ++ " must be object")%string)
  end.

Definition CANONICALIZERS (t : UniversalSourceTable) (row : list (string * jsval))
    : result (list (string * jsval)) :=
  match t with
  | hitl_approval =>
      id ← req_text row "id"; agent ← req_text row "agent_id"; dec ← req_lower row "decision";
      ev ← req_text row "evidence_hash"; at_ ← req_iso row "resolved_at";
      Ok [id; agent; dec; ev; at_]
  | agent_config_history =>
      patch ← req_object row "patch" "patch";
      agent ← req_text row "agent_id"; version ← req_int row "version"; at_ ← req_iso row "changed_at";
      Ok [agent; patch; version; at_]
  | agent_run =>
      id ← req_text row "id"; agent ← req_text row "agent_id"; status ← req_lower row "status";
      ev ← req_text row "evidence_hash"; dur ← req_int row "duration_ms";
      Ok [id; agent; status; ev; dur]
  | pending_agent_config_change =>
      patch ← req_object row "proposed_patch" "proposed_patch";
      id ← req_text row "id"; agent ← req_text row "agent_id"; status ← req_lower row "status";
      at_ ← asNullableISO (get_field "resolved_at" row) "resolved_at";
      Ok [id; agent; patch; status; ("resolved_at", at_)]
  | outcome_ledger =>
      _ ← throw_if (match get_field "value_centimes" row with
                    | JNum x => negb (num_is_integer x) | _ => false end)
        (proof_error "outcome_ledger.value_centimes must be integer centimes");
      id ← req_text row "id"; agent ← req_text row "agent_id"; ty ← req_lower row "outcome_type";
      v ← req_int row "value_centimes"; at_ ← req_iso row "recorded_at";
      Ok [id; agent; ty; v; at_]
  end.

Definition mkProofLeaf (sourceTable : UniversalSourceTable) (row : list (string * jsval)) : result ProofLeaf :=
  doc ← CANONICALIZERS sourceTable row;
  hash ← leafHash (JObj doc);
  Ok (mkLeaf hash ("0x" ++ hash)%string).
End Leaves.

(** * Run-proof certificates, [proof/verify.ts] *)

Record ChainEntry := mkEntry {
  ce_step_id : string;
  ce_step_index : Z;
  ce_type : string;
  ce_phase : option string;
  leaf_hash_poseidon : string;
  ce_started_at : string;
  ce_finished_at : string;
  ce_duration_ms : option Z
}.

Record RunProofCertificate := mkRunProof {
  rp_run_id : string;
  rp_agent_id : string;
  rp_started_at : string;
  rp_finished_at : string;
  rp_trigger_event_id : option string;
  rp_brain_context_refs : list string;
  decision_chain : list ChainEntry;
  merkle_root : option string;
  rp_katana_tx : option string;
  rp_anchor_block_number : option Z;
  state : string;
  rp_issued_at : string
}.

Definition VALID_CERT_STATES : list string := ["awaiting_anchor"; "anchored"; "verified_on_chain"].
Definition MIN_FELT_HEX_LEN : nat := 62.
Definition MAX_FELT_HEX_LEN : nat := 64.
Definition STARK_PRIME : Z := 2 ^ 251 + 17 * 2 ^ 192 + 1.

(** A character of [[0-9a-f]]. *)
Definition is_hex_lower (c : ascii) : bool := is_digit c || in_range 97 102 c.

Fixpoint str_all (p : ascii -> bool) (s : string) : bool :=
  match s with EmptyString => true | String c s' => p c && str_all p s' end.

(** [BigInt("0x" + hex)] of hexadecimal digits. *)
Definition hex_value (s : string) : Z :=
  (fix go (s : string) (acc : Z) : Z :=
     match s with
     | EmptyString => acc
     | String c s' => go s' (16 * acc + Z.of_nat (default O (hex_val c)))
     end) s 0.

Definition isValidLeaf (leaf : string) : bool :=
  if negb (starts_with "0x" leaf) then false
  else
    let hex := str_drop 2 leaf in
    if (hex =? "")%string || negb (str_all is_hex_lower hex) then false
    else if (String.length hex <? MIN_FELT_HEX_LEN)%nat || (MAX_FELT_HEX_LEN <? String.length hex)%nat then false
    else hex_value hex <? STARK_PRIME.

Record VerifyResult := mkVerify { valid : bool; reason : option string }.
Definition invalid (why : string) : VerifyResult := mkVerify false (Some why).

(** [computeMerkleRoot] comes from a package; a throw of it is one of the verifier. *)
Definition verifyProofCertificate (computeMerkleRoot : list string -> result string)
    (cert : RunProofCertificate) : result VerifyResult :=
  if negb (bool_decide (state cert ∈ VALID_CERT_STATES)) then Ok (invalid "invalid_state")
  else if (length (decision_chain cert) =? 0)%nat then
    match merkle_root cert with
    | Some _ => Ok (invalid "empty_chain_with_merkle_root")
    | None => Ok (mkVerify true None)
    end
  else
    let leaves := map leaf_hash_poseidon (decision_chain cert) in
    if negb (forallb isValidLeaf leaves) then Ok (invalid "invalid_leaf_format")
    else
      recomputed ← computeMerkleRoot leaves;
      if bool_decide (merkle_root cert = Some recomputed) then Ok (mkVerify true None)
      else Ok (invalid "merkle_mismatch").

(** * Signed run certificates, [proof/cert-verify.ts] *)

Record SignaturePayload := mkSignature {
  alg : string;
  kid : string;
  sig_value : string;
  pubkey_spki_b64 : option string;
  pubkey_b64 : option string;
  cert_hash_felt252 : option string;
  pubkey : option string;
  digest : option string;
  signed_at : string
}.

(** A certificate: its [signature] and its other fields. *)
Record SignedCert := mkCert {
  signature : option SignaturePayload;
  unsigned : list (string * jsval)
}.

Inductive CertPayloadGen := v1 | v2.

Definition detectPayloadGen (sig : SignaturePayload) : CertPayloadGen :=
  match cert_hash_felt252 sig with Some _ => v2 | None => v1 end.

Inductive CertVerifyFailReason :=
| missing_signature | wrong_alg | hash_mismatch | pubkey_unresolvable | kid_mismatch
| signature_invalid | malformed_signature | pq_verifier_unavailable.

#[export] Instance CertVerifyFailReason_eq_dec : EqDecision CertVerifyFailReason.
Proof. solve_decision. Defined.

(** [cr_reason] is absent when the certificate is valid. *)
Record CertVerifyResult := mkCertResult {
  cr_reason : option CertVerifyFailReason;
  cr_details : option string;
  recomputed_cert_hash_felt252 : string
}.
Definition cert_valid (r : CertVerifyResult) : bool :=
  match cr_reason r with None => true | Some _ => false end.

Section Certificates.
Context `{ProofPlatform}.

Record CertVerifyOptions := mkCertOptions {
  expectedPublicKey : option KeyObject;
  expectedMlDsa44PublicKey : option (list Z);
  expectedKid : option string
}.

Fixpoint ascii_hex (s : string) : string :=
  match s with
  | EmptyString => EmptyString
  | String c s' =>
      let n := nat_of_ascii c in
      String (hex_char (n / 16)) (String (hex_char (n mod 16)) (ascii_hex s'))
  end.

Definition CERT_MARKER_FELT : string := ("0x" ++ pad_start 62 (ascii_hex "run_cert"))%string.
Definition ML_DSA44_CONTEXT : list Z := utf8_bytes "vauban-run-cert-v1".
Definition ML_DSA44_PUBKEY_LEN : nat := 1312.
Definition ML_DSA44_SIGNATURE_LEN : nat := 2420.

Definition felt252ToBytes (felt : string) : list Z := hex_bytes (pad_start 64 (strip0x felt)).

(** The canonical text of the unsigned part; an object is never [undefined]. *)
Definition unsigned_text (cert : SignedCert) : result string :=
  t ← canonicalizeJcs (unsigned cert); Ok (default "" t).

Definition sha_felt (text : string) : string :=
  ("0x" ++ String.substring 0 62 (sha256_hex (utf8_bytes text)))%string.

Definition text_hash (text : string) : string := poseidon ["0x1"; sha_felt text; CERT_MARKER_FELT].

Definition computeCertHashFelt252 (cert : SignedCert) : result string :=
  canonical ← unsigned_text cert; Ok (text_hash canonical).

Definition computeCertDigestSha256 (cert : SignedCert) : result string :=
  canonical ← unsigned_text cert; Ok (sha256_hex (utf8_bytes canonical)).

Definition publicKeyFromSpkiB64 (pubkeySpkiB64 : string) : result KeyObject :=
  let der := from_base64 pubkeySpkiB64 in
  _ ← throw_if (length der =? 0)%nat (JsError "Error" "[cert-verify] empty SPKI buffer");
  key ← createPublicKey der;
  _ ← throw_if (negb (asymmetricKeyType key =? "ed25519")%string)
    (JsError "Error" ("[cert-verify] SPKI is not Ed25519 (got " ++ asymmetricKeyType key ++ ")")%string);
  Ok key.

Definition refusal (why : CertVerifyFailReason) (details : option string) (recomputed : string)
    : CertVerifyResult := mkCertResult (Some why) details recomputed.
Definition acceptance (recomputed : string) : CertVerifyResult := mkCertResult None None recomputed.

(** [o !== undefined && o !== ""], the truth of an optional string. *)
Definition truthy (o : option string) : option string :=
  match o with None | Some EmptyString => None | Some s => Some s end.

(** [opts.expectedKid && opts.expectedKid !== sig.kid]. *)
Definition wrong_kid (opts : CertVerifyOptions) (sig : SignaturePayload) : option string :=
  match truthy (expectedKid opts) with
  | Some k => if (k =? kid sig)%string then None
              else Some ("expected kid=" ++ k ++ ", got " ++ kid sig)%string
  | None => None
  end.

Definition hash_details (embedded recomputed : string) : option string :=
  Some ("embedded=" ++ embedded ++ " recomputed=" ++ recomputed)%string.

(** The common end of both Ed25519 verifiers. *)
Definition check_ed25519 (message : list Z) (key : KeyObject) (sigBytes : list Z) (recomputed : string)
    : CertVerifyResult :=
  if negb (length sigBytes =? 64)%nat then
    refusal malformed_signature
      (Some ("Ed25519 signature must be 64 bytes (got " ++ str_of_nat (length sigBytes) ++ ")")%string) recomputed
  else if ed25519_verify message key sigBytes then acceptance recomputed
  else refusal signature_invalid None recomputed.

(** [/^[0-9a-f]{64}$/]. *)
Definition hex64 (s : string) : bool := (String.length s =? 64)%nat && str_all is_hex_lower s.

Definition ED25519_SPKI_PREFIX : string := "302a300506032b6570032100".

(** The key of a v1 certificate, and what it signed: the canonical bytes. *)
Definition verifyV1Key (cert : SignedCert) (sig : SignaturePayload) (opts : CertVerifyOptions)
    (recomputed : string) : result CertVerifyResult :=
  let key :=
    match expectedPublicKey opts with
    | Some k => inl k
    | None =>
        match truthy (pubkey sig) with
        | Some pk =>
            if hex64 pk then
              match createPublicKey (hex_bytes ED25519_SPKI_PREFIX ++ hex_bytes pk) with
              | Ok k => inl k
              | Throw e => inr (err_message e)
              end
            else inr "v1 cert missing a valid 64-char hex pubkey"
        | None => inr "v1 cert missing a valid 64-char hex pubkey"
        end
    end in
  match key with
  | inr why => Ok (refusal pubkey_unresolvable (Some why) recomputed)
  | inl k =>
      let sigBytes := hex_bytes (sig_value sig) in
      canonical ← unsigned_text cert;
      Ok (check_ed25519 (utf8_bytes canonical) k sigBytes recomputed)
  end.

Definition verifyRunCertificateV1 (cert : SignedCert) (sig : SignaturePayload) (opts : CertVerifyOptions)
    : result CertVerifyResult :=
  match truthy (expectedKid opts) with
  | Some k => Ok (refusal kid_mismatch
      (Some ("expected kid=" ++ k ++ ", but v1 legacy certs carry no kid")%string) "")
  | None =>
      recomputed ← computeCertDigestSha256 cert;
      match truthy (digest sig) with
      | Some d =>
          if negb (d =? recomputed)%string then Ok (refusal hash_mismatch (hash_details d recomputed) recomputed)
          else verifyV1Key cert sig opts recomputed
      | None => verifyV1Key cert sig opts recomputed
      end
  end.

(** The checks that v2 and ML-DSA-44 begin with: the hash, then the key id. *)
Definition check_binding (sig : SignaturePayload) (opts : CertVerifyOptions) (recomputed : string)
    (next : CertVerifyResult) : CertVerifyResult :=
  if negb (bool_decide (cert_hash_felt252 sig = Some recomputed)) then
    refusal hash_mismatch (hash_details (default "undefined" (cert_hash_felt252 sig)) recomputed) recomputed
  else
    match wrong_kid opts sig with
    | Some why => refusal kid_mismatch (Some why) recomputed
    | None => next
    end.

Definition verifyRunCertificateMlDsa44 (cert : SignedCert) (sig : SignaturePayload)
    (opts : CertVerifyOptions) : result CertVerifyResult :=
  recomputed ← computeCertHashFelt252 cert;
  Ok (check_binding sig opts recomputed
    match ml_dsa44 with
    | None => refusal pq_verifier_unavailable
        (Some ("@noble/post-quantum is not installed (optional peer dependency) — cannot verify " ++
               "ML-DSA-44 certificates")%string) recomputed
    | Some verify =>
        let key := match expectedMlDsa44PublicKey opts with
                   | Some k => Some k
                   | None => from_base64 <$> truthy (pubkey_b64 sig)
                   end in
        match key with
        | None => refusal pubkey_unresolvable (Some "ML-DSA-44 cert missing pubkey_b64") recomputed
        | Some k =>
            let sigBytes := from_base64 (sig_value sig) in
            if negb (length k =? ML_DSA44_PUBKEY_LEN)%nat then
              refusal pubkey_unresolvable (Some ("ML-DSA-44 public key must be 1312 bytes (got " ++
                str_of_nat (length k) ++ ")")%string) recomputed
            else if negb (length sigBytes =? ML_DSA44_SIGNATURE_LEN)%nat then
              refusal malformed_signature (Some ("ML-DSA-44 signature must be 2420 bytes (got " ++
                str_of_nat (length sigBytes) ++ ")")%string) recomputed
            else
              match verify sigBytes (felt252ToBytes recomputed) k ML_DSA44_CONTEXT with
              | Throw e => refusal signature_invalid (Some (err_message e)) recomputed
              | Ok false => refusal signature_invalid None recomputed
              | Ok true => acceptance recomputed
              end
        end
    end).

(** The key of a v2 certificate. *)
Definition v2_key (sig : SignaturePayload) (opts : CertVerifyOptions) : KeyObject + string :=
  match expectedPublicKey opts with
  | Some k => inl k
  | None =>
      match truthy (pubkey_spki_b64 sig) with
      | None => inr "v2 Ed25519 cert missing pubkey_spki_b64"
      | Some b64 =>
          match publicKeyFromSpkiB64 b64 with Ok k => inl k | Throw e => inr (err_message e) end
      end
  end.

Definition verifyRunCertificate (cert : SignedCert) (opts : CertVerifyOptions) : result CertVerifyResult :=
  match signature cert with
  | None => Ok (refusal missing_signature None "")
  | Some sig =>
      if (alg sig =? "ML-DSA-44")%string then verifyRunCertificateMlDsa44 cert sig opts
      else if negb (alg sig =? "Ed25519")%string then
        Ok (refusal wrong_alg (Some ("expected Ed25519 or ML-DSA-44, got " ++ alg sig)%string) "")
      else
        match detectPayloadGen sig with
        | v1 => verifyRunCertificateV1 cert sig opts
        | v2 =>
            recomputed ← computeCertHashFelt252 cert;
            Ok (check_binding sig opts recomputed
              match v2_key sig opts with
              | inr why => refusal pubkey_unresolvable (Some why) recomputed
              | inl key => check_ed25519 (felt252ToBytes recomputed) key
                             (from_base64 (sig_value sig)) recomputed
              end)
        end
  end.
End Certificates.

(** * Inclusion proofs against a tree *)

(** A tree of leaf hashes, its root and the proofs of its leaves. *)
Inductive merkle :=
| MLeaf (h : string)
| MNode (l r : merkle).

Fixpoint leaves (t : merkle) : list string :=
  match t with MLeaf h => [h] | MNode l r => leaves l ++ leaves r end.

Fixpoint perfect (n : nat) (t : merkle) : Prop :=
  match n, t with
  | O, MLeaf _ => True
  | S n', MNode l r => perfect n' l /\ perfect n' r
  | _, _ => False
  end.

Section Inclusion.
Context `{ProofPlatform}.

Fixpoint root (t : merkle) : string :=
  match t with MLeaf h => h | MNode l r => hashPair (root l) (root r) end.

Fixpoint paths (t : merkle) : list (string * list string) :=
  match t with
  | MLeaf h => [(h, [])]
  | MNode l r => map (fun p => (p.1, p.2 ++ [root r])) (paths l) ++
                 map (fun p => (p.1, p.2 ++ [root l])) (paths r)
  end.

(** What is hashed for a pair, for a tree, along a proof. *)
Definition pair_input (a b : string) : list Z :=
  if str_le a b then hex_bytes a ++ hex_bytes b else hex_bytes b ++ hex_bytes a.

Fixpoint tree_inputs (t : merkle) : list (list Z) :=
  match t with
  | MLeaf _ => []
  | MNode l r => pair_input (root l) (root r) :: tree_inputs l ++ tree_inputs r
  end.

Definition climb (leaf : string) (proof : list string) : string :=
  fold_left (fun current sibling => hashPair current (strip0x sibling)) proof leaf.

Fixpoint proof_inputs (current : string) (proof : list string) : list (list Z) :=
  match proof with
  | [] => []
  | s :: proof' =>
      pair_input current (strip0x s) :: proof_inputs (hashPair current (strip0x s)) proof'
  end.

Lemma hashPair_input a b : hashPair a b = sha256_hex (pair_input a b).
Proof. unfold hashPair, pair_input. by destruct (str_le a b). Qed.

Lemma str_le_antisym a b : str_le a b = true -> str_le b a = true -> a = b.
Proof.
  unfold str_le. rewrite (str_cmp_antisym a b). destruct (str_cmp a b) eqn:E; [|done..].
  intros _ _. by apply str_cmp_eq.
Qed.

Lemma hashPair_comm a b : hashPair a b = hashPair b a.
Proof.
  rewrite !hashPair_input. f_equal. unfold pair_input.
  destruct (str_le a b) eqn:E1, (str_le b a) eqn:E2; [|done..|].
  - by rewrite (str_le_antisym a b).
  - exfalso. unfold str_le in *. rewrite (str_cmp_antisym a b) in E2. by destruct (str_cmp a b).
Qed.

(** ** Hexadecimal text and its bytes *)

Lemma hex_lower_val c : is_hex_lower c = true -> exists v, hex_val c = Some v /\ (v < 16)%nat.
Proof.
  assert (Hall : (if is_hex_lower c then match hex_val c with Some v => (v <? 16)%nat | None => false end
                  else true) = true) by (by destruct c as [[] [] [] [] [] [] [] []]).
  intros E. rewrite E in Hall. destruct (hex_val c) as [v|]; [|done]. exists v. split; [done|].
  by apply Nat.ltb_lt.
Qed.

Lemma hex_lower_char c v : is_hex_lower c = true -> hex_val c = Some v -> c = hex_char v.
Proof.
  assert (Hall : (if is_hex_lower c then match hex_val c with Some v => Ascii.eqb c (hex_char v) | None => true end
                  else true) = true) by (by destruct c as [[] [] [] [] [] [] [] []]).
  intros E Hv. rewrite E, Hv in Hall. by apply Ascii.eqb_eq.
Qed.

Lemma hex_lower_inj c d : is_hex_lower c = true -> is_hex_lower d = true -> hex_val c = hex_val d -> c = d.
Proof.
  intros Hc Hd E. destruct (hex_lower_val c Hc) as (v & Hv & _).
  rewrite (hex_lower_char c v Hc Hv). symmetry. apply hex_lower_char; congruence.
Qed.

Lemma hex_bytes_length n : forall s, String.length s = (2 * n)%nat -> str_all is_hex_lower s = true ->
  length (hex_bytes s) = n.
Proof.
  induction n as [|n IH]; intros [|a [|b s]] Hl Hs; cbn in Hl; try lia; [done|].
  cbn in Hs. apply andb_true_iff in Hs as [Ha Hs]. apply andb_true_iff in Hs as [Hb Hs].
  destruct (hex_lower_val a Ha) as (x & Hx & _), (hex_lower_val b Hb) as (y & Hy & _).
  cbn [hex_bytes]. rewrite Hx, Hy. cbn [length]. f_equal. apply IH; [lia|done].
Qed.

Lemma hex_bytes_inj n : forall s t, String.length s = (2 * n)%nat -> String.length t = (2 * n)%nat ->
  str_all is_hex_lower s = true -> str_all is_hex_lower t = true -> hex_bytes s = hex_bytes t -> s = t.
Proof.
  induction n as [|n IH]; intros [|a [|b s]] [|c [|d t]] Hs Ht As At; cbn in Hs, Ht; try lia; [done|].
  cbn in As, At. apply andb_true_iff in As as [Ha As], At as [Hc At].
  apply andb_true_iff in As as [Hb As], At as [Hd At].
  destruct (hex_lower_val a Ha) as (x & Hx & Lx), (hex_lower_val b Hb) as (y & Hy & Ly).
  destruct (hex_lower_val c Hc) as (u & Hu & Lu), (hex_lower_val d Hd) as (v & Hv & Lv).
  cbn [hex_bytes]. rewrite Hx, Hy, Hu, Hv. intros [= E1 E2].
  assert (x = u /\ y = v) as [-> ->] by lia.
  f_equal; [apply hex_lower_inj; congruence|]. f_equal; [apply hex_lower_inj; congruence|].
  apply IH; [lia|lia|done..].
Qed.

Lemma hex64_iff s : hex64 s = true <-> String.length s = 64%nat /\ str_all is_hex_lower s = true.
Proof. unfold hex64. by rewrite andb_true_iff, Nat.eqb_eq. Qed.

Lemma hex64_bytes_inj s t r u : hex64 s = true -> hex64 t = true -> hex64 r = true -> hex64 u = true ->
  hex_bytes s ++ hex_bytes t = hex_bytes r ++ hex_bytes u -> s = r /\ t = u.
Proof.
  rewrite !hex64_iff. intros [Ls As] [Lt At] [Lr Ar] [Lu Au] E.
  apply app_inj_1 in E as [E1 E2].
  - split; eapply (hex_bytes_inj 32); eauto.
  - by rewrite !(hex_bytes_length 32).
Qed.

Lemma pair_input_inj a b c d : hex64 a = true -> hex64 b = true -> hex64 c = true -> hex64 d = true ->
  pair_input a b = pair_input c d -> (a = c /\ b = d) \/ (a = d /\ b = c).
Proof.
  intros Ha Hb Hc Hd. unfold pair_input.
  destruct (str_le a b), (str_le c d); intros E; apply hex64_bytes_inj in E as [-> ->]; auto.
Qed.

Lemma strip0x_hex64 s : hex64 s = true -> strip0x s = s.
Proof.
  rewrite hex64_iff. intros [_ A]. unfold strip0x. destruct (starts_with "0x" s) eqn:E; [|done].
  apply starts_with_iff in E as [r ->]. cbn in A. done.
Qed.

Lemma strip0x_0x s : strip0x ("0x" ++ s) = s.
Proof. unfold strip0x. by rewrite starts_with_app. Qed.

(** ** Completeness and soundness *)

Hypothesis digest_hex64 : forall bytes, hex64 (sha256_hex bytes) = true.

Lemma root_hex64 t : Forall (fun h => hex64 h = true) (leaves t) -> hex64 (root t) = true.
Proof.
  destruct t as [h|l r]; cbn; [by intros [? _]%Forall_cons|]. intros _. rewrite hashPair_input.
  apply digest_hex64.
Qed.

Lemma climb_snoc leaf proof s : climb leaf (proof ++ [s]) = hashPair (climb leaf proof) (strip0x s).
Proof. unfold climb. by rewrite fold_left_app. Qed.

Lemma proof_inputs_snoc proof s : forall leaf,
  proof_inputs leaf (proof ++ [s]) = proof_inputs leaf proof ++ [pair_input (climb leaf proof) (strip0x s)].
Proof. induction proof as [|x proof IH]; intros leaf; cbn; [done|]. by rewrite IH. Qed.

Lemma paths_climb t leaf proof : Forall (fun h => hex64 h = true) (leaves t) -> (leaf, proof) ∈ paths t ->
  leaf ∈ leaves t /\ climb leaf proof = root t.
Proof.
  revert leaf proof. induction t as [h|l IHl r IHr]; intros leaf proof Hall Hin; cbn in *.
  { apply list_elem_of_singleton in Hin as [= -> ->]. split; [left|done]. }
  apply Forall_app in Hall as [Hl Hr]. apply elem_of_app in Hin as [Hin|Hin];
    apply list_elem_of_fmap in Hin as ([leaf' proof'] & [= -> ->] & Hin); cbn [fst snd].
  - destruct (IHl _ _ Hl Hin) as [Hm Hc]. split; [by apply elem_of_app; left|].
    by rewrite climb_snoc, Hc, strip0x_hex64 by (by apply root_hex64).
  - destruct (IHr _ _ Hr Hin) as [Hm Hc]. split; [by apply elem_of_app; right|].
    by rewrite climb_snoc, Hc, strip0x_hex64, hashPair_comm by (by apply root_hex64).
Qed.

Lemma paths_hex64 t leaf proof : Forall (fun h => hex64 h = true) (leaves t) -> (leaf, proof) ∈ paths t ->
  Forall (fun s => hex64 s = true) proof /\ forall n, perfect n t -> length proof = n.
Proof.
  revert leaf proof. induction t as [h|l IHl r IHr]; intros leaf proof Hall Hin; cbn [paths leaves] in *.
  { apply list_elem_of_singleton in Hin as [= -> ->]. by split; [|intros []]. }
  apply Forall_app in Hall as [Hl Hr]. apply elem_of_app in Hin as [Hin|Hin];
    apply list_elem_of_fmap in Hin as ([leaf' proof'] & [= -> ->] & Hin); cbn [fst snd].
  - destruct (IHl _ _ Hl Hin) as [Hs Hn]. split; [apply Forall_app; split; [done|]|].
    + constructor; [by apply root_hex64|done].
    + intros [|n]; [done|]. intros [Hp _]. rewrite length_app, (Hn n Hp). cbn. lia.
  - destruct (IHr _ _ Hr Hin) as [Hs Hn]. split; [apply Forall_app; split; [done|]|].
    + constructor; [by apply root_hex64|done].
    + intros [|n]; [done|]. intros [_ Hp]. rewrite length_app, (Hn n Hp). cbn. lia.
Qed.

Lemma climb_hex64 leaf proof : hex64 leaf = true -> hex64 (climb leaf proof) = true.
Proof.
  intros Hl. destruct proof as [|s proof _] using rev_ind; [done|].
  rewrite climb_snoc, hashPair_input. apply digest_hex64.
Qed.

(** A proof as long as the tree is deep leads from a leaf, or meets a collision. *)
Lemma climb_sound n : forall t leaf proof, perfect n t -> length proof = n ->
  Forall (fun h => hex64 h = true) (leaves t) -> hex64 leaf = true ->
  Forall (fun s => hex64 (strip0x s) = true) proof -> climb leaf proof = root t ->
  leaf ∈ leaves t \/ exists x y, x ∈ tree_inputs t /\ y ∈ proof_inputs leaf proof /\
    x <> y /\ sha256_hex x = sha256_hex y.
Proof.
  induction n as [|n IH]; intros [h|l r] leaf proof Hp Hlen Hall Hl Hs Hc; try done.
  { destruct proof; [|done]. left. cbn in Hc. rewrite Hc. left. }
  destruct proof as [|s proof _] using rev_ind; [done|]. rewrite length_app in Hlen. cbn in Hlen.
  apply Forall_app in Hs as [Hs [Hsib _]%Forall_cons]. rewrite climb_snoc in Hc. cbn [root leaves] in *.
  rewrite proof_inputs_snoc. destruct Hp as [Hpl Hpr]. apply Forall_app in Hall as [Hall_l Hall_r].
  rewrite !hashPair_input in Hc.
  destruct (decide (pair_input (climb leaf proof) (strip0x s) = pair_input (root l) (root r))) as [E|E].
  - apply pair_input_inj in E as [[E _]|[E _]];
      try (by apply climb_hex64); try (by apply root_hex64); try done.
    + destruct (IH l leaf proof Hpl ltac:(lia) Hall_l Hl Hs E) as [Hin|(x & y & Hx & Hy & Hne & Hd)];
        [left; apply elem_of_app; by left|].
      right. exists x, y. cbn. rewrite elem_of_cons, !elem_of_app. auto 6.
    + destruct (IH r leaf proof Hpr ltac:(lia) Hall_r Hl Hs E) as [Hin|(x & y & Hx & Hy & Hne & Hd)];
        [left; apply elem_of_app; by right|].
      right. exists x, y. cbn. rewrite elem_of_cons, !elem_of_app. auto 6.
  - right. exists (pair_input (root l) (root r)), (pair_input (climb leaf proof) (strip0x s)).
    split_and!; [left|by apply elem_of_app; right; left|congruence|congruence].
Qed.

(** C27: inclusion is decided against the tree.  Every leaf of a tree is accepted
    with its path, both written with or without [0x]; and what is accepted with a
    well-formed proof as long as the tree is deep is a leaf of the tree, unless
    the verification hashes the same digest as the construction of the tree from
    other bytes. *)
Theorem inclusion_decides (t : merkle) (n : nat)
    (Hall : Forall (fun h => hex64 h = true) (leaves t)) (Hp : perfect n t) :
  (forall leaf proof, (leaf, proof) ∈ paths t ->
     leaf ∈ leaves t /\ length proof = n /\ verifyProofInclusion leaf proof (root t) = true /\
     verifyProofInclusion ("0x" ++ leaf) (map (fun s => "0x" ++ s)%string proof) (root t) = true) /\
  (forall leaf proof, hex64 (strip0x leaf) = true -> Forall (fun s => hex64 (strip0x s) = true) proof ->
     length proof = n -> verifyProofInclusion leaf proof (root t) = true ->
     strip0x leaf ∈ leaves t \/
     exists x y, x ∈ tree_inputs t /\ y ∈ proof_inputs (strip0x leaf) proof /\
       x <> y /\ sha256_hex x = sha256_hex y).
Proof.
  split.
  - intros leaf proof Hin. destruct (paths_climb _ _ _ Hall Hin) as [Hm Hc].
    destruct (paths_hex64 _ _ _ Hall Hin) as [Hs Hlen]. rewrite (Hlen n Hp).
    assert (Hl : hex64 leaf = true) by by eapply Forall_forall in Hall.
    split_and!; [done|done| |]; unfold verifyProofInclusion.
    + rewrite strip0x_hex64 by done. by apply String.eqb_eq.
    + rewrite strip0x_0x. apply String.eqb_eq. rewrite <- Hc. unfold climb. clear -Hs.
      revert leaf. induction Hs as [|s proof Hs _ IH]; intros leaf; [done|]. cbn [map fold_left].
      by rewrite IH, strip0x_0x, (strip0x_hex64 s).
  - intros leaf proof Hl Hs Hlen Hv%String.eqb_eq. by apply (climb_sound n).
Qed.
End Inclusion.

(** * What a digest commits to *)

Lemma stringify_object l r : stringify (JObj l) = Ok r -> exists t, r = Some (String "{" t).
Proof.
  cbn [stringify]. intros (ts & _ & [= <-])%result_bind_ok. by eexists.
Qed.

(** Texts of plain documents tell them apart, up to what [normalize] forgets. *)
Lemma canonicalize_inj v w t : json_plain (normalize v) = true -> json_plain (normalize w) = true ->
  canonicalize v = Ok (Some t) -> canonicalize w = Ok (Some t) -> normalize v = normalize w.
Proof.
  intros Pv Pw. unfold canonicalize. destruct (parse_stringify _ Pv) as (tv & -> & Jv).
  destruct (parse_stringify _ Pw) as (tw & -> & Jw). intros [= ->] [= ->]. congruence.
Qed.

(** Only a big integer has no JSON text. *)
Fixpoint no_bigint (v : jsval) : bool :=
  match v with
  | JBigInt _ => false
  | JArr l => forallb no_bigint l
  | JObj l => forallb (fun kv => no_bigint kv.2) l
  | _ => true
  end.

Lemma stringify_total v : no_bigint v = true -> is_ok (stringify v) = true.
Proof.
  induction v as [| | | | | |ms| |l IH|l IH|] using jsval_ind_nested; try done; cbn [no_bigint stringify].
  - by destruct ms.
  - intros Hb. assert (Hts : exists ts, json_items stringify l = Ok ts); [|by destruct Hts as [ts ->]].
    induction IH as [|v l Hv _ IHl]; [by eexists|]. cbn in Hb |- *. apply andb_true_iff in Hb as [Hb1 Hb2].
    specialize (Hv Hb1). destruct (stringify v) as [o|]; [|done]. destruct (IHl Hb2) as [ts Hts].
    fold (json_items stringify). rewrite Hts. by eexists.
  - intros Hb. assert (Hts : exists ts, json_fields stringify l = Ok ts); [|by destruct Hts as [ts ->]].
    induction IH as [|[k v] l Hv _ IHl]; [by eexists|]. cbn in Hb, Hv |- *. apply andb_true_iff in Hb as [Hb1 Hb2].
    specialize (Hv Hb1). destruct (stringify v) as [o|]; [|done]. destruct (IHl Hb2) as [ts Hts].
    fold (json_fields stringify). rewrite Hts. by eexists.
Qed.

Lemma forallb_perm {A} (p : A -> bool) l l' : l ≡ₚ l' -> forallb p l = true -> forallb p l' = true.
Proof. rewrite !forallb_forall. intros Hp H x Hx. apply H. revert Hx. apply Permutation.Permutation_in. by symmetry. Qed.

Lemma normalize_no_bigint v : no_bigint v = true -> no_bigint (normalize v) = true.
Proof.
  induction v as [| | |x| | | |bs|l IH|l IH|] using jsval_ind_nested; try done; cbn [no_bigint normalize].
  - by destruct x.
  - intros _. generalize 0. induction bs; intros i; cbn; auto.
  - induction IH as [|v l Hv _ IHl]; [done|]. cbn. intros [??]%andb_true_iff. rewrite Hv; auto.
  - intros Hb. eapply forallb_perm; [symmetry; apply own_order_perm|]. apply forallb_forall.
    intros kv [Hin _]%filter_In. apply list_elem_of_In in Hin. rewrite sort_by_perm in Hin.
    apply list_elem_of_fmap in Hin as (kv' & -> & Hin). cbn. rewrite Forall_forall in IH. apply (IH kv' Hin).
    rewrite forallb_forall in Hb. apply Hb. by apply list_elem_of_In.
Qed.

Section LeafProps.
Context `{ProofPlatform} `{Printing}.

Lemma leafHash_ok l h : leafHash (JObj l) = Ok h ->
  exists t, canonicalize (JObj l) = Ok (Some t) /\ h = sha256_hex (utf8_bytes t).
Proof.
  unfold leafHash. intros (r & Hr & Hh)%result_bind_ok. pose proof Hr as Hr'.
  unfold canonicalize in Hr'. cbn [normalize] in Hr'. apply stringify_object in Hr' as (t & ->).
  injection Hh as <-. eauto.
Qed.

(** The fields of the documents of a table, in the order they are written. *)
Definition table_fields (t : UniversalSourceTable) : list string :=
  match t with
  | hitl_approval => ["id"; "agent_id"; "decision"; "evidence_hash"; "resolved_at"]
  | agent_config_history => ["agent_id"; "patch"; "version"; "changed_at"]
  | pending_agent_config_change => ["id"; "agent_id"; "proposed_patch"; "status"; "resolved_at"]
  | agent_run => ["id"; "agent_id"; "status"; "evidence_hash"; "duration_ms"]
  | outcome_ledger => ["id"; "agent_id"; "outcome_type"; "value_centimes"; "recorded_at"]
  end.

Lemma req_text_key row f p : req_text row f = Ok p -> p.1 = f.
Proof. by intros (? & _ & [= <-])%result_bind_ok. Qed.
Lemma req_lower_key row f p : req_lower row f = Ok p -> p.1 = f.
Proof. by intros (? & _ & (? & _ & [= <-])%result_bind_ok)%result_bind_ok. Qed.
Lemma req_iso_key row f p : req_iso row f = Ok p -> p.1 = f.
Proof. by intros (? & _ & (? & _ & [= <-])%result_bind_ok)%result_bind_ok. Qed.
Lemma req_int_key row f p : req_int row f = Ok p -> p.1 = f.
Proof. by intros (? & _ & (? & _ & [= <-])%result_bind_ok)%result_bind_ok. Qed.
Lemma req_object_key row f what p : req_object row f what = Ok p -> p.1 = f.
Proof. intros (v & _ & Hv)%result_bind_ok. by destruct v; try done; injection Hv as <-. Qed.

Lemma canonicalizer_fields t row doc : CANONICALIZERS t row = Ok doc -> doc.*1 = table_fields t.
Proof.
  intros Hd. destruct t; unfold CANONICALIZERS in Hd;
    repeat match goal with
    | Hd : (_ ≫= _) = Ok doc |- _ => apply result_bind_ok in Hd as (? & ? & Hd)
    end; injection Hd as <-;
    repeat match goal with
    | E : req_text _ _ = Ok _ |- _ => apply req_text_key in E
    | E : req_lower _ _ = Ok _ |- _ => apply req_lower_key in E
    | E : req_iso _ _ = Ok _ |- _ => apply req_iso_key in E
    | E : req_int _ _ = Ok _ |- _ => apply req_int_key in E
    | E : req_object _ _ _ = Ok _ |- _ => apply req_object_key in E
    end; cbn; by repeat f_equal.
Qed.
End LeafProps.

Lemma normalize_keys l m k : normalize (JObj l) = JObj m -> k <> "__proto__" -> k ∈ l.*1 <-> k ∈ m.*1.
Proof.
  intros [= <-] Hk. rewrite !list_elem_of_fmap.
  split; intros ([k' v] & E & Hin); cbn in E; subst k'.
  - exists (k, normalize v). split; [done|]. rewrite own_order_perm. apply list_elem_of_In, filter_In.
    split; [|by apply negb_true_iff, String.eqb_neq]. apply list_elem_of_In. rewrite sort_by_perm.
    apply list_elem_of_fmap. by exists (k, v).
  - rewrite own_order_perm in Hin. apply list_elem_of_In, filter_In in Hin as [Hin _].
    apply list_elem_of_In in Hin. rewrite sort_by_perm in Hin.
    apply list_elem_of_fmap in Hin as ([k' v'] & [= -> ->] & Hin). by exists (k', v').
Qed.

(** Documents of two tables never have the same fields. *)
Lemma tables_disjoint t1 t2 : (forall k, k ∈ table_fields t1 <-> k ∈ table_fields t2) -> t1 = t2.
Proof.
  intros E. assert (Hb : forall k, bool_decide (k ∈ table_fields t1) = bool_decide (k ∈ table_fields t2))
    by (intros k; by apply bool_decide_ext).
  pose proof (Hb "decision"). pose proof (Hb "patch"). pose proof (Hb "proposed_patch").
  pose proof (Hb "duration_ms"). pose proof (Hb "outcome_type").
  by destruct t1, t2; try reflexivity; vm_compute in *.
Qed.

Lemma no_proto t : "__proto__" ∉ table_fields t.
Proof. apply (bool_decide_eq_false_1 _). by destruct t. Qed.

Section LeafBinding.
Context `{ProofPlatform} `{Printing}.

(** A leaf commits to its table and to its document.  Two rows with the same
    leaf, whose documents are plain data, are rows of the same table with the same
    document, up to the order of keys and [__proto__]; or their canonical texts
    are a collision of the digest. *)
Theorem leaf_binds (t1 t2 : UniversalSourceTable) (row1 row2 : list (string * jsval)) (l1 l2 : ProofLeaf)
    (H1 : mkProofLeaf t1 row1 = Ok l1) (H2 : mkProofLeaf t2 row2 = Ok l2)
    (Heq : preimage_hash l1 = preimage_hash l2) :
  exists doc1 doc2 text1 text2,
    CANONICALIZERS t1 row1 = Ok doc1 /\ CANONICALIZERS t2 row2 = Ok doc2 /\
    canonicalize (JObj doc1) = Ok (Some text1) /\ canonicalize (JObj doc2) = Ok (Some text2) /\
    leaf_felt l1 = ("0x" ++ sha256_hex (utf8_bytes text1))%string /\
    (json_plain (normalize (JObj doc1)) = true -> json_plain (normalize (JObj doc2)) = true ->
      (t1 = t2 /\ normalize (JObj doc1) = normalize (JObj doc2)) \/
      (text1 <> text2 /\ sha256_hex (utf8_bytes text1) = sha256_hex (utf8_bytes text2))).
Proof.
  unfold mkProofLeaf in H1, H2.
  apply result_bind_ok in H1 as (doc1 & D1 & (h1 & L1 & [= <-])%result_bind_ok).
  apply result_bind_ok in H2 as (doc2 & D2 & (h2 & L2 & [= <-])%result_bind_ok).
  destruct (leafHash_ok _ _ L1) as (text1 & C1 & ->), (leafHash_ok _ _ L2) as (text2 & C2 & ->).
  cbn [preimage_hash leaf_felt] in *. exists doc1, doc2, text1, text2. split_and!; [done..|].
  intros P1 P2. destruct (decide (text1 = text2)) as [<-|Hne]; [left|by right].
  pose proof (canonicalize_inj _ _ _ P1 P2 C1 C2) as E. split; [|done].
  apply tables_disjoint. intros k. rewrite <- (canonicalizer_fields _ _ _ D1), <- (canonicalizer_fields _ _ _ D2).
  destruct (decide (k = "__proto__")) as [->|Hk].
  - rewrite (canonicalizer_fields _ _ _ D1), (canonicalizer_fields _ _ _ D2).
    split; intros Hin; by apply no_proto in Hin.
  - destruct (normalize (JObj doc1)) as [| | | | | | | | |m|] eqn:N1; try discriminate N1.
    rewrite (normalize_keys _ _ k N1 Hk). symmetry in E. by rewrite (normalize_keys _ _ k E Hk).
Qed.
End LeafBinding.

(** * Run-proof certificates *)

Definition felt_text (leaf : string) : Prop :=
  exists h, leaf = ("0x" ++ h)%string /\ str_all is_hex_lower h = true /\
    (62 <= String.length h <= 64)%nat /\ hex_value h < STARK_PRIME.

Lemma str_drop_0x h : str_drop 2 ("0x" ++ h) = h.
Proof. done. Qed.

Lemma isValidLeaf_iff leaf : isValidLeaf leaf = true <-> felt_text leaf.
Proof.
  unfold isValidLeaf, felt_text, MIN_FELT_HEX_LEN, MAX_FELT_HEX_LEN.
  destruct (starts_with "0x" leaf) eqn:Hs; cbn [negb].
  2: { split; [done|]. intros (h & -> & _). by rewrite starts_with_app in Hs. }
  apply starts_with_iff in Hs as [h ->]. rewrite str_drop_0x. split.
  - destruct (String.eqb_spec h ""); [done|]. destruct (str_all is_hex_lower h) eqn:Ha; [|done]. cbn [negb orb].
    destruct (Nat.ltb_spec (String.length h) 62), (Nat.ltb_spec 64 (String.length h)); try done.
    intros ?%Z.ltb_lt. exists h. split_and!; [done..|lia|lia|done].
  - intros (h' & E & Ha & Hl & Hv). apply (f_equal (str_drop 2)) in E. rewrite !str_drop_0x in E. subst h'.
    destruct (String.eqb_spec h "") as [->|]; [cbn in Hl; lia|].
    rewrite Ha. cbn [negb orb].
    destruct (Nat.ltb_spec (String.length h) 62), (Nat.ltb_spec 64 (String.length h)); [lia..|].
    by apply Z.ltb_lt.
Qed.

(** A run-proof certificate is valid exactly when its state is one of the
    three states and either it claims no anchor and has no steps, or every leaf of
    its steps is a well-formed field element and the root they give is the root
    it claims; the verifier throws only when the root cannot be computed. *)
Theorem proof_certificate_decides (computeMerkleRoot : list string -> result string)
    (cert : RunProofCertificate) :
  let lvs := map leaf_hash_poseidon (decision_chain cert) in
  match verifyProofCertificate computeMerkleRoot cert with
  | Ok r => valid r = true <->
      state cert ∈ VALID_CERT_STATES /\
      ((lvs = [] /\ merkle_root cert = None) \/
       (lvs <> [] /\ Forall felt_text lvs /\ exists m, computeMerkleRoot lvs = Ok m /\ merkle_root cert = Some m))
  | Throw e => Forall felt_text lvs /\ computeMerkleRoot lvs = Throw e
  end.
Proof.
  intros lvs. unfold verifyProofCertificate.
  destruct (decide (state cert ∈ VALID_CERT_STATES)) as [Hst|Hst].
  2: { rewrite bool_decide_eq_false_2 by done. split; [done|]. by intros [? _]. }
  rewrite bool_decide_eq_true_2 by done. cbn [negb].
  assert (Hnil : lvs = [] <-> decision_chain cert = []).
  { unfold lvs. by destruct (decision_chain cert). }
  destruct (Nat.eqb_spec (length (decision_chain cert)) 0) as [Hl|Hl].
  { apply length_zero_iff_nil, Hnil in Hl. destruct (merkle_root cert); cbn [valid invalid].
    2: { split; [|done]. intros _. split; [done|by left]. }
    split; [done|]. intros [_ [[_ ?]|[? _]]]; done. }
  assert (Hne : lvs <> []) by (intros E%Hnil; by rewrite E in Hl). fold lvs.
  assert (Hall : forallb isValidLeaf lvs = true <-> Forall felt_text lvs).
  { rewrite forallb_forall, Forall_forall. setoid_rewrite isValidLeaf_iff.
    by setoid_rewrite <- list_elem_of_In. }
  destruct (forallb isValidLeaf lvs); cbn [negb].
  2: { cbn. split; [done|]. intros [_ [[? _]|(_ & H & _)]]; [done|]. by apply Hall in H. }
  pose proof (proj1 Hall eq_refl) as Hf.
  destruct (computeMerkleRoot lvs) as [m|e] eqn:Hm; unfold mbind; cbn [result_bind]; [|done].
  destruct (decide (merkle_root cert = Some m)) as [Hr|Hr].
  - rewrite bool_decide_eq_true_2 by done. cbn. split; [|done]. intros _. split; [done|]. right. eauto.
  - rewrite bool_decide_eq_false_2 by done. cbn. split; [done|].
    intros [_ [[? _]|(_ & _ & m' & [= <-] & ?)]]; done.
Qed.

(** * Signed run certificates *)

Section CertProps.
Context `{ProofPlatform}.

(** What was checked when a certificate was found valid. *)
Inductive endorsed (cert : SignedCert) (opts : CertVerifyOptions) (sig : SignaturePayload) (text : string) : Prop :=
| by_v2 key :
    alg sig = "Ed25519" -> cert_hash_felt252 sig = Some (text_hash text) -> wrong_kid opts sig = None ->
    v2_key sig opts = inl key ->
    length (from_base64 (sig_value sig)) = 64%nat ->
    ed25519_verify (felt252ToBytes (text_hash text)) key (from_base64 (sig_value sig)) = true ->
    endorsed cert opts sig text
| by_v1 key :
    alg sig = "Ed25519" -> cert_hash_felt252 sig = None -> truthy (expectedKid opts) = None ->
    (forall k, expectedPublicKey opts = Some k -> key = k) ->
    length (hex_bytes (sig_value sig)) = 64%nat ->
    ed25519_verify (utf8_bytes text) key (hex_bytes (sig_value sig)) = true ->
    endorsed cert opts sig text
| by_ml_dsa key verify :
    alg sig = "ML-DSA-44" -> cert_hash_felt252 sig = Some (text_hash text) -> wrong_kid opts sig = None ->
    ml_dsa44 = Some verify -> (forall k, expectedMlDsa44PublicKey opts = Some k -> key = k) ->
    length key = ML_DSA44_PUBKEY_LEN -> length (from_base64 (sig_value sig)) = ML_DSA44_SIGNATURE_LEN ->
    verify (from_base64 (sig_value sig)) (felt252ToBytes (text_hash text)) key ML_DSA44_CONTEXT = Ok true ->
    endorsed cert opts sig text.

Lemma check_ed25519_valid m k s rc : cert_valid (check_ed25519 m k s rc) = true <->
  length s = 64%nat /\ ed25519_verify m k s = true.
Proof.
  unfold check_ed25519. destruct (Nat.eqb_spec (length s) 64); cbn [negb]; [|cbn; naive_solver].
  destruct (ed25519_verify m k s); cbn; naive_solver.
Qed.

Lemma check_binding_valid sig opts rc next : cert_valid (check_binding sig opts rc next) = true <->
  cert_hash_felt252 sig = Some rc /\ wrong_kid opts sig = None /\ cert_valid next = true.
Proof.
  unfold check_binding. destruct (decide (cert_hash_felt252 sig = Some rc)) as [E|E].
  - rewrite bool_decide_eq_true_2 by done. cbn [negb]. destruct (wrong_kid opts sig); cbn; naive_solver.
  - rewrite bool_decide_eq_false_2 by done. cbn. naive_solver.
Qed.

Lemma cert_hash_ok cert rc : computeCertHashFelt252 cert = Ok rc ->
  exists text, unsigned_text cert = Ok text /\ rc = text_hash text.
Proof. intros (t & Ht & [= <-])%result_bind_ok. eauto. Qed.

Lemma v1_valid cert sig opts rc r : verifyV1Key cert sig opts rc = Ok r -> cert_valid r = true ->
  exists key text, unsigned_text cert = Ok text /\
    (forall k, expectedPublicKey opts = Some k -> key = k) /\
    length (hex_bytes (sig_value sig)) = 64%nat /\
    ed25519_verify (utf8_bytes text) key (hex_bytes (sig_value sig)) = true.
Proof.
  unfold verifyV1Key. destruct (match expectedPublicKey opts with Some _ => _ | None => _ end) as [k|why] eqn:Hk;
    [|by intros [= <-]].
  intros (text & Ht & [= <-])%result_bind_ok [Hl Hv]%check_ed25519_valid. exists k, text.
  split_and!; [done| |done..]. intros k' E. rewrite E in Hk. by injection Hk.
Qed.

(** Every valid certificate is endorsed by one of the three schemes. *)
Lemma valid_endorsed cert opts r : verifyRunCertificate cert opts = Ok r -> cert_valid r = true ->
  exists sig text, signature cert = Some sig /\ unsigned_text cert = Ok text /\ endorsed cert opts sig text.
Proof.
  unfold verifyRunCertificate. destruct (signature cert) as [sig|]; [|by intros [= <-]].
  intros Hr Hv. exists sig. destruct (String.eqb_spec (alg sig) "ML-DSA-44") as [Ha|_].
  { apply result_bind_ok in Hr as (rc & Hrc & [= <-]). apply cert_hash_ok in Hrc as (text & Ht & ->).
    exists text. split_and!; [done..|]. apply check_binding_valid in Hv as (Hh & Hk & Hv).
    destruct ml_dsa44 as [verify|] eqn:Hm; [|done].
    destruct (match expectedMlDsa44PublicKey opts with Some _ => _ | None => _ end) as [key|] eqn:Hkey; [|done].
    destruct (Nat.eqb_spec (length key) ML_DSA44_PUBKEY_LEN); [|done].
    destruct (Nat.eqb_spec (length (from_base64 (sig_value sig))) ML_DSA44_SIGNATURE_LEN); [|done]. cbn [negb] in Hv.
    destruct (verify _ _ _ _) as [[]|] eqn:E; [|done..]. eapply by_ml_dsa; try done.
    intros k Ek. rewrite Ek in Hkey. by injection Hkey. }
  destruct (String.eqb_spec (alg sig) "Ed25519") as [Ha|_]; cbn [negb] in Hr; [|by injection Hr as <-].
  unfold detectPayloadGen in Hr. destruct (cert_hash_felt252 sig) as [h|] eqn:Hh.
  - apply result_bind_ok in Hr as (rc & Hrc & [= <-]). apply cert_hash_ok in Hrc as (text & Ht & ->).
    exists text. split_and!; [done..|]. apply check_binding_valid in Hv as (Hh' & Hk & Hv).
    destruct (v2_key sig opts) as [key|] eqn:Hkey; [|done].
    apply check_ed25519_valid in Hv as [Hl Hv]. by eapply by_v2.
  - unfold verifyRunCertificateV1 in Hr. destruct (truthy (expectedKid opts)) eqn:Hkid; [by injection Hr as <-|].
    apply result_bind_ok in Hr as (rc & _ & Hr).
    assert (Hr' : verifyV1Key cert sig opts rc = Ok r).
    { destruct (truthy (digest sig)); [|done]. destruct (negb _); [by injection Hr as <-|done]. }
    destruct (v1_valid _ _ _ _ _ Hr' Hv) as (key & text & Ht & Hkey & Hl & He).
    exists text. split_and!; [done..|]. by eapply by_v1.
Qed.

(** Poseidon gives a field element, printed without padding. *)
Definition felt_hash : Prop := forall l, exists h,
  poseidon l = ("0x" ++ h)%string /\ str_all is_hex_lower h = true /\ (1 <= String.length h <= 63)%nat.

Lemma unsigned_object cert text : unsigned_text cert = Ok text -> exists r, text = String "{" r.
Proof.
  intros (t & Ht & [= <-])%result_bind_ok. unfold canonicalizeJcs, canonicalize in Ht. cbn [normalize] in Ht.
  apply stringify_object in Ht as (r & ->). by exists r.
Qed.

(** The first byte of a projected hash has a leading zero digit. *)
Lemma felt_first_byte l : felt_hash -> exists b bs, felt252ToBytes (poseidon l) = b :: bs /\ b < 16.
Proof.
  intros Hf. destruct (Hf l) as (h & -> & Ha & Hl). unfold felt252ToBytes. rewrite strip0x_0x.
  unfold pad_start. destruct (64 - String.length h)%nat as [|n] eqn:En; [lia|]. cbn [zeros String.append].
  destruct n as [|n].
  - destruct h as [|c h]; [cbn in Hl; lia|]. cbn in Ha. apply andb_true_iff in Ha as [Hc _].
    destruct (hex_lower_val c Hc) as (v & Hv & Hlt).
    change (("0" ++ zeros 0) ++ String c h)%string with (String "0" (String c h)).
    cbn [hex_bytes]. rewrite Hv. change (hex_val "0") with (Some 0%nat).
    eexists _, _. split; [reflexivity|lia].
  - change (("0" ++ zeros (S n)) ++ h)%string with (String "0" (String "0" (zeros n ++ h))).
    cbn [hex_bytes]. change (hex_val "0") with (Some 0%nat). eexists _, _. split; [reflexivity|lia].
Qed.

(** What the first generation signs is never what the second one signs. *)
Lemma generations_disjoint cert text l : felt_hash -> unsigned_text cert = Ok text ->
  utf8_bytes text <> felt252ToBytes (poseidon l).
Proof.
  intros Hf Ht E. destruct (unsigned_object _ _ Ht) as [r ->].
  destruct (felt_first_byte l Hf) as (b & bs & Hb & Hlt). rewrite Hb in E.
  change (utf8_bytes (String "{" r)) with (123 :: utf8_bytes r) in E. injection E as E _. lia.
Qed.

(** Two texts a signature cannot tell apart: their truncated digests agree, or
    those differ and their projected hashes agree. *)
Definition indistinct (t1 t2 : string) : Prop :=
  (t1 <> t2 /\ sha_felt t1 = sha_felt t2) \/
  (sha_felt t1 <> sha_felt t2 /\ felt252ToBytes (text_hash t1) = felt252ToBytes (text_hash t2)).

(** Under a pinned Ed25519 key that signs certificates of the current
    generation only, a valid Ed25519 certificate was signed as it is: its canonical
    text is one of those that were signed, or an explicit collision with one; the
    hash it carries is that of this text, and the key id, if pinned, is the
    expected one.  A certificate of the first generation is never valid under
    such a key. *)
Theorem cert_was_signed (cert : SignedCert) (opts : CertVerifyOptions) (k : KeyObject) (sig : SignaturePayload)
    (signed : list string) (r : CertVerifyResult) (Hf : felt_hash)
    (Hkey : forall m s, ed25519_verify m k s = true -> exists t, t ∈ signed /\ m = felt252ToBytes (text_hash t))
    (Hpin : expectedPublicKey opts = Some k) (Hsig : signature cert = Some sig) (Halg : alg sig = "Ed25519")
    (Hr : verifyRunCertificate cert opts = Ok r) (Hv : cert_valid r = true) :
  exists text, unsigned_text cert = Ok text /\ cert_hash_felt252 sig = Some (text_hash text) /\
    (forall kd, truthy (expectedKid opts) = Some kd -> kid sig = kd) /\
    exists t, t ∈ signed /\ (text = t \/ indistinct text t).
Proof.
  destruct (valid_endorsed _ _ _ Hr Hv) as (sig' & text & Hsig' & Ht & He).
  rewrite Hsig in Hsig'. injection Hsig' as <-. exists text. split; [done|].
  destruct He as [key _ Hh Hk Hvk _ He|key _ _ _ Hp _ He|key verify Hml _ _ _ _ _ _ _].
  - unfold v2_key in Hvk. rewrite Hpin in Hvk. injection Hvk as ->. split; [done|]. split.
    + intros kd E. unfold wrong_kid in Hk. rewrite E in Hk. destruct (String.eqb_spec kd (kid sig)); done.
    + destruct (Hkey _ _ He) as (t & Hin & E). exists t. split; [done|].
      destruct (decide (text = t)) as [->|Hne]; [by left|right]. unfold indistinct.
      destruct (decide (sha_felt text = sha_felt t)); auto.
  - rewrite (Hp k Hpin) in He. destruct (Hkey _ _ He) as (t & _ & E). exfalso.
    by eapply generations_disjoint.
  - congruence.
Qed.

(** The verifier answers, whatever the signature and the options are, for
    every certificate without big integers, as one read from JSON is. *)
Theorem verifier_total (cert : SignedCert) (opts : CertVerifyOptions)
    (Hb : forallb (fun kv => no_bigint kv.2) (unsigned cert) = true) :
  exists r, verifyRunCertificate cert opts = Ok r.
Proof.
  destruct (unsigned_text cert) as [text|e] eqn:Ht.
  2: { unfold unsigned_text, canonicalizeJcs, canonicalize in Ht.
    pose proof (stringify_total _ (normalize_no_bigint (JObj (unsigned cert)) Hb)) as Hok.
    by destruct (stringify _). }
  assert (H1 : computeCertHashFelt252 cert = Ok (text_hash text)).
  { unfold computeCertHashFelt252. by rewrite Ht. }
  assert (H2 : computeCertDigestSha256 cert = Ok (sha256_hex (utf8_bytes text))).
  { unfold computeCertDigestSha256. by rewrite Ht. }
  unfold verifyRunCertificate, verifyRunCertificateMlDsa44, verifyRunCertificateV1, verifyV1Key.
  destruct (signature cert) as [sig|]; [|by eexists]. rewrite H1, H2, Ht. unfold mbind. cbn [result_bind].
  destruct (alg sig =? "ML-DSA-44")%string; [by eexists|].
  destruct (negb (alg sig =? "Ed25519")%string); [by eexists|].
  destruct (detectPayloadGen sig); [|by eexists]. destruct (truthy (expectedKid opts)); [by eexists|].
  destruct (truthy (digest sig)) as [d|]; [destruct (negb (d =? _)%string); [by eexists|]|];
    destruct (match expectedPublicKey opts with Some _ => _ | None => _ end); by eexists.
Qed.
End CertProps.

(** * A concrete platform *)

(** [n] hexadecimal digits of a number. *)
Fixpoint fixed_hex (n : nat) (z : Z) : string :=
  match n with
  | O => EmptyString
  | S n' => String (hex_char (Z.to_nat (z mod 16))) (fixed_hex n' (z / 16))
  end.

Lemma fixed_hex_spec n z : String.length (fixed_hex n z) = n /\ str_all is_hex_lower (fixed_hex n z) = true.
Proof.
  revert z. induction n as [|n IH]; intros z; [done|]. cbn [fixed_hex String.length str_all].
  destruct (IH (z / 16)) as [-> ->]. split; [done|]. rewrite andb_true_r.
  pose proof (Z.mod_pos_bound z 16 ltac:(lia)). assert (Hk : (Z.to_nat (z mod 16) < 16)%nat) by lia.
  revert Hk. generalize (Z.to_nat (z mod 16)). intros k Hk.
  do 16 (destruct k as [|k]; [reflexivity|]). lia.
Qed.

Definition checksum (bytes : list Z) : Z := fold_left (fun acc b => (acc * 257 + b + 1) mod (2 ^ 240)) bytes 7.
Definition demo_sha (bytes : list Z) : string := fixed_hex 64 (checksum bytes).
Definition demo_poseidon (l : list string) : string :=
  ("0x" ++ fixed_hex 62 (checksum (utf8_bytes (join "," l))))%string.
Definition demo_sign (k : string) (m : list Z) : string := fixed_hex 64 (checksum (utf8_bytes k ++ m)).

Definition demo_fields : list (string * jsval) :=
  [("run_id", JStr "run-7"); ("score", JNum (num_of_Z 3));
   ("chain", JArr [JObj [("type", JStr "decision"); ("index", JNum num_zero)]])].
Definition demo_text : string :=
  match canonicalizeJcs demo_fields with Ok (Some t) => t | _ => "" end.
Definition demo_hash (text : string) : string :=
  demo_poseidon ["0x1"; "0x" ++ String.substring 0 62 (demo_sha (utf8_bytes text)); CERT_MARKER_FELT]%string.
Definition demo_message (text : string) : list Z := felt252ToBytes (demo_hash text).

(** The issuer has signed one certificate; other keys sign what they like. *)
Definition demo_verify (m : list Z) (k : string) (s : list Z) : bool :=
  bool_decide (s = utf8_bytes (demo_sign k m)) &&
  (negb (k =? "issuer")%string || bool_decide (m = demo_message demo_text)).

Definition demoPlatform : ProofPlatform := {|
  sha256_hex := demo_sha;
  poseidon := demo_poseidon;
  from_base64 := fun s => if (s =? "pq-key")%string then repeat 7 1312
                          else if (s =? "pq-signature")%string then repeat 9 2420 else utf8_bytes s;
  KeyObject := string;
  createPublicKey := fun der => Ok "embedded";
  asymmetricKeyType := fun _ => "ed25519";
  ed25519_verify := demo_verify;
  ml_dsa44 := Some (fun s _ k _ => Ok (bool_decide (k = repeat 7 1312 /\ s = repeat 9 2420)))
|}.
#[local] Existing Instance demoPlatform.

Lemma demo_sha_hex64 bytes : hex64 (@sha256_hex demoPlatform bytes) = true.
Proof. apply hex64_iff, fixed_hex_spec. Qed.

Lemma demo_felt_hash : @felt_hash demoPlatform.
Proof.
  intros l. exists (fixed_hex 62 (checksum (utf8_bytes (join "," l)))). split; [done|].
  destruct (fixed_hex_spec 62 (checksum (utf8_bytes (join "," l)))) as [-> ->]. split; [done|lia].
Qed.

Lemma demo_issuer m s : @ed25519_verify demoPlatform m "issuer" s = true ->
  exists t, t ∈ [demo_text] /\ m = felt252ToBytes (@text_hash demoPlatform t).
Proof.
  cbn [ed25519_verify demoPlatform]. unfold demo_verify. intros [_ Hm]%andb_true_iff.
  change (bool_decide (m = demo_message demo_text) = true) in Hm. apply bool_decide_eq_true in Hm.
  exists demo_text. split; [left|exact Hm].
Qed.

Definition demo_signature (value : string) : SignaturePayload :=
  mkSignature "Ed25519" "k1" value (Some "embedded") None (Some (demo_hash demo_text)) None None "today".
Definition demo_cert : SignedCert :=
  mkCert (Some (demo_signature (demo_sign "issuer" (demo_message demo_text)))) demo_fields.
Definition pinned : @CertVerifyOptions demoPlatform := mkCertOptions (Some "issuer") None (Some "k1").

Definition demo_check (cert : SignedCert) (opts : @CertVerifyOptions demoPlatform) : option (option CertVerifyFailReason) :=
  match verifyRunCertificate cert opts with Ok r => Some (cr_reason r) | Throw _ => None end.

(** What is refused: an altered field, another key id, a key that did not sign. *)
Example cert_examples :
  demo_check demo_cert pinned = Some None /\
  demo_check (mkCert (signature demo_cert) (("extra", JNull) :: demo_fields)) pinned = Some (Some hash_mismatch) /\
  demo_check demo_cert (mkCertOptions (Some "issuer") None (Some "k2")) = Some (Some kid_mismatch) /\
  demo_check demo_cert (mkCertOptions (Some "other") None None) = Some (Some signature_invalid) /\
  demo_check (mkCert None demo_fields) pinned = Some (Some missing_signature).
Proof. vm_compute. done. Qed.

Lemma cert_was_signed_witness :
  demo_check demo_cert pinned = Some None /\
  exists t, t ∈ [demo_text] /\ (demo_text = t \/ @indistinct demoPlatform demo_text t).
Proof.
  assert (Hc : demo_check demo_cert pinned = Some None) by (by vm_compute). split; [exact Hc|].
  unfold demo_check in Hc. destruct (verifyRunCertificate demo_cert pinned) as [r|] eqn:Hr; [|done].
  assert (Hv : cert_valid r = true) by (injection Hc as Hc; unfold cert_valid; by rewrite Hc).
  destruct (@cert_was_signed demoPlatform demo_cert pinned "issuer" _ [demo_text] r demo_felt_hash demo_issuer
    eq_refl eq_refl eq_refl Hr Hv) as (text & Ht & _ & _ & H).
  assert (E : unsigned_text demo_cert = Ok demo_text) by (by vm_compute).
  rewrite E in Ht. injection Ht as <-. exact H.
Defined.

Lemma verifier_total_witness :
  demo_check (mkCert None [("n", JBigInt 1)]) pinned = Some (Some missing_signature) /\
  exists r, verifyRunCertificate (H := demoPlatform) demo_cert pinned = Ok r.
Proof.
  split; [by vm_compute|]. apply (@verifier_total demoPlatform demo_cert pinned). by vm_compute.
Defined.

Definition demo_leaf (n : Z) : string := demo_sha [n].
Definition demo_tree : merkle :=
  MNode (MNode (MLeaf (demo_leaf 1)) (MLeaf (demo_leaf 2))) (MNode (MLeaf (demo_leaf 3)) (MLeaf (demo_leaf 4))).
Definition demo_path : list string :=
  [demo_leaf 4; @root demoPlatform (MNode (MLeaf (demo_leaf 1)) (MLeaf (demo_leaf 2)))].

Lemma demo_tree_hex : Forall (fun h => hex64 h = true) (leaves demo_tree).
Proof. repeat constructor. Qed.

Lemma inclusion_decides_witness :
  verifyProofInclusion (H := demoPlatform) (demo_leaf 5) demo_path (root demo_tree) = false /\
  verifyProofInclusion (H := demoPlatform) ("0x" ++ demo_leaf 3) (map (fun s => "0x" ++ s)%string demo_path)
    (root demo_tree) = true.
Proof.
  split; [by vm_compute|].
  assert (Hin : (demo_leaf 3, demo_path) ∈ @paths demoPlatform demo_tree) by (right; right; left).
  apply (@inclusion_decides demoPlatform demo_sha_hex64 demo_tree 2 demo_tree_hex (conj (conj I I) (conj I I))).
  exact Hin.
Defined.

#[local] Instance demoPrinting : Printing := {| date_string := iso_string; fun_string := "function" |}.

Definition ledger_row (centimes : jsval) : list (string * jsval) :=
  [("id", JStr "o-1"); ("agent_id", JStr "a-1"); ("outcome_type", JStr "SALE"); ("value_centimes", centimes);
   ("recorded_at", JDate (Some 1717171717171))].
Definition no_leaf : ProofLeaf := mkLeaf "" "".
Definition leaf_of (t : UniversalSourceTable) (row : list (string * jsval)) : ProofLeaf :=
  match mkProofLeaf (H := demoPlatform) t row with Ok l => l | Throw _ => no_leaf end.

Lemma leaf_binds_witness :
  leaf_of outcome_ledger (ledger_row (JStr "250")) <> leaf_of outcome_ledger (ledger_row (JStr "251")) /\
  exists doc1 doc2, normalize (JObj doc1) = normalize (JObj doc2) \/
    exists text1 text2, text1 <> text2 /\ demo_sha (utf8_bytes text1) = demo_sha (utf8_bytes text2).
Proof.
  split; [by vm_compute|].
  set (r1 := ledger_row (JStr "250")). set (r2 := ledger_row (JNum (num_of_Z 250))).
  destruct (@leaf_binds demoPlatform demoPrinting outcome_ledger outcome_ledger r1 r2
    (leaf_of outcome_ledger r1) (leaf_of outcome_ledger r2)) as (d1 & d2 & x1 & x2 & D1 & D2 & _ & _ & _ & H);
    [by vm_compute..|].
  assert (E1 : CANONICALIZERS (H0 := demoPrinting) outcome_ledger r1 = Ok
    [("id", JStr "o-1"); ("agent_id", JStr "a-1"); ("outcome_type", JStr "sale");
     ("value_centimes", JNum (num_of_Z 250)); ("recorded_at", JStr "2024-05-31T16:08:37.171Z")]) by (by vm_compute).
  assert (E2 : CANONICALIZERS (H0 := demoPrinting) outcome_ledger r2 = CANONICALIZERS outcome_ledger r1) by (by vm_compute).
  rewrite E1 in D1. rewrite E2, E1 in D2. injection D1 as <-. injection D2 as <-. eexists _, _.
  destruct H as [[_ E]|[Hne E]]; [by vm_compute..|left; exact E|right; eauto].
Defined.

(** * Where less is checked than one might think *)

(** Amounts written as text lose the digits a double cannot hold: the leaves of
    two amounts agree. *)
Example large_amounts_share_a_leaf :
  leaf_of outcome_ledger (ledger_row (JStr "9007199254740993")) =
  leaf_of outcome_ledger (ledger_row (JStr "9007199254740992")) /\
  leaf_of outcome_ledger (ledger_row (JStr "9007199254740993")) <> no_leaf.
Proof. vm_compute. done. Qed.

(** The digits of two sibling leaves, written one after the other, pass for a
    leaf, with an empty sibling: neither is checked to be a digest. *)
Lemma joined_leaves_accepted `{ProofPlatform} a b : hex64 a = true -> hex64 b = true -> str_le a b = true ->
  verifyProofInclusion (a ++ b) [""] (hashPair a b) = true.
Proof.
  intros Ha Hb Hab. pose proof Ha as [La Aa]%hex64_iff. pose proof Hb as [Lb Ab]%hex64_iff.
  assert (Happ : forall n s t, String.length s = (2 * n)%nat -> str_all is_hex_lower s = true ->
      hex_bytes (s ++ t) = hex_bytes s ++ hex_bytes t).
  { induction n as [|n IH]; intros [|x [|y s]] t Hl Hs; cbn in Hl; try lia; [done|].
    cbn in Hs. apply andb_true_iff in Hs as [Hx [Hy Hs]%andb_true_iff].
    change ((String x (String y s)) ++ t)%string with (String x (String y (s ++ t))). cbn [hex_bytes].
    destruct (hex_lower_val x Hx) as (v & -> & _), (hex_lower_val y Hy) as (u & -> & _).
    rewrite IH by (lia || done). done. }
  unfold verifyProofInclusion. cbn [fold_left].
  assert (Hs : strip0x (a ++ b) = (a ++ b)%string).
  { unfold strip0x. destruct (starts_with "0x" (a ++ b)) eqn:E; [|done].
    apply starts_with_iff in E as [r E]. destruct a as [|x [|y a]]; [done..|]. injection E as -> -> E. done. }
  rewrite Hs. change (strip0x "") with "". apply String.eqb_eq. rewrite !hashPair_input. f_equal.
  unfold pair_input. rewrite Hab. destruct a as [|x a]; [done|].
  change (str_le (String x a ++ b) "") with false. cbn [hex_bytes]. by rewrite (Happ 32%nat _ _ La Aa).
Qed.

(** Pinning the Ed25519 key does not pin the key of a certificate that says it is
    signed with ML-DSA-44: such a certificate brings its own. *)
Example pinned_key_bypassed :
  let forged := mkCert (Some (mkSignature "ML-DSA-44" "k1" "pq-signature" None (Some "pq-key")
    (Some (demo_hash demo_text)) None None "today")) demo_fields in
  demo_check forged pinned = Some None.
Proof. vm_compute. reflexivity. Qed.

(** What is under a key named [__proto__] is not signed. *)
Example proto_not_signed :
  demo_check (mkCert (signature demo_cert) (("__proto__", JStr "anything") :: demo_fields)) pinned = Some None.
Proof. vm_compute. reflexivity. Qed.

(** A field element below [16^61], printed without padding, is no valid leaf. *)
Example short_felt_refused :
  isValidLeaf ("0x" ++ fixed_hex 61 12345) = false /\ isValidLeaf ("0x" ++ fixed_hex 62 12345) = true.
Proof. vm_compute. done. Qed.
