(* ===== verification/Provable.v ===== *)
(** Decisions that can be re-executed, [src/provable-planner/], and the
    authorization of payments, [src/pay/authorization-policy.ts].

    A policy is caller code: a function of its input and of an abstract world,
    which may throw and need not answer twice the same.  Outputs have any type
    with a JavaScript value.  Digests are those of [Certificate]; [Date.parse]
    is an argument. *)

From S2P Require Import Prelude JsNum JsValue Json JsonParse Regex Canonical TokenBase Privacy.
From S2P Require Import Battery ActionGate Certificate.
From Stdlib Require Import Ascii SpecFloat.

Definition GovernanceError (message : string) : jserror := JsError "GovernanceError" message.

Record DecisionClaim (I O : Type) := mkClaim {
  policyId : string;
  policyVersion : string;
  input : I;
  output : O
}.
Arguments mkClaim {I O} _ _ _ _.
Arguments policyId {I O} _.
Arguments policyVersion {I O} _.
Arguments input {I O} _.
Arguments output {I O} _.

Inductive DecisionGrade := A0 | A1 | A3.

Inductive mismatch := policy_version_mismatch | output_mismatch.

Record ReexecVerdict (O : Type) := mkReexec {
  rv_ok : bool;
  rv_recomputed : option O;
  rv_reason : option mismatch
}.
Arguments mkReexec {O} _ _ _.
Arguments rv_ok {O} _.
Arguments rv_recomputed {O} _.
Arguments rv_reason {O} _.

Record AuditStep := mkAudit {
  au_outputHash : string;
  au_adrEco : string
}.

Record GovernedDecision (I O : Type) := mkGoverned {
  claim : DecisionClaim I O;
  auditStep : AuditStep
}.
Arguments mkGoverned {I O} _ _.
Arguments claim {I O} _.
Arguments auditStep {I O} _.

Definition decisionAnchorPreimage (id agentId pid pversion : string) (inp out : jsval) (decidedAt : string)
    : list (string * jsval) :=
  [("id", JStr id); ("agent_id", JStr agentId); ("policy_id", JStr pid); ("policy_version", JStr pversion);
   ("input", inp); ("output", out); ("decided_at", JStr decidedAt)].

Definition gradeDecision {O} (verdict : ReexecVerdict O) (externalVerifier : bool) : DecisionGrade :=
  if negb (rv_ok verdict) then A0 else if externalVerifier then A3 else A1.

Section Planner.
Context `{ProofPlatform} {I O W : Type} (to_val : O -> jsval).

Definition Policy : Type := I -> W -> result O * W.

Definition jcs (v : O) : result (option string) := canonicalize (to_val v).

(** [jcs(a) === jcs(b)]. *)
Definition same_jcs (a b : O) : result bool :=
  x ← jcs a; y ← jcs b; Ok (bool_decide (x = y)).

Definition verifyDecisionReexecution (c : DecisionClaim I O) (policy : Policy) (expectedPolicyVersion : string)
    (w : W) : result (ReexecVerdict O) * W :=
  if negb (policyVersion c =? expectedPolicyVersion)%string then
    (Ok (mkReexec false None (Some policy_version_mismatch)), w)
  else
    let '(r, w1) := policy (input c) w in
    (recomputed ← r;
     same ← same_jcs recomputed (output c);
     Ok (if (same : bool) then mkReexec true (Some recomputed) None
         else mkReexec false (Some recomputed) (Some output_mismatch)), w1).

Definition emitAuditStep (decisionCore : O) (adrEco : string) : result AuditStep :=
  _ ← throw_if (is_blank adrEco)
    (GovernanceError "governed primitive requires a non-empty adrEco (ADR-traceability, property 3)");
  h ← leafHash (to_val decisionCore);
  Ok (mkAudit h adrEco).

(** Both runs of the policy, the second only when the first did not throw. *)
Definition run_twice (policy : Policy) (i : I) (w : W) : result (O * O) * W :=
  let '(r1, w1) := policy i w in
  match r1 with
  | Throw e => (Throw e, w1)
  | Ok a => let '(r2, w2) := policy i w1 in (b ← r2; Ok (a, b), w2)
  end.

Definition NON_DETERMINISTIC : jserror :=
  GovernanceError "policy is non-deterministic (property 1 violated)".

Definition assertReplay (c : DecisionClaim I O) (policy : Policy) (w : W) : result O * W :=
  let '(r, w1) := run_twice policy (input c) w in
  (ab ← r;
   same ← same_jcs ab.1 ab.2;
   _ ← throw_if (negb same) NON_DETERMINISTIC;
   committed ← same_jcs ab.1 (output c);
   _ ← throw_if (negb committed)
     (GovernanceError "replay drift: recomputed != committed output (property 4)");
   Ok ab.1, w1).

Definition decideProvably (pid pversion : string) (policy : Policy) (i : I) (adrEco : string) (w : W)
    : result (GovernedDecision I O) * W :=
  if is_blank adrEco then
    (Throw (GovernanceError "decideProvably requires a non-empty adrEco (ADR-traceability, property 3)"), w)
  else
    let '(r, w1) := run_twice policy i w in
    (ab ← r;
     same ← same_jcs ab.1 ab.2;
     _ ← throw_if (negb same) NON_DETERMINISTIC;
     step ← emitAuditStep ab.1 adrEco;
     Ok (mkGoverned (mkClaim pid pversion i ab.1) step), w1).
End Planner.
Arguments Policy I O W : clear implicits.

(** * The provable action gate, [action-gate.ts] *)

Record GateDecisionCore := mkGateCore { gd_allowed : bool; gd_reason : string }.
Definition gateCore_val (c : GateDecisionCore) : jsval :=
  JObj [("allowed", JBool (gd_allowed c)); ("reason", JStr (gd_reason c))].

Section ProvableGate.
Context `{ProofPlatform} {W : Type}.

(** Unlike a battery gate it answers at once, and threads the world of its policy. *)
Definition provableActionGate (pid pversion adrEco : string) (policy : Policy ActionGateCall GateDecisionCore W)
    (call : ActionGateCall) (w : W) : ActionGateVerdict AuditStep * W :=
  let '(r, w1) := decideProvably gateCore_val pid pversion policy call adrEco w in
  (match r with
   | Ok g => mkGateVerdict (gd_allowed (output (claim g))) (gd_reason (output (claim g))) None
               (Some (auditStep g))
   | Throw e => mkGateVerdict false ("provable gate error (fail-closed): " ++ err_message e)%string None None
   end, w1).
End ProvableGate.

(** * Certificates of an execution planner, [certificate.ts] *)

Definition EXECUTION_CERT_POLICY_ID : string := "vauban.execution-planner-certificate".
Definition EXECUTION_CERT_POLICY_VERSION : string := "vauban.execution-planner-certificate@v1".

Record CertificateLayer := mkLayer {
  ly_name : string;
  admitted : bool;
  passed : bool;
  detail : list (string * jsval)
}.

Record CompositeCertificateInput := mkCertInput {
  ci_subject : string;
  ci_dataFingerprint : option string;
  ci_layers : list CertificateLayer
}.

Record CompositeCertificateCore := mkCertCore {
  cc_subject : string;
  cc_dataFingerprint : option string;         (** [None] is [null] *)
  cc_admittedLayers : list string;
  cc_notAdmittedLayers : list string;
  cc_layers : list CertificateLayer;
  productionReady : bool
}.

Definition layer_val (l : CertificateLayer) : jsval :=
  JObj [("name", JStr (ly_name l)); ("admitted", JBool (admitted l)); ("passed", JBool (passed l));
        ("detail", JObj (detail l))].

Definition certCore_val (c : CompositeCertificateCore) : jsval :=
  JObj [("subject", JStr (cc_subject c));
        ("dataFingerprint", match cc_dataFingerprint c with Some s => JStr s | None => JNull end);
        ("admittedLayers", JArr (map JStr (cc_admittedLayers c)));
        ("notAdmittedLayers", JArr (map JStr (cc_notAdmittedLayers c)));
        ("layers", JArr (map layer_val (cc_layers c)));
        ("productionReady", JBool (productionReady c))].

Definition layer_cmp (a b : CertificateLayer) : comparison := str_cmp (ly_name a) (ly_name b).

Definition certificateCore (i : CompositeCertificateInput) : CompositeCertificateCore :=
  let layers := sort_by layer_cmp (ci_layers i) in
  let adm := List.filter admitted layers in
  mkCertCore (ci_subject i) (ci_dataFingerprint i) (map ly_name adm)
    (map ly_name (List.filter (fun l => negb (admitted l)) layers)) layers
    ((0 <? length adm)%nat && forallb passed adm).

Section ExecutionCertificate.
Context `{ProofPlatform} {W : Type}.

Definition certificatePolicy : Policy CompositeCertificateInput CompositeCertificateCore W :=
  fun i w => (Ok (certificateCore i), w).

Definition executionPlannerCertificate (i : CompositeCertificateInput) (adrEco : string) (w : W) :=
  decideProvably certCore_val EXECUTION_CERT_POLICY_ID EXECUTION_CERT_POLICY_VERSION certificatePolicy i adrEco w.

Definition verifyExecutionCertificate (c : DecisionClaim CompositeCertificateInput CompositeCertificateCore) (w : W) :=
  verifyDecisionReexecution certCore_val c certificatePolicy EXECUTION_CERT_POLICY_VERSION w.

Definition gradeExecutionCertificate (c : DecisionClaim CompositeCertificateInput CompositeCertificateCore)
    (externalVerifier : bool) (w : W) : result DecisionGrade * W :=
  let '(r, w1) := verifyExecutionCertificate c w in
  (v ← r; Ok (gradeDecision v externalVerifier), w1).
End ExecutionCertificate.

(** * Payment authorization, [pay/authorization-policy.ts] *)

Inductive PaymentPurpose := skill_install | attest | api_access | tip.
#[export] Instance PaymentPurpose_eq_dec : EqDecision PaymentPurpose.
Proof. solve_decision. Defined.

Definition purpose_name (p : PaymentPurpose) : string :=
  match p with
  | skill_install => "skill-install" | attest => "attest" | api_access => "api-access" | tip => "tip"
  end.

Record PaymentPolicy := mkPolicy {
  pp_id : string;
  pp_version : num;
  pp_recipient : string;
  pp_networks : list string;
  pp_minAmountWei : option string;
  pp_purposes : option (list PaymentPurpose);
  pp_maxAgeMs : option num
}.

Record PaymentFacts := mkFacts {
  pf_txHash : option string;
  pf_recipient : string;
  pf_network : string;
  pf_amountWei : string;
  pf_token : option string;
  pf_purpose : option PaymentPurpose;
  pf_recordedAt : option string
}.

Inductive PolicyCheckName := check_recipient | check_network | check_amount | check_purpose | check_freshness.
#[export] Instance PolicyCheckName_eq_dec : EqDecision PolicyCheckName.
Proof. solve_decision. Defined.

Record PolicyCheckResult := mkCheck {
  pc_check : PolicyCheckName;
  pc_passed : bool;
  pc_detail : option string
}.

Record PaymentAuthorizationVerdict := mkAuthorization {
  authorized : bool;
  pa_policyId : string;
  pa_policyVersion : num;
  checks : list PolicyCheckResult;
  failed : list PolicyCheckName;
  commitmentSha256 : string;
  evaluatedAt : string
}.

Definition normalizeAddress (address : string) : string := strip0x (lower address).

(** [BigInt(s)], [None] for a [SyntaxError]: white space around, nothing is 0, a
    sign only before decimal digits. *)
Fixpoint radix_value (radix : Z) (s : string) (acc : Z) : option Z :=
  match s with
  | EmptyString => Some acc
  | String c s' =>
      match hex_val c with
      | Some d => if Z.of_nat d <? radix then radix_value radix s' (radix * acc + Z.of_nat d) else None
      | None => None
      end
  end.
Definition radix_digits (radix : Z) (s : string) : option Z :=
  match s with EmptyString => None | _ => radix_value radix s 0 end.

Definition js_BigInt (s : string) : option Z :=
  match js_trim s with
  | EmptyString => Some 0
  | String "0" (String "x" r) | String "0" (String "X" r) => radix_digits 16 r
  | String "0" (String "o" r) | String "0" (String "O" r) => radix_digits 8 r
  | String "0" (String "b" r) | String "0" (String "B" r) => radix_digits 2 r
  | String "-" r => Z.opp <$> radix_digits 10 r
  | String "+" r => radix_digits 10 r
  | t => radix_digits 10 t
  end.

Definition purposes_text (l : list PaymentPurpose) : string := join ", " (map purpose_name l).

Definition opt_field (k : string) (o : option string) : string * jsval :=
  (k, match o with Some s => JStr s | None => JUndef end).

Definition policy_val (p : PaymentPolicy) : jsval :=
  JObj [("id", JStr (pp_id p)); ("version", JNum (pp_version p)); ("recipient", JStr (pp_recipient p));
        ("networks", JArr (map JStr (pp_networks p))); opt_field "minAmountWei" (pp_minAmountWei p);
        ("purposes", match pp_purposes p with
                     | Some l => JArr (map (fun x => JStr (purpose_name x)) l) | None => JUndef end);
        ("maxAgeMs", match pp_maxAgeMs p with Some x => JNum x | None => JUndef end)].

Definition facts_val (f : PaymentFacts) : jsval :=
  JObj [opt_field "txHash" (pf_txHash f); ("recipient", JStr (pf_recipient f));
        ("network", JStr (pf_network f)); ("amountWei", JStr (pf_amountWei f)); opt_field "token" (pf_token f);
        opt_field "purpose" (purpose_name <$> pf_purpose f); opt_field "recordedAt" (pf_recordedAt f)].

Section Payment.
Context `{ProofPlatform} (parseDate : string -> option Z).

Definition computePaymentAuthorizationCommitment (p : PaymentPolicy) (f : PaymentFacts) : result string :=
  t ← canonicalizeJcs [("policy", policy_val p); ("facts", facts_val f)];
  Ok (sha256_hex (utf8_bytes (default "" t))).

Definition recipient_check (p : PaymentPolicy) (f : PaymentFacts) : PolicyCheckResult :=
  let ok := (normalizeAddress (pp_recipient p) =? normalizeAddress (pf_recipient f))%string in
  mkCheck check_recipient ok
    (if ok then None else Some ("expected " ++ pp_recipient p ++ ", got " ++ pf_recipient f)%string).

Definition network_check (p : PaymentPolicy) (f : PaymentFacts) : PolicyCheckResult :=
  let ok := bool_decide (pf_network f ∈ pp_networks p) in
  mkCheck check_network ok
    (if ok then None
     else Some ("expected one of [" ++ join ", " (pp_networks p) ++ "], got " ++ pf_network f)%string).

Definition amount_check (p : PaymentPolicy) (f : PaymentFacts) : list PolicyCheckResult :=
  match pp_minAmountWei p with
  | None => []
  | Some floor =>
      match js_BigInt (pf_amountWei f), js_BigInt floor with
      | Some paid, Some min =>
          let ok := min <=? paid in
          [mkCheck check_amount ok
             (if ok then None else Some ("paid " ++ pf_amountWei f ++ " < minimum " ++ floor)%string)]
      | _, _ =>
          [mkCheck check_amount false
             (Some ("amountWei " ++ quoted (pf_amountWei f) ++ " is not a valid bigint")%string)]
      end
  end.

Definition purpose_check (p : PaymentPolicy) (f : PaymentFacts) : list PolicyCheckResult :=
  match pp_purposes p with
  | None => []
  | Some allowed =>
      let ok := match pf_purpose f with Some x => bool_decide (x ∈ allowed) | None => false end in
      [mkCheck check_purpose ok
         (if ok then None
          else Some ("purpose " ++ quoted (default "(none)" (purpose_name <$> pf_purpose f)) ++
                     " not in [" ++ purposes_text allowed ++ "]")%string)]
  end.

(** [now] is [Date.now()]. *)
Definition freshness_check (p : PaymentPolicy) (f : PaymentFacts) (now : Z) : list PolicyCheckResult :=
  match pp_maxAgeMs p with
  | None => []
  | Some maxAge =>
      match pf_recordedAt f with
      | None => [mkCheck check_freshness false (Some ("policy sets maxAgeMs " ++ num_to_string maxAge ++
                   " but facts carry no recordedAt timestamp")%string)]
      | Some at_ =>
          match parseDate at_ with
          | None => [mkCheck check_freshness false
                       (Some ("recordedAt " ++ quoted at_ ++ " is not a valid ISO timestamp")%string)]
          | Some recorded =>
              let ageMs := now - recorded in
              let ok := num_leb (num_of_Z ageMs) maxAge in
              [mkCheck check_freshness ok
                 (if ok then None else Some ("payment age " ++ str_of_Z ageMs ++ "ms exceeds maxAgeMs " ++
                                             num_to_string maxAge)%string)]
          end
      end
  end.

(** [now] and [now'] are the readings of the clock for the age and the verdict. *)
Definition evaluatePaymentAuthorization (p : PaymentPolicy) (f : PaymentFacts) (now now' : Z)
    : result PaymentAuthorizationVerdict :=
  let cs := recipient_check p f :: network_check p f ::
            amount_check p f ++ purpose_check p f ++ freshness_check p f now in
  let bad := map pc_check (List.filter (fun c => negb (pc_passed c)) cs) in
  commitment ← computePaymentAuthorizationCommitment p f;
  Ok (mkAuthorization (length bad =? 0)%nat (pp_id p) (pp_version p) cs bad commitment (iso_string now')).
End Payment.

(** * Re-execution *)

Section PlannerProps.
Context `{ProofPlatform} {I O W : Type} (to_val : O -> jsval).
Implicit Types (policy : Policy I O W).

(** A policy that computes [f], whatever the world. *)
Definition computes policy (f : I -> O) : Prop := forall i w, exists w', policy i w = (Ok (f i), w').

Definition canonical_as (v : O) (t : option string) : Prop := canonicalize (to_val v) = Ok t.

Lemma same_jcs_ok a b r : same_jcs to_val a b = Ok r <->
  exists x y, canonical_as a x /\ canonical_as b y /\ r = bool_decide (x = y).
Proof.
  unfold same_jcs, jcs, canonical_as. split.
  - intros (x & Hx & (y & Hy & [= <-])%result_bind_ok)%result_bind_ok. eauto.
  - intros (x & y & Hx & Hy & ->). rewrite Hx, Hy. done.
Qed.

Lemma run_twice_ok policy i w a b w' : run_twice policy i w = (Ok (a, b), w') <->
  exists w1, policy i w = (Ok a, w1) /\ policy i w1 = (Ok b, w').
Proof.
  unfold run_twice. destruct (policy i w) as [[a'|e] w1].
  - destruct (policy i w1) as [[b'|e'] w2] eqn:E; unfold mbind; cbn [result_bind]; split.
    + intros [= -> -> ->]. eauto.
    + intros (w1' & [= <- <-] & E'). rewrite E in E'. by injection E' as -> ->.
    + done.
    + intros (w1' & [= <- <-] & E'). by rewrite E in E'.
  - split; [done|]. by intros (? & ? & _).
Qed.

(** What a governed decision says. *)
Lemma decide_ok pid pv policy i adr w g w' :
  decideProvably to_val pid pv policy i adr w = (Ok g, w') ->
  exists a b w1 t, policy i w = (Ok a, w1) /\ policy i w1 = (Ok b, w') /\
    canonical_as a (Some t) /\ canonical_as b (Some t) /\ is_blank adr = false /\
    claim g = mkClaim pid pv i a /\ auditStep g = mkAudit (sha256_hex (utf8_bytes t)) adr.
Proof.
  unfold decideProvably. destruct (is_blank adr) eqn:Hadr; [done|].
  destruct (run_twice policy i w) as [[[a b]|e] w1] eqn:Hr; unfold mbind at 1; cbn [result_bind fst snd]; [|done].
  intros [= Hg <-]. apply run_twice_ok in Hr as (w0 & H1 & H2).
  apply result_bind_ok in Hg as (same & (x & y & Hx & Hy & ->)%same_jcs_ok & Hg).
  apply result_bind_ok in Hg as ([] & Hs%throw_if_ok & Hg).
  apply negb_false_iff, bool_decide_eq_true in Hs as <-.
  apply result_bind_ok in Hg as (step & Hstep & [= <-]). unfold emitAuditStep in Hstep.
  rewrite Hadr in Hstep. cbn [throw_if] in Hstep. unfold mbind at 1 in Hstep. cbn [result_bind] in Hstep.
  apply result_bind_ok in Hstep as (h & Hh & [= <-]). unfold leafHash in Hh.
  unfold canonical_as in Hx. rewrite Hx in Hh. unfold mbind in Hh. cbn [result_bind] in Hh.
  destruct x as [t|]; [|done]. injection Hh as <-. exists a, b, w0, t. split_and!; done.
Qed.

(** C26: What was decided can be re-executed.  A decision of a policy that computes
    [f] commits to [f] of its input and to the digest of its canonical text; any
    party that re-runs the policy accepts it, under its version only, and grades
    it A3 if it is not the producer and A1 if it is. *)
Theorem decision_reexecutes (pid pv adr : string) policy (f : I -> O) (i : I) (w w' : W)
    (g : GovernedDecision I O) (Hf : computes policy f)
    (Hg : decideProvably to_val pid pv policy i adr w = (Ok g, w')) :
  claim g = mkClaim pid pv i (f i) /\ is_blank adr = false /\
  (exists t, canonicalize (to_val (f i)) = Ok (Some t) /\
     auditStep g = mkAudit (sha256_hex (utf8_bytes t)) adr) /\
  forall w0, exists w1,
    verifyDecisionReexecution to_val (claim g) policy pv w0 = (Ok (mkReexec true (Some (f i)) None), w1) /\
    gradeDecision (mkReexec true (Some (f i)) None) true = A3 /\
    gradeDecision (mkReexec true (Some (f i)) None) false = A1 /\
    forall pv', pv' <> pv -> exists v,
      verifyDecisionReexecution to_val (claim g) policy pv' w0 = (Ok v, w0) /\ gradeDecision v true = A0.
Proof.
  destruct (decide_ok _ _ _ _ _ _ _ _ Hg) as (a & b & wa & t & Ha & Hb & Ca & Cb & Hadr & -> & ->).
  destruct (Hf i w) as (w2 & E). rewrite Ha in E. injection E as -> _.
  split; [done|]. split; [done|]. split; [by exists t|]. intros w0. destruct (Hf i w0) as (w1 & E1).
  exists w1. split; [|split; [done|split; [done|]]].
  - unfold verifyDecisionReexecution. cbn [policyVersion input output]. rewrite String.eqb_refl. cbn [negb].
    rewrite E1. unfold mbind. cbn [result_bind].
    assert (Hs : same_jcs to_val (f i) (f i) = Ok true).
    { apply same_jcs_ok. exists (Some t), (Some t). by rewrite bool_decide_eq_true_2. }
    by rewrite Hs.
  - intros pv' Hne. unfold verifyDecisionReexecution. cbn [policyVersion].
    rewrite (proj2 (String.eqb_neq pv pv')) by congruence. by eexists.
Qed.

(** What an accepted re-execution says. *)
Lemma reexec_ok c policy pv w v w' : verifyDecisionReexecution to_val c policy pv w = (Ok v, w') ->
  rv_ok v = true -> policyVersion c = pv /\ exists out t,
    policy (input c) w = (Ok out, w') /\ canonical_as out t /\ canonical_as (output c) t.
Proof.
  unfold verifyDecisionReexecution. destruct (String.eqb_spec (policyVersion c) pv) as [Hpv|]; cbn [negb].
  2: { by intros [= <- <-]. }
  destruct (policy (input c) w) as [[out|e] w1] eqn:Hp; unfold mbind at 1; cbn [result_bind]; [|done].
  intros [= Hv <-] Hok. apply result_bind_ok in Hv as (same & (x & y & Hx & Hy & ->)%same_jcs_ok & [= <-]).
  destruct (decide (x = y)) as [<-|Hne].
  - split; [done|]. exists out, x. done.
  - by rewrite bool_decide_eq_false_2 in Hok.
Qed.
End PlannerProps.

(** * The provable gate *)

Lemma gateCore_normal c : normalize (gateCore_val c) = gateCore_val c.
Proof. by destruct c. Qed.

Lemma gateCore_text c1 c2 t : canonical_as gateCore_val c1 t -> canonical_as gateCore_val c2 t -> c1 = c2.
Proof.
  assert (Hp : forall c, json_plain (normalize (gateCore_val c)) = true).
  { intros [b s]. rewrite gateCore_normal. by vm_compute. }
  unfold canonical_as. intros H1 H2. destruct t as [t|].
  - pose proof (canonicalize_inj _ _ _ (Hp c1) (Hp c2) H1 H2) as E.
    rewrite !gateCore_normal in E. destruct c1, c2. by injection E as -> ->.
  - exfalso. unfold canonicalize in H1. destruct (parse_stringify _ (Hp c1)) as (t & Ht & _). congruence.
Qed.

Lemma gateCore_canonical c : exists t, canonical_as gateCore_val c (Some t).
Proof.
  unfold canonical_as, canonicalize. destruct (parse_stringify (normalize (gateCore_val c))) as (t & Ht & _).
  - rewrite gateCore_normal. destruct c. by vm_compute.
  - by exists t.
Qed.

(** C22: The provable gate is fail-closed and exact.  Whatever its policy does, it
    answers; it allows a call exactly when it names its decision record and the
    policy, run twice, answered twice the same and that answer allows; an answer
    that is given carries its reason and the digest of both. *)
Theorem provable_gate_exact `{ProofPlatform} {W} (pid pv adr : string)
    (policy : Policy ActionGateCall GateDecisionCore W) (call : ActionGateCall) (w w' : W)
    (v : ActionGateVerdict AuditStep)
    (Hv : provableActionGate pid pv adr policy call w = (v, w')) :
  (allowed v = true <-> is_blank adr = false /\ exists c w1,
     policy call w = (Ok c, w1) /\ policy call w1 = (Ok c, w') /\ gd_allowed c = true) /\
  (allowed v = true -> exists c t, gate_reason v = gd_reason c /\
     canonicalize (gateCore_val c) = Ok (Some t) /\
     gate_audit v = Some (mkAudit (sha256_hex (utf8_bytes t)) adr)).
Proof.
  unfold provableActionGate in Hv.
  destruct (decideProvably gateCore_val pid pv policy call adr w) as [[g|e] w2] eqn:Hd; injection Hv as <- <-.
  - pose proof (decide_ok _ _ _ _ _ _ _ _ _ Hd) as (a & b & w1 & t & Ha & Hb & Ca & Cb & Hadr & Hc & Hs).
    pose proof (gateCore_text _ _ _ Ca Cb) as <-. rewrite Hc, Hs. cbn [allowed gate_reason gate_audit output].
    split; [|intros _; by exists a, t]. split; [by eauto 7|].
    intros (_ & c & w1' & E & _ & Hal). rewrite Ha in E. by injection E as -> _.
  - cbn [allowed gate_reason gate_audit]. split; [|done]. split; [done|].
    intros (Hadr & c & w1 & H1 & H2 & _). exfalso. unfold decideProvably in Hd. rewrite Hadr in Hd.
    assert (Hr : run_twice policy call w = (Ok (c, c), w2)) by (apply run_twice_ok; eauto).
    rewrite Hr in Hd. destruct (gateCore_canonical c) as [t Ht].
    assert (Hsame : same_jcs gateCore_val c c = Ok true).
    { apply same_jcs_ok. exists (Some t), (Some t). by rewrite bool_decide_eq_true_2. }
    unfold mbind in Hd. cbn [result_bind fst snd] in Hd. rewrite Hsame in Hd. cbn [result_bind negb throw_if] in Hd.
    unfold emitAuditStep, leafHash in Hd. rewrite Hadr in Hd. unfold canonical_as in Ht.
    unfold mbind in Hd. cbn [result_bind throw_if] in Hd. by rewrite Ht in Hd.
Qed.

(** * Execution certificates *)

Definition ready (layers : list CertificateLayer) : Prop :=
  (exists l, l ∈ layers /\ admitted l = true) /\
  forall l, l ∈ layers -> admitted l = true -> passed l = true.

Lemma filter_length_pos {A} (p : A -> bool) l : (0 <? length (List.filter p l))%nat = true <->
  exists x, x ∈ l /\ p x = true.
Proof.
  rewrite Nat.ltb_lt. split.
  - destruct (List.filter p l) as [|x r] eqn:E; cbn; [lia|]. intros _. exists x.
    rewrite list_elem_of_In, <- filter_In, E. by left.
  - intros (x & Hx & Hp). assert (Hin : List.In x (List.filter p l))
      by (apply filter_In; by rewrite <- list_elem_of_In).
    destruct (List.filter p l); [done|cbn; lia].
Qed.

Lemma ready_iff i : productionReady (certificateCore i) = true <-> ready (ci_layers i).
Proof.
  unfold certificateCore, ready. cbn [productionReady]. rewrite andb_true_iff, filter_length_pos, forallb_forall.
  f_equiv; [|split].
  - f_equiv. intros l. by rewrite sort_by_perm.
  - intros Hall l Hl Ha. apply Hall, filter_In. split; [|done]. by rewrite <- list_elem_of_In, sort_by_perm.
  - intros Hall l [Hl Ha]%filter_In. rewrite <- list_elem_of_In, sort_by_perm in Hl. by apply Hall.
Qed.

(** The order in which the layers are given does not matter, if they have
    different names. *)
Lemma certificate_order_blind s f l1 l2 : NoDup (map ly_name l1) -> l1 ≡ₚ l2 ->
  certificateCore (mkCertInput s f l1) = certificateCore (mkCertInput s f l2).
Proof.
  intros Hn Hp. unfold certificateCore. cbn [ci_layers ci_subject ci_dataFingerprint].
  assert (E : sort_by layer_cmp l1 = sort_by layer_cmp l2); [|by rewrite E].
  apply sort_by_unique; [| | |done].
  - intros x y. apply str_cmp_antisym.
  - intros x y z. apply str_cmp_trans.
  - intros x y Hx Hy E%str_cmp_eq. clear Hp l2.
    induction l1 as [|z l1 IH]; [by apply elem_of_nil in Hx|].
    cbn in Hn. apply NoDup_cons in Hn as [Hz Hn].
    apply elem_of_cons in Hx as [->|Hx], Hy as [->|Hy]; [done| | |by apply IH]; exfalso; apply Hz.
    + rewrite E. by apply list_elem_of_fmap_2.
    + rewrite <- E. by apply list_elem_of_fmap_2.
Qed.

Lemma normalize_field l1 l2 k v1 v2 : normalize (JObj l1) = normalize (JObj l2) -> NoDup l2.*1 ->
  k <> "__proto__" -> (k, v1) ∈ l1 -> (k, v2) ∈ l2 -> normalize v1 = normalize v2.
Proof.
  intros E Hn Hk H1 H2.
  assert (Hin : forall l v, (k, v) ∈ l -> exists m, normalize (JObj l) = JObj m /\ (k, normalize v) ∈ m).
  { intros l v Hv. eexists. split; [reflexivity|]. rewrite own_order_perm. apply list_elem_of_In, filter_In.
    split; [|by apply negb_true_iff, String.eqb_neq]. apply list_elem_of_In. rewrite sort_by_perm.
    apply list_elem_of_fmap. by exists (k, v). }
  destruct (Hin _ _ H1) as (m1 & E1 & I1), (Hin _ _ H2) as (m2 & E2 & I2).
  rewrite E, E2 in E1. injection E1 as ->.
  eapply (fst_unique m1 k); [|exact I1|exact I2]. injection E2 as <-.
  rewrite own_order_perm. clear -Hn.
  assert (Hperm : (sort_by key_cmp (map (fun kv => (kv.1, normalize kv.2)) l2)).*1 ≡ₚ l2.*1).
  { rewrite sort_by_perm. clear. induction l2 as [|kv l IH]; cbn; [done|]. by rewrite IH. }
  rewrite <- Hperm in Hn. revert Hn. generalize (sort_by key_cmp (map (fun kv => (kv.1, normalize kv.2)) l2)).
  intros l Hn. induction l as [|kv l IH]; [done|]. cbn in Hn |- *. apply NoDup_cons in Hn as [Hx Hn].
  destruct (negb (kv.1 =? "__proto__")%string); cbn; [|by apply IH]. apply NoDup_cons. split; [|by apply IH].
  intros (x & Ex & Hx')%list_elem_of_fmap. apply Hx. rewrite Ex. apply list_elem_of_fmap.
  exists x. split; [done|]. apply list_elem_of_In, filter_In in Hx' as [Hx' _]. by apply list_elem_of_In.
Qed.

(** The core is told apart by its readiness and its subject. *)
Lemma certCore_fields c1 c2 : normalize (certCore_val c1) = normalize (certCore_val c2) ->
  productionReady c1 = productionReady c2 /\ cc_subject c1 = cc_subject c2 /\
  cc_dataFingerprint c1 = cc_dataFingerprint c2.
Proof.
  intros E. assert (Hn : forall c, NoDup (match certCore_val c with JObj l => l.*1 | _ => [] end)).
  { intros c. apply (bool_decide_unpack _). by vm_compute. }
  specialize (Hn c2). unfold certCore_val in E, Hn.
  split_and!.
  - assert (H : normalize (JBool (productionReady c1)) = normalize (JBool (productionReady c2))).
    { eapply (normalize_field _ _ "productionReady"); [exact E|exact Hn|done|..]; do 5 right; left. }
    by injection H.
  - assert (H : normalize (JStr (cc_subject c1)) = normalize (JStr (cc_subject c2))).
    { eapply (normalize_field _ _ "subject"); [exact E|exact Hn|done|left..]. }
    by injection H.
  - match type of E with normalize (JObj [_; (_, ?v1); _; _; _; _]) = normalize (JObj [_; (_, ?v2); _; _; _; _]) =>
      assert (H : normalize v1 = normalize v2) end.
    { eapply (normalize_field _ _ "dataFingerprint"); [exact E|exact Hn|done|right; left..]. }
    destruct (cc_dataFingerprint c1), (cc_dataFingerprint c2); cbn in H; congruence.
Qed.

(** C17: A graded certificate is the certificate of its layers.  A claim of plain
    data that is graded above A0, by whomever, has the subject, the data
    fingerprint and the readiness that its committed layers give: it is ready
    exactly when some layer is admitted and every admitted layer passed.  A claim
    that says otherwise is graded A0. *)
Theorem execution_certificate_sound {W}
    (c : DecisionClaim CompositeCertificateInput CompositeCertificateCore) (ext : bool) (w w' : W)
    (g : DecisionGrade)
    (Hg : gradeExecutionCertificate c ext w = (Ok g, w')) (Hne : g <> A0)
    (Hout : json_plain (normalize (certCore_val (output c))) = true)
    (Hcore : json_plain (normalize (certCore_val (certificateCore (input c)))) = true) :
  g = (if ext then A3 else A1) /\ policyVersion c = EXECUTION_CERT_POLICY_VERSION /\
  normalize (certCore_val (output c)) = normalize (certCore_val (certificateCore (input c))) /\
  cc_subject (output c) = ci_subject (input c) /\
  cc_dataFingerprint (output c) = ci_dataFingerprint (input c) /\
  (productionReady (output c) = true <-> ready (ci_layers (input c))).
Proof.
  unfold gradeExecutionCertificate in Hg. destruct (verifyExecutionCertificate c w) as [[v|e] w1] eqn:Hv; [|done].
  unfold mbind in Hg. cbn [result_bind] in Hg. injection Hg as <- <-.
  assert (Hok : rv_ok v = true) by (unfold gradeDecision in Hne; by destruct (rv_ok v)).
  destruct (reexec_ok _ _ _ _ _ _ _ Hv Hok) as (Hpv & out & t & Hp & Ct & Co).
  unfold certificatePolicy in Hp. injection Hp as <- <-.
  assert (E : normalize (certCore_val (output c)) = normalize (certCore_val (certificateCore (input c)))).
  { destruct t as [t|]; [by apply (canonicalize_inj _ _ t)|]. exfalso. unfold canonical_as, canonicalize in Ct.
    destruct (parse_stringify _ Hcore) as (t & Ht & _). congruence. }
  destruct (certCore_fields _ _ E) as (Hr & Hs & Hf).
  split_and!; [unfold gradeDecision; by rewrite Hok|done..|]. rewrite Hr. apply ready_iff.
Qed.

(** * Payments *)

Section PaymentProps.
Context `{ProofPlatform} (parseDate : string -> option Z).

Definition same_recipient (p : PaymentPolicy) (f : PaymentFacts) : Prop :=
  normalizeAddress (pp_recipient p) = normalizeAddress (pf_recipient f).

Definition amount_reached (p : PaymentPolicy) (f : PaymentFacts) : Prop :=
  forall floor, pp_minAmountWei p = Some floor ->
    exists paid min, js_BigInt (pf_amountWei f) = Some paid /\ js_BigInt floor = Some min /\ min <= paid.

Definition purpose_allowed (p : PaymentPolicy) (f : PaymentFacts) : Prop :=
  forall allowed, pp_purposes p = Some allowed -> exists x, pf_purpose f = Some x /\ x ∈ allowed.

Definition fresh_enough (p : PaymentPolicy) (f : PaymentFacts) (now : Z) : Prop :=
  forall maxAge, pp_maxAgeMs p = Some maxAge -> exists at_ recorded, pf_recordedAt f = Some at_ /\
    parseDate at_ = Some recorded /\ num_leb (num_of_Z (now - recorded)) maxAge = true.

(** A failed check names what fails. *)
Definition failing (p : PaymentPolicy) (f : PaymentFacts) (now : Z) (n : PolicyCheckName) : Prop :=
  match n with
  | check_recipient => ~ same_recipient p f
  | check_network => pf_network f ∉ pp_networks p
  | check_amount => ~ amount_reached p f
  | check_purpose => ~ purpose_allowed p f
  | check_freshness => ~ fresh_enough p f now
  end.

Definition failed_of (cs : list PolicyCheckResult) : list PolicyCheckName :=
  map pc_check (List.filter (fun c => negb (pc_passed c)) cs).

Lemma amount_failed p f : (check_amount ∈ failed_of (amount_check p f) <-> ~ amount_reached p f) /\
  forall n, n ∈ failed_of (amount_check p f) -> n = check_amount.
Proof.
  unfold amount_check, amount_reached, failed_of. destruct (pp_minAmountWei p) as [floor|].
  2: { cbn. split; [|by intros n ?%elem_of_nil]. split; [by intros ?%elem_of_nil|]. intros Hn. by destruct Hn. }
  destruct (js_BigInt (pf_amountWei f)) as [paid|] eqn:Hp, (js_BigInt floor) as [min|] eqn:Hm; cbn.
  2-4: split; [|by intros n ->%list_elem_of_singleton]; split; [|intros _; left];
    intros _ Hr; destruct (Hr floor eq_refl) as (? & ? & ? & ? & _); congruence.
  destruct (Z.leb_spec min paid); cbn; (split; [|try by intros n ?%elem_of_nil]).
  - split; [by intros ?%elem_of_nil|]. intros Hn. destruct Hn. intros ? [= <-]. eauto.
  - split; [|intros _; left]. intros _ Hr. destruct (Hr floor eq_refl) as (? & ? & ? & ? & ?).
    simplify_eq. lia.
  - by intros n ->%list_elem_of_singleton.
Qed.

Lemma purpose_failed p f : (check_purpose ∈ failed_of (purpose_check p f) <-> ~ purpose_allowed p f) /\
  forall n, n ∈ failed_of (purpose_check p f) -> n = check_purpose.
Proof.
  unfold purpose_check, purpose_allowed, failed_of. destruct (pp_purposes p) as [allowed|].
  2: { cbn. split; [|by intros n ?%elem_of_nil]. split; [by intros ?%elem_of_nil|]. intros Hn. by destruct Hn. }
  destruct (pf_purpose f) as [x|].
  - destruct (decide (x ∈ allowed)) as [Hx|Hx].
    + rewrite bool_decide_eq_true_2 by done. cbn. split; [|by intros n ?%elem_of_nil].
      split; [by intros ?%elem_of_nil|]. intros Hn. destruct Hn. intros ? [= <-]. eauto.
    + rewrite bool_decide_eq_false_2 by done. cbn. split; [|by intros n ->%list_elem_of_singleton].
      split; [|intros _; left]. intros _ Hr. destruct (Hr allowed eq_refl) as (? & [= <-] & ?). done.
  - cbn. split; [|by intros n ->%list_elem_of_singleton]. split; [|intros _; left].
    intros _ Hr. by destruct (Hr allowed eq_refl) as (? & ? & ?).
Qed.

Lemma freshness_failed p f now :
  (check_freshness ∈ failed_of (freshness_check parseDate p f now) <-> ~ fresh_enough p f now) /\
  forall n, n ∈ failed_of (freshness_check parseDate p f now) -> n = check_freshness.
Proof.
  unfold freshness_check, fresh_enough, failed_of. destruct (pp_maxAgeMs p) as [maxAge|].
  2: { cbn. split; [|by intros n ?%elem_of_nil]. split; [by intros ?%elem_of_nil|]. intros Hn. by destruct Hn. }
  destruct (pf_recordedAt f) as [at_|]; [destruct (parseDate at_) as [recorded|] eqn:Hd|]; cbn -[num_leb num_of_Z].
  - destruct (num_leb _ maxAge) eqn:Hl; cbn; (split; [|try by intros n ?%elem_of_nil]).
    + split; [by intros ?%elem_of_nil|]. intros Hn. destruct Hn. intros ? [= <-]. eauto.
    + split; [|intros _; left]. intros _ Hr. destruct (Hr maxAge eq_refl) as (? & ? & ? & ? & ?). simplify_eq; congruence.
    + by intros n ->%list_elem_of_singleton.
  - split; [|by intros n ->%list_elem_of_singleton]. split; [|intros _; left].
    intros _ Hr. destruct (Hr maxAge eq_refl) as (? & ? & ? & ? & ?). simplify_eq.
  - split; [|by intros n ->%list_elem_of_singleton]. split; [|intros _; left].
    intros _ Hr. by destruct (Hr maxAge eq_refl) as (? & ? & ? & ? & ?).
Qed.

Lemma amount_stable p f : ~ ~ amount_reached p f -> amount_reached p f.
Proof.
  intros Hnn floor Hm.
  destruct (js_BigInt (pf_amountWei f)) as [paid|] eqn:Hp, (js_BigInt floor) as [min|] eqn:Hf;
    [destruct (Z.le_gt_cases min paid); [by eauto|]|..]; exfalso; apply Hnn; intros Hr;
    destruct (Hr floor Hm) as (? & ? & ? & ? & ?); simplify_eq; lia.
Qed.

Lemma purpose_stable p f : ~ ~ purpose_allowed p f -> purpose_allowed p f.
Proof.
  intros Hnn allowed Hm. destruct (pf_purpose f) as [x|] eqn:Hx.
  - destruct (decide (x ∈ allowed)); [by eauto|]. exfalso. apply Hnn. intros Hr.
    destruct (Hr allowed Hm) as (? & ? & ?). by simplify_eq.
  - exfalso. apply Hnn. intros Hr. by destruct (Hr allowed Hm) as (? & ? & ?); simplify_eq.
Qed.

Lemma freshness_stable p f now : ~ ~ fresh_enough p f now -> fresh_enough p f now.
Proof.
  intros Hnn maxAge Hm. destruct (pf_recordedAt f) as [at_|] eqn:Ha.
  2: { exfalso. apply Hnn. intros Hr. by destruct (Hr maxAge Hm) as (? & ? & ? & _); simplify_eq. }
  destruct (parseDate at_) as [recorded|] eqn:Hd.
  2: { exfalso. apply Hnn. intros Hr. by destruct (Hr maxAge Hm) as (? & ? & ? & ? & _); simplify_eq. }
  destruct (num_leb (num_of_Z (now - recorded)) maxAge) eqn:Hl; [by eauto 6|]. exfalso. apply Hnn. intros Hr.
  destruct (Hr maxAge Hm) as (? & ? & ? & ? & ?). simplify_eq. congruence.
Qed.

Lemma failed_app l l' n : n ∈ failed_of (l ++ l') <-> n ∈ failed_of l \/ n ∈ failed_of l'.
Proof. unfold failed_of. by rewrite List.filter_app, map_app, elem_of_app. Qed.

Lemma failed_singleton n b d m : m ∈ failed_of [mkCheck n b d] <-> m = n /\ b = false.
Proof.
  unfold failed_of. destruct b; cbn.
  - split; [by intros ?%elem_of_nil|by intros [_ ?]].
  - rewrite list_elem_of_singleton. tauto.
Qed.

Lemma failed_iff p f now n :
  n ∈ failed_of (recipient_check p f :: network_check p f ::
       amount_check p f ++ purpose_check p f ++ freshness_check parseDate p f now) <-> failing p f now n.
Proof.
  change (recipient_check p f :: network_check p f :: ?l) with ([recipient_check p f] ++ [network_check p f] ++ l).
  rewrite !failed_app. unfold recipient_check, network_check. cbv zeta. rewrite !failed_singleton.
  destruct (amount_failed p f) as [A1 A2], (purpose_failed p f) as [B1 B2], (freshness_failed p f now) as [C1 C2].
  destruct n; cbn [failing]; rewrite ?bool_decide_eq_false; try rewrite String.eqb_neq.
  - split; [|by left]. intros [[_ ?]|[[? _]|[?%A2|[?%B2|?%C2]]]]; try done.
  - split; [|by right; left]. intros [[? _]|[[_ ?]|[?%A2|[?%B2|?%C2]]]]; try done.
  - rewrite A1. split; [|by auto]. intros [[? _]|[[? _]|[?|[?%B2|?%C2]]]]; done.
  - rewrite B1. split; [|by auto]. intros [[? _]|[[? _]|[?%A2|[?|?%C2]]]]; done.
  - rewrite C1. split; [|by auto 6]. intros [[? _]|[[? _]|[?%A2|[?%B2|?]]]]; done.
Qed.

Lemma payment_no_bigint p f :
  forallb (fun kv => no_bigint kv.2) [("policy", policy_val p); ("facts", facts_val f)] = true.
Proof.
  assert (Hs : forall l : list string, forallb no_bigint (map JStr l) = true) by (by induction l).
  assert (Hp : forall l : list PaymentPurpose, forallb no_bigint (map (fun x => JStr (purpose_name x)) l) = true)
    by (by induction l).
  cbn. rewrite Hs. destruct (pp_minAmountWei p), (pp_purposes p), (pp_maxAgeMs p); cbn; rewrite ?Hp; cbn;
    by destruct (pf_txHash f), (pf_token f), (pf_purpose f), (pf_recordedAt f).
Qed.

(** A payment is authorized exactly when it goes to the recipient, on an
    allowed network, reaches the floor (as whole numbers, never rounded), has an
    allowed purpose and is fresh enough, where the policy asks for it; the verdict
    lists exactly the checks that fail, a missing or unreadable fact failing, and
    is always given. *)
Theorem payment_decides (p : PaymentPolicy) (f : PaymentFacts) (now now' : Z) :
  exists v, evaluatePaymentAuthorization parseDate p f now now' = Ok v /\
    (forall n, n ∈ failed v <-> failing p f now n) /\
    (authorized v = true <-> same_recipient p f /\ pf_network f ∈ pp_networks p /\ amount_reached p f /\
       purpose_allowed p f /\ fresh_enough p f now).
Proof.
  unfold evaluatePaymentAuthorization, computePaymentAuthorizationCommitment, canonicalizeJcs, canonicalize.
  pose proof (stringify_total _ (normalize_no_bigint (JObj _) (payment_no_bigint p f))) as Ht.
  destruct (stringify _) as [t|]; [|done]. unfold mbind. cbn [result_bind]. eexists. split; [done|].
  cbn [failed authorized]. pose proof (failed_iff p f now) as Hf. unfold failed_of in Hf.
  set (bad := map pc_check _) in *. split; [exact Hf|].
  rewrite Nat.eqb_eq, length_zero_iff_nil. split.
  - intros E. rewrite E in Hf.
    assert (Hno : forall n, ~ failing p f now n) by (intros n Hn%Hf; by apply elem_of_nil in Hn).
    pose proof (Hno check_recipient) as H1. pose proof (Hno check_network) as H2.
    pose proof (Hno check_amount) as H3. pose proof (Hno check_purpose) as H4.
    pose proof (Hno check_freshness) as H5. cbn [failing] in *.
    split_and!; [by (unfold same_recipient in *; apply dec_stable)|by apply dec_stable|by apply amount_stable|by apply purpose_stable|
      by apply freshness_stable].
  - intros (R & N & A & B & C). destruct bad as [|n bad']; [done|]. exfalso.
    assert (Hn : failing p f now n) by (apply Hf; left). destruct n; cbn [failing] in Hn; auto.
Qed.
End PaymentProps.

(** * Concrete decisions *)

(** A policy that allows reading, and the number of times it was asked. *)
Definition read_core (call : ActionGateCall) : GateDecisionCore :=
  if (toolName call =? "read")%string then mkGateCore true "reads are allowed"
  else mkGateCore false "only reads are allowed".
Definition read_policy : Policy ActionGateCall GateDecisionCore nat := fun call n => (Ok (read_core call), S n).
(** One that changes its mind, and one that throws. *)
Definition moody_policy : Policy ActionGateCall GateDecisionCore nat :=
  fun call n => (Ok (mkGateCore (Nat.even n) "mood"), S n).
Definition broken_policy : Policy ActionGateCall GateDecisionCore nat :=
  fun call n => (Throw (JsError "Error" "no model"), S n).

Definition demo_tool (name : string) : ActionGateCall := {| toolName := name; args := JObj []; budgetUsed := num_zero |}.
Definition demo_gate (adr : string) (policy : Policy ActionGateCall GateDecisionCore nat) (name : string) :=
  @provableActionGate demoPlatform nat "read-only" "v1" adr policy (demo_tool name) 0%nat.

Example gate_examples :
  allowed (demo_gate "ADR-1" read_policy "read").1 = true /\
  gate_reason (demo_gate "ADR-1" read_policy "write").1 = "only reads are allowed" /\
  gate_reason (demo_gate " " read_policy "read").1 =
    "provable gate error (fail-closed): decideProvably requires a non-empty adrEco (ADR-traceability, property 3)" /\
  gate_reason (demo_gate "ADR-1" moody_policy "read").1 =
    "provable gate error (fail-closed): policy is non-deterministic (property 1 violated)" /\
  gate_reason (demo_gate "ADR-1" broken_policy "read").1 = "provable gate error (fail-closed): no model".
Proof. vm_compute. done. Qed.

Lemma provable_gate_exact_witness :
  allowed (demo_gate "ADR-1" moody_policy "read").1 = false /\
  exists c w1, read_policy (demo_tool "read") 0%nat = (Ok c, w1) /\ gd_allowed c = true.
Proof.
  split; [by vm_compute|].
  destruct (@provable_gate_exact demoPlatform nat "read-only" "v1" "ADR-1" read_policy (demo_tool "read") 0%nat 2%nat
    (demo_gate "ADR-1" read_policy "read").1 (surjective_pairing _)) as [[H _] _].
  destruct H as (_ & c & w1 & H1 & _ & H2); [by vm_compute|]. eauto.
Defined.

Definition demo_decision (name : string) : GovernedDecision ActionGateCall GateDecisionCore :=
  match (@decideProvably demoPlatform _ _ nat gateCore_val "read-only" "v1" read_policy (demo_tool name) "ADR-1" 0%nat).1 with
  | Ok g => g
  | Throw _ => mkGoverned (mkClaim "" "" (demo_tool "") (mkGateCore false "")) (mkAudit "" "")
  end.

Lemma decision_reexecutes_witness :
  output (claim (demo_decision "write")) = mkGateCore false "only reads are allowed" /\
  forall n, exists w1, @verifyDecisionReexecution _ _ nat gateCore_val (claim (demo_decision "write"))
    read_policy "v1" n = (Ok (mkReexec true (Some (mkGateCore false "only reads are allowed")) None), w1).
Proof.
  split; [by vm_compute|].
  assert (Hc : computes read_policy read_core) by (intros call n; by eexists).
  assert (Hg : @decideProvably demoPlatform _ _ nat gateCore_val "read-only" "v1" read_policy (demo_tool "write")
    "ADR-1" 0%nat = (Ok (demo_decision "write"), 2%nat)) by (by vm_compute).
  destruct (@decision_reexecutes demoPlatform _ _ nat gateCore_val "read-only" "v1" "ADR-1" read_policy read_core
    (demo_tool "write") 0%nat 2%nat (demo_decision "write") Hc Hg) as (_ & _ & _ & H).
  intros n. destruct (H n) as (w1 & Hw & _). exists w1. exact Hw.
Defined.

Definition demo_layers : list CertificateLayer :=
  [mkLayer "robustness" true true [("trials", JNum (num_of_Z 64))];
   mkLayer "decision_a3" true true []; mkLayer "regret_bound" false false []].
Definition demo_input : CompositeCertificateInput := mkCertInput "planner-7" None demo_layers.
Definition demo_certificate : DecisionClaim CompositeCertificateInput CompositeCertificateCore :=
  mkClaim EXECUTION_CERT_POLICY_ID EXECUTION_CERT_POLICY_VERSION demo_input (certificateCore demo_input).
Definition demo_grade (c : DecisionClaim CompositeCertificateInput CompositeCertificateCore) : result DecisionGrade :=
  (@gradeExecutionCertificate unit c true tt).1.

(** A certificate that claims to be ready with other layers, or with an altered
    layer, is rejected. *)
Example certificate_examples :
  demo_grade demo_certificate = Ok A3 /\
  productionReady (certificateCore (mkCertInput "p" None [mkLayer "x" false true []])) = false /\
  demo_grade (mkClaim EXECUTION_CERT_POLICY_ID EXECUTION_CERT_POLICY_VERSION
    (mkCertInput "planner-7" None [mkLayer "x" true false []]) (certificateCore demo_input)) = Ok A0 /\
  demo_grade (mkClaim EXECUTION_CERT_POLICY_ID "v2" demo_input (certificateCore demo_input)) = Ok A0.
Proof. vm_compute. done. Qed.

Lemma execution_certificate_sound_witness :
  demo_grade demo_certificate = Ok A3 /\
  (productionReady (certificateCore demo_input) = true <-> ready demo_layers).
Proof.
  assert (Hg : demo_grade demo_certificate = Ok A3) by (by vm_compute). split; [exact Hg|].
  assert (Hg' : @gradeExecutionCertificate unit demo_certificate true tt = (Ok A3, tt)) by (by vm_compute).
  apply (@execution_certificate_sound unit demo_certificate true tt tt A3 Hg'); [done|by vm_compute..].
Defined.

(** Any policy identifier passes: only the version is compared. *)
Example policy_id_not_compared :
  demo_grade (mkClaim "another-policy" EXECUTION_CERT_POLICY_VERSION demo_input (certificateCore demo_input)) = Ok A3.
Proof. vm_compute. reflexivity. Qed.

(** Two layers with one name keep the order of the caller, and so does the core. *)
Example equal_names_keep_order :
  let a := mkLayer "robustness" true true [] in
  let b := mkLayer "robustness" true true [("trials", JNull)] in
  certificateCore (mkCertInput "p" None [a; b]) <> certificateCore (mkCertInput "p" None [b; a]).
Proof. vm_compute. congruence. Qed.

Definition demo_payment (floor amount : string) (maxAge : Z) (at_ : string) : bool :=
  match @evaluatePaymentAuthorization demoPlatform (fun s => if (s =? "soon")%string then Some 2000 else Some 500)
    (mkPolicy "vauban:marketplace:v1" num_one "0xAB" ["sepolia"] (Some floor) None (Some (num_of_Z maxAge)))
    (mkFacts None "0Xab" "sepolia" amount None (Some tip) (Some at_)) 1000 1001 with
  | Ok v => authorized v
  | Throw _ => false
  end.

Example payment_examples :
  demo_payment "10" "0x0a" 500 "then" = true /\ demo_payment "10" "9" 500 "then" = false /\
  demo_payment "10" "10.0" 500 "then" = false /\ demo_payment "10" "10" 499 "then" = false /\
  demo_payment "9007199254740993" "9007199254740992" 500 "then" = false.
Proof. vm_compute. done. Qed.

(** A payment recorded in the future is fresh, at whatever age. *)
Example future_payment_is_fresh : demo_payment "10" "10" 0 "soon" = true.
Proof. vm_compute. reflexivity. Qed.

(** A floor that is no text at all is a floor of nothing. *)
Example blank_floor : demo_payment " " "0" 500 "then" = true /\ demo_payment "" "" 500 "then" = true.
Proof. vm_compute. done. Qed.
