(* ===== verification/TraceViews.v ===== *)
(** What a trace stores and what is read back from it: payload policies
    ([src/trace/policy.ts]), the strict detector of personal data
    ([src/trace/strict-pii-detector.ts]), rewinding a conversation
    ([src/trace/rewind.ts]) and the read and fork views over the steps
    ([src/trace/run-state.ts]).

    The keyed hash and the key store are the platform's: parameters here.
    Payloads are finite trees; [Object.entries] of a date is empty, of a byte
    array its indices. *)

From S2P Require Import Prelude JsNum JsValue Canonical Chain Regex Json NumText TokenBase.
From S2P Require Import TokenProps.
From Stdlib Require Import Ascii SpecFloat Znumtheory Zpow_facts.

(** * Payload policies *)

(** [PIIDetector]. *)
Definition PIIDetector : Type := jsval -> bool.

(** The key store is a function of the key's name, which may reject. *)
Inductive PayloadPolicy :=
| IncludePolicy
| RedactPolicy (piiFields : list string) (piiDetector : option PIIDetector)
| HmacPolicy (getKey : string -> result (list Z)) (keyId : string)
| HashOnlyPolicy.

Record PayloadHashResult := mkPayload {
  ph_hash : string; ph_policy : StepPolicy; ph_storedValue : jsval; ph_hmac : option string
}.

(** [result[k] = v] on a fresh object: [__proto__] sets no field. *)
Definition assign_key (k : string) (v : jsval) (o : list (string * jsval)) : list (string * jsval) :=
  if (k =? "__proto__")%string then o else om_set k v o.

Definition REDACTED : jsval := JStr "[REDACTED]".

(** [piiFields.has(k)], else [piiDetector?.(v)]. *)
Definition hidden (piiFields : list string) (piiDetector : option PIIDetector) (kv : string * jsval) : bool :=
  bool_decide (kv.1 ∈ piiFields) || match piiDetector with Some d => d kv.2 | None => false end.

Section Redaction.
Context (piiFields : list string) (piiDetector : option PIIDetector).

(** The loop over the entries, [f] the recursive call. *)
Definition redact_fields (f : jsval -> jsval)
    : list (string * jsval) -> list (string * jsval) -> list (string * jsval) :=
  fix go (obj l : list (string * jsval)) :=
    match l with
    | [] => obj
    | (k, v) :: l' =>
        go (assign_key k (if hidden piiFields piiDetector (k, v) then REDACTED else f v) obj) l'
    end.

Fixpoint deepRedact (value : jsval) : jsval :=
  match value with
  | JArr items => JArr (map deepRedact items)
  | JObj fields => JObj (redact_fields deepRedact [] fields)
  | JDate _ => JObj []
  | JBytes bytes => JObj (redact_fields (fun v => v) [] (bytes_fields 0 bytes))
  | _ => value
  end.
End Redaction.

(** The keyed hash of Web Crypto, in hexadecimal. *)
Class KeyedHash := hmacSha256 : string -> list Z -> string.

Section Policy.
Context `{Hashing, KeyedHash}.

Definition payloadHash (value : jsval) (policy : PayloadPolicy) : result PayloadHashResult :=
  text ← canonical value;
  match policy with
  | IncludePolicy => Ok (mkPayload (sha256 text) p_include value None)
  | RedactPolicy piiFields piiDetector =>
      let redacted := deepRedact piiFields piiDetector value in
      redactedCanonical ← canonical redacted;
      Ok (mkPayload (sha256 redactedCanonical) p_redact redacted None)
  | HmacPolicy getKey keyId =>
      key ← getKey keyId;
      Ok (mkPayload (sha256 text) p_hmac JUndef (Some (hmacSha256 text key)))
  | HashOnlyPolicy => Ok (mkPayload (sha256 text) p_hash_only JUndef None)
  end.
End Policy.

Inductive Env := dev | prod.

Definition PII_FIELDS_REQUIRED : jserror :=
  JsError "Error"
    ("PRODUCTION_PII_FIELDS_REQUIRED: production policy requires non-empty piiFields. " ++
     "Use { kind: 'include' } explicitly to opt out (will log a WARNING at boot).")%string.

Definition defaultPolicy (env : Env) (piiFields : option (list string)) : result PayloadPolicy :=
  match env with
  | prod =>
      match piiFields with
      | None | Some [] => Throw PII_FIELDS_REQUIRED
      | Some l => Ok (RedactPolicy l None)
      end
  | dev => Ok IncludePolicy
  end.

(** * The strict detector *)

Definition EMAIL_REGEX : regex :=
  re "^[a-zA-Z0-9!#$%&'*+/=?^_`{|}~-]+(?:\.[a-zA-Z0-9!#$%&'*+/=?^_`{|}~-]+)*@[a-zA-Z0-9](?:[a-zA-Z0-9-]{0,61}[a-zA-Z0-9])?(?:\.[a-zA-Z0-9](?:[a-zA-Z0-9-]{0,61}[a-zA-Z0-9])?)*\.[a-zA-Z]{2,}$".

Definition isEmail (value : string) : bool := re_test EMAIL_REGEX (js_trim value).

Definition IBAN_COUNTRY_CODES : list string :=
  ["AD"; "AE"; "AL"; "AT"; "AZ"; "BA"; "BE"; "BG"; "BH"; "BR"; "BY"; "CH"; "CR"; "CY"; "CZ"; "DE"; "DK";
   "DO"; "EE"; "EG"; "ES"; "FI"; "FK"; "FO"; "FR"; "GB"; "GE"; "GI"; "GL"; "GR"; "GT"; "HR"; "HU"; "IE";
   "IL"; "IQ"; "IS"; "IT"; "JO"; "KW"; "KZ"; "LB"; "LC"; "LI"; "LT"; "LU"; "LV"; "LY"; "MC"; "MD"; "ME";
   "MK"; "MN"; "MR"; "MT"; "MU"; "NI"; "NL"; "NO"; "PK"; "PL"; "PS"; "PT"; "QA"; "RO"; "RS"; "RU"; "SA";
   "SC"; "SD"; "SE"; "SI"; "SK"; "SM"; "SO"; "ST"; "SV"; "TL"; "TN"; "TR"; "UA"; "VA"; "VG"; "XK"; "YE"].

Fixpoint strip_spaces (s : string) : string :=
  match s with
  | EmptyString => EmptyString
  | String c s' => if is_js_space c then strip_spaces s' else String c (strip_spaces s')
  end.

(** [s.toUpperCase()]: the sharp s becomes two letters; the two code units whose
    upper case is beyond 255 are no letter of an account number either way. *)
Fixpoint upper (s : string) : string :=
  match s with
  | EmptyString => EmptyString
  | String c s' =>
      if (code c =? 223)%nat then String "S" (String "S" (upper s')) else String (to_upper c) (upper s')
  end.

Definition normaliseIban (raw : string) : string := upper (strip_spaces raw).

(** [Number.parseInt(s, 10)] of a text that may start with digits. *)
Definition parse_int (s : string) : option Z :=
  let '(v, n, _) := read_digits s 0 in match n with O => None | S _ => Some v end.

(** [None] is [NaN]. *)
Definition str_of_num (x : option Z) : string := match x with Some z => str_of_Z z | None => "NaN" end.

Fixpoint mod97_from (fuel : nat) (remainder : option Z) (s : string) : option Z :=
  match fuel with
  | O => remainder
  | S fuel' =>
      match s with
      | EmptyString => remainder
      | _ =>
          let chunk := (str_of_num remainder ++ str_take 9 s)%string in
          mod97_from fuel' ((fun v => Z.rem v 97) <$> parse_int chunk) (str_drop 9 s)
      end
  end.

(** Nine digits at a time: at most one round per character. *)
Definition mod97 (numericStr : string) : option Z :=
  mod97_from (String.length numericStr) (Some 0) numericStr.

Fixpoint ibanToNumericString (iban : string) : string :=
  match iban with
  | EmptyString => EmptyString
  | String c s' =>
      ((if is_upper c then str_of_Z (Z.of_nat (code c) - 55) else String c EmptyString) ++
       ibanToNumericString s')%string
  end.

Definition IBAN_REGEX : regex := re "^[A-Z]{2}[0-9]{2}[A-Z0-9]+$".

Definition isIban (value : string) : bool :=
  let normalised := normaliseIban value in
  if ((String.length normalised <? 15) || (34 <? String.length normalised))%nat then false
  else if negb (bool_decide (str_take 2 normalised ∈ IBAN_COUNTRY_CODES)) then false
  else if negb (re_test IBAN_REGEX normalised) then false
  else
    let rearranged := (str_drop 4 normalised ++ str_take 4 normalised)%string in
    bool_decide (mod97 (ibanToNumericString rearranged) = Some 1).

Definition STRICT_PII_DETECTOR (value : jsval) : bool :=
  match value with
  | JStr s =>
      let trimmed := js_trim s in
      if (trimmed =? "")%string then false else isEmail trimmed || isIban trimmed
  | _ => false
  end.

(** * Rewinding *)

Inductive Role := r_user | r_assistant | r_tool.
Record ReplayMessage := mkReplay { rm_role : Role; rm_content : option string; rm_toolName : option string }.
Record ReconstructOptions := mkReconstruct { ro_toStep : num; ro_originalUserMessage : option string }.

Definition TraceReplayError (msg : string) : jserror := JsError "TraceReplayError" msg.

(** [slice(0, x)] for a number: truncated, [NaN] and what is below one read as
    zero. *)
Definition slice_to {A} (x : num) (l : list A) : list A :=
  match x with
  | S754_nan | S754_zero _ | S754_infinity true | S754_finite true _ _ => []
  | S754_infinity false => l
  | S754_finite false _ _ => take (Z.to_nat (num_floor x)) l
  end.

Section Rewind.
Context `{Printing}.

(** [None] is [undefined], the text of a function. *)
Definition stringifyStored (stored : jsval) : option string :=
  match stored with
  | JStr s => Some s
  | JUndef | JNull => Some EmptyString
  | _ => match stringify stored with Ok o => o | Throw _ => Some (js_String stored) end
  end.

(** The policies that keep no payload. *)
Definition unstored (p : StepPolicy) : bool := match p with p_hmac | p_hash_only => true | _ => false end.

Definition cannot_rewind (s : TraceStep) : jserror :=
  TraceReplayError ("cannot rewind: step " ++ num_to_string (st_index s) ++ " has policy " ++
    quoted (policy_str (st_policy s)) ++ " — payloads are not stored. Rewind requires " ++
    quoted "include" ++ " or " ++ quoted "redact" ++ ".")%string.

Definition preflight (s : TraceStep) : result unit := throw_if (unstored (st_policy s)) (cannot_rewind s).

(** What one step adds to the conversation. *)
Definition replay_message (s : TraceStep) : option ReplayMessage :=
  match st_type s with
  | llm_call => Some (mkReplay r_assistant (stringifyStored (st_storedOutput s)) None)
  | tool_call =>
      Some (mkReplay r_tool (stringifyStored (st_storedOutput s))
        (match st_toolName s with Some EmptyString => None | o => o end))
  | _ => None
  end.

(** The task, unless blank. *)
Definition leadingUserMsg (o : ReconstructOptions) : list ReplayMessage :=
  match js_trim <$> ro_originalUserMessage o with
  | None | Some EmptyString => []
  | Some t => [mkReplay r_user (Some t) None]
  end.

Definition reconstructInitialMessages (trace : Trace) (opts : ReconstructOptions) : result (list ReplayMessage) :=
  let toStep := ro_toStep opts in
  if negb (num_is_integer toStep) || num_ltb toStep num_zero then
    Throw (TraceReplayError ("invalid toStep " ++ num_to_string toStep ++ ": must be a non-negative integer"))
  else if num_gtb toStep (num_of_Z (Z.of_nat (length (tr_steps trace)))) then
    Throw (TraceReplayError ("invalid toStep " ++ num_to_string toStep ++ ": trace has only " ++
      str_of_nat (length (tr_steps trace)) ++ " steps"))
  else if num_eqb toStep num_zero then Ok (leadingUserMsg opts)
  else
    let prefix := slice_to toStep (tr_steps trace) in
    _ ← for_each preflight prefix;
    Ok (leadingUserMsg opts ++ omap replay_message prefix).
End Rewind.

(** * Views over the steps *)

(** The view holds its own copy of the steps; a missing bound reads it whole. *)
Record RunState := inMemoryRunState { frozen : list TraceStep }.

Definition readPrefix (v : RunState) (toStep : option num) : list TraceStep :=
  match toStep with Some x => slice_to x (frozen v) | None => frozen v end.
Definition forkAt (v : RunState) (toStep : num) : list TraceStep := slice_to toStep (frozen v).
Definition headHash (v : RunState) : string := 
  default EmptyString (st_stepHash <$> frozen v !! pred (length (frozen v))).

Definition PHASE_SHORT (p : Phase) : string :=
  match p with
  | observe => "OBS" | orient => "ORI" | decide => "DEC" | act => "ACT"
  | feedback => "FB" | guard => "GRD" | hitl => "HITL"
  end.

Definition node_line (s : TraceStep) : string :=
  ("  s" ++ num_to_string (st_index s) ++ "[" ++
   quoted ("#" ++ num_to_string (st_index s) ++ " " ++ PHASE_SHORT (st_phase s) ++ ":" ++ type_str (st_type s)) ++
   "]")%string.

Fixpoint edge_lines (steps : list TraceStep) : list string :=
  match steps with
  | s :: (s' :: _) as rest =>
      ("  s" ++ num_to_string (st_index s) ++ " --> s" ++ num_to_string (st_index s'))%string :: edge_lines rest
  | _ => []
  end.

Definition traceToMermaid (steps : list TraceStep) : string :=
  join (String "010" EmptyString) (["flowchart TD"] ++ map node_line steps ++ edge_lines steps).

Fixpoint findBreakpoint (steps : list TraceStep) (predicate : TraceStep -> bool) : option num :=
  match steps with
  | [] => None
  | s :: rest => if predicate s then Some (st_index s) else findBreakpoint rest predicate
  end.

Definition injectAt (steps : list TraceStep) (toStep : num) (injected : TraceStep) : list TraceStep :=
  slice_to toStep steps ++ [injected].

(** * What redaction forgets *)

(** Two payloads that differ only inside hidden fields. *)
Inductive indistinguishable (pii : list string) (det : option PIIDetector) : jsval -> jsval -> Prop :=
| ind_refl v : indistinguishable pii det v v
| ind_arr l1 l2 : Forall2 (indistinguishable pii det) l1 l2 -> indistinguishable pii det (JArr l1) (JArr l2)
| ind_obj l1 l2 :
    Forall2 (fun a b => a.1 = b.1 /\ hidden pii det a = hidden pii det b /\
                        (hidden pii det a = false -> indistinguishable pii det a.2 b.2)) l1 l2 ->
    indistinguishable pii det (JObj l1) (JObj l2).

Section Indistinguishable.
Context (pii : list string) (det : option PIIDetector).

Lemma indistinguishable_sym v w : indistinguishable pii det v w -> indistinguishable pii det w v.
Proof.
  revert w. induction v as [| | | | | | | |l IH|l IH|] using jsval_ind_nested; intros w H;
    inversion H as [|? l2 F|? l2 F]; subst; try constructor; clear H.
  - revert l2 F. induction IH; intros l2 F; inversion F; subst; constructor; auto.
  - revert l2 F. induction IH as [|a l Ha _ IHl]; intros l2 F; inversion F as [|? b ? ? (E & Eh & Hi)]; subst;
      constructor; [|by apply IHl].
    split; [done|split; [done|]]. intros Hb. apply Ha, Hi. congruence.
Qed.

Lemma indistinguishable_trans u v w :
  indistinguishable pii det u v -> indistinguishable pii det v w -> indistinguishable pii det u w.
Proof.
  revert v w. induction u as [| | | | | | | |l IH|l IH|] using jsval_ind_nested; intros v w H H';
    inversion H as [|? l2 F|? l2 F]; subst; try done; clear H;
    inversion H' as [|? l3 F'|? l3 F']; subst; try (by constructor); clear H'; constructor.
  - revert l2 l3 F F'. induction IH; intros l2 l3 F F'; inversion F; subst; inversion F'; subst; constructor; eauto.
  - revert l2 l3 F F'. induction IH as [|a l Ha _ IHl]; intros l2 l3 F F';
      inversion F as [|? b ? ? (E & Eh & Hi)]; subst; inversion F' as [|? c ? ? (E' & Eh' & Hi')]; subst;
      constructor; [|by eapply IHl].
    split; [congruence|split; [congruence|]]. intros Hh. eapply Ha; [by apply Hi|]. apply Hi'. congruence.
Qed.

#[local] Instance indistinguishable_equiv : Equivalence (indistinguishable pii det).
Proof.
  split; [intros v; constructor|intros v w; apply indistinguishable_sym|intros u v w; apply indistinguishable_trans].
Qed.

(** ** The loop over the fields *)

Definition redact_field (f : jsval -> jsval) (kv : string * jsval) : string * jsval :=
  (kv.1, if hidden pii det kv then REDACTED else f kv.2).

Lemma redact_fields_fold f obj l :
  redact_fields pii det f obj l =
  fold_left (fun o kv => assign_key kv.1 kv.2 o) (map (redact_field f) l) obj.
Proof. revert obj. induction l as [|[k v] l IH]; intros obj; [done|]. apply IH. Qed.

Lemma assign_fresh l obj :
  NoDup (obj ++ l).*1 -> "__proto__" ∉ l.*1 -> fold_left (fun o kv => assign_key kv.1 kv.2 o) l obj = obj ++ l.
Proof.
  revert obj. induction l as [|[k v] l IH]; intros obj Hn Hp; [by rewrite app_nil_r|].
  cbn [fold_left fst snd]. unfold assign_key at 2. rewrite (proj2 (String.eqb_neq _ _)) by set_solver.
  rewrite fmap_app in Hn. pose proof Hn as (Hn1 & Hd & _)%NoDup_app.
  rewrite om_set_fresh by (intros Hk; apply (Hd k Hk); left).
  rewrite IH; [by rewrite <- app_assoc|rewrite <- app_assoc; by rewrite fmap_app|set_solver].
Qed.

Lemma redact_keys f l : (map (redact_field f) l).*1 = l.*1.
Proof. induction l as [|kv l IH]; [done|]. cbn. by rewrite IH. Qed.

Lemma redact_fields_map f l :
  NoDup l.*1 -> "__proto__" ∉ l.*1 -> redact_fields pii det f [] l = map (redact_field f) l.
Proof. intros Hn Hp. rewrite redact_fields_fold. apply assign_fresh; rewrite ?app_nil_l, redact_keys; done. Qed.

Lemma deepRedact_indistinguishable v w :
  indistinguishable pii det v w -> deepRedact pii det v = deepRedact pii det w.
Proof.
  revert w. induction v as [| | | | | | | |l IH|l IH|] using jsval_ind_nested; intros w H;
    inversion H as [|? l2 F|? l2 F]; subst; try done; clear H; cbn [deepRedact]; f_equal.
  - revert l2 F. induction IH as [|a l Ha _ IHl]; intros l2 F; inversion F; subst; [done|].
    cbn [map]. f_equal; auto.
  - rewrite !redact_fields_fold. f_equal.
    revert l2 F. induction IH as [|a l Ha _ IHl]; intros l2 F; inversion F as [|? b ? ? (E & Eh & Hi)]; subst; [done|].
    cbn [map]. f_equal; [|auto]. unfold redact_field. rewrite E, <- Eh.
    destruct (hidden pii det a); [done|]. f_equal. by apply Ha, Hi.
Qed.
End Indistinguishable.

(** Payloads whose copy keeps every field: no date, no bytes, no key twice, none
    named [__proto__]. *)
Fixpoint plain (v : jsval) : bool :=
  match v with
  | JDate _ | JBytes _ => false
  | JArr l => forallb plain l
  | JObj l => bool_decide (NoDup l.*1) && bool_decide ("__proto__" ∉ l.*1) && forallb (fun kv => plain kv.2) l
  | _ => true
  end.

Lemma forallb_Forall {A} (f : A -> bool) l : forallb f l = true <-> Forall (fun x => f x = true) l.
Proof. induction l as [|x l IH]; cbn; [done|]. by rewrite andb_true_iff, Forall_cons, IH. Qed.

Lemma plain_obj l : plain (JObj l) = true ->
  NoDup l.*1 /\ "__proto__" ∉ l.*1 /\ Forall (fun kv => plain kv.2 = true) l.
Proof.
  cbn [plain]. rewrite !andb_true_iff, !bool_decide_eq_true, forallb_Forall. tauto.
Qed.

Lemma plain_arr l : plain (JArr l) = true -> Forall (fun v => plain v = true) l.
Proof. by rewrite <- forallb_Forall. Qed.

(** By name only: the redacted copy determines everything outside the named
    fields. *)
Lemma deepRedact_inj pii v w :
  plain v = true -> plain w = true -> deepRedact pii None v = deepRedact pii None w ->
  indistinguishable pii None v w.
Proof.
  revert w. induction v as [| | | | | | | |l IH|l IH|] using jsval_ind_nested; intros w Hv Hw E;
    destruct w as [| | | | | | | |l'|l'|]; cbn [deepRedact] in E; try discriminate Hv; try discriminate Hw; try discriminate E;
    try (injection E as E; subst; apply ind_refl);
    try apply ind_refl.
  - apply plain_arr in Hv, Hw. constructor. injection E as E. revert l' Hw E.
    induction IH as [|a l Ha _ IHl]; intros [|b l'] Hw E; try done.
    apply Forall_cons in Hv as [Hva Hv], Hw as [Hwb Hw]. injection E as E1 E2. constructor; auto.
  - apply plain_obj in Hv as (Hn & Hp & Hv), Hw as (Hn' & Hp' & Hw). constructor. injection E as E.
    rewrite !redact_fields_map in E by done. clear Hn Hp Hn' Hp'. revert l' Hw E.
    induction IH as [|a l Ha _ IHl]; intros [|b l'] Hw E; try done.
    apply Forall_cons in Hv as [Hva Hv], Hw as [Hwb Hw]. cbn [map] in E. injection E as Ek Ev E.
    constructor; [|by apply IHl].
    assert (Eh : hidden pii None a = hidden pii None b) by (unfold hidden; by rewrite Ek).
    split; [done|split; [done|]]. intros Hh. rewrite <- Eh, Hh in Ev. by apply Ha.
Qed.

(** What a payload has outside own fields named [__proto__], at any depth. *)
Fixpoint without_proto (v : jsval) : jsval :=
  match v with
  | JArr l => JArr (map without_proto l)
  | JObj l => JObj ((fix go (l : list (string * jsval)) :=
      match l with
      | [] => []
      | (k, x) :: l' => if (k =? "__proto__")%string then go l' else (k, without_proto x) :: go l'
      end) l)
  | _ => v
  end.

Definition drop_proto (l : list (string * jsval)) : list (string * jsval) :=
  flat_map (fun kv => if (kv.1 =? "__proto__")%string then [] else [(kv.1, without_proto kv.2)]) l.

Lemma without_proto_obj l : without_proto (JObj l) = JObj (drop_proto l).
Proof.
  cbn [without_proto]. f_equal. induction l as [|[k x] l IH]; [done|].
  cbn [drop_proto flat_map fst snd]. destruct (k =? "__proto__")%string; [exact IH|].
  cbn [app]. f_equal. exact IH.
Qed.

(** No date, no byte array, no key twice. *)
Fixpoint keyed_once (v : jsval) : bool :=
  match v with
  | JDate _ | JBytes _ => false
  | JArr l => forallb keyed_once l
  | JObj l => bool_decide (NoDup l.*1) && forallb (fun kv => keyed_once kv.2) l
  | _ => true
  end.

(** The copy has no field of that name either. *)
Lemma deepRedact_without_proto pii v :
  deepRedact pii None (without_proto v) = deepRedact pii None v.
Proof.
  induction v as [| | | | | | | |l IH|l IH|] using jsval_ind_nested; try done.
  - cbn [without_proto deepRedact]. f_equal. induction IH as [|a l Ha _ IHl]; [done|].
    cbn [map]. by f_equal.
  - rewrite without_proto_obj. cbn [deepRedact]. f_equal. rewrite !redact_fields_fold.
    generalize (@nil (string * jsval)) as obj. induction IH as [|[k x] l Ha _ IHl]; intros obj; [done|].
    cbn [drop_proto flat_map fst snd map fold_left]. unfold assign_key at 3.
    cbn [redact_field fst snd]. destruct (k =? "__proto__")%string eqn:Ek; [apply IHl|].
    cbn [app map fold_left]. fold (drop_proto l). rewrite IHl. f_equal. unfold assign_key, redact_field.
    cbn [fst snd]. rewrite Ek. unfold hidden. cbn [fst snd] in *. by rewrite Ha.
Qed.

Lemma drop_proto_keys l k : k ∈ (drop_proto l).*1 -> k ∈ l.*1 /\ k <> "__proto__".
Proof.
  induction l as [|[j x] l IH]; cbn [drop_proto flat_map fst snd]; [set_solver|].
  destruct (String.eqb_spec j "__proto__") as [->|Hj].
  - intros Hk. destruct (IH Hk). split; [by right|done].
  - cbn [app]. intros [->|Hk]%elem_of_cons; [split; [left|done]|].
    destruct (IH Hk). split; [by right|done].
Qed.

Lemma drop_proto_nodup l : NoDup l.*1 -> NoDup (drop_proto l).*1.
Proof.
  induction l as [|[j x] l IH]; cbn [drop_proto flat_map fst snd]; [done|]. intros [Hj Hn]%NoDup_cons.
  destruct (j =? "__proto__")%string; [by apply IH|]. cbn [app]. apply NoDup_cons. split; [|by apply IH].
  intros [Hin _]%drop_proto_keys. by apply Hj.
Qed.

Lemma plain_without_proto v : keyed_once v = true -> plain (without_proto v) = true.
Proof.
  induction v as [| | | | | | | |l IH|l IH|] using jsval_ind_nested; try done; cbn [keyed_once].
  - intros H. cbn [without_proto plain]. rewrite forallb_Forall in *.
    induction IH as [|a l Ha _ IHl]; [done|]. apply Forall_cons in H as [Ha' H]. constructor; auto.
  - rewrite andb_true_iff, bool_decide_eq_true, forallb_Forall. intros [Hn Hv].
    rewrite without_proto_obj. cbn [plain].
    rewrite !andb_true_iff, !bool_decide_eq_true, forallb_Forall. split; [split|].
    + by apply drop_proto_nodup.
    + by intros [_ ?]%drop_proto_keys.
    + clear Hn. induction IH as [|[k x] l Ha _ IHl]; [done|]. apply Forall_cons in Hv as [Hx Hv].
      cbn [drop_proto flat_map fst snd]. destruct (k =? "__proto__")%string; [by apply IHl|].
      constructor; [by apply Ha|by apply IHl].
Qed.

(** C29: Redaction by field names forgets the values of the named fields, at any
    depth, whatever is in an own field named __proto__, and nothing else: two
    payloads without dates, byte arrays or keys written twice have the same
    redacted copy exactly when, their own fields named __proto__ dropped at every
    depth, they differ only inside fields of the given names. *)
Theorem redaction_exact pii v w :
  keyed_once v = true -> keyed_once w = true ->
  deepRedact pii None v = deepRedact pii None w <->
  indistinguishable pii None (without_proto v) (without_proto w).
Proof.
  intros Hv Hw. rewrite <- (deepRedact_without_proto pii v), <- (deepRedact_without_proto pii w).
  split; [|apply deepRedact_indistinguishable].
  by apply deepRedact_inj; apply plain_without_proto.
Qed.

Lemma redaction_exact_witness :
  keyed_once (JObj [("a", JNull)]) = true /\
  deepRedact ["ssn"] None (JArr [JObj [("ssn", JStr "1"); ("b", JNull)]]) =
  deepRedact ["ssn"] None (JArr [JObj [("ssn", JBool true); ("__proto__", JObj []); ("b", JNull)]]).
Proof.
  split; [reflexivity|]. apply redaction_exact; [reflexivity|reflexivity|].
  apply ind_arr. constructor; [|constructor]. apply ind_obj.
  constructor; [|constructor; [|constructor]]; (split; [done|split; [done|]]); [done|intros _; apply ind_refl].
Defined.

(** ** Policies *)

(** Byte arrays hold bytes. *)
Fixpoint byte_sized (v : jsval) : bool :=
  match v with
  | JBytes l => forallb (fun b => (0 <=? b) && (b <? 256)) l
  | JArr l => forallb byte_sized l
  | JObj l => forallb (fun kv => byte_sized kv.2) l
  | _ => true
  end.

Lemma om_set_forallb (P : jsval -> bool) k v o :
  P v = true -> forallb (fun kv => P kv.2) o = true -> forallb (fun kv : string * jsval => P kv.2) (om_set k v o) = true.
Proof.
  intros Hv. induction o as [|[k' v'] o IH]; cbn; [by rewrite Hv|]. rewrite andb_true_iff. intros [H1 H2].
  case_decide; cbn; [by rewrite Hv, H2|]. by rewrite H1, IH.
Qed.

Lemma redact_fields_forallb (P : jsval -> bool) pii det f obj l :
  P REDACTED = true -> Forall (fun kv => P (f kv.2) = true) l ->
  forallb (fun kv => P kv.2) obj = true ->
  forallb (fun kv : string * jsval => P kv.2) (redact_fields pii det f obj l) = true.
Proof.
  intros HR. revert obj. induction l as [|[k v] l IH]; intros obj Hl Ho; [done|].
  apply Forall_cons in Hl as [Hv Hl]. cbn [redact_fields]. apply IH; [done|]. unfold assign_key.
  destruct (k =? "__proto__")%string; [done|]. apply om_set_forallb; [|done]. by destruct (hidden pii det (k, v)).
Qed.

Lemma bytes_serializable i l :
  forallb (fun b => (0 <=? b) && (b <? 256)) l = true ->
  Forall (fun kv => serializable kv.2 = true) (bytes_fields i l).
Proof.
  revert i. induction l as [|b l IH]; intros i; cbn [bytes_fields forallb]; [by constructor|].
  rewrite !andb_true_iff. intros [[H1 H2] H]. apply Z.leb_le in H1. apply Z.ltb_lt in H2.
  constructor; [|by apply IH]. cbn [snd serializable].
  destruct b as [|p|]; [done| |lia]. rewrite num_of_Z_pos; [done|]. unfold prec. lia.
Qed.

(** A redacted payload serializes when the payload does. *)
Lemma deepRedact_serializable pii det v :
  byte_sized v = true -> serializable v = true -> serializable (deepRedact pii det v) = true.
Proof.
  induction v as [| | |x| | |ms|bs|l IH|l IH|] using jsval_ind_nested; cbn [byte_sized deepRedact serializable];
    intros Hb Hs; try done.
  - apply redact_fields_forallb; [done|by apply bytes_serializable|done].
  - rewrite forallb_Forall in *. induction IH as [|a l Ha _ IHl]; [constructor|].
    apply Forall_cons in Hb as [Hb1 Hb], Hs as [Hs1 Hs]. constructor; auto.
  - apply redact_fields_forallb; [done| |done]. rewrite forallb_Forall in Hb, Hs.
    induction IH as [|a l Ha _ IHl]; [constructor|].
    apply Forall_cons in Hb as [Hb1 Hb], Hs as [Hs1 Hs]. constructor; auto.
Qed.

Section PolicyProps.
Context `{Hashing, KeyedHash}.

Lemma canonical_ok v : is_ok (canonical v) = serializable v.
Proof.
  unfold canonical, canonicalize. rewrite <- (preprocess_is_ok v []). unfold mbind, result_bind.
  by destruct (preprocess [] v).
Qed.

Lemma canonical_total v : serializable v = true -> exists t, canonical v = Ok t.
Proof. rewrite <- canonical_ok. destruct (canonical v) as [t|]; [by exists t|done]. Qed.

(** What the policy needs beside the payload. *)
Definition policy_ready (p : PayloadPolicy) : bool :=
  match p with HmacPolicy getKey keyId => is_ok (getKey keyId) | _ => true end.

(** What the policy hashes and what it stores. *)
Definition hashed (p : PayloadPolicy) (v : jsval) : jsval :=
  match p with RedactPolicy l d => deepRedact l d v | _ => v end.
Definition stored (p : PayloadPolicy) (v : jsval) : jsval :=
  match p with IncludePolicy | RedactPolicy _ _ => hashed p v | _ => JUndef end.
Definition kind (p : PayloadPolicy) : StepPolicy :=
  match p with
  | IncludePolicy => p_include | RedactPolicy _ _ => p_redact | HmacPolicy _ _ => p_hmac | HashOnlyPolicy => p_hash_only
  end.

(** C30: What a payload policy records is well-formed: a payload is recorded exactly
    when it serializes and, for the keyed policy, the key is there; the record then
    names its policy, hashes what the policy lets through (the redacted copy, or
    the payload), stores that under [include] and [redact] and nothing under the
    other two, and carries a keyed hash under [hmac] alone. *)
Theorem payload_wellformed v p : byte_sized v = true ->
  match payloadHash v p with
  | Ok r =>
      serializable v = true /\ policy_ready p = true /\ ph_policy r = kind p /\
      ph_storedValue r = stored p v /\ hash_canonical (hashed p v) = Ok (ph_hash r) /\
      (is_Some (ph_hmac r) <-> kind p = p_hmac)
  | Throw _ => serializable v = false \/ policy_ready p = false
  end.
Proof.
  intros Hb. unfold payloadHash, hash_canonical.
  destruct (serializable v) eqn:Hs.
  2:{ rewrite <- canonical_ok in Hs. destruct (canonical v); [done|by left]. }
  destruct (canonical_total v Hs) as [t Et]. rewrite Et. unfold mbind, result_bind.
  destruct p as [|l d|g k|]; cbn [hashed stored kind policy_ready].
  - rewrite Et. split_and!; try done; split; [by intros []|done].
  - destruct (canonical_total _ (deepRedact_serializable l d v Hb Hs)) as [t' ->].
    split_and!; try done; split; [by intros []|done].
  - destruct (g k) as [key|]; [|by right]. rewrite Et. cbn. split_and!; try done.
  - rewrite Et. split_and!; try done; split; [by intros []|done].
Qed.

(** Under redaction, what is recorded does not depend on the hidden fields. *)
Lemma redact_private l d v w :
  serializable v = true -> serializable w = true -> indistinguishable l d v w ->
  payloadHash v (RedactPolicy l d) = payloadHash w (RedactPolicy l d).
Proof.
  intros Hv Hw Hi. unfold payloadHash. destruct (canonical_total v Hv) as [? ->], (canonical_total w Hw) as [? ->].
  unfold mbind, result_bind. by rewrite (deepRedact_indistinguishable _ _ _ _ Hi).
Qed.

(** The default policy is fail-closed in production: it refuses to exist
    without field names, and otherwise what a step records of a payload (hash,
    stored value, keyed hash) is the same whatever the named fields hold, at any
    depth. *)
Theorem production_private piiFields :
  match defaultPolicy prod piiFields with
  | Throw e => e = PII_FIELDS_REQUIRED /\ (piiFields = None \/ piiFields = Some [])
  | Ok p => exists l, piiFields = Some l /\ l <> [] /\ kind p = p_redact /\
      forall v w, serializable v = true -> serializable w = true -> indistinguishable l None v w ->
        payloadHash v p = payloadHash w p
  end.
Proof.
  destruct piiFields as [[|x l]|]; cbn [defaultPolicy]; [by auto| |by auto].
  exists (x :: l). split_and!; try done. intros v w. apply redact_private.
Qed.
End PolicyProps.

(** ** What the detector does not see *)

(** Strings inside an array are kept whatever the detector says of them. *)
Lemma detector_skips_arrays pii k (l : list string) :
  k ∉ pii -> k <> "__proto__" ->
  deepRedact pii (Some STRICT_PII_DETECTOR) (JObj [(k, JArr (map JStr l))]) = JObj [(k, JArr (map JStr l))].
Proof.
  intros Hk Hp. cbn [deepRedact]. rewrite redact_fields_map; [|apply NoDup_singleton|set_solver].
  cbn [map]. unfold redact_field, hidden. cbn [fst snd]. rewrite bool_decide_eq_false_2 by done. cbn [orb STRICT_PII_DETECTOR].
  do 3 f_equal. cbn [deepRedact]. f_equal. rewrite map_map. by apply map_ext.
Qed.

(** Dates are erased from what is stored and hashed. *)
Lemma redaction_erases_dates pii det k a b :
  hidden pii det (k, JDate a) = hidden pii det (k, JDate b) ->
  deepRedact pii det (JObj [(k, JDate a)]) = deepRedact pii det (JObj [(k, JDate b)]).
Proof. intros E. cbn [deepRedact redact_fields]. by rewrite E. Qed.

Lemma payload_wellformed_witness :
  byte_sized (JObj [("ssn", JBytes [1])]) = true /\
  match @payloadHash (Build_Hashing (fun _ => EmptyString) (fun s => s)) (fun t _ => t) (JObj [("ssn", JBytes [1])])
    (HmacPolicy (fun _ => Ok [7]) "k") with
  | Ok r => ph_storedValue r = JUndef
  | Throw _ => False
  end.
Proof.
  split; [reflexivity|].
  pose proof (@payload_wellformed (Build_Hashing (fun _ => EmptyString) (fun s => s)) (fun t _ => t)
    (JObj [("ssn", JBytes [1])]) (HmacPolicy (fun _ => Ok [7]) "k") eq_refl) as H.
  destruct (payloadHash _ _) as [r|e]; [apply H|by destruct H].
Defined.

Lemma production_private_witness :
  serializable JNull = true /\
  match defaultPolicy prod (Some ["ssn"]) with
  | Ok p => @payloadHash (Build_Hashing (fun _ => EmptyString) (fun s => s)) (fun t _ => t) (JObj [("ssn", JNull)]) p =
            @payloadHash (Build_Hashing (fun _ => EmptyString) (fun s => s)) (fun t _ => t) (JObj [("ssn", JBool true)]) p
  | Throw _ => False
  end.
Proof.
  split; [reflexivity|].
  destruct (@production_private (Build_Hashing (fun _ => EmptyString) (fun s => s)) (fun t _ => t) (Some ["ssn"]))
    as (l & E & _ & _ & P).
  injection E as <-. apply P; [reflexivity|reflexivity|]. apply ind_obj.
  constructor; [|constructor]. by split.
Defined.

(** * Rewinding *)

(** A prefix, whatever the bound. *)
Lemma slice_to_prefix {A} x (l : list A) : exists n, slice_to x l = take n l.
Proof.
  unfold slice_to. destruct x as [|[]| |[]]; try (by exists O); [|by eexists].
  exists (length l). by rewrite firstn_all.
Qed.

Lemma slice_to_take {A} (n : nat) (l : list A) : safe_int (Z.of_nat n) ->
  slice_to (num_of_Z (Z.of_nat n)) l = take n l.
Proof.
  intros Hs. pose proof (num_floor_int _ Hs) as Hf. unfold slice_to. destruct n as [|n]; [done|].
  destruct Hs as [_ Hs]. change (Z.of_nat (S n)) with (Z.pos (Pos.of_succ_nat n)) in *.
  rewrite num_of_Z_pos in * by done. rewrite Hf. f_equal. lia.
Qed.

Section RewindProps.
Context `{Printing}.

Lemma for_each_first {A} (f : A -> result unit) l :
  match for_each f l with
  | Ok _ => Forall (fun x => f x = Ok tt) l
  | Throw e => exists done x rest, l = done ++ x :: rest /\ Forall (fun x => f x = Ok tt) done /\ f x = Throw e
  end.
Proof.
  induction l as [|x l IH]; cbn; [by constructor|]. destruct (f x) as [[]|e] eqn:E.
  - destruct (for_each f l) as [|e']; [by constructor|].
    destruct IH as (d & y & rest & -> & Hd & Hy). exists (x :: d), y, rest. split_and!; [done|by constructor|done].
  - exists [], x, l. by split_and!.
Qed.

(** Rewinding to step [n] succeeds exactly when the trace has [n] steps and
    each of them stored its payload; the conversation is then the task (unless
    blank) followed by one message per model or tool step, in order.  Otherwise
    the refusal is about the bound or names the first step without a payload.
    No other number is a bound. *)
Theorem rewind_decides trace task :
  (forall n : nat, safe_int (Z.of_nat n) -> safe_int (Z.of_nat (length (tr_steps trace))) ->
    match reconstructInitialMessages trace (mkReconstruct (num_of_Z (Z.of_nat n)) task) with
    | Ok messages =>
        (n <= length (tr_steps trace))%nat /\
        Forall (fun s => unstored (st_policy s) = false) (take n (tr_steps trace)) /\
        messages = leadingUserMsg (mkReconstruct (num_of_Z (Z.of_nat n)) task) ++
                   omap replay_message (take n (tr_steps trace))
    | Throw e =>
        (length (tr_steps trace) < n)%nat \/
        exists kept s rest, take n (tr_steps trace) = kept ++ s :: rest /\
          Forall (fun s => unstored (st_policy s) = false) kept /\
          unstored (st_policy s) = true /\ e = cannot_rewind s
    end) /\
  (forall x, num_is_integer x = false \/ num_ltb x num_zero = true ->
    exists e, reconstructInitialMessages trace (mkReconstruct x task) = Throw e).
Proof.
  split.
  - intros n Hn Hl. unfold reconstructInitialMessages. cbn [ro_toStep].
    rewrite num_of_Z_integer by done. change num_zero with (num_of_Z 0).
    assert (H0 : safe_int 0) by (split; [done|reflexivity]).
    rewrite num_ltb_int by done. unfold num_gtb. fold (num_ltb (num_of_Z (Z.of_nat (length (tr_steps trace)))) (num_of_Z (Z.of_nat n))).
    rewrite num_ltb_int by done. rewrite (proj2 (Z.ltb_ge _ _)) by lia. cbn [negb orb].
    destruct (Z.ltb_spec (Z.of_nat (length (tr_steps trace))) (Z.of_nat n)) as [Hlt|Hge]; [left; lia|].
    destruct (num_eqb (num_of_Z (Z.of_nat n)) (num_of_Z 0)) eqn:E0.
    { apply (num_eqb_safe _ _ _ Hn H0) in E0; [|done]. destruct n; [|done].
      split; [lia|]. split; [constructor|]. by rewrite app_nil_r. }
    rewrite slice_to_take by done. pose proof (for_each_first preflight (take n (tr_steps trace))) as Hf.
    assert (Hp : forall s, preflight s = Ok tt <-> unstored (st_policy s) = false)
      by (intros s; unfold preflight; destruct (unstored (st_policy s)); by split).
    destruct (for_each preflight _) as [[]|e]; unfold mbind, result_bind.
    + split; [lia|]. split; [|done]. eapply Forall_impl; [exact Hf|]. intros s. apply Hp.
    + right. destruct Hf as (kept & s & rest & E & Hk & He). exists kept, s, rest. split; [done|].
      split; [eapply Forall_impl; [exact Hk|]; intros; by apply Hp|]. unfold preflight in He.
      destruct (unstored (st_policy s)); [|done]. by injection He as <-.
  - intros x Hx. unfold reconstructInitialMessages. cbn [ro_toStep].
    assert (E : negb (num_is_integer x) || num_ltb x num_zero = true)
      by (destruct Hx as [->| ->]; [done|apply orb_true_r]).
    rewrite E. by eexists.
Qed.
End RewindProps.

(** * Rewinding what policies recorded *)

Section RewindPrivacy.
Context `{Hashing, KeyedHash, Printing}.

(** A step whose output was recorded under a policy. *)
Definition recorded (p : PayloadPolicy) (v : jsval) (s : TraceStep) : Prop :=
  exists r, payloadHash v p = Ok r /\ st_outputHash s = ph_hash r /\ st_storedOutput s = ph_storedValue r /\
            st_policy s = ph_policy r /\ st_outputOriginalHmac s = ph_hmac r.

(** Two runs that record, step for step, outputs differing in hidden fields only. *)
Definition same_run (l : list string) (d : option PIIDetector) (s s' : TraceStep) : Prop :=
  st_index s = st_index s' /\ st_type s = st_type s' /\ st_toolName s = st_toolName s' /\
  exists v w, serializable v = true /\ serializable w = true /\ indistinguishable l d v w /\
    recorded (RedactPolicy l d) v s /\ recorded (RedactPolicy l d) w s'.

Lemma same_run_view l d s s' : same_run l d s s' ->
  replay_message s = replay_message s' /\ preflight s = Ok tt /\ preflight s' = Ok tt.
Proof.
  intros (_ & Et & En & v & w & Hv & Hw & Hi & (r & Er & _ & Eo & Ep & _) & (r' & Er' & _ & Eo' & Ep' & _)).
  rewrite (redact_private l d v w Hv Hw Hi), Er' in Er. injection Er as ->.
  assert (Ek : ph_policy r = p_redact).
  { unfold payloadHash in Er'. apply result_bind_ok in Er' as (t & _ & Er').
    apply result_bind_ok in Er' as (t' & _ & Er'). by injection Er' as <-. }
  unfold replay_message, preflight. rewrite Et, En, Eo, Eo', Ep, Ep', Ek. done.
Qed.

(** C28: What a rewound conversation contains does not depend on the redacted
    fields: two traces whose steps recorded, under redaction, outputs differing
    only in hidden fields give the same messages at every bound. *)
Theorem rewind_private l d t t' opts :
  Forall2 (same_run l d) (tr_steps t) (tr_steps t') ->
  reconstructInitialMessages t opts = reconstructInitialMessages t' opts.
Proof.
  intros F. unfold reconstructInitialMessages. rewrite (Forall2_length _ _ _ F).
  destruct (_ || _); [done|]. destruct (num_gtb _ _); [done|]. destruct (num_eqb _ _); [done|].
  assert (Fs : Forall2 (same_run l d) (slice_to (ro_toStep opts) (tr_steps t)) (slice_to (ro_toStep opts) (tr_steps t'))).
  { unfold slice_to. destruct (ro_toStep opts) as [|[]| |[]]; try constructor; [done|by apply Forall2_take]. }
  revert Fs. generalize (slice_to (ro_toStep opts) (tr_steps t)), (slice_to (ro_toStep opts) (tr_steps t')).
  intros p p' Fs.
  assert (E : for_each preflight p = Ok tt /\ for_each preflight p' = Ok tt /\
              omap replay_message p = omap replay_message p').
  { induction Fs as [|s s' p p' Hs _ (IH1 & IH2 & IH3)]; [done|].
    destruct (same_run_view _ _ _ _ Hs) as (Em & E1 & E2). cbn. rewrite E1, E2, Em, IH3. done. }
  destruct E as (-> & -> & ->). done.
Qed.
End RewindPrivacy.

Definition toy_hashing : Hashing := Build_Hashing (fun _ => "text") (fun s => s).
Definition toy_printing : Printing := Build_Printing (fun _ => "date") "function".

(** A model step whose output was stored redacted. *)
Definition toy_step (v : jsval) : TraceStep :=
  {| st_index := num_zero; st_runId := "r"; st_phase := decide; st_type := llm_call; st_timestamp := num_zero;
     st_durationMs := num_zero; st_inputHash := "i"; st_inputOriginalHmac := None; st_storedInput := JUndef;
     st_outputHash := "text"; st_outputOriginalHmac := None; st_storedOutput := deepRedact ["ssn"] None v;
     st_policy := p_redact; st_tokens := None; st_costUsd := None; st_model := None; st_toolName := None;
     st_guardName := None; st_prevStepHash := GENESIS_PREV_HASH; st_stepHash := "text" |}.

Definition toy_trace (v : jsval) : Trace :=
  {| tr_runId := "r"; tr_agentId := "a"; tr_agentVersion := "1"; tr_steps := [toy_step v];
     tr_totalSteps := num_one; tr_config := JNull; tr_configHash := "c"; tr_receiptStatus := None |}.

Lemma rewind_private_witness :
  safe_int 1 /\
  @reconstructInitialMessages toy_printing (toy_trace (JObj [("ssn", JStr "1")])) (mkReconstruct num_one None) =
  @reconstructInitialMessages toy_printing (toy_trace (JObj [("ssn", JStr "2")])) (mkReconstruct num_one None).
Proof.
  split; [by split|]. apply (@rewind_private toy_hashing (fun t _ => t) toy_printing ["ssn"] None).
  constructor; [|constructor]. split_and!; try reflexivity.
  exists (JObj [("ssn", JStr "1")]), (JObj [("ssn", JStr "2")]). split_and!; try reflexivity.
  - apply ind_obj. constructor; [|constructor]. by split.
  - eexists. split_and!; reflexivity.
  - eexists. split_and!; reflexivity.
Defined.

(** * Forks *)

Section Forks.
Context `{Hashing}.

Definition with_steps (t : Trace) (steps : list TraceStep) : Trace :=
  {| tr_runId := tr_runId t; tr_agentId := tr_agentId t; tr_agentVersion := tr_agentVersion t; tr_steps := steps;
     tr_totalSteps := tr_totalSteps t; tr_config := tr_config t; tr_configHash := tr_configHash t;
     tr_receiptStatus := tr_receiptStatus t |}.

(** The hash the next step must name. *)
Definition head_or_genesis (steps : list TraceStep) : string :=
  match steps with [] => GENESIS_PREV_HASH | _ => headHash (inMemoryRunState steps) end.

Lemma step_ok_prefix t steps more i s : (i <= length steps)%nat ->
  step_ok (with_steps t (steps ++ more)) i s <-> step_ok (with_steps t steps) i s.
Proof.
  intros Hi. unfold step_ok. cbn [tr_runId tr_steps with_steps]. unfold prev_of. destruct i as [|i]; [done|].
  by rewrite lookup_app_l by lia.
Qed.

Lemma steps_linked_app t steps more : steps_linked (with_steps t (steps ++ more)) -> steps_linked (with_steps t steps).
Proof.
  intros Hl i s Hi. pose proof (lookup_lt_Some _ _ _ Hi) as Hlt. cbn [tr_steps with_steps] in *.
  apply (step_ok_prefix t steps more); [lia|]. apply Hl. cbn. by rewrite lookup_app_l.
Qed.

Lemma prev_of_length steps : prev_of steps (length steps) = Some (head_or_genesis steps).
Proof.
  destruct steps as [|s l]; [done|]. unfold prev_of, head_or_genesis, headHash. cbn [length frozen pred].
  destruct (lookup_lt_is_Some_2 (s :: l) (length l)) as [x Hx]; [cbn; lia|]. by rewrite Hx.
Qed.

(** C31: Forking never breaks the chain: every fork of a linked run is a prefix of
    it whose steps are still numbered, owned, hashed and linked.  Injecting a step
    into it gives a linked run exactly when the injected step is numbered with
    the fork's length, belongs to the run, hashes to what it carries and names
    the fork's head, which for an empty fork is the genesis hash and not the empty
    [headHash]. *)
Theorem fork_keeps_chain t x injected :
  steps_linked t ->
  let fork := forkAt (inMemoryRunState (tr_steps t)) x in
  (exists rest, tr_steps t = fork ++ rest) /\
  steps_linked (with_steps t fork) /\
  injectAt (tr_steps t) x injected = fork ++ [injected] /\
  (steps_linked (with_steps t (injectAt (tr_steps t) x injected)) <->
   num_eqb (st_index injected) (num_of_Z (Z.of_nat (length fork))) = true /\
   st_runId injected = tr_runId t /\
   computeStepHash injected (tr_runId t) = Ok (st_stepHash injected) /\
   st_prevStepHash injected = head_or_genesis fork).
Proof.
  intros Hl fork.
  assert (Hp : exists rest, tr_steps t = fork ++ rest).
  { unfold fork, forkAt. cbn [frozen]. destruct (slice_to_prefix x (tr_steps t)) as [n ->].
    exists (drop n (tr_steps t)). by rewrite firstn_skipn. }
  destruct Hp as [rest Hr].
  assert (Hf : steps_linked (with_steps t fork)).
  { apply (steps_linked_app t fork rest). rewrite <- Hr. by destruct t. }
  split; [by exists rest|split; [done|split; [done|]]].
  change (injectAt (tr_steps t) x injected) with (fork ++ [injected]). clearbody fork.
  assert (Hs : step_ok (with_steps t fork) (length fork) injected <->
    num_eqb (st_index injected) (num_of_Z (Z.of_nat (length fork))) = true /\
    st_runId injected = tr_runId t /\ computeStepHash injected (tr_runId t) = Ok (st_stepHash injected) /\
    st_prevStepHash injected = head_or_genesis fork).
  { unfold step_ok. cbn [tr_steps tr_runId with_steps]. rewrite prev_of_length.
    split; intros (? & ? & ? & E); (split_and!; [done..|]); congruence. }
  rewrite <- Hs. split.
  - intros Hi. apply (step_ok_prefix t fork [injected]); [lia|]. apply Hi. cbn.
    rewrite lookup_app_r by lia. by rewrite Nat.sub_diag.
  - intros Hi i s Hlk. cbn [tr_steps with_steps] in Hlk. apply lookup_app_Some in Hlk as [Hlk|[Hge Hlk]].
    + pose proof (lookup_lt_Some _ _ _ Hlk). apply step_ok_prefix; [lia|]. by apply Hf.
    + destruct (i - length fork)%nat as [|n] eqn:En; [|by destruct n].
      injection Hlk as <-. replace i with (length fork) by lia. apply step_ok_prefix; [lia|done].
Qed.

(** The pause point is the number of the first step the predicate holds of. *)
Lemma findBreakpoint_first steps p :
  match findBreakpoint steps p with
  | Some i => exists done s rest, steps = done ++ s :: rest /\ i = st_index s /\ p s = true /\
                Forall (fun s => p s = false) done
  | None => Forall (fun s => p s = false) steps
  end.
Proof.
  induction steps as [|s steps IH]; cbn; [constructor|]. destruct (p s) eqn:E.
  - exists [], s, steps. by split_and!.
  - destruct (findBreakpoint steps p) as [i|]; [|by constructor].
    destruct IH as (d & u & rest & -> & -> & Hu & Hd). exists (s :: d), u, rest. split_and!; try done. by constructor.
Qed.
End Forks.

Lemma fork_keeps_chain_witness :
  safe_int 1 /\
  @steps_linked toy_hashing (with_steps (toy_trace JNull) (forkAt (inMemoryRunState (tr_steps (toy_trace JNull))) num_one)).
Proof.
  split; [by split|].
  destruct (@fork_keeps_chain toy_hashing (toy_trace JNull) num_one (toy_step JNull)) as (_ & H & _); [|exact H].
  intros [|i] s Hi; [|done]. injection Hi as <-. by split_and!.
Defined.

(** * Account numbers *)

(** Texts all of whose characters satisfy a predicate. *)
Fixpoint all_chars (p : ascii -> bool) (s : string) : bool :=
  match s with EmptyString => true | String c s' => p c && all_chars p s' end.

Lemma all_chars_app p a b : all_chars p (a ++ b) = all_chars p a && all_chars p b.
Proof.
  induction a as [|c a IH]; [done|]. change (p c && all_chars p (a ++ b) = p c && all_chars p a && all_chars p b).
  by rewrite IH, andb_assoc.
Qed.

Lemma all_chars_impl (p q : ascii -> bool) s :
  (forall c, p c = true -> q c = true) -> all_chars p s = true -> all_chars q s = true.
Proof.
  intros Hpq. induction s as [|c s IH]; [done|]. cbn. rewrite !andb_true_iff. intros [H1 H2]. auto.
Qed.

(** The characters an expression can consume. *)
Fixpoint alphabet (r : regex) (c : ascii) : bool :=
  match r with
  | RClass p => p c
  | RSeq a b | RAlt a b => alphabet a c || alphabet b c
  | RRep _ _ _ r | RGroup _ r => alphabet r c
  | _ => false
  end.

Definition consumes {A} (p : ascii -> bool) (f : mstate -> (mstate -> option A) -> option A) : Prop :=
  forall s k a, f s k = Some a ->
    exists s' t, m_rest s = (t ++ m_rest s')%string /\ all_chars p t = true /\ k s' = Some a.

Lemma consumes_none {A} p (k : mstate -> option A) s a : k s = Some a ->
  exists s' t, m_rest s = (t ++ m_rest s')%string /\ all_chars p t = true /\ k s' = Some a.
Proof. intros H. by exists s, EmptyString. Qed.

Lemma consumes_weaken {A} p q (f : mstate -> (mstate -> option A) -> option A) :
  (forall c, p c = true -> q c = true) -> consumes p f -> consumes q f.
Proof.
  intros Hpq Hf s k a (s' & t & E & Ht & Hk)%Hf. exists s', t. split_and!; [done| |done].
  by apply (all_chars_impl p).
Qed.

Lemma consumes_seq {A} p (f g : mstate -> (mstate -> option A) -> option A) :
  consumes p f -> consumes p g -> consumes p (fun s k => f s (fun s' => g s' k)).
Proof.
  intros Hf Hg s k a (s1 & t1 & E1 & H1 & (s2 & t2 & E2 & H2 & Hk)%Hg)%Hf.
  exists s2, (t1 ++ t2)%string. split_and!; [by rewrite E1, E2, str_app_assoc| |done].
  by rewrite all_chars_app, H1, H2.
Qed.

Lemma repeat_match_consumes {A} p body n : consumes p body ->
  forall min max greedy, consumes p (fun s (k : mstate -> option A) => repeat_match body k n min max greedy s).
Proof.
  intros Hb. induction n as [|n IH]; intros min max greedy s k a H; [done|].
  cbn [repeat_match] in H. cbv zeta in H.
  destruct (match max with Some O => true | _ => false end); [by apply consumes_none|].
  assert (Hagain : forall v, body s (fun s' =>
      if (min =? 0)%nat && (String.length (m_rest s') =? String.length (m_rest s))%nat then None
      else repeat_match body k n (pred min) (pred_opt max) greedy s') = Some v ->
    exists s' t, m_rest s = (t ++ m_rest s')%string /\ all_chars p t = true /\ k s' = Some v).
  { intros v (s1 & t1 & E1 & H1 & Hk)%Hb. destruct (_ && _); [done|].
    apply IH in Hk as (s2 & t2 & E2 & H2 & Hk). exists s2, (t1 ++ t2)%string.
    split_and!; [by rewrite E1, E2, str_app_assoc| |done]. by rewrite all_chars_app, H1, H2. }
  destruct (0 <? min)%nat; [exact (Hagain _ H)|].
  destruct greedy; apply or_else_some in H as [H|H]; eauto using @consumes_none.
Qed.

Lemma rmatch_consumes {A} (r : regex) : consumes (alphabet r) (@rmatch A r).
Proof.
  induction r as [|p|a IHa b IHb|a IHa b IHb|min max g r IH|i r IH| |r IH| |]; intros s k v H; cbn [rmatch] in H.
  - by apply consumes_none.
  - destruct (m_rest s) as [|c rest] eqn:E; [done|]. destruct (p c) eqn:Hp; [|done].
    exists (mkM (Some c) rest (m_caps s)), (String c EmptyString). split_and!; [done| |done]. cbn. by rewrite Hp.
  - assert (Ha : consumes (alphabet (RSeq a b)) (@rmatch A a))
      by (eapply consumes_weaken; [|exact IHa]; intros c Hc; cbn; by rewrite Hc).
    assert (Hb : consumes (alphabet (RSeq a b)) (@rmatch A b))
      by (eapply consumes_weaken; [|exact IHb]; intros c Hc; cbn; by rewrite Hc, orb_true_r).
    exact (consumes_seq _ _ _ Ha Hb s k v H).
  - apply or_else_some in H as [(s' & t & E & Ht & Hk)%IHa|(s' & t & E & Ht & Hk)%IHb];
      exists s', t; (split_and!; [done| |done]); eapply all_chars_impl; try exact Ht;
      intros c Hc; cbn; rewrite Hc; [done|apply orb_true_r].
  - exact (repeat_match_consumes _ _ _ IH _ _ _ s k v H).
  - apply IH in H as (s' & t & E & Ht & Hk). exists (mkM (m_prev s') (m_rest s') (om_set i (Regex.consumed s s') (m_caps s'))), t. by split_and!.
  - destruct (xorb _ _); [|done]. by apply consumes_none.
  - destruct (rmatch r s _); [done|]. by apply consumes_none.
  - destruct (m_prev s); [done|]. by apply consumes_none.
  - destruct (m_rest s) eqn:E; [|done]. rewrite <- E. by apply consumes_none.
Qed.

(** Expressions that end with [$]. *)
Fixpoint closed (r : regex) : bool :=
  match r with RSeq REnd REmpty => true | RSeq _ b => closed b | _ => false end.

Lemma closed_consumes {A} r s (k : mstate -> option A) a : closed r = true -> rmatch r s k = Some a ->
  all_chars (alphabet r) (m_rest s) = true.
Proof.
  revert s a. induction r as [| |r1 IH1 r2 IH2| | | | | | |]; intros s a Hc H; try done. cbn [rmatch] in H.
  pose proof H as (s' & t & E & Ht & Hk)%rmatch_consumes. rewrite E, all_chars_app. apply andb_true_iff. split.
  { eapply all_chars_impl; [|exact Ht]. intros c Hp. cbn. by rewrite Hp. }
  assert (Hd : (r1 = REnd /\ r2 = REmpty) \/ closed r2 = true).
  { destruct r1; try (by right). destruct r2; try (by right); by left. }
  destruct Hd as [[-> ->]|Hd].
  - cbn [rmatch] in H. destruct (m_rest s) as [|c rest] eqn:Es; [|done]. by destruct t, (m_rest s').
  - eapply all_chars_impl; [|exact (IH2 _ _ Hd Hk)]. intros c Hp. cbn. by rewrite Hp, orb_true_r.
Qed.

(** An expression anchored at both ends reads the whole text. *)
Lemma anchored_alphabet r s :
  closed r = true -> re_test (RSeq RStart r) s = true -> all_chars (alphabet r) s = true.
Proof.
  intros Hc H. unfold re_test, exec in H.
  assert (Hno : forall s c, exec_from (RSeq RStart r) (Some c) s = None).
  { clear H. intros u. induction u as [|c' u IH]; intros c; cbn; [done|]. by rewrite IH. }
  assert (Hm : is_Some (match_here (RSeq RStart r) None s)).
  { destruct s as [|c s]; cbn [exec_from] in H; destruct (match_here _ None _); try done. by rewrite Hno in H. }
  destruct Hm as [m Hm]. unfold match_here in Hm. cbn [rmatch m_prev] in Hm.
  by apply (closed_consumes r (mkM None s []) Some m Hc) in Hm.
Qed.

(** Upper-case letters and digits. *)
Definition alnum (c : ascii) : bool := is_upper c || is_digit c.

(** What follows the opening [^]. *)
Definition after_start (r : regex) : regex := match r with RSeq RStart r' => r' | _ => RNever end.
Definition starts (r : regex) : bool := match r with RSeq RStart _ => true | _ => false end.

Lemma starts_eq r : starts r = true -> r = RSeq RStart (after_start r).
Proof. destruct r as [| |[]| | | | | | |]; done. Qed.

(** A statement about characters, decided on all of them. *)
Lemma every_char (p : ascii -> bool) :
  forallb (fun n => p (ascii_of_nat n)) (seq 0 256) = true -> forall c, p c = true.
Proof.
  rewrite forallb_forall. intros H c. rewrite <- (ascii_nat_embedding c). apply H, in_seq.
  pose proof (nat_ascii_bounded c). lia.
Qed.

Lemma iban_alphabet s : re_test IBAN_REGEX s = true -> all_chars alnum s = true.
Proof.
  rewrite (starts_eq IBAN_REGEX) by (vm_compute; reflexivity). intros H.
  apply anchored_alphabet in H; [|vm_compute; reflexivity].
  refine (all_chars_impl _ _ _ _ H). intros c Hc.
  assert (E : implb (alphabet (after_start IBAN_REGEX) c) (alnum c) = true).
  { revert c Hc. intros c _. revert c. apply every_char. vm_compute. reflexivity. }
  by rewrite Hc in E.
Qed.

(** ** Reading digits nine at a time *)

Fixpoint dec_from (acc : Z) (s : string) : Z :=
  match s with EmptyString => acc | String c s' => dec_from (10 * acc + (Z.of_nat (code c) - 48)) s' end.

(** The number a text of digits writes. *)
Definition dec (s : string) : Z := dec_from 0 s.

Definition width (s : string) : Z := Z.of_nat (String.length s).

Lemma dec_from_split acc s : dec_from acc s = acc * 10 ^ width s + dec s.
Proof.
  unfold dec, width. revert acc. induction s as [|c s IH]; intros acc; [cbn; lia|].
  cbn [dec_from String.length]. rewrite IH, (IH (10 * 0 + _)). rewrite Nat2Z.inj_succ, Z.pow_succ_r by lia. lia.
Qed.

Lemma dec_app a b : dec (a ++ b) = dec a * 10 ^ width b + dec b.
Proof.
  rewrite <- dec_from_split. unfold dec. generalize 0. induction a as [|c a IH]; intros acc; [done|]. apply IH.
Qed.

Lemma digit_val_spec c : digit_val c = if is_digit c then Some (Z.of_nat (code c) - 48) else None.
Proof.
  unfold digit_val, is_digit, in_range. fold (code c).
  destruct (Nat.leb_spec 48 (code c)), (Nat.leb_spec (code c) 57), (Z.leb_spec 0 (Z.of_nat (code c) - 48)),
    (Z.leb_spec (Z.of_nat (code c) - 48) 9); cbn; try done; lia.
Qed.

Lemma read_digits_all s acc :
  all_chars is_digit s = true -> read_digits s acc = (dec_from acc s, String.length s, EmptyString).
Proof.
  revert acc. induction s as [|c s IH]; intros acc H; [done|]. cbn in H. apply andb_true_iff in H as [Hc H].
  cbn [read_digits]. by rewrite digit_val_spec, Hc, IH.
Qed.

Lemma read_digits_whole s acc v n : read_digits s acc = (v, n, EmptyString) ->
  all_chars is_digit s = true /\ v = dec_from acc s.
Proof.
  revert acc v n. induction s as [|c s IH]; intros acc v n H; [by injection H as <- <-|].
  cbn [read_digits] in H. rewrite digit_val_spec in H. cbn. destruct (is_digit c) eqn:Hc; [|done].
  destruct (read_digits s _) as [[v' n'] r] eqn:E. injection H as -> _ ->. by apply IH in E.
Qed.

Lemma str_app_nil s : (s ++ "")%string = s.
Proof. induction s as [|c s IH]; [done|]. exact (f_equal (String c) IH). Qed.

Lemma str_of_Z_digits z : 0 <= z -> all_chars is_digit (str_of_Z z) = true /\ dec (str_of_Z z) = z.
Proof.
  intros Hz. destruct (reads_str_of_Z z Hz) as [n H]. specialize (H EmptyString 0 I).
  rewrite str_app_nil in H. apply read_digits_whole in H as [H1 H2]. split; [done|]. unfold dec. lia.
Qed.

Lemma str_take_drop n s : s = (str_take n s ++ str_drop n s)%string.
Proof.
  unfold str_take. revert s. induction n as [|n IH]; intros [|c s]; try done.
  exact (f_equal (String c) (IH s)).
Qed.

Lemma str_drop_length n s : String.length (str_drop n s) = (String.length s - n)%nat.
Proof. revert s. induction n as [|n IH]; intros [|c s]; cbn; done || apply IH. Qed.

Lemma parse_int_digits s : all_chars is_digit s = true -> s <> EmptyString -> parse_int s = Some (dec s).
Proof. intros H Hs. unfold parse_int. rewrite read_digits_all by done. by destruct s. Qed.

Lemma mod97_from_value fuel r s :
  (String.length s <= fuel)%nat -> 0 <= r < 97 -> all_chars is_digit s = true ->
  mod97_from fuel (Some r) s = Some ((r * 10 ^ width s + dec s) mod 97).
Proof.
  assert (H0 : forall r, 0 <= r < 97 -> (r * 10 ^ width EmptyString + dec EmptyString) mod 97 = r).
  { clear. intros r Hr. unfold width, dec. cbn [String.length dec_from Z.of_nat]. rewrite Z.pow_0_r.
    replace (r * 1 + 0) with r by lia. by apply Z.mod_small. }
  revert r s. induction fuel as [|fuel IH]; intros r s Hl Hr Hd.
  { destruct s; [|cbn in Hl; lia]. cbn [mod97_from]. by rewrite H0. }
  destruct s as [|c s]; [cbn [mod97_from]; by rewrite H0|].
  cbn [mod97_from str_of_num]. destruct (str_of_Z_digits r ltac:(lia)) as [Hrd Hrv].
  rewrite (str_take_drop 9 (String c s)) in Hd. rewrite all_chars_app in Hd. apply andb_true_iff in Hd as [Hd1 Hd2].
  assert (Hne : (str_of_Z r ++ str_take 9 (String c s))%string <> EmptyString).
  { destruct (str_of_Z r) as [|a t]; [by cbn|by cbn]. }
  rewrite parse_int_digits by (rewrite ?all_chars_app, ?Hrd, ?Hd1; done). cbn [fmap option_fmap option_map].
  assert (Hnn : forall s acc, 0 <= acc -> all_chars is_digit s = true -> 0 <= dec_from acc s).
  { clear. intros s. induction s as [|c s IH]; intros acc Ha H; [done|]. cbn in H. apply andb_true_iff in H as [Hc H].
    cbn [dec_from]. apply IH; [|done]. unfold is_digit, in_range in Hc. apply andb_true_iff in Hc as [Hc _].
    apply Nat.leb_le in Hc. lia. }
  rewrite Z.rem_mod_nonneg; [|apply Hnn; [lia|by rewrite all_chars_app, Hrd, Hd1]|lia].
  rewrite IH; [|rewrite str_drop_length; cbn [String.length] in *; lia|apply Z.mod_pos_bound; lia|done].
  f_equal. pose proof (str_take_drop 9 (String c s)) as Ex.
  set (t := str_take 9 (String c s)) in *. set (d := str_drop 9 (String c s)) in *. rewrite Ex, !dec_app, Hrv.
  assert (Ew : width (t ++ d) = width t + width d) by (unfold width; rewrite str_length_app; lia).
  rewrite Ew, Z.pow_add_r by (unfold width; lia).
  rewrite Z.add_mod, Z.mul_mod, Z.mod_mod, <- Z.mul_mod, <- Z.add_mod by lia. f_equal. lia.
Qed.

Lemma mod97_value s : all_chars is_digit s = true -> mod97 s = Some (dec s mod 97).
Proof. intros H. unfold mod97. rewrite mod97_from_value by (done || lia). do 2 f_equal. Qed.

(** ** The check digits *)

(** The four leading characters moved to the end. *)
Definition rearranged (n : string) : string := (str_drop 4 n ++ str_take 4 n)%string.
Definition iban_number (n : string) : Z := dec (ibanToNumericString (rearranged n)).

Lemma numeric_app a b : ibanToNumericString (a ++ b) = (ibanToNumericString a ++ ibanToNumericString b)%string.
Proof.
  induction a as [|c a IH]; [done|].
  change (ibanToNumericString (String c a ++ b)) with
    ((if is_upper c then str_of_Z (Z.of_nat (code c) - 55) else String c EmptyString) ++ ibanToNumericString (a ++ b))%string.
  by rewrite IH, str_app_assoc.
Qed.

(** What one character contributes: a letter two digits, a digit itself. *)
Definition char_number (c : ascii) : Z := Z.of_nat (code c) - (if is_upper c then 55 else 48).
Definition char_width (c : ascii) : Z := if is_upper c then 2 else 1.

Lemma numeric_char c : alnum c = true ->
  all_chars is_digit (ibanToNumericString (String c EmptyString)) = true /\
  dec (ibanToNumericString (String c EmptyString)) = char_number c /\
  width (ibanToNumericString (String c EmptyString)) = char_width c.
Proof.
  intros Hc. assert (E : implb (alnum c)
    (all_chars is_digit (ibanToNumericString (String c EmptyString)) &&
     (dec (ibanToNumericString (String c EmptyString)) =? char_number c) &&
     (width (ibanToNumericString (String c EmptyString)) =? char_width c)) = true).
  { clear Hc. revert c. apply every_char. vm_compute. reflexivity. }
  rewrite Hc in E. cbn [implb] in E. rewrite !andb_true_iff, !Z.eqb_eq in E. tauto.
Qed.

Lemma numeric_digits s : all_chars alnum s = true -> all_chars is_digit (ibanToNumericString s) = true.
Proof.
  induction s as [|c s IH]; [done|]. intros H. cbn [all_chars] in H. apply andb_true_iff in H as [Hc H].
  change (String c s) with (String c EmptyString ++ s)%string. rewrite numeric_app, all_chars_app, IH by done.
  by destruct (numeric_char c Hc) as (-> & _).
Qed.

(** The shape: length, country, letters and digits. *)
Definition iban_shape (n : string) : Prop :=
  (15 <= String.length n <= 34)%nat /\ str_take 2 n ∈ IBAN_COUNTRY_CODES /\ re_test IBAN_REGEX n = true.

Lemma rearranged_alnum n : all_chars alnum n = true -> all_chars alnum (rearranged n) = true.
Proof.
  intros H. rewrite (str_take_drop 4 n), all_chars_app in H. unfold rearranged.
  by rewrite all_chars_app, andb_comm.
Qed.

(** An account number is recognised exactly when, spaces dropped and letters
    raised, it has the shape of one and the whole number its characters write,
    the first four moved to the end, is 1 modulo 97: reading it nine digits at a
    time computes the remainder of that number, of up to 68 digits. *)
Theorem iban_exact value :
  isIban value = true <->
  iban_shape (normaliseIban value) /\ iban_number (normaliseIban value) mod 97 = 1.
Proof.
  unfold isIban, iban_shape. generalize (normaliseIban value). intros n.
  assert (Hm : re_test IBAN_REGEX n = true ->
    mod97 (ibanToNumericString (str_drop 4 n ++ str_take 4 n)) = Some (iban_number n mod 97)).
  { intros H. apply mod97_value, numeric_digits, (rearranged_alnum n), iban_alphabet, H. }
  destruct (Nat.ltb_spec (String.length n) 15) as [H1|H1]; [split; [done|intros [[? _] _]; lia]|].
  destruct (Nat.ltb_spec 34 (String.length n)) as [H2|H2]; [split; [done|intros [[? _] _]; lia]|].
  cbn [orb]. case_bool_decide as Hc; cbn [negb]; [|split; [done|by intros [(_ & ? & _) _]]].
  destruct (re_test IBAN_REGEX n) eqn:Hr; cbn [negb]; [|split; [done|by intros [(_ & _ & ?) _]]].
  rewrite Hm, bool_decide_eq_true by done. split; [intros [= E]; by split_and!|by intros [_ ->]].
Qed.

(** Where a character goes does not depend on which it is. *)
Lemma rearranged_context p q : (4 <= String.length p + S (String.length q))%nat ->
  exists x y, forall c, rearranged (p ++ String c q) = (x ++ String c y)%string.
Proof.
  intros Hl.
  assert (Hcut : forall n a b, (String.length a = n)%nat -> str_take n (a ++ b) = a /\ str_drop n (a ++ b) = b).
  { intros n a b <-. split; [apply str_take_app|]. induction a as [|c a IH]; [by destruct b|exact IH]. }
  destruct (Nat.le_gt_cases 4 (String.length p)) as [H4|H4].
  - pose proof (str_drop_length 4 p) as Hd. pose proof (str_take_drop 4 p) as E.
    set (a := str_take 4 p) in *. set (b := str_drop 4 p) in *.
    assert (Ha : String.length a = 4%nat) by (apply (f_equal String.length) in E; rewrite str_length_app in E; lia).
    exists b, (q ++ a)%string. intros c. rewrite E, <- str_app_assoc. unfold rearranged.
    destruct (Hcut 4%nat a (b ++ String c q)%string Ha) as [-> ->]. by rewrite <- str_app_assoc.
  - set (k := (3 - String.length p)%nat). pose proof (str_take_drop k q) as E. pose proof (str_drop_length k q) as Hd.
    set (a := str_take k q) in *. set (b := str_drop k q) in *.
    assert (Ha : String.length a = k) by (apply (f_equal String.length) in E; rewrite str_length_app in E; lia).
    exists (b ++ p)%string, a. intros c. rewrite E.
    assert (Hs : String.length (p ++ String c a) = 4%nat) by (rewrite str_length_app; cbn [String.length]; lia).
    unfold rearranged. destruct (Hcut 4%nat (p ++ String c a)%string b Hs) as [Et Ed].
    rewrite <- str_app_assoc in Et, Ed. cbn [String.append] in Et, Ed. change (String c (a ++ b)) with (String c a ++ b)%string.
    rewrite Et, Ed. by rewrite str_app_assoc.
Qed.

Lemma number_context x c y : alnum c = true ->
  dec (ibanToNumericString (x ++ String c y)) =
  (dec (ibanToNumericString x) * 10 ^ char_width c + char_number c) * 10 ^ width (ibanToNumericString y) +
  dec (ibanToNumericString y).
Proof.
  intros Hc. change (String c y) with (String c EmptyString ++ y)%string. destruct (numeric_char c Hc) as (_ & Ed & Ew).
  rewrite !numeric_app, !dec_app, Ed. unfold width. rewrite str_length_app, Nat2Z.inj_add. fold (width (ibanToNumericString y)).
  fold (width (ibanToNumericString (String c EmptyString))). rewrite Ew, Z.pow_add_r by (unfold char_width, width; destruct (is_upper c); lia).
  lia.
Qed.

Lemma pow10_coprime k : 0 <= k -> rel_prime 97 (10 ^ k).
Proof. intros Hk. apply Zpow_facts.rel_prime_Zpower_r; [done|]. by apply Zgcd_1_rel_prime. Qed.

Lemma char_number_close c c' : alnum c = true -> alnum c' = true -> is_upper c = is_upper c' -> c <> c' ->
  char_number c <> char_number c' /\ -97 < char_number c - char_number c' < 97.
Proof.
  intros Hc Hc' Hk Hne. unfold char_number. rewrite <- Hk. split.
  - intros E. apply Hne. rewrite <- (ascii_nat_embedding c), <- (ascii_nat_embedding c'). unfold code in E.
    f_equal. destruct (is_upper c); lia.
  - unfold alnum, is_upper, is_digit, in_range in *. rewrite !orb_true_iff, !andb_true_iff, !Nat.leb_le in *. lia.
Qed.

(** One mistyped character is caught: two texts whose account numbers differ
    in one place, a digit for another digit or a letter for another letter, are
    never both recognised. *)
Theorem iban_typo_caught v w p q c c' :
  normaliseIban v = (p ++ String c q)%string -> normaliseIban w = (p ++ String c' q)%string ->
  c <> c' -> is_upper c = is_upper c' -> isIban v = true -> isIban w = false.
Proof.
  intros Ev Ew Hne Hk Hv. destruct (isIban w) eqn:Hw; [exfalso|done].
  apply iban_exact in Hv as [(Hlv & _ & Hrv) Hmv], Hw as [(Hlw & _ & Hrw) Hmw].
  apply iban_alphabet in Hrv, Hrw. rewrite Ev in *. rewrite Ew in *.
  rewrite all_chars_app in Hrv, Hrw. apply andb_true_iff in Hrv as [_ Hrv], Hrw as [_ Hrw].
  cbn [all_chars] in Hrv, Hrw. apply andb_true_iff in Hrv as [Hc _], Hrw as [Hc' _].
  rewrite str_length_app in Hlv. cbn [String.length] in Hlv.
  destruct (rearranged_context p q ltac:(lia)) as (x & y & Ex). unfold iban_number in *.
  rewrite Ex, number_context in Hmv by done. rewrite Ex, number_context in Hmw by done.
  unfold char_width in *. rewrite <- Hk in Hmw.
  destruct (char_number_close c c' Hc Hc' Hk Hne) as [Hd Hb].
  set (k := width (ibanToNumericString y)) in *. assert (Hk0 : 0 <= k) by (unfold k, width; lia).
  assert (Hdiv : (97 | (char_number c - char_number c') * 10 ^ k)).
  { apply Z.mod_divide; [done|]. clearbody k. clear Hk Hd Hb Ex.
    match type of Hmv with (?X * _ + ?Y) mod _ = _ => match type of Hmw with (?X' * _ + _) mod _ = _ =>
      replace ((char_number c - char_number c') * 10 ^ k) with ((X * 10 ^ k + Y) - (X' * 10 ^ k + Y)) by lia end end.
    rewrite Zminus_mod, Hmv, Hmw. reflexivity. }
  rewrite Z.mul_comm in Hdiv. apply Gauss in Hdiv; [|by apply pow10_coprime].
  destruct Hdiv as [z Hz]. assert (z = 0) by lia. lia.
Qed.

Lemma iban_typo_caught_witness :
  isIban "GB82 WEST 1234 5698 7654 32" = true /\ isIban "GB82 WEST 1234 5698 7654 33" = false.
Proof.
  split; [vm_compute; reflexivity|].
  apply (iban_typo_caught "GB82 WEST 1234 5698 7654 32" "GB82 WEST 1234 5698 7654 33" "GB82WEST1234569876543" "" "2" "3");
    try (vm_compute; reflexivity); discriminate.
Defined.
