(* ===== verification/Economy.v ===== *)
(** Economy ([src/economy/]): the fleet cost breaker, the tier catalog, the
    outcome tracker, the two routers and the per-cycle cost ledger.

    Clock readings are arguments, one per reading; amounts and token counts given
    to the routers are JavaScript numbers, the ledger's token counts and latencies
    integers.  The tier policy, the flush hook and the model port are the host's:
    parameters. *)

From S2P Require Import Prelude JsNum JsValue Canonical TokenBase.
From Stdlib Require Import Ascii SpecFloat.

(** [list.reduce((sum, e) => sum + f(e), 0)]. *)
Definition sum_from {A} (f : A -> num) (acc : num) (l : list A) : num :=
  fold_left (fun sum e => num_add sum (f e)) l acc.
Definition sum_by {A} (f : A -> num) (l : list A) : num := sum_from f num_zero l.

(** * The fleet breaker *)

Inductive CircuitState := fleet_closed | fleet_open | fleet_half_open.

#[export] Instance CircuitState_eq_dec : EqDecision CircuitState.
Proof. solve_decision. Defined.

Record CircuitBreakerConfig := mkFleetConfig { thresholdUsd : num; windowMs : Z; cooldownMs : Z }.
Definition DEFAULT_CONFIG : CircuitBreakerConfig := mkFleetConfig (num_of_Z 10) 3600000 300000.

Record SpendEntry := mkSpend { se_ts : Z; se_costUsd : num }.

Record FleetCircuitBreaker := mkFleet {
  fb_state : CircuitState; fb_openedAt : option Z; fb_halfOpenConsumed : bool; fb_window : list SpendEntry
}.

(** [{ ...DEFAULT_CONFIG, ...config }]. *)
Definition fleet_config (threshold : option num) (window cooldown : option Z) : CircuitBreakerConfig :=
  mkFleetConfig (default (thresholdUsd DEFAULT_CONFIG) threshold) (default (windowMs DEFAULT_CONFIG) window)
    (default (cooldownMs DEFAULT_CONFIG) cooldown).
Definition fleet_init : FleetCircuitBreaker := mkFleet fleet_closed None false [].

(** The leading entries older than the cutoff. *)
Fixpoint drop_old (cutoff : Z) (w : list SpendEntry) : list SpendEntry :=
  match w with
  | e :: w' => if se_ts e <? cutoff then drop_old cutoff w' else w
  | [] => []
  end.

Section Fleet.
Context (cfg : CircuitBreakerConfig).

Definition fleet_evict (t : Z) (s : FleetCircuitBreaker) : FleetCircuitBreaker :=
  mkFleet (fb_state s) (fb_openedAt s) (fb_halfOpenConsumed s) (drop_old (t - windowMs cfg) (fb_window s)).

Definition fleet_spend (s : FleetCircuitBreaker) : num := sum_by se_costUsd (fb_window s).

(** [canProceed], the eviction's clock reading first. *)
Definition fleet_canProceed (tEvict now : Z) (s : FleetCircuitBreaker) : FleetCircuitBreaker * bool :=
  let s := fleet_evict tEvict s in
  let probe (s : FleetCircuitBreaker) :=
    if fb_halfOpenConsumed s then (s, false)
    else (mkFleet (fb_state s) (fb_openedAt s) true (fb_window s), true) in
  match fb_state s with
  | fleet_open =>
      match fb_openedAt s with
      | Some o =>
          if cooldownMs cfg <=? now - o
          then probe (mkFleet fleet_half_open (fb_openedAt s) false (fb_window s))
          else (s, false)
      | None => (s, false)
      end
  | fleet_half_open => probe s
  | fleet_closed => (s, num_leb (fleet_spend s) (thresholdUsd cfg))
  end.

Definition fleet_trip (now : Z) (s : FleetCircuitBreaker) : FleetCircuitBreaker :=
  mkFleet fleet_open (Some now) false (fb_window s).

Definition fleet_recordCost (now tEvict : Z) (costUsd : num) (s : FleetCircuitBreaker) : FleetCircuitBreaker :=
  let s := fleet_evict tEvict
    (mkFleet (fb_state s) (fb_openedAt s) (fb_halfOpenConsumed s) (fb_window s ++ [mkSpend now costUsd])) in
  match fb_state s with
  | fleet_closed => if num_gtb (fleet_spend s) (thresholdUsd cfg) then fleet_trip now s else s
  | fleet_half_open =>
      if num_gtb (fleet_spend s) (thresholdUsd cfg) then fleet_trip now s
      else mkFleet fleet_closed None false (fb_window s)
  | fleet_open => s
  end.

Definition fleet_reset (s : FleetCircuitBreaker) : FleetCircuitBreaker := fleet_init.

Definition fleet_windowSpend (tEvict : Z) (s : FleetCircuitBreaker) : FleetCircuitBreaker * num :=
  let s := fleet_evict tEvict s in (s, fleet_spend s).
End Fleet.

(** * The tier catalog *)

Inductive TierLabel := l_free | l_cheap | l_mid | l_premium.
Definition label_name (l : TierLabel) : string :=
  match l with l_free => "free" | l_cheap => "cheap" | l_mid => "mid" | l_premium => "premium" end.

#[export] Instance TierLabel_eq_dec : EqDecision TierLabel.
Proof. solve_decision. Defined.

Record ModelTier := mkTier {
  mt_provider : string; mt_model : string; costPerMTokenIn : num; costPerMTokenOut : num; mt_label : TierLabel
}.
Inductive EconomyMode := degraded | full.

(** The host may replace the policy; it may throw. *)
Definition TierPolicy : Type := string -> EconomyMode -> result (list ModelTier).

Definition TIER_FREE : ModelTier := mkTier "litellm" "default-fast" num_zero num_zero l_free.
Definition TIER_CHEAP : ModelTier :=
  mkTier "litellm" "deepseek-v4-flash" (num_of_decimal 14 2) (num_of_decimal 28 2) l_cheap.
Definition TIER_MID : ModelTier := mkTier "groq" "llama-3.3-70b-versatile" num_zero num_zero l_mid.
Definition TIER_PREMIUM : ModelTier :=
  mkTier "litellm" "deepseek-v4-pro" (num_of_decimal 27 2) (num_of_decimal 11 1) l_premium.

(** An object literal: a name it inherits is found, and is no array. *)
Inductive routing_entry := own_tiers (l : list ModelTier) | inherited_member | no_entry.
Definition DEGRADED_ROUTING (category : string) : routing_entry :=
  if (category =? "simple")%string then own_tiers [TIER_FREE; TIER_CHEAP]
  else if (category =? "standard")%string then own_tiers [TIER_CHEAP; TIER_MID]
  else if (category =? "complex")%string then own_tiers [TIER_MID; TIER_PREMIUM]
  else if (category =? "reasoning")%string then own_tiers [TIER_PREMIUM]
  else if bool_decide (category ∈ object_prototype) then inherited_member
  else no_entry.
Definition DEFAULT_DEGRADED : list ModelTier := [TIER_CHEAP; TIER_MID].

Definition not_iterable : jserror :=
  JsError "TypeError" "Spread syntax requires ...iterable[Symbol.iterator] to be a function".

Definition DefaultTierPolicy : TierPolicy := fun category _mode =>
  match DEGRADED_ROUTING category with
  | own_tiers l => Ok l
  | inherited_member => Throw not_iterable
  | no_entry => Ok DEFAULT_DEGRADED
  end.

Definition is_tier (provider model : string) (t : ModelTier) : bool :=
  (mt_provider t =? provider)%string && (mt_model t =? model)%string.

Definition lookupTier (provider model : string) : option ModelTier :=
  List.find (is_tier provider model) [TIER_FREE; TIER_CHEAP; TIER_MID; TIER_PREMIUM].

(** * The outcome tracker *)

Record CycleCost := mkCost {
  cc_runId : string; cc_inputTokens : num; cc_outputTokens : num; cc_costUsd : num; cc_modelTier : string;
  cc_durationMs : num; cc_skillId : option string; cc_outcomeValue : option num; cc_category : option string
}.

Record OutcomeTracker := mkTracker {
  ot_store : list (string * list CycleCost); ot_timestamped : list (string * list (Z * CycleCost))
}.
Definition tracker_init : OutcomeTracker := mkTracker [] [].

Record OutcomeOpts := mkOutcomeOpts {
  oo_skillId : option string; oo_outcomeValue : option num; oo_category : option string
}.

(** Up to and after the first slash. *)
Fixpoint split_slash (s : string) : option (string * string) :=
  match s with
  | EmptyString => None
  | String c s' =>
      if Ascii.eqb c "/"%char then Some (EmptyString, s')
      else '(a, b) ← split_slash s'; Some (String c a, b)
  end.
Definition parseModel (model : string) : string * string := default (EmptyString, model) (split_slash model).

Definition MILLION : num := num_of_Z 1000000.
(** [(inputTokens / 1_000_000) * in + (outputTokens / 1_000_000) * out]. *)
Definition tier_cost (t : ModelTier) (inputTokens outputTokens : num) : num :=
  num_add (num_mul (num_div inputTokens MILLION) (costPerMTokenIn t))
          (num_mul (num_div outputTokens MILLION) (costPerMTokenOut t)).

Definition append_to {A} (k : string) (x : A) (m : list (string * list A)) : list (string * list A) :=
  om_set k (default [] (om_get k m) ++ [x]) m.

Definition tracker_push (now : Z) (runId : string) (c : CycleCost) (s : OutcomeTracker) : OutcomeTracker :=
  mkTracker (append_to runId c (ot_store s)) (append_to runId (now, c) (ot_timestamped s)).

Section Tracker.
Context (policy : TierPolicy).

(** The catalog first, then the policy's tiers for [standard]; the cost and the
    label. *)
Definition price (model : string) (inputTokens outputTokens : num) : result (num * string) :=
  let '(provider, modelName) := parseModel model in
  match lookupTier provider modelName with
  | Some t => Ok (tier_cost t inputTokens outputTokens, label_name (mt_label t))
  | None =>
      candidates ← policy "standard" degraded;
      match List.find (is_tier provider modelName) candidates with
      | Some t => Ok (tier_cost t inputTokens outputTokens, label_name (mt_label t))
      | None => Ok (num_zero, "unknown")
      end
  end.

Definition tracker_record (now : Z) (runId model : string) (inputTokens outputTokens durationMs : num)
    (opts : OutcomeOpts) (s : OutcomeTracker) : result (OutcomeTracker * CycleCost) :=
  '(costUsd, label) ← price model inputTokens outputTokens;
  let c := mkCost runId inputTokens outputTokens costUsd label durationMs
             (oo_skillId opts) (oo_outcomeValue opts) (oo_category opts) in
  Ok (tracker_push now runId c s, c).
End Tracker.

(** The records handed to the hook, in order, up to its first rejection. *)
Fixpoint flush_records (hook : string -> CycleCost -> result unit) (runId : string) (l : list CycleCost)
    : list CycleCost * result unit :=
  match l with
  | [] => ([], Ok tt)
  | c :: l' =>
      match hook runId c with
      | Ok _ => let '(sent, r) := flush_records hook runId l' in (c :: sent, r)
      | Throw e => ([c], Throw e)
      end
  end.
Definition tracker_flush (hook : option (string -> CycleCost -> result unit)) (runId : string) (s : OutcomeTracker)
    : list CycleCost * result unit :=
  match hook, om_get runId (ot_store s) with
  | Some h, Some records => flush_records h runId records
  | _, _ => ([], Ok tt)
  end.

Definition getCosts (window : option Z) (s : OutcomeTracker) : list CycleCost :=
  let all := concat (map snd (ot_store s)) in
  match window with None => all | Some _ => all end.

Definition totalCostInWindow (window : option Z) (now : Z) (s : OutcomeTracker) : num :=
  let cutoff := now - default 3600000 window in
  sum_by (fun r => cc_costUsd r.2)
    (List.filter (fun r => cutoff <=? r.1) (concat (map snd (ot_timestamped s)))).

(** * The cost-informed router ([router.ts]) *)

Record EconomyRouterConfig := mkRouterConfig {
  rc_mode : EconomyMode; rc_policy : TierPolicy; rc_breaker : CircuitBreakerConfig; rc_budgetBuffer : option num
}.
Record EconomyRouter := mkRouter {
  er_tracker : OutcomeTracker; er_breaker : FleetCircuitBreaker; er_total : Z; er_nonBlocked : Z
}.
Record RouteOpts := mkRouteOpts { rt_skillId : option string; rt_budgetRemainingUsd : option num }.
Record RouteDecision := mkRoute {
  rd_tier : ModelTier; rd_mode : EconomyMode; rd_reason : string; rd_blockedByBreaker : bool
}.

Definition COST_WINDOW_MS : Z := 3600000.
Definition UPGRADE_THRESHOLD_USD : num := num_of_decimal 5 3.
Definition DOWNGRADE_THRESHOLD_USD : num := num_of_decimal 5 2.

(** [(1_000 / 1_000_000) * tier.costPerMTokenOut]. *)
Definition estimateCallCost (t : ModelTier) : num :=
  num_mul (num_div (num_of_Z 1000) MILLION) (costPerMTokenOut t).

(** The first tier no other undercuts by output cost. *)
Definition cheapest_from (best : ModelTier) (tiers : list ModelTier) : ModelTier :=
  fold_left (fun best t => if num_ltb (costPerMTokenOut t) (costPerMTokenOut best) then t else best) tiers best.

Section Router.
Context (cf : EconomyRouterConfig).

(** [budget * (1 - budgetBuffer)]. *)
Definition spendable (budget : num) : num :=
  num_mul budget (num_sub num_one (default (num_of_decimal 1 1) (rc_budgetBuffer cf))).

Definition affordable (budget : option num) (candidates : list ModelTier) : list ModelTier :=
  match budget with
  | Some b => List.filter (fun t => num_leb (estimateCallCost t) (spendable b)) candidates
  | None => candidates
  end.

Definition same_opt (o : option string) (s : string) : bool := bool_decide (o = Some s).

Definition observedAvgCostUsd (category : string) (skillId : option string) (s : OutcomeTracker) : option num :=
  let all := getCosts (Some COST_WINDOW_MS) s in
  let by_category := List.filter (fun r => same_opt (cc_category r) category) all in
  let pool :=
    match rc_mode cf, skillId with
    | full, Some k =>
        match List.filter (fun r => same_opt (cc_skillId r) k) all with [] => by_category | l => l end
    | _, _ => by_category
    end in
  match pool with
  | [] => None
  | _ => Some (num_div (sum_by cc_costUsd pool) (num_of_Z (Z.of_nat (length pool))))
  end.

(** The choice within a non-empty pool. *)
Definition choose (avgCost : option num) (head : ModelTier) (rest : list ModelTier) : ModelTier * string :=
  match avgCost with
  | None => (head, "default-tier-no-history")
  | Some avg =>
      if num_ltb avg UPGRADE_THRESHOLD_USD then
        match rest with
        | second :: _ => (second, "upgrade-cheap-history")
        | [] => (head, "default-no-upgrade-available")
        end
      else if num_gtb avg DOWNGRADE_THRESHOLD_USD
      then (cheapest_from head (head :: rest), "downgrade-expensive-history")
      else (head, "default-tier-within-band")
  end.

Definition no_candidates (category : string) : jserror :=
  JsError "Error" ("EconomyRouter: TierPolicy returned no candidates for category " ++ quoted category)%string.

(** The breaker is asked first: what it consumed stays consumed when the rest
    throws. *)
Definition route (tEvict now : Z) (category : string) (opts : RouteOpts) (s : EconomyRouter)
    : EconomyRouter * result RouteDecision :=
  let '(b, proceed) := fleet_canProceed (rc_breaker cf) tEvict now (er_breaker s) in
  let blocked := negb proceed in
  let s := mkRouter (er_tracker s) b (er_total s + 1) (er_nonBlocked s) in
  match rc_policy cf category (rc_mode cf) with
  | Throw e => (s, Throw e)
  | Ok [] => (s, Throw (no_candidates category))
  | Ok ((c :: cs) as candidates) =>
      let pool := match affordable (rt_budgetRemainingUsd opts) candidates with
                  | [] => (cheapest_from c candidates, [])
                  | p :: ps => (p, ps)
                  end in
      let '(chosen, reason) :=
        choose (observedAvgCostUsd category (rt_skillId opts) (er_tracker s)) pool.1 pool.2 in
      (mkRouter (er_tracker s) (er_breaker s) (er_total s) (if blocked then er_nonBlocked s else er_nonBlocked s + 1),
       Ok (mkRoute chosen (rc_mode cf) (if blocked then (reason ++ "+breaker-open")%string else reason) blocked))
  end.

Definition recordOutcome (tRecord tSpend tEvict : Z) (runId : string) (tier : ModelTier)
    (inputTokens outputTokens durationMs : num) (opts : OutcomeOpts) (s : EconomyRouter) : EconomyRouter * result unit :=
  let modelStr := (mt_provider tier ++ "/" ++ mt_model tier)%string in
  match tracker_record (rc_policy cf) tRecord runId modelStr inputTokens outputTokens durationMs opts (er_tracker s) with
  | Throw e => (s, Throw e)
  | Ok (t, c) =>
      (mkRouter t (fleet_recordCost (rc_breaker cf) tSpend tEvict (cc_costUsd c) (er_breaker s))
         (er_total s) (er_nonBlocked s), Ok tt)
  end.

Definition routingRate (s : EconomyRouter) : num :=
  if er_total s =? 0 then num_zero else num_div (num_of_Z (er_nonBlocked s)) (num_of_Z (er_total s)).
End Router.

(** * The budget router ([economy-router.ts]) *)

Record ProviderTier := mkProvider {
  pt_name : TierLabel; costPerInputToken : num; costPerOutputToken : num; qualityScore : num
}.
Record EconomyRouterOpts := mkBudgetOpts {
  bo_tiers : list ProviderTier; bo_hourlyBudgetUsd : num; bo_monthlyBudgetUsd : num; bo_defaultTier : TierLabel;
  bo_windowMs : option Z; bo_monthlyWindowMs : option Z; bo_hasBus : bool; bo_tenantId : option string
}.
Record CostEntry := mkCostEntry {
  ce_agentId : string; ce_costUsd : num; ce_inputTokens : num; ce_outputTokens : num; ce_ts : Z
}.
Record BudgetRouter := mkBudget { br_history : list CostEntry; br_circuitOpen : bool; br_circuitOpenedAt : option Z }.
Definition budget_init : BudgetRouter := mkBudget [] false None.

Definition COOLDOWN_MS : Z := 300000.

(** What a recorded cycle tells the host: the breaker's reason, the published
    event's id and data. *)
Inductive BudgetEffect := CircuitBreak (reason : string) | Published (id time : string) (data : jsval).
Inductive Admission := Allowed | Refused (reason : string).

Definition complexityToTierName (complexity : num) : TierLabel :=
  if num_ltb complexity (num_of_decimal 25 2) then l_free
  else if num_ltb complexity (num_of_decimal 5 1) then l_cheap
  else if num_ltb complexity (num_of_decimal 75 2) then l_mid
  else l_premium.

Section BudgetRouter.
Context (o : EconomyRouterOpts).

Definition tier_map : list (TierLabel * ProviderTier) := om_of_list (map (fun t => (pt_name t, t)) (bo_tiers o)).

Definition defaultTier : result ProviderTier :=
  match om_get (bo_defaultTier o) tier_map, bo_tiers o with
  | Some t, _ => Ok t
  | None, first :: _ => Ok first
  | None, [] => Throw (JsError "Error" "EconomyRouter: no tiers configured")
  end.

Definition selectTier (complexity : num) : result ProviderTier :=
  match om_get (complexityToTierName complexity) tier_map with Some t => Ok t | None => defaultTier end.

Definition hourly_window : Z := default 3600000 (bo_windowMs o).
Definition monthly_window : Z := default (30 * 24 * 3600000) (bo_monthlyWindowMs o).

Definition spend_since (cutoff : Z) (h : list CostEntry) : num :=
  sum_by ce_costUsd (List.filter (fun e => cutoff <=? ce_ts e) h).
Definition hourlySpend (t : Z) (s : BudgetRouter) : num := spend_since (t - hourly_window) (br_history s).
Definition monthlySpend (t : Z) (s : BudgetRouter) : num := spend_since (t - monthly_window) (br_history s).

Definition cost_event (now : Z) (e : CostEntry) : BudgetEffect :=
  Published ("cc-cost-" ++ str_of_Z now ++ "-" ++ ce_agentId e)%string (iso_string now)
    (JObj ([("agentId", JStr (ce_agentId e)); ("costUsd", JNum (ce_costUsd e));
            ("tokens", JObj [("input", JNum (ce_inputTokens e)); ("output", JNum (ce_outputTokens e))])] ++
           match bo_tenantId o with Some t => [("tenantId", JStr t)] | None => [] end)).

(** Clock readings: the entry's, the check's, the message's. *)
Definition recordCycle (now tCheck tReason : Z) (agentId : string) (costUsd inputTokens outputTokens : num)
    (s : BudgetRouter) : BudgetRouter * list BudgetEffect :=
  let e := mkCostEntry agentId costUsd inputTokens outputTokens now in
  let s := mkBudget (br_history s ++ [e]) (br_circuitOpen s) (br_circuitOpenedAt s) in
  let '(s, broke) :=
    if negb (br_circuitOpen s) && num_gtb (hourlySpend tCheck s) (bo_hourlyBudgetUsd o) then
      (mkBudget (br_history s) true (Some now),
       [CircuitBreak ("hourly budget exceeded: " ++ num_to_fixed 4 (hourlySpend tReason s) ++ " USD > " ++
          num_to_string (bo_hourlyBudgetUsd o) ++ " USD")%string])
    else (s, []) in
  (s, broke ++ (if bo_hasBus o then [cost_event now e] else [])).

(** The breaker's state once its cooldown is looked at. *)
Definition budget_cool (t : Z) (s : BudgetRouter) : BudgetRouter :=
  match br_circuitOpen s, br_circuitOpenedAt s with
  | true, Some at_ => if COOLDOWN_MS <=? t - at_ then mkBudget (br_history s) false None else s
  | _, _ => s
  end.

Definition over_budget (which : string) (projected budget : num) : string :=
  (which ++ " budget would be exceeded: " ++ num_to_fixed 4 projected ++ " > " ++ num_to_string budget ++ " USD")%string.

Definition budget_canProceed (tCool tHour tMonth : Z) (estimatedCostUsd : num) (s : BudgetRouter)
    : BudgetRouter * Admission :=
  let s := budget_cool tCool s in
  if br_circuitOpen s then (s, Refused "circuit-breaker-open")
  else
    let projectedHourly := num_add (hourlySpend tHour s) estimatedCostUsd in
    if num_gtb projectedHourly (bo_hourlyBudgetUsd o)
    then (s, Refused (over_budget "hourly" projectedHourly (bo_hourlyBudgetUsd o)))
    else
      let projectedMonthly := num_add (monthlySpend tMonth s) estimatedCostUsd in
      if num_gtb projectedMonthly (bo_monthlyBudgetUsd o)
      then (s, Refused (over_budget "monthly" projectedMonthly (bo_monthlyBudgetUsd o)))
      else (s, Allowed).

(** A tenant's router: the same options, a state of its own. *)
Definition forTenant (tenantId : string) : EconomyRouterOpts * BudgetRouter :=
  (mkBudgetOpts (bo_tiers o) (bo_hourlyBudgetUsd o) (bo_monthlyBudgetUsd o) (bo_defaultTier o)
     (bo_windowMs o) (bo_monthlyWindowMs o) (bo_hasBus o) (Some tenantId), budget_init).
End BudgetRouter.

(** * The cost ledger ([cost-accounting-port.ts]) *)

Record ChatUsage := mkUsage {
  us_inputTokens : Z; us_outputTokens : Z; us_costUsd : option num;
  us_cacheCreationTokens : option Z; us_cacheReadTokens : option Z
}.
Record CostRecord := mkRecord {
  cr_correlationId : string; cr_agentId : string; cr_callCount : Z; cr_inputTokens : Z; cr_outputTokens : Z;
  cr_cacheReadTokens : Z; cr_cacheCreationTokens : Z; cr_costUsd : num; cr_latencyMs : Z; cr_errorCount : Z
}.
Record CostAccountingSnapshot := mkSnapshot {
  sn_totals : CostRecord; sn_byCycle : list CostRecord; sn_byWorker : list CostRecord; sn_cacheHitRatio : num
}.

Definition UNKNOWN : string := "unknown".
Definition ROLLUP : string := "*".
Definition KEY_SEP : string := String "000" EmptyString.
Definition ZERO_USAGE : ChatUsage := mkUsage 0 0 None None None.

Definition fresh (correlationId agentId : string) : CostRecord :=
  mkRecord correlationId agentId 0 0 0 0 0 num_zero 0 0.

Definition addUsage (target : CostRecord) (u : ChatUsage) (latencyMs : Z) (isError : bool) : CostRecord :=
  mkRecord (cr_correlationId target) (cr_agentId target) (cr_callCount target + 1)
    (cr_inputTokens target + us_inputTokens u) (cr_outputTokens target + us_outputTokens u)
    (cr_cacheReadTokens target + default 0 (us_cacheReadTokens u))
    (cr_cacheCreationTokens target + default 0 (us_cacheCreationTokens u))
    (num_add (cr_costUsd target) (default num_zero (us_costUsd u)))
    (cr_latencyMs target + latencyMs) (if isError then cr_errorCount target + 1 else cr_errorCount target).

Definition mergeInto (target src : CostRecord) : CostRecord :=
  mkRecord (cr_correlationId target) (cr_agentId target) (cr_callCount target + cr_callCount src)
    (cr_inputTokens target + cr_inputTokens src) (cr_outputTokens target + cr_outputTokens src)
    (cr_cacheReadTokens target + cr_cacheReadTokens src)
    (cr_cacheCreationTokens target + cr_cacheCreationTokens src)
    (num_add (cr_costUsd target) (cr_costUsd src))
    (cr_latencyMs target + cr_latencyMs src) (cr_errorCount target + cr_errorCount src).

Inductive Dimension := byCorrelation | byAgent.
Definition dim_key (d : Dimension) (r : CostRecord) : string :=
  match d with byCorrelation => cr_correlationId r | byAgent => cr_agentId r end.
Definition dim_fresh (d : Dimension) (key : string) : CostRecord :=
  match d with byCorrelation => fresh key ROLLUP | byAgent => fresh ROLLUP key end.

Definition group_cell (d : Dimension) (groups : list (string * CostRecord)) (c : CostRecord)
    : list (string * CostRecord) :=
  let key := dim_key d c in
  om_set key (mergeInto (default (dim_fresh d key) (om_get key groups)) c) groups.
Definition groupBy (d : Dimension) (cells : list CostRecord) : list CostRecord :=
  map snd (fold_left (group_cell d) cells []).

Notation Ledger := (list (string * CostRecord)).

Definition cell_key (correlationId agentId : string) : string := (correlationId ++ KEY_SEP ++ agentId)%string.

(** The request's metadata and how the wrapped call ended: with a response, its
    usage and whether it finished in error, or by throwing. *)
Record Metadata := mkMeta { md_correlationId : option string; md_agentId : option string }.
Inductive CallEnd := Responded (usage : ChatUsage) (error : bool) | Threw (e : jserror).

(** The accounting of one settled [complete]; the caller sees the call's own
    outcome. *)
Definition ledger_complete (start finish : Z) (m : Metadata) (r : CallEnd) (l : Ledger) : Ledger * CallEnd :=
  let correlationId := default UNKNOWN (md_correlationId m) in
  let agentId := default UNKNOWN (md_agentId m) in
  let key := cell_key correlationId agentId in
  let rec := default (fresh correlationId agentId) (om_get key l) in
  let rec' := match r with
              | Responded u err => addUsage rec u (finish - start) err
              | Threw _ => addUsage rec ZERO_USAGE (finish - start) true
              end in
  (om_set key rec' l, r).

(** A port without an estimate costs nothing. *)
Definition ledger_estimateCost (estimate : option num) : num := default num_zero estimate.

Definition ledger_snapshot (l : Ledger) : CostAccountingSnapshot :=
  let cells := map snd l in
  let totals := fold_left mergeInto cells (fresh ROLLUP ROLLUP) in
  let denom := cr_inputTokens totals + cr_cacheReadTokens totals in
  mkSnapshot totals (groupBy byCorrelation cells) (groupBy byAgent cells)
    (if denom =? 0 then num_zero else num_div (num_of_Z (cr_cacheReadTokens totals)) (num_of_Z denom)).

Definition ledger_reset (l : Ledger) : Ledger := [].

(** * The breaker against the full log *)

Inductive FleetOp := Ask (tEvict now : Z) | Spend (now tEvict : Z) (costUsd : num) | Look (tEvict : Z) | ManualReset.
Inductive FleetAnswer := Granted (b : bool) | Amount (x : num) | Done.

Section FleetProps.
Context (cfg : CircuitBreakerConfig).

Definition fleet_step (s : FleetCircuitBreaker) (op : FleetOp) : FleetCircuitBreaker * FleetAnswer :=
  match op with
  | Ask tE now => let '(s', b) := fleet_canProceed cfg tE now s in (s', Granted b)
  | Spend now tE c => (fleet_recordCost cfg now tE c s, Done)
  | Look tE => let '(s', x) := fleet_windowSpend cfg tE s in (s', Amount x)
  | ManualReset => (fleet_reset s, Done)
  end.

(** The specification keeps every spend since the last reset and sums those of
    the window when asked. *)
Definition spent (t : Z) (log : list SpendEntry) : num :=
  sum_by se_costUsd (List.filter (fun e => t - windowMs cfg <=? se_ts e) log).

Definition spec_step (s : FleetCircuitBreaker) (op : FleetOp) : FleetCircuitBreaker * FleetAnswer :=
  let log := fb_window s in
  match op with
  | Ask tE now =>
      match fb_state s with
      | fleet_closed => (s, Granted (num_leb (spent tE log) (thresholdUsd cfg)))
      | fleet_open =>
          if match fb_openedAt s with Some o => cooldownMs cfg <=? now - o | None => false end
          then (mkFleet fleet_half_open (fb_openedAt s) true log, Granted true)
          else (s, Granted false)
      | fleet_half_open =>
          (mkFleet fleet_half_open (fb_openedAt s) true log, Granted (negb (fb_halfOpenConsumed s)))
      end
  | Spend now tE c =>
      let log' := log ++ [mkSpend now c] in
      let over := num_gtb (spent tE log') (thresholdUsd cfg) in
      (match fb_state s with
       | fleet_open => mkFleet fleet_open (fb_openedAt s) (fb_halfOpenConsumed s) log'
       | fleet_closed =>
           if over then mkFleet fleet_open (Some now) false log'
           else mkFleet fleet_closed (fb_openedAt s) (fb_halfOpenConsumed s) log'
       | fleet_half_open =>
           if over then mkFleet fleet_open (Some now) false log' else mkFleet fleet_closed None false log'
       end, Done)
  | Look tE => (s, Amount (spent tE log))
  | ManualReset => (fleet_init, Done)
  end.

Fixpoint run_ops (step : FleetCircuitBreaker -> FleetOp -> FleetCircuitBreaker * FleetAnswer)
    (s : FleetCircuitBreaker) (ops : list FleetOp) : FleetCircuitBreaker * list FleetAnswer :=
  match ops with
  | [] => (s, [])
  | op :: ops' =>
      let '(s1, a) := step s op in
      let '(s2, l) := run_ops step s1 ops' in (s2, a :: l)
  end.

(** Clock readings that never go back, from [t] on. *)
Fixpoint clock_from (t : Z) (ops : list FleetOp) : Prop :=
  match ops with
  | [] => True
  | Ask tE now :: l => t <= tE <= now /\ clock_from now l
  | Spend now tE _ :: l => t <= now <= tE /\ clock_from tE l
  | Look tE :: l => t <= tE /\ clock_from tE l
  | ManualReset :: l => clock_from t l
  end.

(** ** The window is the recent part of the log *)

Definition ordered (w : list SpendEntry) : Prop := StronglySorted (fun a b => se_ts a <= se_ts b) w.

Lemma drop_old_filter c w : ordered w -> drop_old c w = List.filter (fun e => c <=? se_ts e) w.
Proof.
  induction 1 as [|e w Hw IH Hall]; [done|]. cbn. rewrite Z.leb_antisym. destruct (Z.ltb_spec (se_ts e) c); cbn [negb]; [done|].
  f_equal. clear IH Hw. induction Hall as [|e' w He _ IH]; [done|]. cbn.
  rewrite (proj2 (Z.leb_le _ _)) by lia. by f_equal.
Qed.

Lemma drop_old_split c w : exists gone, w = gone ++ drop_old c w /\ Forall (fun e => se_ts e < c) gone.
Proof.
  induction w as [|e w (gone & E & Hg)]; [by exists []|]. cbn. destruct (Z.ltb_spec (se_ts e) c).
  - exists (e :: gone). split; [cbn; by f_equal|by constructor].
  - by exists [].
Qed.

Lemma ordered_suffix a b : ordered (a ++ b) -> ordered b.
Proof. induction a as [|e a IH]; [done|]. intros H. inversion H; subst. by apply IH. Qed.

Lemma ordered_snoc w e : ordered w -> Forall (fun x => se_ts x <= se_ts e) w -> ordered (w ++ [e]).
Proof.
  induction 1 as [|x w Hw IH Hall]; intros Hf; [repeat constructor|].
  apply Forall_cons in Hf as [Hx Hf]. constructor; [by apply IH|]. apply Forall_app. split; [done|by constructor].
Qed.

Lemma filter_old c gone : Forall (fun e => se_ts e < c) gone -> List.filter (fun e => c <=? se_ts e) gone = [].
Proof. induction 1 as [|e l He _ IH]; [done|]. cbn. by rewrite (proj2 (Z.leb_gt _ _)). Qed.

(** What links a breaker at time [t] to the log it has seen. *)
Record tracks (t : Z) (s a : FleetCircuitBreaker) : Prop := {
  tr_state : fb_state s = fb_state a;
  tr_opened : fb_openedAt s = fb_openedAt a;
  tr_consumed : fb_halfOpenConsumed s = fb_halfOpenConsumed a;
  tr_log : exists gone, fb_window a = gone ++ fb_window s /\ Forall (fun e => se_ts e < t - windowMs cfg) gone;
  tr_past : Forall (fun e => se_ts e <= t) (fb_window s);
  tr_order : ordered (fb_window s)
}.

Lemma tracks_evict t t' s a : tracks t s a -> t <= t' ->
  tracks t' (fleet_evict cfg t' s) a /\ fleet_spend (fleet_evict cfg t' s) = spent t' (fb_window a).
Proof.
  intros [E1 E2 E3 (gone & El & Hg) Hp Ho] Ht.
  destruct (drop_old_split (t' - windowMs cfg) (fb_window s)) as (g & Eg & Hg').
  assert (Hold : Forall (fun e => se_ts e < t' - windowMs cfg) (gone ++ g)).
  { apply Forall_app. split; [|done]. eapply Forall_impl; [exact Hg|]. cbn. lia. }
  split.
  - split; try done; cbn [fb_window fleet_evict].
    + exists (gone ++ g). split; [|done]. by rewrite El, Eg at 1; rewrite <- app_assoc.
    + rewrite Eg in Hp. apply Forall_app in Hp as [_ Hp]. eapply Forall_impl; [exact Hp|]. cbn. lia.
    + rewrite Eg in Ho. by apply ordered_suffix in Ho.
  - unfold fleet_spend, spent. cbn [fb_window fleet_evict]. f_equal. rewrite El, List.filter_app, filter_old.
    + by apply drop_old_filter.
    + by apply Forall_app in Hold as [? _].
Qed.

Lemma tracks_push t now c s a : tracks t s a -> t <= now ->
  tracks now (mkFleet (fb_state s) (fb_openedAt s) (fb_halfOpenConsumed s) (fb_window s ++ [mkSpend now c]))
    (mkFleet (fb_state a) (fb_openedAt a) (fb_halfOpenConsumed a) (fb_window a ++ [mkSpend now c])).
Proof.
  intros [E1 E2 E3 (gone & El & Hg) Hp Ho] Ht. split; try done; cbn [fb_window].
  - exists gone. split; [by rewrite El, <- app_assoc|]. eapply Forall_impl; [exact Hg|]. cbn. lia.
  - apply Forall_app. split; [|by repeat constructor; cbn; lia]. eapply Forall_impl; [exact Hp|]. cbn. lia.
  - apply ordered_snoc; [done|]. eapply Forall_impl; [exact Hp|]. cbn. lia.
Qed.

(** Changing the control part keeps the link. *)
Lemma tracks_control t s a st o c : tracks t s a ->
  tracks t (mkFleet st o c (fb_window s)) (mkFleet st o c (fb_window a)).
Proof. intros []. by split. Qed.

Lemma tracks_later t t' s a : tracks t s a -> t <= t' -> tracks t' s a.
Proof.
  intros [E1 E2 E3 (gone & El & Hg) Hp Ho] Ht. split; try done.
  - exists gone. split; [done|]. eapply Forall_impl; [exact Hg|]. cbn. lia.
  - eapply Forall_impl; [exact Hp|]. cbn. lia.
Qed.

Lemma tracks_init t : tracks t fleet_init fleet_init.
Proof. split; try done; cbn; [exists []; by split|constructor]. Qed.

Lemma fleet_step_tracks t s a op l : tracks t s a -> clock_from t (op :: l) ->
  exists t', clock_from t' l /\ tracks t' (fleet_step s op).1 (spec_step a op).1 /\
             (fleet_step s op).2 = (spec_step a op).2.
Proof.
  intros Ht Hc. destruct op as [tE now|now tE c|tE|]; cbn [clock_from] in Hc.
  - destruct Hc as [Hle Hc]. exists now. split; [done|].
    destruct (tracks_evict t tE s a Ht ltac:(lia)) as [Ht' Es].
    apply (tracks_later _ now) in Ht'; [|lia]. cbn [fleet_step spec_step]. unfold fleet_canProceed. cbv zeta.
    rewrite (tr_state _ _ _ Ht'), Es. destruct (fb_state a) eqn:Ea; cbn [fst snd].
    + by split.
    + rewrite (tr_opened _ _ _ Ht'). destruct (fb_openedAt a) as [o|] eqn:Eo; [|by split].
      destruct (cooldownMs cfg <=? now - o); cbn [fb_halfOpenConsumed fst snd]; [|by split].
      split; [|done]. exact (tracks_control _ _ _ fleet_half_open (Some o) true Ht').
    + rewrite (tr_consumed _ _ _ Ht'). destruct (fb_halfOpenConsumed a) eqn:Ec; cbn [fst snd negb]; (split; [|done]).
      * pose proof (tracks_control _ _ _ fleet_half_open (fb_openedAt a) true Ht') as H.
        destruct Ht'. destruct s as [ss so sc sw]; cbn in *. by subst.
      * rewrite (tr_opened _ _ _ Ht'). exact (tracks_control _ _ _ fleet_half_open (fb_openedAt a) true Ht').
  - destruct Hc as [Hle Hc]. exists tE. split; [done|]. split; [|done].
    pose proof (tracks_push t now c s a Ht ltac:(lia)) as Hp.
    destruct (tracks_evict now tE _ _ Hp ltac:(lia)) as [Ht' Es]. cbn [fleet_step spec_step fst].
    unfold fleet_recordCost. cbv zeta. rewrite (tr_state _ _ _ Ht'), Es. cbn [fb_state fb_window].
    destruct (fb_state a) eqn:Ea.
    + destruct (num_gtb _ _); [by apply (tracks_control _ _ _ fleet_open (Some now) false) in Ht'|done].
    + done.
    + destruct (num_gtb _ _); [by apply (tracks_control _ _ _ fleet_open (Some now) false) in Ht'|].
      by apply (tracks_control _ _ _ fleet_closed None false) in Ht'.
  - destruct Hc as [Hle Hc]. exists tE. split; [done|].
    destruct (tracks_evict t tE s a Ht Hle) as [Ht' Es]. cbn [fleet_step spec_step fleet_windowSpend fst snd].
    split; [done|]. by rewrite Es.
  - exists t. split; [done|]. split; [|done]. apply tracks_init.
Qed.

(** C32: As long as the clock does not go back, the fleet breaker, which drops old
    entries as it goes, answers every question and every look at the spend as the
    machine that keeps all spends and sums those of the rolling window. *)
Theorem fleet_refines_log t ops :
  clock_from t ops -> (run_ops fleet_step fleet_init ops).2 = (run_ops spec_step fleet_init ops).2.
Proof.
  intros Hc. pose proof (tracks_init t) as Ht. revert t Hc Ht. generalize fleet_init at 2 4. generalize fleet_init.
  induction ops as [|op ops IH]; intros s a t Hc Ht; [done|].
  destruct (fleet_step_tracks t s a op ops Ht Hc) as (t' & Hc' & Ht' & Ea). cbn [run_ops].
  destruct (fleet_step s op) as [s1 x], (spec_step a op) as [a1 y]. cbn [fst snd] in *. subst y.
  specialize (IH s1 a1 t' Hc' Ht').
  destruct (run_ops fleet_step s1 ops) as [s2 l], (run_ops spec_step a1 ops) as [a2 l']. cbn in *. by f_equal.
Qed.
End FleetProps.

(** Two dollars an hour, one minute of cooldown. *)
Definition demo_fleet : CircuitBreakerConfig := fleet_config (Some (num_of_Z 2)) None (Some 60000).

Definition demo_ops : list FleetOp :=
  [Ask 0 0; Spend 10 10 (num_of_Z 3); Ask 20 20; Ask 60010 60010; Ask 60020 60020;
   Spend 3600020 3600021 num_one; Ask 3600030 3600030; Look 7300000].

Example demo_answers : (run_ops (fleet_step demo_fleet) fleet_init demo_ops).2 =
  [Granted true; Done; Granted false; Granted true; Granted false; Done; Granted true; Amount num_zero].
Proof. vm_compute. reflexivity. Qed.

Lemma fleet_refines_log_witness :
  clock_from 0 demo_ops /\
  (run_ops (fleet_step demo_fleet) fleet_init demo_ops).2 = (run_ops (spec_step demo_fleet) fleet_init demo_ops).2.
Proof. split; [cbn; lia|]. apply (fleet_refines_log demo_fleet 0). cbn. lia. Defined.

Section FleetControl.
Context (cfg : CircuitBreakerConfig).

(** The control states that occur. *)
Definition fleet_ok (s : FleetCircuitBreaker) : Prop :=
  match fb_state s with
  | fleet_closed => fb_openedAt s = None /\ fb_halfOpenConsumed s = false
  | fleet_open => is_Some (fb_openedAt s) /\ fb_halfOpenConsumed s = false
  | fleet_half_open => is_Some (fb_openedAt s) /\ fb_halfOpenConsumed s = true
  end.

Lemma fleet_step_ok s op : fleet_ok s -> fleet_ok (fleet_step cfg s op).1.
Proof.
  unfold fleet_ok. destruct op as [tE now|now tE c|tE|]; cbn [fleet_step].
  - unfold fleet_canProceed, fleet_evict. cbv zeta. cbn [fb_state fb_openedAt fb_halfOpenConsumed fb_window].
    destruct (fb_state s) eqn:E; cbn.
    + by rewrite ?E.
    + intros [[o Eo] Hc]. rewrite Eo. destruct (_ <=? _); cbn; rewrite ?E; by eauto.
    + intros [Ho Hc]. rewrite Hc. cbn. rewrite ?E. done.
  - unfold fleet_recordCost, fleet_evict. cbv zeta. cbn [fb_state fb_openedAt fb_halfOpenConsumed fb_window fst].
    destruct (fb_state s) eqn:E; cbn; intros H; [destruct (num_gtb _ _); cbn; [by eauto|by rewrite ?E]|by rewrite ?E|].
    destruct (num_gtb _ _); cbn; by eauto.
  - cbn. done.
  - done.
Qed.

Lemma run_ops_ok ops s : fleet_ok s -> fleet_ok (run_ops (fleet_step cfg) s ops).1.
Proof.
  revert s. induction ops as [|op ops IH]; intros s Hs; [done|]. cbn [run_ops].
  apply (fleet_step_ok _ op) in Hs. destruct (fleet_step cfg s op) as [s1 a]. apply IH in Hs.
  cbn [fst] in Hs. revert Hs. by destruct (run_ops (fleet_step cfg) s1 ops).
Qed.

Definition quiet (op : FleetOp) : Prop := match op with Ask _ _ | Look _ => True | _ => False end.
Definition granted (a : FleetAnswer) : bool := match a with Granted b => b | _ => false end.

Lemma half_open_quiet ops s : fleet_ok s -> fb_state s = fleet_half_open -> Forall quiet ops ->
  fb_state (run_ops (fleet_step cfg) s ops).1 = fleet_half_open /\
  forallb (fun a => negb (granted a)) (run_ops (fleet_step cfg) s ops).2 = true.
Proof.
  intros Hok Hs F. revert s Hok Hs. induction F as [|op ops Hq _ IH]; intros s Hok Hs; [done|]. cbn [run_ops].
  pose proof (fleet_step_ok s op Hok) as Hok1. unfold fleet_ok in Hok. rewrite Hs in Hok. destruct Hok as [_ Hc].
  assert (Hst : fb_state (fleet_step cfg s op).1 = fleet_half_open /\ granted (fleet_step cfg s op).2 = false).
  { destruct op; try done; cbn [fleet_step].
    unfold fleet_canProceed, fleet_evict. cbv zeta. cbn [fb_state fb_halfOpenConsumed]. rewrite Hs.
    cbn [fb_halfOpenConsumed]. rewrite Hc. by cbn. }
  destruct (fleet_step cfg s op) as [s1 a]. cbn [fst snd] in *. destruct Hst as [H1 H2].
  destruct (IH s1 Hok1 H1) as [H3 H4]. destruct (run_ops _ s1 ops) as [s2 l]. cbn in *. by rewrite H2.
Qed.

(** The state after a history. *)
Definition fleet_after (ops : list FleetOp) : FleetCircuitBreaker :=
  (run_ops (fleet_step cfg) fleet_init ops).1.

Lemma run_ops_app step s l1 l2 :
  run_ops step s (l1 ++ l2) =
    let r1 := run_ops step s l1 in let r2 := run_ops step r1.1 l2 in (r2.1, r1.2 ++ r2.2).
Proof.
  revert s. induction l1 as [|x l1 IH]; intros s; cbn [app run_ops fst snd]; [by destruct (run_ops step s l2)|].
  destruct (step s x) as [s1 a]. rewrite IH. cbv zeta.
  by destruct (run_ops step s1 l1) as [s2 l]; cbn [fst snd]; destruct (run_ops step s2 l2).
Qed.

Lemma run_ops_one step s op : run_ops step s [op] = ((step s op).1, [(step s op).2]).
Proof. cbn [run_ops]. by destruct (step s op). Qed.

Lemma fleet_after_snoc ops op : fleet_after (ops ++ [op]) = (fleet_step cfg (fleet_after ops) op).1.
Proof. unfold fleet_after. rewrite run_ops_app. cbv zeta. by rewrite run_ops_one. Qed.

(** The circuit was tripped by a cost recorded at [trip], and has been open ever
    since. *)
Definition open_since (trip : Z) (history : list FleetOp) : Prop :=
  exists before tE c mid, history = before ++ Spend trip tE c :: mid /\
    fb_state (fleet_after before) <> fleet_open /\
    forall l1 l2, mid = l1 ++ l2 ->
      fb_state (fleet_after (before ++ Spend trip tE c :: l1)) = fleet_open.

Lemma open_step s op : fb_state s = fleet_open -> fb_state (fleet_step cfg s op).1 = fleet_open ->
  fb_openedAt (fleet_step cfg s op).1 = fb_openedAt s.
Proof.
  intros Hs. destruct op as [tE now|now tE c|tE|]; cbn [fleet_step].
  - unfold fleet_canProceed, fleet_evict. cbv zeta. cbn [fb_state fb_openedAt]. rewrite Hs.
    destruct (fb_openedAt s) as [o|] eqn:Eo; [|by cbn].
    by destruct (_ <=? _); cbn.
  - unfold fleet_recordCost, fleet_evict. cbv zeta. cbn [fb_state fb_openedAt fb_window]. by rewrite Hs.
  - by cbn.
  - by cbn.
Qed.

Lemma trip_step s op : fb_state s <> fleet_open -> fb_state (fleet_step cfg s op).1 = fleet_open ->
  exists now tE c, op = Spend now tE c /\ fb_openedAt (fleet_step cfg s op).1 = Some now.
Proof.
  intros Hs. destruct op as [tE now|now tE c|tE|]; cbn [fleet_step].
  - unfold fleet_canProceed, fleet_evict. cbv zeta. cbn [fb_state fb_openedAt fb_halfOpenConsumed].
    destruct (fb_state s) eqn:E; cbn; [congruence|done|]. destruct (fb_halfOpenConsumed s); cbn; congruence.
  - intros H. exists now, tE, c. split; [done|]. revert H.
    unfold fleet_recordCost, fleet_evict. cbv zeta. cbn [fb_state fb_openedAt fb_window].
    destruct (fb_state s) eqn:E; [|done|]; (destruct (num_gtb _ _); cbn; [done|congruence]).
  - by cbn.
  - by cbn.
Qed.

Lemma open_opened history : fb_state (fleet_after history) = fleet_open ->
  exists trip, fb_openedAt (fleet_after history) = Some trip /\ open_since trip history.
Proof.
  induction history as [|op history IH] using rev_ind; [done|]. intros H.
  rewrite fleet_after_snoc in H |- *. destruct (decide (fb_state (fleet_after history) = fleet_open)) as [Ho|Ho].
  - destruct (IH Ho) as (trip & Et & before & tE & c & mid & -> & Hb & Hm).
    exists trip. split; [by rewrite open_step|]. exists before, tE, c, (mid ++ [op]).
    split; [by rewrite <- app_assoc|]. split; [done|]. intros l1 l2 El.
    destruct l2 as [|x l2 _] using rev_ind.
    + rewrite app_nil_r in El. subst l1. rewrite app_comm_cons, app_assoc, fleet_after_snoc. exact H.
    + rewrite app_assoc in El. apply app_inj_tail in El as [El _]. by apply (Hm l1 l2).
  - destruct (trip_step _ _ Ho H) as (now & tE & c & -> & Et). exists now. split; [done|].
    exists history, tE, c, []. split; [done|]. split; [done|]. intros l1 l2 El.
    destruct l1; [|done]. by rewrite fleet_after_snoc.
Qed.

(** An open circuit that a question does not pass stays as it is. *)
Lemma open_ask s o tE now : fb_state s = fleet_open -> fb_openedAt s = Some o ->
  fleet_step cfg s (Ask tE now) =
    if cooldownMs cfg <=? now - o
    then (mkFleet fleet_half_open (Some o) true (drop_old (tE - windowMs cfg) (fb_window s)), Granted true)
    else (fleet_evict cfg tE s, Granted false).
Proof.
  intros Hs Eo. cbn [fleet_step]. unfold fleet_canProceed, fleet_evict. cbv zeta.
  cbn [fb_state fb_openedAt fb_halfOpenConsumed fb_window]. rewrite Hs, Eo. by destruct (_ <=? _).
Qed.

(** Questions alone get one grant at most, the first asked a cooldown after [o]. *)
Lemma open_questions o ops s :
  fleet_ok s -> fb_state s = fleet_open -> fb_openedAt s = Some o -> Forall quiet ops ->
  forall l1 op l2, ops = l1 ++ op :: l2 ->
    granted (fleet_step cfg (run_ops (fleet_step cfg) s l1).1 op).2 = true <->
    (exists tE now, op = Ask tE now /\ cooldownMs cfg <= now - o) /\
    Forall (fun op => match op with Ask _ t => t - o < cooldownMs cfg | _ => True end) l1.
Proof.
  intros Hok Hs Eo F l1. revert ops s Hok Hs Eo F.
  induction l1 as [|x l1 IH]; intros ops s Hok Hs Eo F op l2 ->; cbn [run_ops fst].
  - apply Forall_cons in F as [Hq _]. destruct op as [tE now| |tE|]; try done.
    + rewrite (open_ask s o) by done. destruct (Z.leb_spec (cooldownMs cfg) (now - o)) as [H|H]; cbn.
      * split; [|done]. intros _. split; [by exists tE, now|constructor].
      * split; [done|]. intros [(? & ? & [= <- <-] & ?) _]. lia.
    + cbn. split; [done|]. by intros [(? & ? & ? & _) _].
  - apply Forall_cons in F as [Hq F]. pose proof (fleet_step_ok s x Hok) as Hok1.
    assert (Hrest : Forall quiet l1) by (by apply Forall_app in F as [? _]).
    assert (Hop : quiet op) by (apply Forall_app in F as [_ F]; by apply Forall_cons in F as [? _]).
    destruct x as [tE now| |tE|]; try done.
    + rewrite Forall_cons. rewrite (open_ask s o) in * by done.
      destruct (Z.leb_spec (cooldownMs cfg) (now - o)) as [H|H].
      * cbn [fst] in Hok1 |- *. split; [|intros [_ [? _]]; lia]. intros Hg. exfalso.
        set (s1 := mkFleet _ _ _ _) in *.
        destruct (half_open_quiet (l1 ++ [op]) s1 Hok1 eq_refl) as [_ Hno].
        { apply Forall_app. split; [done|]. by constructor. }
        rewrite run_ops_app in Hno. cbv zeta in Hno. rewrite run_ops_one in Hno. cbn [snd] in Hno.
        rewrite forallb_app, andb_true_iff in Hno. cbn [forallb] in Hno. destruct (run_ops _ s1 l1).
        cbn [fst snd] in *. rewrite Hg in Hno. by destruct Hno.
      * cbn [fst] in Hok1 |- *.
        specialize (IH (l1 ++ op :: l2) (fleet_evict cfg tE s) Hok1 Hs Eo F op l2 eq_refl).
        destruct (run_ops _ (fleet_evict cfg tE s) l1). cbn [fst] in *. rewrite IH. intuition lia.
    + rewrite Forall_cons. cbn [fleet_step fleet_windowSpend fst] in *.
      specialize (IH (l1 ++ op :: l2) (fleet_evict cfg tE s) Hok1 Hs Eo F op l2 eq_refl).
      destruct (run_ops _ (fleet_evict cfg tE s) l1). cbn [fst] in *. rewrite IH. intuition.
Qed.

(** C33: A tripped fleet breaker lets exactly one probe through and waits for its
    cost.  In any history that leaves the circuit open, a cost recorded at some
    time [trip] opened it and it has been open ever since.  From there on, a
    question is granted exactly when it is the first one asked a cooldown or more
    after [trip]: refused questions, looks at the spend and costs recorded
    meanwhile move nothing; and after the grant every question is refused,
    whatever the time, until a cost is recorded or an operator resets. *)
Theorem fleet_single_probe history :
  fb_state (fleet_after history) = fleet_open ->
  exists trip, open_since trip history /\
  forall l1 op, Forall quiet (l1 ++ [op]) ->
    granted (fleet_step cfg (fleet_after (history ++ l1)) op).2 = true <->
    (exists tE now, op = Ask tE now /\ cooldownMs cfg <= now - trip) /\
    Forall (fun op => match op with Ask _ t => t - trip < cooldownMs cfg | _ => True end) l1.
Proof.
  intros Hs. destruct (open_opened history Hs) as (trip & Et & Hsince). exists trip. split; [done|].
  intros l1 op F. unfold fleet_after in *.
  rewrite run_ops_app. cbv zeta. cbn [fst]. by eapply open_questions; [apply run_ops_ok| | |exact F|].
Qed.
End FleetControl.

Lemma fleet_single_probe_witness :
  fb_state (fleet_after demo_fleet [Spend 10 10 (num_of_Z 3); Ask 20 20]) = fleet_open /\
  exists trip, open_since demo_fleet trip [Spend 10 10 (num_of_Z 3); Ask 20 20].
Proof.
  split; [vm_compute; reflexivity|].
  destruct (fleet_single_probe demo_fleet [Spend 10 10 (num_of_Z 3); Ask 20 20]) as (trip & H & _);
    [vm_compute; reflexivity|]. by exists trip.
Defined.

(** * Sums *)

Lemma sum_from_app {A} (f : A -> num) acc l l' : sum_from f acc (l ++ l') = sum_from f (sum_from f acc l) l'.
Proof. apply fold_left_app. Qed.

Lemma sum_by_snoc {A} (f : A -> num) l x : sum_by f (l ++ [x]) = num_add (sum_by f l) (f x).
Proof. unfold sum_by. by rewrite sum_from_app. Qed.

Lemma num_add_nan_l x : num_add num_nan x = num_nan.
Proof. by destruct x. Qed.

Lemma num_add_nan_r x : num_add x num_nan = num_nan.
Proof. by destruct x. Qed.

(** One amount that is not a number makes the sum not a number. *)
Lemma sum_from_nan {A} (f : A -> num) acc l : acc = num_nan \/ (exists x, x ∈ l /\ f x = num_nan) ->
  sum_from f acc l = num_nan.
Proof.
  unfold sum_from. revert acc. induction l as [|x l IH]; intros acc [->|(y & Hy & Ey)]; cbn [fold_left]; try done.
  - by apply elem_of_nil in Hy.
  - apply IH. left. apply num_add_nan_l.
  - apply IH. apply elem_of_cons in Hy as [->|Hy]; [left; rewrite Ey; apply num_add_nan_r|right; by exists y].
Qed.

(** * The budget router *)

Section BudgetProps.
Context (o : EconomyRouterOpts).

Lemma spend_since_snoc c h e : c <= ce_ts e -> spend_since c (h ++ [e]) = num_add (spend_since c h) (ce_costUsd e).
Proof.
  intros Hc. unfold spend_since. rewrite List.filter_app. cbn. rewrite (proj2 (Z.leb_le _ _)) by done.
  apply sum_by_snoc.
Qed.

(** A cycle the budget router admits and that then costs what was estimated
    never trips its breaker: read at the same instant, neither the hourly nor the
    monthly spend is above its budget afterwards and the circuit stays closed. *)
Theorem admitted_never_trips t agentId est inT outT s s' :
  0 <= hourly_window o -> 0 <= monthly_window o ->
  budget_canProceed o t t t est s = (s', Allowed) ->
  let after := (recordCycle o t t t agentId est inT outT s').1 in
  br_circuitOpen after = false /\
  num_gtb (hourlySpend o t after) (bo_hourlyBudgetUsd o) = false /\
  num_gtb (monthlySpend o t after) (bo_monthlyBudgetUsd o) = false.
Proof.
  intros Hh Hm. unfold budget_canProceed. cbv zeta. set (c := budget_cool t s).
  destruct (br_circuitOpen c) eqn:Eo; [done|].
  destruct (num_gtb _ (bo_hourlyBudgetUsd o)) eqn:E1; [done|].
  destruct (num_gtb _ (bo_monthlyBudgetUsd o)) eqn:E2; [done|]. intros [= <-].
  assert (Hs : forall w, 0 <= w -> spend_since (t - w) (br_history c ++ [mkCostEntry agentId est inT outT t]) =
                         num_add (spend_since (t - w) (br_history c)) est)
    by (intros w Hw; by rewrite spend_since_snoc by (cbn; lia)).
  assert (E : (recordCycle o t t t agentId est inT outT c).1 =
              mkBudget (br_history c ++ [mkCostEntry agentId est inT outT t]) false (br_circuitOpenedAt c)).
  { unfold recordCycle. cbv zeta. unfold hourlySpend at 1. cbn [br_history br_circuitOpen].
    rewrite Hs by done. unfold hourlySpend in E1. by rewrite E1, Eo. }
  rewrite E. unfold hourlySpend, monthlySpend in *. cbn [br_history br_circuitOpen]. rewrite !Hs by done. by rewrite E1, E2.
Qed.

(** The budget router fails open on a cost that is not a number, where the
    fleet breaker fails closed: while such a cost is inside the window, the fleet
    breaker refuses every cycle when closed, and the budget router with a closed
    circuit admits any cycle, whatever its estimate and whatever was spent, and
    recording more never opens its circuit. *)
Theorem nan_cost_contrast cfg :
  (forall tE now s e, fb_state s = fleet_closed -> e ∈ drop_old (tE - windowMs cfg) (fb_window s) ->
     se_costUsd e = num_nan -> (fleet_canProceed cfg tE now s).2 = false) /\
  (forall tC tH tM est s e, br_circuitOpen s = false -> e ∈ br_history s -> ce_costUsd e = num_nan ->
     tH - hourly_window o <= ce_ts e -> tM - monthly_window o <= ce_ts e ->
     budget_canProceed o tC tH tM est s = (s, Allowed) /\
     forall now tR agentId cost inT outT,
       br_circuitOpen (recordCycle o now tH tR agentId cost inT outT s).1 = false).
Proof.
  split.
  - intros tE now s e Hs He En. unfold fleet_canProceed. cbv zeta. cbn [fleet_evict fb_state]. rewrite Hs. cbn [snd].
    unfold fleet_spend, sum_by. rewrite sum_from_nan; [done|]. right. by exists e.
  - intros tC tH tM est s e Hs He En Hh Hm.
    assert (Hnan : forall c h, e ∈ h -> c <= ce_ts e -> spend_since c h = num_nan).
    { intros c h Hin Hc. unfold spend_since, sum_by. apply sum_from_nan. right. exists e. split; [|done].
      apply list_elem_of_In, filter_In. split; [by apply list_elem_of_In|by apply Z.leb_le]. }
    assert (Hg : forall x y, num_gtb (num_add num_nan x) y = false) by (intros x y; rewrite num_add_nan_l; by destruct y).
    split.
    + unfold budget_canProceed, budget_cool. rewrite Hs. cbv zeta. rewrite Hs. unfold hourlySpend, monthlySpend.
      by rewrite !Hnan, !Hg by done.
    + intros now tR agentId cost inT outT. unfold recordCycle. cbv zeta. unfold hourlySpend at 1. cbn [br_history br_circuitOpen].
      rewrite Hnan by (done || set_solver). assert (Hn : num_gtb num_nan (bo_hourlyBudgetUsd o) = false) by (by destruct (bo_hourlyBudgetUsd o)).
      rewrite Hn, Hs. done.
Qed.

(** A refusal says why; an open circuit closes by itself once its cooldown is
    over. *)
Lemma budget_refusals tC tH tM est s s' why : budget_canProceed o tC tH tM est s = (s', Refused why) ->
  s' = budget_cool tC s /\
  ((br_circuitOpen s' = true /\ why = "circuit-breaker-open") \/
   (br_circuitOpen s' = false /\
    (why = over_budget "hourly" (num_add (hourlySpend o tH s') est) (bo_hourlyBudgetUsd o) \/
     why = over_budget "monthly" (num_add (monthlySpend o tM s') est) (bo_monthlyBudgetUsd o)))).
Proof.
  unfold budget_canProceed. cbv zeta. set (c := budget_cool tC s). destruct (br_circuitOpen c) eqn:Eo.
  { intros [= <- <-]. by auto. }
  destruct (num_gtb _ (bo_hourlyBudgetUsd o)); [intros [= <- <-]; by auto|].
  destruct (num_gtb _ (bo_monthlyBudgetUsd o)); [intros [= <- <-]; by auto|done].
Qed.

(** The tier is one of the catalog; only an empty catalog has none. *)
Lemma selectTier_in complexity :
  match selectTier o complexity with Ok t => t ∈ bo_tiers o | Throw _ => bo_tiers o = [] end.
Proof.
  assert (Hin : forall k t, om_get k (tier_map o) = Some t -> t ∈ bo_tiers o).
  { intros k t H. unfold tier_map, om_of_list in H.
    assert (Hall : forall l m, (forall k t, om_get k m = Some t -> t ∈ bo_tiers o) -> (forall t, t ∈ l -> t ∈ bo_tiers o) ->
      forall k t, om_get k (fold_left (fun m kv => om_set kv.1 kv.2 m) (map (fun t => (pt_name t, t)) l) m) = Some t -> t ∈ bo_tiers o).
    { clear. intros l. induction l as [|x l IH]; intros m Hm Hl k t H; cbn [map fold_left] in H; [by eapply Hm|].
      eapply IH; [..|exact H]; [|set_solver]. intros k' t'. rewrite om_get_set. case_decide; [intros [= <-]; set_solver|apply Hm]. }
    by eapply (Hall (bo_tiers o) []). }
  unfold selectTier, defaultTier. destruct (om_get (complexityToTierName complexity) (tier_map o)) eqn:E; [by eapply Hin|].
  destruct (om_get (bo_defaultTier o) (tier_map o)) eqn:E'; [by eapply Hin|].
  destruct (bo_tiers o); [done|left].
Qed.
End BudgetProps.

Definition demo_budget : EconomyRouterOpts :=
  mkBudgetOpts [] (num_of_Z 5) (num_of_Z 50) l_free None None true None.

Lemma admitted_never_trips_witness :
  budget_canProceed demo_budget 10 10 10 (num_of_Z 5) budget_init = (budget_init, Allowed) /\
  br_circuitOpen (recordCycle demo_budget 10 10 10 "a" (num_of_Z 5) num_one num_one budget_init).1 = false.
Proof.
  split; [vm_compute; reflexivity|].
  apply (admitted_never_trips demo_budget 10 "a" (num_of_Z 5) num_one num_one budget_init budget_init);
    [done|done|vm_compute; reflexivity].
Defined.

Lemma nan_cost_contrast_witness :
  ce_costUsd (mkCostEntry "a" num_nan num_one num_one 5) = num_nan /\
  (budget_canProceed demo_budget 10 10 10 (num_of_Z 1000)
    (mkBudget [mkCostEntry "a" num_nan num_one num_one 5] false None)).2 = Allowed.
Proof.
  split; [reflexivity|]. destruct (nan_cost_contrast demo_budget demo_fleet) as [_ H].
  destruct (H 10 10 10 (num_of_Z 1000) (mkBudget [mkCostEntry "a" num_nan num_one num_one 5] false None)
    (mkCostEntry "a" num_nan num_one num_one 5)) as [E _];
    [reflexivity|left|reflexivity|vm_compute; discriminate|vm_compute; discriminate|]. by rewrite E.
Defined.

(** * The cost-informed router *)

(** No tier of a list undercuts the one picked, which is one of them. *)
Lemma cheapest_from_spec l best :
  cheapest_from best l ∈ best :: l /\
  forall t, t ∈ best :: l -> num_ltb (costPerMTokenOut t) (costPerMTokenOut (cheapest_from best l)) = false.
Proof.
  unfold cheapest_from. set (pick := fun best t => if num_ltb (costPerMTokenOut t) (costPerMTokenOut best) then t else best).
  assert (H : forall l best (seen : list ModelTier), best ∈ seen ->
    (forall t, t ∈ seen -> num_ltb (costPerMTokenOut t) (costPerMTokenOut best) = false) ->
    fold_left pick l best ∈ seen ++ l /\
    forall t, t ∈ seen ++ l -> num_ltb (costPerMTokenOut t) (costPerMTokenOut (fold_left pick l best)) = false).
  { clear l best. intros l. induction l as [|x l IH]; intros best seen Hb Hs; [by rewrite app_nil_r|].
    cbn [fold_left]. rewrite (cons_middle x seen l), app_assoc.
    assert (Hx : forall t, t ∈ seen ++ [x] -> num_ltb (costPerMTokenOut t) (costPerMTokenOut (pick best x)) = false).
    { intros t [Ht|Ht%list_elem_of_singleton]%elem_of_app; unfold pick.
      - destruct (num_ltb (costPerMTokenOut x) (costPerMTokenOut best)) eqn:E; [|by apply Hs].
        destruct (num_ltb (costPerMTokenOut t) (costPerMTokenOut x)) eqn:E'; [|done].
        rewrite <- (Hs t Ht). symmetry. by eapply num_ltb_trans.
      - subst t. destruct (num_ltb (costPerMTokenOut x) (costPerMTokenOut best)) eqn:E; [apply num_ltb_irrefl|done]. }
    apply IH; [|done]. unfold pick. destruct (num_ltb _ _); set_solver. }
  destruct (H l best [best]) as [H1 H2]; [left| |by split].
  intros t ->%list_elem_of_singleton. apply num_ltb_irrefl.
Qed.

Lemma in_filter {A} (f : A -> bool) l x : x ∈ List.filter f l <-> x ∈ l /\ f x = true.
Proof. by rewrite !list_elem_of_In, filter_In. Qed.

Lemma choose_in avg h r : (choose avg h r).1 ∈ h :: r.
Proof.
  unfold choose. destruct avg as [a|]; [|left]. destruct (num_ltb a _); [destruct r; [left|right; left]|].
  destruct (num_gtb a _); [|left]. destruct (cheapest_from_spec (h :: r) h) as [H _]. cbn [fst]. set_solver.
Qed.

Lemma choose_single avg h : (choose avg h []).1 = h.
Proof. pose proof (choose_in avg h []) as H. by apply list_elem_of_singleton in H. Qed.

Section RouterProps.
Context (cf : EconomyRouterConfig).

(** A route takes one of the policy's tiers for the category: an affordable
    one when the remaining budget, less its buffer, affords any, and one that no
    candidate undercuts otherwise; it is flagged blocked exactly when the fleet
    breaker, asked once, refuses.  It fails exactly when the policy fails or has
    no tier for the category, and even then the breaker has been asked. *)
Theorem route_within_policy tE now category opts s :
  let '(b, proceed) := fleet_canProceed (rc_breaker cf) tE now (er_breaker s) in
  let '(s', r) := route cf tE now category opts s in
  er_breaker s' = b /\ er_tracker s' = er_tracker s /\ er_total s' = er_total s + 1 /\
  match rc_policy cf category (rc_mode cf) with
  | Throw e => r = Throw e
  | Ok [] => r = Throw (no_candidates category)
  | Ok ((c :: cs) as candidates) =>
      exists d, r = Ok d /\ rd_tier d ∈ candidates /\ rd_blockedByBreaker d = negb proceed /\
        er_nonBlocked s' = er_nonBlocked s + (if proceed then 1 else 0) /\
        forall budget, rt_budgetRemainingUsd opts = Some budget ->
          num_leb (estimateCallCost (rd_tier d)) (spendable cf budget) = true \/
          (forall t, t ∈ candidates -> num_leb (estimateCallCost t) (spendable cf budget) = false /\
             num_ltb (costPerMTokenOut t) (costPerMTokenOut (rd_tier d)) = false)
  end.
Proof.
  unfold route. destruct (fleet_canProceed (rc_breaker cf) tE now (er_breaker s)) as [b proceed].
  destruct (rc_policy cf category (rc_mode cf)) as [[|c cs]|e]; [done| |done].
  set (avg := observedAvgCostUsd cf category (rt_skillId opts) _). set (cands := c :: cs).
  set (pool := match affordable cf (rt_budgetRemainingUsd opts) cands with [] => _ | _ => _ end).
  pose proof (choose_in avg pool.1 pool.2) as Hin. destruct (choose avg pool.1 pool.2) as [chosen reason] eqn:Ec.
  cbn [fst] in Hin. cbn [er_breaker er_tracker er_total er_nonBlocked]. split_and!; try done.
  eexists. split; [done|]. cbn [rd_tier rd_blockedByBreaker].
  destruct (cheapest_from_spec cands c) as [Hc1 Hc2].
  assert (Hpool : (affordable cf (rt_budgetRemainingUsd opts) cands = [] /\ chosen = cheapest_from c cands) \/
                  chosen ∈ affordable cf (rt_budgetRemainingUsd opts) cands).
  { unfold pool in *. destruct (affordable cf _ cands) as [|p ps]; [left|by right].
    split; [done|]. cbn [fst snd] in *. by apply list_elem_of_singleton in Hin. }
  assert (Hsub : forall t, t ∈ affordable cf (rt_budgetRemainingUsd opts) cands -> t ∈ cands).
  { intros t. unfold affordable. destruct (rt_budgetRemainingUsd opts); [|done].
    by intros [? _]%in_filter. }
  split; [|split; [done|split]].
  - destruct Hpool as [[_ ->]|H]; [|by apply Hsub]. unfold cands in *. set_solver.
  - destruct proceed; cbn [negb]; lia.
  - intros budget Eb. rewrite Eb in Hpool. cbn [affordable] in Hpool. destruct Hpool as [[Hn ->]|H].
    + right. intros t Ht. split; [|apply Hc2; by right].
      destruct (num_leb (estimateCallCost t) (spendable cf budget)) eqn:E; [|done].
      assert (Hf : t ∈ List.filter (fun t => num_leb (estimateCallCost t) (spendable cf budget)) cands)
        by (apply in_filter; exact (conj Ht E)).
      rewrite Hn in Hf. destruct (proj1 (elem_of_nil _) Hf).
    + left. exact (proj2 (proj1 (in_filter _ _ _) H)).
Qed.

(** ** A refused category costs the probe *)

Record RouteCall := mkCall { rq_evict : Z; rq_now : Z; rq_category : string; rq_opts : RouteOpts }.

Fixpoint run_routes (s : EconomyRouter) (calls : list RouteCall) : EconomyRouter * list (result RouteDecision) :=
  match calls with
  | [] => (s, [])
  | q :: calls' =>
      let '(s1, r) := route cf (rq_evict q) (rq_now q) (rq_category q) (rq_opts q) s in
      let '(s2, l) := run_routes s1 calls' in (s2, r :: l)
  end.

Definition probe_out (b : FleetCircuitBreaker) : Prop := fb_state b = fleet_half_open /\ fb_halfOpenConsumed b = true.

Lemma probe_out_refuses cfg tE now b : probe_out b ->
  probe_out (fleet_canProceed cfg tE now b).1 /\ (fleet_canProceed cfg tE now b).2 = false.
Proof.
  intros [E1 E2]. unfold fleet_canProceed, fleet_evict. cbv zeta. cbn [fb_state]. rewrite E1.
  cbn [fb_halfOpenConsumed]. rewrite E2. by split.
Qed.

Lemma probe_out_routes calls s : probe_out (er_breaker s) ->
  Forall (fun r => match r with Ok d => rd_blockedByBreaker d = true | Throw _ => True end) (run_routes s calls).2.
Proof.
  revert s. induction calls as [|q calls IH]; intros s Hs; [constructor|]. cbn [run_routes].
  pose proof (route_within_policy (rq_evict q) (rq_now q) (rq_category q) (rq_opts q) s) as H.
  destruct (probe_out_refuses (rc_breaker cf) (rq_evict q) (rq_now q) _ Hs) as [H1 H2].
  destruct (fleet_canProceed _ _ _ _) as [b p]. cbn in H1, H2. subst p.
  destruct (route cf _ _ _ _ s) as [s1 r]. destruct H as (Eb & _ & _ & Hr). rewrite <- Eb in H1.
  specialize (IH s1 H1). destruct (run_routes s1 calls) as [s2 l]. constructor; [|done].
  destruct (rc_policy cf _ _) as [[|c cs]|e]; [by rewrite Hr| |by rewrite Hr].
  by destruct Hr as (d & -> & _ & Hb & _).
Qed.

(** A category without tiers can stop the fleet: asked about one when the
    cooldown of an open breaker is over, the router throws after the breaker has
    given its probe away, and from then on every route, at any time and for any
    category, is blocked until an outcome is recorded. *)
Theorem failed_route_blocks s o tE now category opts calls :
  fb_state (er_breaker s) = fleet_open -> fb_openedAt (er_breaker s) = Some o ->
  cooldownMs (rc_breaker cf) <= now - o ->
  (forall l, rc_policy cf category (rc_mode cf) = Ok l -> l = []) ->
  let '(s', r) := route cf tE now category opts s in
  is_ok r = false /\
  Forall (fun r => match r with Ok d => rd_blockedByBreaker d = true | Throw _ => True end) (run_routes s' calls).2.
Proof.
  intros Hs Ho Hc Hp. pose proof (route_within_policy tE now category opts s) as H.
  assert (Hb : probe_out (fleet_canProceed (rc_breaker cf) tE now (er_breaker s)).1).
  { unfold fleet_canProceed, fleet_evict. cbv zeta. cbn [fb_state fb_openedAt fb_window].
    rewrite Hs, Ho, (proj2 (Z.leb_le _ _)) by done. by split. }
  destruct (fleet_canProceed _ _ _ _) as [b p]. destruct (route cf tE now category opts s) as [s' r].
  destruct H as (Eb & _ & _ & Hr). cbn [fst] in Hb. rewrite <- Eb in Hb. split; [|by apply probe_out_routes].
  destruct (rc_policy cf category (rc_mode cf)) as [[|c cs]|e] eqn:Ep; [by subst r| |by subst r].
  by specialize (Hp _ eq_refl).
Qed.

(** Routed calls are counted once, and no more of them went through. *)
Definition counted (s : EconomyRouter) : Prop := 0 <= er_nonBlocked s <= er_total s.

Lemma route_counted tE now category opts s : counted s -> counted (route cf tE now category opts s).1.
Proof.
  unfold counted. intros Hs. pose proof (route_within_policy tE now category opts s) as H. unfold route in *.
  destruct (fleet_canProceed _ _ _ _) as [b p]. destruct (rc_policy cf _ _) as [[|c cs]|e]; [cbn; lia| |cbn; lia].
  destruct (choose _ _ _) as [t why]. cbn. destruct p; cbn; lia.
Qed.

(** ** Costs nobody sees *)

(** An outcome on a tier that is neither in the catalog nor among the policy's
    [standard] tiers costs nothing, in the history and for the breaker. *)
Lemma unpriced_outcome model inT outT candidates :
  (let '(p, m) := parseModel model in lookupTier p m = None /\ List.find (is_tier p m) candidates = None) ->
  rc_policy cf "standard" degraded = Ok candidates ->
  price (rc_policy cf) model inT outT = Ok (num_zero, "unknown").
Proof.
  unfold price. destruct (parseModel model) as [p m]. intros [-> H] E. rewrite E. unfold mbind, result_bind. by rewrite H.
Qed.
End RouterProps.

(** The default policy has tiers for every category but the names objects
    inherit. *)
Lemma default_policy_total category mode :
  match DefaultTierPolicy category mode with
  | Ok l => l <> [] /\ category ∉ object_prototype /\ Forall (fun t => t ∈ [TIER_FREE; TIER_CHEAP; TIER_MID; TIER_PREMIUM]) l
  | Throw e => e = not_iterable /\ category ∈ object_prototype
  end.
Proof.
  assert (Hown : forall k, k ∈ ["simple"; "standard"; "complex"; "reasoning"] -> k ∉ object_prototype).
  { intros k Hk. apply (bool_decide_eq_false_1 (k ∈ object_prototype)).
    repeat (apply elem_of_cons in Hk as [->|Hk]; [reflexivity|]). by apply elem_of_nil in Hk. }
  unfold DefaultTierPolicy, DEGRADED_ROUTING.
  destruct (String.eqb_spec category "simple") as [->|]; [split_and!; [done|apply Hown; set_solver|repeat constructor; set_solver]|].
  destruct (String.eqb_spec category "standard") as [->|]; [split_and!; [done|apply Hown; set_solver|repeat constructor; set_solver]|].
  destruct (String.eqb_spec category "complex") as [->|]; [split_and!; [done|apply Hown; set_solver|repeat constructor; set_solver]|].
  destruct (String.eqb_spec category "reasoning") as [->|]; [split_and!; [done|apply Hown; set_solver|repeat constructor; set_solver]|].
  case_bool_decide as H; [done|]. split_and!; [done|done|repeat constructor; set_solver].
Qed.

(** The probe given away for a category named like an inherited member. *)
Definition demo_router : EconomyRouterConfig := mkRouterConfig degraded DefaultTierPolicy demo_fleet None.
Definition tripped : EconomyRouter :=
  mkRouter tracker_init (mkFleet fleet_open (Some 0) false []) 0 0.

Lemma failed_route_blocks_witness :
  fb_state (er_breaker tripped) = fleet_open /\
  (run_routes demo_router (route demo_router 90000 90000 "constructor" (mkRouteOpts None None) tripped).1
     [mkCall 900000 900000 "simple" (mkRouteOpts None None)]).2 =
  [Ok (mkRoute TIER_FREE degraded "default-tier-no-history+breaker-open" true)] /\
  Forall (fun r => match r with Ok d => rd_blockedByBreaker d = true | Throw _ => True end)
    (run_routes demo_router (route demo_router 90000 90000 "constructor" (mkRouteOpts None None) tripped).1
       [mkCall 900000 900000 "simple" (mkRouteOpts None None)]).2.
Proof.
  split; [reflexivity|split; [vm_compute; reflexivity|]].
  pose proof (failed_route_blocks demo_router tripped 0 90000 90000 "constructor" (mkRouteOpts None None)
    [mkCall 900000 900000 "simple" (mkRouteOpts None None)]) as H.
  destruct (route demo_router 90000 90000 "constructor" (mkRouteOpts None None) tripped) as [s' r].
  apply H; [reflexivity|reflexivity|cbn; lia|]. intros l E. discriminate E.
Defined.

Lemma route_within_policy_witness :
  num_leb (estimateCallCost TIER_CHEAP) (spendable demo_router (num_of_decimal 1 3)) = true /\
  exists d, (route demo_router 0 0 "standard" (mkRouteOpts None (Some (num_of_decimal 1 3))) tripped).2 = Ok d /\
    rd_blockedByBreaker d = true.
Proof.
  split; [vm_compute; reflexivity|].
  pose proof (route_within_policy demo_router 0 0 "standard" (mkRouteOpts None (Some (num_of_decimal 1 3))) tripped) as H.
  change (fleet_canProceed (rc_breaker demo_router) 0 0 (er_breaker tripped))
    with (mkFleet fleet_open (Some 0) false [], false) in H.
  destruct (route demo_router 0 0 "standard" _ tripped) as [s' r].
  destruct H as (_ & _ & _ & d & -> & _ & Hb & _). by exists d.
Defined.

(** A tier the host's policy only offers for [complex] is recorded as free. *)
Definition host_policy : TierPolicy := fun category _ =>
  if (category =? "complex")%string then Ok [mkTier "acme" "huge" (num_of_Z 100) (num_of_Z 900) l_premium]
  else Ok [TIER_CHEAP].
Example unpriced_example :
  (fun r => (map cc_costUsd (getCosts None (er_tracker r.1)), fleet_spend (er_breaker r.1)))
    (recordOutcome (mkRouterConfig full host_policy demo_fleet None) 0 0 0 "run"
       (mkTier "acme" "huge" (num_of_Z 100) (num_of_Z 900) l_premium) MILLION MILLION num_zero
       (mkOutcomeOpts None None None) (mkRouter tracker_init fleet_init 0 0)) = ([num_zero], num_zero).
Proof. vm_compute. reflexivity. Qed.

(** * The cost ledger *)

(** The whole-number columns of a record. *)
Inductive Column := col_calls | col_input | col_output | col_cacheRead | col_cacheCreation | col_latency | col_errors.
Definition column (m : Column) (r : CostRecord) : Z :=
  match m with
  | col_calls => cr_callCount r | col_input => cr_inputTokens r | col_output => cr_outputTokens r
  | col_cacheRead => cr_cacheReadTokens r | col_cacheCreation => cr_cacheCreationTokens r
  | col_latency => cr_latencyMs r | col_errors => cr_errorCount r
  end.

(** One settled call, and what it adds to a column. *)
Record Settled := mkSettled { sd_start : Z; sd_finish : Z; sd_meta : Metadata; sd_end : CallEnd }.
Definition sd_cycle (c : Settled) : string := default UNKNOWN (md_correlationId (sd_meta c)).
Definition sd_worker (c : Settled) : string := default UNKNOWN (md_agentId (sd_meta c)).
Definition contribution (m : Column) (c : Settled) : Z :=
  let u := match sd_end c with Responded u _ => u | Threw _ => ZERO_USAGE end in
  match m with
  | col_calls => 1
  | col_input => us_inputTokens u
  | col_output => us_outputTokens u
  | col_cacheRead => default 0 (us_cacheReadTokens u)
  | col_cacheCreation => default 0 (us_cacheCreationTokens u)
  | col_latency => sd_finish c - sd_start c
  | col_errors => match sd_end c with Responded _ false => 0 | _ => 1 end
  end.

Definition ledger_run (calls : list Settled) : Ledger :=
  fold_left (fun l c => (ledger_complete (sd_start c) (sd_finish c) (sd_meta c) (sd_end c) l).1) calls [].

Fixpoint total {A} (f : A -> Z) (l : list A) : Z := match l with [] => 0 | x :: l' => f x + total f l' end.

Lemma total_app {A} (f : A -> Z) a b : total f (a ++ b) = total f a + total f b.
Proof. induction a as [|x a IH]; [done|]. cbn [app total]. rewrite IH. lia. Qed.

Lemma column_merge m a b : column m (mergeInto a b) = column m a + column m b.
Proof. by destruct m. Qed.

Lemma column_fresh m a b : column m (fresh a b) = 0.
Proof. by destruct m. Qed.

Lemma column_default m a b o :
  column m (default (fresh a b) o) = match o with Some r => column m r | None => 0 end.
Proof. destruct o; [done|apply column_fresh]. Qed.

(** Setting an entry of a map moves its total by the difference. *)
Lemma total_set (f : CostRecord -> Z) k v (m : list (string * CostRecord)) :
  total f (map snd (om_set k v m)) =
  total f (map snd m) - match om_get k m with Some old => f old | None => 0 end + f v.
Proof.
  induction m as [|[k' v'] m IH]; cbn; [lia|]. case_decide; cbn; [lia|]. rewrite IH. lia.
Qed.

Definition complete_record (rec : CostRecord) (c : Settled) : CostRecord :=
  match sd_end c with
  | Responded u err => addUsage rec u (sd_finish c - sd_start c) err
  | Threw _ => addUsage rec ZERO_USAGE (sd_finish c - sd_start c) true
  end.

Lemma ledger_complete_set c l :
  (ledger_complete (sd_start c) (sd_finish c) (sd_meta c) (sd_end c) l).1 =
  om_set (cell_key (sd_cycle c) (sd_worker c))
    (complete_record (default (fresh (sd_cycle c) (sd_worker c)) (om_get (cell_key (sd_cycle c) (sd_worker c)) l)) c) l.
Proof. done. Qed.

Lemma complete_record_column m rec c : column m (complete_record rec c) = column m rec + contribution m c.
Proof. unfold complete_record, contribution. destruct (sd_end c) as [u []|e]; destruct m; cbn; lia. Qed.

Lemma complete_record_ids rec c :
  cr_correlationId (complete_record rec c) = cr_correlationId rec /\ cr_agentId (complete_record rec c) = cr_agentId rec.
Proof. unfold complete_record. by destruct (sd_end c). Qed.

(** ** Totals *)

Lemma merged_column m cells acc : column m (fold_left mergeInto cells acc) = column m acc + total (column m) cells.
Proof.
  revert acc. induction cells as [|c cells IH]; intros acc; cbn; [lia|]. rewrite IH, column_merge. lia.
Qed.

(** Cells read on the column [m] where [P] holds of the group key. *)
Definition in_group (d : Dimension) (k : string) (m : Column) (r : CostRecord) : Z :=
  if decide (dim_key d r = k) then column m r else 0.

Lemma dim_key_fresh d k : dim_key d (dim_fresh d k) = k.
Proof. by destruct d. Qed.

Lemma dim_key_merge d a b : dim_key d (mergeInto a b) = dim_key d a.
Proof. by destruct d. Qed.

(** The groups of a list of cells: one per key that occurs, each carrying its key
    and the sums of its cells. *)
Record groups_of (d : Dimension) (cells : list CostRecord) (g : list (string * CostRecord)) : Prop := {
  go_nodup : NoDup g.*1;
  go_keys : forall k, k ∈ g.*1 <-> exists c, c ∈ cells /\ dim_key d c = k;
  go_entry : forall k r, om_get k g = Some r ->
    dim_key d r = k /\ forall m, column m r = total (in_group d k m) cells
}.

Lemma total_in_group_snoc d k m cells c :
  total (in_group d k m) (cells ++ [c]) = total (in_group d k m) cells + in_group d k m c.
Proof. rewrite total_app. cbn. lia. Qed.

Lemma total_in_group_none d k m cells : (forall c, c ∈ cells -> dim_key d c <> k) -> total (in_group d k m) cells = 0.
Proof.
  induction cells as [|c cells IH]; intros H; [done|]. cbn. unfold in_group at 1.
  rewrite decide_False by (apply H; left). rewrite IH; [done|]. intros c' Hc. apply H. by right.
Qed.

Lemma group_cell_step d cells g c : groups_of d cells g -> groups_of d (cells ++ [c]) (group_cell d g c).
Proof.
  intros [Hn Hk He]. unfold group_cell. split.
  - by apply om_set_NoDup.
  - intros k. rewrite om_set_keys. unfold om_has.
    assert (Hc : (exists x, x ∈ cells ++ [c] /\ dim_key d x = k) <-> k ∈ g.*1 \/ k = dim_key d c)
      by (rewrite Hk; set_solver).
    rewrite Hc. destruct (om_get (dim_key d c) g) eqn:E; [|set_solver].
    split; [by left|]. intros [?| ->]; [done|]. by apply om_get_is_Some; eexists.
  - intros k r. rewrite om_get_set. case_decide as Hd.
    + subst k. intros [= <-]. destruct (om_get (dim_key d c) g) as [old|] eqn:E; cbn [default].
      * destruct (He _ _ E) as [E1 E2]. rewrite dim_key_merge. split; [done|]. intros m.
        rewrite column_merge, total_in_group_snoc, E2. unfold in_group at 3. by rewrite decide_True.
      * rewrite dim_key_merge, dim_key_fresh. split; [done|]. intros m.
        rewrite column_merge, total_in_group_snoc, total_in_group_none.
        { unfold in_group. rewrite decide_True by done. by destruct d, m. }
        intros x Hx Hx'. apply om_get_None in E. apply E, Hk. by exists x.
    + intros Hr. destruct (He _ _ Hr) as [E1 E2]. split; [done|]. intros m. rewrite total_in_group_snoc, E2.
      unfold in_group at 3. rewrite decide_False by done. lia.
Qed.

Lemma groupBy_groups d cells : groups_of d cells (fold_left (group_cell d) cells []).
Proof.
  assert (H : forall l done g, groups_of d done g -> groups_of d (done ++ l) (fold_left (group_cell d) l g)).
  { intros l. induction l as [|c l IH]; intros done g Hg; [by rewrite app_nil_r|].
    cbn [fold_left]. rewrite cons_middle, app_assoc. by apply IH, group_cell_step. }
  apply (H cells [] []). split; [constructor|intros k; split; [by intros ?%elem_of_nil|by intros (c & ?%elem_of_nil & _)]|done].
Qed.

Lemma om_get_of_elem {V} (g : list (string * V)) k v : NoDup g.*1 -> (k, v) ∈ g -> om_get k g = Some v.
Proof.
  induction g as [|[k' v'] g IH]; [by intros _ ?%elem_of_nil|]. cbn. intros [Hk Hn]%NoDup_cons [[= <- <-]|H]%elem_of_cons.
  - by rewrite decide_True.
  - rewrite decide_False; [by apply IH|]. intros ->. apply Hk. by apply (list_elem_of_fmap_2 fst) in H.
Qed.

(** Every group stands under its own key, so its keys are those of the map. *)
Lemma groups_keys d cells g : groups_of d cells g -> map (dim_key d) (map snd g) = g.*1.
Proof.
  intros [Hn _ He]. rewrite map_map. apply map_ext_in. intros [k r] Hin. cbn.
  apply (He k r). by apply om_get_of_elem, list_elem_of_In.
Qed.

Lemma group_sum d cells g m : groups_of d cells g -> total (column m) (map snd g) = total (column m) cells.
Proof.
  intros Hg. destruct Hg as [Hn Hk He].
  assert (Hsplit : forall ks, NoDup ks -> (forall c, c ∈ cells -> dim_key d c ∈ ks) ->
    total (fun k => total (in_group d k m) cells) ks = total (column m) cells).
  { intros ks Hks. clear Hn Hk He. induction cells as [|c cells IH]; intros Hc.
    - clear Hc. induction ks as [|k ks IHk]; [done|]. apply NoDup_cons in Hks as [_ Hks]. cbn in *. by rewrite IHk.
    - cbn [total]. rewrite <- (IH (fun x Hx => Hc x (list_elem_of_further _ _ _ Hx))).
      assert (Hone : forall ks, NoDup ks -> total (fun k => in_group d k m c + total (in_group d k m) cells) ks =
        (if decide (dim_key d c ∈ ks) then column m c else 0) + total (fun k => total (in_group d k m) cells) ks).
      { clear. intros ks. induction ks as [|k ks IH]; intros Hn; [done|]. apply NoDup_cons in Hn as [Hk Hn].
        cbn [total]. rewrite IH by done. unfold in_group at 1.
        destruct (decide (dim_key d c = k)) as [->|Hne].
        - rewrite decide_False by done. rewrite decide_True by left. lia.
        - destruct (decide (dim_key d c ∈ ks)); [rewrite decide_True by (by right)|rewrite decide_False by set_solver]; lia. }
      rewrite (Hone ks Hks), decide_True by (apply Hc; left). lia. }
  rewrite <- (Hsplit g.*1 Hn) by (intros c Hc; apply Hk; by exists c).
  assert (Hent : forall k r, (k, r) ∈ g -> column m r = total (in_group d k m) cells)
    by (intros k r Hin; apply (He k r); by apply om_get_of_elem).
  clear Hsplit Hn Hk He. induction g as [|[k r] g IH]; [done|]. cbn [map snd total fmap list_fmap fst].
  rewrite (Hent k r) by left. f_equal. apply IH. intros k' r' Hin. apply Hent. by right.
Qed.

(** ** The cells of the ledger *)

(** No separator inside an identifier. *)
Fixpoint no_sep (s : string) : bool :=
  match s with EmptyString => true | String c s' => negb (Ascii.eqb c "000"%char) && no_sep s' end.

Lemma cell_key_inj a b a' b' : no_sep a = true -> no_sep a' = true -> cell_key a b = cell_key a' b' -> a = a' /\ b = b'.
Proof.
  unfold cell_key, KEY_SEP. revert a'. induction a as [|c a IH]; intros [|c' a'] Ha Ha' E; cbn in Ha, Ha', E.
  - injection E as E. exact (conj eq_refl E).
  - injection E as <- _. by cbn in Ha'.
  - injection E as -> _. by cbn in Ha.
  - injection E as -> E. apply andb_true_iff in Ha as [_ Ha], Ha' as [_ Ha']. destruct (IH a' Ha Ha' E) as [-> ->]. done.
Qed.

Definition well_named (c : Settled) : Prop := no_sep (sd_cycle c) = true /\ no_sep (sd_worker c) = true.
Definition sd_key (d : Dimension) (c : Settled) : string :=
  match d with byCorrelation => sd_cycle c | byAgent => sd_worker c end.

(** A cell stands under the key its identifiers make. *)
Definition cells_named (l : Ledger) : Prop :=
  NoDup l.*1 /\
  forall k r, om_get k l = Some r -> no_sep (cr_correlationId r) = true /\ k = cell_key (cr_correlationId r) (cr_agentId r).

(** The part of a column that a group of calls contributes. *)
Definition group_contribution (d : Dimension) (k : string) (m : Column) (c : Settled) : Z :=
  if decide (sd_key d c = k) then contribution m c else 0.

Lemma ledger_step_total m c l :
  total (column m) (map snd (ledger_complete (sd_start c) (sd_finish c) (sd_meta c) (sd_end c) l).1) =
  total (column m) (map snd l) + contribution m c.
Proof.
  rewrite ledger_complete_set, total_set, complete_record_column, column_default. lia.
Qed.

Lemma ledger_step_named c l : well_named c -> cells_named l ->
  let l' := (ledger_complete (sd_start c) (sd_finish c) (sd_meta c) (sd_end c) l).1 in
  cells_named l' /\
  (forall d k m, total (in_group d k m) (map snd l') = total (in_group d k m) (map snd l) + group_contribution d k m c) /\
  (forall d k, (exists r, r ∈ map snd l' /\ dim_key d r = k) <-> (exists r, r ∈ map snd l /\ dim_key d r = k) \/ sd_key d c = k).
Proof.
  intros [Hc Hw] [Hn Hl]. cbv zeta. rewrite ledger_complete_set. set (key := cell_key (sd_cycle c) (sd_worker c)).
  set (old := om_get key l).
  assert (Hids : cr_correlationId (default (fresh (sd_cycle c) (sd_worker c)) old) = sd_cycle c /\
                 cr_agentId (default (fresh (sd_cycle c) (sd_worker c)) old) = sd_worker c).
  { unfold old. destruct (om_get key l) as [r|] eqn:E; [|done]. cbn. destruct (Hl _ _ E) as [Hr Ek].
    unfold key in Ek. by apply cell_key_inj in Ek as [-> ->]. }
  destruct Hids as [Hi1 Hi2]. set (rec := default _ old) in *.
  destruct (complete_record_ids rec c) as [Hr1 Hr2]. rewrite Hi1 in Hr1. rewrite Hi2 in Hr2.
  assert (Hk : forall d, dim_key d (complete_record rec c) = sd_key d c /\ dim_key d rec = sd_key d c) by (by intros []).
  split; [split|split].
  - by apply om_set_NoDup.
  - intros k r. rewrite om_get_set. case_decide as Hd; [intros [= <-]|apply Hl]. by rewrite Hr1, Hr2.
  - intros d k m. rewrite total_set. destruct (Hk d) as [K1 K2]. unfold in_group at 3, group_contribution.
    rewrite K1, complete_record_column. fold old. unfold rec in K2 |- *. destruct old as [r|].
    + change (default (fresh (sd_cycle c) (sd_worker c)) (Some r)) with r in *. unfold in_group at 2. rewrite K2. destruct (decide _); lia.
    + rewrite column_default. destruct (decide _); lia.
  - intros d k. destruct (Hk d) as [K1 _]. split.
    + intros (r & Hin & Hr). apply list_elem_of_In, in_map_iff in Hin as ([k' r'] & Er & Hin). cbn in Er. subst r'.
      apply list_elem_of_In, om_get_of_elem in Hin; [|by apply om_set_NoDup]. rewrite om_get_set in Hin. case_decide.
      * injection Hin as <-. right. by rewrite <- Hr.
      * left. exists r. split; [|done]. apply om_get_Some_in, (list_elem_of_fmap_2 snd) in Hin. done.
    + intros [(r & Hin & Hr)|Hr].
      * apply list_elem_of_In, in_map_iff in Hin as ([k' r'] & Er & Hin). cbn in Er. subst r'.
        apply list_elem_of_In, om_get_of_elem in Hin; [|done]. destruct (decide (key = k')) as [<-|Hne].
        -- exists (complete_record rec c). split.
           { apply (list_elem_of_fmap_2 snd _ (key, complete_record rec c)), om_get_Some_in, om_get_set_eq. }
           assert (Er : rec = r) by (unfold rec, old; by rewrite Hin). destruct (Hk d) as [-> K]. rewrite Er in K. congruence.
        -- exists r. split; [|done].
           apply (list_elem_of_fmap_2 snd _ (k', r)), om_get_Some_in. by rewrite om_get_set_ne.
      * exists (complete_record rec c). split; [|by rewrite K1].
        apply (list_elem_of_fmap_2 snd _ (key, complete_record rec c)), om_get_Some_in, om_get_set_eq.
Qed.

Lemma ledger_run_snoc calls c :
  ledger_run (calls ++ [c]) = (ledger_complete (sd_start c) (sd_finish c) (sd_meta c) (sd_end c) (ledger_run calls)).1.
Proof. unfold ledger_run. by rewrite fold_left_app. Qed.

Lemma ledger_run_named calls : Forall well_named calls ->
  cells_named (ledger_run calls) /\
  (forall d k m, total (in_group d k m) (map snd (ledger_run calls)) = total (group_contribution d k m) calls) /\
  (forall d k, (exists r, r ∈ map snd (ledger_run calls) /\ dim_key d r = k) <-> exists c, c ∈ calls /\ sd_key d c = k).
Proof.
  induction calls as [|c calls IH] using rev_ind; intros F.
  { split; [split; [constructor|done]|split; [done|]]. intros d k. split; by intros (? & ?%elem_of_nil & _). }
  apply Forall_app in F as [F Fc]. apply Forall_cons in Fc as [Fc _]. destruct (IH F) as (H1 & H2 & H3).
  rewrite ledger_run_snoc. destruct (ledger_step_named c _ Fc H1) as (S1 & S2 & S3). split; [done|split].
  - intros d k m. rewrite S2, H2, total_app. cbn. lia.
  - intros d k. rewrite S3, H3. set_solver.
Qed.

Lemma ledger_run_total m calls : total (column m) (map snd (ledger_run calls)) = total (contribution m) calls.
Proof.
  induction calls as [|c calls IH] using rev_ind; [done|]. rewrite ledger_run_snoc, ledger_step_total, IH, total_app. cbn. lia.
Qed.

Definition groups_read (d : Dimension) (s : CostAccountingSnapshot) : list CostRecord :=
  match d with byCorrelation => sn_byCycle s | byAgent => sn_byWorker s end.

(** The ledger loses and invents nothing: for every whole-number column, the
    snapshot's total is the sum over all settled calls, thrown ones included, and
    so is the sum of its cycles and of its workers; and as long as no identifier
    holds the separator, there is exactly one record per cycle (and per worker)
    that made a call, holding the sums of that cycle's (that worker's) calls. *)
Theorem ledger_accounts calls d :
  let s := ledger_snapshot (ledger_run calls) in
  (forall m, column m (sn_totals s) = total (contribution m) calls /\
             total (column m) (groups_read d s) = total (contribution m) calls) /\
  (Forall well_named calls ->
     NoDup (map (dim_key d) (groups_read d s)) /\
     (forall k, k ∈ map (dim_key d) (groups_read d s) <-> exists c, c ∈ calls /\ sd_key d c = k) /\
     forall r m, r ∈ groups_read d s -> column m r = total (group_contribution d (dim_key d r) m) calls).
Proof.
  cbv zeta. set (cells := map snd (ledger_run calls)). set (g := fold_left (group_cell d) cells []).
  assert (Hg : groups_of d cells g) by apply groupBy_groups.
  assert (Eg : groups_read d (ledger_snapshot (ledger_run calls)) = map snd g) by (by destruct d).
  rewrite Eg. split.
  - intros m. split; [|rewrite (group_sum d cells g m Hg); apply ledger_run_total].
    change (sn_totals (ledger_snapshot (ledger_run calls))) with (fold_left mergeInto cells (fresh ROLLUP ROLLUP)).
    rewrite merged_column, column_fresh, Z.add_0_l. apply ledger_run_total.
  - intros F. destruct (ledger_run_named calls F) as (_ & H2 & H3). rewrite (groups_keys d cells g Hg).
    destruct Hg as [Hn Hk He]. split; [done|split].
    + intros k. rewrite Hk. exact (H3 d k).
    + intros r m Hin. apply list_elem_of_In, in_map_iff in Hin as ([k r'] & Er & Hin). cbn in Er. subst r'.
      apply list_elem_of_In, om_get_of_elem in Hin; [|done]. destruct (He _ _ Hin) as [-> Em]. rewrite Em. exact (H2 d k m).
Qed.

Definition demo_call (cycle worker : string) : Settled :=
  mkSettled 10 15 (mkMeta (Some cycle) (Some worker)) (Responded (mkUsage 7 2 None None (Some 3)) false).

Lemma ledger_accounts_witness :
  well_named (demo_call "c" "w") /\
  column col_cacheRead (sn_totals (ledger_snapshot (ledger_run [demo_call "c" "w"; demo_call "d" "w"]))) = 6 /\
  NoDup (map cr_agentId (sn_byWorker (ledger_snapshot (ledger_run [demo_call "c" "w"; demo_call "d" "w"])))).
Proof.
  split; [by split|].
  destruct (ledger_accounts [demo_call "c" "w"; demo_call "d" "w"] byAgent) as [H1 H2]. split.
  - rewrite (proj1 (H1 col_cacheRead)). reflexivity.
  - apply H2. repeat constructor.
Defined.

(** With the separator inside an identifier, two workers share one cell and one of
    them has no record. *)
Example shared_cell :
  map cr_agentId (sn_byWorker (ledger_snapshot (ledger_run
    [demo_call ("a" ++ KEY_SEP ++ "b") "c"; demo_call "a" ("b" ++ KEY_SEP ++ "c")]))) = ["c"].
Proof. vm_compute. reflexivity. Qed.
