(* ===== verification/Patterns.v ===== *)
(** Orchestration patterns ([src/patterns/]): the session breaker, a risk guard of
    the agent's cycle; the escalation pyramid; the quality gate.

    Archiving, logging and the host's callbacks are effects reported in order;
    none of them feeds back (a callback that throws is swallowed).  Evaluators of
    the quality gate are the host's: parameters. *)

From S2P Require Import Prelude JsNum.
From Stdlib Require Import SpecFloat.

(** * The session breaker ([circuit-breaker/session-cb.ts]) *)

Inductive CircuitState := ses_closed | ses_open | ses_half_open.

#[export] Instance CircuitState_eq_dec : EqDecision CircuitState.
Proof. solve_decision. Defined.

Record CircuitBreakerThresholds := mkThresholds {
  th_maxTokens : option num; th_maxConsecutiveErrors : option Z; th_maxActionCount : option Z;
  th_maxElapsedMs : option Z; th_maxCostUsd : option num
}.
Record CircuitBreakerConfig := mkSessionConfig {
  sc_name : string; sc_thresholds : CircuitBreakerThresholds; sc_resetAfterMs : option Z
}.

Record Session := mkSession {
  ses_state : CircuitState; ses_tripReason : option string; ses_openedAt : option Z; ses_start : Z;
  ses_tokenCount : num; ses_consecutiveErrors : Z; ses_actionCount : Z; ses_estimatedCostUsd : num
}.

Record CircuitSnapshot := mkSnap {
  cs_state : CircuitState; cs_tokenCount : num; cs_consecutiveErrors : Z; cs_actionCount : Z; cs_elapsedMs : Z;
  cs_estimatedCostUsd : num; cs_tripReason : option string; cs_openedAt : option Z
}.

(** What the host is told: a trip (log, archive and callback) with its reason, a
    probe being opened, a recovery. *)
Inductive SessionEvent := TrippedOpen (reason : string) | HalfOpened | Recovered.

Definition createSessionCircuitBreaker (now : Z) : Session :=
  mkSession ses_closed None None now num_zero 0 0 num_zero.

Section SessionBreaker.
Context (cf : CircuitBreakerConfig).

Definition maxTokens : num := default (num_of_Z 50000) (th_maxTokens (sc_thresholds cf)).
Definition maxConsecutiveErrors : Z := default 5 (th_maxConsecutiveErrors (sc_thresholds cf)).
Definition maxActionCount : Z := default 200 (th_maxActionCount (sc_thresholds cf)).
Definition maxElapsedMs : Z := default 3600000 (th_maxElapsedMs (sc_thresholds cf)).
Definition maxCostUsd : num := default (num_of_Z 10) (th_maxCostUsd (sc_thresholds cf)).
Definition resetAfterMs : Z := default 60000 (sc_resetAfterMs cf).

Definition snap (t : Z) (s : Session) : CircuitSnapshot :=
  mkSnap (ses_state s) (ses_tokenCount s) (ses_consecutiveErrors s) (ses_actionCount s) (t - ses_start s)
    (ses_estimatedCostUsd s) (ses_tripReason s) (ses_openedAt s).

Definition doTrip (now : Z) (reason : string) (s : Session) : Session * list SessionEvent :=
  match ses_state s with
  | ses_open => (s, [])
  | _ => (mkSession ses_open (Some reason) (Some now) (ses_start s) (ses_tokenCount s) (ses_consecutiveErrors s)
            (ses_actionCount s) (ses_estimatedCostUsd s), [TrippedOpen reason])
  end.

Definition checkThresholds (t : Z) (s : Session) : option string :=
  if num_gtb (ses_tokenCount s) maxTokens then
    Some ("tokenCount(" ++ num_to_string (ses_tokenCount s) ++ ") > maxTokens(" ++ num_to_string maxTokens ++ ")")%string
  else if maxConsecutiveErrors <=? ses_consecutiveErrors s then
    Some ("consecutiveErrors(" ++ str_of_Z (ses_consecutiveErrors s) ++ ") >= " ++ str_of_Z maxConsecutiveErrors)%string
  else if maxActionCount <? ses_actionCount s then
    Some ("actionCount(" ++ str_of_Z (ses_actionCount s) ++ ") > maxActionCount(" ++ str_of_Z maxActionCount ++ ")")%string
  else
    let elapsed := t - ses_start s in
    if maxElapsedMs <? elapsed then
      Some ("elapsedMs(" ++ str_of_Z elapsed ++ ") > maxElapsedMs(" ++ str_of_Z maxElapsedMs ++ ")")%string
    else if num_gtb (ses_estimatedCostUsd s) maxCostUsd then
      Some ("costUsd($" ++ num_to_fixed 4 (ses_estimatedCostUsd s) ++ ") > maxCostUsd($" ++ num_to_string maxCostUsd ++ ")")%string
    else None.

Definition set_state (st : CircuitState) (reason : option string) (at_ : option Z) (errors : Z) (s : Session) : Session :=
  mkSession st reason at_ (ses_start s) (ses_tokenCount s) errors (ses_actionCount s) (ses_estimatedCostUsd s).

(** [check]: [None] to proceed, or the reason not to.  The clock is read on
    entry, by the threshold check and by a trip. *)
Definition session_check (now tCheck tTrip : Z) (s : Session) : Session * list SessionEvent * option string :=
  let blocked :=
    match ses_state s with
    | ses_open => match ses_openedAt s with Some o => now - o | None => resetAfterMs end <? resetAfterMs
    | _ => false
    end in
  if blocked then
    (s, [], Some ("session-cb:" ++ sc_name cf ++ " OPEN (" ++ default "threshold breach" (ses_tripReason s) ++ ")")%string)
  else
    let '(s, opened) :=
      match ses_state s with
      | ses_open => (set_state ses_half_open (ses_tripReason s) (ses_openedAt s) 0 s, [HalfOpened])
      | _ => (s, [])
      end in
    match ses_state s with
    | ses_half_open => (s, opened, None)
    | _ =>
        match checkThresholds tCheck s with
        | Some violation =>
            let '(s, ev) := doTrip tTrip violation s in
            (s, opened ++ ev, Some ("session-cb:" ++ sc_name cf ++ " tripped: " ++ violation)%string)
        | None => (s, opened, None)
        end
    end.

(** [if (state === "closed") { const v = checkThresholds(); if (v) doTrip(v) }]. *)
Definition trip_if_closed (tCheck tTrip : Z) (s : Session) : Session * list SessionEvent :=
  match ses_state s with
  | ses_closed => match checkThresholds tCheck s with Some v => doTrip tTrip v s | None => (s, []) end
  | _ => (s, [])
  end.

Definition recordTokens (tCheck tTrip : Z) (count : num) (costUsd : option num) (s : Session)
    : Session * list SessionEvent :=
  trip_if_closed tCheck tTrip
    (mkSession (ses_state s) (ses_tripReason s) (ses_openedAt s) (ses_start s) (num_add (ses_tokenCount s) count)
       (ses_consecutiveErrors s) (ses_actionCount s)
       (match costUsd with Some c => num_add (ses_estimatedCostUsd s) c | None => ses_estimatedCostUsd s end)).

Definition recordError (tCheck tTrip : Z) (s : Session) : Session * list SessionEvent :=
  let s := set_state (ses_state s) (ses_tripReason s) (ses_openedAt s) (ses_consecutiveErrors s + 1) s in
  match ses_state s with
  | ses_half_open => doTrip tTrip ("probe failed (errors=" ++ str_of_Z (ses_consecutiveErrors s) ++ ")")%string s
  | _ => trip_if_closed tCheck tTrip s
  end.

Definition recordSuccess (s : Session) : Session * list SessionEvent :=
  match ses_state s with
  | ses_half_open => (set_state ses_closed None None 0 s, [Recovered])
  | st => (set_state st (ses_tripReason s) (ses_openedAt s) 0 s, [])
  end.

Definition recordAction (tCheck tTrip : Z) (s : Session) : Session * list SessionEvent :=
  trip_if_closed tCheck tTrip
    (mkSession (ses_state s) (ses_tripReason s) (ses_openedAt s) (ses_start s) (ses_tokenCount s)
       (ses_consecutiveErrors s) (ses_actionCount s + 1) (ses_estimatedCostUsd s)).

(** The start of the session is a constant: a reset keeps it. *)
Definition session_reset (s : Session) : Session :=
  mkSession ses_closed None None (ses_start s) num_zero 0 0 num_zero.
End SessionBreaker.

(** * The escalation pyramid ([escalation/pyramid.ts]) *)

Inductive EscalationLevel := L1_autonomous | L2_async_review | L3_hitl_required.

#[export] Instance EscalationLevel_eq_dec : EqDecision EscalationLevel.
Proof. solve_decision. Defined.

Definition level_name (l : EscalationLevel) : string :=
  match l with
  | L1_autonomous => "L1_autonomous" | L2_async_review => "L2_async_review" | L3_hitl_required => "L3_hitl_required"
  end.

Record EscalationPyramidConfig := mkPyramidConfig {
  ep_name : string; ep_declarations : list (string * EscalationLevel);
  ep_l1ConfidenceThreshold : option num; ep_l2ConfidenceThreshold : option num
}.
Record EscalationPyramid := mkPyramid {
  py_l1 : num; py_l2 : num; py_declared : list (string * EscalationLevel); py_overrides : list (string * EscalationLevel)
}.
Record EscalationDecision := mkDecision { de_proceed : bool; de_effectiveLevel : EscalationLevel; de_reason : string }.

Definition UNKNOWN_DEFAULT : EscalationLevel := L3_hitl_required.

Definition createEscalationPyramid (cf : EscalationPyramidConfig) : result EscalationPyramid :=
  let l1 := default (num_of_decimal 85 2) (ep_l1ConfidenceThreshold cf) in
  let l2 := default (num_of_decimal 6 1) (ep_l2ConfidenceThreshold cf) in
  if num_geb l2 l1 then
    Throw (JsError "Error" ("[escalation:" ++ ep_name cf ++ "] l2ConfidenceThreshold(" ++ num_to_string l2 ++
      ") must be < l1ConfidenceThreshold(" ++ num_to_string l1 ++ ")")%string)
  else Ok (mkPyramid l1 l2 (om_of_list (ep_declarations cf)) []).

Definition getNominal (p : EscalationPyramid) (actionType : string) : EscalationLevel :=
  match om_get actionType (py_overrides p) with
  | Some l => l
  | None => default UNKNOWN_DEFAULT (om_get actionType (py_declared p))
  end.

Definition escalate (p : EscalationPyramid) (nominal : EscalationLevel) (confidence : num) (isDryRun : bool)
    : EscalationLevel :=
  if isDryRun then L1_autonomous
  else match nominal with
       | L1_autonomous => if num_ltb confidence (py_l1 p) then L2_async_review else L1_autonomous
       | L2_async_review => if num_ltb confidence (py_l2 p) then L3_hitl_required else L2_async_review
       | L3_hitl_required => L3_hitl_required
       end.

(** [canProceed]; the host's callback runs exactly on a block. *)
Definition pyramid_canProceed (p : EscalationPyramid) (actionType : string) (confidence : num) (isDryRun : bool)
    : EscalationDecision :=
  let nominal := getNominal p actionType in
  let effectiveLevel := escalate p nominal confidence isDryRun in
  mkDecision (negb (bool_decide (effectiveLevel = L3_hitl_required))) effectiveLevel
    (if isDryRun then "dry-run → L1_autonomous"
     else if bool_decide (nominal = effectiveLevel) then
       ("'" ++ actionType ++ "' at " ++ level_name nominal ++ " (confidence=" ++ num_to_fixed 3 confidence ++ ")")%string
     else ("'" ++ actionType ++ "' escalated " ++ level_name nominal ++ " → " ++ level_name effectiveLevel ++
       " (confidence=" ++ num_to_fixed 3 confidence ++ ")")%string).
Definition onHitlRequired (d : EscalationDecision) : bool := negb (de_proceed d).

Definition override (actionType : string) (level : EscalationLevel) (p : EscalationPyramid) : EscalationPyramid :=
  mkPyramid (py_l1 p) (py_l2 p) (py_declared p) (om_set actionType level (py_overrides p)).
Definition clearOverride (actionType : string) (p : EscalationPyramid) : EscalationPyramid :=
  mkPyramid (py_l1 p) (py_l2 p) (py_declared p) (om_delete actionType (py_overrides p)).

(** * The quality gate ([quality-gate/gate.ts]) *)

Inductive QualityRouting := q_auto | q_async_review | q_hitl_block.

(** An evaluator, the host's, may reject. *)
Record QualityEvaluator (T : Type) := mkEvaluator {
  qe_name : string; qe_weight : option num; qe_evaluate : T -> result num
}.
Arguments mkEvaluator {T}.
Arguments qe_name {T}.
Arguments qe_weight {T}.
Arguments qe_evaluate {T}.

Record QualityGateConfig (T : Type) := mkQualityConfig {
  qc_name : string; qc_evaluators : list (QualityEvaluator T);
  qc_autoProceedThreshold : option num; qc_asyncReviewThreshold : option num
}.
Arguments mkQualityConfig {T}.
Arguments qc_name {T}.
Arguments qc_evaluators {T}.
Arguments qc_autoProceedThreshold {T}.
Arguments qc_asyncReviewThreshold {T}.

Record Dimension := mkDim { dim_name : string; dim_score : num; dim_weight : num }.
Record QualityScore := mkScore { qs_overall : num; qs_routing : QualityRouting; qs_dimensions : list Dimension }.

Section Quality.
Context {T : Type} (cf : QualityGateConfig T).

Definition autoProceed : num := default (num_of_decimal 8 1) (qc_autoProceedThreshold cf).
Definition asyncReview : num := default (num_of_decimal 5 1) (qc_asyncReviewThreshold cf).

(** The checks of [createQualityGate]. *)
Definition createQualityGate : result unit :=
  match qc_evaluators cf with
  | [] => Throw (JsError "Error" ("[quality-gate:" ++ qc_name cf ++ "] evaluators must not be empty"))
  | _ =>
      throw_if (num_geb asyncReview autoProceed)
        (JsError "Error" ("[quality-gate:" ++ qc_name cf ++ "] asyncReviewThreshold(" ++ num_to_string asyncReview ++
          ") must be < autoProceedThreshold(" ++ num_to_string autoProceed ++ ")"))
  end.

(** [Number.isFinite(raw) ? Math.max(0, Math.min(1, raw)) : 0], 0 on a throw. *)
Definition dim_of (subject : T) (ev : QualityEvaluator T) : Dimension :=
  mkDim (qe_name ev)
    (match qe_evaluate ev subject with
     | Ok raw => if is_finite raw then num_max num_zero (num_min num_one raw) else num_zero
     | Throw _ => num_zero
     end)
    (default num_one (qe_weight ev)).

Definition routing_of (overall : num) : QualityRouting :=
  if num_geb overall autoProceed then q_auto
  else if num_geb overall asyncReview then q_async_review else q_hitl_block.

Definition evaluate (subject : T) : QualityScore :=
  let dims := map (dim_of subject) (qc_evaluators cf) in
  let totalWeight := fold_left (fun acc d => num_add acc (dim_weight d)) dims num_zero in
  let weightedSum := fold_left (fun acc d => num_add acc (num_mul (dim_score d) (dim_weight d))) dims num_zero in
  let overall := if num_gtb totalWeight num_zero then num_div weightedSum totalWeight else num_zero in
  mkScore overall (routing_of overall) dims.
End Quality.

(** * The session breaker over a session *)

Inductive SessionOp :=
| OpCheck (now tCheck tTrip : Z) | OpTokens (tCheck tTrip : Z) (count : num) (costUsd : option num)
| OpError (tCheck tTrip : Z) | OpSuccess | OpAction (tCheck tTrip : Z) | OpReset.

Section SessionProps.
Context (cf : CircuitBreakerConfig).

(** One call, and for a check what it answered. *)
Definition session_step (s : Session) (op : SessionOp) : Session * option (option string) :=
  match op with
  | OpCheck now tC tT => let '(s', _, r) := session_check cf now tC tT s in (s', Some r)
  | OpTokens tC tT n c => ((recordTokens cf tC tT n c s).1, None)
  | OpError tC tT => ((recordError cf tC tT s).1, None)
  | OpSuccess => ((recordSuccess s).1, None)
  | OpAction tC tT => ((recordAction cf tC tT s).1, None)
  | OpReset => (session_reset s, None)
  end.

Fixpoint session_run (s : Session) (ops : list SessionOp) : Session * list (option (option string)) :=
  match ops with
  | [] => (s, [])
  | op :: ops' =>
      let '(s1, a) := session_step s op in
      let '(s2, l) := session_run s1 ops' in (s2, a :: l)
  end.

(** A check that was answered was answered with a reason not to proceed. *)
Definition refused (a : option (option string)) : bool := match a with Some None => false | _ => true end.

Lemma doTrip_start now why s : ses_start (doTrip now why s).1 = ses_start s.
Proof. unfold doTrip. by destruct (ses_state s). Qed.

Lemma trip_if_closed_start tC tT s : ses_start (trip_if_closed cf tC tT s).1 = ses_start s.
Proof.
  unfold trip_if_closed. destruct (ses_state s); [|done..]. destruct (checkThresholds cf tC s); [apply doTrip_start|done].
Qed.

Lemma session_check_start now tC tT s : ses_start (session_check cf now tC tT s).1.1 = ses_start s.
Proof.
  unfold session_check. destruct (ses_state s) eqn:Es; cbv zeta; cbn [andb].
  - rewrite Es. destruct (checkThresholds cf tC s) as [v|]; [|done].
    pose proof (doTrip_start tT v s) as H. by destruct (doTrip tT v s).
  - by destruct (match ses_openedAt s with Some o => _ | None => _ end <? resetAfterMs cf).
  - by rewrite Es.
Qed.

Lemma session_step_start s op : ses_start (session_step s op).1 = ses_start s.
Proof.
  destruct op as [now tC tT|tC tT n c|tC tT| |tC tT|]; cbn [session_step fst].
  - pose proof (session_check_start now tC tT s) as H. by destruct (session_check cf now tC tT s) as [[s' ev] r].
  - unfold recordTokens. by rewrite trip_if_closed_start.
  - unfold recordError. cbv zeta. destruct (ses_state _); [by rewrite trip_if_closed_start..|by rewrite doTrip_start].
  - unfold recordSuccess. by destruct (ses_state s).
  - unfold recordAction. by rewrite trip_if_closed_start.
  - done.
Qed.

Lemma session_run_start ops s : ses_start (session_run s ops).1 = ses_start s.
Proof.
  revert s. induction ops as [|op ops IH]; intros s; [done|]. cbn [session_run].
  pose proof (session_step_start s op) as H. destruct (session_step s op) as [s1 a]. specialize (IH s1).
  destruct (session_run s1 ops) as [s2 l]. cbn in *. congruence.
Qed.

(** A session has one deadline: whatever was recorded, tripped, recovered or
    reset since it was created at [t0], a check made more than [maxElapsedMs] later
    only proceeds as the probe of a half-open circuit; a closed circuit refuses and
    opens.  A reset clears the counters and not the clock. *)
Theorem session_deadline t0 ops now tC tT :
  maxElapsedMs cf < tC - t0 ->
  let s := (session_run (createSessionCircuitBreaker t0) ops).1 in
  let '(s', _, r) := session_check cf now tC tT s in
  (r = None -> ses_state s' = ses_half_open) /\
  (ses_state s = ses_closed -> is_Some r /\ ses_state s' = ses_open /\ ses_openedAt s' = Some tT).
Proof.
  intros Ht s. pose proof (session_run_start ops (createSessionCircuitBreaker t0)) as Hst. fold s in Hst.
  cbn [createSessionCircuitBreaker ses_start] in Hst.
  assert (Hv : exists v, checkThresholds cf tC s = Some v).
  { unfold checkThresholds. cbv zeta. rewrite Hst. destruct (num_gtb _ _); [by eexists|]. destruct (_ <=? _); [by eexists|].
    destruct (maxActionCount cf <? _); [by eexists|]. rewrite (proj2 (Z.ltb_lt _ _)) by done. by eexists. }
  destruct Hv as [v Hv]. unfold session_check. destruct (ses_state s) eqn:Es; cbv zeta.
  - rewrite Es, Hv. unfold doTrip. rewrite Es. by split.
  - destruct (_ <? resetAfterMs cf); by split.
  - rewrite Es. by split.
Qed.

(** ** A tripped session *)

Definition clock_before (t : Z) (op : SessionOp) : Prop :=
  match op with OpCheck now _ _ => now < t | OpReset => False | _ => True end.

(** Once tripped, a session stays shut for [resetAfterMs]: until then, every
    check refuses and the circuit stays open, whatever errors, successes, actions
    or tokens are recorded meanwhile; only an operator's reset reopens it. *)
Theorem session_stays_shut s o ops :
  ses_state s = ses_open -> ses_openedAt s = Some o -> Forall (clock_before (o + resetAfterMs cf)) ops ->
  ses_state (session_run s ops).1 = ses_open /\ ses_openedAt (session_run s ops).1 = Some o /\
  forallb refused (session_run s ops).2 = true.
Proof.
  intros Hs Ho F. revert s Hs Ho. induction F as [|op ops Hop _ IH]; intros s Hs Ho; [done|]. cbn [session_run].
  assert (Hst : ses_state (session_step s op).1 = ses_open /\ ses_openedAt (session_step s op).1 = Some o /\
                refused (session_step s op).2 = true).
  { destruct op as [now tC tT|tC tT n c|tC tT| |tC tT|]; cbn [session_step clock_before] in *; try done.
    - unfold session_check. rewrite Hs, Ho. cbv zeta. rewrite (proj2 (Z.ltb_lt _ _)) by lia. by split_and!.
    - unfold recordTokens, trip_if_closed. cbn [ses_state]. rewrite Hs. by split_and!.
    - unfold recordError, trip_if_closed. cbv zeta. cbn [ses_state set_state]. rewrite Hs. cbn. by split_and!.
    - unfold recordSuccess. rewrite Hs. by split_and!.
    - unfold recordAction, trip_if_closed. cbn [ses_state]. rewrite Hs. by split_and!. }
  destruct (session_step s op) as [s1 a]. cbn [fst snd] in Hst. destruct Hst as (H1 & H2 & H3).
  destruct (IH s1 H1 H2) as (I1 & I2 & I3). destruct (session_run s1 ops) as [s2 l]. cbn in *. by rewrite H3.
Qed.

(** What neither ends a probe nor resets. *)
Definition within_probe (op : SessionOp) : Prop :=
  match op with OpCheck _ _ _ | OpTokens _ _ _ _ | OpAction _ _ => True | _ => False end.

(** While half-open, every check proceeds, however many were made and whatever was
    spent: no threshold is looked at until a success or an error is recorded. *)
Lemma half_open_unbounded s ops : ses_state s = ses_half_open -> Forall within_probe ops ->
  ses_state (session_run s ops).1 = ses_half_open /\
  forallb (fun a => bool_decide (a = Some None) || bool_decide (a = None)) (session_run s ops).2 = true.
Proof.
  intros Hs F. revert s Hs. induction F as [|op ops Hop _ IH]; intros s Hs; [done|]. cbn [session_run].
  assert (Hst : ses_state (session_step s op).1 = ses_half_open /\
                (bool_decide ((session_step s op).2 = Some None) || bool_decide ((session_step s op).2 = None)) = true).
  { destruct op as [now tC tT|tC tT n c|tC tT| |tC tT|]; try done; cbn [session_step].
    - unfold session_check. rewrite Hs. cbv zeta. by rewrite Hs.
    - unfold recordTokens, trip_if_closed. cbn [ses_state]. by rewrite Hs.
    - unfold recordAction, trip_if_closed. cbn [ses_state]. by rewrite Hs. }
  destruct (session_step s op) as [s1 a]. cbn [fst snd] in Hst. destruct Hst as [H1 H2].
  destruct (IH s1 H1) as (I1 & I2). destruct (session_run s1 ops) as [s2 l]. cbn in *. by rewrite H2.
Qed.
End SessionProps.

Definition demo_session : CircuitBreakerConfig :=
  mkSessionConfig "demo" (mkThresholds None (Some 2) None (Some 1000) None) None.

Example demo_session_run :
  map refused (session_run demo_session (createSessionCircuitBreaker 0)
    [OpCheck 0 0 0; OpError 1 1; OpError 2 2; OpCheck 10 10 10; OpCheck 60002 60002 60002; OpSuccess;
     OpCheck 60010 60010 60010]).2 = [false; true; true; true; false; true; true].
Proof. vm_compute. reflexivity. Qed.

Lemma session_deadline_witness :
  maxElapsedMs demo_session < 2000 - 0 /\
  ses_state (session_check demo_session 2000 2000 2000
    (session_run demo_session (createSessionCircuitBreaker 0) [OpError 1 1; OpError 2 2; OpReset]).1).1.1 = ses_open.
Proof.
  split; [reflexivity|].
  pose proof (session_deadline demo_session 0 [OpError 1 1; OpError 2 2; OpReset] 2000 2000 2000 ltac:(reflexivity)) as H.
  cbv zeta in H.
  destruct (session_check demo_session 2000 2000 2000 _) as [[s' ev] r]. apply H. reflexivity.
Defined.

Lemma session_stays_shut_witness :
  ses_state (session_run demo_session (createSessionCircuitBreaker 0) [OpError 1 1; OpError 2 2]).1 = ses_open /\
  forallb refused (session_run demo_session
    (session_run demo_session (createSessionCircuitBreaker 0) [OpError 1 1; OpError 2 2]).1
    [OpSuccess; OpCheck 60001 60001 60001]).2 = true.
Proof.
  split; [vm_compute; reflexivity|].
  apply (session_stays_shut demo_session _ 2); [vm_compute; reflexivity|vm_compute; reflexivity|].
  repeat constructor; cbn; lia.
Defined.

(** * The escalation pyramid *)

Definition level_rank (l : EscalationLevel) : Z :=
  match l with L1_autonomous => 1 | L2_async_review => 2 | L3_hitl_required => 3 end.

(** Outside a dry run the pyramid blocks exactly the actions that stand at the
    human level (declared, overridden to it, or unknown) and the reviewed ones
    whose confidence is below the second threshold; it never lowers a level, raises
    it by one at most, and tells the host of every block.  In a dry run everything
    proceeds. *)
Theorem escalation_exact p actionType confidence isDryRun :
  let d := pyramid_canProceed p actionType confidence isDryRun in
  let nominal := getNominal p actionType in
  (de_proceed d = false <->
     isDryRun = false /\
     (nominal = L3_hitl_required \/ (nominal = L2_async_review /\ num_ltb confidence (py_l2 p) = true))) /\
  (isDryRun = false -> level_rank nominal <= level_rank (de_effectiveLevel d) <= level_rank nominal + 1) /\
  (isDryRun = true -> de_effectiveLevel d = L1_autonomous) /\
  onHitlRequired d = negb (de_proceed d) /\
  (om_get actionType (py_overrides p) = None -> actionType ∉ (py_declared p).*1 -> nominal = L3_hitl_required) /\
  (forall level, getNominal (override actionType level p) actionType = level) /\
  (forall level other, other <> actionType ->
     getNominal (override actionType level p) other = getNominal p other /\
     getNominal (clearOverride actionType p) other = getNominal p other).
Proof.
  cbv zeta. unfold pyramid_canProceed. cbv zeta. cbn [de_proceed de_effectiveLevel]. unfold onHitlRequired. cbn [de_proceed].
  unfold escalate. split_and!.
  - destruct isDryRun; [split; [done|by intros [? _]]|].
    destruct (getNominal p actionType); [destruct (num_ltb confidence (py_l1 p))|destruct (num_ltb confidence (py_l2 p))|];
      (split; [intros H|intros [_ [H|[H1 H2]]]]); try done; auto.
  - intros ->. destruct (getNominal p actionType); [destruct (num_ltb confidence (py_l1 p))|destruct (num_ltb confidence (py_l2 p))|];
      cbn; lia.
  - by intros ->.
  - done.
  - intros Ho Hd. unfold getNominal. rewrite Ho. apply om_get_None in Hd. by rewrite Hd.
  - intros level. unfold getNominal, override. cbn. by rewrite om_get_set_eq.
  - intros level other Hne. unfold getNominal, override, clearOverride. cbn.
    by rewrite om_get_set_ne, om_get_delete_ne by done.
Qed.

(** Confidence that is not a number escalates nothing. *)
Lemma nan_confidence_proceeds p actionType : getNominal p actionType <> L3_hitl_required ->
  de_proceed (pyramid_canProceed p actionType num_nan false) = true /\
  de_effectiveLevel (pyramid_canProceed p actionType num_nan false) = getNominal p actionType.
Proof.
  intros H. unfold pyramid_canProceed, escalate. cbv zeta. cbn [de_proceed de_effectiveLevel].
  by destruct (getNominal p actionType).
Qed.

Definition demo_pyramid : EscalationPyramid :=
  mkPyramid (num_of_decimal 85 2) (num_of_decimal 6 1) [("trade", L2_async_review)] [].

Lemma escalation_exact_witness :
  getNominal demo_pyramid "trade" = L2_async_review /\
  de_proceed (pyramid_canProceed demo_pyramid "trade" (num_of_decimal 5 1) false) = false.
Proof.
  split; [reflexivity|]. apply (escalation_exact demo_pyramid "trade" (num_of_decimal 5 1) false).
  split; [done|right]. split; [reflexivity|vm_compute; reflexivity].
Defined.

(** * The quality gate *)

Lemma clamped_bounds x : is_nan x = false ->
  num_ltb (num_max num_zero (num_min num_one x)) num_zero = false /\
  num_ltb num_one (num_max num_zero (num_min num_one x)) = false.
Proof.
  intros Hx. assert (H1 : is_nan num_one = false) by reflexivity.
  destruct (num_min_nlt num_one x _ H1 Hx eq_refl) as [Hle _]. pose proof (num_min_not_nan num_one x H1 Hx) as Hn.
  revert Hle Hn. generalize (num_min num_one x). intros m Hle Hn. unfold num_max. rewrite Hn. cbn [is_nan num_zero orb].
  destruct (num_ltb num_zero m) eqn:E; [split; [by apply num_ltb_asym|done]|].
  by destruct m as [[]| | |].
Qed.

Section QualityProps.
Context {T : Type} (cf : QualityGateConfig T).

(** An evaluator that rejects or answers something that is not a finite number. *)
Definition misbehaves (subject : T) (ev : QualityEvaluator T) : Prop :=
  match qe_evaluate ev subject with Ok raw => is_finite raw = false | Throw _ => True end.

Definition is_zero (x : num) : bool := match x with S754_zero _ => true | _ => false end.

Lemma zero_sum dims acc :
  is_zero acc = true -> Forall (fun d => is_zero (dim_score d) = true /\ is_finite (dim_weight d) = true) dims ->
  is_zero (fold_left (fun acc d => num_add acc (num_mul (dim_score d) (dim_weight d))) dims acc) = true.
Proof.
  intros Ha F. revert acc Ha. induction F as [|d dims [Hs Hw] _ IH]; intros acc Ha; [done|]. cbn [fold_left].
  apply IH. destruct acc as [[]| | |], (dim_score d) as [[]| | |], (dim_weight d) as [[]| | |[]]; done.
Qed.

(** The quality gate is fail-closed: the routing is automatic exactly when the
    overall score is at least the first threshold, so an overall that is not a
    number is blocked; every evaluator counts between 0 and 1, and 0 when it
    rejects or answers no finite number; and when all evaluators misbehave the
    subject is blocked, whatever the (finite) weights, as soon as the review
    threshold is positive. *)
Theorem quality_fail_closed subject :
  let score := evaluate cf subject in
  (qs_routing score = q_auto <-> num_geb (qs_overall score) (autoProceed cf) = true) /\
  (qs_overall score = num_nan -> qs_routing score = q_hitl_block) /\
  Forall2 (fun ev d => num_ltb (dim_score d) num_zero = false /\ num_ltb num_one (dim_score d) = false /\
                       (misbehaves subject ev -> dim_score d = num_zero)) (qc_evaluators cf) (qs_dimensions score) /\
  (createQualityGate cf = Ok tt -> num_gtb (asyncReview cf) num_zero = true -> is_nan (autoProceed cf) = false ->
   Forall (fun ev => misbehaves subject ev /\ is_finite (default num_one (qe_weight ev)) = true) (qc_evaluators cf) ->
   qs_routing score = q_hitl_block).
Proof.
  cbv zeta. split_and!.
  - unfold evaluate. cbv zeta. cbn [qs_routing qs_overall]. unfold routing_of.
    destruct (num_geb _ (autoProceed cf)); [done|]. by destruct (num_geb _ (asyncReview cf)).
  - unfold evaluate. cbv zeta. cbn [qs_routing qs_overall]. intros ->. unfold routing_of.
    by destruct (autoProceed cf), (asyncReview cf).
  - unfold evaluate. cbv zeta. cbn [qs_dimensions]. induction (qc_evaluators cf) as [|ev evs IH]; constructor; [|done].
    unfold misbehaves. cbn [dim_of dim_score]. destruct (qe_evaluate ev subject) as [raw|e]; [|by split_and!].
    destruct (is_finite raw) eqn:Ef; [|by split_and!]. assert (Hn : is_nan raw = false) by (by destruct raw).
    destruct (clamped_bounds raw Hn) as [H1 H2]. by split_and!.
  - intros Hc Hp Hna F. unfold evaluate. cbv zeta. cbn [qs_routing]. set (dims := map (dim_of subject) (qc_evaluators cf)).
    set (total := fold_left _ dims num_zero). set (sum := fold_left _ dims num_zero).
    assert (Hz : is_zero sum = true).
    { apply zero_sum; [done|]. apply Forall_map. eapply Forall_impl; [exact F|]. intros ev [Hm Hw]. split; [|done].
      unfold misbehaves in Hm. cbn [dim_of dim_score]. destruct (qe_evaluate ev subject) as [raw|e]; [by rewrite Hm|done]. }
    assert (Ho : is_zero (if num_gtb total num_zero then num_div sum total else num_zero) = true).
    { destruct (num_gtb total num_zero) eqn:E; [|done]. destruct sum as [[]| | |]; try done;
        destruct total as [[]|[]| |[]]; try done; vm_compute in E; discriminate E. }
    revert Ho. generalize (if num_gtb total num_zero then num_div sum total else num_zero). intros x Hx.
    unfold createQualityGate in Hc. destruct (qc_evaluators cf); [done|]. apply throw_if_ok in Hc.
    destruct x as [b| | |]; try done. unfold routing_of.
    assert (Hpos : forall y, num_gtb y num_zero = true -> num_geb (S754_zero b) y = false)
      by (intros y Hy; destruct y as [[]|[]| |[]]; done).
    rewrite (Hpos _ Hp), Hpos; [done|].
    destruct (asyncReview cf) as [[]|[]| |[]], (autoProceed cf) as [[]|[]| |[]]; done.
Qed.
End QualityProps.

Definition demo_gate : QualityGateConfig Z :=
  mkQualityConfig "demo" [mkEvaluator "a" None (fun _ => Ok num_nan); mkEvaluator "b" (Some (num_of_Z 3)) (fun _ => Throw (JsError "E" "x"))]
    None None.

Lemma quality_fail_closed_witness :
  createQualityGate demo_gate = Ok tt /\ qs_routing (evaluate demo_gate 0) = q_hitl_block.
Proof.
  split; [vm_compute; reflexivity|]. apply (quality_fail_closed demo_gate 0); try (vm_compute; reflexivity).
  repeat constructor.
Defined.

(** Weights are not checked: a negative one takes the overall score above 1. *)
Example negative_weight :
  qs_overall (evaluate (mkQualityConfig "w" [mkEvaluator "a" (Some (num_of_Z 2)) (fun _ : Z => Ok num_one);
    mkEvaluator "b" (Some (num_of_Z (-1))) (fun _ => Ok num_zero)] None None) 0) = num_of_Z 2.
Proof. vm_compute. reflexivity. Qed.
