(* ===== verification/Strategies.v ===== *)
(** The reasoning strategies, [src/strategies/]: ReAct ([react.ts]) and
    plan-then-execute ([plan.ts]) over the context of [types.ts].

    A cycle is a computation on the host's world that logs its calls out: the
    completions with their answers, the tools, the step hook.  The completion
    function, the tool registry, the hooks and the identifiers of parsed calls
    are the host's.  Durations in step events, the run identifier they repeat and
    logger warnings are left out. *)

From S2P Require Import Prelude JsNum JsValue Regex Json LoopTypes JsonParse.
From Stdlib Require Import Ascii.

(** * The context of a cycle *)

Inductive MessageRole := system | user | assistant | tool.
#[export] Instance MessageRole_eq_dec : EqDecision MessageRole. Proof. solve_decision. Defined.

Record StrategyMessage := mkMessage {
  sm_role : MessageRole; sm_content : string; sm_call : option (string * string)   (** [toolCallId], [toolName] *)
}.
Definition say (r : MessageRole) (text : string) : StrategyMessage := mkMessage r text None.

Record StrategyToolCall := mkCall { tc_id : string; tc_name : string; tc_arguments : jsval }.

Record StrategyLLMResponse := mkAnswer {
  an_content : string; an_toolCalls : option (list StrategyToolCall);
  an_tokensIn : Z; an_tokensOut : Z; an_model : string; an_provider : string
}.

Inductive stop_reason := complete | max_steps | error | user_cancelled.
#[export] Instance stop_reason_eq_dec : EqDecision stop_reason. Proof. solve_decision. Defined.

(** What [onStep] receives. *)
Record StrategyStepEvent := mkStepEvent {
  ev_strategy : string; ev_cycleIndex : num; ev_phase : string;
  ev_tokens : option (Z * Z); ev_model : option string
}.

Record MCPToolDefinition := mkDef { md_name : string; md_description : string; md_properties : jsval }.

Record PlanStep := mkStep { ps_id : num; ps_description : string; ps_tool : option string; ps_tool_args : option jsval }.

Record AgentContext (W : Type) := mkContext {
  cx_task : string;
  cx_systemPrompt : string;
  cx_tools : W -> list MCPToolDefinition;
  cx_execute : string -> jsval -> W -> W * result ToolResult;
  cx_llmFn : option (list StrategyMessage -> W -> W * result StrategyLLMResponse);
  cx_maxSteps : Z;
  cx_allowedTools : option (list string);
  cx_onStep : option (StrategyStepEvent -> W -> W * result unit);
  cx_onPhaseComplete : option (list PlanStep -> W -> W * result unit);
  cx_aborted : W -> bool;
  cx_freshId : W -> W * string
}.
Arguments cx_task {W} _. Arguments cx_systemPrompt {W} _. Arguments cx_tools {W} _.
Arguments cx_execute {W} _. Arguments cx_llmFn {W} _. Arguments cx_maxSteps {W} _.
Arguments cx_allowedTools {W} _. Arguments cx_onStep {W} _. Arguments cx_onPhaseComplete {W} _.
Arguments cx_aborted {W} _. Arguments cx_freshId {W} _.

Record AgentCycleResult (T : Type) := mkResult {
  cr_finalMessage : string; cr_stopReason : stop_reason; cr_stepCount : Z;
  cr_tokensIn : Z; cr_tokensOut : Z; cr_stepsTrace : list T; cr_model : string; cr_provider : string
}.
Arguments mkResult {T}. Arguments cr_finalMessage {T} _. Arguments cr_stopReason {T} _.
Arguments cr_stepCount {T} _. Arguments cr_tokensIn {T} _. Arguments cr_tokensOut {T} _.
Arguments cr_stepsTrace {T} _. Arguments cr_model {T} _. Arguments cr_provider {T} _.

(** * Tool calls in text *)

(** [typeof v === "object" && v !== null]. *)
Definition is_object_value (v : jsval) : bool :=
  match v with JObj _ | JArr _ | JDate _ | JBytes _ => true | _ => false end.

(** A parsed value with a textual name and an object of arguments. *)
Definition isValidToolCallShape (parsed : jsval) : option (string * jsval) :=
  match parsed with
  | JObj f =>
      match get_field "name" f with
      | JStr n => let a := get_field "arguments" f in if is_object_value a then Some (n, a) else None
      | _ => None
      end
  | _ => None
  end.

Definition parsed_call (text : string) : option (string * jsval) :=
  match json_parse text with Ok v => isValidToolCallShape v | Throw _ => None end.

Definition longer_than (n : Z) (s : string) : bool := n <? Z.of_nat (String.length s).

Definition TOOL_CALL_REGEX : regex := re "```tool_call\s*\n([\s\S]*?)\n```".
Definition TOOL_CALL_BLOCK : regex := re "```tool_call\s*\n[\s\S]*?\n```".
Definition FENCED_REGEX : regex := re_i "```(?:toolcall|json)\s*([\s\S]*?)```".
Definition FENCE_REGEX : regex := re_i "```(?:toolcall|json)".

(** The first group of a match, when it is not empty. *)
Definition first_group (r : regex) (s : string) : option string :=
  match exec r s with
  | Some m => match om_get 1%nat (groups m) with Some (String c t) => Some (String c t) | _ => None end
  | None => None
  end.

(** The call without its identifier, which the caller draws. *)
Definition parseReactToolCall (content : string) : option (string * jsval) :=
  match first_group TOOL_CALL_REGEX content with
  | Some block => if longer_than 10000 block then None else parsed_call block
  | None => None
  end.

(** The text before the first [c], and the text from it on. *)
Fixpoint cut_at (c : ascii) (s : string) : option (string * string) :=
  match s with
  | EmptyString => None
  | String a s' =>
      if Ascii.eqb a c then Some (EmptyString, s)
      else match cut_at c s' with Some (b, r) => Some (String a b, r) | None => None end
  end.

Definition tryParseJsonToolCallFallback (content : string) : option (string * jsval) :=
  if (content =? "")%string || longer_than 200000 content then None
  else
    let within t := if longer_than 10000 t then None else parsed_call t in
    let braced := match cut_at "{" content with Some (_, t) => within (js_trim t) | None => None end in
    match first_group FENCED_REGEX content with
    | Some block => match within (js_trim block) with Some c => Some c | None => braced end
    | None => braced
    end.

(** [text || other]. *)
Definition or_text (text other : string) : string := if (text =? "")%string then other else text.

(** [extractThoughtBefore] at the fence, or else at the brace. *)
Definition fallback_thought (content : string) : string :=
  let upto := match exec FENCE_REGEX content with
    | Some m => before m
    | None => match cut_at "{" content with Some (b, _) => b | None => EmptyString end
    end in
  or_text (js_trim upto) "(implicit)".

Definition line_break : string := String "010" EmptyString.

Definition DEFAULT_SYSTEM_PROMPT : string := join line_break
  ["You are an AI agent with access to tools. For each step:";
   "1. THINK about what you need to do";
   "2. If you need information or to perform an action, call a tool";
   "3. Observe the result and decide next steps";
   "4. When you have enough information, provide your FINAL ANSWER directly (no tool call)";
   ""; "Always reason step by step. Use tools when needed."].

Definition tool_line (d : MCPToolDefinition) : result string :=
  properties ← stringify (match md_properties d with JUndef | JNull => JObj [] | p => p end);
  Ok ("- " ++ md_name d ++ ": " ++ md_description d ++ line_break ++
      "  Parameters: " ++ default "undefined" properties)%string.

Fixpoint tool_lines (l : list MCPToolDefinition) : result (list string) :=
  match l with
  | [] => Ok []
  | d :: l' => t ← tool_line d; ts ← tool_lines l'; Ok (t :: ts)
  end.

Definition buildToolDescriptions (defs : list MCPToolDefinition) (allowedTools : option (list string)) : result string :=
  let filtered := match allowedTools with
    | Some allowed => filter (fun d => md_name d ∈ allowed) defs
    | None => defs
    end in
  match filtered with
  | [] => Ok EmptyString
  | _ =>
      lines ← tool_lines filtered;
      Ok (line_break ++ line_break ++ "Available tools:" ++ line_break ++ join line_break lines ++
          line_break ++ line_break ++ "To call a tool, embed a JSON block in your response:" ++ line_break ++
          "```tool_call" ++ line_break ++ "{" ++ quoted "name" ++ ": " ++ quoted "tool_name" ++ ", " ++
          quoted "arguments" ++ ": {...}}" ++ line_break ++ "```")%string
  end.

(** * Cycles as computations *)

(** The calls out of a cycle, with what they returned. *)
Inductive outcall :=
| CLlm (messages : list StrategyMessage) (answer : result StrategyLLMResponse)
| CTool (name : string) (args : jsval) (answer : result ToolResult)
| CStep (event : StrategyStepEvent)
| CPhase (plan : list PlanStep).

Section Cycles.
Context {W : Type}.

Record sstate := mkState { ss_world : W; ss_log : list outcall }.
Definition StratM (A : Type) : Type := sstate -> sstate * result A.

Definition sret {A} (a : A) : StratM A := fun s => (s, Ok a).
Definition lift {A} (r : result A) : StratM A := fun s => (s, r).
Definition sbind {A B} (m : StratM A) (f : A -> StratM B) : StratM B := fun s =>
  match m s with (s, Ok a) => f a s | (s, Throw e) => (s, Throw e) end.
(** The outcome as a value: [try { … } catch]. *)
Definition attempt {A} (m : StratM A) : StratM (result A) := fun s =>
  let '(s, r) := m s in (s, Ok r).
Definition reading {A} (f : W -> A) : StratM A := fun s => (s, Ok (f (ss_world s))).
Definition drawing {A} (f : W -> W * A) : StratM A := fun s =>
  let '(w, a) := f (ss_world s) in (mkState w (ss_log s), Ok a).
(** A call out, logged with its answer. *)
Definition calling {A} (entry : result A -> outcall) (f : W -> W * result A) : StratM A := fun s =>
  let '(w, r) := f (ss_world s) in (mkState w (ss_log s ++ [entry r]), r).

Notation "'let*' x := m 'in' k" := (sbind m (fun x => k))
  (at level 200, x pattern, m at level 100, k at level 200).

Context (ctx : AgentContext W).

(** [await ctx.hooks?.onStep?.(event)], its failure swallowed. *)
Definition fire_onStep (event : StrategyStepEvent) : StratM unit :=
  match cx_onStep ctx with
  | Some hook => let* _ := attempt (calling (fun _ => CStep event) (hook event)) in sret tt
  | None => sret tt
  end.

Definition complete_with (llmFn : list StrategyMessage -> W -> W * result StrategyLLMResponse)
    (messages : list StrategyMessage) : StratM StrategyLLMResponse :=
  calling (CLlm messages) (llmFn messages).
Definition execute_tool (name : string) (args : jsval) : StratM ToolResult :=
  calling (CTool name args) (cx_execute ctx name args).

Definition no_llm {T} : AgentCycleResult T := mkResult "" error 0 0 0 [] "" "".

(** * ReAct *)

Record ReactStep := mkReactStep {
  rs_iteration : Z; rs_thought : string; rs_action : option (string * jsval);
  rs_observation : option string; rs_error : option string
}.

(** The local variables of [run]. *)
Record react_vars := mkVars {
  v_messages : list StrategyMessage; v_steps : list ReactStep;
  v_in : Z; v_out : Z; v_model : string; v_provider : string;
  v_reason : stop_reason; v_answer : string
}.

Definition count_answer (r : StrategyLLMResponse) (v : react_vars) : react_vars :=
  mkVars (v_messages v) (v_steps v) (v_in v + an_tokensIn r) (v_out v + an_tokensOut r)
    (an_model r) (an_provider r) (v_reason v) (v_answer v).
Definition add_step (s : ReactStep) (more : list StrategyMessage) (v : react_vars) : react_vars :=
  mkVars (v_messages v ++ more) (v_steps v ++ [s]) (v_in v) (v_out v) (v_model v) (v_provider v)
    (v_reason v) (v_answer v).
Definition stop_with (reason : stop_reason) (answer : string) (v : react_vars) : react_vars :=
  mkVars (v_messages v) (v_steps v) (v_in v) (v_out v) (v_model v) (v_provider v) reason answer.

(** The call a response asks for, before identifiers are drawn: the first
    structured one, the fenced one, or the one found in the text, with the
    thought that goes with it. *)
Inductive wanted :=
| WantsStructured (c : StrategyToolCall)
| WantsParsed (name : string) (args : jsval) (thought : option string)
| WantsNothing.

Definition wanted_call (r : StrategyLLMResponse) : wanted :=
  match an_toolCalls r with
  | Some (c :: _) => WantsStructured c
  | _ =>
      match parseReactToolCall (an_content r) with
      | Some (n, a) => WantsParsed n a None
      | None =>
          match tryParseJsonToolCallFallback (an_content r) with
          | Some (n, a) => WantsParsed n a (Some (fallback_thought (an_content r)))
          | None => WantsNothing
          end
      end
  end.

Definition observation_of (t : ToolResult) : string :=
  match t with
  | ToolOk data => match stringify data with
                   | Ok text => default "null" text
                   | Throw _ => "[non-serializable result]"
                   end
  | ToolError m => ("Error: " ++ m)%string
  end.
Definition tool_error (t : ToolResult) : option string :=
  match t with ToolOk _ => None | ToolError m => Some m end.

Definition not_allowed (name : string) : bool :=
  match cx_allowedTools ctx with Some allowed => negb (bool_decide (name ∈ allowed)) | None => false end.

Definition react_event (i : Z) (r : StrategyLLMResponse) : StrategyStepEvent :=
  mkStepEvent "react" (num_of_Z i) "execution" (Some (an_tokensIn r, an_tokensOut r)) (Some (an_model r)).

(** The tool messages that answer a call. *)
Definition tool_turn (r : StrategyLLMResponse) (id name text : string) : list StrategyMessage :=
  [say assistant (an_content r); mkMessage tool text (Some (id, name))].

Definition refusal (name : string) : string :=
  ("Tool " ++ quoted name ++ " not in allowed list")%string.

(** One iteration; [true] when the loop goes on. *)
Definition react_iteration (llmFn : list StrategyMessage -> W -> W * result StrategyLLMResponse)
    (i : Z) (v : react_vars) : StratM (react_vars * bool) :=
  let* cancelled := reading (cx_aborted ctx) in
  if cancelled : bool then sret (stop_with user_cancelled (v_answer v) v, false)
  else
  let* response := attempt (complete_with llmFn (v_messages v)) in
  match response with
  | Throw e =>
      sret (stop_with error (v_answer v)
        (add_step (mkReactStep (i + 1) "" None None (Some ("LLM call failed: " ++ err_message e)%string)) [] v), false)
  | Ok r =>
      let v := count_answer r v in
      let act id name args thought :=
        if not_allowed name then
          sret (add_step (mkReactStep (i + 1) (default (an_content r) thought) (Some (name, args)) None (Some (refusal name)))
                  (tool_turn r id name ("Error: " ++ refusal name)) v, true)
        else
          let* result := execute_tool name args in
          let text := observation_of result in
          let v := add_step (mkReactStep (i + 1)
                     (default (js_trim (replace_all TOOL_CALL_BLOCK "" (an_content r))) thought)
                     (Some (name, args)) (Some text) (tool_error result)) (tool_turn r id name text) v in
          let* _ := fire_onStep (react_event i r) in
          sret (v, true) in
      match wanted_call r with
      | WantsStructured c => act (tc_id c) (tc_name c) (tc_arguments c) None
      | WantsParsed name args thought =>
          let* id := drawing (cx_freshId ctx) in act id name args thought
      | WantsNothing =>
          let v := stop_with complete (an_content r)
            (add_step (mkReactStep (i + 1) (an_content r) None None None) [say assistant (an_content r)] v) in
          let* _ := fire_onStep (react_event i r) in
          sret (v, false)
      end
  end.

(** [for (let i = 0; i < maxSteps; i++)]. *)
Fixpoint react_loop (llmFn : list StrategyMessage -> W -> W * result StrategyLLMResponse)
    (n : nat) (i : Z) (v : react_vars) : StratM react_vars :=
  match n with
  | O => sret v
  | S n' =>
      let* (v, more) := react_iteration llmFn i v in
      if more : bool then react_loop llmFn n' (i + 1) v else sret v
  end.

Definition react_final (v : react_vars) : string :=
  let last_step := List.last (map Some (v_steps v)) None in
  match v_reason v with
  | max_steps => ("Reached max iterations (" ++ str_of_Z (cx_maxSteps ctx) ++ "). Last: " ++
                  default "none" (last_step ≫= rs_observation))%string
  | error => ("Error: " ++ default "Unknown error" (last_step ≫= rs_error))%string
  | _ => v_answer v
  end.

Definition react_run : StratM (AgentCycleResult ReactStep) :=
  match cx_llmFn ctx with
  | None => sret no_llm
  | Some llmFn =>
      let* defs := reading (cx_tools ctx) in
      let* tools := lift (buildToolDescriptions defs (cx_allowedTools ctx)) in
      let system_text := (or_text (cx_systemPrompt ctx) DEFAULT_SYSTEM_PROMPT ++ tools)%string in
      let* v := react_loop llmFn (Z.to_nat (cx_maxSteps ctx)) 0
        (mkVars [say system system_text; say user (cx_task ctx)] [] 0 0 "" "" max_steps "") in
      sret (mkResult (react_final v) (v_reason v) (Z.of_nat (length (v_steps v))) (v_in v) (v_out v)
              (v_steps v) (v_model v) (v_provider v))
  end.

(** * Plan, execute, synthesize *)

Record ExecutedStep := mkExecuted { ex_step : PlanStep; ex_result : option string; ex_error : option string }.

Definition at_line_start (prev : option ascii) : bool :=
  match prev with None => true | Some c => Ascii.eqb c "010" || Ascii.eqb c "013" end.
Definition at_line_end (rest : string) : bool :=
  match rest with EmptyString => true | String c _ => Ascii.eqb c "010" || Ascii.eqb c "013" end.

(** [s.replace(re, "")] for an expression that is not global, given how it
    matches at a position. *)
Fixpoint cut_first (here : option ascii -> string -> option mstate) (prev : option ascii) (s : string) : string :=
  match here prev s with
  | Some m => m_rest m
  | None => match s with EmptyString => EmptyString | String c s' => String c (cut_first here (Some c) s') end
  end.

(** [/^```(?:json)?\s*/m] and [/\s*```\s*$/m]: the anchors are those of lines. *)
Definition OPENING : regex := re "```(?:json)?\s*".
Definition CLOSING : regex := re "\s*```\s*".
Definition opening_fence (prev : option ascii) (s : string) : option mstate :=
  if at_line_start prev then match_here OPENING prev s else None.
Definition closing_fence (prev : option ascii) (s : string) : option mstate :=
  rmatch CLOSING (mkM prev s []) (fun m => if at_line_end (m_rest m) then Some m else None).
Definition strip_fences (text : string) : string :=
  js_trim (cut_first closing_fence None (cut_first opening_fence None text)).

Definition plan_item (v : jsval) : option PlanStep :=
  match v with
  | JObj f =>
      match get_field "id" f, get_field "description" f with
      | JNum id, JStr description =>
          Some (mkStep id description
            match get_field "tool" f with JStr (String c t) => Some (String c t) | _ => None end
            (let a := get_field "tool_args" f in if is_object_value a then Some a else None))
      | _, _ => None
      end
  | _ => None
  end.

Definition parsePlanFromText (text : string) : option (list PlanStep) :=
  match cut_at "[" (strip_fences text) with
  | None => None
  | Some (_, candidate) =>
      match json_parse candidate with
      | Ok (JArr items) => match mapM plan_item items with Some [] => None | r => r end
      | _ => None
      end
  end.

(** [list.slice(0, n)]: a negative [n] counts from the end. *)
Definition slice_to {A} (n : Z) (l : list A) : list A :=
  take (Z.to_nat (if n <? 0 then Z.of_nat (length l) + n else n)) l.

Definition PLAN_SYSTEM_PROMPT : string :=
  let item (n d : string) (rest : string) := ("  {" ++ quoted "id" ++ ": " ++ n ++ ", " ++ quoted "description" ++
    ": " ++ quoted "..." ++ ", " ++ quoted "tool" ++ ": " ++ d ++ rest ++ "}")%string in
  let args a := (", " ++ quoted "tool_args" ++ ": " ++ a)%string in
  join line_break
  ["You are a planning agent. Given a task, generate a structured execution plan.";
   "Return ONLY a JSON array of steps (no markdown, no explanation):"; "[";
   (item "1" (quoted "tool_name") (args "{...}") ++ ",")%string;
   (item "2" (quoted "read_file") (args ("{" ++ quoted "path" ++ ": " ++ quoted "..." ++ "}")) ++ ",")%string;
   item "3" "null" ""; "]"; ""; "Keep the plan concise: 2-8 steps. Each step must be actionable."].

Definition SYNTHESIZE_SYSTEM_PROMPT : string := join line_break
  ["You are a synthesis agent. Given an original task, the execution plan, and the results of each step,";
   "provide a comprehensive, accurate final answer to the original task.";
   "Synthesize all evidence. Be concise and direct."].

(** The local variables of [run] after planning. *)
Record plan_vars := mkPlanVars {
  p_executed : list ExecutedStep; p_results : list string;
  p_in : Z; p_out : Z; p_model : string; p_provider : string; p_reason : stop_reason
}.

Definition count_plan (r : StrategyLLMResponse) (v : plan_vars) : plan_vars :=
  mkPlanVars (p_executed v) (p_results v) (p_in v + an_tokensIn r) (p_out v + an_tokensOut r)
    (an_model r) (an_provider r) (p_reason v).
Definition note_step (e : ExecutedStep) (text : string) (v : plan_vars) : plan_vars :=
  mkPlanVars (p_executed v ++ [e]) (p_results v ++ [text]) (p_in v) (p_out v) (p_model v) (p_provider v) (p_reason v).
Definition because (reason : stop_reason) (v : plan_vars) : plan_vars :=
  mkPlanVars (p_executed v) (p_results v) (p_in v) (p_out v) (p_model v) (p_provider v) reason.

Definition step_label (s : PlanStep) : string :=
  ("Step " ++ num_to_string (ps_id s) ++ " (" ++ ps_description s ++ "): ")%string.

(** What a tool step leaves behind: [slice] is called on an absent text when
    the data has none. *)
Definition tool_outcome (s : PlanStep) (r : result ToolResult) : ExecutedStep * string :=
  let shown t := (step_label s ++ str_take 2000 t)%string in
  let thrown m := (mkExecuted s None (Some m), (step_label s ++ "Error ; " ++ m)%string) in
  match r with
  | Ok (ToolOk data) =>
      match stringify data with
      | Ok (Some t) => (mkExecuted s (Some t) None, shown t)
      | Ok None => thrown "Cannot read properties of undefined (reading 'slice')"
      | Throw _ => (mkExecuted s (Some "[non-serializable result]") None, shown "[non-serializable result]")
      end
  | Ok (ToolError m) => (mkExecuted s None (Some m), shown ("Error: " ++ m)%string)
  | Throw e => thrown (err_message e)
  end.

Definition step_messages (s : PlanStep) (v : plan_vars) : list StrategyMessage :=
  [say system (or_text (cx_systemPrompt ctx) "You are a helpful AI assistant. Complete the assigned step accurately.");
   say user (join (line_break ++ line_break)
     ([("Original task: " ++ cx_task ctx)%string; ("Current step: " ++ ps_description s)%string] ++
      match p_results v with
      | [] => []
      | l => [("Previous results:" ++ line_break ++ join line_break (last_n 3 l))%string]
      end))].

Definition executed_event (s : PlanStep) (v : plan_vars) : StrategyStepEvent :=
  mkStepEvent "plan" (ps_id s) "execution" None
    (if (p_model v =? "")%string then None else Some (p_model v)).

Definition plan_step (llmFn : list StrategyMessage -> W -> W * result StrategyLLMResponse)
    (s : PlanStep) (v : plan_vars) : StratM plan_vars :=
  let* v :=
    match ps_tool s with
    | Some name =>
        let* r := attempt (execute_tool name (default (JObj []) (ps_tool_args s))) in
        let '(e, text) := tool_outcome s r in sret (note_step e text v)
    | None =>
        let* r := attempt (complete_with llmFn (step_messages s v)) in
        match r with
        | Ok r => sret (note_step (mkExecuted s (Some (an_content r)) None)
                          (step_label s ++ str_take 2000 (an_content r))%string (count_plan r v))
        | Throw e => sret (because error (note_step (mkExecuted s None (Some (err_message e)))
                             (step_label s ++ "LLM error ; " ++ err_message e)%string v))
        end
    end in
  let* _ := fire_onStep (executed_event s v) in
  sret v.

Fixpoint plan_steps (llmFn : list StrategyMessage -> W -> W * result StrategyLLMResponse)
    (plan : list PlanStep) (v : plan_vars) : StratM plan_vars :=
  match plan with
  | [] => sret v
  | s :: rest =>
      let* cancelled := reading (cx_aborted ctx) in
      if cancelled : bool then sret (because user_cancelled v)
      else let* v := plan_step llmFn s v in plan_steps llmFn rest v
  end.

Definition plan_line (s : PlanStep) : string :=
  ("  " ++ num_to_string (ps_id s) ++ ". " ++ ps_description s ++
   match ps_tool s with Some t => " [tool: " ++ t ++ "]" | None => EmptyString end)%string.

Definition synthesize_messages (plan : list PlanStep) (v : plan_vars) : list StrategyMessage :=
  [say system SYNTHESIZE_SYSTEM_PROMPT;
   say user (join line_break
     [("Original task: " ++ cx_task ctx)%string; ""; "Execution plan:"; join line_break (map plan_line plan); "";
      "Step results:"; join (line_break ++ line_break) (p_results v); "";
      "Synthesize the results and provide a comprehensive answer to the original task."])].

Definition synthesis_failure (m : string) (v : plan_vars) : string :=
  match p_results v with
  | [] => ("No results to synthesize. Error: " ++ m)%string
  | l => ("Synthesis failed (" ++ m ++ "). Step results:" ++ line_break ++
          join (line_break ++ line_break) l)%string
  end.

Definition plan_event (phase : string) (index : Z) (r : StrategyLLMResponse) : StrategyStepEvent :=
  mkStepEvent "plan" (num_of_Z index) phase (Some (an_tokensIn r, an_tokensOut r)) (Some (an_model r)).

Definition synthesize (llmFn : list StrategyMessage -> W -> W * result StrategyLLMResponse)
    (plan : list PlanStep) (v : plan_vars) : StratM (plan_vars * string) :=
  let* r := attempt (complete_with llmFn (synthesize_messages plan v)) in
  match r with
  | Ok r =>
      let* _ := fire_onStep (plan_event "feedback" (Z.of_nat (length plan) + 1) r) in
      sret (count_plan r v, an_content r)
  | Throw e =>
      sret (match p_reason v with user_cancelled => v | _ => because error v end,
            synthesis_failure (err_message e) v)
  end.

Definition fallback_plan : list PlanStep :=
  [mkStep num_one ("Execute task directly: " ++ str_take 200 (cx_task ctx))%string None None].
Definition chosen_plan (r : StrategyLLMResponse) : list PlanStep :=
  match parsePlanFromText (an_content r) with
  | Some parsed => slice_to (cx_maxSteps ctx) parsed
  | None => fallback_plan
  end.

Definition plan_run : StratM (AgentCycleResult ExecutedStep) :=
  match cx_llmFn ctx with
  | None => sret no_llm
  | Some llmFn =>
      let* r := attempt (complete_with llmFn [say system PLAN_SYSTEM_PROMPT; say user (cx_task ctx)]) in
      match r with
      | Throw e => sret (mkResult ("Error during planning phase: " ++ err_message e)%string error 0 0 0 [] "" "")
      | Ok r =>
          let plan := chosen_plan r in
          let* _ := fire_onStep (plan_event "decision" 0 r) in
          let* _ := match cx_onPhaseComplete ctx with
                    | Some hook => let* _ := attempt (calling (fun _ => CPhase plan) (hook plan)) in sret tt
                    | None => sret tt
                    end in
          let* v := plan_steps llmFn plan
            (mkPlanVars [] [] (an_tokensIn r) (an_tokensOut r) (an_model r) (an_provider r) complete) in
          let* (v, synthesis) := synthesize llmFn plan v in
          sret (mkResult synthesis (p_reason v) (Z.of_nat (length (p_executed v))) (p_in v) (p_out v)
                  (p_executed v) (p_model v) (p_provider v))
      end
  end.
End Cycles.
Arguments mkState {W}. Arguments sstate : clear implicits.
Arguments StratM : clear implicits.

(** * ReAct as a conversation *)

Section React.
Context {W : Type} (ctx : AgentContext W).

Definition hooked (e : StrategyStepEvent) : list outcall :=
  match cx_onStep ctx with Some _ => [CStep e] | None => [] end.

(** The call a response asks for, under some identifier. *)
Definition asks (r : StrategyLLMResponse) (name : string) (args : jsval) : Prop :=
  (exists c, wanted_call r = WantsStructured c /\ tc_name c = name /\ tc_arguments c = args) \/
  (exists thought, wanted_call r = WantsParsed name args thought).

(** [talk n i m l s]: with [n] turns left, at turn [i], after the messages [m],
    the calls [l] may follow, ending for the reason [s] or by a throw. *)
Inductive talk : nat -> Z -> list StrategyMessage -> list outcall -> result stop_reason -> Prop :=
| talk_limit i m : talk 0 i m [] (Ok max_steps)
| talk_cancel n i m : talk (S n) i m [] (Ok user_cancelled)
| talk_fail n i m e : talk (S n) i m [CLlm m (Throw e)] (Ok error)
| talk_answer n i m r : wanted_call r = WantsNothing ->
    talk (S n) i m (CLlm m (Ok r) :: hooked (react_event i r)) (Ok complete)
| talk_refuse n i m r id name args l s : asks r name args -> not_allowed ctx name = true ->
    talk n (i + 1) (m ++ tool_turn r id name ("Error: " ++ refusal name)%string) l s ->
    talk (S n) i m (CLlm m (Ok r) :: l) s
| talk_act n i m r id name args t l s : asks r name args -> not_allowed ctx name = false ->
    talk n (i + 1) (m ++ tool_turn r id name (observation_of t)) l s ->
    talk (S n) i m (CLlm m (Ok r) :: CTool name args (Ok t) :: hooked (react_event i r) ++ l) s
| talk_break n i m r name args e : asks r name args -> not_allowed ctx name = false ->
    talk (S n) i m [CLlm m (Ok r); CTool name args (Throw e)] (Throw e).

(** Completions, and the tokens of those that answered. *)
Definition llm_calls (l : list outcall) : nat :=
  foldr (fun c n => match c with CLlm _ _ => S n | _ => n end) O l.
Definition spent (f : StrategyLLMResponse -> Z) (l : list outcall) : Z :=
  foldr (fun c acc => match c with CLlm _ (Ok r) => f r + acc | _ => acc end) 0 l.

Lemma llm_calls_cons c l :
  llm_calls (c :: l) = ((match c with CLlm _ _ => 1 | _ => 0 end) + llm_calls l)%nat.
Proof. by destruct c. Qed.
Lemma llm_calls_app l1 l2 : llm_calls (l1 ++ l2) = (llm_calls l1 + llm_calls l2)%nat.
Proof. induction l1 as [|[m [r|e]| | |] l1 IH]; simpl; [done|by rewrite IH..]. Qed.
Lemma spent_app f l1 l2 : spent f (l1 ++ l2) = spent f l1 + spent f l2.
Proof. induction l1 as [|[m [r|e]| | |] l1 IH]; simpl; [done|rewrite IH; lia|done..]. Qed.
Lemma in_hooked c e : c ∈ hooked e -> c = CStep e.
Proof. unfold hooked. destruct (cx_onStep ctx); [apply list_elem_of_singleton|by intros ?%elem_of_nil]. Qed.
Lemma llm_calls_hooked e : llm_calls (hooked e) = O.
Proof. unfold hooked. by destruct (cx_onStep ctx). Qed.
Lemma spent_hooked f e : spent f (hooked e) = 0.
Proof. unfold hooked. by destruct (cx_onStep ctx). Qed.

Lemma fire_onStep_log e s : exists w', fire_onStep ctx e s = (mkState w' (ss_log s ++ hooked e), Ok tt).
Proof.
  unfold fire_onStep, hooked. destruct (cx_onStep ctx) as [hook|].
  - unfold sbind, attempt, calling, sret. destruct (hook e (ss_world s)) as [w r]. by exists w.
  - destruct s as [w l]. exists w. unfold sret. by rewrite app_nil_r.
Qed.

(** What a stretch of the loop did to the counters. *)
Definition counted (v v' : react_vars) (l : list outcall) : Prop :=
  length (v_steps v') = (length (v_steps v) + llm_calls l)%nat /\
  v_in v' = v_in v + spent an_tokensIn l /\ v_out v' = v_out v + spent an_tokensOut l.

Lemma counted_app v v1 v2 l1 l2 : counted v v1 l1 -> counted v1 v2 l2 -> counted v v2 (l1 ++ l2).
Proof. intros (?&?&?) (?&?&?). unfold counted. rewrite llm_calls_app, !spent_app. lia. Qed.

Lemma counted_hooked v e : counted v v (hooked e).
Proof. unfold counted. rewrite llm_calls_hooked, !spent_hooked. lia. Qed.

(** A complete run ends with the text of a completion that asks for nothing. *)
Definition final_answer (v : react_vars) (l : list outcall) : Prop :=
  v_reason v = complete ->
  exists m r, CLlm m (Ok r) ∈ l /\ wanted_call r = WantsNothing /\ v_answer v = an_content r.

(** What one turn does: it goes on, or it ended. *)
Definition turn (i : Z) (v : react_vars) (out : result (react_vars * bool)) (l : list outcall) : Prop :=
  match out with
  | Ok (v', more) =>
      counted v v' l /\
      if more then v_reason v' = v_reason v /\
           (forall n l' s, talk n (i + 1) (v_messages v') l' s -> talk (S n) i (v_messages v) (l ++ l') s)
      else (forall n, talk (S n) i (v_messages v) l (Ok (v_reason v'))) /\ final_answer v' l
  | Throw e => forall n, talk (S n) i (v_messages v) l (Throw e)
  end.

Lemma act_turn (i : Z) v r id name args thought w l :
  asks r name args ->
  exists w' l' out,
    (if not_allowed ctx name then
       sret (add_step (mkReactStep (i + 1) (default (an_content r) thought) (Some (name, args)) None (Some (refusal name)))
          (tool_turn r id name ("Error: " ++ refusal name)%string) (count_answer r v), true)
     else
       sbind (execute_tool ctx name args) (fun result =>
         sbind (fire_onStep ctx (react_event i r)) (fun _ =>
           sret (add_step (mkReactStep (i + 1)
                     (default (js_trim (replace_all TOOL_CALL_BLOCK "" (an_content r))) thought)
                     (Some (name, args)) (Some (observation_of result)) (tool_error result))
                  (tool_turn r id name (observation_of result)) (count_answer r v), true))))
      (mkState w (l ++ [CLlm (v_messages v) (Ok r)])) = (mkState w' (l ++ l'), out) /\ turn i v out l'.
Proof.
  intros Ha. destruct (not_allowed ctx name) eqn:En.
  - eexists _, [CLlm _ (Ok r)], _. split; [reflexivity|]. cbn. unfold counted. cbn. rewrite length_app. cbn.
    split; [lia|]. split; [done|]. intros n l' s. by apply talk_refuse with (args := args).
  - unfold sbind at 1, execute_tool, calling. cbn [ss_world ss_log].
    destruct (cx_execute ctx name args w) as [w1 [t|e]].
    + unfold sbind. match goal with |- context[fire_onStep ctx ?e ?s] => destruct (fire_onStep_log e s) as [w2 ->] end.
      cbn [ss_log]. eexists _, (CLlm _ (Ok r) :: CTool name args (Ok t) :: hooked (react_event i r)), _.
      rewrite <- !(assoc_L (++)). split; [reflexivity|]. cbn. split.
      * eapply (counted_app _ _ _ [CLlm _ (Ok r); CTool name args (Ok t)]); [|apply counted_hooked].
        unfold counted. cbn. rewrite length_app. cbn. lia.
      * split; [done|]. intros n l' s. by apply talk_act.
    + eexists _, [CLlm _ (Ok r); CTool name args (Throw e)], _. rewrite <- !(assoc_L (++)).
      split; [reflexivity|]. intros n. by constructor.
Qed.

Lemma react_iteration_turn llmFn i v w l :
  exists w' l' out, react_iteration ctx llmFn i v (mkState w l) = (mkState w' (l ++ l'), out) /\ turn i v out l'.
Proof.
  unfold react_iteration. unfold sbind at 1. unfold reading. cbn [ss_world].
  destruct (cx_aborted ctx w).
  { exists w, []. eexists. rewrite app_nil_r. split; [reflexivity|]. cbn. unfold counted. cbn.
    split; [lia|]. split; [intros n; constructor|by unfold final_answer]. }
  unfold sbind at 1, attempt, complete_with, calling. cbn [ss_world ss_log].
  destruct (llmFn (v_messages v) w) as [w1 [r|e]].
  2: { eexists _, [CLlm _ (Throw e)], _. split; [reflexivity|]. cbn. unfold counted. cbn. rewrite length_app. cbn.
       split; [lia|]. split; [intros n; constructor|by unfold final_answer]. }
  cbv zeta. destruct (wanted_call r) as [c|name args thought|] eqn:E.
  - apply (act_turn i v r (tc_id c) (tc_name c) (tc_arguments c) None). left. by exists c.
  - unfold sbind at 1, drawing. cbn [ss_world ss_log]. destruct (cx_freshId ctx w1) as [w2 id].
    apply (act_turn i v r id name args thought). right. by exists thought.
  - unfold sbind at 1. match goal with |- context[fire_onStep ctx ?e ?s] => destruct (fire_onStep_log e s) as [w2 ->] end.
    cbn [ss_log]. eexists _, (CLlm _ (Ok r) :: hooked (react_event i r)), _.
    rewrite <- !(assoc_L (++)). split; [reflexivity|]. cbn. split.
    + eapply (counted_app _ _ _ [CLlm _ (Ok r)]); [|apply counted_hooked].
      unfold counted. cbn. rewrite length_app. cbn. lia.
    + split; [intros n; by constructor|]. intros _. eexists _, r. split; [left|done].
Qed.

(** The loop is a conversation, and its counters are those of its calls. *)
Lemma react_loop_talks llmFn n : forall i v w l, v_reason v = max_steps ->
  exists w' l' out, react_loop ctx llmFn n i v (mkState w l) = (mkState w' (l ++ l'), out) /\
    talk n i (v_messages v) l' (v_reason <$> out) /\
    match out with Ok v' => counted v v' l' /\ final_answer v' l' | Throw _ => True end.
Proof.
  induction n as [|n IH]; intros i v w l Hr; cbn [react_loop].
  { exists w, [], (Ok v). rewrite app_nil_r. split; [done|]. split; [cbn; rewrite Hr; constructor|]. split; [unfold counted; cbn; lia|].
    unfold final_answer. congruence. }
  unfold sbind. destruct (react_iteration_turn llmFn i v w l) as (w1 & l1 & out & -> & Ht).
  destruct out as [[v1 more]|e].
  2: { eexists _, _, _. split; [done|]. split; [apply Ht|done]. }
  destruct Ht as [Hc Ht]. destruct more.
  - destruct Ht as [Hr1 Ht]. destruct (IH (i + 1) v1 w1 (l ++ l1)) as (w2 & l2 & out & -> & Ht2 & Hc2); [congruence|].
    eexists _, (l1 ++ l2), _. rewrite (assoc_L (++)). split; [done|]. split; [by apply Ht|].
    destruct out; [|done]. destruct Hc2 as [Hc2 Hf]. split; [by eapply counted_app|].
    intros (m & r & Hm & ?)%Hf. exists m, r. split; [apply elem_of_app; by right|done].
  - eexists _, _, _. split; [done|]. destruct Ht as [Ht Hf]. by split; [apply Ht|].
Qed.

Lemma talk_tools n i m l s name args a : talk n i m l s -> CTool name args a ∈ l -> not_allowed ctx name = false.
Proof.
  intros Ht Hin. induction Ht as [| | |n i m r Hw|n i m r id nm ar l s Ha Hn Ht IH|n i m r id nm ar t l s Ha Hn Ht IH|n i m r nm ar e Ha Hn].
  - by apply elem_of_nil in Hin.
  - by apply elem_of_nil in Hin.
  - by apply list_elem_of_singleton in Hin.
  - apply elem_of_cons in Hin as [|Hin]; [done|]. by apply in_hooked in Hin.
  - apply elem_of_cons in Hin as [|Hin]; [done|]. by apply IH.
  - apply elem_of_cons in Hin as [|Hin]; [done|]. apply elem_of_cons in Hin as [Hin|Hin]; [by simplify_eq|].
    apply elem_of_app in Hin as [Hin|Hin]; [by apply in_hooked in Hin|by apply IH].
  - apply elem_of_cons in Hin as [|Hin]; [done|]. apply list_elem_of_singleton in Hin. by simplify_eq.
Qed.

Lemma talk_bounded n i m l s : talk n i m l s -> (llm_calls l <= n)%nat.
Proof.
  intros Ht. induction Ht as [| | |n i m r Hw|n i m r id nm ar l s Ha Hn Ht IH|n i m r id nm ar t l s Ha Hn Ht IH|];
    rewrite ?llm_calls_cons, ?llm_calls_app, ?llm_calls_hooked; cbn; lia.
Qed.

Lemma talk_prompts n i m l s p a : talk n i m l s -> CLlm p a ∈ l -> m `prefix_of` p.
Proof.
  intros Ht. induction Ht as [| | |n i m r Hw|n i m r id nm ar l s Ha Hn Ht IH|n i m r id nm ar t l s Ha Hn Ht IH|n i m r nm ar e Ha Hn];
    intros Hin.
  - by apply elem_of_nil in Hin.
  - by apply elem_of_nil in Hin.
  - apply list_elem_of_singleton in Hin. by simplify_eq.
  - apply elem_of_cons in Hin as [Hin|Hin]; [by simplify_eq|]. by apply in_hooked in Hin.
  - apply elem_of_cons in Hin as [Hin|Hin]; [by simplify_eq|].
    etrans; [|by apply IH]. by apply prefix_app_r.
  - apply elem_of_cons in Hin as [Hin|Hin]; [by simplify_eq|]. apply elem_of_cons in Hin as [Hin|Hin]; [done|].
    apply elem_of_app in Hin as [Hin|Hin]; [by apply in_hooked in Hin|etrans; [|by apply IH]; by apply prefix_app_r].
  - apply elem_of_cons in Hin as [Hin|Hin]; [by simplify_eq|]. by apply list_elem_of_singleton in Hin.
Qed.

(** Where a run starts. *)
Definition first_messages (tools : string) : list StrategyMessage :=
  [say system (or_text (cx_systemPrompt ctx) DEFAULT_SYSTEM_PROMPT ++ tools)%string; say user (cx_task ctx)].

(** A run with a completion function: nothing is called, or it is a
    conversation that the result accounts for. *)
Lemma react_run_talks llmFn w : cx_llmFn ctx = Some llmFn ->
  exists w' l out, react_run ctx (mkState w []) = (mkState w' l, out) /\
    ((exists e, buildToolDescriptions (cx_tools ctx w) (cx_allowedTools ctx) = Throw e /\ out = Throw e /\ l = []) \/
     (exists tools, buildToolDescriptions (cx_tools ctx w) (cx_allowedTools ctx) = Ok tools /\
      talk (Z.to_nat (cx_maxSteps ctx)) 0 (first_messages tools) l (cr_stopReason <$> out) /\
      match out with
      | Ok r => cr_stepCount r = Z.of_nat (llm_calls l) /\
          cr_tokensIn r = spent an_tokensIn l /\ cr_tokensOut r = spent an_tokensOut l /\
          (cr_stopReason r = complete ->
           exists m a, CLlm m (Ok a) ∈ l /\ wanted_call a = WantsNothing /\ cr_finalMessage r = an_content a)
      | Throw _ => True
      end)).
Proof.
  intros E. unfold react_run. rewrite E. unfold sbind at 1, reading. cbn [ss_world].
  unfold sbind at 1, lift. destruct (buildToolDescriptions (cx_tools ctx w) (cx_allowedTools ctx)) as [tools|e].
  2: { eexists _, _, _. split; [done|]. left. by exists e. }
  cbv zeta. unfold sbind. fold (first_messages tools).
  destruct (react_loop_talks llmFn (Z.to_nat (cx_maxSteps ctx)) 0
    (mkVars (first_messages tools) [] 0 0 "" "" max_steps "") w []) as (w' & l' & out & -> & Ht & Hc); [done|].
  destruct out as [v|e].
  2: { eexists _, _, _. split; [done|]. right. by exists tools. }
  eexists _, _, _. split; [reflexivity|]. right. exists tools. split; [done|]. split; [exact Ht|].
  destruct Hc as [(Hl & Hi & Ho) Hf]. split; [exact (f_equal Z.of_nat Hl)|]. split; [exact Hi|]. split; [exact Ho|].
  intros Hr. destruct (Hf Hr) as (m & a & ? & ? & ?). exists m, a. cbn in Hr |- *. unfold react_final. by rewrite Hr.
Qed.
End React.

(** * Plan-then-execute *)

Section Plan.
Context {W : Type} (ctx : AgentContext W).

(** What a computation does from the world [w]: it returns [a], having made the
    calls [l], in the world [w']. *)
Definition does {A} (w : W) (m : StratM W A) (P : A -> list outcall -> W -> Prop) : Prop :=
  forall l0, exists w' a l, m (mkState w l0) = (mkState w' (l0 ++ l), Ok a) /\ P a l w'.

Lemma does_ret {A} w (a : A) (P : A -> list outcall -> W -> Prop) : P a [] w -> does w (sret a) P.
Proof. intros HP l0. exists w, a, []. by rewrite app_nil_r. Qed.

Lemma does_bind {A B} w (m : StratM W A) (f : A -> StratM W B) (P : B -> list outcall -> W -> Prop) :
  does w m (fun a l w1 => does w1 (f a) (fun b l' => P b (l ++ l'))) -> does w (sbind m f) P.
Proof.
  intros Hm l0. unfold sbind. destruct (Hm l0) as (w1 & a & l & -> & Hf).
  destruct (Hf (l0 ++ l)) as (w2 & b & l' & -> & HP). exists w2, b, (l ++ l'). by rewrite (assoc_L (++)).
Qed.

Lemma does_mono {A} w (m : StratM W A) (P Q : A -> list outcall -> W -> Prop) :
  does w m P -> (forall a l w', P a l w' -> Q a l w') -> does w m Q.
Proof. intros Hm HPQ l0. destruct (Hm l0) as (w' & a & l & ? & ?). exists w', a, l. auto. Qed.

Lemma does_read {A} w (f : W -> A) (P : A -> list outcall -> W -> Prop) :
  P (f w) [] w -> does w (reading f) P.
Proof. intros HP l0. exists w, (f w), []. by rewrite app_nil_r. Qed.

Lemma does_attempt {A} w (entry : result A -> outcall) f (P : result A -> list outcall -> W -> Prop) :
  P (f w).2 [entry (f w).2] (f w).1 -> does w (attempt (calling entry f)) P.
Proof.
  intros HP l0. exists (f w).1, (f w).2, [entry (f w).2]. split; [|done].
  unfold attempt, calling. cbn [ss_world ss_log]. by destruct (f w).
Qed.

(** The world after a hook. *)
Definition hook_world (e : StrategyStepEvent) (w : W) : W :=
  match cx_onStep ctx with Some hook => (hook e w).1 | None => w end.

Lemma does_hook w e (P : unit -> list outcall -> W -> Prop) :
  P tt (hooked ctx e) (hook_world e w) -> does w (fire_onStep ctx e) P.
Proof.
  unfold hooked, hook_world, fire_onStep. destruct (cx_onStep ctx) as [hook|]; intros HP.
  - by apply does_bind, does_attempt, does_ret.
  - by apply does_ret.
Qed.

Section Steps.
Context (llmFn : list StrategyMessage -> W -> W * result StrategyLLMResponse).

(** The call a step makes in the world [w], after the results so far. *)
Inductive step_call (s : PlanStep) (v : plan_vars) (w : W) : outcall -> plan_vars -> W -> Prop :=
| call_tool name w1 r : ps_tool s = Some name ->
    cx_execute ctx name (default (JObj []) (ps_tool_args s)) w = (w1, r) ->
    step_call s v w (CTool name (default (JObj []) (ps_tool_args s)) r)
      (note_step (tool_outcome s r).1 (tool_outcome s r).2 v) w1
| call_answered w1 r : ps_tool s = None -> llmFn (step_messages ctx s v) w = (w1, Ok r) ->
    step_call s v w (CLlm (step_messages ctx s v) (Ok r))
      (note_step (mkExecuted s (Some (an_content r)) None) (step_label s ++ str_take 2000 (an_content r))%string
        (count_plan r v)) w1
| call_failed w1 e : ps_tool s = None -> llmFn (step_messages ctx s v) w = (w1, Throw e) ->
    step_call s v w (CLlm (step_messages ctx s v) (Throw e))
      (because error (note_step (mkExecuted s None (Some (err_message e)))
        (step_label s ++ "LLM error ; " ++ err_message e)%string v)) w1.

(** The steps in order, one call each, from the world [w]: the signal is looked
    at before each; the steps stop if, and only if, it has aborted. *)
Inductive carried : list PlanStep -> plan_vars -> W -> list outcall -> plan_vars -> W -> Prop :=
| carried_all v w : carried [] v w [] v w
| carried_cancel s rest v w : cx_aborted ctx w = true ->
    carried (s :: rest) v w [] (because user_cancelled v) w
| carried_step s rest v w c v1 w1 l v2 w2 : cx_aborted ctx w = false ->
    step_call s v w c v1 w1 -> carried rest v1 (hook_world (executed_event s v1) w1) l v2 w2 ->
    carried (s :: rest) v w (c :: hooked ctx (executed_event s v1) ++ l) v2 w2.

Lemma plan_step_does s v w (P : plan_vars -> list outcall -> W -> Prop) :
  (forall c v1 w1, step_call s v w c v1 w1 ->
     P v1 (c :: hooked ctx (executed_event s v1)) (hook_world (executed_event s v1) w1)) ->
  does w (plan_step ctx llmFn s v) P.
Proof.
  intros HP. unfold plan_step. apply does_bind.
  assert (Hk : does w match ps_tool s with
    | Some name => sbind (attempt (execute_tool ctx name (default (JObj []) (ps_tool_args s))))
        (fun r => let '(e, text) := tool_outcome s r in sret (note_step e text v))
    | None => sbind (attempt (complete_with llmFn (step_messages ctx s v))) (fun r =>
        match r with
        | Ok r => sret (note_step (mkExecuted s (Some (an_content r)) None)
                          (step_label s ++ str_take 2000 (an_content r))%string (count_plan r v))
        | Throw e => sret (because error (note_step (mkExecuted s None (Some (err_message e)))
                             (step_label s ++ "LLM error ; " ++ err_message e)%string v))
        end)
    end (fun v1 l w1 => exists c, l = [c] /\ step_call s v w c v1 w1)).
  { destruct (ps_tool s) as [name|] eqn:E; apply does_bind, does_attempt.
    - destruct (cx_execute ctx name (default (JObj []) (ps_tool_args s)) w) as [w1 r] eqn:Ec.
      pose proof (call_tool s v w name w1 r E Ec) as H. cbn [fst snd].
      destruct (tool_outcome s r) as [e text]. apply does_ret. by eexists.
    - destruct (llmFn (step_messages ctx s v) w) as [w1 [r|e]] eqn:Ec; apply does_ret; eexists;
        (split; [reflexivity|]); by constructor. }
  eapply does_mono; [exact Hk|]. intros v1 l w1 (c & -> & Hc).
  apply does_bind, does_hook, does_ret. rewrite app_nil_r. by apply HP.
Qed.

Lemma plan_steps_does plan : forall v w,
  does w (plan_steps ctx llmFn plan v) (fun v' l w' => carried plan v w l v' w').
Proof.
  induction plan as [|s rest IH]; intros v w; cbn [plan_steps].
  { apply does_ret. constructor. }
  apply does_bind, does_read. destruct (cx_aborted ctx w) eqn:Ea; [apply does_ret; by constructor|].
  apply does_bind, plan_step_does. intros c v1 w1 Hc. eapply does_mono; [apply IH|].
  intros v2 l w2 Hl. cbn. by econstructor.
Qed.

Lemma step_call_counts s v w c v1 w1 : step_call s v w c v1 w1 ->
  p_in v1 = p_in v + spent an_tokensIn [c] /\ p_out v1 = p_out v + spent an_tokensOut [c] /\
  length (p_executed v1) = S (length (p_executed v)).
Proof. destruct 1; cbn; rewrite length_app; cbn; lia. Qed.

(** The result accounts for the calls, and no step is made twice. *)
Lemma carried_counts plan v w l v' w' : carried plan v w l v' w' ->
  p_in v' = p_in v + spent an_tokensIn l /\ p_out v' = p_out v + spent an_tokensOut l /\
  (llm_calls l <= length (p_executed v') - length (p_executed v))%nat /\
  (length (p_executed v) <= length (p_executed v') <= length (p_executed v) + length plan)%nat.
Proof.
  induction 1 as [v w|s rest v w Ha|s rest v w c v1 w1 l v2 w2 Ha Hc Hl IH]; cbn [length]; [cbn; lia..|].
  apply step_call_counts in Hc. change (c :: hooked ctx (executed_event s v1) ++ l) with ([c] ++ hooked ctx (executed_event s v1) ++ l).
  rewrite !spent_app, !spent_hooked, !llm_calls_app, llm_calls_hooked.
  assert (llm_calls [c] <= 1)%nat by (rewrite llm_calls_cons; destruct c; cbn; lia). lia.
Qed.

Definition planning_messages : list StrategyMessage := [say system PLAN_SYSTEM_PROMPT; say user (cx_task ctx)].
Definition planned (plan : list PlanStep) : list outcall :=
  match cx_onPhaseComplete ctx with Some _ => [CPhase plan] | None => [] end.
Definition phase_world (plan : list PlanStep) (w : W) : W :=
  match cx_onPhaseComplete ctx with Some hook => (hook plan w).1 | None => w end.
Definition plan_start (a : StrategyLLMResponse) : plan_vars :=
  mkPlanVars [] [] (an_tokensIn a) (an_tokensOut a) (an_model a) (an_provider a) complete.

(** The world the steps start from, once planning has answered [a] in [w1]. *)
Definition plan_begins (a : StrategyLLMResponse) (w1 : W) : W :=
  phase_world (chosen_plan ctx a) (hook_world (plan_event "decision" 0 a) w1).

(** What a run from the world [w] calls, and what its result says of it. *)
Definition plan_account (w : W) (r : AgentCycleResult ExecutedStep) (l : list outcall) : Prop :=
  (exists w1 e, llmFn planning_messages w = (w1, Throw e) /\
     l = [CLlm planning_messages (Throw e)] /\ cr_stopReason r = error /\ cr_stepsTrace r = []) \/
  (exists w1 a body v w2 w3 s,
     let plan := chosen_plan ctx a in
     llmFn planning_messages w = (w1, Ok a) /\
     carried plan (plan_start a) (plan_begins a w1) body v w2 /\
     llmFn (synthesize_messages ctx plan v) w2 = (w3, s) /\
     l = CLlm planning_messages (Ok a) :: hooked ctx (plan_event "decision" 0 a) ++ planned plan ++ body ++
         CLlm (synthesize_messages ctx plan v) s ::
         match s with Ok b => hooked ctx (plan_event "feedback" (Z.of_nat (length plan) + 1) b) | Throw _ => [] end /\
     cr_stepsTrace r = p_executed v /\
     match s with
     | Ok b => cr_finalMessage r = an_content b /\ cr_stopReason r = p_reason v
     | Throw e => cr_finalMessage r = synthesis_failure (err_message e) v /\ cr_stopReason r <> complete
     end).

Lemma synthesize_does plan v w (P : plan_vars * string -> list outcall -> W -> Prop) :
  (forall w1 b, llmFn (synthesize_messages ctx plan v) w = (w1, Ok b) ->
     forall w2, P (count_plan b v, an_content b) ([CLlm (synthesize_messages ctx plan v) (Ok b)] ++
       hooked ctx (plan_event "feedback" (Z.of_nat (length plan) + 1) b)) w2) ->
  (forall w1 e, llmFn (synthesize_messages ctx plan v) w = (w1, Throw e) ->
     P (match p_reason v with user_cancelled => v | _ => because error v end, synthesis_failure (err_message e) v)
       [CLlm (synthesize_messages ctx plan v) (Throw e)] w1) ->
  does w (synthesize ctx llmFn plan v) P.
Proof.
  intros Hok Hbad. unfold synthesize. apply does_bind, does_attempt.
  destruct (llmFn (synthesize_messages ctx plan v) w) as [w1 [b|e]] eqn:E; cbn [fst snd].
  - apply does_bind, does_hook, does_ret. rewrite app_nil_r. by eapply Hok.
  - by apply does_ret, Hbad.
Qed.

Definition counts_tokens (r : AgentCycleResult ExecutedStep) (l : list outcall) : Prop :=
  cr_tokensIn r = spent an_tokensIn l /\ cr_tokensOut r = spent an_tokensOut l /\
  cr_stepCount r = Z.of_nat (length (cr_stepsTrace r)).

Lemma spent_planned f plan : spent f (planned plan) = 0.
Proof. unfold planned. by destruct (cx_onPhaseComplete ctx). Qed.

Lemma plan_run_does w : cx_llmFn ctx = Some llmFn ->
  does w (plan_run ctx) (fun r l _ => plan_account w r l /\ counts_tokens r l).
Proof.
  intros E. unfold plan_run. rewrite E. apply does_bind, does_attempt. fold planning_messages.
  destruct (llmFn planning_messages w) as [w1 [a|e]] eqn:Ep; cbn [fst snd].
  2: { apply does_ret. split; [left; by exists w1, e|]. by split. }
  cbv zeta. apply does_bind, does_hook, does_bind.
  set (wh := hook_world (plan_event "decision" 0 a) w1).
  assert (Hp : does wh match cx_onPhaseComplete ctx with
      | Some hook => sbind (attempt (calling (fun _ => CPhase (chosen_plan ctx a)) (hook (chosen_plan ctx a)))) (fun _ => sret tt)
      | None => sret tt
      end (fun _ l w' => l = planned (chosen_plan ctx a) /\ w' = phase_world (chosen_plan ctx a) wh)).
  { unfold planned, phase_world. destruct (cx_onPhaseComplete ctx); [|by apply does_ret].
    by apply does_bind, does_attempt, does_ret. }
  eapply does_mono; [exact Hp|]. intros [] lp ? [-> ->]. apply does_bind. eapply does_mono; [apply plan_steps_does|].
  intros v body w2 Hb. apply does_bind, synthesize_does.
  - intros w3 b Es w4. apply does_ret. pose proof (carried_counts _ _ _ _ _ _ Hb) as (Hi & Ho & _). split.
    + right. exists w1, a, body, v, w2, w3, (Ok b). cbn. rewrite app_nil_r. done.
    + unfold counts_tokens. cbn [cr_tokensIn cr_tokensOut cr_stepCount cr_stepsTrace].
      rewrite !app_nil_r, !spent_app, !spent_hooked, !spent_planned. cbn in Hi, Ho |- *. lia.
  - intros w3 e Es. apply does_ret. pose proof (carried_counts _ _ _ _ _ _ Hb) as (Hi & Ho & _).
    assert (Hw : forall u, u = match p_reason v with user_cancelled => v | _ => because error v end ->
      p_in u = p_in v /\ p_out u = p_out v /\ p_executed u = p_executed v /\ p_reason u <> complete)
      by (intros u ->; destruct (p_reason v) eqn:Er; cbn; rewrite ?Er; done).
    destruct (Hw _ eq_refl) as (E1 & E2 & E3 & E4). split.
    + right. exists w1, a, body, v, w2, w3, (Throw e). cbn. done.
    + unfold counts_tokens. cbn [cr_tokensIn cr_tokensOut cr_stepCount cr_stepsTrace].
      rewrite E1, E2, E3, !app_nil_r, !spent_app, !spent_hooked, !spent_planned.
      cbn in Hi, Ho |- *. lia.
Qed.
End Steps.
End Plan.

(** * Properties *)

(** C39: ReAct executes a tool only if it is in the list of allowed tools, in
    whichever way the model asked for it, and however the run ends. *)
Theorem react_confined {W} (ctx : AgentContext W) llmFn allowed w name args a :
  cx_llmFn ctx = Some llmFn -> cx_allowedTools ctx = Some allowed ->
  CTool name args a ∈ ss_log (react_run ctx (mkState w [])).1 -> name ∈ allowed.
Proof.
  intros El Ea Hin. destruct (react_run_talks ctx llmFn w El) as (w' & l & out & E & H).
  rewrite E in Hin. destruct H as [(e & _ & _ & ->)|(tools & _ & Ht & _)]; [by apply elem_of_nil in Hin|].
  pose proof (talk_tools _ _ _ _ _ _ _ _ _ Ht Hin) as Hn. unfold not_allowed in Hn. rewrite Ea in Hn.
  by apply negb_false_iff, bool_decide_eq_true in Hn.
Qed.

(** A ReAct run asks the model at most [maxSteps] times, each prompt
    extends the first one, and a run that returns reports the number of
    completions, their tokens, and as final answer the text of a completion that
    asks for nothing. *)
Theorem react_accounts {W} (ctx : AgentContext W) llmFn w :
  cx_llmFn ctx = Some llmFn ->
  let '(s, out) := react_run ctx (mkState w []) in
  (llm_calls (ss_log s) <= Z.to_nat (cx_maxSteps ctx))%nat /\
  (forall p a, CLlm p a ∈ ss_log s -> exists tools, first_messages ctx tools `prefix_of` p) /\
  forall r, out = Ok r ->
    cr_stepCount r = Z.of_nat (llm_calls (ss_log s)) /\
    cr_tokensIn r = spent an_tokensIn (ss_log s) /\ cr_tokensOut r = spent an_tokensOut (ss_log s) /\
    (cr_stopReason r = complete ->
     exists m a, CLlm m (Ok a) ∈ ss_log s /\ wanted_call a = WantsNothing /\ cr_finalMessage r = an_content a).
Proof.
  intros El. destruct (react_run_talks ctx llmFn w El) as (w' & l & out & -> & H). cbn [ss_log].
  destruct H as [(e & _ & -> & ->)|(tools & _ & Ht & Hr)].
  - split; [cbn; lia|]. split; [by intros p a ?%elem_of_nil|done].
  - split; [exact (talk_bounded _ _ _ _ _ _ Ht)|]. split; [|by intros r ->].
    intros p a Hin. exists tools. exact (talk_prompts _ _ _ _ _ _ _ _ Ht Hin).
Qed.

(** C40: A plan-then-execute run always returns.  Planning fails, and nothing
    else is called; or the steps of the chosen plan are carried out in order, one
    call each, every call answered as the port answers in the world it finds: the
    signal is looked at before each step, which is carried out if it has not
    aborted, and if it has, that step and all later ones are left out and the
    reason is the cancellation.  One synthesis over the results follows, even
    after a cancellation.  The result has the executed steps and the tokens of
    all completions. *)
Theorem plan_always_answers {W} (ctx : AgentContext W) llmFn w :
  cx_llmFn ctx = Some llmFn ->
  exists w' r l, plan_run ctx (mkState w []) = (mkState w' l, Ok r) /\
    plan_account ctx llmFn w r l /\ counts_tokens r l.
Proof. intros El. by destruct (plan_run_does ctx llmFn w El []) as (w' & r & l & E & H); exists w', r, l. Qed.

(** * Concrete runs *)

(** The world is the script of completions still to come; tools answer [data]. *)
Definition script := list StrategyLLMResponse.
Definition scripted (m : list StrategyMessage) (w : script) : script * result StrategyLLMResponse :=
  match w with
  | a :: w' => (w', Ok a)
  | [] => ([], Throw (JsError "Error" "no more answers"))
  end.
Definition toy (data : jsval) (cancelled : script -> bool) : AgentContext script :=
  {| cx_task := "weigh the moon"; cx_systemPrompt := ""; cx_tools := fun _ => [];
     cx_execute := fun _ _ w => (w, Ok (ToolOk data)); cx_llmFn := Some scripted; cx_maxSteps := 3;
     cx_allowedTools := Some ["look"]; cx_onStep := None; cx_onPhaseComplete := None;
     cx_aborted := cancelled; cx_freshId := fun w => (w, "tc") |}.
Definition answer (text : string) : StrategyLLMResponse := mkAnswer text None 10 5 "m" "p".

Definition asking (tool : string) : string :=
  ("I look." ++ line_break ++ "```tool_call" ++ line_break ++ "{" ++ quoted "name" ++ ":" ++ quoted tool ++ "," ++
   quoted "arguments" ++ ":{}}" ++ line_break ++ "```")%string.
Example parse_fenced : parseReactToolCall (asking "look") = Some ("look", JObj []).
Proof. vm_compute. reflexivity. Qed.
Example parse_bare :
  wanted_call (answer ("So: {" ++ quoted "name" ++ ":" ++ quoted "look" ++ "," ++ quoted "arguments" ++ ":{}}")) =
  WantsParsed "look" (JObj []) (Some "So:").
Proof. vm_compute. reflexivity. Qed.

(** An answer that shows an example in JSON is executed as a call. *)
Example parse_quoted_example :
  wanted_call (answer ("Do not run this:" ++ line_break ++ "```json" ++ line_break ++ "{" ++ quoted "name" ++ ":" ++
    quoted "wipe" ++ "," ++ quoted "arguments" ++ ":{}}" ++ line_break ++ "```")) =
  WantsParsed "wipe" (JObj []) (Some "Do not run this:").
Proof. vm_compute. reflexivity. Qed.

Definition never (_ : script) : bool := false.

Lemma react_confined_witness : True /\ "look" ∈ ["look"].
Proof.
  split; [done|].
  apply (react_confined (toy (JStr "heavy") never) scripted ["look"] [answer (asking "look"); answer (asking "wipe"); answer "7e22 kg"]
    "look" (JObj []) (Ok (ToolOk (JStr "heavy")))); [reflexivity..|].
  apply list_elem_of_In. vm_compute. tauto.
Defined.

Lemma react_accounts_witness :
  (fun r => match r with Ok r => (cr_stopReason r, cr_stepCount r, cr_tokensIn r, cr_finalMessage r) | _ => (error, 0, 0, "") end)
    (react_run (toy (JStr "heavy") never) (mkState [answer (asking "look"); answer (asking "wipe"); answer "7e22 kg"] [])).2 =
  (complete, 3, 30, "7e22 kg") /\
  let '(s, out) := react_run (toy (JStr "heavy") never) (mkState [answer (asking "look"); answer (asking "wipe"); answer "7e22 kg"] []) in
  (llm_calls (ss_log s) <= Z.to_nat 3)%nat.
Proof.
  split; [vm_compute; reflexivity|].
  pose proof (react_accounts (toy (JStr "heavy") never) scripted
    [answer (asking "look"); answer (asking "wipe"); answer "7e22 kg"] eq_refl) as H.
  destruct (react_run _ _) as [s out]. exact (proj1 H).
Defined.

(** A plan with one tool step, fenced and with some prose. *)
Definition one_tool : StrategyLLMResponse :=
  answer ("```json" ++ line_break ++ "[{" ++ quoted "id" ++ ":1," ++ quoted "description" ++ ":" ++ quoted "clean" ++
          "," ++ quoted "tool" ++ ":" ++ quoted "wipe" ++ "}]" ++ line_break ++ "```").
Example parse_plan : parsePlanFromText (an_content one_tool) = Some [mkStep num_one "clean" (Some "wipe") None].
Proof. vm_compute. reflexivity. Qed.
Example parse_plan_bad : parsePlanFromText "[{}]" = None /\ parsePlanFromText "[]" = None /\ parsePlanFromText "no" = None.
Proof. vm_compute. done. Qed.

(** A tool that is not allowed is executed by a plan, and one that returns
    nothing counts as failed. *)
Lemma plan_always_answers_witness :
  let '(s, out) := plan_run (toy JUndef never) (mkState [one_tool; answer "done"] []) in
  (CTool "wipe" (JObj []) (Ok (ToolOk JUndef)) ∈ ss_log s /\ cx_allowedTools (toy JUndef never) = Some ["look"] /\
   match out with
   | Ok r => cr_stopReason r = complete /\
       cr_stepsTrace r = [mkExecuted (mkStep num_one "clean" (Some "wipe") None) None
                            (Some "Cannot read properties of undefined (reading 'slice')")]
   | Throw _ => False
   end) /\
  exists w' r l, plan_run (toy JUndef never) (mkState [one_tool; answer "done"] []) = (mkState w' l, Ok r) /\
    plan_account (toy JUndef never) scripted [one_tool; answer "done"] r l /\ counts_tokens r l.
Proof.
  split; [|exact (plan_always_answers (toy JUndef never) scripted [one_tool; answer "done"] eq_refl)].
  vm_compute. repeat split; repeat constructor.
Defined.
