(* ===== verification/Sampling.v ===== *)
(** Test-time compute strategies, [src/compute/strategies/]: best-of-N
    ([best-of-n.ts]), best-of-N with several verifiers ([bon-mav.ts]),
    tree-of-thoughts ([tree-of-thoughts.ts]), mixture-of-agents
    ([mixture-of-agents.ts]), [single-shot.ts] and [two-phase-orient.ts].

    Generators and verifiers are the host's: functions on its world that may
    throw.  Calls started together take effect in array order, and the first
    rejection in that order is the one reported.  The reason of an abort is an
    error; evaluators and aggregators of plain values do not throw.  Latencies are
    left out. *)

From S2P Require Import Prelude JsNum JsValue Battery NumText TokenBase.
From Stdlib Require Import Ascii SpecFloat.

Definition RangeError (m : string) : jserror := JsError "RangeError" m.
Definition plain_error (m : string) : jserror := JsError "Error" m.

(** [!Number.isInteger(x) || x < 1], or the integer. *)
Definition positive_integer (x : num) : option Z :=
  if negb (num_is_integer x) || num_ltb x num_one then None else Some (num_floor x).

Record StrategyResult (Out : Type) := mkStrategy {
  st_result : option Out; st_strategy : string; st_candidates : Z; st_scores : list num; st_calls : Z
}.
Arguments mkStrategy {Out}. Arguments st_result {Out} _. Arguments st_strategy {Out} _. Arguments st_candidates {Out} _.
Arguments st_scores {Out} _. Arguments st_calls {Out} _.

Section Calls.
Context {W : Type}.

(** A computation on the world that may throw. *)
Definition Call (A : Type) : Type := W -> W * result A.
Definition cret {A} (a : A) : Call A := fun w => (w, Ok a).
Definition cfail {A} (e : jserror) : Call A := fun w => (w, Throw e).
Definition cbind {A B} (m : Call A) (f : A -> Call B) : Call B := fun w =>
  match m w with (w, Ok a) => f a w | (w, Throw e) => (w, Throw e) end.
Notation "'let&' x := m 'in' k" := (cbind m (fun x => k))
  (at level 200, x pattern, m at level 100, k at level 200).

(** [Promise.all]: every call is made, then the first rejection is thrown. *)
Fixpoint all_of {A} (calls : list (Call A)) : Call (list A) := fun w =>
  match calls with
  | [] => (w, Ok [])
  | c :: rest =>
      let '(w, r) := c w in
      let '(w, rs) := all_of rest w in
      (w, match r, rs with
          | Throw e, _ => Throw e
          | Ok _, Throw e => Throw e
          | Ok a, Ok l => Ok (a :: l)
          end)
  end.

(** One after the other, up to the first throw. *)
Fixpoint one_by_one {A} (calls : list (Call A)) : Call (list A) :=
  match calls with
  | [] => cret []
  | c :: rest => let& a := c in let& l := one_by_one rest in cret (a :: l)
  end.

(** Whether the signal is aborted, with its reason. *)
Context (signal : W -> option jserror).
Definition throwIfAborted : Call unit := fun w =>
  (w, match signal w with Some e => Throw e | None => Ok tt end).

(** The candidates: all at once, or one by one with a look at the signal. *)
Definition sample {Out} (generator : Call Out) (parallel : bool) (n : nat) : Call (list Out) :=
  if parallel then all_of (replicate n generator)
  else one_by_one (replicate n (let& _ := throwIfAborted in generator)).

(** The first of the largest scores: its place and value. *)
Fixpoint argmax_from (i best : nat) (bestScore : num) (scores : list num) : nat * num :=
  match scores with
  | [] => (best, bestScore)
  | s :: rest =>
      if num_gtb s bestScore then argmax_from (S i) i s rest else argmax_from (S i) best bestScore rest
  end.
Definition argmax (scores : list num) : nat * num :=
  match scores with
  | [] => (O, S754_infinity true)
  | s :: rest => argmax_from 1 0 s rest
  end.

(** * Best of N *)

(** [bestOfNStrategy]: the checks at construction, then [run]. *)
Definition bestOf_guard {Out} (n : num) (verifier rewardModel : option (Out -> Call num)) : result (Z * (Out -> Call num)) :=
  match positive_integer n with
  | None => Throw (RangeError ("bestOfNStrategy: n must be an integer >= 1, got " ++ num_to_string n)%string)
  | Some k =>
      match verifier, rewardModel with
      | Some scoreOne, None | None, Some scoreOne => Ok (k, scoreOne)
      | _, _ => Throw (plain_error "BestOfN requires exactly one of verifier|rewardModel")
      end
  end.

Definition bestOf_run {Out} (n : Z) (scoreOne : Out -> Call num) (parallel : bool) (generator : Call Out)
    : Call (StrategyResult Out) :=
  let& _ := throwIfAborted in
  let& candidates := sample generator parallel (Z.to_nat n) in
  let& _ := throwIfAborted in
  let& scores := (if parallel then all_of else one_by_one) (map scoreOne candidates) in
  cret (mkStrategy (candidates !! (argmax scores).1) "best-of-n" (Z.of_nat (length candidates)) scores
          (Z.of_nat (length candidates))).

(** * Several verifiers *)

Inductive MAVAggregation := mav_mean | mav_median | mav_min | mav_majority.
#[export] Instance MAVAggregation_eq_dec : EqDecision MAVAggregation. Proof. solve_decision. Defined.
Definition mav_name (a : MAVAggregation) : string :=
  match a with mav_mean => "mean" | mav_median => "median" | mav_min => "min" | mav_majority => "majority-vote" end.

(** [(a, b) => a - b], on numbers that are not NaN. *)
Definition num_cmp (a b : num) : comparison :=
  if num_ltb a b then Lt else if num_ltb b a then Gt else Eq.

Definition aggregate (row : list num) (mode : MAVAggregation) (voteThreshold : num) : num :=
  let m := num_of_Z (Z.of_nat (length row)) in
  match row with
  | [] => num_zero
  | first :: others =>
      match mode with
      | mav_mean => num_div (fold_left num_add row num_zero) m
      | mav_median =>
          let sorted := sort_by num_cmp row in
          let mid := (length row / 2)%nat in
          let at_ i := default num_nan (sorted !! i) in
          if Nat.even (length row) then num_div (num_add (at_ (mid - 1)%nat) (at_ mid)) (num_of_Z 2) else at_ mid
      | mav_min => fold_left (fun lo x => if num_ltb x lo then x else lo) others first
      | mav_majority => num_div (num_of_Z (count_if (fun x => num_geb x voteThreshold) row)) m
      end
  end.

Record BonMavResult (Out : Type) := mkMav { mav_base : StrategyResult Out; mav_matrix : list (list num); mav_mode : MAVAggregation }.
Arguments mkMav {Out}. Arguments mav_base {Out} _. Arguments mav_matrix {Out} _. Arguments mav_mode {Out} _.

(** The aggregation comes as text. *)
Definition mav_of (text : string) : option MAVAggregation :=
  find_first (fun a => (mav_name a =? text)%string) [mav_mean; mav_median; mav_min; mav_majority].

Definition bonMav_guard {V} (n : num) (verifiers : list V) (aggregation : string) (voteThreshold : num)
    : result (Z * MAVAggregation) :=
  match positive_integer n with
  | None => Throw (RangeError ("bonMavStrategy: n must be a positive integer, got " ++ num_to_string n)%string)
  | Some k =>
      if (length verifiers <? 1)%nat then Throw (plain_error "BoN-MAV requires at least 1 verifier")
      else
        match mav_of aggregation with
        | None => Throw (plain_error ("bonMavStrategy: unknown aggregation " ++ quoted aggregation)%string)
        | Some a =>
            if negb (is_finite voteThreshold) || num_ltb voteThreshold num_zero || num_gtb voteThreshold num_one
            then Throw (RangeError ("bonMavStrategy: voteThreshold must be in [0,1], got " ++
                                    num_to_string voteThreshold)%string)
            else Ok (k, a)
        end
  end.

(** A verifier's answer, checked by [assertVerifierResult]. *)
Definition checked_score {Out} (evaluate : Out -> Call RawResult) (candidate : Out) : Call num :=
  let& r := evaluate candidate in
  fun w => (w, match assertVerifierResult r with Ok v => Ok (score v) | Throw e => Throw e end).

(** [flat.slice(i * m, (i + 1) * m)] for each candidate. *)
Fixpoint rows (m n : nat) (flat : list num) : list (list num) :=
  match n with O => [] | S n' => take m flat :: rows m n' (drop m flat) end.

Definition bonMav_run {Out} (n : Z) (verifiers : list (Out -> Call RawResult)) (aggregation : MAVAggregation)
    (voteThreshold : num) (parallel : bool) (generator : Call Out) : Call (BonMavResult Out) :=
  let& _ := throwIfAborted in
  let& candidates := sample generator parallel (Z.to_nat n) in
  let& _ := throwIfAborted in
  let& flat := all_of (concat (map (fun c => map (fun v => checked_score v c) verifiers) candidates)) in
  let& _ := throwIfAborted in
  let matrix := rows (length verifiers) (Z.to_nat n) flat in
  let aggregated := map (fun row => aggregate row aggregation voteThreshold) matrix in
  cret (mkMav (mkStrategy (candidates !! (argmax aggregated).1) ("bon-mav-" ++ mav_name aggregation)%string
                 n aggregated n) matrix aggregation).

(** * Tree of thoughts *)

Inductive ToTSearchPolicy := bfs | dfs.
Definition policy_name (p : ToTSearchPolicy) : string := match p with bfs => "bfs" | dfs => "dfs" end.

Record ToTConfig (Out : Type) := mkToT {
  searchPolicy : ToTSearchPolicy; maxDepth : Z; branchFactor : Z; maxCalls : Z;
  evaluateState : Out -> num; pruneThreshold : num
}.
Arguments searchPolicy {Out} _. Arguments maxDepth {Out} _. Arguments branchFactor {Out} _. Arguments maxCalls {Out} _.
Arguments evaluateState {Out} _. Arguments pruneThreshold {Out} _.

Definition num_abs (x : num) : num :=
  match x with
  | S754_zero _ => S754_zero false
  | S754_infinity _ => S754_infinity false
  | S754_finite _ m e => S754_finite false m e
  | S754_nan => S754_nan
  end.

Definition defaultEvaluator (state : jsval) : num :=
  match state with
  | JStr s =>
      if (s =? "")%string then num_zero
      else num_min num_one (num_div (num_of_Z (Z.of_nat (String.length s))) (num_of_Z 200))
  | JNum x =>
      if negb (is_finite x) then num_of_decimal 5 1
      else if num_ltb x num_zero || num_gtb x (num_of_Z 200) then num_of_decimal 1 1
      else num_add (num_of_decimal 5 1) (num_mul (num_of_decimal 5 1)
             (num_div num_one (num_add num_one (num_abs (num_sub x (num_of_Z 50))))))
  | _ => num_of_decimal 5 1
  end.

(** The checks at construction; the policy comes as text. *)
Definition tot_guard {Out} (policy : option string) (depth branch calls : option num) (evaluate : Out -> num)
    (prune : option num) : result (ToTConfig Out) :=
  let depth := default (num_of_Z 3) depth in
  let branch := default (num_of_Z 3) branch in
  let calls := default (num_mul depth branch) calls in
  let policy := default "bfs" policy in
  let bad (name : string) (x : num) :=
    Throw (RangeError ("treeOfThoughtsStrategy: " ++ name ++ " must be >=1, got " ++ num_to_string x)%string) in
  match positive_integer depth with
  | None => bad "maxDepth" depth
  | Some d =>
      match positive_integer branch with
      | None => bad "branchFactor" branch
      | Some b =>
          match positive_integer calls with
          | None => bad "maxCalls" calls
          | Some c =>
              match find_first (fun p => (policy_name p =? policy)%string) [bfs; dfs] with
              | None => Throw (plain_error ("treeOfThoughtsStrategy: searchPolicy must be " ++ quoted "bfs" ++
                          " or " ++ quoted "dfs" ++ ", got " ++ quoted policy)%string)
              | Some p => Ok (mkToT Out p d b c evaluate (default (num_of_decimal 2 1) prune))
              end
          end
      end
  end.

(** A node; its identity is the order in which it was made. *)
Record TreeNode (Out : Type) := mkNode { n_id : nat; n_state : Out; n_depth : Z; n_score : num }.
Arguments mkNode {Out}. Arguments n_id {Out} _. Arguments n_state {Out} _. Arguments n_depth {Out} _. Arguments n_score {Out} _.

(** The local variables of [run], and the calls of [expandNode] so far: the
    parent and the children. *)
Record tree (Out : Type) := mkTree {
  t_world : W; t_calls : Z; t_leaves : list (TreeNode Out); t_scores : list num;
  t_made : nat; t_expansions : list (option (TreeNode Out) * list (TreeNode Out))
}.
Arguments mkTree {Out}. Arguments t_world {Out} _. Arguments t_calls {Out} _. Arguments t_leaves {Out} _.
Arguments t_scores {Out} _. Arguments t_made {Out} _. Arguments t_expansions {Out} _.

Definition finite01 (x : num) : num :=
  if negb (is_finite x) then num_zero
  else if num_ltb x num_zero then num_zero else if num_gtb x num_one then num_one else x.

Section Search.
Context {Out : Type} (cfg : ToTConfig Out) (generator : Call Out).

Definition TreeM (A : Type) : Type := tree Out -> tree Out * result A.

Fixpoint number_nodes (i : nat) (depth : Z) (samples : list Out) : list (TreeNode Out) :=
  match samples with
  | [] => []
  | a :: rest => mkNode i a depth (finite01 (evaluateState cfg a)) :: number_nodes (S i) depth rest
  end.

(** Scoring does not throw: an [evaluateState] that does, which would reject the
    whole run, is left out. *)
Definition expandNode (parent : option (TreeNode Out)) (depth : Z) : TreeM (list (TreeNode Out)) := fun t =>
  let childrenToMake := Z.min (branchFactor cfg) (maxCalls cfg - t_calls t) in
  if childrenToMake <=? 0 then (t, Ok [])
  else
    match signal (t_world t) with
    | Some e => (t, Throw e)
    | None =>
        let '(w, r) := all_of (replicate (Z.to_nat childrenToMake) generator) (t_world t) in
        match r with
        | Throw e => (mkTree w (t_calls t) (t_leaves t) (t_scores t) (t_made t) (t_expansions t), Throw e)
        | Ok samples =>
            let nodes := number_nodes (t_made t) depth samples in
            (mkTree w (t_calls t + childrenToMake) (t_leaves t) (t_scores t ++ map n_score nodes)
               (t_made t + length nodes) (t_expansions t ++ [(parent, nodes)]), Ok nodes)
        end
    end.

Definition add_leaves (l : list (TreeNode Out)) (t : tree Out) : tree Out :=
  mkTree (t_world t) (t_calls t) (t_leaves t ++ l) (t_scores t) (t_made t) (t_expansions t).
(** [if (!allLeaves.includes(n)) allLeaves.push(n)], by identity. *)
Definition include_leaf (n : TreeNode Out) (t : tree Out) : tree Out :=
  if existsb (fun m => (n_id m =? n_id n)%nat) (t_leaves t) then t else add_leaves [n] t.
Definition include_leaves (l : list (TreeNode Out)) (t : tree Out) : tree Out :=
  fold_left (fun t n => include_leaf n t) l t.

(** [n.depth >= maxDepth || n.score < pruneThreshold]. *)
Definition terminal (n : TreeNode Out) : bool :=
  (maxDepth cfg <=? n_depth n) || num_ltb (n_score n) (pruneThreshold cfg).
(** [n.score >= pruneThreshold && n.depth < maxDepth]. *)
Definition survives (n : TreeNode Out) : bool :=
  num_geb (n_score n) (pruneThreshold cfg) && (n_depth n <? maxDepth cfg).

Definition spent_out (t : tree Out) : bool := maxCalls cfg <=? t_calls t.

(** One level: the children that are not terminal are the next frontier. *)
Fixpoint bfs_level (survivors next : list (TreeNode Out)) (t : tree Out) : tree Out * result (list (TreeNode Out)) :=
  match survivors with
  | [] => (t, Ok next)
  | parent :: rest =>
      if spent_out t then (t, Ok next)
      else
        match expandNode (Some parent) (n_depth parent + 1) t with
        | (t, Throw e) => (t, Throw e)
        | (t, Ok children) =>
            bfs_level rest (next ++ filter (fun c => terminal c = false) children)
              (add_leaves (filter (fun c => terminal c = true) children) t)
        end
  end.

(** The loop, with the frontier it leaves; [None] out of fuel. *)
Fixpoint bfs_loop (fuel : nat) (frontier : list (TreeNode Out)) (t : tree Out)
    : option (tree Out * result (list (TreeNode Out))) :=
  if (match frontier with [] => true | _ => false end) || spent_out t then Some (t, Ok frontier)
  else
    match fuel with
    | O => None
    | S fuel =>
        match filter (fun n => survives n = true) frontier with
        | [] => Some (t, Ok frontier)
        | survivors =>
            match bfs_level survivors [] t with
            | (t, Throw e) => Some (t, Throw e)
            | (t, Ok next) =>
                if spent_out t then Some (add_leaves next t, Ok frontier)
                else bfs_loop fuel next t
            end
        end
    end.

Definition by_score_desc (a b : TreeNode Out) : comparison := num_cmp (n_score b) (n_score a).

(** The stack has its top first. *)
Fixpoint dfs_loop (fuel : nat) (stack : list (TreeNode Out)) (t : tree Out)
    : option (tree Out * result (list (TreeNode Out))) :=
  match stack with
  | [] => Some (t, Ok [])
  | node :: below =>
      if spent_out t then Some (t, Ok stack)
      else
        match fuel with
        | O => None
        | S fuel =>
            if terminal node then dfs_loop fuel below (include_leaf node t)
            else
              match expandNode (Some node) (n_depth node + 1) t with
              | (t, Throw e) => Some (t, Throw e)
              | (t, Ok children) =>
                  let ascending := rev (sort_by by_score_desc children) in
                  dfs_loop fuel (rev (filter (fun c => terminal c = false) ascending) ++ below)
                    (add_leaves (filter (fun c => terminal c = true) ascending) t)
              end
        end
  end.

(** The search, up to the choice of a leaf. *)
Definition search (w : W) : option (tree Out * result unit) :=
  let start := mkTree w 0 [] [] O [] in
  match expandNode None 1 start with
  | (t, Throw e) => Some (t, Throw e)
  | (t, Ok initial) =>
      let t := add_leaves (filter (fun n => terminal n = true) initial) t in
      let close (order : list (TreeNode Out) -> list (TreeNode Out)) (r : option (tree Out * result (list (TreeNode Out)))) :=
        match r with
        | Some (t, Ok rest) => Some (include_leaves (order rest) t, Ok tt)
        | Some (t, Throw e) => Some (t, Throw e)
        | None => None
        end in
      match searchPolicy cfg with
      | bfs => close (fun l => l) (bfs_loop (Z.to_nat (maxCalls cfg)) initial t)
      | dfs => close (@rev _) (dfs_loop (Z.to_nat (maxCalls cfg)) (sort_by by_score_desc initial) t)
      end
  end.

(** The first of the best leaves. *)
Definition best_leaf (first : TreeNode Out) (others : list (TreeNode Out)) : TreeNode Out :=
  fold_left (fun best n => if num_gtb (n_score n) (n_score best) then n else best) others first.

Definition tot_name : string := ("tree-of-thoughts-" ++ policy_name (searchPolicy cfg))%string.

(** [run], with the expansions it made; [None] out of fuel. *)
Definition tot_run (w : W) : option (W * result (StrategyResult Out) * list (option (TreeNode Out) * list (TreeNode Out))) :=
  match signal w with
  | Some e => Some (w, Throw e, [])
  | None =>
      match search w with
      | None => None
      | Some (t, Throw e) => Some (t_world t, Throw e, t_expansions t)
      | Some (t, Ok _) =>
          match t_leaves t with
          | first :: others =>
              Some (t_world t, Ok (mkStrategy (Some (n_state (best_leaf first others))) tot_name (t_calls t)
                                     (t_scores t) (t_calls t)), t_expansions t)
          | [] =>
              let '(w, r) := generator (t_world t) in
              Some (w, match r with
                       | Ok fallback => Ok (mkStrategy (Some fallback) tot_name 1
                                          (t_scores t ++ [finite01 (evaluateState cfg fallback)]) (t_calls t + 1))
                       | Throw e => Throw e
                       end, t_expansions t)
          end
      end
  end.
End Search.

(** * Mixture of agents, single shot *)

(** The default aggregator, on values; a [find] that finds nothing, or finds
    only the empty text, falls back on the first. *)
Definition defaultAggregator (outputs : list jsval) : result jsval :=
  match outputs with
  | [] => Throw (plain_error "mixtureOfAgentsStrategy: aggregator called with 0 outputs")
  | JStr first :: _ =>
      Ok (default (JStr first)
        (find_first (fun o => match o with JStr s => negb (s =? "")%string | _ => false end) outputs))
  | JNum first :: _ =>
      let nums := omap (fun o => match o with JNum x => if is_finite x then Some x else None | _ => None end) outputs in
      match nums with
      | [] => Ok (JNum first)
      | _ => Ok (JNum (aggregate nums mav_median num_zero))
      end
  | first :: _ => Ok first
  end.

Definition moa_guard (rounds proposersPerRound : option num) : result (Z * Z) :=
  let rounds := default (num_of_Z 2) rounds in
  let proposers := default (num_of_Z 3) proposersPerRound in
  let bad (name : string) (x : num) :=
    Throw (RangeError ("mixtureOfAgentsStrategy: " ++ name ++ " must be >=1, got " ++ num_to_string x)%string) in
  match positive_integer rounds with
  | None => bad "rounds" rounds
  | Some r => match positive_integer proposers with None => bad "proposersPerRound" proposers | Some m => Ok (r, m) end
  end.

(** The rounds, with the value aggregated last and the calls made. *)
Fixpoint moa_rounds (aggregate : list jsval -> result jsval) (proposers : Z) (generator : Call jsval)
    (rounds : nat) (aggregated : jsval) (totalCalls : Z) : Call (jsval * Z) :=
  match rounds with
  | O => cret (aggregated, totalCalls)
  | S rounds =>
      let& _ := throwIfAborted in
      let& outputs := all_of (replicate (Z.to_nat proposers) generator) in
      let& _ := throwIfAborted in
      let& v := (fun w => (w, aggregate outputs)) in
      moa_rounds aggregate proposers generator rounds v (totalCalls + proposers)
  end.

Definition moa_run (rounds proposers : Z) (aggregate : list jsval -> result jsval) (generator : Call jsval)
    : Call (StrategyResult jsval) :=
  let& _ := throwIfAborted in
  let& (aggregated, totalCalls) := moa_rounds aggregate proposers generator (Z.to_nat rounds) JUndef 0 in
  match aggregated with
  | JUndef => cfail (plain_error "mixtureOfAgentsStrategy: no aggregated result")
  | v => cret (mkStrategy (Some v) "mixture-of-agents" totalCalls [] totalCalls)
  end.

Definition singleShot_run {Out} (generator : Call Out) : Call (StrategyResult Out) :=
  let& result := generator in cret (mkStrategy (Some result) "single-shot" 1 [] 1).

(** * Orient, then act *)

Inductive two_phase := orient_phase | act_phase.
Record TwoPhaseOrientError := mkTwoPhase {
  tp_phase : two_phase; tp_cause : option jserror; tp_retriesUsed : num; tp_message : string
}.
Record TwoPhaseOrientResult (O R : Type) := mkOriented { tp_orientation : O; tp_result : R; tp_used : Z }.
Arguments mkOriented {O R}. Arguments tp_orientation {O R} _. Arguments tp_result {O R} _. Arguments tp_used {O R} _.

(** [Math.max(0, Math.floor(maxActRetries ?? 1))]. *)
Definition max_act_retries (maxActRetries : option num) : num :=
  let x := default num_one maxActRetries in
  num_max num_zero (if is_finite x then num_of_Z (num_floor x) else x).

Definition failure_text (e : option jserror) : string :=
  match e with Some e => err_message e | None => "undefined" end.

(** [attempt <= maxRetries]; [None] out of fuel. *)
Fixpoint act_attempts {R} (act : Call R) (maxRetries : num) (fuel : nat) (attempt : Z) (lastActError : option jserror)
    (w : W) : option (W * (R * Z + option jserror)) :=
  if negb (num_leb (num_of_Z attempt) maxRetries) then Some (w, inr lastActError)
  else
    match fuel with
    | O => None
    | S fuel =>
        match act w with
        | (w, Ok r) => Some (w, inl (r, attempt))
        | (w, Throw e) => act_attempts act maxRetries fuel (attempt + 1) (Some e) w
        end
    end.

Definition runTwoPhaseOrient {Or R} (orient : Call Or) (act : Or -> Call R) (maxActRetries : option num) (fuel : nat)
    (w : W) : option (W * (TwoPhaseOrientResult Or R + TwoPhaseOrientError)) :=
  let maxRetries := max_act_retries maxActRetries in
  match orient w with
  | (w, Throw e) =>
      Some (w, inr (mkTwoPhase orient_phase (Some e) num_zero
                      ("TwoPhaseOrient Phase 1 (orient) failed: " ++ err_message e)%string))
  | (w, Ok orientation) =>
      match act_attempts (act orientation) maxRetries fuel 0 None w with
      | None => None
      | Some (w, inl (r, used)) => Some (w, inl (mkOriented orientation r used))
      | Some (w, inr e) =>
          Some (w, inr (mkTwoPhase act_phase e maxRetries
            ("TwoPhaseOrient Phase 2 (act) failed after " ++ num_to_string (num_add maxRetries num_one) ++
             " attempt(s): " ++ failure_text e)%string))
      end
  end.
End Calls.
Arguments Call : clear implicits.
Arguments tree : clear implicits.
Arguments mkTree {W Out}. Arguments t_world {W Out} _. Arguments t_calls {W Out} _. Arguments t_leaves {W Out} _.
Arguments mkOriented {O R}. Arguments tp_orientation {O R} _. Arguments tp_result {O R} _. Arguments tp_used {O R} _.
Arguments mkToT {Out}. Arguments searchPolicy {Out} _. Arguments maxDepth {Out} _. Arguments branchFactor {Out} _.
Arguments maxCalls {Out} _. Arguments evaluateState {Out} _. Arguments pruneThreshold {Out} _.
Arguments mkNode {Out}. Arguments n_id {Out} _. Arguments n_state {Out} _. Arguments n_depth {Out} _.
Arguments n_score {Out} _. Arguments mkMav {Out}. Arguments mav_base {Out} _. Arguments mav_matrix {Out} _.
Arguments mav_mode {Out} _.
Arguments t_scores {W Out} _. Arguments t_made {W Out} _. Arguments t_expansions {W Out} _.

(** * What was drawn *)

Section Draws.
Context {W A : Type}.

(** Calls of a generator that all answered, in order. *)
Inductive draws (generator : Call W A) : W -> list A -> W -> Prop :=
| draws_none w : draws generator w [] w
| draws_more w a w1 l w2 : generator w = (w1, Ok a) -> draws generator w1 l w2 -> draws generator w (a :: l) w2.

Lemma draws_app g w l1 w1 l2 w2 : draws g w l1 w1 -> draws g w1 l2 w2 -> draws g w (l1 ++ l2) w2.
Proof. induction 1; [done|]. intros. econstructor; eauto. Qed.

Lemma all_of_draws g n : forall w w' l, all_of (replicate n g) w = (w', Ok l) -> length l = n /\ draws g w l w'.
Proof.
  induction n as [|n IH]; intros w w' l; cbn [replicate all_of]; [intros [= <- <-]; by split; [|constructor]|].
  destruct (g w) as [w1 r] eqn:Eg. destruct (all_of (replicate n g) w1) as [w2 rs] eqn:Ea.
  destruct r as [a|e], rs as [l0|e']; intros [= <- <-]; try done.
  destruct (IH _ _ _ Ea) as [<- Hd]. split; [done|]. by econstructor.
Qed.
End Draws.

(** * The largest score *)

Lemma argmax_from_spec scores : forall i best bs j s, argmax_from i best bs scores = (j, s) ->
  (forall x, x ∈ bs :: scores -> is_nan x = false) ->
  (forall x, x ∈ bs :: scores -> num_ltb s x = false) /\
  ((j = best /\ s = bs) \/ (exists k, j = (i + k)%nat /\ scores !! k = Some s)).
Proof.
  induction scores as [|x scores IH]; intros i best bs j s; cbn [argmax_from].
  { intros [= <- <-] Hn. split; [|by left]. intros x ->%list_elem_of_singleton. apply num_ltb_irrefl. }
  intros E Hn. assert (Hn' : forall y b, b ∈ [bs; x] -> y ∈ b :: scores -> is_nan y = false).
  { intros y b Hb [->|Hy]%elem_of_cons; apply Hn; [|by do 2 right].
    apply elem_of_cons in Hb as [->|Hb%list_elem_of_singleton]; [by left|subst; by right; left]. }
  change (num_gtb x bs) with (num_ltb bs x) in E. destruct (num_ltb bs x) eqn:Eb; destruct (IH _ _ _ _ _ E) as [H1 H2];
    try (intros y; apply Hn'; set_solver).
  - split.
    + intros y [->|Hy]%elem_of_cons; [|by apply H1].
      apply not_true_iff_false. intros Hs. assert (num_ltb s x = true) by (eapply num_ltb_trans; eauto).
      by rewrite H1 in H by left.
    + right. destruct H2 as [[-> ->]|(k & -> & Hk)]; [exists O; split; [lia|done]|].
      exists (S k). split; [lia|done].
  - split.
    + intros y [->|[->|Hy]%elem_of_cons]%elem_of_cons; [by apply H1; left| |by apply H1; right].
      apply (num_nlt_trans _ bs); [|apply Hn; left|apply Hn; right; left|by apply H1; left|done].
      destruct H2 as [[_ ->]|(k & _ & Hk)]; apply Hn; [left|]. do 2 right. by eapply list_elem_of_lookup_2.
    + destruct H2 as [?|(k & -> & Hk)]; [by left|]. right. exists (S k). split; [lia|done].
Qed.

Lemma argmax_spec scores j s : argmax scores = (j, s) -> scores <> [] ->
  (forall x, x ∈ scores -> is_nan x = false) ->
  scores !! j = Some s /\ forall x, x ∈ scores -> num_ltb s x = false.
Proof.
  destruct scores as [|x scores]; [done|]. intros E _ Hn. cbn [argmax] in E.
  apply argmax_from_spec in E as [H1 H2]; [|done]. split; [|done].
  destruct H2 as [[-> ->]|(k & -> & Hk)]; done.
Qed.

(** * Tree search *)

(** Membership in lists that are put together. *)
Ltac mem := repeat first [rewrite elem_of_app in * | rewrite elem_of_cons in * ]; tauto.

Section SearchFacts.
Context {W Out : Type} (signal : W -> option jserror) (cfg : ToTConfig Out) (generator : Call W Out).
Notation node := (TreeNode Out).

Definition made (l : list (option node * list node)) : list node := concat (map snd l).
Definition parents (l : list (option node * list node)) : list node := omap fst l.

Lemma made_app l1 l2 : made (l1 ++ l2) = made l1 ++ made l2.
Proof. unfold made. by rewrite map_app, concat_app. Qed.

(** What holds of the variables of the search that started in [w]. *)
Record search_inv (w : W) (t : tree W Out) : Prop := {
  si_calls : t_calls t = Z.of_nat (length (made (t_expansions t)));
  si_bound : t_calls t <= maxCalls cfg;
  si_scores : t_scores t = map n_score (made (t_expansions t));
  si_draws : draws generator w (map n_state (made (t_expansions t))) (t_world t);
  si_leaves : forall n, n ∈ t_leaves t -> n ∈ made (t_expansions t);
  si_eval : forall n, n ∈ made (t_expansions t) -> n_score n = finite01 (evaluateState cfg (n_state n));
  si_made : t_made t = length (made (t_expansions t));
  si_ids : map n_id (made (t_expansions t)) = seq 0 (t_made t);
  si_later : forall p, p ∈ parents (t_expansions t) ->
    exists k, k ∈ made (t_expansions t) /\ (n_id p < n_id k)%nat
}.

Lemma node_id w t n : search_inv w t -> n ∈ made (t_expansions t) -> (n_id n < t_made t)%nat.
Proof.
  intros H Hn. assert (Hin : n_id n ∈ map n_id (made (t_expansions t))) by by apply list_elem_of_fmap_2.
  rewrite (si_ids _ _ H), elem_of_seq in Hin. lia.
Qed.

(** Some node was never expanded: the last one made. *)
Lemma last_not_parent w t : search_inv w t -> made (t_expansions t) <> [] ->
  exists n, n ∈ made (t_expansions t) /\ n ∉ parents (t_expansions t).
Proof.
  intros H Hne. pose proof (si_ids _ _ H) as Hids. pose proof (si_made _ _ H) as Hm.
  destruct (made (t_expansions t)) as [|n0 l] eqn:E; [done|].
  destruct (lookup_lt_is_Some_2 (map n_id (n0 :: l)) (length l)) as [i Hi]; [rewrite length_map; cbn; lia|].
  pose proof Hi as Hn. rewrite list_lookup_fmap in Hn. apply fmap_Some in Hn as (n & Hn & ->).
  apply list_elem_of_lookup_2 in Hn. exists n. split; [done|]. intros Hp.
  rewrite Hids, lookup_seq in Hi. destruct Hi as [Hi _]. apply (si_later _ _ H) in Hp as (k & Hk & Hlt).
  apply (node_id w) in Hk; [|done]. rewrite Hm in Hk. cbn in Hi, Hk. lia.
Qed.

(** Nodes are told apart by their identity. *)
Lemma same_node w t n m : search_inv w t -> n ∈ made (t_expansions t) -> m ∈ made (t_expansions t) ->
  n_id n = n_id m -> n = m.
Proof.
  intros H (i & Hi)%list_elem_of_lookup (j & Hj)%list_elem_of_lookup E.
  assert (Hn : NoDup (map n_id (made (t_expansions t)))) by (rewrite (si_ids _ _ H); apply NoDup_seq).
  assert (i = j); [|by simplify_eq].
  eapply NoDup_lookup; [exact Hn| |]; rewrite list_lookup_fmap; [by rewrite Hi|by rewrite Hj; cbn; rewrite E].
Qed.

Lemma number_nodes_state i d l : map n_state (number_nodes cfg i d l) = l.
Proof. revert i. induction l as [|a l IH]; intros i; [done|]. cbn. by rewrite IH. Qed.
Lemma number_nodes_length i d l : length (number_nodes cfg i d l) = length l.
Proof. rewrite <- (number_nodes_state i d l) at 2. by rewrite length_map. Qed.
Lemma number_nodes_eval i d l n : n ∈ number_nodes cfg i d l -> n_score n = finite01 (evaluateState cfg (n_state n)).
Proof. revert i. induction l as [|a l IH]; intros i; [by intros ?%elem_of_nil|]. intros [->|H]%elem_of_cons; [done|by eapply IH]. Qed.

Lemma number_nodes_ids i d l : map n_id (number_nodes cfg i d l) = seq i (length l).
Proof. revert i. induction l as [|a l IH]; intros i; [done|]. cbn. by rewrite IH. Qed.

(** An expansion below the limit draws at least one child. *)
Lemma expandNode_inv w parent d t t' r : 1 <= branchFactor cfg -> search_inv w t -> spent_out cfg t = false ->
  (forall p, parent = Some p -> p ∈ made (t_expansions t)) ->
  expandNode signal cfg generator parent d t = (t', r) ->
  match r with
  | Ok kids => search_inv w t' /\ t_calls t < t_calls t' /\ t_leaves t' = t_leaves t /\
      t_expansions t' = t_expansions t ++ [(parent, kids)] /\ (0 < length kids)%nat /\
      t_calls t' = t_calls t + Z.of_nat (length kids)
  | Throw _ => True
  end.
Proof.
  intros Hb Hi Hs Hpar. pose proof Hi as [H1 H2 H3 H4 H5 H6 H7 H8 H9]. unfold expandNode, spent_out in *. apply Z.leb_gt in Hs.
  destruct (Z.leb_spec (Z.min (branchFactor cfg) (maxCalls cfg - t_calls t)) 0); [lia|].
  destruct (signal (t_world t)); [by intros [= <- <-]|].
  destruct (all_of _ _) as [w1 [samples|e]] eqn:E; intros [= <- <-]; [|done].
  apply all_of_draws in E as [El Hd]. set (kids := number_nodes cfg (t_made t) d samples).
  assert (Hk : length kids = Z.to_nat (Z.min (branchFactor cfg) (maxCalls cfg - t_calls t)))
    by (unfold kids; by rewrite number_nodes_length).
  assert (Em : made (t_expansions t ++ [(parent, kids)]) = made (t_expansions t) ++ kids)
    by (rewrite made_app; unfold made; cbn; by rewrite app_nil_r).
  split; [|cbn; split_and!; first [done|lia]].
  constructor; cbn [t_calls t_world t_leaves t_scores t_made t_expansions]; rewrite ?Em.
  - rewrite length_app. lia.
  - lia.
  - by rewrite H3, map_app.
  - rewrite map_app. eapply draws_app; [exact H4|]. unfold kids. by rewrite number_nodes_state.
  - intros n Hn. apply elem_of_app. left. by apply H5.
  - intros n. intros [Hn|Hn]%elem_of_app; [by apply H6|by eapply number_nodes_eval].
  - rewrite length_app. lia.
  - rewrite map_app, H8, H7, seq_app. f_equal. unfold kids. rewrite number_nodes_ids, number_nodes_length, H7. done.
  - intros p Hp. assert (p ∈ parents (t_expansions t) \/ parent = Some p) as [Hold|Hnew].
    { unfold parents in *. rewrite omap_app in Hp. apply elem_of_app in Hp as [?|Hp]; [by left|right].
      destruct parent; [|by apply elem_of_nil in Hp]. by apply list_elem_of_singleton in Hp as ->. }
    + apply H9 in Hold as (k & ? & ?). exists k. split; [apply elem_of_app; by left|done].
    + destruct kids as [|k kids'] eqn:Ek; [cbn in Hk; lia|]. exists k. split; [apply elem_of_app; right; left|].
      assert (Ei : map n_id (k :: kids') = seq (t_made t) (length samples)) by (rewrite <- Ek; apply number_nodes_ids).
      pose proof (node_id w t p Hi (Hpar p Hnew)) as Hlt. destruct samples; [cbn in El; lia|].
      injection Ei as Ei _. by rewrite Ei.
Qed.

(** Where a throw comes from. *)
Definition blame (e : jserror) : Prop :=
  (exists w, signal w = Some e) \/ (exists w, (generator w).2 = Throw e).

Lemma all_of_blame n : forall w w' e, all_of (replicate n generator) w = (w', Throw e) -> blame e.
Proof.
  induction n as [|n IH]; intros w w' e; cbn [replicate all_of]; [done|].
  destruct (generator w) as [w1 r] eqn:Eg. destruct (all_of (replicate n generator) w1) as [w2 rs] eqn:Ea.
  destruct r as [a|e1]; [|intros [= _ <-]; right; exists w; by rewrite Eg].
  destruct rs as [l|e2]; intros [= _ <-]. by eapply IH.
Qed.

Lemma expandNode_blame parent d t t' e : expandNode signal cfg generator parent d t = (t', Throw e) -> blame e.
Proof.
  unfold expandNode. destruct (_ <=? 0); [done|]. destruct (signal (t_world t)) eqn:E; [intros [= _ <-]; left; by eexists|].
  destruct (all_of _ _) as [w1 [l|e1]] eqn:Ea; [done|]. intros [= _ <-]. by eapply all_of_blame.
Qed.

Lemma bfs_level_blame survivors : forall next t t' e,
  bfs_level signal cfg generator survivors next t = (t', Throw e) -> blame e.
Proof.
  induction survivors as [|p rest IH]; intros next t t' e; cbn [bfs_level]; [done|]. destruct (spent_out cfg t); [done|].
  destruct (expandNode _ _ _ _ _ _) as [t1 [kids|e1]] eqn:E; [apply IH|]. intros [= _ <-]. by eapply expandNode_blame.
Qed.

(** Every node is a leaf, was expanded, or is still to be looked at. *)
Definition covered (pending : list node) (t : tree W Out) : Prop :=
  forall n, n ∈ made (t_expansions t) -> n ∈ t_leaves t \/ n ∈ parents (t_expansions t) \/ n ∈ pending.
Definition known (l : list node) (t : tree W Out) : Prop := forall n, n ∈ l -> n ∈ made (t_expansions t).

Lemma add_leaves_inv w l t : search_inv w t -> known l t -> search_inv w (add_leaves l t).
Proof. intros [] Hk. constructor; cbn; try done. intros n [?|?]%elem_of_app; auto. Qed.

Lemma include_leaves_spec (l : list node) : forall t : tree W Out, exists l', include_leaves l t = add_leaves l' t /\ l' ⊆ l /\
  forall n, n ∈ l -> exists m, m ∈ t_leaves t ++ l' /\ n_id m = n_id n.
Proof.
  unfold include_leaves. induction l as [|n l IH]; intros t; cbn [fold_left].
  { exists []. split; [|split; [done|by intros ? ?%elem_of_nil]]. destruct t. unfold add_leaves. cbn. by rewrite app_nil_r. }
  destruct (IH (include_leaf n t)) as (l' & -> & Hl & Hall). unfold include_leaf in *.
  destruct (existsb _ (t_leaves t)) eqn:E.
  - exists l'. split; [done|]. split; [set_solver|]. intros m [->|Hm]%elem_of_cons; [|by apply Hall].
    apply existsb_exists in E as (x & Hx%list_elem_of_In & ?%Nat.eqb_eq). exists x. set_solver.
  - exists (n :: l'). split; [unfold add_leaves; cbn; by rewrite <- (assoc_L (++))|]. split; [set_solver|].
    intros m [->|Hm]%elem_of_cons; [exists n; set_solver|]. destruct (Hall m Hm) as (x & Hx & ?).
    exists x. cbn in Hx. split; [set_solver|done].
Qed.

Context (branch_pos : 1 <= branchFactor cfg).

Lemma terminal_split (l : list node) n : n ∈ l ->
  n ∈ filter (fun c => terminal cfg c = false) l \/ n ∈ filter (fun c => terminal cfg c = true) l.
Proof. intros Hn. destruct (terminal cfg n) eqn:E; [right|left]; by apply list_elem_of_filter. Qed.

(** Nodes are only added. *)
Definition grows (t t' : tree W Out) : Prop :=
  t_calls t <= t_calls t' /\ forall n, n ∈ made (t_expansions t) -> n ∈ made (t_expansions t').

Lemma parents_snoc l p kids : parents (l ++ [(Some p, kids)]) = parents l ++ [p].
Proof. unfold parents. by rewrite omap_app. Qed.

(** An expansion whose children go to the leaves and to what is pending. *)
Lemma expand_covered w p d t t' kids pending pending' leaves :
  search_inv w t -> spent_out cfg t = false -> p ∈ made (t_expansions t) -> covered (p :: pending) t ->
  expandNode signal cfg generator (Some p) d t = (t', Ok kids) ->
  (forall n, n ∈ kids -> n ∈ pending' \/ n ∈ leaves) -> leaves ⊆ kids ->
  covered (pending' ++ pending) (add_leaves leaves t') /\ search_inv w (add_leaves leaves t') /\
  t_calls t < t_calls (add_leaves leaves t') /\ grows t (add_leaves leaves t') /\ known kids (add_leaves leaves t').
Proof.
  intros Hi Hs Hp Hc E Hk Hl. pose proof (expandNode_inv w (Some p) d t t' (Ok kids) branch_pos Hi Hs ltac:(by intros ? [= <-]) E) as (Hi' & Hlt & El & Ee & _ & _).
  assert (Em : made (t_expansions t') = made (t_expansions t) ++ kids)
    by (rewrite Ee, made_app; unfold made; cbn; by rewrite app_nil_r).
  split; [|split; [|split; [exact Hlt|split]]].
  - intros n. change (n ∈ made (t_expansions t') -> n ∈ t_leaves t' ++ leaves \/
      n ∈ parents (t_expansions t') \/ n ∈ pending' ++ pending). rewrite Em, Ee, parents_snoc, El.
    intros [Hn|Hn]%elem_of_app; [destruct (Hc n Hn) as [?|[?|[->|?]%elem_of_cons]]|specialize (Hk n Hn)]; mem.
  - apply add_leaves_inv; [done|]. intros n Hn. rewrite Em. set_solver.
  - split; [exact (Z.lt_le_incl _ _ Hlt)|]. intros n Hn. change (n ∈ made (t_expansions t')). rewrite Em. set_solver.
  - intros n ?. change (n ∈ made (t_expansions t')). rewrite Em. set_solver.
Qed.

Lemma bfs_level_inv w survivors : forall next t t' next',
  search_inv w t -> covered (survivors ++ next) t -> known (survivors ++ next) t ->
  bfs_level signal cfg generator survivors next t = (t', Ok next') ->
  search_inv w t' /\ grows t t' /\ known next' t' /\ covered (survivors ++ next') t' /\
  (spent_out cfg t' = false -> covered next' t') /\
  (survivors <> [] -> spent_out cfg t = false -> t_calls t < t_calls t').
Proof.
  induction survivors as [|p rest IH]; intros next t t' next' Hi Hc Hk; cbn [bfs_level].
  { intros [= <- <-]. split_and!; try done. }
  destruct (spent_out cfg t) eqn:Es.
  { intros [= <- <-]. split_and!; try done; [|congruence]. intros n ?. apply Hk. mem. }
  destruct (expandNode signal cfg generator (Some p) (n_depth p + 1) t) as [t1 [kids|e]] eqn:E; [|done].
  intros Hr.
  destruct (expand_covered w p _ t t1 kids (rest ++ next) (filter (fun c => terminal cfg c = false) kids)
    (filter (fun c => terminal cfg c = true) kids) Hi Es (Hk p ltac:(left)) Hc E) as (Hc1 & Hi1 & Hlt & [Hg1 Hg2] & Hkids).
  { by apply terminal_split. }
  { by intros n [_ ?]%list_elem_of_filter. }
  apply IH in Hr as (Hi' & [Hg1' Hg2'] & Hk' & Hc' & Hd & _).
  - split_and!; try done; [split; [lia|auto]| |lia]. intros n Hn. specialize (Hc' n Hn). mem.
  - done.
  - intros n Hn. specialize (Hc1 n Hn). mem.
  - intros n [Hn|[Hn|[_ Hn]%list_elem_of_filter]%elem_of_app]%elem_of_app; [apply Hg2, Hk; mem..|by apply Hkids].
Qed.

Lemma bfs_level_open survivors : forall next t t' next',
  (forall n, n ∈ next -> terminal cfg n = false) ->
  bfs_level signal cfg generator survivors next t = (t', Ok next') -> forall n, n ∈ next' -> terminal cfg n = false.
Proof.
  induction survivors as [|p rest IH]; intros next t t' next' Hn; cbn [bfs_level]; [by intros [= <- <-]|].
  destruct (spent_out cfg t); [by intros [= <- <-]|].
  destruct (expandNode _ _ _ _ _ _) as [t1 [kids|e]]; [|done]. apply IH.
  intros n [Hin|[? _]%list_elem_of_filter]%elem_of_app; [by apply Hn|done].
Qed.

Lemma finite01_not_nan x : is_nan (finite01 x) = false.
Proof.
  unfold finite01. destruct (is_finite x) eqn:E; [|done]. simpl negb. cbv iota. destruct (num_ltb x num_zero); [done|].
  destruct (num_gtb x num_one); [done|]. by destruct x.
Qed.

(** A node that does not survive is terminal, unless the threshold is NaN. *)
Lemma survives_terminal w t n : search_inv w t -> n ∈ made (t_expansions t) -> is_nan (pruneThreshold cfg) = false ->
  survives cfg n = negb (terminal cfg n).
Proof.
  intros Hi Hn Hp. unfold survives, terminal. rewrite negb_orb.
  change (num_geb (n_score n) (pruneThreshold cfg)) with (num_leb (pruneThreshold cfg) (n_score n)).
  rewrite num_leb_ltb, andb_comm; [|done|by rewrite (si_eval _ _ Hi n Hn); apply finite01_not_nan].
  f_equal. destruct (Z.leb_spec (maxDepth cfg) (n_depth n)), (Z.ltb_spec (n_depth n) (maxDepth cfg)); lia || done.
Qed.

(** A loop ends, and what it leaves is known. *)
Definition loop_post (w : W) (t : tree W Out) (out : option (tree W Out * result (list node))) : Prop :=
  exists t' r, out = Some (t', r) /\
    match r with
    | Ok rest => search_inv w t' /\ covered rest t' /\ known rest t' /\ t_calls t <= t_calls t'
    | Throw e => blame e
    end.

Lemma loop_post_from w t t1 out : t_calls t <= t_calls t1 -> loop_post w t1 out -> loop_post w t out.
Proof.
  intros Hle (t' & r & -> & H). exists t', r. split; [done|]. destruct r; [|done].
  destruct H as (?&?&?&?). split_and!; try done. lia.
Qed.

(** The frontier a breadth-first search leaves, and enough fuel for it. *)
Lemma bfs_loop_inv w fuel : forall frontier t,
  search_inv w t -> covered frontier t -> known frontier t ->
  (forall n, n ∈ frontier -> terminal cfg n = true -> n ∈ t_leaves t) ->
  maxCalls cfg - t_calls t <= Z.of_nat fuel ->
  loop_post w t (bfs_loop signal cfg generator fuel frontier t).
Proof.
  induction fuel as [|fuel IH]; intros frontier t Hi Hc Hk Hl Hf; cbn [bfs_loop].
  all: destruct ((match frontier with [] => true | _ => false end) || spent_out cfg t) eqn:E;
    [by eexists _, _|].
  all: apply orb_false_iff in E as [_ Es].
  { unfold spent_out in Es. apply Z.leb_gt in Es. lia. }
  destruct (filter (fun n => survives cfg n = true) frontier) as [|p l] eqn:Ef; [by eexists _, _|].
  rewrite <- Ef. assert (Hs : forall n, n ∈ p :: l <-> survives cfg n = true /\ n ∈ frontier)
    by (intros n; rewrite <- Ef, list_elem_of_filter; done).
  assert (Hp : is_nan (pruneThreshold cfg) = false).
  { destruct (pruneThreshold cfg) eqn:Ep; try done. destruct (proj1 (Hs p)) as [Hsp _]; [by left|].
    unfold survives in Hsp. rewrite Ep in Hsp. by destruct (n_score p). }
  rewrite Ef. destruct (bfs_level signal cfg generator (p :: l) [] t) as [t1 [next|e]] eqn:El;
    [|eexists _, _; split; [done|]; by eapply bfs_level_blame].
  pose proof El as El'. apply (bfs_level_inv w) in El as (Hi1 & [Hg1 Hg2] & Hk1 & Hc1 & Hd1 & Hlt); [|done| |].
  2: { intros n Hn. rewrite app_nil_r. destruct (Hc n Hn) as [?|[?|Hfr]]; [by left|by right; left|].
       destruct (terminal cfg n) eqn:Et; [left; by apply Hl|]. right; right. apply Hs. split; [|done].
       by rewrite (survives_terminal w t n Hi Hn Hp), Et. }
  2: { intros n. rewrite app_nil_r. intros [_ ?]%Hs. by apply Hk. }
  specialize (Hlt ltac:(done) Es). destruct (spent_out cfg t1) eqn:Es1.
  - eexists _, _. split; [done|]. split; [by apply add_leaves_inv|].
    split; [|split; [intros n Hn; by apply Hg2, Hk|exact Hg1]].
    intros n Hn. specialize (Hc1 n Hn). specialize (Hs n). cbn. mem.
  - apply (loop_post_from w t t1); [lia|]. apply IH; [done|by apply Hd1|done| |lia]. intros n Hn Ht. by rewrite (bfs_level_open _ _ _ _ _ (fun n H => match not_elem_of_nil n H with end) El' n Hn) in Ht.
Qed.

(** How many nodes of a stack are terminal. *)
Definition open_leaves (l : list node) : nat := length (List.filter (terminal cfg) l).

Lemma open_leaves_none (l below : list node) : (forall n, n ∈ l -> terminal cfg n = false) ->
  open_leaves (l ++ below) = open_leaves below.
Proof.
  unfold open_leaves. induction l as [|n l IH]; intros Hl; [done|]. cbn.
  rewrite (Hl n (list_elem_of_here n l)). apply IH. intros m ?. apply Hl. by right.
Qed.

Lemma include_leaf_covers w below p t : search_inv w t -> covered (p :: below) t -> known (p :: below) t ->
  search_inv w (include_leaf p t) /\ covered below (include_leaf p t) /\ known below (include_leaf p t) /\
  t_calls (include_leaf p t) = t_calls t.
Proof.
  intros Hi Hc Hk. destruct (include_leaves_spec [p] t) as (l & E & Hl & Hall). change (include_leaf p t = add_leaves l t) in E.
  rewrite E. destruct (Hall p (list_elem_of_here p [])) as (m & Hm & Eid).
  assert (Hp : known l t) by (intros n Hn; apply Hk; apply Hl, list_elem_of_singleton in Hn as ->; left).
  assert (m = p) as ->.
  { apply (same_node w t); [done| |apply Hk; by left|done]. apply elem_of_app in Hm as [?|?]; [by apply (si_leaves _ _ Hi)|by apply Hp]. }
  split; [by apply add_leaves_inv|]. split; [|split; [|done]].
  - intros n Hn. change (n ∈ t_leaves t ++ l \/ n ∈ parents (t_expansions t) \/ n ∈ below).
    destruct (Hc n Hn) as [?|[?|[->|?]%elem_of_cons]]; mem.
  - intros n Hn. apply Hk. by right.
Qed.

(** The stack a depth-first search leaves, and enough fuel for it. *)
Lemma dfs_loop_inv w fuel : forall stack t,
  search_inv w t -> covered stack t -> known stack t ->
  maxCalls cfg - t_calls t + Z.of_nat (open_leaves stack) <= Z.of_nat fuel ->
  loop_post w t (dfs_loop signal cfg generator fuel stack t).
Proof.
  induction fuel as [|fuel IH]; intros stack t Hi Hc Hk Hf; cbn [dfs_loop];
    (destruct stack as [|p below]; [by eexists _, _|]); (destruct (spent_out cfg t) eqn:Es; [by eexists _, _|]).
  { unfold spent_out in Es. apply Z.leb_gt in Es. lia. }
  destruct (terminal cfg p) eqn:Et.
  - destruct (include_leaf_covers w below p t Hi Hc Hk) as (Hi' & Hc' & Hk' & Ec).
    apply (loop_post_from w t (include_leaf p t)); [lia|]. apply IH; try done.
    rewrite Ec. unfold open_leaves in *. cbn in Hf. rewrite Et in Hf. cbn in Hf. lia.
  - destruct (expandNode signal cfg generator (Some p) (n_depth p + 1) t) as [t1 [kids|e]] eqn:E;
      [|eexists _, _; split; [done|]; by eapply expandNode_blame].
    cbv zeta. set (ascending := rev (sort_by by_score_desc kids)).
    assert (Ha : forall n, n ∈ ascending <-> n ∈ kids).
    { intros n. unfold ascending. by rewrite <- (Permutation_rev (sort_by by_score_desc kids)), sort_by_perm. }
    set (pending := rev (filter (fun c => terminal cfg c = false) ascending)).
    assert (Hp : forall n, n ∈ pending <-> terminal cfg n = false /\ n ∈ kids).
    { intros n. unfold pending. by rewrite <- (Permutation_rev (filter _ ascending)), list_elem_of_filter, Ha. }
    destruct (expand_covered w p _ t t1 kids below pending (filter (fun c => terminal cfg c = true) ascending) Hi Es (Hk p ltac:(left)) Hc E)
      as (Hc1 & Hi1 & Hlt & [_ Hg] & Hkids).
    { intros n Hn. rewrite Hp, list_elem_of_filter, Ha. destruct (terminal cfg n); tauto. }
    { intros n [_ ?%Ha]%list_elem_of_filter. done. }
    eapply loop_post_from; [exact (Z.lt_le_incl _ _ Hlt)|]. apply IH; try done.
    + intros n [[_ ?]%Hp|?]%elem_of_app; [by apply Hkids|apply Hg, Hk; by right].
    + rewrite open_leaves_none by (intros n [? _]%Hp; done).
      unfold open_leaves in *. cbn [List.filter] in Hf. rewrite Et in Hf. lia.
Qed.

Context (calls_pos : 1 <= maxCalls cfg).

(** The last leaves are those never taken up. *)
Lemma close_covered w t rest order : search_inv w t -> covered rest t -> known rest t -> order ≡ₚ rest ->
  search_inv w (include_leaves order t) /\
  forall n, n ∈ made (t_expansions (include_leaves order t)) ->
    n ∈ t_leaves (include_leaves order t) \/ n ∈ parents (t_expansions (include_leaves order t)).
Proof.
  intros Hi Hc Hk Ho. destruct (include_leaves_spec order t) as (l & E & Hl & Hall). rewrite E.
  assert (Hkl : known l t) by (intros n Hn; apply Hk; rewrite <- Ho; by apply Hl).
  split; [by apply add_leaves_inv|]. intros n Hn.
  change (n ∈ t_leaves t ++ l \/ n ∈ parents (t_expansions t)).
  destruct (Hc n Hn) as [?|[?|Hr]]; [mem|by right|]. left. rewrite <- Ho in Hr. destruct (Hall n Hr) as (m & Hm & Eid).
  assert (m = n) as ->; [|done]. apply (same_node w t); [done| |done|done].
  apply elem_of_app in Hm as [?|?]; [by apply (si_leaves _ _ Hi)|by apply Hkl].
Qed.

Lemma search_spec w : exists t r, search signal cfg generator w = Some (t, r) /\
  match r with
  | Ok _ => search_inv w t /\ made (t_expansions t) <> [] /\
      forall n, n ∈ made (t_expansions t) -> n ∈ t_leaves t \/ n ∈ parents (t_expansions t)
  | Throw e => blame e
  end.
Proof.
  unfold search. set (start := mkTree w 0 [] [] 0%nat []).
  assert (Hi0 : search_inv w start).
  { constructor; cbn; try done; [lia|constructor|by intros ? ?%elem_of_nil..]. }
  assert (Hs0 : spent_out cfg start = false) by (unfold spent_out, start; cbn; apply Z.leb_gt; lia).
  destruct (expandNode signal cfg generator None 1 start) as [t [initial|e]] eqn:E;
    [|eexists _, _; split; [done|]; by eapply expandNode_blame].
  pose proof (expandNode_inv w None 1 start t (Ok initial) branch_pos Hi0 Hs0 ltac:(done) E) as (Hi & Hlt & El & Ee & Hne & Ec).
  cbn in El, Ee. assert (Em : made (t_expansions t) = initial) by (rewrite Ee; unfold made; cbn; by rewrite app_nil_r).
  cbv zeta. set (leaves := filter (fun n => terminal cfg n = true) initial). set (t1 := add_leaves leaves t).
  assert (Hi1 : search_inv w t1).
  { apply add_leaves_inv; [done|]. intros n [_ ?]%list_elem_of_filter. by rewrite Em. }
  assert (Hk1 : known initial t1) by (intros n Hn; change (n ∈ made (t_expansions t)); by rewrite Em).
  assert (Hc1 : covered initial t1) by (intros n Hn; change (n ∈ made (t_expansions t)) in Hn; rewrite Em in Hn; by right; right).
  assert (Hgoal : forall res order, (forall l, order l ≡ₚ l) -> loop_post w t1 res ->
    exists t' r, match res with
      | Some (t, Ok rest) => Some (include_leaves (order rest) t, Ok tt)
      | Some (t, Throw e) => Some (t, Throw e)
      | None => None
      end = Some (t', r) /\
      match r with
      | Ok _ => search_inv w t' /\ made (t_expansions t') <> [] /\
          forall n, n ∈ made (t_expansions t') -> n ∈ t_leaves t' \/ n ∈ parents (t_expansions t')
      | Throw e => blame e
      end).
  { intros res order Ho (t' & r & -> & H). destruct r as [rest|e]; [|by eexists _, _]. destruct H as (Hi' & Hc' & Hk' & Hle).
    eexists _, _. split; [done|]. destruct (close_covered w t' rest (order rest) Hi' Hc' Hk' (Ho rest)) as [Hic Hcc].
    split_and!; [done| |done]. destruct (include_leaves_spec (order rest) t') as (l & -> & _).
    change (made (t_expansions t') <> []). intros En. pose proof (si_calls _ _ Hi') as Hn. rewrite En in Hn. cbn in Hn, Hlt, Hle. lia. }
  destruct (searchPolicy cfg).
  - apply Hgoal; [done|]. apply bfs_loop_inv; try done; [|cbn; cbn in Hlt; lia].
    intros n Hn Ht. change (n ∈ t_leaves t ++ leaves). rewrite elem_of_app. right. by apply list_elem_of_filter.
  - apply Hgoal; [intros l; symmetry; apply Permutation_rev|]. apply dfs_loop_inv; [done| | |].
    + intros n Hn. rewrite sort_by_perm. by apply Hc1.
    + intros n Hn. rewrite sort_by_perm in Hn. by apply Hk1.
    + unfold open_leaves. pose proof (filter_length_le (terminal cfg) (sort_by by_score_desc initial)).
      rewrite sort_by_perm in H at 2. cbn in Ec. cbn [t_calls t1 add_leaves]. lia.
Qed.

Lemma best_leaf_spec (others : list node) : forall first,
  (forall n, n ∈ first :: others -> is_nan (n_score n) = false) ->
  best_leaf first others ∈ first :: others /\
  forall n, n ∈ first :: others -> num_ltb (n_score (best_leaf first others)) (n_score n) = false.
Proof.
  unfold best_leaf. induction others as [|x others IH]; intros first Hn; cbn [fold_left].
  { split; [by left|]. intros n ->%list_elem_of_singleton. apply num_ltb_irrefl. }
  change (num_gtb (n_score x) (n_score first)) with (num_ltb (n_score first) (n_score x)).
  assert (Hx : forall y n, y ∈ [first; x] -> n ∈ y :: others -> is_nan (n_score n) = false).
  { intros y n Hy Hin. apply Hn. apply elem_of_cons in Hin as [->|?]; [|by do 2 right].
    apply elem_of_cons in Hy as [->|Hy%list_elem_of_singleton]; [left|subst; right; left]. }
  destruct (num_ltb (n_score first) (n_score x)) eqn:E.
  - destruct (IH x) as [H1 H2]; [intros n; apply Hx; right; left|]. split; [by right|].
    intros n [->|Hin]%elem_of_cons; [|by apply H2]. apply not_true_iff_false. intros Hs.
    pose proof (num_ltb_trans _ _ _ Hs E) as Hc. by rewrite H2 in Hc by left.
  - destruct (IH first) as [H1 H2]; [intros n; apply Hx; left|]. split; [apply elem_of_cons in H1 as [->|?]; [left|by do 2 right]|].
    intros n [->|[->|Hin]%elem_of_cons]%elem_of_cons; [apply H2; left| |apply H2; by right].
    apply (num_nlt_trans _ (n_score first)); [|apply Hn; left|apply Hn; right; left|apply H2; left|done].
    apply (Hx first); [left|done].
Qed.
End SearchFacts.

(** * Sampling and scoring *)

Section Scoring.
Context {W : Type} (signal : W -> option jserror).

(** Calls that all answered, each after the one before. *)
Inductive in_turn {A} : list (Call W A) -> W -> list A -> W -> Prop :=
| turn_none w : in_turn [] w [] w
| turn_more c w a w1 calls l w2 : c w = (w1, Ok a) -> in_turn calls w1 l w2 -> in_turn (c :: calls) w (a :: l) w2.

Lemma in_turn_length {A} (calls : list (Call W A)) w l w' : in_turn calls w l w' -> length l = length calls.
Proof. induction 1; cbn; congruence. Qed.

Lemma all_of_in_turn {A} (calls : list (Call W A)) : forall w w' l, all_of calls w = (w', Ok l) -> in_turn calls w l w'.
Proof.
  induction calls as [|c rest IH]; intros w w' l; cbn [all_of]; [intros [= <- <-]; constructor|].
  destruct (c w) as [w1 r] eqn:Ec. destruct (all_of rest w1) as [w2 rs] eqn:Ea.
  destruct r as [a|e], rs as [l0|e']; intros [= <- <-]. econstructor; eauto.
Qed.

Lemma cbind_Ok {A B} (m : Call W A) (f : A -> Call W B) w w' b :
  cbind m f w = (w', Ok b) -> exists w1 a, m w = (w1, Ok a) /\ f a w1 = (w', Ok b).
Proof. unfold cbind. destruct (m w) as [w1 [a|e]]; [|done]. by exists w1, a. Qed.

Lemma one_by_one_in_turn {A} (calls : list (Call W A)) : forall w w' l, one_by_one calls w = (w', Ok l) -> in_turn calls w l w'.
Proof.
  induction calls as [|c rest IH]; intros w w' l; cbn [one_by_one]; [intros [= <- <-]; constructor|].
  intros (w1 & a & Hc & (w2 & l0 & Hl & [= <- <-])%cbind_Ok)%cbind_Ok. econstructor; eauto.
Qed.

(** A call guarded by the signal is the call. *)
Lemma guarded_Ok {A} (c : Call W A) w w' a : cbind (throwIfAborted signal) (fun _ => c) w = (w', Ok a) -> c w = (w', Ok a).
Proof.
  intros (w1 & u & H & ?)%cbind_Ok. unfold throwIfAborted in H. by destruct (signal w); injection H as <- _.
Qed.

Lemma in_turn_draws {A} (g c : Call W A) n : (forall w w' a, c w = (w', Ok a) -> g w = (w', Ok a)) ->
  forall w l w', in_turn (replicate n c) w l w' -> length l = n /\ draws g w l w'.
Proof.
  intros Hc. induction n as [|n IH]; intros w l w' H; inversion H as [|? ? a w1 ? l0 ? H1 H2]; subst;
    [by split; [|constructor]|].
  destruct (IH _ _ _ H2) as [<- ?]. split; [done|]. econstructor; eauto.
Qed.

Lemma sample_draws {A} (g : Call W A) parallel n w w' l :
  sample signal g parallel n w = (w', Ok l) -> length l = n /\ draws g w l w'.
Proof.
  unfold sample. destruct parallel; intros H.
  - apply all_of_in_turn in H. by apply (in_turn_draws g g) in H.
  - apply one_by_one_in_turn in H. apply (in_turn_draws g) in H; [done|]. intros. by apply guarded_Ok.
Qed.

Lemma checked_score_valid {Out} (evaluate : Out -> Call W RawResult) c w w' x : checked_score evaluate c w = (w', Ok x) ->
  is_finite x = true /\ num_ltb x num_zero = false /\ num_ltb num_one x = false.
Proof.
  intros (w1 & r & _ & H)%cbind_Ok. destruct r as [t|s rt]; cbn in H; [done|].
  destruct s as [y|t]; cbn [score_valid raw_text] in H; [|done].
  destruct (negb (is_finite y) || num_ltb y num_zero || num_gtb y num_one) eqn:E; [done|].
  apply orb_false_iff in E as [[Ef E0]%orb_false_iff E1]. destruct rt; [|done]. injection H as _ <-. cbn.
  by apply negb_false_iff in Ef.
Qed.

Lemma in_turn_all {A} (P : A -> Prop) (calls : list (Call W A)) w l w' :
  (forall c v v' a, c ∈ calls -> c v = (v', Ok a) -> P a) -> in_turn calls w l w' -> Forall P l.
Proof.
  intros HP H. induction H as [|c w a w1 calls l w2 Hc Hl IH]; [constructor|]. constructor; [by eapply HP; [left|]|].
  apply IH. intros d v v' b Hd. apply HP. by right.
Qed.

Lemma rows_spec (P : num -> Prop) m n : forall flat, length flat = (n * m)%nat -> Forall P flat ->
  length (rows m n flat) = n /\ Forall (fun row => length row = m /\ Forall P row) (rows m n flat) /\
  concat (rows m n flat) = flat.
Proof.
  induction n as [|n IH]; intros flat Hl HP; cbn [rows].
  { destruct flat; [|done]. split_and!; try done. }
  destruct (IH (drop m flat)) as (H1 & H2 & H3); [rewrite length_drop; lia|by apply Forall_drop|].
  split_and!; [cbn; lia| |cbn; by rewrite H3, take_drop].
  constructor; [|done]. split; [rewrite length_take; lia|by apply Forall_take].
Qed.

(** Attempts that all threw, and what the last one threw. *)
Inductive failing {R} (act : Call W R) : W -> nat -> option jserror -> option jserror -> W -> Prop :=
| fail_none w e : failing act w 0 e e w
| fail_more w e w1 n last e' w2 : act w = (w1, Throw e) -> failing act w1 n (Some e) e' w2 -> failing act w (S n) last e' w2.

Lemma act_attempts_spec {R} (act : Call W R) m fuel : forall attempt last w,
  safe_int m -> 0 <= attempt <= m + 1 -> m + 1 < 2 ^ prec -> m + 1 - attempt <= Z.of_nat fuel ->
  exists w1 n last', failing act w n last last' w1 /\
    ((Z.of_nat n = m + 1 - attempt /\ act_attempts act (num_of_Z m) fuel attempt last w = Some (w1, inr last')) \/
     (Z.of_nat n < m + 1 - attempt /\ exists w2 r, act w1 = (w2, Ok r) /\
        act_attempts act (num_of_Z m) fuel attempt last w = Some (w2, inl (r, attempt + Z.of_nat n)))).
Proof.
  induction fuel as [|fuel IH]; intros attempt last w Hm Ha Hb Hf; cbn [act_attempts];
    (rewrite num_leb_int by (unfold safe_int in *; lia)).
  - destruct (Z.leb_spec attempt m); [lia|]. exists w, O, last. split; [constructor|left]. split; [lia|done].
  - destruct (Z.leb_spec attempt m) as [Hle|Hgt]; cbn [negb].
    + destruct (act w) as [w1 [r|e]] eqn:E.
      * exists w, O, last. split; [constructor|right]. split; [lia|]. exists w1, r. rewrite Z.add_0_r. done.
      * destruct (IH (attempt + 1) (Some e) w1 Hm ltac:(lia) Hb ltac:(lia)) as (w2 & n & last' & Hfail & Hcase).
        exists w2, (S n), last'. split; [by econstructor|]. destruct Hcase as [[? ->]|[? (w3 & r & ? & ->)]]; [left|right].
        { split; [lia|done]. }
        { split; [lia|]. exists w3, r. split; [done|]. do 4 f_equal. lia. }
    + exists w, O, last. split; [constructor|left]. split; [lia|done].
Qed.

Lemma moa_rounds_spec agg proposers (generator : Call W jsval) rounds : forall v0 c0 w w' v c,
  moa_rounds signal agg proposers generator rounds v0 c0 w = (w', Ok (v, c)) ->
  exists l, draws generator w l w' /\ length l = (rounds * Z.to_nat proposers)%nat /\
    c = c0 + Z.of_nat rounds * proposers /\
    match rounds with O => v = v0 | S _ => agg (last_n (Z.to_nat proposers) l) = Ok v end.
Proof.
  induction rounds as [|rounds IH]; intros v0 c0 w w' v c; cbn [moa_rounds].
  { intros [= <- <- <-]. exists []. split; [constructor|]. split; [done|]. split; [lia|done]. }
  intros H. apply guarded_Ok in H. apply cbind_Ok in H as (w1 & outputs & Ho & H). apply guarded_Ok in H.
  apply cbind_Ok in H as (w2 & v1 & [= <- Hv] & H). apply all_of_draws in Ho as [Hl Hd].
  apply IH in H as (l & Hd' & Hl' & -> & Hlast). exists (outputs ++ l).
  split; [by eapply draws_app|]. split; [rewrite length_app; lia|]. split; [lia|]. unfold last_n in *.
  rewrite length_app. destruct rounds as [|rounds].
  - destruct l; [|done]. subst v. rewrite app_nil_r. cbn [length]. by replace (length outputs + 0 - Z.to_nat proposers)%nat with O by lia.
  - rewrite drop_app_ge by lia.
    by replace (length outputs + length l - Z.to_nat proposers - length outputs)%nat with (length l - Z.to_nat proposers)%nat by lia.
Qed.
End Scoring.

(** * Properties *)

(** A mixture of agents makes its rounds times proposers calls, and its
    answer is the aggregate of the last round alone: the rounds before it count
    for nothing. *)
Theorem moa_last_round {W} (signal : W -> option jserror) rounds proposers agg (generator : Call W jsval) w w' r :
  1 <= rounds -> 1 <= proposers -> moa_run signal rounds proposers agg generator w = (w', Ok r) ->
  exists l v, draws generator w l w' /\ Z.of_nat (length l) = rounds * proposers /\ st_calls r = rounds * proposers /\
    st_result r = Some v /\ agg (last_n (Z.to_nat proposers) l) = Ok v.
Proof.
  intros Hr Hp H. unfold moa_run in H. apply guarded_Ok in H. apply cbind_Ok in H as (w1 & [v c] & H & Hv).
  apply moa_rounds_spec in H as (l & Hd & Hl & -> & Hlast). exists l, v.
  destruct (Z.to_nat rounds) as [|k] eqn:Ek; [lia|].
  destruct v; try (injection Hv as <- <-; cbn [st_calls st_result]; split_and!; [done|lia|lia|done|done]); done.
Qed.

(** With a limit of [m] retries, orienting is tried once and acting at
    most [m + 1] times, each after the failure of the one before; the answer is
    that of the first attempt that answers, with the number of failures before
    it, and otherwise the error has the last failure. *)
Theorem two_phase_attempts {W Or R} (orient : Call W Or) (act : Or -> Call W R) limit m w :
  max_act_retries limit = num_of_Z m -> 0 <= m -> m + 1 < 2 ^ prec ->
  match orient w with
  | (w1, Throw e) =>
      exists err, runTwoPhaseOrient orient act limit (Z.to_nat (m + 1)) w = Some (w1, inr err) /\
        tp_phase err = orient_phase /\ tp_cause err = Some e
  | (w1, Ok o) =>
      exists w2 n last, failing (act o) w1 n None last w2 /\
        ((Z.of_nat n = m + 1 /\ exists err, tp_phase err = act_phase /\ tp_cause err = last /\
            runTwoPhaseOrient orient act limit (Z.to_nat (m + 1)) w = Some (w2, inr err)) \/
         (Z.of_nat n <= m /\ exists w3 r, act o w2 = (w3, Ok r) /\
            runTwoPhaseOrient orient act limit (Z.to_nat (m + 1)) w = Some (w3, inl (mkOriented o r (Z.of_nat n)))))
  end.
Proof.
  intros Hm H0 Hb. unfold runTwoPhaseOrient. rewrite Hm. destruct (orient w) as [w1 [o|e]].
  - destruct (act_attempts_spec (act o) m (Z.to_nat (m + 1)) 0 None w1) as (w2 & n & last & Hf & Hcase);
      [unfold safe_int; lia|lia|lia|lia|]. exists w2, n, last. split; [done|].
    destruct Hcase as [[Hn ->]|[Hn (w3 & r & Ha & ->)]]; [left|right].
    + split; [lia|]. eexists. split; [|split; [|reflexivity]]; done.
    + split; [lia|]. exists w3, r. split; [done|]. by rewrite Z.add_0_l.
  - eexists. split; [reflexivity|]. done.
Qed.

(** Best of N draws exactly N candidates and scores each once, in order,
    and answers with the first of the candidates that score highest, unless a
    score is NaN. *)
Theorem bestOf_selects {W Out} (signal : W -> option jserror) n (scoreOne : Out -> Call W num) parallel generator w w' r :
  1 <= n -> bestOf_run signal n scoreOne parallel generator w = (w', Ok r) ->
  exists candidates w1, Z.of_nat (length candidates) = n /\ st_calls r = n /\ draws generator w candidates w1 /\
    in_turn (map scoreOne candidates) w1 (st_scores r) w' /\
    ((forall x, x ∈ st_scores r -> is_nan x = false) ->
     exists j best s, st_result r = Some best /\ candidates !! j = Some best /\ st_scores r !! j = Some s /\
       forall x, x ∈ st_scores r -> num_ltb s x = false).
Proof.
  intros Hn H. unfold bestOf_run in H. apply guarded_Ok in H.
  apply cbind_Ok in H as (w1 & candidates & Hs & H). apply guarded_Ok in H.
  apply cbind_Ok in H as (w2 & scores & Hc & [= <- <-]). apply sample_draws in Hs as [El Hd].
  assert (Ht : in_turn (map scoreOne candidates) w1 scores w2)
    by (destruct parallel; [by apply all_of_in_turn|by apply one_by_one_in_turn]).
  exists candidates, w1. cbn. split_and!; [lia|lia|done|done|]. intros Hnan.
  pose proof (in_turn_length _ _ _ _ Ht) as Hlen. rewrite length_map in Hlen.
  destruct (argmax scores) as [j s] eqn:E. apply argmax_spec in E as [Hj Hbest]; [|by intros ->; cbn in Hlen; lia|done].
  destruct (lookup_lt_is_Some_2 candidates j) as [best Hb]; [rewrite <- Hlen; by eapply lookup_lt_Some|].
  by exists j, best, s.
Qed.

(** With several verifiers, every candidate gets one score in [[0, 1]] from
    each, and the answer is the first candidate with the highest aggregate,
    unless an aggregate is NaN. *)
Theorem bonMav_selects {W Out} (signal : W -> option jserror) n verifiers mode threshold parallel
    (generator : Call W Out) w w' r :
  1 <= n -> bonMav_run signal n verifiers mode threshold parallel generator w = (w', Ok r) ->
  exists candidates w1, Z.of_nat (length candidates) = n /\ draws generator w candidates w1 /\
    length (mav_matrix r) = length candidates /\
    Forall (fun row => length row = length verifiers /\
      Forall (fun x => is_finite x = true /\ num_ltb x num_zero = false /\ num_ltb num_one x = false) row) (mav_matrix r) /\
    st_scores (mav_base r) = map (fun row => aggregate row mode threshold) (mav_matrix r) /\
    ((forall x, x ∈ st_scores (mav_base r) -> is_nan x = false) ->
     exists j best s, st_result (mav_base r) = Some best /\ candidates !! j = Some best /\
       st_scores (mav_base r) !! j = Some s /\ forall x, x ∈ st_scores (mav_base r) -> num_ltb s x = false).
Proof.
  intros Hn H. unfold bonMav_run in H. apply guarded_Ok in H.
  apply cbind_Ok in H as (w1 & candidates & Hs & H). apply guarded_Ok in H.
  apply cbind_Ok in H as (w2 & flat & Hf & H). apply guarded_Ok in H. injection H as <- <-.
  apply sample_draws in Hs as [El Hd]. apply all_of_in_turn in Hf.
  set (valid := fun x => is_finite x = true /\ num_ltb x num_zero = false /\ num_ltb num_one x = false).
  assert (Hl : length flat = (Z.to_nat n * length verifiers)%nat).
  { rewrite (in_turn_length _ _ _ _ Hf), <- El. clear. induction candidates as [|c l IH]; [done|].
    cbn. rewrite length_app, length_map, IH. lia. }
  assert (Hv : Forall valid flat).
  { refine (in_turn_all valid _ _ _ _ _ Hf). intros c v v' x Hc.
    apply list_elem_of_In, in_concat in Hc as (cs & Hcs & Hc). apply in_map_iff in Hcs as (cand & <- & _).
    apply in_map_iff in Hc as (ver & <- & _). apply checked_score_valid. }
  destruct (rows_spec valid (length verifiers) (Z.to_nat n) flat Hl Hv) as (Hr & Hrows & _).
  exists candidates, w1. cbn. split_and!; [lia|done|lia|exact Hrows|done|]. intros Hnan.
  set (scores := map (fun row => aggregate row mode threshold) (rows (length verifiers) (Z.to_nat n) flat)) in *.
  assert (Hlen : length scores = length candidates) by (unfold scores; rewrite length_map; lia).
  destruct (argmax scores) as [j s] eqn:E. apply argmax_spec in E as [Hj Hbest]; [|by intros E0; rewrite E0 in Hlen; cbn in Hlen; lia|done].
  destruct (lookup_lt_is_Some_2 candidates j) as [best Hb]; [rewrite <- Hlen; by eapply lookup_lt_Some|].
  by exists j, best, s.
Qed.


(** C38: Tree of thoughts always ends within its budget, for either policy: it
    throws only what an abort or the generator gave it; otherwise it reports every
    call of the generator and every score, never uses its fallback, and answers
    with a sample that no sample it did not expand outscores. *)
Theorem tot_selects {W Out} (signal : W -> option jserror) (cfg : ToTConfig Out) (generator : Call W Out) w :
  1 <= branchFactor cfg -> 1 <= maxCalls cfg ->
  exists w' out exps, tot_run signal cfg generator w = Some (w', out, exps) /\
    match out with
    | Throw e => blame signal generator e
    | Ok r =>
        st_calls r = Z.of_nat (length (made exps)) /\ st_calls r <= maxCalls cfg /\
        st_candidates r = st_calls r /\ st_scores r = map n_score (made exps) /\
        draws generator w (map n_state (made exps)) w' /\
        exists best, best ∈ made exps /\ st_result r = Some (n_state best) /\
          forall n, n ∈ made exps -> n ∉ parents exps -> num_gtb (n_score n) (n_score best) = false
    end.
Proof.
  intros Hb Hm. unfold tot_run. destruct (signal w) as [e|] eqn:Es; [eexists _, _, _; split; [done|]; left; by eexists|].
  destruct (search_spec signal cfg generator Hb Hm w) as (t & r & -> & H).
  destruct r as [u|e]; [|by eexists _, _, _]. destruct H as (Hi & Hne & Hc).
  destruct (last_not_parent cfg generator w t Hi Hne) as (n0 & Hn0 & Hp0).
  assert (Hl0 : n0 ∈ t_leaves t) by (destruct (Hc n0 Hn0); done).
  destruct (t_leaves t) as [|first others] eqn:El; [by apply elem_of_nil in Hl0|].
  destruct (best_leaf_spec others first) as [Hin Hbest].
  { intros n Hn. rewrite (si_eval _ _ _ _ Hi n); [apply finite01_not_nan|]. apply (si_leaves _ _ _ _ Hi). by rewrite El. }
  eexists _, _, _. split; [done|]. cbn [st_calls st_candidates st_scores st_result].
  split; [exact (si_calls _ _ _ _ Hi)|]. split; [exact (si_bound _ _ _ _ Hi)|]. split; [done|].
  split; [exact (si_scores _ _ _ _ Hi)|]. split; [exact (si_draws _ _ _ _ Hi)|].
  exists (best_leaf first others). split; [apply (si_leaves _ _ _ _ Hi); by rewrite El|]. split; [done|].
  intros n Hn Hp. apply Hbest. destruct (Hc n Hn) as [Hl|?]; [first [exact Hl|by rewrite El in Hl]|done].
Qed.

(** * Concrete runs *)

(** The world is the list of samples still to come; a sample's value is its
    tenths. *)
Definition popping : Call (list Z) Z := fun w =>
  match w with z :: w' => (w', Ok z) | [] => ([], Throw (plain_error "exhausted")) end.
Definition quiet (w : list Z) : option jserror := None.
Definition tenths (z : Z) : num := num_of_decimal z 1.
Definition small (p : ToTSearchPolicy) : ToTConfig Z := mkToT p 2 2 4 tenths (num_of_decimal 2 1).

(** Breadth first answers with a node it expanded, when the budget ends with
    its level; depth first does not. *)
Lemma tot_selects_witness :
  (exists kids, (fun o => match o with Some (_, Ok r, exps) => Some (st_result r, st_calls r, parents exps) | _ => None end)
     (tot_run quiet (small bfs) popping [5; 1; 3; 2; 9]) = Some (Some 5, 4, kids) /\ map n_state kids = [5]) /\
  (exists kids, (fun o => match o with Some (_, Ok r, exps) => Some (st_result r, st_calls r, parents exps) | _ => None end)
     (tot_run quiet (small dfs) popping [5; 1; 3; 2; 9]) = Some (Some 3, 4, kids) /\ map n_state kids = [5]) /\
  exists w' out exps, tot_run quiet (small bfs) popping [5; 1; 3; 2; 9] = Some (w', out, exps) /\
    match out with
    | Throw e => blame quiet popping e
    | Ok r =>
        st_calls r = Z.of_nat (length (made exps)) /\ st_calls r <= 4 /\
        st_candidates r = st_calls r /\ st_scores r = map n_score (made exps) /\
        draws popping [5; 1; 3; 2; 9] (map n_state (made exps)) w' /\
        exists best, best ∈ made exps /\ st_result r = Some (n_state best) /\
          forall n, n ∈ made exps -> n ∉ parents exps -> num_gtb (n_score n) (n_score best) = false
    end.
Proof.
  split; [eexists; split; [vm_compute; reflexivity|reflexivity]|].
  split; [eexists; split; [vm_compute; reflexivity|reflexivity]|].
  exact (tot_selects quiet (small bfs) popping [5; 1; 3; 2; 9] ltac:(done) ltac:(done)).
Defined.

Definition scoring (z : Z) : Call (list Z) num := fun w => (w, Ok (if z =? 0 then num_nan else tenths z)).

Lemma bestOf_selects_witness :
  bestOf_run quiet 3 scoring true popping [4; 7; 7] = ([], Ok (mkStrategy (Some 7) "best-of-n" 3 [tenths 4; tenths 7; tenths 7] 3)) /\
  exists candidates w1, Z.of_nat (length candidates) = 3 /\ draws popping [4; 7; 7] candidates w1.
Proof.
  assert (E : bestOf_run quiet 3 scoring true popping [4; 7; 7] =
    ([], Ok (mkStrategy (Some 7) "best-of-n" 3 [tenths 4; tenths 7; tenths 7] 3))) by (vm_compute; reflexivity).
  split; [exact E|]. destruct (bestOf_selects quiet 3 scoring true popping _ _ _ ltac:(done) E) as (c & w1 & H1 & _ & H2 & _).
  exists c, w1. split; [exact H1|exact H2].
Defined.

(** A first candidate whose score is NaN is chosen over every other. *)
Example bestOf_nan_first :
  st_result <$> match (bestOf_run quiet 2 scoring true popping [0; 9]).2 with Ok r => Some r | Throw _ => None end = Some (Some 0).
Proof. vm_compute. reflexivity. Qed.

Definition judge (f : Z -> Z) (z : Z) : Call (list Z) RawResult := fun w => (w, Ok (ResultObj (ScoreNum (tenths (f z))) (RatStr ""))).
Definition judges : list (Z -> Call (list Z) RawResult) := [judge (fun z => z); judge (fun z => 10 - z)].

Lemma bonMav_selects_witness :
  (fun r => match r with (_, Ok r) => Some (st_result (mav_base r), st_scores (mav_base r)) | _ => None end)
    (bonMav_run quiet 2 judges mav_min num_zero false popping [1; 4]) = Some (Some 4, [tenths 1; tenths 4]) /\
  exists candidates w1, Z.of_nat (length candidates) = 2 /\ draws popping [1; 4] candidates w1.
Proof.
  split; [vm_compute; reflexivity|].
  destruct (bonMav_run quiet 2 judges mav_min num_zero false popping [1; 4]) as [w' [r|e]] eqn:E; [|vm_compute in E; discriminate].
  destruct (bonMav_selects quiet 2 judges mav_min num_zero false popping _ _ r ltac:(done) E) as (c & w1 & H1 & H2 & _).
  exists c, w1. split; [exact H1|exact H2].
Defined.

Example aggregate_ex :
  map (fun m => num_to_string (aggregate [tenths 2; tenths 9; tenths 4] m (tenths 4))) [mav_median; mav_min] = ["0.4"; "0.2"].
Proof. vm_compute. reflexivity. Qed.
Example default_scores :
  map (fun v => num_to_string (defaultEvaluator v)) [JStr ""; JStr "abcd"; JNum (num_of_Z 50); JNum (num_of_Z 500); JNull] =
  ["0"; "0.02"; "1"; "0.1"; "0.5"].
Proof. vm_compute. reflexivity. Qed.
Example tot_guard_ex :
  (tot_guard None (Some num_zero) None None tenths None = Throw (RangeError "treeOfThoughtsStrategy: maxDepth must be >=1, got 0")) /\
  maxCalls <$> tot_guard None None None None tenths None = Ok 9.
Proof. vm_compute. done. Qed.

(** The first round's outputs leave no trace in the answer. *)
Definition said (w : list jsval) : list jsval * result jsval :=
  match w with v :: w' => (w', Ok v) | [] => ([], Throw (plain_error "exhausted")) end.
Definition still (w : list jsval) : option jserror := None.

Lemma moa_last_round_witness :
  st_result <$> match (moa_run still 2 2 defaultAggregator said [JStr "a"; JStr "b"; JStr ""; JStr "c"]).2 with
    | Ok r => Some r | Throw _ => None end = Some (Some (JStr "c")) /\
  exists l v, draws said [JStr "a"; JStr "b"; JStr ""; JStr "c"] l [] /\ defaultAggregator (last_n 2 l) = Ok v.
Proof.
  split; [reflexivity|].
  destruct (moa_run still 2 2 defaultAggregator said [JStr "a"; JStr "b"; JStr ""; JStr "c"]) as [w' [r|e]] eqn:E; [|discriminate E].
  destruct (moa_last_round still 2 2 defaultAggregator said _ _ r ltac:(lia) ltac:(lia) E) as (l & v & H1 & _ & _ & _ & H2).
  injection E as <- _. exists l, v. split; [exact H1|exact H2].
Defined.

(** Agents that return nothing: the branch documented as unreachable. *)
Example moa_undefined :
  (moa_run still 1 1 defaultAggregator said [JUndef]).2 = Throw (plain_error "mixtureOfAgentsStrategy: no aggregated result").
Proof. reflexivity. Qed.

(** Acting fails once, then answers; with a limit that is not a number it is
    never tried. *)
Definition hands : Call nat string := fun n => (S n, if (n =? 1)%nat then Throw (plain_error "slip") else Ok "done").
Definition eyes : Call nat bool := fun n => (S n, Ok true).

Lemma two_phase_attempts_witness :
  max_act_retries None = num_of_Z 1 /\
  exists w2 n last, failing hands 1%nat n None last w2 /\
    ((Z.of_nat n = 1 + 1 /\ exists err, tp_phase err = act_phase /\ tp_cause err = last /\
        runTwoPhaseOrient eyes (fun _ => hands) None 2 0%nat = Some (w2, inr err)) \/
     (Z.of_nat n <= 1 /\ exists w3 r, hands w2 = (w3, Ok r) /\
        runTwoPhaseOrient eyes (fun _ => hands) None 2 0%nat = Some (w3, inl (mkOriented true r (Z.of_nat n))))).
Proof.
  assert (E : max_act_retries None = num_of_Z 1) by (vm_compute; reflexivity).
  split; [exact E|]. exact (two_phase_attempts eyes (fun _ => hands) None 1 0%nat E ltac:(lia) ltac:(done)).
Defined.

Example two_phase_nan :
  match runTwoPhaseOrient eyes (fun _ => hands) (Some num_nan) 0 0%nat with
  | Some (w, inr err) => w = 1%nat /\ tp_cause err = None /\
      tp_message err = "TwoPhaseOrient Phase 2 (act) failed after NaN attempt(s): undefined"
  | _ => False
  end.
Proof. vm_compute. done. Qed.
