(* ===== verification/SkillManifest.v ===== *)
(** Skill lineage, [src/skill-manifest/]: manifests ([builder.ts], [types.ts]),
    their anchors ([anchor.ts]), the verifier ([verifier.ts]) and the signed
    registry index ([signed-index.ts]).

    Hashes, base64 and Poseidon are those of [ProofPlatform] and
    [PoseidonBackend]; dates, text decoding, locale order, the RFC 8785 printer
    and the Merkle functions of the proof package are in [SkillPlatform].
    Buffers are lists of integers below 256. *)

From S2P Require Import Prelude JsNum JsValue Regex Json JsonParse TokenBase Privacy Certificate.
From Stdlib Require Import Ascii.

Class SkillPlatform := {
  date_ms : string -> option Z;                      (** [new Date(s).getTime()], [Date.parse(s)]; [None] is NaN *)
  utf8_text : list Z -> string;                      (** [b.toString("utf8")] *)
  base64_text : list Z -> string;                    (** [b.toString("base64")] *)
  jcs : jsval -> string;                             (** [canonicalize] of json-canonicalize *)
  locale_compare : string -> string -> comparison;   (** [a.localeCompare(b)] *)
  merkle_root : list string -> string;               (** [computeSha256MerkleRoot] *)
  inclusion_proof : list string -> nat -> list string;
  verify_inclusion : string -> list string -> string -> bool
}.

(** * Manifests, [types.ts] and [builder.ts] *)

Inductive Grade := starknet_primary | tsa_fallback | unanchored.
#[export] Instance Grade_eq_dec : EqDecision Grade. Proof. solve_decision. Defined.

Record SkillManifest := mkManifest {
  skillId : string; version : string; domain : string; trainingReplayRoot : string; poseidonHash : string;
  tsaToken : option string; starknetAnchorTx : option string; ipfsCid : option string; createdAt : Z; grade : Grade
}.

Inductive WitnessType := w_starknet | w_tsa | w_none.
Record AnchorWitness := mkWitness { w_type : WitnessType; w_proof : string; verifiedAt : Z }.

(** [string | Buffer], as bytes. *)
Inductive Snapshot := SText (s : string) | SBytes (l : list Z).
Definition snapshot_bytes (s : Snapshot) : list Z := match s with SText t => utf8_bytes t | SBytes l => l end.

(** [s.padEnd(n, "0")]. *)
Definition pad_end (n : nat) (s : string) : string := (s ++ zeros (n - String.length s))%string.

Fixpoint all_hex (s : string) : bool :=
  match s with EmptyString => true | String c s' => match hex_val c with Some _ => all_hex s' | None => false end end.

Definition hexToFelt (hex : string) : result Z :=
  let safe := pad_end 62 (str_take 62 (strip0x hex)) in
  if all_hex safe then Ok (feltMod (hex_value safe))
  else Throw (JsError "SyntaxError" ("Cannot convert 0x" ++ safe ++ " to a BigInt")%string).

Section Manifests.
Context `{ProofPlatform} `{PoseidonBackend} `{SkillPlatform}.

Definition computeManifestHash (skillId version domain trainingReplayRoot : string) : result string :=
  replay ← hexToFelt trainingReplayRoot;
  Ok ("0x" ++ bigint_hex (poseidonHashBigInt [labelToFelt skillId; labelToFelt version; labelToFelt domain; replay]))%string.

Record BuildManifestParams := mkParams { bp_skillId : string; bp_version : string; bp_domain : string; bp_replay : Snapshot }.

Definition buildManifest (p : BuildManifestParams) (now : Z) : result SkillManifest :=
  let root := sha256_hex (snapshot_bytes (bp_replay p)) in
  h ← computeManifestHash (bp_skillId p) (bp_version p) (bp_domain p) root;
  Ok (mkManifest (bp_skillId p) (bp_version p) (bp_domain p) root h None None None now unanchored).

(** * Time-stamp requests, [anchor.ts] *)

(** [Buffer.from([n])]: a byte of the number. *)
Definition byte_of (n : Z) : Z := n mod 256.
Definition blen (l : list Z) : Z := Z.of_nat (length l).

(** The hexadecimal text of an integer, padded to whole bytes. *)
Definition even_hex (value : Z) : string :=
  let hex := bigint_hex value in
  if Nat.even (String.length hex) then hex else ("0" ++ hex)%string.

Definition derInteger (value : Z) : list Z :=
  let hex := even_hex value in
  let hex := if 128 <=? hex_value (str_take 2 hex) then ("00" ++ hex)%string else hex in
  let bytes := hex_bytes hex in
  [2; byte_of (blen bytes)] ++ bytes.

Definition derSequence (contents : list Z) : list Z :=
  let len := blen contents in
  if len <? 128 then [48; len] ++ contents
  else if len <? 256 then [48; 129; len] ++ contents
  else [48; 130; Z.land (Z.shiftr len 8) 255; Z.land len 255] ++ contents.

Definition derOctetString (data : list Z) : list Z := [4; byte_of (blen data)] ++ data.
Definition derBooleanTrue : list Z := [1; 1; 255].
Definition OID_SHA256 : list Z := [6; 9; 96; 134; 72; 1; 101; 3; 4; 2; 1].

Definition buildTimeStampReq (hashHex : string) (nonce : Z) : list Z :=
  let algorithmId := derSequence (OID_SHA256 ++ [5; 0]) in
  let messageImprint := derSequence (algorithmId ++ derOctetString (hex_bytes hashHex)) in
  derSequence (derInteger 1 ++ messageImprint ++ derInteger nonce ++ derBooleanTrue).

(** [readBigUInt64BE(0)], and other big-endian numbers. *)
Definition be_value (l : list Z) : Z := fold_left (fun acc b => 256 * acc + b) l 0.

(** The nonce: the first eight bytes of the start of the hash and [random]. *)
Definition tsa_nonce (manifestHash : string) (random : list Z) : Z :=
  be_value (take 8 (take 8 (hex_bytes manifestHash) ++ random)).

Record Response := mkResponse { rs_ok : bool; rs_status : Z; rs_body : result (list Z) }.

Definition TsaUnavailableError (manifestHash reason : string) : jserror :=
  JsError "TsaUnavailableError" ("[skill-manifest] TSA unavailable for " ++ manifestHash ++ ": " ++ reason)%string.

(** [random] are the eight bytes drawn; [post] is the request under its timeout. *)
Definition anchorWithTsa {W} (post : string -> list Z -> Z -> W -> W * result Response)
    (manifestHash : string) (tsaUrl : option string) (timeout_ms : option Z) (random : list Z) (w : W) : W * result string :=
  let hashBytes := sha256_hex (hex_bytes (strip0x manifestHash)) in
  let reqDer := buildTimeStampReq hashBytes (tsa_nonce manifestHash random) in
  let '(w, r) := post (default "http://timestamp.digicert.com" tsaUrl) reqDer (default 5000 timeout_ms) w in
  (w, match r with
      | Throw e => Throw (TsaUnavailableError manifestHash (err_message e))
      | Ok response =>
          if negb (rs_ok response)
          then Throw (TsaUnavailableError manifestHash ("HTTP " ++ str_of_Z (rs_status response))%string)
          else match rs_body response with
               | Ok body => Ok (base64_text body)
               | Throw e => Throw (TsaUnavailableError manifestHash (err_message e))
               end
      end).

(** * Time-stamp tokens *)

Record TsaTokenInfo := mkInfo { timestamp : Z; authority : string; hashAlgorithm : string; isMock : bool }.

(** [b.toString("ascii")]. *)
Definition ascii_text (l : list Z) : string :=
  fold_right (fun b s => String (ascii_of_nat (Z.to_nat (Z.land b 127))) s) EmptyString l.
Definition str_slice (a b : nat) (s : string) : string := str_take (b - a) (str_drop a s).

(** The time in a GeneralizedTime or UTCTime text. *)
Definition tsa_time (len : Z) (str : string) : option Z :=
  let year := if len =? 15 then str_slice 0 4 str else ("20" ++ str_slice 0 2 str)%string in
  let o := if len =? 15 then 2%nat else O in
  let part i := str_slice (i + o) (i + o + 2) str in
  date_ms (year ++ "-" ++ part 2%nat ++ "-" ++ part 4%nat ++ "T" ++ part 6%nat ++ ":" ++ part 8%nat ++ ":" ++
           part 10%nat ++ "Z")%string.

(** The scan of the bytes: [i < der.length - 16]. *)
Fixpoint tsa_scan (der : list Z) : option TsaTokenInfo :=
  match der with
  | [] => None
  | b :: rest =>
      if blen der <=? 16 then None
      else
        let found :=
          match rest with
          | len :: text =>
              if (b =? 24) && ((len =? 15) || (len =? 13)) then tsa_time len (ascii_text (take (Z.to_nat len) text)) else None
          | [] => None
          end in
        match found with
        | Some t => Some (mkInfo t "DigiCert" "SHA-256" false)
        | None => tsa_scan rest
        end
  end.

Definition skill_error (m : string) : jserror := JsError "Error" ("[skill-manifest] " ++ m)%string.

Definition parseTsaToken (tsaTokenBase64 : string) : result TsaTokenInfo :=
  let der := from_base64 tsaTokenBase64 in
  let raw := utf8_text der in
  if starts_with "MOCK_TSA:" raw then
    let tsoPart := join ":" (drop 2 (segments ":" raw)) in
    match date_ms tsoPart with
    | None => Throw (skill_error ("parseTsaToken: invalid mock timestamp: " ++ tsoPart)%string)
    | Some ts => Ok (mkInfo ts "mock" "SHA-256" true)
    end
  else
    match tsa_scan der with
    | Some info => Ok info
    | None => Throw (skill_error "parseTsaToken: could not extract GeneralizedTime from DER")
    end.

(** Without the prefix, in lower case. *)
Definition normaliseHex (h : string) : string := lower (strip0x h).

(** An absent or empty token. *)
Definition has_token (m : SkillManifest) : option string :=
  match tsaToken m with Some (String c t) => Some (String c t) | _ => None end.

Definition verifyTsaAnchor (m : SkillManifest) : bool :=
  match has_token m with
  | None => false
  | Some tok =>
      match parseTsaToken tok with
      | Throw _ => false
      | Ok info =>
          if isMock info then
            (normaliseHex (default "" (segments ":" (utf8_text (from_base64 tok)) !! 1%nat)) =? normaliseHex (poseidonHash m))%string
          else 0 <? timestamp info
      end
  end.

(** [anchorWithStarknet]: the module, its provider and its hash are ports. *)
Definition anchorWithStarknet {W} (url : option string) (starknet : option (string -> W -> W * result unit))
    (poseidon_elements : list string -> result string) (nowMs : Z) (m : SkillManifest) (w : W) : W * option string :=
  match url with
  | None | Some EmptyString => (w, None)
  | Some url =>
      match starknet with
      | None => (w, None)
      | Some getBlock =>
          match getBlock url w with
          | (w, Throw _) => (w, None)
          | (w, Ok _) =>
              let leafFelt := if starts_with "0x" (poseidonHash m) then poseidonHash m else ("0x" ++ poseidonHash m)%string in
              (w, match poseidon_elements [leafFelt; ("0x" ++ bigint_hex nowMs)%string] with Ok r => Some r | Throw _ => None end)
          end
      end
  end.

(** * The verifier, [verifier.ts] *)

Record ManifestVerifyResult := mkVerify {
  mv_valid : bool; replayRootMatches : bool; poseidonHashValid : bool; tsaAnchorValid : bool;
  starknetAnchorValid : bool; mv_grade : Grade; mv_errors : list string
}.

(** [s.split(",").map((s) => s.trim())], of a text that is not empty. *)
Definition siblings_of (proof : string) : list string :=
  match proof with EmptyString => [] | _ => map js_trim (segments "," proof) end.

(** The inclusion check: the root is the last of the siblings. *)
Definition starknet_check (m : SkillManifest) (proof : string) : bool :=
  let leafFelt := strip0x (poseidonHash m) in
  let siblings := siblings_of proof in
  match List.last (map Some siblings) None with
  | None => (0 <? String.length leafFelt)%nat
  | Some root => verifyProofInclusion leafFelt (removelast siblings) root
  end.

Definition replay_errors (m : SkillManifest) (recomputedRoot : string) : list string :=
  if (normaliseHex recomputedRoot =? normaliseHex (trainingReplayRoot m))%string then []
  else ["replayRoot mismatch: expected " ++ trainingReplayRoot m ++ ", got " ++ recomputedRoot]%string.

Definition poseidon_check (m : SkillManifest) : bool * list string :=
  match computeManifestHash (skillId m) (version m) (domain m) (trainingReplayRoot m) with
  | Throw e => (false, ["poseidonHash computation failed: " ++ err_message e]%string)
  | Ok recomputed =>
      if (normaliseHex recomputed =? normaliseHex (poseidonHash m))%string then (true, [])
      else (false, ["poseidonHash mismatch: expected " ++ poseidonHash m ++ ", got " ++ recomputed]%string)
  end.

Definition is_anchor_error (e : string) : bool :=
  starts_with "tsa" e || starts_with "starknet" e || starts_with "grade=unanchored" e.

Definition verifyManifest (m : SkillManifest) (replaySnapshot : Snapshot) (starknetWitness : option AnchorWitness)
    : ManifestVerifyResult :=
  let recomputedRoot := sha256_hex (snapshot_bytes replaySnapshot) in
  let replayErrors := replay_errors m recomputedRoot in
  let '(poseidonValid, poseidonErrors) := poseidon_check m in
  let tsaValid := verifyTsaAnchor m in
  let tsaErrors :=
    if match has_token m with Some _ => negb tsaValid | None => false end
    then ["tsaAnchor invalid: token present but verification failed"] else [] in
  let '(starknetValid, starknetErrors) :=
    match starknetWitness with
    | Some w =>
        match w_type w with
        | w_starknet =>
            let ok := starknet_check m (w_proof w) in
            (ok, if ok then [] else ["starknetAnchor: Merkle inclusion proof failed"])
        | _ => (false, [])
        end
    | None => (false, [])
    end in
  let gradeErrors := if bool_decide (grade m = unanchored)
    then ["grade=unanchored: manifest has no anchor — development/testing only"] else [] in
  let errors := replayErrors ++ poseidonErrors ++ tsaErrors ++ starknetErrors ++ gradeErrors in
  let anchorErrors := List.filter is_anchor_error errors in
  let integrityErrors := List.filter (fun e => negb (bool_decide (e ∈ anchorErrors))) errors in
  mkVerify (match integrityErrors with [] => true | _ => false end)
    (match replayErrors with [] => true | _ => false end) poseidonValid tsaValid starknetValid (grade m) errors.

(** * The signed registry index, [signed-index.ts] *)

Record SkillIndexEntry := mkEntry { ie_skillId : string; ie_version : string; tarballSha256 : string; ie_poseidonHash : string }.
#[export] Instance SkillIndexEntry_eq_dec : EqDecision SkillIndexEntry. Proof. solve_decision. Defined.

Record SignedSkillIndex := mkIndex {
  specVersion : num; ix_version : num; expires : string; entries : list SkillIndexEntry; ix_root : string;
  keyId : string; signature : string
}.
Definition SIGNED_INDEX_SPEC_VERSION : num := num_one.

Inductive UntrustedIndexCode :=
| unsupported_spec_version | wrong_key | root_mismatch | bad_signature | expired | no_entry | sha_mismatch.

Definition sha256_text (s : string) : string := sha256_hex (utf8_bytes s).
Definition EMPTY_ROOT : string := sha256_text "vauban:signed-skill-index:empty".

Definition entryLeafHash (e : SkillIndexEntry) : string :=
  sha256_text (jcs (JObj [("skillId", JStr (ie_skillId e)); ("version", JStr (ie_version e));
    ("tarballSha256", JStr (lower (tarballSha256 e))); ("poseidonHash", JStr (lower (ie_poseidonHash e)))])).

Definition rootOf (es : list SkillIndexEntry) : string :=
  match es with [] => EMPTY_ROOT | _ => merkle_root (map entryLeafHash es) end.

Definition signedCore (specVersion version : num) (expires root keyId : string) : string :=
  jcs (JObj [("specVersion", JNum specVersion); ("version", JNum version); ("expires", JStr expires);
             ("root", JStr root); ("keyId", JStr keyId)]).
Definition core_of (i : SignedSkillIndex) : string :=
  signedCore (specVersion i) (ix_version i) (expires i) (ix_root i) (keyId i).

Record BuildSignedIndexOptions := mkBuild { signer : string -> string; bo_keyId : string; bo_version : num; bo_expires : string }.

Definition entry_key (e : SkillIndexEntry) : string := (ie_skillId e ++ "@" ++ ie_version e)%string.

(** The first entry whose key was seen before. *)
Fixpoint duplicate_key (seen : list string) (es : list SkillIndexEntry) : option string :=
  match es with
  | [] => None
  | e :: rest => if bool_decide (entry_key e ∈ seen) then Some (entry_key e) else duplicate_key (entry_key e :: seen) rest
  end.

Definition buildSignedIndex (es : list SkillIndexEntry) (opts : BuildSignedIndexOptions) : result SignedSkillIndex :=
  if negb (num_is_integer (bo_version opts)) || num_ltb (bo_version opts) num_one
  then Throw (JsError "Error" "buildSignedIndex: version must be an integer >= 1")
  else
    match duplicate_key [] es with
    | Some key => Throw (JsError "Error" ("buildSignedIndex: duplicate entry " ++ key)%string)
    | None =>
        let root := rootOf es in
        Ok (mkIndex SIGNED_INDEX_SPEC_VERSION (bo_version opts) (bo_expires opts) es root (bo_keyId opts)
              (signer opts (signedCore SIGNED_INDEX_SPEC_VERSION (bo_version opts) (bo_expires opts) root (bo_keyId opts))))
    end.

Section Index.
Context (verify : string -> string -> result bool).

Record IndexOptions := mkOpts { io_now : option Z; expectedKeyId : option string }.

(** [None] when the index is valid; a clock that is not a time compares with
    nothing. *)
Definition verifySignedIndex (i : SignedSkillIndex) (o : IndexOptions) : option (UntrustedIndexCode * option string) :=
  if negb (num_eqb (specVersion i) SIGNED_INDEX_SPEC_VERSION)
  then Some (unsupported_spec_version, Some (num_to_string (specVersion i)))
  else if match expectedKeyId o with Some (String c k) => negb (keyId i =? String c k)%string | _ => false end
  then Some (wrong_key, Some (keyId i))
  else if negb (rootOf (entries i) =? ix_root i)%string then Some (root_mismatch, None)
  else if negb (match verify (core_of i) (signature i) with Ok b => b | Throw _ => false end)
  then Some (bad_signature, None)
  else
    match date_ms (expires i), io_now o with
    | Some expiresMs, Some nowMs => if expiresMs <? nowMs then Some (expired, Some (expires i)) else None
    | _, _ => None
    end.

(** [Number.parseInt(s, 10)]; [None] is NaN. *)
Definition parse_int (s : string) : option Z :=
  let s := trim_start s in
  let '(neg, s) := match s with String "-" t => (true, t) | String "+" t => (false, t) | _ => (false, s) end in
  match (fix go (s : string) (acc : option Z) : option Z :=
           match s with
           | String c t => if is_digit c then go t (Some (10 * default 0 acc + (Z.of_nat (nat_of_ascii c) - 48))) else acc
           | EmptyString => acc
           end) s None with
  | Some z => Some (if neg : bool then - z else z)
  | None => None
  end.

(** The first pair of parts that are numbers and differ. *)
Fixpoint compare_parts (len : nat) (pa pb : list string) : option comparison :=
  match len with
  | O => None
  | S len =>
      let next := compare_parts len (tail pa) (tail pb) in
      match parse_int (default "0" (head pa)), parse_int (default "0" (head pb)) with
      | Some na, Some nb => if na =? nb then next else Some (nb ?= na)
      | _, _ => next
      end
  end.
Definition compareDottedDesc (a b : string) : comparison :=
  let pa := segments "." a in
  let pb := segments "." b in
  default (locale_compare b a) (compare_parts (Nat.max (length pa) (length pb)) pa pb).

Definition findIndexEntry (i : SignedSkillIndex) (id : string) (v : option string) : option SkillIndexEntry :=
  let matches := List.filter (fun e => (ie_skillId e =? id)%string &&
    match v with None => true | Some v => (ie_version e =? v)%string end) (entries i) in
  match v with
  | Some _ => head matches
  | None => head (sort_by (fun a b => compareDottedDesc (ie_version a) (ie_version b)) matches)
  end.

(** The place of a leaf among the sorted leaves. *)
Fixpoint index_in (x : string) (l : list string) : nat :=
  match l with [] => O | y :: l' => if (y =? x)%string then O else S (index_in x l') end.

Record EntryInclusion := mkInclusion { inc_entry : SkillIndexEntry; inc_leaf : string; inc_proof : list string; inc_root : string }.

Definition proveEntryInclusion (i : SignedSkillIndex) (id : string) (v : option string) : option EntryInclusion :=
  match findIndexEntry i id v with
  | None => None
  | Some e =>
      let leaves := map entryLeafHash (entries i) in
      let leaf := entryLeafHash e in
      Some (mkInclusion e leaf (inclusion_proof leaves (index_in leaf (sort_strings leaves))) (ix_root i))
  end.

Definition verifyEntryAgainstRoot (e : SkillIndexEntry) (proof : list string) (root : string) : bool :=
  verify_inclusion (entryLeafHash e) proof root.

Record InstallTarget := mkTarget { tg_skillId : string; tg_version : option string; tg_tarballSha256 : string }.

(** The gate: the entry, or the code of the [UntrustedIndexError]. *)
Definition assertTarballMatchesIndex (i : SignedSkillIndex) (t : InstallTarget) (o : IndexOptions)
    : SkillIndexEntry + UntrustedIndexCode :=
  match verifySignedIndex i o with
  | Some (code, _) => inr code
  | None =>
      match findIndexEntry i (tg_skillId t) (tg_version t) with
      | None => inr no_entry
      | Some e =>
          if negb (lower (tarballSha256 e) =? lower (tg_tarballSha256 t))%string then inr sha_mismatch else inl e
      end
  end.
End Index.
End Manifests.

(** * Numbers in hexadecimal *)

(** Reading digits after [acc]. *)
Definition hex_from (acc : Z) (s : string) : Z :=
  (fix go (s : string) (acc : Z) : Z :=
     match s with
     | EmptyString => acc
     | String c s' => go s' (16 * acc + Z.of_nat (default O (hex_val c)))
     end) s acc.

Lemma hex_value_from s : hex_value s = hex_from 0 s.
Proof. done. Qed.

Lemma hex_from_app s t acc : hex_from acc (s ++ t) = hex_from (hex_from acc s) t.
Proof. revert acc. induction s as [|c s IH]; intros acc; [done|]. apply (IH (16 * acc + _)). Qed.

Lemma hex_char_val n : (n < 16)%nat -> hex_val (hex_char n) = Some n.
Proof. intros Hn. do 16 (destruct n as [|n]; [done|]). lia. Qed.

Lemma hex_digits_spec fuel : forall z acc n, 0 <= z < 16 ^ Z.of_nat fuel -> z < 16 ^ Z.of_nat n -> (0 < n)%nat ->
  all_hex acc = true ->
  hex_from 0 (hex_digits fuel z acc) = hex_from z acc /\ all_hex (hex_digits fuel z acc) = true /\
  (String.length acc <= String.length (hex_digits fuel z acc) <= n + String.length acc)%nat.
Proof.
  induction fuel as [|fuel IH]; intros z acc n Hz Hn H0 Ha; cbn [hex_digits].
  { change (16 ^ Z.of_nat 0) with 1 in Hz. assert (z = 0) as -> by lia. split; [done|]. split; [done|lia]. }
  set (c := hex_char (Z.to_nat (z mod 16))).
  assert (Hd : 0 <= z mod 16 < 16) by (apply Z.mod_pos_bound; lia).
  assert (Hc : hex_val c = Some (Z.to_nat (z mod 16))) by (apply hex_char_val; lia).
  assert (Ha' : all_hex (String c acc) = true) by (cbn; by rewrite Hc).
  assert (Hstep : forall k, hex_from k (String c acc) = hex_from (16 * k + z mod 16) acc).
  { intros k. change (hex_from (16 * k + Z.of_nat (default O (hex_val c))) acc = hex_from (16 * k + z mod 16) acc).
    rewrite Hc. cbn. by rewrite Z2Nat.id by lia. }
  pose proof (Z.div_mod z 16 ltac:(lia)) as Hdm.
  destruct (Z.eqb_spec (z / 16) 0) as [E|E].
  - split; [rewrite Hstep; f_equal; lia|]. split; [done|]. cbn [String.length]. lia.
  - destruct n as [|[|n]]; [lia|change (16 ^ Z.of_nat 1) with 16 in Hn; exfalso; apply E, Z.div_small; lia|].
    rewrite Nat2Z.inj_succ, Z.pow_succ_r in Hz by lia. rewrite Nat2Z.inj_succ, Z.pow_succ_r in Hn by lia.
    destruct (IH (z / 16) (String c acc) (S n)) as (H1 & H2 & H3); [|apply Z.div_lt_upper_bound; lia|lia|done|].
    { split; [apply Z.div_pos; lia|apply Z.div_lt_upper_bound; lia]. }
    split; [rewrite H1, Hstep; f_equal; lia|]. split; [done|]. cbn [String.length] in H3. lia.
Qed.

(** Reading what is printed, and how long it is. *)
Lemma bigint_hex_spec z n : 0 <= z < 16 ^ Z.of_nat n -> (0 < n)%nat ->
  hex_value (bigint_hex z) = z /\ all_hex (bigint_hex z) = true /\ (String.length (bigint_hex z) <= n)%nat.
Proof.
  intros Hz Hn. unfold bigint_hex. rewrite Z.abs_eq by lia. destruct (Z.ltb_spec z 0); [lia|].
  destruct (hex_digits_spec (S (Z.to_nat (Z.log2 z))) z "" n) as (H1 & H2 & H3); [|lia|done|done|].
  - split; [lia|]. rewrite Nat2Z.inj_succ, Z2Nat.id by apply Z.log2_nonneg.
    apply Z.le_lt_trans with (2 ^ Z.succ (Z.log2 z) - 1).
    + destruct (Z.eq_dec z 0) as [->|]; [done|]. pose proof (Z.log2_spec z ltac:(lia)). lia.
    + assert (2 ^ Z.succ (Z.log2 z) <= 16 ^ Z.succ (Z.log2 z)).
      { apply Z.pow_le_mono_l. lia. }
      lia.
  - rewrite hex_value_from, H1. split; [done|]. split; [done|]. change (String.length "") with O in H3. lia.
Qed.

Lemma hex_val_bound c v : hex_val c = Some v -> (v < 16)%nat.
Proof.
  unfold hex_val. set (n := nat_of_ascii c).
  destruct ((48 <=? n) && (n <=? 57))%nat eqn:E1; [apply andb_true_iff in E1 as [?%Nat.leb_le ?%Nat.leb_le]; intros [= <-]; lia|].
  destruct ((97 <=? n) && (n <=? 102))%nat eqn:E2; [apply andb_true_iff in E2 as [?%Nat.leb_le ?%Nat.leb_le]; intros [= <-]; lia|].
  destruct ((65 <=? n) && (n <=? 70))%nat eqn:E3; [apply andb_true_iff in E3 as [?%Nat.leb_le ?%Nat.leb_le]; intros [= <-]; lia|done].
Qed.

(** Bytes of digits, two at a time. *)
Lemma hex_bytes_spec n : forall s acc, String.length s = (2 * n)%nat -> all_hex s = true ->
  length (hex_bytes s) = n /\ fold_left (fun acc b => 256 * acc + b) (hex_bytes s) acc = hex_from acc s /\
  Forall (fun b => 0 <= b < 256) (hex_bytes s).
Proof.
  induction n as [|n IH]; intros s acc Hl Ha; [by destruct s|].
  destruct s as [|a [|b s]]; [done|cbn in Hl; lia|]. cbn [all_hex] in Ha. cbn [hex_bytes].
  destruct (hex_val a) as [x|] eqn:Ex; [|done]. destruct (hex_val b) as [y|] eqn:Ey; [|done].
  pose proof (hex_val_bound _ _ Ex). pose proof (hex_val_bound _ _ Ey).
  destruct (IH s (256 * acc + Z.of_nat (16 * x + y))) as (H1 & H2 & H3); [cbn in Hl; lia|done|].
  split; [cbn; congruence|]. split.
  - cbn [fold_left]. rewrite H2. change (hex_from acc (String a (String b s))) with
      (hex_from (16 * (16 * acc + Z.of_nat (default O (hex_val a))) + Z.of_nat (default O (hex_val b))) s).
    rewrite Ex, Ey. change (default O (Some x)) with x. change (default O (Some y)) with y. f_equal. lia.
  - constructor; [lia|done].
Qed.

(** * Time-stamp requests can be read *)

(** One tag, length and contents, in the forms [anchor.ts] writes, and the rest. *)
Definition der_read (l : list Z) : option (Z * list Z * list Z) :=
  match l with
  | tag :: len :: rest =>
      let cut n rest := if (n <=? length rest)%nat then Some (tag, take n rest, drop n rest) else None in
      if len <? 128 then cut (Z.to_nat len) rest
      else if len =? 129 then match rest with a :: rest => cut (Z.to_nat a) rest | [] => None end
      else if len =? 130 then match rest with a :: b :: rest => cut (Z.to_nat (256 * a + b)) rest | _ => None end
      else None
  | _ => None
  end.

(** The items in a row. *)
Fixpoint der_items (fuel : nat) (l : list Z) : option (list (Z * list Z)) :=
  match l with
  | [] => Some []
  | _ =>
      match fuel with
      | O => None
      | S fuel => match der_read l with
               | Some (tag, contents, rest) =>
                   match der_items fuel rest with Some items => Some ((tag, contents) :: items) | None => None end
               | None => None
               end
      end
  end.

Lemma der_cut (tag : Z) (a b : list Z) :
  (if (length a <=? length (a ++ b))%nat then Some (tag, take (length a) (a ++ b), drop (length a) (a ++ b)) else None) =
  Some (tag, a, b).
Proof.
  rewrite length_app. destruct (Nat.leb_spec (length a) (length a + length b)); [|lia].
  by rewrite take_app_length, drop_app_length.
Qed.

Lemma der_read_sequence contents rest : blen contents < 65536 ->
  der_read (derSequence contents ++ rest) = Some (48, contents, rest).
Proof.
  unfold derSequence, blen. intros Hl. set (n := Z.of_nat (length contents)) in *.
  assert (Hn : Z.to_nat n = length contents) by lia.
  destruct (Z.ltb_spec n 128) as [H1|H1]; [|destruct (Z.ltb_spec n 256) as [H2|H2]]; cbn [app der_read].
  - destruct (Z.ltb_spec n 128); [|lia]. rewrite Hn. apply der_cut.
  - cbn. rewrite Hn. apply der_cut.
  - cbn -[Z.land Z.shiftr].
    assert (E : 256 * Z.land (Z.shiftr n 8) 255 + Z.land n 255 = n).
    { change 255 with (Z.ones 8). rewrite !Z.land_ones, Z.shiftr_div_pow2 by lia. change (2 ^ 8) with 256.
      rewrite (Z.mod_small (n / 256)) by (split; [apply Z.div_pos; lia|apply Z.div_lt_upper_bound; lia]).
      pose proof (Z.div_mod n 256 ltac:(lia)). lia. }
    rewrite E, Hn. apply der_cut.
Qed.

Lemma der_read_short tag contents rest : blen contents < 128 ->
  der_read (([tag; byte_of (blen contents)] ++ contents) ++ rest) = Some (tag, contents, rest).
Proof.
  unfold byte_of, blen. intros Hl. cbn [app der_read]. rewrite Z.mod_small by lia.
  destruct (Z.ltb_spec (Z.of_nat (length contents)) 128); [|lia]. rewrite Nat2Z.id. apply der_cut.
Qed.

(** The contents of an encoded integer: its bytes, the first below 128. *)
Lemma derInteger_spec z n : 0 <= z < 256 ^ Z.of_nat n -> (0 < n)%nat -> (n < 126)%nat ->
  exists l, derInteger z = [2; byte_of (blen l)] ++ l /\ be_value l = z /\ blen l < 128 /\
    (forall b, head l = Some b -> b < 128) /\ Forall (fun b => 0 <= b < 256) l.
Proof.
  intros Hz Hn H126. destruct (bigint_hex_spec z (2 * n)) as (Hv & Ha & Hl); [|lia|].
  { rewrite Nat2Z.inj_mul, Z.pow_mul_r by lia. done. }
  assert (He : exists k, String.length (even_hex z) = (2 * k)%nat /\ (k <= n)%nat).
  { unfold even_hex. destruct (Nat.even (String.length (bigint_hex z))) eqn:E.
    - apply Nat.even_spec in E as [k Hk]. exists k. lia.
    - destruct (Nat.Even_or_Odd (String.length (bigint_hex z))) as [Hev|[k Hk]].
      { apply Nat.even_spec in Hev. congruence. }
      exists (S k). rewrite str_length_app. cbn. lia. }
  destruct He as (k & Hk & Hkn).
  assert (Hae : all_hex (even_hex z) = true) by (unfold even_hex; by destruct (Nat.even _)).
  assert (Hve : hex_from 0 (even_hex z) = z).
  { unfold even_hex. destruct (Nat.even _); [done|]. rewrite hex_from_app. exact Hv. }
  unfold derInteger.
  destruct (hex_bytes_spec k (even_hex z) 0 Hk Hae) as (Hb1 & Hb2 & Hb3).
  destruct (Z.leb_spec 128 (hex_value (str_take 2 (even_hex z)))) as [Hbig|Hsmall].
  - exists (0 :: hex_bytes (even_hex z)). split; [done|]. split; [unfold be_value; cbn [fold_left]; change (256 * 0 + 0) with 0; by rewrite Hb2|].
    split; [unfold blen; cbn [length]; lia|]. split; [intros b [= <-]; lia|]. constructor; [lia|done].
  - exists (hex_bytes (even_hex z)). split; [done|]. split; [unfold be_value; by rewrite Hb2|].
    split; [unfold blen; lia|]. split; [|done].
    intros b. destruct (even_hex z) as [|c [|d t]] eqn:E; [done|by cbn in Hk; lia|].
    cbn [hex_bytes all_hex] in *. destruct (hex_val c) as [x|] eqn:Ec; [|done]. destruct (hex_val d) as [y|] eqn:Ed; [|done].
    intros [= <-]. replace (str_take 2 (String c (String d t))) with (String c (String d "")) in Hsmall by (by destruct t).
    change (hex_value (String c (String d ""))) with
      (16 * (16 * 0 + Z.of_nat (default O (hex_val c))) + Z.of_nat (default O (hex_val d))) in Hsmall.
    rewrite Ec, Ed in Hsmall. change (default O (Some x)) with x in Hsmall. change (default O (Some y)) with y in Hsmall. lia.
Qed.

Lemma der_items_more fuel l tag contents rest items : der_read l = Some (tag, contents, rest) ->
  der_items fuel rest = Some items -> der_items (S fuel) l = Some ((tag, contents) :: items).
Proof. intros Hr Hi. cbn [der_items]. rewrite Hr, Hi. by destruct l. Qed.

Lemma derSequence_length l : blen l < 128 -> blen (derSequence l) = 2 + blen l.
Proof. intros H. unfold derSequence. destruct (Z.ltb_spec (blen l) 128); [unfold blen in *; cbn [length app]; lia|lia]. Qed.

Lemma tsa_request_reads hashHex nonce : String.length hashHex = 64%nat -> all_hex hashHex = true -> 0 <= nonce < 2 ^ 64 ->
  exists body imprint nb,
    der_read (buildTimeStampReq hashHex nonce) = Some (48, body, []) /\
    der_items 4 body = Some [(2, [1]); (48, imprint); (2, nb); (1, [255])] /\
    der_items 2 imprint = Some [(48, OID_SHA256 ++ [5; 0]); (4, hex_bytes hashHex)] /\
    be_value nb = nonce /\ (forall b, head nb = Some b -> b < 128) /\ be_value (hex_bytes hashHex) = hex_value hashHex.
Proof.
  intros Hl Ha Hn. destruct (hex_bytes_spec 32 hashHex 0 Hl Ha) as (H32 & Hv & _).
  destruct (derInteger_spec nonce 8) as (nb & Enb & Hnb & Hlen & Hsign & _); [exact Hn|lia|lia|].
  set (alg := OID_SHA256 ++ [5; 0]). set (imprint := derSequence alg ++ derOctetString (hex_bytes hashHex)).
  assert (Hi : blen imprint = 49).
  { unfold imprint, blen. rewrite length_app. unfold derOctetString. cbn [length app]. rewrite H32. done. }
  set (body := derInteger 1 ++ derSequence imprint ++ derInteger nonce ++ derBooleanTrue).
  assert (Hb : blen body < 65536).
  { pose proof (derSequence_length imprint ltac:(lia)) as Hs. unfold body, blen in *.
    rewrite !length_app, Enb, length_app. change (length (derInteger 1)) with 3%nat. cbn [length derBooleanTrue]. lia. }
  exists body, imprint, nb. split_and!; try done.
  - unfold buildTimeStampReq. fold alg imprint body. rewrite <- (app_nil_r (derSequence body)). by apply der_read_sequence.
  - unfold body. eapply der_items_more; [apply (der_read_short 2 [1]); done|].
    eapply der_items_more; [apply der_read_sequence; rewrite Hi; done|].
    rewrite Enb. eapply der_items_more; [by apply der_read_short|].
    eapply der_items_more; [apply (der_read_short 1 [255] []); done|]. done.
  - unfold imprint. eapply der_items_more; [apply der_read_sequence; done|].
    pose proof (der_read_short 4 (hex_bytes hashHex) []) as Hr. rewrite app_nil_r in Hr.
    eapply der_items_more; [apply Hr; unfold blen; by rewrite H32|done].
Qed.

(** * What verification says *)

Section Facts.
Context `{ProofPlatform} `{PoseidonBackend} `{SkillPlatform}.

Lemma filterb_none {A} (p : A -> bool) l : (forall x, x ∈ l -> p x = false) -> List.filter p l = [].
Proof.
  induction l as [|x l IH]; intros Hp; [done|]. cbn. rewrite (Hp x (list_elem_of_here x l)). apply IH.
  intros y ?. apply Hp. by right.
Qed.
Lemma filter_every {A} (p : A -> bool) l : (forall x, x ∈ l -> p x = true) -> List.filter p l = l.
Proof.
  induction l as [|x l IH]; intros Hp; [done|]. cbn. rewrite (Hp x (list_elem_of_here x l)). f_equal. apply IH.
  intros y ?. apply Hp. by right.
Qed.

(** Errors of integrity are what the anchor errors leave. *)
Lemma integrity_errors (integrity anchor : list string) :
  (forall e, e ∈ integrity -> is_anchor_error e = false) -> (forall e, e ∈ anchor -> is_anchor_error e = true) ->
  List.filter (fun e => negb (bool_decide (e ∈ List.filter is_anchor_error (integrity ++ anchor)))) (integrity ++ anchor) = integrity.
Proof.
  intros Hi Ha.
  assert (Ef : List.filter is_anchor_error (integrity ++ anchor) = anchor).
  { rewrite List.filter_app, (filterb_none _ integrity Hi), (filter_every _ anchor Ha). done. }
  rewrite Ef, List.filter_app, filter_every, filterb_none; [by rewrite app_nil_r| |].
  - intros e He. by rewrite bool_decide_true.
  - intros e He. rewrite bool_decide_false; [done|]. intros Hc. apply Ha in Hc. by rewrite Hi in Hc.
Qed.

(** Validity is the two integrity checks; what the anchors say is reported only. *)
Lemma verifyManifest_valid m snapshot witness :
  let r := verifyManifest m snapshot witness in
  mv_valid r = (replayRootMatches r && poseidonHashValid r) /\
  replayRootMatches r = (normaliseHex (sha256_hex (snapshot_bytes snapshot)) =? normaliseHex (trainingReplayRoot m))%string /\
  poseidonHashValid r = match computeManifestHash (skillId m) (version m) (domain m) (trainingReplayRoot m) with
                        | Ok h => (normaliseHex h =? normaliseHex (poseidonHash m))%string | Throw _ => false end.
Proof.
  cbv zeta. unfold verifyManifest. destruct (poseidon_check m) as [pv pe] eqn:Ep.
  assert (Hp : pv = match computeManifestHash (skillId m) (version m) (domain m) (trainingReplayRoot m) with
      | Ok h => (normaliseHex h =? normaliseHex (poseidonHash m))%string | Throw _ => false end /\
    (pv = true <-> pe = []) /\ forall e, e ∈ pe -> is_anchor_error e = false).
  { unfold poseidon_check in Ep. destruct (computeManifestHash _ _ _ _) as [h|e].
    - destruct (_ =? _)%string; injection Ep as <- <-; (split; [done|split; [done|]]); [by intros ? ?%elem_of_nil|].
      by intros ? ->%list_elem_of_singleton.
    - injection Ep as <- <-. split; [done|]. split; [done|]. by intros ? ->%list_elem_of_singleton. }
  destruct Hp as (Hpv & Hpe & Hpi).
  set (re := replay_errors m (sha256_hex (snapshot_bytes snapshot))).
  assert (Hre : (re = [] <-> (normaliseHex (sha256_hex (snapshot_bytes snapshot)) =? normaliseHex (trainingReplayRoot m))%string = true) /\
    forall e, e ∈ re -> is_anchor_error e = false).
  { unfold re, replay_errors. destruct (_ =? _)%string; split; try done; [by intros ? ?%elem_of_nil|].
    by intros ? ->%list_elem_of_singleton. }
  destruct Hre as [Hre Hri].
  match goal with |- context[let '(a, b) := ?sw in _] => destruct sw as [sv se] eqn:Es end.
  assert (Hse : forall e, e ∈ se -> is_anchor_error e = true).
  { destruct witness as [[[] p t]|]; cbn in Es; injection Es as <- <-; try by intros ? ?%elem_of_nil.
    destruct (starknet_check m p); [by intros ? ?%elem_of_nil|]. by intros ? ->%list_elem_of_singleton. }
  match goal with |- context[re ++ pe ++ ?ts ++ se ++ ?gs] => set (te := ts); set (ge := gs) end.
  assert (Ha : forall e, e ∈ te ++ se ++ ge -> is_anchor_error e = true).
  { intros e [He|[He|He]%elem_of_app]%elem_of_app; [|by apply Hse|].
    - unfold te in He. destruct (if has_token m then _ else _); [|by apply elem_of_nil in He].
      by apply list_elem_of_singleton in He as ->.
    - unfold ge in He. destruct (bool_decide _); [|by apply elem_of_nil in He]. by apply list_elem_of_singleton in He as ->. }
  pose proof (integrity_errors (re ++ pe) (te ++ se ++ ge) ltac:(intros e [?|?]%elem_of_app; auto) Ha) as Hint.
  rewrite <- (assoc_L (++)) in Hint.
  cbv zeta. cbn [mv_valid replayRootMatches poseidonHashValid]. rewrite Hint. split; [|split; [|exact Hpv]].
  - destruct re as [|e re']; [cbn|by cbn]. destruct pe; [by rewrite (proj2 Hpe eq_refl)|].
    destruct pv; [|done]. by discriminate (proj1 Hpe eq_refl).
  - destruct re; [by symmetry; apply Hre|]. symmetry. apply not_true_iff_false. intros Hc. by apply Hre in Hc.
Qed.

Lemma duplicate_key_none es : forall seen, duplicate_key seen es = None ->
  NoDup (map entry_key es) /\ forall k, k ∈ map entry_key es -> k ∉ seen.
Proof.
  induction es as [|e es IH]; intros seen; cbn [duplicate_key map]; [by split; [constructor|intros k ?%elem_of_nil]|].
  case_bool_decide as Hd; [done|]. intros [Hn Hs]%IH. split.
  - constructor; [|done]. intros Hc. apply (Hs _ Hc). by left.
  - intros k [->|Hk]%elem_of_cons; [done|]. intros Hc. apply (Hs _ Hk). by right.
Qed.

(** What the index verifier has checked when it accepts. *)
Lemma verifySignedIndex_accepts verify i o : verifySignedIndex verify i o = None <->
  num_eqb (specVersion i) SIGNED_INDEX_SPEC_VERSION = true /\
  (forall k, expectedKeyId o = Some k -> k <> "" -> keyId i = k) /\
  rootOf (entries i) = ix_root i /\ verify (core_of i) (signature i) = Ok true /\
  (forall e n, date_ms (expires i) = Some e -> io_now o = Some n -> n <= e).
Proof.
  unfold verifySignedIndex. destruct (num_eqb _ _); [|by split; [|intros (?&_)]]. cbn [negb].
  assert (Hk : (match expectedKeyId o with Some (String c k) => negb (keyId i =? String c k)%string | _ => false end) = false <->
    (forall k, expectedKeyId o = Some k -> k <> "" -> keyId i = k)).
  { destruct (expectedKeyId o) as [[|c k]|]; split; try done.
    - intros _ k [= <-]. done.
    - intros E k' [= <-] _. by apply negb_false_iff, String.eqb_eq in E.
    - intros E. rewrite (E _ eq_refl) by done. by rewrite String.eqb_refl. }
  destruct (match expectedKeyId o with Some (String c k) => _ | _ => false end).
  { split; [done|]. intros (_ & Hc & _). by discriminate (proj2 Hk Hc). }
  destruct (String.eqb_spec (rootOf (entries i)) (ix_root i)) as [Er|Er]; cbn [negb]; [|by split; [|intros (_&_&?&_)]].
  destruct (verify (core_of i) (signature i)) as [[]|e]; cbn [negb]; [|by split; [|intros (_&_&_&?&_)]..].
  assert (Hk' := proj1 Hk eq_refl).
  destruct (date_ms (expires i)) as [e|], (io_now o) as [n|]; try (by split; [|intros (_&_&_&_&_)]).
  destruct (Z.ltb_spec e n) as [Hlt|Hge]; split; try done.
  - intros (_ & _ & _ & _ & Hd). specialize (Hd e n eq_refl eq_refl). lia.
  - intros _. split_and!; try done. intros ? ? [= <-] [= <-]. done.
Qed.

Lemma findIndexEntry_found i id v e : findIndexEntry i id v = Some e ->
  e ∈ entries i /\ ie_skillId e = id /\ forall x, v = Some x -> ie_version e = x.
Proof.
  unfold findIndexEntry. set (p := fun e => _). assert (Hm : forall l, e ∈ List.filter p l -> e ∈ l /\ p e = true).
  { intros l Hl. apply list_elem_of_In, filter_In in Hl as [Hl ?]. split; [by apply list_elem_of_In|done]. }
  assert (Hp : p e = true -> ie_skillId e = id /\ forall x, v = Some x -> ie_version e = x).
  { unfold p. intros [E1%String.eqb_eq E2]%andb_true_iff. split; [done|]. intros x ->. by apply String.eqb_eq. }
  destruct v as [x|]; intros Hh.
  - assert (Hin : e ∈ List.filter p (entries i)) by (destruct (List.filter p (entries i)); [done|]; injection Hh as ->; left).
    apply Hm in Hin as [? ?]. auto.
  - assert (Hin : e ∈ sort_by (fun a b => compareDottedDesc (ie_version a) (ie_version b)) (List.filter p (entries i)))
      by (destruct (sort_by _ _); [done|]; injection Hh as ->; left).
    rewrite sort_by_perm in Hin. apply Hm in Hin as [? ?]. auto.
Qed.
End Facts.

(** * Properties *)

(** C37: A time-stamp request is readable DER: a sequence of version one, the
    digest under the identifier of SHA-256, the nonce as a non-negative integer,
    and the request for certificates; no byte is left over. *)
Theorem tsa_request_roundtrip hashHex nonce :
  String.length hashHex = 64%nat -> all_hex hashHex = true -> 0 <= nonce < 2 ^ 64 ->
  exists body imprint nb,
    der_read (buildTimeStampReq hashHex nonce) = Some (48, body, []) /\
    der_items 4 body = Some [(2, [1]); (48, imprint); (2, nb); (1, [255])] /\
    der_items 2 imprint = Some [(48, OID_SHA256 ++ [5; 0]); (4, hex_bytes hashHex)] /\
    be_value nb = nonce /\ (forall b, head nb = Some b -> b < 128) /\ be_value (hex_bytes hashHex) = hex_value hashHex.
Proof. apply tsa_request_reads. Qed.

Section Properties.
Context `{ProofPlatform} `{PoseidonBackend} `{SkillPlatform}.

(** A manifest verifies exactly when the digest of the snapshot is its
    training root and its commitment is the hash of its fields, whatever its
    anchors; so two snapshots that verify against one manifest have one digest,
    and what [buildManifest] builds verifies. *)
Theorem manifest_lineage :
  (forall m s w, mv_valid (verifyManifest m s w) = true <->
     normaliseHex (sha256_hex (snapshot_bytes s)) = normaliseHex (trainingReplayRoot m) /\
     exists h, computeManifestHash (skillId m) (version m) (domain m) (trainingReplayRoot m) = Ok h /\
       normaliseHex h = normaliseHex (poseidonHash m)) /\
  (forall m s1 s2 w1 w2, mv_valid (verifyManifest m s1 w1) = true -> mv_valid (verifyManifest m s2 w2) = true ->
     normaliseHex (sha256_hex (snapshot_bytes s1)) = normaliseHex (sha256_hex (snapshot_bytes s2))) /\
  (forall p now m w, buildManifest p now = Ok m -> mv_valid (verifyManifest m (bp_replay p) w) = true).
Proof.
  assert (Hv : forall m s w, mv_valid (verifyManifest m s w) = true <->
     normaliseHex (sha256_hex (snapshot_bytes s)) = normaliseHex (trainingReplayRoot m) /\
     exists h, computeManifestHash (skillId m) (version m) (domain m) (trainingReplayRoot m) = Ok h /\
       normaliseHex h = normaliseHex (poseidonHash m)).
  { intros m s w. destruct (verifyManifest_valid m s w) as (-> & -> & ->). rewrite andb_true_iff, String.eqb_eq.
    destruct (computeManifestHash _ _ _ _) as [h|e].
    - rewrite String.eqb_eq. split; intros [? Hh]; (split; [done|]); [by exists h|by destruct Hh as (? & [= <-] & ?)].
    - split; intros [? Hh]; [done|by destruct Hh as (? & ? & _)]. }
  split; [exact Hv|]. split.
  - intros m s1 s2 w1 w2 [E1 _]%Hv [E2 _]%Hv. congruence.
  - intros p now m w Hb. unfold buildManifest in Hb.
    destruct (computeManifestHash _ _ _ _) as [h|e] eqn:Eh; [|done]. injection Hb as <-.
    apply Hv. cbn. split; [done|]. by exists h.
Qed.

(** What an anchor check accepts without any anchor: an empty inclusion
    proof, or one that is the manifest's own hash, passes for every manifest with
    a hash; and a time-stamp token that is not a mock passes for every manifest
    or none, whatever it stamps. *)
Theorem anchors_unbound m s t :
  strip0x (poseidonHash m) <> "" ->
  starknetAnchorValid (verifyManifest m s (Some (mkWitness w_starknet "" t))) = true /\
  (forall m' tok info, tsaToken m = Some tok -> tsaToken m' = Some tok -> parseTsaToken tok = Ok info ->
     isMock info = false -> verifyTsaAnchor m = verifyTsaAnchor m').
Proof.
  intros Hne. split.
  - unfold verifyManifest. destruct (poseidon_check m) as [pv pe]. cbn. unfold starknet_check. cbn.
    by destruct (strip0x (poseidonHash m)).
  - intros m' tok info E E' Hp Hm. unfold verifyTsaAnchor, has_token. rewrite E, E'.
    destruct tok; [done|]. by rewrite Hp, Hm.
Qed.

(** C35: The install gate lets a tarball pass only with an entry of an index
    whose root is that of its entries, whose signature over version, expiry,
    root and key verifies, which was signed by the pinned key if one is given and
    has not expired; the entry has the wanted identifier and version, and the
    digest of the tarball. *)
Theorem install_gate_sound verify i t o e :
  assertTarballMatchesIndex verify i t o = inl e ->
  e ∈ entries i /\ ie_skillId e = tg_skillId t /\ (forall v, tg_version t = Some v -> ie_version e = v) /\
  lower (tarballSha256 e) = lower (tg_tarballSha256 t) /\
  rootOf (entries i) = ix_root i /\ verify (core_of i) (signature i) = Ok true /\
  (forall k, expectedKeyId o = Some k -> k <> "" -> keyId i = k) /\
  (forall x n, date_ms (expires i) = Some x -> io_now o = Some n -> n <= x).
Proof.
  unfold assertTarballMatchesIndex. destruct (verifySignedIndex verify i o) as [[code d]|] eqn:Ev; [done|].
  apply verifySignedIndex_accepts in Ev as (_ & Hk & Hr & Hs & Hd).
  destruct (findIndexEntry i (tg_skillId t) (tg_version t)) as [e'|] eqn:Ef; [|done].
  destruct (String.eqb_spec (lower (tarballSha256 e')) (lower (tg_tarballSha256 t))) as [El|El]; cbn [negb]; [|done].
  intros [= <-]. apply findIndexEntry_found in Ef as (? & ? & ?). split_and!; done.
Qed.

(** C36: What the registry builds has no key twice, and verifies under a matching
    key until it expires; each of its entries is then found by its identifier and
    version. *)
Theorem built_index_verifies verify es opts i now :
  (forall msg, verify msg (signer opts msg) = Ok true) ->
  (forall x, date_ms (bo_expires opts) = Some x -> now <= x) ->
  buildSignedIndex es opts = Ok i ->
  NoDup (map entry_key es) /\ verifySignedIndex verify i (mkOpts (Some now) (Some (bo_keyId opts))) = None /\
  forall e, e ∈ es -> findIndexEntry i (ie_skillId e) (Some (ie_version e)) = Some e.
Proof.
  intros Hsig Hexp. unfold buildSignedIndex. destruct (_ || _); [done|].
  destruct (duplicate_key [] es) as [k|] eqn:Ed; [done|]. intros [= <-]. apply duplicate_key_none in Ed as [Hn _].
  split; [done|]. split.
  - apply verifySignedIndex_accepts. split; [reflexivity|]. split; [intros k Hk _; by injection Hk|]. split; [done|].
    split; [exact (Hsig _)|]. intros x n Hx Hn'. injection Hn' as <-. by apply Hexp.
  - intros e He. unfold findIndexEntry. cbn [entries]. clear Hsig Hexp.
    induction es as [|e' es IH]; [by apply elem_of_nil in He|]. cbn [map] in Hn. apply NoDup_cons in Hn as [Hni Hn].
    cbn [List.filter]. destruct ((ie_skillId e' =? ie_skillId e)%string && (ie_version e' =? ie_version e)%string) eqn:E.
    + apply andb_true_iff in E as [E1%String.eqb_eq E2%String.eqb_eq]. apply elem_of_cons in He as [->|He]; [done|].
      exfalso. apply Hni. assert (entry_key e' = entry_key e) as -> by (unfold entry_key; by rewrite E1, E2).
      by apply list_elem_of_fmap_2.
    + apply elem_of_cons in He as [->|He]; [by rewrite !String.eqb_refl in E|]. exact (IH Hn He).
Qed.
End Properties.

(** * Concrete lineage *)

(** A platform to compute with: digests are sixty-four digits, the first the
    length of the text; every printed value is its kind and root. *)
Definition toy_digest (l : list Z) : string := pad_end 64 (bigint_hex (fold_left (fun a b => (257 * a + b) mod 2 ^ 200) l 1)).
#[local] Instance toyProof : ProofPlatform := {|
  sha256_hex := toy_digest; poseidon := fun _ => "0x1"; from_base64 := fun s => utf8_bytes s;
  KeyObject := unit; createPublicKey := fun _ => Ok tt; asymmetricKeyType := fun _ => "ed25519";
  ed25519_verify := fun _ _ _ => true; ml_dsa44 := None |}.
#[local] Instance toyPoseidon : PoseidonBackend := {| starknetPoseidon := None |}.
#[local] Instance toySkill : SkillPlatform := {|
  date_ms := fun s => if (s =? "never")%string then None else Some (Z.of_nat (String.length s));
  utf8_text := fun l => ascii_text l; base64_text := ascii_text;
  jcs := fun v => match stringify v with Ok (Some t) => t | _ => "" end;
  locale_compare := str_cmp; merkle_root := fun l => join "+" (sort_strings l);
  inclusion_proof := fun l _ => sort_strings l;
  verify_inclusion := fun leaf proof root => bool_decide (leaf ∈ proof) && (join "+" proof =? root)%string |}.

Definition some_hash : string := pad_end 64 "ab".

Lemma tsa_request_roundtrip_witness :
  (String.length some_hash = 64%nat /\ der_items 4 (drop 2 (buildTimeStampReq some_hash 1000)) <> None) /\
  exists body imprint nb,
    der_read (buildTimeStampReq some_hash 1000) = Some (48, body, []) /\
    der_items 4 body = Some [(2, [1]); (48, imprint); (2, nb); (1, [255])] /\ be_value nb = 1000.
Proof.
  split; [split; [reflexivity|vm_compute; discriminate]|].
  destruct (tsa_request_roundtrip some_hash 1000 eq_refl ltac:(vm_compute; reflexivity) ltac:(lia))
    as (body & imprint & nb & H1 & H2 & _ & H3 & _).
  exists body, imprint, nb. split; [exact H1|]. split; [exact H2|exact H3].
Defined.

(** With eight bytes of a hash at hand, none of the nonce is drawn. *)
Lemma nonce_not_random h r1 r2 : (8 <= length (hex_bytes h))%nat -> tsa_nonce h r1 = tsa_nonce h r2.
Proof.
  intros Hl. unfold tsa_nonce. f_equal. rewrite !take_app_le; [done|rewrite length_take; lia..].
Qed.

Definition some_manifest : SkillManifest :=
  mkManifest "vauban.demo" "1.0.0" "finance" "00" "0xab" (Some "token") None None 0 unanchored.
Example built_manifest_verifies :
  match buildManifest (mkParams "vauban.demo" "1.0.0" "finance" (SText "trace")) 0 with
  | Ok m => (mv_valid (verifyManifest m (SText "trace") None), mv_valid (verifyManifest m (SText "tracf") None)) = (true, false)
  | Throw _ => False
  end.
Proof. vm_compute. reflexivity. Qed.

Lemma anchors_unbound_witness :
  strip0x (poseidonHash some_manifest) <> "" /\
  starknetAnchorValid (verifyManifest some_manifest (SText "") (Some (mkWitness w_starknet "" 0))) = true.
Proof.
  assert (Hne : strip0x (poseidonHash some_manifest) <> "") by (vm_compute; discriminate).
  split; [exact Hne|exact (proj1 (anchors_unbound some_manifest (SText "") 0 Hne))].
Defined.

(** A registry with three versions of a skill, and its gate. *)
Definition toy_sign (m : string) : string := ("sig:" ++ m)%string.
Definition toy_verify (m s : string) : result bool := Ok (s =? toy_sign m)%string.
Definition e1 : SkillIndexEntry := mkEntry "pay" "1.2.0" "AA" "0x1".
Definition e2 : SkillIndexEntry := mkEntry "pay" "1.10.0" "BB" "0x2".
Definition e3 : SkillIndexEntry := mkEntry "pay" "1.10.0-beta" "CC" "0x3".
Definition toy_opts (expiry : string) : BuildSignedIndexOptions := mkBuild toy_sign "k1" num_one expiry.
Definition toy_index (expiry : string) : SignedSkillIndex :=
  match buildSignedIndex [e1; e2] (toy_opts expiry) with Ok i => i | Throw _ => mkIndex num_zero num_zero "" [] "" "" "" end.

Lemma install_gate_sound_witness :
  assertTarballMatchesIndex toy_verify (toy_index "2030") (mkTarget "pay" None "bb") (mkOpts (Some 3) (Some "k1")) = inl e2 /\
  e2 ∈ entries (toy_index "2030") /\ lower (tarballSha256 e2) = lower "bb".
Proof.
  assert (E : assertTarballMatchesIndex toy_verify (toy_index "2030") (mkTarget "pay" None "bb") (mkOpts (Some 3) (Some "k1")) = inl e2)
    by (vm_compute; reflexivity).
  split; [exact E|].
  destruct (install_gate_sound toy_verify (toy_index "2030") (mkTarget "pay" None "bb") (mkOpts (Some 3) (Some "k1")) e2 E)
    as (H1 & _ & _ & H2 & _).
  split; [exact H1|exact H2].
Defined.

Lemma built_index_verifies_witness :
  buildSignedIndex [e1; e2] (toy_opts "2030") = Ok (toy_index "2030") /\
  verifySignedIndex toy_verify (toy_index "2030") (mkOpts (Some 3) (Some "k1")) = None.
Proof.
  assert (E : buildSignedIndex [e1; e2] (toy_opts "2030") = Ok (toy_index "2030")) by (vm_compute; reflexivity).
  split; [exact E|].
  refine (proj1 (proj2 (built_index_verifies toy_verify [e1; e2] (toy_opts "2030") (toy_index "2030") 3 _ _ E))).
  - intros msg. unfold toy_verify. cbn [signer toy_opts]. by rewrite String.eqb_refl.
  - intros x Hx. injection Hx as <-. vm_compute. discriminate.
Defined.

(** An expiry that is no date never expires; an index is accepted whatever
    version was seen before; the highest version may be a pre-release. *)
Example unparseable_never_expires :
  verifySignedIndex toy_verify (toy_index "never") (mkOpts (Some (10 ^ 20)) (Some "k1")) = None.
Proof. vm_compute. reflexivity. Qed.
Example prerelease_is_highest :
  ie_version <$> findIndexEntry (mkIndex num_one num_one "" [e1; e2; e3] "" "" "") "pay" None = Some "1.10.0-beta".
Proof. vm_compute. reflexivity. Qed.
Example dotted_order :
  compareDottedDesc "1.10.0" "1.9.7" = Lt /\ compareDottedDesc "v2" "v1" = Lt /\ compareDottedDesc "1.x.2" "1.y.1" = Lt.
Proof. vm_compute. done. Qed.
