(* ===== verification/ProviderRouter.v ===== *)
(** The provider cascade, [router/provider-router.ts], and the fetch primitive it
    uses, [http/fetch-json.ts].

    One completion is a computation on the host's world that logs its calls out:
    the SDK client, the fetch, the retry queue and the console.  The client, the
    fetch and the queue are the host's.  What a provider answers is an [unknown]
    value, read with the language's operations; their error texts are V8's.
    Thrown values are errors; latencies are left out. *)

From S2P Require Import Prelude JsNum JsValue Json NumText JsonParse TokenBase Regex.
From Stdlib Require Import Ascii.

(** * Errors *)

(** The errors that reach the router: the host's, with the [status] an SDK error
    may carry, and the classes of the two files. *)
Inductive thrown :=
| Foreign (status : option Z) (name message : string)
| HttpError (status : Z) (url bodySnippet : string) (label : option string)
| JsonParseError (url : string) (cause : thrown)
| ProviderRouterError (message : string) (cause : option thrown).

Definition of_error (e : jserror) : thrown := Foreign None (err_name e) (err_message e).

Fixpoint message_of (e : thrown) : string :=
  match e with
  | Foreign _ _ m => m
  | HttpError status url snippet label =>
      ((match label with Some (String c l) => String c l ++ " " | _ => "" end) ++ "HTTP " ++ str_of_Z status ++ " " ++
       url ++ (if (snippet =? "")%string then "" else ": " ++ snippet))%string
  | JsonParseError url cause => ("Failed to parse JSON from " ++ url ++ ": " ++ message_of cause)%string
  | ProviderRouterError m _ => m
  end.

Definition name_of (e : thrown) : string :=
  match e with
  | Foreign _ n _ => n
  | HttpError _ _ _ _ => "HttpError"
  | JsonParseError _ _ => "JsonParseError"
  | ProviderRouterError _ _ => "ProviderRouterError"
  end.

Definition status_of (e : thrown) : option Z :=
  match e with Foreign s _ _ => s | HttpError s _ _ _ => Some s | _ => None end.

(** [e.retryable], where the class has it. *)
Definition retryable_of (e : thrown) : option bool :=
  match e with
  | HttpError s _ _ _ => Some ((s =? 429) || (500 <=? s))
  | JsonParseError _ _ => Some false
  | _ => None
  end.

(** * Fetching JSON *)

(** What the code reads of a [Response]: a body that may have no [text()]. *)
Record FetchResponse := mkResponse {
  fr_ok : bool; fr_status : Z; fr_text : option (string + thrown); fr_json : jsval + thrown
}.
Record FetchInit := mkInit { fi_method : string; fi_headers : list (string * string); fi_body : option string }.
Record FetchJsonOptions (F : Type) := mkFetchOpts {
  bodySnippetLength : option nat; fo_label : option string; fetchFn : option F
}.
Arguments mkFetchOpts {F}. Arguments bodySnippetLength {F}. Arguments fo_label {F}. Arguments fetchFn {F}.

Definition bodySnippet (res : FetchResponse) (maxLen : nat) : string :=
  match fr_text res with
  | Some (inl text) => str_take maxLen text
  | _ => EmptyString
  end.

Section Fetch.
Context {W : Type}.
Definition Fetch : Type := string -> FetchInit -> W -> W * (FetchResponse + thrown).
Context (globalFetch : Fetch).

Definition fetchOrThrow (input : string) (init : FetchInit) (opts : FetchJsonOptions Fetch) (w : W)
    : W * (FetchResponse + thrown) :=
  let doFetch := default globalFetch (fetchFn opts) in
  let '(w, r) := doFetch input init w in
  match r with
  | inr e => (w, inr e)
  | inl res =>
      if negb (fr_ok res)
      then (w, inr (HttpError (fr_status res) input
                      (bodySnippet res (default 500%nat (bodySnippetLength opts))) (fo_label opts)))
      else (w, inl res)
  end.

Definition fetchJson (input : string) (init : FetchInit) (opts : FetchJsonOptions Fetch) (w : W)
    : W * (jsval + thrown) :=
  match fetchOrThrow input init opts w with
  | (w, inr e) => (w, inr e)
  | (w, inl res) =>
      (w, match fr_json res with inl v => inl v | inr e => inr (JsonParseError input e) end)
  end.
End Fetch.
Arguments Fetch : clear implicits.

(** * Requests and answers *)

Record RouterMessage := mkMsg { m_role : string; m_content : string }.
Record ProviderRouterRequest := mkRequest {
  rq_messages : list RouterMessage; rq_tools : option (list jsval); rq_maxTokens : option num
}.
Record ToolUse := mkUse { tu_name : jsval; tu_args : jsval }.
Record ProviderRouterResponse := mkAnswer {
  pr_content : jsval; pr_toolCalls : list ToolUse; pr_inputTokens : jsval; pr_outputTokens : jsval;
  pr_provider : string
}.

(** [v.k], which throws on null and undefined; [v?.k], which does not. *)
Definition prop_error (k : string) (v : jsval) : jserror :=
  JsError "TypeError" ("Cannot read properties of " ++ (if is_null v then "null" else "undefined") ++ " (reading '" ++ k ++ "')")%string.
Definition read (k : string) (v : jsval) : result jsval :=
  match v with JUndef | JNull => Throw (prop_error k v) | _ => Ok (member k v) end.
(** [v ?? d]. *)
Definition coalesce (v d : jsval) : jsval := match v with JUndef | JNull => d | _ => v end.

Fixpoint chars (s : string) : list jsval :=
  match s with EmptyString => [] | String c s' => JStr (String c EmptyString) :: chars s' end.
(** The values [for (const x of v)] goes through. *)
Definition iterate (what : string) (v : jsval) : result (list jsval) :=
  match v with
  | JArr l => Ok l
  | JStr s => Ok (chars s)
  | JBytes l => Ok (map (fun b => JNum (num_of_Z b)) l)
  | _ => Throw (JsError "TypeError" (what ++ " is not iterable")%string)
  end.

(** [v?.[0]]. *)
Definition first_of (v : jsval) : jsval :=
  match v with
  | JArr l => default JUndef (head l)
  | JStr (String c _) => JStr (String c EmptyString)
  | JBytes (b :: _) => JNum (num_of_Z b)
  | JObj o => get_field "0" o
  | _ => JUndef
  end.

Definition zero : jsval := JNum num_zero.
Definition one_field (k : string) (v : jsval) : list (string * jsval) := [(k, v)].
Definition paragraph : string := String "010" (String "010" EmptyString).

Definition tool_text (m : RouterMessage) : string := ("[tool] " ++ m_content m)%string.
Definition plain_message (role content : string) : jsval := JObj [("role", JStr role); ("content", JStr content)].

(** [if (request.tools && request.tools.length > 0) params.tools = …]. *)
Definition tools_field (rq : ProviderRouterRequest) : list (string * jsval) :=
  match rq_tools rq with Some (t :: ts) => one_field "tools" (JArr (t :: ts)) | _ => [] end.
Definition max_tokens (rq : ProviderRouterRequest) : jsval := JNum (default (num_of_Z 4096) (rq_maxTokens rq)).

(** ** Anthropic *)

Fixpoint splitAnthropicMessages (input : list RouterMessage) : list string * list jsval :=
  match input with
  | [] => ([], [])
  | m :: input' =>
      let '(systemParts, messages) := splitAnthropicMessages input' in
      if (m_role m =? "system")%string then (m_content m :: systemParts, messages)
      else if (m_role m =? "user")%string || (m_role m =? "assistant")%string
      then (systemParts, plain_message (m_role m) (m_content m) :: messages)
      else if (m_role m =? "tool")%string then (systemParts, plain_message "user" (tool_text m) :: messages)
      else (systemParts, messages)
  end.

Definition anthropic_params (model : string) (rq : ProviderRouterRequest) : jsval :=
  let '(systemParts, messages) := splitAnthropicMessages (rq_messages rq) in
  let system := join paragraph systemParts in
  JObj ([("model", JStr model); ("max_tokens", max_tokens rq); ("messages", JArr messages)] ++
        (if (system =? "")%string then [] else one_field "system" (JStr system)) ++ tools_field rq).

(** [block.type] and what is taken of the block. *)
Fixpoint read_blocks (blocks : list jsval) (text : string) (calls : list ToolUse)
    : result (string * list ToolUse) :=
  match blocks with
  | [] => Ok (text, calls)
  | b :: blocks' =>
      type ← read "type" b;
      if is_str "text" type then
        t ← template_text (member "text" b); read_blocks blocks' (text ++ t)%string calls
      else if is_str "tool_use" type then
        read_blocks blocks' text (calls ++ [mkUse (member "name" b) (member "input" b)])
      else read_blocks blocks' text calls
  end.

(** [raw.usage?.k ?? 0]. *)
Definition usage_of (raw : jsval) (k : string) : jsval := coalesce (member k (member "usage" raw)) zero.

Definition readAnthropic (raw : jsval) : result ProviderRouterResponse :=
  content ← read "content" raw;
  blocks ← iterate "(raw.content ?? [])" (coalesce content (JArr []));
  parts ← read_blocks blocks "" [];
  Ok (mkAnswer (JStr parts.1) parts.2 (usage_of raw "input_tokens") (usage_of raw "output_tokens") "anthropic").

Definition classifyAnthropicErr (e : thrown) : string :=
  let other := if (name_of e =? "AbortError")%string || re_test (re_i "timeout") (message_of e)
               then "timeout" else "error" in
  match status_of e with
  | Some n => if n =? 429 then "rate_limit_429"
              else if 500 <=? n then ("server_" ++ str_of_Z n)%string else other
  | None => other
  end.

Definition isAnthropicFallbackEligible (e : thrown) : bool :=
  match status_of e with Some n => (n =? 429) || (500 <=? n) | None => false end ||
  (name_of e =? "AbortError")%string || re_test (re_i "timeout|ETIMEDOUT|ECONNRESET") (message_of e).

(** ** Groq *)

Definition groq_message (m : RouterMessage) : jsval :=
  if (m_role m =? "tool")%string then plain_message "user" (tool_text m) else plain_message (m_role m) (m_content m).

Definition groq_body (model : string) (rq : ProviderRouterRequest) : jsval :=
  JObj ([("model", JStr model); ("max_tokens", max_tokens rq);
         ("messages", JArr (map groq_message (rq_messages rq)))] ++ tools_field rq).

Definition GROQ_URL : string := "https://api.groq.com/openai/v1/chat/completions".

Definition groq_init (apiKey : string) (body : option string) : FetchInit :=
  mkInit "POST" [("content-type", "application/json"); ("authorization", ("Bearer " ++ apiKey)%string)] body.

(** The arguments of a call: read as JSON, kept under [__raw] when they are not. *)
Definition tool_args (rawArgs : jsval) : jsval :=
  match rawArgs with
  | JStr (String c s) =>
      match json_parse (String c s) with
      | Ok v => v
      | Throw _ => JObj (one_field "__raw" rawArgs)
      end
  | v => if js_truthy v then v else JObj []
  end.

Fixpoint read_tool_calls (l : list jsval) : result (list ToolUse) :=
  match l with
  | [] => Ok []
  | tc :: l' =>
      fn ← read "function" tc;
      let name := member "name" fn in
      rest ← read_tool_calls l';
      Ok (if js_truthy name then mkUse name (tool_args (member "arguments" fn)) :: rest else rest)
  end.

Definition readGroq (raw : jsval) : result ProviderRouterResponse :=
  choices ← read "choices" raw;
  let msg := member "message" (first_of choices) in
  l ← iterate "(intermediate value)" (coalesce (member "tool_calls" msg) (JArr []));
  calls ← read_tool_calls l;
  Ok (mkAnswer (coalesce (member "content" msg) (JStr "")) calls
        (usage_of raw "prompt_tokens") (usage_of raw "completion_tokens") "groq").

(** * The cascade *)

(** The calls out of a completion, with what they returned. *)
Inductive routed :=
| RAnthropic (params : jsval) (answer : jsval + thrown)
| RGroq (init : FetchInit) (answer : jsval + thrown)
| RQueue (answer : unit + thrown)
| RConsole (text : string).

Definition falling_back (e : thrown) : string :=
  ("[provider-router] Anthropic failed (" ++ classifyAnthropicErr e ++ "), falling back to Groq")%string.
Definition groq_failed : string := "[provider-router] Groq failed, queueing retry".

Section Router.
Context {W : Type}.

Definition AnthropicClient : Type := jsval -> W -> W * (jsval + thrown).
Record ProviderRouterOptions := mkOptions {
  preferAnthropic : option bool;
  o_anthropicApiKey : option string;
  o_groqApiKey : option string;
  queueRetryFn : option (ProviderRouterRequest -> W -> W * (unit + thrown));
  model_anthropic : option string;
  model_groq : option string;
  o_anthropicClient : option AnthropicClient;
  fetchImpl : option (Fetch W)
}.

(** The process: its environment, the SDK's constructor and the global fetch. *)
Record Process := mkProcess {
  env_anthropic : option string; env_groq : option string;
  newAnthropic : string -> AnthropicClient; globalFetch : Fetch W
}.

Record router_state := mkRouter { r_world : W; r_log : list routed }.
Definition RouterM (A : Type) : Type := router_state -> router_state * (A + thrown).

Definition rret {A} (a : A) : RouterM A := fun s => (s, inl a).
Definition rthrow {A} (e : thrown) : RouterM A := fun s => (s, inr e).
Definition rlift {A} (r : result A) : RouterM A := fun s =>
  (s, match r with Ok a => inl a | Throw e => inr (of_error e) end).
Definition rbind {A B} (m : RouterM A) (f : A -> RouterM B) : RouterM B := fun s =>
  match m s with (s, inl a) => f a s | (s, inr e) => (s, inr e) end.
(** [try { return await m } catch (err) { h(err) }]. *)
Definition catching {A} (m : RouterM A) (h : thrown -> RouterM A) : RouterM A := fun s =>
  match m s with (s, inl a) => (s, inl a) | (s, inr e) => h e s end.
Definition asking {A} (entry : A + thrown -> routed) (f : W -> W * (A + thrown)) : RouterM A := fun s =>
  let '(w, r) := f (r_world s) in (mkRouter w (r_log s ++ [entry r]), r).
Definition console (text : string) : RouterM unit := fun s =>
  (mkRouter (r_world s) (r_log s ++ [RConsole text]), inl tt).

Notation "'let*' x := m 'in' k" := (rbind m (fun x => k))
  (at level 200, x pattern, m at level 100, k at level 200).

Definition DEFAULT_ANTHROPIC_MODEL : string := "claude-sonnet-4-6".
Definition DEFAULT_GROQ_MODEL : string := "llama-3.3-70b-versatile".

Definition callAnthropic (client : AnthropicClient) (rq : ProviderRouterRequest) (model : string)
    : RouterM ProviderRouterResponse :=
  let params := anthropic_params model rq in
  let* raw := asking (RAnthropic params) (client params) in
  rlift (readAnthropic raw).

Definition callGroq (impl : Fetch W) (fallback : Fetch W) (apiKey : string) (rq : ProviderRouterRequest) (model : string)
    : RouterM ProviderRouterResponse :=
  let* body := rlift (stringify (groq_body model rq)) in
  let init := groq_init apiKey body in
  let* raw := catching
    (asking (RGroq init) (fetchJson fallback GROQ_URL init (mkFetchOpts (Some 200%nat) (Some "Groq") (Some impl))))
    (fun e => match e with
              | HttpError _ _ _ _ => rthrow (ProviderRouterError (message_of e) (Some e))
              | _ => rthrow e
              end) in
  rlift (readGroq raw).

Context (process : Process) (opts : ProviderRouterOptions).

Definition anthropicClient : option AnthropicClient :=
  match o_anthropicClient opts with
  | Some c => Some c
  | None =>
      match match o_anthropicApiKey opts with Some k => Some k | None => env_anthropic process end with
      | Some (String c k) => Some (newAnthropic process (String c k))
      | _ => None
      end
  end.
Definition groqApiKey : option string :=
  match match o_groqApiKey opts with Some k => Some k | None => env_groq process end with
  | Some (String c k) => Some (String c k)
  | _ => None
  end.
(** The client a completion tries first, if any. *)
Definition useAnthropic : option AnthropicClient :=
  if default true (preferAnthropic opts) then anthropicClient else None.

(** What [createProviderRouter] prints. *)
Definition createProviderRouter : list routed :=
  if default true (preferAnthropic opts)
  then match anthropicClient with
       | None => [RConsole "[provider-router] Anthropic not configured, routing to Groq"]
       | Some _ => []
       end
  else [].

(** [if (opts?.queueRetryFn) await opts.queueRetryFn(request).catch(() => {})]. *)
Definition queue_retry (rq : ProviderRouterRequest) : RouterM unit :=
  match queueRetryFn opts with
  | Some queue => catching (asking RQueue (queue rq)) (fun _ => rret tt)
  | None => rret tt
  end.

(** What follows once Anthropic is out of the way, having thrown
    [anthropicErr] if it was tried. *)
Definition groq_or_queue (rq : ProviderRouterRequest) (anthropicErr : option thrown)
    : RouterM ProviderRouterResponse :=
  match groqApiKey with
  | None =>
      let* _ := queue_retry rq in
      rthrow (ProviderRouterError "All providers unavailable: Anthropic failed and Groq API key missing" anthropicErr)
  | Some key =>
      catching
        (callGroq (default (globalFetch process) (fetchImpl opts)) (globalFetch process) key rq
           (default DEFAULT_GROQ_MODEL (model_groq opts)))
        (fun e =>
           let* _ := console groq_failed in
           let* _ := queue_retry rq in
           rthrow (ProviderRouterError ("All providers failed. Last error: " ++ message_of e)%string (Some e)))
  end.

Definition complete (rq : ProviderRouterRequest) : RouterM ProviderRouterResponse :=
  match useAnthropic with
  | None => groq_or_queue rq None
  | Some client => fun s =>
      match callAnthropic client rq (default DEFAULT_ANTHROPIC_MODEL (model_anthropic opts)) s with
      | (s, inl a) => (s, inl a)
      | (s, inr e) =>
          if negb (isAnthropicFallbackEligible e)
          then (s, inr (ProviderRouterError ("Anthropic call failed (non-retryable): " ++ message_of e)%string (Some e)))
          else
            (let* _ := console (falling_back e) in
             groq_or_queue rq (Some e)) s
      end
  end.
End Router.
Arguments ProviderRouterOptions : clear implicits. Arguments Process : clear implicits.
Arguments RouterM : clear implicits. Arguments router_state : clear implicits.
Arguments AnthropicClient : clear implicits.

Lemma str_take_at_most n s : (String.length (str_take n s) <= n)%nat.
Proof. unfold str_take. revert n. induction s as [|c s IH]; intros [|n]; cbn; [lia..|]. specialize (IH n). lia. Qed.

(** * What a completion does *)

Section Cascade.
Context {W : Type} (process : Process W) (opts : ProviderRouterOptions W) (rq : ProviderRouterRequest).

Definition as_sum {A} (r : result A) : A + thrown :=
  match r with Ok a => inl a | Throw e => inr (of_error e) end.

(** One call of the client, and what is read of its answer. *)
Definition anthropic_turn (l : list routed) (out : ProviderRouterResponse + thrown) : Prop :=
  exists answer,
    l = [RAnthropic (anthropic_params (default DEFAULT_ANTHROPIC_MODEL (model_anthropic opts)) rq) answer] /\
    out = match answer with inl raw => as_sum (readAnthropic raw) | inr e => inr e end.

(** One request under [key] and what is read of its answer; a body that cannot
    be printed is not sent. *)
Definition groq_turn (key : string) (l : list routed) (out : ProviderRouterResponse + thrown) : Prop :=
  match stringify (groq_body (default DEFAULT_GROQ_MODEL (model_groq opts)) rq) with
  | Throw e => l = [] /\ out = inr (of_error e)
  | Ok body => exists answer, l = [RGroq (groq_init key body) answer] /\
      out = match answer with
            | inl raw => as_sum (readGroq raw)
            | inr (HttpError s u b o as e) => inr (ProviderRouterError (message_of e) (Some e))
            | inr e => inr e
            end
  end.

Definition queue_turn (l : list routed) : Prop :=
  match queueRetryFn opts with Some _ => exists answer, l = [RQueue answer] | None => l = [] end.

(** [handed l e]: the completion goes on without Anthropic, which was not tried
    or failed with [e]. *)
Inductive handed : list routed -> option thrown -> Prop :=
| handed_untried : useAnthropic process opts = None -> handed [] None
| handed_failed client l e :
    useAnthropic process opts = Some client -> anthropic_turn l (inr e) ->
    isAnthropicFallbackEligible e = true -> handed (l ++ [RConsole (falling_back e)]) (Some e).

Inductive cascade : list routed -> ProviderRouterResponse + thrown -> Prop :=
| answered_first client l a :
    useAnthropic process opts = Some client -> anthropic_turn l (inl a) -> cascade l (inl a)
| refused client l e :
    useAnthropic process opts = Some client -> anthropic_turn l (inr e) -> isAnthropicFallbackEligible e = false ->
    cascade l (inr (ProviderRouterError ("Anthropic call failed (non-retryable): " ++ message_of e)%string (Some e)))
| unavailable before e q :
    handed before e -> groqApiKey process opts = None -> queue_turn q ->
    cascade (before ++ q)
      (inr (ProviderRouterError "All providers unavailable: Anthropic failed and Groq API key missing" e))
| answered_second before e key l a :
    handed before e -> groqApiKey process opts = Some key -> groq_turn key l (inl a) ->
    cascade (before ++ l) (inl a)
| all_failed before e key l e' q :
    handed before e -> groqApiKey process opts = Some key -> groq_turn key l (inr e') -> queue_turn q ->
    cascade (before ++ l ++ RConsole groq_failed :: q)
      (inr (ProviderRouterError ("All providers failed. Last error: " ++ message_of e')%string (Some e'))).

(** The calls of a log, made one after the other on the world of the host. *)
Fixpoint happened (l : list routed) (w w' : W) : Prop :=
  match l with
  | [] => w' = w
  | RAnthropic params a :: l' => exists client w1,
      useAnthropic process opts = Some client /\ client params w = (w1, a) /\ happened l' w1 w'
  | RGroq init a :: l' => exists w1,
      fetchJson (globalFetch process) GROQ_URL init
        (mkFetchOpts (Some 200%nat) (Some "Groq") (Some (default (globalFetch process) (fetchImpl opts)))) w = (w1, a) /\
      happened l' w1 w'
  | RQueue a :: l' => exists queue w1,
      queueRetryFn opts = Some queue /\ queue rq w = (w1, a) /\ happened l' w1 w'
  | RConsole _ :: l' => happened l' w w'
  end.

Lemma happened_app l1 l2 w w1 w2 : happened l1 w w1 -> happened l2 w1 w2 -> happened (l1 ++ l2) w w2.
Proof.
  revert w. induction l1 as [|[p a|i a|a|t] l1 IH]; intros w H1 H2; cbn in *; [by subst| | | |by apply IH].
  - destruct H1 as (c & w' & ? & ? & ?). exists c, w'. auto.
  - destruct H1 as (w' & ? & ?). exists w'. auto.
  - destruct H1 as (c & w' & ? & ? & ?). exists c, w'. auto.
Qed.

(** [routes m P]: [m] extends the log by calls it made, and [P] holds of them and
    its outcome. *)
Definition routes {A} (m : RouterM W A) (P : list routed -> A + thrown -> Prop) : Prop :=
  forall w l0, exists w' l out, m (mkRouter w l0) = (mkRouter w' (l0 ++ l), out) /\ happened l w w' /\ P l out.

Lemma routes_mono {A} (m : RouterM W A) (P Q : list routed -> A + thrown -> Prop) :
  routes m P -> (forall l out, P l out -> Q l out) -> routes m Q.
Proof. intros H HPQ w l0. destruct (H w l0) as (w' & l & out & ? & ? & ?). exists w', l, out. auto. Qed.

Lemma routes_asking {A} (entry : A + thrown -> routed) f :
  (forall w w1 a, f w = (w1, a) -> happened [entry a] w w1) ->
  routes (asking entry f) (fun l out => l = [entry out]).
Proof.
  intros He w l0. unfold asking. cbn. destruct (f w) as [w1 a] eqn:E. exists w1, [entry a], a. eauto.
Qed.

(** Whatever the outcome of [m], [k] goes on from it. *)
Lemma routes_after {A B} (m : RouterM W A) (k : A + thrown -> RouterM W B) P Q :
  routes m P -> (forall l out, P l out -> routes (k out) (fun l' out' => Q (l ++ l') out')) ->
  routes (fun s => let '(s, out) := m s in k out s) Q.
Proof.
  intros Hm Hk w l0. destruct (Hm w l0) as (w1 & l & out & -> & Hh & HP).
  destruct (Hk l out HP w1 (l0 ++ l)) as (w2 & l' & out' & -> & Hh' & HQ).
  exists w2, (l ++ l'), out'. rewrite app_assoc. split; [done|]. split; [by eapply happened_app|done].
Qed.

Lemma routes_done {A} (out : A + thrown) (P : list routed -> A + thrown -> Prop) : P [] out -> routes (fun s => (s, out)) P.
Proof. intros HP w l0. exists w, [], out. by rewrite app_nil_r. Qed.

Lemma routes_lift {A} (r : result A) (P : list routed -> A + thrown -> Prop) : P [] (as_sum r) -> routes (rlift r) P.
Proof. apply routes_done. Qed.

Lemma routes_throw {A} e (P : list routed -> A + thrown -> Prop) : P [] (inr e) -> routes (rthrow e) P.
Proof. apply routes_done. Qed.

Lemma routes_bind {A B} (m : RouterM W A) (f : A -> RouterM W B) P Q :
  routes m P ->
  (forall l a, P l (inl a) -> routes (f a) (fun l' out => Q (l ++ l') out)) ->
  (forall l e, P l (inr e) -> Q l (inr e)) ->
  routes (rbind m f) Q.
Proof.
  intros Hm Hf He w l0. destruct (Hm w l0) as (w1 & l & [a|e] & E & Hh & HP); unfold rbind; rewrite E.
  - destruct (Hf l a HP w1 (l0 ++ l)) as (w2 & l' & out' & -> & Hh' & HQ).
    exists w2, (l ++ l'), out'. rewrite app_assoc. split; [done|]. split; [by eapply happened_app|done].
  - exists w1, l, (inr e). auto.
Qed.

Lemma routes_catching {A} (m : RouterM W A) (h : thrown -> RouterM W A) P Q :
  routes m P ->
  (forall l a, P l (inl a) -> Q l (inl a)) ->
  (forall l e, P l (inr e) -> routes (h e) (fun l' out => Q (l ++ l') out)) ->
  routes (catching m h) Q.
Proof.
  intros Hm Hf He w l0. destruct (Hm w l0) as (w1 & l & [a|e] & E & Hh & HP); unfold catching; rewrite E.
  - exists w1, l, (inl a). auto.
  - destruct (He l e HP w1 (l0 ++ l)) as (w2 & l' & out' & -> & Hh' & HQ).
    exists w2, (l ++ l'), out'. rewrite app_assoc. split; [done|]. split; [by eapply happened_app|done].
Qed.

Lemma routes_console text : routes (console text) (fun l out => l = [RConsole text] /\ out = inl tt).
Proof. intros w l0. exists w, [RConsole text], (inl tt). done. Qed.

Lemma routes_anthropic client : useAnthropic process opts = Some client ->
  routes (callAnthropic client rq (default DEFAULT_ANTHROPIC_MODEL (model_anthropic opts))) anthropic_turn.
Proof.
  intros Ec. unfold callAnthropic. eapply routes_bind.
  - apply routes_asking. intros w w1 a E. by exists client, w1.
  - intros l raw ->. apply routes_lift. by eexists.
  - intros l e ->. by eexists.
Qed.

Lemma routes_groq key :
  routes (callGroq (default (globalFetch process) (fetchImpl opts)) (globalFetch process) key rq
          (default DEFAULT_GROQ_MODEL (model_groq opts))) (groq_turn key).
Proof.
  unfold callGroq, groq_turn. destruct (stringify _) as [body|e].
  2: { intros w l0. exists w, [], (inr (of_error e)). by rewrite app_nil_r. }
  change (rbind (rlift (Ok body)) ?k) with (k body). eapply routes_bind.
  - eapply (routes_catching _ _ _ (fun l out => exists answer, l = [RGroq (groq_init key body) answer] /\
      out = match answer with inr (HttpError s u b o as e) => inr (ProviderRouterError (message_of e) (Some e)) | _ => answer end)).
    + apply routes_asking. intros w w1 a E. by exists w1.
    + intros l raw ->. by eexists.
    + intros l e ->. destruct e; apply routes_throw; by eexists.
  - intros l raw (answer & -> & Eo). apply routes_lift. exists answer. split; [done|].
    destruct answer as [raw'|[]]; try done. by injection Eo as <-.
  - intros l e (answer & -> & Eo). exists answer. split; [done|]. destruct answer as [raw'|[]]; [done|..]; by injection Eo as ->.
Qed.

Lemma routes_queue : routes (queue_retry opts rq) (fun l out => queue_turn l /\ out = inl tt).
Proof.
  unfold queue_retry, queue_turn. destruct (queueRetryFn opts) as [queue|] eqn:Eq; [|by apply (routes_done (inl tt))].
  eapply routes_catching.
  - apply routes_asking. intros w w1 a E. exists queue, w1. done.
  - intros l [] ->. split; [eauto|done].
  - intros l e ->. apply (routes_done (inl tt)). rewrite app_nil_r. split; [eauto|done].
Qed.

Lemma routes_groq_or_queue before e : handed before e ->
  routes (groq_or_queue process opts rq e) (fun l out => cascade (before ++ l) out).
Proof.
  intros Hb. unfold groq_or_queue. destruct (groqApiKey process opts) as [key|] eqn:Ek.
  - eapply routes_catching; [apply routes_groq| |].
    + intros l a Hl. by eapply answered_second.
    + intros l e' Hl. eapply routes_bind; [apply routes_console| |by intros ? ? []].
      intros t [] [-> _]. eapply routes_bind; [apply routes_queue| |by intros ? ? []].
      intros q [] [Hq _]. apply routes_throw. rewrite app_nil_r. by eapply all_failed.
  - eapply routes_bind; [apply routes_queue| |by intros ? ? []].
    intros q [] [Hq _]. apply routes_throw. rewrite app_nil_r. by apply unavailable.
Qed.

Lemma complete_routes : routes (complete process opts rq) cascade.
Proof.
  unfold complete. destruct (useAnthropic process opts) as [client|] eqn:Eu.
  2: { apply (routes_groq_or_queue [] None). by constructor. }
  intros w l0. destruct (routes_anthropic client Eu w l0) as (w1 & l & out & -> & Hh & Ht).
  destruct out as [a|e]; [exists w1, l, (inl a); eauto using answered_first|].
  destruct (isAnthropicFallbackEligible e) eqn:Ee; cbn [negb].
  - unfold rbind, console. cbn [r_world r_log].
    edestruct (routes_groq_or_queue _ (Some e) (handed_failed client l e Eu Ht Ee) w1) as (w2 & l2 & out & E & Hh2 & HC).
    rewrite <- app_assoc, E. eexists w2, _, out. split; [by rewrite <- app_assoc|]. split; [|exact HC].
    eapply happened_app; [|exact Hh2]. by eapply happened_app.
  - eexists w1, l, _. split; [done|]. split; [done|]. by eapply refused.
Qed.
End Cascade.

(** * What is sent, and what is read back *)

Definition told (m : RouterMessage) : bool :=
  existsb (String.eqb (m_role m)) ["user"; "assistant"; "tool"].

Lemma split_told input :
  splitAnthropicMessages input =
  (map m_content (List.filter (fun m => (m_role m =? "system")%string) input),
   map groq_message (List.filter told input)).
Proof.
  induction input as [|[role text] input IH]; [done|].
  cbn [splitAnthropicMessages List.filter m_role m_content]. rewrite IH.
  change (told (mkMsg role text)) with (existsb (String.eqb role) ["user"; "assistant"; "tool"]). cbn [existsb].
  destruct (String.eqb_spec role "system") as [->|E]; [done|].
  destruct (String.eqb_spec role "user") as [->|Eu]; [done|].
  destruct (String.eqb_spec role "assistant") as [->|Ea]; [done|].
  destruct (String.eqb_spec role "tool") as [->|Et]; done.
Qed.

(** A call and a text as each of the providers writes them. *)
Definition tool_use_block (c : ToolUse) : jsval :=
  JObj [("type", JStr "tool_use"); ("name", tu_name c); ("input", tu_args c)].
Definition anthropic_answer (text : string) (calls : list ToolUse) (i o : num) : jsval :=
  JObj [("content", JArr (JObj [("type", JStr "text"); ("text", JStr text)] :: map tool_use_block calls));
        ("usage", JObj [("input_tokens", JNum i); ("output_tokens", JNum o)])].
Definition printed (v : jsval) : jsval := match stringify v with Ok (Some t) => JStr t | _ => JUndef end.
Definition function_call (c : ToolUse) : jsval :=
  JObj [("function", JObj [("name", tu_name c); ("arguments", printed (tu_args c))])].
Definition groq_answer (text : string) (calls : list ToolUse) (i o : num) : jsval :=
  JObj [("choices", JArr [JObj [("message", JObj [("content", JStr text); ("tool_calls", JArr (map function_call calls))])]]);
        ("usage", JObj [("prompt_tokens", JNum i); ("completion_tokens", JNum o)])].

Lemma read_blocks_calls calls : forall text acc,
  read_blocks (map tool_use_block calls) text acc = Ok (text, acc ++ calls).
Proof.
  induction calls as [|[n a] calls IH]; intros text acc; [by rewrite app_nil_r|].
  cbn. rewrite IH. by rewrite <- app_assoc.
Qed.

Lemma tool_args_printed v : json_plain v = true -> tool_args (printed v) = v.
Proof.
  intros (t & Es & Ep)%parse_stringify. unfold printed. rewrite Es. cbn [tool_args].
  destruct t as [|c t]; [by vm_compute in Ep|]. by rewrite Ep.
Qed.

Definition named (c : ToolUse) : Prop := exists n, tu_name c = JStr n /\ n <> "".

Lemma read_tool_calls_back calls :
  Forall (fun c => named c /\ json_plain (tu_args c) = true) calls ->
  read_tool_calls (map function_call calls) = Ok calls.
Proof.
  induction 1 as [|[n a] calls [(s & En & Hs) Ha] _ IH]; [done|]. cbn in En, Ha. subst n.
  cbn [map read_tool_calls]. set (o := JObj [("name", JStr s); ("arguments", printed a)]).
  change (read "function" (function_call (mkUse (JStr s) a))) with (Ok o). rewrite IH. cbn [mbind result_bind].
  change (member "name" o) with (JStr s). change (member "arguments" o) with (printed a).
  rewrite tool_args_printed by done. cbn [js_truthy]. by destruct (String.eqb_spec s "").
Qed.

Definition count (p : routed -> bool) (l : list routed) : nat := length (List.filter p l).
Definition is_anthropic (r : routed) : bool := match r with RAnthropic _ _ => true | _ => false end.
Definition is_groq (r : routed) : bool := match r with RGroq _ _ => true | _ => false end.
Definition is_queue (r : routed) : bool := match r with RQueue _ => true | _ => false end.

Lemma count_app p l1 l2 : count p (l1 ++ l2) = (count p l1 + count p l2)%nat.
Proof. unfold count. by rewrite List.filter_app, length_app. Qed.

Section Counts.
Context {W : Type} (process : Process W) (opts : ProviderRouterOptions W) (rq : ProviderRouterRequest).

Definition tally (l : list routed) : nat * nat * nat := (count is_anthropic l, count is_groq l, count is_queue l).

Lemma tally_anthropic l out : anthropic_turn opts rq l out -> tally l = (1, 0, 0)%nat.
Proof. by intros (? & -> & _). Qed.
Lemma tally_groq key l out : groq_turn opts rq key l out -> count is_anthropic l = O /\ (count is_groq l <= 1)%nat /\ count is_queue l = O.
Proof. unfold groq_turn. destruct (stringify _); [intros (? & -> & _)|intros (-> & _)]; cbn; lia. Qed.
Lemma tally_queue l : queue_turn opts l ->
  tally l = (0, 0, match queueRetryFn opts with Some _ => 1 | None => 0 end)%nat.
Proof. unfold queue_turn. destruct (queueRetryFn opts); [by intros (? & ->)|by intros ->]. Qed.
Lemma tally_handed l e : handed process opts rq l e -> (count is_anthropic l <= 1)%nat /\ count is_groq l = O /\ count is_queue l = O.
Proof.
  intros [|client l' e' _ (? & -> & _) _]; cbn; lia.
Qed.

(** One call of each provider at most, and of the queue exactly when all that
    was there to try has failed; whatever is thrown is the router's error. *)
Lemma cascade_counts l out : cascade process opts rq l out ->
  (count is_anthropic l <= 1)%nat /\ (count is_groq l <= 1)%nat /\
  match out with
  | inl _ => count is_queue l = O
  | inr e => exists m c, e = ProviderRouterError m c /\
      (count is_queue l = match queueRetryFn opts with Some _ => 1 | None => 0 end \/
       count is_queue l = 0 /\ exists e', c = Some e' /\ isAnthropicFallbackEligible e' = false)%nat
  end.
Proof.
  intros [client l' a _ (? & -> & _)|client l' e _ (? & -> & _) He|before e q Hb _ Hq%tally_queue
         |before e key l' a Hb _ Hg%tally_groq|before e key l' e' q Hb _ Hg%tally_groq Hq%tally_queue];
    [cbn; lia|cbn; eauto 10 with lia| | |]; apply tally_handed in Hb; unfold tally in *; simplify_eq.
  - rewrite !count_app. split; [lia|]. split; [lia|]. eexists _, _. split; [done|]. left. lia.
  - rewrite !count_app. lia.
  - rewrite !count_app. change (RConsole groq_failed :: q) with ([RConsole groq_failed] ++ q). rewrite !count_app.
    cbn [count List.filter is_anthropic is_groq is_queue length]. split; [cbn; lia|]. split; [cbn; lia|].
    eexists _, _. split; [done|]. left. cbn. lia.
Qed.
End Counts.

(** * Properties *)

(** C34: A completion always returns, and what it did is a run of the cascade: the
    preferred client is asked first, and its answer or its final failure ends
    it; an overload, a server error or a timeout hands over to Groq, whose failure or
    absence queues a retry.  Each call got what its port answered, in turn.  Each
    provider is asked at most once; the retry is queued exactly once when
    everything there was to try has failed, never when a response is returned;
    whatever is thrown is an error of the router. *)
Theorem router_cascade {W} (process : Process W) opts rq w l0 :
  exists w' l out, complete process opts rq (mkRouter w l0) = (mkRouter w' (l0 ++ l), out) /\
    happened process opts rq l w w' /\ cascade process opts rq l out /\
    (count is_anthropic l <= 1)%nat /\ (count is_groq l <= 1)%nat /\
    match out with
    | inl _ => count is_queue l = O
    | inr e => exists m c, e = ProviderRouterError m c /\
        (count is_queue l = match queueRetryFn opts with Some _ => 1 | None => 0 end \/
         count is_queue l = 0 /\ exists e', c = Some e' /\ isAnthropicFallbackEligible e' = false)%nat
    end.
Proof.
  destruct (complete_routes process opts rq w l0) as (w' & l & out & E & Hh & Hc). exists w', l, out.
  split; [exact E|]. split; [exact Hh|]. split; [exact Hc|]. by apply (cascade_counts process opts rq).
Qed.

(** The providers are interchangeable: both are sent the same conversation,
    tool results told as the user's, Anthropic with the system messages set apart
    and without messages of another role; and an answer with a text, calls and
    usage is read to the same response from either, the arguments of the calls
    parsed back from their JSON text. *)
Theorem providers_agree calls text i o :
  Forall (fun c => named c /\ json_plain (tu_args c) = true) calls ->
  (forall input, splitAnthropicMessages input =
     (map m_content (List.filter (fun m => (m_role m =? "system")%string) input),
      map groq_message (List.filter told input))) /\
  readAnthropic (anthropic_answer text calls i o) = Ok (mkAnswer (JStr text) calls (JNum i) (JNum o) "anthropic") /\
  readGroq (groq_answer text calls i o) = Ok (mkAnswer (JStr text) calls (JNum i) (JNum o) "groq").
Proof.
  intros Hc. split; [exact split_told|]. split.
  - unfold readAnthropic. set (l := map tool_use_block calls).
    change (read "content" _) with (Ok (JArr (JObj [("type", JStr "text"); ("text", JStr text)] :: l))).
    cbn [mbind result_bind coalesce iterate]. change (read_blocks (_ :: l) "" []) with (read_blocks l text []).
    unfold l. by rewrite read_blocks_calls.
  - unfold readGroq. set (l := map function_call calls).
    change (read "choices" _) with
      (Ok (JArr [JObj [("message", JObj [("content", JStr text); ("tool_calls", JArr l)])]])).
    cbn [mbind result_bind]. cbn [first_of head default].
    change (member "message" _) with (JObj [("content", JStr text); ("tool_calls", JArr l)]).
    change (member "tool_calls" _) with (JArr l). cbn [coalesce iterate mbind result_bind].
    unfold l. by rewrite read_tool_calls_back.
Qed.

(** Whatever [fetchJson] throws is the rejection of the fetch itself, or a
    status with at most the allowed part of the body, retryable exactly when the
    status is 429 or from 500 on, or a body that does not parse, never
    retryable. *)
Theorem fetch_failures {W} (g : Fetch W) url init opts w w' e :
  fetchJson g url init opts w = (w', inr e) ->
  default g (fetchFn opts) url init w = (w', inr e) \/
  exists res, default g (fetchFn opts) url init w = (w', inl res) /\
    ((fr_ok res = false /\ exists snippet,
        e = HttpError (fr_status res) url snippet (fo_label opts) /\
        (String.length snippet <= default 500 (bodySnippetLength opts))%nat /\
        retryable_of e = Some (bool_decide (fr_status res = 429 \/ 500 <= fr_status res))) \/
     (fr_ok res = true /\ exists cause, fr_json res = inr cause /\ e = JsonParseError url cause /\
        retryable_of e = Some false)).
Proof.
  unfold fetchJson, fetchOrThrow. destruct (default g (fetchFn opts) url init w) as [w1 [res|e1]]; cbn.
  2: { intros [= -> ->]. by left. }
  destruct (fr_ok res) eqn:Eo; cbn [negb].
  - destruct (fr_json res) as [v|cause] eqn:Ej; intros [= -> <-]. right. exists res. split; [done|]. right. eauto.
  - intros [= -> <-]. right. exists res. split; [done|]. left. split; [done|]. eexists. split; [done|]. split.
    + unfold bodySnippet. destruct (fr_text res) as [[text|]|]; [|cbn; lia..]. unfold str_take.
      apply str_take_at_most.
    + cbn. f_equal. destruct (Z.eqb_spec (fr_status res) 429), (Z.leb_spec 500 (fr_status res)); cbn;
        symmetry; (apply bool_decide_eq_true; lia) || (apply bool_decide_eq_false; lia).
Qed.

(** * Concrete completions *)

Definition weigh : ToolUse := mkUse (JStr "weigh") (JObj [("body", JStr "moon")]).

Lemma providers_agree_witness :
  (readGroq (groq_answer "I weigh it." [weigh] num_one num_zero) =
     Ok (mkAnswer (JStr "I weigh it.") [weigh] (JNum num_one) (JNum num_zero) "groq")) /\
  (forall input, splitAnthropicMessages input =
     (map m_content (List.filter (fun m => (m_role m =? "system")%string) input),
      map groq_message (List.filter told input))) /\
  readAnthropic (anthropic_answer "I weigh it." [weigh] num_one num_zero) =
    Ok (mkAnswer (JStr "I weigh it.") [weigh] (JNum num_one) (JNum num_zero) "anthropic") /\
  readGroq (groq_answer "I weigh it." [weigh] num_one num_zero) =
    Ok (mkAnswer (JStr "I weigh it.") [weigh] (JNum num_one) (JNum num_zero) "groq").
Proof.
  split; [vm_compute; reflexivity|]. apply (providers_agree [weigh] "I weigh it." num_one num_zero).
  constructor; [|constructor]. split; [|vm_compute; reflexivity]. exists "weigh". split; [reflexivity|discriminate].
Defined.

(** The world is the number of calls made. *)
Definition answering (r : jsval + thrown) : AnthropicClient nat := fun _ n => (S n, r).
Definition groq_says (ok : bool) (status : Z) (body : jsval) : Fetch nat := fun _ _ n =>
  (S n, inl (mkResponse ok status (Some (inl "busy")) (inl body))).
Definition host (claude : jsval + thrown) (groq : Fetch nat) : Process nat :=
  mkProcess None (Some "gsk") (fun _ => answering claude) groq.
Definition with_claude (claude : jsval + thrown) : ProviderRouterOptions nat :=
  mkOptions None None None (Some (fun _ n => (S n, inr (Foreign None "Error" "queue down"))))
    None None (Some (answering claude)) None.
Definition ask : ProviderRouterRequest := mkRequest [mkMsg "user" "How heavy is the moon?"] None None.
Definition overloaded : jsval + thrown := inr (Foreign (Some 529) "APIError" "overloaded").
Definition outcome (claude : jsval + thrown) (groq : Fetch nat) :=
  let '(s, out) := complete (host claude groq) (with_claude claude) ask (mkRouter 0%nat []) in
  (r_world s, map (fun r => match r with RAnthropic _ _ => 1 | RGroq _ _ => 2 | RQueue _ => 3 | RConsole _ => 4 end)
                (r_log s), out).

(** An overloaded provider is a server error: the answer is Groq's. *)
Example hands_over : outcome overloaded (groq_says true 200 (groq_answer "7e22 kg" [] num_one num_one)) =
  (2%nat, [1; 4; 2], inl (mkAnswer (JStr "7e22 kg") [] (JNum num_one) (JNum num_one) "groq")).
Proof. vm_compute. reflexivity. Qed.

(** Both down: one retry is queued, whose failure is swallowed. *)
Example all_down : match outcome overloaded (groq_says false 503 JNull) with
  (n, l, inr e) => (n, l, message_of e) | _ => (0%nat, [], "") end =
  (3%nat, [1; 4; 2; 4; 3],
   "All providers failed. Last error: Groq HTTP 503 https://api.groq.com/openai/v1/chat/completions: busy").
Proof. vm_compute. reflexivity. Qed.

(** A refused request is final: nothing is queued. *)
Example final_refusal : match outcome (inr (Foreign (Some 400) "APIError" "bad request")) (groq_says true 200 JNull) with
  (n, l, inr e) => (n, l, message_of e) | _ => (0%nat, [], "") end =
  (1%nat, [1], "Anthropic call failed (non-retryable): bad request").
Proof. vm_compute. reflexivity. Qed.

(** A malformed answer of the preferred provider is final too, not handed over. *)
Example malformed_is_final : match outcome (inl JNull) (groq_says true 200 JNull) with
  (n, l, inr e) => (n, l, message_of e) | _ => (0%nat, [], "") end =
  (1%nat, [1], "Anthropic call failed (non-retryable): Cannot read properties of null (reading 'content')").
Proof. vm_compute. reflexivity. Qed.

(** A message of an unknown role goes to Groq, and not to Anthropic. *)
Example unknown_role : splitAnthropicMessages [mkMsg "developer" "Be brief."] = ([], []).
Proof. reflexivity. Qed.

(** Arguments that parse to a number are passed on as one, and what is not a
    number of tokens as it is. *)
Example bare_arguments : tool_args (JStr "42") = JNum (num_of_Z 42).
Proof. vm_compute. reflexivity. Qed.
Example unchecked_usage :
  usage_of (JObj [("usage", JObj [("prompt_tokens", JStr "many")])]) "prompt_tokens" = JStr "many".
Proof. vm_compute. reflexivity. Qed.

(** Handed over for an error whose reason is printed as plain [error]. *)
Example reset_label : isAnthropicFallbackEligible (Foreign None "Error" "read ECONNRESET") = true /\
  classifyAnthropicErr (Foreign None "Error" "read ECONNRESET") = "error".
Proof. vm_compute. done. Qed.

(** A host that prefers Groq and has no key is told that Anthropic failed. *)
Example never_tried :
  (let '(s, out) := complete (mkProcess (Some "sk") None (fun _ => answering overloaded) (groq_says true 200 JNull))
      (mkOptions (Some false) None None None None None None None) ask (mkRouter 0%nat []) in
   (r_log s, match out with inr (ProviderRouterError m c) => Some (m, c) | _ => None end)) =
  ([], Some ("All providers unavailable: Anthropic failed and Groq API key missing", None)).
Proof. vm_compute. reflexivity. Qed.

Lemma fetch_failures_witness :
  500 <= 503 /\
  (default (groq_says false 503 JNull) None "u" (mkInit "GET" [] None) O = (1%nat, inr (HttpError 503 "u" "bus" None)) \/
   exists res, default (groq_says false 503 JNull) None "u" (mkInit "GET" [] None) O = (1%nat, inl res) /\
    ((fr_ok res = false /\ exists snippet,
        HttpError 503 "u" "bus" None = HttpError (fr_status res) "u" snippet None /\
        (String.length snippet <= default 500 (Some 3))%nat /\
        retryable_of (HttpError 503 "u" "bus" None) = Some (bool_decide (fr_status res = 429 \/ 500 <= fr_status res))) \/
     (fr_ok res = true /\ exists cause, fr_json res = inr cause /\ HttpError 503 "u" "bus" None = JsonParseError "u" cause /\
        retryable_of (HttpError 503 "u" "bus" None) = Some false))).
Proof.
  split; [lia|].
  apply (fetch_failures (groq_says false 503 JNull) "u" (mkInit "GET" [] None) (mkFetchOpts (Some 3%nat) None None) O).
  vm_compute. reflexivity.
Defined.
